(* ===== verification/_CoqProject ===== *)
-Q . S2P
Prelude.v
Dvh.v
Efs.v
Unixcompress.v
Unixpack.v
Netip.v
Text.v
Path.v
Tree.v
Build.v
Cache.v
Range.v
Strconv.v
Strings.v
Rcmd.v
Addr.v
Config.v
Idb.v
Inst.v
Coalesce.v
Interrupt.v
Shell.v
Dd.v
Session.v
Confined.v
Attempts.v
Capture.v
Accounts.v
Segment.v
Scope.v
Generate.v
Rsh.v
Install.v
Glob.v
Extract.v
Rel.v
Extractor.v
Drain.v
Links.v
Contained.v
Truth.v
Demoset.v
PathTable.v
Bootp.v
Tftp.v
Xdr.v
Nfs.v
Rpc.v
Nfs2.v
Nfs3.v
Mount.v
Portmap.v
Server.v
Nfs3Client.v
MemFs.v
Simulation.v
Sharefs.v
Handles.v
Shareserver.v
Multi.v
Demohost.v
Resolver.v
Services.v
Configured.v
Boot.v
Checks.v
Serving.v
Clients.v
Commands.v
Dump.v
Nfsexport.v
Extractrun.v
Extractcmd.v
