(* ===== verification/Prelude.v ===== *)
(** * instigator: a server that boots and installs SGI machines

    ** The program

    One process answers a machine that boots from its PROM, runs the miniroot and
    then [inst], IRIX's installer. BOOTP and DHCP give it an address
    ([internal/bootp]), TFTP the boot files ([internal/tftp]), rsh a shell on which
    [inst] lists and reads distributions ([rcmd], [internal/instcmd],
    [internal/serve]). All of them serve one read-only tree, merged from CD images,
    directories and archives ([internal/vfs]), that may be read from a web server by
    byte range ([internal/source]). A configuration ([internal/config]) says which
    sets are in the tree, which machines are served and which command files are
    generated beside the sets ([internal/instscript]). What a machine did is recorded
    ([internal/capture]). The media are SGI disks with EFS file systems ([dvh],
    [efs]); distributions are manifests and archives ([inst]) of files that may be
    compressed ([unixcompress], [unixpack]). [internal/extract] writes the files of a
    distribution to disk instead of serving them, the dump command those of an image.
    The share command exports directories of the host over NFS to read and write
    ([nfs], [internal/sharefs]), also on a private segment of Ethernet frames
    ([internal/qemunet]); [internal/nfsexport] exports any file system of io/fs
    read-only, and only the tests of the repository call it.

    ** How the development follows the code

    A Go function is a function of the same name; one that fails returns [outcome],
    whose [Panic] is a run-time panic, so that its absence is a theorem. Bytes are
    [list Z]; integers of a width are [Z] with the wrap-around written out
    ([u32], [i64], ... below). What the code calls and does not own is an argument:
    a record of operations ([Nfs.FS], [Sharefs.Host], [Shell.Host],
    [Extractor.Root], [Inst.FS], io/fs sources in [Tree]) with its laws as a class
    ([Nfs.FSLaws], [Confined.Guarded], ...) when a theorem needs them, and each class
    has an instance. Code that opens things and has to close them is a [prog] of
    [Scope]: it carries what is open and a log of what was done. Goroutines that
    share state are steps of a relation or automaton, in any order ([Cache],
    [Interrupt], [Segment], [Serving], [Tftp]'s network).

    ** Files

    Media:
    - [Dvh]: [dvh/dvh.go]. [Efs]: [efs/efs.go], [inode.go], [fsys.go].
    - [Unixcompress]: [unixcompress/reader.go]. [Unixpack]: [unixpack/reader.go].
      [Drain]: both read to their end.
    - [Idb], [Inst]: [inst/idb.go]; [inst/dist.go], [unwrap.go].
    - [Cache], [Range]: [internal/source/cachingreaderat.go]; [rangereader.go],
      [cachestore.go], [probe.go] and the redirect rule of [source.go].
      [Resolver]: the rest of [source.go] with [creds.go] and [url.go].
    The served tree:
    - [Config]: [internal/config]; [Addr] the addresses in it.
    - [Tree]: [internal/vfs/tree.go], [generated.go], [origin.go] and [mergeChild].
    - [Build]: [internal/vfs/build.go], [spec.go], [resolver.go], [vfs.go].
    - [Generate]: [internal/instscript], what [internal/serve/serve.go] generates, and
      the sets of [internal/mediatree]. [Install]: a client that follows those files.
    The shell:
    - [Rcmd]: [rcmd/rcmd.go], one connection.
    - [Coalesce], [Interrupt], [Session]: the output, the interruption of transfers
      and the loop over lines of [internal/instcmd/shell.go]; [Shell] its handlers and
      commands, [Dd] what dd copies, [Confined] where they may go.
    - [Attempts], [Rsh]: [internal/serve/install_timing.go]; [cmdFS] of
      [internal/serve/serve.go], which puts the tree behind the shell.
    - [Capture], [Accounts]: [internal/capture], the recorder and its summary.
    The server:
    - [Services], [Configured]: [Start] and [CloseWithReason] of
      [internal/serve/serve.go], and whom its servers serve. [Boot]: [treeFS] of that
      file, and a machine that boots by BOOTP and TFTP. [Checks]:
      [internal/serve/check.go] with [Check]. [Serving]: the accept loops and
      [Shutdown] of [rcmd/rcmd.go], [nfs/rpc.go] and [internal/tftp/tftp.go].
    - [Clients], [Commands]: [cmd/instigator/share.go], [private.go], [serve.go].
    Extraction:
    - [Extract]: [plan] of [internal/extract/extract.go]; [Extractor]: [write.go] and
      what [extractSet] does with the items; [Links], [Contained]: where its links
      and writes go; [Truth]: that its records are true; [Demoset]: an extraction on
      a small set. [Extractrun]: [Run]; [Extractcmd]: [cmd/instigator/extract.go].
    - [Dump]: [cmd/instigator/dump.go].
    Network services:
    - [Bootp]: [internal/bootp/bootp.go], [dhcp.go]. [Tftp]: [internal/tftp/tftp.go].
    - [Segment]: [internal/qemunet/framing.go], the pumps of [qemunet.go].
    - [Xdr], [Nfs], [Rpc], [Nfs2], [Nfs3], [Mount], [Portmap], [Server]: the files of
      [nfs/] of these names ([Server] is the table of procedures); [Nfs3Client]:
      what repeated calls give; [Simulation]: exports no client can tell apart;
      [MemFs]: an export in memory on which theorems are evaluated.
    - [Nfsexport]: [internal/nfsexport], over any io/fs file system and over the tree.
    Shares:
    - [PathTable], [Sharefs], [Multi]: [internal/sharefs/table.go], [sharefs.go] (with
      [stat.go], [sys_linux.go], [errno_unix.go]), [multi.go]; [Handles]: what a
      handle finds; [Shareserver]: a share behind the server; [Demohost]: a host on
      which these are evaluated.
    Go's libraries, translated where their results matter: [Netip], [Text], [Path],
    [Rel], [Glob], [Strconv], [Strings].

    ** What the theorems show

    - Confinement: no request of an NFS client ([Shareserver]), no line of a shell
      client ([Confined]), no entry of a distribution ([Contained]), no name in a
      dumped image ([Dump]) and no redirect of a web server ([Range]) makes the
      program reach what it should not; only configured clients are answered
      ([Configured], [Clients]).
    - Bytes: a file is served as the media hold it, along each part of the way:
      extents ([Efs]), LZW and Huffman codes, records of archives ([Inst]), chunks
      and ranges ([Cache], [Range]), layers ([Build]), blocks of dd and of TFTP
      ([Dd], [Rsh], [Tftp]), READ and READDIR ([Nfs3Client], [Nfsexport]), frames
      ([Segment]).
    - Installs: an accepted configuration is well formed ([Config]), a client that
      follows the generated files carries out the configured passes ([Install]), and
      what an extraction records is what it wrote ([Truth], [Extractrun]).
    - State: handles, ids and cookies stay good across renames, removals and
      restarts ([PathTable], [Handles]); a retransmitted call runs once ([Rpc]); an
      attempt is told once ([Attempts]); an interrupt is not carried to the next
      transfer ([Interrupt]); the summary accounts for what was counted ([Accounts]).
    - Resources: whatever fails on the way, what was opened is closed ([Resolver],
      [Generate.openTree_runs], [Services], [Checks], [Commands], [Extractrun]); a shutdown ends what was accepted
      ([Serving]).
    - Totality: no panic and no endless loop on hostile input ([Build.Build_ends] and
      most files); where that, or a property above, needs a condition, what happens
      without it is proved too ([Dd.dd_block_sizes], [Build.Build_cyclic_image],
      [Demoset.unpacking_climbs], [PathTable.failed_write_revives],
      [Nfsexport.unnameable_root], [Install.attempts_script_lost]).
    - Composition: an export is a simulation of another ([Simulation]); shares served as
      one do not mix ([Multi]); shares are put behind the server, the tree behind the shell, TFTP and NFS, and the host
      behind the share by instantiating the interfaces; a machine of an accepted
      configuration is told its boot file and gets its bytes ([Boot]).

    ** Fuel and bounds

    Loops that are not structural carry fuel, and a theorem says how much is enough:
    [Rpc.readRecord] by the fragments of the input, [serve_loop] its length and one;
    [Tftp]'s loops by the datagrams that can come before a timeout; decoders
    ([Unixcompress], [Unixpack]) by the input and the codes a byte can hold;
    [Cache] by three turns for each byte asked for; [Build] by the depth of its
    sources and [maxSymlinks] links; [Sharefs]'s search by more than the number of
    directories; [Idb.ParseIDB] by the length of the text and one; [Shell]'s dd by
    more turns than the file has bytes; [Glob.Match] by the length of the pattern;
    [Config.InstallOrder] by two more than the sets; the loops of [Segment] by one
    more than the bytes; [Dump]'s copy by the blocks of 64 KiB of the file and two;
    [Nfsexport]'s walk by the depth of the tree; [Extractcmd]'s search for a name by
    one more than the names; a depth of 5 is enough for what a command file sources
    ([Install]). The 100 empty reads that [bufio] allows are the library's,
    [unpackOf]'s depth of 40 the code's. [Extractor]'s [turns] bound the blocks of
    32 KiB of one file: its theorem of containment holds for any number, and [Truth]
    shows that enough of them end an extraction. [Accounts] holds for percentiles of
    fewer than 2^47 samples.

    ** Not modelled

    - Sockets, goroutine scheduling where no state is shared, log lines, the text of
      errors and reports, and wall clocks; a service is modelled from the datagram or
      stream it is given, and a time limit is an event that may come.
    - The shell's parser and interpreter (mvdan.cc/sh) and what the code asks of their
      syntax trees ([hasBackgroundSyntax], [hasUnsupportedTransferPipeline]); the
      interpreter is any program of calls of the handlers, one at a time.
    - The network stack of the private segment (gVisor) and the calls that set it up.
    - Regular expressions, time zones, YAML, JSON, digests and HTTP: parameters, or
      left out with the code that only calls them.
    - The provenance in [run.json], which nothing reads back, the commands that only
      print (check, ls, trace), and platform files for Darwin and Windows.
*)
From Stdlib Require Export ZArith Lia.
From stdpp Require Export base numbers list strings gmap sorting.
#[export] Set Default Goal Selector "!".
Open Scope Z_scope.

(** ** Automation *)

Create HintDb golib.
Create Rewrite HintDb zlen.

(** Case analysis on every [if] and [match] whose scrutinee is a closed
    boolean or option test in the goal, reflecting comparisons into [Prop]. *)
Ltac zbool :=
  repeat match goal with
  | H : (_ =? _) = true |- _ => apply Z.eqb_eq in H
  | H : (_ =? _) = false |- _ => apply Z.eqb_neq in H
  | H : (_ <? _) = true |- _ => apply Z.ltb_lt in H
  | H : (_ <? _) = false |- _ => apply Z.ltb_ge in H
  | H : (_ <=? _) = true |- _ => apply Z.leb_le in H
  | H : (_ <=? _) = false |- _ => apply Z.leb_gt in H
  | H : andb _ _ = true |- _ => apply andb_true_iff in H; destruct H
  | H : orb _ _ = false |- _ => apply orb_false_iff in H; destruct H
  | H : orb _ _ = true |- _ => apply orb_true_iff in H
  | H : negb _ = true |- _ => apply negb_true_iff in H
  | H : negb _ = false |- _ => apply negb_false_iff in H
  end.

(** ** Go results: a value, an error, or a run-time panic *)

Inductive outcome (E A : Type) : Type :=
| Ok (a : A)
| Err (e : E)
| Panic.
Arguments Ok {E A} a.
Arguments Err {E A} e.
Arguments Panic {E A}.

#[export] Instance outcome_ret {E} : MRet (outcome E) := fun A a => Ok a.
#[export] Instance outcome_bind {E} : MBind (outcome E) := fun A B f m =>
  match m with Ok a => f a | Err e => Err e | Panic => Panic end.
#[export] Instance outcome_fmap {E} : FMap (outcome E) := fun A B f m =>
  match m with Ok a => Ok (f a) | Err e => Err e | Panic => Panic end.

Lemma Ok_inj {E A} (a b : A) : @Ok E A a = Ok b -> a = b.
Proof. by injection 1. Qed.

Definition is_panic {E A} (m : outcome E A) : bool :=
  match m with Panic => true | _ => false end.

(** ** Fixed-width integers *)

Definition u8 (z : Z) : Z := z mod 2 ^ 8.
Definition u16 (z : Z) : Z := z mod 2 ^ 16.
Definition u32 (z : Z) : Z := z mod 2 ^ 32.
Definition u64 (z : Z) : Z := z mod 2 ^ 64.

(** Reinterpret the low [w] bits as a two's complement signed integer. *)
Definition signed (w z : Z) : Z := (z + 2 ^ (w - 1)) mod 2 ^ w - 2 ^ (w - 1).
Definition i16 (z : Z) : Z := signed 16 z.
Definition i32 (z : Z) : Z := signed 32 z.
Definition i64 (z : Z) : Z := signed 64 z.

Definition max_u32 : Z := 2 ^ 32 - 1.
Definition max_i64 : Z := 2 ^ 63 - 1.

Lemma signed_range w z : 0 < w -> - 2 ^ (w - 1) <= signed w z < 2 ^ (w - 1).
Proof.
  intros Hw. unfold signed.
  pose proof (Z.mod_pos_bound (z + 2 ^ (w - 1)) (2 ^ w) ltac:(lia)).
  assert (2 ^ w = 2 * 2 ^ (w - 1)) by (rewrite <- Z.pow_succ_r by lia; f_equal; lia).
  lia.
Qed.

Lemma signed_id w z : 0 < w -> - 2 ^ (w - 1) <= z < 2 ^ (w - 1) -> signed w z = z.
Proof.
  intros Hw Hz. unfold signed.
  assert (2 ^ w = 2 * 2 ^ (w - 1)) by (rewrite <- Z.pow_succ_r by lia; f_equal; lia).
  rewrite Z.mod_small by lia. lia.
Qed.

Lemma signed_mod w z : 0 < w -> signed w (z mod 2 ^ w) = signed w z.
Proof. intros Hw. unfold signed. by rewrite Zplus_mod_idemp_l. Qed.

Lemma i32_range z : - 2 ^ 31 <= i32 z < 2 ^ 31.
Proof. apply (signed_range 32). lia. Qed.
Lemma i16_range z : - 2 ^ 15 <= i16 z < 2 ^ 15.
Proof. apply (signed_range 16). lia. Qed.
Lemma u32_range z : 0 <= u32 z < 2 ^ 32.
Proof. apply Z.mod_pos_bound. lia. Qed.
Lemma u16_range z : 0 <= u16 z < 2 ^ 16.
Proof. apply Z.mod_pos_bound. lia. Qed.
Lemma u32_small z : 0 <= z < 2 ^ 32 -> u32 z = z.
Proof. apply Z.mod_small. Qed.
Lemma u64_small z : 0 <= z < 2 ^ 64 -> u64 z = z.
Proof. apply Z.mod_small. Qed.
#[export] Hint Resolve i32_range i16_range u32_range u16_range : golib.

(** ** Bytes and slices *)

(** Go's [[]byte] and [string] are both byte sequences. *)
Abbreviation bytes := (list Z).

Definition is_byte (b : Z) : Prop := 0 <= b < 256.
Definition wf_bytes (l : bytes) : Prop := Forall is_byte l.

#[export] Instance is_byte_dec b : Decision (is_byte b).
Proof. unfold is_byte. apply _. Defined.
#[export] Instance wf_bytes_dec l : Decision (wf_bytes l).
Proof. unfold wf_bytes. apply _. Defined.

Definition zlen {A} (l : list A) : Z := Z.of_nat (length l).

(** [sub l lo n] is [l[lo:lo+n]] for in-range bounds. *)
Definition sub {A} (l : list A) (lo n : Z) : list A :=
  take (Z.to_nat n) (drop (Z.to_nat lo) l).

(** [at_ l i] is [l[i]], with a default outside the list. *)
Definition at_ (l : bytes) (i : Z) : Z := nth (Z.to_nat i) l 0.

(** A Go slice expression [l[lo:hi]]: out-of-range bounds panic. *)
Definition slice {E A} (l : list A) (lo hi : Z) : outcome E (list A) :=
  if (0 <=? lo) && (lo <=? hi) && (hi <=? zlen l) then Ok (sub l lo (hi - lo)) else Panic.

(** A string literal as bytes. *)
Definition str (s : string) : bytes :=
  (fun c => Z.of_nat (Ascii.nat_of_ascii c)) <$> String.list_ascii_of_string s.

Lemma zlen_nonneg {A} (l : list A) : 0 <= zlen l.
Proof. unfold zlen. lia. Qed.
Lemma zlen_nil {A} : zlen (@nil A) = 0.
Proof. reflexivity. Qed.
Lemma zlen_cons {A} (x : A) l : zlen (x :: l) = 1 + zlen l.
Proof. unfold zlen. cbn [length]. lia. Qed.
Lemma zlen_app {A} (l k : list A) : zlen (l ++ k) = zlen l + zlen k.
Proof. unfold zlen. rewrite length_app. lia. Qed.
Lemma zlen_replicate {A} n (x : A) : zlen (replicate n x) = Z.of_nat n.
Proof. unfold zlen. by rewrite length_replicate. Qed.
#[export] Hint Resolve zlen_nonneg : golib.
#[export] Hint Rewrite @zlen_app @zlen_cons @zlen_nil @zlen_replicate : zlen.

Lemma zlen_sub {A} (l : list A) lo n :
  0 <= lo -> 0 <= n -> lo + n <= zlen l -> zlen (sub l lo n) = n.
Proof. unfold zlen, sub. intros. rewrite length_take, length_drop. lia. Qed.

Lemma zlen_sub_min {A} (l : list A) lo n :
  0 <= lo -> 0 <= n -> zlen (sub l lo n) = Z.max 0 (Z.min n (zlen l - lo)).
Proof. unfold zlen, sub. intros. rewrite length_take, length_drop. lia. Qed.

Lemma sub_app_l {A} (l k : list A) n : n = zlen l -> sub (l ++ k) 0 n = l.
Proof.
  intros ->. unfold sub, zlen. rewrite Nat2Z.id. change (Z.to_nat 0) with 0%nat.
  rewrite drop_0. apply take_app_length.
Qed.

Lemma sub_app_r {A} (l k : list A) lo n : zlen l <= lo ->
  sub (l ++ k) lo n = sub k (lo - zlen l) n.
Proof.
  unfold sub, zlen. intros H. f_equal. rewrite drop_app_ge by lia. f_equal. lia.
Qed.

Lemma sub_all {A} (l : list A) n : n = zlen l -> sub l 0 n = l.
Proof. intros ->. rewrite <- (app_nil_r l) at 1. by apply sub_app_l. Qed.

Lemma sub_0 {A} (l : list A) lo : sub l lo 0 = [].
Proof. reflexivity. Qed.

Lemma sub_split {A} (l : list A) lo n m : 0 <= lo -> 0 <= n -> 0 <= m ->
  sub l lo (n + m) = sub l lo n ++ sub l (lo + n) m.
Proof.
  intros. unfold sub. rewrite !Z2Nat.inj_add by lia.
  rewrite <- drop_drop.
  generalize (drop (Z.to_nat lo) l). intros k. clear.
  revert k. induction (Z.to_nat n) as [|i IH]; intros k.
  - cbn. by rewrite drop_0.
  - destruct k as [|x k]; cbn; [by rewrite take_nil|]. by rewrite IH.
Qed.

Lemma lookup_sub {A} (l : list A) lo n i : 0 <= lo -> 0 <= n -> Z.of_nat i < n ->
  sub l lo n !! i = l !! (Z.to_nat lo + i)%nat.
Proof. intros. unfold sub. rewrite lookup_take_lt by lia. apply lookup_drop. Qed.

Lemma wf_bytes_sub l lo n : wf_bytes l -> wf_bytes (sub l lo n).
Proof. intros. unfold sub, wf_bytes. by apply Forall_take, Forall_drop. Qed.
Lemma wf_bytes_app l k : wf_bytes l -> wf_bytes k -> wf_bytes (l ++ k).
Proof. apply Forall_app_2. Qed.
Lemma wf_bytes_replicate n : wf_bytes (replicate n 0).
Proof. apply Forall_replicate. unfold is_byte. lia. Qed.
#[export] Hint Resolve wf_bytes_sub wf_bytes_app wf_bytes_replicate : golib.

Lemma at_range l i : wf_bytes l -> 0 <= at_ l i < 256.
Proof.
  intros Hl. unfold at_. destruct (nth_in_or_default (Z.to_nat i) l 0) as [H|H].
  - eapply Forall_forall in Hl; [exact Hl|]. by apply list_elem_of_In.
  - rewrite H. lia.
Qed.

Lemma at_app_r l k i : zlen l <= i -> at_ (l ++ k) i = at_ k (i - zlen l).
Proof.
  unfold at_, zlen. intros. rewrite app_nth2 by lia. f_equal. lia.
Qed.
Lemma at_app_l l k i : 0 <= i < zlen l -> at_ (l ++ k) i = at_ l i.
Proof. unfold at_, zlen. intros. by rewrite app_nth1 by lia. Qed.

Lemma slice_ok {E A} (l : list A) lo hi : 0 <= lo -> lo <= hi -> hi <= zlen l ->
  @slice E A l lo hi = Ok (sub l lo (hi - lo)).
Proof.
  intros. unfold slice. rewrite !(proj2 (Z.leb_le _ _)) by lia. reflexivity.
Qed.

(** ** Big-endian integers *)

Definition be (l : bytes) : Z := fold_left (fun acc b => acc * 256 + b) l 0.

Fixpoint be_enc (n : nat) (z : Z) : bytes :=
  match n with
  | O => []
  | S k => (z / 256 ^ Z.of_nat k) mod 256 :: be_enc k z
  end.

Definition get_u16 (l : bytes) (off : Z) : Z := be (sub l off 2).
Definition get_u32 (l : bytes) (off : Z) : Z := be (sub l off 4).
Definition get_u64 (l : bytes) (off : Z) : Z := be (sub l off 8).

Lemma be_acc l acc :
  fold_left (fun acc b => acc * 256 + b) l acc = acc * 256 ^ zlen l + be l.
Proof.
  unfold be. revert acc. induction l as [|b l IH]; intros acc; cbn [fold_left].
  - rewrite zlen_nil. lia.
  - rewrite (IH (acc * 256 + b)), (IH (0 * 256 + b)), zlen_cons.
    rewrite Z.pow_add_r by (auto with golib; lia). lia.
Qed.

Lemma be_cons b l : be (b :: l) = b * 256 ^ zlen l + be l.
Proof. unfold be at 1. cbn [fold_left]. rewrite be_acc. lia. Qed.

Lemma be_app l k : be (l ++ k) = be l * 256 ^ zlen k + be k.
Proof. unfold be at 1. rewrite fold_left_app. fold (be l). apply be_acc. Qed.

Lemma be_range l : wf_bytes l -> 0 <= be l < 256 ^ zlen l.
Proof.
  induction 1 as [|b l Hb Hl IH]; [done|].
  rewrite be_cons, zlen_cons, Z.pow_add_r by (auto with golib; lia).
  unfold is_byte in Hb. change (256 ^ 1) with 256.
  set (p := 256 ^ zlen l) in *. nia.
Qed.

Lemma length_be_enc n z : length (be_enc n z) = n.
Proof. induction n; cbn; congruence. Qed.
Lemma zlen_be_enc n z : zlen (be_enc n z) = Z.of_nat n.
Proof. unfold zlen. by rewrite length_be_enc. Qed.
#[export] Hint Rewrite zlen_be_enc : zlen.

Lemma wf_be_enc n z : wf_bytes (be_enc n z).
Proof.
  induction n; cbn; constructor; [|done]. unfold is_byte.
  apply Z.mod_pos_bound. lia.
Qed.
#[export] Hint Resolve wf_be_enc : golib.

Lemma be_be_enc n z : be (be_enc n z) = z mod 256 ^ Z.of_nat n.
Proof.
  induction n as [|n IH]; [cbn; by rewrite Z.mod_1_r|].
  cbn [be_enc]. rewrite be_cons, IH, zlen_be_enc.
  rewrite Nat2Z.inj_succ, Z.pow_succ_r by lia.
  rewrite (Z.mul_comm 256 (256 ^ Z.of_nat n)), Z.rem_mul_r by lia. lia.
Qed.

Lemma be_enc_add n a z : be_enc n (a * 256 ^ Z.of_nat n + z) = be_enc n z.
Proof.
  revert a. induction n as [|n IH]; intros a; [done|]. cbn [be_enc].
  rewrite Nat2Z.inj_succ, Z.pow_succ_r, Z.mul_assoc by lia.
  rewrite IH. f_equal.
  rewrite Z.div_add_l by lia. rewrite Z.add_comm. by rewrite Z_mod_plus_full.
Qed.

Lemma be_enc_mod n z : be_enc n (z mod 256 ^ Z.of_nat n) = be_enc n z.
Proof.
  rewrite (Z.div_mod z (256 ^ Z.of_nat n)) at 2 by lia.
  by rewrite (Z.mul_comm (256 ^ Z.of_nat n)), be_enc_add.
Qed.

Lemma be_enc_be (l : bytes) n : wf_bytes l -> n = length l -> be_enc n (be l) = l.
Proof.
  intros Hl ->. induction Hl as [|b l Hb Hl IH]; [done|]. cbn [length be_enc].
  pose proof (be_range l Hl) as Hr. rewrite be_cons, be_enc_add, IH.
  unfold zlen in *. unfold is_byte in Hb. f_equal.
  rewrite Z.div_add_l, (Z.div_small (be l)) by lia.
  rewrite Z.mod_small; lia.
Qed.

Lemma be_enc_u32 z : be_enc 4 (u32 z) = be_enc 4 z.
Proof. apply (be_enc_mod 4). Qed.

Lemma get_u32_range (l : bytes) off : wf_bytes l -> 0 <= get_u32 l off < 2 ^ 32.
Proof.
  intros Hl. unfold get_u32.
  pose proof (be_range (sub l off 4) (wf_bytes_sub _ _ _ Hl)) as Hr.
  assert (zlen (sub l off 4) <= 4) as Hz.
  { unfold zlen, sub. rewrite length_take. lia. }
  pose proof (Z.pow_le_mono_r 256 _ _ ltac:(lia) Hz). lia.
Qed.

Lemma get_u32_enc k v : get_u32 (be_enc 4 v ++ k) 0 = u32 v.
Proof. unfold get_u32. rewrite sub_app_l by done. apply (be_be_enc 4). Qed.

#[global] Arguments be_enc : simpl never.
#[global] Arguments be : simpl never.
#[global] Arguments sub : simpl never.

(** ** Fixed-size records laid out one after another *)

Lemma sub_sub {A} (l : list A) lo n o m :
  0 <= lo -> 0 <= o -> 0 <= m -> o + m <= n ->
  sub (sub l lo n) o m = sub l (lo + o) m.
Proof.
  intros. unfold sub. rewrite skipn_firstn_comm, take_take, drop_drop.
  f_equal; [lia|]. f_equal. lia.
Qed.

Lemma sub_app_l_le {A} (l k : list A) lo n :
  0 <= lo -> 0 <= n -> lo + n <= zlen l -> sub (l ++ k) lo n = sub l lo n.
Proof.
  unfold zlen, sub. intros. rewrite drop_app_le by lia.
  rewrite take_app_le; [done|]. rewrite length_drop. lia.
Qed.

Lemma mjoin_cons {A} (c : list A) ls : mjoin (c :: ls) = c ++ mjoin ls.
Proof. reflexivity. Qed.

Lemma zlen_mjoin_const {A} k (ls : list (list A)) :
  Forall (fun c => zlen c = k) ls -> zlen (mjoin ls) = zlen ls * k.
Proof.
  induction 1 as [|c ls Hc Hls IH]; [done|].
  rewrite mjoin_cons, zlen_app, zlen_cons, IH, Hc. lia.
Qed.

(** The [i]-th of a run of [k]-byte records, after a prefix. *)
Lemma sub_record {A} k (pre post : list A) ls i c o m :
  Forall (fun c => zlen c = k) ls -> ls !! i = Some c ->
  0 <= o -> 0 <= m -> o + m <= k ->
  sub (pre ++ mjoin ls ++ post) (zlen pre + Z.of_nat i * k + o) m = sub c o m.
Proof.
  intros Hls Hi Ho Hm Hk. revert pre i Hi.
  induction Hls as [|d ls Hd Hls IH]; intros pre i Hi; [done|].
  destruct i as [|i]; cbn in Hi.
  - inv Hi. rewrite sub_app_r by (auto with golib; lia).
    replace (_ - _) with o by lia. cbn [mjoin list_join].
    rewrite <- app_assoc. apply sub_app_l_le; lia.
  - cbn [mjoin list_join]. rewrite <- app_assoc, (app_assoc pre d).
    rewrite <- (IH (pre ++ d) i Hi). f_equal. rewrite zlen_app. lia.
Qed.

Lemma omap_seqZ_lookup {A B} (F : Z -> option B) (G : A -> option B) (ls : list A) :
  (forall i c, ls !! i = Some c -> F (Z.of_nat i) = G c) ->
  omap F (seqZ 0 (zlen ls)) = omap G ls.
Proof.
  intros H. unfold seqZ, zlen. rewrite Nat2Z.id.
  enough (forall j, (forall i c, ls !! i = Some c -> F (Z.of_nat (j + i)) = G c) ->
    omap F ((fun i => Z.of_nat i + 0) <$> seq j (length ls)) = omap G ls) as HH
    by (by apply (HH 0%nat)).
  clear H. induction ls as [|c ls IH]; intros j H; [done|]. cbn.
  rewrite Z.add_0_r. rewrite <- (H 0%nat c eq_refl), Nat.add_0_r.
  destruct (F (Z.of_nat j)); [f_equal|]; apply IH; intros i d Hd;
    rewrite <- (H (S i) d Hd); f_equal; lia.
Qed.

Lemma omap_Some_fmap {A B} (f : A -> B) (l : list A) : omap (fun x => Some (f x)) l = f <$> l.
Proof. induction l; cbn; [done|]. by f_equal. Qed.

Lemma fmap_seqZ_lookup {A B} (F : Z -> B) (G : A -> B) (ls : list A) :
  (forall i c, ls !! i = Some c -> F (Z.of_nat i) = G c) ->
  F <$> seqZ 0 (zlen ls) = G <$> ls.
Proof.
  intros H. rewrite <- !omap_Some_fmap. apply omap_seqZ_lookup.
  intros. f_equal. by apply H.
Qed.

Lemma fold_left_ext_in {A B} (f g : A -> B -> A) l a :
  (forall x y, y ∈ l -> f x y = g x y) -> fold_left f l a = fold_left g l a.
Proof.
  revert a. induction l as [|y l IH]; intros a H; [done|]. cbn.
  rewrite H by (left). apply IH. intros. apply H. by right.
Qed.

Lemma length_omap_le' {A B} (f : A -> option B) (l : list A) :
  (length (omap f l) <= length l)%nat.
Proof. induction l as [|x l IH]; cbn; [done|]. destruct (f x); cbn; lia. Qed.

(** ** Go's [io] and [sort], as far as the readers use them *)

(** Errors a reader can report: the two sentinels and anything else. *)
Inductive io_err :=
| EOF
| UnexpectedEOF
| OtherIO (code : Z).

#[export] Instance io_err_eq_dec : EqDecision io_err.
Proof. solve_decision. Defined.

(** An [io.ReaderAt]: [ra off n] is the bytes [ReadAt(p, off)] stores in a
    buffer of length [n], and the error. *)
Definition ReaderAt : Type := Z -> Z -> bytes * option io_err.

(** What [io.ReaderAt] documents, for a reader over [size] bytes whose byte at
    [off] is [content off]: a short read has an error, the bytes are the
    content, and a read inside the data succeeds. *)
Class ReaderAtOK (ra : ReaderAt) (content : Z -> Z) (size : Z) := {
  ra_len : forall off n, 0 <= n -> zlen (fst (ra off n)) <= n;
  ra_short : forall off n, zlen (fst (ra off n)) < n -> snd (ra off n) <> None;
  ra_bytes : forall off n i x, 0 <= off ->
    fst (ra off n) !! i = Some x -> x = content (off + Z.of_nat i);
  ra_inside : forall off n, 0 <= off -> 0 <= n -> off + n <= size ->
    snd (ra off n) = None;
}.

(** A reader over bytes in memory ([bytes.Reader.ReadAt]). *)
Definition image_reader (img : bytes) : ReaderAt := fun off n =>
  if off <? 0 then ([], Some (OtherIO 1))
  else if (zlen img <=? off) && (0 <? n) then ([], Some EOF)
  else
    let d := sub img off n in
    (d, if zlen d <? n then Some EOF else None).

#[export] Instance image_reader_ok img :
  ReaderAtOK (image_reader img) (at_ img) (zlen img).
Proof.
  split; unfold image_reader.
  - intros off n Hn. destruct (off <? 0); [done|].
    destruct (_ && _); [done|]. cbn. unfold zlen, sub. rewrite length_take. lia.
  - intros off n. destruct (off <? 0); [done|]. destruct (_ && _); [done|]. cbn.
    destruct (zlen (sub img off n) <? n) eqn:E; [done|]. zbool. lia.
  - intros off n i x Hoff. destruct (off <? 0); [done|]. destruct (_ && _); [done|]. cbn.
    unfold sub, at_. rewrite lookup_take_Some, lookup_drop. intros [Hi _].
    replace (Z.to_nat (off + Z.of_nat i)) with (Z.to_nat off + i)%nat by lia.
    symmetry. apply nth_lookup_Some with (d := 0) in Hi. by rewrite <- Hi.
  - intros off n Hoff Hn Hsz. rewrite (proj2 (Z.ltb_ge off 0)) by lia.
    destruct ((zlen img <=? off) && (0 <? n)) eqn:E; [zbool; lia|]. cbn.
    rewrite zlen_sub by lia. by rewrite Z.ltb_irrefl.
Qed.

(** [sort.Search(n, f)]: the binary search of the Go library. *)
Fixpoint search_loop (fuel : nat) (f : Z -> bool) (i j : Z) : Z :=
  match fuel with
  | O => i
  | S k =>
      if i <? j then
        let h := (i + j) / 2 in
        if f h then search_loop k f i h else search_loop k f (h + 1) j
      else i
  end.
Definition search (n : Z) (f : Z -> bool) : Z := search_loop (Z.to_nat n) f 0 n.

(** For an [f] monotone on the range, [search] is the first index where it
    holds. *)
Lemma search_loop_spec f fuel i j :
  0 <= i <= j -> j - i <= Z.of_nat fuel ->
  (forall a b, i <= a <= b -> b < j -> f a = true -> f b = true) ->
  let r := search_loop fuel f i j in
  i <= r <= j /\ (forall k, i <= k < r -> f k = false) /\ (forall k, r <= k < j -> f k = true).
Proof.
  revert i j. induction fuel as [|fuel IH]; intros i j Hij Hf Hm; cbn.
  - split_and!; intros; lia.
  - destruct (i <? j) eqn:E; zbool; [|split_and!; intros; lia].
    pose proof (Z.div_lt_upper_bound (i + j) 2 j ltac:(lia) ltac:(lia)).
    pose proof (Z.div_le_lower_bound (i + j) 2 i ltac:(lia) ltac:(lia)).
    destruct (f ((i + j) / 2)) eqn:F.
    + destruct (IH i ((i + j) / 2)) as (H1 & H2 & H3); [lia|lia| |].
      { intros a b Hab Hb. apply Hm; lia. }
      split_and!; [lia|lia|done|]. intros k Hk.
      destruct (decide (k < (i + j) / 2)); [apply H3; lia|].
      eapply Hm; [| |exact F]; lia.
    + destruct (IH ((i + j) / 2 + 1) j) as (H1 & H2 & H3); [lia|lia| |].
      { intros a b Hab Hb. apply Hm; lia. }
      split_and!; [lia|lia| |done]. intros k Hk.
      destruct (decide ((i + j) / 2 < k)); [apply H2; lia|].
      destruct (f k) eqn:G; [|done].
      rewrite (Hm k ((i + j) / 2)) in F; [done|lia|lia|done].
Qed.

Lemma search_spec n f : 0 <= n ->
  (forall a b, 0 <= a <= b -> b < n -> f a = true -> f b = true) ->
  let r := search n f in
  0 <= r <= n /\ (forall k, 0 <= k < r -> f k = false) /\ (forall k, r <= k < n -> f k = true).
Proof. intros. apply search_loop_spec; [lia|lia|done]. Qed.

(** ** Path strings *)

(** [strings.Split(s, sep)] for a one-byte separator. *)
Fixpoint split_byte (c : Z) (s : bytes) : list bytes :=
  match s with
  | [] => [[]]
  | x :: t =>
      if x =? c then [] :: split_byte c t
      else match split_byte c t with
           | [] => [[x]]
           | p :: ps => (x :: p) :: ps
           end
  end.

(** [strings.Trim(s, cutset)] for a one-byte cutset. *)
Fixpoint trim_left (c : Z) (s : bytes) : bytes :=
  match s with
  | [] => []
  | x :: t => if x =? c then trim_left c t else s
  end.
Definition trim_right (c : Z) (s : bytes) : bytes := reverse (trim_left c (reverse s)).
Definition trim (c : Z) (s : bytes) : bytes := trim_right c (trim_left c s).

Definition slash : Z := 47.
Definition dot : Z := 46.

(** ** Go's [unicode/utf8], [path] and [io/fs] on names *)

Definition in_range (lo hi b : Z) : bool := (lo <=? b) && (b <=? hi).
Definition is_cont (b : Z) : bool := in_range 0x80 0xBF b.

(** [utf8.ValidString]: the accepted ranges of the second byte depend on the
    first. *)
Fixpoint valid_utf8 (s : bytes) : bool :=
  match s with
  | [] => true
  | a :: t =>
      if in_range 0 0x7F a then valid_utf8 t
      else match t with
      | [] => false
      | b :: t =>
          if in_range 0xC2 0xDF a then is_cont b && valid_utf8 t
          else match t with
          | [] => false
          | c :: t =>
              if in_range 0xE0 0xEF a then
                (if a =? 0xE0 then in_range 0xA0 0xBF b
                 else if a =? 0xED then in_range 0x80 0x9F b else is_cont b)
                && is_cont c && valid_utf8 t
              else match t with
              | [] => false
              | d :: t =>
                  in_range 0xF0 0xF4 a
                  && (if a =? 0xF0 then in_range 0x90 0xBF b
                      else if a =? 0xF4 then in_range 0x80 0x8F b else is_cont b)
                  && is_cont c && is_cont d && valid_utf8 t
              end
          end
      end
  end.

(** [fs.ValidPath]. *)
Definition ValidPath (name : bytes) : bool :=
  valid_utf8 name
  && (bool_decide (name = [dot])
      || forallb (fun e => negb (bool_decide (e = []) || bool_decide (e = [dot])
                                 || bool_decide (e = [dot; dot])))
           (split_byte slash name)).

(** [path.Base]. *)
Definition path_base (p : bytes) : bytes :=
  if bool_decide (p = []) then [dot]
  else match trim_right slash p with
       | [] => [slash]
       | q => default [] (last (split_byte slash q))
       end.

(** Go's [<=] on strings: bytewise lexicographic. *)
Fixpoint bytes_leb (a b : bytes) : bool :=
  match a, b with
  | [], _ => true
  | _, [] => false
  | x :: s, y :: t => (x <? y) || ((x =? y) && bytes_leb s t)
  end.
Definition bytes_le (a b : bytes) : Prop := bytes_leb a b = true.
#[export] Instance bytes_le_dec : RelDecision bytes_le.
Proof. intros a b. unfold bytes_le. apply _. Defined.

Lemma bytes_leb_total a b : bytes_leb a b = true \/ bytes_leb b a = true.
Proof.
  revert b. induction a as [|x a IH]; intros [|y b]; cbn; auto.
  rewrite !orb_true_iff, !andb_true_iff, !Z.ltb_lt, !Z.eqb_eq.
  destruct (IH b), (Z.lt_trichotomy x y) as [|[->|]]; naive_solver.
Qed.
Lemma bytes_leb_trans a b c :
  bytes_leb a b = true -> bytes_leb b c = true -> bytes_leb a c = true.
Proof.
  revert b c. induction a as [|x a IH]; intros [|y b] [|z c]; cbn; try done.
  rewrite !orb_true_iff, !andb_true_iff, !Z.ltb_lt, !Z.eqb_eq.
  intros [?|[-> ?]] [?|[-> ?]]; try (left; lia). right. split; [done|]. by eapply IH.
Qed.
Lemma bytes_leb_antisym a b : bytes_leb a b = true -> bytes_leb b a = true -> a = b.
Proof.
  revert b. induction a as [|x a IH]; intros [|y b]; cbn; try done.
  rewrite !orb_true_iff, !andb_true_iff, !Z.ltb_lt, !Z.eqb_eq.
  intros [?|[-> ?]] [?|[? ?]]; try lia. f_equal. by apply IH.
Qed.

(** ** Sorted lists, readers and counted ranges *)

Lemma StronglySorted_lookup {A} (R : A -> A -> Prop) (l : list A) i j x y :
  StronglySorted R l -> (i < j)%nat -> l !! i = Some x -> l !! j = Some y -> R x y.
Proof.
  intros H. revert i j. induction H as [|a l Hs IH Ha]; intros [|i] [|j] Hij Hx Hy; cbn in *;
    try lia; try done.
  - inv Hx. eapply Forall_lookup_1 in Ha; [exact Ha|done].
  - eapply (IH i j); [lia|done|done].
Qed.

Lemma zlen_fmap {A B} (f : A -> B) (l : list A) : zlen (f <$> l) = zlen l.
Proof. unfold zlen. by rewrite length_fmap. Qed.
Lemma zlen_seqZ m n : 0 <= n -> zlen (seqZ m n) = n.
Proof. intros. unfold zlen. rewrite length_seqZ. lia. Qed.
#[export] Hint Rewrite @zlen_fmap : zlen.

Lemma lookup_fmap_seqZ {A} (f : Z -> A) m n i x :
  (f <$> seqZ m n) !! i = Some x -> x = f (m + Z.of_nat i).
Proof.
  rewrite list_lookup_fmap. intros (y & Hy & ->)%fmap_Some.
  by apply lookup_seqZ in Hy as [-> _].
Qed.

Lemma list_eq_seqZ {A} (f : Z -> A) m n (l : list A) : zlen l = n ->
  (forall i x, l !! i = Some x -> x = f (m + Z.of_nat i)) -> l = f <$> seqZ m n.
Proof.
  intros Hn Hl. apply list_eq_same_length with (n := length l); [|done|].
  - rewrite length_fmap, length_seqZ. unfold zlen in Hn. lia.
  - intros i x y _ Hx Hy. apply lookup_fmap_seqZ in Hy. rewrite Hy. by apply Hl.
Qed.

(** A healthy reader returns exactly its content. *)
Lemma reader_exact ra content size `{!ReaderAtOK ra content size} off n :
  0 <= off -> 0 <= n -> off + n <= size ->
  ra off n = (content <$> seqZ off n, None).
Proof.
  intros Hoff Hn Hsz.
  pose proof (ra_len off n Hn) as Hl. pose proof (ra_short off n) as Hs.
  pose proof (ra_inside off n Hoff Hn Hsz) as Hi.
  pose proof (fun i x => ra_bytes off n i x Hoff) as Hb.
  destruct (ra off n) as [d e]. cbn in *. subst e. f_equal.
  apply list_eq_seqZ; [|exact Hb].
  destruct (decide (zlen d < n)) as [Hlt|]; [by destruct (Hs Hlt)|lia].
Qed.

Lemma seqZ_of_sub (data : bytes) off n : 0 <= off -> 0 <= n -> off + n <= zlen data ->
  at_ data <$> seqZ off n = sub data off n.
Proof.
  intros. symmetry. apply list_eq_seqZ; [by apply zlen_sub|]. intros i x Hi.
  assert (Hlt : Z.of_nat i < n).
  { apply lookup_lt_Some in Hi. pose proof (zlen_sub data off n ltac:(done) ltac:(done) ltac:(done)) as Hz.
    unfold zlen in Hz. lia. }
  rewrite lookup_sub in Hi by done. unfold at_. symmetry. apply nth_lookup_Some.
  rewrite <- Hi. f_equal. lia.
Qed.

Lemma reader_sub ra img `{!ReaderAtOK ra (at_ img) (zlen img)} off n :
  0 <= off -> 0 <= n -> off + n <= zlen img -> ra off n = (sub img off n, None).
Proof. intros. rewrite (reader_exact ra (at_ img) (zlen img)) by done. by rewrite seqZ_of_sub. Qed.

(** ** Sequential readers *)

(** A buffered [io.Reader]: the bytes still to come, and how the data ends
    ([None]: end of file, [Some e]: a read error). *)
Record stream := MkStream { sdata : bytes; sfail : option Z }.

Definition stream_end (s : stream) : io_err :=
  match sfail s with None => EOF | Some e => OtherIO e end.

(** [io.ReadFull(s, buf)] with [len(buf) = n]. *)
Definition read_full (s : stream) (n : Z) : bytes * option io_err * stream :=
  let got := take (Z.to_nat n) (sdata s) in
  let rest := MkStream (drop (Z.to_nat n) (sdata s)) (sfail s) in
  if n <=? zlen got then (got, None, rest)
  else (got, Some (match stream_end s with
                   | EOF => if zlen got =? 0 then EOF else UnexpectedEOF
                   | e => e
                   end), rest).

(** [bufio.Reader.ReadByte]. *)
Definition read_byte (s : stream) : (Z + io_err) * stream :=
  match sdata s with
  | b :: rest => (inl b, MkStream rest (sfail s))
  | [] => (inr (stream_end s), s)
  end.

(** The result of a loop run with fuel: [Err OutOfFuel] is not a behaviour of
    the program, and each loop has a theorem that rules it out. *)
Inductive stuck := OutOfFuel.

(** Indexing a Go array or slice of known length. *)
Definition index {E} (l : bytes) (i : Z) : outcome E Z :=
  if (0 <=? i) && (i <? zlen l) then Ok (at_ l i) else Panic.

(** Arrays too large to write out: a finite map, zero where unset. *)
Definition arr_get {E} (n : Z) (a : gmap Z Z) (i : Z) : outcome E Z :=
  if (0 <=? i) && (i <? n) then Ok (default 0 (a !! i)) else Panic.
Definition arr_set {E} (n : Z) (a : gmap Z Z) (i v : Z) : outcome E (gmap Z Z) :=
  if (0 <=? i) && (i <? n) then Ok (<[i := v]> a) else Panic.

Lemma index_ok {E} l i : 0 <= i < zlen l -> @index E l i = Ok (at_ l i).
Proof.
  intros. unfold index. by rewrite (proj2 (Z.leb_le _ _)), (proj2 (Z.ltb_lt _ _)) by lia.
Qed.
Lemma arr_get_ok {E} n a i : 0 <= i < n -> @arr_get E n a i = Ok (default 0 (a !! i)).
Proof.
  intros. unfold arr_get. by rewrite (proj2 (Z.leb_le _ _)), (proj2 (Z.ltb_lt _ _)) by lia.
Qed.
Lemma arr_set_ok {E} n a i v : 0 <= i < n -> @arr_set E n a i v = Ok (<[i := v]> a).
Proof.
  intros. unfold arr_set. by rewrite (proj2 (Z.leb_le _ _)), (proj2 (Z.ltb_lt _ _)) by lia.
Qed.

(** ** Little-endian bit fields *)

Fixpoint le (l : bytes) : Z :=
  match l with [] => 0 | b :: t => b + 256 * le t end.

Lemma le_nonneg l : wf_bytes l -> 0 <= le l.
Proof. induction 1 as [|b l Hb Hl IH]; cbn [le]; [lia|]. unfold is_byte in Hb. lia. Qed.

Lemma le_drop n l : wf_bytes l -> le (drop n l) = le l / 256 ^ Z.of_nat n.
Proof.
  revert l. induction n as [|n IH]; intros l Hl; [by rewrite Z.div_1_r|].
  destruct l as [|b l]; [cbn [drop le]; by rewrite Z.div_0_l by lia|].
  apply Forall_cons in Hl as [Hb Hl]. cbn [drop le]. rewrite IH by done.
  rewrite Nat2Z.inj_succ, Z.pow_succ_r, <- Z.div_div by lia.
  unfold is_byte in Hb. f_equal.
  rewrite (Z.mul_comm 256), Z.div_add by lia. rewrite Z.div_small by lia. lia.
Qed.

Lemma lor_shift_add a b k : 0 <= k -> 0 <= a < 2 ^ k ->
  Z.lor a (Z.shiftl b k) = a + 2 ^ k * b.
Proof.
  intros Hk Ha. rewrite Z.shiftl_mul_pow2, (Z.mul_comm (2 ^ k)) by lia.
  rewrite <- Z.add_lor_land, <- Z.shiftl_mul_pow2 by lia.
  assert (Z.land a (Z.shiftl b k) = 0) as ->; [|lia].
  apply Z.bits_inj'. intros n Hn. rewrite Z.land_spec, Z.bits_0.
  destruct (decide (n < k)).
  - by rewrite Z.shiftl_spec_low, andb_false_r by lia.
  - destruct (decide (a = 0)) as [->|]; [by rewrite Z.bits_0|].
    rewrite (Z.bits_above_log2 a n); [done|lia|].
    apply Z.log2_lt_pow2; [lia|]. pose proof (Z.pow_le_mono_r 2 k n). lia.
Qed.

Lemma mod_add_low a x k m : 0 <= k -> 0 <= m -> 0 <= a < 2 ^ k ->
  (a + 2 ^ k * x) mod 2 ^ (k + m) = a + 2 ^ k * (x mod 2 ^ m).
Proof.
  intros Hk Hm Ha. assert (0 < 2 ^ k) by (apply Z.pow_pos_nonneg; lia).
  assert (0 < 2 ^ m) by (apply Z.pow_pos_nonneg; lia).
  rewrite Z.pow_add_r by lia. rewrite Z.rem_mul_r by lia.
  rewrite (Z.mul_comm (2 ^ k) x), Z_mod_plus_full, Z.mod_small by lia.
  rewrite Z.div_add, Z.div_small by lia. by rewrite Z.add_0_l.
Qed.

Lemma div_add_low b x k m : 0 <= k -> 0 <= m ->
  (b + 2 ^ (k + m) * x) / 2 ^ k = b / 2 ^ k + 2 ^ m * x.
Proof.
  intros. assert (0 < 2 ^ k) by (apply Z.pow_pos_nonneg; lia).
  rewrite Z.pow_add_r by lia.
  replace (b + 2 ^ k * 2 ^ m * x) with (b + (2 ^ m * x) * 2 ^ k) by ring.
  by rewrite Z.div_add by lia.
Qed.
