(* ===== verification/Dvh.v ===== *)
(** The SGI disk volume header ([dvh/dvh.go]): [Parse], the checksum rule and
    the choice of the EFS partition, with a layout specification of the
    512-byte label that [Parse] reads back. *)
From S2P Require Import Prelude.


(** ** Data and operations *)

Definition Magic : Z := 0x0be5a941.

Definition TypeVolHdr : Z := 0.
Definition TypeRaw : Z := 3.
Definition TypeVolume : Z := 6.
Definition TypeEFS : Z := 7.
Definition TypeXFS : Z := 10.

Record BootFile := MkBootFile { Name : bytes; LBN : Z; Bytes : Z }.

Record Partition := MkPartition { Blocks : Z; First : Z; Type_ : Z }.

Record Header := MkHeader {
  BootFiles : list BootFile;
  Partitions : list Partition;  (* a [16]Partition *)
  csumOK : bool;
}.

Inductive error :=
| ShortHeader (n : Z)
| BadMagic (m : Z).

#[export] Instance BootFile_eq_dec : EqDecision BootFile.
Proof. solve_decision. Defined.
#[export] Instance Partition_eq_dec : EqDecision Partition.
Proof. solve_decision. Defined.

(** [name[:bytes.IndexByte(name, 0)]], the whole name when it has no NUL. *)
Fixpoint cut_nul (name : bytes) : bytes :=
  match name with
  | [] => []
  | c :: t => if c =? 0 then [] else c :: cut_nul t
  end.

(** One iteration of the volume-directory loop: an entry, unless its name is
    empty. *)
Definition parse_bootfile (b : bytes) (i : Z) : option BootFile :=
  let off := 72 + i * 16 in
  let name := cut_nul (sub b off 8) in
  if zlen name =? 0 then None
  else Some (MkBootFile name (i32 (get_u32 b (off + 8))) (i32 (get_u32 b (off + 12)))).

Definition parse_partition (b : bytes) (i : Z) : Partition :=
  let off := 312 + i * 12 in
  MkPartition (i32 (get_u32 b off)) (i32 (get_u32 b (off + 4))) (i32 (get_u32 b (off + 8))).

(** The running [uint32] sum of the first [n] big-endian words of [b]. *)
Definition sum_words (b : bytes) (n : Z) : Z :=
  fold_left (fun sum i => u32 (sum + get_u32 b (i * 4))) (seqZ 0 n) 0.

Definition Parse (b : bytes) : outcome error Header :=
  if zlen b <? 512 then Err (ShortHeader (zlen b))
  else
    let m := get_u32 b 0 in
    if negb (m =? Magic) then Err (BadMagic m)
    else Ok {|
      BootFiles := omap (parse_bootfile b) (seqZ 0 15);
      Partitions := parse_partition b <$> seqZ 0 16;
      csumOK := sum_words b 128 =? 0;
    |}.

Definition ChecksumOK (h : Header) : bool := csumOK h.

(** Slot 7 when populated, otherwise the first populated EFS partition. *)
Definition EFS (h : Header) : option Partition :=
  match Partitions h !! 7%nat with
  | Some p7 =>
      if 0 <? Blocks p7 then Some p7
      else List.find (fun p => (Type_ p =? TypeEFS) && (0 <? Blocks p)) (Partitions h)
  | None => None  (* the array has 16 slots *)
  end.

(** ** The label on disk *)

(** The layout [Parse] documents, as a specification: magic, 68 bytes of boot
    parameters, 15 directory slots of 16 bytes, 16 partitions of 12 bytes, the
    checksum that makes all 128 words sum to zero, and 4 spare bytes. An unused
    directory slot is all zeros. *)
Definition slot_bytes (s : option BootFile) : bytes :=
  match s with
  | None => replicate 16 0
  | Some f => Name f ++ replicate (8 - length (Name f)) 0
              ++ be_enc 4 (LBN f) ++ be_enc 4 (Bytes f)
  end.

Definition partition_bytes (p : Partition) : bytes :=
  be_enc 4 (Blocks p) ++ be_enc 4 (First p) ++ be_enc 4 (Type_ p).

Definition label_body (params : bytes) (slots : list (option BootFile))
    (parts : list Partition) : bytes :=
  (be_enc 4 Magic ++ params) ++ mjoin (slot_bytes <$> slots)
  ++ mjoin (partition_bytes <$> parts).

Definition label params slots parts : bytes :=
  let body := label_body params slots parts in
  body ++ be_enc 4 (- sum_words body 126) ++ replicate 4 0.

Definition wf_BootFile (f : BootFile) : Prop :=
  Name f <> [] /\ zlen (Name f) <= 8 /\ wf_bytes (Name f) /\ (0 ∉ Name f)
  /\ - 2 ^ 31 <= LBN f < 2 ^ 31 /\ - 2 ^ 31 <= Bytes f < 2 ^ 31.

Definition wf_Partition (p : Partition) : Prop :=
  - 2 ^ 31 <= Blocks p < 2 ^ 31 /\ - 2 ^ 31 <= First p < 2 ^ 31
  /\ - 2 ^ 31 <= Type_ p < 2 ^ 31.

#[export] Instance wf_BootFile_dec f : Decision (wf_BootFile f).
Proof. unfold wf_BootFile. apply _. Defined.
#[export] Instance wf_Partition_dec p : Decision (wf_Partition p).
Proof. unfold wf_Partition. apply _. Defined.

Definition wf_Header (h : Header) : Prop :=
  Forall wf_BootFile (BootFiles h) /\ zlen (BootFiles h) <= 15
  /\ Forall wf_Partition (Partitions h) /\ zlen (Partitions h) = 16.

(** ** Lemmas *)

Lemma cut_nul_spec name :
  (0 ∉ cut_nul name) /\ zlen (cut_nul name) <= zlen name
  /\ (wf_bytes name -> wf_bytes (cut_nul name)).
Proof.
  induction name as [|c t (IH1 & IH2 & IH3)]; cbn.
  - split_and!; [apply not_elem_of_nil|lia|done].
  - destruct (c =? 0) eqn:E; zbool; autorewrite with zlen.
    + pose proof (zlen_nonneg t). split_and!; [apply not_elem_of_nil|lia|constructor].
    + split_and!; [|lia|].
      * rewrite not_elem_of_cons. split; [congruence|done].
      * intros [Hc Ht]%Forall_cons. by constructor; [|apply IH3].
Qed.

Lemma cut_nul_app name n : (0 ∉ name) -> cut_nul (name ++ replicate n 0) = name.
Proof.
  induction name as [|c t IH]; cbn; intros H.
  - by destruct n.
  - apply not_elem_of_cons in H as [Hc Ht]. rewrite IH by done.
    by rewrite (proj2 (Z.eqb_neq c 0)) by congruence.
Qed.

Lemma be_enc4_sub v pre post : get_u32 (pre ++ be_enc 4 v ++ post) (zlen pre) = u32 v.
Proof.
  unfold get_u32. rewrite sub_app_r by lia. rewrite Z.sub_diag.
  rewrite sub_app_l by (by rewrite zlen_be_enc). apply (be_be_enc 4).
Qed.

Lemma get_u32_at v pre post off : off = zlen pre ->
  get_u32 (pre ++ be_enc 4 v ++ post) off = u32 v.
Proof. intros ->. apply be_enc4_sub. Qed.

Lemma i32_u32 v : - 2 ^ 31 <= v < 2 ^ 31 -> i32 (u32 v) = v.
Proof.
  intros. unfold i32, u32. rewrite (signed_mod 32) by lia.
  apply (signed_id 32); lia.
Qed.

Lemma zlen_slot_bytes s :
  (forall f, s = Some f -> wf_BootFile f) -> zlen (slot_bytes s) = 16.
Proof.
  destruct s as [f|]; [|done]. intros H. destruct (H f eq_refl) as (_ & Hn & _).
  unfold slot_bytes. autorewrite with zlen. unfold zlen in *. lia.
Qed.

Lemma zlen_partition_bytes p : zlen (partition_bytes p) = 12.
Proof. unfold partition_bytes. by autorewrite with zlen. Qed.

(** A record read through its own 16- or 12-byte window. *)
Lemma get_u32_sub c l off o n :
  c = sub l off n -> 0 <= off -> 0 <= o -> o + 4 <= n ->
  get_u32 l (off + o) = get_u32 c o.
Proof. intros -> ???. unfold get_u32. by rewrite sub_sub by lia. Qed.

Lemma parse_slot b i s :
  (forall f, s = Some f -> wf_BootFile f) -> 0 <= i ->
  sub b (72 + i * 16) 16 = slot_bytes s -> parse_bootfile b i = s.
Proof.
  intros Hs Hi Hb. unfold parse_bootfile. set (off := 72 + i * 16) in *.
  replace (sub b off 8) with (sub (sub b off 16) 0 8)
    by (rewrite sub_sub by (subst off; lia); f_equal; lia).
  rewrite !(get_u32_sub (slot_bytes s) b off _ 16) by (subst off; done || lia).
  rewrite Hb. destruct s as [[name lbn sz]|]; [|done].
  destruct (Hs _ eq_refl) as (Hne & Hlen & _ & Hnul & Hl & Hsz). cbn in *.
  unfold slot_bytes; cbn [Name LBN Bytes].
  set (pad := replicate _ 0).
  assert (zlen (name ++ pad) = 8) as H8.
  { subst pad. autorewrite with zlen. unfold zlen in *. lia. }
  rewrite !(app_assoc name pad), sub_app_l by done.
  subst pad. rewrite cut_nul_app by done.
  destruct (zlen name =? 0) eqn:E; zbool.
  { destruct name; [done|]. pose proof (zlen_nonneg name). rewrite zlen_cons in E. lia. }
  rewrite (get_u32_at lbn) by done.
  rewrite (app_assoc _ (be_enc 4 lbn)), <- (app_nil_r (be_enc 4 sz)).
  rewrite get_u32_at by (rewrite zlen_app, zlen_be_enc, H8; done).
  by rewrite !i32_u32.
Qed.

Lemma parse_part b i p :
  wf_Partition p -> 0 <= i ->
  sub b (312 + i * 12) 12 = partition_bytes p -> parse_partition b i = p.
Proof.
  intros (Hb & Hf & Ht) Hi H. unfold parse_partition. set (off := 312 + i * 12) in *.
  replace (get_u32 b off) with (get_u32 b (off + 0)) by (f_equal; lia).
  rewrite !(get_u32_sub (partition_bytes p) b off _ 12) by (subst off; done || lia).
  unfold partition_bytes.
  rewrite get_u32_enc.
  rewrite (get_u32_at (First p)) by done.
  rewrite (app_assoc (be_enc 4 (Blocks p))), <- (app_nil_r (be_enc 4 (Type_ p))).
  rewrite get_u32_at by (by autorewrite with zlen).
  rewrite !i32_u32 by done. by destruct p.
Qed.

Lemma sum_words_prefix b k n : 0 <= n -> n * 4 <= zlen b ->
  sum_words (b ++ k) n = sum_words b n.
Proof.
  intros Hn Hlen. unfold sum_words. apply fold_left_ext_in.
  intros x y Hy%elem_of_seqZ. unfold get_u32. by rewrite sub_app_l_le by lia.
Qed.

Lemma sum_words_app b n m : 0 <= n -> 0 <= m ->
  sum_words b (n + m)
  = fold_left (fun sum i => u32 (sum + get_u32 b (i * 4))) (seqZ n m) (sum_words b n).
Proof. intros. unfold sum_words. by rewrite seqZ_app, fold_left_app by lia. Qed.

Lemma zlen_label_body params slots parts :
  zlen params = 68 -> length slots = 15%nat -> length parts = 16%nat ->
  Forall (fun s => forall f, s = Some f -> wf_BootFile f) slots ->
  zlen (label_body params slots parts) = 504.
Proof.
  intros Hp Hs Hq Hwf. unfold label_body. autorewrite with zlen. rewrite Hp.
  rewrite (zlen_mjoin_const 16), (zlen_mjoin_const 12).
  - unfold zlen. rewrite !length_fmap, Hs, Hq. lia.
  - apply Forall_fmap, Forall_true. intros. apply zlen_partition_bytes.
  - apply Forall_fmap. eapply Forall_impl; [exact Hwf|]. intros. by apply zlen_slot_bytes.
Qed.

Lemma label_sum params slots parts :
  zlen (label_body params slots parts) = 504 ->
  sum_words (label params slots parts) 128 = 0.
Proof.
  intros H. unfold label. set (body := label_body _ _ _) in *.
  rewrite (sum_words_app _ 126 2) by lia.
  rewrite sum_words_prefix by lia. cbn [seqZ fmap list_fmap seq fold_left].
  change (seqZ 126 2) with [126; 127]. cbn [fold_left].
  rewrite get_u32_at by (by rewrite H).
  rewrite app_assoc.
  replace (get_u32 _ (127 * 4)) with 0.
  2: { unfold get_u32. rewrite sub_app_r by (autorewrite with zlen; lia).
       autorewrite with zlen. by rewrite H. }
  unfold u32. rewrite Z.add_0_r, Zplus_mod_idemp_r, Z.add_opp_diag_r. done.
Qed.

(** Where [label] puts each directory slot and partition. *)
Lemma label_slot params slots parts i s :
  zlen params = 68 -> slots !! i = Some s ->
  Forall (fun s => forall f, s = Some f -> wf_BootFile f) slots ->
  sub (label params slots parts) (72 + Z.of_nat i * 16) 16 = slot_bytes s.
Proof.
  intros Hp Hi Hwf. unfold label, label_body.
  replace (72 + Z.of_nat i * 16) with (zlen (be_enc 4 Magic ++ params) + Z.of_nat i * 16 + 0)
    by (autorewrite with zlen; lia).
  generalize (be_enc 4 Magic ++ params). intros pre. rewrite <- !app_assoc.
  erewrite sub_record with (c := slot_bytes s).
  - apply sub_all. symmetry. apply zlen_slot_bytes. by eapply Forall_lookup_1 in Hwf.
  - apply Forall_fmap. eapply Forall_impl; [exact Hwf|]. intros. by apply zlen_slot_bytes.
  - by rewrite list_lookup_fmap, Hi.
  - lia.
  - lia.
  - lia.
Qed.

Lemma label_part params slots parts i p :
  zlen params = 68 -> length slots = 15%nat -> parts !! i = Some p ->
  Forall (fun s => forall f, s = Some f -> wf_BootFile f) slots ->
  sub (label params slots parts) (312 + Z.of_nat i * 12) 12 = partition_bytes p.
Proof.
  intros Hp Hs Hi Hwf. unfold label, label_body. rewrite (app_assoc (be_enc 4 Magic ++ params)).
  rewrite <- (app_assoc _ (mjoin (partition_bytes <$> parts))).
  replace (312 + Z.of_nat i * 12)
    with (zlen ((be_enc 4 Magic ++ params) ++ mjoin (slot_bytes <$> slots)) + Z.of_nat i * 12 + 0).
  - erewrite sub_record with (c := partition_bytes p).
    + apply sub_all. symmetry. apply zlen_partition_bytes.
    + apply Forall_fmap, Forall_true. intros. apply zlen_partition_bytes.
    + by rewrite list_lookup_fmap, Hi.
    + lia.
    + lia.
    + lia.
  - autorewrite with zlen. rewrite (zlen_mjoin_const 16).
    + unfold zlen at 2. rewrite length_fmap, Hs. lia.
    + apply Forall_fmap. eapply Forall_impl; [exact Hwf|]. intros. by apply zlen_slot_bytes.
Qed.

(** ** Properties *)

Theorem Parse_label params slots parts :
  zlen params = 68 -> length slots = 15%nat -> length parts = 16%nat ->
  Forall (fun s => forall f, s = Some f -> wf_BootFile f) slots ->
  Forall wf_Partition parts ->
  Parse (label params slots parts)
  = Ok {| BootFiles := omap id slots; Partitions := parts; csumOK := true |}.
Proof.
  intros Hp Hs Hq Hwf Hwp.
  pose proof (zlen_label_body params slots parts Hp Hs Hq Hwf) as H504.
  assert (zlen (label params slots parts) = 512) as H512.
  { unfold label. autorewrite with zlen. lia. }
  unfold Parse. rewrite H512. cbn [Z.ltb Z.compare Pos.compare Pos.compare_cont].
  rewrite label_sum by done.
  assert (get_u32 (label params slots parts) 0 = Magic) as ->.
  { unfold label, label_body. rewrite <- !app_assoc. apply get_u32_enc. }
  cbn [negb Z.eqb]. f_equal. f_equal.
  - change 15 with (Z.of_nat 15). rewrite <- Hs. apply omap_seqZ_lookup.
    intros i s Hi. apply parse_slot; [|lia|].
    + by eapply Forall_lookup_1 in Hwf.
    + by apply label_slot.
  - change 16 with (Z.of_nat 16). rewrite <- Hq. fold (zlen parts).
    transitivity (id <$> parts); [|apply list_fmap_id]. apply fmap_seqZ_lookup.
    intros i p Hi. apply parse_part; [|lia|].
    + by eapply Forall_lookup_1 in Hwp.
    + by eapply label_part.
Qed.

Lemma Parse_label_witness :
  let slot := MkBootFile (str "sash") 2 (-1) in
  let parts := replicate 16 (MkPartition 10 20 TypeEFS) in
  Parse (label (replicate 68 1) (Some slot :: replicate 14 None) parts)
  = Ok {| BootFiles := [slot]; Partitions := parts; csumOK := true |}.
Proof.
  apply (Parse_label (replicate 68 1) (Some _ :: replicate 14 None) (replicate 16 _)).
  - reflexivity.
  - reflexivity.
  - reflexivity.
  - constructor.
    + intros f [= <-]. apply (bool_decide_unpack (wf_BootFile _)). by vm_compute.
    + apply Forall_replicate. by intros f.
  - apply Forall_replicate. by vm_compute.
Defined.

Lemma parse_bootfile_wf b i f :
  wf_bytes b -> parse_bootfile b i = Some f -> wf_BootFile f.
Proof.
  intros Hb. unfold parse_bootfile. set (name := cut_nul _).
  pose proof (cut_nul_spec (sub b (72 + i * 16) 8)) as (Hnul & Hlen & Hwf).
  fold name in Hnul, Hlen, Hwf.
  destruct (zlen name =? 0) eqn:E; intros H; inv H; zbool.
  assert (zlen (sub b (72 + i * 16) 8) <= 8) by (unfold zlen, sub; rewrite length_take; lia).
  unfold wf_BootFile; cbn. split_and!; auto with golib; try apply i32_range; try lia.
  intros ->. by apply E.
Qed.

(** What [Parse] accepts is at least a sector, starts with the magic number, and
    gives a header whose fields are in their ranges; the checksum flag is the sum
    of the label's words. *)
Theorem Parse_sound b h :
  wf_bytes b -> Parse b = Ok h ->
  512 <= zlen b /\ get_u32 b 0 = Magic /\ wf_Header h
  /\ (ChecksumOK h = true <-> sum_words b 128 = 0).
Proof.
  intros Hb. unfold Parse.
  destruct (zlen b <? 512) eqn:E1; [done|].
  destruct (get_u32 b 0 =? Magic) eqn:E2; [|done]. cbn [negb]. intros H%Ok_inj. subst h. zbool.
  split_and!; [lia|done|..|by rewrite <- Z.eqb_eq].
  unfold wf_Header; cbn. split_and!.
  - apply Forall_forall. intros f (i & _ & Hi)%list_elem_of_omap. exact (parse_bootfile_wf _ _ _ Hb Hi).
  - change 15 with (zlen (seqZ 0 15)) at 2. generalize (seqZ 0 15). intros l. unfold zlen.
    pose proof (length_omap_le' (parse_bootfile b) l). lia.
  - apply Forall_fmap, Forall_true. intros i. unfold parse_partition, wf_Partition; cbn.
    split_and!; apply i32_range.
  - reflexivity.
Qed.

Theorem EFS_spec h : zlen (Partitions h) = 16 ->
  match EFS h with
  | Some p =>
      p ∈ Partitions h /\ 0 < Blocks p
      /\ (Partitions h !! 7%nat = Some p
          \/ (Type_ p = TypeEFS /\ forall p7, Partitions h !! 7%nat = Some p7 -> Blocks p7 <= 0))
  | None =>
      Forall (fun p => Type_ p = TypeEFS -> Blocks p <= 0) (Partitions h)
      /\ forall p7, Partitions h !! 7%nat = Some p7 -> Blocks p7 <= 0
  end.
Proof.
  intros H16. unfold EFS.
  destruct (lookup_lt_is_Some_2 (Partitions h) 7) as [p7 H7]; [unfold zlen in *; lia|].
  rewrite H7. destruct (0 <? Blocks p7) eqn:E; zbool.
  { split_and!; [by eapply list_elem_of_lookup_2|done|by left]. }
  destruct (find _ _) as [p|] eqn:F.
  - apply find_some in F as [Hin Hp]. zbool.
    split_and!; [by apply list_elem_of_In|done|]. right. split; [done|].
    intros ? [=<-]. lia.
  - split; [|intros ? [=<-]; lia]. apply Forall_forall. intros p Hp%list_elem_of_In Ht.
    pose proof (find_none _ _ F p Hp) as HH. cbn in HH. rewrite Ht in HH. cbn in HH.
    zbool. lia.
Qed.

Lemma Parse_sound_witness : exists h,
  Parse (label (replicate 68 1) (Some (MkBootFile (str "sash") 2 (-1)) :: replicate 14 None)
           (replicate 16 (MkPartition 10 20 TypeEFS))) = Ok h /\ wf_Header h /\ EFS h = Some (MkPartition 10 20 TypeEFS).
Proof.
  eexists. split; [vm_compute; reflexivity|]. split; [|reflexivity].
  apply (Parse_sound (label (replicate 68 1) (Some (MkBootFile (str "sash") 2 (-1)) :: replicate 14 None)
           (replicate 16 (MkPartition 10 20 TypeEFS)))); [|vm_compute; reflexivity].
  apply (bool_decide_unpack (wf_bytes _)). vm_compute. exact I.
Defined.

Lemma EFS_spec_witness :
  EFS (MkHeader [] (replicate 7 (MkPartition 0 0 0) ++ [MkPartition 0 0 0] ++ replicate 8 (MkPartition 4 9 TypeEFS)) true)
  = Some (MkPartition 4 9 TypeEFS) /\ 0 < Blocks (MkPartition 4 9 TypeEFS).
Proof.
  split; [reflexivity|].
  pose proof (EFS_spec (MkHeader [] (replicate 7 (MkPartition 0 0 0) ++ [MkPartition 0 0 0] ++
    replicate 8 (MkPartition 4 9 TypeEFS)) true) eq_refl) as H.
  exact (proj1 (proj2 H)).
Defined.
