(* ===== verification/Efs.v ===== *)
(** The read-only EFS filesystem: the superblock ([efs/efs.go]), inodes,
    extents, directories and path lookup ([efs/inode.go]), and the io/fs view
    ([efs/fsys.go]). The block image is an [io.ReaderAt]; what [ReadAt] reads is
    proved against the file's contents as its extents describe them. *)
From S2P Require Import Prelude.

Definition SuperMagic : Z := 0x00072959.
Definition SuperMagicGrown : Z := 0x0007295a.
Definition blockSize : Z := 512.
Definition inodesPerBB : Z := 4.
Definition RootIno : Z := 2.
Definition inodeSize : Z := 128.
Definition directExtents : Z := 12.
Definition dirblkMagic : Z := 0xbeef.
Definition fmtMask : Z := 0xf000.
Definition fmtRegular : Z := 0x8000.
Definition fmtDir : Z := 0x4000.
Definition fmtSymlink : Z := 0xa000.

(** An open filesystem; [base] is the partition start in blocks. *)
Record FS := MkFS {
  r : ReaderAt;
  base : Z;
  size : Z;
  firstCG : Z;
  cgFSize : Z;
  cgISize : Z;
  ncg : Z;
}.

Inductive error :=
| IOError (e : io_err)
| BadSuperMagic (m : Z)
| ImplausibleGeometry
| BeyondGroups (ino : Z)
| NegativeSize (ino : Z)
| ImplausibleExtents (ino : Z)
| ExtentTableShort (ino : Z)
| NotADirectory (ino : Z)
| NotASymlink (ino : Z)
| ErrNotFound.

Record Extent := MkExtent { Block : Z; Len : Z; Offset : Z }.

Record Inode_t := MkInode {
  Num : Z; Mode : Z; Nlink : Z; UID : Z; GID : Z; Size : Z;
  Atime : Z; Mtime : Z; Ctime : Z; Gen : Z;
  Extents : list Extent;
}.

Record DirEntry := MkDirEntry { EName : bytes; Ino : Z }.

#[export] Instance Extent_eq_dec : EqDecision Extent.
Proof. solve_decision. Defined.
#[export] Instance DirEntry_eq_dec : EqDecision DirEntry.
Proof. solve_decision. Defined.

(** ** Superblock *)

(** [b] is the zeroed block [ReadAt] fills. *)
Definition readBlock (fs : FS) (n : Z) : outcome error bytes :=
  let '(d, err) := r fs ((base fs + n) * blockSize) blockSize in
  match err with
  | Some e => Err (IOError e)
  | None => Ok (d ++ replicate (512 - length d) 0)
  end.

Definition Open (ra : ReaderAt) (baseBlock : Z) : outcome error FS :=
  sb ← readBlock (MkFS ra baseBlock 0 0 0 0 0) 1;
  let magic := get_u32 sb 28 in
  if negb (magic =? SuperMagic) && negb (magic =? SuperMagicGrown)
  then Err (BadSuperMagic magic)
  else
    let fs := {|
      r := ra; base := baseBlock;
      size := i32 (get_u32 sb 0);
      firstCG := i32 (get_u32 sb 4);
      cgFSize := i32 (get_u32 sb 8);
      cgISize := i16 (get_u16 sb 12);
      ncg := i16 (get_u16 sb 18);
    |} in
    if (firstCG fs <=? 0) || (cgFSize fs <=? 0) || (cgISize fs <=? 0) || (ncg fs <=? 0)
    then Err ImplausibleGeometry
    else Ok fs.

(** ** Inodes *)

Definition IsRegular (i : Inode_t) : bool := Z.land (Mode i) fmtMask =? fmtRegular.
Definition IsDir (i : Inode_t) : bool := Z.land (Mode i) fmtMask =? fmtDir.
Definition IsSymlink (i : Inode_t) : bool := Z.land (Mode i) fmtMask =? fmtSymlink.

Definition parseExtent (b : bytes) : Extent :=
  let w1 := get_u32 b 0 in
  let w2 := get_u32 b 4 in
  MkExtent (Z.land w1 0xffffff) (Z.shiftr w2 24) (Z.land w2 0xffffff).

(** The direct slots up to the first empty one: the blocks of the real extent
    table of an inode with more than 12 extents. *)
Fixpoint indirect_slots (slots : list Extent) : list Extent :=
  match slots with
  | [] => []
  | e :: t => if Len e =? 0 then [] else e :: indirect_slots t
  end.

(** The blocks the extent table occupies, in the order they are read. *)
Definition table_blocks (indir : list Extent) : list Z :=
  ie ← indir; (fun b => u32 (Block ie + b)) <$> seqZ 0 (Len ie).

(** The nested loops over [indir]: append the 64 extents of each block until
    [numext] are read. *)
Fixpoint read_table (fs : FS) (numext : Z) (blocks : list Z) (exts : list Extent)
    : outcome error (list Extent) :=
  match blocks with
  | [] => Ok exts
  | bn :: rest =>
      blk ← readBlock fs bn;
      let n := Z.min (blockSize / 8) (numext - zlen exts) in
      let exts := exts ++ ((fun k => parseExtent (sub blk (k * 8) 8)) <$> seqZ 0 n) in
      if numext <=? zlen exts then Ok exts else read_table fs numext rest exts
  end.

Definition offset_le (a b : Extent) : Prop := Offset a <= Offset b.
#[export] Instance offset_le_dec : RelDecision offset_le.
Proof. intros a b. unfold offset_le. apply _. Defined.

(** The block and the byte offset within it of inode [ino]. *)
Definition inode_block (fs : FS) (ino : Z) : Z :=
  let inopcg := u32 (u32 (cgISize fs) * inodesPerBB) in
  firstCG fs + (ino / inopcg) * cgFSize fs + (ino mod inopcg) / inodesPerBB.

(** [n.Extents] before sorting, from the 128 bytes [d] of the inode. *)
Definition inode_extents (fs : FS) (ino : Z) (d : bytes) (numext : Z)
    : outcome error (list Extent) :=
  if numext <=? directExtents then
    Ok ((fun i => parseExtent (sub d (32 + i * 8) 8)) <$> seqZ 0 numext)
  else
    let indir := indirect_slots
      ((fun i => parseExtent (sub d (32 + i * 8) 8)) <$> seqZ 0 directExtents) in
    exts ← read_table fs numext (table_blocks indir) [];
    if zlen exts <? numext then Err (ExtentTableShort ino) else Ok exts.

Definition Inode (fs : FS) (ino : Z) : outcome error Inode_t :=
  let inopcg := u32 (u32 (cgISize fs) * inodesPerBB) in
  if inopcg =? 0 then Panic  (* integer divide by zero *)
  else if u32 (ncg fs) <=? ino / inopcg then Err (BeyondGroups ino)
  else
    blk ← readBlock fs (inode_block fs ino);
    let d := sub blk (ino mod inodesPerBB * inodeSize) inodeSize in
    let sz := i32 (get_u32 d 8) in
    if sz <? 0 then Err (NegativeSize ino)
    else
      let numext := i16 (get_u16 d 28) in
      if numext <? 0 then Err (ImplausibleExtents ino)
      else
        exts ← inode_extents fs ino d numext;
        Ok {|
          Num := ino;
          Mode := get_u16 d 0;
          Nlink := i16 (get_u16 d 2);
          UID := get_u16 d 4;
          GID := get_u16 d 6;
          Size := sz;
          Atime := get_u32 d 12;
          Mtime := get_u32 d 16;
          Ctime := get_u32 d 20;
          Gen := i32 (get_u32 d 24);
          Extents := merge_sort offset_le exts;
        |}.

(** ** Reading file data *)

(** What [ReadAt] stores from the front of its buffer, and the error. [None]
    for the whole result stands for exhausted fuel, which [readLoop_total]
    rules out. *)
Definition read_result : Type := outcome error (bytes * option io_err).

(** The loop of [ReadAt]: [exts] is [ino.Extents[i:]] and [acc] the [done] bytes
    stored so far of the [want]. *)
Fixpoint readLoop (fuel : nat) (fs : FS) (off want : Z) (exts : list Extent)
    (acc : bytes) : option read_result :=
  match fuel with
  | O => None
  | S fuel =>
      let fin := Some (Ok (acc, None)) in
      let done := zlen acc in
      if negb (done <? want) then fin
      else
        let pos := off + done in
        match exts with
        | [] =>
            let chunk := want - done in
            readLoop fuel fs off want [] (acc ++ replicate (Z.to_nat chunk) 0)
        | e :: rest =>
            if Len e =? 0 then readLoop fuel fs off want rest acc
            else if pos <? Offset e * blockSize then
              let chunk := Z.min (want - done) (Offset e * blockSize - pos) in
              readLoop fuel fs off want exts (acc ++ replicate (Z.to_nat chunk) 0)
            else
              let start := Offset e * blockSize in
              let end_ := start + Len e * blockSize in
              let chunk := Z.min (want - done) (end_ - pos) in
              if chunk <? 0 then Some Panic  (* p[done:done+chunk] *)
              else
                let physical := (base fs + Block e) * blockSize + pos - start in
                let '(d, err) := r fs physical chunk in
                let acc := acc ++ d in
                match err with
                | Some er => Some (Ok (acc, Some er))
                | None =>
                    if negb (zlen d =? chunk) then Some (Ok (acc, Some UnexpectedEOF))
                    else readLoop fuel fs off want
                           (if pos + chunk =? end_ then rest else exts) acc
                end
        end
  end.

(** Enough for any extent list: each extent is skipped, or read after at most
    one hole; see [readLoop_total]. *)
Definition read_fuel (exts : list Extent) : nat := (2 * length exts + 3)%nat.

(** [fs.ReadAt(ino, p, off)] with [len(p) = plen]. *)
Definition ReadAt (fs : FS) (ino : Inode_t) (plen off : Z) : read_result :=
  if off <? 0 then Ok ([], Some (OtherIO 2))
  else
    let size := Size ino in
    if size <=? off then Ok ([], Some EOF)
    else
      let want := Z.min plen (size - off) in
      let i := search (zlen (Extents ino)) (fun i =>
        match Extents ino !! Z.to_nat i with
        | Some e => off <? (Offset e + Len e) * blockSize
        | None => true
        end) in
      let exts := drop (Z.to_nat i) (Extents ino) in
      match readLoop (read_fuel exts) fs off want exts [] with
      | Some (Ok (d, None)) => Ok (d, if zlen d <? plen then Some EOF else None)
      | Some res => res
      | None => Panic
      end.

(** ** Directories, links and lookup *)

(** One slot of a directory block. *)
Definition dir_slot (blk : bytes) (s : Z) : option DirEntry :=
  let so := Z.shiftl (at_ blk (4 + s)) 1 in
  if (so =? 0) || (zlen blk <? so + 5) then None
  else
    let nameLen := at_ blk (so + 4) in
    if zlen blk <? so + 5 + nameLen then None
    else Some (MkDirEntry (sub blk (so + 5) nameLen) (get_u32 blk so)).

Definition dir_block (blk : bytes) : list DirEntry :=
  if (zlen blk <? 4) || negb (get_u16 blk 0 =? dirblkMagic) then []
  else
    let slots := at_ blk 3 in
    omap (dir_slot blk) (seqZ 0 (Z.min slots (zlen blk - 4))).

(** Blocks of [data], the last one possibly short. *)
Definition dir_blocks (data : bytes) : list bytes :=
  (fun i => sub data (i * blockSize) blockSize)
    <$> seqZ 0 ((zlen data + blockSize - 1) / blockSize).

(** The buffer of [make([]byte, ino.Size)] after a read from offset 0, unless
    the read failed with other than [io.EOF]. *)
Definition read_whole (fs : FS) (ino : Inode_t) : outcome error bytes :=
  '(d, err) ← ReadAt fs ino (Size ino) 0;
  match err with
  | None | Some EOF => Ok (d ++ replicate (Z.to_nat (Size ino - zlen d)) 0)
  | Some e => Err (IOError e)
  end.

Definition ReadDir (fs : FS) (ino : Inode_t) : outcome error (list DirEntry) :=
  if negb (IsDir ino) then Err (NotADirectory (Num ino))
  else if Size ino <? 0 then Err (NegativeSize (Num ino))
  else
    data ← read_whole fs ino;
    Ok (mjoin (dir_block <$> dir_blocks data)).

Definition Readlink (fs : FS) (ino : Inode_t) : outcome error bytes :=
  if negb (IsSymlink ino) then Err (NotASymlink (Num ino))
  else if Size ino <? 0 then Err (NegativeSize (Num ino))
  else read_whole fs ino.

(** The inode number of the first entry named [part], or zero. *)
Fixpoint find_entry (ents : list DirEntry) (part : bytes) : Z :=
  match ents with
  | [] => 0
  | e :: t => if bool_decide (EName e = part) then Ino e else find_entry t part
  end.

Fixpoint lookup_parts (fs : FS) (ino : Inode_t) (parts : list bytes)
    : outcome error Inode_t :=
  match parts with
  | [] => Ok ino
  | part :: rest =>
      if bool_decide (part = []) then lookup_parts fs ino rest
      else
        ents ← ReadDir fs ino;
        let next := find_entry ents part in
        if next =? 0 then Err ErrNotFound
        else
          child ← Inode fs next;
          lookup_parts fs child rest
  end.

Definition Lookup (fs : FS) (path : bytes) : outcome error Inode_t :=
  ino ← Inode fs RootIno;
  lookup_parts fs ino (split_byte slash (trim slash path)).

(** ** The io/fs view *)

Definition ModeDir : Z := 2 ^ 31.
Definition ModeSymlink : Z := 2 ^ 27.
Definition ModeIrregular : Z := 2 ^ 19.

(** [FileInfo.Sys()]: the owner, link count and full mode. *)
Record Stat_t := MkStat { SUID : Z; SGID : Z; SNlink : Z; SMode : Z }.

(** An inode's [fs.FileInfo]. *)
Record fsInfo := MkInfo { iname : bytes; inode : Inode_t }.

Definition info_Size (i : fsInfo) : Z := Size (inode i).

Definition info_Mode (i : fsInfo) : Z :=
  let m := Z.land (Mode (inode i)) 0x1ff in
  if IsDir (inode i) then Z.lor m ModeDir
  else if IsSymlink (inode i) then Z.lor m ModeSymlink
  else if negb (IsRegular (inode i)) then Z.lor m ModeIrregular
  else m.

Definition info_ModTime (i : fsInfo) : Z := Mtime (inode i).
Definition info_IsDir (i : fsInfo) : bool := IsDir (inode i).
Definition info_Sys (i : fsInfo) : Stat_t :=
  MkStat (UID (inode i)) (GID (inode i)) (Nlink (inode i)) (Mode (inode i)).

(** What an [fs.PathError] wraps. *)
Inductive view_cause :=
| ErrInvalid
| ErrNotExist
| Cause (e : error).

(** An [fs.PathError]; [Path] is the elements [path.Join] puts together. Errors
    the view returns as they are carry no operation. *)
Inductive view_error :=
| PathError (Op : string) (Path : list bytes) (Err_ : view_cause)
| Bare (e : error).

Definition wrap {A} (op : string) (path : list bytes) (m : outcome error A)
    : outcome view_error A :=
  match m with
  | Ok a => Ok a
  | Err e => Err (PathError op path (Cause e))
  | Panic => Panic
  end.

Definition resolve (fs : FS) (op : string) (name : bytes) : outcome view_error Inode_t :=
  if negb (ValidPath name) then Err (PathError op [name] ErrInvalid)
  else if bool_decide (name = [dot]) then wrap op [name] (Inode fs RootIno)
  else match Lookup fs name with
       | Err ErrNotFound => Err (PathError op [name] ErrNotExist)
       | m => wrap op [name] m
       end.

Definition name_le (a b : fsInfo) : Prop := bytes_le (iname a) (iname b).
#[export] Instance name_le_dec : RelDecision name_le.
Proof. intros a b. unfold name_le, bytes_le. apply _. Defined.

Fixpoint read_children (fs : FS) (name : bytes) (raw : list DirEntry)
    : outcome view_error (list fsInfo) :=
  match raw with
  | [] => Ok []
  | e :: rest =>
      if bool_decide (EName e = [dot]) || bool_decide (EName e = [dot; dot])
      then read_children fs name rest
      else
        child ← wrap "readdir" [name; EName e] (Inode fs (Ino e));
        out ← read_children fs name rest;
        Ok (MkInfo (EName e) child :: out)
  end.

Definition dirEntries (fs : FS) (name : bytes) (ino : Inode_t)
    : outcome view_error (list fsInfo) :=
  raw ← wrap "readdir" [name] (ReadDir fs ino);
  out ← read_children fs name raw;
  Ok (merge_sort name_le out).

(** An opened file: a regular file reads from the image at its own offset, a
    directory lists the snapshot taken at open. *)
Inductive File :=
| fsFile (ino : Inode_t) (info : fsInfo) (off : Z)
| fsDir (info : fsInfo) (ents : list fsInfo) (off : Z).

Definition view_Open (fs : FS) (name : bytes) : outcome view_error File :=
  ino ← resolve fs "open" name;
  let info := MkInfo (path_base name) ino in
  if IsDir ino then
    ents ← dirEntries fs name ino;
    Ok (fsDir info ents 0)
  else Ok (fsFile ino info 0).

Definition view_Stat (fs : FS) (name : bytes) : outcome view_error fsInfo :=
  ino ← resolve fs "stat" name;
  Ok (MkInfo (path_base name) ino).

Definition view_ReadDir (fs : FS) (name : bytes) : outcome view_error (list fsInfo) :=
  ino ← resolve fs "readdir" name;
  if negb (IsDir ino) then Err (PathError "readdir" [name] ErrInvalid)
  else dirEntries fs name ino.

Definition view_ReadLink (fs : FS) (name : bytes) : outcome view_error bytes :=
  ino ← resolve fs "readlink" name;
  if negb (IsSymlink ino) then Err (PathError "readlink" [name] ErrInvalid)
  else match Readlink fs ino with
       | Ok t => Ok t
       | Err e => Err (Bare e)
       | Panic => Panic
       end.

Definition view_Lstat := view_Stat.

(** [fsFile.Read]: the bytes and error, and the advanced offset. *)
Definition file_Read (fs : FS) (ino : Inode_t) (off plen : Z)
    : outcome error ((bytes * option io_err) * Z) :=
  '(d, err) ← ReadAt fs ino plen off;
  Ok ((d, err), off + zlen d).

Definition file_ReadAt (fs : FS) (ino : Inode_t) (plen off : Z) : read_result :=
  ReadAt fs ino plen off.

(** [fsDir.ReadDir(count)]: the entries or [io.EOF], and the new offset. *)
Definition dir_ReadDir {A} (ents : list A) (off count : Z) : (list A + io_err) * Z :=
  let rest := drop (Z.to_nat off) ents in
  if count <=? 0 then (inl rest, zlen ents)
  else if zlen rest =? 0 then (inr EOF, off)
  else
    let count := if zlen rest <? count then zlen rest else count in
    (inl (take (Z.to_nat count) rest), off + count).

(** ** Reading: what an extent list describes *)

Definition ext_start (e : Extent) : Z := Offset e * blockSize.
Definition ext_end (e : Extent) : Z := (Offset e + Len e) * blockSize.
Definition covers (pos : Z) (e : Extent) : bool := (ext_start e <=? pos) && (pos <? ext_end e).

(** The byte at [pos] of a file: the image byte of the extent that covers it,
    or zero in a hole. *)
Definition file_byte (fs : FS) (content : Z -> Z) (exts : list Extent) (pos : Z) : Z :=
  match List.find (covers pos) exts with
  | Some e => content ((base fs + Block e) * blockSize + (pos - ext_start e))
  | None => 0
  end.

(** Extents inside an image of [isize] bytes, in order and not overlapping. *)
Definition wf_extents (fs : FS) (isize : Z) (exts : list Extent) : Prop :=
  Forall (fun e => 0 <= Len e /\ 0 <= Offset e /\ 0 <= base fs + Block e
                   /\ (base fs + Block e + Len e) * blockSize <= isize) exts
  /\ StronglySorted (fun a b => Offset a + Len a <= Offset b) exts.

Lemma readLoop_S fuel fs off want exts acc :
  readLoop (S fuel) fs off want exts acc =
  if negb (zlen acc <? want) then Some (Ok (acc, None))
  else
    let done := zlen acc in
    let pos := off + done in
    match exts with
    | [] => readLoop fuel fs off want [] (acc ++ replicate (Z.to_nat (want - done)) 0)
    | e :: rest =>
        if Len e =? 0 then readLoop fuel fs off want rest acc
        else if pos <? Offset e * blockSize then
          readLoop fuel fs off want exts
            (acc ++ replicate (Z.to_nat (Z.min (want - done) (Offset e * blockSize - pos))) 0)
        else
          let end_ := Offset e * blockSize + Len e * blockSize in
          let chunk := Z.min (want - done) (end_ - pos) in
          if chunk <? 0 then Some Panic
          else
            let '(d, err) := r fs ((base fs + Block e) * blockSize + pos - Offset e * blockSize) chunk in
            match err with
            | Some er => Some (Ok (acc ++ d, Some er))
            | None =>
                if negb (zlen d =? chunk) then Some (Ok (acc ++ d, Some UnexpectedEOF))
                else readLoop fuel fs off want
                       (if pos + chunk =? end_ then rest else exts) (acc ++ d)
            end
    end.
Proof. reflexivity. Qed.

Ltac loop_step := rewrite readLoop_S; cbv zeta.

Lemma zlen_app_replicate (acc : bytes) n : 0 <= n ->
  zlen (acc ++ replicate (Z.to_nat n) 0) = zlen acc + n.
Proof. intros. autorewrite with zlen. lia. Qed.

(** The loop ends for any extent list, corrupt ones included. *)
Lemma readLoop_total fs off want exts acc fuel :
  (2 * length exts + 2 <= fuel)%nat -> readLoop fuel fs off want exts acc <> None.
Proof.
  revert acc fuel. induction exts as [|e rest IH]; intros acc fuel Hf; cbn [length] in Hf.
  - do 2 (destruct fuel as [|fuel]; [lia|]). loop_step.
    destruct (zlen acc <? want) eqn:E; zbool; cbn [negb]; [|done]. loop_step.
    rewrite zlen_app_replicate by lia.
    replace (zlen acc + (want - zlen acc)) with want by lia. by rewrite Z.ltb_irrefl.
  - (* a head extent that starts at or before the position is finished in one step *)
    assert (forall acc fuel, (2 * length rest + 3 <= fuel)%nat ->
      ~ off + zlen acc < Offset e * blockSize ->
      readLoop fuel fs off want (e :: rest) acc <> None) as Hhead.
    { clear acc fuel Hf. intros acc fuel Hf Hpos. destruct fuel as [|fuel]; [lia|]. loop_step.
      destruct (zlen acc <? want) eqn:E; zbool; cbn [negb]; [|done].
      destruct (Len e =? 0); [apply IH; lia|].
      destruct (off + zlen acc <? Offset e * blockSize) eqn:E2; zbool; [done|].
      set (end_ := _ + Len e * blockSize). set (chunk := Z.min _ _).
      destruct (chunk <? 0); [done|]. destruct (r fs _ _) as [d [er|]]; [done|].
      destruct (zlen d =? chunk) eqn:E3; cbn [negb]; [|done]. zbool.
      destruct (off + zlen acc + chunk =? end_) eqn:E4; zbool; [apply IH; lia|].
      destruct fuel as [|fuel]; [lia|]. loop_step.
      rewrite zlen_app, E3. assert (zlen acc + chunk = want) as -> by lia.
      by rewrite Z.ltb_irrefl. }
    destruct (decide (off + zlen acc < Offset e * blockSize)) as [Hlt|Hge].
    2: { apply Hhead; [lia|done]. }
    destruct fuel as [|fuel]; [lia|]. loop_step.
    destruct (zlen acc <? want) eqn:E; zbool; cbn [negb]; [|done].
    destruct (Len e =? 0); [apply IH; lia|].
    rewrite (proj2 (Z.ltb_lt _ _) Hlt).
    set (chunk := Z.min _ _). assert (0 <= chunk) by lia.
    destruct (decide (chunk = want - zlen acc)).
    + destruct fuel as [|fuel]; [lia|]. loop_step. rewrite zlen_app_replicate by lia.
      assert (zlen acc + chunk = want) as -> by lia. by rewrite Z.ltb_irrefl.
    + apply Hhead; [lia|]. rewrite zlen_app_replicate by lia. lia.
Qed.

Lemma readLoop_length fs content isize `{!ReaderAtOK (r fs) content isize}
    fuel off want exts acc d err :
  zlen acc <= want -> readLoop fuel fs off want exts acc = Some (Ok (d, err)) ->
  zlen d <= want.
Proof.
  revert exts acc. induction fuel as [|fuel IH]; intros exts acc Hacc; [done|]. loop_step.
  destruct (zlen acc <? want) eqn:E; zbool; cbn [negb]; [|intros [= <- <-]; lia].
  destruct exts as [|e rest].
  { apply IH. rewrite zlen_app_replicate; lia. }
  destruct (Len e =? 0); [by apply IH|].
  destruct (off + zlen acc <? Offset e * blockSize) eqn:E2; zbool.
  { apply IH. rewrite zlen_app_replicate; lia. }
  set (end_ := _ + Len e * blockSize). set (chunk := Z.min _ _).
  destruct (chunk <? 0) eqn:E3; zbool; [done|].
  pose proof (ra_len (ra := r fs) ((base fs + Block e) * blockSize + (off + zlen acc)
    - Offset e * blockSize) chunk E3) as Hl.
  destruct (r fs _ _) as [d' [er|]]; cbn in Hl.
  { intros [= <- <-]. rewrite zlen_app. lia. }
  assert (zlen (acc ++ d') <= want) by (rewrite zlen_app; lia).
  destruct (zlen d' =? chunk); cbn [negb]; [by apply IH|]. intros [= <- <-]. lia.
Qed.

Lemma find_none_intro {A} (f : A -> bool) (l : list A) :
  (forall x, x ∈ l -> f x = false) -> List.find f l = None.
Proof.
  induction l as [|x l IH]; intros H; [done|]. cbn. rewrite H by left.
  apply IH. intros y Hy. apply H. by right.
Qed.

Lemma find_app_none {A} (f : A -> bool) (l k : list A) :
  List.find f l = None -> List.find f (l ++ k) = List.find f k.
Proof. induction l as [|x l IH]; cbn; [done|]. by destruct (f x). Qed.

(** What the loop knows at position [pos], with [pre] behind it. *)
Definition loop_inv (pre exts : list Extent) (pos : Z) : Prop :=
  Forall (fun e => Len e = 0 \/ ext_end e <= pos) pre
  /\ Forall (fun e => 0 < Len e -> pos < ext_end e) exts.

Lemma file_byte_hole fs content pre exts pos x :
  loop_inv pre exts pos -> pos <= x -> Forall (fun e => x < ext_start e) exts ->
  file_byte fs content (pre ++ exts) x = 0.
Proof.
  intros [Hpre _] Hx Hexts. unfold file_byte. rewrite find_none_intro; [done|].
  intros e [He|He]%elem_of_app; unfold covers, ext_start, ext_end, blockSize in *.
  - eapply Forall_forall in Hpre; [|exact He]. cbn in Hpre.
    apply andb_false_iff. rewrite Z.leb_gt, Z.ltb_ge. lia.
  - eapply Forall_forall in Hexts; [|exact He]. cbn in Hexts.
    apply andb_false_iff. rewrite Z.leb_gt. lia.
Qed.

Lemma file_byte_head fs content pre e rest pos x :
  loop_inv pre (e :: rest) pos -> pos <= x -> ext_start e <= x < ext_end e ->
  file_byte fs content (pre ++ e :: rest) x
  = content ((base fs + Block e) * blockSize + (x - ext_start e)).
Proof.
  intros [Hpre _] Hx He. unfold file_byte. rewrite find_app_none.
  - cbn [List.find]. unfold covers. by rewrite (proj2 (Z.leb_le _ _)), (proj2 (Z.ltb_lt _ _)) by lia.
  - apply find_none_intro. intros e' He'. eapply Forall_forall in Hpre; [|exact He'].
    cbn in Hpre. unfold covers, ext_start, ext_end, blockSize in *.
    apply andb_false_iff. rewrite Z.leb_gt, Z.ltb_ge. lia.
Qed.

Lemma fmap_seqZ_const (f : Z -> Z) m n : (forall x, m <= x < m + n -> f x = 0) ->
  replicate (Z.to_nat n) 0 = f <$> seqZ m n.
Proof.
  intros H. destruct (decide (0 <= n)).
  - apply list_eq_seqZ; [rewrite zlen_replicate; lia|].
    intros i x [-> Hi]%lookup_replicate. symmetry. apply H. lia.
  - by replace (Z.to_nat n) with 0%nat by lia; rewrite seqZ_nil by lia.
Qed.

Lemma fmap_seqZ_ext (f g : Z -> Z) m n : (forall x, m <= x < m + n -> f x = g x) ->
  f <$> seqZ m n = g <$> seqZ m n.
Proof. intros H. apply list_fmap_ext. intros i x [-> Hi]%lookup_seqZ. apply H. lia. Qed.

Lemma fmap_seqZ_shift (f : Z -> Z) a m n :
  (fun x => f (x + a)) <$> seqZ m n = f <$> seqZ (m + a) n.
Proof.
  apply list_eq. intros i. rewrite !list_lookup_fmap.
  destruct (decide (Z.of_nat i < n)).
  - rewrite !lookup_seqZ_lt by lia. cbn. do 2 f_equal. lia.
  - by rewrite !lookup_seqZ_ge by lia.
Qed.

Lemma loop_inv_skip pre e rest pos :
  Len e = 0 -> loop_inv pre (e :: rest) pos -> loop_inv (pre ++ [e]) rest pos.
Proof.
  intros He [Hp Hx]. inv Hx. split; [|done].
  apply Forall_app. split; [done|]. by constructor; [left|constructor].
Qed.

Section Correct.
Context (fs : FS) (content : Z -> Z) (isize : Z) `{!ReaderAtOK (r fs) content isize}.

Lemma readLoop_correct all off want fuel pre exts acc res :
  wf_extents fs isize all -> 0 <= off -> all = pre ++ exts ->
  loop_inv pre exts (off + zlen acc) -> zlen acc <= want ->
  acc = file_byte fs content all <$> seqZ off (zlen acc) ->
  readLoop fuel fs off want exts acc = Some res ->
  res = Ok (file_byte fs content all <$> seqZ off want, None).
Proof.
  intros [Hin Hso] Hoff. revert pre exts acc.
  induction fuel as [|fuel IH]; intros pre exts acc Hall Hinv Hle Hacc; [done|]. loop_step.
  destruct (zlen acc <? want) eqn:E; zbool; cbn [negb].
  2: { intros [= <-]. do 2 f_equal. rewrite Hacc at 1. by replace (zlen acc) with want by lia. }
  assert (forall pre' exts' d n, 0 <= n -> n <= want - zlen acc -> all = pre' ++ exts' ->
    loop_inv pre' exts' (off + zlen acc + n) ->
    d = file_byte fs content all <$> seqZ (off + zlen acc) n ->
    readLoop fuel fs off want exts' (acc ++ d) = Some res ->
    res = Ok (file_byte fs content all <$> seqZ off want, None)) as Hgo.
  { intros pre' exts' d n Hn0 Hn Hall' Hinv' Hd. assert (zlen d = n) as Hzd.
    { rewrite Hd, zlen_fmap, zlen_seqZ; lia. }
    apply (IH pre'); [done| | |].
    - by rewrite zlen_app, Hzd, Z.add_assoc.
    - rewrite zlen_app. lia.
    - rewrite zlen_app, seqZ_app, fmap_app, Hzd, <- Hd, <- Hacc by (auto with golib; lia). done. }
  destruct exts as [|e rest].
  { apply (Hgo pre [] _ (want - zlen acc)); [lia|lia|done| |].
    - split; [|done]. destruct Hinv as [Hp _]. eapply Forall_impl; [exact Hp|]. cbn. lia.
    - apply fmap_seqZ_const. intros x Hx. rewrite Hall.
      eapply file_byte_hole; [exact Hinv|lia|done]. }
  destruct (Len e =? 0) eqn:El; zbool.
  { apply (IH (pre ++ [e])); [by rewrite <- app_assoc|by apply loop_inv_skip|done|done]. }
  assert (0 < Len e) as Hlen.
  { rewrite Hall in Hin. apply Forall_app in Hin as [_ Hin]. inv Hin. lia. }
  destruct Hinv as [Hp Hx]. pose proof (Forall_inv Hx) as Hxe. cbn in Hxe.
  assert (Forall (fun e' => ext_end e <= ext_start e') rest) as Hrest.
  { rewrite Hall in Hso. apply StronglySorted_app_1_r, StronglySorted_cons in Hso as [Hso _].
    eapply Forall_impl; [exact Hso|]. unfold ext_end, ext_start, blockSize. cbn. lia. }
  destruct (off + zlen acc <? Offset e * blockSize) eqn:E2; zbool.
  { set (chunk := Z.min _ _). apply (Hgo pre (e :: rest) _ chunk); [lia|lia|done| |].
    - split.
      + eapply Forall_impl; [exact Hp|]. cbn. lia.
      + constructor; [intros; unfold ext_end, blockSize in *; lia|].
        eapply Forall_impl; [exact Hrest|]. unfold ext_end, ext_start, blockSize in *. cbn. lia.
    - apply fmap_seqZ_const. intros x Hxx. rewrite Hall.
      eapply file_byte_hole; [by split|lia|].
      constructor; [unfold ext_start; lia|]. eapply Forall_impl; [exact Hrest|].
      unfold ext_end, ext_start, blockSize in *. cbn. lia. }
  set (end_ := _ + Len e * blockSize). set (chunk := Z.min _ _).
  assert (end_ = ext_end e) as He by (unfold end_, ext_end, blockSize; lia).
  assert (off + zlen acc < ext_end e) as Hpos by auto.
  rewrite (proj2 (Z.ltb_ge _ _)) by lia.
  assert (wf_e : 0 <= Offset e /\ 0 <= base fs + Block e
    /\ (base fs + Block e + Len e) * blockSize <= isize).
  { rewrite Hall in Hin. apply Forall_app in Hin as [_ Hin]. inv Hin. lia. }
  rewrite (reader_exact _ content isize) by (unfold ext_end, blockSize in *; lia).
  rewrite zlen_fmap, zlen_seqZ, Z.eqb_refl by lia. cbn [negb].
  assert (content <$> seqZ ((base fs + Block e) * blockSize + (off + zlen acc)
      - Offset e * blockSize) chunk
    = file_byte fs content all <$> seqZ (off + zlen acc) chunk) as Hd.
  { replace (_ - _) with (off + zlen acc + ((base fs + Block e) * blockSize - ext_start e))
      by (unfold ext_start; lia).
    rewrite <- fmap_seqZ_shift. apply fmap_seqZ_ext. intros x Hxx. rewrite Hall.
    rewrite (file_byte_head fs content pre e rest (off + zlen acc)).
    - f_equal. lia.
    - by split.
    - lia.
    - unfold ext_start. lia. }
  destruct (off + zlen acc + chunk =? end_) eqn:E4; zbool.
  - apply (Hgo (pre ++ [e]) rest _ chunk); [lia|lia|by rewrite <- app_assoc| |exact Hd].
    split.
    + apply Forall_app. split; [eapply Forall_impl; [exact Hp|]; cbn; lia|].
      constructor; [lia|constructor].
    + eapply Forall_impl; [exact Hrest|]. unfold ext_end, ext_start, blockSize in *. cbn. lia.
  - apply (Hgo pre (e :: rest) _ chunk); [lia|lia|done| |exact Hd].
    split; [eapply Forall_impl; [exact Hp|]; cbn; lia|].
    constructor; [lia|]. eapply Forall_impl; [exact Hrest|].
    unfold ext_end, ext_start, blockSize in *. cbn. lia.
Qed.

End Correct.

(** ** Properties: reading *)

Lemma ReadAt_unfold fs ino plen off :
  0 <= off < Size ino ->
  let want := Z.min plen (Size ino - off) in
  exists exts,
    ReadAt fs ino plen off =
    match readLoop (read_fuel exts) fs off want exts [] with
    | Some (Ok (d, None)) => Ok (d, if zlen d <? plen then Some EOF else None)
    | Some res => res
    | None => Panic
    end.
Proof.
  intros Hoff. unfold ReadAt.
  rewrite (proj2 (Z.ltb_ge off 0)), (proj2 (Z.leb_gt (Size ino) off)) by lia.
  eexists. reflexivity.
Qed.

(** [ReadAt] stores at most the bytes asked for and at most the bytes left in
    the file, whatever the extents. *)
Theorem ReadAt_bounds fs content isize `{!ReaderAtOK (r fs) content isize}
    ino plen off d err :
  0 <= plen -> ReadAt fs ino plen off = Ok (d, err) ->
  zlen d <= plen /\ zlen d <= Z.max 0 (Size ino - off)
  /\ (zlen d < plen -> err <> None).
Proof.
  intros Hp H. destruct (decide (0 <= off < Size ino)) as [Hoff|Hoff].
  - destruct (ReadAt_unfold fs ino plen off Hoff) as [exts Hr]. rewrite Hr in H. clear Hr.
    pose proof (readLoop_length fs content isize (read_fuel exts) off
      (Z.min plen (Size ino - off)) exts []) as Hl. rewrite zlen_nil in Hl.
    destruct (readLoop _ _ _ _ _ _) as [[[d' [er|]]| |]|]; simplify_eq.
    + pose proof (Hl d (Some er) ltac:(lia) eq_refl). split_and!; [lia|lia|done].
    + pose proof (Hl d None ltac:(lia) eq_refl). split_and!; [lia|lia|].
      intros Hlt. by rewrite (proj2 (Z.ltb_lt _ _) Hlt).
  - unfold ReadAt in H. destruct (off <? 0) eqn:E1; zbool; [simplify_eq; rewrite zlen_nil; split_and!; [lia|lia|done]|].
    destruct (Size ino <=? off) eqn:E2; zbool; [simplify_eq; rewrite zlen_nil; split_and!; [lia|lia|done]|lia].
Qed.

(** On a healthy image and a well-formed extent list, [ReadAt] returns exactly
    the file's bytes, with [io.EOF] exactly when the file ends first. *)
Theorem ReadAt_correct fs content isize `{!ReaderAtOK (r fs) content isize}
    ino plen off :
  wf_extents fs isize (Extents ino) -> 0 <= off < Size ino -> 0 <= plen ->
  let n := Z.min plen (Size ino - off) in
  ReadAt fs ino plen off
  = Ok (file_byte fs content (Extents ino) <$> seqZ off n,
        if n <? plen then Some EOF else None).
Proof.
  intros Hwf Hoff Hp n. unfold ReadAt.
  rewrite (proj2 (Z.ltb_ge off 0)), (proj2 (Z.leb_gt (Size ino) off)) by lia.
  fold n. set (f := fun i : Z => _).
  destruct (search_spec (zlen (Extents ino)) f) as (Hr & Hlo & Hhi); [auto with golib| |].
  { intros a b Hab Hb. unfold f.
    destruct (lookup_lt_is_Some_2 (Extents ino) (Z.to_nat a)) as [ea Ha]; [unfold zlen in *; lia|].
    destruct (lookup_lt_is_Some_2 (Extents ino) (Z.to_nat b)) as [eb Hbb]; [unfold zlen in *; lia|].
    rewrite Ha, Hbb. intros Hfa. zbool. apply Z.ltb_lt.
    destruct (decide (a = b)) as [->|Hne]; [congruence|].
    destruct Hwf as [Hin Hso].
    assert (Z.to_nat a < Z.to_nat b)%nat as Hnat by lia.
    pose proof (StronglySorted_lookup _ _ _ _ _ _ Hso Hnat Ha Hbb).
    eapply Forall_lookup_1 in Hin; [|exact Hbb]. unfold blockSize in *. cbn in *. lia. }
  set (i := search _ _) in *. set (exts := drop (Z.to_nat i) (Extents ino)).
  destruct (readLoop _ _ _ _ _ _) as [res|] eqn:E.
  2: { exfalso. eapply readLoop_total; [|exact E]. unfold read_fuel. lia. }
  eapply (readLoop_correct fs content isize (Extents ino) off n _ (take (Z.to_nat i) (Extents ino)))
    in E; [|exact Hwf|lia|symmetry; apply take_drop| |rewrite zlen_nil; lia|done].
  - rewrite E, zlen_fmap, zlen_seqZ by lia. done.
  - rewrite zlen_nil, Z.add_0_r. split; apply Forall_lookup_2; intros k e Hk.
    + apply lookup_take_Some in Hk as [Hk Hlt]. right. specialize (Hlo (Z.of_nat k) ltac:(lia)).
      unfold f in Hlo. rewrite Nat2Z.id, Hk in Hlo. by zbool.
    + intros _. unfold exts in Hk. rewrite lookup_drop in Hk.
      pose proof (lookup_lt_Some _ _ _ Hk). specialize (Hhi (i + Z.of_nat k)).
      unfold f in Hhi. replace (Z.to_nat (i + Z.of_nat k)) with (Z.to_nat i + k)%nat in Hhi by lia.
      rewrite Hk in Hhi. unfold zlen in Hhi. by apply Z.ltb_lt, Hhi; lia.
Qed.

Definition demo_image : bytes := seqZ 0 1024.
Definition demo_fs : FS := MkFS (image_reader ((fun x => x mod 256) <$> demo_image)) 0 0 1 1 1 1.
Definition demo_inode : Inode_t :=
  MkInode 5 0x81a4 1 0 0 1500 0 0 0 0 [MkExtent 1 1 1].

Lemma ReadAt_correct_witness :
  ReadAt demo_fs demo_inode 8 1020 = Ok ([252; 253; 254; 255; 0; 0; 0; 0], None).
Proof.
  refine (eq_trans (ReadAt_correct demo_fs (at_ ((fun x => x mod 256) <$> demo_image)) 1024
    (ReaderAtOK0 := image_reader_ok _) demo_inode 8 1020 _ _ _) _).
  - split; [|repeat constructor]. repeat constructor; vm_compute; discriminate.
  - vm_compute. split; [discriminate|reflexivity].
  - vm_compute. discriminate.
  - vm_compute. reflexivity.
Defined.

(** Two extents that overlap: the second ends before the position the first
    one left the loop at, so the slice bound [done+chunk] is below [done]. *)
Definition overlap_image : bytes :=
  let sb := be_enc 4 100 ++ be_enc 4 2 ++ be_enc 4 10 ++ be_enc 2 1 ++ replicate 4 0
            ++ be_enc 2 1 ++ replicate 8 0 ++ be_enc 4 SuperMagic in
  let root := be_enc 2 0x41ed ++ be_enc 2 2 ++ replicate 4 0 ++ be_enc 4 1536
              ++ replicate 16 0 ++ be_enc 2 2 ++ replicate 2 0
              ++ be_enc 4 0 ++ be_enc 4 (2 * 2 ^ 24) ++ be_enc 4 0 ++ be_enc 4 (2 ^ 24) in
  replicate 512 0 ++ sb ++ replicate (512 - length sb) 0
  ++ replicate 256 0 ++ root ++ replicate (256 - length root) 0.

(** A crafted image that opens and whose root inode parses makes the directory
    read panic instead of failing. *)
Theorem ReadDir_overlap_panics :
  (fs ← Open (image_reader overlap_image) 0;
   ino ← Inode fs RootIno;
   ReadDir fs ino) = Panic
  /\ (fs ← Open (image_reader overlap_image) 0; Extents <$> Inode fs RootIno)
     = Ok [MkExtent 0 2 0; MkExtent 0 1 0].
Proof. split; vm_compute; reflexivity. Qed.

(** ** Properties: superblock and inodes *)

Definition wf_FS (fs : FS) : Prop :=
  0 < firstCG fs < 2 ^ 31 /\ 0 < cgFSize fs < 2 ^ 31
  /\ 0 < cgISize fs < 2 ^ 15 /\ 0 < ncg fs < 2 ^ 15.

#[export] Instance offset_le_total : Total offset_le.
Proof. intros a b. unfold offset_le. lia. Qed.
#[export] Instance offset_le_trans : Transitive offset_le.
Proof. intros a b c. unfold offset_le. lia. Qed.

Lemma Open_wf ra b fs : Open ra b = Ok fs -> wf_FS fs /\ r fs = ra /\ base fs = b.
Proof.
  unfold Open. destruct (readBlock _ 1) as [sb| |]; cbn [mbind outcome_bind]; [|done|done].
  destruct (_ && _); [done|]. set (fs' := MkFS _ _ _ _ _ _ _).
  destruct (_ || _) eqn:E; [done|]. intros H%Ok_inj. subst fs fs'. zbool.
  unfold wf_FS. cbn [firstCG cgFSize cgISize ncg r base] in *.
  pose proof (i32_range (get_u32 sb 4)). pose proof (i32_range (get_u32 sb 8)).
  pose proof (i16_range (get_u16 sb 12)). pose proof (i16_range (get_u16 sb 18)).
  split; [lia|done].
Qed.

Lemma inopcg_eq fs : wf_FS fs -> u32 (u32 (cgISize fs) * inodesPerBB) = 4 * cgISize fs.
Proof.
  intros (_ & _ & Hi & _). unfold inodesPerBB.
  rewrite (u32_small (cgISize fs)) by lia. rewrite u32_small; lia.
Qed.

Lemma zlen_read_table fs numext blocks exts out :
  zlen exts <= numext -> read_table fs numext blocks exts = Ok out -> zlen out <= numext.
Proof.
  revert exts. induction blocks as [|bn rest IH]; intros exts Hle; cbn [read_table].
  { intros H%Ok_inj. by subst. }
  destruct (readBlock fs bn) as [blk| |]; cbn [mbind outcome_bind]; [|done|done].
  cbv zeta. set (exts' := exts ++ _).
  assert (zlen exts' <= numext).
  { unfold exts'. rewrite zlen_app, zlen_fmap, zlen_seqZ by (unfold blockSize; change (512 / 8) with 64; lia). lia. }
  destruct (numext <=? zlen exts'); [intros Heq%Ok_inj; by subst|by apply IH].
Qed.

Lemma zlen_inode_extents fs ino d numext out : 0 <= numext ->
  inode_extents fs ino d numext = Ok out -> zlen out = numext.
Proof.
  intros Hn. unfold inode_extents. destruct (numext <=? directExtents).
  { intros H%Ok_inj. subst. by rewrite zlen_fmap, zlen_seqZ. }
  destruct (read_table _ _ _ _) as [exts| |] eqn:E; cbn [mbind outcome_bind]; [|done|done].
  apply zlen_read_table in E; [|by rewrite zlen_nil].
  destruct (zlen exts <? numext) eqn:E2; [done|]. intros H%Ok_inj. subst. zbool. lia.
Qed.

(** What [Inode] accepts: the number lies in one of the filesystem's cylinder
    groups and is read from the inode table of that group, the size is not
    negative, and the extents are in offset order. *)
Theorem Inode_sound fs ino n :
  wf_FS fs -> 0 <= ino -> Inode fs ino = Ok n ->
  Num n = ino /\ 0 <= Size n < 2 ^ 31
  /\ StronglySorted offset_le (Extents n) /\ zlen (Extents n) < 2 ^ 15
  /\ exists g k, 0 <= g < ncg fs /\ 0 <= k < cgISize fs
       /\ inode_block fs ino = firstCG fs + g * cgFSize fs + k.
Proof.
  intros Hwf Hino. unfold Inode, inode_block. rewrite inopcg_eq by done.
  destruct Hwf as (Hf & Hc & Hi & Hn).
  destruct (4 * cgISize fs =? 0) eqn:E0; [done|].
  destruct (u32 (ncg fs) <=? ino / (4 * cgISize fs)) eqn:E1; [done|].
  destruct (readBlock _ _) as [blk| |]; cbn [mbind outcome_bind]; [|done|done]. cbv zeta.
  set (d := sub blk _ _). destruct (i32 (get_u32 d 8) <? 0) eqn:E2; [done|].
  destruct (i16 (get_u16 d 28) <? 0) eqn:E3; [done|].
  destruct (inode_extents _ _ _ _) as [exts| |] eqn:E4; cbn [mbind outcome_bind]; [|done|done].
  intros H%Ok_inj. subst n. cbn. zbool.
  apply zlen_inode_extents in E4; [|done].
  pose proof (i32_range (get_u32 d 8)). pose proof (i16_range (get_u16 d 28)).
  rewrite u32_small in E1 by lia.
  split_and!; [done|lia|lia| | |].
  - apply StronglySorted_merge_sort; apply _.
  - unfold zlen. rewrite merge_sort_Permutation. unfold zlen in E4. lia.
  - exists (ino / (4 * cgISize fs)), (ino mod (4 * cgISize fs) / 4).
    pose proof (Z.mod_pos_bound ino (4 * cgISize fs) ltac:(lia)).
    split_and!; [apply Z.div_pos; lia|done|apply Z.div_pos; lia| |done].
    apply Z.div_lt_upper_bound; lia.
Qed.

(** ** Properties: the io/fs view *)

(** Only a genuine absence is [fs.ErrNotExist]: an I/O or corruption error
    surfaces as itself. *)
Theorem resolve_not_exist fs op name op' path :
  resolve fs op name = Err (PathError op' path ErrNotExist)
  <-> ValidPath name = true /\ name <> [dot] /\ Lookup fs name = Err ErrNotFound
      /\ op' = op /\ path = [name].
Proof.
  unfold resolve. destruct (ValidPath name); cbn [negb]; [|naive_solver].
  case_bool_decide as Hd.
  - unfold wrap. destruct (Inode fs RootIno); intuition congruence.
  - unfold wrap. destruct (Lookup fs name) as [|[]|]; intuition congruence.
Qed.

#[export] Instance name_le_total : Total name_le.
Proof. intros a b. apply bytes_leb_total. Qed.
#[export] Instance name_le_trans : Transitive name_le.
Proof. intros a b c. apply bytes_leb_trans. Qed.

Lemma read_children_names fs name raw out : read_children fs name raw = Ok out ->
  iname <$> out = filter (fun n => n <> [dot] /\ n <> [dot; dot]) (EName <$> raw)
  /\ Forall (fun i => exists e, e ∈ raw /\ EName e = iname i /\ Inode fs (Ino e) = Ok (inode i)) out.
Proof.
  revert out. induction raw as [|e rest IH]; intros out; cbn [read_children fmap list_fmap].
  { intros H%Ok_inj. subst. split; [done|constructor]. }
  assert (forall i, (exists e', e' ∈ rest /\ EName e' = iname i /\ Inode fs (Ino e') = Ok (inode i)) ->
    exists e', e' ∈ e :: rest /\ EName e' = iname i /\ Inode fs (Ino e') = Ok (inode i)) as Hw.
  { intros i (e' & He & Hr). exists e'. split; [by right|done]. }
  rewrite filter_cons.
  destruct (bool_decide (EName e = [dot]) || bool_decide (EName e = [dot; dot])) eqn:E.
  { intros H. rewrite decide_False.
    - apply IH in H as [H1 H2]. split; [done|]. eapply Forall_impl; [exact H2|exact Hw].
    - rewrite orb_true_iff, !bool_decide_eq_true in E. naive_solver. }
  destruct (Inode fs (Ino e)) as [child| |] eqn:Ei; cbn [wrap mbind outcome_bind]; [|done|done].
  destruct (read_children fs name rest) as [out'| |]; cbn [mbind outcome_bind]; [|done|done].
  intros H%Ok_inj. subst out. destruct (IH out' eq_refl) as [H1 H2].
  rewrite orb_false_iff, !bool_decide_eq_false in E. rewrite decide_True by done.
  split; [cbn; by f_equal|]. constructor.
  - exists e. split; [left|done].
  - eapply Forall_impl; [exact H2|exact Hw].
Qed.

(** A listing is the directory's entries without "." and "..", sorted by name,
    each with its own inode. *)
Theorem dirEntries_sound fs name ino raw out :
  ReadDir fs ino = Ok raw -> dirEntries fs name ino = Ok out ->
  StronglySorted name_le out
  /\ iname <$> out ≡ₚ filter (fun n => n <> [dot] /\ n <> [dot; dot]) (EName <$> raw)
  /\ Forall (fun i => exists e, e ∈ raw /\ EName e = iname i /\ Inode fs (Ino e) = Ok (inode i)) out.
Proof.
  intros Hr. unfold dirEntries. rewrite Hr. cbn [wrap mbind outcome_bind].
  destruct (read_children _ _ _) as [l| |] eqn:E; cbn [mbind outcome_bind]; [|done|done].
  intros H%Ok_inj. subst out. apply read_children_names in E as [H1 H2]. split_and!.
  - apply StronglySorted_merge_sort; apply _.
  - by rewrite merge_sort_Permutation, H1.
  - by rewrite merge_sort_Permutation.
Qed.

(** Listing a directory [count] at a time. *)
Fixpoint list_all {A} (fuel : nat) (ents : list A) (off count : Z) : option (list A) :=
  match fuel with
  | O => None
  | S fuel =>
      match dir_ReadDir ents off count with
      | (inl page, off') => (fun rest => page ++ rest) <$> list_all fuel ents off' count
      | (inr _, _) => Some []
      end
  end.

(** Reading pages of any positive size until [io.EOF] lists every entry once,
    in order. *)
Theorem dir_ReadDir_pages {A} (ents : list A) count : 0 < count ->
  list_all (S (length ents)) ents 0 count = Some ents.
Proof.
  intros Hc.
  enough (forall fuel off, 0 <= off -> zlen (drop (Z.to_nat off) ents) < Z.of_nat fuel ->
    list_all fuel ents off count = Some (drop (Z.to_nat off) ents)) as H.
  { rewrite H; [done|lia|]. change (Z.to_nat 0) with 0%nat. rewrite drop_0. unfold zlen. lia. }
  induction fuel as [|fuel IH]; intros off Hoff Hf.
  { pose proof (zlen_nonneg (drop (Z.to_nat off) ents)). lia. }
  cbn [list_all]. unfold dir_ReadDir. rewrite (proj2 (Z.leb_gt count 0)) by lia.
  destruct (zlen (drop (Z.to_nat off) ents) =? 0) eqn:E; zbool.
  { destruct (drop _ _); [done|]. rewrite zlen_cons in E. unfold zlen in E. lia. }
  set (n := if _ <? _ then _ else _).
  assert (0 < n <= zlen (drop (Z.to_nat off) ents)) as Hn.
  { unfold n. pose proof (zlen_nonneg (drop (Z.to_nat off) ents)).
    destruct (zlen _ <? count) eqn:E2; zbool; lia. }
  assert (drop (Z.to_nat (off + n)) ents = drop (Z.to_nat n) (drop (Z.to_nat off) ents)) as Hd.
  { rewrite drop_drop. f_equal. lia. }
  rewrite IH; [|lia|].
  - cbn. by rewrite Hd, take_drop.
  - rewrite Hd. unfold zlen in *. rewrite length_drop. lia.
Qed.

(** ** The theorems at work: a filesystem with two empty files *)

Definition dir_image : bytes :=
  let sb := be_enc 4 100 ++ be_enc 4 2 ++ be_enc 4 10 ++ be_enc 2 1 ++ replicate 4 0
            ++ be_enc 2 1 ++ replicate 8 0 ++ be_enc 4 SuperMagic in
  let root := be_enc 2 0x41ed ++ be_enc 2 2 ++ replicate 4 0 ++ be_enc 4 512
              ++ replicate 16 0 ++ be_enc 2 1 ++ replicate 2 0 ++ be_enc 4 3 ++ be_enc 4 (2 ^ 24) in
  let file := be_enc 2 0x81a4 ++ be_enc 2 2 in
  let dir := [0xBE; 0xEF; 230; 3; 250; 240; 230] ++ replicate 453 0
             ++ be_enc 4 3 ++ [1; 97] ++ replicate 14 0 ++ be_enc 4 3 ++ [1; 98] ++ replicate 14 0
             ++ be_enc 4 2 ++ [1; 46] ++ replicate 6 0 in
  replicate 512 0 ++ sb ++ replicate (512 - length sb) 0
  ++ replicate 256 0 ++ root ++ replicate (128 - length root) 0 ++ file ++ replicate (128 - length file) 0
  ++ dir.

Definition dir_fs : FS :=
  match Open (image_reader dir_image) 0 with Ok fs => fs | _ => demo_fs end.
Definition dir_root : Inode_t :=
  match Inode dir_fs RootIno with Ok n => n | _ => demo_inode end.

Lemma ReadAt_bounds_witness : exists d err,
  ReadAt demo_fs demo_inode 8 1498 = Ok (d, err) /\ zlen d <= 8 /\ zlen d <= 2 /\ err = Some EOF.
Proof.
  eexists _, _. split; [vm_compute; reflexivity|].
  pose proof (ReadAt_bounds demo_fs (at_ ((fun x => x mod 256) <$> demo_image)) 1024
    (ReaderAtOK0 := image_reader_ok _) demo_inode 8 1498 [0; 0] (Some EOF)) as H.
  destruct H as (H1 & H2 & _); [lia|vm_compute; reflexivity|].
  split; [exact H1|]. split; [exact H2|reflexivity].
Defined.

Lemma Inode_sound_witness :
  Inode dir_fs RootIno = Ok dir_root /\ Num dir_root = RootIno /\ StronglySorted offset_le (Extents dir_root).
Proof.
  assert (Hr : Inode dir_fs RootIno = Ok dir_root) by (vm_compute; reflexivity).
  destruct (Inode_sound dir_fs RootIno dir_root) as (H1 & _ & H2 & _).
  - vm_compute. intuition discriminate.
  - discriminate.
  - exact Hr.
  - split; [exact Hr|]. split; [exact H1|exact H2].
Defined.

Lemma dirEntries_sound_witness : exists raw out,
  ReadDir dir_fs dir_root = Ok raw /\ dirEntries dir_fs [dot] dir_root = Ok out /\
  iname <$> out = [str "a"; str "b"] /\ StronglySorted name_le out.
Proof.
  eexists _, _. split; [vm_compute; reflexivity|]. split; [vm_compute; reflexivity|].
  split; [reflexivity|].
  eapply (dirEntries_sound dir_fs [dot] dir_root); vm_compute; reflexivity.
Defined.

Lemma dir_ReadDir_pages_witness : list_all 4 [1; 2; 3] 0 2 = Some [1; 2; 3].
Proof. apply (dir_ReadDir_pages [1; 2; 3] 2). lia. Defined.
