(* ===== verification/Unixcompress.v ===== *)
(** The compress(1) reader ([unixcompress/reader.go]): the header, the code
    reader over groups of bytes, and the LZW decoder with its prefix and suffix
    tables. The decoder is proved free of panics and non-termination on every
    input, and to refine the dictionary-of-strings description of LZW. *)
From S2P Require Import Prelude.

Definition bits : Z := 16.
Definition bitMask : Z := 0x1f.
Definition blockMask : Z := 0x80.
Definition initBits : Z := 9.
Definition first : Z := 257.
Definition clear : Z := 256.
Definition Magic : bytes := [0x1f; 0x9d].
(** The length of the [prefix] and [suffix] arrays. *)
Definition table_len : Z := 2 ^ 16.

Definition maxCode_of (n : Z) : Z := Z.shiftl 1 n - 1.

Definition IsCompressed (b : bytes) : bool :=
  (zlen Magic <=? zlen b) && (at_ b 0 =? at_ Magic 0) && (at_ b 1 =? at_ Magic 1).

Inductive error :=
| ZEOF
| ErrCorrupt (why : string)
| ZRead (code : Z).

(** The reader's state. [stack] is kept top first: its head is the next byte
    out, which the code keeps last. *)
Record reader := MkReader {
  fp : stream;
  err : option error;
  nBits : Z; maxBits : Z; maxCode : Z; maxMaxCode : Z; freeEnt : Z;
  blockCompress : bool; clearFlg : bool;
  prefix : gmap Z Z; suffix : gmap Z Z;
  stack : bytes; finChar : Z; oldCode : Z; incode : Z;
  gbuf : bytes; rOffset : Z; size : Z;
}.

(** ** The header *)

Definition init_suffix : gmap Z Z := list_to_map ((fun c => (c, c)) <$> seqZ 0 256).

Definition NewReader (s : stream) : reader + error :=
  let '(header, e, s) := read_full s 3 in
  match e with
  | Some EOF | Some UnexpectedEOF => inr (ErrCorrupt "short header")
  | Some (OtherIO c) => inr (ZRead c)
  | None =>
      if negb (IsCompressed header) then inr (ErrCorrupt "bad magic")
      else
        let mb := at_ header 2 in
        let block := negb (Z.land mb blockMask =? 0) in
        let mb := Z.land mb bitMask in
        if (bits <? mb) || (mb <? 12) then inr (ErrCorrupt "code width outside 12-16")
        else inl {|
          fp := s; err := None;
          nBits := initBits; maxBits := mb; maxCode := maxCode_of initBits;
          maxMaxCode := Z.shiftl 1 mb;
          freeEnt := if block then first else 256;
          blockCompress := block; clearFlg := false;
          prefix := ∅; suffix := init_suffix;
          stack := []; finChar := 0; oldCode := -1; incode := 0;
          gbuf := replicate 16 0; rOffset := 0; size := 0;
        |}
  end.

(** ** Reading one code *)

(** Widen the code when the next entry needs it, then honour a clear. *)
Definition resize (z : reader) : Z * Z :=
  let '(nb, mc) :=
    if maxCode z <? freeEnt z then
      let nb := nBits z + 1 in
      (nb, if nb =? maxBits z then maxMaxCode z else maxCode_of nb)
    else (nBits z, maxCode z) in
  if clearFlg z then (initBits, maxCode_of initBits) else (nb, mc).

(** The code at bit [rOff] of the group, [nb] bits wide, low-order bits first. *)
Definition extract (buf : bytes) (rOff nb : Z) : outcome stuck Z :=
  let bp := Z.shiftr rOff 3 in
  let rOff := Z.land rOff 7 in
  b ← index buf bp;
  let code := Z.shiftr b rOff in
  let bp := bp + 1 in
  let nb := nb - (8 - rOff) in
  let rOff := 8 - rOff in
  '(code, bp, rOff, nb) ←
    (if 8 <=? nb then
       b ← index buf bp;
       Ok (Z.lor code (Z.shiftl b rOff), bp + 1, rOff + 8, nb - 8)
     else Ok (code, bp, rOff, nb));
  if 0 <? nb then
    b ← index buf bp;
    Ok (Z.lor code (Z.shiftl (Z.land b (Z.shiftl 1 nb - 1)) rOff))
  else Ok code.

(** The refill at the top of [getCode]: resize, then read the next group. *)
Definition refill (z : reader) : outcome stuck (option error * reader) :=
  let '(nb, mc) := resize z in
  if 16 <? nb then Panic  (* z.gbuf[:z.nBits] *)
  else
    let '(got, e, fp') := read_full (fp z) nb in
    let loaded rOff sz := {|
      fp := fp'; err := err z; nBits := nb; maxBits := maxBits z; maxCode := mc;
      maxMaxCode := maxMaxCode z; freeEnt := freeEnt z;
      blockCompress := blockCompress z; clearFlg := false;
      prefix := prefix z; suffix := suffix z;
      stack := stack z; finChar := finChar z; oldCode := oldCode z; incode := incode z;
      gbuf := got ++ drop (length got) (gbuf z); rOffset := rOff; size := sz |} in
    match e with
    | Some (OtherIO c) => Ok (Some (ZRead c), loaded (rOffset z) (size z))
    | _ =>
        if zlen got <=? 0 then Ok (Some ZEOF, loaded (rOffset z) (size z))
        else Ok (None, loaded 0 (Z.shiftl (zlen got) 3 - (nb - 1)))
    end.

(** [z.rOffset += z.nBits]. *)
Definition advance (z : reader) : reader := {|
  fp := fp z; err := err z; nBits := nBits z; maxBits := maxBits z;
  maxCode := maxCode z; maxMaxCode := maxMaxCode z; freeEnt := freeEnt z;
  blockCompress := blockCompress z; clearFlg := clearFlg z;
  prefix := prefix z; suffix := suffix z;
  stack := stack z; finChar := finChar z; oldCode := oldCode z; incode := incode z;
  gbuf := gbuf z; rOffset := rOffset z + nBits z; size := size z |}.

(** [z.getCode()]: the code or the error, and the reader after it. *)
Definition getCode (z : reader) : outcome stuck ((Z + error) * reader) :=
  '(e, z) ←
    (if clearFlg z || (size z <=? rOffset z) || (maxCode z <? freeEnt z)
     then refill z else Ok (None, z));
  match e with
  | Some e => Ok (inr e, z)
  | None =>
      code ← extract (gbuf z) (rOffset z) (nBits z);
      Ok (inl code, advance z)
  end.

(** ** Decoding strings *)

(** [for code >= 256]: push the suffixes of a chain of prefixes, returning the
    literal it ends in. *)
Fixpoint chain (fuel : nat) (pre suf : gmap Z Z) (code : Z) (stk : bytes)
    : outcome stuck (Z * bytes) :=
  match fuel with
  | O => Err OutOfFuel
  | S fuel =>
      if 256 <=? code then
        c ← arr_get table_len suf code;
        next ← arr_get table_len pre code;
        chain fuel pre suf next (c :: stk)
      else Ok (code, stk)
  end.

Definition set_clear (z : reader) : reader := {|
  fp := fp z; err := err z; nBits := nBits z; maxBits := maxBits z;
  maxCode := maxCode z; maxMaxCode := maxMaxCode z; freeEnt := first;
  blockCompress := blockCompress z; clearFlg := true;
  prefix := prefix z; suffix := suffix z;
  stack := stack z; finChar := finChar z; oldCode := -1; incode := incode z;
  gbuf := gbuf z; rOffset := rOffset z; size := size z |}.

Definition set_string (z : reader) (stk : bytes) (fc inCode : Z) : reader := {|
  fp := fp z; err := err z; nBits := nBits z; maxBits := maxBits z;
  maxCode := maxCode z; maxMaxCode := maxMaxCode z; freeEnt := freeEnt z;
  blockCompress := blockCompress z; clearFlg := clearFlg z;
  prefix := prefix z; suffix := suffix z;
  stack := stk; finChar := fc; oldCode := oldCode z; incode := inCode;
  gbuf := gbuf z; rOffset := rOffset z; size := size z |}.

(** One pass of [decode]'s loop on a code that is not a clear: push its string. *)
Definition push_code (z : reader) (inCode : Z) : outcome stuck (option error * reader) :=
  if (freeEnt z <=? inCode) && ((freeEnt z <? inCode) || (oldCode z =? -1))
  then Ok (Some (ErrCorrupt "code beyond table"), z)
  else
    let '(code, stk) :=
      if freeEnt z <=? inCode then (oldCode z, finChar z :: stack z)
      else (inCode, stack z) in
    '(lit, stk) ← chain (S (Z.to_nat code)) (prefix z) (suffix z) code stk;
    fc ← arr_get table_len (suffix z) lit;
    Ok (None, set_string z (fc :: stk) fc inCode).

(** [z.decode()]: the error, if any, and the reader after it. *)
Fixpoint decode_loop (fuel : nat) (z : reader) : outcome stuck (option error * reader) :=
  match fuel with
  | O => Err OutOfFuel
  | S fuel =>
      '(c, z) ← getCode z;
      match c with
      | inr e => Ok (Some e, z)
      | inl code =>
          if (code =? clear) && blockCompress z then decode_loop fuel (set_clear z)
          else push_code z code
      end
  end.

(** Each clear code makes the next [getCode] read another group, so the input
    bounds the loop. *)
Definition decode (z : reader) : outcome stuck (option error * reader) :=
  decode_loop (length (sdata (fp z)) + 2) z.

Definition newEntry (z : reader) : outcome stuck reader :=
  let code := freeEnt z in
  '(pre, suf, fe) ←
    (if (code <? maxMaxCode z) && negb (oldCode z =? -1) then
       pre ← arr_set table_len (prefix z) code (u16 (oldCode z));
       suf ← arr_set table_len (suffix z) code (finChar z);
       Ok (pre, suf, code + 1)
     else Ok (prefix z, suffix z, freeEnt z));
  Ok {|
    fp := fp z; err := err z; nBits := nBits z; maxBits := maxBits z;
    maxCode := maxCode z; maxMaxCode := maxMaxCode z; freeEnt := fe;
    blockCompress := blockCompress z; clearFlg := clearFlg z;
    prefix := pre; suffix := suf;
    stack := stack z; finChar := finChar z; oldCode := incode z; incode := incode z;
    gbuf := gbuf z; rOffset := rOffset z; size := size z |}.

(** ** Read *)

Definition set_stack (z : reader) (stk : bytes) : reader :=
  set_string z stk (finChar z) (incode z).

Definition set_err (z : reader) (e : option error) : reader := {|
  fp := fp z; err := e; nBits := nBits z; maxBits := maxBits z;
  maxCode := maxCode z; maxMaxCode := maxMaxCode z; freeEnt := freeEnt z;
  blockCompress := blockCompress z; clearFlg := clearFlg z;
  prefix := prefix z; suffix := suffix z;
  stack := stack z; finChar := finChar z; oldCode := oldCode z; incode := incode z;
  gbuf := gbuf z; rOffset := rOffset z; size := size z |}.

(** The loop of [Read]: [out] is the [n] bytes stored so far. *)
Fixpoint read_loop (fuel : nat) (plen : Z) (z : reader) (out : bytes)
    : outcome stuck (bytes * reader) :=
  match fuel with
  | O => Err OutOfFuel
  | S fuel =>
      if negb (zlen out <? plen) then Ok (out, z)
      else
        match stack z with
        | _ :: _ =>
            let k := Z.min (zlen (stack z)) (plen - zlen out) in
            let out := out ++ take (Z.to_nat k) (stack z) in
            let z := set_stack z (drop (Z.to_nat k) (stack z)) in
            z ← (if zlen (stack z) =? 0 then newEntry z else Ok z);
            read_loop fuel plen z out
        | [] =>
            match err z with
            | Some _ => Ok (out, z)
            | None =>
                '(e, z) ← decode z;
                read_loop fuel plen (set_err z e) out
            end
        end
  end.

(** [z.Read(p)] with [len(p) = plen]: the bytes, the error and the reader. *)
Definition Read (z : reader) (plen : Z) : outcome stuck (bytes * option error * reader) :=
  if plen =? 0 then Ok ([], None, z)
  else
    '(out, z) ← read_loop (2 * Z.to_nat plen + 2) plen z [];
    if 0 <? zlen out then Ok (out, None, z) else Ok ([], err z, z).

(** ** Bits *)

Lemma drop_at (l : bytes) i : 0 <= i < zlen l ->
  drop (Z.to_nat i) l = at_ l i :: drop (Z.to_nat (i + 1)) l.
Proof.
  intros Hi. unfold at_, zlen in *.
  destruct (lookup_lt_is_Some_2 l (Z.to_nat i)) as [x Hx]; [lia|].
  rewrite (nth_lookup_Some _ _ 0 _ Hx). replace (Z.to_nat (i + 1)) with (S (Z.to_nat i)) by lia.
  by apply drop_S.
Qed.

(** [getCode] reads [nb] bits from bit [off] of the group, least significant
    bit first, and never looks past it. *)
Theorem extract_spec buf off nb :
  wf_bytes buf -> 0 <= off -> 9 <= nb <= 16 -> off + nb <= 8 * zlen buf ->
  extract buf off nb = Ok (le buf / 2 ^ off mod 2 ^ nb).
Proof.
  intros Hwf Hoff Hnb Hlen. unfold extract. rewrite Z.shiftr_div_pow2 by lia.
  change (Z.land off 7) with (Z.land off (Z.ones 3)). rewrite Z.land_ones by lia.
  change (2 ^ 3) with 8.
  pose proof (Z.div_mod off 8 ltac:(lia)). pose proof (Z.mod_pos_bound off 8 ltac:(lia)).
  set (bp := off / 8) in *. set (q := off mod 8) in *.
  assert (0 <= bp) by (apply Z.div_pos; lia).
  assert (le buf / 2 ^ off = le (drop (Z.to_nat bp) buf) / 2 ^ q) as ->.
  { rewrite le_drop by done. rewrite Z2Nat.id by lia.
    change 256 with (2 ^ 8). rewrite <- Z.pow_mul_r, Z.div_div by lia.
    rewrite <- Z.pow_add_r by lia. do 2 f_equal. lia. }
  rewrite (index_ok buf bp) by lia. cbn [mbind outcome_bind].
  rewrite drop_at by lia. cbn [le].
  pose proof (at_range buf bp Hwf) as Hb0. set (b0 := at_ buf bp) in *.
  set (X := le (drop (Z.to_nat (bp + 1)) buf)).
  rewrite (Z.shiftr_div_pow2 b0) by lia.
  replace (b0 + 256 * X) with (b0 + 2 ^ (q + (8 - q)) * X) 
    by (replace (q + (8 - q)) with 8 by lia; done).
  rewrite div_add_low by lia.
  assert (0 <= b0 / 2 ^ q < 2 ^ (8 - q)) as Hlow.
  { split; [apply Z.div_pos; lia|]. apply Z.div_lt_upper_bound; [lia|].
    rewrite <- Z.pow_add_r by lia. replace (q + (8 - q)) with 8 by lia. lia. }
  pose proof (mod_add_low (b0 / 2 ^ q) X (8 - q) (nb - (8 - q)) ltac:(lia) ltac:(lia) Hlow) as HX.
  replace (8 - q + (nb - (8 - q))) with nb in HX by lia. rewrite HX. clear HX.
  unfold X. rewrite drop_at by lia. cbn [le].
  pose proof (at_range buf (bp + 1) Hwf) as Hb1. set (b1 := at_ buf (bp + 1)) in *.
  assert (forall b n, 0 <= n -> Z.land b (Z.shiftl 1 n - 1) = b mod 2 ^ n) as Hmask.
  { intros b n Hn. rewrite <- Z.land_ones, Z.ones_equiv, Z.shiftl_1_l by lia. done. }
  set (Y := le (drop (Z.to_nat (bp + 1 + 1)) buf)).
  destruct (8 <=? nb - (8 - q)) eqn:E; zbool; cbn [mbind outcome_bind].
  - rewrite index_ok by lia. cbn [mbind outcome_bind]. fold b1.
    rewrite (lor_shift_add _ b1) by lia.
    pose proof (mod_add_low b1 Y 8 (nb - (8 - q) - 8) ltac:(lia) ltac:(lia) ltac:(lia)) as HY.
    replace (8 + (nb - (8 - q) - 8)) with (nb - (8 - q)) in HY by lia.
    change (2 ^ 8) with 256 in HY. rewrite HY. clear HY.
    destruct (0 <? nb - (8 - q) - 8) eqn:E2; zbool.
    + rewrite index_ok by lia. cbn [mbind outcome_bind].
      unfold Y. rewrite drop_at by lia. cbn [le].
      pose proof (at_range buf (bp + 1 + 1) Hwf) as Hb2. set (b2 := at_ buf (bp + 1 + 1)) in *.
      assert (0 <= b0 / 2 ^ q + 2 ^ (8 - q) * b1 < 2 ^ (8 - q + 8)) as Hlow2.
      { rewrite (Z.pow_add_r 2 (8 - q) 8) by lia. change (2 ^ 8) with 256.
        set (p := 2 ^ (8 - q)) in *. nia. }
      rewrite Hmask, lor_shift_add by lia.
      change 256 with (2 ^ 8).
      assert (forall W, (b2 + 2 ^ 8 * W) mod 2 ^ (nb - (8 - q) - 8) = b2 mod 2 ^ (nb - (8 - q) - 8)) as ->.
      { intros W. set (k := nb - (8 - q) - 8) in *.
        replace 8 with (k + (8 - k)) by lia. rewrite Z.pow_add_r by lia.
        replace (b2 + 2 ^ k * 2 ^ (8 - k) * W) with (b2 + (2 ^ (8 - k) * W) * 2 ^ k) by ring.
        apply Z_mod_plus_full. }
      f_equal. replace (8 - q + 8) with (8 + (8 - q)) by lia. rewrite Z.pow_add_r by lia. ring.
    + assert (nb - (8 - q) - 8 = 0) as -> by lia. rewrite Z.mod_1_r. f_equal. ring.
  - rewrite (proj2 (Z.ltb_lt 0 _)) by lia. rewrite index_ok by lia. cbn [mbind outcome_bind].
    fold b1. rewrite Hmask, lor_shift_add by lia. f_equal. f_equal. f_equal.
    set (k := nb - (8 - q)) in *. change 256 with (2 ^ 8). replace 8 with (k + (8 - k)) by lia.
    rewrite Z.pow_add_r by lia.
    replace (b1 + 2 ^ k * 2 ^ (8 - k) * Y) with (b1 + (2 ^ (8 - k) * Y) * 2 ^ k) by ring.
    symmetry. apply Z_mod_plus_full.
Qed.

(** ** LZW over strings *)

(** The abstract decoder: a dictionary of strings, the next free code and the
    last string, if any. *)
Record lzw := MkLzw { dict : gmap Z bytes; dfree : Z; dlast : option bytes }.

Definition lzw_reset (lo : Z) : lzw := MkLzw ∅ lo None.

Definition lzw_string (d : lzw) (c : Z) : option bytes :=
  if c <? 256 then Some [c] else dict d !! c.

(** The string of code [c], allowing the one just being defined, and the
    dictionary after it: the last string extended by this one's first byte. *)
Definition lzw_step (limit : Z) (d : lzw) (c : Z) : option (bytes * lzw) :=
  s ← match lzw_string d c with
      | Some s => Some s
      | None =>
          if c =? dfree d then (fun w => w ++ take 1 w) <$> dlast d else None
      end;
  let d' := match dlast d with
            | Some w =>
                if dfree d <? limit
                then MkLzw (<[dfree d := w ++ take 1 s]> (dict d)) (dfree d + 1) (Some s)
                else MkLzw (dict d) (dfree d) (Some s)
            | None => MkLzw (dict d) (dfree d) (Some s)
            end in
  Some (s, d').

(** The string the prefix and suffix tables give a code. *)
Inductive str_of (pre suf : gmap Z Z) (lo hi : Z) : Z -> bytes -> Prop :=
| str_lit c : 0 <= c < 256 -> str_of pre suf lo hi c [c]
| str_ent c p s :
    lo <= c < hi -> p = default 0 (pre !! c) -> p < c ->
    str_of pre suf lo hi p s ->
    str_of pre suf lo hi c (s ++ [default 0 (suf !! c)]).

(** The tables of a reader, as [refines] sees them. *)
Record tables := MkTables {
  tmaxBits : Z; tmaxMax : Z; tfree : Z; tblock : bool;
  tpre : gmap Z Z; tsuf : gmap Z Z; tfin : Z; told : Z
}.
Definition tables_of (z : reader) : tables :=
  MkTables (maxBits z) (maxMaxCode z) (freeEnt z) (blockCompress z)
    (prefix z) (suffix z) (finChar z) (oldCode z).
Definition tlo (t : tables) : Z := if tblock t then first else 256.
Definition tstr (t : tables) : Z -> bytes -> Prop := str_of (tpre t) (tsuf t) (tlo t) (tfree t).

Record trefines (t : tables) (d : lzw) : Prop := {
  rf_bits : 12 <= tmaxBits t <= 16;
  rf_max : tmaxMax t = 2 ^ tmaxBits t;
  rf_free : dfree d = tfree t;
  rf_range : tlo t <= tfree t <= tmaxMax t;
  rf_lit : forall c, 0 <= c < 256 -> tsuf t !! c = Some c;
  rf_dict : forall c s, dict d !! c = Some s -> tlo t <= c < tfree t /\ tstr t c s;
  rf_dom : forall c, tlo t <= c < tfree t -> is_Some (dict d !! c);
  rf_last : match dlast d with
            | None => told t = -1
            | Some w => tstr t (told t) w /\ [tfin t] = take 1 w
            end;
}.

Definition refines (z : reader) (d : lzw) : Prop := trefines (tables_of z) d.

Lemma str_of_nonneg pre suf lo hi c s : 0 <= lo -> str_of pre suf lo hi c s -> 0 <= c.
Proof. intros Hlo []; lia. Qed.
Lemma str_of_cons pre suf lo hi c s :
  str_of pre suf lo hi c s -> exists x t, s = x :: t /\ 0 <= x < 256.
Proof.
  induction 1 as [c Hc|c p s Hc -> Hp Hs (x & t & -> & Hx)].
  - by exists c, [].
  - by exists x, (t ++ [default 0 (suf !! c)]).
Qed.
Lemma str_of_max pre suf lo hi c s : 256 <= hi -> str_of pre suf lo hi c s -> c < hi.
Proof. intros ? []; lia. Qed.

Lemma chain_str pre suf lo hi c s stk fuel :
  256 <= lo -> hi <= table_len -> str_of pre suf lo hi c s -> (Z.to_nat c < fuel)%nat ->
  exists x t, s = x :: t /\ 0 <= x < 256 /\ chain fuel pre suf c stk = Ok (x, t ++ stk).
Proof.
  intros Hlo Hhi Hs. revert fuel stk.
  induction Hs as [c Hc|c p s Hc Hp Hlt Hs IH]; intros fuel stk Hf;
    (destruct fuel as [|fuel]; [lia|]); cbn [chain].
  - exists c, []. split_and!; [done|lia|lia|]. by rewrite (proj2 (Z.leb_gt 256 c)) by lia.
  - rewrite (proj2 (Z.leb_le 256 c)) by lia.
    rewrite !arr_get_ok by lia. cbn [mbind outcome_bind]. rewrite <- Hp.
    pose proof (str_of_nonneg pre suf lo hi p s ltac:(lia) Hs).
    destruct (IH fuel (default 0 (suf !! c) :: stk)) as (x & t & -> & Hx & Hch); [lia|].
    exists x, (t ++ [default 0 (suf !! c)]). split_and!; [done|lia|lia|].
    rewrite Hch. by rewrite <- app_assoc.
Qed.

Lemma str_of_insert pre suf lo hi p x c s : 256 <= lo <= hi ->
  str_of pre suf lo hi c s ->
  str_of (<[hi := p]> pre) (<[hi := x]> suf) lo (hi + 1) c s.
Proof.
  intros Hlo. induction 1 as [c Hc|c q s Hc -> Hlt Hs IH]; [by constructor|].
  rewrite <- (lookup_insert_ne suf hi c x) by lia.
  eapply str_ent; [lia| |exact Hlt|exact IH]. by rewrite lookup_insert_ne by lia.
Qed.

Lemma lzw_string_str t d c s : trefines t d -> 0 <= c ->
  lzw_string d c = Some s -> tstr t c s.
Proof.
  intros Hr Hc. unfold lzw_string. destruct (c <? 256) eqn:E; zbool.
  - intros [= <-]. constructor. lia.
  - intros H. by apply (rf_dict _ _ Hr).
Qed.

Lemma lzw_string_lt t d c : trefines t d -> 0 <= c ->
  ~ (tblock t = true /\ c = clear) ->
  match lzw_string d c with Some _ => c < tfree t | None => tfree t <= c end.
Proof.
  intros Hr Hc Hcl. unfold lzw_string. pose proof (rf_range _ _ Hr).
  unfold tlo, first, clear in *.
  destruct (c <? 256) eqn:E; zbool; [destruct (tblock t); lia|].
  destruct (dict d !! c) as [s|] eqn:Ed; [apply (rf_dict _ _ Hr) in Ed; lia|].
  destruct (decide (c < tfree t)) as [Hlt|]; [|lia].
  destruct (rf_dom _ _ Hr c) as [s Hs]; [|congruence]. unfold tlo, first.
  destruct (tblock t); [|lia]. destruct (decide (c = 256)); [exfalso; by apply Hcl|lia].
Qed.

(** [newEntry] on tables: extend the dictionary by the last string and the
    first byte of the current one. *)
Lemma trefines_last t d c fc s :
  trefines t d -> tstr t c s -> [fc] = take 1 s -> dlast d = None \/ tfree t = tmaxMax t ->
  trefines (MkTables (tmaxBits t) (tmaxMax t) (tfree t) (tblock t) (tpre t) (tsuf t) fc c)
    (MkLzw (dict d) (dfree d) (Some s)).
Proof. intros Hr Hs Hf _. destruct Hr. by split. Qed.

Lemma trefines_entry t d c fc s w :
  trefines t d -> dlast d = Some w -> tfree t < tmaxMax t -> [fc] = take 1 s ->
  (tstr t c s \/ (c = tfree t /\ s = w ++ take 1 w)) ->
  trefines (MkTables (tmaxBits t) (tmaxMax t) (tfree t + 1) (tblock t)
              (<[tfree t := u16 (told t)]> (tpre t)) (<[tfree t := fc]> (tsuf t)) fc c)
    (MkLzw (<[dfree d := w ++ take 1 s]> (dict d)) (dfree d + 1) (Some s)).
Proof.
  intros Hr Hw Hlt Hf Hc. pose proof (rf_last _ _ Hr) as Hl. rewrite Hw in Hl.
  destruct Hl as [Hold Hfin]. pose proof (rf_range _ _ Hr) as Hrg.
  pose proof (rf_bits _ _ Hr) as Hb. pose proof (rf_max _ _ Hr) as Hm.
  assert (256 <= tlo t <= tfree t) as Hlo.
  { unfold tlo, first in *. destruct (tblock t); lia. }
  assert (tmaxMax t <= 2 ^ 16) as H16.
  { rewrite Hm. apply Z.pow_le_mono_r; lia. }
  assert (0 <= told t < tfree t) as Ho.
  { split; [eapply str_of_nonneg; [|exact Hold]; lia|eapply str_of_max; [|exact Hold]; lia]. }
  assert (u16 (told t) = told t) as Hu by (apply Z.mod_small; lia).
  assert (str_of (<[tfree t := u16 (told t)]> (tpre t)) (<[tfree t := fc]> (tsuf t)) (tlo t)
    (tfree t + 1) (tfree t) (w ++ take 1 s)) as Hnew.
  { rewrite <- Hf. replace fc with (default 0 (<[tfree t:=fc]> (tsuf t) !! tfree t)) at 2
      by (by rewrite lookup_insert_eq).
    eapply str_ent with (p := told t).
    - lia.
    - by rewrite lookup_insert_eq.
    - lia.
    - by apply str_of_insert. }
  split; cbn; unfold tstr, tlo in *; cbn [tblock tpre tsuf tfree told tfin tmaxBits tmaxMax] in *.
  - done.
  - done.
  - by rewrite (rf_free _ _ Hr).
  - destruct (tblock t); lia.
  - intros k Hk. rewrite lookup_insert_ne by lia. by apply (rf_lit _ _ Hr).
  - intros k s'. rewrite (rf_free _ _ Hr), lookup_insert. case_decide as Hk.
    + subst k. intros [= <-]. split; [lia|done].
    + intros Hd. apply (rf_dict _ _ Hr) in Hd as [H1 H2].
      split; [unfold tlo in H1; lia|]. by apply str_of_insert.
  - intros k Hk. rewrite (rf_free _ _ Hr), lookup_insert. case_decide; [by eexists|].
    apply (rf_dom _ _ Hr). unfold tlo. lia.
  - split; [|done]. destruct Hc as [Hc|[-> ->]].
    + by apply str_of_insert.
    + assert (take 1 (w ++ take 1 w) = take 1 w) as Ht.
      { destruct (str_of_cons _ _ _ _ _ _ Hold) as (x & w' & -> & _). done. }
      by rewrite Ht in Hnew.
Qed.

(** The dictionary step on tables, in both of [newEntry]'s branches. *)
Lemma trefines_step t d c s fc d' :
  trefines t d -> [fc] = take 1 s ->
  (tstr t c s \/ (c = tfree t /\ exists w, dlast d = Some w /\ s = w ++ take 1 w)) ->
  c < tmaxMax t ->
  d' = match dlast d with
       | Some w =>
           if dfree d <? tmaxMax t
           then MkLzw (<[dfree d := w ++ take 1 s]> (dict d)) (dfree d + 1) (Some s)
           else MkLzw (dict d) (dfree d) (Some s)
       | None => MkLzw (dict d) (dfree d) (Some s)
       end ->
  let grow := (tfree t <? tmaxMax t) && negb (told t =? -1) in
  trefines (MkTables (tmaxBits t) (tmaxMax t) (if grow then tfree t + 1 else tfree t) (tblock t)
              (if grow then <[tfree t := u16 (told t)]> (tpre t) else tpre t)
              (if grow then <[tfree t := fc]> (tsuf t) else tsuf t) fc c) d'.
Proof.
  intros Hr Hf Hc Hlt ->. pose proof (rf_last _ _ Hr) as Hl. cbv zeta.
  replace (dfree d <? tmaxMax t) with (tfree t <? tmaxMax t) by (by rewrite (rf_free _ _ Hr)).
  destruct (dlast d) as [w|] eqn:Hw.
  - destruct Hl as [Hold _].
    assert (told t =? -1 = false) as ->.
    { apply Z.eqb_neq. apply str_of_nonneg in Hold; [lia|]. unfold tlo, first. destruct (tblock t); lia. }
    rewrite andb_true_r. destruct (tfree t <? tmaxMax t) eqn:E; zbool.
    + apply (trefines_entry t d c fc s w Hr Hw E Hf).
      destruct Hc as [Hc|(Hc & w' & Hw' & ->)]; [by left|right]. split; [done|congruence].
    + apply trefines_last; [done| |done|right; pose proof (rf_range _ _ Hr); lia].
      destruct Hc as [Hc|(-> & _)]; [done|lia].
  - assert (told t =? -1 = true) as -> by (by apply Z.eqb_eq).
    rewrite andb_false_r. apply trefines_last; [done| |done|by left].
    destruct Hc as [Hc|(_ & w' & Hw' & _)]; [done|congruence].
Qed.

Lemma newEntry_eq z : 0 <= freeEnt z -> maxMaxCode z <= table_len ->
  let grow := (freeEnt z <? maxMaxCode z) && negb (oldCode z =? -1) in
  newEntry z = Ok (MkReader (fp z) (err z) (nBits z) (maxBits z) (maxCode z) (maxMaxCode z)
    (if grow then freeEnt z + 1 else freeEnt z) (blockCompress z) (clearFlg z)
    (if grow then <[freeEnt z := u16 (oldCode z)]> (prefix z) else prefix z)
    (if grow then <[freeEnt z := finChar z]> (suffix z) else suffix z)
    (stack z) (finChar z) (incode z) (incode z) (gbuf z) (rOffset z) (size z)).
Proof.
  intros Hf Hm. cbv zeta. unfold newEntry.
  destruct ((freeEnt z <? maxMaxCode z) && negb (oldCode z =? -1)) eqn:E; [|done].
  zbool. by rewrite !arr_set_ok by lia.
Qed.

(** The step of the reference after a string. *)
Definition lzw_next (limit : Z) (d : lzw) (s : bytes) : lzw :=
  match dlast d with
  | Some w => if dfree d <? limit then MkLzw (<[dfree d := w ++ take 1 s]> (dict d)) (dfree d + 1) (Some s)
              else MkLzw (dict d) (dfree d) (Some s)
  | None => MkLzw (dict d) (dfree d) (Some s)
  end.

(** Where a code has its string in the tables, or is the next entry. *)
Definition has_string (z : reader) (d : lzw) (c : Z) (s : bytes) : Prop :=
  tstr (tables_of z) c s \/ c = freeEnt z /\ exists w, dlast d = Some w /\ s = w ++ take 1 w.

Lemma refines_bounds z d : refines z d -> maxMaxCode z <= table_len /\ 256 <= tlo (tables_of z) <= freeEnt z /\ freeEnt z <= maxMaxCode z.
Proof.
  intros Hr. pose proof (rf_bits _ _ Hr) as Hb. pose proof (rf_max _ _ Hr) as Hm. pose proof (rf_range _ _ Hr) as Hrg.
  cbn [tmaxBits tmaxMax tfree tables_of] in *. split.
  - rewrite Hm. unfold table_len. apply Z.pow_le_mono_r; lia.
  - unfold tlo, first in *. destruct (tblock _); lia.
Qed.

(** Once the string and its chain are known, both sides take the same step. *)
Lemma push_code_known z d c code s stk x t : refines z d -> 0 <= c < maxMaxCode z -> has_string z d c s ->
  chain (S (Z.to_nat code)) (prefix z) (suffix z) code stk = Ok (x, t) -> s = x :: t -> 0 <= x < 256 ->
  (if freeEnt z <=? c then (oldCode z, finChar z :: stack z) else (c, stack z)) = (code, stk) ->
  (freeEnt z <=? c) && ((freeEnt z <? c) || (oldCode z =? -1)) = false ->
  exists z' z'', push_code z c = Ok (None, z') /\ stack z' = s /\ newEntry (set_stack z' []) = Ok z'' /\ refines z'' (lzw_next (maxMaxCode z) d s).
Proof.
  intros Hr Hc Hstr Hch -> Hx Hsel Hg. destruct (refines_bounds z d Hr) as (H16 & Hlo & Hhi).
  exists (set_string z (x :: t) x c). eexists. unfold push_code. rewrite Hg, Hsel, Hch. cbn [mbind outcome_bind].
  rewrite arr_get_ok by (unfold table_len; lia). cbn [mbind outcome_bind].
  pose proof (rf_lit _ _ Hr x Hx) as Hlit. cbn [tsuf tables_of] in Hlit. rewrite Hlit. cbn [default]. split_and!; [done|done| |].
  - apply newEntry_eq; cbn [freeEnt maxMaxCode set_stack set_string]; [lia|done].
  - eapply (trefines_step (tables_of z) d c (x :: t) x); [done|done|done| |done]. cbn [tmaxMax tables_of]. lia.
Qed.

(** The code of the entry that this very step makes. *)
Lemma push_code_fresh z d w : refines z d -> stack z = [] -> freeEnt z < maxMaxCode z -> dlast d = Some w ->
  exists z' z'', push_code z (freeEnt z) = Ok (None, z') /\ stack z' = w ++ take 1 w /\ newEntry (set_stack z' []) = Ok z''
    /\ refines z'' (lzw_next (maxMaxCode z) d (w ++ take 1 w)).
Proof.
  intros Hr Hst Hc Hw. destruct (refines_bounds z d Hr) as (H16 & Hlo & Hhi). pose proof (rf_last _ _ Hr) as Hl. rewrite Hw in Hl. destruct Hl as [Hold Hfc].
  destruct (chain_str (prefix z) (suffix z) (tlo (tables_of z)) (freeEnt z) (oldCode z) w (finChar z :: stack z) (S (Z.to_nat (oldCode z))))
    as (x & t & -> & Hx & Hch); [lia|lia|done|lia|].
  assert (oldCode z =? -1 = false) as Ho by (apply Z.eqb_neq; apply str_of_nonneg in Hold; cbn [told tables_of] in *; lia).
  assert (finChar z = x) as Hfx by (cbn in Hfc; congruence). rewrite Hst in *.
  eapply (push_code_known z d (freeEnt z) (oldCode z) ((x :: t) ++ take 1 (x :: t)) [finChar z] x (t ++ [finChar z])); try done.
  - lia.
  - right. split; [done|]. by exists (x :: t).
  - cbn. by rewrite Hfx.
  - rewrite Z.leb_refl, Hst. done.
  - by rewrite Z.leb_refl, Z.ltb_irrefl, Ho.
Qed.

(** One code through [push_code], the output of its string, and [newEntry] is one step
    of the reference decoder; a code the reference has no string for is reported as
    corrupt. *)
Lemma push_code_step z d c :
  refines z d -> stack z = [] -> 0 <= c < maxMaxCode z -> ~ (blockCompress z = true /\ c = clear) ->
  match lzw_step (maxMaxCode z) d c with
  | Some (s, d') => exists z' z'', push_code z c = Ok (None, z') /\ stack z' = s /\ newEntry (set_stack z' []) = Ok z'' /\ refines z'' d'
  | None => exists why, push_code z c = Ok (Some (ErrCorrupt why), z)
  end.
Proof.
  intros Hr Hst Hc Hcl. pose proof (lzw_string_lt _ _ c Hr ltac:(lia) Hcl) as Hs. destruct (refines_bounds z d Hr) as (H16 & Hlo & Hhi).
  pose proof (rf_free _ _ Hr) as Hfree. pose proof (rf_last _ _ Hr) as Hl. cbn [tfree told tables_of] in *.
  unfold lzw_step. destruct (lzw_string d c) as [s|] eqn:Es; cbn [mbind option_bind].
  - assert (tstr (tables_of z) c s) as Hstr by (eapply lzw_string_str; [done|lia|done]).
    destruct (chain_str (prefix z) (suffix z) (tlo (tables_of z)) (freeEnt z) c s (stack z) (S (Z.to_nat c)))
      as (x & t & Hxt & Hx & Hch); [lia|lia|done|lia|]. rewrite Hst, app_nil_r in Hch.
    eapply (push_code_known z d c c s [] x t); try done; [by left|rewrite (proj2 (Z.leb_gt _ _)), Hst by lia; done|by rewrite (proj2 (Z.leb_gt _ _)) by lia].
  - replace (c =? dfree d) with (c =? freeEnt z) by (by rewrite Hfree). destruct (c =? freeEnt z) eqn:Ec; zbool.
    + destruct (dlast d) as [w|] eqn:Hw; cbn [fmap option_fmap option_map mbind option_bind].
      * subst c. destruct (push_code_fresh z d w Hr Hst) as (z' & z'' & H); [lia|done|]. exists z', z''. unfold lzw_next in H. by rewrite Hw in H.
      * eexists. unfold push_code. rewrite Hl. by rewrite (proj2 (Z.leb_le (freeEnt z) c)), Z.eqb_refl, orb_true_r by lia.
    + eexists. unfold push_code. by rewrite (proj2 (Z.leb_le (freeEnt z) c)), (proj2 (Z.ltb_lt (freeEnt z) c)) by lia.
Qed.

(** ** Every read ends, without a panic *)

(** The group buffer and the code width. *)
Record groups (z : reader) : Prop := {
  gr_buf : zlen (gbuf z) = 16;
  gr_wf : wf_bytes (gbuf z);
  gr_in : wf_bytes (sdata (fp z));
  gr_bits : initBits <= nBits z <= maxBits z;
  gr_max : nBits z = maxBits z -> maxCode z = maxMaxCode z;
  gr_off : 0 <= rOffset z;
  gr_size : size z + nBits z - 1 <= 128;
}.

(** Between two strings. *)
Definition ready (z : reader) : Prop := groups z /\ exists d, refines z d.

(** A reader [Read] can be called on: between strings, with a string partly out
    that [newEntry] can finish, or stopped at an error. *)
Definition inv (z : reader) : Prop :=
  match err z, stack z with
  | Some _, stk => stk = []
  | None, [] => ready z
  | None, _ :: _ => exists z'', newEntry (set_stack z []) = Ok z'' /\ ready z''
                                /\ err z'' = None /\ stack z'' = []
  end.

Lemma wf_fill got buf : wf_bytes got -> wf_bytes buf -> zlen got <= zlen buf ->
  wf_bytes (got ++ drop (length got) buf) /\ zlen (got ++ drop (length got) buf) = zlen buf.
Proof.
  intros Hg Hb Hl. split.
  - apply wf_bytes_app; [done|]. by apply Forall_drop.
  - unfold zlen in *. rewrite length_app, length_drop. lia.
Qed.

Lemma resize_bits z d : groups z -> refines z d ->
  let '(nb, mc) := resize z in
  initBits <= nb <= maxBits z /\ (nb = maxBits z -> mc = maxMaxCode z).
Proof.
  intros Hg Hr. pose proof (rf_range _ _ Hr). pose proof (rf_bits _ _ Hr).
  pose proof (gr_bits _ Hg). pose proof (gr_max _ Hg).
  cbn [tfree tmaxMax tmaxBits tables_of] in *. unfold resize, initBits in *.
  destruct (maxCode z <? freeEnt z) eqn:E; zbool; destruct (clearFlg z).
  - split; lia.
  - destruct (nBits z + 1 =? maxBits z) eqn:E2; zbool; split; lia.
  - split; lia.
  - split; [lia|done].
Qed.

(** What a step of the code reader leaves alone. *)
Definition same_tables (z z' : reader) : Prop :=
  tables_of z' = tables_of z /\ stack z' = stack z /\ err z' = err z
  /\ (length (sdata (fp z')) <= length (sdata (fp z)))%nat.

Lemma refill_ok z d : groups z -> refines z d ->
  exists e z', refill z = Ok (e, z') /\ same_tables z z'
    /\ (e = None -> groups z' /\ clearFlg z' = false /\ rOffset z' = 0
                    /\ (length (sdata (fp z')) < length (sdata (fp z)))%nat).
Proof.
  intros Hg Hr. pose proof (resize_bits _ _ Hg Hr) as Hrs.
  pose proof (rf_bits _ _ Hr) as Hb. cbn [tmaxBits tables_of] in Hb.
  unfold refill. destruct (resize z) as [nb mc]. destruct Hrs as [Hrb Hrm].
  unfold initBits in Hrb. rewrite (proj2 (Z.ltb_ge 16 nb)) by lia.
  unfold read_full. cbv zeta. set (got := take (Z.to_nat nb) (sdata (fp z))).
  assert (zlen got <= nb) as Hgl by (unfold zlen, got; rewrite length_take; lia).
  destruct (wf_fill got (gbuf z)) as [Hfw Hfl];
    [apply Forall_take, (gr_in _ Hg)|apply (gr_wf _ Hg)|rewrite (gr_buf _ Hg); lia|].
  rewrite (gr_buf _ Hg) in Hfl.
  assert (length (drop (Z.to_nat nb) (sdata (fp z))) <= length (sdata (fp z)))%nat as Hdl
    by (rewrite length_drop; lia).
  assert (0 < zlen got -> (length (drop (Z.to_nat nb) (sdata (fp z))) < length (sdata (fp z)))%nat)
    as Hdl'. { unfold zlen, got. rewrite length_take, length_drop. lia. }
  destruct (nb <=? zlen got); [|destruct (stream_end (fp z)) as [| |c];
    [destruct (zlen got =? 0)| |do 2 eexists; by split_and!]];
    (destruct (zlen got <=? 0) eqn:E0; zbool; [do 2 eexists; by split_and!|]);
    do 2 eexists; (split; [done|]); (split; [by split_and!|]); intros _;
    (split_and!; [|done|done|by apply Hdl']);
    (split; cbn [gbuf fp sdata nBits maxBits maxCode maxMaxCode rOffset size]; try done;
     [apply Forall_drop, (gr_in _ Hg)|rewrite Z.shiftl_mul_pow2 by lia; change (2 ^ 3) with 8; lia]).
Qed.

Lemma extract_ok z d : groups z -> refines z d -> rOffset z + nBits z <= 128 ->
  exists code, extract (gbuf z) (rOffset z) (nBits z) = Ok code /\ 0 <= code < maxMaxCode z.
Proof.
  intros Hg Hr Hoff. pose proof (gr_bits _ Hg) as Hnb. unfold initBits in Hnb.
  pose proof (rf_bits _ _ Hr) as Hb. pose proof (rf_max _ _ Hr) as Hm.
  cbn [tmaxBits tmaxMax tables_of] in *. eexists. split.
  - apply extract_spec; [apply gr_wf, Hg|apply gr_off, Hg|lia|].
    rewrite (gr_buf _ Hg). lia.
  - pose proof (Z.mod_pos_bound (le (gbuf z) / 2 ^ rOffset z) (2 ^ nBits z)
      ltac:(apply Z.pow_pos_nonneg; lia)).
    pose proof (Z.pow_le_mono_r 2 (nBits z) (maxBits z)). lia.
Qed.

Lemma groups_advance z : groups z -> groups (advance z).
Proof.
  intros []. split; cbn [advance gbuf fp nBits maxBits maxCode maxMaxCode rOffset size]; try done.
  unfold initBits in *. lia.
Qed.

(** [getCode] succeeds on a well-formed reader: the code fits the table, the
    tables are untouched, and a pending clear consumes input. *)
Lemma getCode_ok z d : groups z -> refines z d ->
  exists c z', getCode z = Ok (c, z') /\ same_tables z z'
    /\ match c with
       | inl code => groups z' /\ 0 <= code < maxMaxCode z /\ clearFlg z' = false
                     /\ (clearFlg z = true -> (length (sdata (fp z')) < length (sdata (fp z)))%nat)
       | inr _ => True
       end.
Proof.
  intros Hg Hr. unfold getCode.
  destruct (clearFlg z || (size z <=? rOffset z) || (maxCode z <? freeEnt z)) eqn:E.
  - destruct (refill_ok z d Hg Hr) as (e & z' & -> & Hs & He). cbn [mbind outcome_bind].
    destruct e as [e|]; [do 2 eexists; by split_and!|].
    destruct (He eq_refl) as (Hg' & Hcl & Hro & Hlen).
    pose proof (gr_bits _ Hg') as Hnb. pose proof (rf_bits _ _ Hr) as Hb.
    destruct Hs as (Ht & Hs1 & Hs2 & Hs3).
    assert (refines z' d) as Hr' by (unfold refines; by rewrite Ht).
    pose proof (rf_bits _ _ Hr') as Hb'. cbn [tmaxBits tables_of] in Hb'.
    destruct (extract_ok z' d Hg' Hr') as (code & -> & Hc); [lia|]. cbn [mbind outcome_bind].
    assert (maxMaxCode z' = maxMaxCode z) as Hmm by (apply (f_equal tmaxMax Ht)).
    do 2 eexists. split; [done|]. split; [by split_and!|].
    split_and!; [by apply groups_advance|lia|lia|done|by intros _].
  - zbool. cbn [mbind outcome_bind]. pose proof (gr_size _ Hg).
    destruct (extract_ok z d Hg Hr) as (code & -> & Hc); [lia|]. cbn [mbind outcome_bind].
    do 2 eexists. split; [done|]. split; [by split_and!|].
    split_and!; [by apply groups_advance|lia|lia|done|congruence].
Qed.

Lemma push_code_some z c z' : push_code z c = Ok (None, z') ->
  stack z' <> [] /\ err z' = err z /\ (groups z -> groups z').
Proof.
  unfold push_code. destruct (_ && _); [done|].
  destruct (if _ <=? _ then _ else _) as [code stk].
  destruct (chain _ _ _ _ _) as [[lit t]| |]; cbn [mbind outcome_bind]; [|done|done].
  destruct (arr_get _ _ _) as [fc| |]; cbn [mbind outcome_bind]; [|done|done].
  intros [= <-]. split_and!; [done|done|]. by intros [].
Qed.

Lemma newEntry_keeps z z' : newEntry z = Ok z' ->
  err z' = err z /\ stack z' = stack z /\ (groups z -> groups z').
Proof.
  unfold newEntry. destruct (if _ && _ then _ else _) as [[[pre suf] fe]| |];
    cbn [mbind outcome_bind]; [|done|done].
  intros [= <-]. split_and!; [done|done|]. by intros [].
Qed.

Lemma groups_set_clear z : groups z -> groups (set_clear z).
Proof. by intros []. Qed.

Lemma refines_set_clear z d : refines z d -> blockCompress z = true ->
  refines (set_clear z) (lzw_reset first).
Proof.
  intros Hr Hb. pose proof (rf_bits _ _ Hr) as Hbits. pose proof (rf_max _ _ Hr) as Hm.
  split; cbn [set_clear tables_of tmaxBits tmaxMax tfree tblock tpre tsuf tfin told
    lzw_reset dict dfree dlast freeEnt blockCompress prefix suffix maxBits maxMaxCode oldCode]; try done.
  - unfold tlo. cbn [tblock tables_of set_clear blockCompress]. rewrite Hb.
    cbn [tmaxBits tmaxMax tables_of] in *. rewrite Hm.
    pose proof (Z.pow_le_mono_r 2 12 (maxBits z)). unfold first. lia.
  - apply (rf_lit _ _ Hr).
  - intros c. unfold tlo. cbn [tblock tables_of set_clear blockCompress]. rewrite Hb. lia.
Qed.

(** The next code that is not a clear code, what has been read by then, and the state
    of the reference there: a clear code resets it. *)
Inductive fetches : reader -> lzw -> Z -> reader -> lzw -> Prop :=
| fetch_code z d code z1 : getCode z = Ok (inl code, z1) -> ~ (blockCompress z1 = true /\ code = clear) -> fetches z d code z1 d
| fetch_clear z d z1 code z2 d2 : getCode z = Ok (inl clear, z1) -> blockCompress z1 = true ->
    fetches (set_clear z1) (lzw_reset first) code z2 d2 -> fetches z d code z2 d2.

(** No such code comes. *)
Inductive stops : reader -> error -> Prop :=
| stop_now z z1 e : getCode z = Ok (inr e, z1) -> stops z e
| stop_clear z z1 e : getCode z = Ok (inl clear, z1) -> blockCompress z1 = true -> stops (set_clear z1) e -> stops z e.

(** What a [decode] did, in terms of the reference. *)
Definition decoded (z : reader) (d : lzw) (e : option error) (z' : reader) : Prop :=
  match e with
  | None => exists c z1 d1 s d' z'', fetches z d c z1 d1 /\ lzw_step (maxMaxCode z) d1 c = Some (s, d') /\ stack z' = s
              /\ newEntry (set_stack z' []) = Ok z'' /\ refines z'' d'
  | Some e => stops z e \/ exists c z1 d1 why, fetches z d c z1 d1 /\ lzw_step (maxMaxCode z) d1 c = None /\ e = ErrCorrupt why
  end.

Lemma decoded_clear z d z1 e z' : getCode z = Ok (inl clear, z1) -> blockCompress z1 = true -> maxMaxCode z1 = maxMaxCode z ->
  decoded (set_clear z1) (lzw_reset first) e z' -> decoded z d e z'.
Proof.
  intros Hg Hb Hm. unfold decoded. change (maxMaxCode (set_clear z1)) with (maxMaxCode z1). rewrite Hm. destruct e as [e|].
  - intros [H|(c & z2 & d2 & why & H & H')]; [left; by eapply stop_clear|right]. exists c, z2, d2, why. split; [by eapply fetch_clear|done].
  - intros (c & z2 & d2 & s & d' & z'' & H & H'). exists c, z2, d2, s, d', z''. split; [by eapply fetch_clear|done].
Qed.

(** [decode] reaches a string or an error on any input. *)
Lemma decode_loop_ok fuel z d :
  groups z -> refines z d -> stack z = [] -> err z = None ->
  (length (sdata (fp z)) + (if clearFlg z then 1 else 2) <= fuel)%nat ->
  exists e z', decode_loop fuel z = Ok (e, z')
    /\ match e with Some _ => stack z' = [] | None => stack z' <> [] /\ inv z' end /\ decoded z d e z'.
Proof.
  revert z d. induction fuel as [|fuel IH]; intros z d Hg Hr Hst Herr Hf.
  { destruct (clearFlg z); lia. }
  cbn [decode_loop].
  destruct (getCode_ok z d Hg Hr) as (c & z1 & Hget & (Ht & Hs1 & He1 & Hl1) & Hc). rewrite Hget.
  cbn [mbind outcome_bind]. rewrite Hst in Hs1. rewrite Herr in He1.
  destruct c as [code|e]; [|exists (Some e), z1; split_and!; [done|done|left; by eapply stop_now]].
  destruct Hc as (Hg1 & Hcode & Hcl1 & Hlen).
  assert (refines z1 d) as Hr1 by (unfold refines; by rewrite Ht).
  assert (maxMaxCode z1 = maxMaxCode z) as Hmm by (apply (f_equal tmaxMax Ht)).
  destruct ((code =? clear) && blockCompress z1) eqn:E.
  { apply andb_true_iff in E as [->%Z.eqb_eq Hbc].
    destruct (IH (set_clear z1) (lzw_reset first)) as (e & z' & H1 & H2 & H3); [by apply groups_set_clear|by eapply refines_set_clear|done|done| |].
    { cbn [set_clear fp clearFlg]. destruct (clearFlg z); [specialize (Hlen eq_refl)|]; lia. }
    exists e, z'. split_and!; [done|done|by eapply decoded_clear]. }
  assert (Hcl : ~ (blockCompress z1 = true /\ code = clear)).
  { intros [Hb ->]. apply andb_false_iff in E as [E|E]; [by apply Z.eqb_neq in E|congruence]. }
  assert (Hf1 : fetches z d code z1 d) by (by apply fetch_code).
  pose proof (push_code_step z1 d code Hr1 Hs1 ltac:(lia) Hcl) as Hp. rewrite Hmm in Hp.
  destruct (lzw_step (maxMaxCode z) d code) as [[s d']|] eqn:El.
  - destruct Hp as (z' & z'' & Hpc & Hstk & Hne & Hr'').
    exists None, z'. split; [done|]. split; [|by exists code, z1, d, s, d', z''].
    destruct (push_code_some _ _ _ Hpc) as (Hnil & He' & Hg'). split; [done|].
    unfold inv. rewrite He', He1. destruct (stack z') as [|x t] eqn:Ez; [done|].
    destruct (newEntry_keeps _ _ Hne) as (He'' & Hs'' & Hg'').
    exists z''. split_and!; [done| | |done].
    + split; [|by eexists]. apply Hg''. specialize (Hg' Hg1). by destruct Hg'.
    + rewrite He''. cbn [set_stack set_string err]. by rewrite He', He1.
  - destruct Hp as [why Hpc]. exists (Some (ErrCorrupt why)), z1. split_and!; [done|done|]. right. by exists code, z1, d, why.
Qed.

(** C37. Decoding follows the reference decoder: from tables that stand for its
    dictionary, [decode] ends with the string that the reference gives for the next
    code of the stream, clear codes done first, and tables that stand for its next
    dictionary once the entry is made; or with the error of the stream, or that it is
    corrupt, where the reference has no string for the code. *)
Theorem decode_refines z d : groups z -> refines z d -> stack z = [] -> err z = None ->
  exists e z', decode z = Ok (e, z') /\ decoded z d e z' /\ (is_Some e -> stack z' = []).
Proof.
  intros Hg Hr Hs He. destruct (decode_loop_ok (length (sdata (fp z)) + 2) z d Hg Hr Hs He) as (e & z' & H1 & H2 & H3).
  { destruct (clearFlg z); lia. }
  exists e, z'. split_and!; [done|done|]. intros [e' ->]. done.
Qed.

Lemma inv_set_err z e : stack z = [] -> inv (set_err z (Some e)).
Proof. by intros Hs. Qed.

Lemma set_err_None z : err z = None -> set_err z None = z.
Proof. destruct z; cbn. by intros ->. Qed.

(** Rounds [read_loop] may still need. *)
Definition rounds (plen : Z) (z : reader) (out : bytes) : nat :=
  (2 * Z.to_nat (plen - zlen out)
   + match stack z, err z with [], None => 2 | _, _ => 1 end)%nat.

Lemma read_loop_ok fuel plen z out :
  inv z -> zlen out <= plen -> (rounds plen z out <= fuel)%nat ->
  exists out' z', read_loop fuel plen z out = Ok (out', z') /\ inv z'
    /\ zlen out <= zlen out' <= plen /\ (zlen out' < plen -> err z' <> None).
Proof.
  revert z out. induction fuel as [|fuel IH]; intros z out Hi Hle Hf.
  { unfold rounds in Hf. destruct (stack z), (err z); lia. }
  cbn [read_loop]. destruct (zlen out <? plen) eqn:E; zbool; cbn [negb].
  2: { do 2 eexists. split_and!; [done|done|lia|lia|lia]. }
  unfold rounds in Hf. unfold inv in Hi. destruct (stack z) as [|x t] eqn:Es.
  - destruct (err z) as [e|] eqn:Ee.
    { exists out, z. split_and!; [done|unfold inv; by rewrite Ee, Es|lia|lia|congruence]. }
    destruct Hi as [Hg [d Hr]].
    destruct (decode_loop_ok (length (sdata (fp z)) + 2) z d Hg Hr Es Ee) as (e & z1 & Hd & He & _);
      [destruct (clearFlg z); lia|].
    unfold decode. rewrite Hd. cbn [mbind outcome_bind].
    destruct e as [e|].
    + apply IH; [by apply inv_set_err|lia|]. unfold rounds. cbn [set_err stack err].
      rewrite He. lia.
    + destruct He as [Hn Hi1]. unfold inv in Hi1.
      destruct (err z1) as [e1|] eqn:Ee1; [done|]. rewrite set_err_None by done.
      apply IH; [unfold inv; by rewrite Ee1|lia|]. unfold rounds.
      destruct (stack z1); [done|]. lia.
  - destruct (err z) as [e|] eqn:Ee; [done|].
    destruct Hi as (z'' & Hne & Hrd & He'' & Hs'').
    set (k := Z.min _ _). set (rest := drop (Z.to_nat k) (x :: t)).
    assert (1 <= k <= plen - zlen out) as Hk.
    { unfold k. rewrite zlen_cons. pose proof (zlen_nonneg t). lia. }
    assert (zlen (take (Z.to_nat k) (x :: t)) = k) as Htk.
    { assert (k <= zlen (x :: t)) by lia. unfold zlen in *. rewrite length_take. lia. }
    cbn [set_stack set_string stack]. destruct (zlen rest =? 0) eqn:E0; zbool.
    + assert (rest = []) as Hr0 by (destruct rest; [done|]; rewrite zlen_cons in E0;
        pose proof (zlen_nonneg rest); lia).
      rewrite Hr0. change (set_string z [] (finChar z) (incode z)) with (set_stack z []).
      rewrite Hne. cbn [mbind outcome_bind].
      destruct (IH z'' (out ++ take (Z.to_nat k) (x :: t))) as (out' & z' & H1 & H2 & H3 & H4).
      * unfold inv. by rewrite He'', Hs''.
      * rewrite zlen_app. lia.
      * unfold rounds. rewrite He'', Hs'', zlen_app. lia.
      * exists out', z'. rewrite zlen_app in H3. split_and!; [done|done|lia|lia|done].
    + cbn [mbind outcome_bind].
      destruct (IH (set_string z rest (finChar z) (incode z)) (out ++ take (Z.to_nat k) (x :: t)))
        as (out' & z' & H1 & H2 & H3 & H4).
      * unfold inv. cbn [set_string err stack]. rewrite Ee.
        destruct rest eqn:Er; [done|]. by exists z''.
      * rewrite zlen_app. lia.
      * unfold rounds. cbn [set_string err stack]. rewrite Ee, zlen_app.
        destruct rest; lia.
      * exists out', z'. rewrite zlen_app in H3. split_and!; [done|done|lia|lia|done].
Qed.

Lemma init_suffix_lookup c : 0 <= c < 256 -> init_suffix !! c = Some c.
Proof.
  intros Hc. unfold init_suffix. apply elem_of_list_to_map_1.
  - rewrite <- list_fmap_compose, (list_fmap_ext _ id), list_fmap_id by done.
    apply NoDup_seqZ.
  - apply list_elem_of_fmap. exists c. split; [done|]. apply elem_of_seqZ. lia.
Qed.

(** A new reader is between strings, with an empty dictionary. *)
Lemma NewReader_ready s z : wf_bytes (sdata s) -> NewReader s = inl z ->
  groups z /\ refines z (lzw_reset (if blockCompress z then first else 256))
  /\ stack z = [] /\ err z = None.
Proof.
  intros Hw. unfold NewReader, read_full. cbv zeta. set (h := take (Z.to_nat 3) (sdata s)).
  destruct (3 <=? zlen h) eqn:E3; [|by destruct (stream_end s); [destruct (_ =? 0)|..]].
  destruct (IsCompressed h); cbn [negb]; [|done].
  set (mb := Z.land (at_ h 2) bitMask).
  destruct ((bits <? mb) || (mb <? 12)) eqn:E; [done|]. intros [= <-]. zbool.
  unfold bits in *. split_and!; [| |done|done].
  - split; cbn [gbuf fp sdata nBits maxBits maxCode maxMaxCode rOffset size]; unfold initBits;
      try done; try lia; [apply (wf_bytes_replicate 16)|by apply Forall_drop].
  - assert (4096 <= 2 ^ mb).
    { change 4096 with (2 ^ 12). apply Z.pow_le_mono_r; lia. }
    split; cbn [tables_of tmaxBits tmaxMax tfree tblock tpre tsuf tfin told
      lzw_reset dict dfree dlast freeEnt blockCompress prefix suffix maxBits maxMaxCode oldCode];
      unfold tlo; cbn [tables_of tblock blockCompress]; try done; try lia.
    + rewrite Z.shiftl_1_l. done.
    + rewrite Z.shiftl_1_l. unfold first. destruct (negb _); lia.
    + apply init_suffix_lookup.
Qed.

Lemma NewReader_inv s z : wf_bytes (sdata s) -> NewReader s = inl z -> inv z.
Proof.
  intros Hw Hn. destruct (NewReader_ready s z Hw Hn) as (Hg & Hr & Hs & He).
  unfold inv. rewrite He, Hs. split; [done|by eexists].
Qed.

(** One [Read] keeps the invariant. *)
Lemma Read_ok z plen : inv z -> 0 <= plen ->
  exists out e z', Read z plen = Ok (out, e, z') /\ inv z'
    /\ zlen out <= plen /\ (0 < plen -> out = [] -> e <> None).
Proof.
  intros Hi Hp. unfold Read. destruct (plen =? 0) eqn:E; zbool.
  { do 3 eexists. split_and!; [done|done|rewrite zlen_nil; lia|lia]. }
  destruct (read_loop_ok (2 * Z.to_nat plen + 2) plen z [] Hi) as (out & z' & H1 & H2 & H3 & H4).
  - rewrite zlen_nil. lia.
  - unfold rounds. rewrite zlen_nil. destruct (stack z), (err z); lia.
  - rewrite H1. cbn [mbind outcome_bind]. destruct (0 <? zlen out) eqn:E2; zbool.
    + do 3 eexists. split_and!; [done|done|lia|]. by intros _ ->.
    + do 3 eexists. split_and!; [done|done|rewrite zlen_nil; lia|]. intros _ _. apply H4. lia.
Qed.


(** The readers a program can hold: a new one, or one left by a [Read]. *)
Inductive reachable : reader -> Prop :=
| reach_new s z : wf_bytes (sdata s) -> NewReader s = inl z -> reachable z
| reach_read z plen out e z' :
    reachable z -> 0 <= plen -> Read z plen = Ok (out, e, z') -> reachable z'.

Lemma reachable_inv z : reachable z -> inv z.
Proof.
  induction 1 as [s z Hw Hn|z plen out e z' _ IH Hp Hr]; [by eapply NewReader_inv|].
  destruct (Read_ok z plen IH Hp) as (o & e' & z1 & H1 & H2 & _). congruence.
Qed.

(** [Read] always returns, whatever the input: it never panics, its loops end,
    it stores at most [len(p)] bytes, and an empty read carries an error. *)
Theorem Read_total z plen : reachable z -> 0 <= plen ->
  exists out e z', Read z plen = Ok (out, e, z')
    /\ zlen out <= plen /\ (0 < plen -> out = [] -> e <> None).
Proof.
  intros Hz Hp. destruct (Read_ok z plen (reachable_inv z Hz) Hp) as (out & e & z' & H1 & _ & H2 & H3).
  by exists out, e, z'.
Qed.

(** "hello" as [compress] writes it. *)
Definition demo_stream : stream :=
  MkStream [0x1f; 0x9d; 0x90; 104; 202; 176; 97; 243; 6] None.

Lemma Read_total_witness : exists z,
  NewReader demo_stream = inl z
  /\ (exists out e z', Read z 10 = Ok (out, e, z')
       /\ zlen out <= 10 /\ (0 < 10 -> out = [] -> e <> None))
  /\ (fst <$> Read z 10) = Ok (str "hello", None).
Proof.
  eexists. split; [reflexivity|]. split; [|vm_compute; reflexivity].
  apply Read_total; [|lia]. eapply (reach_new demo_stream); [|reflexivity].
  apply (bool_decide_unpack (wf_bytes (sdata demo_stream))). vm_compute. exact I.
Defined.

(** The first code of it is that of [h]. *)
Lemma decode_refines_witness : exists z z', NewReader demo_stream = inl z /\ decode z = Ok (None, z') /\ stack z' = str "h" /\
  decoded z (lzw_reset first) None z'.
Proof.
  destruct (NewReader demo_stream) as [z|] eqn:Hn; [|discriminate].
  destruct (NewReader_ready demo_stream z) as (Hg & Hr & Hs & He);
    [apply (bool_decide_unpack (wf_bytes (sdata demo_stream))); vm_compute; exact I|exact Hn|].
  assert (blockCompress z = true) as Hb by (by injection Hn as <-). rewrite Hb in Hr.
  destruct (decode_refines z (lzw_reset first) Hg Hr Hs He) as (e & z' & H1 & H2 & _). exists z, z'.
  assert (Hd : (stack <$> (snd <$> decode z), fst <$> decode z) = (Ok (str "h"), Ok None)) by (injection Hn as <-; vm_compute; reflexivity).
  rewrite H1 in Hd. injection Hd as Hst ->. by split_and!.
Defined.

Lemma extract_spec_witness : extract [0x9D; 0x90; 0x68] 5 9 = Ok (le [0x9D; 0x90; 0x68] / 2 ^ 5 mod 2 ^ 9).
Proof.
  apply (extract_spec [0x9D; 0x90; 0x68] 5 9); [|lia|lia|vm_compute; discriminate].
  apply (bool_decide_unpack (wf_bytes _)). vm_compute. exact I.
Defined.
