(* ===== verification/Unixpack.v ===== *)
(** The pack(1) reader ([unixpack/reader.go]): the header and symbol table, and
    the Huffman decoder. Every index it uses is proved to be inside its table,
    and the decoder reads back any message coded with a complete tree. *)
From S2P Require Import Prelude.

Definition Magic : bytes := [0x1f; 0x1e].
Definition packHeaderLength : Z := 7.
Definition htreeMaxLevel : Z := 24.

Definition IsPacked (b : bytes) : bool :=
  (zlen Magic <=? zlen b) && (at_ b 0 =? at_ Magic 0) && (at_ b 1 =? at_ Magic 1).

Inductive error :=
| PEOF
| ErrCorrupt (why : string)
| PRead (code : Z).

(** The [24]-element arrays are lists of 24 integers. *)
Record reader := MkReader {
  fpIn : stream;
  err : option error;
  treeLevels : Z;
  symbolsIn : list Z;
  inodesIn : list Z;
  symbol : bytes;
  symbolEOB : Z;
  tree : list Z;
  uncompressedSize : Z;
  bytesOut : Z;
  thisLevel : Z; thisCode : Z;
  thisByte : Z;
  bitsLeft : Z;
}.

(** ** The header *)

(** [truncated(err, what)]. *)
Definition truncated (e : io_err) (what : string) : error :=
  match e with
  | EOF => ErrCorrupt what
  | OtherIO c => PRead c
  | UnexpectedEOF => PRead 0 (* not an error of [ReadByte] *)
  end.

(** [n] single-byte reads. *)
Fixpoint read_bytes (n : nat) (s : stream) : (bytes + io_err) * stream :=
  match n with
  | O => (inl [], s)
  | S n =>
      match read_byte s with
      | (inr e, s) => (inr e, s)
      | (inl b, s) =>
          match read_bytes n s with
          | (inl l, s) => (inl (b :: l), s)
          | (inr e, s) => (inr e, s)
          end
      end
  end.

(** The table of symbols, level by level: each level's start is the number of
    symbols before it. [size] is the length of the table, beyond which a store
    would panic. *)
Fixpoint read_levels (size : Z) (counts : list Z) (start : Z) (s : stream)
    : outcome io_err ((list Z * bytes) * stream) :=
  match counts with
  | [] => Ok (([], []), s)
  | c :: rest =>
      match read_bytes (Z.to_nat c) s with
      | (inr e, _) => Err e
      | (inl l, s) =>
          if size <? start + zlen l then Panic
          else
            '((starts, syms), s) ← read_levels size rest (start + zlen l) s;
            Ok ((start :: starts, l ++ syms), s)
      end
  end.

(** Internal nodes: half of everything one level down; the last level has
    none. *)
Fixpoint inodes_of (syms : list Z) : list Z :=
  match syms with
  | [] => []
  | [_] => [0]
  | _ :: (s :: _) as rest =>
      let below := inodes_of rest in
      (default 0 (head below) + s) / 2 :: below
  end.

(** [l[len(l)-1]++]. *)
Definition bump_last (l : list Z) : list Z :=
  match last l with
  | Some x => take (length l - 1) l ++ [x + 1]
  | None => []
  end.

Definition pad24 (l : list Z) : list Z := l ++ replicate (24 - length l) 0.

Definition NewReader (s : stream) : outcome error reader :=
  let '(hdr, e, s) := read_full s packHeaderLength in
  match e with
  | Some EOF | Some UnexpectedEOF => Err (ErrCorrupt "short header")
  | Some (OtherIO c) => Err (PRead c)
  | None =>
      if negb (IsPacked hdr) then Err (ErrCorrupt "bad magic")
      else
        let usize := be (sub hdr 2 4) in
        let levels := at_ hdr 6 in
        if (htreeMaxLevel <? levels) || (levels <? 1)
        then Err (ErrCorrupt "Huffman tree has insane levels")
        else
          match read_bytes (Z.to_nat levels) s with
          | (inr e, _) => Err (truncated e "file appears to be truncated")
          | (inl counts, s) =>
              let symbolSize := 1 + foldr Z.add 0 counts in
              if 256 <? symbolSize then Err (ErrCorrupt "bad symbol table")
              else
                let counts := bump_last counts in
                match read_levels (symbolSize + 1) counts 0 s with
                | Panic => Panic
                | Err e => Err (truncated e "symbol table truncated")
                | Ok ((starts, syms), s) =>
                    let counts := bump_last counts in
                    Ok {|
                      fpIn := s; err := None;
                      treeLevels := levels - 1;
                      symbolsIn := pad24 counts;
                      inodesIn := pad24 (inodes_of counts);
                      symbol := syms ++ replicate (Z.to_nat (symbolSize + 1 - zlen syms)) 0;
                      symbolEOB := zlen syms;
                      tree := pad24 starts;
                      uncompressedSize := usize; bytesOut := 0;
                      thisLevel := 0; thisCode := 0; thisByte := 0; bitsLeft := 0;
                    |}
                end
          end
  end.

(** ** Decoding *)

Definition set_pos (z : reader) (s : stream) (out lvl code byte nleft : Z) : reader := {|
  fpIn := s; err := err z; treeLevels := treeLevels z; symbolsIn := symbolsIn z;
  inodesIn := inodesIn z; symbol := symbol z; symbolEOB := symbolEOB z; tree := tree z;
  uncompressedSize := uncompressedSize z; bytesOut := out;
  thisLevel := lvl; thisCode := code; thisByte := byte; bitsLeft := nleft |}.

Definition set_err (z : reader) (e : option error) : reader := {|
  fpIn := fpIn z; err := e; treeLevels := treeLevels z; symbolsIn := symbolsIn z;
  inodesIn := inodesIn z; symbol := symbol z; symbolEOB := symbolEOB z; tree := tree z;
  uncompressedSize := uncompressedSize z; bytesOut := bytesOut z;
  thisLevel := thisLevel z; thisCode := thisCode z; thisByte := thisByte z;
  bitsLeft := bitsLeft z |}.

(** The byte the next bit comes from: a new one when the last is used up. *)
Definition fill (z : reader) : (stream * Z * Z) + error :=
  if bitsLeft z =? 0 then
    match read_byte (fpIn z) with
    | (inr EOF, _) =>
        inr (if bytesOut z =? uncompressedSize z then PEOF else ErrCorrupt "premature EOF")
    | (inr e, _) => inr (truncated e "")
    | (inl b, s) => inl (s, b, 8)
    end
  else inl (fpIn z, thisByte z, bitsLeft z).

(** The loop of [decode]: the symbol or the error, and the reader after it. *)
Fixpoint decode_loop (fuel : nat) (z : reader) : outcome stuck ((Z + error) * reader) :=
  match fuel with
  | O => Err OutOfFuel
  | S fuel =>
      match fill z with
      | inr e => Ok (inr e, z)
      | inl (s, byte, nleft) =>
          let nleft := nleft - 1 in
          let code := Z.lor (Z.shiftl (thisCode z) 1) (Z.land (Z.shiftr byte nleft) 1) in
          let lvl := thisLevel z in
          let z' := set_pos z s (bytesOut z) in
          inodes ← index (inodesIn z) lvl;
          if inodes <=? code then
            let inLevelIndex := code - inodes in
            syms ← index (symbolsIn z) lvl;
            if syms <? inLevelIndex
            then Ok (inr (ErrCorrupt "file corrupt"), z' lvl code byte nleft)
            else
              start ← index (tree z) lvl;
              let thisSymbol := start + inLevelIndex in
              if (thisSymbol =? symbolEOB z) && (bytesOut z =? uncompressedSize z)
              then Ok (inr PEOF, z' lvl code byte nleft)
              else
                b ← index (symbol z) thisSymbol;
                Ok (inl b, set_pos z s (bytesOut z + 1) 0 0 byte nleft)
          else if treeLevels z <? lvl + 1
          then Ok (inr (ErrCorrupt "file corrupt"), z' (lvl + 1) code byte nleft)
          else decode_loop fuel (z' (lvl + 1) code byte nleft)
      end
  end.

(** One pass uses one bit, so the bits that are left bound the loop. *)
Definition decode (z : reader) : outcome stuck ((Z + error) * reader) :=
  decode_loop (8 * length (sdata (fpIn z)) + Z.to_nat (bitsLeft z) + 1) z.

Fixpoint read_loop (n : nat) (z : reader) (out : bytes) : outcome stuck (bytes * reader) :=
  match n with
  | O => Ok (out, z)
  | S n =>
      match err z with
      | Some _ => Ok (out, z)
      | None =>
          '(b, z) ← decode z;
          match b with
          | inl b => read_loop n z (out ++ [b])
          | inr e => Ok (out, set_err z (Some e))
          end
      end
  end.

(** [z.Read(p)] with [len(p) = plen]. *)
Definition Read (z : reader) (plen : Z) : outcome stuck (bytes * option error * reader) :=
  '(out, z) ← read_loop (Z.to_nat plen) z [];
  if 0 <? zlen out then Ok (out, None, z) else Ok ([], err z, z).

(** ** Shape of the tables *)

Definition leaves z (l : Z) := at_ (symbolsIn z) l.
Definition inner z l := at_ (inodesIn z) l.
Definition first z l := at_ (tree z) l.

(** What [NewReader] builds. *)
Record wf_tables (z : reader) : Prop := {
  t_levels : 0 <= treeLevels z < htreeMaxLevel;
  t_symbols : zlen (symbolsIn z) = htreeMaxLevel;
  t_inodes : zlen (inodesIn z) = htreeMaxLevel;
  t_tree : zlen (tree z) = htreeMaxLevel;
  t_N : forall l, 0 <= leaves z l;
  t_N_last : 2 <= leaves z (treeLevels z);
  t_I_last : inner z (treeLevels z) = 0;
  t_I : forall l, 0 <= l < treeLevels z -> inner z l = (inner z (l + 1) + leaves z (l + 1)) / 2;
  t_T0 : first z 0 = 0;
  t_T : forall l, 0 <= l < treeLevels z -> first z (l + 1) = first z l + leaves z l;
  t_T_last : first z (treeLevels z) + leaves z (treeLevels z) = symbolEOB z + 1;
  t_symbol : zlen (symbol z) = symbolEOB z + 1;
}.

(** Where [decode] can be between two symbols or inside one. *)
Record wf_pos (z : reader) : Prop := {
  p_level : 0 <= thisLevel z <= treeLevels z;
  p_code0 : thisLevel z = 0 -> thisCode z = 0;
  p_code : 0 < thisLevel z -> 0 <= thisCode z < inner z (thisLevel z - 1);
  p_bits : 0 <= bitsLeft z <= 8;
}.

Definition inv (z : reader) : Prop := wf_tables z /\ (err z = None -> wf_pos z).

(** *** Lists of counts *)

Lemma at_0 x l : at_ (x :: l) 0 = x.
Proof. reflexivity. Qed.
Lemma at_S x l i : 0 <= i -> at_ (x :: l) (i + 1) = at_ l i.
Proof. intros. unfold at_. by replace (Z.to_nat (i + 1)) with (S (Z.to_nat i)) by lia. Qed.
Lemma at_beyond l i : zlen l <= i -> at_ l i = 0.
Proof. intros. unfold at_, zlen in *. apply nth_overflow. lia. Qed.

Lemma nth_replicate_0 n i : nth i (replicate n 0) 0 = 0.
Proof. revert i. induction n as [|n IH]; intros [|i]; cbn; auto. Qed.

Lemma at_pad24 l i : at_ (pad24 l) i = at_ l i.
Proof.
  unfold at_, pad24. destruct (decide (Z.to_nat i < length l)%nat).
  - by rewrite app_nth1 by lia.
  - rewrite app_nth2, (nth_overflow l) by lia. apply nth_replicate_0.
Qed.

Lemma zlen_pad24 l : zlen l <= 24 -> zlen (pad24 l) = 24.
Proof. intros. unfold pad24. autorewrite with zlen. unfold zlen in *. lia. Qed.

Definition total (l : list Z) : Z := foldr Z.add 0 l.

Lemma total_app l k : total (l ++ k) = total l + total k.
Proof. unfold total. induction l as [|x l IH]; cbn; lia. Qed.

Lemma bump_last_snoc l x : bump_last (l ++ [x]) = l ++ [x + 1].
Proof.
  unfold bump_last. rewrite last_snoc, length_app. cbn [length].
  by rewrite take_app_length' by lia.
Qed.

Lemma last_level (l : list Z) : l <> [] -> exists k x, l = k ++ [x].
Proof. intros. destruct l as [|x l _] using rev_ind; [done|eauto]. Qed.

Lemma zlen_snoc {A} (k : list A) x : zlen (k ++ [x]) = zlen k + 1.
Proof. by rewrite zlen_app, zlen_cons, zlen_nil. Qed.

Lemma at_snoc k x : at_ (k ++ [x]) (zlen k) = x.
Proof. rewrite at_app_r by lia. by rewrite Z.sub_diag. Qed.

Lemma at_nonneg l i : Forall (fun c => 0 <= c) l -> 0 <= at_ l i.
Proof.
  intros H. unfold at_. destruct (nth_in_or_default (Z.to_nat i) l 0) as [Hi|Hi].
  - eapply Forall_forall in H; [exact H|]. by apply list_elem_of_In.
  - rewrite Hi. lia.
Qed.

(** *** The table of symbols *)

Lemma read_bytes_ok n s l s' : read_bytes n s = (inl l, s') ->
  zlen l = Z.of_nat n /\ sdata s = l ++ sdata s' /\ sfail s' = sfail s.
Proof.
  revert s l. induction n as [|n IH]; intros s l; cbn [read_bytes].
  - by intros [= <- <-].
  - unfold read_byte. destruct (sdata s) as [|b d] eqn:E; [done|].
    destruct (read_bytes n (MkStream d (sfail s))) as [[l'|e] s''] eqn:R; [|done].
    intros [= <- <-]. apply IH in R as (Hl & Hd & Hf). cbn in *.
    rewrite zlen_cons, Hl, Hd, Hf. split_and!; [lia|done|done].
Qed.

(** With room for every symbol the table is never overrun, and the levels
    start where the counts say. *)
Lemma read_levels_ok size counts start s :
  Forall (fun c => 0 <= c) counts -> start + total counts <= size ->
  match read_levels size counts start s with
  | Panic => False
  | Err _ => True
  | Ok ((starts, syms), s') =>
      zlen starts = zlen counts /\ zlen syms = total counts /\
      sdata s = syms ++ sdata s' /\
      at_ starts 0 = (if zlen counts =? 0 then 0 else start) /\
      (forall i, 0 <= i < zlen counts - 1 -> at_ starts (i + 1) = at_ starts i + at_ counts i) /\
      (0 < zlen counts ->
        at_ starts (zlen counts - 1) + at_ counts (zlen counts - 1) = start + total counts)
  end.
Proof.
  intros H. revert start s. induction H as [|c counts Hc H IH]; intros start s Hsz; cbn [read_levels].
  - rewrite !zlen_nil. split_and!; try done; intros; lia.
  - cbn [total foldr] in Hsz. fold (total counts) in Hsz.
    assert (0 <= total counts).
    { clear -H. induction H; cbn [total foldr]; [lia|]. fold (total l). lia. }
    destruct (read_bytes (Z.to_nat c) s) as [[l|e] s1] eqn:R; [|done].
    apply read_bytes_ok in R as (Hl & Hd & _).
    destruct (size <? start + zlen l) eqn:E; zbool; [lia|].
    specialize (IH (start + zlen l) s1 ltac:(lia)). cbn [mbind outcome_bind].
    destruct (read_levels size counts (start + zlen l) s1) as [[[starts syms] s2]|e|]; [|done..].
    unfold mbind, outcome_bind.
    destruct IH as (Hst & Hsy & Hd2 & Hz0 & Hstep & Hlast).
    pose proof (zlen_nonneg counts).
    rewrite !zlen_cons, zlen_app. cbn [total foldr]. fold (total counts).
    rewrite (proj2 (Z.eqb_neq _ _)) by lia. split_and!.
    + lia.
    + lia.
    + by rewrite Hd, Hd2, app_assoc.
    + apply at_0.
    + intros i Hi. rewrite at_S by lia. destruct (decide (i = 0)) as [->|].
      * rewrite !at_0. rewrite Hz0, (proj2 (Z.eqb_neq _ _)) by lia. lia.
      * replace i with ((i - 1) + 1) by lia. rewrite !at_S by lia. apply Hstep. lia.
    + intros _. destruct (decide (zlen counts = 0)) as [Hz|].
      * replace (1 + zlen counts - 1) with 0 by lia. rewrite !at_0.
        destruct counts; [cbn; lia|by rewrite zlen_cons in Hz; pose proof (zlen_nonneg counts); lia].
      * replace (1 + zlen counts - 1) with ((zlen counts - 1) + 1) by lia.
        rewrite !at_S by lia. rewrite Hlast by lia. lia.
Qed.

Lemma inodes_of_cons x s l :
  inodes_of (x :: s :: l) = (default 0 (head (inodes_of (s :: l))) + s) / 2 :: inodes_of (s :: l).
Proof. reflexivity. Qed.

Lemma head_at l : default 0 (head l) = at_ l 0.
Proof. by destruct l. Qed.

Lemma inodes_of_ok l :
  zlen (inodes_of l) = zlen l /\
  at_ (inodes_of l) (zlen l - 1) = 0 /\
  (forall i, 0 <= i < zlen l - 1 ->
    at_ (inodes_of l) i = (at_ (inodes_of l) (i + 1) + at_ l (i + 1)) / 2).
Proof.
  induction l as [|x [|s l] IH].
  { split_and!; try done. intros i Hi. unfold zlen in Hi. cbn in Hi. lia. }
  { split_and!; try done. intros i Hi. unfold zlen in Hi. cbn in Hi. lia. }
  rewrite inodes_of_cons. set (r := s :: l) in *. destruct IH as (Hl & Hlast & Hs).
  pose proof (zlen_nonneg l). assert (1 <= zlen r) by (subst r; rewrite zlen_cons; lia).
  rewrite !zlen_cons, Hl. split_and!; [done| |].
  - replace (1 + zlen r - 1) with ((zlen r - 1) + 1) by lia. by rewrite at_S by lia.
  - intros i Hi. rewrite !at_S by lia. destruct (decide (i = 0)) as [->|].
    + by rewrite at_0, head_at.
    + replace i with ((i - 1) + 1) by lia. rewrite !at_S by lia. apply Hs. lia.
Qed.

Lemma inodes_nonneg l : Forall (fun c => 0 <= c) l -> Forall (fun c => 0 <= c) (inodes_of l).
Proof.
  induction 1 as [|x [|y l] Hx Hl IH]; [constructor|by repeat constructor|].
  rewrite inodes_of_cons. apply Forall_cons in Hl as [Hy _].
  constructor; [|exact IH]. apply Z.div_pos; [|lia]. rewrite head_at.
  pose proof (at_nonneg _ 0 IH). lia.
Qed.

(** *** What [NewReader] builds *)

(** The tables made from the counts of the levels (the last one with its
    end-of-block symbol), as [NewReader] stores them. *)
Definition built (z : reader) (counts starts : list Z) : Prop :=
  treeLevels z = zlen counts - 1 /\ symbolsIn z = pad24 counts /\
  inodesIn z = pad24 (inodes_of counts) /\ tree z = pad24 starts.

(** *** The position at the start *)
Definition at_start (z : reader) : Prop :=
  err z = None /\ thisLevel z = 0 /\ thisCode z = 0 /\ bitsLeft z = 0 /\ bytesOut z = 0.

Lemma total_snoc k x : total (k ++ [x]) = total k + x.
Proof. rewrite total_app. cbn. lia. Qed.

Lemma built_wf z k x starts :
  Forall (fun c => 0 <= c) k -> 0 <= x -> zlen k < 24 ->
  built z (k ++ [x + 2]) starts ->
  zlen starts = zlen k + 1 -> at_ starts 0 = 0 ->
  (forall i, 0 <= i < zlen k -> at_ starts (i + 1) = at_ starts i + at_ (k ++ [x + 1]) i) ->
  at_ starts (zlen k) + (x + 1) = symbolEOB z ->
  zlen (symbol z) = symbolEOB z + 1 ->
  wf_tables z.
Proof.
  intros Hk Hx Hlen (HL & HN & HI & HT) Hst H0 Hs Hlast Hsym.
  pose proof (zlen_nonneg k).
  rewrite zlen_snoc in HL.
  destruct (inodes_of_ok (k ++ [x + 2])) as (Hil & Hi0 & Hi).
  rewrite zlen_snoc in Hil, Hi0, Hi.
  assert (treeLevels z = zlen k) as HL' by lia.
  assert (forall i, i < zlen k -> 0 <= i -> at_ (k ++ [x + 2]) i = at_ (k ++ [x + 1]) i) as Heq.
  { intros. by rewrite !at_app_l by lia. }
  constructor; unfold leaves, inner, first; rewrite ?HL', ?HN, ?HI, ?HT, ?zlen_pad24;
    try done; try (autorewrite with zlen; lia).
  - intros. rewrite at_pad24. apply at_nonneg. apply Forall_app. split; [done|].
    constructor; [lia|constructor].
  - rewrite at_pad24, at_snoc. lia.
  - rewrite at_pad24. rewrite <- Hi0. f_equal. lia.
  - intros l Hl. rewrite !at_pad24. apply Hi. lia.
  - by rewrite at_pad24.
  - intros l Hl. rewrite !at_pad24, Heq by lia. by apply Hs.
  - rewrite !at_pad24, at_snoc. lia.
Qed.

Lemma read_full_wf s n hdr e s' :
  read_full s n = (hdr, e, s') -> wf_bytes (sdata s) -> wf_bytes hdr /\ wf_bytes (sdata s').
Proof.
  unfold read_full. intros E H.
  assert (hdr = take (Z.to_nat n) (sdata s) /\ sdata s' = drop (Z.to_nat n) (sdata s)) as [-> ->].
  { by destruct (n <=? _); injection E as <- <- <-. }
  split; [by apply Forall_take|by apply Forall_drop].
Qed.

Lemma wf_bytes_nonneg l : wf_bytes l -> Forall (fun c => 0 <= c) l.
Proof. intros H. eapply Forall_impl; [exact H|]. by intros x [? _]. Qed.

Lemma pk_NewReader_inv s : wf_bytes (sdata s) ->
  match NewReader s with
  | Panic => False
  | Err _ => True
  | Ok z => wf_tables z /\ at_start z /\ wf_bytes (sdata (fpIn z))
  end.
Proof.
  intros Hwf. unfold NewReader.
  destruct (read_full s packHeaderLength) as [[hdr e] s1] eqn:Er.
  destruct (read_full_wf _ _ _ _ _ Er Hwf) as [Hh Hs1].
  destruct e as [[| |c]|]; try done.
  destruct (negb (IsPacked hdr)); [done|].
  destruct (_ || _) eqn:El; zbool; [done|]. unfold htreeMaxLevel in *.
  destruct (read_bytes (Z.to_nat (at_ hdr 6)) s1) as [[counts|e] s2] eqn:Eb; [|done].
  apply read_bytes_ok in Eb as (Hc & Hd1 & _).
  assert (wf_bytes counts /\ wf_bytes (sdata s2)) as [Hcw Hs2].
  { by rewrite Hd1 in Hs1; apply Forall_app in Hs1. }
  destruct (256 <? _) eqn:Esz; zbool; [done|]. fold (total counts) in *.
  destruct (last_level counts) as (k & x & ->).
  { intros ->. rewrite (@zlen_nil Z) in Hc. lia. }
  rewrite zlen_snoc in Hc. rewrite total_snoc in *.
  apply wf_bytes_nonneg in Hcw. apply Forall_app in Hcw as [Hk Hx].
  apply Forall_cons in Hx as [Hx _]. rewrite !bump_last_snoc.
  pose proof (read_levels_ok (1 + (total k + x) + 1) (k ++ [x + 1]) 0 s2) as Hr.
  rewrite total_snoc, zlen_snoc in Hr.
  assert (Forall (fun c => 0 <= c) (k ++ [x + 1])) as Hc1.
  { apply Forall_app. split; [done|]. repeat constructor. lia. }
  specialize (Hr Hc1 ltac:(lia)).
  destruct (read_levels _ _ _ _) as [[[starts syms] s3]|e|]; [|done..].
  destruct Hr as (Hst & Hsy & Hd2 & Hz0 & Hstep & Hlast).
  pose proof (zlen_nonneg k).
  split_and!; [|done|].
  - apply (built_wf _ k x starts); cbn [symbolEOB symbol]; try done.
    + lia.
    + unfold built. cbn. rewrite zlen_snoc.
      replace (x + 1 + 1) with (x + 2) by lia. split_and!; try done. lia.
    + rewrite Hz0. rewrite (proj2 (Z.eqb_neq _ _)) by lia. done.
    + intros i Hi. apply Hstep. lia.
    + specialize (Hlast ltac:(lia)). replace (zlen k + 1 - 1) with (zlen k) in Hlast by lia.
      rewrite at_snoc in Hlast. lia.
    + rewrite zlen_app, zlen_replicate. lia.
  - cbn. rewrite Hd2 in Hs2. apply Forall_app in Hs2 as [_ ?]. done.
Qed.

(** ** Totality of the decoder *)

Definition same_tables (z z' : reader) : Prop :=
  treeLevels z' = treeLevels z /\ symbolsIn z' = symbolsIn z /\ inodesIn z' = inodesIn z /\
  symbol z' = symbol z /\ symbolEOB z' = symbolEOB z /\ tree z' = tree z /\
  uncompressedSize z' = uncompressedSize z /\ err z' = err z.

Lemma set_pos_tables z s out lvl code byte nleft :
  same_tables z (set_pos z s out lvl code byte nleft).
Proof. by unfold same_tables. Qed.

Lemma same_tables_trans z1 z2 z3 :
  same_tables z1 z2 -> same_tables z2 z3 -> same_tables z1 z3.
Proof. unfold same_tables. intros. destruct_and!. split_and!; congruence. Qed.

Lemma same_tables_wf z z' : same_tables z z' -> wf_tables z -> wf_tables z'.
Proof.
  unfold same_tables. intros (H1 & H2 & H3 & H4 & H5 & H6 & _) [].
  constructor; unfold leaves, inner, first in *; rewrite ?H1, ?H2, ?H3, ?H4, ?H5, ?H6; done.
Qed.

(** A leaf's index stays inside the table of symbols: the first symbol of a
    level and at most its count, or strictly less on the last level. *)
Lemma first_le z l : wf_tables z -> 0 <= l < treeLevels z ->
  0 <= first z l /\ first z l + leaves z l <= symbolEOB z - 1.
Proof.
  intros W Hl.
  assert (forall n : nat, Z.of_nat n <= treeLevels z -> 0 <= first z (Z.of_nat n)) as Hnn.
  { induction n as [|n IH]; intros Hn.
    - change (Z.of_nat 0) with 0. rewrite (t_T0 _ W). lia.
    - rewrite Nat2Z.inj_succ, <- Z.add_1_r, (t_T _ W) by lia.
      pose proof (t_N _ W (Z.of_nat n)). lia. }
  assert (forall n : nat, Z.of_nat n < treeLevels z ->
    first z (treeLevels z - Z.of_nat n) <= symbolEOB z - 1) as Hle.
  { induction n as [|n IH]; intros Hn.
    - pose proof (t_T_last _ W). pose proof (t_N_last _ W).
      change (Z.of_nat 0) with 0. rewrite Z.sub_0_r. lia.
    - specialize (IH ltac:(lia)).
      pose proof (t_T _ W (treeLevels z - Z.of_nat (S n)) ltac:(lia)) as HT.
      pose proof (t_N _ W (treeLevels z - Z.of_nat (S n))).
      replace (treeLevels z - Z.of_nat (S n) + 1) with (treeLevels z - Z.of_nat n) in HT by lia.
      lia. }
  split.
  - specialize (Hnn (Z.to_nat l)). rewrite Z2Nat.id in Hnn by lia. apply Hnn. lia.
  - rewrite <- (t_T _ W) by lia. specialize (Hle (Z.to_nat (treeLevels z - (l + 1)))).
    rewrite Z2Nat.id in Hle by lia.
    replace (treeLevels z - (treeLevels z - (l + 1))) with (l + 1) in Hle by lia.
    apply Hle. lia.
Qed.

Lemma code_step c byte n : 0 <= c -> 0 <= n ->
  Z.lor (Z.shiftl c 1) (Z.land (Z.shiftr byte n) 1) = 2 * c + (byte / 2 ^ n) mod 2.
Proof.
  intros. change 1 with (Z.ones 1) at 2. rewrite Z.land_ones by lia.
  change (2 ^ 1) with 2. rewrite Z.shiftr_div_pow2 by lia.
  pose proof (Z.mod_pos_bound (byte / 2 ^ n) 2 ltac:(lia)).
  rewrite Z.lor_comm, lor_shift_add by (change (2 ^ 1) with 2; lia).
  change (2 ^ 1) with 2. lia.
Qed.

(** The bits still to be read. *)
Definition bits_in (z : reader) : nat := 8 * length (sdata (fpIn z)) + Z.to_nat (bitsLeft z).

Lemma fill_bits z s byte n : 0 <= bitsLeft z <= 8 -> fill z = inl (s, byte, n) ->
  1 <= n <= 8 /\ (8 * length (sdata s) + Z.to_nat n = bits_in z)%nat.
Proof.
  intros Hb. unfold fill, bits_in, read_byte. destruct (bitsLeft z =? 0) eqn:E; zbool.
  - destruct (sdata (fpIn z)) as [|b l].
    + by destruct (stream_end _).
    + intros [= <- <- <-]. cbn [sdata length]. rewrite E. cbn. lia.
  - intros [= <- <- <-]. lia.
Qed.

Lemma leaf_in_table z code : wf_tables z -> wf_pos z ->
  2 * thisCode z <= code <= 2 * thisCode z + 1 ->
  0 <= code - inner z (thisLevel z) <= leaves z (thisLevel z) ->
  0 <= first z (thisLevel z) + (code - inner z (thisLevel z)) <= symbolEOB z.
Proof.
  intros W P Hc Hi. pose proof (p_level _ P) as Hl. set (l := thisLevel z) in *.
  destruct (decide (l < treeLevels z)).
  { pose proof (first_le _ l W ltac:(lia)). lia. }
  assert (l = treeLevels z) as Hl' by lia.
  pose proof (t_T_last _ W) as HL. pose proof (t_N_last _ W). pose proof (t_I_last _ W) as HI.
  rewrite <- Hl' in *. rewrite HI in *. split.
  - destruct (decide (l = 0)) as [E|E].
    + rewrite E, (t_T0 _ W). lia.
    + pose proof (t_T _ W (l - 1) ltac:(lia)) as HT. rewrite Z.sub_add in HT.
      pose proof (first_le _ (l - 1) W ltac:(lia)). pose proof (t_N _ W (l - 1)). lia.
  - enough (code <= leaves z l - 1) by lia. destruct (decide (l = 0)) as [E|E].
    + pose proof (p_code0 _ P E). lia.
    + pose proof (p_code _ P ltac:(fold l; lia)) as HC. fold l in HC.
      rewrite (t_I _ W) in HC by lia. rewrite Z.sub_add, HI in HC.
      pose proof (Z.mul_div_le (0 + leaves z l) 2 ltac:(lia)). lia.
Qed.

(** One pass of the loop of [decode], with every index in range. *)
Lemma decode_pass fuel z s byte n : wf_tables z -> wf_pos z -> fill z = inl (s, byte, n) ->
  let lvl := thisLevel z in
  let code := 2 * thisCode z + (byte / 2 ^ (n - 1)) mod 2 in
  let idx := code - inner z lvl in
  let sym := first z lvl + idx in
  decode_loop (S fuel) z =
    if inner z lvl <=? code then
      if leaves z lvl <? idx
      then Ok (inr (ErrCorrupt "file corrupt"), set_pos z s (bytesOut z) lvl code byte (n - 1))
      else if (sym =? symbolEOB z) && (bytesOut z =? uncompressedSize z)
      then Ok (inr PEOF, set_pos z s (bytesOut z) lvl code byte (n - 1))
      else Ok (inl (at_ (symbol z) sym), set_pos z s (bytesOut z + 1) 0 0 byte (n - 1))
    else if treeLevels z <? lvl + 1
    then Ok (inr (ErrCorrupt "file corrupt"), set_pos z s (bytesOut z) (lvl + 1) code byte (n - 1))
    else decode_loop fuel (set_pos z s (bytesOut z) (lvl + 1) code byte (n - 1)).
Proof.
  intros W P F lvl code idx sym. cbn [decode_loop]. rewrite F.
  destruct (fill_bits _ _ _ _ (p_bits _ P) F) as [Hn _].
  pose proof (p_level _ P) as Hl. pose proof (t_levels _ W). unfold htreeMaxLevel in *.
  assert (0 <= thisCode z) as Hc0.
  { destruct (decide (thisLevel z = 0)) as [E|E]; [by rewrite (p_code0 _ P E)|].
    pose proof (p_code _ P). lia. }
  rewrite code_step by lia. fold lvl code.
  pose proof (Z.mod_pos_bound (byte / 2 ^ (n - 1)) 2 ltac:(lia)) as Hbit.
  rewrite (index_ok (inodesIn z)) by (rewrite (t_inodes _ W); unfold htreeMaxLevel; lia).
  cbn [mbind outcome_bind]. fold (inner z lvl).
  destruct (inner z lvl <=? code) eqn:Ei; zbool; [|done].
  rewrite (index_ok (symbolsIn z)) by (rewrite (t_symbols _ W); unfold htreeMaxLevel; lia).
  cbn [mbind outcome_bind]. fold (leaves z lvl) idx.
  destruct (leaves z lvl <? idx) eqn:El; zbool; [done|].
  rewrite (index_ok (tree z)) by (rewrite (t_tree _ W); unfold htreeMaxLevel; lia).
  cbn [mbind outcome_bind]. fold (first z lvl) sym.
  destruct (_ && _); [done|].
  pose proof (leaf_in_table z code W P ltac:(lia) ltac:(fold lvl; lia)).
  rewrite (index_ok (symbol z)) by (rewrite (t_symbol _ W); unfold sym, idx, lvl in *; lia).
  done.
Qed.

(** A code smaller than the internal nodes of its level is one level down. *)
Lemma wf_pos_down z s byte n code : wf_tables z -> wf_pos z ->
  0 <= n <= 8 -> 0 <= code < inner z (thisLevel z) -> thisLevel z + 1 <= treeLevels z ->
  wf_pos (set_pos z s (bytesOut z) (thisLevel z + 1) code byte n).
Proof.
  intros W P Hn Hc Hl. pose proof (p_level _ P).
  constructor; cbn [thisLevel thisCode treeLevels bitsLeft set_pos]; try lia.
  intros _. rewrite Z.add_simpl_r. exact Hc.
Qed.

Lemma thisCode_nonneg z : wf_pos z -> 0 <= thisCode z.
Proof.
  intros P. pose proof (p_level _ P). destruct (decide (thisLevel z = 0)) as [E|E].
  - by rewrite (p_code0 _ P E).
  - pose proof (p_code _ P). lia.
Qed.

Lemma pk_decode_loop_ok fuel z : wf_tables z -> wf_pos z -> (bits_in z < fuel)%nat ->
  exists r z', decode_loop fuel z = Ok (r, z') /\ same_tables z z' /\
    match r with inl _ => wf_pos z' | inr _ => True end.
Proof.
  revert z. induction fuel as [|fuel IH]; intros z W P Hf; [lia|].
  destruct (fill z) as [[[s byte] n]|e] eqn:F.
  2: { cbn [decode_loop]. rewrite F. exists (inr e), z. split_and!; done. }
  rewrite (decode_pass _ _ _ _ _ W P F). cbv zeta.
  destruct (fill_bits _ _ _ _ (p_bits _ P) F) as [Hn Hb].
  pose proof (t_levels _ W). pose proof (thisCode_nonneg z P).
  pose proof (Z.mod_pos_bound (byte / 2 ^ (n - 1)) 2 ltac:(lia)) as Hbit.
  destruct (inner z _ <=? _) eqn:Ei; zbool.
  - destruct (_ <? _); [by eauto using set_pos_tables|].
    destruct (_ && _); [by eauto using set_pos_tables|].
    eexists _, _. split_and!; [done|apply set_pos_tables|constructor; cbn; lia].
  - destruct (_ <? _) eqn:Et; zbool; [by eauto using set_pos_tables|].
    set (z1 := set_pos z s _ _ _ _ _).
    destruct (IH z1) as (r & z' & -> & Ht & Hr).
    + eapply same_tables_wf; [apply set_pos_tables|done].
    + apply wf_pos_down; [done..|lia|lia|done].
    + unfold bits_in in *. cbn. lia.
    + exists r, z'. split_and!; [done| |done].
      eapply same_tables_trans; [apply set_pos_tables|exact Ht].
Qed.

Lemma decode_ok z : wf_tables z -> wf_pos z ->
  exists r z', decode z = Ok (r, z') /\ same_tables z z' /\
    match r with inl _ => wf_pos z' | inr _ => True end.
Proof. intros. apply pk_decode_loop_ok; [done..|]. unfold bits_in. lia. Qed.

Lemma pk_inv_set_err z e : wf_tables z -> inv (set_err z (Some e)).
Proof.
  intros W. split; [|done].
  destruct W. by constructor.
Qed.

Lemma pk_read_loop_ok n z out : inv z ->
  exists out' z', read_loop n z out = Ok (out ++ out', z') /\ inv z' /\
    zlen out' <= Z.of_nat n /\ (zlen out' < Z.of_nat n -> err z' <> None) /\
    (err z <> None -> out' = [] /\ z' = z).
Proof.
  revert z out. induction n as [|n IH]; intros z out Hinv; cbn [read_loop].
  { exists [], z. rewrite app_nil_r. by split_and!. }
  destruct (err z) as [e|] eqn:He.
  { exists [], z. rewrite app_nil_r, He. cbn. split_and!; try done; lia. }
  destruct Hinv as [W P]. destruct (decode_ok z W (P He)) as (r & z' & -> & Ht & Hr).
  pose proof (same_tables_wf _ _ Ht W) as W'. cbn [mbind outcome_bind].
  destruct r as [b|e].
  - destruct (IH z' (out ++ [b])) as (out' & z'' & -> & Hi & Hn & He' & _); [by split|].
    exists (b :: out'), z''. rewrite <- app_assoc, zlen_cons. split_and!; try done; try lia.
    intros. apply He'. lia.
  - exists [], (set_err z' (Some e)). rewrite app_nil_r. cbn.
    split_and!; try done; try lia. by apply pk_inv_set_err.
Qed.

(** Readers a program can hold: made by [NewReader] over bytes, and then read
    any number of times with any buffers. *)
Inductive reachable : reader -> Prop :=
| reachable_new s z : wf_bytes (sdata s) -> NewReader s = Ok z -> reachable z
| reachable_read z plen out e z' :
    reachable z -> Read z plen = Ok (out, e, z') -> reachable z'.

Lemma pk_Read_ok z plen : inv z ->
  exists out e z', Read z plen = Ok (out, e, z') /\ inv z' /\
    zlen out <= Z.max 0 plen /\ (out <> [] -> e = None) /\
    (0 < plen -> out = [] -> e <> None) /\ (err z <> None -> out = [] /\ e = err z /\ z' = z).
Proof.
  intros Hi. unfold Read.
  destruct (pk_read_loop_ok (Z.to_nat plen) z [] Hi) as (out & z' & -> & Hi' & Hl & Hs & Hst).
  cbn [mbind outcome_bind app]. destruct (0 <? zlen out) eqn:E; zbool.
  - exists out, None, z'. split_and!; try done; try lia.
    + intros _ ->. rewrite (@zlen_nil Z) in E. lia.
    + intros He. destruct (Hst He) as [-> _]. rewrite (@zlen_nil Z) in E. lia.
  - assert (out = []) as -> by (destruct out; [done|rewrite zlen_cons in E; pose proof (zlen_nonneg out); lia]).
    exists [], (err z'), z'. split_and!; try done; try (cbn; lia).
    + intros Hp _. apply Hs. rewrite (@zlen_nil Z). lia.
    + intros He. by destruct (Hst He) as [_ ->].
Qed.

Lemma pk_reachable_inv z : reachable z -> inv z.
Proof.
  induction 1 as [s z Hs E|z plen out e z' _ IH E].
  - pose proof (pk_NewReader_inv s Hs) as H. rewrite E in H.
    destruct H as (W & (He & H0 & Hc & Hb & _) & _). split; [done|]. intros _.
    pose proof (t_levels _ W). constructor; lia.
  - destruct (pk_Read_ok z plen IH) as (? & ? & ? & E' & ? & _). congruence.
Qed.

(** Every call of [Read] on a reader made by [NewReader] returns: no loop runs
    for ever, and no index of the tables is out of range, although a damaged
    file can name any tables. It fills at most [p], reports an error only with
    no bytes and no bytes only with an error, and an error, once reported, is
    reported for ever. *)
Theorem unpack_Read_total z plen : reachable z ->
  exists out e z', Read z plen = Ok (out, e, z') /\ reachable z' /\
    zlen out <= Z.max 0 plen /\ (out <> [] -> e = None) /\
    (0 < plen -> out = [] -> e <> None) /\
    (err z <> None -> out = [] /\ e = err z /\ z' = z).
Proof.
  intros Hr. destruct (pk_Read_ok z plen (pk_reachable_inv z Hr)) as (out & e & z' & E & _ & H).
  exists out, e, z'. split_and!; try apply H; try done. by eapply reachable_read.
Qed.

(** ** The code: what pack(1) writes *)

(** The low [n] bits of [v], the most significant first. *)
Fixpoint msb (n : nat) (v : Z) : list Z :=
  match n with
  | O => []
  | S n => (v / 2 ^ Z.of_nat n) mod 2 :: msb n v
  end.

Definition bits (data : bytes) : list Z := mjoin (msb 8 <$> data).

(** A Huffman code is canonical: the leaves of a level follow the internal
    nodes, so the [k]-th leaf of level [l] has the number below in [l + 1]
    bits. [counts] are the leaves of each level. *)
Definition codeword (counts : list Z) (lk : Z * Z) : list Z :=
  msb (Z.to_nat (lk.1 + 1)) (at_ (inodes_of counts) lk.1 + lk.2).

Definition is_leaf (counts : list Z) (lk : Z * Z) : Prop :=
  0 <= lk.1 < zlen counts /\ 0 <= lk.2 < at_ counts lk.1.

(** Every internal node has two children, and the root two at most. *)
Definition complete (counts : list Z) : Prop :=
  (forall l, 0 <= l < zlen counts - 1 ->
    2 * at_ (inodes_of counts) l = at_ (inodes_of counts) (l + 1) + at_ counts (l + 1)) /\
  at_ (inodes_of counts) 0 + at_ counts 0 <= 2.

(** The file: the leaves of each level as they are stored, the last level
    without its end-of-block leaf, and the coded data. *)
Definition pack_file (size : Z) (upper : list bytes) (lowest : bytes) (data : bytes) : bytes :=
  Magic ++ be_enc 4 size ++ [zlen upper + 1]
  ++ (zlen <$> upper) ++ [zlen lowest - 1]
  ++ mjoin upper ++ lowest ++ data.

Definition counts_of (upper : list bytes) (lowest : bytes) : list Z :=
  (zlen <$> upper) ++ [zlen lowest + 1].

(** The byte a leaf stands for. *)
Definition symbol_at (upper : list bytes) (lowest : bytes) (lk : Z * Z) : Z :=
  at_ (nth (Z.to_nat lk.1) (upper ++ [lowest]) []) lk.2.

(** The end-of-block leaf is the last one. *)
Definition eob (upper : list bytes) (lowest : bytes) : Z * Z := (zlen upper, zlen lowest).

(** *** Bits *)

Definition bits_of (z : reader) : list Z :=
  msb (Z.to_nat (bitsLeft z)) (thisByte z) ++ bits (sdata (fpIn z)).

Lemma length_msb n v : length (msb n v) = n.
Proof. induction n; cbn; congruence. Qed.
Lemma length_bits l : length (bits l) = (8 * length l)%nat.
Proof.
  unfold bits. induction l as [|b l IH]; [done|].
  rewrite fmap_cons, mjoin_cons, length_app, IH, length_msb. cbn [length]. lia.
Qed.

Lemma fill_next z b rest : 0 <= bitsLeft z <= 8 -> bits_of z = b :: rest ->
  exists s byte n, fill z = inl (s, byte, n) /\ 1 <= n <= 8 /\
    (byte / 2 ^ (n - 1)) mod 2 = b /\
    msb (Z.to_nat (n - 1)) byte ++ bits (sdata s) = rest.
Proof.
  intros Hb Hbits. unfold bits_of in Hbits. unfold fill, read_byte.
  destruct (bitsLeft z =? 0) eqn:E; zbool.
  - rewrite E in Hbits. change (Z.to_nat 0) with 0%nat in Hbits. cbn [msb app] in Hbits.
    destruct (sdata (fpIn z)) as [|c l]; [done|].
    unfold bits in Hbits. rewrite fmap_cons, mjoin_cons in Hbits. injection Hbits as Hbit Hr.
    eexists _, c, 8. split_and!; [done|lia|lia|exact Hbit|exact Hr].
  - eexists _, _, _. split_and!; [done|lia|lia|..];
      replace (Z.to_nat (bitsLeft z)) with (S (Z.to_nat (bitsLeft z - 1))) in Hbits by lia;
      cbn [msb app] in Hbits; rewrite Z2Nat.id in Hbits by lia; by injection Hbits.
Qed.

(** *** Codewords *)

Section codewords.
Context (counts : list Z) (Hcomplete : complete counts) (Hpos : Forall (fun c => 0 <= c) counts).
Notation inode l := (at_ (inodes_of counts) l).

(** A leaf's number, cut to its first bits, is an internal node's. *)
Lemma prefix_internal (l k : Z) (j : nat) : is_leaf counts (l, k) -> Z.of_nat j <= l ->
  (inode l + k) / 2 ^ Z.of_nat j < inode (l - Z.of_nat j) + at_ counts (l - Z.of_nat j) /\
  ((0 < j)%nat -> (inode l + k) / 2 ^ Z.of_nat j < inode (l - Z.of_nat j)).
Proof.
  intros [Hl Hk]. cbn in Hl, Hk. induction j as [|j IH]; intros Hj.
  - change (Z.of_nat 0) with 0. rewrite Z.sub_0_r, Z.pow_0_r, Z.div_1_r. lia.
  - destruct IH as [IH _]; [lia|].
    rewrite Nat2Z.inj_succ, Z.pow_succ_r, Z.mul_comm, <- Z.div_div by lia.
    set (v := (inode l + k) / 2 ^ Z.of_nat j) in *.
    destruct Hcomplete as [Hc _]. specialize (Hc (l - Z.succ (Z.of_nat j)) ltac:(lia)).
    replace (l - Z.succ (Z.of_nat j) + 1) with (l - Z.of_nat j) in Hc by lia.
    assert (v / 2 < inode (l - Z.succ (Z.of_nat j))) by (apply Z.div_lt_upper_bound; lia).
    split; [|done].
    enough (0 <= at_ counts (l - Z.succ (Z.of_nat j))) by lia.
    by apply at_nonneg.
Qed.

(** The decoder's tables are those of this code. *)
Definition decodes (z : reader) : Prop :=
  wf_tables z /\ exists starts, built z counts starts.

Lemma decodes_same z z' : same_tables z z' -> decodes z -> decodes z'.
Proof.
  intros Ht [W [starts B]]. split; [by eapply same_tables_wf|]. exists starts.
  destruct Ht as (H1 & H2 & H3 & H4 & H5 & H6 & _). unfold built in *. by rewrite H1, H2, H3, H6.
Qed.

Lemma decodes_tables z : decodes z ->
  treeLevels z = zlen counts - 1 /\ (forall l, leaves z l = at_ counts l) /\
  (forall l, inner z l = inode l).
Proof.
  intros [_ [starts (HL & HN & HI & _)]]. split; [done|].
  split; intros l; unfold leaves, inner; by rewrite ?HN, ?HI, at_pad24.
Qed.

(** Inside the codeword of leaf [(l, k)], with [n + 1] of its bits to come,
    [decode] reads them and nothing else, and stops at the leaf. *)
Lemma decode_codeword (l k : Z) (n fuel : nat) z rest :
  is_leaf counts (l, k) -> Z.of_nat n <= l -> decodes z -> wf_pos z ->
  thisLevel z = l - Z.of_nat n ->
  thisCode z = (inode l + k) / 2 ^ (Z.of_nat n + 1) ->
  bits_of z = msb (S n) (inode l + k) ++ rest -> (n < fuel)%nat ->
  let sym := first z l + k in
  exists z', same_tables z z' /\
    if (sym =? symbolEOB z) && (bytesOut z =? uncompressedSize z)
    then decode_loop fuel z = Ok (inr PEOF, z')
    else decode_loop fuel z = Ok (inl (at_ (symbol z) sym), z') /\ wf_pos z' /\
      thisLevel z' = 0 /\ bits_of z' = rest /\ bytesOut z' = bytesOut z + 1.
Proof.
  intros Hleaf. revert fuel z. induction n as [|n IH]; intros fuel z Hn D P Hlvl Hcode Hbits Hf.
  all: destruct fuel as [|fuel]; [lia|].
  all: destruct (decodes_tables z D) as (HL & HN & HI).
  all: pose proof (proj1 D) as W; pose proof (t_levels _ W) as HL24.
  all: pose proof Hleaf as [Hl Hk]; cbn [fst snd] in Hl, Hk.
  all: cbn [msb app] in Hbits.
  all: destruct (fill_next z _ _ (p_bits _ P) Hbits) as (s & byte & m & F & Hm & Hbit & Hrest).
  all: rewrite (decode_pass _ _ _ _ _ W P F), Hbit; cbv zeta.
  all: set (v := inode l + k) in *.
  - change (Z.of_nat 0) with 0 in *. rewrite Z.sub_0_r in Hlvl. rewrite Hlvl, Hcode, HI, HN.
    rewrite Z.pow_0_r, Z.div_1_r. change (2 ^ (0 + 1)) with 2. rewrite <- Z.div_mod by lia.
    rewrite (proj2 (Z.leb_le _ _)), (proj2 (Z.ltb_ge _ _)) by lia.
    replace (first z l + (v - inode l)) with (first z l + k) by lia.
    exists (if (first z l + k =? symbolEOB z) && (bytesOut z =? uncompressedSize z)
            then set_pos z s (bytesOut z) l v byte (m - 1)
            else set_pos z s (bytesOut z + 1) 0 0 byte (m - 1)).
    destruct (_ && _); (split; [apply set_pos_tables|]); [done|].
    split_and!; [done| |done|exact Hrest|done]. constructor; cbn; lia.
  - rewrite Hlvl, Hcode, HI.
    assert (2 * (v / 2 ^ (Z.of_nat (S n) + 1)) + (v / 2 ^ Z.of_nat (S n)) mod 2
      = v / 2 ^ Z.of_nat (S n)) as ->.
    { rewrite Z.pow_add_r, <- (Z.div_div _ _ (2 ^ 1)) by lia. change (2 ^ 1) with 2.
      symmetry. apply Z.div_mod. lia. }
    destruct (prefix_internal l k (S n) Hleaf Hn) as [_ Hp]. specialize (Hp ltac:(lia)). fold v in Hp.
    rewrite (proj2 (Z.leb_gt _ _)), (proj2 (Z.ltb_ge _ _)) by lia.
    set (z1 := set_pos z s _ _ _ _ _).
    assert (same_tables z z1) as Ht1 by apply set_pos_tables.
    pose proof (at_nonneg _ l (inodes_nonneg _ Hpos)).
    destruct (IH fuel z1) as (z' & Ht & Hz').
    + lia.
    + by eapply decodes_same.
    + subst z1. rewrite <- Hlvl. apply wf_pos_down; [done..|lia| |lia].
      rewrite HI, Hlvl. split; [|done]. apply Z.div_pos; lia.
    + cbn. lia.
    + cbn [thisCode z1 set_pos]. f_equal. f_equal. lia.
    + unfold bits_of, z1; cbn [thisByte bitsLeft fpIn set_pos]. exact Hrest.
    + lia.
    + exists z'. split; [by eapply same_tables_trans|]. exact Hz'.
Qed.

Lemma decode_leaf lk z rest : is_leaf counts lk -> decodes z -> wf_pos z -> thisLevel z = 0 ->
  bits_of z = codeword counts lk ++ rest ->
  let sym := first z lk.1 + lk.2 in
  exists z', same_tables z z' /\
    if (sym =? symbolEOB z) && (bytesOut z =? uncompressedSize z)
    then decode z = Ok (inr PEOF, z')
    else decode z = Ok (inl (at_ (symbol z) sym), z') /\ wf_pos z' /\
      thisLevel z' = 0 /\ bits_of z' = rest /\ bytesOut z' = bytesOut z + 1.
Proof.
  destruct lk as [l k]. unfold codeword. cbn [fst snd]. intros Hleaf D P H0 Hbits.
  pose proof Hleaf as [Hl Hk]. cbn [fst snd] in Hl, Hk.
  apply (decode_codeword l k (Z.to_nat l)); try done; try lia.
  - rewrite Z2Nat.id, (p_code0 _ P H0), Z.pow_add_r, <- Z.div_div by lia.
    destruct (prefix_internal l k (Z.to_nat l) Hleaf ltac:(lia)) as [Hp _].
    rewrite Z2Nat.id, Z.sub_diag in Hp by lia. destruct Hcomplete as [_ Hroot].
    pose proof (at_nonneg _ l (inodes_nonneg _ Hpos)).
    pose proof (Z.div_pos (inode l + k) (2 ^ l) ltac:(lia) ltac:(lia)).
    symmetry. apply Z.div_small. change (2 ^ 1) with 2. lia.
  - by replace (S (Z.to_nat l)) with (Z.to_nat (l + 1)) by lia.
  - apply (f_equal length) in Hbits. unfold bits_of in Hbits.
    rewrite !length_app, !length_msb, length_bits in Hbits. lia.
Qed.

(** The codewords of a message, inside the stored length, are read back as its
    symbols; the end-of-block after it ends the data. *)
Lemma read_loop_message msg e z rest n out :
  Forall (is_leaf counts) msg -> is_leaf counts e -> decodes z -> wf_pos z -> err z = None ->
  thisLevel z = 0 -> bytesOut z + zlen msg = uncompressedSize z ->
  first z e.1 + e.2 = symbolEOB z ->
  bits_of z = mjoin (codeword counts <$> msg) ++ codeword counts e ++ rest ->
  (length msg < n)%nat ->
  exists z', read_loop n z out
      = Ok (out ++ ((fun lk => at_ (symbol z) (first z lk.1 + lk.2)) <$> msg), z') /\
    err z' = Some PEOF.
Proof.
  intros Hmsg He. revert z n out.
  induction Hmsg as [|lk msg Hlk Hmsg IH]; intros z n out D P Hz H0 Hsz Heob Hbits Hn.
  all: destruct n as [|n]; [by cbn in Hn; lia|]; cbn [read_loop]; rewrite Hz.
  - destruct (decode_leaf e z rest He D P H0 Hbits) as (z' & Ht & Hd).
    rewrite (@zlen_nil (Z * Z)) in Hsz.
    rewrite (proj2 (Z.eqb_eq _ _) Heob), (proj2 (Z.eqb_eq (bytesOut z) _)) in Hd by lia.
    cbn [andb] in Hd. rewrite Hd. cbn [mbind outcome_bind].
    exists (set_err z' (Some PEOF)). rewrite fmap_nil, app_nil_r. done.
  - rewrite fmap_cons, mjoin_cons, <- app_assoc in Hbits. rewrite zlen_cons in Hsz.
    destruct (decode_leaf lk z _ Hlk D P H0 Hbits) as (z' & Ht & Hd).
    pose proof (zlen_nonneg msg).
    rewrite (proj2 (Z.eqb_neq (bytesOut z) _)), andb_false_r in Hd by lia.
    destruct Hd as (-> & P' & H0' & Hb' & Ho'). cbn [mbind outcome_bind].
    destruct Ht as (E1 & E2 & E3 & E4 & E5 & E6 & E7 & E8) eqn:Heqt.
    destruct (IH z' n (out ++ [at_ (symbol z) (first z lk.1 + lk.2)])) as (z'' & -> & Hz'');
      try done; try (unfold first in *; rewrite ?E6, ?E5; done || lia).
    + by eapply decodes_same.
    + congruence.
    + cbn in Hn. lia.
    + exists z''. split; [|done]. rewrite <- app_assoc, fmap_cons. unfold first.
      by rewrite E4, E6.
Qed.
End codewords.

(** *** The file a packer writes *)

Lemma read_bytes_app l rest f :
  read_bytes (length l) (MkStream (l ++ rest) f) = (inl l, MkStream rest f).
Proof. induction l as [|b l IH]; cbn; [done|]. by rewrite IH. Qed.

Lemma read_full_app l rest f n : zlen l = n ->
  read_full (MkStream (l ++ rest) f) n = (l, None, MkStream rest f).
Proof.
  intros <-. unfold read_full, zlen. cbn [sdata sfail]. rewrite Nat2Z.id.
  rewrite take_app_length, drop_app_length. by rewrite Z.leb_refl.
Qed.

Lemma total_lengths (ls : list bytes) : total (zlen <$> ls) = zlen (mjoin ls).
Proof.
  induction ls as [|l ls IH]; [done|].
  rewrite fmap_cons, mjoin_cons, zlen_app, <- IH. done.
Qed.

Lemma read_levels_app size (ls : list bytes) start rest f :
  start + total (zlen <$> ls) <= size ->
  exists starts, read_levels size (zlen <$> ls) start (MkStream (mjoin ls ++ rest) f)
    = Ok ((starts, mjoin ls), MkStream rest f).
Proof.
  revert start. induction ls as [|l ls IH]; intros start Hs; [by exists []|].
  rewrite fmap_cons in *. cbn [read_levels]. rewrite mjoin_cons, <- app_assoc.
  unfold zlen at 1. rewrite Nat2Z.id, read_bytes_app. cbn [total foldr] in Hs.
  fold (total (zlen <$> ls)) in Hs.
  pose proof (zlen_nonneg (mjoin ls)). rewrite total_lengths in *.
  rewrite (proj2 (Z.ltb_ge _ _)) by lia.
  destruct (IH (start + zlen l)) as [starts ->]; [lia|]. by exists (start :: starts).
Qed.

(** Each level's symbols start where the counts say. *)
Lemma starts_at (ls : list bytes) (starts : list Z) :
  at_ starts 0 = 0 ->
  (forall i, 0 <= i < zlen ls - 1 -> at_ starts (i + 1) = at_ starts i + at_ (zlen <$> ls) i) ->
  forall l, 0 <= l < zlen ls -> at_ starts l = zlen (mjoin (take (Z.to_nat l) ls)).
Proof.
  intros H0 Hs l Hl.
  enough (forall n : nat, Z.of_nat n < zlen ls ->
    at_ starts (Z.of_nat n) = zlen (mjoin (take n ls))) as H.
  { rewrite <- H by lia. by rewrite Z2Nat.id by lia. }
  induction n as [|n IH]; intros Hn; [done|].
  rewrite Nat2Z.inj_succ, <- Z.add_1_r, Hs, IH by lia.
  destruct (lookup_lt_is_Some_2 ls n) as [x Hx]; [unfold zlen in Hn; lia|].
  erewrite take_S_r by done. rewrite join_app, zlen_app. f_equal.
  unfold at_. rewrite Nat2Z.id. cbn [mjoin list_join]. rewrite app_nil_r.
  apply nth_lookup_Some. by rewrite list_lookup_fmap, Hx.
Qed.

Lemma at_mjoin (ls : list bytes) l k : 0 <= l < zlen ls -> 0 <= k < zlen (nth (Z.to_nat l) ls []) ->
  zlen (mjoin (take (Z.to_nat l) ls)) + k < zlen (mjoin ls) /\
  at_ (mjoin ls) (zlen (mjoin (take (Z.to_nat l) ls)) + k) = at_ (nth (Z.to_nat l) ls []) k.
Proof.
  intros Hl Hk.
  destruct (lookup_lt_is_Some_2 ls (Z.to_nat l)) as [x Hx]; [unfold zlen in Hl; lia|].
  rewrite (nth_lookup_Some _ _ _ _ Hx) in *.
  set (m := mjoin (take (Z.to_nat l) ls)).
  rewrite <- (take_drop_middle ls (Z.to_nat l) x Hx), join_app, mjoin_cons. fold m.
  rewrite at_app_r by lia. rewrite Z.add_simpl_l, at_app_l by lia. rewrite !zlen_app.
  pose proof (zlen_nonneg (mjoin (drop (S (Z.to_nat l)) ls))). split; [lia|done].
Qed.

Lemma zlen_pos (l : bytes) : l <> [] -> 1 <= zlen l.
Proof. destruct l as [|x l]; [done|]. rewrite zlen_cons. pose proof (zlen_nonneg l). lia. Qed.

Section file.
Context (size : Z) (upper : list bytes) (lowest data : bytes).
Context (Hsize : 0 <= size < 2 ^ 32) (Hlowest : lowest <> []) (Hdepth : zlen upper < 24).
Context (Hsymbols : zlen (mjoin upper) + zlen lowest <= 256).

Lemma NewReader_file :
  exists z, NewReader (MkStream (pack_file size upper lowest data) None) = Ok z /\
    at_start z /\ uncompressedSize z = size /\ sdata (fpIn z) = data /\
    treeLevels z = zlen upper /\
    symbolsIn z = pad24 (counts_of upper lowest) /\
    inodesIn z = pad24 (inodes_of (counts_of upper lowest)) /\
    symbol z = mjoin (upper ++ [lowest]) ++ [0] /\
    symbolEOB z = zlen (mjoin (upper ++ [lowest])) /\
    exists starts, tree z = pad24 starts /\ at_ starts 0 = 0 /\ zlen starts = zlen upper + 1 /\
      (forall i, 0 <= i < zlen upper ->
        at_ starts (i + 1) = at_ starts i + at_ (zlen <$> upper ++ [lowest]) i).
Proof.
  unfold NewReader, pack_file.
  set (hdr := Magic ++ be_enc 4 size ++ [zlen upper + 1]).
  assert (zlen hdr = 7) as Hhdr by (unfold hdr; autorewrite with zlen; done).
  replace (Magic ++ be_enc 4 size ++ _)
    with (hdr ++ ((zlen <$> upper) ++ [zlen lowest - 1]) ++ mjoin (upper ++ [lowest]) ++ data)
    by (unfold hdr; rewrite join_app; cbn [mjoin list_join]; rewrite app_nil_r, <- !app_assoc; done).
  rewrite read_full_app by done.
  assert (IsPacked hdr = true) as ->.
  { unfold IsPacked. rewrite Hhdr. done. }
  assert (at_ hdr 6 = zlen upper + 1) as ->.
  { unfold hdr. rewrite app_assoc. rewrite at_app_r by done. done. }
  assert (be (sub hdr 2 4) = size) as ->.
  { unfold hdr. rewrite sub_app_r by done. rewrite sub_app_l by done. rewrite be_be_enc.
    apply Z.mod_small. exact Hsize. }
  pose proof (zlen_nonneg upper). unfold htreeMaxLevel. cbn [negb].
  rewrite (proj2 (Z.ltb_ge 24 _)), (proj2 (Z.ltb_ge _ 1)) by lia. cbn [orb].
  set (stored := (zlen <$> upper) ++ [zlen lowest - 1]).
  replace (Z.to_nat (zlen upper + 1)) with (length stored)
    by (unfold stored; rewrite length_app, length_fmap; cbn; unfold zlen; lia).
  rewrite read_bytes_app. fold (total stored).
  assert (total stored = zlen (mjoin upper) + zlen lowest - 1) as ->.
  { unfold stored. rewrite total_snoc, total_lengths. lia. }
  rewrite (proj2 (Z.ltb_ge 256 _)) by lia. unfold stored. rewrite !bump_last_snoc.
  rewrite Z.sub_add.
  replace ((zlen <$> upper) ++ [zlen lowest]) with (zlen <$> upper ++ [lowest])
    by (by rewrite fmap_app).
  destruct (read_levels_app (1 + (zlen (mjoin upper) + zlen lowest - 1) + 1) (upper ++ [lowest]) 0
    data None) as [starts Hr].
  { rewrite total_lengths, join_app, zlen_app. cbn [mjoin list_join]. rewrite app_nil_r. lia. }
  pose proof (read_levels_ok (1 + (zlen (mjoin upper) + zlen lowest - 1) + 1)
    (zlen <$> upper ++ [lowest]) 0
    (MkStream (mjoin (upper ++ [lowest]) ++ data) None)) as Hok.
  rewrite Hr in *. destruct Hok as (Hst & _ & _ & H0 & Hstep & _).
  { apply Forall_fmap, Forall_true. intros. apply zlen_nonneg. }
  { rewrite total_lengths, join_app, zlen_app. cbn [mjoin list_join]. rewrite app_nil_r. lia. }
  rewrite zlen_fmap, zlen_snoc in *.
  eexists. split; [done|]. split_and!; try done; cbn.
  - lia.
  - f_equal. rewrite join_app, zlen_app. cbn [mjoin list_join]. rewrite app_nil_r.
    by replace (Z.to_nat _) with 1%nat by lia.
  - exists starts. split_and!; [done| |done|].
    + rewrite H0. by rewrite (proj2 (Z.eqb_neq _ _)) by lia.
    + intros i Hi. apply Hstep. lia.
Qed.

Notation counts := (counts_of upper lowest).

Lemma counts_nonneg : Forall (fun c => 0 <= c) counts.
Proof.
  apply Forall_app. split.
  - apply Forall_fmap, Forall_true. intros. apply zlen_nonneg.
  - repeat constructor. pose proof (zlen_nonneg lowest). lia.
Qed.

Lemma symbol_of_leaf l k : is_leaf counts (l, k) ->
  at_ (mjoin (upper ++ [lowest]) ++ [0])
    (zlen (mjoin (take (Z.to_nat l) (upper ++ [lowest]))) + k)
  = at_ (nth (Z.to_nat l) (upper ++ [lowest]) []) k.
Proof.
  intros [Hl Hk]. cbn [fst snd] in *. unfold counts_of in *. rewrite zlen_snoc, zlen_fmap in Hl.
  destruct (decide (k < zlen (nth (Z.to_nat l) (upper ++ [lowest]) []))) as [Hlt|Hge].
  - destruct (at_mjoin (upper ++ [lowest]) l k) as [H1 H2]; [rewrite zlen_snoc; lia|lia|].
    rewrite at_app_l by (pose proof (zlen_nonneg (mjoin (take (Z.to_nat l) (upper ++ [lowest])))); lia).
    exact H2.
  - rewrite (at_beyond (nth _ _ _)) by lia. destruct (decide (l < zlen upper)) as [Hu|Hu].
    + rewrite at_app_l in Hk by (rewrite zlen_fmap; lia).
      rewrite app_nth1 in Hge by (unfold zlen in *; lia).
      destruct (lookup_lt_is_Some_2 upper (Z.to_nat l)) as [x Hx]; [unfold zlen in *; lia|].
      rewrite (nth_lookup_Some _ _ _ _ Hx) in Hge. unfold at_ in Hk.
      rewrite (nth_lookup_Some _ _ _ (zlen x)) in Hk; [lia|]. by rewrite list_lookup_fmap, Hx.
    + assert (l = zlen upper) as -> by lia.
      replace (Z.to_nat (zlen upper)) with (length upper) in * by (unfold zlen; lia).
      rewrite take_app_length. rewrite (nth_middle upper []) in Hge.
      rewrite at_app_r in Hk by (rewrite zlen_fmap; lia).
      rewrite zlen_fmap, Z.sub_diag, at_0 in Hk.
      rewrite join_app. cbn [mjoin list_join]. rewrite app_nil_r.
      assert (k = zlen lowest) as -> by lia.
      replace (zlen (mjoin upper) + zlen lowest) with (zlen (mjoin upper ++ lowest)) by apply zlen_app.
      apply at_snoc.
Qed.

(** The decoder [NewReader] makes of the file, ready to read its data. *)
Lemma file_decodes :
  exists z, NewReader (MkStream (pack_file size upper lowest data) None) = Ok z /\
    decodes counts z /\ wf_pos z /\ at_start z /\ uncompressedSize z = size /\
    bits_of z = bits data /\
    (first z (eob upper lowest).1 + (eob upper lowest).2 = symbolEOB z) /\
    (forall lk, is_leaf counts lk ->
      at_ (symbol z) (first z lk.1 + lk.2) = symbol_at upper lowest lk).
Proof.
  destruct NewReader_file as (z & E & Hstart & Hsz & Hd & HL & HN & HI & Hsym & Heob &
    starts & HT & H0 & Hst & Hstep).
  pose proof (zlen_pos lowest Hlowest). pose proof (zlen_nonneg upper).
  assert (mjoin (upper ++ [lowest]) = mjoin upper ++ lowest) as Hjoin.
  { rewrite join_app. cbn [mjoin list_join]. by rewrite app_nil_r. }
  assert (built z counts starts) as B.
  { split_and!; try done. unfold counts_of. rewrite zlen_snoc, zlen_fmap. lia. }
  assert (first z (zlen upper) + zlen lowest = symbolEOB z) as He.
  { unfold first. rewrite HT, at_pad24, (starts_at (upper ++ [lowest])); [|done| |].
    - rewrite Heob, Hjoin, zlen_app. do 2 f_equal. f_equal. apply take_app_length'.
      unfold zlen. lia.
    - intros i Hi. apply Hstep. rewrite zlen_snoc in Hi. lia.
    - rewrite zlen_snoc. lia. }
  exists z. split_and!; try done.
  - split; [|by exists starts].
    apply (built_wf z (zlen <$> upper) (zlen lowest - 1) starts).
    + apply Forall_fmap, Forall_true. intros. apply zlen_nonneg.
    + lia.
    + by rewrite zlen_fmap.
    + by replace (zlen lowest - 1 + 2) with (zlen lowest + 1) by lia.
    + by rewrite zlen_fmap.
    + done.
    + rewrite zlen_fmap, Z.sub_add. intros i Hi. rewrite Hstep by done.
      by rewrite fmap_app.
    + rewrite zlen_fmap, Z.sub_add, <- He. unfold first. by rewrite HT, at_pad24.
    + by rewrite Hsym, Heob, zlen_snoc.
  - destruct Hstart as (_ & Hs0 & Hs1 & Hs2 & _). constructor; lia.
  - destruct Hstart as (_ & _ & _ & Hs2 & _). unfold bits_of. by rewrite Hs2, Hd.
  - intros [l k] [Hl Hk]. cbn [fst snd] in *. unfold first, symbol_at. cbn [fst snd].
    rewrite HT, at_pad24, Hsym.
    rewrite (starts_at (upper ++ [lowest]) starts); [|done| |].
    2: { intros i Hi. apply Hstep. rewrite zlen_snoc in Hi. lia. }
    2: { unfold counts_of in Hl. rewrite zlen_snoc, zlen_fmap in Hl. rewrite zlen_snoc. lia. }
    by apply symbol_of_leaf.
Qed.
End file.

(** C36. Round trip: a file made of the header, the symbols of each level and the
    codewords of a message followed by the end-of-block codeword is read back,
    by one call with a buffer larger than the message, as the symbols of the
    message, and the next call reports the end. [upper] and [lowest] are the
    symbols on each level of a complete tree with at most 24 levels and 256
    leaves; what follows the end-of-block codeword in the last byte, or after
    it, does not matter. *)
Theorem unpack_roundtrip upper lowest msg data pad plen :
  lowest <> [] -> zlen upper < 24 -> zlen (mjoin upper) + zlen lowest <= 256 ->
  let counts := counts_of upper lowest in
  complete counts -> Forall (is_leaf counts) msg -> zlen msg < 2 ^ 32 ->
  bits data = mjoin (codeword counts <$> msg) ++ codeword counts (eob upper lowest) ++ pad ->
  zlen msg < plen ->
  exists z z', NewReader (MkStream (pack_file (zlen msg) upper lowest data) None) = Ok z /\
    Read z plen = Ok (symbol_at upper lowest <$> msg,
                      (if zlen msg =? 0 then Some PEOF else None), z') /\
    forall n, Read z' n = Ok ([], Some PEOF, z').
Proof.
  intros Hlow Hdepth Hsyms counts Hc Hmsg Hlen Hbits Hp. pose proof (zlen_nonneg msg).
  destruct (file_decodes (zlen msg) upper lowest data ltac:(lia) Hlow Hdepth Hsyms)
    as (z & E & D & P & (He & H0 & _ & _ & Hout) & Hsz & Hb & Heob & Hsym).
  pose proof (zlen_pos lowest Hlow).
  destruct (read_loop_message counts Hc (counts_nonneg upper lowest) msg (eob upper lowest) z pad
    (Z.to_nat plen) []) as (z' & Hr & Hz'); try done.
  - unfold is_leaf, eob, counts, counts_of. cbn [fst snd]. rewrite zlen_snoc, zlen_fmap.
    pose proof (zlen_nonneg upper). split; [lia|].
    rewrite at_app_r by (rewrite zlen_fmap; lia). rewrite zlen_fmap, Z.sub_diag, at_0. lia.
  - lia.
  - by rewrite Hb.
  - unfold zlen in *. lia.
  - exists z, z'. split; [done|]. unfold Read. rewrite Hr. cbn [mbind outcome_bind app].
    rewrite zlen_fmap. split.
    + assert ((fun lk => at_ (symbol z) (first z lk.1 + lk.2)) <$> msg
        = symbol_at upper lowest <$> msg) as ->.
      { apply list_fmap_ext. intros i lk Hi. apply Hsym. eapply Forall_lookup_1; [exact Hmsg|done]. }
      destruct (decide (zlen msg = 0)) as [Hz|Hz].
      * rewrite Hz, Z.ltb_irrefl. destruct msg; [by rewrite Hz'|].
        rewrite zlen_cons in Hz. pose proof (zlen_nonneg msg). lia.
      * by rewrite (proj2 (Z.ltb_lt _ _)), (proj2 (Z.eqb_neq _ _)) by lia.
    + intros n. by destruct (Z.to_nat n); cbn [read_loop]; rewrite ?Hz'; cbn; rewrite ?Hz'.
Qed.

Lemma unpack_roundtrip_witness :
  exists z z', NewReader (MkStream (pack_file 2 [[97]] [98] [136]) None) = Ok z /\
    Read z 10 = Ok ([97; 98], None, z') /\ forall n, Read z' n = Ok ([], Some PEOF, z').
Proof.
  apply (unpack_roundtrip [[97]] [98] [(0, 0); (1, 0)] [136] [0; 0; 0] 10); try done.
  - split; [|vm_compute; discriminate]. intros l Hl.
    assert (l = 0) as -> by (vm_compute in Hl; destruct Hl, l as [|[]|]; done). reflexivity.
  - repeat constructor; vm_compute; done.
Defined.

Definition two_letters : bytes := pack_file 2 [[97]] [98] [136].

Lemma unpack_Read_total_witness :
  exists z, NewReader (MkStream two_letters None) = Ok z /\
  exists out e z', Read z 1 = Ok (out, e, z') /\ reachable z' /\
    zlen out <= Z.max 0 1 /\ (out <> [] -> e = None) /\
    (0 < 1 -> out = [] -> e <> None) /\
    (err z <> None -> out = [] /\ e = err z /\ z' = z).
Proof.
  eexists. split; [vm_compute; reflexivity|].
  apply unpack_Read_total. apply (reachable_new (MkStream two_letters None)).
  - apply (bool_decide_unpack _). vm_compute. exact I.
  - vm_compute. reflexivity.
Defined.
