(* ===== verification/Netip.v ===== *)
(** IP addresses as [net] and [net/netip] have them: an address is its bytes,
    4 or 16 of them, or none when it is not valid. *)
From S2P Require Import Prelude.

(** [netip.AddrFromSlice] (the zero address if the length is wrong), and
    [Addr.Unmap], which takes an IPv4 address out of its IPv6 form. *)
Definition AddrFromSlice (ip : bytes) : bytes :=
  if (zlen ip =? 4) || (zlen ip =? 16) then ip else [].
Definition v4_in_v6 : bytes := replicate 10 0 ++ [255; 255].
Definition Unmap (ip : bytes) : bytes :=
  if (zlen ip =? 16) && bool_decide (take 12 ip = v4_in_v6) then drop 12 ip else ip.
