(* ===== verification/Text.v ===== *)
(** Text as the services read and write it: decimal numbers of [strconv],
    [strings.SplitN] for a one-byte separator, and the lines of a
    [bufio.Scanner]. *)
From S2P Require Import Prelude.

Definition space : Z := 32.
Definition newline : Z := 10.
Definition carriage : Z := 13.

(** ** Numbers *)

(** The decimal digits of a number ([%d] of an unsigned value,
    [strconv.Itoa] of one that is not negative). *)
Fixpoint dec_digits (fuel : nat) (n : Z) (acc : bytes) : bytes :=
  match fuel with
  | O => acc
  | S fuel =>
      let acc := 48 + n mod 10 :: acc in
      if n <? 10 then acc else dec_digits fuel (n / 10) acc
  end.

Definition dec (n : Z) : bytes := dec_digits (S (Z.to_nat (Z.log2 n))) n [].

Inductive num_err := ErrSyntax | ErrRange.

#[export] Instance num_err_eq_dec : EqDecision num_err.
Proof. solve_decision. Defined.

Definition is_digit (c : Z) : bool := in_range 48 57 c.

Fixpoint parse_digits (maxVal n : Z) (s : bytes) : outcome num_err Z :=
  match s with
  | [] => Ok n
  | c :: s =>
      if negb (is_digit c) then Err ErrSyntax
      else let n := n * 10 + (c - 48) in
           if maxVal <? n then Err ErrRange else parse_digits maxVal n s
  end.

(** [strconv.ParseUint(s, 10, bitSize)]. *)
Definition ParseUint (bitSize : Z) (s : bytes) : outcome num_err Z :=
  match s with [] => Err ErrSyntax | _ => parse_digits (2 ^ bitSize - 1) 0 s end.

(** [strconv.Atoi] on a 64-bit host: an optional sign, then digits whose value
    fits an [int]. *)
Definition Atoi (s : bytes) : outcome num_err Z :=
  let '(neg, d) := match s with
                   | 43 :: d => (false, d)
                   | 45 :: d => (true, d)
                   | _ => (false, s)
                   end in
  n ← match d with [] => Err ErrSyntax | _ => parse_digits (2 ^ 64 - 1) 0 d end;
  if (neg : bool) then if 2 ^ 63 <? n then Err ErrRange else Ok (- n)
  else if 2 ^ 63 <=? n then Err ErrRange else Ok n.

Lemma parse_digits_app maxVal n s k v :
  parse_digits maxVal n s = Ok v -> parse_digits maxVal n (s ++ k) = parse_digits maxVal v k.
Proof.
  revert n. induction s as [|c s IH]; intros n; cbn [parse_digits app].
  - by intros <-%Ok_inj.
  - destruct (negb _); [done|]. destruct (_ <? _); [done|]. apply IH.
Qed.

Lemma dec_digits_acc fuel n acc :
  dec_digits fuel n acc = dec_digits fuel n [] ++ acc.
Proof.
  revert n acc. induction fuel as [|fuel IH]; intros n acc; [done|].
  cbn [dec_digits]. destruct (n <? 10); [done|].
  rewrite IH, (IH _ [_]), <- app_assoc. done.
Qed.

Lemma dec_digits_wf fuel n acc :
  Forall (fun c => is_digit c = true) acc ->
  Forall (fun c => is_digit c = true) (dec_digits fuel n acc).
Proof.
  revert n acc. induction fuel as [|fuel IH]; intros n acc H; [done|].
  cbn [dec_digits].
  assert (is_digit (48 + n mod 10) = true).
  { unfold is_digit, in_range. pose proof (Z.mod_pos_bound n 10). lia. }
  destruct (n <? 10); [by constructor|]. apply IH. by constructor.
Qed.

Lemma dec_is_digits n : Forall (fun c => is_digit c = true) (dec n).
Proof. by apply dec_digits_wf. Qed.

Lemma dec_not_nil n : dec n <> [].
Proof.
  unfold dec. cbn [dec_digits]. destruct (n <? 10); [done|].
  rewrite dec_digits_acc. by destruct (dec_digits _ _ _).
Qed.

(** A number printed in decimal parses to itself, up to the bound. *)
Lemma parse_dec_digits maxVal fuel n :
  0 <= n <= maxVal -> n < 2 ^ Z.of_nat fuel ->
  parse_digits maxVal 0 (dec_digits fuel n []) = Ok n.
Proof.
  revert n. induction fuel as [|fuel IH]; intros n Hn Hf.
  { change (2 ^ Z.of_nat 0) with 1 in Hf. cbn. f_equal. lia. }
  cbn [dec_digits]. pose proof (Z.mod_pos_bound n 10 ltac:(lia)).
  pose proof (Z.div_mod n 10 ltac:(lia)).
  assert (Hd : forall k, is_digit (48 + n mod 10) = true /\
    (maxVal <? k * 10 + (48 + n mod 10 - 48)) = (maxVal <? k * 10 + n mod 10)).
  { unfold is_digit, in_range. intros k. split; [lia|f_equal; lia]. }
  destruct (n <? 10) eqn:E; zbool.
  - cbn [parse_digits]. destruct (Hd 0) as [-> ->]. cbn [negb].
    destruct (_ <? _) eqn:E2; zbool; [lia|]. f_equal. lia.
  - rewrite dec_digits_acc.
    rewrite (parse_digits_app _ _ _ _ (n / 10)).
    + cbn [parse_digits]. destruct (Hd (n / 10)) as [-> ->]. cbn [negb].
      destruct (_ <? _) eqn:E2; zbool; [lia|]. f_equal. lia.
    + rewrite Nat2Z.inj_succ, Z.pow_succ_r in Hf by lia. apply IH; lia.
Qed.

Lemma parse_dec maxVal n : 0 <= n <= maxVal -> parse_digits maxVal 0 (dec n) = Ok n.
Proof.
  intros Hn. apply parse_dec_digits; [done|].
  destruct (decide (n = 0)) as [->|]; [done|].
  pose proof (Z.log2_spec n ltac:(lia)). rewrite Nat2Z.inj_succ, Z2Nat.id by apply Z.log2_nonneg.
  lia.
Qed.

Lemma ParseUint_dec w n : 0 <= n < 2 ^ w -> ParseUint w (dec n) = Ok n.
Proof.
  intros Hn. unfold ParseUint. destruct (dec n) eqn:E; [by destruct (dec_not_nil n)|].
  rewrite <- E. apply parse_dec. lia.
Qed.

Lemma Atoi_dec n : 0 <= n < 2 ^ 63 -> Atoi (dec n) = Ok n.
Proof.
  intros Hn. unfold Atoi. pose proof (dec_is_digits n) as Hd.
  destruct (dec n) as [|c d] eqn:E; [by destruct (dec_not_nil n)|].
  inv Hd. assert (Hc : c <> 43 /\ c <> 45) by (unfold is_digit, in_range in *; lia).
  destruct Hc.
  assert (Hn' : parse_digits (2 ^ 64 - 1) 0 (c :: d) = Ok n) by (rewrite <- E; apply parse_dec; lia).
  assert (Hs : match c :: d with
               | 43 :: d => (false, d) | 45 :: d => (true, d) | _ => (false, c :: d)
               end = (false, c :: d)).
  { destruct c as [|p|p]; try done.
    do 6 (destruct p as [p|p|]; try done). }
  rewrite Hs, Hn'. cbn. by destruct (_ <=? _) eqn:?; zbool; [lia|].
Qed.

(** ** Splitting *)

(** The text before the first [c], and the text after it if there is one
    ([strings.Cut] with a one-byte separator). *)
Fixpoint cut (c : Z) (s : bytes) : bytes * option bytes :=
  match s with
  | [] => ([], None)
  | x :: t => if x =? c then ([], Some t) else let '(a, b) := cut c t in (x :: a, b)
  end.

(** [strings.SplitN(s, c, n)] for [n > 0]. *)
Fixpoint SplitN (c : Z) (s : bytes) (n : nat) : list bytes :=
  match n with
  | O => []
  | S O => [s]
  | S n => match cut c s with (a, None) => [a] | (a, Some b) => a :: SplitN c b n end
  end.

(** [strings.HasPrefix]. *)
Definition HasPrefix (s pre : bytes) : bool := bool_decide (take (length pre) s = pre).

Lemma HasPrefix_spec s pre : HasPrefix s pre = true <-> exists r, s = pre ++ r.
Proof.
  unfold HasPrefix. rewrite bool_decide_eq_true. split.
  - intros H. exists (drop (length pre) s). rewrite <- H at 1. by rewrite take_drop.
  - intros [r ->]. by rewrite take_app_length.
Qed.

Lemma cut_app c a b : c ∉ a -> cut c (a ++ c :: b) = (a, Some b).
Proof.
  induction a as [|x a IH]; intros Ha; cbn; [by rewrite Z.eqb_refl|].
  apply not_elem_of_cons in Ha as [Hx Ha].
  rewrite (proj2 (Z.eqb_neq x c)) by congruence. by rewrite IH.
Qed.

Lemma cut_none c a : c ∉ a -> cut c a = (a, None).
Proof.
  induction a as [|x a IH]; intros Ha; cbn; [done|].
  apply not_elem_of_cons in Ha as [Hx Ha].
  rewrite (proj2 (Z.eqb_neq x c)) by congruence. by rewrite IH.
Qed.

(** Decimal digits hold no other character. *)
Lemma dec_no c n : is_digit c = false -> c ∉ dec n.
Proof.
  intros Hc Hin. pose proof (dec_is_digits n) as Hd.
  rewrite Forall_forall in Hd. apply Hd in Hin. congruence.
Qed.

(** ** Lines *)

(** [bufio.ScanLines] drops one carriage return at the end of a line. *)
Definition dropCR (l : bytes) : bytes :=
  match last l with Some c => if c =? carriage then take (length l - 1) l else l | None => l end.

(** The raw lines of a text: what newlines end, and a rest that is not empty. *)
Definition raw_lines (s : bytes) : list bytes :=
  let ls := split_byte newline s in
  match last ls with Some [] => take (length ls - 1) ls | _ => ls end.

Definition unlines (ls : list bytes) : bytes := mjoin ((fun l => l ++ [newline]) <$> ls).

Lemma split_byte_app c l s : c ∉ l -> split_byte c (l ++ c :: s) = l :: split_byte c s.
Proof.
  induction l as [|x l IH]; intros Hl; cbn; [by rewrite Z.eqb_refl|].
  apply not_elem_of_cons in Hl as [Hx Hl].
  rewrite (proj2 (Z.eqb_neq x c)) by congruence. by rewrite IH.
Qed.

(** Texts that each end in [c]. *)
Definition terminated (c : Z) (ls : list bytes) : bytes := mjoin ((fun l => l ++ [c]) <$> ls).

Lemma terminated_cons c l ls : terminated c (l :: ls) = l ++ c :: terminated c ls.
Proof. unfold terminated. by rewrite fmap_cons, mjoin_cons, <- app_assoc. Qed.

Lemma split_terminated c ls : Forall (fun l => c ∉ l) ls ->
  split_byte c (terminated c ls) = ls ++ [[]].
Proof.
  induction 1 as [|l ls Hl Hls IH]; [done|]. by rewrite terminated_cons, split_byte_app, IH.
Qed.

Lemma split_unlines ls : Forall (fun l => newline ∉ l) ls ->
  split_byte newline (unlines ls) = ls ++ [[]].
Proof. apply split_terminated. Qed.

Lemma raw_lines_unlines ls : Forall (fun l => newline ∉ l) ls -> raw_lines (unlines ls) = ls.
Proof.
  intros H. unfold raw_lines. rewrite split_unlines by done. rewrite last_snoc.
  by rewrite length_app, Nat.add_sub, take_app_length.
Qed.

Lemma unlines_app ls ks : unlines (ls ++ ks) = unlines ls ++ unlines ks.
Proof. unfold unlines. by rewrite fmap_app, join_app. Qed.

Lemma dropCR_id l : last l <> Some carriage -> dropCR l = l.
Proof.
  unfold dropCR. destruct (last l) as [c|]; [|done]. intros Hc.
  by rewrite (proj2 (Z.eqb_neq c carriage)) by congruence.
Qed.
