(* ===== verification/Path.v ===== *)
(** Go's [path] package: [Clean], [Join], [Dir], [Base] and [IsAbs], element by
    element. *)
From S2P Require Import Prelude.

Definition dotdot : bytes := [dot; dot].

(** Elements joined by slashes. *)
Fixpoint join_slash (els : list bytes) : bytes :=
  match els with
  | [] => []
  | [e] => e
  | e :: els => e ++ [slash] ++ join_slash els
  end.

(** [path.IsAbs]. *)
Definition IsAbs (p : bytes) : bool := match p with c :: _ => c =? slash | [] => false end.

(** One element against those kept so far, the last one first: an empty element
    and "." are dropped, ".." takes back the element before it, or is dropped at
    the root, or kept. *)
Definition clean_step (rooted : bool) (kept : list bytes) (e : bytes) : list bytes :=
  if bool_decide (e = []) || bool_decide (e = [dot]) then kept
  else if bool_decide (e = dotdot) then
    match kept with
    | top :: rest => if bool_decide (top = dotdot) then e :: kept else rest
    | [] => if rooted then [] else [e]
    end
  else e :: kept.

Definition clean_els (rooted : bool) (els : list bytes) : list bytes :=
  reverse (foldl (clean_step rooted) [] els).

(** [path.Clean]. *)
Definition Clean (p : bytes) : bytes :=
  let rooted := IsAbs p in
  let out := (if rooted then [slash] else []) ++ join_slash (clean_els rooted (split_byte slash p)) in
  if bool_decide (out = []) then [dot] else out.

(** [path.Join] of two elements. *)
Definition Join (a b : bytes) : bytes :=
  if bool_decide (a = []) then (if bool_decide (b = []) then [] else Clean b)
  else Clean (a ++ [slash] ++ b).

(** [path.Dir]: what is up to the last slash, cleaned. *)
Definition Dir (p : bytes) : bytes :=
  let els := split_byte slash p in
  Clean (if bool_decide (length els = 1%nat) then []
         else join_slash (take (length els - 1) els) ++ [slash]).

(** [path.Base]. *)
Definition Base (p : bytes) : bytes := path_base p.

(** ** Facts *)

(** A name that can stand between slashes. *)
Definition name_ok (e : bytes) : Prop := e <> [] /\ e <> [dot] /\ e <> dotdot /\ slash ∉ e.

Lemma split_no_slash e : slash ∉ e -> split_byte slash e = [e].
Proof.
  induction e as [|c e IH]; intros H; [done|]. apply not_elem_of_cons in H as [Hc H].
  cbn. rewrite (proj2 (Z.eqb_neq c slash)) by congruence. by rewrite IH.
Qed.

Lemma split_cons_slash e rest : slash ∉ e -> split_byte slash (e ++ slash :: rest) = e :: split_byte slash rest.
Proof.
  induction e as [|c e IH]; intros H; cbn; [done|].
  apply not_elem_of_cons in H as [Hc H].
  rewrite (proj2 (Z.eqb_neq c slash)) by congruence. by rewrite IH.
Qed.

Lemma split_join els : els <> [] -> Forall (fun e => slash ∉ e) els ->
  split_byte slash (join_slash els) = els.
Proof.
  induction els as [|e els IH]; intros Hne Hf; [done|]. inv Hf as [|? ? He Hels].
  destruct els as [|e' els]; [by apply split_no_slash|].
  change (join_slash (e :: e' :: els)) with (e ++ slash :: join_slash (e' :: els)).
  rewrite split_cons_slash by done. by rewrite IH.
Qed.

(** The elements [split_byte] gives hold no separator. *)
Lemma split_elements p : Forall (fun e => slash ∉ e) (split_byte slash p).
Proof.
  induction p as [|c p IH]; cbn; [repeat constructor; apply not_elem_of_nil|].
  destruct (c =? slash) eqn:E; [constructor; [apply not_elem_of_nil|done]|]. zbool.
  destruct (split_byte slash p) as [|q qs]; [repeat constructor; apply not_elem_of_cons; split; [done|apply not_elem_of_nil]|].
  inv IH as [|? ? Hq Hqs]. constructor; [|done]. apply not_elem_of_cons. by split.
Qed.

Lemma clean_step_kept rooted kept e : slash ∉ e ->
  Forall (fun e => e = dotdot \/ name_ok e) kept ->
  Forall (fun e => e = dotdot \/ name_ok e) (clean_step rooted kept e).
Proof.
  intros He Hk. unfold clean_step. destruct (_ || _) eqn:E; [done|].
  apply orb_false_iff in E as [E1%bool_decide_eq_false E2%bool_decide_eq_false].
  case_bool_decide as E3.
  - destruct kept as [|top rest]; [destruct rooted; [constructor|constructor; [left; done|constructor]]|].
    case_bool_decide; [constructor; [by left|done]|by inv Hk].
  - constructor; [|done]. by right.
Qed.

Lemma clean_els_ok rooted els : Forall (fun e => slash ∉ e) els ->
  Forall (fun e => e = dotdot \/ name_ok e) (clean_els rooted els).
Proof.
  intros Hels. unfold clean_els. apply Forall_reverse.
  assert (H : forall kept, Forall (fun e => e = dotdot \/ name_ok e) kept ->
    Forall (fun e => e = dotdot \/ name_ok e) (foldl (clean_step rooted) kept els)).
  { induction Hels as [|e els He Hels IH]; intros kept Hk; [done|]. cbn. apply IH. by apply clean_step_kept. }
  apply H. constructor.
Qed.

(** Elements that are names are kept as they are. *)
Lemma clean_els_names rooted els : Forall name_ok els -> clean_els rooted els = els.
Proof.
  intros Hels. unfold clean_els.
  assert (H : forall kept, foldl (clean_step rooted) kept els = reverse els ++ kept).
  { induction Hels as [|e els (H1 & H2 & H3 & _) Hels IH]; intros kept; [done|]. cbn [foldl].
    rewrite IH, reverse_cons, <- app_assoc. f_equal. unfold clean_step.
    by rewrite !bool_decide_false by done. }
  by rewrite H, app_nil_r, reverse_involutive.
Qed.

Lemma join_slash_not_nil els : els <> [] -> Forall name_ok els -> join_slash els <> [].
Proof.
  intros Hne Hf. destruct els as [|e els]; [done|]. inv Hf as [|? ? [He _] _].
  destruct els; cbn; [done|]. by destruct e.
Qed.

Lemma join_slash_not_abs els : els <> [] -> Forall name_ok els -> IsAbs (join_slash els) = false.
Proof.
  intros Hne Hf. destruct els as [|e els]; [done|]. inv Hf as [|? ? (He & _ & _ & Hs) _].
  destruct e as [|c e]; [done|]. apply not_elem_of_cons in Hs as [Hs _].
  destruct els; cbn; apply Z.eqb_neq; congruence.
Qed.

(** Joining names is putting a slash between them. *)
Lemma Clean_names els : els <> [] -> Forall name_ok els -> Clean (join_slash els) = join_slash els.
Proof.
  intros Hne Hf. unfold Clean. rewrite join_slash_not_abs by done. cbn [app].
  rewrite split_join; [|done|eapply Forall_impl; [exact Hf|by intros e (_ & _ & _ & ?)]].
  rewrite clean_els_names by done. by rewrite bool_decide_false by (by apply join_slash_not_nil).
Qed.

Lemma join_slash_snoc els e : els <> [] -> join_slash (els ++ [e]) = join_slash els ++ [slash] ++ e.
Proof.
  induction els as [|x els IH]; intros H; [done|]. destruct els as [|y els]; [done|].
  change ((x :: y :: els) ++ [e]) with (x :: ((y :: els) ++ [e])).
  assert (Hj : forall l, l <> [] -> join_slash (x :: l) = x ++ [slash] ++ join_slash l) by (by intros [|? ?]).
  rewrite !Hj by (by destruct els). rewrite IH by done. by rewrite <- !app_assoc.
Qed.

Lemma Join_names els e : els <> [] -> Forall name_ok els -> name_ok e ->
  Join (join_slash els) e = join_slash (els ++ [e]).
Proof.
  intros Hne Hf He. unfold Join. rewrite bool_decide_false by (by apply join_slash_not_nil).
  rewrite <- join_slash_snoc by done. apply Clean_names; [by destruct els|].
  apply Forall_app. split; [done|]. by apply Forall_singleton.
Qed.

Lemma Join_dot c : name_ok c -> Join [dot] c = c.
Proof.
  intros (H1 & H2 & H3 & Hs). unfold Join. rewrite bool_decide_false by done. unfold Clean. change (IsAbs _) with false.
  change ([dot] ++ [slash] ++ c) with ([dot] ++ slash :: c).
  rewrite split_cons_slash by (apply not_elem_of_cons; split; [done|apply not_elem_of_nil]). rewrite split_no_slash by done.
  assert (clean_els false [[dot]; c] = [c]) as ->; [|cbn; by rewrite bool_decide_false].
  unfold clean_els. cbn [foldl]. change (clean_step false [] [dot]) with (@nil bytes).
  unfold clean_step. by rewrite (bool_decide_false (c = [])), (bool_decide_false (c = [dot])), (bool_decide_false (c = dotdot)).
Qed.

(** A relative path cleaned either stays within where it starts, or climbs out of
    it by a ".." at its head: no ".." is left behind a name. *)
Definition climbs (els : list bytes) : Prop := head els = Some dotdot.

Lemma clean_step_shape rooted kept e :
  (exists names ups, kept = names ++ ups /\ Forall (fun x => x <> dotdot) names /\
    Forall (fun x => x = dotdot) ups /\ (rooted = true -> ups = [])) ->
  exists names ups, clean_step rooted kept e = names ++ ups /\ Forall (fun x => x <> dotdot) names /\
    Forall (fun x => x = dotdot) ups /\ (rooted = true -> ups = []).
Proof.
  intros (names & ups & -> & Hn & Hu & Hr). unfold clean_step.
  destruct (_ || _); [by exists names, ups|]. case_bool_decide as E.
  - destruct names as [|n names]; cbn [app].
    + destruct ups as [|u ups].
      * destruct rooted; [by exists [], []|]. exists [], [e]. split_and!; try done. by repeat constructor.
      * inv Hu as [|? ? Hu1 Hu2]. rewrite bool_decide_true by done.
        exists [], (dotdot :: dotdot :: ups). split_and!; try done; [by repeat constructor|].
        intros Hroot. by specialize (Hr Hroot).
    + inv Hn as [|? ? Hn1 Hn2]. rewrite bool_decide_false by done. by exists names, ups.
  - exists (e :: names), ups. split_and!; try done. by constructor.
Qed.

Lemma clean_els_shape rooted els : exists ups names, clean_els rooted els = ups ++ names /\
  Forall (fun x => x = dotdot) ups /\ Forall (fun x => x <> dotdot) names /\ (rooted = true -> ups = []).
Proof.
  unfold clean_els.
  assert (H : forall kept, (exists names ups, kept = names ++ ups /\ Forall (fun x => x <> dotdot) names /\
    Forall (fun x => x = dotdot) ups /\ (rooted = true -> ups = [])) ->
    exists names ups, foldl (clean_step rooted) kept els = names ++ ups /\ Forall (fun x => x <> dotdot) names /\
    Forall (fun x => x = dotdot) ups /\ (rooted = true -> ups = [])).
  { induction els as [|e els IH]; intros kept Hk; [done|]. cbn. apply IH. by apply clean_step_shape. }
  destruct (H [] ltac:(by exists [], [])) as (names & ups & -> & Hn & Hu & Hr).
  exists (reverse ups), (reverse names). rewrite reverse_app. split_and!; [done|by apply Forall_reverse..|].
  intros Hroot. by rewrite (Hr Hroot).
Qed.

(** ** Valid paths *)

(** The elements of a path that [fs.ValidPath] takes. *)
Lemma ValidPath_names p : ValidPath p = true -> p <> [dot] ->
  Forall name_ok (split_byte slash p) /\ valid_utf8 p = true.
Proof.
  unfold ValidPath. intros [Hu H]%andb_true_iff Hd. split; [|done].
  rewrite bool_decide_false in H by done. cbn [orb] in H.
  pose proof (split_elements p) as Hs. rewrite Forall_forall in Hs.
  rewrite forallb_forall in H. apply Forall_forall. intros e He.
  specialize (H e ltac:(by apply list_elem_of_In)).
  apply negb_true_iff, orb_false_iff in H as [[H1 H2]%orb_false_iff H3].
  apply bool_decide_eq_false in H1, H2, H3. split_and!; auto.
Qed.

Lemma ValidPath_split p : valid_utf8 p = true -> Forall name_ok (split_byte slash p) -> ValidPath p = true.
Proof.
  intros Hu Hf. unfold ValidPath. rewrite Hu. cbn [andb]. apply orb_true_iff. right.
  apply forallb_forall. intros e He%list_elem_of_In. rewrite Forall_forall in Hf.
  destruct (Hf e He) as (H1 & H2 & H3 & _). by rewrite !bool_decide_false by done.
Qed.

Lemma split_not_nil c p : split_byte c p <> [].
Proof. destruct p as [|x p]; cbn; [done|]. destruct (x =? c); [done|]. by destruct (split_byte c p). Qed.

Lemma join_split p : join_slash (split_byte slash p) = p.
Proof.
  induction p as [|c p IH]; [done|]. cbn. pose proof (split_not_nil slash p) as Hn.
  destruct (split_byte slash p) as [|e es]; [done|]. destruct (c =? slash) eqn:E.
  - zbool. subst c. change (join_slash ([] :: e :: es)) with ([] ++ [slash] ++ join_slash (e :: es)). by rewrite IH.
  - destruct es; cbn in *; by rewrite <- IH.
Qed.

Lemma split_join_slash els : els <> [] -> Forall (fun e => slash ∉ e) els ->
  split_byte slash (join_slash els ++ [slash]) = els ++ [[]].
Proof.
  induction els as [|e els IH]; intros Hne Hf; [done|]. inv Hf as [|? ? He Hels].
  destruct els as [|e' els]; [cbn [join_slash]; by rewrite split_cons_slash|].
  change (join_slash (e :: e' :: els) ++ [slash]) with ((e ++ slash :: join_slash (e' :: els)) ++ [slash]).
  rewrite <- app_assoc. change ((slash :: ?x) ++ [slash]) with (slash :: x ++ [slash]).
  cbn [app]. rewrite split_cons_slash by done. by rewrite IH.
Qed.

Lemma split_join_app els r : els <> [] -> Forall (fun e => slash ∉ e) els ->
  split_byte slash (join_slash els ++ slash :: r) = els ++ split_byte slash r.
Proof.
  induction els as [|e els IH]; intros Hne Hf; [done|]. inv Hf as [|? ? He Hels].
  destruct els as [|e' els]; [cbn [join_slash]; by rewrite split_cons_slash|].
  change (join_slash (e :: e' :: els)) with (e ++ slash :: join_slash (e' :: els)).
  rewrite <- app_assoc. cbn [app]. rewrite split_cons_slash by done. by rewrite IH.
Qed.

Lemma join_slash_app els els' : els <> [] -> els' <> [] ->
  join_slash (els ++ els') = join_slash els ++ slash :: join_slash els'.
Proof.
  induction els as [|e els IH]; intros H H'; [done|]. destruct els as [|e' els]; [by destruct els'|].
  change (join_slash ((e :: e' :: els) ++ els')) with (e ++ slash :: join_slash ((e' :: els) ++ els')).
  change (join_slash (e :: e' :: els)) with (e ++ slash :: join_slash (e' :: els)).
  rewrite IH by done. by rewrite <- app_assoc.
Qed.

Lemma names_no_slash els : Forall name_ok els -> Forall (fun e => slash ∉ e) els.
Proof. intros Hf. eapply Forall_impl; [exact Hf|]. by intros e (_ & _ & _ & ?). Qed.

(** Cleaning drops a slash at the end. *)
Lemma Clean_slash els : els <> [] -> Forall name_ok els -> Clean (join_slash els ++ [slash]) = join_slash els.
Proof.
  intros Hne Hf. unfold Clean.
  assert (Ha : IsAbs (join_slash els ++ [slash]) = false).
  { pose proof (join_slash_not_abs els Hne Hf). pose proof (join_slash_not_nil els Hne Hf).
    by destruct (join_slash els). }
  rewrite Ha, split_join_slash by (done || by apply names_no_slash).
  unfold clean_els. rewrite foldl_app. cbn [foldl].
  change (clean_step false ?k []) with k.
  change (reverse (foldl (clean_step false) [] els)) with (clean_els false els).
  rewrite clean_els_names by done. cbn [app]. by rewrite bool_decide_false by (by apply join_slash_not_nil).
Qed.

(** The directory and the last element of a path of names. *)
Lemma Dir_names els e : Forall name_ok els -> name_ok e ->
  Dir (join_slash (els ++ [e])) = if bool_decide (els = []) then [dot] else join_slash els.
Proof.
  intros Hf He. unfold Dir. rewrite split_join.
  - rewrite length_app. cbn [length]. case_bool_decide as Hl.
    + destruct els; [done|]. cbn in Hl. lia.
    + rewrite bool_decide_false by (by intros ->). rewrite take_app_length' by lia.
      apply Clean_slash; [by intros ->|done].
  - by destruct els.
  - apply Forall_app. split; [by apply names_no_slash|]. apply Forall_singleton. apply He.
Qed.

Lemma trim_right_last c l x : x <> c -> trim_right c (l ++ [x]) = l ++ [x].
Proof.
  intros H. unfold trim_right. rewrite reverse_app. change (reverse [x]) with [x]. cbn [app trim_left].
  rewrite (proj2 (Z.eqb_neq x c)) by done. by rewrite reverse_cons, reverse_involutive.
Qed.

Lemma Base_names els e : Forall name_ok els -> name_ok e -> Base (join_slash (els ++ [e])) = e.
Proof.
  intros Hf (He & H1 & H2 & Hs). unfold Base, path_base.
  assert (Hall : Forall name_ok (els ++ [e])) by (apply Forall_app; split; [done|by apply Forall_singleton]).
  assert (Hne : els ++ [e] <> []) by (by destruct els).
  rewrite bool_decide_false by (by apply join_slash_not_nil).
  assert (Htr : trim_right slash (join_slash (els ++ [e])) = join_slash (els ++ [e])).
  { destruct (exists_last He) as (e' & x & ->).
    assert (Hx : x <> slash) by (intros ->; apply Hs; apply elem_of_app; right; by apply list_elem_of_singleton).
    destruct els as [|a els]; [by apply trim_right_last|].
    rewrite join_slash_snoc, app_assoc, app_assoc by done. by apply trim_right_last. }
  rewrite Htr. destruct (join_slash (els ++ [e])) as [|z zs] eqn:E; [by apply join_slash_not_nil in E|].
  rewrite <- E, split_join by (done || by apply names_no_slash). by rewrite last_snoc.
Qed.
