(* ===== verification/Tree.v ===== *)
(** The assembled install-set tree ([internal/vfs/tree.go], [generated.go]) and
    the one operation that grows it, [mergeChild] of [build.go].

    A tree is the map of its nodes by their path from the root, an element per
    step: the node at [p ++ [c]] is the entry [c] of [children] of the node at
    [p]. The file systems a tree is built from are records of what [io/fs] gives
    for them ([Source]). *)
From S2P Require Import Prelude Efs Path.

(** ** What [io/fs] gives *)

(** What a source reports: an EFS image its own errors, a directory of the host
    whatever the host says. *)
Inductive src_err :=
| ImageErr (e : Efs.view_error)
| ImageReadErr (e : Efs.error)
| HostErr (code : Z).

(** [fs.FileMode] bits. *)
Definition ModeDir : Z := 2 ^ 31.
Definition ModeSymlink : Z := 2 ^ 27.
Definition ModeDevice : Z := 2 ^ 26.
Definition ModeNamedPipe : Z := 2 ^ 25.
Definition ModeSocket : Z := 2 ^ 24.
Definition ModeSetuid : Z := 2 ^ 23.
Definition ModeSetgid : Z := 2 ^ 22.
Definition ModeCharDevice : Z := 2 ^ 21.
Definition ModeSticky : Z := 2 ^ 20.
Definition ModeIrregular : Z := 2 ^ 19.
Definition ModeType : Z :=
  Z.lor ModeDir (Z.lor ModeSymlink (Z.lor ModeNamedPipe (Z.lor ModeSocket
    (Z.lor ModeDevice (Z.lor ModeCharDevice ModeIrregular))))).
Definition ModePerm : Z := 0x1ff.

(** [fs.FileInfo]; [isys] is the [*efs.Stat] an image's [Sys()] gives. *)
Record info := MkFI { imode : Z; isize : Z; imtime : Z; isys : option Efs.Stat_t }.

Definition has_mode (m bit : Z) : bool := negb (Z.land m bit =? 0).
Definition IsDir (i : info) : bool := has_mode (imode i) ModeDir.
Definition IsSymlink (i : info) : bool := has_mode (imode i) ModeSymlink.
Definition IsRegular (i : info) : bool := Z.land (imode i) ModeType =? 0.

(** [fs.DirEntry]: [Info] can fail. *)
Record dirent := MkDirent { dname : bytes; dinfo : outcome src_err info }.

(** An opened file: [ReadAt] into a buffer of the given length. *)
Definition handle : Type := Z -> Z -> outcome src_err (bytes * option io_err).

(** A source; [s_open] gives [None] for a file without random access. *)
Record Source := MkSource {
  s_stat : bytes -> outcome src_err info;
  s_readdir : bytes -> outcome src_err (list dirent);
  s_readlink : bytes -> outcome src_err bytes;
  s_open : bytes -> outcome src_err (option handle);
}.

(** ** Nodes *)

Inductive OriginKind := OriginUnknown | OriginImage | OriginDirectory | OriginGenerated.

#[export] Instance OriginKind_eq_dec : EqDecision OriginKind.
Proof. solve_decision. Defined.

Record Origin_t := MkOrigin { Kind : OriginKind; Source_ : bytes; Path_ : bytes }.

Definition zeroOrigin : Origin_t := MkOrigin OriginUnknown [] [].

(** [OriginKind.String]. *)
Definition kind_String (k : OriginKind) : bytes :=
  match k with
  | OriginImage => str "image"
  | OriginDirectory => str "directory"
  | OriginGenerated => str "generated"
  | OriginUnknown => str "unknown"
  end.

(** [ino] is zero until a number is assigned; the zero [time.Time] is [None]. *)
Record node := MkNode {
  n_name : bytes;
  n_dir : bool;
  n_ino : Z;
  n_origin : Origin_t;
  n_perm : Z;
  n_size : Z;
  n_mtime : option Z;
  n_uid : Z;
  n_gid : Z;
  n_nlink : Z;
  n_fsys : option Source;
  n_data : bytes;
}.

Definition with_ino (i : Z) (n : node) : node :=
  MkNode (n_name n) (n_dir n) i (n_origin n) (n_perm n) (n_size n) (n_mtime n) (n_uid n) (n_gid n)
    (n_nlink n) (n_fsys n) (n_data n).

Definition newDir (name : bytes) (origin : Origin_t) : node :=
  MkNode name true 0 origin 0 512 None 0 0 2 None [].

(** A path from the root. *)
Abbreviation tpath := (list bytes).
Abbreviation nodes := (gmap (list bytes) node).

(** [io.Closer]: which one, and what [Close] reports. *)
Record Closer := MkCloser { c_id : Z; c_err : option src_err }.

Record Tree := MkTree { t_nodes : nodes; t_closers : list Closer; t_nextIno : Z }.

(** ** Errors *)

Inductive error :=
| SourceErr (e : src_err)
| NoRandomAccess (path : bytes)
| KindMismatch (logical : bytes)
| Disagree (logical : bytes) (a b : bytes)
| NoSetName
| SetTwice (name : bytes)
| DuplicateLayer (name : bytes)
| BadReplacement
| NoLayerName
| NoSource
| NotRelative (dir : bytes)
| SrcNotDirectory (dir : bytes)
| NoStand (e : src_err)
| TooManyLinks (name : bytes)
| LinkUnresolved (name : bytes) (e : src_err)
| LinkUnreadable (name : bytes) (e : src_err)
| LinkToDirectory (name : bytes)
| LinkToSpecial (name : bytes) (mode : Z)
| WinnerNoFile (winner p : bytes)
| WinnerElsewhere (winner p from : bytes)
| BadGeneratedName (name : bytes)
| ServedDirectory (name : bytes)
| ReadErr (e : io_err)
| Stuck (s : stuck).

(** A source's error, as it is. *)
Definition lift {A} (m : outcome src_err A) : outcome error A :=
  match m with Ok a => Ok a | Err e => Err (SourceErr e) | Panic => Panic end.

(** ** Lookup *)

(** The entries of the directory at [p], sorted. *)
Definition child_name (p q : tpath) : option bytes :=
  match last q with
  | Some c => if bool_decide (q = p ++ [c]) then Some c else None
  | None => None
  end.


Definition sortedNames (ns : nodes) (p : tpath) : list bytes :=
  merge_sort bytes_le (omap (child_name p) ((map_to_list ns).*1)).

Fixpoint lookup_from (ns : nodes) (p : tpath) (parts : list bytes) : option (tpath * node) :=
  match ns !! p with
  | None => None
  | Some n =>
      match parts with
      | [] => Some (p, n)
      | part :: parts => if n_dir n then lookup_from ns (p ++ [part]) parts else None
      end
  end.

Definition lookup (ns : nodes) (name : bytes) : option (tpath * node) :=
  if bool_decide (name = [dot]) then lookup_from ns [] []
  else lookup_from ns [] (split_byte slash name).

Inductive find_err := FErrInvalid | FErrNotExist | FErrNotDir | FErrOpen (e : error).

Definition find (t : Tree) (name : bytes) : outcome find_err (tpath * node) :=
  if negb (ValidPath name) then Err FErrInvalid
  else match lookup (t_nodes t) name with
       | None => Err FErrNotExist
       | Some r => Ok r
       end.

(** [fileInfo]: what [Stat] and a listing report of a node. *)
Record fileInfo := MkFileInfo {
  Name : bytes; Size : Z; Mode : Z; ModTime : option Z;
  MIno : Z; MUID : Z; MGID : Z; MNlink : Z; MOrigin : Origin_t;
}.

Definition fileInfo_of (n : node) : fileInfo :=
  MkFileInfo (n_name n) (n_size n) (if n_dir n then Z.lor ModeDir 0x1ed else n_perm n) (n_mtime n)
    (n_ino n) (n_uid n) (n_gid n) (n_nlink n) (n_origin n).

Definition entries (ns : nodes) (p : tpath) : list fileInfo :=
  omap (fun c => fileInfo_of <$> ns !! (p ++ [c])) (sortedNames ns p).

Definition ReadDir (t : Tree) (name : bytes) : outcome find_err (list fileInfo) :=
  '(p, n) ← find t name;
  if negb (n_dir n) then Err FErrNotDir else Ok (entries (t_nodes t) p).

Definition Stat (t : Tree) (name : bytes) : outcome find_err fileInfo :=
  '(p, n) ← find t name; Ok (fileInfo_of n).

Definition Resolve (t : Tree) (name : bytes) : outcome find_err Origin_t :=
  '(p, n) ← find t name; Ok (n_origin n).

(** ** Opening *)

(** [bytes.Reader.ReadAt]. *)
Definition mem_handle (data : bytes) : handle := fun off n => Ok (image_reader data off n).

Definition openRegular (n : node) : outcome error handle :=
  if bool_decide (Kind (n_origin n) = OriginGenerated) then Ok (mem_handle (n_data n))
  else match n_fsys n with
       | None => Panic  (* nil fs.FS *)
       | Some fsys =>
           f ← lift (s_open fsys (Path_ (n_origin n)));
           match f with
           | None => Err (NoRandomAccess (Path_ (n_origin n)))
           | Some h => Ok h
           end
       end.

(** An opened path: a directory lists the snapshot taken at open. *)
Inductive File :=
| dirFile (i : fileInfo) (ents : list fileInfo) (off : Z)
| regular (i : fileInfo) (h : handle).

Definition Open (t : Tree) (name : bytes) : outcome find_err File :=
  '(p, n) ← find t name;
  if n_dir n then Ok (dirFile (fileInfo_of n) (entries (t_nodes t) p) 0)
  else match openRegular n with
       | Ok h => Ok (regular (fileInfo_of n) h)
       | Err e => Err (FErrOpen e)
       | Panic => Panic
       end.

(** [dirFile.ReadDir(count)]: the entries or [io.EOF], and the new offset. *)
Definition dirFile_ReadDir (ents : list fileInfo) (off count : Z) : (list fileInfo + io_err) * Z :=
  let rest := drop (Z.to_nat off) ents in
  if count <=? 0 then (inl rest, zlen ents)
  else if zlen rest =? 0 then (inr EOF, off)
  else
    let count := if zlen rest <? count then zlen rest else count in
    (inl (take (Z.to_nat count) rest), off + count).

(** [Tree.Close]: the closers called, in order, and the first error. *)
Definition Close (t : Tree) : option src_err * Tree :=
  (head (omap c_err (t_closers t)), MkTree (t_nodes t) [] (t_nextIno t)).

(** ** Numbering *)

(** The nodes in the order [number] walks them. *)
Fixpoint preorder (fuel : nat) (ns : nodes) (p : tpath) : list tpath :=
  match fuel with
  | O => []
  | S fuel => p :: (sortedNames ns p ≫= fun c => preorder fuel ns (p ++ [c]))
  end.

(** The longest path, and one more. *)
Definition depth (ns : nodes) : nat := S (foldr Nat.max 0%nat (length <$> (map_to_list ns).*1)).

Definition assign (st : nodes * Z) (p : tpath) : nodes * Z :=
  let '(ns, next) := st in
  match ns !! p with
  | Some n => if n_ino n =? 0 then (<[p := with_ino next n]> ns, u64 (next + 1)) else st
  | None => st
  end.

Definition number (t : Tree) : Tree :=
  let next := if t_nextIno t <? Efs.RootIno then Efs.RootIno else t_nextIno t in
  let '(ns, next) := foldl assign (t_nodes t, next) (preorder (depth (t_nodes t)) (t_nodes t) []) in
  MkTree ns (t_closers t) next.

(** ** Growing the tree *)

Definition compareBlock : Z := 65536.

(** [readFullAt]: the bytes of [p], filled from [off]; a reader that gives
    nothing and no error is asked forever. *)
Fixpoint readFullAt (fuel : nat) (h : handle) (want off : Z) : outcome error bytes :=
  if want <=? 0 then Ok []
  else match fuel with
  | O => Err (Stuck OutOfFuel)
  | S fuel =>
      '(d, err) ← lift (h off want);
      let n := zlen d in
      if want <? n then Panic
      else match err with
      | Some e => if bool_decide (e = EOF) && (want - n =? 0) then Ok d else Err (ReadErr e)
      | None => rest ← readFullAt fuel h (want - n) (off + n); Ok (d ++ rest)
      end
  end.

Definition read_fuel (want : Z) : nat := S (Z.to_nat want).

(** The loop of [sameContent] over [blocks] blocks. *)
Fixpoint same_blocks (blocks : nat) (a b : handle) (size off : Z) : outcome error bool :=
  match blocks with
  | O => Ok true
  | S blocks =>
      if size <=? off then Ok true
      else
        let n := Z.min compareBlock (size - off) in
        da ← readFullAt (read_fuel n) a n off;
        db ← readFullAt (read_fuel n) b n off;
        if bool_decide (da = db) then same_blocks blocks a b size (off + n) else Ok false
  end.

Definition sameContent (a b : node) : outcome error bool :=
  if negb (n_size a =? n_size b) then Ok false
  else
    ha ← openRegular a;
    hb ← openRegular b;
    same_blocks (Z.to_nat ((n_size a + compareBlock - 1) / compareBlock)) ha hb (n_size a) 0.

(** [mergeChild]: the nodes, and the path of the one that won. *)
Definition mergeChild (ns : nodes) (parent : tpath) (cand : node) (logical : bytes)
    (collisions replacements : gmap bytes bytes) : outcome error (nodes * tpath) :=
  let p := parent ++ [n_name cand] in
  match ns !! p with
  | None => Ok (<[p := cand]> ns, p)
  | Some old =>
      if negb (Bool.eqb (n_dir old) (n_dir cand)) then Err (KindMismatch logical)
      else if n_dir old then Ok (ns, p)
      else
        let winner := default [] (collisions !! logical) in
        if negb (bool_decide (winner = [])) then
          if bool_decide (Source_ (n_origin cand) = winner) then Ok (<[p := cand]> ns, p)
          else Ok (ns, p)
        else if bool_decide (default [] (replacements !! Source_ (n_origin old)) = Source_ (n_origin cand))
        then Ok (<[p := cand]> ns, p)
        else
          same ← sameContent old cand;
          if (same : bool) then Ok (ns, p)
          else Err (Disagree logical (Source_ (n_origin old)) (Source_ (n_origin cand)))
  end.

(** [ensureDir]: the nodes, changed up to an error, and the directory. *)
Fixpoint ensure_parts (ns : nodes) (p : tpath) (seen : bytes) (parts : list bytes) (origin : Origin_t)
    : nodes * outcome error tpath :=
  match parts with
  | [] => (ns, Ok p)
  | part :: parts =>
      let seen := Join seen part in
      match mergeChild ns p (newDir part origin) seen ∅ ∅ with
      | Ok (ns, p) => ensure_parts ns p seen parts origin
      | Err e => (ns, Err e)
      | Panic => (ns, Panic)
      end
  end.

Definition ensureDir (ns : nodes) (logical : bytes) (origin : Origin_t) : nodes * outcome error tpath :=
  if bool_decide (logical = [dot]) then (ns, Ok [])
  else ensure_parts ns [] [] (split_byte slash logical) origin.

(** ** Generated files *)

Definition generated_node (name generator content : bytes) (ino : Z) : node :=
  MkNode name false ino (MkOrigin OriginGenerated generator []) 0x124 (zlen content) None 0 0 1 None content.

Definition AddGenerated (t : Tree) (name generator content : bytes) : outcome error unit * Tree :=
  if negb (ValidPath name) || bool_decide (name = [dot]) then (Err (BadGeneratedName name), t)
  else
    let '(ns, parent) := ensureDir (t_nodes t) (Dir name) (MkOrigin OriginGenerated generator []) in
    let grown ns := MkTree ns (t_closers t) (t_nextIno t) in
    match parent with
    | Err e => (Err e, grown ns)
    | Panic => (Panic, grown ns)
    | Ok parent =>
        let base := Base name in
        let p := parent ++ [base] in
        match ns !! p with
        | Some n =>
            if n_dir n then (Err (ServedDirectory name), grown ns)
            else (Ok tt, number (grown (<[p := generated_node base generator content (n_ino n)]> ns)))
        | None => (Ok tt, number (grown (<[p := generated_node base generator content 0]> ns)))
        end
    end.

(** ** Well-formed trees *)

(** There is a root directory, and what is in the tree is in a directory of it,
    under its own name. *)
Record wf (ns : nodes) : Prop := {
  wf_root : exists r, ns !! [] = Some r /\ n_dir r = true;
  wf_child : forall p c n, ns !! (p ++ [c]) = Some n ->
    n_name n = c /\ exists d, ns !! p = Some d /\ n_dir d = true;
}.

Lemma child_name_Some p q c : child_name p q = Some c <-> q = p ++ [c].
Proof.
  unfold child_name. split.
  - destruct (last q) as [x|]; [|done]. case_bool_decide; [|done]. by intros [= ->].
  - intros ->. rewrite last_snoc. by rewrite bool_decide_true.
Qed.

Lemma elem_sortedNames ns p c : c ∈ sortedNames ns p <-> is_Some (ns !! (p ++ [c])).
Proof.
  unfold sortedNames. rewrite merge_sort_Permutation, list_elem_of_omap. split.
  - intros (q & ((q' & n) & -> & Hq%elem_of_map_to_list)%list_elem_of_fmap & Hc%child_name_Some).
    cbn in *. subst. eauto.
  - intros [n Hn]. exists (p ++ [c]). split; [|by apply child_name_Some].
    apply list_elem_of_fmap. exists (p ++ [c], n). split; [done|]. by apply elem_of_map_to_list.
Qed.

Lemma NoDup_sortedNames ns p : NoDup (sortedNames ns p).
Proof.
  unfold sortedNames. rewrite merge_sort_Permutation.
  pose proof (NoDup_fst_map_to_list ns) as Hnd. revert Hnd.
  generalize ((map_to_list ns).*1) as l. intros l. induction l as [|q l IH]; intros Hnd; [constructor|].
  inv Hnd. cbn. destruct (child_name p q) as [c|] eqn:E; [|by apply IH].
  constructor; [|by apply IH]. rewrite list_elem_of_omap. intros (q' & Hq' & E').
  apply child_name_Some in E, E'. congruence.
Qed.

Lemma sortedNames_sorted ns p : Sorted bytes_le (sortedNames ns p).
Proof. apply Sorted_merge_sort. intros a b. unfold bytes_le. apply bytes_leb_total. Qed.

(** A lookup is a lookup in the map. *)
Lemma lookup_from_wf ns p parts : wf ns ->
  lookup_from ns p parts = (fun n => (p ++ parts, n)) <$> ns !! (p ++ parts).
Proof.
  intros Hw. revert p. induction parts as [|part parts IH]; intros p; cbn.
  - rewrite app_nil_r. by destruct (ns !! p).
  - assert (Hpre : forall q r n, ns !! (q ++ r) = Some n -> r <> [] ->
      exists d, ns !! q = Some d /\ n_dir d = true).
    { intros q r. induction r as [|c r IHr] using rev_ind; intros n Hn Hr; [done|].
      rewrite app_assoc in Hn. destruct (wf_child _ Hw _ _ _ Hn) as (_ & d & Hd & Hdir).
      destruct (decide (r = [])) as [->|]; [rewrite app_nil_r in Hd; eauto|by eapply IHr]. }
    replace (p ++ part :: parts) with ((p ++ [part]) ++ parts) by (by rewrite <- app_assoc).
    destruct (ns !! p) as [d|] eqn:Hp.
    + destruct (n_dir d) eqn:Hd; [by apply IH|].
      destruct (ns !! ((p ++ [part]) ++ parts)) as [n|] eqn:E; [|done].
      rewrite <- app_assoc in E. apply Hpre in E as (? & ? & ?); [congruence|done].
    + destruct (ns !! ((p ++ [part]) ++ parts)) as [n|] eqn:E; [|done].
      rewrite <- app_assoc in E. apply Hpre in E as (? & ? & ?); [congruence|done].
Qed.

Definition path_of (name : bytes) : tpath :=
  if bool_decide (name = [dot]) then [] else split_byte slash name.

Lemma lookup_wf ns name : wf ns -> lookup ns name = (fun n => (path_of name, n)) <$> ns !! path_of name.
Proof. intros Hw. unfold lookup, path_of. case_bool_decide; by rewrite lookup_from_wf. Qed.

(** ** [mergeChild] keeps a tree well formed, and what is in it there *)

(** The paths of [ns] are in [ns'], directories as directories and files as
    files. *)
Definition grows (ns ns' : nodes) : Prop :=
  forall p n, ns !! p = Some n -> exists n', ns' !! p = Some n' /\ n_dir n' = n_dir n.

#[export] Instance grows_po : PreOrder grows.
Proof.
  split; [intros ns p n Hn; eauto|]. intros a b c Hab Hbc p n Hn.
  destruct (Hab _ _ Hn) as (n' & Hn' & <-). by apply Hbc.
Qed.

Lemma grows_insert ns p n : (forall o, ns !! p = Some o -> n_dir o = n_dir n) -> grows ns (<[p := n]> ns).
Proof.
  intros H q m Hq. destruct (decide (q = p)) as [->|].
  - exists n. rewrite lookup_insert_eq. split; [done|]. symmetry. by apply H.
  - exists m. by rewrite lookup_insert_ne.
Qed.

Lemma wf_insert ns p n : wf ns -> (exists d, ns !! p = Some d /\ n_dir d = true) ->
  (forall o, ns !! (p ++ [n_name n]) = Some o -> n_dir o = n_dir n) ->
  wf (<[p ++ [n_name n] := n]> ns).
Proof.
  intros Hw Hp Ho. split.
  - destruct (wf_root _ Hw) as (r & Hr & Hd). exists r. rewrite lookup_insert_ne by (by destruct p). done.
  - intros q c m Hm.
    destruct (decide (q ++ [c] = p ++ [n_name n])) as [E|Hne].
    + apply app_inj_2 in E as [-> [= ->]]; [|done]. rewrite lookup_insert_eq in Hm. injection Hm as <-.
      split; [done|]. destruct Hp as (d & Hd & Hdir).
      destruct (grows_insert ns _ n Ho _ _ Hd) as (d' & Hd' & E). exists d'. by rewrite E.
    + rewrite lookup_insert_ne in Hm by done. destruct (wf_child _ Hw _ _ _ Hm) as (Hn & d & Hd & Hdir).
      split; [done|]. destruct (grows_insert ns _ n Ho _ _ Hd) as (d' & Hd' & E). exists d'. by rewrite E.
Qed.

(** What [mergeChild] does: nothing but put the candidate at its path, over a
    file if it is one. *)
Lemma mergeChild_cases ns parent cand logical cs rs ns' p :
  mergeChild ns parent cand logical cs rs = Ok (ns', p) ->
  p = parent ++ [n_name cand] /\
  (ns' = <[p := cand]> ns /\ (forall o, ns !! p = Some o -> n_dir o = false /\ n_dir cand = false) \/
   ns' = ns /\ exists o, ns !! p = Some o /\ n_dir o = n_dir cand).
Proof.
  unfold mergeChild. destruct (ns !! _) as [old|] eqn:Hold.
  - destruct (Bool.eqb (n_dir old) (n_dir cand)) eqn:Ed; cbn; [|done]. apply eqb_prop in Ed.
    destruct (n_dir old) eqn:Hd; [intros [= <- <-]; split; [done|]; right; eauto with congruence|].
    destruct (negb _); [destruct (bool_decide _); intros [= <- <-]|destruct (bool_decide _)];
      [ | |intros [= <- <-]|destruct (sameContent old cand) as [[]| |]; cbn; try done; intros [= <- <-]];
      (split; [done|]); try (by right; eauto with congruence); left; (split; [done|]);
      rewrite Hold; intros o [= <-]; by rewrite Hd.
  - intros [= <- <-]. split; [done|]. left. split; [done|]. by rewrite Hold.
Qed.

Lemma mergeChild_wf ns parent cand logical cs rs ns' p :
  mergeChild ns parent cand logical cs rs = Ok (ns', p) ->
  wf ns -> (exists d, ns !! parent = Some d /\ n_dir d = true) ->
  wf ns' /\ grows ns ns' /\ exists n, ns' !! p = Some n /\ n_dir n = n_dir cand.
Proof.
  intros Hm Hw Hp. apply mergeChild_cases in Hm as (-> & [(-> & Ho)|(-> & o & Ho & Hd)]).
  - assert (Ho' : forall o, ns !! (parent ++ [n_name cand]) = Some o -> n_dir o = n_dir cand)
      by (intros o Heq; destruct (Ho _ Heq); congruence).
    split_and!; [by apply wf_insert|by apply grows_insert|]. exists cand. by rewrite lookup_insert_eq.
  - split_and!; [done|done|eauto].
Qed.

(** ** The walk of [number] *)

Lemma elem_preorder fuel ns p q : wf ns -> is_Some (ns !! p) ->
  q ∈ preorder fuel ns p <-> exists r, q = p ++ r /\ is_Some (ns !! q) /\ (length r < fuel)%nat.
Proof.
  intros Hw. revert p. induction fuel as [|fuel IH]; intros p Hp.
  - split; [by intros ?%elem_of_nil|]. intros (r & _ & _ & ?). lia.
  - cbn [preorder]. rewrite elem_of_cons, list_elem_of_bind. split.
    + intros [->|(c & Hq & Hc%elem_sortedNames)].
      * exists []. rewrite app_nil_r. cbn. split_and!; [done|done|lia].
      * apply IH in Hq as (r & -> & Hs & Hl); [|done]. exists (c :: r). rewrite <- app_assoc in *. cbn.
        split_and!; [done|done|lia].
    + intros (r & -> & Hs & Hl). destruct r as [|c r]; [left; by rewrite app_nil_r|right].
      assert (Hc : is_Some (ns !! (p ++ [c]))).
      { clear - Hw Hs. replace (p ++ c :: r) with ((p ++ [c]) ++ r) in Hs by (by rewrite <- app_assoc).
        revert Hs. generalize (p ++ [c]) as k. intros k. induction r as [|x r IHr] using rev_ind; intros Hs.
        - by rewrite app_nil_r in Hs.
        - apply IHr. destruct Hs as [n Hn]. rewrite app_assoc in Hn.
          destruct (wf_child _ Hw _ _ _ Hn) as (_ & d & Hd & _). eauto. }
      exists c. split; [|by apply elem_sortedNames]. apply IH; [done|].
      exists r. rewrite <- app_assoc. cbn in *. split_and!; [done|done|lia].
Qed.

Lemma NoDup_preorder fuel ns p : wf ns -> is_Some (ns !! p) -> NoDup (preorder fuel ns p).
Proof.
  intros Hw. revert p. induction fuel as [|fuel IH]; intros p Hp; [constructor|]. cbn [preorder].
  assert (Hc : forall c, c ∈ sortedNames ns p -> is_Some (ns !! (p ++ [c]))) by (by intros c ?%elem_sortedNames).
  constructor.
  - rewrite list_elem_of_bind. intros (c & Hq & Hin).
    apply elem_preorder in Hq as (r & E & _); [|done|by apply Hc].
    apply (f_equal length) in E. rewrite !length_app in E. cbn in E. lia.
  - apply NoDup_bind; [|intros c Hin; by apply IH, Hc|apply NoDup_sortedNames].
    intros c d q Hcin Hdin Hq Hq'.
    apply elem_preorder in Hq as (r & -> & _); [|done|by apply Hc].
    apply elem_preorder in Hq' as (r' & E & _); [|done|by apply Hc].
    rewrite <- !app_assoc in E. apply (inj (app p)) in E. cbn in E. congruence.
Qed.

Lemma length_lt_depth ns p : is_Some (ns !! p) -> (length p < depth ns)%nat.
Proof.
  intros [n Hn]. unfold depth. apply Nat.lt_succ_r.
  assert (Hin : p ∈ (map_to_list ns).*1).
  { apply list_elem_of_fmap. exists (p, n). split; [done|]. by apply elem_of_map_to_list. }
  revert Hin. generalize ((map_to_list ns).*1) as l. induction l as [|q l IH]; intros Hin; [by apply elem_of_nil in Hin|].
  cbn. apply elem_of_cons in Hin as [->|Hin]; [lia|]. specialize (IH Hin). lia.
Qed.

(** The walk meets every node once. *)
Lemma walk_all ns p : wf ns -> p ∈ preorder (depth ns) ns [] <-> is_Some (ns !! p).
Proof.
  intros Hw. destruct (wf_root _ Hw) as (r & Hr & _).
  rewrite elem_preorder by (done || (rewrite Hr; eauto)). split; [by intros (? & -> & ? & _)|].
  intros Hp. exists p. split_and!; [done|done|]. by apply length_lt_depth.
Qed.

Lemma walk_length ns : wf ns -> length (preorder (depth ns) ns []) = base.size ns.
Proof.
  intros Hw. rewrite <- size_dom.
  assert (E : dom ns = list_to_set (C := gset (list bytes)) (preorder (depth ns) ns [])).
  { apply set_eq. intros p. by rewrite elem_of_list_to_set, walk_all, elem_of_dom. }
  destruct (wf_root _ Hw) as (r & Hr & _).
  rewrite E, size_list_to_set; [done|]. apply NoDup_preorder; [done|]. rewrite Hr. eauto.
Qed.

(** Every number in use is below [next], and names one node. *)
Record inos_ok (ns : nodes) (next : Z) : Prop := {
  ino_range : forall p n, ns !! p = Some n -> n_ino n <> 0 -> Efs.RootIno <= n_ino n < next;
  ino_inj : forall p q n m, ns !! p = Some n -> ns !! q = Some m -> n_ino n <> 0 ->
    n_ino n = n_ino m -> p = q;
}.

(** The same nodes, those that had a number with it, those of [l] with one. *)
Definition renumbered (l : list tpath) (ns ns' : nodes) : Prop := forall p,
  match ns !! p with
  | None => ns' !! p = None
  | Some n => exists i, ns' !! p = Some (with_ino i n) /\ (n_ino n <> 0 -> i = n_ino n) /\ (p ∈ l -> i <> 0)
  end.

Lemma with_ino_same n : with_ino (n_ino n) n = n.
Proof. by destruct n. Qed.

Lemma foldl_assign l ns next ns' next' : foldl assign (ns, next) l = (ns', next') ->
  inos_ok ns next -> Efs.RootIno <= next -> next + zlen l < 2 ^ 64 ->
  inos_ok ns' next' /\ next <= next' <= next + zlen l /\ renumbered l ns ns'.
Proof.
  revert ns next. induction l as [|p l IH]; intros ns next Hf Hok Hn Hb.
  - cbn in Hf. injection Hf as <- <-. split_and!; [done|lia|autorewrite with zlen; lia|].
    intros p. destruct (ns !! p) as [n|] eqn:E; [|done]. exists (n_ino n).
    rewrite with_ino_same. split_and!; [done|done|by intros ?%elem_of_nil].
  - autorewrite with zlen in Hb. pose proof (zlen_nonneg l) as Hl. cbn [foldl] in Hf.
    destruct (ns !! p) as [n|] eqn:Hp.
    2:{ replace (assign (ns, next) p) with (ns, next) in Hf by (cbn; by rewrite Hp).
        destruct (IH _ _ Hf Hok Hn ltac:(lia)) as (H1 & H2 & H3). autorewrite with zlen.
        split_and!; [done|lia|lia|]. intros q. specialize (H3 q). destruct (ns !! q) as [m|] eqn:Hq; [|done].
        destruct H3 as (i & Hi & Hi' & Hl'). exists i. split_and!; [done|done|].
        intros [->|Hin]%elem_of_cons; [congruence|by apply Hl']. }
    destruct (decide (n_ino n = 0)) as [H0|H0].
    + replace (assign (ns, next) p) with (<[p := with_ino next n]> ns, next + 1) in Hf
        by (cbn; rewrite Hp, H0; cbn; by rewrite u64_small by (unfold Efs.RootIno in *; lia)).
      assert (Hok' : inos_ok (<[p := with_ino next n]> ns) (next + 1)).
      { split.
        - intros q m Hq Hm. destruct (decide (q = p)) as [->|].
          + rewrite lookup_insert_eq in Hq. injection Hq as <-. cbn. lia.
          + rewrite lookup_insert_ne in Hq by done. pose proof (ino_range _ _ Hok _ _ Hq Hm). lia.
        - intros q q' m m' Hq Hq' Hm E.
          destruct (decide (q = p)) as [->|]; destruct (decide (q' = p)) as [->|]; [done| | |].
          + rewrite lookup_insert_eq in Hq. rewrite lookup_insert_ne in Hq' by done.
            injection Hq as <-. cbn in *. pose proof (ino_range _ _ Hok _ _ Hq' ltac:(congruence)). lia.
          + rewrite lookup_insert_eq in Hq'. rewrite lookup_insert_ne in Hq by done.
            injection Hq' as <-. cbn in *. pose proof (ino_range _ _ Hok _ _ Hq Hm). lia.
          + rewrite lookup_insert_ne in Hq, Hq' by done. by eapply (ino_inj _ _ Hok q q'). }
      destruct (IH _ _ Hf Hok' ltac:(lia) ltac:(lia)) as (H1 & H2 & H3). autorewrite with zlen.
      split_and!; [done|lia|lia|]. intros q. specialize (H3 q).
      destruct (decide (q = p)) as [->|Hne].
      * rewrite lookup_insert_eq in H3. rewrite Hp. destruct H3 as (i & Hi & Hi' & _).
        assert (i = next) as -> by (apply Hi'; cbn; unfold Efs.RootIno in Hn; lia).
        exists next. split_and!; [by rewrite Hi|by intros []|]. unfold Efs.RootIno in Hn. lia.
      * rewrite lookup_insert_ne in H3 by done. destruct (ns !! q) as [m|]; [|done].
        destruct H3 as (i & Hi & Hi' & Hl'). exists i. split_and!; [done|done|].
        intros [->|Hin]%elem_of_cons; [done|by apply Hl'].
    + replace (assign (ns, next) p) with (ns, next) in Hf
        by (cbn; rewrite Hp; by rewrite (proj2 (Z.eqb_neq (n_ino n) 0))).
      destruct (IH _ _ Hf Hok Hn ltac:(lia)) as (H1 & H2 & H3). autorewrite with zlen.
      split_and!; [done|lia|lia|]. intros q. specialize (H3 q). destruct (ns !! q) as [m|] eqn:Hq; [|done].
      destruct H3 as (i & Hi & Hi' & Hl'). exists i. split_and!; [done|done|].
      intros [->|Hin]%elem_of_cons; [|by apply Hl']. rewrite Hq in Hp. injection Hp as ->. rewrite Hi' by done. done.
Qed.

Lemma renumbered_wf l ns ns' : renumbered l ns ns' -> wf ns -> wf ns'.
Proof.
  intros Hr Hw. split.
  - destruct (wf_root _ Hw) as (r & Hroot & Hd). specialize (Hr []). rewrite Hroot in Hr.
    destruct Hr as (i & -> & _). eauto.
  - intros p c n Hn. pose proof (Hr (p ++ [c])) as Hc. destruct (ns !! (p ++ [c])) as [m|] eqn:Hm; [|congruence].
    destruct Hc as (i & Hi & _). rewrite Hn in Hi. injection Hi as ->.
    destruct (wf_child _ Hw _ _ _ Hm) as (Hname & d & Hd & Hdir). split; [done|].
    specialize (Hr p). rewrite Hd in Hr. destruct Hr as (j & Hj & _). eauto.
Qed.

(** A tree that can be numbered: well formed, its numbers in order, and room for
    one per node. *)
Record numberable (t : Tree) : Prop := {
  nb_wf : wf (t_nodes t);
  nb_ok : inos_ok (t_nodes t) (t_nextIno t);
  nb_room : Z.max Efs.RootIno (t_nextIno t) + Z.of_nat (base.size (t_nodes t)) < 2 ^ 64;
}.

Lemma number_spec t : numberable t ->
  exists l, renumbered l (t_nodes t) (t_nodes (number t)) /\ (forall p, p ∈ l <-> is_Some (t_nodes t !! p)) /\
  inos_ok (t_nodes (number t)) (t_nextIno (number t)) /\ t_closers (number t) = t_closers t /\
  Z.max Efs.RootIno (t_nextIno t) <= t_nextIno (number t).
Proof.
  intros [Hw Hok Hroom]. unfold number.
  set (next := if t_nextIno t <? Efs.RootIno then _ else _).
  assert (Hnext : next = Z.max Efs.RootIno (t_nextIno t)).
  { subst next. destruct (_ <? _) eqn:E; zbool; lia. }
  destruct (foldl assign _ _) as [ns' next'] eqn:Hf.
  apply foldl_assign in Hf as (H1 & H2 & H3).
  - exists (preorder (depth (t_nodes t)) (t_nodes t) []). cbn. split_and!; [done|by intros p; apply walk_all|done|done|lia].
  - split; [|exact (ino_inj _ _ Hok)]. intros p n Hp Hn. pose proof (ino_range _ _ Hok _ _ Hp Hn). lia.
  - lia.
  - unfold zlen. rewrite walk_length by done. lia.
Qed.

(** Numbering adds and removes no node. *)
Lemma number_size t : base.size (t_nodes (number t)) = base.size (t_nodes t).
Proof.
  unfold number. set (next := if _ <? _ then _ else _). generalize next. clear next.
  generalize (preorder (depth (t_nodes t)) (t_nodes t) []) as l. generalize (t_nodes t) as ns.
  intros ns l. revert ns. induction l as [|p l IH]; intros ns next; [done|]. cbn [foldl].
  destruct (assign (ns, next) p) as [ns1 next1] eqn:E. rewrite IH. unfold assign in E.
  destruct (ns !! p) as [n|] eqn:Hp; [|by injection E as <- _].
  destruct (n_ino n =? 0); injection E as <- _; [|done]. apply map_size_insert_Some. by rewrite Hp.
Qed.

(** ** Comparing contents *)

(** An opened file whose bytes are [content], up to [size]: what [io.ReaderAt]
    asks of a read inside the data. *)
Definition reads_as (h : handle) (content : Z -> Z) (size : Z) : Prop := forall off n,
  0 <= off -> 0 < n -> off + n <= size ->
  exists e, h off n = Ok (content <$> seqZ off n, e) /\ (e = None \/ e = Some EOF).

Lemma reader_reads_as ra content size `{!ReaderAtOK ra content size} :
  reads_as (fun off n => Ok (ra off n)) content size.
Proof.
  intros off n Hoff Hn Hs. exists None. split; [|by left].
  by rewrite (reader_exact ra content size off n) by lia.
Qed.

Lemma mem_reads_as data : reads_as (mem_handle data) (at_ data) (zlen data).
Proof. exact (reader_reads_as (image_reader data) (at_ data) (zlen data)). Qed.

Lemma readFullAt_reads h content size off n fuel : reads_as h content size ->
  0 <= off -> 0 < n -> off + n <= size -> readFullAt (S fuel) h n off = Ok (content <$> seqZ off n).
Proof.
  intros Hr Hoff Hn Hs. destruct (Hr off n Hoff Hn Hs) as (e & Hh & He). cbn [readFullAt].
  rewrite (proj2 (Z.leb_gt n 0)) by done. rewrite Hh. cbn [lift mbind outcome_bind].
  rewrite zlen_fmap, zlen_seqZ, Z.ltb_irrefl, Z.sub_diag by lia.
  destruct He as [->| ->]; [|done]. by destruct fuel; cbn; rewrite app_nil_r.
Qed.

Lemma fmap_seqZ_eq {A} (f g : Z -> A) m n :
  f <$> seqZ m n = g <$> seqZ m n <-> (forall i, m <= i < m + n -> f i = g i).
Proof.
  split.
  - intros E i Hi. assert (Hl : seqZ m n !! Z.to_nat (i - m) = Some i) by (apply lookup_seqZ; lia).
    apply (f_equal (fun l => l !! Z.to_nat (i - m))) in E. rewrite !list_lookup_fmap, Hl in E. by injection E.
  - intros H. apply list_fmap_ext. intros k x Hx%lookup_seqZ. apply H. lia.
Qed.

Lemma same_blocks_spec a b ca cb size blocks off :
  reads_as a ca size -> reads_as b cb size -> 0 <= off ->
  size - off <= Z.of_nat blocks * compareBlock ->
  exists v, same_blocks blocks a b size off = Ok v /\
    (v = true <-> forall i, off <= i < size -> ca i = cb i).
Proof.
  intros Ha Hb. revert off. induction blocks as [|blocks IH]; intros off Hoff Hbl; cbn [same_blocks].
  - exists true. split; [done|]. split; [|done]. intros _ i Hi. lia.
  - destruct (size <=? off) eqn:E; zbool; [exists true; split; [done|]; split; [intros _ i Hi; lia|done]|].
    assert (Hn : 0 < Z.min compareBlock (size - off)) by (unfold compareBlock; lia).
    unfold read_fuel. rewrite (readFullAt_reads a ca size), (readFullAt_reads b cb size) by (done || lia).
    cbn [mbind outcome_bind]. case_bool_decide as Heq.
    + rewrite fmap_seqZ_eq in Heq.
      destruct (IH (off + Z.min compareBlock (size - off))) as (v & Hv & Hiff); [lia|unfold compareBlock in *; lia|].
      exists v. split; [done|]. rewrite Hiff. split; intros H i Hi; [|apply H; lia].
      destruct (decide (i < off + Z.min compareBlock (size - off))); [apply Heq|apply H]; lia.
    + exists false. split; [done|]. split; [done|]. intros H. exfalso. apply Heq, fmap_seqZ_eq. intros i Hi. apply H. lia.
Qed.

(** The comparison decides whether two files hold the same bytes. *)
Lemma sameContent_bytes a b ha hb ca cb :
  openRegular a = Ok ha -> openRegular b = Ok hb ->
  reads_as ha ca (n_size a) -> reads_as hb cb (n_size b) ->
  exists v, sameContent a b = Ok v /\
    (v = true <-> n_size a = n_size b /\ forall i, 0 <= i < n_size a -> ca i = cb i).
Proof.
  intros Ha Hb Hra Hrb. unfold sameContent. destruct (n_size a =? n_size b) eqn:E; zbool; cbn [negb].
  - rewrite Ha, Hb. cbn [mbind outcome_bind]. rewrite <- E in Hrb.
    destruct (same_blocks_spec ha hb ca cb (n_size a) (Z.to_nat ((n_size a + compareBlock - 1) / compareBlock)) 0)
      as (v & Hv & Hiff); [done|done|lia| |].
    + unfold compareBlock. pose proof (Z.div_mod (n_size a + 65536 - 1) 65536 ltac:(lia)).
      pose proof (Z.mod_pos_bound (n_size a + 65536 - 1) 65536 ltac:(lia)).
      destruct (decide (n_size a <= 0)); [lia|]. rewrite Z2Nat.id; [lia|]. apply Z.div_pos; lia.
    + exists v. split; [done|]. rewrite Hiff. naive_solver.
  - exists false. split; [done|]. naive_solver.
Qed.

(** ** Directories made on the way *)

Lemma merge_dir ns p c origin seen :
  mergeChild ns p (newDir c origin) seen ∅ ∅ =
  match ns !! (p ++ [c]) with
  | None => Ok (<[p ++ [c] := newDir c origin]> ns, p ++ [c])
  | Some old => if n_dir old then Ok (ns, p ++ [c]) else Err (KindMismatch seen)
  end.
Proof. unfold mergeChild. cbn. destruct (ns !! _) as [old|]; [|done]. by destruct (n_dir old). Qed.

Lemma ensure_parts_spec ns p seen parts origin : wf ns -> (exists d, ns !! p = Some d /\ n_dir d = true) ->
  let '(ns', r) := ensure_parts ns p seen parts origin in
  wf ns' /\ (forall q n, ns !! q = Some n -> ns' !! q = Some n) /\
  (forall q n, ns' !! q = Some n -> ns !! q = None -> n_dir n = true /\ n_ino n = 0 /\ n_origin n = origin) /\
  (base.size ns' <= base.size ns + length parts)%nat /\
  match r with
  | Ok q => q = p ++ parts /\ exists d, ns' !! q = Some d /\ n_dir d = true
  | Err _ => ns' = ns /\ exists k f, (k < length parts)%nat /\
      ns !! (p ++ take (S k) parts) = Some f /\ n_dir f = false
  | Panic => False
  end.
Proof.
  revert ns p seen. induction parts as [|c parts IH]; intros ns p seen Hw Hp; cbn [ensure_parts].
  - split_and!; [done|done|congruence|lia|by rewrite app_nil_r|done].
  - rewrite merge_dir. destruct (ns !! (p ++ [c])) as [old|] eqn:Hold.
    + destruct (n_dir old) eqn:Hd.
      2:{ split_and!; [done|done|congruence|lia|done|]. exists 0%nat, old. cbn. split_and!; [lia|done|done]. }
      specialize (IH ns (p ++ [c]) (Join seen c) Hw ltac:(eauto)).
      destruct (ensure_parts _ _ _ _ _) as [ns' r].
      destruct IH as (H1 & H2 & H3 & H4 & H5). cbn [length]. split_and!; [done|done|done|lia|].
      destruct r as [q|e|]; [by rewrite <- app_assoc in H5| |done]. destruct H5 as (-> & k & f & Hk & Hf & Hfd).
      split; [done|]. exists (S k), f. rewrite <- app_assoc in Hf. cbn in *. split_and!; [lia|done|done].
    + set (d := newDir c origin).
      assert (Hw' : wf (<[p ++ [c] := d]> ns)) by (apply (wf_insert ns p d); [done|done|]; cbn; by rewrite Hold).
      specialize (IH (<[p ++ [c] := d]> ns) (p ++ [c]) (Join seen c) Hw').
      destruct (ensure_parts _ _ _ _ _) as [ns' r].
      destruct IH as (H1 & H2 & H3 & H4 & H5); [exists d; by rewrite lookup_insert_eq|].
      rewrite map_size_insert_None in H4 by done. cbn [length].
      assert (Hkeep : forall q n, ns !! q = Some n -> ns' !! q = Some n).
      { intros q n Hq. apply H2. rewrite lookup_insert_ne; [done|]. intros <-. congruence. }
      split_and!; [done|done| |lia|].
      * intros q n Hq Hnone. destruct (decide (q = p ++ [c])) as [->|].
        -- rewrite (H2 (p ++ [c]) d) in Hq by (by rewrite lookup_insert_eq). by injection Hq as <-.
        -- apply (H3 q n Hq). by rewrite lookup_insert_ne.
      * destruct r as [q|e|]; [by rewrite <- app_assoc in H5| |done].
        destruct H5 as (-> & k & f & Hk & Hf & Hfd).
        exfalso. revert Hf. rewrite lookup_insert_ne.
        -- intros Hf.
           assert (Habs : forall r, is_Some (ns !! ((p ++ [c]) ++ r)) -> is_Some (ns !! (p ++ [c]))).
           { intros r. induction r as [|x r IHr] using rev_ind; [by rewrite app_nil_r|].
             rewrite app_assoc. intros [n Hn]. destruct (wf_child _ Hw _ _ _ Hn) as (_ & dd & Hdd & _). eauto. }
           destruct (Habs (take (S k) parts)) as [? ?]; [by rewrite Hf|]. congruence.
        -- intros E. apply (f_equal length) in E. rewrite !length_app, length_take in E. lia.
Qed.

(** ** Names and paths *)

Lemma name_ok_dot : ~ name_ok [dot].
Proof. by intros (_ & ? & _). Qed.

Lemma path_of_join els : Forall name_ok els -> els <> [] -> path_of (join_slash els) = els.
Proof.
  intros Hf Hne. unfold path_of.
  pose proof (split_join els Hne (names_no_slash _ Hf)) as Hs. case_bool_decide as E; [|done].
  rewrite E in Hs. cbn in Hs. subst els. inv Hf. by apply name_ok_dot in H1.
Qed.

Lemma path_of_valid name : ValidPath name = true -> name <> [dot] ->
  exists els e, name = join_slash (els ++ [e]) /\ Forall name_ok els /\ name_ok e /\ path_of name = els ++ [e].
Proof.
  intros Hv Hd. destruct (ValidPath_names _ Hv Hd) as [Hf _].
  pose proof (split_not_nil slash name) as Hne. destruct (exists_last Hne) as (els & e & E).
  pose proof (join_split name) as Hj. rewrite E in Hf, Hj. apply Forall_app in Hf as [Hels He].
  exists els, e. split_and!; [done|done|by inv He|]. unfold path_of. by rewrite bool_decide_false.
Qed.

Lemma path_of_inj a b : ValidPath a = true -> ValidPath b = true -> path_of a = path_of b -> a = b.
Proof.
  intros Ha Hb. unfold path_of. case_bool_decide as Ea; case_bool_decide as Eb; intros E.
  - congruence.
  - by destruct (split_not_nil slash b).
  - by destruct (split_not_nil slash a).
  - by rewrite <- (join_split a), E, join_split.
Qed.

(** The directory of a name, and its last element. *)
Lemma path_of_Dir name : ValidPath name = true -> name <> [dot] ->
  path_of name = path_of (Dir name) ++ [Base name] /\
  (if bool_decide (Dir name = [dot]) then [] else split_byte slash (Dir name)) = path_of (Dir name).
Proof.
  intros Hv Hd. destruct (path_of_valid _ Hv Hd) as (els & e & -> & Hels & He & ->).
  split; [|done]. rewrite Base_names, Dir_names by done. f_equal. case_bool_decide as E; [by subst|].
  by rewrite path_of_join.
Qed.

Lemma path_of_Join name c : ValidPath name = true -> name_ok c -> path_of (Join name c) = path_of name ++ [c].
Proof.
  intros Hv Hc. destruct (decide (name = [dot])) as [->|Hd].
  - rewrite Join_dot by done.
    unfold path_of at 2. rewrite bool_decide_true by done.
    exact (path_of_join [c] ltac:(by apply Forall_singleton) ltac:(done)).
  - destruct (path_of_valid _ Hv Hd) as (els & e & -> & Hels & He & ->).
    assert (Hall : Forall name_ok (els ++ [e])) by (apply Forall_app; split; [done|by apply Forall_singleton]).
    rewrite Join_names by (done || by destruct els). apply path_of_join; [|by destruct els].
    apply Forall_app. split; [done|]. by apply Forall_singleton.
Qed.

(** [find] is the node at the path. *)
Lemma find_wf t name p n : wf (t_nodes t) ->
  find t name = Ok (p, n) <-> ValidPath name = true /\ p = path_of name /\ t_nodes t !! p = Some n.
Proof.
  intros Hw. unfold find. rewrite lookup_wf by done. destruct (ValidPath name); cbn; [|naive_solver].
  destruct (t_nodes t !! path_of name) as [m|] eqn:E; cbn; split.
  - intros [= <- <-]. done.
  - intros (_ & -> & Hm). congruence.
  - done.
  - intros (_ & -> & Hm). congruence.
Qed.

Lemma Stat_wf t name i : wf (t_nodes t) ->
  Stat t name = Ok i <-> ValidPath name = true /\ exists n, t_nodes t !! path_of name = Some n /\ i = fileInfo_of n.
Proof.
  intros Hw. unfold Stat. split.
  - destruct (find t name) as [[p n]| |] eqn:Hf; cbn; [|done|done]. intros <-%Ok_inj.
    apply find_wf in Hf as (Hv & -> & Hn); eauto.
  - intros (Hv & n & Hn & ->). assert (find t name = Ok (path_of name, n)) as -> by (by apply find_wf). done.
Qed.

(** ** Listings *)

Lemma elem_entries ns p i : wf ns ->
  i ∈ entries ns p <-> exists c n, ns !! (p ++ [c]) = Some n /\ i = fileInfo_of n /\ Name i = c.
Proof.
  intros Hw. unfold entries. rewrite list_elem_of_omap. split.
  - intros (c & _ & Hc). apply fmap_Some in Hc as (n & Hn & ->). exists c, n.
    split_and!; [done|done|]. by destruct (wf_child _ Hw _ _ _ Hn).
  - intros (c & n & Hn & -> & _). exists c. split; [apply elem_sortedNames; eauto|]. by rewrite Hn.
Qed.

Lemma entries_names ns p : wf ns -> Name <$> entries ns p = sortedNames ns p.
Proof.
  intros Hw. unfold entries.
  assert (H : forall c, c ∈ sortedNames ns p -> is_Some (ns !! (p ++ [c]))) by (by intros c ?%elem_sortedNames).
  revert H. generalize (sortedNames ns p) as l. induction l as [|c l IH]; intros H; [done|].
  destruct (H c) as [n Hn]; [by left|]. cbn. rewrite Hn. cbn. rewrite IH by (intros d ?; apply H; by right).
  f_equal. by destruct (wf_child _ Hw _ _ _ Hn).
Qed.

(** A listing is sorted, names no entry twice, and is exactly the paths under it
    that [Stat] finds, with the same metadata. *)
Theorem ReadDir_Stat t name ents : wf (t_nodes t) -> ReadDir t name = Ok ents ->
  Sorted bytes_le (Name <$> ents) /\ NoDup (Name <$> ents) /\
  forall c i, name_ok c -> ValidPath (Join name c) = true ->
    Stat t (Join name c) = Ok i <-> i ∈ ents /\ Name i = c.
Proof.
  intros Hw. unfold ReadDir. destruct (find t name) as [[p n]| |] eqn:Hf; cbn; [|done|done].
  destruct (n_dir n); cbn; [|done]. intros <-%Ok_inj. apply find_wf in Hf as (Hv & -> & Hn); [|done].
  rewrite entries_names by done. split_and!; [apply sortedNames_sorted|apply NoDup_sortedNames|].
  intros c i Hc Hvc. rewrite Stat_wf by done. rewrite path_of_Join by done. rewrite elem_entries by done. split.
  - intros (_ & m & Hm & ->). split; [|by destruct (wf_child _ Hw _ _ _ Hm)]. exists c, m.
    split_and!; [done|done|]. by destruct (wf_child _ Hw _ _ _ Hm).
  - intros [(c' & m & Hm & -> & <-) E]. split; [done|]. exists m. by rewrite <- E.
Qed.

(** ** Generated files *)

(** A tree as [Build] leaves it: every node has a number of its own. *)
Record served (t : Tree) : Prop := {
  sv_wf : wf (t_nodes t);
  sv_ok : inos_ok (t_nodes t) (t_nextIno t);
  sv_all : forall p n, t_nodes t !! p = Some n -> n_ino n <> 0;
}.

Lemma number_served t : numberable t -> served (number t).
Proof.
  intros Hn. destruct (number_spec t Hn) as (l & Hr & Hl & Hok & _). split; [|done|].
  - eapply renumbered_wf; [done|apply Hn].
  - intros p n Hp. specialize (Hr p). destruct (t_nodes t !! p) as [m|] eqn:Hm; [|congruence].
    destruct Hr as (i & Hi & _ & Hi'). rewrite Hp in Hi. injection Hi as ->. cbn. apply Hi', Hl. by rewrite Hm.
Qed.

Lemma inos_ok_grow ns ns' next : inos_ok ns next ->
  (forall p n, ns' !! p = Some n -> n_ino n <> 0 -> exists m, ns !! p = Some m /\ n_ino m = n_ino n) ->
  inos_ok ns' next.
Proof.
  intros Hok H. split.
  - intros p n Hp Hn. destruct (H p n Hp Hn) as (m & Hm & E). rewrite <- E in *. by apply (ino_range _ _ Hok p m).
  - intros p q n m Hp Hq Hn E. destruct (H p n Hp Hn) as (n' & Hn' & En). destruct (H q m Hq ltac:(congruence)) as (m' & Hm' & Em).
    eapply (ino_inj _ _ Hok p q n' m'); congruence.
Qed.

(** What [AddGenerated] leaves, node by node. *)
Lemma AddGenerated_nodes t name gen content t' :
  served t -> AddGenerated t name gen content = (Ok tt, t') ->
  Z.max Efs.RootIno (t_nextIno t) + Z.of_nat (base.size (t_nodes t) + length (path_of name)) < 2 ^ 64 ->
  ValidPath name = true /\ name <> [dot] /\ served t' /\ t_closers t' = t_closers t /\
  (exists n, t_nodes t' !! path_of name = Some n /\ n = generated_node (Base name) gen content (n_ino n) /\
    forall m, t_nodes t !! path_of name = Some m -> n_ino n = n_ino m) /\
  (forall p m, p <> path_of name -> t_nodes t !! p = Some m -> t_nodes t' !! p = Some m) /\
  (forall p m, p <> path_of name -> t_nodes t' !! p = Some m -> t_nodes t !! p = None ->
    n_dir m = true /\ n_origin m = MkOrigin OriginGenerated gen []).
Proof.
  intros [Hw Hok Hall]. unfold AddGenerated. destruct (negb (ValidPath name) || _) eqn:E; [done|].
  apply orb_false_iff in E as [Hv%negb_false_iff Hd%bool_decide_eq_false].
  destruct (path_of_Dir name Hv Hd) as [Hp HpD]. unfold ensureDir.
  set (origin := MkOrigin OriginGenerated gen []).
  assert (Hens : (if bool_decide (Dir name = [dot]) then (t_nodes t, Ok [])
      else ensure_parts (t_nodes t) [] [] (split_byte slash (Dir name)) origin) =
    ensure_parts (t_nodes t) [] [] (path_of (Dir name)) origin).
  { rewrite <- HpD. by case_bool_decide. }
  rewrite Hens. clear Hens HpD.
  pose proof (ensure_parts_spec (t_nodes t) [] [] (path_of (Dir name)) origin Hw (wf_root _ Hw)) as Hs.
  destruct (ensure_parts _ _ _ _ _) as [ns r]. destruct Hs as (Hw1 & Hkeep & Hnew & Hsz & Hr).
  destruct r as [parent| |]; [|done|done]. destruct Hr as (-> & Hpar). cbn [app]. rewrite <- Hp.
  intros Hres Hroom.
  assert (Hex : exists i, t' = number (MkTree (<[path_of name := generated_node (Base name) gen content i]> ns) (t_closers t) (t_nextIno t))
    /\ (forall m, ns !! path_of name = Some m -> i = n_ino m /\ n_dir m = false) /\ (ns !! path_of name = None -> i = 0)).
  { destruct (ns !! path_of name) as [n|] eqn:Hold.
    - destruct (n_dir n) eqn:Hdir; [done|]. injection Hres as <-. exists (n_ino n). split_and!; naive_solver.
    - injection Hres as <-. exists 0. naive_solver. }
  clear Hres. destruct Hex as (i & -> & Hi & Hi0).
  set (g := generated_node (Base name) gen content i).
  assert (Hlen : length (path_of name) = S (length (path_of (Dir name)))) by (rewrite Hp, length_app; cbn; lia).
  assert (Hwg : wf (<[path_of name := g]> ns)).
  { rewrite Hp. apply (wf_insert ns (path_of (Dir name)) g); [done|done|].
    intros o Ho. cbn in *. rewrite <- Hp in Ho. by destruct (Hi _ Ho). }
  set (t1 := MkTree (<[path_of name := g]> ns) (t_closers t) (t_nextIno t)).
  assert (Hold : forall m, t_nodes t !! path_of name = Some m -> i = n_ino m) by (intros m Hm; by destruct (Hi _ (Hkeep _ _ Hm))).
  assert (Hnb : numberable t1).
  { split; [done| |].
    - eapply inos_ok_grow; [exact Hok|]. cbn. intros p n Hpn Hn. destruct (decide (p = path_of name)) as [->|Hne].
      + rewrite lookup_insert_eq in Hpn. injection Hpn as <-. cbn in *.
        destruct (ns !! path_of name) as [m|] eqn:Hm; [|by rewrite Hi0 in Hn]. destruct (Hi _ eq_refl) as [-> Hdm].
        destruct (t_nodes t !! path_of name) as [m'|] eqn:Hm'; [exists m'; split; [done|]; rewrite (Hkeep _ _ Hm') in Hm; congruence|].
        by destruct (Hnew _ _ Hm Hm') as (Hdm' & _ & _); rewrite Hdm in Hdm'.
      + rewrite lookup_insert_ne in Hpn by done.
        destruct (t_nodes t !! p) as [m'|] eqn:Hm'; [exists m'; split; [done|]; rewrite (Hkeep _ _ Hm') in Hpn; congruence|].
        by destruct (Hnew _ _ Hpn Hm') as (_ & H0 & _).
    - cbn. assert ((base.size (<[path_of name := g]> ns) <= S (base.size ns))%nat).
      { destruct (ns !! path_of name) eqn:E; [rewrite map_size_insert_Some by eauto; lia|rewrite map_size_insert_None by done; lia]. }
      lia. }
  destruct (number_spec t1 Hnb) as (l & Hren & Hl & _ & Hclo & _). cbn in Hren, Hl, Hclo.
  split_and!; [done|done|by apply number_served|done| | |].
  - specialize (Hren (path_of name)). rewrite lookup_insert_eq in Hren. destruct Hren as (j & Hj & Hj' & _).
    exists (with_ino j g). split_and!; [done|done|]. intros m Hm. cbn. rewrite Hj'; [by apply Hold|].
    cbn. rewrite (Hold _ Hm). by apply Hall in Hm.
  - intros p m Hne Hm. specialize (Hren p). rewrite lookup_insert_ne, (Hkeep _ _ Hm) in Hren by done.
    destruct Hren as (j & Hj & Hj' & _). rewrite Hj, Hj' by (by apply Hall in Hm). by rewrite with_ino_same.
  - intros p m Hne Hm Hnone. specialize (Hren p). rewrite lookup_insert_ne in Hren by done.
    destruct (ns !! p) as [m'|] eqn:Hm'; [|congruence]. destruct Hren as (j & Hj & _).
    rewrite Hm in Hj. injection Hj as ->. cbn. destruct (Hnew _ _ Hm' Hnone) as (? & _ & ?). done.
Qed.

(** [AddGenerated] serves the content under the name, with its generator as the
    origin, over the number of the file it shadows, and leaves what every other
    path reports, its number included. *)
Theorem AddGenerated_serves t name gen content t' :
  served t -> AddGenerated t name gen content = (Ok tt, t') ->
  Z.max Efs.RootIno (t_nextIno t) + Z.of_nat (base.size (t_nodes t) + length (path_of name)) < 2 ^ 64 ->
  served t' /\
  (exists i, Stat t' name = Ok i /\ Name i = Base name /\ Size i = zlen content /\
    MOrigin i = MkOrigin OriginGenerated gen [] /\
    Open t' name = Ok (regular i (mem_handle content)) /\
    (forall old, Stat t name = Ok old -> MIno i = MIno old)) /\
  (forall other i, other <> name -> Stat t other = Ok i -> Stat t' other = Ok i) /\
  (forall other i, other <> name -> Stat t' other = Ok i -> Stat t other = Ok i \/
     Stat t other = Err FErrNotExist /\ MOrigin i = MkOrigin OriginGenerated gen []).
Proof.
  intros Hs HA Hroom. destruct (AddGenerated_nodes _ _ _ _ _ Hs HA Hroom) as (Hv & Hd & Hs' & _ & (n & Hn & Hg & Hino) & Hkeep & Hnew).
  pose proof (sv_wf _ Hs) as Hw. pose proof (sv_wf _ Hs') as Hw'. split; [done|]. split_and!.
  - assert (Hf : find t' name = Ok (path_of name, n)) by (by apply find_wf).
    exists (fileInfo_of n). split_and!.
    + unfold Stat. by rewrite Hf.
    + by rewrite Hg.
    + by rewrite Hg.
    + by rewrite Hg.
    + unfold Open. rewrite Hf. cbn. rewrite Hg. done.
    + intros old (_ & m & Hm & ->)%Stat_wf; [|done]. cbn. by apply Hino.
  - intros other i Hne (Hvo & m & Hm & ->)%Stat_wf; [|done]. apply Stat_wf; [done|]. split; [done|].
    exists m. split; [|done]. apply Hkeep; [|done]. intros E. by apply Hne, path_of_inj.
  - intros other i Hne (Hvo & m & Hm & ->)%Stat_wf; [|done].
    assert (Hp : path_of other <> path_of name) by (intros E; by apply Hne, path_of_inj).
    destruct (t_nodes t !! path_of other) as [m'|] eqn:Hm'.
    + left. apply Stat_wf; [done|]. split; [done|]. exists m'. split; [done|].
      rewrite (Hkeep _ _ Hp Hm') in Hm. congruence.
    + right. split; [|cbn; by destruct (Hnew _ _ Hp Hm Hm')]. unfold Stat, find. rewrite Hvo, lookup_wf by done.
      by rewrite Hm'.
Qed.
