(* ===== verification/Build.v ===== *)
(** Assembling the install sets ([internal/vfs/build.go], [spec.go],
    [resolver.go]) and opening a CD image as a source ([vfs.go]).

    [Build] merges each set's layers, in order, into one tree. What a resolver
    gives for a reference is a parameter; each reference is resolved at most
    once, so the resolver is a function. A walk of a source recurses to the
    depth of its directories: [fuel] bounds it, and [Stuck OutOfFuel] is not a
    behaviour of the program. *)
From S2P Require Import Prelude Dvh Efs Path Tree.

Definition maxSymlinks : Z := 8.
Definition distDir : bytes := str "dist".
Definition standDir : bytes := str "stand".

(** ** Images *)

Inductive image_err :=
| HeaderRead (e : io_err)
| BadHeader (e : Dvh.error)
| NoPartition
| BadImage (e : Efs.error).

(** [OpenImageReader], the volume header and the file system of the disc. *)
Definition OpenImageReader (ra : ReaderAt) : outcome image_err (Dvh.Header * Efs.FS) :=
  let '(d, err) := ra 0 512 in
  match err with
  | Some e => Err (HeaderRead e)
  | None =>
      match Dvh.Parse (d ++ replicate (512 - length d) 0) with
      | Err e => Err (BadHeader e)
      | Panic => Panic
      | Ok hdr =>
          match Dvh.EFS hdr with
          | None => Err NoPartition
          | Some part =>
              match Efs.Open ra (Dvh.First part) with
              | Err e => Err (BadImage e)
              | Panic => Panic
              | Ok fs => Ok (hdr, fs)
              end
          end
      end
  end.

(** An image's [fs.FS], as a walk uses it. *)
Definition efs_info (i : Efs.fsInfo) : info :=
  MkFI (Efs.info_Mode i) (Efs.info_Size i) (Efs.info_ModTime i) (Some (Efs.info_Sys i)).

Definition image_res {A B} (f : A -> B) (m : outcome Efs.view_error A) : outcome src_err B :=
  match m with Ok a => Ok (f a) | Err e => Err (ImageErr e) | Panic => Panic end.

Definition efs_handle (fs : Efs.FS) (ino : Efs.Inode_t) : handle := fun off n =>
  match Efs.file_ReadAt fs ino n off with Ok r => Ok r | Err e => Err (ImageReadErr e) | Panic => Panic end.

Definition efs_source (fs : Efs.FS) : Source := {|
  s_stat name := image_res efs_info (Efs.view_Stat fs name);
  s_readdir name :=
    image_res (fmap (fun i => MkDirent (Efs.iname i) (Ok (efs_info i)))) (Efs.view_ReadDir fs name);
  s_readlink name := image_res (fun t => t) (Efs.view_ReadLink fs name);
  s_open name := image_res (fun f => match f with
                                     | Efs.fsFile ino _ _ => Some (efs_handle fs ino)
                                     | Efs.fsDir _ _ _ => None
                                     end) (Efs.view_Open fs name);
|}.

(** ** Specifications *)

Record LayerSpec := MkLayer {
  l_Name : bytes; l_Source : bytes; l_Base : bytes; l_Dist : bytes; l_Stand : bytes; l_Boot : bool;
}.

Record SetSpec := MkSet {
  s_Name : bytes;
  s_Layers : list LayerSpec;
  s_Collisions : gmap bytes bytes;
  s_Replacements : gmap bytes bytes;
}.

(** A source, opened. *)
Record Resolved := MkResolved { r_FS : Source; r_Kind : OriginKind; r_Closer : option Closer }.

Definition Resolver : Type := bytes -> outcome src_err Resolved.

(** ** Where a layer sits in its source *)

Definition cleanRel (dir def : bytes) : outcome error bytes :=
  if bool_decide (dir = []) then Ok def
  else if ValidPath (Clean dir) then Ok (Clean dir) else Err (NotRelative dir).

Definition underBase (base dir : bytes) : outcome error bytes :=
  let joined := if bool_decide (base = []) then dir else Join base dir in
  if ValidPath joined then Ok joined else Err (NotRelative joined).

Definition layerPaths (layer : LayerSpec) : outcome error (bytes * bytes) :=
  d ← cleanRel (l_Dist layer) distDir;
  dist ← underBase (l_Base layer) d;
  if negb (l_Boot layer) then Ok (dist, [])
  else
    s ← cleanRel (l_Stand layer) standDir;
    stand ← underBase (l_Base layer) s;
    Ok (dist, stand).

(** [positions] of [checkReplacements]. *)
Fixpoint layer_positions (i : Z) (layers : list LayerSpec) (positions : gmap bytes Z)
    : outcome error (gmap bytes Z) :=
  match layers with
  | [] => Ok positions
  | layer :: layers =>
      match positions !! l_Name layer with
      | Some _ => Err (DuplicateLayer (l_Name layer))
      | None => layer_positions (i + 1) layers (<[l_Name layer := i]> positions)
      end
  end.

Definition replacement_ok (positions : gmap bytes Z) (fromto : bytes * bytes) : bool :=
  match positions !! fromto.1, positions !! fromto.2 with
  | Some fromIndex, Some toIndex => negb (toIndex <=? fromIndex)
  | _, _ => false
  end.

Definition checkReplacements (set : SetSpec) : outcome error unit :=
  positions ← layer_positions 0 (s_Layers set) ∅;
  if forallb (replacement_ok positions) (map_to_list (s_Replacements set)) then Ok tt
  else Err BadReplacement.

Fixpoint validate_layers (layers : list LayerSpec) : outcome error unit :=
  match layers with
  | [] => Ok tt
  | layer :: layers =>
      if bool_decide (l_Name layer = []) then Err NoLayerName
      else if bool_decide (l_Source layer = []) then Err NoSource
      else _ ← layerPaths layer; validate_layers layers
  end.

Definition Validate (set : SetSpec) : outcome error unit :=
  if bool_decide (s_Name set = []) then Err NoSetName
  else _ ← checkReplacements set; validate_layers (s_Layers set).

(** ** Links *)

(** [resolveLink] from [hops] on; [turns] is how many turns of the loop remain
    before [hops > maxSymlinks]. *)
Definition link_next (name target : bytes) : bytes :=
  if IsAbs target then Clean (drop 1 target) else Join (Dir name) target.

Fixpoint resolve_hops (turns : nat) (fsys : Source) (orig name : bytes) : outcome error (info * bytes) :=
  match turns with
  | O => Err (TooManyLinks orig)
  | S turns =>
      match s_stat fsys name with
      | Err e => Err (LinkUnresolved orig e)
      | Panic => Panic
      | Ok info =>
          if negb (IsSymlink info) then Ok (info, name)
          else match s_readlink fsys name with
               | Err e => Err (LinkUnreadable orig e)
               | Panic => Panic
               | Ok target => resolve_hops turns fsys orig (link_next name target)
               end
      end
  end.

Definition resolveLink (fsys : Source) (name : bytes) : outcome error (info * bytes) :=
  resolve_hops (S (Z.to_nat maxSymlinks)) fsys name name.

Definition statFollow (fsys : Source) (name : bytes) : outcome error (info * bytes) :=
  info ← lift (s_stat fsys name);
  if negb (IsSymlink info) then Ok (info, name) else resolveLink fsys name.

(** ** The walk *)

Definition ownerOf (i : info) : Z * Z * Z * Z :=
  match isys i with
  | Some st => (u32 (Efs.SUID st), u32 (Efs.SGID st), Efs.SNlink st, Z.land (Efs.SMode st) 0xfff)
  | None =>
      let perm := Z.land (imode i) ModePerm in
      let perm := if has_mode (imode i) ModeSetuid then Z.lor perm 0x800 else perm in
      let perm := if has_mode (imode i) ModeSetgid then Z.lor perm 0x400 else perm in
      let perm := if has_mode (imode i) ModeSticky then Z.lor perm 0x200 else perm in
      (0, 0, 1, perm)
  end.

Definition originOf (kind : OriginKind) (layer : LayerSpec) (srcPath : bytes) : Origin_t :=
  MkOrigin kind (l_Name layer) srcPath.

(** What a directory entry stands for: itself, or the regular file a link leads
    to. *)
Definition entry_target (fsys : Source) (srcPath : bytes) (e : dirent) : outcome error (info * bytes) :=
  let childSrc := Join srcPath (dname e) in
  info ← lift (dinfo e);
  if IsSymlink info then
    '(info, childSrc) ← resolveLink fsys childSrc;
    if IsDir info then Err (LinkToDirectory (Join srcPath (dname e)))
    else if negb (IsRegular info) then Err (LinkToSpecial (Join srcPath (dname e)) (imode info))
    else Ok (info, childSrc)
  else Ok (info, childSrc).

Definition file_node (fsys : Source) (kind : OriginKind) (layer : LayerSpec) (name childSrc : bytes) (i : info) : node :=
  let '(uid, gid, nlink, perm) := ownerOf i in
  MkNode name false 0 (originOf kind layer childSrc) perm (isize i) (Some (imtime i)) uid gid nlink
    (Some fsys) [].

Section walk.
Context (set : SetSpec) (layer : LayerSpec) (fsys : Source) (kind : OriginKind).

(** The entries of one directory; [rec] walks a subdirectory. *)
Fixpoint walk_ents (rec : nodes -> bytes -> bytes -> tpath -> outcome error nodes)
    (ns : nodes) (srcPath target : bytes) (dir : tpath) (ents : list dirent) : outcome error nodes :=
  match ents with
  | [] => Ok ns
  | e :: ents =>
      let childTarget := Join target (dname e) in
      '(info, childSrc) ← entry_target fsys srcPath e;
      ns ← (if IsDir info then
              '(ns, sub) ← mergeChild ns dir (newDir (dname e) (originOf kind layer childSrc)) childTarget ∅ ∅;
              rec ns childSrc childTarget sub
            else if IsRegular info then
              '(ns, _) ← mergeChild ns dir (file_node fsys kind layer (dname e) childSrc info) childTarget
                           (s_Collisions set) (s_Replacements set);
              Ok ns
            else Ok ns);
      walk_ents rec ns srcPath target dir ents
  end.

Fixpoint walkFS (fuel : nat) (ns : nodes) (srcPath target : bytes) (dir : tpath) : outcome error nodes :=
  match fuel with
  | O => Err (Stuck OutOfFuel)
  | S fuel =>
      ents ← lift (s_readdir fsys srcPath);
      walk_ents (walkFS fuel) ns srcPath target dir ents
  end.

Definition mergeTree (fuel : nat) (ns : nodes) (srcDir target : bytes) : outcome error nodes :=
  '(info, srcPath) ← statFollow fsys srcDir;
  if negb (IsDir info) then Err (SrcNotDirectory srcDir)
  else
    let '(ns, dir) := ensureDir ns target (originOf kind layer srcPath) in
    dir ← dir;
    walkFS fuel ns srcPath target dir.
End walk.

(** ** Building *)

(** The tree as it grows, and the sources opened so far. *)
Record building := MkBuilding { b_nodes : nodes; b_resolved : gmap bytes Resolved; b_closers : list Closer }.

Definition openSource (r : Resolver) (layer : LayerSpec) (b : building) : outcome error Resolved * building :=
  match b_resolved b !! l_Source layer with
  | Some res => (Ok res, b)
  | None =>
      match r (l_Source layer) with
      | Ok res => (Ok res, MkBuilding (b_nodes b) (<[l_Source layer := res]> (b_resolved b))
                             (b_closers b ++ match r_Closer res with Some c => [c] | None => [] end))
      | Err e => (Err (SourceErr e), b)
      | Panic => (Panic, b)
      end
  end.

(** The merges of a layer whose source is open. *)
Definition merge_layer (fuel : nat) (set : SetSpec) (layer : LayerSpec) (res : Resolved) (ns : nodes)
    : outcome error nodes :=
  '(distPath, standPath) ← layerPaths layer;
  ns ← mergeTree set layer (r_FS res) (r_Kind res) fuel ns distPath (Join (s_Name set) distDir);
  if negb (l_Boot layer) then Ok ns
  else match s_stat (r_FS res) standPath with
       | Err e => Err (NoStand e)
       | Panic => Panic
       | Ok _ => mergeTree set layer (r_FS res) (r_Kind res) fuel ns standPath (Join (s_Name set) standDir)
       end.

Definition addLayer (fuel : nat) (set : SetSpec) (layer : LayerSpec) (r : Resolver) (b : building)
    : outcome error unit * building :=
  if bool_decide (l_Name layer = []) then (Err NoLayerName, b)
  else if bool_decide (l_Source layer = []) then (Err NoSource, b)
  else match openSource r layer b with
  | (Err e, b) => (Err e, b)
  | (Panic, b) => (Panic, b)
  | (Ok res, b) =>
      match merge_layer fuel set layer res (b_nodes b) with
      | Ok ns => (Ok tt, MkBuilding ns (b_resolved b) (b_closers b))
      | Err e => (Err e, b)
      | Panic => (Panic, b)
      end
  end.

Fixpoint add_layers (fuel : nat) (set : SetSpec) (layers : list LayerSpec) (r : Resolver) (b : building)
    : outcome error unit * building :=
  match layers with
  | [] => (Ok tt, b)
  | layer :: layers =>
      match addLayer fuel set layer r b with
      | (Ok _, b) => add_layers fuel set layers r b
      | failed => failed
      end
  end.

(** The configured winners, by path. *)
Fixpoint check_paths (ns : nodes) (collisions : gmap bytes bytes) (paths : list bytes) : outcome error unit :=
  match paths with
  | [] => Ok tt
  | p :: paths =>
      let winner := default [] (collisions !! p) in
      match lookup ns p with
      | None => Err (WinnerNoFile winner p)
      | Some (_, n) =>
          if n_dir n then Err (WinnerNoFile winner p)
          else if negb (bool_decide (Source_ (n_origin n) = winner))
          then Err (WinnerElsewhere winner p (Source_ (n_origin n)))
          else check_paths ns collisions paths
      end
  end.

Definition checkCollisions (ns : nodes) (set : SetSpec) : outcome error unit :=
  check_paths ns (s_Collisions set) (merge_sort bytes_le ((map_to_list (s_Collisions set)).*1)).

Definition build_set (fuel : nat) (r : Resolver) (set : SetSpec) (b : building) : outcome error unit * building :=
  if bool_decide (s_Name set = []) then (Err NoSetName, b)
  else match b_nodes b !! [s_Name set] with
  | Some _ => (Err (SetTwice (s_Name set)), b)
  | None =>
      match checkReplacements set with
      | Err e => (Err e, b)
      | Panic => (Panic, b)
      | Ok _ =>
          let b := MkBuilding (<[[s_Name set] := newDir (s_Name set) zeroOrigin]> (b_nodes b))
                     (b_resolved b) (b_closers b) in
          match add_layers fuel set (s_Layers set) r b with
          | (Ok _, b) => (checkCollisions (b_nodes b) set, b)
          | failed => failed
          end
      end
  end.

Fixpoint build_sets (fuel : nat) (r : Resolver) (sets : list SetSpec) (b : building) : outcome error unit * building :=
  match sets with
  | [] => (Ok tt, b)
  | set :: sets =>
      match build_set fuel r set b with
      | (Ok _, b) => build_sets fuel r sets b
      | failed => failed
      end
  end.

Definition build_start : building := MkBuilding {[ [] := newDir [dot] zeroOrigin ]} ∅ [].

(** A tree, or the error and the closers [t.Close()] calls. *)
Definition Build (fuel : nat) (sets : list SetSpec) (r : Resolver) : outcome (error * list Closer) Tree :=
  match build_sets fuel r sets build_start with
  | (Ok _, b) => Ok (number (MkTree (b_nodes b) (b_closers b) 0))
  | (Err e, b) => Err (e, b_closers b)
  | (Panic, _) => Panic
  end.

(** ** What a layer contributes *)

(** One candidate of a walk: where it lands, the path collisions name it by, and
    its node. *)
Record cand := MkCand { c_parent : tpath; c_logical : bytes; c_node : node }.

Definition c_path (c : cand) : tpath := c_parent c ++ [n_name (c_node c)].

Section listing.
Context (layer : LayerSpec) (fsys : Source) (kind : OriginKind).

Fixpoint list_ents (rec : bytes -> bytes -> tpath -> outcome error (list cand))
    (srcPath target : bytes) (dir : tpath) (ents : list dirent) : outcome error (list cand) :=
  match ents with
  | [] => Ok []
  | e :: ents =>
      let childTarget := Join target (dname e) in
      '(info, childSrc) ← entry_target fsys srcPath e;
      cs ← (if IsDir info then
              cs ← rec childSrc childTarget (dir ++ [dname e]);
              Ok (MkCand dir childTarget (newDir (dname e) (originOf kind layer childSrc)) :: cs)
            else if IsRegular info then
              Ok [MkCand dir childTarget (file_node fsys kind layer (dname e) childSrc info)]
            else Ok []);
      rest ← list_ents rec srcPath target dir ents;
      Ok (cs ++ rest)
  end.

(** The candidates of a walk, without merging them. *)
Fixpoint listFS (fuel : nat) (srcPath target : bytes) (dir : tpath) : outcome error (list cand) :=
  match fuel with
  | O => Err (Stuck OutOfFuel)
  | S fuel =>
      ents ← lift (s_readdir fsys srcPath);
      list_ents (listFS fuel) srcPath target dir ents
  end.
End listing.

Fixpoint merge_cands (set : SetSpec) (ns : nodes) (cs : list cand) : outcome error nodes :=
  match cs with
  | [] => Ok ns
  | c :: cs =>
      '(ns, _) ← mergeChild ns (c_parent c) (c_node c) (c_logical c) (s_Collisions set) (s_Replacements set);
      merge_cands set ns cs
  end.

Lemma merge_cands_app set ns cs ds :
  merge_cands set ns (cs ++ ds) = (ns ← merge_cands set ns cs; merge_cands set ns ds).
Proof.
  revert ns. induction cs as [|c cs IH]; intros ns; [done|]. cbn.
  destruct (mergeChild _ _ _ _ _ _) as [[ns' p]| |]; cbn; [apply IH|done|done].
Qed.

(** Winners and replacements do not matter to a directory. *)
Lemma merge_dir_any ns p d logical cs rs : n_dir d = true ->
  mergeChild ns p d logical cs rs = mergeChild ns p d logical ∅ ∅.
Proof.
  intros Hd. unfold mergeChild. destruct (ns !! _) as [old|]; [|done]. rewrite Hd.
  by destruct (n_dir old).
Qed.

Lemma file_node_dir fsys kind layer name src i : n_dir (file_node fsys kind layer name src i) = false.
Proof. unfold file_node. by destruct (ownerOf i) as [[[? ?] ?] ?]. Qed.
Lemma file_node_name fsys kind layer name src i : n_name (file_node fsys kind layer name src i) = name.
Proof. unfold file_node. by destruct (ownerOf i) as [[[? ?] ?] ?]. Qed.
Lemma file_node_origin fsys kind layer name src i :
  n_origin (file_node fsys kind layer name src i) = originOf kind layer src.
Proof. unfold file_node. by destruct (ownerOf i) as [[[? ?] ?] ?]. Qed.

(** A walk merges its candidates, in order. *)
Lemma walkFS_merges set layer fsys kind fuel ns src target dir ns' :
  walkFS set layer fsys kind fuel ns src target dir = Ok ns' ->
  exists cs, listFS layer fsys kind fuel src target dir = Ok cs /\ merge_cands set ns cs = Ok ns'.
Proof.
  revert ns src target dir ns'. induction fuel as [|fuel IH]; intros ns src target dir ns'; [done|].
  cbn [walkFS listFS]. destruct (lift _) as [ents| |]; cbn [mbind outcome_bind]; [|done|done].
  revert ns. induction ents as [|e ents IHe]; intros ns; cbn [walk_ents list_ents].
  - intros <-%Ok_inj. by exists [].
  - destruct (entry_target fsys src e) as [[i childSrc]| |]; cbn [mbind outcome_bind]; [|done|done].
    destruct (IsDir i).
    + set (d := newDir _ _). rewrite <- (merge_dir_any ns dir d _ (s_Collisions set) (s_Replacements set)) by done.
      destruct (mergeChild _ _ _ _ _ _) as [[ns1 sub]| |] eqn:Hm; cbn [mbind outcome_bind]; [|done|done].
      pose proof (mergeChild_cases _ _ _ _ _ _ _ _ Hm) as [Hsub _]. cbn in Hsub. subst sub.
      destruct (walkFS _ _ _ _ _ _ _ _ _) as [ns2| |] eqn:Hw; cbn [mbind outcome_bind]; [|done|done].
      intros (ds & -> & Hds)%IHe. apply IH in Hw as (cs & -> & Hcs). cbn [mbind outcome_bind].
      eexists. split; [reflexivity|]. cbn [app merge_cands c_parent c_node c_logical]. rewrite Hm. cbn [mbind outcome_bind].
      by rewrite merge_cands_app, Hcs.
    + destruct (IsRegular i); cbn [mbind outcome_bind].
      * destruct (mergeChild _ _ _ _ _ _) as [[ns1 sub]| |] eqn:Hm; cbn [mbind outcome_bind]; [|done|done].
        intros (ds & -> & Hds)%IHe. cbn [mbind outcome_bind]. eexists. split; [reflexivity|].
        cbn [app merge_cands c_parent c_node c_logical]. rewrite Hm. done.
      * intros (ds & -> & Hds)%IHe. cbn [mbind outcome_bind]. by exists ds.
Qed.

(** The candidates of one subtree of a source. *)
Definition listTree (layer : LayerSpec) (fsys : Source) (kind : OriginKind) (fuel : nat) (srcDir target : bytes)
    : outcome error (list cand) :=
  '(info, srcPath) ← statFollow fsys srcDir;
  listFS layer fsys kind fuel srcPath target (path_of target).

(** The candidates of a layer: those of its distribution directory, and of its
    stand directory if it boots. *)
Definition layer_cands (fuel : nat) (set : SetSpec) (layer : LayerSpec) (res : Resolved) : outcome error (list cand) :=
  '(distPath, standPath) ← layerPaths layer;
  cs ← listTree layer (r_FS res) (r_Kind res) fuel distPath (Join (s_Name set) distDir);
  if negb (l_Boot layer) then Ok cs
  else ds ← listTree layer (r_FS res) (r_Kind res) fuel standPath (Join (s_Name set) standDir); Ok (cs ++ ds).

(** ** What a merge settles *)

Definition winner_at (set : SetSpec) (logical : bytes) : bytes := default [] (s_Collisions set !! logical).

(** A replacement configured between the layers of two files. *)
Definition rstep (set : SetSpec) (x y : node) : Prop :=
  default [] (s_Replacements set !! Source_ (n_origin x)) = Source_ (n_origin y).

(** [n] stands for the candidate: it is the candidate, or one compared equal to
    it, or what configured replacements made of that - unless a winner is named
    for the path, which [checkCollisions] settles. *)
Definition stands_for (set : SetSpec) (c : cand) (n : node) : Prop :=
  n_dir n = n_dir (c_node c) /\
  (n_dir n = false -> winner_at set (c_logical c) = [] ->
    exists o, (o = c_node c \/ sameContent o (c_node c) = Ok true) /\ rtc (rstep set) o n).

(** A candidate from a source whose names are names. *)
Record good_cand (sname lname : bytes) (c : cand) : Prop := {
  gc_names : Forall name_ok (c_path c);
  gc_logical : c_logical c = join_slash (c_path c);
  gc_head : head (c_path c) = Some sname;
  gc_layer : Source_ (n_origin (c_node c)) = lname;
  gc_ino : n_ino (c_node c) = 0;
}.

Definition goods (sname : bytes) (cs : list cand) : Prop := Forall (fun c => exists l, good_cand sname l c) cs.

Definition covered (set : SetSpec) (ns : nodes) (cs : list cand) : Prop := forall c, c ∈ cs ->
  (exists l, good_cand (s_Name set) l c) /\ exists n, ns !! c_path c = Some n /\ stands_for set c n.

Lemma mergeChild_inv ns parent c logical cs rs ns' p :
  mergeChild ns parent c logical cs rs = Ok (ns', p) ->
  p = parent ++ [n_name c] /\
  (ns !! p = None /\ ns' = <[p := c]> ns \/
   exists old, ns !! p = Some old /\ n_dir old = n_dir c /\
     (n_dir c = true /\ ns' = ns \/
      n_dir c = false /\ default [] (cs !! logical) <> [] /\ (ns' = ns \/ ns' = <[p := c]> ns) \/
      n_dir c = false /\ default [] (cs !! logical) = [] /\ 
        default [] (rs !! Source_ (n_origin old)) = Source_ (n_origin c) /\ ns' = <[p := c]> ns \/
      n_dir c = false /\ default [] (cs !! logical) = [] /\ sameContent old c = Ok true /\ ns' = ns)).
Proof.
  unfold mergeChild. destruct (ns !! _) as [old|] eqn:Hold.
  - destruct (Bool.eqb (n_dir old) (n_dir c)) eqn:Ed; cbn; [|done]. apply eqb_prop in Ed.
    destruct (n_dir old) eqn:Hd.
    { intros [= <- <-]. split; [done|]. right. exists old. rewrite Hold. split_and!; [done|congruence|left; done]. }
    case_bool_decide as Hw; cbn [negb].
    + case_bool_decide as Hr.
      * intros [= <- <-]. split; [done|]. right. exists old. rewrite Hold. split_and!; [done|congruence|].
        right; right; left. done.
      * destruct (sameContent old c) as [[]| |] eqn:Hs; cbn; try done. intros [= <- <-]. split; [done|].
        right. exists old. rewrite Hold. split_and!; [done|congruence|]. right; right; right. done.
    + case_bool_decide; intros [= <- <-]; (split; [done|]); right; exists old; rewrite Hold;
        (split_and!; [done|congruence|]); right; left; auto.
  - intros [= <- <-]. split; [done|]. left. done.
Qed.

Lemma merge_covers set ns c ns' p ds :
  mergeChild ns (c_parent c) (c_node c) (c_logical c) (s_Collisions set) (s_Replacements set) = Ok (ns', p) ->
  (exists l, good_cand (s_Name set) l c) -> covered set ns ds -> covered set ns' (ds ++ [c]).
Proof.
  intros Hm [l Hc] Hds. apply mergeChild_inv in Hm as [-> Hm]. fold (c_path c) in *.
  intros d Hd. apply elem_of_app in Hd as [Hd|Hd%list_elem_of_singleton].
  - destruct (Hds d Hd) as ([l' Hgd] & n & Hn & Hst). split; [by exists l'|].
    destruct (decide (c_path d = c_path c)) as [E|Hne].
    2:{ exists n. split; [|done]. destruct Hm as [(_ & ->)|(old & _ & _ & [(_ & ->)|[(_ & _ & [-> | ->])|[(_ & _ & _ & ->)|(_ & _ & _ & ->)]]])];
          rewrite ?lookup_insert_ne by done; done. }
    rewrite E in *. assert (Hlog : c_logical c = c_logical d) by (rewrite (gc_logical _ _ _ Hc), (gc_logical _ _ _ Hgd); congruence).
    destruct Hm as [(Hnone & _)|(old & Hold & Hdir & Hm)]; [congruence|].
    assert (old = n) as -> by congruence. destruct Hst as [Hnd Hst].
    destruct Hm as [(_ & ->)|[(Hf & Hw & [-> | ->])|[(Hf & Hw & Hr & ->)|(Hf & Hw & Hs & ->)]]].
    + by exists n.
    + by exists n.
    + exists (c_node c). rewrite lookup_insert_eq. split; [done|]. split; [congruence|].
      intros _ Hw'. unfold winner_at in Hw'. rewrite <- Hlog in Hw'. done.
    + exists (c_node c). rewrite lookup_insert_eq. split; [done|]. split; [congruence|]. intros Hf' Hw'.
      destruct (Hst ltac:(congruence) Hw') as (o & Ho & Hrtc). exists o. split; [done|].
      eapply rtc_r; [exact Hrtc|]. exact Hr.
    + by exists n.
  - subst d. split; [by exists l|].
    assert (Hself : stands_for set c (c_node c)).
    { split; [done|]. intros _ _. exists (c_node c). split; [by left|]. apply rtc_refl. }
    destruct Hm as [(_ & ->)|(old & Hold & Hdir & Hm)]; [exists (c_node c); by rewrite lookup_insert_eq|].
    destruct Hm as [(Hf & ->)|[(Hf & Hw & [-> | ->])|[(Hf & Hw & Hr & ->)|(Hf & Hw & Hs & ->)]]].
    + exists old. split; [done|]. split; [done|]. congruence.
    + exists old. split; [done|]. split; [done|]. by intros _ ?.
    + exists (c_node c). by rewrite lookup_insert_eq.
    + exists (c_node c). by rewrite lookup_insert_eq.
    + exists old. split; [done|]. split; [done|]. intros _ _. exists old. split; [by right|]. apply rtc_refl.
Qed.

(** What a piece of the build does to the tree: nothing outside the set, its
    candidates covered, no file that is not one of them. *)
Record adds (set : SetSpec) (cs : list cand) (ns ns' : nodes) : Prop := {
  ad_frame : forall p n, head p <> Some (s_Name set) -> ns !! p = Some n -> ns' !! p = Some n;
  ad_covers : forall ds, covered set ns ds -> covered set ns' (ds ++ cs);
  ad_files : forall p n, ns' !! p = Some n -> n_dir n = false ->
    ns !! p = Some n \/ exists c, c ∈ cs /\ c_path c = p /\ n = c_node c;
  ad_fresh : (forall p n, ns !! p = Some n -> n_ino n = 0) -> forall p n, ns' !! p = Some n -> n_ino n = 0;
}.

Lemma adds_trans set cs ds n1 n2 n3 : adds set cs n1 n2 -> adds set ds n2 n3 -> adds set (cs ++ ds) n1 n3.
Proof.
  intros H1 H2. split.
  - intros p n Hp Hn. apply (ad_frame _ _ _ _ H2); [done|]. by apply (ad_frame _ _ _ _ H1).
  - intros es He. rewrite app_assoc. apply (ad_covers _ _ _ _ H2). by apply (ad_covers _ _ _ _ H1).
  - intros p n Hn Hf. destruct (ad_files _ _ _ _ H2 p n Hn Hf) as [Hn2|(c & Hc & E)].
    + destruct (ad_files _ _ _ _ H1 p n Hn2 Hf) as [|(c & Hc & E)]; [by left|].
      right. exists c. split; [apply elem_of_app; by left|done].
    + right. exists c. split; [apply elem_of_app; by right|done].
  - intros Hz. apply (ad_fresh _ _ _ _ H2). by apply (ad_fresh _ _ _ _ H1).
Qed.

Lemma adds_nil set ns ns' :
  (forall p n, ns !! p = Some n -> ns' !! p = Some n) ->
  (forall p n, ns' !! p = Some n -> ns !! p = None -> n_dir n = true /\ n_ino n = 0) -> adds set [] ns ns'.
Proof.
  intros Hk Hn. split.
  - intros p n _. apply Hk.
  - intros ds Hds c Hc. rewrite app_nil_r in Hc. destruct (Hds c Hc) as (Hg & n & Hp & Hs). eauto.
  - intros p n Hp Hf. destruct (ns !! p) as [m|] eqn:Hm; [left; rewrite (Hk _ _ Hm) in Hp; congruence|].
    destruct (Hn p n Hp Hm). congruence.
  - intros Hz p n Hp. destruct (ns !! p) as [m|] eqn:Hm; [rewrite (Hk _ _ Hm) in Hp; injection Hp as <-; by eapply Hz|].
    by destruct (Hn p n Hp Hm).
Qed.

Lemma merge_adds set ns c ns' p :
  mergeChild ns (c_parent c) (c_node c) (c_logical c) (s_Collisions set) (s_Replacements set) = Ok (ns', p) ->
  (exists l, good_cand (s_Name set) l c) -> adds set [c] ns ns'.
Proof.
  intros Hm Hc. assert (Hcov := fun ds => merge_covers set ns c ns' p ds Hm Hc).
  destruct Hc as [l Hc]. apply mergeChild_inv in Hm as [-> Hm]. fold (c_path c) in *.
  assert (Hor : ns' = ns \/ ns' = <[c_path c := c_node c]> ns).
  { destruct Hm as [(_ & ->)|(old & _ & _ & [(_ & ->)|[(_ & _ & [-> | ->])|[(_ & _ & _ & ->)|(_ & _ & _ & ->)]]])]; auto. }
  split; [|exact Hcov| |].
  - intros q n Hq Hn. destruct Hor as [-> | ->]; [done|]. rewrite lookup_insert_ne; [done|].
    intros <-. by rewrite (gc_head _ _ _ Hc) in Hq.
  - intros q n Hn Hf. destruct Hor as [-> | ->]; [by left|].
    destruct (decide (q = c_path c)) as [->|Hne].
    + right. exists c. rewrite lookup_insert_eq in Hn. injection Hn as <-. split; [by left|done].
    + left. by rewrite lookup_insert_ne in Hn.
  - intros Hz q n Hn. destruct Hor as [-> | ->]; [by eapply Hz|].
    destruct (decide (q = c_path c)) as [->|Hne].
    + rewrite lookup_insert_eq in Hn. injection Hn as <-. apply Hc.
    + rewrite lookup_insert_ne in Hn by done. by eapply Hz.
Qed.

Lemma merge_cands_adds set ns cs ns' : merge_cands set ns cs = Ok ns' -> goods (s_Name set) cs -> adds set cs ns ns'.
Proof.
  revert ns. induction cs as [|c cs IH]; intros ns; cbn [merge_cands].
  - intros <-%Ok_inj _. apply adds_nil; [done|congruence].
  - destruct (mergeChild _ _ _ _ _ _) as [[ns1 p]| |] eqn:Hm; cbn [mbind outcome_bind]; [|done|done].
    intros Hcs Hg. inv Hg as [|? ? Hc Hg']. apply (adds_trans set [c] cs _ ns1); [|by apply IH].
    by eapply merge_adds.
Qed.

(** ** Sources with plain names *)

(** What [io/fs] documents of [DirEntry.Name]: the last element of a path. *)
Definition plain (fsys : Source) : Prop := forall name ents e,
  s_readdir fsys name = Ok ents -> e ∈ ents -> name_ok (dname e).

Definition plain_resolver (r : Resolver) : Prop := forall ref res, r ref = Ok res -> plain (r_FS res).

Lemma listFS_good sname layer fsys kind fuel src dir cs : plain fsys ->
  Forall name_ok dir -> head dir = Some sname ->
  listFS layer fsys kind fuel src (join_slash dir) dir = Ok cs ->
  Forall (good_cand sname (l_Name layer)) cs.
Proof.
  intros Hpl. revert src dir cs. induction fuel as [|fuel IH]; intros src dir cs Hd Hh; [done|].
  cbn [listFS]. destruct (s_readdir fsys src) as [ents| |] eqn:He; cbn [lift mbind outcome_bind]; [|done|done].
  assert (Hpe : forall e, e ∈ ents -> name_ok (dname e)) by (intros e; by apply (Hpl src)). clear He. revert cs.
  assert (Hne : dir <> []) by (by intros ->).
  induction ents as [|e ents IHe]; intros cs; cbn [list_ents].
  - by intros <-%Ok_inj.
  - assert (Hname : name_ok (dname e)) by (apply Hpe; by left).
    rewrite Join_names by done.
    assert (Hd' : Forall name_ok (dir ++ [dname e])) by (apply Forall_app; split; [done|by apply Forall_singleton]).
    assert (Hh' : head (dir ++ [dname e]) = Some sname) by (by destruct dir).
    destruct (entry_target fsys src e) as [[i childSrc]| |]; cbn [mbind outcome_bind]; [|done|done].
    destruct (IsDir i).
    + destruct (listFS _ _ _ _ _ _ _) as [ds| |] eqn:Hl; cbn [mbind outcome_bind]; [|done|done].
      apply IH in Hl; [|done|done].
      destruct (list_ents _ _ _ _ _ _ _ _) as [rest| |] eqn:Hr; cbn [mbind outcome_bind]; [|done|done].
      intros <-%Ok_inj. cbn [app]. constructor; [by split|]. apply Forall_app. split; [done|].
      apply IHe; [|done]. intros x Hx. apply Hpe. by right.
    + destruct (IsRegular i); cbn [mbind outcome_bind];
      (destruct (list_ents _ _ _ _ _ _ _ _) as [rest| |] eqn:Hr; cbn [mbind outcome_bind]; [|done|done]);
      intros <-%Ok_inj; cbn [app].
      * constructor; [|apply IHe; [|done]; intros x Hx; apply Hpe; by right].
        split; unfold c_path; cbn; rewrite ?file_node_name, ?file_node_origin; try done.
        unfold file_node. by destruct (ownerOf i) as [[[? ?] ?] ?].
      * apply IHe; [|done]. intros x Hx. apply Hpe. by right.
Qed.

(** A walk keeps the tree well formed. *)
Lemma walkFS_wf set layer fsys kind fuel ns src target dir ns' :
  walkFS set layer fsys kind fuel ns src target dir = Ok ns' ->
  wf ns -> (exists d, ns !! dir = Some d /\ n_dir d = true) -> wf ns' /\ grows ns ns'.
Proof.
  revert ns src target dir ns'. induction fuel as [|fuel IH]; intros ns src target dir ns'; [done|].
  cbn [walkFS]. destruct (lift _) as [ents| |]; cbn [mbind outcome_bind]; [|done|done].
  revert ns. induction ents as [|e ents IHe]; intros ns; cbn [walk_ents].
  - by intros <-%Ok_inj.
  - intros Hw Hwf Hd. destruct (entry_target fsys src e) as [[i childSrc]| |]; cbn [mbind outcome_bind] in Hw; [|done|done].
    assert (Hstep : exists ns1, wf ns1 /\ grows ns ns1 /\
      walk_ents set layer fsys kind (walkFS set layer fsys kind fuel) ns1 src target dir ents = Ok ns').
    { destruct (IsDir i).
      - destruct (mergeChild _ _ _ _ _ _) as [[ns1 sub]| |] eqn:Hm; cbn [mbind outcome_bind] in Hw; [|done|done].
        destruct (mergeChild_wf _ _ _ _ _ _ _ _ Hm Hwf Hd) as (Hwf1 & Hg1 & n & Hn & Hnd).
        destruct (walkFS _ _ _ _ _ _ _ _ _) as [ns2| |] eqn:Hw2; cbn [mbind outcome_bind] in Hw; [|done|done].
        destruct (IH _ _ _ _ _ Hw2 Hwf1 ltac:(eauto)) as [Hwf2 Hg2]. exists ns2. split_and!; [done|by etrans|done].
      - destruct (IsRegular i); cbn [mbind outcome_bind] in Hw; [|by exists ns].
        destruct (mergeChild _ _ _ _ _ _) as [[ns1 sub]| |] eqn:Hm; cbn [mbind outcome_bind] in Hw; [|done|done].
        destruct (mergeChild_wf _ _ _ _ _ _ _ _ Hm Hwf Hd) as (Hwf1 & Hg1 & _). eauto. }
    destruct Hstep as (ns1 & Hwf1 & Hg1 & Hrest). destruct Hd as (d & Hd & Hdir).
    destruct (Hg1 _ _ Hd) as (d1 & Hd1 & Hdir1).
    destruct (IHe ns1 Hrest Hwf1) as [H1 H2]; [exists d1; by rewrite Hdir1|]. split; [done|]. by etrans.
Qed.

Lemma listFS_path_of layer fsys kind fuel src dir : Forall name_ok dir -> dir <> [] ->
  listFS layer fsys kind fuel src (join_slash dir) (path_of (join_slash dir)) =
  listFS layer fsys kind fuel src (join_slash dir) dir.
Proof. intros Hd Hne. by rewrite path_of_join. Qed.

Lemma mergeTree_adds set layer fsys kind fuel ns srcDir dir ns' : plain fsys ->
  Forall name_ok dir -> head dir = Some (s_Name set) ->
  mergeTree set layer fsys kind fuel ns srcDir (join_slash dir) = Ok ns' -> wf ns ->
  wf ns' /\ exists cs, listTree layer fsys kind fuel srcDir (join_slash dir) = Ok cs /\
    Forall (good_cand (s_Name set) (l_Name layer)) cs /\ adds set cs ns ns'.
Proof.
  intros Hpl Hd Hh. unfold mergeTree, listTree.
  destruct (statFollow fsys srcDir) as [[i srcPath]| |]; cbn [mbind outcome_bind]; [|done|done].
  destruct (negb (IsDir i)); [done|]. intros Hm Hw. assert (Hne : dir <> []) by (by intros ->).
  assert (Hens : ensureDir ns (join_slash dir) (originOf kind layer srcPath) =
    ensure_parts ns [] [] dir (originOf kind layer srcPath)).
  { unfold ensureDir. pose proof (path_of_join dir Hd Hne) as Hp. unfold path_of in Hp.
    case_bool_decide; [congruence|]. by rewrite Hp. }
  rewrite Hens in Hm. pose proof (ensure_parts_spec ns [] [] dir (originOf kind layer srcPath) Hw (wf_root _ Hw)) as Hs.
  destruct (ensure_parts _ _ _ _ _) as [ns1 r]. destruct Hs as (Hw1 & Hk & Hn & _ & Hr).
  destruct r as [q| |]; cbn [mbind outcome_bind] in Hm; [|done|done]. destruct Hr as [-> Hq]. cbn [app] in *.
  destruct (walkFS_wf _ _ _ _ _ _ _ _ _ _ Hm Hw1 Hq) as [Hw' _].
  apply walkFS_merges in Hm as (cs & Hcs & Hmc). split; [done|]. exists cs.
  rewrite path_of_join by done. split; [done|]. pose proof (listFS_good _ _ _ _ _ _ _ _ Hpl Hd Hh Hcs) as Hg.
  split; [done|]. apply (adds_trans set [] cs _ ns1).
  - apply adds_nil; [done|]. intros p n Hp Hnone. destruct (Hn p n Hp Hnone) as (? & ? & _). done.
  - apply merge_cands_adds; [done|]. eapply Forall_impl; [exact Hg|]. eauto.
Qed.

(** ** Layers, sets, and the whole build *)

Lemma name_ok_dist : name_ok distDir.
Proof. split_and!; [done|done|done|]. vm_compute. set_solver. Qed.
Lemma name_ok_stand : name_ok standDir.
Proof. split_and!; [done|done|done|]. vm_compute. set_solver. Qed.

Lemma merge_layer_adds fuel set layer res ns ns' : name_ok (s_Name set) -> plain (r_FS res) ->
  merge_layer fuel set layer res ns = Ok ns' -> wf ns ->
  wf ns' /\ exists cs, layer_cands fuel set layer res = Ok cs /\
    Forall (good_cand (s_Name set) (l_Name layer)) cs /\ adds set cs ns ns'.
Proof.
  intros Hs Hpl. unfold merge_layer, layer_cands.
  assert (Hj : forall d, name_ok d -> Join (s_Name set) d = join_slash [s_Name set; d]).
  { intros d Hd. exact (Join_names [s_Name set] d ltac:(done) ltac:(by apply Forall_singleton) Hd). }
  rewrite (Hj _ name_ok_dist), (Hj _ name_ok_stand).
  assert (Hf : forall d, name_ok d -> Forall name_ok [s_Name set; d]) by (intros; apply Forall_cons; split; [done|by apply Forall_singleton]).
  destruct (layerPaths layer) as [[distPath standPath]| |]; cbn [mbind outcome_bind]; [|done|done].
  destruct (mergeTree _ _ _ _ _ _ distPath _) as [ns1| |] eqn:Hm; cbn [mbind outcome_bind]; [|done|done].
  intros Hrest Hw. destruct (mergeTree_adds _ _ _ _ _ _ _ _ _ Hpl (Hf _ name_ok_dist) ltac:(done) Hm Hw)
    as (Hw1 & cs & -> & Hg & Ha). cbn [mbind outcome_bind].
  destruct (negb (l_Boot layer)).
  - apply Ok_inj in Hrest as <-. split; [done|]. exists cs. done.
  - destruct (s_stat (r_FS res) standPath); [|done|done].
    destruct (mergeTree_adds _ _ _ _ _ _ _ _ _ Hpl (Hf _ name_ok_stand) ltac:(done) Hrest Hw1)
      as (Hw2 & ds & -> & Hg' & Ha'). cbn [mbind outcome_bind]. split; [done|]. exists (cs ++ ds).
    split_and!; [done|by apply Forall_app|by eapply adds_trans].
Qed.

(** The sources open are what the resolver gave for them. *)
Definition opened (r : Resolver) (b : building) : Prop :=
  forall ref res, b_resolved b !! ref = Some res -> r ref = Ok res.

(** The candidates of each layer of a set. *)
Definition set_cands (fuel : nat) (r : Resolver) (set : SetSpec) (layer : LayerSpec) (cs : list cand) : Prop :=
  l_Name layer <> [] /\ exists res, r (l_Source layer) = Ok res /\ layer_cands fuel set layer res = Ok cs /\
    Forall (good_cand (s_Name set) (l_Name layer)) cs.

Lemma openSource_opened r layer b res b' : openSource r layer b = (Ok res, b') -> opened r b ->
  opened r b' /\ r (l_Source layer) = Ok res /\ b_nodes b' = b_nodes b.
Proof.
  unfold openSource. intros Ho Hop. destruct (b_resolved b !! _) as [x|] eqn:E.
  - injection Ho as -> ->. split_and!; [done|by apply Hop|done].
  - destruct (r (l_Source layer)) as [x| |] eqn:Er; try done. injection Ho as -> <-. split_and!; [|done|done].
    intros ref y. cbn. destruct (decide (ref = l_Source layer)) as [->|].
    + rewrite lookup_insert_eq. congruence.
    + rewrite lookup_insert_ne by done. apply Hop.
Qed.

Lemma add_layers_adds fuel set layers r b b' : name_ok (s_Name set) -> plain_resolver r -> opened r b ->
  add_layers fuel set layers r b = (Ok tt, b') -> wf (b_nodes b) ->
  wf (b_nodes b') /\ opened r b' /\ exists css, Forall2 (set_cands fuel r set) layers css /\
    adds set (mjoin css) (b_nodes b) (b_nodes b').
Proof.
  intros Hs Hpl. revert b. induction layers as [|layer layers IH]; intros b Hop; cbn [add_layers].
  - intros [= <-] Hw. split_and!; [done|done|]. exists []. split; [constructor|]. apply adds_nil; [done|congruence].
  - unfold addLayer. case_bool_decide as Hn; [done|]. case_bool_decide as Hsrc; [done|].
    destruct (openSource r layer b) as [[res| |] b1] eqn:Ho; try done.
    destruct (openSource_opened _ _ _ _ _ Ho Hop) as (Hop1 & Hr & Hb1).
    destruct (merge_layer fuel set layer res (b_nodes b1)) as [ns| |] eqn:Hm; try done.
    intros Hrest Hw. rewrite <- Hb1 in Hw.
    destruct (merge_layer_adds _ _ _ _ _ _ Hs (Hpl _ _ Hr) Hm Hw) as (Hw1 & cs & Hcs & Hg & Ha).
    destruct (IH (MkBuilding ns (b_resolved b1) (b_closers b1)) Hop1 Hrest Hw1) as (Hw2 & Hop2 & css & Hcss & Ha2).
    split_and!; [done|done|]. exists (cs :: css). split; [constructor; [|done]; split; eauto|].
    cbn [mjoin list_join]. rewrite <- Hb1. by eapply adds_trans.
Qed.

(** What is served for a candidate once its set is built. *)
Definition served_for (set : SetSpec) (c : cand) (n : node) : Prop :=
  n_dir n = n_dir (c_node c) /\
  (n_dir n = false ->
   (winner_at set (c_logical c) <> [] -> Source_ (n_origin n) = winner_at set (c_logical c)) /\
   (winner_at set (c_logical c) = [] ->
    exists o, (o = c_node c \/ sameContent o (c_node c) = Ok true) /\ rtc (rstep set) o n)).

Definition settled (set : SetSpec) (ns : nodes) (cs : list cand) : Prop := forall c, c ∈ cs ->
  exists n, ns !! c_path c = Some n /\ served_for set c n.

Lemma check_paths_ok ns cs paths : wf ns -> check_paths ns cs paths = Ok tt -> forall p, p ∈ paths ->
  exists n, ns !! path_of p = Some n /\ n_dir n = false /\ Source_ (n_origin n) = default [] (cs !! p).
Proof.
  intros Hw. induction paths as [|p paths IH]; cbn [check_paths]; [by intros _ ? ?%elem_of_nil|].
  rewrite lookup_wf by done. destruct (ns !! path_of p) as [n|] eqn:Hp; cbn [fmap option_fmap option_map]; [|done].
  destruct (n_dir n) eqn:Hd; [done|]. case_bool_decide as Hsrc; cbn [negb]; [|done].
  intros H q [->|Hq]%elem_of_cons; [by exists n|by apply IH].
Qed.

Lemma covered_settled set ns cs : wf ns -> covered set ns cs -> checkCollisions ns set = Ok tt -> settled set ns cs.
Proof.
  intros Hw Hc Hk c Hin. destruct (Hc c Hin) as ([l Hg] & n & Hn & Hd & Hst). exists n. split; [done|].
  split; [done|]. intros Hf. split; [|by apply Hst]. intros Hwin. unfold winner_at in *.
  destruct (s_Collisions set !! c_logical c) as [w|] eqn:Hl; [|done].
  unfold checkCollisions in Hk. destruct (check_paths_ok _ _ _ Hw Hk (c_logical c)) as (m & Hm & _ & Hsrc).
  - rewrite merge_sort_Permutation. apply list_elem_of_fmap. exists (c_logical c, w). split; [done|].
    by apply elem_of_map_to_list.
  - rewrite (gc_logical _ _ _ Hg), path_of_join in Hm by (apply Hg || by unfold c_path; destruct (c_parent c)).
    assert (m = n) as -> by congruence. by rewrite Hsrc, Hl.
Qed.

Lemma build_set_adds fuel r set b b' : name_ok (s_Name set) -> plain_resolver r -> opened r b ->
  build_set fuel r set b = (Ok tt, b') -> wf (b_nodes b) ->
  (forall p n, b_nodes b !! p = Some n -> n_ino n = 0) ->
  wf (b_nodes b') /\ opened r b' /\ (forall p n, b_nodes b' !! p = Some n -> n_ino n = 0) /\
  b_nodes b !! [s_Name set] = None /\ is_Some (b_nodes b' !! [s_Name set]) /\
  (forall p n, head p <> Some (s_Name set) -> b_nodes b !! p = Some n -> b_nodes b' !! p = Some n) /\
  exists css, Forall2 (set_cands fuel r set) (s_Layers set) css /\ settled set (b_nodes b') (mjoin css) /\
    forall p n, b_nodes b' !! p = Some n -> n_dir n = false ->
      b_nodes b !! p = Some n \/ exists c, c ∈ mjoin css /\ c_path c = p /\ n = c_node c.
Proof.
  intros Hs Hpl Hop. unfold build_set. case_bool_decide; [done|].
  destruct (b_nodes b !! [s_Name set]) eqn:Hnone; [done|].
  destruct (checkReplacements set); [|done|done].
  destruct (add_layers _ _ _ _ _) as [[[]| |] b1] eqn:Ha; try done. intros Hb Hw Hz.
  injection Hb as Hk <-.
  set (d := newDir (s_Name set) zeroOrigin) in *.
  assert (Hw0 : wf (<[[s_Name set] := d]> (b_nodes b))).
  { apply (wf_insert (b_nodes b) [] d); [done|by apply wf_root|]. cbn. by rewrite Hnone. }
  assert (Hop0 : opened r (MkBuilding (<[[s_Name set] := d]> (b_nodes b)) (b_resolved b) (b_closers b))) by exact Hop.
  destruct (add_layers_adds _ _ _ _ _ _ Hs Hpl Hop0 Ha Hw0) as (Hw1 & Hop1 & css & Hcss & Had).
  cbn [b_nodes] in Had. split_and!; [done|done| |done| | |].
  - eapply (ad_fresh _ _ _ _ Had). intros p n Hp. destruct (decide (p = [s_Name set])) as [->|].
    + rewrite lookup_insert_eq in Hp. by injection Hp as <-.
    + rewrite lookup_insert_ne in Hp by done. by eapply Hz.
  - assert (Hc0 : covered set (<[[s_Name set] := d]> (b_nodes b)) [MkCand [] (s_Name set) d]).
    { intros c ->%list_elem_of_singleton. split.
      - exists []. split; try done. by apply Forall_singleton.
      - exists d. cbn. rewrite lookup_insert_eq. done. }
    destruct (ad_covers _ _ _ _ Had _ Hc0 (MkCand [] (s_Name set) d)) as (_ & n & Hn & _); [by left|].
    cbn in Hn. eauto.
  - intros p n Hh Hp. apply (ad_frame _ _ _ _ Had); [done|]. rewrite lookup_insert_ne; [done|]. by intros <-.
  - exists css. split; [done|]. split.
    + apply covered_settled; [done| |done]. apply (ad_covers _ _ _ _ Had []). by intros c ?%elem_of_nil.
    + intros p n Hp Hf. destruct (ad_files _ _ _ _ Had p n Hp Hf) as [H0|]; [|by right].
      destruct (decide (p = [s_Name set])) as [->|].
      * rewrite lookup_insert_eq in H0. injection H0 as <-. done.
      * left. by rewrite lookup_insert_ne in H0.
Qed.

(** A built set: its layers' candidates, each settled. *)
Definition set_built (fuel : nat) (r : Resolver) (ns : nodes) (set : SetSpec) (css : list (list cand)) : Prop :=
  Forall2 (set_cands fuel r set) (s_Layers set) css /\ settled set ns (mjoin css).

Lemma set_cands_head fuel r set css c : Forall2 (set_cands fuel r set) (s_Layers set) css -> c ∈ mjoin css ->
  exists l, good_cand (s_Name set) l c.
Proof.
  intros Hf Hc. apply list_elem_of_join in Hc as (cs & Hc & Hcs).
  apply list_elem_of_lookup in Hcs as [i Hi]. destruct (Forall2_lookup_r _ _ _ _ _ Hf Hi) as (l & _ & _ & res & _ & _ & Hg).
  exists (l_Name l). by eapply Forall_forall in Hg.
Qed.

Lemma build_sets_adds fuel r sets b b' : Forall (fun set => name_ok (s_Name set)) sets -> plain_resolver r -> opened r b ->
  build_sets fuel r sets b = (Ok tt, b') -> wf (b_nodes b) ->
  (forall p n, b_nodes b !! p = Some n -> n_ino n = 0) ->
  wf (b_nodes b') /\ (forall p n, b_nodes b' !! p = Some n -> n_ino n = 0) /\
  (forall p n s, head p = Some s -> is_Some (b_nodes b !! [s]) -> b_nodes b !! p = Some n -> b_nodes b' !! p = Some n) /\
  exists csss, Forall2 (set_built fuel r (b_nodes b')) sets csss /\
    forall p n, b_nodes b' !! p = Some n -> n_dir n = false ->
      b_nodes b !! p = Some n \/ exists c, c ∈ mjoin (mjoin csss) /\ c_path c = p /\ n = c_node c.
Proof.
  intros Hs Hpl. revert b. induction Hs as [|set sets Hn Hs IH]; intros b Hop; cbn [build_sets].
  - intros [= <-] Hw Hz. split_and!; [done|done|done|]. exists []. split; [constructor|]. auto.
  - destruct (build_set fuel r set b) as [[[]| |] b1] eqn:Hb; try done. intros Hrest Hw Hz.
    destruct (build_set_adds _ _ _ _ _ Hn Hpl Hop Hb Hw Hz) as (Hw1 & Hop1 & Hz1 & Hnone & Hdir & Hfr & css & Hcss & Hset & Hfiles).
    destruct (IH _ Hop1 Hrest Hw1 Hz1) as (Hw2 & Hz2 & Hfr2 & csss & Hb2 & Hfiles2).
    split_and!; [done|done| |].
    + intros p n s Hp Hsome Hpn. assert (s <> s_Name set) by (intros ->; rewrite Hnone in Hsome; by destruct Hsome).
      apply (Hfr2 p n s); [done| |apply Hfr; [congruence|done]].
      destruct Hsome as [d Hd]. exists d. apply Hfr; [|done]. cbn. congruence.
    + exists (css :: csss). split; [constructor; [|done]|].
      * split; [done|]. intros c Hc. destruct (Hset c Hc) as (n & Hpn & Hserved). exists n. split; [|done].
        destruct (set_cands_head _ _ _ _ _ Hcss Hc) as [l Hg].
        apply (Hfr2 _ _ (s_Name set)); [apply Hg|done|done].
      * intros p n Hp Hf. cbn [mjoin list_join]. rewrite join_app.
        destruct (Hfiles2 p n Hp Hf) as [Hp1|(c & Hc & E)].
        -- destruct (Hfiles p n Hp1 Hf) as [|(c & Hc & E)]; [by left|]. right. exists c. split; [apply elem_of_app; by left|done].
        -- right. exists c. split; [apply elem_of_app; by right|done].
Qed.

Lemma Build_built fuel sets r t : Build fuel sets r = Ok t -> Forall (fun set => name_ok (s_Name set)) sets ->
  plain_resolver r -> Efs.RootIno + Z.of_nat (base.size (t_nodes t)) < 2 ^ 64 ->
  served t /\ exists ns csss, renumbered [] ns (t_nodes t) /\ Forall2 (set_built fuel r ns) sets csss /\
    forall p n, ns !! p = Some n -> n_dir n = false -> exists c, c ∈ mjoin (mjoin csss) /\ c_path c = p /\ n = c_node c.
Proof.
  unfold Build. destruct (build_sets _ _ _ _) as [[[]| |] b] eqn:Hb; try done.
  intros <-%Ok_inj Hs Hpl Hroom. rewrite number_size in Hroom. cbn in Hroom.
  assert (Hroot : forall p n, b_nodes build_start !! p = Some n -> p = [] /\ n = newDir [dot] zeroOrigin).
  { intros p n. cbn. intros [<- <-]%lookup_singleton_Some. done. }
  assert (Hw : wf (b_nodes build_start)).
  { split; [by exists (newDir [dot] zeroOrigin)|]. intros p c n [E _]%Hroot. by destruct p. }
  assert (Hz : forall p n, b_nodes build_start !! p = Some n -> n_ino n = 0) by (by intros p n [_ ->]%Hroot).
  assert (Hop : opened r build_start) by (intros ref res; cbn; by rewrite lookup_empty).
  destruct (build_sets_adds _ _ _ _ _ Hs Hpl Hop Hb Hw Hz) as (Hw' & Hz' & _ & csss & Hbuilt & Hfiles).
  assert (Hnb : numberable (MkTree (b_nodes b) (b_closers b) 0)).
  { split; [done| |cbn in *; unfold Efs.RootIno in *; lia].
    split; cbn; [intros p n Hp Hn|intros p q n m Hp _ Hn _]; by apply Hz' in Hp. }
  split; [by apply number_served|].
  destruct (number_spec _ Hnb) as (l & Hren & _). exists (b_nodes b), csss. split_and!; [|done|].
  - intros p. specialize (Hren p). cbn in Hren. destruct (b_nodes b !! p); [|done].
    destruct Hren as (i & H1 & H2 & _). exists i. split_and!; [done|done|]. by intros ?%elem_of_nil.
  - intros p n Hp Hf. destruct (Hfiles p n Hp Hf) as [[-> ->]%Hroot|]; [done|done].
Qed.

(** A file that a layer holds. *)
Definition contributes (fuel : nat) (r : Resolver) (set : SetSpec) (layer : LayerSpec) (c : cand) : Prop :=
  layer ∈ s_Layers set /\ n_dir (c_node c) = false /\
  exists res cs, r (l_Source layer) = Ok res /\ layer_cands fuel set layer res = Ok cs /\ c ∈ cs.

(** How the file of a layer is served. *)
Definition accounted (t : Tree) (set : SetSpec) (layer : LayerSpec) (c : cand) : Prop :=
  Forall name_ok (c_path c) /\ c_logical c = join_slash (c_path c) /\ l_Name layer <> [] /\ Source_ (n_origin (c_node c)) = l_Name layer /\
  exists n i, t_nodes t !! c_path c = Some (with_ino i n) /\ served_for set c n.

Lemma Build_covers fuel sets r t set layer c : Build fuel sets r = Ok t ->
  Forall (fun set => name_ok (s_Name set)) sets -> plain_resolver r -> Efs.RootIno + Z.of_nat (base.size (t_nodes t)) < 2 ^ 64 ->
  set ∈ sets -> contributes fuel r set layer c -> accounted t set layer c.
Proof.
  intros HB Hs Hpl Hroom. destruct (Build_built _ _ _ _ HB Hs Hpl Hroom) as (_ & ns & csss & Hren & Hbuilt & _).
  intros Hset (Hl & Hf & res & cs & Hr & Hcs & Hc).
  apply list_elem_of_lookup in Hset as [i Hi]. destruct (Forall2_lookup_l _ _ _ _ _ Hbuilt Hi) as (css & _ & Hcss & Hsettled).
  apply list_elem_of_lookup in Hl as [j Hj]. destruct (Forall2_lookup_l _ _ _ _ _ Hcss Hj) as (cs' & Hj' & Hln & res' & Hr' & Hcs' & Hg).
  assert (res' = res) as -> by (rewrite Hr in Hr'; by apply Ok_inj in Hr').
  assert (cs' = cs) as -> by (rewrite Hcs in Hcs'; by apply Ok_inj in Hcs').
  rewrite Forall_forall in Hg. destruct (Hg c Hc) as [Hnames Hlog _ Hlay _].
  split_and!; [done|done|done|done|]. destruct (Hsettled c) as (n & Hn & Hserved).
  + apply list_elem_of_join. exists cs. split; [done|]. by eapply list_elem_of_lookup_2.
  + specialize (Hren (c_path c)). rewrite Hn in Hren. destruct Hren as (i' & Hi' & _). eauto.
Qed.

Lemma Build_only fuel sets r t p n : Build fuel sets r = Ok t ->
  Forall (fun set => name_ok (s_Name set)) sets -> plain_resolver r -> Efs.RootIno + Z.of_nat (base.size (t_nodes t)) < 2 ^ 64 ->
  t_nodes t !! p = Some n -> n_dir n = false ->
  exists set layer c, set ∈ sets /\ contributes fuel r set layer c /\ c_path c = p /\ n = with_ino (n_ino n) (c_node c).
Proof.
  intros HB Hs Hpl Hroom. destruct (Build_built _ _ _ _ HB Hs Hpl Hroom) as (_ & ns & csss & Hren & Hbuilt & Hfiles).
  intros Hp Hf. specialize (Hren p). destruct (ns !! p) as [m|] eqn:Hm; [|congruence].
  destruct Hren as (i & Hi & _). rewrite Hp in Hi. injection Hi as ->.
  destruct (Hfiles p m Hm Hf) as (c & Hc & <- & ->). apply list_elem_of_join in Hc as (css1 & Hc & Hcss1).
  apply list_elem_of_join in Hcss1 as (css & Hcss1 & Hcss).
  apply list_elem_of_lookup in Hcss as [k Hk]. destruct (Forall2_lookup_r _ _ _ _ _ Hbuilt Hk) as (set & Hset & Hf2 & _).
  apply list_elem_of_lookup in Hcss1 as [j Hj]. destruct (Forall2_lookup_r _ _ _ _ _ Hf2 Hj) as (layer & Hlayer & _ & res & Hr & Hcs & _).
  exists set, layer, c. split_and!; [by eapply list_elem_of_lookup_2| |done|done].
  split_and!; [by eapply list_elem_of_lookup_2|done|eauto].
Qed.

(** C27. Every file of every layer is accounted for by the file served at its path -
    it comes from the winner named for the path; or it is the file, one compared
    equal to it, or what configured replacements put in its place - and nothing
    is served that no layer holds. *)
Theorem Build_accounts fuel sets r t : Build fuel sets r = Ok t ->
  Forall (fun set => name_ok (s_Name set)) sets -> plain_resolver r -> Efs.RootIno + Z.of_nat (base.size (t_nodes t)) < 2 ^ 64 ->
  (forall set layer c, set ∈ sets -> contributes fuel r set layer c -> accounted t set layer c) /\
  (forall p n, t_nodes t !! p = Some n -> n_dir n = false ->
    exists set layer c, set ∈ sets /\ contributes fuel r set layer c /\ c_path c = p /\ n = with_ino (n_ino n) (c_node c)).
Proof. intros HB Hs Hpl Hroom. split; [intros set layer c; by apply Build_covers|intros p n; by eapply Build_only]. Qed.

(** A file that reads whole: its source opens it, with random access, and its
    bytes are [content]. *)
Definition reads_whole (n : node) (content : Z -> Z) : Prop :=
  exists h, openRegular n = Ok h /\ reads_as h content (n_size n).

Lemma rtc_no_replacement set o n : s_Replacements set = ∅ -> Source_ (n_origin n) <> [] -> rtc (rstep set) o n -> o = n.
Proof.
  intros Hr Hn H. apply rtc_inv_r in H as [->|(m & _ & Hs)]; [done|].
  unfold rstep in Hs. rewrite Hr, lookup_empty in Hs. cbn in Hs. by rewrite <- Hs in Hn.
Qed.

(** A file compared equal to another reads as it. *)
Lemma same_reads a b ha ca cb : openRegular a = Ok ha -> reads_as ha ca (n_size a) -> reads_whole b cb ->
  a = b \/ sameContent a b = Ok true -> n_size a = n_size b /\ reads_as ha cb (n_size a).
Proof.
  intros Ha Hra (hb & Hb & Hrb) [->|Hs].
  - split; [done|]. rewrite Hb in Ha. by apply Ok_inj in Ha as <-.
  - destruct (sameContent_bytes a b ha hb ca cb Ha Hb Hra Hrb) as (v & Hv & Hiff).
    rewrite Hs in Hv. apply Ok_inj in Hv as <-. destruct (proj1 Hiff eq_refl) as [Hsz Hc]. split; [done|].
    intros off n Hoff Hn Hle. destruct (Hra off n Hoff Hn Hle) as (e & He & Hcases). exists e. split; [|done].
    rewrite He. do 2 f_equal. apply fmap_seqZ_eq. intros i Hi. apply Hc. lia.
Qed.

(** A source whose regular files open, and read to their size. *)
Definition healthy (res : Resolved) : Prop := r_Kind res <> OriginGenerated /\
  forall src ents e i p, s_readdir (r_FS res) src = Ok ents -> e ∈ ents ->
    entry_target (r_FS res) src e = Ok (i, p) -> IsRegular i = true ->
    exists h content, s_open (r_FS res) p = Ok (Some h) /\ reads_as h content (isize i).

Lemma listFS_reads layer res fuel src target dir cs c : healthy res ->
  listFS layer (r_FS res) (r_Kind res) fuel src target dir = Ok cs -> c ∈ cs -> n_dir (c_node c) = false ->
  exists content, reads_whole (c_node c) content.
Proof.
  intros [Hk Hh]. revert src target dir cs. induction fuel as [|fuel IH]; intros src target dir cs; [done|].
  cbn [listFS]. destruct (s_readdir (r_FS res) src) as [ents| |] eqn:He; cbn [lift mbind outcome_bind]; [|done|done].
  assert (Hents : forall e i p, e ∈ ents -> entry_target (r_FS res) src e = Ok (i, p) -> IsRegular i = true ->
    exists h content, s_open (r_FS res) p = Ok (Some h) /\ reads_as h content (isize i)) by (intros e i p; by apply (Hh src ents)).
  clear He. revert cs. induction ents as [|e ents IHe]; intros cs; cbn [list_ents].
  { intros <-%Ok_inj Hc. by apply elem_of_nil in Hc. }
  specialize (IHe ltac:(intros e' i p Hin; apply Hents; by right)).
  destruct (entry_target (r_FS res) src e) as [[i p]| |] eqn:Ht; cbn [mbind outcome_bind]; [|done|done].
  destruct (IsDir i).
  - destruct (listFS _ _ _ _ _ _ _) as [ds| |] eqn:Hl; cbn [mbind outcome_bind]; [|done|done].
    destruct (list_ents _ _ _ _ _ _ _ _) as [rest| |]; cbn [mbind outcome_bind]; [|done|done].
    intros <-%Ok_inj Hc Hd. apply elem_of_app in Hc as [[->|Hc]%elem_of_cons|Hc]; [by cbn in Hd|exact (IH _ _ _ _ Hl Hc Hd)|exact (IHe _ eq_refl Hc Hd)].
  - destruct (IsRegular i) eqn:Hr; cbn [mbind outcome_bind];
      (destruct (list_ents _ _ _ _ _ _ _ _) as [rest| |]; cbn [mbind outcome_bind]; [|done|done]);
      intros <-%Ok_inj Hc Hd; [|exact (IHe _ eq_refl Hc Hd)].
    apply elem_of_cons in Hc as [->|Hc]; [|exact (IHe _ eq_refl Hc Hd)].
    destruct (Hents e i p) as (h & content & Ho & Hrd); [by left|done|done|]. exists content, h. cbn [c_node].
    unfold file_node. destruct (ownerOf i) as [[[? ?] ?] ?]. unfold openRegular. cbn.
    rewrite bool_decide_false by done. by rewrite Ho.
Qed.

Lemma contributes_reads fuel r set layer c : (forall ref res, r ref = Ok res -> healthy res) ->
  contributes fuel r set layer c -> exists content, reads_whole (c_node c) content.
Proof.
  intros Hh (_ & Hd & res & cs & Hr & Hcs & Hc). specialize (Hh _ _ Hr). revert Hcs.
  assert (Ht : forall src target ds, listTree layer (r_FS res) (r_Kind res) fuel src target = Ok ds -> c ∈ ds ->
    exists content, reads_whole (c_node c) content).
  { intros src target ds. unfold listTree. destruct (statFollow _ _) as [[i p]| |]; cbn [mbind outcome_bind]; [|done|done].
    intros Hl Hin. by eapply listFS_reads. }
  unfold layer_cands. destruct (layerPaths layer) as [[distPath standPath]| |]; cbn [mbind outcome_bind]; [|done|done].
  destruct (listTree _ _ _ _ distPath _) as [ds| |] eqn:Hds; cbn [mbind outcome_bind]; [|done|done].
  destruct (negb _); [intros <-%Ok_inj; by eapply Ht|].
  destruct (listTree _ _ _ _ standPath _) as [es| |] eqn:Hes; cbn [mbind outcome_bind]; [|done|done].
  intros <-%Ok_inj. apply elem_of_app in Hc as [Hc|Hc]; [exact (Ht _ _ _ Hds Hc)|exact (Ht _ _ _ Hes Hc)].
Qed.

(** Without a winner for the path and without replacements, opening a path serves
    the bytes of every layer that has a file there. *)
Theorem Build_serves_bytes fuel sets r t set layer c content : Build fuel sets r = Ok t ->
  Forall (fun set => name_ok (s_Name set)) sets -> plain_resolver r ->
  Efs.RootIno + Z.of_nat (base.size (t_nodes t)) < 2 ^ 64 ->
  (forall ref res, r ref = Ok res -> healthy res) ->
  set ∈ sets -> contributes fuel r set layer c -> reads_whole (c_node c) content ->
  s_Replacements set = ∅ -> winner_at set (c_logical c) = [] -> ValidPath (c_logical c) = true ->
  exists i h, Open t (c_logical c) = Ok (regular i h) /\ Size i = n_size (c_node c) /\
    reads_as h content (Size i).
Proof.
  intros HB Hs Hpl Hroom Hread Hset Hc Hcc Hrep Hwin Hv.
  destruct (Build_built _ _ _ _ HB Hs Hpl Hroom) as ([Hw _ _] & _).
  pose proof (fun set layer c => Build_covers _ _ _ _ set layer c HB Hs Hpl Hroom) as Hfwd. pose proof (fun p n => Build_only _ _ _ _ p n HB Hs Hpl Hroom) as Hback.
  destruct (Hfwd set layer c Hset Hc) as (Hnames & Hlog & _ & Hlay & n & i & Hn & Hd & Hserved).
  destruct Hc as (_ & Hcd & _). rewrite Hcd in Hd. destruct (Hserved Hd) as [_ Hrepr].
  destruct (Hrepr Hwin) as (o & Ho & Hrtc).
  destruct (Hback (c_path c) (with_ino i n) Hn Hd) as (set' & layer' & c' & Hset' & Hc' & Hp' & En).
  destruct (contributes_reads _ _ _ _ _ Hread Hc') as (content' & h' & Ho' & Hr').
  destruct (Hfwd set' layer' c' Hset' Hc') as (_ & _ & Hl' & Hlay' & _).
  pose proof (f_equal n_origin En) as Esrc. pose proof (f_equal n_size En) as Esz.
  pose proof (f_equal openRegular En) as Eop. cbn [n_origin n_size with_ino] in Esrc, Esz.
  change (openRegular n = openRegular (c_node c')) in Eop.
  rewrite <- Esz in Hr'. rewrite <- Eop in Ho'.
  apply (rtc_no_replacement set o n Hrep) in Hrtc as ->; [|by rewrite Esrc, Hlay'].
  destruct (same_reads n (c_node c) h' content' content Ho' Hr' Hcc Ho) as [Hsize Hbytes].
  exists (fileInfo_of (with_ino i n)), h'. split_and!; [|done|done].
  unfold Open. assert (find t (c_logical c) = Ok (c_path c, with_ino i n)) as ->.
  { apply find_wf; [done|]. split_and!; [done| |done]. rewrite Hlog.
    symmetry. apply path_of_join; [done|]. by unfold c_path; destruct (c_parent c). }
  cbn [mbind outcome_bind]. change (n_dir (with_ino i n)) with (n_dir n). rewrite Hd.
  change (openRegular (with_ino i n)) with (openRegular n). by rewrite Ho'.
Qed.

(** ** Sources are opened once, and closed with the tree *)

(** [cl] is the closers of distinct references the resolver gave. *)
Definition owned (r : Resolver) (cl : list Closer) : Prop := exists refs, NoDup refs /\
  (forall ref, ref ∈ refs -> exists res, r ref = Ok res) /\
  cl = omap (fun ref => match r ref with Ok res => r_Closer res | _ => None end) refs.

Record owns (r : Resolver) (b : building) : Prop := {
  own_opened : opened r b;
  own_refs : exists refs, NoDup refs /\ (forall ref, ref ∈ refs <-> is_Some (b_resolved b !! ref)) /\
    b_closers b = omap (fun ref => match r ref with Ok res => r_Closer res | _ => None end) refs;
}.

Lemma owns_owned r b : owns r b -> owned r (b_closers b).
Proof.
  intros [Hop (refs & Hnd & Hin & Hcl)]. exists refs. split_and!; [done| |done].
  intros ref [res Hres]%Hin. exists res. by apply Hop.
Qed.

Lemma owns_nodes r ns b : owns r b -> owns r (MkBuilding ns (b_resolved b) (b_closers b)).
Proof. intros [H1 H2]. by split. Qed.

Lemma openSource_owns r layer b : owns r b -> owns r (openSource r layer b).2.
Proof.
  intros [Hop (refs & Hnd & Hin & Hcl)]. unfold openSource.
  destruct (b_resolved b !! l_Source layer) as [res|] eqn:E; [split; eauto|].
  destruct (r (l_Source layer)) as [res| |] eqn:Er; cbn; [|split; eauto..]. split.
  - intros ref y. cbn. destruct (decide (ref = l_Source layer)) as [->|].
    + rewrite lookup_insert_eq. congruence.
    + rewrite lookup_insert_ne by done. apply Hop.
  - exists (refs ++ [l_Source layer]). cbn. split_and!.
    + apply NoDup_app. split_and!; [done| |apply NoDup_singleton].
      intros x Hx ->%list_elem_of_singleton. apply Hin in Hx. rewrite E in Hx. by destruct Hx.
    + intros ref. rewrite elem_of_app, list_elem_of_singleton, Hin. destruct (decide (ref = l_Source layer)) as [->|].
      * rewrite lookup_insert_eq. naive_solver.
      * rewrite lookup_insert_ne by done. naive_solver.
    + rewrite Hcl, omap_app. cbn. rewrite Er. by destruct (r_Closer res).
Qed.

Lemma addLayer_owns fuel set layer r b : owns r b -> owns r (addLayer fuel set layer r b).2.
Proof.
  intros Ho. unfold addLayer. case_bool_decide; [done|]. case_bool_decide; [done|].
  pose proof (openSource_owns r layer b Ho) as Ho1. destruct (openSource r layer b) as [[res| |] b1]; cbn in *; try done.
  destruct (merge_layer _ _ _ _ _); cbn; try done. by apply owns_nodes.
Qed.

Lemma add_layers_owns fuel set layers r b : owns r b -> owns r (add_layers fuel set layers r b).2.
Proof.
  revert b. induction layers as [|layer layers IH]; intros b Ho; [done|]. cbn [add_layers].
  pose proof (addLayer_owns fuel set layer r b Ho) as Ho1.
  destruct (addLayer fuel set layer r b) as [[[]| |] b1]; cbn in *; [by apply IH|done|done].
Qed.

Lemma build_sets_owns fuel r sets b : owns r b -> owns r (build_sets fuel r sets b).2.
Proof.
  revert b. induction sets as [|set sets IH]; intros b Ho; [done|]. cbn [build_sets].
  assert (Ho1 : owns r (build_set fuel r set b).2).
  { unfold build_set. case_bool_decide; [done|]. destruct (b_nodes b !! _); [done|].
    destruct (checkReplacements set); [|done|done].
    match goal with |- context [add_layers ?f ?s ?l ?r ?b0] =>
      pose proof (add_layers_owns f s l r b0 (owns_nodes _ _ _ Ho)) as H1; destruct (add_layers f s l r b0) as [[[]| |] b1] end;
      exact H1. }
  destruct (build_set fuel r set b) as [[[]| |] b1]; cbn in *; [by apply IH|done|done].
Qed.

(** A build opens each source once. A tree it returns closes every one of them,
    once; a build that fails has closed them. *)
Theorem Build_closes fuel sets r :
  match Build fuel sets r with
  | Ok t => owned r (t_closers t)
  | Err (_, closed) => owned r closed
  | Panic => True
  end.
Proof.
  assert (Ho : owns r build_start).
  { split; [intros ref res; cbn; by rewrite lookup_empty|]. exists []. split_and!; [constructor| |done].
    intros ref. cbn. rewrite lookup_empty. split; [by intros ?%elem_of_nil|by intros []]. }
  pose proof (build_sets_owns fuel r sets _ Ho) as H. unfold Build.
  destruct (build_sets fuel r sets build_start) as [[[]| |] b]; cbn in *; [|by apply owns_owned|done].
  apply owns_owned in H. unfold number. cbn. by destruct (foldl _ _ _).
Qed.

(** ** Links *)

(** [k] links lead from one name to another. *)
Inductive hops (fsys : Source) : nat -> bytes -> bytes -> Prop :=
| hops_0 name : hops fsys 0 name name
| hops_S k name i target last :
    s_stat fsys name = Ok i -> IsSymlink i = true -> s_readlink fsys name = Ok target ->
    hops fsys k (link_next name target) last -> hops fsys (S k) name last.

(** A source whose [Stat] refuses what [fs.ValidPath] does, as [io/fs] asks. *)
Definition confined (fsys : Source) : Prop := forall name i, s_stat fsys name = Ok i -> ValidPath name = true.

Lemma resolve_hops_spec turns fsys orig name i p :
  resolve_hops turns fsys orig name = Ok (i, p) <->
  exists k, (k < turns)%nat /\ hops fsys k name p /\ s_stat fsys p = Ok i /\ IsSymlink i = false.
Proof.
  revert name. induction turns as [|turns IH]; intros name; cbn [resolve_hops].
  { split; [done|]. intros (k & ? & _). lia. }
  split.
  - destruct (s_stat fsys name) as [j| |] eqn:Hs; [|done|done]. destruct (IsSymlink j) eqn:Hl; cbn [negb].
    + destruct (s_readlink fsys name) as [target| |] eqn:Hr; [|done|done].
      intros (k & Hk & Hh & H)%IH. exists (S k). split; [lia|]. split; [by econstructor|done].
    + intros [= <- <-]. exists 0%nat. split_and!; [lia|constructor|done|done].
  - intros (k & Hk & Hh & Hs & Hl). inv Hh as [|k' ? j target ? Hj Hjl Hr Hrest].
    + by rewrite Hs, Hl.
    + rewrite Hj, Hjl, Hr. cbn [negb]. apply IH. exists k'. split_and!; [lia|done|done|done].
Qed.

(** A link resolves exactly when at most [maxSymlinks] links lead from it to
    something that is not a link - what it resolves to - and, in a source that
    keeps to its own paths, that is a path of the source. *)
Theorem resolveLink_follows fsys name i p :
  (resolveLink fsys name = Ok (i, p) <->
   exists k, Z.of_nat k <= maxSymlinks /\ hops fsys k name p /\ s_stat fsys p = Ok i /\ IsSymlink i = false) /\
  (confined fsys -> resolveLink fsys name = Ok (i, p) -> ValidPath p = true).
Proof.
  assert (Hiff : resolveLink fsys name = Ok (i, p) <->
    exists k, Z.of_nat k <= maxSymlinks /\ hops fsys k name p /\ s_stat fsys p = Ok i /\ IsSymlink i = false).
  { unfold resolveLink. rewrite resolve_hops_spec. unfold maxSymlinks.
    split; intros (k & Hk & H); exists k; (split; [lia|done]). }
  split; [done|]. intros Hc (k & _ & _ & Hs & _)%Hiff. by apply Hc in Hs.
Qed.

Lemma efs_source_confined fs : confined (efs_source fs).
Proof.
  intros name i. cbn. unfold Efs.view_Stat, Efs.resolve. destruct (ValidPath name); [done|]. done.
Qed.

(** ** A build ends on media of bounded depth *)

(** A reader that gives something, or an error: [io.ReaderAt] asks no less. *)
Definition progresses (h : handle) : Prop := forall off n d e, 0 < n -> h off n = Ok (d, e) -> 0 < zlen d \/ e <> None.
Definition steady (fsys : Source) : Prop := forall p h, s_open fsys p = Ok (Some h) -> progresses h.

(** Directories nested less than [n] deep. *)
Inductive shallow (fsys : Source) : nat -> bytes -> Prop :=
| shallow_S n src :
    (forall ents e i p, s_readdir fsys src = Ok ents -> e ∈ ents -> entry_target fsys src e = Ok (i, p) ->
       IsDir i = true -> shallow fsys n p) ->
    shallow fsys (S n) src.

(** A resolver whose sources have directories nested less than [n] deep, and
    files whose readers make progress. *)
Definition bounded (n : nat) (r : Resolver) : Prop := forall ref res, r ref = Ok res ->
  r_Kind res <> OriginGenerated /\ steady (r_FS res) /\
  forall name i p, statFollow (r_FS res) name = Ok (i, p) -> IsDir i = true -> shallow (r_FS res) n p.

(** A source no call of which panics, and whose readers give at most what they are
    asked for. *)
Record quiet_handle (h : handle) : Prop := {
  qh_read off n : h off n <> Panic;
  qh_short off n d e : 0 < n -> h off n = Ok (d, e) -> zlen d <= n;
}.

Record quiet_source (fsys : Source) : Prop := {
  qs_stat p : s_stat fsys p <> Panic;
  qs_readdir p : s_readdir fsys p <> Panic;
  qs_info p ents e : s_readdir fsys p = Ok ents -> e ∈ ents -> dinfo e <> Panic;
  qs_readlink p : s_readlink fsys p <> Panic;
  qs_open p : s_open fsys p <> Panic;
  qs_handle p h : s_open fsys p = Ok (Some h) -> quiet_handle h;
}.

Definition quiet_sources (r : Resolver) : Prop := (forall ref, r ref <> Panic) /\ forall ref res, r ref = Ok res -> quiet_source (r_FS res).

Section ends.
(** Whether the sources are quiet. *)
Context (calm : Prop).

(** A computation that ends, and when the sources are quiet with no panic. *)
Definition runs {A} (m : outcome error A) : Prop := (forall s, m <> Err (Stuck s)) /\ (calm -> m <> Panic).

Lemma runs_ok {A} (a : A) : runs (Ok a).
Proof. by split. Qed.

Lemma runs_err {A} (e : error) : (forall s, e <> Stuck s) -> runs (Err e : outcome error A).
Proof. intros He. split; [|done]. intros s E. injection E as ->. by eapply He. Qed.

(** Where a failure goes on as it is. *)
Lemma runs_failed {A B} (e : error) : runs (Err e : outcome error A) -> runs (Err e : outcome error B).
Proof. intros [H _]. apply runs_err. intros s ->. by eapply H. Qed.

Lemma runs_panicked {A B} : runs (Panic : outcome error A) -> runs (Panic : outcome error B).
Proof. intros [_ H]. split; [done|]. intros Hc. by destruct (H Hc). Qed.

Lemma runs_bind {A B} (m : outcome error A) (f : A -> outcome error B) :
  runs m -> (forall a, m = Ok a -> runs (f a)) -> runs (m ≫= f).
Proof. intros Hm Hf. destruct m as [a|e|]; cbn; [by apply Hf|by eapply runs_failed|by eapply runs_panicked]. Qed.

Lemma runs_lift {A} (m : outcome src_err A) : (calm -> m <> Panic) -> runs (lift m).
Proof. intros H. destruct m; [apply runs_ok|by apply runs_err|]. split; [done|]. intros Hc. by destruct (H Hc). Qed.

Hint Resolve runs_ok : core.
Ltac run_err := first [by apply runs_ok | by apply runs_err].

Definition well_read (h : handle) : Prop := progresses h /\ (calm -> quiet_handle h).
Definition steady_node (n : node) : Prop := runs (openRegular n) /\ forall h, openRegular n = Ok h -> well_read h.
Definition sound_source (fsys : Source) : Prop := steady fsys /\ (calm -> quiet_source fsys).
Definition all_steady (ns : nodes) : Prop := forall p n, ns !! p = Some n -> n_dir n = false -> steady_node n.

Lemma readFullAt_runs fuel h want off : well_read h -> (Z.to_nat want < fuel)%nat -> runs (readFullAt fuel h want off).
Proof.
  intros [Hp Hq]. revert want off. induction fuel as [|fuel IH]; intros want off Hf; [lia|]. cbn [readFullAt].
  destruct (want <=? 0) eqn:Ew; zbool; [done|]. apply runs_bind; [apply runs_lift; intros Hc; apply (qh_read _ (Hq Hc))|].
  intros [d e] Hh. assert (h off want = Ok (d, e)) as Hho by (destruct (h off want); cbn in Hh; congruence).
  destruct (want <? zlen d) eqn:E; zbool.
  { split; [done|]. intros Hc. pose proof (qh_short _ (Hq Hc) off want d e ltac:(lia) Hho). lia. }
  destruct e as [e|]; [destruct (_ && _); [done|run_err]|].
  apply runs_bind; [|done]. apply IH. destruct (Hp off want d None) as [Hd|]; [lia|done| |done]. lia.
Qed.

Lemma sameContent_runs a b : steady_node a -> steady_node b -> runs (sameContent a b).
Proof.
  intros [Ha1 Ha] [Hb1 Hb]. unfold sameContent. destruct (negb _); [done|].
  apply runs_bind; [done|]. intros ha Hha. apply runs_bind; [done|]. intros hb Hhb.
  specialize (Ha _ Hha). specialize (Hb _ Hhb). generalize 0.
  generalize (Z.to_nat ((n_size a + compareBlock - 1) / compareBlock)). generalize (n_size a).
  intros size blocks. induction blocks as [|blocks IH]; intros off; [done|]. cbn [same_blocks]. destruct (size <=? off); [done|].
  apply runs_bind; [by apply readFullAt_runs; unfold read_fuel; [|lia]|]. intros da _.
  apply runs_bind; [by apply readFullAt_runs; unfold read_fuel; [|lia]|]. intros db _.
  case_bool_decide; [apply IH|done].
Qed.

Lemma mergeChild_runs ns parent c logical cs rs : all_steady ns -> (n_dir c = false -> steady_node c) ->
  runs (mergeChild ns parent c logical cs rs).
Proof.
  intros Hns Hc. unfold mergeChild. destruct (ns !! _) as [old|] eqn:Hold; [|done].
  destruct (Bool.eqb _ _) eqn:Ed; cbn [negb]; [|run_err]. apply eqb_prop in Ed. destruct (n_dir old) eqn:Hd; [done|].
  destruct (negb _); [destruct (bool_decide _); run_err|]. destruct (bool_decide _); [run_err|].
  apply runs_bind; [apply sameContent_runs; [by eapply Hns|by apply Hc]|]. intros [] _; run_err.
Qed.

Lemma mergeChild_steady ns parent c logical cs rs ns' p : mergeChild ns parent c logical cs rs = Ok (ns', p) ->
  all_steady ns -> (n_dir c = false -> steady_node c) -> all_steady ns'.
Proof.
  intros Hm Hns Hc. apply mergeChild_cases in Hm as (-> & [(-> & _)|(-> & _)]); [|done].
  intros q n. destruct (decide (q = parent ++ [n_name c])) as [->|Hne].
  - rewrite lookup_insert_eq. by intros [= <-].
  - rewrite lookup_insert_ne by done. apply Hns.
Qed.

Section source.
Context (fsys : Source) (Hsound : sound_source fsys).

Lemma resolve_hops_runs turns orig name : runs (resolve_hops turns fsys orig name).
Proof.
  revert name. induction turns as [|turns IH]; intros name; [run_err|]. cbn [resolve_hops].
  destruct (s_stat fsys name) eqn:Es; [|run_err|split; [done|]; intros Hc; by destruct (qs_stat _ (proj2 Hsound Hc) name)].
  destruct (negb _); [done|]. destruct (s_readlink fsys name) eqn:El; [apply IH|run_err|].
  split; [done|]. intros Hc. by destruct (qs_readlink _ (proj2 Hsound Hc) name).
Qed.

Lemma statFollow_runs name : runs (statFollow fsys name).
Proof.
  unfold statFollow. apply runs_bind; [apply runs_lift; intros Hc; by apply qs_stat, Hsound|].
  intros i _. destruct (negb _); [done|apply resolve_hops_runs].
Qed.

Lemma entry_target_runs src ents e : s_readdir fsys src = Ok ents -> e ∈ ents -> runs (entry_target fsys src e).
Proof.
  intros Hr Hin. unfold entry_target. apply runs_bind; [apply runs_lift; intros Hc; by eapply (qs_info _ (proj2 Hsound Hc))|].
  intros i _. destruct (IsSymlink i); [|done].
  apply runs_bind; [apply resolve_hops_runs|]. intros [j p] _. destruct (IsDir j); [run_err|]. destruct (negb _); [run_err|done].
Qed.

Lemma file_node_steady kind layer name src i : kind <> OriginGenerated -> steady_node (file_node fsys kind layer name src i).
Proof.
  intros Hk. unfold file_node. destruct (ownerOf i) as [[[? ?] ?] ?]. unfold steady_node, openRegular. cbn.
  rewrite bool_decide_false by done. destruct (s_open fsys src) as [[h'|]|e|] eqn:Ho; cbn.
  - split; [done|]. intros h <-%Ok_inj. split; [by eapply (proj1 Hsound)|]. intros Hc. by eapply (qs_handle _ (proj2 Hsound Hc)).
  - split; [run_err|done].
  - split; [run_err|done].
  - split; [|done]. split; [done|]. intros Hc. by destruct (qs_open _ (proj2 Hsound Hc) src).
Qed.
End source.

(** The outcome of a step that runs and keeps the nodes steady. *)
Definition steadily (m : outcome error nodes) : Prop := runs m /\ forall ns, m = Ok ns -> all_steady ns.

Lemma steadily_ok ns : all_steady ns -> steadily (Ok ns).
Proof. intros H. split; [done|]. by intros ns' <-%Ok_inj. Qed.

Lemma steadily_bind {A} (m : outcome error A) (f : A -> outcome error nodes) :
  runs m -> (forall a, m = Ok a -> steadily (f a)) -> steadily (m ≫= f).
Proof.
  intros Hm Hf. destruct m as [a|e|]; cbn; [by apply Hf|..]; (split; [|done]); [by eapply runs_failed|by eapply runs_panicked].
Qed.

Lemma mergeChild_then (ns : nodes) (parent : tpath) (c : node) (logical : bytes) (cs rs : gmap bytes bytes) (f : nodes * tpath -> outcome error nodes) :
  all_steady ns -> (n_dir c = false -> steady_node c) -> (forall ns' p, all_steady ns' -> steadily (f (ns', p))) ->
  steadily (mergeChild ns parent c logical cs rs ≫= f).
Proof.
  intros Hns Hc Hf. apply steadily_bind; [by apply mergeChild_runs|]. intros [ns' p] Hm. apply Hf. by eapply mergeChild_steady.
Qed.

Lemma walkFS_steadily set layer fsys kind n src fuel ns target dir :
  shallow fsys n src -> (n <= fuel)%nat -> kind <> OriginGenerated -> sound_source fsys -> all_steady ns ->
  steadily (walkFS set layer fsys kind fuel ns src target dir).
Proof.
  intros Hsh Hf Hk Hst. revert fuel ns target dir Hf. induction Hsh as [n src Hsub IH]; intros fuel ns target dir Hf Hns.
  destruct fuel as [|fuel]; [lia|]. cbn [walkFS].
  apply steadily_bind; [apply runs_lift; intros Hc; by apply qs_readdir, Hst|]. intros ents Hents.
  assert (He : s_readdir fsys src = Ok ents) by (destruct (s_readdir fsys src); cbn in Hents; congruence).
  pose proof (fun e i p Hin Ht Hd ns target dir => IH ents e i p He Hin Ht Hd fuel ns target dir ltac:(lia)) as Hrec.
  pose proof (fun e => entry_target_runs fsys Hst src ents e He) as Htarget.
  clear IH Hsub Hf Hents He. revert ns Hns. induction ents as [|e ents IHe]; intros ns Hns; cbn [walk_ents]; [by apply steadily_ok|].
  apply steadily_bind; [by apply Htarget; left|]. intros [i p] Ht.
  match goal with |- steadily (?step ≫= _) => assert (Hstep : steadily step) end.
  { destruct (IsDir i) eqn:Hd; [|destruct (IsRegular i); [|by apply steadily_ok]].
    - apply mergeChild_then; [done|done|]. intros ns1 sub Hns1. apply (Hrec e i p); [by left|done|done|done].
    - apply mergeChild_then; [done|intros _; by apply file_node_steady|]. intros ns1 sub Hns1. by apply steadily_ok. }
  destruct Hstep as [Hr Hs]. apply steadily_bind; [done|]. intros ns1 Hns1. apply IHe; [|by intros e' Hin; apply Htarget; right|by apply Hs].
  intros e' i' p' Hin. apply Hrec. by right.
Qed.

Lemma ensure_parts_steady ns p seen parts origin : all_steady ns ->
  all_steady (ensure_parts ns p seen parts origin).1.
Proof.
  revert ns p seen. induction parts as [|c parts IH]; intros ns p seen Hns; [done|]. cbn [ensure_parts].
  destruct (mergeChild _ _ _ _ _ _) as [[ns1 q]| |] eqn:Hm; [|done|done]. apply IH. by eapply mergeChild_steady.
Qed.

Lemma mergeChild_dir_runs ns p d logical : n_dir d = true -> runs (mergeChild ns p d logical ∅ ∅).
Proof.
  intros Hd. unfold mergeChild. destruct (ns !! _) as [old|]; [|done]. rewrite Hd. destruct (n_dir old); [done|run_err].
Qed.

Lemma ensure_parts_runs ns p seen parts origin : runs (ensure_parts ns p seen parts origin).2.
Proof.
  revert ns p seen. induction parts as [|c parts IH]; intros ns p seen; [done|]. cbn [ensure_parts].
  pose proof (mergeChild_dir_runs ns p (newDir c origin) (Join seen c) eq_refl) as Hr.
  destruct (mergeChild _ _ _ _ _ _) as [[ns1 q]|e|] eqn:Hm; [apply IH|by eapply runs_failed|by eapply runs_panicked].
Qed.

Lemma mergeTree_steadily n set layer fsys kind fuel ns srcDir target : (n <= fuel)%nat -> kind <> OriginGenerated ->
  sound_source fsys -> (forall i p, statFollow fsys srcDir = Ok (i, p) -> IsDir i = true -> shallow fsys n p) ->
  all_steady ns -> steadily (mergeTree set layer fsys kind fuel ns srcDir target).
Proof.
  intros Hf Hk Hst Hsh Hns. unfold mergeTree. apply steadily_bind; [by apply statFollow_runs|]. intros [i srcPath] Hs.
  destruct (IsDir i) eqn:Hd; cbn [negb]; [|split; [run_err|done]].
  specialize (Hsh i srcPath Hs Hd). unfold ensureDir. set (m := if bool_decide _ then _ else _).
  assert (Hm : runs m.2 /\ all_steady m.1).
  { subst m. case_bool_decide; [done|]. split; [apply ensure_parts_runs|by apply ensure_parts_steady]. }
  destruct m as [ns1 dir]. destruct Hm as [Hm1 Hm2]. apply steadily_bind; [done|]. intros q _. by eapply walkFS_steadily.
Qed.

Lemma layerPaths_runs layer : runs (layerPaths layer).
Proof.
  assert (Hc : forall d def, runs (cleanRel d def)).
  { intros d def. unfold cleanRel. case_bool_decide; [done|]. destruct (ValidPath _); [done|run_err]. }
  assert (Hu : forall b d, runs (underBase b d)).
  { intros b d. unfold underBase. destruct (ValidPath _); [done|run_err]. }
  unfold layerPaths. apply runs_bind; [done|]. intros d _. apply runs_bind; [done|]. intros dist _.
  destruct (negb _); [done|]. apply runs_bind; [done|]. intros s _. apply runs_bind; [done|]. done.
Qed.

Section layers.
Context (n fuel : nat) (r : Resolver) (Hf : (n <= fuel)%nat) (Hb : bounded n r) (Hq : calm -> quiet_sources r).

Lemma merge_layer_steadily set layer res ns : r (l_Source layer) = Ok res -> all_steady ns -> steadily (merge_layer fuel set layer res ns).
Proof.
  intros Hr Hns. destruct (Hb _ _ Hr) as (Hk & Hst & Hsh).
  assert (Hss : sound_source (r_FS res)) by (split; [done|]; intros Hc; by eapply (proj2 (Hq Hc))).
  unfold merge_layer. apply steadily_bind; [apply layerPaths_runs|]. intros [distPath standPath] _.
  destruct (mergeTree_steadily n set layer (r_FS res) (r_Kind res) fuel ns distPath (Join (s_Name set) distDir) Hf Hk Hss
    (Hsh distPath) Hns) as [Hr1 Hs1].
  apply steadily_bind; [done|]. intros ns1 Hns1. destruct (negb _); [by apply steadily_ok, Hs1|].
  destruct (s_stat (r_FS res) standPath) eqn:Es; [|split; [run_err|done]|].
  - apply (mergeTree_steadily n); try done; [apply Hsh|by apply Hs1].
  - split; [|done]. split; [done|]. intros Hc. by destruct (qs_stat _ (proj2 Hss Hc) standPath).
Qed.

Lemma checkReplacements_runs set : runs (checkReplacements set).
Proof.
  unfold checkReplacements. apply runs_bind; [|intros p _; destruct (forallb _ _); [done|run_err]].
  generalize 0. generalize (∅ : gmap bytes Z). induction (s_Layers set) as [|l ls IHl]; intros m k; [done|].
  cbn [layer_positions]. destruct (m !! l_Name l); [run_err|apply IHl].
Qed.

Lemma checkCollisions_runs ns set : runs (checkCollisions ns set).
Proof.
  unfold checkCollisions. induction (merge_sort _ _) as [|p ps IHp]; [done|]. cbn [check_paths].
  destruct (lookup _ _) as [[? m]|]; [|run_err]. destruct (n_dir m); [run_err|]. destruct (negb _); [run_err|done].
Qed.

(** A step of the build that runs and leaves what the next one needs. *)
Definition builds_on (m : outcome error unit * building) : Prop :=
  runs m.1 /\ (m.1 = Ok tt -> opened r m.2 /\ all_steady (b_nodes m.2)).

Lemma builds_on_err {A} e b : runs (Err e : outcome error A) -> builds_on (Err e, b).
Proof. intros H. split; [|done]. by eapply runs_failed. Qed.

Lemma builds_on_panic {A} b : runs (Panic : outcome error A) -> builds_on (Panic, b).
Proof. intros H. split; [|done]. by eapply runs_panicked. Qed.

Lemma openSource_runs layer b : runs (openSource r layer b).1.
Proof.
  unfold openSource. destruct (b_resolved b !! _); [done|]. destruct (r _) eqn:E; [done|run_err|].
  split; [done|]. intros Hc. by destruct (proj1 (Hq Hc) (l_Source layer)).
Qed.

Lemma add_layers_runs set layers b : opened r b -> all_steady (b_nodes b) -> builds_on (add_layers fuel set layers r b).
Proof.
  revert b. induction layers as [|layer ls IHl]; intros b Hop Hns; cbn [add_layers]; [by split|].
  unfold addLayer. case_bool_decide; [apply (@builds_on_err unit); run_err|]. case_bool_decide; [apply (@builds_on_err unit); run_err|].
  pose proof (openSource_runs layer b) as Hor. destruct (openSource r layer b) as [[res|e|] b1] eqn:Ho; [|by eapply builds_on_err|by eapply builds_on_panic].
  destruct (openSource_opened _ _ _ _ _ Ho Hop) as (Hop1 & Hr & Hb1).
  destruct (merge_layer_steadily set layer res (b_nodes b1) Hr ltac:(by rewrite Hb1)) as [Hr1 Hs1].
  destruct (merge_layer _ _ _ _ _) as [ns|e|]; [|by eapply builds_on_err|by eapply builds_on_panic].
  apply IHl; [done|]. by apply Hs1.
Qed.

Lemma build_set_runs set b : opened r b -> all_steady (b_nodes b) -> builds_on (build_set fuel r set b).
Proof.
  intros Hop Hns. unfold build_set. case_bool_decide; [apply (@builds_on_err unit); run_err|]. destruct (b_nodes b !! _); [apply (@builds_on_err unit); run_err|].
  pose proof (checkReplacements_runs set) as Hrep.
  destruct (checkReplacements set) as [u|e|]; [|by eapply builds_on_err|by eapply builds_on_panic].
  set (b0 := MkBuilding _ _ _).
  assert (Hns0 : all_steady (b_nodes b0)).
  { intros p m. cbn. destruct (decide (p = [s_Name set])) as [->|Hne]; [rewrite lookup_insert_eq; by intros [= <-]|].
    rewrite lookup_insert_ne by done. apply Hns. }
  destruct (add_layers_runs set (s_Layers set) b0 Hop Hns0) as [Hl1 Hl2].
  destruct (add_layers _ _ _ _ _) as [[[]|e|] b1]; cbn [fst snd] in *; [|by eapply builds_on_err|by eapply builds_on_panic].
  split; [apply checkCollisions_runs|]. intros _. by apply Hl2.
Qed.

Lemma build_sets_runs sets b : opened r b -> all_steady (b_nodes b) -> runs (build_sets fuel r sets b).1.
Proof.
  revert b. induction sets as [|set sets IH]; intros b Hop Hns; [done|]. cbn [build_sets].
  destruct (build_set_runs set b Hop Hns) as [H1 H2].
  destruct (build_set fuel r set b) as [[[]|e|] b1]; cbn [fst snd] in *; [|done|done].
  destruct (H2 eq_refl). by apply IH.
Qed.

Lemma Build_start_runs sets : runs (build_sets fuel r sets build_start).1.
Proof.
  apply build_sets_runs.
  - intros ref res. cbn. by rewrite lookup_empty.
  - intros p m. cbn. by intros [<- <-]%lookup_singleton_Some.
Qed.
End layers.
End ends.

(** C39. With fuel for the depth of its sources, whose readers make progress and none of which
    is of the generated kind, a build does not run for ever: it ends in a tree, in an error of the program or in a run-time panic; and it panics
    only when something outside the build does: the opening of a source, a call on one,
    or a reader, which may also give more than it was asked for. (An image whose inode has
    overlapping extents is such a source.) *)
Theorem Build_ends n fuel sets r : bounded n r -> (n <= fuel)%nat ->
  (forall s closed, Build fuel sets r <> Err (Stuck s, closed)) /\
  (quiet_sources r -> Build fuel sets r <> Panic).
Proof.
  intros Hb Hf. destruct (Build_start_runs (quiet_sources r) n fuel r Hf Hb id sets) as [Hr Hp]. unfold Build.
  destruct (build_sets fuel r sets build_start) as [[[]|e|] b]; cbn [fst] in Hr, Hp; [done| |].
  - split; [|done]. intros s closed E. injection E as -> _. by eapply Hr.
  - split; [done|]. intros Hq. by destruct (Hp Hq).
Qed.

(** ** A directory that holds itself *)

(** An image whose root directory has one entry, [dist], and it is the root. *)
Definition cyclic_image : bytes :=
  let sb := be_enc 4 100 ++ be_enc 4 2 ++ be_enc 4 10 ++ be_enc 2 1 ++ replicate 4 0
            ++ be_enc 2 1 ++ replicate 8 0 ++ be_enc 4 Efs.SuperMagic in
  let root := be_enc 2 0x41ed ++ be_enc 2 2 ++ replicate 4 0 ++ be_enc 4 512
              ++ replicate 16 0 ++ be_enc 2 1 ++ replicate 2 0 ++ be_enc 4 3 ++ be_enc 4 (2 ^ 24) in
  let dir := [0xBE; 0xEF; 250; 1; 250] ++ replicate 495 0 ++ be_enc 4 2 ++ [4] ++ distDir ++ replicate 3 0 in
  replicate 512 0 ++ sb ++ replicate (512 - length sb) 0
  ++ replicate 256 0 ++ root ++ replicate (128 - length root) 0 ++ replicate 128 0 ++ dir.

Definition cyclic_fs : Efs.FS :=
  match Efs.Open (image_reader cyclic_image) 0 with Ok fs => fs | _ => Efs.demo_fs end.
Definition cyclic_root : Efs.Inode_t :=
  match Efs.Inode cyclic_fs Efs.RootIno with Ok n => n | _ => Efs.demo_inode end.

Lemma cyclic_opens : Efs.Open (image_reader cyclic_image) 0 = Ok cyclic_fs.
Proof. vm_compute. reflexivity. Qed.
Lemma cyclic_inode : Efs.Inode cyclic_fs Efs.RootIno = Ok cyclic_root.
Proof. vm_compute. reflexivity. Qed.
Lemma cyclic_dir : Efs.ReadDir cyclic_fs cyclic_root = Ok [Efs.MkDirEntry distDir Efs.RootIno].
Proof. vm_compute. reflexivity. Qed.

Lemma valid_utf8_ascii s : Forall (fun c => in_range 0 0x7F c = true) s -> valid_utf8 s = true.
Proof. induction 1 as [|c s Hc Hs IH]; [done|]. cbn [valid_utf8]. by rewrite Hc. Qed.

Lemma join_ascii els : Forall (fun e => Forall (fun c => in_range 0 0x7F c = true) e) els ->
  Forall (fun c => in_range 0 0x7F c = true) (join_slash els).
Proof.
  induction 1 as [|e els He Hels IH]; [constructor|]. destruct els; [done|].
  change (Forall (fun c => in_range 0 0x7F c = true) (e ++ [slash] ++ join_slash (l :: els))).
  apply Forall_app. split; [done|]. by constructor.
Qed.

(** The path [dist/dist/...]. *)
Definition down (k : nat) : tpath := replicate (S k) distDir.

Lemma down_names k : Forall name_ok (down k).
Proof. apply Forall_replicate, name_ok_dist. Qed.

Lemma down_S k : down (S k) = down k ++ [distDir].
Proof. unfold down. by rewrite (replicate_S_end (S k)). Qed.

Lemma down_valid k : ValidPath (join_slash (down k)) = true.
Proof.
  apply ValidPath_split.
  - apply valid_utf8_ascii, join_ascii, Forall_replicate. repeat constructor.
  - rewrite split_join; [apply down_names|done|apply names_no_slash, down_names].
Qed.

Lemma trim_name els e : e <> [] -> slash ∉ e -> (exists x, head e = Some x /\ x <> slash) ->
  head els = Some e -> last els = Some e -> trim slash (join_slash els) = join_slash els.
Proof.
  intros He Hs (x & Hx & Hne) Hh Hl. unfold trim.
  assert (trim_left slash (join_slash els) = join_slash els) as ->.
  { destruct els as [|e' els]; [done|]. injection Hh as ->. destruct e as [|y e]; [done|]. injection Hx as ->.
    destruct els; cbn; by rewrite (proj2 (Z.eqb_neq x slash)). }
  apply last_Some in Hl as (pre & ->). destruct (exists_last He) as (e' & y & ->).
  assert (y <> slash) by (intros ->; apply Hs, elem_of_app; right; by apply list_elem_of_singleton).
  destruct pre as [|p pre]; [by apply trim_right_last|].
  rewrite join_slash_snoc, app_assoc, app_assoc by done. by apply trim_right_last.
Qed.

Lemma cyclic_lookup k : Efs.Lookup cyclic_fs (join_slash (down k)) = Ok cyclic_root.
Proof.
  unfold Efs.Lookup. rewrite cyclic_inode. cbn [mbind outcome_bind].
  rewrite (trim_name (down k) distDir); [|done|apply name_ok_dist|by exists 100|done|].
  - rewrite split_join by (done || apply names_no_slash, down_names). unfold down. generalize (S k). intros n.
    induction n as [|n IH]; [done|]. cbn [replicate Efs.lookup_parts].
    rewrite bool_decide_false by done. rewrite cyclic_dir. cbn [mbind outcome_bind Efs.find_entry Efs.EName Efs.Ino].
    rewrite bool_decide_true by done. cbn [Z.eqb]. change (Efs.RootIno =? 0) with false. cbn iota.
    rewrite cyclic_inode. exact IH.
  - unfold down. rewrite replicate_S_end. by rewrite last_snoc.
Qed.

Lemma cyclic_resolve op k : Efs.resolve cyclic_fs op (join_slash (down k)) = Ok cyclic_root.
Proof.
  unfold Efs.resolve. rewrite down_valid. cbn [negb].
  rewrite bool_decide_false.
  - by rewrite cyclic_lookup.
  - unfold down. cbn. destruct k; done.
Qed.

Lemma cyclic_readdir k : s_readdir (efs_source cyclic_fs) (join_slash (down k)) =
  Ok [MkDirent distDir (Ok (efs_info (Efs.MkInfo distDir cyclic_root)))].
Proof.
  cbn [s_readdir efs_source]. unfold Efs.view_ReadDir. rewrite cyclic_resolve. cbn [mbind outcome_bind].
  change (Efs.IsDir cyclic_root) with true. cbn [negb]. unfold Efs.dirEntries. rewrite cyclic_dir.
  cbn [Efs.wrap mbind outcome_bind Efs.read_children Efs.EName Efs.Ino].
  change (bool_decide (distDir = [dot]) || bool_decide (distDir = [dot; dot])) with false. cbn iota.
  by rewrite cyclic_inode.
Qed.

Lemma cyclic_walk set layer kind fuel ns target dir k : (forall p n, ns !! p = Some n -> n_dir n = true) ->
  walkFS set layer (efs_source cyclic_fs) kind fuel ns (join_slash (down k)) target dir = Err (Stuck OutOfFuel).
Proof.
  revert ns target dir k. induction fuel as [|fuel IH]; intros ns target dir k Hns; [done|].
  cbn [walkFS]. rewrite cyclic_readdir. cbn [lift mbind outcome_bind walk_ents].
  assert (He : entry_target (efs_source cyclic_fs) (join_slash (down k)) (MkDirent distDir (Ok (efs_info (Efs.MkInfo distDir cyclic_root))))
    = Ok (efs_info (Efs.MkInfo distDir cyclic_root), join_slash (down (S k)))).
  { unfold entry_target. cbn [dname dinfo lift mbind outcome_bind].
    rewrite (Join_names (down k) distDir ltac:(done) (down_names k) name_ok_dist), <- down_S. done. }
  rewrite He. cbn [mbind outcome_bind dname]. change (IsDir (efs_info (Efs.MkInfo distDir cyclic_root))) with true. cbn iota.
  unfold mergeChild. cbn [n_name newDir n_dir]. destruct (ns !! (dir ++ [distDir])) as [old|] eqn:Hold.
  - rewrite (Hns _ _ Hold). cbn [Bool.eqb negb mbind outcome_bind]. by rewrite IH.
  - cbn [mbind outcome_bind]. rewrite IH; [done|]. intros p n.
    destruct (decide (p = dir ++ [distDir])) as [->|Hne]; [rewrite lookup_insert_eq; by intros [= <-]|].
    rewrite lookup_insert_ne by done. apply Hns.
Qed.

Definition cyclic_layer : LayerSpec := MkLayer (str "a") (str "a.img") [] [] [] false.
Definition cyclic_set : SetSpec := MkSet (str "s") [cyclic_layer] ∅ ∅.
Definition cyclic_resolver : Resolver := fun _ => Ok (MkResolved (efs_source cyclic_fs) OriginImage None).

(** A build of an image with a directory that holds itself goes on without end:
    no fuel is enough. *)
Theorem Build_cyclic_image fuel : Build fuel [cyclic_set] cyclic_resolver = Err (Stuck OutOfFuel, []).
Proof.
  unfold Build. cbn [build_sets]. unfold build_set. cbn [s_Name cyclic_set b_nodes build_start].
  rewrite bool_decide_false by done.
  assert (({[ [] := newDir [dot] zeroOrigin ]} : nodes) !! [str "s"] = None) as -> by (by rewrite lookup_singleton_ne).
  assert (checkReplacements cyclic_set = Ok tt) as -> by (vm_compute; reflexivity).
  set (ns := <[[str "s"] := _]> _).
  assert (Hns : forall p n, ns !! p = Some n -> n_dir n = true).
  { intros p n. subst ns. destruct (decide (p = [str "s"])) as [->|Hne]; [rewrite lookup_insert_eq; by intros [= <-]|].
    rewrite lookup_insert_ne by done. by intros [<- <-]%lookup_singleton_Some. }
  cbn [s_Layers cyclic_set add_layers]. unfold addLayer. cbn [l_Name l_Source cyclic_layer].
  rewrite !bool_decide_false by done. unfold openSource. cbn [b_resolved build_start]. rewrite lookup_empty.
  cbn [cyclic_resolver r_Closer b_closers app b_nodes].
  set (res := MkResolved _ _ _).
  assert (Hm : merge_layer fuel cyclic_set cyclic_layer res ns = Err (Stuck OutOfFuel)); [|by rewrite Hm].
  unfold merge_layer. assert (layerPaths cyclic_layer = Ok (distDir, [])) as -> by (vm_compute; reflexivity).
  cbn [mbind outcome_bind]. unfold mergeTree.
  assert (statFollow (r_FS res) distDir = Ok (efs_info (Efs.MkInfo distDir cyclic_root), distDir)) as ->.
  { unfold statFollow. cbn [r_FS res s_stat efs_source]. unfold Efs.view_Stat.
    pose proof (cyclic_resolve "stat" 0) as Hr. change (join_slash (down 0)) with distDir in Hr. by rewrite Hr. }
  cbn [mbind outcome_bind]. assert (IsDir (efs_info (Efs.MkInfo distDir cyclic_root)) = true) as -> by (vm_compute; reflexivity). cbn [negb].
  assert (Hj : Join (s_Name cyclic_set) distDir = join_slash [str "s"; distDir]) by (vm_compute; reflexivity). rewrite Hj.
  unfold ensureDir. rewrite (bool_decide_false (join_slash [str "s"; distDir] = [dot])) by done.
  change (split_byte slash (join_slash [str "s"; distDir])) with [str "s"; distDir].
  cbn [ensure_parts]. rewrite merge_dir. cbn [app].
  assert (ns !! [str "s"] = Some (newDir (str "s") zeroOrigin)) as -> by (subst ns; by rewrite lookup_insert_eq).
  cbn [n_dir newDir]. rewrite merge_dir. cbn [app].
  assert (ns !! [str "s"; distDir] = None) as -> by (subst ns; by rewrite lookup_insert_ne, lookup_singleton_ne).
  cbn [mbind outcome_bind]. change (walkFS ?a ?b (r_FS res) ?c ?d ?e distDir ?f ?g) with
    (walkFS a b (efs_source cyclic_fs) c d e (join_slash (down 0)) f g).
  rewrite (cyclic_walk _ _ _ _ _ _ _ 0); [done|].
  intros p n. destruct (decide (p = [str "s"; distDir])) as [->|Hne]; [rewrite lookup_insert_eq; by intros [= <-]|].
  rewrite lookup_insert_ne by done. apply Hns.
Qed.

(** ** Two layers that share a file *)

Definition demo_dir : info := MkFI (Z.lor ModeDir 0x1ed) 0 0 None.
Definition demo_file (data : bytes) : info := MkFI 0x1a4 (zlen data) 7 None.

(** A directory [dist] holding the files given by name. *)
Definition demo_source (files : list (bytes * bytes)) : Source := {|
  s_stat name := if bool_decide (name = distDir) then Ok demo_dir else Err (HostErr 2);
  s_readdir name := if bool_decide (name = distDir) then
                      Ok ((fun f => MkDirent f.1 (Ok (demo_file f.2))) <$> files)
                    else Err (HostErr 20);
  s_readlink _ := Err (HostErr 22);
  s_open name := match list_find (fun f => Join distDir f.1 = name) files with
                 | Some (_, f) => Ok (Some (mem_handle f.2))
                 | None => Err (HostErr 2)
                 end;
|}.

Definition demo_files (ref : bytes) : list (bytes * bytes) :=
  if bool_decide (ref = str "one") then [(str "a", str "hello"); (str "b", str "x")]
  else [(str "a", str "hello"); (str "c", str "zz")].

Definition demo_resolver : Resolver := fun ref =>
  Ok (MkResolved (demo_source (demo_files ref)) OriginDirectory (Some (MkCloser (zlen ref) None))).

Definition demo_layer (name src : string) : LayerSpec := MkLayer (str name) (str src) [] [] [] false.
Definition demo_set : SetSpec :=
  MkSet (str "s") [demo_layer "first" "one"; demo_layer "second" "two"; demo_layer "third" "one"] ∅ ∅.

Definition demo_tree : Tree :=
  match Build 2 [demo_set] demo_resolver with Ok t => t | _ => MkTree ∅ [] 0 end.

(** The candidate of [second] for the file [a]. *)
Definition demo_cand : cand :=
  MkCand [str "s"; distDir] (str "s/dist/a")
    (file_node (demo_source (demo_files (str "two"))) OriginDirectory (demo_layer "second" "two") (str "a") (str "dist/a")
       (demo_file (str "hello"))).

Definition is_ok {E A} (m : outcome E A) : bool := match m with Ok _ => true | _ => false end.

Lemma is_ok_eq {E A} (m : outcome E A) : is_ok m = true -> exists a, m = Ok a.
Proof. destruct m; [eauto|done|done]. Qed.

Lemma demo_builds : Build 2 [demo_set] demo_resolver = Ok demo_tree.
Proof.
  unfold demo_tree. destruct (is_ok_eq (Build 2 [demo_set] demo_resolver)) as [t ->]; [|done].
  vm_compute. reflexivity.
Qed.

Lemma demo_ents name ents e ref : s_readdir (demo_source (demo_files ref)) name = Ok ents -> e ∈ ents ->
  exists f, f ∈ demo_files ref /\ e = MkDirent f.1 (Ok (demo_file f.2)) /\ name = distDir.
Proof.
  cbn. case_bool_decide; [|done]. intros <-%Ok_inj (f & -> & Hf)%list_elem_of_fmap. eauto.
Qed.

Lemma demo_names ref f : f ∈ demo_files ref -> name_ok f.1 /\ exists c, f.1 = [c].
Proof.
  assert (H : forall c d, (c, d) ∈ demo_files ref -> c = str "a" \/ c = str "b" \/ c = str "c").
  { intros c d. unfold demo_files. case_bool_decide; rewrite !elem_of_cons, elem_of_nil; naive_solver. }
  destruct f as [c d]. intros Hf. cbn. destruct (H c d Hf) as [->|[->| ->]];
    (split; [split_and!; [done..|vm_compute; set_solver]|eexists; reflexivity]).
Qed.

Lemma demo_plain : plain_resolver demo_resolver.
Proof.
  intros ref res <-%Ok_inj name ents e Hr He. destruct (demo_ents _ _ _ _ Hr He) as (f & Hf & -> & _).
  by destruct (demo_names _ _ Hf).
Qed.

Lemma demo_open ref f : f ∈ demo_files ref ->
  s_open (demo_source (demo_files ref)) (Join distDir f.1) = Ok (Some (mem_handle f.2)).
Proof.
  unfold demo_files. case_bool_decide; rewrite !elem_of_cons, elem_of_nil; intros [->|[->|[]]]; vm_compute; reflexivity.
Qed.

Lemma demo_healthy ref res : demo_resolver ref = Ok res -> healthy res.
Proof.
  intros <-%Ok_inj. split; [done|]. intros src ents e i p Hr He Ht _.
  destruct (demo_ents _ _ _ _ Hr He) as (f & Hf & -> & ->). cbn in Ht. apply Ok_inj in Ht. injection Ht as <- <-.
  exists (mem_handle f.2), (at_ f.2). split; [by apply demo_open|apply mem_reads_as].
Qed.

Lemma demo_size : Efs.RootIno + Z.of_nat (base.size (t_nodes demo_tree)) < 2 ^ 64.
Proof. vm_compute. reflexivity. Qed.

Lemma demo_contributes : contributes 2 demo_resolver demo_set (demo_layer "second" "two") demo_cand.
Proof.
  split; [by right; left|]. split; [done|]. eexists _, _. split; [reflexivity|]. split; [vm_compute; reflexivity|].
  vm_compute. left.
Qed.

Lemma demo_named : Forall (fun set => name_ok (s_Name set)) [demo_set].
Proof. apply Forall_singleton. split_and!; [done..|vm_compute; set_solver]. Qed.

Lemma Build_accounts_witness : exists n i, t_nodes demo_tree !! [str "s"; distDir; str "a"] = Some (with_ino i n) /\
  served_for demo_set demo_cand n.
Proof.
  destruct (Build_accounts 2 [demo_set] demo_resolver demo_tree demo_builds demo_named demo_plain demo_size) as [H _].
  destruct (H demo_set (demo_layer "second" "two") demo_cand ltac:(by left) demo_contributes) as (_ & _ & _ & _ & Hn).
  exact Hn.
Defined.

Lemma Build_serves_bytes_witness : exists i h, Open demo_tree (str "s/dist/a") = Ok (regular i h) /\
  Size i = 5 /\ reads_as h (at_ (str "hello")) 5.
Proof.
  destruct (Build_serves_bytes 2 [demo_set] demo_resolver demo_tree demo_set (demo_layer "second" "two") demo_cand
    (at_ (str "hello")) demo_builds demo_named demo_plain demo_size demo_healthy) as (i & h & Ho & Hs & Hr).
  - by left.
  - exact demo_contributes.
  - exists (mem_handle (str "hello")). split; [vm_compute; reflexivity|].
    exact (mem_reads_as (str "hello")).
  - reflexivity.
  - reflexivity.
  - vm_compute. reflexivity.
  - exists i, h. rewrite Hs in Hr. exact (conj Ho (conj Hs Hr)).
Defined.

(** A link to a link to a file. *)
Definition link_source : Source := {|
  s_stat name := if bool_decide (name = str "dist/f") then Ok (demo_file []) else Ok (MkFI ModeSymlink 0 0 None);
  s_readdir _ := Ok [];
  s_readlink name := Ok (if bool_decide (name = str "dist/l") then str "/m" else str "dist/./x/../f");
  s_open _ := Ok None;
|}.

Lemma resolveLink_follows_witness :
  resolveLink link_source (str "dist/l") = Ok (demo_file [], str "dist/f") /\
  exists k, Z.of_nat k <= maxSymlinks /\ hops link_source k (str "dist/l") (str "dist/f").
Proof.
  assert (Hr : resolveLink link_source (str "dist/l") = Ok (demo_file [], str "dist/f")) by (vm_compute; reflexivity).
  split; [exact Hr|].
  destruct (resolveLink_follows link_source (str "dist/l") (demo_file []) (str "dist/f")) as [[H _] _].
  destruct (H Hr) as (k & Hk & Hh & _). exists k. exact (conj Hk Hh).
Defined.

Lemma demo_bounded : bounded 1 demo_resolver.
Proof.
  intros ref res <-%Ok_inj. split; [done|]. split.
  - intros p h. cbn. destruct (list_find _ _) as [[j f]|]; [|done]. intros E%Ok_inj. injection E as <-. intros off n d e Hn Hd.
    apply Ok_inj in Hd. unfold image_reader in Hd. destruct (off <? 0); [injection Hd as _ <-; by right|].
    destruct (_ && _); [injection Hd as _ <-; by right|]. injection Hd as <- <-.
    destruct (zlen (sub f.2 off n) <? n) eqn:El; [by right|]. zbool. left. lia.
  - intros name i p Hs _. constructor. intros ents e j q Hr He Ht Hd. exfalso.
    destruct (demo_ents _ _ _ _ Hr He) as (f & Hf & -> & ->). cbn in Ht. apply Ok_inj in Ht.
    injection Ht as <- <-. vm_compute in Hd. discriminate.
Qed.

Lemma zlen_sub_le {A} (l : list A) off n : 0 <= n -> zlen (sub l off n) <= n.
Proof. intros H. unfold sub, zlen. rewrite length_take. lia. Qed.

Lemma demo_sources_quiet : quiet_sources demo_resolver.
Proof.
  split; [done|]. intros ref res <-%Ok_inj. split; try done.
  - intros p. cbn. by case_bool_decide.
  - intros p. cbn. by case_bool_decide.
  - intros p ents e Hr He. by destruct (demo_ents _ _ _ _ Hr He) as (f & _ & -> & _).
  - intros p. cbn. by destruct (list_find _ _) as [[j f]|].
  - intros p h. cbn. destruct (list_find _ _) as [[j f]|]; [|done]. intros E%Ok_inj. injection E as <-. split; [done|].
    intros off n d e Hn Hd. apply Ok_inj in Hd. unfold image_reader in Hd.
    destruct (off <? 0); [injection Hd as <- _; rewrite zlen_nil; lia|].
    destruct (_ && _); injection Hd as <- _; [rewrite zlen_nil; lia|apply zlen_sub_le; lia].
Qed.

Lemma Build_ends_witness : Build 1 [demo_set] demo_resolver <> Err (Stuck OutOfFuel, []) /\ Build 1 [demo_set] demo_resolver <> Panic.
Proof.
  destruct (Build_ends 1 1 [demo_set] demo_resolver demo_bounded (le_n 1)) as [Hs Hp].
  exact (conj (Hs OutOfFuel []) (Hp demo_sources_quiet)).
Defined.

(** The tree of the demonstration is one [AddGenerated] and [ReadDir] take. *)
Lemma demo_served : served demo_tree.
Proof. exact (proj1 (Build_built _ _ _ _ demo_builds demo_named demo_plain demo_size)). Qed.

Lemma ReadDir_Stat_witness : exists ents, ReadDir demo_tree (str "s/dist") = Ok ents /\
  Name <$> ents = [str "a"; str "b"; str "c"] /\ Sorted bytes_le (Name <$> ents).
Proof.
  assert (Hn : match ReadDir demo_tree (str "s/dist") with Ok l => Name <$> l | _ => [] end = [str "a"; str "b"; str "c"])
    by (vm_compute; reflexivity).
  destruct (is_ok_eq (ReadDir demo_tree (str "s/dist"))) as [ents E]; [vm_compute; reflexivity|].
  exists ents. rewrite E in Hn. split; [exact E|]. split; [exact Hn|].
  exact (proj1 (ReadDir_Stat demo_tree (str "s/dist") ents (sv_wf _ demo_served) E)).
Defined.

(** A generated file over [a], and one in a new directory. *)
Definition over : outcome error unit * Tree := AddGenerated demo_tree (str "s/dist/a") (str "menu") (str "new").

Lemma over_ok : AddGenerated demo_tree (str "s/dist/a") (str "menu") (str "new") = (Ok tt, over.2).
Proof.
  assert (H : over.1 = Ok tt) by (vm_compute; reflexivity). change (over = (Ok tt, over.2)).
  revert H. generalize over. intros [r t] H. cbn in H. by rewrite H.
Qed.

Lemma over_room : Z.max Efs.RootIno (t_nextIno demo_tree) +
  Z.of_nat (base.size (t_nodes demo_tree) + length (path_of (str "s/dist/a"))) < 2 ^ 64.
Proof. vm_compute. reflexivity. Qed.

Lemma AddGenerated_serves_witness :
  served over.2 /\ exists i, Open over.2 (str "s/dist/a") = Ok (regular i (mem_handle (str "new"))) /\
     forall old, Stat demo_tree (str "s/dist/a") = Ok old -> MIno i = MIno old.
Proof.
  destruct (AddGenerated_serves demo_tree (str "s/dist/a") (str "menu") (str "new") over.2 demo_served over_ok over_room)
    as (Hs & (i & _ & _ & _ & _ & Ho & Hino) & _).
  split; [exact Hs|]. exists i. exact (conj Ho Hino).
Defined.

(** [sameContent] tells apart files that differ in their last byte. *)
Lemma sameContent_bytes_witness :
  let f := fun data => MkNode (str "f") false 0 (MkOrigin OriginGenerated [] []) 0 (zlen data) None 0 0 1 None data in
  exists v, sameContent (f (str "ab")) (f (str "ac")) = Ok v /\ (v = true <-> 2 = 2 /\ forall i, 0 <= i < 2 -> at_ (str "ab") i = at_ (str "ac") i).
Proof.
  cbn zeta.
  exact (sameContent_bytes
    (MkNode (str "f") false 0 (MkOrigin OriginGenerated [] []) 0 2 None 0 0 1 None (str "ab"))
    (MkNode (str "f") false 0 (MkOrigin OriginGenerated [] []) 0 2 None 0 0 1 None (str "ac"))
    (mem_handle (str "ab")) (mem_handle (str "ac")) (at_ (str "ab")) (at_ (str "ac")) eq_refl eq_refl
    (mem_reads_as (str "ab")) (mem_reads_as (str "ac"))).
Defined.
