(* ===== verification/Cache.v ===== *)
(** The chunk cache over a remote image ([internal/source/cachingreaderat.go]).

    A [ReadAt] runs as a thread whose steps are the sections the code holds the
    lock for, and the fetch it makes without it: any number of threads
    interleave, and each fetch draws whatever the reader below answers. *)
From S2P Require Import Prelude.

(** An immutable cached chunk. *)
Record chunkEntry := MkEntry { e_idx : Z; e_data : bytes }.

#[export] Instance chunkEntry_eq_dec : EqDecision chunkEntry.
Proof. solve_decision. Defined.

(** What the lock guards: the index, the list from most to least recently used,
    and the bytes held. *)
Record cache := MkCache { index_ : gmap Z chunkEntry; lru : list chunkEntry; resident : Z }.

Definition newCache : cache := MkCache ∅ [] 0.

Inductive read_err :=
| NegativeOffset
| End_
| ShortRead (idx : Z) (e : io_err).

(** A read in progress: the call's arguments, the bound, the position, and the
    bytes copied so far. *)
Record read := MkRead { r_plen : Z; r_off : Z; r_end : Z; r_pos : Z; r_out : bytes }.

Inductive thread :=
| Looking (r : read)
| Fetching (r : read)
| Storing (r : read) (data : bytes)
| Done (r : read) (err : option read_err)
| Crashed.

Section cachingReaderAt.
Context (size chunk budget : Z).

(** ** The locked sections *)

(** A hit moves the chunk to the front. *)
Definition hit (c : cache) (idx : Z) : option (bytes * cache) :=
  match index_ c !! idx with
  | Some e => Some (e_data e, MkCache (index_ c) (e :: filter (fun x => x <> e) (lru c)) (resident c))
  | None => None
  end.

(** [evictLocked]: one turn per chunk held at most. *)
Fixpoint evict_loop (fuel : nat) (c : cache) : cache :=
  match fuel with
  | O => c
  | S fuel =>
      if (budget <? resident c) && (1 <? zlen (lru c)) then
        match last (lru c) with
        | Some e => evict_loop fuel (MkCache (delete (e_idx e) (index_ c)) (take (length (lru c) - 1) (lru c))
                                      (resident c - zlen (e_data e)))
        | None => c
        end
      else c
  end.

Definition evictLocked (c : cache) : cache := if budget <=? 0 then c else evict_loop (length (lru c)) c.

(** The section after a fetch: the first writer wins. *)
Definition store (c : cache) (idx : Z) (data : bytes) : bytes * cache :=
  match hit c idx with
  | Some r => r
  | None =>
      let e := MkEntry idx data in
      (data, evictLocked (MkCache (<[idx := e]> (index_ c)) (e :: lru c) (resident c + zlen data)))
  end.

(** ** Fetching *)

(** The bytes asked of the reader below for a chunk: offset and length. *)
Definition fetch_range (idx : Z) : Z * Z :=
  let lo := idx * chunk in (lo, if size <? lo + chunk then size - lo else chunk).

(** What [fetch] makes of the answer [(buf[:got], err)]. *)
Definition fetched (idx : Z) (resp : bytes * option io_err) : bytes + read_err :=
  let '(d, err) := resp in
  if negb (zlen d =? (fetch_range idx).2) then inr (ShortRead idx (default UnexpectedEOF err)) else inl d.

(** ** A read *)

Definition next (r : read) : thread :=
  if r_pos r <? r_end r then Looking r
  else Done r (if zlen (r_out r) <? r_plen r then Some End_ else None).

Definition start (plen off : Z) : thread :=
  let fresh e := MkRead plen off e off [] in
  if off <? 0 then Done (fresh 0) (Some NegativeOffset)
  else if size <=? off then Done (fresh 0) (Some End_)
  else
    let end_ := i64 (off + plen) in
    next (fresh (if size <? end_ then size else end_)).

(** Copy what the read wants of the chunk, and go on. *)
Definition copy_chunk (r : read) (data : bytes) : thread :=
  let startInChunk := r_pos r - r_pos r / chunk * chunk in
  let want := Z.min (r_end r - r_pos r) (zlen data - startInChunk) in
  match @slice read_err _ data startInChunk (startInChunk + want) with
  | Ok d => next (MkRead (r_plen r) (r_off r) (r_end r) (r_pos r + want) (r_out r ++ d))
  | _ => Crashed
  end.

(** One step of a thread; [resp] is what the reader below answers if it is
    asked. *)
Definition thread_step (resp : bytes * option io_err) (c : cache) (t : thread) : cache * thread :=
  match t with
  | Looking r =>
      match hit c (r_pos r / chunk) with
      | Some (data, c) => (c, copy_chunk r data)
      | None => (c, Fetching r)
      end
  | Fetching r =>
      if (fetch_range (r_pos r / chunk)).2 <? 0 then (c, Crashed)
      else match fetched (r_pos r / chunk) resp with
           | inl d => (c, Storing r d)
           | inr e => (c, Done r (Some e))
           end
  | Storing r d => let '(data, c) := store c (r_pos r / chunk) d in (c, copy_chunk r data)
  | Done _ _ | Crashed => (c, t)
  end.

(** [ReadAt] alone, over a reader that always gives the same answers. *)
Fixpoint run_thread (fuel : nat) (ra : ReaderAt) (c : cache) (t : thread) : option (cache * (bytes * option read_err)) :=
  match t with
  | Done r e => Some (c, (r_out r, e))
  | Crashed => None
  | Looking r | Fetching r | Storing r _ =>
      match fuel with
      | O => None
      | S fuel =>
          let '(lo, n) := fetch_range (r_pos r / chunk) in
          let '(c, t) := thread_step (ra lo n) c t in
          run_thread fuel ra c t
      end
  end.

(** Three steps a chunk. *)
Definition turns (plen : Z) : nat := 3 * S (Z.to_nat plen).

Definition ReadAt (ra : ReaderAt) (c : cache) (plen off : Z) : option (cache * (bytes * option read_err)) :=
  run_thread (turns plen) ra c (start plen off).

(** ** Any number of reads at once *)

Context (content : Z -> Z).

(** An answer of the reader below that can be trusted as far as it goes: what it
    gives is the object's bytes, and it says so when it gives less than asked. *)
Definition honest (lo n : Z) (resp : bytes * option io_err) : Prop :=
  zlen resp.1 <= n /\ resp.1 = content <$> seqZ lo (zlen resp.1) /\ (zlen resp.1 < n -> resp.2 <> None).

Inductive step : cache * list thread -> cache * list thread -> Prop :=
| step_call c ts plen off :
    0 <= plen -> size + plen < 2 ^ 63 ->
    step (c, ts) (c, ts ++ [start plen off])
| step_thread c ts i t resp c' t' :
    ts !! i = Some t ->
    (forall r, t = Fetching r -> honest (fetch_range (r_pos r / chunk)).1 (fetch_range (r_pos r / chunk)).2 resp) ->
    thread_step resp c t = (c', t') ->
    step (c, ts) (c', <[i := t']> ts).
End cachingReaderAt.

(** ** The cache's invariant *)

Definition total (l : list chunkEntry) : Z := foldr (fun e s => zlen (e_data e) + s) 0 l.

Lemma held_app l k : total (l ++ k) = total l + total k.
Proof. induction l as [|e l IH]; cbn; [done|]. unfold total in *. cbn. lia. Qed.

#[export] Instance total_proper : Proper ((≡ₚ) ==> (=)) total.
Proof. intros l k H. induction H; unfold total in *; cbn in *; lia. Qed.

Section proofs.
Context (size chunk budget : Z) (content : Z -> Z) (Hchunk : 0 < chunk).

Abbreviation fetch_range := (fetch_range size chunk).
Abbreviation thread_step := (thread_step size chunk budget).

(** The bytes of a chunk. *)
Definition chunk_bytes (idx : Z) : bytes := content <$> seqZ (fetch_range idx).1 (fetch_range idx).2.

Definition inside (idx : Z) : Prop := 0 <= idx /\ idx * chunk < size.

Definition good (e : chunkEntry) : Prop := inside (e_idx e) /\ e_data e = chunk_bytes (e_idx e).

Record held (c : cache) : Prop := {
  held_nodup : NoDup (e_idx <$> lru c);
  held_index : forall idx e, index_ c !! idx = Some e <-> e ∈ lru c /\ e_idx e = idx;
  held_good : Forall good (lru c);
  held_total : resident c = total (lru c);
}.

Definition bounded (c : cache) : Prop := 0 < budget -> resident c <= budget \/ (length (lru c) <= 1)%nat.

Lemma fetch_range_len idx : inside idx -> 0 < (fetch_range idx).2 <= chunk.
Proof. intros [H0 H1]. unfold Cache.fetch_range. cbn. destruct (size <? _) eqn:E; zbool; lia. Qed.

Lemma zlen_chunk_bytes idx : inside idx -> zlen (chunk_bytes idx) = (fetch_range idx).2.
Proof.
  intros H. pose proof (fetch_range_len idx H). unfold chunk_bytes. rewrite zlen_fmap, zlen_seqZ by lia. done.
Qed.

Lemma move_front (l : list chunkEntry) e : NoDup l -> e ∈ l -> e :: filter (fun x => x <> e) l ≡ₚ l.
Proof.
  intros Hnd He. apply list_elem_of_split in He as (l1 & l2 & ->).
  apply NoDup_app in Hnd as (Hn1 & Hd & Hn2). apply NoDup_cons in Hn2 as [Hn2 _].
  rewrite filter_app, filter_cons_False by (intros H; by apply H).
  assert (Hf : forall k : list chunkEntry, e ∉ k -> filter (fun x => x <> e) k = k).
  { intros k. induction k as [|x k IH]; intros Hk; [done|]. apply not_elem_of_cons in Hk as [Hx Hk].
    rewrite filter_cons_True by congruence. by rewrite IH. }
  rewrite !Hf; [|done|].
  - by rewrite Permutation_middle.
  - intros H. apply (Hd e H). by left.
Qed.

Lemma held_proper c c' : lru c ≡ₚ lru c' -> index_ c = index_ c' -> resident c = resident c' -> held c -> held c'.
Proof.
  intros Hp Hi Hr [H1 H2 H3 H4]. split.
  - by rewrite <- Hp.
  - intros idx e. by rewrite <- Hp, <- Hi.
  - by rewrite <- Hp.
  - by rewrite <- Hp, <- Hr.
Qed.

Lemma hit_held c idx data c' : held c -> bounded c -> hit c idx = Some (data, c') ->
  held c' /\ bounded c' /\ inside idx /\ data = chunk_bytes idx /\ lru c ≡ₚ lru c'.
Proof.
  intros Hh Hb. unfold hit. destruct (index_ c !! idx) as [e|] eqn:E; [|done]. intros [= <- <-].
  apply (held_index _ Hh) in E as [He <-]. pose proof (held_good _ Hh) as Hg. rewrite Forall_forall in Hg.
  destruct (Hg _ He) as [Hin Hd].
  assert (Hp : lru c ≡ₚ e :: filter (fun x => x <> e) (lru c)).
  { symmetry. apply move_front; [|done]. by eapply NoDup_fmap_1, held_nodup. }
  split_and!; [by apply (held_proper c)| |done|done|done].
  intros H. apply Permutation_length in Hp. destruct (Hb H) as [?|?]; [by left|right]. cbn in *. lia.
Qed.

Lemma evict_loop_held fuel c : held c -> lru c <> [] -> (length (lru c) <= S fuel)%nat ->
  held (evict_loop budget fuel c) /\
  (resident (evict_loop budget fuel c) <= budget \/ (length (lru (evict_loop budget fuel c)) <= 1)%nat).
Proof.
  revert c. induction fuel as [|fuel IH]; intros c Hh Hne Hl; cbn [evict_loop]; [split; [done|right; lia]|].
  destruct (budget <? resident c) eqn:Eb; zbool; cbn [andb]; [|by split; [|left]].
  destruct (1 <? zlen (lru c)) eqn:El; zbool; [|split; [done|right; unfold zlen in El; lia]].
  destruct (exists_last Hne) as (l & e & E). rewrite E in *. rewrite last_snoc.
  unfold zlen in El. rewrite length_app in *. cbn [length] in *.
  replace (length l + 1 - 1)%nat with (length l) by lia. rewrite take_app_length.
  apply IH; cbn [lru]; [|by intros ->; cbn in El|lia]. destruct Hh as [H1 H2 H3 H4]. rewrite E in *.
  rewrite fmap_app in H1. apply NoDup_app in H1 as (Hn & Hd & _). split; cbn.
  - done.
  - intros idx x. destruct (decide (idx = e_idx e)) as [->|Hne'].
    + rewrite lookup_delete_eq. split; [done|]. intros [Hx Ex]. exfalso. apply (Hd (e_idx e)); [|by left].
      rewrite <- Ex. by apply list_elem_of_fmap_2.
    + rewrite lookup_delete_ne by done. rewrite H2, elem_of_app, list_elem_of_singleton.
      split; [|naive_solver]. intros [[Hx| ->] Ex]; [done|congruence].
  - by apply Forall_app in H3 as [? _].
  - rewrite H4, held_app. change (total l + (zlen (e_data e) + 0) - zlen (e_data e) = total l). lia.
Qed.

Lemma store_held c idx data data' c' : held c -> bounded c -> inside idx -> data = chunk_bytes idx ->
  store budget c idx data = (data', c') -> held c' /\ bounded c' /\ data' = chunk_bytes idx.
Proof.
  intros Hh Hb Hin Hd. unfold store. destruct (hit c idx) as [[d c1]|] eqn:Eh.
  - intros [= <- <-]. destruct (hit_held _ _ _ _ Hh Hb Eh) as (? & ? & _ & ? & _). done.
  - intros [= <- <-]. unfold hit in Eh. destruct (index_ c !! idx) as [?|] eqn:Ei; [done|].
    set (c1 := MkCache _ _ _).
    assert (Hh1 : held c1).
    { destruct Hh as [H1 H2 H3 H4]. split; cbn.
      - constructor; [|done]. intros (x & Ex & Hx)%list_elem_of_fmap. 
        assert (index_ c !! idx = Some x) by (by apply H2). congruence.
      - intros j x. destruct (decide (j = idx)) as [->|Hne].
        + rewrite lookup_insert_eq, elem_of_cons. split; [intros [= <-]; split; [by left|done]|].
          intros [[->|Hx] Ex]; [done|]. assert (index_ c !! idx = Some x) by (by apply H2). congruence.
        + rewrite lookup_insert_ne, H2, elem_of_cons by done. split; [naive_solver|].
          intros [[->|Hx] Ex]; [cbn in Ex; congruence|done].
      - constructor; [by split|done].
      - unfold total in *. cbn. lia. }
    unfold evictLocked. destruct (budget <=? 0) eqn:Eb; zbool.
    + split_and!; [done| |done]. unfold bounded. lia.
    + destruct (evict_loop_held (length (lru c1)) c1 Hh1) as [H1 H2]; [done|lia|]. split_and!; [done|by intros _|done].
Qed.

(** ** A thread's invariant *)

(** How far a read has come. *)
Record reading (r : read) : Prop := {
  rd_off : 0 <= r_off r < size;
  rd_plen : 0 <= r_plen r;
  rd_end : r_end r = Z.min size (r_off r + r_plen r);
  rd_pos : r_off r <= r_pos r <= r_end r;
  rd_out : r_out r = content <$> seqZ (r_off r) (r_pos r - r_off r);
}.

(** What a finished read may report: the object's bytes from its offset on -
    all that were asked for, or up to the end with [io.EOF], or up to an
    error. *)
Definition finished (r : read) (err : option read_err) : Prop :=
  r_out r = content <$> seqZ (r_off r) (zlen (r_out r)) /\
  match err with
  | None => zlen (r_out r) = r_plen r /\ r_off r + r_plen r <= size
  | Some End_ => zlen (r_out r) = Z.max 0 (Z.min (r_plen r) (size - r_off r)) /\ (zlen (r_out r) < r_plen r \/ size <= r_off r)
  | Some NegativeOffset => r_off r < 0 /\ r_out r = []
  | Some (ShortRead _ _) => zlen (r_out r) <= r_plen r
  end.

Definition thread_ok (t : thread) : Prop :=
  match t with
  | Looking r | Fetching r => reading r /\ r_pos r < r_end r
  | Storing r d => reading r /\ r_pos r < r_end r /\ d = chunk_bytes (r_pos r / chunk)
  | Done r err => finished r err
  | Crashed => False
  end.

Lemma reading_out r : reading r -> zlen (r_out r) = r_pos r - r_off r.
Proof. intros [Ho Hp He Hpos ->]. rewrite zlen_fmap, zlen_seqZ; lia. Qed.

Lemma next_ok r : reading r -> thread_ok (next r).
Proof.
  intros Hr. unfold next. destruct (r_pos r <? r_end r) eqn:E; zbool; [by split|]. cbn.
  pose proof (reading_out r Hr) as Hl. destruct Hr as [Ho Hp He Hpos Hout]. split; [by rewrite Hl|].
  destruct (zlen (r_out r) <? r_plen r) eqn:El; zbool; lia.
Qed.

Lemma start_ok plen off : 0 <= plen -> size + plen < 2 ^ 63 -> thread_ok (start size plen off).
Proof.
  intros Hp Hs. unfold start. destruct (off <? 0) eqn:E0; zbool; [by cbn|].
  destruct (size <=? off) eqn:E1; zbool; [cbn; unfold finished; cbn; change (zlen []) with 0; split; [done|lia]|].
  unfold i64. rewrite signed_id by lia. apply next_ok.
  split; cbn; [lia|lia|destruct (size <? off + plen) eqn:E; zbool; lia|destruct (size <? off + plen) eqn:E; zbool; lia|].
  by rewrite Z.sub_diag.
Qed.

Lemma reading_inside r : reading r -> r_pos r < r_end r -> inside (r_pos r / chunk).
Proof.
  intros [Ho Hp He Hpos _] Hlt. split; [apply Z.div_pos; lia|].
  pose proof (Z.mul_div_le (r_pos r) chunk Hchunk). lia.
Qed.

Lemma seqZ_sub {A} (f : Z -> A) m n lo k : 0 <= lo -> 0 <= k -> lo + k <= n ->
  sub (f <$> seqZ m n) lo k = f <$> seqZ (m + lo) k.
Proof.
  intros. replace n with (lo + (k + (n - lo - k))) by lia. rewrite !seqZ_app, !fmap_app by lia.
  rewrite sub_app_r by (rewrite zlen_fmap, zlen_seqZ; lia). rewrite zlen_fmap, zlen_seqZ, Z.sub_diag by lia.
  apply sub_app_l. by rewrite zlen_fmap, zlen_seqZ.
Qed.

(** A copy makes progress, with the right bytes. *)
Lemma copy_chunk_ok r : reading r -> r_pos r < r_end r ->
  exists r', copy_chunk chunk r (chunk_bytes (r_pos r / chunk)) = next r' /\ reading r' /\
    r_pos r < r_pos r' /\ r_end r' = r_end r /\ r_plen r' = r_plen r /\ r_off r' = r_off r.
Proof.
  intros Hr Hlt. pose proof (reading_inside r Hr Hlt) as Hin. pose proof (zlen_chunk_bytes _ Hin) as Hl.
  unfold copy_chunk. rewrite Hl. set (idx := r_pos r / chunk) in *.
  pose proof (Z.mul_div_le (r_pos r) chunk Hchunk) as H1.
  pose proof (Z.mul_succ_div_gt (r_pos r) chunk Hchunk) as H2. fold idx in H1, H2.
  assert (Hrange : idx * chunk + (fetch_range idx).2 = Z.min size (idx * chunk + chunk)).
  { unfold Cache.fetch_range. cbn. destruct (size <? _) eqn:E; zbool; lia. }
  pose proof Hr as [Ho Hp He Hpos Hout].
  set (want := Z.min _ _). assert (Hw : 0 < want) by (subst want; lia).
  rewrite slice_ok by (subst want; lia). eexists. split; [reflexivity|].
  split_and!; cbn; [|lia|done|done|done]. split; cbn; [done|done|done|subst want; lia|].
  replace (r_pos r - idx * chunk + want - (r_pos r - idx * chunk)) with want by lia.
  unfold chunk_bytes. rewrite seqZ_sub by (subst want; lia). rewrite Hout, <- fmap_app.
  cbn [fst Cache.fetch_range]. replace (idx * chunk + (r_pos r - idx * chunk)) with (r_off r + (r_pos r - r_off r)) by lia.
  rewrite <- seqZ_app by lia. f_equal. f_equal. lia.
Qed.

Lemma thread_step_ok resp c t c' t' : held c -> bounded c -> thread_ok t ->
  (forall r, t = Fetching r -> honest content (fetch_range (r_pos r / chunk)).1 (fetch_range (r_pos r / chunk)).2 resp) ->
  thread_step resp c t = (c', t') -> held c' /\ bounded c' /\ thread_ok t'.
Proof.
  intros Hh Hb Ht Hresp. destruct t as [r|r|r d|r e|]; cbn [Cache.thread_step thread_ok] in *.
  - destruct Ht as [Hr Hlt]. destruct (hit c _) as [[d c1]|] eqn:Eh; intros [= <- <-]; [|by split_and!].
    destruct (hit_held _ _ _ _ Hh Hb Eh) as (Hh1 & Hb1 & _ & -> & _).
    destruct (copy_chunk_ok r Hr Hlt) as (r' & -> & Hr' & _). split_and!; [done|done|by apply next_ok].
  - destruct Ht as [Hr Hlt]. pose proof (reading_inside r Hr Hlt) as Hin.
    pose proof (fetch_range_len _ Hin) as Hlen. specialize (Hresp r eq_refl).
    rewrite (proj2 (Z.ltb_ge (fetch_range (r_pos r / chunk)).2 0)) by lia.
    unfold fetched. destruct resp as [d e]. destruct Hresp as (Hle & Hd & _). cbn [fst snd] in *.
    destruct (zlen d =? (fetch_range (r_pos r / chunk)).2) eqn:El; cbn [negb]; zbool; intros [= <- <-].
    + split_and!; [done|done|split_and!; [done|done|]]. by rewrite Hd, El.
    + split_and!; [done|done|]. cbn. pose proof (reading_out r Hr) as Hol. split; [by rewrite Hol; apply Hr|].
      destruct Hr. lia.
  - destruct Ht as (Hr & Hlt & Hd). pose proof (reading_inside r Hr Hlt) as Hin.
    destruct (store budget c _ d) as [d' c1] eqn:Es. intros [= <- <-].
    destruct (store_held _ _ _ _ _ Hh Hb Hin Hd Es) as (Hh1 & Hb1 & ->).
    destruct (copy_chunk_ok r Hr Hlt) as (r' & -> & Hr' & _). split_and!; [done|done|by apply next_ok].
  - by intros [= <- <-].
  - done.
Qed.

(** ** The whole system *)

Definition sys_ok (s : cache * list thread) : Prop := held s.1 /\ bounded s.1 /\ Forall thread_ok s.2.

Lemma newCache_ok : held newCache /\ bounded newCache.
Proof.
  split; [|by intros _; right; cbn; lia]. split; [constructor| |constructor|done].
  intros idx e. cbn. rewrite lookup_empty. split; [done|]. by intros [?%elem_of_nil _].
Qed.

Lemma step_ok s s' : step size chunk budget content s s' -> sys_ok s -> sys_ok s'.
Proof.
  intros Hs (Hh & Hb & Ht). inv Hs as [c ts plen off Hp Hz|c ts i t resp c' t' Hi Hr Hst]; cbn in *.
  - split_and!; [done|done|]. apply Forall_app. split; [done|]. apply Forall_singleton. by apply start_ok.
  - pose proof (proj1 (Forall_lookup _ _) Ht i t Hi) as Hti.
    destruct (thread_step_ok _ _ _ _ _ Hh Hb Hti Hr Hst) as (Hh' & Hb' & Ht'). split_and!; [done|done|].
    by apply Forall_insert.
Qed.

Lemma total_le_chunk (l : list chunkEntry) : Forall good l -> (length l <= 1)%nat -> total l <= chunk.
Proof.
  intros Hg Hl. destruct l as [|e [|? ?]]; cbn in *; [lia| |lia]. inv Hg as [|? ? [Hin Hd] _].
  pose proof (fetch_range_len _ Hin). rewrite Hd, zlen_chunk_bytes by done. lia.
Qed.

(** Any number of reads at once, their steps interleaved in any order and their
    fetches answered honestly or not at all: a read that returns has the
    object's bytes - all it asked for, or up to the end with [io.EOF], or up to
    an error - none panics, and the bytes held stay within the budget, or one
    chunk when that is more. *)
Theorem interleaved_reads c ts : rtc (step size chunk budget content) (newCache, []) (c, ts) ->
  (forall i r err, ts !! i = Some (Done r err) -> finished r err) /\ Crashed ∉ ts /\
  (0 < budget -> resident c <= Z.max budget chunk).
Proof.
  intros Hr. assert (Hok : sys_ok (c, ts)).
  { enough (H : forall s s', rtc (step size chunk budget content) s s' -> sys_ok s -> sys_ok s').
    { apply (H (newCache, [])); [done|]. destruct newCache_ok. by split_and!. }
    clear -Hchunk. induction 1 as [s|s1 s2 s3 H12 _ IH]; [done|]. intros H1. apply IH. by eapply step_ok. }
  destruct Hok as (Hh & Hb & Ht). cbn in *. rewrite Forall_forall in Ht. split_and!.
  - intros i r err Hi. apply (Ht (Done r err)). by eapply list_elem_of_lookup_2.
  - intros H. exact (Ht _ H).
  - intros Hpos. destruct (Hb Hpos) as [?|Hl]; [lia|].
    pose proof (total_le_chunk _ (held_good _ Hh) Hl). rewrite (held_total _ Hh). lia.
Qed.

(** ** One read, to its end *)

(** How many steps a thread can still take. *)
Definition left_ (t : thread) : Z :=
  match t with
  | Looking r => 3 * (r_end r - r_pos r)
  | Fetching r => 3 * (r_end r - r_pos r) - 1
  | Storing r _ => 3 * (r_end r - r_pos r) - 2
  | Done _ _ | Crashed => 0
  end.

Lemma left_next r r' : reading r' -> r_pos r < r_pos r' -> r_end r' = r_end r ->
  left_ (next r') <= 3 * (r_end r - r_pos r) - 3.
Proof.
  intros [_ _ _ Hp _] Hlt He. unfold next. destruct (r_pos r' <? r_end r') eqn:E; zbool; cbn; lia.
Qed.

(** What a thread's call was. *)
Definition of_call (plen off : Z) (t : thread) : Prop :=
  match t with
  | Looking r | Fetching r | Storing r _ => r_plen r = plen /\ r_off r = off
  | Done r err => r_plen r = plen /\ r_off r = off /\ (forall idx e, err <> Some (ShortRead idx e))
  | Crashed => True
  end.

Lemma next_of_call plen off r : r_plen r = plen -> r_off r = off -> of_call plen off (next r).
Proof.
  intros Hp Ho. unfold next. destruct (_ <? _); [done|]. split_and!; [done|done|]. by destruct (_ <? _).
Qed.

Section reader.
Context (ra : ReaderAt) `{!ReaderAtOK ra content size}.

Lemma ra_honest idx : inside idx -> honest content (fetch_range idx).1 (fetch_range idx).2
    (ra (fetch_range idx).1 (fetch_range idx).2) /\
  fetched size chunk idx (ra (fetch_range idx).1 (fetch_range idx).2) = inl (chunk_bytes idx).
Proof.
  intros Hin. pose proof (fetch_range_len idx Hin) as Hl. destruct Hin as [H0 H1].
  assert (Hle : (fetch_range idx).1 + (fetch_range idx).2 <= size).
  { unfold Cache.fetch_range. cbn. destruct (size <? _) eqn:E; zbool; lia. }
  assert (Hlo : 0 <= (fetch_range idx).1) by (cbn; lia).
  rewrite (reader_exact ra content size) by lia. unfold honest, fetched. cbn [fst snd].
  fold (chunk_bytes idx). rewrite zlen_chunk_bytes by done. rewrite Z.eqb_refl. cbn [negb].
  split_and!; [lia|done|lia|done].
Qed.

Lemma run_thread_spec fuel plen off c t : held c -> bounded c -> thread_ok t -> of_call plen off t ->
  left_ t <= Z.of_nat fuel ->
  exists c' r err, run_thread size chunk budget fuel ra c t = Some (c', (r_out r, err)) /\
    held c' /\ bounded c' /\ finished r err /\ of_call plen off (Done r err).
Proof.
  revert c t. induction fuel as [|fuel IH]; intros c t Hh Hb Ht Hcall Hf.
  { destruct t as [r|r|r d|r e|]; cbn in Ht, Hf; [lia|lia|lia| |done]. by exists c, r, e. }
  assert (Hgo : forall r, (t = Looking r \/ t = Fetching r \/ exists d, t = Storing r d) ->
    exists c' q err, (let '(lo, n) := fetch_range (r_pos r / chunk) in
      let '(c1, t1) := thread_step (ra lo n) c t in run_thread size chunk budget fuel ra c1 t1) = Some (c', (r_out q, err)) /\
      held c' /\ bounded c' /\ finished q err /\ of_call plen off (Done q err)).
  { intros r Hcases. assert (Hrd : reading r /\ r_pos r < r_end r /\ r_plen r = plen /\ r_off r = off).
    { destruct Hcases as [-> |[-> |[d ->]]]; cbn in *; naive_solver. }
    destruct Hrd as (Hrd & Hlt & Hpl & Hof). pose proof (reading_inside r Hrd Hlt) as Hin.
    destruct (ra_honest _ Hin) as [Hon Hfd]. destruct (fetch_range (r_pos r / chunk)) as [lo n] eqn:Efr. cbn [fst snd] in *.
    destruct (thread_step (ra lo n) c t) as [c1 t1] eqn:Est.
    assert (Hhon : forall r', t = Fetching r' -> honest content (fetch_range (r_pos r' / chunk)).1 (fetch_range (r_pos r' / chunk)).2 (ra lo n)).
    { intros r' ->. destruct Hcases as [?|[[= ->]|[d ?]]]; [done| |done]. by rewrite Efr. }
    destruct (thread_step_ok _ _ _ _ _ Hh Hb Ht Hhon Est) as (Hh1 & Hb1 & Ht1).
    enough (left_ t1 < left_ t /\ of_call plen off t1) as [Hleft Hcall1] by (apply (IH c1 t1 Hh1 Hb1 Ht1 Hcall1); lia).
    destruct (copy_chunk_ok r Hrd Hlt) as (r' & Hc & Hr' & Hpos & Hend & Hp' & Ho').
    destruct Hcases as [-> |[-> |[d ->]]]; cbn [Cache.thread_step] in Est.
    - destruct (hit c _) as [[d c2]|] eqn:Eh; injection Est as <- <-; [|cbn; split; [lia|done]].
      destruct (hit_held _ _ _ _ Hh Hb Eh) as (_ & _ & _ & -> & _). rewrite Hc.
      pose proof (left_next r r' Hr' Hpos Hend). cbn [left_]. split; [lia|]. apply next_of_call; congruence.
    - rewrite Efr in Est. cbn [snd] in Est. pose proof (fetch_range_len _ Hin) as Hl. rewrite Efr in Hl. cbn in Hl.
      rewrite (proj2 (Z.ltb_ge n 0)), Hfd in Est by lia. injection Est as <- <-. cbn. split; [lia|done].
    - destruct Ht as (_ & _ & Hd). destruct (store budget c _ d) as [d' c2] eqn:Es. injection Est as <- <-.
      destruct (store_held _ _ _ _ _ Hh Hb Hin Hd Es) as (_ & _ & ->). rewrite Hc.
      pose proof (left_next r r' Hr' Hpos Hend). cbn [left_]. split; [lia|]. apply next_of_call; congruence. }
  destruct t as [r|r|r d|r e|]; cbn [run_thread]; [apply Hgo; auto|apply Hgo; auto|apply Hgo; eauto| |done].
  by exists c, r, e.
Qed.

(** C34. A cached read over a reader that works is a read of the object: the same
    bytes, and [io.EOF] exactly when they fall short, whatever the cache holds. *)
Theorem ReadAt_direct c plen off : held c -> bounded c -> 0 <= plen -> size + plen < 2 ^ 63 ->
  exists c', held c' /\ bounded c' /\
    ReadAt size chunk budget ra c plen off = Some (c',
      if off <? 0 then ([], Some NegativeOffset)
      else let n := Z.max 0 (Z.min plen (size - off)) in
           (content <$> seqZ off n, if (n <? plen) || (size <=? off) then Some End_ else None)).
Proof.
  intros Hh Hb Hp Hs. unfold ReadAt.
  destruct (off <? 0) eqn:E0.
  { exists c. split_and!; [done|done|]. unfold start. by rewrite E0. }
  destruct (size <=? off) eqn:E1.
  { exists c. split_and!; [done|done|]. unfold start. rewrite E0, E1. zbool.
    replace (Z.max 0 (Z.min plen (size - off))) with 0 by lia. by rewrite orb_true_r. }
  assert (Hcall : of_call plen off (start size plen off)).
  { unfold start. rewrite E0, E1. by apply next_of_call. }
  pose proof (start_ok plen off Hp Hs) as Hok.
  assert (Hleft : left_ (start size plen off) <= Z.of_nat (turns plen)).
  { unfold turns. destruct (start size plen off) as [r|r|r d|r e|] eqn:Es; cbn [left_] in *; cbn in Hok, Hcall; try lia;
      destruct Hok as [[H1 H2 H3 H4 _] _]; destruct Hcall; lia. }
  destruct (run_thread_spec (turns plen) plen off c _ Hh Hb Hok Hcall Hleft)
    as (c' & r & err & -> & Hh' & Hb' & [Hout Hfin] & (Hpl & Hof & Hns)).
  exists c'. split_and!; [done|done|]. do 2 f_equal. rewrite Hof, Hpl in *. zbool. rewrite orb_false_r. cbv zeta.
  assert (Hl : zlen (r_out r) = Z.max 0 (Z.min plen (size - off))).
  { destruct err as [[| |idx e]|]; [lia|lia|by destruct (Hns idx e)|lia]. }
  rewrite <- Hl, <- Hout. f_equal. destruct err as [[| |idx e]|].
  - lia.
  - by rewrite (proj2 (Z.ltb_lt (zlen (r_out r)) plen)) by lia.
  - by destruct (Hns idx e).
  - by rewrite (proj2 (Z.ltb_ge (zlen (r_out r)) plen)) by lia.
Qed.
End reader.
End proofs.

(** ** The theorems at work: an object of ten bytes in chunks of four *)

Definition ten : bytes := [10; 11; 12; 13; 14; 15; 16; 17; 18; 19].

Lemma ReadAt_direct_witness : exists c', held 10 4 (at_ ten) c' /\ bounded 4 c' /\
  ReadAt 10 4 4 (image_reader ten) newCache 5 7 = Some (c', ([17; 18; 19], Some End_)).
Proof.
  destruct (ReadAt_direct 10 4 4 (at_ ten) ltac:(lia) (image_reader ten) (ReaderAtOK0 := image_reader_ok ten) newCache 5 7)
    as (c' & Hh & Hb & E).
  - exact (proj1 (newCache_ok 10 4 0 (at_ ten))).
  - exact (proj2 (newCache_ok 10 4 4 (at_ ten))).
  - lia.
  - lia.
  - exists c'. exact (conj Hh (conj Hb E)).
Defined.

(** Two reads of the first chunk whose fetches race, and a third that is cut
    off. *)
Definition race : cache * list thread :=
  let c := MkCache {[ 0 := MkEntry 0 [10; 11; 12; 13] ]} [MkEntry 0 [10; 11; 12; 13]] 4 in
  (c, [Done (MkRead 2 0 2 2 [10; 11]) None; Done (MkRead 2 1 3 3 [11; 12]) None; Done (MkRead 9 8 10 8 []) (Some (ShortRead 2 (OtherIO 7)))]).

Lemma race_runs : rtc (step 10 4 4 (at_ ten)) (newCache, []) race.
Proof.
  eapply rtc_l; [exact (step_call 10 4 4 (at_ ten) newCache [] 2 0 ltac:(lia) ltac:(lia))|].
  eapply rtc_l; [exact (step_call 10 4 4 (at_ ten) newCache _ 2 1 ltac:(lia) ltac:(lia))|].
  eapply rtc_l; [exact (step_call 10 4 4 (at_ ten) newCache _ 9 8 ltac:(lia) ltac:(lia))|].
  eapply rtc_l; [eapply (step_thread _ _ _ _ _ _ 0 _ ([], None)); [reflexivity|done|reflexivity]|].
  eapply rtc_l; [eapply (step_thread _ _ _ _ _ _ 1 _ ([], None)); [reflexivity|done|reflexivity]|].
  eapply rtc_l; [eapply (step_thread _ _ _ _ _ _ 2 _ ([], None)); [reflexivity|done|reflexivity]|].
  eapply rtc_l; [eapply (step_thread _ _ _ _ _ _ 1 _ ([10; 11; 12; 13], None)); [reflexivity|intros r [= <-]; vm_compute; split_and!; done|reflexivity]|].
  eapply rtc_l; [eapply (step_thread _ _ _ _ _ _ 2 _ ([18], Some (OtherIO 7))); [reflexivity|intros r [= <-]; vm_compute; split_and!; done|reflexivity]|].
  eapply rtc_l; [eapply (step_thread _ _ _ _ _ _ 0 _ ([10; 11; 12; 13], Some EOF)); [reflexivity|intros r [= <-]; vm_compute; split_and!; done|reflexivity]|].
  eapply rtc_l; [eapply (step_thread _ _ _ _ _ _ 0 _ ([], None)); [reflexivity|done|reflexivity]|].
  eapply rtc_l; [eapply (step_thread _ _ _ _ _ _ 1 _ ([], None)); [reflexivity|done|reflexivity]|].
  vm_compute. apply rtc_refl.
Qed.

Lemma interleaved_reads_witness : Crashed ∉ race.2 /\ resident race.1 <= 4 /\
  finished 10 (at_ ten) (MkRead 2 1 3 3 [11; 12]) None.
Proof.
  destruct (interleaved_reads 10 4 4 (at_ ten) ltac:(lia) race.1 race.2 race_runs) as (H1 & H2 & H3).
  split; [exact H2|]. split; [exact (H3 ltac:(lia))|]. exact (H1 1%nat _ _ eq_refl).
Defined.
