(* ===== verification/Range.v ===== *)
(** Reading a remote image by byte range ([internal/source/rangereader.go], its
    fallback file [cachestore.go], and the check of a source in [probe.go]).

    The server and the network are what each attempt meets: a [reply], and
    whether the read's time is up. [Parse] is [contentrange.Parse] of
    github.com/snabb/httpreaderat. *)
From S2P Require Import Prelude Text Cache.

Definition Second : Z := 1000000000.
Definition Millisecond : Z := 1000000.

(** ** What an attempt meets *)

Record response := MkResponse {
  StatusCode : Z;
  ContentRange : bytes;
  ETag : bytes;
  LastModified : bytes;
  RetryAfter : bytes;
  ContentLength : Z;
  Body : stream;
}.

(** An exchange: [client.Do] fails - for good, by a redirect limit, a
    certificate or a host that does not exist, or not - or a response comes. *)
Inductive reply :=
| DoFailed (final : bool) (code : Z)
| Answered (resp : response).

(** One attempt; [spill] is whether the fallback file can be written,
    [expired] whether the read's budget has run out when it ends, [waited]
    whether it runs out during the wait that follows. *)
Record attempt := MkAttempt { a_reply : reply; spill : bool; expired : bool; waited : bool }.

(** The attempts of one read, by number. *)
Definition network : Type := Z -> attempt.

Record retryPolicy := MkPolicy { attempts : Z; p_base : Z; p_max : Z; p_budget : Z; p_idle : Z }.

Definition defaultRetryPolicy : retryPolicy :=
  MkPolicy 5 (500 * Millisecond) (8 * Second) (300 * Second) (60 * Second).

(** ** Errors *)

Inductive range_err :=
| NegativeOff
| ErrEOF
| ErrChanged
| ErrNoRange
| HttpFailed (code : Z)
| StatusError (status : Z)
| RangeIgnored
| BadContentRange
| NoSize
| DifferentRange
| ShortRange
| BodyFailed (e : io_err)
| StoreFailed
| BodyShort
| StoreRead (e : io_err)
| GivingUp (attempt : Z) (e : range_err)
| OutOfTurns (s : stuck).

(** [transientError] or not. *)
Inductive failure :=
| Final (e : range_err)
| Transient (e : range_err) (retryAfter : Z).

(** ** The reader *)

(** [store] is the fallback file, if one was written; [hasStore] whether there is
    somewhere to write it. *)
Record rangeReader := MkRange {
  r_size : Z; r_etag : bytes; r_modified : bytes; useStore : bool; hasStore : bool; store : option bytes;
}.

Section rangeReader.
Context (Parse : bytes -> option (Z * Z * Z)) (pol : retryPolicy).

Definition remember (rr : rangeReader) (resp : response) (size : Z) : rangeReader :=
  MkRange size (ETag resp) (LastModified resp) (useStore rr) (hasStore rr) (store rr).

Definition validate (rr : rangeReader) (resp : response) (size : Z) : option range_err :=
  if negb (size =? r_size rr) then Some ErrChanged
  else if negb (bool_decide (ETag resp = r_etag rr)) then Some ErrChanged
  else if negb (bool_decide (LastModified resp = r_modified rr)) then Some ErrChanged
  else None.

Definition statusFailure (resp : response) : failure :=
  let err := StatusError (StatusCode resp) in
  if (StatusCode resp =? 408) || (StatusCode resp =? 429) || (500 <=? StatusCode resp) then
    Transient err (match Text.Atoi (RetryAfter resp) with
                   | Ok s => if 0 <? s then i64 (s * Second) else 0
                   | _ => 0
                   end)
  else Final err.

(** [cacheStore.ReadFrom], into a fresh file. *)
Definition ReadFrom (rr : rangeReader) (ok : bool) (body : stream) : option range_err * Z * rangeReader :=
  if ok then
    (match sfail body with Some _ => Some (BodyFailed (stream_end body)) | None => None end, zlen (sdata body),
     MkRange (r_size rr) (r_etag rr) (r_modified rr) (useStore rr) (hasStore rr) (Some (sdata body)))
  else (Some StoreFailed, 0, MkRange (r_size rr) (r_etag rr) (r_modified rr) (useStore rr) (hasStore rr) None).

Definition fallback (rr : rangeReader) (ok : bool) (resp : response) : bytes * option failure * rangeReader :=
  if negb (hasStore rr) then ([], Some (Final ErrNoRange), rr)
  else
    let '(err, n, rr) := ReadFrom rr ok (Body resp) in
    match err with
    | Some e => ([], Some (Transient e 0), rr)
    | None =>
        if (0 <=? ContentLength resp) && negb (n =? ContentLength resp) then ([], Some (Transient BodyShort 0), rr)
        else
          let rr := remember rr resp n in
          ([], None, MkRange (r_size rr) (r_etag rr) (r_modified rr) true (hasStore rr) (store rr))
    end.

(** A partial response, read into the buffer. *)
Definition partial (rr : rangeReader) (n first : Z) (initialize : bool) (resp : response)
    : bytes * option failure * rangeReader :=
  let last := first + n - 1 in
  match Parse (ContentRange resp) with
  | None => ([], Some (Final BadContentRange), rr)
  | Some (f, l, size) =>
      if size <? 0 then ([], Some (Final NoSize), rr)
      else
        let rr := if initialize then remember rr resp size else rr in
        match if initialize then None else validate rr resp size with
        | Some e => ([], Some (Final e), rr)
        | None =>
            if negb (f =? first) || (last <? l) then ([], Some (Final DifferentRange), rr)
            else if l <? last then ([], Some (Transient ShortRange 0), rr)
            else
              let '(d, err, _) := read_full (Body resp) n in
              match err with
              | Some e => (d, Some (Transient (BodyFailed e) 0), rr)
              | None => (d, None, rr)
              end
        end
  end.

(** [get]: the bytes read into a buffer of [n], and the failure. *)
Definition get (rr : rangeReader) (n first : Z) (initialize : bool) (a : attempt)
    : bytes * option failure * rangeReader :=
  match a_reply a with
  | DoFailed final code => ([], Some (if final then Final (HttpFailed code) else Transient (HttpFailed code) 0), rr)
  | Answered resp =>
      if initialize && (StatusCode resp =? 416)
         && bool_decide (Parse (ContentRange resp) = Some (-1, -1, 0))
      then ([], None, remember rr resp 0)
      else if (StatusCode resp =? 200) && initialize then fallback rr (spill a) resp
      else if StatusCode resp =? 200 then ([], Some (Transient RangeIgnored 0), rr)
      else if negb (StatusCode resp =? 206) then ([], Some (statusFailure resp), rr)
      else partial rr n first initialize resp
  end.

(** ** Retrying *)

(** [backoff]: [jitter] is what [rand.Int64N(d/2+1)] gives. *)
Fixpoint doubled (turns : nat) (d : Z) : Z :=
  match turns with
  | O => d
  | S turns => if d <? p_max pol then doubled turns (i64 (d * 2)) else d
  end.

Definition backoff (attempt retryAfter jitter : Z) : Z :=
  let d := Z.min (doubled (Z.to_nat (attempt - 1)) (p_base pol)) (p_max pol) in
  Z.max (d - jitter) (Z.min retryAfter (p_max pol)).

(** [retry] from attempt [k]; [turns] is how many attempts remain. *)
Fixpoint retry (turns : nat) (k : Z) (rr : rangeReader) (n first : Z) (initialize : bool) (net : network)
    : bytes * option range_err * rangeReader :=
  match turns with
  | O => ([], Some (OutOfTurns OutOfFuel), rr)  (* not reached: [retry_attempts] *)
  | S turns =>
      let a := net k in
      let '(d, err, rr) := get rr n first initialize a in
      match err with
      | None => (d, None, rr)
      | Some (Final e) => (d, Some e, rr)
      | Some (Transient e _) =>
          if (attempts pol <=? k) || expired a then (d, Some (GivingUp k e), rr)
          else if waited a then (d, Some (GivingUp k e), rr)
          else retry turns (k + 1) rr n first initialize net
      end
  end.

Definition do_retry (rr : rangeReader) (n first : Z) (initialize : bool) (net : network)
    : bytes * option range_err * rangeReader :=
  retry (Z.to_nat (Z.max 1 (attempts pol))) 1 rr n first initialize net.

(** [newRangeReader], with a store to fall back on. *)
Definition newRangeReader (net : network) : option range_err * rangeReader :=
  let '(_, err, rr) := do_retry (MkRange 0 [] [] false true None) 1 0 true net in (err, rr).

(** [ReadAt]: the bytes, and the error. A reader only reads its fields, so it is
    the same after. *)
Definition ReadAt (rr : rangeReader) (net : network) (plen off : Z) : bytes * option range_err :=
  if off <? 0 then ([], Some NegativeOff)
  else if useStore rr then
    match store rr with
    | None => ([], None)
    | Some data => let '(d, e) := image_reader data off plen in
                   (d, match e with Some EOF => Some ErrEOF | Some e => Some (StoreRead e) | None => None end)
    end
  else if plen =? 0 then ([], None)
  else if r_size rr <=? off then ([], Some ErrEOF)
  else
    let past := r_size rr <? i64 (off + plen) in
    let n := if past then r_size rr - off else plen in
    let '(d, err, _) := do_retry rr n off false net in
    (d, match err with Some e => Some e | None => if past then Some ErrEOF else None end).

(** ** The object *)

Context (content : Z -> Z) (osize : Z) (etag modified : bytes).

(** A server that answers for one object: a partial response that carries the
    object's identity has the object's bytes, as far as it goes. *)
Definition faithful (net : network) : Prop := forall k resp f l,
  a_reply (net k) = Answered resp -> StatusCode resp = 206 ->
  Parse (ContentRange resp) = Some (f, l, osize) -> ETag resp = etag -> LastModified resp = modified ->
  forall i x, sdata (Body resp) !! i = Some x -> Z.of_nat i <= l - f -> x = content (f + Z.of_nat i).

(** A reader that remembers the object. *)
Definition knows (rr : rangeReader) : Prop :=
  r_size rr = osize /\ r_etag rr = etag /\ r_modified rr = modified /\ useStore rr = false.

Definition some_bytes (first n : Z) (d : bytes) : Prop := zlen d <= n /\ d = content <$> seqZ first (zlen d).

Lemma some_bytes_nil first n : 0 <= n -> some_bytes first n [].
Proof. by split. Qed.

Lemma get_bytes rr n first net k : faithful net -> knows rr -> 0 < n ->
  let '(d, err, rr') := get rr n first false (net k) in
  some_bytes first n d /\ rr' = rr /\ (err = None -> zlen d = n).
Proof.
  intros Hf (H1 & H2 & H3 & H4) Hn. unfold get. destruct (a_reply (net k)) as [final code|resp] eqn:Hr.
  { split_and!; [apply some_bytes_nil; lia|done|done]. }
  cbn [andb]. rewrite andb_false_r.
  destruct (StatusCode resp =? 200); [split_and!; [apply some_bytes_nil; lia|done|done]|].
  destruct (StatusCode resp =? 206) eqn:Es; cbn [negb]; [|split_and!; [apply some_bytes_nil; lia|done|done]].
  zbool. unfold partial. destruct (Parse (ContentRange resp)) as [[[f l] size]|] eqn:Hp;
    [|split_and!; [apply some_bytes_nil; lia|done|done]].
  destruct (size <? 0); [split_and!; [apply some_bytes_nil; lia|done|done]|].
  destruct (validate rr resp size) as [e|] eqn:Hv; [split_and!; [apply some_bytes_nil; lia|done|done]|].
  unfold validate in Hv. destruct (size =? r_size rr) eqn:E1; cbn [negb] in Hv; [|done].
  case_bool_decide as E2; cbn [negb] in Hv; [|done]. case_bool_decide as E3; cbn [negb] in Hv; [|done]. zbool.
  destruct (negb (f =? first) || _) eqn:E4; [split_and!; [apply some_bytes_nil; lia|done|done]|]. zbool.
  destruct (l <? first + n - 1) eqn:E5; [split_and!; [apply some_bytes_nil; lia|done|done]|]. zbool.
  subst f. assert (Hd : some_bytes first n (take (Z.to_nat n) (sdata (Body resp)))).
  { unfold some_bytes. assert (Hl : zlen (take (Z.to_nat n) (sdata (Body resp))) <= n).
    { unfold zlen. rewrite length_take. lia. }
    split; [done|]. apply list_eq_seqZ; [done|]. intros i x Hi. apply lookup_take_Some in Hi as [Hi Hlt].
    eapply Hf; [exact Hr|done|by rewrite Hp, E1, H1|congruence|congruence|exact Hi|lia]. }
  unfold read_full. destruct (n <=? zlen (take (Z.to_nat n) (sdata (Body resp)))) eqn:El; zbool.
  - split_and!; [done|done|]. intros _. destruct Hd. lia.
  - split_and!; [done|done|done].
Qed.

Lemma retry_bytes turns k rr n first net : faithful net -> knows rr -> 0 < n ->
  let '(d, err, rr') := retry turns k rr n first false net in
  some_bytes first n d /\ (err = None -> zlen d = n).
Proof.
  intros Hf Hk Hn. revert k. induction turns as [|turns IH]; intros k; cbn [retry].
  { split; [apply some_bytes_nil; lia|done]. }
  pose proof (get_bytes rr n first net k Hf Hk Hn) as Hg.
  destruct (get rr n first false (net k)) as [[d err] rr']. destruct Hg as (Hb & -> & He).
  destruct err as [[e|e ra]|]; [by split| |by split; [|auto]].
  destruct (_ || _); [by split|]. destruct (waited _); [by split|]. apply IH.
Qed.

(** The reader below the cache: its error as an [io] error. *)
Definition io_of (e : range_err) : io_err := match e with ErrEOF => EOF | _ => OtherIO 1 end.

Lemma get_no_eof rr n first init a d e rr' : get rr n first init a = (d, Some e, rr') ->
  match e with Final e | Transient e _ => e <> ErrEOF end.
Proof.
  unfold get. destruct (a_reply a) as [final code|resp]; [destruct final; by intros [= _ <- _]|].
  destruct (init && _ && _); [done|]. destruct (_ && init).
  { unfold fallback, ReadFrom. destruct (negb (hasStore rr)); [by intros [= _ <- _]|].
    destruct (spill a); cbn; [|by intros [= _ <- _]].
    destruct (sfail (Body resp)); [by intros [= _ <- _]|]. destruct (_ && _); [by intros [= _ <- _]|done]. }
  destruct (StatusCode resp =? 200); [by intros [= _ <- _]|].
  destruct (negb _). { unfold statusFailure. destruct (_ || _); by intros [= _ <- _]. }
  unfold partial. destruct (Parse _) as [[[f l] size]|]; [|by intros [= _ <- _]].
  destruct (size <? 0); [by intros [= _ <- _]|].
  set (v := if init then None else _). assert (Hv : forall x, v = Some x -> x <> ErrEOF).
  { subst v. destruct init; [done|]. unfold validate. intros x.
    destruct (negb _); [by intros [= <-]|]. destruct (negb _); [by intros [= <-]|]. destruct (negb _); [by intros [= <-]|done]. }
  destruct v as [x|]; [intros [= _ <- _]; by apply Hv|]. destruct (_ || _); [by intros [= _ <- _]|].
  destruct (_ <? _); [by intros [= _ <- _]|]. destruct (read_full _ _) as [[? [?|]] ?]; [by intros [= _ <- _]|done].
Qed.

Lemma retry_no_eof turns k rr n first init net d rr' : retry turns k rr n first init net <> (d, Some ErrEOF, rr').
Proof.
  revert k rr. induction turns as [|turns IH]; intros k rr; cbn [retry]; [done|].
  destruct (get _ _ _ _ _) as [[d1 [e|]] rr1] eqn:Hg; [|done]. apply get_no_eof in Hg.
  destruct e as [e|e ra]; [congruence|]. destruct (_ || _); [done|]. destruct (waited _); [done|]. apply IH.
Qed.

(** A ranged read gives the object's bytes - a prefix of what was asked, all of
    it when there is no error - and [io.EOF] only at the object's end, whatever
    the server and the network do. *)
Theorem ReadAt_honest rr net plen off : faithful net -> knows rr -> 0 <= plen -> off + plen < 2 ^ 63 ->
  let '(d, err) := ReadAt rr net plen off in
  honest content off plen (d, io_of <$> err) /\ (err = None -> zlen d = plen) /\
  (err = Some ErrEOF -> osize < off + plen \/ osize <= off) /\
  (0 <= off -> err = Some ErrEOF -> zlen d = Z.max 0 (osize - off)).
Proof.
  intros Hf Hk Hp Hb. pose proof Hk as (Hs & _ & _ & Hst). unfold ReadAt, honest. rewrite Hst.
  destruct (off <? 0) eqn:E0; [cbn; split_and!; try done; lia|].
  destruct (plen =? 0) eqn:E1; zbool; [subst; cbn; change (zlen []) with 0; split_and!; try done; lia|].
  destruct (r_size rr <=? off) eqn:E2; zbool.
  { cbn. change (zlen []) with 0. split_and!; try done; lia. }
  rewrite Hs in *. unfold i64. rewrite signed_id by lia.
  set (n := if osize <? off + plen then _ else _). assert (Hn : 0 < n <= plen /\ (osize < off + plen -> n = osize - off) /\ (off + plen <= osize -> n = plen)).
  { subst n. destruct (osize <? off + plen) eqn:E; zbool; lia. }
  unfold do_retry. pose proof (retry_bytes (Z.to_nat (Z.max 1 (attempts pol))) 1 rr n off net Hf Hk ltac:(lia)) as Hr.
  destruct (retry _ _ _ _ _ _ _) as [[d err] rr'] eqn:Ert. destruct Hr as [[Hl Hd] He]. cbn [fst snd].
  destruct err as [e|].
  - assert (e <> ErrEOF) by (intros ->; by eapply retry_no_eof). cbn. split_and!; [lia|done|done|done|congruence|congruence].
  - specialize (He eq_refl). destruct (osize <? off + plen) eqn:E; zbool; cbn; split_and!; try done; lia.
Qed.

(** ** Retrying *)

Lemma get_same rr n first a : (get rr n first false a).2 = rr.
Proof.
  unfold get. destruct (a_reply a) as [final code|resp]; [done|]. cbn [andb]. rewrite andb_false_r.
  destruct (_ =? 200); [done|]. destruct (negb _); [done|]. unfold partial.
  destruct (Parse _) as [[[f l] size]|]; [|done]. destruct (size <? 0); [done|].
  destruct (validate _ _ _); [done|]. destruct (_ || _); [done|]. destruct (_ <? _); [done|].
  by destruct (read_full _ _) as [[? [?|]] ?].
Qed.

(** Only the attempts the policy allows are made. *)
Lemma retry_attempts turns k rr n first init net net' :
  0 < attempts pol - k + 1 <= Z.of_nat turns \/ (0 < turns)%nat /\ attempts pol <= k ->
  (forall j, k <= j <= Z.max k (attempts pol) -> net j = net' j) ->
  retry turns k rr n first init net = retry turns k rr n first init net' /\
  (forall s, (retry turns k rr n first init net).1.2 <> Some (OutOfTurns s)).
Proof.
  intros Ht Hnet. revert k rr Ht Hnet. induction turns as [|turns IH]; intros k rr Ht Hnet; [lia|].
  cbn [retry]. rewrite <- (Hnet k) by lia.
  destruct (get rr n first init (net k)) as [[d [[e|e ra]|]] rr'] eqn:Hg; [split; [done|]|  |by split].
  - intros s [= ->]. revert Hg. unfold get. destruct (a_reply (net k)) as [final code|resp]; [by destruct final|].
    destruct (init && _ && _); [done|]. destruct (_ && init).
    { unfold fallback, ReadFrom. destruct (negb (hasStore rr)); [done|]. destruct (spill _); cbn; [|done].
      destruct (sfail (Body resp)); [done|]. by destruct (_ && _). }
    destruct (_ =? 200); [done|]. destruct (negb _); [unfold statusFailure; by destruct (_ || _)|].
    unfold partial. destruct (Parse _) as [[[f l] size]|]; [|done]. destruct (size <? 0); [done|].
    set (v := if init then None else _). assert (Hv : forall x, v = Some x -> x = ErrChanged).
    { subst v. destruct init; [done|]. unfold validate. intros x.
      destruct (negb _); [by intros [= <-]|]. destruct (negb _); [by intros [= <-]|]. destruct (negb _); [by intros [= <-]|done]. }
    destruct v as [x|]; [rewrite (Hv x eq_refl); done|]. destruct (_ || _); [done|]. destruct (_ <? _); [done|].
    by destruct (read_full _ _) as [[? [?|]] ?].
  - destruct (attempts pol <=? k) eqn:E; cbn [orb]; [by split|]. zbool.
    destruct (expired _); [by split|]. destruct (waited _); [by split|].
    apply IH; [|intros j Hj; apply Hnet; lia]. destruct Ht as [?|[? ?]]; [|lia].
    destruct (decide (k + 1 <= attempts pol)); [left; lia|right; lia].
Qed.

(** A read succeeds when one of its attempts does and those before it fail in
    passing, and time does not run out; an attempt past the policy's number is
    never made. *)
Theorem retry_succeeds rr n first net k d : 1 <= k <= attempts pol ->
  (forall j, 1 <= j < k -> expired (net j) = false /\ waited (net j) = false /\
     exists dj e ra, (get rr n first false (net j)).1 = (dj, Some (Transient e ra))) ->
  (get rr n first false (net k)).1 = (d, None) ->
  do_retry rr n first false net = (d, None, rr) /\
  forall net', (forall j, 1 <= j <= attempts pol -> net' j = net j) -> do_retry rr n first false net' = (d, None, rr).
Proof.
  intros Hk Hbefore Hok.
  assert (Hgo : forall i turns, 1 <= i <= k -> k - i < Z.of_nat turns ->
    retry turns i rr n first false net = (d, None, rr)).
  { intros i turns. revert i. induction turns as [|turns IH]; intros i Hi Ht; [lia|]. cbn [retry].
    pose proof (get_same rr n first (net i)) as Hs.
    destruct (decide (i = k)) as [->|Hne].
    - destruct (get rr n first false (net k)) as [[d' err'] rr']. cbn in Hok, Hs. injection Hok as -> ->. by rewrite Hs.
    - destruct (Hbefore i) as (He & Hw & dj & e & ra & Hj); [lia|].
      destruct (get rr n first false (net i)) as [[d' err'] rr']. cbn in Hj, Hs. injection Hj as -> ->. subst rr'.
      rewrite He, Hw. rewrite (proj2 (Z.leb_gt (attempts pol) i)) by lia. cbn [orb]. apply IH; lia. }
  assert (Hnet : do_retry rr n first false net = (d, None, rr)) by (apply Hgo; lia).
  split; [done|]. intros net' Hnet'. rewrite <- Hnet. unfold do_retry. symmetry.
  apply retry_attempts; [left; lia|]. intros j Hj. symmetry. apply Hnet'. lia.
Qed.

(** The wait before a retry: at least half the base, at most the maximum. *)
Theorem backoff_bounds k retryAfter jitter : 0 < p_base pol <= p_max pol -> p_max pol < 2 ^ 62 ->
  0 <= jitter <= Z.min (doubled (Z.to_nat (k - 1)) (p_base pol)) (p_max pol) / 2 ->
  p_base pol / 2 <= backoff k retryAfter jitter <= p_max pol /\
  (retryAfter <= p_max pol -> retryAfter <= backoff k retryAfter jitter).
Proof.
  intros Hb Hm Hj. unfold backoff.
  assert (Hd : forall t d, p_base pol <= d -> d < 2 ^ 63 -> p_base pol <= doubled t d).
  { induction t as [|t IH]; intros d Hd Hd2; cbn [doubled]; [done|].
    destruct (d <? p_max pol) eqn:E; zbool; [|done]. unfold i64. rewrite signed_id by lia. apply IH; lia. }
  specialize (Hd (Z.to_nat (k - 1)) (p_base pol) ltac:(lia) ltac:(lia)).
  set (d := Z.min _ _) in *. assert (p_base pol <= d <= p_max pol) by (subst d; lia).
  pose proof (Z.div_le_mono (p_base pol) d 2 ltac:(lia) ltac:(lia)).
  pose proof (Z.mul_div_le d 2 ltac:(lia)). pose proof (Z.mul_succ_div_gt d 2 ltac:(lia)).
  pose proof (Z.mul_div_le (p_base pol) 2 ltac:(lia)).
  split; [|lia]. split; [|lia]. assert (p_base pol / 2 <= d - jitter); [|lia].
  assert (d - jitter >= d / 2) by lia. lia.
Qed.

(** ** Opening *)

(** What the first exchange of a reader left it with: an object whose size and
    identity a partial response gave, an empty one, or the whole of a file the
    server would only send whole. *)
Inductive opened_by (rr : rangeReader) (resp : response) : Prop :=
| by_range f l :
    StatusCode resp = 206 -> Parse (ContentRange resp) = Some (f, l, r_size rr) -> 0 <= r_size rr ->
    r_etag rr = ETag resp -> r_modified rr = LastModified resp -> useStore rr = false -> opened_by rr resp
| by_empty :
    StatusCode resp = 416 -> Parse (ContentRange resp) = Some (-1, -1, 0) -> r_size rr = 0 ->
    useStore rr = false -> opened_by rr resp
| by_whole :
    StatusCode resp = 200 -> sfail (Body resp) = None -> useStore rr = true ->
    store rr = Some (sdata (Body resp)) -> r_size rr = zlen (sdata (Body resp)) ->
    (0 <= ContentLength resp -> ContentLength resp = r_size rr) -> opened_by rr resp.

Lemma get_opens rr n first a d rr' : useStore rr = false -> get rr n first true a = (d, None, rr') ->
  exists resp, a_reply a = Answered resp /\ opened_by rr' resp.
Proof.
  intros Hu. unfold get. destruct (a_reply a) as [final code|resp]; [by destruct final|]. intros Hg. exists resp. split; [done|].
  revert Hg. cbn [andb]. rewrite andb_true_r. destruct ((StatusCode resp =? 416) && _) eqn:E416.
  { intros [= _ <-]. apply andb_true_iff in E416 as [E1 E2%bool_decide_eq_true]. zbool. by apply by_empty. }
  destruct (StatusCode resp =? 200) eqn:E200; zbool.
  { unfold fallback, ReadFrom. destruct (negb (hasStore rr)); [done|]. destruct (spill a); cbn; [|done].
    destruct (sfail (Body resp)) eqn:Esf; [done|].
    destruct ((0 <=? ContentLength resp) && _) eqn:Ecl; [done|]. intros [= _ <-]. apply by_whole; cbn; try done.
    intros Hcl. destruct (zlen (sdata (Body resp)) =? ContentLength resp) eqn:El; zbool; [done|].
    rewrite (proj2 (Z.leb_le 0 (ContentLength resp))) in Ecl by done. done. }
  destruct (StatusCode resp =? 206) eqn:E206; cbn [negb]; zbool; [|done]. unfold partial.
  destruct (Parse (ContentRange resp)) as [[[f l] size]|] eqn:Hp; [|done]. destruct (size <? 0) eqn:Esz; zbool; [done|].
  destruct (_ || _); [done|]. destruct (_ <? _); [done|].
  destruct (read_full _ _) as [[? [?|]] ?]; [done|]. intros [= _ <-]. by eapply (by_range _ _ f l).
Qed.

(** [useStore] is only set by a whole file. *)
Lemma get_useStore rr n first a d e rr' : useStore rr = false -> get rr n first true a = (d, Some e, rr') -> useStore rr' = false.
Proof.
  intros Hu. unfold get. destruct (a_reply a) as [final code|resp]; [by intros [= _ _ <-]|].
  destruct (true && _ && _); [done|]. destruct (_ && true).
  { unfold fallback, ReadFrom. destruct (negb (hasStore rr)); [by intros [= _ _ <-]|]. destruct (spill a); cbn; [|by intros [= _ _ <-]].
    destruct (sfail (Body resp)); [by intros [= _ _ <-]|]. destruct (_ && _); [by intros [= _ _ <-]|done]. }
  destruct (StatusCode resp =? 200); [by intros [= _ _ <-]|]. destruct (negb _); [by intros [= _ _ <-]|].
  unfold partial. destruct (Parse _) as [[[f l] size]|]; [|by intros [= _ _ <-]].
  destruct (size <? 0); [by intros [= _ _ <-]|]. destruct (_ || _); [by intros [= _ _ <-]|].
  destruct (_ <? _); [by intros [= _ _ <-]|]. destruct (read_full _ _) as [[? [?|]] ?]; [by intros [= _ _ <-]|done].
Qed.

(** A reader that opens has the size and the identity its last exchange gave; one
    a server sent whole serves that file's bytes from then on. *)
Theorem newRangeReader_opens net rr : newRangeReader net = (None, rr) ->
  exists k resp, a_reply (net k) = Answered resp /\ opened_by rr resp /\
  forall net' plen off, useStore rr = true -> 0 <= off ->
    fst (ReadAt rr net' plen off) = fst (image_reader (sdata (Body resp)) off plen).
Proof.
  unfold newRangeReader, do_retry.
  assert (Hgo : forall turns k rr0 d rr1, useStore rr0 = false -> retry turns k rr0 1 0 true net = (d, None, rr1) ->
    exists k resp, a_reply (net k) = Answered resp /\ opened_by rr1 resp).
  { induction turns as [|turns IH]; intros k rr0 d rr1 Hu; cbn [retry]; [done|].
    destruct (get rr0 1 0 true (net k)) as [[d' [e|]] rr2] eqn:Hg.
    - pose proof (get_useStore _ _ _ _ _ _ _ Hu Hg) as Hu2. destruct e as [e|e ra]; [done|].
      destruct (_ || _); [done|]. destruct (waited _); [done|]. by apply IH.
    - intros [= _ <-]. destruct (get_opens _ _ _ _ _ _ Hu Hg) as (resp & ? & ?). by exists k, resp. }
  destruct (retry _ _ _ _ _ _ _) as [[d err] rr1] eqn:Hr. intros [= -> ->].
  destruct (Hgo _ _ (MkRange 0 [] [] false true None) _ _ eq_refl Hr) as (k & resp & Ha & Ho). exists k, resp. split_and!; [done|done|].
  intros net' plen off Hu Hoff. unfold ReadAt. rewrite (proj2 (Z.ltb_ge off 0)), Hu by done.
  destruct Ho as [| |_ _ _ Hs _ _]; [congruence|congruence|]. rewrite Hs. by destruct (image_reader _ _ _).
Qed.
End rangeReader.

(** ** The cache over the remote reader *)

Section remote.
Context (Parse : bytes -> option (Z * Z * Z)) (pol : retryPolicy).
Context (content : Z -> Z) (osize : Z) (etag modified : bytes) (chunk budget : Z).

(** Reads of the image: each fetch is a ranged read, met by whatever the server
    and the network do. *)
Inductive remote_step (rr : rangeReader) : cache * list thread -> cache * list thread -> Prop :=
| remote_call c ts plen off :
    0 <= plen -> osize + plen < 2 ^ 63 ->
    remote_step rr (c, ts) (c, ts ++ [start osize plen off])
| remote_thread c ts i t net c' t' :
    ts !! i = Some t -> faithful Parse content osize etag modified net ->
    (let '(lo, n) := match t with Fetching r => fetch_range osize chunk (r_pos r / chunk) | _ => (0, 0) end in
     let '(d, err) := ReadAt Parse pol rr net n lo in
     thread_step osize chunk budget (d, io_of <$> err) c t = (c', t')) ->
    remote_step rr (c, ts) (c', <[i := t']> ts).

Lemma remote_is_step rr s s' : 0 < chunk -> osize < 2 ^ 62 -> chunk < 2 ^ 62 -> knows osize etag modified rr ->
  remote_step rr s s' -> sys_ok osize chunk budget content s -> step osize chunk budget content s s'.
Proof.
  intros Hc Ho Hck Hk Hs Hok. inv Hs as [|c ts i t net c' t' Hi Hf Hst]; [by apply step_call|].
  destruct (match t with Fetching r => _ | _ => _ end) as [lo n] eqn:Ern.
  destruct (ReadAt Parse pol rr net n lo) as [d err] eqn:Er.
  eapply step_thread; [exact Hi| |exact Hst]. intros r ->. destruct Hok as (_ & _ & Ht). cbn in Ht.
  pose proof (proj1 (Forall_lookup _ _) Ht i _ Hi) as [Hrd Hlt]. cbn [thread_ok] in *.
  pose proof (reading_inside osize chunk content Hc r Hrd Hlt) as Hin.
  pose proof (fetch_range_len osize chunk Hc _ Hin) as Hl. rewrite Ern in *. cbn [fst snd] in *.
  assert (Hlo : lo = r_pos r / chunk * chunk) by (unfold fetch_range in Ern; by injection Ern as <- _).
  destruct Hin as [H0 H1].
  pose proof (ReadAt_honest Parse pol content osize etag modified rr net n lo Hf Hk ltac:(lia) ltac:(lia)) as Hh.
  rewrite Er in Hh. by destruct Hh.
Qed.

(** C26. Reads of a remote image, any number at once, over a server that answers as it
    will and a network that fails as it will: each read that returns has the
    image's bytes, up to an error if there was one. *)
Theorem remote_reads rr c ts : 0 < chunk -> osize < 2 ^ 62 -> chunk < 2 ^ 62 -> knows osize etag modified rr ->
  rtc (remote_step rr) (newCache, []) (c, ts) ->
  (forall i r err, ts !! i = Some (Done r err) -> finished osize content r err) /\ Crashed ∉ ts /\
  (0 < budget -> resident c <= Z.max budget chunk).
Proof.
  intros Hc Ho Hck Hk Hr. apply interleaved_reads; [done|].
  assert (Hstart : sys_ok osize chunk budget content (newCache, [])).
  { destruct (newCache_ok osize chunk budget content). by split_and!. }
  revert Hstart. generalize dependent (c, ts). generalize (newCache, @nil thread). intros s s'.
  induction 1 as [s|s1 s2 s3 H12 _ IH]; intros Hok; [done|].
  pose proof (remote_is_step rr _ _ Hc Ho Hck Hk H12 Hok) as Hst.
  eapply rtc_l; [exact Hst|]. apply IH. by eapply step_ok.
Qed.
End remote.

(** ** Checking a source *)

(** [strings.LastIndexByte], and what follows the byte. *)
Definition after_last (c : Z) (s : bytes) : option bytes :=
  match split_byte c s with [_] => None | els => last els end.

Definition responseSize (resp : response) : Z :=
  if StatusCode resp =? 206 then
    match after_last slash (ContentRange resp) with
    | Some t => match Text.Atoi t with Ok n => n | _ => -1 end
    | None => -1
    end
  else ContentLength resp.

Inductive probe_err := RequestFailed (code : Z) | BadStatus (status : Z) | EmptyFile.

(** [Probe]: [head] and [ranged] are what a HEAD and a ranged GET meet. *)
Definition Probe (head ranged : reply) : Z * option probe_err :=
  let check resp :=
    if negb (StatusCode resp =? 200) && negb (StatusCode resp =? 206) then (-1, Some (BadStatus (StatusCode resp)))
    else let size := responseSize resp in
         if size =? 0 then (0, Some EmptyFile) else (size, None) in
  match head with
  | DoFailed _ e => (-1, Some (RequestFailed e))
  | Answered resp =>
      if negb (StatusCode resp =? 200) then
        match ranged with DoFailed _ e => (-1, Some (RequestFailed e)) | Answered resp => check resp end
      else check resp
  end.

(** ** Redirects *)

(** A request's scheme and host, and whether it carries credentials. *)
Record request := MkRequest { Scheme : bytes; Host : bytes; authorization : bool }.

(** [stripAuthOnCrossHostRedirect]: the request that follows, unless there were
    ten before it. *)
Definition stripAuthOnCrossHostRedirect (req : request) (via : list request) : option request :=
  match via with
  | [] => Some req
  | orig :: _ =>
      let downgraded := bool_decide (Scheme orig = str "https") && negb (bool_decide (Scheme req = str "https")) in
      let req := if negb (bool_decide (Host req = Host orig)) || downgraded
                 then MkRequest (Scheme req) (Host req) false else req in
      if 10 <=? zlen via then None else Some req
  end.

(** Following redirects: each request goes as the check leaves it. *)
Fixpoint follow (via : list request) (targets : list request) : list request :=
  match targets with
  | [] => via
  | t :: targets =>
      match stripAuthOnCrossHostRedirect t via with
      | Some req => follow (via ++ [req]) targets
      | None => via
      end
  end.

(** However a server redirects, credentials go to the first host only, over https
    if they were given for https, and at most ten requests are made. *)
Theorem credentials_stay first targets : 
  let sent := follow [first] targets in
  (length sent <= 10)%nat /\
  Forall (fun req => authorization req = true ->
    Host req = Host first /\ (Scheme first = str "https" -> Scheme req = str "https")) sent.
Proof.
  cbv zeta. set (good := fun req => authorization req = true ->
    Host req = Host first /\ (Scheme first = str "https" -> Scheme req = str "https")).
  assert (H : forall via, head via = Some first -> (length via <= 10)%nat -> Forall good via ->
    (length (follow via targets) <= 10)%nat /\ Forall good (follow via targets)).
  { induction targets as [|t targets IH]; intros via Hh Hl Hg; cbn [follow]; [done|].
    destruct via as [|orig via]; [done|]. injection Hh as ->. cbn [stripAuthOnCrossHostRedirect].
    destruct (10 <=? zlen (first :: via)) eqn:E; [done|]. zbool. unfold zlen in E. cbn [length] in *.
    apply IH; [done|rewrite length_app; cbn; lia|]. apply Forall_app. split; [done|]. apply Forall_singleton.
    case_bool_decide as Eh; cbn [negb orb]; [|done].
    case_bool_decide as Es; cbn [andb]; [|by intros _; split].
    case_bool_decide as Et; cbn [negb]; [by intros _; split|done]. }
  apply H; [done|cbn; lia|]. apply Forall_singleton. by intros _.
Qed.

(** ** The theorems at work: an image of ten bytes, a network that fails once *)

(** [Parse] for a header of three numbers. *)
Definition demo_Parse (h : bytes) : option (Z * Z * Z) :=
  match h with [f; l; n] => Some (f, l, n) | _ => None end.

Definition demo_range (f l : Z) : response :=
  MkResponse 206 [f; l; 10] (str "v1") [] [] (l - f + 1) (MkStream (sub ten f (l - f + 1)) None).

(** The first attempt fails, the second is answered. *)
Definition demo_net (f l : Z) : network := fun k =>
  MkAttempt (if k =? 1 then DoFailed false 7 else Answered (demo_range f l)) true false false.

Definition demo_reader : rangeReader := MkRange 10 (str "v1") [] false true None.

Lemma demo_faithful f l : 0 <= f -> faithful demo_Parse (at_ ten) 10 (str "v1") [] (demo_net f l).
Proof.
  intros Hf k resp f' l' Ha _ Hp _ _ i x Hx _. cbn in Ha. destruct (k =? 1); [done|]. injection Ha as <-.
  cbn in Hp, Hx. injection Hp as <- <-. unfold sub in Hx. apply lookup_take_Some in Hx as [Hx _].
  rewrite lookup_drop in Hx. unfold at_. symmetry. apply nth_lookup_Some with (d := 0) in Hx. rewrite <- Hx. f_equal. lia.
Qed.

Definition demo_policy : retryPolicy := defaultRetryPolicy.

Lemma retry_succeeds_witness :
  do_retry demo_Parse demo_policy demo_reader 4 4 false (demo_net 4 7) = ([14; 15; 16; 17], None, demo_reader).
Proof.
  destruct (retry_succeeds demo_Parse demo_policy demo_reader 4 4 (demo_net 4 7) 2 [14; 15; 16; 17]) as [H _].
  - vm_compute. split; discriminate.
  - intros j Hj. assert (j = 1) as -> by lia. split; [reflexivity|]. split; [reflexivity|].
    exists [], (HttpFailed 7), 0. reflexivity.
  - vm_compute. reflexivity.
  - exact H.
Defined.

Lemma newRangeReader_opens_witness : exists resp, opened_by demo_Parse demo_reader resp.
Proof.
  destruct (newRangeReader_opens demo_Parse demo_policy (demo_net 0 0) demo_reader) as (k & resp & _ & H & _).
  - vm_compute. reflexivity.
  - exists resp. exact H.
Defined.

(** A read of two bytes across two chunks of four. *)
Definition demo_system : cache * list thread :=
  let e0 := MkEntry 0 [10; 11; 12; 13] in let e1 := MkEntry 1 [14; 15; 16; 17] in
  (MkCache (<[1 := e1]> {[ 0 := e0 ]}) [e1; e0] 8, [Done (MkRead 2 3 5 5 [13; 14]) None]).

Lemma demo_runs : rtc (remote_step demo_Parse demo_policy (at_ ten) 10 (str "v1") [] 4 8 demo_reader) (newCache, []) demo_system.
Proof.
  eapply rtc_l; [exact (remote_call demo_Parse demo_policy (at_ ten) 10 (str "v1") [] 4 8 demo_reader newCache [] 2 3 ltac:(lia) ltac:(lia))|].
  eapply rtc_l; [eapply (remote_thread _ _ _ _ _ _ _ _ _ _ _ 0 _ (demo_net 0 3)); [reflexivity|by apply demo_faithful|vm_compute; reflexivity]|].
  eapply rtc_l; [eapply (remote_thread _ _ _ _ _ _ _ _ _ _ _ 0 _ (demo_net 0 3)); [reflexivity|by apply demo_faithful|vm_compute; reflexivity]|].
  eapply rtc_l; [eapply (remote_thread _ _ _ _ _ _ _ _ _ _ _ 0 _ (demo_net 0 3)); [reflexivity|by apply demo_faithful|vm_compute; reflexivity]|].
  eapply rtc_l; [eapply (remote_thread _ _ _ _ _ _ _ _ _ _ _ 0 _ (demo_net 4 7)); [reflexivity|by apply demo_faithful|vm_compute; reflexivity]|].
  eapply rtc_l; [eapply (remote_thread _ _ _ _ _ _ _ _ _ _ _ 0 _ (demo_net 4 7)); [reflexivity|by apply demo_faithful|vm_compute; reflexivity]|].
  eapply rtc_l; [eapply (remote_thread _ _ _ _ _ _ _ _ _ _ _ 0 _ (demo_net 4 7)); [reflexivity|by apply demo_faithful|vm_compute; reflexivity]|].
  vm_compute. apply rtc_refl.
Qed.

Lemma remote_reads_witness : Crashed ∉ demo_system.2 /\ finished 10 (at_ ten) (MkRead 2 3 5 5 [13; 14]) None.
Proof.
  destruct (remote_reads demo_Parse demo_policy (at_ ten) 10 (str "v1") [] 4 8 demo_reader demo_system.1 demo_system.2)
    as (H1 & H2 & _); [lia|lia|lia|split_and!; reflexivity|exact demo_runs|].
  split; [exact H2|]. exact (H1 0%nat _ _ eq_refl).
Defined.
