(* ===== verification/Strconv.v ===== *)
(** Go's quoted strings: [strconv.Quote] and [strconv.Unquote] on byte
    strings, over the UTF-8 of [unicode/utf8]. The one thing left open is
    which runes above U+00FF print, a table of the Unicode version. *)
From S2P Require Import Prelude Text.

Definition RuneSelf : Z := 0x80.
Definition RuneError : Z := 0xFFFD.

(** ** [unicode/utf8] *)

(** [utf8.DecodeRuneInString] of a string that is not empty: the rune and its
    width, [(RuneError, 1)] for what is not UTF-8. *)
Definition DecodeRune (s : bytes) : Z * nat :=
  let bad := (RuneError, 1%nat) in
  match s with
  | [] => (RuneError, 0%nat)
  | b0 :: t =>
      if b0 <? 0x80 then (b0, 1%nat)
      else if in_range 0xC2 0xDF b0 then
        match t with
        | b1 :: _ => if is_cont b1 then ((b0 - 0xC0) * 64 + (b1 - 0x80), 2%nat) else bad
        | _ => bad
        end
      else if in_range 0xE0 0xEF b0 then
        match t with
        | b1 :: b2 :: _ =>
            if in_range (if b0 =? 0xE0 then 0xA0 else 0x80) (if b0 =? 0xED then 0x9F else 0xBF) b1
               && is_cont b2
            then ((b0 - 0xE0) * 4096 + (b1 - 0x80) * 64 + (b2 - 0x80), 3%nat) else bad
        | _ => bad
        end
      else if in_range 0xF0 0xF4 b0 then
        match t with
        | b1 :: b2 :: b3 :: _ =>
            if in_range (if b0 =? 0xF0 then 0x90 else 0x80) (if b0 =? 0xF4 then 0x8F else 0xBF) b1
               && is_cont b2 && is_cont b3
            then ((b0 - 0xF0) * 262144 + (b1 - 0x80) * 4096 + (b2 - 0x80) * 64 + (b3 - 0x80), 4%nat)
            else bad
        | _ => bad
        end
      else bad
  end.

Definition ValidRune (r : Z) : bool :=
  in_range 0 0xD7FF r || in_range 0xE000 0x10FFFF r.

(** [utf8.AppendRune], as the bytes it appends. *)
Definition EncodeRune (r : Z) : bytes :=
  if negb (ValidRune r) then [0xEF; 0xBF; 0xBD]
  else if r <? 0x80 then [r]
  else if r <? 0x800 then [0xC0 + r / 64; 0x80 + r mod 64]
  else if r <? 0x10000 then [0xE0 + r / 4096; 0x80 + r / 64 mod 64; 0x80 + r mod 64]
  else [0xF0 + r / 262144; 0x80 + r / 4096 mod 64; 0x80 + r / 64 mod 64; 0x80 + r mod 64].

(** ** [strconv] *)

Section quote.
(** Which runes above U+00FF [strconv.IsPrint] accepts. *)
Context (printWide : Z -> bool).

Definition IsPrint (r : Z) : bool :=
  if r <=? 0xFF then in_range 0x20 0x7E r || (in_range 0xA1 0xFF r && negb (r =? 0xAD))
  else printWide r.

Definition lowerhex (d : Z) : Z := if d <? 10 then 48 + d else 87 + d.

Fixpoint hex (n : nat) (r : Z) : bytes :=
  match n with O => [] | S n => lowerhex (r / 16 ^ Z.of_nat n mod 16) :: hex n r end.

Definition dquote : Z := 34.
Definition squote : Z := 39.
Definition backquote : Z := 96.
Definition backslash : Z := 92.

(** The one-letter escapes: the letter for a control character. *)
Definition escapes : list (Z * Z) :=
  [(7, 97); (8, 98); (12, 102); (10, 110); (13, 114); (9, 116); (11, 118)].

Definition escape_letter (r : Z) : option Z :=
  '(_, e) ← list_find (fun e => fst e = r) escapes; Some (snd e).

(** [appendEscapedRune] for double quotes. *)
Definition escapeRune (r : Z) : bytes :=
  if (r =? dquote) || (r =? backslash) then [backslash; r]
  else if IsPrint r then EncodeRune r
  else match escape_letter r with
       | Some l => [backslash; l]
       | None =>
           if (r <? 32) || (r =? 0x7F) then [backslash; 120] ++ hex 2 r
           else let r := if ValidRune r then r else RuneError in
                if r <? 0x10000 then [backslash; 117] ++ hex 4 r
                else [backslash; 85] ++ hex 8 r
       end.

(** One step of [appendQuotedWith]: what it appends for the head of [s], and
    how many bytes it takes. *)
Definition quoteHead (s : bytes) : bytes * nat :=
  let '(r, w) := DecodeRune s in
  if (r =? RuneError) && (w =? 1)%nat then ([backslash; 120] ++ hex 2 (at_ s 0), 1%nat)
  else (escapeRune r, w).

Fixpoint quoteBody (fuel : nat) (s : bytes) : bytes :=
  match fuel, s with
  | S fuel, _ :: _ => let '(e, w) := quoteHead s in e ++ quoteBody fuel (drop w s)
  | _, _ => []
  end.

(** [strconv.Quote]. *)
Definition Quote (s : bytes) : bytes := [dquote] ++ quoteBody (length s) s ++ [dquote].

Definition unhex (c : Z) : option Z :=
  if in_range 48 57 c then Some (c - 48)
  else if in_range 97 102 c then Some (c - 87)
  else if in_range 65 70 c then Some (c - 55)
  else None.

Fixpoint unhexes (n : nat) (v : Z) (s : bytes) : option (Z * bytes) :=
  match n with
  | O => Some (v, s)
  | S n => match s with [] => None | c :: s => x ← unhex c; unhexes n (v * 16 + x) s end
  end.

Definition letter_escape (l : Z) : option Z :=
  '(_, e) ← list_find (fun e => snd e = l) escapes; Some (fst e).

(** [UnquoteChar]: the rune, whether it is to be encoded as UTF-8, and the
    rest. *)
Definition UnquoteChar (s : bytes) (quote : Z) : option (Z * bool * bytes) :=
  match s with
  | [] => None
  | c :: t =>
      if (c =? quote) && ((quote =? squote) || (quote =? dquote)) then None
      else if RuneSelf <=? c then let '(r, w) := DecodeRune s in Some (r, true, drop w s)
      else if negb (c =? backslash) then Some (c, false, t)
      else match t with
           | [] => None
           | e :: t =>
               match letter_escape e with
               | Some v => Some (v, false, t)
               | None =>
                   if e =? 120 then '(v, t) ← unhexes 2 0 t; Some (v, false, t)
                   else if (e =? 117) || (e =? 85) then
                     '(v, t) ← unhexes (if e =? 117 then 4 else 8) 0 t;
                     if ValidRune v then Some (v, true, t) else None
                   else if in_range 48 55 e then
                     match t with
                     | a :: b :: t =>
                         let v := (e - 48) * 64 + (a - 48) * 8 + (b - 48) in
                         if in_range 48 55 a && in_range 48 55 b && (v <=? 255)
                         then Some (v, false, t) else None
                     | _ => None
                     end
                   else if e =? backslash then Some (backslash, false, t)
                   else if ((e =? squote) || (e =? dquote)) && (e =? quote) then Some (e, false, t)
                   else None
               end
           end
  end.

(** What [unquote] appends for a character. *)
Definition unquoted (r : Z) (multibyte : bool) : bytes :=
  if (r <? RuneSelf) || negb multibyte then [u8 r] else EncodeRune r.

(** The loop of [unquote] over escape sequences: the text and what follows the
    closing quote. *)
Fixpoint unquoteLoop (fuel : nat) (quote : Z) (s buf : bytes) : option (bytes * bytes) :=
  match fuel with
  | O => None
  | S fuel =>
      match s with
      | [] => None
      | c :: t =>
          if c =? quote then Some (buf, t)
          else if c =? newline then None
          else '(r, mb, rem) ← UnquoteChar s quote;
               let buf := buf ++ unquoted r mb in
               if quote =? squote then
                 match rem with c :: t => if c =? quote then Some (buf, t) else None | [] => None end
               else unquoteLoop fuel quote rem buf
      end
  end.

Definition contains (s : bytes) (c : Z) : bool := bool_decide (c ∈ s).

(** [strconv.Unquote]. *)
Definition Unquote (s : bytes) : option bytes :=
  match s with
  | quote :: t =>
      match cut quote t with
      | (_, None) => None
      | (body, Some rest) =>
          '(out, rem) ←
            (if quote =? backquote then Some (filter (fun c => c <> carriage) body, rest)
             else if (quote =? dquote) || (quote =? squote) then
               if negb (contains body backslash) && negb (contains body newline)
                  && (if quote =? dquote then valid_utf8 body
                      else let '(r, w) := DecodeRune body in
                           (w =? length body)%nat && negb ((r =? RuneError) && (w =? 1)%nat))
               then Some (body, rest)
               else unquoteLoop (length s) quote t []
             else None);
          match rem with [] => Some out | _ => None end
      end
  | [] => None
  end.

(** ** The round trip *)

Lemma unhex_lowerhex d : 0 <= d < 16 -> unhex (lowerhex d) = Some d.
Proof.
  intros Hd. unfold lowerhex, unhex, in_range.
  destruct (d <? 10) eqn:E; zbool.
  - rewrite (proj2 (Z.leb_le 48 _)), (proj2 (Z.leb_le _ 57)) by lia. cbn. f_equal. lia.
  - rewrite (proj2 (Z.leb_gt _ 57)), andb_false_r by lia.
    rewrite (proj2 (Z.leb_le 97 _)), (proj2 (Z.leb_le _ 102)) by lia. cbn. f_equal. lia.
Qed.

Lemma unhexes_hex n v r k : unhexes n v (hex n r ++ k) = Some (v * 16 ^ Z.of_nat n + r mod 16 ^ Z.of_nat n, k).
Proof.
  revert v. induction n as [|n IH]; intros v.
  { cbn. do 2 f_equal. rewrite Z.mod_1_r. lia. }
  cbn [hex unhexes app]. rewrite unhex_lowerhex by (apply Z.mod_pos_bound; lia). cbn [mbind option_bind].
  rewrite IH, Nat2Z.inj_succ, Z.pow_succ_r by lia. do 2 f_equal.
  set (m := 16 ^ Z.of_nat n). assert (0 < m) by (unfold m; lia).
  rewrite (Z.mul_comm 16 m), Z.rem_mul_r by lia. lia.
Qed.

(** What decoding accepts, encoding gives back, and decoding looks no further
    than the bytes it takes. *)
Lemma enc1 a : 0 <= a < 0x80 -> EncodeRune a = [a] /\ ValidRune a = true.
Proof.
  intros Ha. unfold EncodeRune, ValidRune, in_range.
  rewrite (proj2 (Z.leb_le 0 a)), (proj2 (Z.leb_le a 0xD7FF)), (proj2 (Z.ltb_lt a 0x80)) by lia. done.
Qed.
Lemma enc2 a b : 0xC2 <= a <= 0xDF -> 0x80 <= b <= 0xBF ->
  let r := (a - 0xC0) * 64 + (b - 0x80) in
  EncodeRune r = [a; b] /\ ValidRune r = true /\ 0x80 <= r.
Proof.
  intros Ha Hb r. unfold EncodeRune, ValidRune, in_range.
  assert (r / 64 = a - 0xC0 /\ r mod 64 = b - 0x80) as [Hq Hm].
  { unfold r. Z.to_euclidean_division_equations; lia. }
  rewrite Hq, Hm. 
  rewrite (proj2 (Z.leb_le 0 r)), (proj2 (Z.leb_le r 0xD7FF)), (proj2 (Z.ltb_ge r 0x80)),
    (proj2 (Z.ltb_lt r 0x800)) by (unfold r; lia).
  cbn [negb andb orb]. split_and!; [|done|unfold r; lia]. repeat f_equal; lia.
Qed.
Lemma enc3 a b c : 0xE0 <= a <= 0xEF -> (if a =? 0xE0 then 0xA0 else 0x80) <= b ->
  b <= (if a =? 0xED then 0x9F else 0xBF) -> 0x80 <= c <= 0xBF ->
  let r := (a - 0xE0) * 4096 + (b - 0x80) * 64 + (c - 0x80) in
  EncodeRune r = [a; b; c] /\ ValidRune r = true /\ 0x80 <= r.
Proof.
  intros Ha Hb1 Hb2 Hc r. 
  assert (Hr : 0x800 <= r < 0x10000 /\ (r <= 0xD7FF \/ 0xE000 <= r)).
  { unfold r. destruct (a =? 0xE0) eqn:?, (a =? 0xED) eqn:?; zbool; lia. }
  assert (Hb : 0x80 <= b <= 0xBF) by (destruct (a =? 0xE0), (a =? 0xED); lia).
  assert (Hv : ValidRune r = true).
  { unfold ValidRune, in_range. destruct (r <=? 0xD7FF) eqn:?; zbool; lia. }
  unfold EncodeRune. rewrite Hv.
  assert (r / 4096 = a - 0xE0 /\ r / 64 mod 64 = b - 0x80 /\ r mod 64 = c - 0x80) as (Hq & Hq2 & Hm).
  { unfold r. Z.to_euclidean_division_equations; lia. }
  rewrite Hq, Hq2, Hm. 
  rewrite (proj2 (Z.ltb_ge r 0x80)), (proj2 (Z.ltb_ge r 0x800)), (proj2 (Z.ltb_lt r 0x10000)) by lia.
  cbn [negb andb orb]. split_and!; [|done|lia]. repeat f_equal; lia.
Qed.
Lemma enc4 a b c d : 0xF0 <= a <= 0xF4 -> (if a =? 0xF0 then 0x90 else 0x80) <= b ->
  b <= (if a =? 0xF4 then 0x8F else 0xBF) -> 0x80 <= c <= 0xBF -> 0x80 <= d <= 0xBF ->
  let r := (a - 0xF0) * 262144 + (b - 0x80) * 4096 + (c - 0x80) * 64 + (d - 0x80) in
  EncodeRune r = [a; b; c; d] /\ ValidRune r = true /\ 0x80 <= r.
Proof.
  intros Ha Hb1 Hb2 Hc Hd r. 
  assert (Hr : 0x10000 <= r <= 0x10FFFF).
  { unfold r. destruct (a =? 0xF0) eqn:?, (a =? 0xF4) eqn:?; zbool; lia. }
  assert (Hb : 0x80 <= b <= 0xBF) by (destruct (a =? 0xF0), (a =? 0xF4); lia).
  assert (Hv : ValidRune r = true).
  { unfold ValidRune, in_range. rewrite (proj2 (Z.leb_le 0xE000 r)), (proj2 (Z.leb_le r 0x10FFFF)) by lia. apply orb_true_r. }
  unfold EncodeRune. rewrite Hv.
  assert (r / 262144 = a - 0xF0 /\ r / 4096 mod 64 = b - 0x80 /\ r / 64 mod 64 = c - 0x80 /\ r mod 64 = d - 0x80) as (Hq & Hq2 & Hq3 & Hm).
  { unfold r. Z.to_euclidean_division_equations; lia. }
  rewrite Hq, Hq2, Hq3, Hm. 
  rewrite (proj2 (Z.ltb_ge r 0x80)), (proj2 (Z.ltb_ge r 0x800)), (proj2 (Z.ltb_ge r 0x10000)) by lia.
  cbn [negb andb orb]. split_and!; [|done|lia]. repeat f_equal; lia.
Qed.

Ltac high_bytes :=
  repeat match goal with
  | H : context [in_range (if ?c then _ else _) (if ?d then _ else _) ?b] |- _ =>
      assert_fails (assert (0x80 <= b) by assumption);
      assert (0x80 <= b) by (unfold in_range in H; destruct c, d; lia)
  | H : context [in_range 128 191 ?b] |- _ =>
      assert_fails (assert (0x80 <= b) by assumption);
      assert (0x80 <= b) by (unfold in_range in H; lia)
  end.

Lemma DecodeRune_spec s : s <> [] -> wf_bytes s ->
  let '(r, w) := DecodeRune s in
  (r = RuneError /\ w = 1%nat) \/
  (ValidRune r = true /\ EncodeRune r = take w s /\ (0 < w <= length s)%nat /\
   (r < 0x80 -> at_ s 0 = r /\ w = 1%nat) /\ (0x80 <= r -> Forall (Z.le 0x80) (take w s)) /\
   forall k, DecodeRune (take w s ++ k) = (r, w)).
Proof.
  intros Hne Hwf. destruct s as [|b0 t]; [done|].
  assert (0 <= b0) by (inv Hwf as [|? ? Hb]; unfold is_byte in Hb; lia). clear Hwf Hne.
  cbn [DecodeRune]. destruct (b0 <? 0x80) eqn:E0.
  { zbool. destruct (enc1 b0 ltac:(lia)) as [He Hv]. right. split_and!; cbn; try done; try lia.
    intros k. by rewrite (proj2 (Z.ltb_lt b0 128)). }
  unfold is_cont. assert (Hat : at_ (b0 :: t) 0 = b0) by done. rewrite Hat. clear Hat.
  destruct (in_range 0xC2 0xDF b0) eqn:E2.
  { destruct t as [|b1 t]; [by left|]. destruct (in_range _ _ b1) eqn:E3; [|by left]. right.
    destruct (enc2 b0 b1) as (He & Hv & Hr); [unfold in_range in *; lia..|]. assert (0x80 <= b0) by lia.
    high_bytes.
    split_and!; cbn [length take firstn]; try done; try lia;
      [intros _; simpl; repeat constructor; lia|].
    intros k. cbn [app DecodeRune]. unfold is_cont. by rewrite E0, E2, E3. }
  destruct (in_range 0xE0 0xEF b0) eqn:E3.
  { destruct t as [|b1 [|b2 t]]; [by left..|]. 
    destruct (in_range _ _ b1 && _) eqn:E4; [|by left]. right.
    destruct (enc3 b0 b1 b2) as (He & Hv & Hr); [unfold in_range in *; lia..|]. assert (0x80 <= b0) by lia.
    high_bytes.
    split_and!; cbn [length take firstn]; try done; try lia;
      [intros _; simpl; repeat constructor; lia|].
    intros k. cbn [app DecodeRune]. unfold is_cont.
    rewrite E0, E2, E3, E4. done. }
  destruct (in_range 0xF0 0xF4 b0) eqn:E4; [|by left].
  destruct t as [|b1 [|b2 [|b3 t]]]; [by left..|]. 
  destruct (in_range _ _ b1 && _ && _) eqn:E5; [|by left]. right.
  destruct (enc4 b0 b1 b2 b3) as (He & Hv & Hr); [unfold in_range in *; lia..|]. assert (0x80 <= b0) by lia.
    high_bytes.
  split_and!; cbn [length take firstn]; try done; try lia;
      [intros _; simpl; repeat constructor; lia|].
  intros k. cbn [app DecodeRune]. unfold is_cont.
  rewrite E0, E2, E3, E4, E5. done.
Qed.

Lemma take_1_at (s : bytes) : s <> [] -> take 1 s = [at_ s 0].
Proof. by destruct s. Qed.

Lemma hex_no c n r : c < 48 \/ c = backslash -> c ∉ hex n r.
Proof.
  intros Hc. induction n as [|n IH]; cbn [hex]; [apply not_elem_of_nil|].
  apply not_elem_of_cons. split; [|done]. unfold lowerhex, backslash in *.
  pose proof (Z.mod_pos_bound (r / 16 ^ Z.of_nat n) 16 ltac:(lia)).
  destruct (_ <? 10) eqn:?; zbool; lia.
Qed.

(** What a quoted rune or byte [e] is, for the [w] bytes it stands for: it is
    unquoted to them, starts with no closing quote, holds no newline, and holds
    a quote or backslash only as an escape. *)
Definition quotes (e : bytes) (chunk : bytes) : Prop :=
  (forall k, exists r mb, UnquoteChar (e ++ k) dquote = Some (r, mb, k) /\ unquoted r mb = chunk) /\
  (exists c e', e = c :: e' /\ c <> dquote) /\ newline ∉ e /\
  ((e = chunk /\ dquote ∉ e /\ backslash ∉ e) \/ head e = Some backslash).

Lemma hex_escape_quotes (b : Z) : is_byte b -> quotes ([backslash; 120] ++ hex 2 b) [b].
Proof.
  intros Hb. split_and!; [| |apply not_elem_of_app; split; [set_solver|apply hex_no; unfold newline; lia]|by right].
  - intros k. exists b, false. rewrite <- app_assoc. split; [|unfold unquoted; rewrite orb_true_r].
    + transitivity ('(v, t) ← unhexes 2 0 (hex 2 b ++ k); Some (v, false, t)); [done|].
      rewrite unhexes_hex. cbn [mbind option_bind]. repeat f_equal.
      rewrite Z.mod_small by (unfold is_byte in Hb; lia). lia.
    + unfold u8. rewrite Z.mod_small by (unfold is_byte in Hb; lia). done.
  - by exists backslash, (120 :: hex 2 b).
Qed.

Lemma rune_escape_quotes (long : bool) r :
  ValidRune r = true -> 0x80 <= r -> (if long then True else r < 0x10000) ->
  quotes ([backslash; if long then 85 else 117] ++ hex (if long then 8 else 4) r) (EncodeRune r).
Proof.
  intros Hv Hr Hl.
  assert (0 <= r <= 0x10FFFF) by (unfold ValidRune, in_range in Hv; lia).
  split_and!; [| |apply not_elem_of_app; split; [destruct long; set_solver|apply hex_no; unfold newline; lia]|by right].
  - intros k. exists r, true. rewrite <- app_assoc. split.
    + set (n := if long then 8%nat else 4%nat).
      transitivity ('(v, t) ← unhexes n 0 (hex n r ++ k);
                    if ValidRune v then Some (v, true, t) else None); [by destruct long|].
      rewrite unhexes_hex. cbn [mbind option_bind].
      replace (_ + _) with r; [by rewrite Hv|]. subst n. rewrite Z.mod_small; destruct long; lia.
    + unfold unquoted. by rewrite (proj2 (Z.ltb_ge r RuneSelf)) by (unfold RuneSelf; lia).
  - eexists backslash, _. by split.
Qed.

Lemma wf_at s : s <> [] -> wf_bytes s -> is_byte (at_ s 0).
Proof. intros Hs Hwf. destruct s; [done|]. by inv Hwf. Qed.

Lemma escape_quotes r l : escape_letter r = Some l -> 0 <= r < 0x80 /\ quotes [backslash; l] [r].
Proof.
  unfold escape_letter. destruct (list_find _ _) as [[i [r' l']]|] eqn:E; [|done]. cbn. intros [= <-].
  apply list_find_Some in E as (Hi & Hr & _). cbn in Hr. subst r'.
  apply list_elem_of_lookup_2 in Hi. unfold escapes in Hi.
  repeat (apply elem_of_cons in Hi as [[= -> ->]|Hi]; [
    split; [done|];
    split_and!; [intros k; eexists _, _; by split|by eexists _, _|set_solver|by right]|]).
  by apply not_elem_of_nil in Hi.
Qed.

Lemma ascii_quotes r : 0 <= r < 0x80 -> r <> dquote -> r <> backslash -> r <> newline -> quotes [r] [r].
Proof.
  intros Hr Hq Hb Hn. split_and!.
  - intros k. exists r, false. split.
    + cbn [app UnquoteChar]. rewrite (proj2 (Z.eqb_neq _ _) Hq), (proj2 (Z.eqb_neq _ _) Hb).
      by rewrite (proj2 (Z.leb_gt RuneSelf r)) by (unfold RuneSelf; lia).
    + unfold unquoted. rewrite orb_true_r. unfold u8. by rewrite Z.mod_small by lia.
  - by eexists _, _.
  - by intros Hin%list_elem_of_singleton.
  - left. split; [done|]. split; by intros Hin%list_elem_of_singleton.
Qed.

Lemma wide_quotes r chunk : 0x80 <= r -> EncodeRune r = chunk -> chunk <> [] ->
  Forall (Z.le 0x80) chunk -> (forall k, DecodeRune (chunk ++ k) = (r, length chunk)) ->
  quotes chunk chunk.
Proof.
  intros Hr He Hne Hhigh Hdec. rewrite Forall_forall in Hhigh.
  assert (Hno : forall c, c < 0x80 -> c ∉ chunk) by (intros c Hc Hin; apply Hhigh in Hin; lia).
  destruct chunk as [|c t]; [done|]. pose proof (Hhigh c ltac:(left)) as Hc.
  split_and!.
  - intros k. exists r, true. specialize (Hdec k). split.
    + cbn [app UnquoteChar] in *.
      rewrite (proj2 (Z.eqb_neq c dquote)), (proj2 (Z.leb_le RuneSelf c)) by (unfold dquote, RuneSelf; lia).
      cbn [andb]. rewrite Hdec. repeat f_equal. apply (drop_app_length (c :: t) k).
    + unfold unquoted. by rewrite (proj2 (Z.ltb_ge r RuneSelf)) by (unfold RuneSelf; lia).
  - exists c, t. split; [done|]. unfold dquote. lia.
  - by apply Hno.
  - left. split; [done|]. split; by apply Hno.
Qed.

Lemma escapeRune_quotes r chunk : ValidRune r = true -> EncodeRune r = chunk -> chunk <> [] ->
  (0x80 <= r -> Forall (Z.le 0x80) chunk) ->
  (forall k, DecodeRune (chunk ++ k) = (r, length chunk)) ->
  quotes (escapeRune r) chunk.
Proof.
  intros Hv He Hne Hhigh Hdec.
  assert (0 <= r <= 0x10FFFF) by (unfold ValidRune, in_range in Hv; lia).
  assert (Henc : r < 0x80 -> chunk = [r]) by (intros; rewrite <- He; apply enc1; lia).
  unfold escapeRune. destruct ((r =? dquote) || _) eqn:Eq.
  { rewrite Henc by (unfold dquote, backslash in *; lia).
    assert (r = dquote \/ r = backslash) as [-> | ->] by (apply orb_true_iff in Eq as [?|?]; zbool; auto);
      (split_and!; [intros k; eexists _, _; by split|by eexists _, _|set_solver|by right]). }
  apply orb_false_iff in Eq as [Eq1 Eq2]. zbool.
  destruct (IsPrint r) eqn:Ep.
  { rewrite He. destruct (decide (r < 0x80)).
    - rewrite Henc by done. apply ascii_quotes; [lia|done|done|]. intros ->. by cbn in Ep.
    - apply (wide_quotes r); auto with lia. }
  destruct (escape_letter r) as [l|] eqn:El.
  { apply escape_quotes in El as [? ?]. by rewrite Henc by lia. }
  destruct (_ || _) eqn:Ec.
  { assert (r < 0x80) by lia. rewrite Henc by done. apply hex_escape_quotes. unfold is_byte. lia. }
  rewrite Hv. rewrite <- He.
  assert (0x80 <= r) by (unfold IsPrint, in_range in Ep; destruct (r <=? 0xFF) eqn:?; zbool; lia).
  destruct (r <? 0x10000) eqn:El2; zbool.
  - by apply (rune_escape_quotes false).
  - by apply (rune_escape_quotes true).
Qed.

(** Each step of the quoting loop quotes the bytes it takes. *)
Lemma quoteHead_quotes s : s <> [] -> wf_bytes s ->
  let '(e, w) := quoteHead s in (0 < w <= length s)%nat /\ quotes e (take w s).
Proof.
  intros Hs Hwf. unfold quoteHead. pose proof (DecodeRune_spec s Hs Hwf) as H.
  pose proof (wf_at s Hs Hwf) as Hb. assert (0 < length s)%nat by (destruct s; [done|cbn; lia]).
  destruct (DecodeRune s) as [r w]. destruct ((r =? RuneError) && (w =? 1)%nat) eqn:E.
  { split; [lia|]. rewrite take_1_at by done. by apply hex_escape_quotes. }
  destruct H as [[-> ->]|(Hv & He & Hw & Hlow & Hhigh & Hdec)]; [done|]. split; [done|].
  apply escapeRune_quotes; [done|done| |done|].
  - intros Ht. apply (f_equal length) in Ht. rewrite length_take in Ht. cbn in Ht. lia.
  - intros k. rewrite Hdec, length_take. f_equal. lia.
Qed.

Definition quote_body_induction (P : bytes -> bytes -> Prop) : Prop :=
  P [] [] ->
  (forall e chunk s body, quotes e chunk -> P s body -> P (chunk ++ s) (e ++ body)) ->
  forall s, wf_bytes s -> P s (quoteBody (length s) s).

Lemma quoteBody_ind P : quote_body_induction P.
Proof.
  intros Hnil Hcons s Hwf. remember (length s) as n eqn:Hn.
  assert (Hle : (length s <= n)%nat) by lia. clear Hn. revert s Hwf Hle.
  induction n as [|n IH]; intros s Hwf Hle; [by destruct s; [|cbn in Hle; lia]|].
  destruct s as [|c s]; [done|]. set (s' := c :: s) in *.
  cbn [quoteBody]. fold s'. pose proof (quoteHead_quotes s' ltac:(done) Hwf) as Hq.
  destruct (quoteHead s') as [e w]. destruct Hq as [Hw Hq].
  rewrite <- (take_drop w s') at 1. change (P (take w s' ++ drop w s') (e ++ quoteBody n (drop w s'))).
  apply Hcons; [done|]. apply IH; [by apply Forall_drop|]. rewrite length_drop. lia.
Qed.

Lemma unquote_body k buf s : wf_bytes s ->
  forall fuel, (length (quoteBody (length s) s) < fuel)%nat ->
  unquoteLoop fuel dquote (quoteBody (length s) s ++ dquote :: k) buf = Some (buf ++ s, k).
Proof.
  intros Hwf fuel. revert buf fuel.
  apply (quoteBody_ind (fun s body => forall buf fuel, (length body < fuel)%nat ->
    unquoteLoop fuel dquote (body ++ dquote :: k) buf = Some (buf ++ s, k))); [| |done].
  - intros buf fuel Hf. destruct fuel; [cbn in Hf; lia|]. cbn. by rewrite app_nil_r.
  - intros e chunk s' body (Hun & (c & e' & -> & Hc) & Hn & _) IH buf fuel Hf.
    destruct fuel as [|fuel]; [lia|]. rewrite length_app in Hf. cbn [length] in Hf.
    destruct (Hun (body ++ dquote :: k)) as (r & mb & Hr & Hchunk).
    rewrite <- app_assoc. cbn [unquoteLoop app]. cbn [app] in Hr.
    apply not_elem_of_cons in Hn as [Hn _].
    rewrite (proj2 (Z.eqb_neq c dquote)), (proj2 (Z.eqb_neq c newline)) by congruence.
    rewrite Hr. cbn [mbind option_bind]. rewrite Hchunk. cbn [Z.eqb].
    change (dquote =? squote) with false. cbn iota. rewrite IH by lia. by rewrite <- app_assoc.
Qed.

(** A quoted text is cut at its first quote: at its end, or after an escape. *)
Lemma quote_cut s : wf_bytes s ->
  exists b rest, cut dquote (quoteBody (length s) s ++ [dquote]) = (b, Some rest) /\
    (backslash ∈ b \/ b = s /\ rest = []).
Proof.
  apply (quoteBody_ind (fun s body => exists b rest, cut dquote (body ++ [dquote]) = (b, Some rest) /\
    (backslash ∈ b \/ b = s /\ rest = []))).
  - exists [], []. split; [done|by right].
  - intros e chunk s' body (_ & (c & e' & He & Hc) & _ & Hcase) (b & rest & Hcut & Hb).
    destruct Hcase as [(-> & Hq & _)|Hh].
    + exists (chunk ++ b), rest. split.
      * rewrite <- app_assoc. clear He. induction chunk as [|x chunk IH]; [done|].
        apply not_elem_of_cons in Hq as [Hx Hq]. cbn [app cut].
        rewrite (proj2 (Z.eqb_neq x dquote)) by congruence. by rewrite IH.
      * destruct Hb as [Hb|[-> ->]]; [left; apply elem_of_app; by right|by right].
    + subst e. cbn in Hh. injection Hh as ->. cbn [app cut].
      change (backslash =? dquote) with false. cbn iota.
      assert (Hs : exists b rest, cut dquote ((e' ++ body) ++ [dquote]) = (b, Some rest)).
      { clear. induction (e' ++ body) as [|x l IH]; [by eexists _, _|]. cbn.
        destruct (x =? dquote); [by eexists _, _|]. destruct IH as (? & ? & ->). by eexists _, _. }
      destruct Hs as (b' & rest' & ->). eexists _, _. split; [done|]. left. left.
Qed.

Lemma Unquote_Quote s : wf_bytes s -> Unquote (Quote s) = Some s.
Proof.
  intros Hwf. unfold Unquote, Quote. cbn [app].
  destruct (quote_cut s Hwf) as (b & rest & Hcut & Hb). rewrite Hcut.
  change (dquote =? backquote) with false. change (dquote =? dquote) with true. cbn iota. cbn [orb].
  destruct (negb (contains b backslash) && _ && _) eqn:E.
  - apply andb_true_iff in E as [[E _]%andb_true_iff _]. unfold contains in E.
    apply negb_true_iff, bool_decide_eq_false in E. by destruct Hb as [Hb|[-> ->]].
  - rewrite (unquote_body [] []); [done|done|]. cbn [length]. rewrite length_app. cbn. lia.
Qed.

(** A quoted text is one line, ending in its quote. *)
Lemma Quote_line s : wf_bytes s -> newline ∉ Quote s /\ last (Quote s) = Some dquote.
Proof.
  intros Hwf. unfold Quote. split; [|by rewrite app_assoc, last_snoc].
  rewrite !not_elem_of_app. split; [set_solver|]. split; [|set_solver].
  apply (quoteBody_ind (fun _ body => newline ∉ body)); [set_solver| |done].
  intros e chunk s' body (_ & _ & Hn & _) IH. by apply not_elem_of_app.
Qed.
End quote.
