(* ===== verification/Strings.v ===== *)
(** Go's [strings] and [strconv] on words: white space, fields, trimming,
    searching for bytes, and numbers in a base. *)
From S2P Require Import Prelude Text Strconv.

Definition tab : Z := 9.

(** [unicode.IsSpace]. *)
Definition IsSpace (r : Z) : bool :=
  in_range 9 13 r || bool_decide (r ∈ [32; 0x85; 0xA0; 0x1680; 0x2028; 0x2029; 0x202F; 0x205F; 0x3000])
  || in_range 0x2000 0x200A r.

(** ** By runes *)

(** [strings.Fields]: [cur] is the field that is being read. *)
Fixpoint fields_from (fuel : nat) (s cur : bytes) : list bytes :=
  let done := if bool_decide (cur = []) then [] else [cur] in
  match fuel, s with
  | S fuel, _ :: _ =>
      let '(r, w) := DecodeRune s in
      if IsSpace r then done ++ fields_from fuel (drop w s) []
      else fields_from fuel (drop w s) (cur ++ take w s)
  | _, _ => done
  end.

Definition Fields (s : bytes) : list bytes := fields_from (length s) s [].

(** [utf8.DecodeLastRuneInString]. *)
Definition RuneStart (b : Z) : bool := negb (is_cont b).

Definition DecodeLastRune (s : bytes) : Z * nat :=
  let n := length s in
  match last s with
  | None => (RuneError, 0%nat)
  | Some b =>
      if b <? RuneSelf then (b, 1%nat)
      else
        let starts k := (k <=? n)%nat && RuneStart (nth (n - k)%nat s 0) in
        let k := if starts 2%nat then 2%nat else if starts 3%nat then 3%nat else if starts 4%nat then 4%nat
                 else Nat.min 5 n in
        let '(r, w) := DecodeRune (drop (n - k) s) in
        if (w =? k)%nat then (r, w) else (RuneError, 1%nat)
  end.

(** [strings.TrimLeftFunc] and [TrimRightFunc] with [unicode.IsSpace]. *)
Fixpoint trim_left_space (fuel : nat) (s : bytes) : bytes :=
  match fuel, s with
  | S fuel, _ :: _ => let '(r, w) := DecodeRune s in if IsSpace r then trim_left_space fuel (drop w s) else s
  | _, _ => s
  end.

Fixpoint trim_right_space (fuel : nat) (s : bytes) : bytes :=
  match fuel, s with
  | S fuel, _ :: _ =>
      let '(r, w) := DecodeLastRune s in
      if IsSpace r then trim_right_space fuel (take (length s - w) s) else s
  | _, _ => s
  end.

(** [strings.TrimSpace]. *)
Definition TrimSpace (s : bytes) : bytes :=
  let s := trim_left_space (length s) s in trim_right_space (length s) s.

(** ** By bytes *)

Fixpoint take_while (f : Z -> bool) (s : bytes) : bytes :=
  match s with c :: t => if f c then c :: take_while f t else [] | [] => [] end.
Fixpoint drop_while (f : Z -> bool) (s : bytes) : bytes :=
  match s with c :: t => if f c then drop_while f t else s | [] => [] end.

(** [strings.TrimLeft], [TrimRight] and [Trim] with a cutset of ASCII bytes. *)
Definition TrimLeft (s cutset : bytes) : bytes := drop_while (contains cutset) s.
Definition TrimRight (s cutset : bytes) : bytes := reverse (drop_while (contains cutset) (reverse s)).
Definition Trim (s cutset : bytes) : bytes := TrimRight (TrimLeft s cutset) cutset.

(** [strings.HasSuffix] and [CutSuffix]. *)
Definition HasSuffix (s suf : bytes) : bool := bool_decide (drop (length s - length suf) s = suf).
Definition CutSuffix (s suf : bytes) : option bytes :=
  if (length suf <=? length s)%nat && HasSuffix s suf then Some (take (length s - length suf) s) else None.

(** [strings.LastIndexByte]: what is before the last [c] and after it. *)
Fixpoint cut_last (c : Z) (s : bytes) : option (bytes * bytes) :=
  match s with
  | [] => None
  | x :: t =>
      match cut_last c t with
      | Some (a, b) => Some (x :: a, b)
      | None => if x =? c then Some ([], t) else None
      end
  end.

(** [strings.Contains]. *)
Fixpoint Contains (s sub : bytes) : bool :=
  HasPrefix s sub || match s with [] => false | _ :: t => Contains t sub end.

(** [strings.Index]. *)
Fixpoint Index (s sub : bytes) : option nat :=
  if HasPrefix s sub then Some 0%nat else match s with [] => None | _ :: s => S <$> Index s sub end.

(** ** Numbers *)

(** [strconv.ParseInt(s, 10, 64)] is [strconv.Atoi] where an [int] has 64 bits. *)
Definition ParseInt (s : bytes) : outcome num_err Z := Atoi s.

(** [strconv.ParseUint(s, 8, bitSize)]. *)
Fixpoint parse_octal (maxVal n : Z) (s : bytes) : outcome num_err Z :=
  match s with
  | [] => Ok n
  | c :: s =>
      if negb (in_range 48 55 c) then Err ErrSyntax
      else let n := n * 8 + (c - 48) in
           if maxVal <? n then Err ErrRange else parse_octal maxVal n s
  end.

Definition ParseUint8 (bitSize : Z) (s : bytes) : outcome num_err Z :=
  match s with [] => Err ErrSyntax | _ => parse_octal (2 ^ bitSize - 1) 0 s end.

(** The octal digits of a number ([%o]). *)
Fixpoint oct_digits (fuel : nat) (n : Z) (acc : bytes) : bytes :=
  match fuel with
  | O => acc
  | S fuel =>
      let acc := 48 + n mod 8 :: acc in
      if n <? 8 then acc else oct_digits fuel (n / 8) acc
  end.

Definition oct (n : Z) : bytes := oct_digits (S (Z.to_nat (Z.log2 n))) n [].

(** ** Facts *)

(** A byte that is no white space and starts no other rune. *)
Definition graphic (c : Z) : bool := in_range 0x21 0x7E c.
Definition word (s : bytes) : Prop := s <> [] /\ Forall (fun c => graphic c = true) s.

#[export] Instance word_dec s : Decision (word s).
Proof. unfold word. apply _. Defined.

Lemma graphic_range c : graphic c = true -> 0x21 <= c <= 0x7E.
Proof. unfold graphic, in_range. rewrite andb_true_iff, !Z.leb_le. lia. Qed.

Lemma decode_ascii c s : c < RuneSelf -> DecodeRune (c :: s) = (c, 1%nat).
Proof. intros H. unfold DecodeRune, RuneSelf in *. by rewrite (proj2 (Z.ltb_lt c _)) by lia. Qed.

Lemma graphic_no_space c : graphic c = true -> IsSpace c = false.
Proof.
  intros Hc%graphic_range. unfold IsSpace, in_range.
  rewrite bool_decide_false; [|intros Hin; set_unfold in Hin; lia].
  rewrite (proj2 (Z.leb_gt c 13)), (proj2 (Z.leb_gt 0x2000 c)) by lia.
  by rewrite andb_false_r.
Qed.

Lemma fields_word fuel w s cur : Forall (fun c => graphic c = true) w -> (length w <= fuel)%nat ->
  fields_from fuel (w ++ s) cur = fields_from (fuel - length w) s (cur ++ w).
Proof.
  intros Hw. revert fuel cur. induction Hw as [|c w Hc Hw IH]; intros fuel cur Hf.
  { cbn. by rewrite Nat.sub_0_r, app_nil_r. }
  destruct fuel as [|fuel]; [cbn in Hf; lia|]. cbn [app fields_from length Nat.sub].
  pose proof (graphic_range c Hc). rewrite decode_ascii by (unfold RuneSelf; lia).
  rewrite graphic_no_space by done. cbn [drop take]. rewrite IH by (cbn in Hf; lia).
  by rewrite <- app_assoc.
Qed.

(** Words, each after the first behind one space. *)
Definition spaced (ws : list bytes) : bytes := mjoin ((fun w => space :: w) <$> ws).

Lemma fields_spaced ws fuel cur : Forall word ws -> (length (spaced ws) <= fuel)%nat -> cur <> [] ->
  fields_from fuel (spaced ws) cur = cur :: ws.
Proof.
  intros Hws. revert fuel cur. induction Hws as [|w ws [Hw0 Hw] Hws IH]; intros fuel cur Hf Hc.
  { destruct fuel; cbn; by rewrite bool_decide_false. }
  unfold spaced in *. rewrite fmap_cons, mjoin_cons in *. destruct fuel as [|fuel]; [cbn in Hf; lia|].
  cbn [app fields_from]. rewrite decode_ascii by done. change (IsSpace space) with true. cbn [drop].
  rewrite bool_decide_false by done. cbn [app]. f_equal.
  cbn [length app] in Hf. rewrite length_app in Hf.
  rewrite drop_0, fields_word by (done || lia). apply IH; [lia|done].
Qed.

Lemma Fields_spaced w ws : word w -> Forall word ws -> Fields (w ++ spaced ws) = w :: ws.
Proof.
  intros [Hw0 Hw] Hws. unfold Fields. rewrite fields_word by (done || rewrite length_app; lia).
  apply fields_spaced; [done| |by destruct w].
  rewrite length_app. lia.
Qed.

Lemma trim_left_graphic fuel c s : graphic c = true -> trim_left_space fuel (c :: s) = c :: s.
Proof.
  intros Hc. destruct fuel; [done|]. cbn [trim_left_space]. pose proof (graphic_range c Hc).
  rewrite decode_ascii by (unfold RuneSelf; lia). by rewrite graphic_no_space.
Qed.

Lemma trim_right_graphic fuel s c : graphic c = true -> trim_right_space fuel (s ++ [c]) = s ++ [c].
Proof.
  intros Hc. pose proof (graphic_range c Hc). destruct fuel; [by destruct (s ++ [c])|].
  destruct (s ++ [c]) as [|x l] eqn:E; [done|]. cbn [trim_right_space]. rewrite <- E.
  unfold DecodeLastRune. rewrite last_snoc. unfold RuneSelf. rewrite (proj2 (Z.ltb_lt c _)) by lia.
  by rewrite graphic_no_space.
Qed.

(** Text between two characters that are no white space is left alone. *)
Lemma TrimSpace_id a s b : graphic a = true -> graphic b = true -> TrimSpace (a :: s ++ [b]) = a :: s ++ [b].
Proof.
  intros Ha Hb. unfold TrimSpace. rewrite trim_left_graphic by done.
  rewrite app_comm_cons. by apply trim_right_graphic.
Qed.

Lemma take_while_app f a b : Forall (fun c => f c = true) a -> (forall c t, b = c :: t -> f c = false) ->
  take_while f (a ++ b) = a /\ drop_while f (a ++ b) = b.
Proof.
  intros Ha Hb. induction Ha as [|c a Hc Ha [IH1 IH2]]; cbn.
  - destruct b as [|c t]; cbn; [done|]. by rewrite (Hb c t).
  - rewrite Hc. by rewrite IH1, IH2.
Qed.

Lemma CutSuffix_app s suf : CutSuffix (s ++ suf) suf = Some s.
Proof.
  unfold CutSuffix, HasSuffix. rewrite length_app, Nat.add_sub.
  rewrite bool_decide_true by apply drop_app_length. rewrite take_app_length.
  by rewrite (proj2 (Nat.leb_le _ _)) by lia.
Qed.

Lemma CutSuffix_Some s suf a : CutSuffix s suf = Some a <-> s = a ++ suf.
Proof.
  split; [|intros ->; apply CutSuffix_app]. unfold CutSuffix, HasSuffix.
  destruct (_ <=? _)%nat eqn:E; [|done]. case_bool_decide as H; [|done]. intros [= <-].
  rewrite <- (take_drop (length s - length suf) s) at 1. by rewrite H.
Qed.

Lemma cut_last_app c a b : c ∉ b -> cut_last c (a ++ c :: b) = Some (a, b).
Proof.
  intros Hb. induction a as [|x a IH]; cbn; [|by rewrite IH].
  assert (cut_last c b = None) as ->; [|by rewrite Z.eqb_refl].
  clear -Hb. induction b as [|x b IH]; cbn; [done|]. apply not_elem_of_cons in Hb as [Hx Hb].
  rewrite IH by done. by rewrite (proj2 (Z.eqb_neq x c)) by congruence.
Qed.

Lemma cut_last_Some c s a b : cut_last c s = Some (a, b) -> s = a ++ c :: b /\ c ∉ b.
Proof.
  revert a b. induction s as [|x s IH]; intros a b; cbn; [done|].
  destruct (cut_last c s) as [[a' b']|] eqn:E.
  - intros [= <- <-]. destruct (IH _ _ eq_refl) as [-> H]. done.
  - destruct (x =? c) eqn:Ex; [|done]. zbool. intros [= <- <-]. subst. split; [done|].
    clear -E. induction s as [|x s IH]; [apply not_elem_of_nil|]. cbn in E.
    destruct (cut_last c s) as [[]|]; [done|]. destruct (x =? c) eqn:Ex; [done|]. zbool.
    apply not_elem_of_cons. split; [congruence|by apply IH].
Qed.

Lemma oct_digits_acc fuel n acc : oct_digits fuel n acc = oct_digits fuel n [] ++ acc.
Proof.
  revert n acc. induction fuel as [|fuel IH]; intros n acc; [done|].
  cbn [oct_digits]. destruct (n <? 8); [done|].
  rewrite IH, (IH _ [_]), <- app_assoc. done.
Qed.

Lemma oct_digits_octal fuel n : Forall (fun c => in_range 48 55 c = true) (oct_digits fuel n []).
Proof.
  revert n. induction fuel as [|fuel IH]; intros n; cbn [oct_digits]; [constructor|].
  assert (Hd : in_range 48 55 (48 + n mod 8) = true).
  { unfold in_range. rewrite andb_true_iff, !Z.leb_le. pose proof (Z.mod_pos_bound n 8). lia. }
  destruct (n <? 8); [by repeat constructor|]. rewrite oct_digits_acc. apply Forall_app. split; [apply IH|].
  by repeat constructor.
Qed.

Lemma parse_octal_app maxVal n s k v :
  parse_octal maxVal n s = Ok v -> parse_octal maxVal n (s ++ k) = parse_octal maxVal v k.
Proof.
  revert n. induction s as [|c s IH]; intros n; cbn [parse_octal app]; [by intros <-%Ok_inj|].
  destruct (negb _); [done|]. destruct (_ <? _); [done|]. apply IH.
Qed.

Lemma parse_octal_digits maxVal fuel n : 0 <= n <= maxVal -> n < 2 ^ Z.of_nat fuel ->
  parse_octal maxVal 0 (oct_digits fuel n []) = Ok n.
Proof.
  revert n. induction fuel as [|fuel IH]; intros n Hn Hf; [cbn in *; f_equal; lia|].
  cbn [oct_digits]. pose proof (Z.mod_pos_bound n 8 ltac:(lia)). pose proof (Z.div_mod n 8 ltac:(lia)).
  assert (Hr : in_range 48 55 (48 + n mod 8) = true) by (unfold in_range; rewrite andb_true_iff, !Z.leb_le; lia).
  destruct (n <? 8) eqn:E; zbool.
  - cbn [parse_octal]. rewrite Hr. cbn [negb]. rewrite Z.mod_small by lia.
    rewrite (proj2 (Z.ltb_ge maxVal _)) by lia. f_equal. lia.
  - rewrite oct_digits_acc. rewrite Nat2Z.inj_succ, Z.pow_succ_r in Hf by lia.
    rewrite parse_octal_app with (v := n / 8).
    + cbn [parse_octal]. rewrite Hr. cbn [negb]. rewrite (proj2 (Z.ltb_ge maxVal _)) by lia. f_equal. lia.
    + apply IH; [split; [apply Z.div_pos; lia|]; nia|]. apply Z.div_lt_upper_bound; lia.
Qed.

Lemma oct_not_nil n : oct n <> [].
Proof.
  unfold oct. cbn [oct_digits]. destruct (n <? 8); [done|]. rewrite oct_digits_acc.
  by destruct (oct_digits _ _ _).
Qed.

Lemma ParseUint8_oct w n : 0 <= n < 2 ^ w -> ParseUint8 w (oct n) = Ok n.
Proof.
  intros Hn. unfold ParseUint8. destruct (oct n) eqn:E; [by destruct (oct_not_nil n)|]. rewrite <- E.
  apply parse_octal_digits; [lia|].
  destruct (decide (n = 0)) as [->|]; [done|].
  pose proof (Z.log2_spec n ltac:(lia)). rewrite Nat2Z.inj_succ, Z2Nat.id by apply Z.log2_nonneg. lia.
Qed.

Lemma oct_word n : word (oct n).
Proof.
  split; [apply oct_not_nil|]. unfold oct. eapply Forall_impl; [apply oct_digits_octal|].
  intros c. unfold graphic, in_range. rewrite !andb_true_iff, !Z.leb_le. lia.
Qed.

Lemma dec_word n : word (dec n).
Proof.
  split; [apply dec_not_nil|]. eapply Forall_impl; [apply dec_is_digits|].
  intros c. unfold is_digit, graphic, in_range. rewrite !andb_true_iff, !Z.leb_le. lia.
Qed.
