(* ===== verification/Rcmd.v ===== *)
(** The rcmd protocol ([rcmd/rcmd.go]): the head of a request, the callback for the
    error stream, and the one command of a connection. The connection, the dialling
    and the command are whatever they are: functions of a state. *)
From S2P Require Import Prelude Netip Text Strings.

Definition maxRequest : Z := 4096.

(** ** [bufio.Reader] over a connection *)

Record buffered := MkBuf { b_data : bytes; b_err : option Z }.

(** [io.ErrNoProgress]: a hundred reads that gave nothing. *)
Definition errNoProgress : Z := 1001.

Section bufio.
Context {W : Type} (read : W -> (bytes * option Z) * W).

Fixpoint fill (tries : nat) (w : W) : buffered * W :=
  match tries with
  | O => (MkBuf [] (Some errNoProgress), w)
  | S tries =>
      let '((got, err), w) := read w in
      match err with
      | Some e => (MkBuf got (Some e), w)
      | None => if zlen got =? 0 then fill tries w else (MkBuf got None, w)
      end
  end.

(** [ReadByte]: an error is given once, after what came before it. *)
Definition ReadByte (b : buffered) (w : W) : (Z + Z) * buffered * W :=
  match b_data b with
  | c :: rest => (inl c, MkBuf rest (b_err b), w)
  | [] =>
      let '(b, w) := match b_err b with Some _ => (b, w) | None => fill 100 w end in
      match b_data b with
      | c :: rest => (inl c, MkBuf rest (b_err b), w)
      | [] => (inr (default 0 (b_err b)), MkBuf [] None, w)
      end
  end.

Inductive field_err := ReadErr (code : Z) | TooLong.

(** [readField]: [room] more bytes may be read. *)
Fixpoint read_field (room : nat) (got : bytes) (b : buffered) (w : W) : (bytes + field_err) * buffered * W :=
  match room with
  | O => (inr TooLong, b, w)
  | S room =>
      match ReadByte b w with
      | (inr e, b, w) => (inr (ReadErr e), b, w)
      | (inl c, b, w) => if c =? 0 then (inl got, b, w) else read_field room (got ++ [c]) b w
      end
  end.

Definition readField : buffered -> W -> (bytes + field_err) * buffered * W :=
  read_field (Z.to_nat (maxRequest + 1)) [].
End bufio.

(** ** One connection *)

(** [Stderr] is the callback's connection when there is one, with its signals; the
    rest of the input is the buffer and what comes after it. *)
Record Request := MkRequest { RemoteUser : bytes; LocalUser : bytes; Command : bytes; Addr : bytes; Callback : bool }.

Inductive reason := Filter | ReservedPort.

(** The connection's read (with its deadline, when there is one), write and close; the
    callback's dial, write and close; the hook of a refusal; and the command, which
    may fail with a message. *)
Record Conn (W : Type) := MkConn {
  k_read : W -> (bytes * option Z) * W;
  k_write : bytes -> W -> option Z * W;
  k_close : W -> W;
  k_dial : bytes -> Z -> W -> option Z * W;
  k_ewrite : bytes -> W -> W;
  k_eclose : W -> W;
  k_reject : bytes -> reason -> W -> W;
  k_handler : option (Request -> buffered -> W -> option bytes * W);
}.
Arguments k_read {W}. Arguments k_write {W}. Arguments k_close {W}. Arguments k_dial {W}. Arguments k_ewrite {W}.
Arguments k_eclose {W}. Arguments k_reject {W}. Arguments k_handler {W}.

Record Server := MkServer { AllowIP : option (bytes -> bool); AllowHighPorts : bool }.

Section handle.
Context {W : Type} (s : Server) (c : Conn W).

(** [refuse]. *)
Definition refuse (msg : bytes) (w : W) : W := (k_write c ([1] ++ msg ++ [newline]) w).2.

(** The users and the command: all three are read, whatever became of the first. *)
Definition read_names (b : buffered) (w : W) : (option (bytes * bytes * bytes)) * buffered * W :=
  let '(r1, b, w) := readField (k_read c) b w in
  let '(r2, b, w) := readField (k_read c) b w in
  let '(r3, b, w) := readField (k_read c) b w in
  (match r1, r2, r3 with inl a, inl l, inl m => Some (a, l, m) | _, _, _ => None end, b, w).

(** From the callback on. *)
Definition serve_request (ip : bytes) (dialed : bool) (b : buffered) (w : W) : W :=
  let '(names, b, w) := read_names b w in
  match names with
  | None => refuse (str "malformed request") w
  | Some (remuser, locuser, command) =>
      let req := MkRequest remuser locuser command ip dialed in
      match k_handler c with
      | None => refuse (str "no handler") w
      | Some handler =>
          let stop w := if dialed then k_eclose c w else w in
          let '(err, w) := k_write c [0] w in
          match err with
          | Some _ => stop w
          | None =>
              let '(err, w) := handler req b w in
              stop (match err with
                    | Some msg => if dialed then k_ewrite c (msg ++ [newline]) w else (k_write c (msg ++ [newline]) w).2
                    | None => w
                    end)
          end
      end
  end.

(** [Server.handle], for a client at a TCP address. *)
Definition handle_ (tcp_ip : bytes) (port : Z) (w : W) : W :=
  let ip := Unmap (AddrFromSlice tcp_ip) in
  if negb (match AllowIP s with Some f => f ip | None => true end) then refuse (str "permission denied") (k_reject c ip Filter w)
  else if negb (AllowHighPorts s) && ((1024 <=? port) || (port <? 512)) then
    refuse (str "permission denied") (k_reject c ip ReservedPort w)
  else
    let '(r, b, w) := readField (k_read c) (MkBuf [] None) w in
    match r with
    | inr _ => refuse (str "malformed request") w
    | inl portField =>
        match Atoi portField with
        | Ok errPort =>
            if (errPort <? 0) || (65535 <? errPort) then refuse (str "bad stderr port") w
            else if errPort =? 0 then serve_request ip false b w
            else
              let '(err, w) := k_dial c tcp_ip errPort w in
              match err with
              | Some _ => refuse (str "cannot connect stderr") w
              | None => k_eclose c (serve_request ip true b w)
              end
        | _ => refuse (str "bad stderr port") w
        end
    end.

Definition handle (tcp : option (bytes * Z)) (w : W) : W :=
  k_close c (match tcp with None => w | Some (ip, port) => handle_ ip port w end).
End handle.

(** ** The callback's own port *)

(** [isAddrInUse] and [isPermission] of [errno_unix.go], by Linux's numbers. *)
Definition EADDRINUSE : Z := 98.
Definition isAddrInUse (e : Z) : bool := e =? EADDRINUSE.
Definition isPermission (e : Z) : bool := (e =? 13) || (e =? 1).

(** The loop of [dialStderr] over the [n] ports from [511 + n] down to 512; [dial] is a
    connection to the client from a port, or from any. *)
Fixpoint dial_from {W} (dial : option Z -> W -> option Z * W) (n : nat) (w : W) : option Z * W :=
  match n with
  | O => dial None w
  | S m =>
      match dial (Some (512 + Z.of_nat m)) w with
      | (None, w) => (None, w)
      | (Some e, w) => if isPermission e then dial None w else if isAddrInUse e then dial_from dial m w else (Some e, w)
      end
  end.

(** [dialStderr]. *)
Definition dialStderr {W} (dial : bytes -> Z -> option Z -> W -> option Z * W) (ip : bytes) (port : Z) : W -> option Z * W :=
  dial_from (dial ip port) 512.

(** A dialler whose answer is that of the port, with the ports it tried. *)
Definition tries (answer : option Z -> option Z) (local : option Z) (w : list (option Z)) : option Z * list (option Z) := (answer local, w ++ [local]).

(** The [k] ports below 1024 and above 1023 - [k]. *)
Definition reserved (k : nat) : list (option Z) := (fun j => Some (1023 - Z.of_nat j)) <$> seq 0 k.

(** What comes of the first port that is not in use, the [k]th from 1023 down. *)
Definition settled_at (answer : option Z -> option Z) (k : nat) : option Z * list (option Z) :=
  if (k =? 512)%nat then (answer None, reserved 512 ++ [None])
  else match answer (Some (1023 - Z.of_nat k)) with
       | Some e => if isPermission e then (answer None, reserved (S k) ++ [None]) else (Some e, reserved (S k))
       | None => (None, reserved (S k))
       end.

Lemma dial_from_settles answer n k : (n + k = 512)%nat ->
  (forall j, (j < k)%nat -> answer (Some (1023 - Z.of_nat j)) = Some EADDRINUSE) ->
  exists k', (k <= k' <= 512)%nat /\ (forall j, (j < k')%nat -> answer (Some (1023 - Z.of_nat j)) = Some EADDRINUSE) /\
    ((k' < 512)%nat -> answer (Some (1023 - Z.of_nat k')) <> Some EADDRINUSE) /\
    dial_from (tries answer) n (reserved k) = settled_at answer k'.
Proof.
  revert k. induction n as [|n IH]; intros k Hk Hused.
  - exists k. split; [lia|]. split; [done|]. split; [lia|]. unfold settled_at. by replace k with 512%nat by lia.
  - cbn [dial_from]. unfold tries at 1. replace (512 + Z.of_nat n) with (1023 - Z.of_nat k) by lia.
    assert (Er : reserved k ++ [Some (1023 - Z.of_nat k)] = reserved (S k)) by (unfold reserved; by rewrite seq_S, fmap_app).
    rewrite Er. destruct (decide (answer (Some (1023 - Z.of_nat k)) = Some EADDRINUSE)) as [E|E].
    + rewrite E. cbn. destruct (IH (S k)) as (k' & Hk' & H); [lia| |exists k'; split; [lia|exact H]].
      intros j Hj. destruct (decide (j = k)) as [->|]; [done|]. apply Hused. lia.
    + exists k. split; [lia|]. split; [done|]. split; [done|]. unfold settled_at. rewrite (proj2 (Nat.eqb_neq k 512)) by lia.
      destruct (answer (Some (1023 - Z.of_nat k))) as [e|]; [|done]. destruct (isPermission e); [done|].
      unfold isAddrInUse. rewrite (proj2 (Z.eqb_neq e EADDRINUSE)) by congruence. done.
Qed.

(** The callback comes from the highest reserved port that is not in use, whatever that
    port answers, unless reserved ports are not permitted or none is free: then from any
    port. No port outside 512 to 1023 is asked for, and none twice. *)
Lemma dialStderr_reserved answer ip port : exists k, (k <= 512)%nat /\
  (forall j, (j < k)%nat -> answer (Some (1023 - Z.of_nat j)) = Some EADDRINUSE) /\
  ((k < 512)%nat -> answer (Some (1023 - Z.of_nat k)) <> Some EADDRINUSE) /\
  dialStderr (fun _ _ => tries answer) ip port [] = settled_at answer k.
Proof. destruct (dial_from_settles answer 512 0) as (k & Hk & H); [done|intros j Hj; lia|]. exists k. split; [lia|exact H]. Qed.

(** ** What a command is for the services ([internal/serve/serve.go]) *)

Definition shells : list bytes := [str "sh"; str "/bin/sh"; str "/sbin/sh"; str "/usr/bin/sh"].

(** The last word names a shell. *)
Definition isShell (command : bytes) : bool :=
  match last (Fields command) with None => false | Some w => bool_decide (w ∈ shells) end.

(** The handler of the services: a shell session, or nothing. *)
Definition ServeShell {W} (session : Request -> buffered -> W -> option bytes * W) (req : Request) (b : buffered) (w : W) :
  option bytes * W :=
  if isShell (Command req) then session req b w else (Some (str "only a shell session is served"), w).

(** ** What a connection does *)

Inductive event :=
| EvRead
| EvWrite (b : bytes)
| EvClose
| EvDial (ip : bytes) (port : Z) (err : option Z)
| EvErrWrite (b : bytes)
| EvErrClose
| EvReject (ip : bytes) (r : reason)
| EvRun (req : Request).

(** The connection, its calls noted in order. *)
Section logged.
Context {W : Type} (c : Conn W).

Definition noting {A} (e : A -> event) (f : W -> A * W) (s : W * list event) : A * (W * list event) :=
  let '(a, w) := f s.1 in (a, (w, s.2 ++ [e a])).

Definition noted (e : event) (f : W -> W) (s : W * list event) : W * list event := (f s.1, s.2 ++ [e]).

Definition logged : Conn (W * list event) :=
  MkConn _
    (noting (fun _ => EvRead) (k_read c))
    (fun b => noting (fun _ => EvWrite b) (k_write c b))
    (noted EvClose (k_close c))
    (fun ip port => noting (EvDial ip port) (k_dial c ip port))
    (fun b => noted (EvErrWrite b) (k_ewrite c b))
    (noted EvErrClose (k_eclose c))
    (fun ip r => noted (EvReject ip r) (k_reject c ip r))
    (match k_handler c with
     | None => None
     | Some h => Some (fun req b => noting (fun _ => EvRun req) (h req b))
     end).
End logged.

(** ** What is never out of place *)

Definition is_run (e : event) : bool := match e with EvRun _ => true | _ => false end.

Definition is_read (e : event) : bool := match e with EvRead => true | _ => false end.

Definition runs (es : list event) : list event := filter is_run es.

(** Between two states the calls noted are [es]. *)
Definition does {W} (s s' : W * list event) (es : list event) : Prop := s'.2 = s.2 ++ es.

Lemma does_trans {W} (s1 s2 s3 : W * list event) es es' : does s1 s2 es -> does s2 s3 es' -> does s1 s3 (es ++ es').
Proof. unfold does. intros -> ->. by rewrite app_assoc. Qed.

Lemma does_nil {W} (s : W * list event) : does s s [].
Proof. unfold does. by rewrite app_nil_r. Qed.

Lemma does_noting {W A} (e : A -> event) (f : W -> A * W) s : does s (noting e f s).2 [e (noting e f s).1].
Proof. unfold does, noting. by destruct (f s.1) as [a w]. Qed.

Lemma does_noted {W} e (f : W -> W) s : does s (noted e f s) [e].
Proof. done. Qed.

(** A piece of the conversation in which only the connection is read. *)
Definition only_reads {W} (s s' : W * list event) : Prop := exists n, does s s' (replicate n EvRead).

Lemma only_reads_refl {W} (s : W * list event) : only_reads s s.
Proof. exists 0%nat. apply does_nil. Qed.

Lemma only_reads_trans {W} (s1 s2 s3 : W * list event) : only_reads s1 s2 -> only_reads s2 s3 -> only_reads s1 s3.
Proof. intros [n Hn] [m Hm]. exists (n + m)%nat. rewrite replicate_add. by eapply does_trans. Qed.

Section reads.
Context {W : Type} (c : Conn W).

Lemma logged_read s : only_reads s (k_read (logged c) s).2.
Proof. exists 1%nat. apply (does_noting (fun _ => EvRead)). Qed.

Lemma fill_reads tries s : only_reads s (fill (k_read (logged c)) tries s).2.
Proof.
  revert s. induction tries as [|tries IH]; intros s; cbn [fill]; [apply only_reads_refl|].
  pose proof (logged_read s) as H. destruct (k_read (logged c) s) as [[got err] s1]. cbn [snd] in H.
  destruct err; [done|]. destruct (zlen got =? 0); [|done]. eapply only_reads_trans; [done|apply IH].
Qed.

Lemma ReadByte_reads b s : only_reads s (ReadByte (k_read (logged c)) b s).2.
Proof.
  unfold ReadByte. destruct (b_data b); [|apply only_reads_refl].
  destruct (b_err b).
  - destruct (b_data b); apply only_reads_refl.
  - pose proof (fill_reads 100 s) as H. destruct (fill _ 100 s) as [b1 s1]. by destruct (b_data b1).
Qed.

Lemma read_field_reads room got b s : only_reads s (read_field (k_read (logged c)) room got b s).2.
Proof.
  revert got b s. induction room as [|room IH]; intros got b s; cbn [read_field]; [apply only_reads_refl|].
  pose proof (ReadByte_reads b s) as H. destruct (ReadByte _ b s) as [[[ch|e] b1] s1]; cbn [snd] in H; [|done].
  destruct (ch =? 0); [done|]. eapply only_reads_trans; [done|apply IH].
Qed.

Lemma readField_reads b s : only_reads s (readField (k_read (logged c)) b s).2.
Proof. apply read_field_reads. Qed.

Lemma read_names_reads b s : only_reads s (read_names (logged c) b s).2.
Proof.
  unfold read_names.
  pose proof (readField_reads b s) as H1. destruct (readField _ b s) as [[r1 b1] s1].
  pose proof (readField_reads b1 s1) as H2. destruct (readField _ b1 s1) as [[r2 b2] s2].
  pose proof (readField_reads b2 s2) as H3. destruct (readField _ b2 s2) as [[r3 b3] s3].
  cbn in *. eauto using only_reads_trans.
Qed.
End reads.

(** ** The conversations a server may have *)

(** Why a client is turned away before a byte of its is read. *)
Definition turned_away (s : Server) (ip : bytes) (port : Z) : option reason :=
  if negb (match AllowIP s with Some f => f ip | None => true end) then Some Filter
  else if negb (AllowHighPorts s) && negb ((512 <=? port) && (port <? 1024)) then Some ReservedPort
  else None.

Definition refusal (msg : bytes) : event := EvWrite ([1] ++ msg ++ [newline]).

Definition reads (n : nat) : list event := replicate n EvRead.

(** The callback: to the client's own address, at a port. *)
Inductive called_back (tcp : bytes) : bool -> list event -> Prop :=
| CallbackNone : called_back tcp false []
| CallbackMade p : 1 <= p <= 65535 -> called_back tcp true [EvDial tcp p None].

(** How the command's failure is told: where its error stream goes. *)
Definition told (callback : bool) (err : option bytes) : list event :=
  match err with
  | None => []
  | Some msg => [if callback then EvErrWrite (msg ++ [newline]) else EvWrite (msg ++ [newline])]
  end.

Definition closes (callback : bool) (n : nat) : list event := (if callback then replicate n EvErrClose else []) ++ [EvClose].

Inductive conversation (s : Server) (runs_commands : bool) (tcp : bytes) (port : Z) : list event -> Prop :=
| Denied r :
    turned_away s (Unmap (AddrFromSlice tcp)) port = Some r ->
    conversation s runs_commands tcp port
      [EvReject (Unmap (AddrFromSlice tcp)) r; refusal (str "permission denied"); EvClose]
| NoPort n msg :
    turned_away s (Unmap (AddrFromSlice tcp)) port = None ->
    msg = str "malformed request" \/ msg = str "bad stderr port" ->
    conversation s runs_commands tcp port (reads n ++ [refusal msg; EvClose])
| NoCallback n p e :
    turned_away s (Unmap (AddrFromSlice tcp)) port = None -> 1 <= p <= 65535 ->
    conversation s runs_commands tcp port
      (reads n ++ [EvDial tcp p (Some e); refusal (str "cannot connect stderr"); EvClose])
| NoRequest n callback dial m msg :
    turned_away s (Unmap (AddrFromSlice tcp)) port = None -> called_back tcp callback dial ->
    msg = str "malformed request" \/ runs_commands = false /\ msg = str "no handler" ->
    conversation s runs_commands tcp port (reads n ++ dial ++ reads m ++ [refusal msg] ++ closes callback 1)
| Gone n callback dial m :
    turned_away s (Unmap (AddrFromSlice tcp)) port = None -> called_back tcp callback dial -> runs_commands = true ->
    conversation s runs_commands tcp port (reads n ++ dial ++ reads m ++ [EvWrite [0]] ++ closes callback 2)
| Served n callback dial m req err :
    turned_away s (Unmap (AddrFromSlice tcp)) port = None -> called_back tcp callback dial -> runs_commands = true ->
    Addr req = Unmap (AddrFromSlice tcp) -> Callback req = callback ->
    conversation s runs_commands tcp port
      (reads n ++ dial ++ reads m ++ [EvWrite [0]; EvRun req] ++ told callback err ++ closes callback 2).

(** A write that failed, or did not, left the same note. *)
Lemma does_write {W} (c : Conn W) b s : does s (k_write (logged c) b s).2 [EvWrite b].
Proof. apply (does_noting (fun _ => EvWrite b)). Qed.

Lemma does_refuse {W} (c : Conn W) msg s : does s (refuse (logged c) msg s) [refusal msg].
Proof. apply does_write. Qed.

(** What the second half of a conversation may be. *)
Inductive second_half (runs_commands : bool) (ip : bytes) (callback : bool) : list event -> Prop :=
| Half_no m msg :
    msg = str "malformed request" \/ runs_commands = false /\ msg = str "no handler" ->
    second_half runs_commands ip callback (reads m ++ [refusal msg])
| Half_gone m :
    runs_commands = true ->
    second_half runs_commands ip callback (reads m ++ [EvWrite [0]] ++ (if callback then [EvErrClose] else []))
| Half_served m req err :
    runs_commands = true -> Addr req = ip -> Callback req = callback ->
    second_half runs_commands ip callback
      (reads m ++ [EvWrite [0]; EvRun req] ++ told callback err ++ (if callback then [EvErrClose] else [])).

Definition has_handler {W} (c : Conn W) : bool := match k_handler c with Some _ => true | None => false end.

Lemma does_app_inv {W} (s1 s2 s3 : W * list event) es es' es'' :
  es'' = es ++ es' -> does s1 s2 es -> does s2 s3 es' -> does s1 s3 es''.
Proof. intros ->. apply does_trans. Qed.

Lemma does_stop {W} (c : Conn W) (callback : bool) s :
  does s (if callback then k_eclose (logged c) s else s) (if callback then [EvErrClose] else []).
Proof. destruct callback; [apply does_noted|apply does_nil]. Qed.

(** The command's run and the telling of its failure. *)
Lemma run_half {W} (c : Conn W) (h : Request -> buffered -> W -> option bytes * W) req b s callback :
  exists err, does s
    (let '(err, s) := noting (fun _ => EvRun req) (h req b) s in
     let s := match err with
              | Some msg =>
                  if callback : bool then k_ewrite (logged c) (msg ++ [newline]) s
                  else (k_write (logged c) (msg ++ [newline]) s).2
              | None => s
              end in
     if callback then k_eclose (logged c) s else s)
    ([EvRun req] ++ told callback err ++ (if callback then [EvErrClose] else [])).
Proof.
  pose proof (does_noting (fun _ => EvRun req) (h req b) s) as Hrun. cbn in Hrun.
  destruct (noting (fun _ => EvRun req) (h req b) s) as [err s1]. cbn [fst snd] in Hrun.
  exists err. eapply does_trans; [exact Hrun|]. eapply does_trans; [|apply does_stop].
  destruct err as [msg|]; [|apply does_nil]. destruct callback; [apply does_noted|apply does_write].
Qed.

Lemma serve_request_half {W} (c : Conn W) ip callback b s :
  exists es, second_half (has_handler c) ip callback es /\ does s (serve_request (logged c) ip callback b s) es.
Proof.
  unfold serve_request. destruct (read_names_reads c b s) as [m Hm].
  destruct (read_names (logged c) b s) as [[names b1] s1]. cbn [snd] in Hm.
  destruct names as [[[ru lu] cmd]|].
  2:{ eexists. split; [apply (Half_no _ _ _ m); by left|]. eapply does_trans; [exact Hm|apply does_refuse]. }
  unfold has_handler. cbn [k_handler logged]. destruct (k_handler c) as [h|].
  2:{ eexists. split; [apply (Half_no _ _ _ m); by right|]. eapply does_trans; [exact Hm|apply does_refuse]. }
  pose proof (does_write c [0] s1) as Hw. destruct (k_write (logged c) [0] s1) as [err s2]. cbn [snd] in Hw.
  destruct err.
  { eexists. split; [by apply (Half_gone _ _ _ m)|].
    eapply does_trans; [exact Hm|]. eapply does_trans; [exact Hw|apply does_stop]. }
  destruct (run_half c h (MkRequest ru lu cmd ip callback) b1 s2 callback) as [err Hrun].
  eexists. split; [by apply (Half_served _ ip callback m (MkRequest ru lu cmd ip callback) err)|].
  eapply does_trans; [exact Hm|]. eapply (does_app_inv _ _ _ [_]); [|exact Hw|exact Hrun]. done.
Qed.

(** A half makes a conversation. *)
Lemma halves s (h : bool) tcp port n callback dial es :
  turned_away s (Unmap (AddrFromSlice tcp)) port = None -> called_back tcp callback dial ->
  second_half h (Unmap (AddrFromSlice tcp)) callback es ->
  conversation s h tcp port (reads n ++ dial ++ es ++ closes callback 1).
Proof.
  intros Hp Hc Hes. destruct Hes as [m msg Hm|m Hh|m req err Hh Ha Hr].
  - rewrite <- app_assoc. by apply NoRequest.
  - pose proof (Gone s h tcp port n callback dial m Hp Hc Hh) as H. clear Hc. destruct callback; by rewrite <- !app_assoc.
  - pose proof (Served s h tcp port n callback dial m req err Hp Hc Hh Ha Hr) as H. clear Hr Hc.
    destruct callback; rewrite <- !app_assoc in *; cbn [app closes replicate] in *; by rewrite <- ?app_assoc.
Qed.

(** A client whose address is not allowed. *)
Lemma handle_denied {W} (s : Server) (c : Conn W) f tcp port w : AllowIP s = Some f -> f (Unmap (AddrFromSlice tcp)) = false ->
  (handle s (logged c) (Some (tcp, port)) (w, [])).2 = [EvReject (Unmap (AddrFromSlice tcp)) Filter; refusal (str "permission denied"); EvClose].
Proof.
  intros Hs Hf. unfold handle, handle_. rewrite Hs, Hf. cbn [negb]. set (ip := Unmap (AddrFromSlice tcp)).
  assert (H : does (w, []) (refuse (logged c) (str "permission denied") (k_reject (logged c) ip Filter (w, []))) [EvReject ip Filter; refusal (str "permission denied")]).
  { eapply (does_trans _ _ _ [_] [_]); [apply does_noted|apply does_refuse]. }
  cbn in H |- *. by rewrite H.
Qed.

(** Every connection a server handles is one of the conversations, and only those. *)
Theorem handle_conversation {W} (s : Server) (c : Conn W) tcp port w :
  conversation s (has_handler c) tcp port (handle s (logged c) (Some (tcp, port)) (w, [])).2.
Proof.
  unfold handle, handle_.
  assert (Hclose : forall st es, does (w, []) st es -> (k_close (logged c) st).2 = es ++ [EvClose]).
  { intros st es H. cbn. by rewrite H. }
  set (ip := Unmap (AddrFromSlice tcp)).
  destruct (negb (match AllowIP s with Some f => f ip | None => true end)) eqn:Ha.
  { rewrite (Hclose _ [EvReject ip Filter; refusal (str "permission denied")]).
    - apply Denied. unfold turned_away. fold ip. by rewrite Ha.
    - eapply (does_trans _ _ _ [_] [_]); [apply does_noted|apply does_refuse]. }
  assert (Hports : negb ((512 <=? port) && (port <? 1024)) = (1024 <=? port) || (port <? 512)) by lia.
  destruct (negb (AllowHighPorts s) && ((1024 <=? port) || (port <? 512))) eqn:Hp.
  { rewrite (Hclose _ [EvReject ip ReservedPort; refusal (str "permission denied")]).
    - apply Denied. unfold turned_away. fold ip. by rewrite Ha, Hports, Hp.
    - eapply (does_trans _ _ _ [_] [_]); [apply does_noted|apply does_refuse]. }
  assert (Hok : turned_away s ip port = None) by (unfold turned_away; by rewrite Ha, Hports, Hp). clear Ha Hp Hports.
  destruct (readField_reads c (MkBuf [] None) (w, [])) as [n Hn].
  destruct (readField (k_read (logged c)) (MkBuf [] None) (w, [])) as [[r b] s1]. cbn [snd] in Hn.
  destruct r as [field|e].
  2:{ erewrite Hclose; [|eapply does_trans; [exact Hn|apply does_refuse]]. rewrite <- app_assoc. apply NoPort; [done|by left]. }
  assert (Hbad : conversation s (has_handler c) tcp port (k_close (logged c) (refuse (logged c) (str "bad stderr port") s1)).2).
  { erewrite Hclose; [|eapply does_trans; [exact Hn|apply does_refuse]]. rewrite <- app_assoc. apply NoPort; [done|by right]. }
  destruct (Atoi field) as [p|e| ]; [|done|done].
  destruct ((p <? 0) || (65535 <? p)) eqn:Hr; [done|]. destruct (p =? 0) eqn:Hz.
  { destruct (serve_request_half c ip false b s1) as (es & Hes & Hd).
    erewrite Hclose; [|eapply does_trans; [exact Hn|exact Hd]]. rewrite <- app_assoc.
    apply (halves _ _ _ _ n false [] es Hok (CallbackNone _) Hes). }
  pose proof (does_noting (EvDial tcp p) (k_dial c tcp p) s1) as Hd.
  change (noting (EvDial tcp p) (k_dial c tcp p) s1) with (k_dial (logged c) tcp p s1) in Hd.
  destruct (k_dial (logged c) tcp p s1) as [err s2]. cbn [fst snd] in Hd. destruct err as [e|].
  { erewrite Hclose; [|eapply does_trans; [exact Hn|eapply does_trans; [exact Hd|apply does_refuse]]].
    rewrite <- !app_assoc. apply NoCallback; [done|lia]. }
  destruct (serve_request_half c ip true b s2) as (es & Hes & Hd').
  erewrite Hclose; [|eapply does_trans; [exact Hn|eapply does_trans; [exact Hd|eapply does_trans; [exact Hd'|apply does_noted]]]].
  rewrite <- !app_assoc. apply (halves _ _ _ _ n true [EvDial tcp p None] es Hok); [constructor; lia|done].
Qed.

(** ** A client that waits to be called back *)

(** What it has sent and not been read, what it keeps until it is called back, what it
    has been told on each connection, and the commands that ran with the input each
    was left. A read with nothing sent is one that never returns: it is an error
    here (the deadline), so that a server that waits for it fails. *)
Record client := MkClient {
  sent : list bytes; kept : list bytes; told_out : bytes; told_err : bytes; ran : list (Request * bytes);
}.

Definition timed_out : Z := 1002.

Definition client_read (w : client) : (bytes * option Z) * client :=
  match sent w with
  | [] => (([], Some timed_out), w)
  | b :: rest => ((b, None), MkClient rest (kept w) (told_out w) (told_err w) (ran w))
  end.

(** The connection of such a client, to a server whose command is [h]. *)
Definition client_conn (h : Request -> bytes -> option bytes) : Conn client :=
  MkConn _ client_read
    (fun b w => (None, MkClient (sent w) (kept w) (told_out w ++ b) (told_err w) (ran w)))
    id
    (fun _ _ w => (None, MkClient (sent w ++ kept w) [] (told_out w) (told_err w) (ran w)))
    (fun b w => MkClient (sent w) (kept w) (told_out w) (told_err w ++ b) (ran w))
    id
    (fun _ _ => id)
    (Some (fun req b w =>
             let input := b_data b ++ concat (sent w) in
             (h req input, MkClient (sent w) (kept w) (told_out w) (told_err w) (ran w ++ [(req, input)])))).

(** What the server has yet to read. *)
Definition ahead (b : buffered) (w : client) : bytes := b_data b ++ concat (sent w).

(** Nothing but the reading has changed. *)
Definition same_talk (w w' : client) : Prop :=
  kept w' = kept w /\ told_out w' = told_out w /\ told_err w' = told_err w /\ ran w' = ran w.

#[export] Instance same_talk_preorder : PreOrder same_talk.
Proof. split; unfold same_talk; [by intros w|intros w1 w2 w3; intuition congruence]. Qed.

Definition chunks_ok (w : client) : Prop := Forall (fun b => b <> []) (sent w).

Lemma client_ReadByte b w ch rest :
  b_err b = None -> chunks_ok w -> ahead b w = ch :: rest ->
  exists b' w', ReadByte client_read b w = (inl ch, b', w') /\ b_err b' = None /\ chunks_ok w' /\ ahead b' w' = rest /\
                same_talk w w'.
Proof.
  intros He Hok Ha. unfold ReadByte, ahead in *. destruct (b_data b) as [|c d].
  2:{ simplify_eq/=. eexists _, _. repeat split; eauto. }
  rewrite He. cbn [fill]. unfold client_read, chunks_ok in *. cbn [app] in Ha. destruct (sent w) as [|s ss]; [done|].
  inversion Hok as [|? ? Hs Hss]; subst. destruct s as [|c d]; [done|]. cbn in Ha. simplify_eq.
  rewrite (proj2 (Z.eqb_neq (zlen (ch :: d)) 0)) by (rewrite zlen_cons; pose proof (zlen_nonneg d); lia).
  eexists _, _. repeat split; eauto.
Qed.

(** A field of a request: no zero byte in it, and no longer than is allowed. *)
Definition field_ok (f : bytes) : Prop := Forall (fun ch => ch <> 0) f /\ zlen f <= maxRequest.

Lemma client_read_field room got f rest b w :
  b_err b = None -> chunks_ok w -> ahead b w = f ++ 0 :: rest -> Forall (fun ch => ch <> 0) f -> (length f < room)%nat ->
  exists b' w', read_field client_read room got b w = (inl (got ++ f), b', w') /\ b_err b' = None /\ chunks_ok w' /\
                ahead b' w' = rest /\ same_talk w w'.
Proof.
  revert room got b w. induction f as [|ch f IH]; intros room got b w He Hok Ha Hf Hr; (destruct room as [|room]; [cbn in Hr; lia|]);
    cbn [read_field].
  - destruct (client_ReadByte b w 0 rest He Hok Ha) as (b' & w' & -> & H). rewrite Z.eqb_refl, app_nil_r.
    exists b', w'. split; [done|exact H].
  - inversion Hf as [|? ? Hc Hf']; subst.
    destruct (client_ReadByte b w ch (f ++ 0 :: rest) He Hok Ha) as (b1 & w1 & -> & He1 & Hok1 & Ha1 & Ht1).
    rewrite (proj2 (Z.eqb_neq ch 0) Hc).
    destruct (IH room (got ++ [ch]) b1 w1 He1 Hok1 Ha1 Hf' ltac:(cbn in Hr; lia)) as (b2 & w2 & -> & He2 & Hok2 & Ha2 & Ht2).
    rewrite <- app_assoc. exists b2, w2. do 4 (split; [done|]). by etrans.
Qed.

Lemma client_readField f rest b w :
  b_err b = None -> chunks_ok w -> ahead b w = f ++ 0 :: rest -> field_ok f ->
  exists b' w', readField client_read b w = (inl f, b', w') /\ b_err b' = None /\ chunks_ok w' /\ ahead b' w' = rest /\
                same_talk w w'.
Proof.
  intros He Hok Ha [Hf Hl]. unfold readField. apply (client_read_field _ [] f rest b w); [done..|]. unfold zlen, maxRequest in *. lia.
Qed.

Section talk.
Context (h : Request -> bytes -> option bytes).

Lemma client_read_names ru lu cmd stdin b w :
  b_err b = None -> chunks_ok w -> ahead b w = ru ++ 0 :: lu ++ 0 :: cmd ++ 0 :: stdin ->
  field_ok ru -> field_ok lu -> field_ok cmd ->
  exists b' w', read_names (client_conn h) b w = (Some (ru, lu, cmd), b', w') /\ ahead b' w' = stdin /\ same_talk w w'.
Proof.
  intros He Hok Ha H1 H2 H3. unfold read_names. cbn [k_read client_conn].
  destruct (client_readField _ _ _ _ He Hok Ha H1) as (b1 & w1 & -> & He1 & Hok1 & Ha1 & Ht1).
  destruct (client_readField _ _ _ _ He1 Hok1 Ha1 H2) as (b2 & w2 & -> & He2 & Hok2 & Ha2 & Ht2).
  destruct (client_readField _ _ _ _ He2 Hok2 Ha2 H3) as (b3 & w3 & -> & He3 & Hok3 & Ha3 & Ht3).
  exists b3, w3. do 2 (split; [done|]). etrans; [done|]. by etrans.
Qed.

(** What the client hears of the command's end. *)
Definition farewell (err : option bytes) : bytes := match err with Some msg => msg ++ [newline] | None => [] end.

(** The client has heard the zero byte and the farewell, and its command ran once. *)
Definition answered (req : Request) (stdin : bytes) (w' : client) : Prop :=
  let bye := farewell (h req stdin) in
  ran w' = [(req, stdin)] /\
  told_out w' = [0] ++ (if Callback req then [] else bye) /\ told_err w' = if Callback req then bye else [].

Lemma client_serve ru lu cmd stdin ip callback b w :
  b_err b = None -> chunks_ok w -> ahead b w = ru ++ 0 :: lu ++ 0 :: cmd ++ 0 :: stdin ->
  field_ok ru -> field_ok lu -> field_ok cmd -> told_out w = [] -> told_err w = [] -> ran w = [] ->
  answered (MkRequest ru lu cmd ip callback) stdin (serve_request (client_conn h) ip callback b w).
Proof.
  intros He Hok Ha H1 H2 H3 Ho Hee Hr. unfold serve_request.
  destruct (client_read_names ru lu cmd stdin b w He Hok Ha H1 H2 H3) as (b1 & w1 & -> & Ha1 & (Hk & Ho1 & He1 & Hr1)).
  cbn [k_handler client_conn k_write k_eclose k_ewrite snd sent told_out told_err ran].
  unfold ahead in Ha1. rewrite Ha1. unfold answered. cbn [Callback].
  destruct (h (MkRequest ru lu cmd ip callback) stdin) as [msg|]; destruct callback; cbn;
    rewrite ?Ho1, ?He1, ?Hr1, ?Ho, ?Hee, ?Hr; done.
Qed.

(** A request whose client sends the names only once called back, if it asked to be. *)
Record patient (port_field ru lu cmd stdin : bytes) (p : Z) (w : client) : Prop := MkPatient {
  pt_port : Atoi port_field = Ok p;
  pt_range : 0 <= p <= 65535;
  pt_fields : field_ok port_field /\ field_ok ru /\ field_ok lu /\ field_ok cmd;
  pt_chunks : Forall (fun b => b <> []) (sent w ++ kept w);
  pt_sent : exists early, concat (sent w) = port_field ++ 0 :: early;
  pt_all : concat (sent w ++ kept w) = port_field ++ 0 :: ru ++ 0 :: lu ++ 0 :: cmd ++ 0 :: stdin;
  pt_kept : p = 0 -> kept w = [];
  pt_fresh : told_out w = [] /\ told_err w = [] /\ ran w = [];
}.

(** C22. An allowed client's command is run: the server never waits for what the client
    will not send before it is called back, whatever the pieces the request arrives
    in; the command is given the users, the line and the rest of the input. *)
Theorem command_served (s : Server) tcp port port_field ru lu cmd stdin p w :
  turned_away s (Unmap (AddrFromSlice tcp)) port = None -> patient port_field ru lu cmd stdin p w ->
  answered (MkRequest ru lu cmd (Unmap (AddrFromSlice tcp)) (negb (p =? 0))) stdin
    (handle s (client_conn h) (Some (tcp, port)) w).
Proof.
  intros Haway [Hport Hrange (Hf0 & Hf1 & Hf2 & Hf3) Hchunks [early Hsent] Hall Hkept (Ho & Hee & Hr)].
  unfold handle, handle_. set (ip := Unmap (AddrFromSlice tcp)) in *. cbn [k_close k_read client_conn id].
  unfold turned_away in Haway. destruct (negb (match AllowIP s with Some f => f ip | None => true end)); [done|].
  assert (Hp : negb (AllowHighPorts s) && ((1024 <=? port) || (port <? 512)) = false).
  { destruct (AllowHighPorts s); [done|]. cbn in Haway |- *. destruct ((512 <=? port) && (port <? 1024)) eqn:E; [|done]. lia. }
  rewrite Hp. clear Hp Haway. rewrite concat_app in Hall. apply Forall_app in Hchunks as [Hc1 Hc2].
  destruct (client_readField port_field early (MkBuf [] None) w eq_refl Hc1 Hsent Hf0)
    as (b1 & w1 & -> & He1 & Hok1 & Ha1 & (Hk1 & Ho1 & Hee1 & Hr1)).
  rewrite Hport, (proj2 (orb_false_iff (p <? 0) (65535 <? p))) by lia.
  assert (Hrest : early ++ concat (kept w) = ru ++ 0 :: lu ++ 0 :: cmd ++ 0 :: stdin).
  { rewrite Hsent, <- app_assoc in Hall. cbn in Hall. apply app_inv_head in Hall. by injection Hall. }
  destruct (p =? 0) eqn:Hz; cbn [negb].
  - rewrite Hkept in Hrest by lia. cbn in Hrest. rewrite app_nil_r in Hrest. subst early.
    apply client_serve; [try done; congruence..].
  - apply client_serve; try done; cbn; try congruence.
    + apply Forall_app. split; [done|]. by rewrite Hk1.
    + unfold ahead in *. cbn. by rewrite Hk1, concat_app, app_assoc, Ha1.
Qed.
End talk.

(** ** The services' handler at work *)

(** What the services answer to a command that asks for no shell: its whole error is
    the refusal, and nothing of the input is looked at. *)
Definition no_shell (req : Request) (input : bytes) : option bytes :=
  if isShell (Command req) then None else Some (str "only a shell session is served").

(** [rsh exec /bin/sh], in pieces, from a client that waits for its callback. *)
Definition demo_request : client :=
  MkClient [str "10"; str "23" ++ [0]] [str "root" ++ [0; 103]; str "uest" ++ [0] ++ str "exec /bin/sh" ++ [0] ++ str "pwd" ++ [newline]] [] [] [].

Definition demo_rcmd : Server := MkServer (Some (fun ip => bool_decide (ip = [10; 0; 0; 7]))) false.

Ltac field_tac := split; [apply (bool_decide_unpack _); vm_compute; exact I|vm_compute; discriminate].

Lemma demo_patient :
  patient (str "1023") (str "root") (str "guest") (str "exec /bin/sh") (str "pwd" ++ [newline]) 1023 demo_request.
Proof.
  split; try done.
  - split_and!; field_tac.
  - apply (bool_decide_unpack _). vm_compute. exact I.
  - by exists [].
Qed.

Lemma command_served_witness :
  patient (str "1023") (str "root") (str "guest") (str "exec /bin/sh") (str "pwd" ++ [newline]) 1023 demo_request /\
  answered no_shell (MkRequest (str "root") (str "guest") (str "exec /bin/sh") [10; 0; 0; 7] true) (str "pwd" ++ [newline])
    (handle demo_rcmd (client_conn no_shell) (Some ([10; 0; 0; 7], 1022)) demo_request).
Proof.
  split; [exact demo_patient|].
  exact (command_served no_shell demo_rcmd [10; 0; 0; 7] 1022 _ _ _ _ _ _ _ eq_refl demo_patient).
Defined.

Example shell_asked : isShell (str "exec /bin/sh") = true /\ isShell (str "cat /etc/passwd") = false /\ isShell [] = false.
Proof. done. Qed.
