(* ===== verification/Addr.v ===== *)
(** Addresses in text, as [net] and [net/netip] read and write them: [ParseAddr],
    [ParsePrefix], [Addr.String] and [ParseMAC]. *)
From S2P Require Import Prelude Netip Text Strconv Strings.

Definition colon : Z := 58.
Definition percent : Z := 37.
Definition dash : Z := 45.

(** An address with its zone, which only an IPv6 address has; without bytes it is
    the zero address. *)
Record Addr := MkAddr { ip : bytes; zone : bytes }.
Definition noAddr : Addr := MkAddr [] [].

#[export] Instance Addr_eq_dec : EqDecision Addr.
Proof. solve_decision. Defined.

Definition Is4 (a : Addr) : bool := zlen (ip a) =? 4.
Definition Is6 (a : Addr) : bool := zlen (ip a) =? 16.

Record Prefix := MkPrefix { p_addr : Addr; p_bits : Z }.

(** ** Reading *)

(** [parseIPv4Fields]: the octets so far, the digits of this one, whether the byte
    before was a dot. *)
Fixpoint parse_fields (s : bytes) (octets : bytes) (val digits : Z) (start : bool) : option bytes :=
  match s with
  | [] => if zlen octets <? 3 then None else Some (octets ++ [val])
  | c :: s =>
      if is_digit c then
        if (digits =? 1) && (val =? 0) then None
        else
          let val := val * 10 + (c - 48) in
          if 255 <? val then None else parse_fields s octets val (digits + 1) false
      else if c =? dot then
        if start || bool_decide (s = []) then None
        else if zlen octets =? 3 then None
        else parse_fields s (octets ++ [val]) 0 0 true
      else None
  end.

Definition parseIPv4 (s : bytes) : option bytes := parse_fields s [] 0 0 true.

(** A group of hexadecimal digits: its value, how many there are, and the rest. *)
Fixpoint hex_group (s : bytes) (off acc : Z) : option (Z * Z * bytes) :=
  match s with
  | [] => Some (acc, off, [])
  | c :: s' =>
      match unhex c with
      | None => Some (acc, off, s)
      | Some d =>
          let acc := acc * 16 + d in
          if (3 <? off) || (65535 <? acc) then None else hex_group s' (off + 1) acc
      end
  end.

(** The groups of an IPv6 address, [ip] being the bytes so far and [ellipsis] where
    the zeros go; eight rounds are enough. *)
Fixpoint parse_groups (rounds : nat) (s ip : bytes) (ellipsis : option nat) : option (bytes * option nat) :=
  match rounds with
  | O => if bool_decide (s = []) then Some (ip, ellipsis) else None
  | S rounds =>
      '(acc, off, rest) ← hex_group s 0 0;
      if off =? 0 then None
      else
        match rest with
        | [] => Some (ip ++ [acc / 256; acc mod 256], ellipsis)
        | c :: rest =>
            if c =? dot then
              if bool_decide (ellipsis = None) && negb (zlen ip =? 12) then None
              else if 16 <? zlen ip + 4 then None
              else four ← parseIPv4 s; Some (ip ++ four, ellipsis)
            else
              let ip := ip ++ [acc / 256; acc mod 256] in
              if negb (c =? colon) then None
              else
                match rest with
                | [] => None
                | c :: tail =>
                    if c =? colon then
                      match ellipsis with
                      | Some _ => None
                      | None => if bool_decide (tail = []) then Some (ip, Some (length ip))
                                else parse_groups rounds tail ip (Some (length ip))
                      end
                    else parse_groups rounds rest ip ellipsis
                end
        end
  end.

(** The zeros of the ellipsis. *)
Definition expand (ip : bytes) (ellipsis : option nat) : option bytes :=
  if zlen ip <? 16 then
    at_ellipsis ← ellipsis;
    Some (take at_ellipsis ip ++ replicate (16 - length ip) 0 ++ drop at_ellipsis ip)
  else match ellipsis with Some _ => None | None => Some ip end.

Definition parseIPv6 (s : bytes) : option Addr :=
  let '(s, z) := cut percent s in
  if bool_decide (z = Some []) then None
  else
    let zone := default [] z in
    match s with
    | 58 :: 58 :: rest =>
        if bool_decide (rest = []) then Some (MkAddr (replicate 16 0) zone)
        else '(b, e) ← parse_groups 8 rest [] (Some 0%nat); b ← expand b e; Some (MkAddr b zone)
    | _ => '(b, e) ← parse_groups 8 s [] None; b ← expand b e; Some (MkAddr b zone)
    end.

(** [netip.ParseAddr]: the first dot, colon or percent sign decides. *)
Fixpoint parse_addr (s rest : bytes) : option Addr :=
  match rest with
  | [] => None
  | c :: rest =>
      if c =? dot then b ← parseIPv4 s; Some (MkAddr b [])
      else if c =? colon then parseIPv6 s
      else if c =? percent then None
      else parse_addr s rest
  end.

Definition ParseAddr (s : bytes) : option Addr := parse_addr s s.

(** [netip.ParsePrefix]. *)
Definition ParsePrefix (s : bytes) : option Prefix :=
  '(a, bits) ← cut_last slash s;
  a ← ParseAddr a;
  if Is6 a && negb (bool_decide (zone a = [])) then None
  else if (1 <? zlen bits) && negb (in_range 49 57 (at_ bits 0)) then None
  else
    match Atoi bits with
    | Ok n => if (n <? 0) || ((if Is6 a then 128 else 32) <? n) then None else Some (MkPrefix a n)
    | _ => None
    end.

(** [net.ParseMAC]: pairs of digits with one separator, or fours with dots. *)
Definition hex_pair (s : bytes) : option Z :=
  match s with
  | [a; b] => x ← unhex a; y ← unhex b; Some (x * 16 + y)
  | _ => None
  end.

Definition mac_length (n : nat) : bool := bool_decide (n ∈ [6; 8; 20]%nat).

Definition ParseMAC (s : bytes) : option bytes :=
  if zlen s <? 14 then None
  else if (at_ s 2 =? colon) || (at_ s 2 =? dash) then
    let pairs := split_byte (at_ s 2) s in
    hw ← mapM hex_pair pairs;
    if mac_length (length hw) then Some hw else None
  else if at_ s 4 =? dot then
    hw ← mapM (fun q => if zlen q =? 4 then x ← hex_pair (take 2 q); y ← hex_pair (drop 2 q); Some [x; y] else None)
              (split_byte dot s);
    if mac_length (length (mjoin hw)) then Some (mjoin hw) else None
  else None.

(** ** Writing *)

Definition string4 (b : bytes) : bytes :=
  dec (at_ b 0) ++ [dot] ++ dec (at_ b 1) ++ [dot] ++ dec (at_ b 2) ++ [dot] ++ dec (at_ b 3).

Definition groups (b : bytes) : list Z := (fun i => at_ b (2 * Z.of_nat i) * 256 + at_ b (2 * Z.of_nat i + 1)) <$> seq 0 8.

(** Hexadecimal without leading zeros. *)
Definition append_hex (g : Z) : bytes :=
  hex (if 0x1000 <=? g then 4 else if 0x100 <=? g then 3 else if 0x10 <=? g then 2 else 1) g.

Fixpoint zeros (gs : list Z) : nat := match gs with g :: gs => if g =? 0 then S (zeros gs) else O | [] => O end.

(** The first of the longest runs of two zero groups or more: where, and how many. *)
Fixpoint zero_run (i : nat) (gs : list Z) (best : nat * nat) : nat * nat :=
  match gs with
  | [] => best
  | _ :: rest =>
      let l := zeros gs in
      zero_run (S i) rest (if ((2 <=? l) && (snd best <? l))%nat then (i, l) else best)
  end.

Definition string6 (b : bytes) : bytes :=
  let gs := groups b in
  let '(at_zeros, n) := zero_run 0 gs (8%nat, 0%nat) in
  let text gs := match gs with [] => [] | g :: gs => append_hex g ++ mjoin ((fun g => colon :: append_hex g) <$> gs) end in
  if (n =? 0)%nat then text gs else text (take at_zeros gs) ++ [colon; colon] ++ text (drop (at_zeros + n) gs).

Definition with_zone (a : Addr) (s : bytes) : bytes := s ++ (if bool_decide (zone a = []) then [] else percent :: zone a).

(** [Addr.String]. *)
Definition AddrString (a : Addr) : bytes :=
  if bool_decide (ip a = []) then str "invalid IP"
  else if Is4 a then string4 (ip a)
  else if bool_decide (take 12 (ip a) = v4_in_v6) then with_zone a (str "::ffff:" ++ string4 (drop 12 (ip a)))
  else with_zone a (string6 (ip a)).

Example reads_addresses :
  ParseAddr (str "10.0.0.1") = Some (MkAddr [10; 0; 0; 1] []) /\ ParseAddr (str "10.0.0.01") = None /\
  ParseAddr (str "256.0.0.1") = None /\ ParseAddr (str "1.2.3") = None /\ ParseAddr (str "1.2.3.4.5") = None /\
  ParseAddr (str "fe80::1%eth0") = Some (MkAddr ([254; 128] ++ replicate 13 0 ++ [1]) (str "eth0")) /\
  ParseAddr (str "::ffff:1.2.3.4") = Some (MkAddr (v4_in_v6 ++ [1; 2; 3; 4]) []) /\
  ParseAddr (str "1:2:3:4:5:6:7:8:9") = None /\ ParseAddr (str "1::2::3") = None /\
  ParseAddr (str "::") = Some (MkAddr (replicate 16 0) []) /\ ParseAddr (str "1:2:3:4:5:6:7::") <> None /\
  ParseAddr (str "1:2:3:4:5:6:7:8::") = None /\ ParseAddr (str "::1%") = None /\
  ParseMAC (str "08:00:69:0a:0B:0c") = Some [8; 0; 105; 10; 11; 12] /\ ParseMAC (str "0800.690a.0B0c") = Some [8; 0; 105; 10; 11; 12] /\
  ParseMAC (str "08:00:69:0a:0b") = None /\ ParseMAC (str "08:00:69-0a:0b:0c") = None.
Proof. vm_compute. done. Qed.

Example writes_addresses :
  AddrString (MkAddr [10; 0; 0; 1] []) = str "10.0.0.1" /\
  AddrString (MkAddr ([254; 128] ++ replicate 13 0 ++ [1]) (str "eth0")) = str "fe80::1%eth0" /\
  AddrString (MkAddr (replicate 16 0) []) = str "::" /\
  AddrString (MkAddr [32; 1; 13; 184; 0; 0; 0; 1; 0; 0; 0; 0; 0; 0; 0; 1] []) = str "2001:db8:0:1::1" /\
  AddrString (MkAddr (v4_in_v6 ++ [1; 2; 3; 4]) []) = str "::ffff:1.2.3.4" /\ AddrString noAddr = str "invalid IP".
Proof. vm_compute. done. Qed.

(** ** What is written is read *)

Lemma byte_cases (P : Z -> Prop) : (forall i, (i < 256)%nat -> P (Z.of_nat i)) -> forall n, is_byte n -> P n.
Proof. intros H n Hn. unfold is_byte in Hn. rewrite <- (Z2Nat.id n) by lia. apply H. lia. Qed.

Lemma parse_fields_dec n rest octets : is_byte n ->
  exists digits, parse_fields (dec n ++ rest) octets 0 0 true = parse_fields rest octets n digits false.
Proof.
  revert n. apply byte_cases. intros i Hi.
  do 256 (destruct i as [|i]; [eexists; reflexivity|]). lia.
Qed.

Lemma parse_fields_dot rest octets n digits : zlen octets < 3 -> rest <> [] ->
  parse_fields (dot :: rest) octets n digits false = parse_fields rest (octets ++ [n]) 0 0 true.
Proof.
  intros Ho Hr. cbn [parse_fields]. change (is_digit dot) with false. rewrite Z.eqb_refl. cbn [orb].
  rewrite bool_decide_false by done. by rewrite (proj2 (Z.eqb_neq (zlen octets) 3)) by lia.
Qed.

Lemma parseIPv4_string4 a b c d : is_byte a -> is_byte b -> is_byte c -> is_byte d ->
  parseIPv4 (string4 [a; b; c; d]) = Some [a; b; c; d].
Proof.
  intros Ha Hb Hc Hd. unfold parseIPv4.
  change (string4 [a; b; c; d]) with (dec a ++ [dot] ++ dec b ++ [dot] ++ dec c ++ [dot] ++ dec d).
  destruct (parse_fields_dec a ([dot] ++ dec b ++ [dot] ++ dec c ++ [dot] ++ dec d) [] Ha) as [k1 ->].
  cbn [app]. rewrite parse_fields_dot by (done || by destruct (dec b)).
  destruct (parse_fields_dec b (dot :: dec c ++ dot :: dec d) ([] ++ [a]) Hb) as [k2 ->].
  rewrite parse_fields_dot by (done || by destruct (dec c)).
  destruct (parse_fields_dec c (dot :: dec d) (([] ++ [a]) ++ [b]) Hc) as [k3 ->].
  rewrite parse_fields_dot by (done || apply dec_not_nil). rewrite <- (app_nil_r (dec d)).
  by destruct (parse_fields_dec d [] ((([] ++ [a]) ++ [b]) ++ [c]) Hd) as [k4 ->].
Qed.

Lemma parse_addr_digits s n rest : parse_addr s (dec n ++ rest) = parse_addr s rest.
Proof.
  pose proof (dec_is_digits n) as H. induction H as [|c l Hc Hl IH]; [done|]. cbn [app parse_addr].
  unfold is_digit in Hc. apply andb_true_iff in Hc as [H1 H2]. zbool.
  rewrite !(proj2 (Z.eqb_neq c _)); [done|unfold percent, colon, dot; lia..].
Qed.

(** A configured IPv4 address, written for a machine, is the address. *)
Lemma ParseAddr_String a b c d : is_byte a -> is_byte b -> is_byte c -> is_byte d ->
  ParseAddr (AddrString (MkAddr [a; b; c; d] [])) = Some (MkAddr [a; b; c; d] []).
Proof.
  intros Ha Hb Hc Hd. change (AddrString (MkAddr [a; b; c; d] [])) with (string4 [a; b; c; d]).
  unfold ParseAddr. assert (forall s, parse_addr s (string4 [a; b; c; d]) = (x ← parseIPv4 s; Some (MkAddr x []))) as ->.
  { intros s. unfold string4. rewrite parse_addr_digits. reflexivity. }
  by rewrite parseIPv4_string4.
Qed.

(** An address is one line, if its zone is. *)
Lemma AddrString_line a : newline ∉ zone a -> newline ∉ AddrString a.
Proof.
  intros Hz. assert (Hd : forall n, newline ∉ dec n) by (intros n; by apply dec_no).
  assert (Hh : forall g, newline ∉ append_hex g) by (intros g; apply hex_no; unfold newline; lia).
  assert (H4 : forall b, newline ∉ string4 b).
  { intros b. unfold string4. rewrite !not_elem_of_app, !list_elem_of_singleton. split_and!; try apply Hd; done. }
  assert (Hw : forall s, newline ∉ s -> newline ∉ with_zone a s).
  { intros s Hs. unfold with_zone. apply not_elem_of_app. split; [done|]. case_bool_decide; [apply not_elem_of_nil|].
    by apply not_elem_of_cons. }
  unfold AddrString. case_bool_decide; [by apply (bool_decide_unpack _)|]. destruct (Is4 a); [apply H4|].
  case_bool_decide; apply Hw.
  - apply not_elem_of_app. split; [by apply (bool_decide_unpack _)|apply H4].
  - unfold string6. destruct (zero_run _ _ _) as [at_zeros n].
    assert (Ht : forall gs, newline ∉ match gs with
                                      | [] => []
                                      | g :: gs => append_hex g ++ mjoin ((fun g => colon :: append_hex g) <$> gs)
                                      end).
    { intros [|g gs]; [apply not_elem_of_nil|]. apply not_elem_of_app. split; [apply Hh|].
      intros (l & Hin & (g' & -> & _)%list_elem_of_fmap)%list_elem_of_join. apply elem_of_cons in Hin as [|Hin]; [done|].
      by apply Hh in Hin. }
    destruct (n =? 0)%nat; [apply Ht|]. rewrite !not_elem_of_app. split_and!; [apply Ht|by apply (bool_decide_unpack _)|apply Ht].
Qed.
