(* ===== verification/Config.v ===== *)
(** The configuration ([internal/config]): what a file says, checked, and the order
    in which install sets are installed. The YAML decoder, the files of add-ons and the
    environment are parameters. *)
From S2P Require Import Prelude Text Path Strconv Strings Addr.

(** ** What was configured *)

Record Client := MkClient { c_Name : bytes; c_MAC : bytes; c_IP : Addr; c_Hostname : bytes }.

Record Layer := MkLayer { ly_Name : bytes; ly_Source : bytes; ly_Base : bytes; ly_Dist : bytes; ly_Stand : bytes; ly_Boot : bool }.

Record InstallSet := MkInstallSet {
  is_Name : bytes; is_Enabled : bool; is_Addon : bool; is_Layers : list Layer;
  is_Collisions : gmap bytes bytes; is_Replacements : gmap bytes bytes; is_After : list bytes;
}.

Record ThenPass := MkThenPass { th_Sets : list bytes; th_Install : list bytes }.

Record InstallScript := MkInstallScript {
  sc_Name : bytes; sc_Install : list bytes; sc_Keep : list bytes; sc_Remove : list bytes; sc_Stream : bytes;
  sc_Then : option ThenPass; sc_PostInstall : list bytes;
}.

Record TFTPService := MkTFTPService { tftp_Enabled : bool; PortRange : Z * Z }.
Record Services := MkServices { s_BOOTP : bool; s_TFTP : TFTPService; s_RSH : bool }.
Record Ports := MkPorts { p_BOOTP : Z; p_TFTP : Z; p_RSH : Z }.
Record Credential := MkCredential { cr_Host : bytes; cr_Username : bytes; cr_Password : bytes }.

Record Config := MkConfig {
  ServerIP : Addr; DHCPServerID : Addr; Netmask : option Prefix; Clients : list Client;
  InstallSets : list InstallSet; InstallScripts : list InstallScript; Services_ : Services; Ports_ : Ports;
  Credentials : list Credential; CacheDir : bytes;
}.

(** ** What the file says *)

Record rawClient := MkRawClient { rc_Name : bytes; rc_MAC : bytes; rc_IP : bytes; rc_Host : bytes }.
Record rawSet := MkRawSet {
  rs_Name : bytes; rs_Enabled : option bool; rs_Addon : bool; rs_Layers : list Layer;
  rs_Collisions : gmap bytes bytes; rs_Replacements : gmap bytes bytes; rs_After : list bytes;
}.
Record rawScript := MkRawScript {
  rsc_Name : bytes; rsc_Install : list bytes; rsc_Keep : list bytes; rsc_Remove : list bytes; rsc_Stream : bytes;
  rsc_Then : option ThenPass; rsc_PostInstall : list bytes;
}.
Record rawTFTP := MkRawTFTP { rt_Enabled : option bool; rt_PortRange : Z * Z }.
Record rawServices := MkRawServices { rv_BOOTP : option bool; rv_TFTP : option rawTFTP; rv_RSH : option bool }.

Record raw := MkRaw {
  r_ServerIP : bytes; r_DHCPServerID : bytes; r_Netmask : bytes; r_Clients : list rawClient; r_Credentials : list Credential;
  r_CacheDir : bytes; r_Addons : list bytes; r_InstallSets : list rawSet; r_InstallScripts : list rawScript;
  r_Services : option rawServices; r_Ports : option Ports;
}.

Record rawAddon := MkRawAddon { ra_Name : bytes; ra_Layers : list Layer; ra_Install : list bytes }.

(** ** Errors *)

Inductive cfg_err :=
| BadYAML
| NoAddonFile (i : nat) | BadAddonYAML (i : nat) | BadAddon (i : nat)
| NoSets | IncompleteSet (i : nat) | BadSetName (i : nat) | DuplicateSet (i : nat)
| LayerNoName (i j : nat) | DuplicateLayerName (i j : nat) | LayerNoSource (i j : nat) | SecondBoot (i j : nat)
| BadReplacement (i : nat) (from to : bytes)
| NoSet (name : bytes) | AfterUnknown (from name : bytes) | AfterCycle (from name : bytes)
| NoServerIP | BadServerIP | BadDHCPServerID | BadNetmask
| NoClients | BadMAC (i : nat) | BadIP (i : nat) | BadHostname (i : nat)
| AddonsUnused
| ScriptNoName (i : nat) | BadScriptName (i : nat) | ReservedScript (i : nat) | DuplicateScript (i : nat) | BadStream (i : nat)
| EmptyThen (i : nat) | ThenNotAddon (i : nat) (name : bytes) | BadToken (i : nat) (entry : bytes) | BadCommand (i : nat) (cmd : bytes).

Notation cfg := (outcome cfg_err).

Definition check (ok : bool) (e : cfg_err) : cfg unit := if ok then Ok tt else Err e.

(** A loop that may stop with an error. *)
Fixpoint loop {S A : Type} (f : nat -> A -> S -> cfg S) (i : nat) (l : list A) (s : S) : cfg S :=
  match l with [] => Ok s | x :: l => s ← f i x s; loop f (i + 1)%nat l s end.

(** ** Names *)

Definition IsDirName (name : bytes) : bool :=
  ValidPath name && negb (bool_decide (name = [dot])) && negb (contains name slash).

(** [expandEnv]: the value of the variable a password names. *)
Definition expandEnv (getenv : bytes -> bytes) (v : bytes) : bytes :=
  if (zlen v <? 4) || negb (HasPrefix v (str "${")) || negb (HasSuffix v (str "}")) then v
  else getenv (sub v 2 (zlen v - 3)).

Definition maxHostname : Z := 40.

Definition hostname_rune (r : Z) : bool :=
  in_range 97 122 r || in_range 65 90 r || in_range 48 57 r || (r =? dash) || (r =? dot).

(** [checkHostname]: a rune of more than one byte has none of these bytes. *)
Definition checkHostname (h : bytes) : bool :=
  (zlen h <=? maxHostname) && forallb hostname_rune h
  && negb (HasPrefix h [dash] || HasPrefix h [dot] || HasSuffix h [dot]).

(** ** The order of installation *)

Definition find_set (sets : list InstallSet) (name : bytes) : option InstallSet :=
  snd <$> list_find (fun s => is_Name s = name) sets.

(** The names done, those being visited or done, and the order so far. *)
Definition visits : Type := list bytes * list bytes * list InstallSet.

(** [visit]: [fuel] is how deep the recursion may go. *)
Fixpoint visit (fuel : nat) (sets : list InstallSet) (name from : bytes) (st : visits) : cfg visits :=
  let '(done, visiting, order) := st in
  match fuel with
  | O => Panic
  | S fuel =>
      if bool_decide (name ∈ done) then Ok st
      else if bool_decide (name ∈ visiting) then Err (AfterCycle from name)
      else
        match find_set sets name with
        | None => Err (if bool_decide (from = []) then NoSet name else AfterUnknown from name)
        | Some s =>
            '(done, visiting, order) ← loop (fun _ b st => visit fuel sets b name st) 0 (is_After s) (done, name :: visiting, order);
            Ok (name :: done, visiting, order ++ [s])
        end
  end.

(** [InstallOrder]: at most one set of each name is being visited. *)
Definition InstallOrder (sets : list InstallSet) (name : bytes) : cfg (list InstallSet) :=
  '(_, _, order) ← visit (length sets + 2) sets name [] ([], [], []); Ok order.

(** ** Install sets *)

(** One layer: the names seen, the boot layer and the layers so far. *)
Definition read_layer (i : nat) (j : nat) (rl : Layer) (st : bytes * list Layer) : cfg (bytes * list Layer) :=
  let '(boot, layers) := st in
  _ ← check (negb (bool_decide (ly_Name rl = []))) (LayerNoName i j);
  _ ← check (negb (bool_decide (ly_Name rl ∈ ly_Name <$> layers))) (DuplicateLayerName i j);
  _ ← check (negb (bool_decide (ly_Source rl = []))) (LayerNoSource i j);
  _ ← check (negb (ly_Boot rl) || bool_decide (boot = [])) (SecondBoot i j);
  let boot := if ly_Boot rl then ly_Name rl else boot in
  let dist := if bool_decide (ly_Dist rl = []) then str "dist" else ly_Dist rl in
  Ok (boot, layers ++ [MkLayer (ly_Name rl) (ly_Source rl) (ly_Base rl) dist (ly_Stand rl) (ly_Boot rl)]).

(** The place of the last layer with a name, and [-1]. *)
Definition layer_index (layers : list Layer) (name : bytes) : Z :=
  snd (fold_left (fun '(i, at_) l => (i + 1, if bool_decide (ly_Name l = name) then i else at_)) layers (0, -1)).

Definition check_replacement (i : nat) (layers : list Layer) (_ : nat) (r : bytes * bytes) (_ : unit) : cfg unit :=
  let from := layer_index layers (fst r) in
  check (negb ((from <? 0) || (layer_index layers (snd r) <=? from))) (BadReplacement i (fst r) (snd r)).

Definition read_set (i : nat) (rs : rawSet) (sets : list InstallSet) : cfg (list InstallSet) :=
  _ ← check (negb (bool_decide (rs_Name rs = []) || bool_decide (rs_Layers rs = []))) (IncompleteSet i);
  _ ← check (IsDirName (rs_Name rs)) (BadSetName i);
  _ ← check (negb (bool_decide (rs_Name rs ∈ is_Name <$> sets))) (DuplicateSet i);
  '(_, layers) ← loop (read_layer i) 0 (rs_Layers rs) ([], []);
  _ ← loop (check_replacement i layers) 0 (map_to_list (rs_Replacements rs)) tt;
  Ok (sets ++ [MkInstallSet (rs_Name rs) (default true (rs_Enabled rs)) (rs_Addon rs) layers
                 (rs_Collisions rs) (rs_Replacements rs) (rs_After rs)]).

Definition noServices : Services := MkServices false (MkTFTPService false (0, 0)) false.

Definition installSets (getenv : bytes -> bytes) (r : raw) (r_sets : list rawSet) : cfg Config :=
  let creds := (fun c => MkCredential (cr_Host c) (cr_Username c) (expandEnv getenv (cr_Password c))) <$> r_Credentials r in
  _ ← check (negb (bool_decide (r_sets = []))) NoSets;
  sets ← loop read_set 0 r_sets [];
  _ ← loop (fun _ s _ => _ ← InstallOrder sets (is_Name s); Ok tt) 0 sets tt;
  Ok (MkConfig noAddr noAddr None [] sets [] noServices (MkPorts 0 0 0) creds (r_CacheDir r)).

(** ** The whole file *)

Definition AddonPrefix : bytes := str "addon-".

Section parse.
(** The decoder (its errors told apart by nothing here), the files, the environment. *)
Context (unmarshal : bytes -> option raw) (decodeAddon : bytes -> option rawAddon).
Context (readFile : bytes -> option bytes) (getenv : bytes -> bytes).

Definition load_addon (dir : bytes) (i : nat) (name : bytes) (st : list rawSet * ThenPass) : cfg (list rawSet * ThenPass) :=
  let '(sets, th) := st in
  match readFile (if IsAbs name then name else Join dir name) with
  | None => Err (NoAddonFile i)
  | Some b =>
      match decodeAddon b with
      | None => Err (BadAddonYAML i)
      | Some a =>
          _ ← check (IsDirName (ra_Name a) && negb (bool_decide (ra_Layers a = []) || bool_decide (ra_Install a = []))) (BadAddon i);
          let set := AddonPrefix ++ ra_Name a in
          Ok (sets ++ [MkRawSet set None true (ra_Layers a) ∅ ∅ []],
              MkThenPass (th_Sets th ++ [set]) (th_Install th ++ ra_Install a))
      end
  end.

(** [loadAddons]: the second pass, and the sets with those of the add-ons. *)
Definition loadAddons (dir : bytes) (r : raw) : cfg (option ThenPass * list rawSet) :=
  match r_Addons r with
  | [] => Ok (None, r_InstallSets r)
  | addons => '(sets, th) ← loop (load_addon dir) 0 addons (r_InstallSets r, MkThenPass [] []); Ok (Some th, sets)
  end.

Definition read_client (i : nat) (rc : rawClient) (clients : list Client) : cfg (list Client) :=
  match ParseMAC (rc_MAC rc) with
  | None => Err (BadMAC i)
  | Some mac =>
      match ParseAddr (rc_IP rc) with
      | None => Err (BadIP i)
      | Some cip =>
          _ ← check (checkHostname (rc_Host rc)) (BadHostname i);
          Ok (clients ++ [MkClient (rc_Name rc) mac cip (rc_Host rc)])
      end
  end.

(** A word of a command line: it is there, and is one line. *)
Definition one_line (e : bytes) : bool := negb (contains e newline || contains e carriage).
Definition token_ok (e : bytes) : bool := negb (bool_decide (e = [])) && one_line e.
Definition command_ok (e : bytes) : bool := negb (bool_decide (TrimSpace e = [])) && one_line e.

Definition streams : list bytes := [[]; str "feature"; str "maintenance"].

(** Every script installs the add-ons after the operating system. *)
Definition with_addons (addons : option ThenPass) (th : option ThenPass) : option ThenPass :=
  match addons with
  | None => th
  | Some a => let t := default (MkThenPass [] []) th in Some (MkThenPass (th_Sets t ++ th_Sets a) (th_Install t ++ th_Install a))
  end.

Definition read_script (addons : option ThenPass) (addonSets : list bytes) (i : nat) (rsc : rawScript) (scripts : list InstallScript) :
  cfg (list InstallScript) :=
  _ ← check (negb (bool_decide (rsc_Name rsc = []))) (ScriptNoName i);
  _ ← check (ValidPath (rsc_Name rsc) && negb (bool_decide (rsc_Name rsc = [dot])) && negb (contains (rsc_Name rsc) slash)) (BadScriptName i);
  _ ← check (negb (bool_decide (rsc_Name rsc = str "install"))) (ReservedScript i);
  _ ← check (negb (bool_decide (rsc_Name rsc ∈ sc_Name <$> scripts))) (DuplicateScript i);
  _ ← check (bool_decide (rsc_Stream rsc ∈ streams)) (BadStream i);
  let th := with_addons addons (rsc_Then rsc) in
  _ ← match th with
      | None => Ok tt
      | Some t =>
          _ ← check (negb (bool_decide (th_Sets t = []) || bool_decide (th_Install t = []))) (EmptyThen i);
          loop (fun _ name _ => check (bool_decide (name ∈ addonSets)) (ThenNotAddon i name)) 0 (th_Sets t) tt
      end;
  let entries := rsc_Install rsc ++ rsc_Keep rsc ++ rsc_Remove rsc ++ match th with None => [] | Some t => th_Install t end in
  _ ← loop (fun _ e _ => check (token_ok e) (BadToken i e)) 0 entries tt;
  _ ← loop (fun _ c _ => check (command_ok c) (BadCommand i c)) 0 (rsc_PostInstall rsc) tt;
  Ok (scripts ++ [MkInstallScript (rsc_Name rsc) (rsc_Install rsc) (rsc_Keep rsc) (rsc_Remove rsc) (rsc_Stream rsc) th (rsc_PostInstall rsc)]).

Definition defaultServices : Services := MkServices true (MkTFTPService true (2048, 32767)) true.
Definition defaultPorts : Ports := MkPorts 67 69 514.

Definition set_services (rv : option rawServices) (s : Services) : Services :=
  match rv with
  | None => s
  | Some v =>
      let tftp := match rv_TFTP v with
                  | None => s_TFTP s
                  | Some t => MkTFTPService (default (tftp_Enabled (s_TFTP s)) (rt_Enabled t))
                                (if bool_decide (rt_PortRange t = (0, 0)) then PortRange (s_TFTP s) else rt_PortRange t)
                  end in
      MkServices (default (s_BOOTP s) (rv_BOOTP v)) tftp (default (s_RSH s) (rv_RSH v))
  end.

Definition set_ports (rp : option Ports) (p : Ports) : Ports :=
  match rp with
  | None => p
  | Some r =>
      let pick new old := if new =? 0 then old else new in
      MkPorts (pick (p_BOOTP r) (p_BOOTP p)) (pick (p_TFTP r) (p_TFTP p)) (pick (p_RSH r) (p_RSH p))
  end.

(** The sets a second pass may open. *)
Definition addon_sets (sets : list InstallSet) : list bytes := is_Name <$> filter (fun s => is_Addon s && is_Enabled s) sets.

(** [ParseIn]. *)
Definition ParseIn (b dir : bytes) : cfg Config :=
  match unmarshal b with
  | None => Err BadYAML
  | Some r =>
      '(addons, r_sets) ← loadAddons dir r;
      c ← installSets getenv r r_sets;
      _ ← check (negb (bool_decide (r_ServerIP r = []))) NoServerIP;
      server ← from_option Ok (Err BadServerIP) (ParseAddr (r_ServerIP r));
      id ← (if bool_decide (r_DHCPServerID r = []) then Ok noAddr
            else match ParseAddr (r_DHCPServerID r) with
                 | Some a => if Is4 a then Ok a else Err BadDHCPServerID
                 | None => Err BadDHCPServerID
                 end);
      netmask ← (if bool_decide (r_Netmask r = []) then Ok None
                 else from_option (fun p => Ok (Some p)) (Err BadNetmask) (ParsePrefix (r_Netmask r)));
      _ ← check (negb (bool_decide (r_Clients r = []))) NoClients;
      clients ← loop read_client 0 (r_Clients r) [];
      let addonSets := addon_sets (InstallSets c) in
      _ ← check (negb (bool_decide (addons <> None) && bool_decide (r_InstallScripts r = []))) AddonsUnused;
      scripts ← loop (read_script addons addonSets) 0 (r_InstallScripts r) [];
      Ok (MkConfig server id netmask clients (InstallSets c) scripts
            (set_services (r_Services r) defaultServices) (set_ports (r_Ports r) defaultPorts) (Credentials c) (CacheDir c))
  end.

Definition ParseInstallSetsIn (b dir : bytes) : cfg Config :=
  match unmarshal b with
  | None => Err BadYAML
  | Some r => '(_, r_sets) ← loadAddons dir r; installSets getenv r r_sets
  end.
End parse.

(** ** The order of installation is right *)

Lemma check_Ok ok e u : check ok e = Ok u <-> ok = true.
Proof. unfold check. destruct ok; [by destruct u|]. split; by intros. Qed.

Lemma find_set_Some sets name s : find_set sets name = Some s -> is_Name s = name /\ s ∈ sets.
Proof.
  unfold find_set. destruct (list_find _ sets) as [[i s']|] eqn:E; [|done]. intros [= ->].
  apply list_find_Some in E as (Hi & Hn & _). split; [done|]. by eapply list_elem_of_lookup_2.
Qed.

Section order.
Context (sets : list InstallSet).

(** [b] is named by the set [a] as one it is installed after. *)
Definition installed_after (a b : bytes) : Prop := exists s, find_set sets a = Some s /\ b ∈ is_After s.

(** What makes an order impossible: a name that is no set, or a set after itself. *)
Definition broken (root : bytes) : Prop :=
  exists b, rtc installed_after root b /\ (find_set sets b = None \/ tc installed_after b b).

(** Each set once, the sets it is after before it, and nothing the root does not need. *)
Record ordered (root : bytes) (order : list InstallSet) : Prop := {
  or_once : NoDup (is_Name <$> order);
  or_set i s : order !! i = Some s -> find_set sets (is_Name s) = Some s;
  or_needed i s : order !! i = Some s -> rtc installed_after root (is_Name s);
  or_after i s b : order !! i = Some s -> b ∈ is_After s -> b ∈ is_Name <$> take i order;
}.

(** The state of the search. *)
Record searching (root : bytes) (st : visits) : Prop := {
  se_order : ordered root st.2;
  se_done x : x ∈ st.1.1 <-> x ∈ is_Name <$> st.2;
  se_visiting x : x ∈ st.1.1 -> x ∈ st.1.2;
  se_once : NoDup st.1.2;
  se_known : st.1.2 ⊆ is_Name <$> sets;
}.

(** The search went on: what is still being visited was being visited. *)
Record went_on (st st' : visits) : Prop := {
  wo_done : st.1.1 ⊆ st'.1.1;
  wo_visiting : st.1.2 ⊆ st'.1.2;
  wo_length : (length st.1.2 <= length st'.1.2)%nat;
  wo_stack x : x ∈ st'.1.2 -> x ∈ st.1.2 \/ x ∈ st'.1.1;
  wo_open x : x ∈ st.1.2 -> x ∉ st.1.1 -> x ∉ st'.1.1;
}.

Lemma went_on_refl st : went_on st st.
Proof. split; [done|done|lia|tauto|done]. Qed.

Lemma went_on_trans st1 st2 st3 : went_on st1 st2 -> went_on st2 st3 -> went_on st1 st3.
Proof.
  intros [d1 v1 l1 s1 o1] [d2 v2 l2 s2 o2]. split; [set_solver|set_solver|lia| |naive_solver].
  intros x Hx. destruct (s2 x Hx) as [H|H]; [|tauto]. destruct (s1 x H) as [H'|H']; [tauto|]. right. by apply d2.
Qed.

(** The stack leads to the name that is visited. *)
Definition leads_to (st : visits) (name : bytes) : Prop := forall x, x ∈ st.1.2 -> x ∉ st.1.1 -> tc installed_after x name.

Lemma visiting_few root st : searching root st -> (length st.1.2 <= length sets)%nat.
Proof.
  intros [_ _ _ Ho Hk]. rewrite <- (length_fmap is_Name sets). apply submseteq_length. by apply NoDup_submseteq.
Qed.

Lemma searching_nil root : searching root ([], [], []).
Proof.
  split; cbn; [|done|by intros x Hx%elem_of_nil|apply NoDup_nil_2|by intros x Hx%elem_of_nil].
  split; try done. apply NoDup_nil_2.
Qed.

(** A set that was visited goes to the end of the order. *)
Lemma ordered_snoc root order s : ordered root order -> find_set sets (is_Name s) = Some s ->
  rtc installed_after root (is_Name s) -> is_Name s ∉ is_Name <$> order ->
  (forall b, b ∈ is_After s -> b ∈ is_Name <$> order) -> ordered root (order ++ [s]).
Proof.
  intros [Ho Hs Hn Ha] Hf Hr Hnew Hb.
  assert (Hlook : forall (P : nat -> InstallSet -> Prop), (forall i x, order !! i = Some x -> P i x) -> P (length order) s ->
    forall i x, (order ++ [s]) !! i = Some x -> P i x).
  { intros P H1 H2 i x [Hi|[Hi H]]%lookup_app_Some; [by apply H1|].
    apply list_lookup_singleton_Some in H as [Hz ->]. assert (i = length order) as -> by lia. done. }
  split.
  - rewrite fmap_app. apply NoDup_app. split_and!; [done| |apply NoDup_singleton].
    cbn. intros x Hx Hx'%list_elem_of_singleton. by subst.
  - by apply (Hlook (fun _ x => find_set sets (is_Name x) = Some x)).
  - by apply (Hlook (fun _ x => rtc installed_after root (is_Name x))).
  - intros i x b Hi. revert i x Hi. apply (Hlook (fun i x => b ∈ is_After x -> b ∈ is_Name <$> take i (order ++ [s]))).
    + intros i x Hi Hx. rewrite take_app_le by (apply lookup_lt_Some in Hi; lia). by eapply Ha.
    + intros Hx. rewrite take_app_length. by apply Hb.
Qed.

(** What a visit that is deep enough gives. *)
Definition visited (root : bytes) (st : visits) (names : list bytes) (r : cfg visits) : Prop :=
  match r with
  | Ok st' => searching root st' /\ went_on st st' /\ forall b, b ∈ names -> b ∈ st'.1.1
  | Err _ => broken root
  | Panic => False
  end.

Definition deep_enough (fuel : nat) (st : visits) : Prop := (length sets + 2 <= fuel + length st.1.2)%nat.

(** The sets a set is after are visited one by one. *)
Lemma visit_all root fuel name :
  (forall b st, searching root st -> leads_to st b -> rtc installed_after root b -> deep_enough fuel st ->
    visited root st [b] (visit fuel sets b name st)) ->
  rtc installed_after root name ->
  forall bs i st, (forall b, b ∈ bs -> installed_after name b) ->
    searching root st -> (forall x, x ∈ st.1.2 -> x ∉ st.1.1 -> rtc installed_after x name) -> deep_enough fuel st ->
    visited root st bs (loop (fun _ b st => visit fuel sets b name st) i bs st).
Proof.
  intros IH Hroot. induction bs as [|b bs IHbs]; intros i st Hbs Hs Hlead Hdeep; cbn [loop].
  { split_and!; [done|apply went_on_refl|]. by intros b Hb%elem_of_nil. }
  assert (Hb : installed_after name b) by (apply Hbs; by left).
  specialize (IH b st Hs). destruct (visit fuel sets b name st) as [st1|e| ]; cbn [mbind outcome_bind].
  - destruct IH as (Hs1 & Hw1 & Hd1); [|by eapply rtc_r|done|].
    { intros x Hx Hnx. eapply tc_rtc_l; [by apply Hlead|by apply tc_once]. }
    assert (Hlead1 : forall x, x ∈ st1.1.2 -> x ∉ st1.1.1 -> rtc installed_after x name).
    { intros x Hx Hnx. destruct (wo_stack _ _ Hw1 x Hx) as [Hx'|Hx']; [|done].
      apply Hlead; [done|]. intros Hin. by apply Hnx, (wo_done _ _ Hw1). }
    assert (Hdeep1 : deep_enough fuel st1) by (pose proof (wo_length _ _ Hw1); unfold deep_enough in *; lia).
    specialize (IHbs (i + 1)%nat st1 ltac:(intros; apply Hbs; by right) Hs1 Hlead1 Hdeep1).
    destruct (loop _ _ bs st1) as [st2|e| ]; [|done|done]. destruct IHbs as (Hs2 & Hw2 & Hd2).
    split_and!; [done|by eapply went_on_trans|]. intros x [->|Hx]%elem_of_cons; [|by apply Hd2].
    apply (wo_done _ _ Hw2), Hd1. by left.
  - apply IH; [|by eapply rtc_r|done]. intros x Hx Hnx. eapply tc_rtc_l; [by apply Hlead|by apply tc_once].
  - apply IH; [|by eapply rtc_r|done]. intros x Hx Hnx. eapply tc_rtc_l; [by apply Hlead|by apply tc_once].
Qed.

Lemma searching_push root done visiting order name s :
  searching root (done, visiting, order) -> name ∉ visiting -> find_set sets name = Some s ->
  searching root (done, name :: visiting, order).
Proof.
  intros [Ho Hd Hv Hn Hk] Hnew Hf. cbn in *. split; cbn; [done|done| | |].
  - intros x Hx. right. by apply Hv.
  - by constructor.
  - intros x [->|Hx]%elem_of_cons; [|by apply Hk]. destruct (find_set_Some _ _ _ Hf) as [<- Hin]. by apply list_elem_of_fmap_2.
Qed.

Lemma searching_pop root done visiting order name s :
  searching root (done, visiting, order) -> name ∈ visiting -> name ∉ done -> find_set sets name = Some s ->
  rtc installed_after root name -> (forall b, b ∈ is_After s -> b ∈ done) ->
  searching root (name :: done, visiting, order ++ [s]).
Proof.
  intros [Ho Hd Hv Hn Hk] Hin Hnd Hf Hr Ha. cbn in *. destruct (find_set_Some _ _ _ Hf) as [Hname _]. split; cbn.
  - apply ordered_snoc; rewrite ?Hname; try done; [by rewrite <- Hd|]. intros b Hb. by apply Hd, Ha.
  - intros x. rewrite elem_of_cons, fmap_app, elem_of_app, Hd. cbn. rewrite list_elem_of_singleton, Hname. tauto.
  - intros x [->|Hx]%elem_of_cons; [done|by apply Hv].
  - done.
  - done.
Qed.

Lemma visit_searches root fuel name from st :
  searching root st -> leads_to st name -> rtc installed_after root name -> deep_enough fuel st ->
  visited root st [name] (visit fuel sets name from st).
Proof.
  revert name from st. induction fuel as [|fuel IH]; intros name from [[done visiting] order] Hs Hlead Hroot Hdeep.
  { pose proof (visiting_few _ _ Hs). unfold deep_enough in Hdeep. cbn in *. lia. }
  cbn [visit]. case_bool_decide as Hdone.
  { split_and!; [done|apply went_on_refl|]. by intros b ->%list_elem_of_singleton. }
  case_bool_decide as Hvis.
  { exists name. split; [done|]. right. by apply Hlead. }
  destruct (find_set sets name) as [s|] eqn:Hf; [|exists name; by auto].
  assert (Hs1 : searching root (done, name :: visiting, order)) by by eapply searching_push.
  pose proof (visit_all root fuel name (fun b => IH b name) Hroot (is_After s) 0%nat (done, name :: visiting, order)) as Hall.
  assert (Hstack : forall x, x ∈ name :: visiting -> x ∉ done -> rtc installed_after x name).
  { intros x [->|Hx]%elem_of_cons Hnx; [done|by apply tc_rtc, Hlead]. }
  specialize (Hall ltac:(by exists s) Hs1 Hstack ltac:(unfold deep_enough in *; cbn in *; lia)). clear Hstack.
  destruct (loop (fun _ b st => visit fuel sets b name st) 0 (is_After s) (done, name :: visiting, order)) as [st1|e| ];
    cbn [mbind outcome_bind]; [|done|done].
  destruct Hall as (Hs2 & Hw & Hd2).
  destruct st1 as [[done1 visiting1] order1]. destruct Hw as [Wd Wv Wl Ws Wo]. cbn in Wd, Wv, Wl, Ws, Wo, Hd2.
  assert (Hopen : name ∉ done1) by (apply Wo; [by left|done]).
  split_and!; [|split; cbn|intros b ->%list_elem_of_singleton; by left].
  - apply searching_pop; try done. apply Wv. by left.
  - set_solver.
  - set_solver.
  - lia.
  - intros x Hx. destruct (Ws x Hx) as [[->|Hx']%elem_of_cons|Hx']; [right; by left|by left|right; by right].
  - intros x Hx Hnx [->|Hx']%elem_of_cons; [done|]. revert Hx'. apply Wo; [by right|done].
Qed.

(** In an order what a set is after comes before it, so nothing is after itself. *)
Lemma ordered_before root order i a b : ordered root order -> (is_Name <$> order) !! i = Some a -> tc installed_after a b ->
  exists j, (j < i)%nat /\ (is_Name <$> order) !! j = Some b.
Proof.
  intros Ho Hi Ht. revert i Hi.
  assert (Hstep : forall a b i, (is_Name <$> order) !! i = Some a -> installed_after a b ->
    exists j, (j < i)%nat /\ (is_Name <$> order) !! j = Some b).
  { intros a' b' i Hi (s & Hf & Hin). apply list_lookup_fmap_Some in Hi as (s' & -> & Hi).
    assert (s' = s) as -> by (pose proof (or_set _ _ Ho _ _ Hi); congruence).
    pose proof (or_after _ _ Ho i s b' Hi Hin) as [j Hj]%list_elem_of_lookup. exists j.
    rewrite list_lookup_fmap in Hj |- *. destruct (decide (j < i)%nat) as [Hlt|Hge].
    - by rewrite lookup_take_lt in Hj.
    - rewrite lookup_take_ge in Hj by lia. done. }
  induction Ht as [a b H|a b c H _ IH]; intros i Hi; [by eapply Hstep|].
  destruct (Hstep a b i Hi H) as (j & Hj & Hb). destruct (IH j Hb) as (k & Hk & Hc). exists k. split; [lia|done].
Qed.

(** A complete order: all that the root needs, the root last. *)
Definition complete (root : bytes) (order : list InstallSet) : Prop :=
  ordered root order /\ (forall b, rtc installed_after root b <-> b ∈ is_Name <$> order) /\
  last (is_Name <$> order) = Some root.

Lemma ordered_complete root order : ordered root order -> root ∈ is_Name <$> order -> complete root order.
Proof.
  intros Ho [i Hi]%list_elem_of_lookup. split_and!; [done| |].
  - intros b. split.
    + intros [<-|Ht]%rtc_tc; [by eapply list_elem_of_lookup_2|].
      destruct (ordered_before _ _ _ _ _ Ho Hi Ht) as (j & _ & Hj). by eapply list_elem_of_lookup_2.
    + intros (s & -> & [j Hj]%list_elem_of_lookup)%list_elem_of_fmap. by eapply or_needed.
  - rewrite last_lookup. set (n := length (is_Name <$> order)). pose proof (lookup_lt_Some _ _ _ Hi) as Hlt.
    destruct (lookup_lt_is_Some_2 (is_Name <$> order) (pred n)) as [b Hb]; [lia|]. rewrite Hb. f_equal.
    pose proof Hb as Hb'. apply list_lookup_fmap_Some in Hb' as (s & -> & Hs).
    pose proof (or_needed _ _ Ho _ _ Hs) as [->|Ht]%rtc_tc; [done|].
    destruct (ordered_before _ _ _ _ _ Ho Hi Ht) as (j & Hj & Hjb).
    pose proof (NoDup_lookup _ _ _ _ (or_once _ _ Ho) Hjb Hb). lia.
Qed.

Lemma complete_sound root order : complete root order -> ~ broken root.
Proof.
  intros (Ho & Hr & _) (b & Hb & [Hnone|Hcycle]); apply Hr, list_elem_of_lookup in Hb as [i Hi].
  - apply list_lookup_fmap_Some in Hi as (s & -> & Hi). pose proof (or_set _ _ Ho _ _ Hi). congruence.
  - destruct (ordered_before _ _ _ _ _ Ho Hi Hcycle) as (j & Hj & Hjb).
    pose proof (NoDup_lookup _ _ _ _ (or_once _ _ Ho) Hjb Hi). lia.
Qed.
End order.

(** An install order holds what the set needs and no more, each set once and after all
    it is installed after, the set itself last; there is none exactly when a name
    that is needed is no set, or a set is needed before itself. *)
Theorem InstallOrder_orders sets name :
  match InstallOrder sets name with
  | Ok order => complete sets name order /\ ~ broken sets name
  | Err _ => broken sets name
  | Panic => False
  end.
Proof.
  unfold InstallOrder.
  pose proof (visit_searches sets name (length sets + 2) name [] ([], [], [])) as H.
  destruct (visit _ _ _ _ _) as [[[done visiting] order]|e| ]; cbn [mbind outcome_bind].
  2-3: apply H; [|by intros x Hx%elem_of_nil|done|unfold deep_enough; cbn; lia].
  2-3: apply searching_nil.
  destruct H as (Hs & _ & Hd); [|by intros x Hx%elem_of_nil|done|unfold deep_enough; cbn; lia|].
  { apply searching_nil. }
  assert (Hc : complete sets name order).
  { apply ordered_complete; [apply Hs|]. apply (se_done _ _ _ Hs), Hd. by left. }
  split; [done|by eapply complete_sound].
Qed.

(** ** What a checked configuration is *)

(** The outcome is no panic, and a value it gives is as [P] says. *)
Definition post {A} (m : cfg A) (P : A -> Prop) : Prop := match m with Ok a => P a | Err _ => True | Panic => False end.

Lemma post_bind {A B} (m : cfg A) (f : A -> cfg B) (Q : A -> Prop) (P : B -> Prop) :
  post m Q -> (forall a, Q a -> post (f a) P) -> post (m ≫= f) P.
Proof. destruct m; cbn; auto. Qed.

Lemma post_mono {A} (m : cfg A) (P Q : A -> Prop) : post m P -> (forall a, P a -> Q a) -> post m Q.
Proof. destruct m; cbn; auto. Qed.

Lemma post_check ok e (P : unit -> Prop) : (ok = true -> P tt) -> post (check ok e) P.
Proof. unfold check. destruct ok; cbn; auto. Qed.

Lemma post_and {A} (m : cfg A) (P Q : A -> Prop) : post m P -> post m Q -> post m (fun a => P a /\ Q a).
Proof. destruct m; cbn; auto. Qed.

(** A loop keeps what each step keeps of the elements gone through. *)
Lemma post_loop {S A} (P : list A -> S -> Prop) (f : nat -> A -> S -> cfg S) l i s :
  P [] s -> (forall j pre x s, x ∈ l -> P pre s -> post (f j x s) (P (pre ++ [x]))) -> post (loop f i l s) (P l).
Proof.
  intros H0 Hf. change l with ([] ++ l) at 2. revert H0. generalize (@nil A) as pre. revert i s.
  induction l as [|x l IH]; intros i s pre H0; cbn [loop]; [by rewrite app_nil_r|].
  eapply post_bind; [by apply (Hf i pre x); [left|]|]. intros s' Hs'.
  replace (pre ++ x :: l) with ((pre ++ [x]) ++ l) by by rewrite <- app_assoc.
  apply IH; [|done]. intros j pre' y t Hy. apply Hf. by right.
Qed.

Lemma post_loop_all {A} (P : A -> Prop) (f : nat -> A -> unit -> cfg unit) l i s :
  (forall j x, x ∈ l -> post (f j x tt) (fun _ => P x)) -> post (loop f i l s) (fun _ => Forall P l).
Proof.
  intros H. apply (post_loop (fun l _ => Forall P l)); [done|]. intros j pre x [] Hx Hpre.
  eapply post_mono; [by apply H|]. intros u Hp. apply Forall_app. auto.
Qed.

(** A name served under the root: one path element. *)
Definition dir_name (name : bytes) : Prop := name_ok name /\ valid_utf8 name = true.

Lemma contains_true s c : contains s c = true <-> c ∈ s.
Proof. unfold contains. apply bool_decide_eq_true. Qed.

Lemma IsDirName_ok name : IsDirName name = true -> dir_name name.
Proof.
  unfold IsDirName. intros [[Hv Hd]%andb_true_iff Hs]%andb_true_iff. apply negb_true_iff in Hd, Hs.
  apply bool_decide_eq_false in Hd. assert (Hns : slash ∉ name) by (rewrite <- contains_true; by destruct (contains name slash)).
  destruct (ValidPath_names name Hv Hd) as [Hf Hu]. split; [|done].
  rewrite split_no_slash in Hf by done. by inv Hf.
Qed.

(** A layer has a name, a source and where its products are. *)
Definition layer_ok (l : Layer) : Prop := ly_Name l <> [] /\ ly_Source l <> [] /\ ly_Dist l <> [].

Definition one_boot (layers : list Layer) : Prop :=
  forall i j a b, layers !! i = Some a -> layers !! j = Some b -> ly_Boot a = true -> ly_Boot b = true -> i = j.

(** A replacement goes from a layer to a later one. *)
Definition replaces_later (layers : list Layer) (from to : bytes) : Prop :=
  exists i j, (i < j)%nat /\ (ly_Name <$> layers) !! i = Some from /\ (ly_Name <$> layers) !! j = Some to.

Record set_ok (s : InstallSet) : Prop := {
  so_name : dir_name (is_Name s);
  so_layers : is_Layers s <> [];
  so_once : NoDup (ly_Name <$> is_Layers s);
  so_layer : Forall layer_ok (is_Layers s);
  so_boot : one_boot (is_Layers s);
  so_replaced from to : is_Replacements s !! from = Some to -> replaces_later (is_Layers s) from to;
}.

(** One line of a command file. *)
Definition line_ok (e : bytes) : Prop := newline ∉ e /\ carriage ∉ e.

Record script_ok (sets : list InstallSet) (s : InstallScript) : Prop := {
  co_name : dir_name (sc_Name s) /\ sc_Name s <> str "install";
  co_stream : sc_Stream s ∈ streams;
  co_tokens : Forall (fun e => e <> [] /\ line_ok e) (sc_Install s ++ sc_Keep s ++ sc_Remove s);
  co_then t : sc_Then s = Some t ->
    th_Sets t <> [] /\ th_Install t <> [] /\ Forall (fun e => e <> [] /\ line_ok e) (th_Install t) /\
    Forall (fun name => exists s, s ∈ sets /\ is_Name s = name /\ is_Addon s = true /\ is_Enabled s = true) (th_Sets t);
  co_post : Forall (fun c => TrimSpace c <> [] /\ line_ok c) (sc_PostInstall s);
}.

Definition sets_ok (sets : list InstallSet) : Prop :=
  sets <> [] /\ NoDup (is_Name <$> sets) /\ Forall set_ok sets /\
  Forall (fun s => exists order, InstallOrder sets (is_Name s) = Ok order) sets.

Record config_ok (c : Config) : Prop := {
  ok_sets : sets_ok (InstallSets c);
  ok_scripts : NoDup (sc_Name <$> InstallScripts c) /\ Forall (script_ok (InstallSets c)) (InstallScripts c);
  ok_clients : Clients c <> [] /\
    Forall (fun cl => zlen (c_Hostname cl) <= maxHostname /\ forallb hostname_rune (c_Hostname cl) = true) (Clients c);
  ok_ids : DHCPServerID c = noAddr \/ Is4 (DHCPServerID c) = true;
  ok_mask p : Netmask c = Some p -> 0 <= p_bits p <= if Is6 (p_addr p) then 128 else 32;
}.

Lemma ParsePrefix_bits s p : ParsePrefix s = Some p -> 0 <= p_bits p <= if Is6 (p_addr p) then 128 else 32.
Proof.
  unfold ParsePrefix. destruct (cut_last slash s) as [[a bits]|]; [|done]. cbn. destruct (ParseAddr a) as [ad|]; [|done]. cbn.
  destruct (_ && _); [done|]. destruct (_ && _); [done|]. destruct (Atoi bits) as [n| |]; [|done|done].
  destruct ((n <? 0) || _) eqn:E; [done|]. intros [= <-]. cbn. lia.
Qed.

(** ** Reading gives one *)

(** The state of the loop over the layers of a set. *)
Definition layers_ok (st : bytes * list Layer) : Prop :=
  NoDup (ly_Name <$> st.2) /\ Forall layer_ok st.2 /\ one_boot st.2 /\
  (st.1 = [] -> Forall (fun l => ly_Boot l = false) st.2).

Lemma one_boot_snoc layers l : one_boot layers -> (ly_Boot l = true -> Forall (fun l => ly_Boot l = false) layers) ->
  one_boot (layers ++ [l]).
Proof.
  intros H Hl i j a b Hi Hj Ha Hb. apply lookup_app_Some in Hi as [Hi|[Hi Hi']], Hj as [Hj|[Hj Hj']].
  - by eapply H.
  - apply list_lookup_singleton_Some in Hj' as [_ <-]. eapply Forall_lookup_1 in Hl; [|done|done]. cbn in Hl. congruence.
  - apply list_lookup_singleton_Some in Hi' as [_ <-]. eapply Forall_lookup_1 in Hl; [|done|done]. cbn in Hl. congruence.
  - apply list_lookup_singleton_Some in Hi' as [? _], Hj' as [? _]. lia.
Qed.

Lemma read_layer_ok i j rl st : layers_ok st ->
  post (read_layer i j rl st) (fun st' => layers_ok st' /\ length st'.2 = S (length st.2)).
Proof.
  destruct st as [boot layers]. intros (Hn & Hf & Ho & Hb). cbn in Hn, Hf, Ho, Hb. unfold read_layer.
  eapply post_bind; [apply (post_check _ _ (fun _ => ly_Name rl <> [])); by intros H%negb_true_iff%bool_decide_eq_false|]. intros ? Hname. cbn beta in Hname.
  eapply post_bind; [apply (post_check _ _ (fun _ => ly_Name rl ∉ ly_Name <$> layers)); by intros H%negb_true_iff%bool_decide_eq_false|]. intros ? Hnew. cbn beta in Hnew.
  eapply post_bind; [apply (post_check _ _ (fun _ => ly_Source rl <> [])); by intros H%negb_true_iff%bool_decide_eq_false|]. intros ? Hsrc. cbn beta in Hsrc.
  eapply post_bind; [apply (post_check _ _ (fun _ => ly_Boot rl = true -> boot = []))|].
  { intros [H|H%bool_decide_eq_true]%orb_true_iff; [|done]. apply negb_true_iff in H. by rewrite H. }
  intros ? Hboot. cbn beta in Hboot. cbn. rewrite length_app. split; [|cbn; lia]. unfold layers_ok. cbn. split_and!.
  - rewrite fmap_app. apply NoDup_app. split_and!; [done| |apply NoDup_singleton].
    intros x Hx Hx'. apply list_elem_of_singleton in Hx'. by subst.
  - apply Forall_app. split; [done|]. apply Forall_singleton. split_and!; [done|done|]. cbn. by case_bool_decide.
  - apply one_boot_snoc; [done|]. cbn. intros H. by apply Hb, Hboot.
  - intros H. destruct (ly_Boot rl) eqn:E; [done|]. apply Forall_app. split; [by apply Hb|]. by apply Forall_singleton.
Qed.

(** The index of a name is that of a layer with it. *)
Lemma layer_index_spec layers name k : layer_index layers name = k -> 0 <= k ->
  (ly_Name <$> layers) !! Z.to_nat k = Some name.
Proof.
  unfold layer_index. intros <-.
  assert (H : fst (fold_left (fun '(i, at_) l => (i + 1, if bool_decide (ly_Name l = name) then i else at_)) layers (0, -1)) = zlen layers /\
    forall k, snd (fold_left (fun '(i, at_) l => (i + 1, if bool_decide (ly_Name l = name) then i else at_)) layers (0, -1)) = k ->
      0 <= k -> (ly_Name <$> layers) !! Z.to_nat k = Some name).
  2:{ intros Hk. by apply H. }
  induction layers as [|l layers [IH1 IH2]] using rev_ind; [split; [done|cbn; lia]|]. rewrite fold_left_app. cbn.
  destruct (fold_left _ layers (0, -1)) as [i at_]. cbn in *. split; [rewrite zlen_app, IH1, zlen_cons, zlen_nil; lia|].
  intros k <- Hk. rewrite fmap_app. case_bool_decide as E.
  - rewrite IH1 in *. unfold zlen. rewrite Nat2Z.id, lookup_app_r by by rewrite length_fmap.
    rewrite length_fmap, Nat.sub_diag. cbn. by rewrite E.
  - specialize (IH2 at_ eq_refl Hk). by apply lookup_app_l_Some.
Qed.

Lemma check_replacement_ok i layers j r : post (check_replacement i layers j r tt) (fun _ => replaces_later layers (fst r) (snd r)).
Proof.
  apply post_check. intros [H1 H2]%negb_true_iff%orb_false_iff. zbool.
  exists (Z.to_nat (layer_index layers (fst r))), (Z.to_nat (layer_index layers (snd r))).
  split; [lia|]. split; apply layer_index_spec; try done; lia.
Qed.

Definition named_sets (sets : list InstallSet) : Prop := NoDup (is_Name <$> sets) /\ Forall set_ok sets.

Lemma read_set_ok i rs sets : named_sets sets ->
  post (read_set i rs sets) (fun sets' => named_sets sets' /\ sets' <> []).
Proof.
  intros [Hn Hf]. unfold read_set.
  eapply post_bind; [apply (post_check _ _ (fun _ => rs_Layers rs <> []))|].
  { intros [_ H]%negb_true_iff%orb_false_iff. by apply bool_decide_eq_false in H. }
  intros ? Hne. cbn beta in Hne. eapply post_bind; [exact (post_check _ _ (fun _ => dir_name (rs_Name rs)) (IsDirName_ok _))|]. intros ? Hname. cbn beta in Hname.
  eapply post_bind; [apply (post_check _ _ (fun _ => rs_Name rs ∉ is_Name <$> sets)); by intros H%negb_true_iff%bool_decide_eq_false|].
  intros ? Hnew. cbn beta in Hnew.
  eapply (post_bind _ _ (fun st => layers_ok st /\ length st.2 = length (rs_Layers rs))).
  { apply (post_loop (fun pre st => layers_ok st /\ length st.2 = length pre)).
    - split; [|done]. split_and!; cbn; [apply NoDup_nil_2|done|by intros ???? H|done].
    - intros j pre x st _ [H Hl]. eapply post_mono; [by apply read_layer_ok|]. intros st' [H' Hl']. split; [done|].
      rewrite length_app. cbn. lia. }
  intros [boot layers] [(Hln & Hlf & Hlo & _) Hlen]. cbn in Hln, Hlf, Hlo, Hlen.
  eapply post_bind; [apply (post_loop_all (fun r => replaces_later layers (fst r) (snd r))); intros j r _; apply check_replacement_ok|].
  intros ? Hrep. cbn beta in Hrep. cbn. split; [|by destruct sets]. split.
  - rewrite fmap_app. apply NoDup_app. split_and!; [done| |apply NoDup_singleton].
    intros x Hx Hx'. apply list_elem_of_singleton in Hx'. by subst.
  - apply Forall_app. split; [done|]. apply Forall_singleton. split; cbn; try done.
    + intros ->. cbn in Hlen. by destruct (rs_Layers rs).
    + intros from to Hr. rewrite Forall_forall in Hrep. apply (Hrep (from, to)). by apply elem_of_map_to_list.
Qed.

Lemma InstallOrder_post sets name : post (InstallOrder sets name) (fun order => InstallOrder sets name = Ok order).
Proof. pose proof (InstallOrder_orders sets name) as H. by destruct (InstallOrder sets name). Qed.

Lemma installSets_ok getenv r r_sets : post (installSets getenv r r_sets) (fun c => sets_ok (InstallSets c)).
Proof.
  unfold installSets.
  eapply post_bind; [apply (post_check _ _ (fun _ => r_sets <> [])); by intros H%negb_true_iff%bool_decide_eq_false|]. intros ? Hne. cbn beta in Hne.
  eapply (post_bind _ _ (fun sets => named_sets sets /\ (r_sets = [] \/ sets <> []))).
  { apply (post_loop (fun pre sets => named_sets sets /\ (pre = [] \/ sets <> []))).
    - split; [|by left]. split; [apply NoDup_nil_2|apply Forall_nil_2].
    - intros j pre x sets _ [H _]. eapply post_mono; [by apply read_set_ok|]. intros sets' [H' Hs]. split; [done|by right]. }
  intros sets [[Hn Hf] Hs]. destruct Hs as [|Hs]; [done|].
  eapply post_bind.
  { apply (post_loop_all (fun s => exists order, InstallOrder sets (is_Name s) = Ok order)). intros j s _.
    eapply post_bind; [apply InstallOrder_post|]. intros order Ho. exact (ex_intro _ order Ho). }
  intros ? Ho. cbn beta in Ho. cbn. by split_and!.
Qed.

Lemma one_line_ok e : one_line e = true -> line_ok e.
Proof.
  unfold one_line. intros [H1 H2]%negb_true_iff%orb_false_iff. unfold line_ok. rewrite <- !contains_true. by rewrite H1, H2.
Qed.

Lemma token_ok_line e : token_ok e = true -> e <> [] /\ line_ok e.
Proof. unfold token_ok. intros [H%negb_true_iff%bool_decide_eq_false Hl%one_line_ok]%andb_true_iff. done. Qed.

Lemma command_ok_line c : command_ok c = true -> TrimSpace c <> [] /\ line_ok c.
Proof. unfold command_ok. intros [H%negb_true_iff%bool_decide_eq_false Hl%one_line_ok]%andb_true_iff. done. Qed.

Lemma addon_names sets name : name ∈ addon_sets sets ->
  exists s, s ∈ sets /\ is_Name s = name /\ is_Addon s = true /\ is_Enabled s = true.
Proof.
  intros (s & -> & [Hb Hin]%list_elem_of_filter)%list_elem_of_fmap. exists s.
  apply Is_true_true, andb_true_iff in Hb as [Ha He]. done.
Qed.

Definition scripts_ok (sets : list InstallSet) (scripts : list InstallScript) : Prop :=
  NoDup (sc_Name <$> scripts) /\ Forall (script_ok sets) scripts.

Lemma read_script_ok sets addons i rsc scripts : scripts_ok sets scripts ->
  post (read_script addons (addon_sets sets) i rsc scripts) (scripts_ok sets).
Proof.
  intros [Hn Hf]. unfold read_script. set (th := with_addons addons (rsc_Then rsc)).
  eapply post_bind; [by apply (post_check _ _ (fun _ => True))|]. intros _ _.
  eapply post_bind; [exact (post_check _ _ (fun _ => dir_name (rsc_Name rsc)) (IsDirName_ok _))|]. intros ? Hname. cbn beta in Hname.
  eapply post_bind; [apply (post_check _ _ (fun _ => rsc_Name rsc <> str "install")); by intros H%negb_true_iff%bool_decide_eq_false|].
  intros ? Hres. cbn beta in Hres.
  eapply post_bind; [apply (post_check _ _ (fun _ => rsc_Name rsc ∉ sc_Name <$> scripts)); by intros H%negb_true_iff%bool_decide_eq_false|].
  intros ? Hnew. cbn beta in Hnew.
  eapply post_bind; [apply (post_check _ _ (fun _ => rsc_Stream rsc ∈ streams)); by intros H%bool_decide_eq_true|]. intros ? Hstr. cbn beta in Hstr.
  eapply (post_bind _ _ (fun _ => forall t, th = Some t -> th_Sets t <> [] /\ th_Install t <> [] /\
    Forall (fun name => exists s, s ∈ sets /\ is_Name s = name /\ is_Addon s = true /\ is_Enabled s = true) (th_Sets t))).
  { destruct th as [t|]; [|by intros]. eapply post_bind; [apply (post_check _ _ (fun _ => th_Sets t <> [] /\ th_Install t <> []))|].
    { intros [H1 H2]%negb_true_iff%orb_false_iff. by apply bool_decide_eq_false in H1, H2. }
    intros ? Hne. cbn beta in Hne. eapply post_mono.
    { apply (post_loop_all (fun name => exists s, s ∈ sets /\ is_Name s = name /\ is_Addon s = true /\ is_Enabled s = true)).
      intros j name _. apply post_check. intros H%bool_decide_eq_true. exact (addon_names _ _ H). }
    intros ? Hall t' [= <-]. split; [apply Hne|]. split; [apply Hne|exact Hall]. }
  intros ? Hth. cbn beta in Hth.
  eapply post_bind; [exact (post_loop_all (fun e => e <> [] /\ line_ok e) _ _ _ _ (fun j e _ => post_check _ _ _ (token_ok_line e)))|]. intros ? Htok. cbn beta in Htok.
  eapply post_bind; [exact (post_loop_all (fun c => TrimSpace c <> [] /\ line_ok c) _ _ _ _ (fun j c _ => post_check _ _ _ (command_ok_line c)))|]. intros ? Hcmd. cbn beta in Hcmd.
  rewrite !Forall_app in Htok. destruct Htok as (Hi & Hk & Hr & Htk).
  split.
  - rewrite fmap_app. apply NoDup_app. split_and!; [done| |apply NoDup_singleton].
    intros x Hx Hx'. apply list_elem_of_singleton in Hx'. by subst.
  - apply Forall_app. split; [done|]. apply Forall_singleton. split; cbn; try done.
    + rewrite !Forall_app. by split_and!.
    + intros t Ht. destruct (Hth t Ht) as (H1 & H2 & H3). by rewrite Ht in Htk.
Qed.

Lemma read_client_ok i rc clients :
  Forall (fun cl => zlen (c_Hostname cl) <= maxHostname /\ forallb hostname_rune (c_Hostname cl) = true) clients ->
  post (read_client i rc clients) (fun cs => cs <> [] /\
    Forall (fun cl => zlen (c_Hostname cl) <= maxHostname /\ forallb hostname_rune (c_Hostname cl) = true) cs).
Proof.
  intros Hf. unfold read_client. destruct (ParseMAC _) as [mac|]; [|done]. destruct (ParseAddr _) as [a|]; [|done].
  eapply post_bind; [apply (post_check _ _ (fun _ => checkHostname (rc_Host rc) = true)); done|]. intros ? Hh. cbn beta in Hh.
  unfold checkHostname in Hh. zbool. split; [by destruct clients|]. apply Forall_app. split; [done|]. by apply Forall_singleton.
Qed.

Lemma loadAddons_post decodeAddon readFile dir r : post (loadAddons decodeAddon readFile dir r) (fun _ => True).
Proof.
  unfold loadAddons. destruct (r_Addons r) as [|a l]; [done|]. eapply post_bind; [|by intros [sets th] H].
  apply (post_loop (fun _ _ => True)); [done|]. intros j pre x [sets th] _ _. unfold load_addon.
  destruct (readFile _); [|done]. destruct (decodeAddon _); [|done]. eapply post_bind; [by apply (post_check _ _ (fun _ => True))|done].
Qed.

Lemma ParseIn_accepts unmarshal decodeAddon readFile getenv b dir :
  post (ParseIn unmarshal decodeAddon readFile getenv b dir) config_ok.
Proof.
  unfold ParseIn. destruct (unmarshal b) as [r|]; [|done].
  eapply post_bind; [apply loadAddons_post|]. intros [addons r_sets] _.
  eapply post_bind; [apply installSets_ok|]. intros c Hsets. cbn beta in Hsets.
  eapply post_bind; [by apply (post_check _ _ (fun _ => True))|]. intros _ _.
  eapply (post_bind _ _ (fun _ => True)); [by destruct (ParseAddr _)|]. intros server _.
  eapply (post_bind _ _ (fun id => id = noAddr \/ Is4 id = true)).
  { case_bool_decide; [by left|]. destruct (ParseAddr _) as [a|]; [|done]. destruct (Is4 a) eqn:E; [by right|done]. }
  intros id Hid. eapply (post_bind _ _ (fun m => forall p, m = Some p -> 0 <= p_bits p <= if Is6 (p_addr p) then 128 else 32)).
  { case_bool_decide; [done|]. destruct (ParsePrefix _) as [p|] eqn:E; [|done]. intros p' [= <-]. by apply ParsePrefix_bits in E. }
  intros netmask Hmask.
  eapply post_bind; [apply (post_check _ _ (fun _ => r_Clients r <> [])); by intros H%negb_true_iff%bool_decide_eq_false|].
  intros ? Hne. cbn beta in Hne.
  eapply (post_bind _ _ (fun cs => (r_Clients r = [] \/ cs <> []) /\
    Forall (fun cl => zlen (c_Hostname cl) <= maxHostname /\ forallb hostname_rune (c_Hostname cl) = true) cs)).
  { apply (post_loop (fun pre cs => (pre = [] \/ cs <> []) /\
      Forall (fun cl => zlen (c_Hostname cl) <= maxHostname /\ forallb hostname_rune (c_Hostname cl) = true) cs)).
    - split; [by left|apply Forall_nil_2].
    - intros j pre x cs _ [_ H]. eapply post_mono; [by apply read_client_ok|]. intros cs' [H1 H2]. split; [by right|done]. }
  intros clients [Hcl Hhosts]. destruct Hcl as [|Hcl]; [done|].
  eapply post_bind; [by apply (post_check _ _ (fun _ => True))|]. intros _ _.
  eapply (post_bind _ _ (scripts_ok (InstallSets c))).
  { apply (post_loop (fun _ => scripts_ok (InstallSets c))); [split; [apply NoDup_nil_2|apply Forall_nil_2]|].
    intros j pre x scripts _. apply read_script_ok. }
  intros scripts Hscripts. by split.
Qed.

(** C10. A configuration that is accepted is well formed, and reading one never panics. *)
Theorem ParseIn_ok unmarshal decodeAddon readFile getenv b dir :
  post (ParseIn unmarshal decodeAddon readFile getenv b dir) config_ok.
Proof. apply ParseIn_accepts. Qed.
