(* ===== verification/Idb.v ===== *)
(** The manifest of an IRIX inst product ([inst/idb.go]): its lines, their
    attributes and subsystem, and the entries a text of them holds. *)
From S2P Require Import Prelude Text Strconv Strings.

Record Entry := MkEntry {
  Type_ : Z;
  Mode : Z;
  Owner : bytes;
  Group : bytes;
  Path : bytes;
  Source : bytes;
  Subsystem : bytes;
  Offset : Z;
  Size : Z;
  CmpSize : Z;
  Symlink : bytes;
  Mach : bytes;
  Attrs : gmap bytes bytes;
  Flags : list bytes;
}.

#[export] Instance Entry_eq_dec : EqDecision Entry.
Proof. solve_decision. Defined.

(** Why a line does not parse: the code says it in words. *)
Inductive reason :=
| TooFewFields (n : Z)
| UnknownType (f : bytes)
| BadMode (f : bytes)
| Unterminated (key : bytes)
| NotClosed (key : bytes)
| NotDecimal (key value : bytes).

Record BadLine := MkBadLine { Line : Z; Text_ : bytes; Reason : reason }.

(** [Entry.Image]. *)
Definition Image (e : Entry) : bytes :=
  match split_byte dot (Subsystem e) with _ :: image :: _ :: _ => image | _ => str "sw" end.

(** [Entry.Stored]. *)
Definition Stored (e : Entry) : Z := if CmpSize e =? 0 then Size e else CmpSize e.

(** ** Attributes and words *)

Definition isWord (c : Z) : bool :=
  (c =? 95) || in_range 48 57 c || in_range 97 122 c || in_range 65 90 c.

Definition blank (c : Z) : bool := (c =? space) || (c =? tab).

Definition lparen : Z := 40.
Definition rparen : Z := 41.

(** [scanTail]: what is left of the tail, the attributes and the words so far. *)
Fixpoint scan_tail (fuel : nat) (tail : bytes) (attrs : gmap bytes bytes) (words : list bytes)
    : (gmap bytes bytes * list bytes) + reason :=
  match fuel, tail with
  | S fuel, c :: t =>
      if blank c then scan_tail fuel t attrs words
      else
        let key := take_while isWord tail in
        let word :=
          let w := take_while (fun c => negb (blank c)) tail in
          scan_tail fuel (drop_while (fun c => negb (blank c)) tail) attrs (words ++ [w]) in
        match key, drop_while isWord tail with
        | _ :: _, l :: v =>
            if negb (l =? lparen) then word
            else match v with
            | q :: v' =>
                if q =? dquote then
                  match cut dquote v' with
                  | (_, None) => inr (Unterminated key)
                  | (s, Some rest) =>
                      match rest with
                      | r :: rest =>
                          if r =? rparen
                          then scan_tail fuel rest (<[key := dquote :: s ++ [dquote]]> attrs) words
                          else inr (NotClosed key)
                      | [] => inr (NotClosed key)
                      end
                  end
                else match cut rparen v with
                     | (_, None) => word
                     | (s, Some rest) => scan_tail fuel rest (<[key := s]> attrs) words
                     end
            | [] => word
            end
        | _, _ => word
        end
  | _, _ => inl (attrs, words)
  end.

Definition scanTail (tail : bytes) : (gmap bytes bytes * list bytes) + reason :=
  scan_tail (length tail) tail ∅ [].

Definition dotted (w : bytes) : bool := contains w dot.

(** [splitSubsystem]: the last dotted word, or the first. *)
Fixpoint last_dotted (words : list bytes) : option nat :=
  match words with
  | [] => None
  | w :: words =>
      match last_dotted words with
      | Some i => Some (S i)
      | None => if dotted w then Some 0%nat else None
      end
  end.

Definition splitSubsystem (words : list bytes) : bytes * list bytes :=
  match words with
  | [] => ([], [])
  | _ =>
      let idx := default 0%nat (last_dotted words) in
      (default [] (words !! idx), take idx words ++ drop (S idx) words)
  end.

(** ** Lines *)

Definition types : bytes := str "fdlbcpsX".
Definition digits : bytes := str "0123456789".

(** The text after the first [n] words. *)
Fixpoint after_words (n : nat) (tail : bytes) : bytes :=
  match n with
  | O => tail
  | S n =>
      match drop_while (fun c => negb (blank c)) (drop_while blank tail) with
      | [] => []
      | rest => after_words n rest
      end
  end.

(** A number attribute, [dflt] when there is none. *)
Definition number_attr (attrs : gmap bytes bytes) (key : bytes) (dflt : Z) : Z + reason :=
  match attrs !! key with
  | None => inl dflt
  | Some v =>
      match ParseInt v with
      | Ok n => if bool_decide (Trim v digits = []) then inl n else inr (NotDecimal key v)
      | _ => inr (NotDecimal key v)
      end
  end.

(** What [parseLine] makes of a line. *)
Inductive parsed := Skip | Bad (r : reason) | Good (e : Entry).

Definition parse_tail (ty mode : Z) (owner group path source tail : bytes) : parsed :=
  match scanTail tail with
  | inr r => Bad r
  | inl (attrs, words) =>
      match number_attr attrs (str "off") (-1) with
      | inr r => Bad r
      | inl off =>
          match number_attr attrs (str "size") 0 with
          | inr r => Bad r
          | inl size =>
              match number_attr attrs (str "cmpsize") 0 with
              | inr r => Bad r
              | inl cmpsize =>
                  let '(subsystem, flags) := splitSubsystem words in
                  Good (MkEntry ty mode owner group path source subsystem off size cmpsize
                    (default [] (attrs !! str "symval")) (default [] (attrs !! str "mach")) attrs flags)
              end
          end
      end
  end.

Definition parseLine (text : bytes) : parsed :=
  let trim := TrimSpace text in
  match trim with
  | [] => Skip
  | c :: _ =>
      if c =? 35 then Skip
      else match Fields trim with
      | f0 :: f1 :: f2 :: f3 :: f4 :: f5 :: _ =>
          match f0 with
          | [ty] =>
              if negb (contains types ty) then Bad (UnknownType f0)
              else match ParseUint8 32 f1 with
                   | Ok mode => parse_tail ty mode f2 f3 f4 f5 (after_words 6 trim)
                   | _ => Bad (BadMode f1)
                   end
          | _ => Bad (UnknownType f0)
          end
      | fs => Bad (TooFewFields (zlen fs))
      end
  end.

(** ** Manifests *)

(** [bufio.Reader.ReadString]: what is up to the newline and it, or all there is
    and how it ends. *)
Definition read_string (s : stream) : bytes * option io_err * stream :=
  match cut newline (sdata s) with
  | (l, Some rest) => (l ++ [newline], None, MkStream rest (sfail s))
  | (l, None) => (l, Some (stream_end s), MkStream [] (sfail s))
  end.

Definition parse_text (n : Z) (line : bytes) : list Entry * list BadLine :=
  if bool_decide (line = []) then ([], [])
  else
    let text := TrimRight line [carriage; newline] in
    match parseLine text with
    | Skip => ([], [])
    | Bad r => ([], [MkBadLine n text r])
    | Good e => ([e], [])
    end.

Fixpoint parse_loop (fuel : nat) (n : Z) (s : stream) : outcome stuck (list Entry * list BadLine * option io_err) :=
  match fuel with
  | O => Err OutOfFuel
  | S fuel =>
      let '(line, e, s) := read_string s in
      match e with
      | Some (OtherIO c) => Ok ([], [], Some (OtherIO c))
      | Some UnexpectedEOF => Ok ([], [], Some UnexpectedEOF)
      | _ =>
          let '(es, bs) := parse_text n line in
          match e with
          | Some _ => Ok (es, bs, None)
          | None =>
              match parse_loop fuel (n + 1) s with
              | Ok (es', bs', e) => Ok (es ++ es', bs ++ bs', e)
              | r => r
              end
          end
      end
  end.

(** [ParseIDB]: every turn but the last reads a newline. *)
Definition ParseIDB (s : stream) : outcome stuck (list Entry * list BadLine * option io_err) :=
  parse_loop (S (length (sdata s))) 1 s.

(** ** Writing a manifest

    A line as the vendor's tools write it: six words and a tail of attributes
    and bare words in any order. *)
Inductive token := Attr (k v : bytes) | Bare (w : bytes).

Definition print_token (t : token) : bytes :=
  match t with Attr k v => k ++ lparen :: v ++ [rparen] | Bare w => w end.

Definition print_line (e : Entry) (ts : list token) : bytes :=
  [Type_ e] ++ spaced ([oct (Mode e); Owner e; Group e; Path e; Source e] ++ (print_token <$> ts)).

Definition tok_attrs (ts : list token) : gmap bytes bytes :=
  foldl (fun m t => match t with Attr k v => <[k := v]> m | Bare _ => m end) ∅ ts.

Definition tok_words (ts : list token) : list bytes :=
  omap (fun t => match t with Bare w => Some w | Attr _ _ => None end) ts.

(** A value holds no closing parenthesis, or is quoted and holds no other
    quote. A line holds no newline. *)
Definition value_ok (v : bytes) : Prop :=
  newline ∉ v /\ ((rparen ∉ v /\ head v <> Some dquote) \/ exists q, v = dquote :: q ++ [dquote] /\ dquote ∉ q).

Definition token_ok (t : token) : Prop :=
  match t with
  | Attr k v => k <> [] /\ Forall (fun c => isWord c = true) k /\ value_ok v
  | Bare w => word w /\ lparen ∉ w
  end.

(** The number of an entry is what its attribute says. *)
Definition number_ok (attrs : gmap bytes bytes) (key : bytes) (dflt n : Z) : Prop :=
  match attrs !! key with None => n = dflt | Some v => v = dec n /\ 0 <= n < 2 ^ 63 end.

(** An entry and a tail that writes it. The subsystem is the last dotted word,
    wherever it stands. *)
Record writes (e : Entry) (ts : list token) : Prop := {
  wr_type : Type_ e ∈ types;
  wr_mode : 0 <= Mode e < 2 ^ 32;
  wr_words : Forall word [Owner e; Group e; Path e; Source e];
  wr_tokens : Forall token_ok ts;
  wr_attrs : Attrs e = tok_attrs ts;
  wr_off : number_ok (Attrs e) (str "off") (-1) (Offset e);
  wr_size : number_ok (Attrs e) (str "size") 0 (Size e);
  wr_cmpsize : number_ok (Attrs e) (str "cmpsize") 0 (CmpSize e);
  wr_symlink : Symlink e = default [] (Attrs e !! str "symval");
  wr_mach : Mach e = default [] (Attrs e !! str "mach");
  wr_subsystem : dotted (Subsystem e) = true;
  wr_flags : exists l r, tok_words ts = l ++ Subsystem e :: r /\ Flags e = l ++ r /\
    Forall (fun w => dotted w = false) r;
}.

(** ** Facts *)

Lemma dotted_last l s r : dotted s = true -> Forall (fun w => dotted w = false) r ->
  last_dotted (l ++ s :: r) = Some (length l).
Proof.
  intros Hs Hr. induction l as [|w l IH]; cbn; [|by rewrite IH].
  assert (last_dotted r = None) as ->; [|by rewrite Hs].
  clear -Hr. induction Hr as [|w r Hw Hr IH]; cbn; [done|]. by rewrite IH, Hw.
Qed.

Lemma splitSubsystem_dotted l s r : dotted s = true -> Forall (fun w => dotted w = false) r ->
  splitSubsystem (l ++ s :: r) = (s, l ++ r).
Proof.
  intros Hs Hr. unfold splitSubsystem. rewrite dotted_last by done.
  destruct (l ++ s :: r) eqn:E; [by destruct l|]. rewrite <- E. cbn [default from_option]. unfold id.
  rewrite list_lookup_middle by done. rewrite take_app_length. cbn. f_equal. f_equal.
  rewrite cons_middle, app_assoc. rewrite drop_app_ge by (rewrite length_app; cbn; lia).
  rewrite length_app. cbn. by rewrite Nat.add_1_r, Nat.sub_diag, drop_0.
Qed.

Lemma isWord_props c : isWord c = true -> blank c = false /\ (c =? lparen) = false /\ graphic c = true.
Proof.
  unfold isWord, blank, graphic, in_range, space, tab, lparen.
  rewrite !orb_true_iff, !andb_true_iff, !Z.leb_le, Z.eqb_eq.
  intros H. rewrite orb_false_iff, !Z.eqb_neq. lia.
Qed.

Lemma graphic_not_blank c : graphic c = true -> negb (blank c) = true.
Proof.
  intros H%graphic_range. unfold blank, space, tab.
  by rewrite (proj2 (Z.eqb_neq c 32)), (proj2 (Z.eqb_neq c 9)) by lia.
Qed.

(** The tail after a token: nothing, or a space. *)
Definition ends (tail : bytes) : Prop := forall c t, tail = c :: t -> c = space.

Lemma ends_spaced ws : ends (spaced ws).
Proof. destruct ws; intros c t; cbn; [done|]. by intros [= -> _]. Qed.

Lemma cut_value q v rest : q ∉ v -> cut q (v ++ q :: rest) = (v, Some rest).
Proof. apply cut_app. Qed.

Lemma scan_attr fuel k v tail attrs words :
  token_ok (Attr k v) ->
  scan_tail (S fuel) (print_token (Attr k v) ++ tail) attrs words = scan_tail fuel tail (<[k := v]> attrs) words.
Proof.
  intros (Hk0 & Hk & _ & Hv). destruct k as [|c k]; [done|]. clear Hk0.
  cbn [print_token app]. rewrite <- app_assoc. cbn [app]. rewrite <- app_assoc. cbn [app].
  set (rest := v ++ rparen :: tail).
  destruct (take_while_app isWord (c :: k) (lparen :: rest)) as [Ht Hd]; [done|by intros ? ? [= <- _]|].
  cbn [app] in Ht, Hd. inv Hk. cbn [scan_tail]. rewrite Ht, Hd.
  destruct (isWord_props c) as (-> & _); [done|]. rewrite Z.eqb_refl. cbn [negb]. subst rest.
  destruct Hv as [[Hr Hq]|(q & -> & Hq)].
  - destruct v as [|x v]; [done|]. cbn [app]. cbn in Hq.
    rewrite (proj2 (Z.eqb_neq x dquote)) by congruence. rewrite app_comm_cons. by rewrite cut_app.
  - cbn [app]. rewrite Z.eqb_refl, <- app_assoc. cbn [app]. rewrite cut_app by done. by rewrite Z.eqb_refl.
Qed.

Lemma drop_while_app f a b : (exists c, c ∈ a /\ f c = false) -> drop_while f (a ++ b) = drop_while f a ++ b.
Proof.
  intros (c & Hc & Hf). induction a as [|x a IH]; [by apply not_elem_of_nil in Hc|]. cbn.
  destruct (f x) eqn:E; [|done]. apply IH. apply elem_of_cons in Hc as [->|]; [congruence|done].
Qed.

Lemma drop_while_head (f : Z -> bool) a c t : drop_while f a = c :: t -> c ∈ a.
Proof.
  induction a as [|x a IH]; cbn; [done|]. destruct (f x); [right; by apply IH|]. intros [= -> _]. left.
Qed.

(** A word without a parenthesis is not taken for an attribute. *)
Lemma scan_word fuel w tail attrs words : token_ok (Bare w) -> ends tail ->
  scan_tail (S fuel) (w ++ tail) attrs words = scan_tail fuel tail attrs (words ++ [w]).
Proof.
  intros [[Hw0 Hw] Hp] Htl. destruct w as [|c w]; [done|]. clear Hw0.
  destruct (take_while_app (fun c => negb (blank c)) (c :: w) tail) as [Ht Hd].
  { eapply Forall_impl; [exact Hw|]. apply graphic_not_blank. }
  { intros x t Ex. by rewrite (Htl x t Ex). }
  inv Hw. assert (Hb : blank c = false) by (apply negb_true_iff, graphic_not_blank; done).
  cbn [app] in Ht, Hd. cbn [scan_tail app]. rewrite Hb, Ht, Hd.
  assert (Hrest : forall l v, drop_while isWord (c :: w ++ tail) = l :: v -> (l =? lparen) = false).
  { intros l v E. apply Z.eqb_neq. intros ->. rewrite app_comm_cons in E.
    destruct (decide (Exists (fun c => isWord c = false) (c :: w))) as [Hx|Hx].
    - rewrite drop_while_app in E by (apply Exists_exists in Hx as (? & ? & ?); eauto).
      destruct (drop_while isWord (c :: w)) as [|y ys] eqn:Ey.
      + cbn in E. pose proof (Htl _ _ E). done.
      + injection E as -> _. apply drop_while_head in Ey. done.
    - destruct (take_while_app isWord (c :: w) tail) as [_ Hd'].
      { apply Forall_forall. intros x Hx'. destruct (isWord x) eqn:Ex; [done|].
        destruct Hx. apply Exists_exists. eauto. }
      { intros x t Ex. by rewrite (Htl x t Ex). }
      rewrite E in Hd'. pose proof (Htl _ _ (eq_sym Hd')). done. }
  destruct (take_while isWord _) as [|k ks]; [done|].
  destruct (drop_while isWord _) as [|l v] eqn:E; [done|]. by rewrite (Hrest l v).
Qed.

Lemma scan_spaced ts fuel attrs words : Forall token_ok ts ->
  (2 * length ts <= fuel)%nat ->
  scan_tail fuel (spaced (print_token <$> ts)) attrs words =
  inl (foldl (fun m t => match t with Attr k v => <[k := v]> m | Bare _ => m end) attrs ts, words ++ tok_words ts).
Proof.
  intros Hts. revert fuel attrs words. induction Hts as [|t ts Ht Hts IH]; intros fuel attrs words Hf.
  { cbn. rewrite app_nil_r. by destruct fuel. }
  destruct fuel as [|[|fuel]]; [cbn in Hf; lia..|]. cbn in Hf.
  unfold spaced. rewrite !fmap_cons, mjoin_cons. fold (spaced (print_token <$> ts)).
  cbn [app]. remember (S fuel) as m. cbn [scan_tail]. change (blank space) with true. cbn iota. subst m.
  destruct t as [k v|w].
  - rewrite scan_attr by done. rewrite IH by lia. done.
  - cbn [print_token]. rewrite scan_word by (done || apply ends_spaced). rewrite IH by lia.
    by rewrite <- app_assoc.
Qed.

Lemma spaced_cons w ws rest : spaced (w :: ws) ++ rest = space :: w ++ spaced ws ++ rest.
Proof. unfold spaced. rewrite fmap_cons, mjoin_cons. cbn. by rewrite <- app_assoc. Qed.

Lemma fields_prefix ws rest fuel cur : Forall word ws -> ends rest -> cur <> [] ->
  (length (spaced ws ++ rest) <= fuel)%nat ->
  exists fs, fields_from fuel (spaced ws ++ rest) cur = cur :: ws ++ fs.
Proof.
  intros Hws Hr. revert fuel cur. induction Hws as [|w ws [Hw0 Hw] Hws IH]; intros fuel cur Hc Hf.
  { cbn. destruct rest as [|c t].
    - exists []. destruct fuel; cbn; by rewrite bool_decide_false.
    - rewrite (Hr c t eq_refl) in *. destruct fuel as [|fuel]; [cbn in Hf; lia|].
      eexists. cbn [fields_from]. rewrite decode_ascii by done. change (IsSpace space) with true.
      rewrite bool_decide_false by done. reflexivity. }
  rewrite spaced_cons in *. destruct fuel as [|fuel]; [cbn in Hf; lia|].
  cbn [app fields_from]. rewrite decode_ascii by done. change (IsSpace space) with true. cbn [drop].
  rewrite bool_decide_false by done. cbn [length] in Hf. rewrite length_app in Hf.
  rewrite drop_0, fields_word by (done || lia).
  destruct (IH (fuel - length w)%nat ([] ++ w)) as [fs Hfs]; [done|lia|].
  rewrite Hfs. by exists fs.
Qed.

Lemma drop_blank_word w rest : word w -> drop_while blank (w ++ rest) = w ++ rest.
Proof.
  intros [Hw0 Hw]. destruct w as [|c w]; [done|]. cbn. inv Hw.
  assert (blank c = false) as -> by (apply negb_true_iff, graphic_not_blank; done). done.
Qed.

Lemma after_word n w rest : word w -> ends rest ->
  after_words (S n) (w ++ rest) = match rest with [] => [] | _ => after_words n rest end.
Proof.
  intros Hw Hr. cbn [after_words]. rewrite drop_blank_word by done.
  destruct (take_while_app (fun c => negb (blank c)) w rest) as [_ ->].
  - eapply Forall_impl; [apply Hw|]. apply graphic_not_blank.
  - intros c t E. by rewrite (Hr c t E).
  - by destruct rest.
Qed.

Lemma after_spaced ws rest : Forall word ws -> ends rest -> after_words (length ws) (spaced ws ++ rest) = rest.
Proof.
  intros Hws Hr. induction Hws as [|w ws Hw Hws IH]; [done|].
  rewrite spaced_cons. cbn [length].
  assert (Hsp : forall n s, after_words (S n) (space :: s) = after_words (S n) s) by done.
  rewrite Hsp, after_word; [|done|].
  - rewrite IH. by destruct ws, rest.
  - destruct ws; [done|]. intros c t; cbn. by intros [= <- _].
Qed.

Lemma spaced_app ws ws' : spaced (ws ++ ws') = spaced ws ++ spaced ws'.
Proof. unfold spaced. by rewrite fmap_app, join_app. Qed.

Lemma spaced_last ws w b : last ws = Some w -> last w = Some b -> exists s, spaced ws = s ++ [b].
Proof.
  intros [ws' ->]%last_Some [w' ->]%last_Some. rewrite spaced_app.
  exists (spaced ws' ++ space :: w'). unfold spaced at 2. cbn. by rewrite <- !app_assoc.
Qed.

Lemma token_last t : token_ok t -> exists b, last (print_token t) = Some b /\ graphic b = true.
Proof.
  destruct t as [k v|w]; cbn [token_ok print_token].
  - intros _. exists rparen. split; [|done]. by rewrite app_comm_cons, app_assoc, last_snoc.
  - intros [[Hw0 Hw] _]. destruct (last w) as [b|] eqn:E; [|by apply last_None in E].
    exists b. split; [done|]. rewrite Forall_forall in Hw. apply Hw. by apply last_Some_elem_of.
Qed.

Lemma word_last w : word w -> exists b, last w = Some b /\ graphic b = true.
Proof.
  intros [Hw0 Hw]. destruct (last w) as [b|] eqn:E; [|by apply last_None in E].
  exists b. split; [done|]. rewrite Forall_forall in Hw. apply Hw. by apply last_Some_elem_of.
Qed.

Lemma types_graphic c : c ∈ types -> graphic c = true /\ (c =? 35) = false /\ contains types c = true.
Proof.
  intros H. split; [|split; [|by apply bool_decide_eq_true]].
  - cbn in H. set_unfold in H. by destruct_or!; subst.
  - apply Z.eqb_neq. intros ->. cbn in H. set_unfold in H. by destruct_or!.
Qed.

Lemma digits_eq : digits = [48; 49; 50; 51; 52; 53; 54; 55; 56; 57].
Proof. reflexivity. Qed.

Lemma number_attr_ok attrs key dflt n : number_ok attrs key dflt n -> number_attr attrs key dflt = inl n.
Proof.
  unfold number_ok, number_attr. destruct (attrs !! key) as [v|]; [|congruence].
  intros [-> Hn]. unfold ParseInt. rewrite Atoi_dec by lia. rewrite bool_decide_true; [done|].
  assert (Hd : forall s : bytes, Forall (fun c => is_digit c = true) s -> drop_while (contains digits) s = []).
  { induction 1 as [|c s Hc Hs IH]; [done|]. cbn [drop_while].
    assert (contains digits c = true) as ->; [|done]. apply bool_decide_eq_true.
    unfold is_digit, in_range in Hc. rewrite andb_true_iff, !Z.leb_le in Hc. rewrite digits_eq. set_unfold. lia. }
  unfold Trim, TrimLeft, TrimRight. by rewrite (Hd (dec n)) by apply dec_is_digits.
Qed.

Lemma line_ends e ts : writes e ts -> exists s b, print_line e ts = Type_ e :: s ++ [b] /\ graphic b = true.
Proof.
  intros Hw. assert (exists w b, last ([oct (Mode e); Owner e; Group e; Path e; Source e] ++ (print_token <$> ts)) = Some w
    /\ last w = Some b /\ graphic b = true) as (w & b & Hl & Hb & Hg).
  { destruct (last ts) as [t|] eqn:E.
    - apply last_Some in E as [ts' ->]. exists (print_token t).
      pose proof (wr_tokens _ _ Hw) as Ht. apply Forall_app in Ht as [_ Ht]. inv Ht.
      destruct (token_last t) as (b & ? & ?); [done|]. exists b. split; [|done].
      rewrite fmap_app, app_assoc. apply last_snoc.
    - apply last_None in E as ->. exists (Source e). cbn [last fmap list_fmap app].
      destruct (word_last (Source e)) as (b & ? & ?); [|by exists b].
      pose proof (wr_words _ _ Hw) as H. by repeat (apply Forall_cons in H as [? H]). }
  destruct (spaced_last _ w b Hl Hb) as [s Hs]. exists s, b. split; [|done]. unfold print_line. by rewrite Hs.
Qed.

(** The line of an entry parses to that entry. *)
Lemma parse_print e ts : writes e ts -> parseLine (print_line e ts) = Good e.
Proof.
  intros Hw. destruct (types_graphic _ (wr_type _ _ Hw)) as (Hg & Hh & Hty).
  destruct (line_ends e ts Hw) as (s & b & Hs & Hb).
  assert (Htrim : TrimSpace (print_line e ts) = print_line e ts) by (rewrite Hs; by apply TrimSpace_id).
  set (five := [oct (Mode e); Owner e; Group e; Path e; Source e]).
  assert (Hfive : Forall word five) by (constructor; [apply oct_word|apply wr_words with ts; done]).
  assert (Hline : print_line e ts = [Type_ e] ++ spaced five ++ spaced (print_token <$> ts)) by
    (unfold print_line; by rewrite spaced_app).
  assert (Hone : word [Type_ e]) by (split; [done|by apply Forall_singleton]).
  assert (exists fs, Fields (print_line e ts) = [Type_ e] :: five ++ fs) as [fs Hf].
  { rewrite Hline. unfold Fields. rewrite fields_word by (apply Hone || (rewrite length_app; cbn; lia)).
    apply fields_prefix; [done|apply ends_spaced|done|]. rewrite !length_app. cbn. lia. }
  assert (Hafter : after_words 6 (print_line e ts) = spaced (print_token <$> ts)).
  { rewrite Hline, after_word by (done || by intros ? ? [= <- _]). apply (after_spaced five); [done|apply ends_spaced]. }
  unfold parseLine. rewrite Htrim, Hf, Hafter. rewrite Hs at 1. rewrite Hh. cbn [app]. subst five.
  cbn [app]. rewrite Hty. cbn [negb]. rewrite ParseUint8_oct by apply Hw.
  unfold parse_tail, scanTail. rewrite scan_spaced; [|apply Hw|].
  - fold (tok_attrs ts). rewrite <- (wr_attrs _ _ Hw). rewrite !(number_attr_ok _ _ _ _) by apply Hw.
    destruct (wr_flags _ _ Hw) as (l & r & -> & Hfl & Hr). cbn [app].
    rewrite splitSubsystem_dotted by (done || apply Hw). rewrite <- Hfl, <- (wr_symlink _ _ Hw), <- (wr_mach _ _ Hw).
    by destruct e.
  - pose proof (wr_tokens _ _ Hw) as Ht. clear -Ht. induction Ht as [|t ts Ht Hts IH]; [cbn; lia|].
    unfold spaced in *. rewrite !fmap_cons, mjoin_cons, length_app. cbn [length].
    assert (0 < length (print_token t))%nat; [|lia].
    destruct (token_last t Ht) as (b & Hb & _). destruct (print_token t); [done|cbn; lia].
Qed.

(** ** Texts *)

Lemma trim_line l : (forall b, last l = Some b -> b <> carriage /\ b <> newline) ->
  TrimRight (l ++ [newline]) [carriage; newline] = l.
Proof.
  intros H. unfold TrimRight. rewrite reverse_snoc. cbn [drop_while].
  assert (contains [carriage; newline] newline = true) as -> by done.
  destruct (reverse l) as [|c t] eqn:E; cbn [drop_while].
  { apply (f_equal reverse) in E. rewrite reverse_involutive in E. by subst. }
  assert (Hl : l = reverse t ++ [c]) by (rewrite <- reverse_cons, <- E; by rewrite reverse_involutive).
  destruct (H c) as [H1 H2]; [by rewrite Hl, last_snoc|].
  assert (contains [carriage; newline] c = false) as ->.
  { apply bool_decide_eq_false. set_unfold. naive_solver. }
  by rewrite Hl, reverse_cons.
Qed.

Lemma parse_loop_lines ls fuel n : Forall (fun l => newline ∉ l) ls -> (length (unlines ls) < fuel)%nat ->
  parse_loop fuel n (MkStream (unlines ls) None) =
  Ok (mjoin ((fun l => (parse_text n (l ++ [newline])).1) <$> ls),
      mjoin (imap (fun i l => (parse_text (n + Z.of_nat i) (l ++ [newline])).2) ls), None).
Proof.
  intros Hls. revert fuel n. induction Hls as [|l ls Hl Hls IH]; intros fuel n Hf.
  { destruct fuel as [|fuel]; [cbn in Hf; lia|]. done. }
  destruct fuel as [|fuel]; [cbn in Hf; lia|]. cbn [parse_loop]. unfold read_string. cbn [sdata sfail].
  change (unlines (l :: ls)) with (terminated newline (l :: ls)) in *. rewrite terminated_cons in *.
  change (terminated newline ls) with (unlines ls) in *. rewrite cut_app by done.
  rewrite length_app in Hf. cbn [length] in Hf.
  destruct (parse_text n (l ++ [newline])) as [es bs] eqn:Ep. rewrite IH by lia.
  assert (Hn : forall m l, (parse_text m l).1 = (parse_text n l).1).
  { intros m k. unfold parse_text. destruct (bool_decide (k = [])); [done|].
    by destruct (parseLine (TrimRight k [carriage; newline])). }
  rewrite fmap_cons, mjoin_cons, imap_cons, mjoin_cons, Z.add_0_r, Ep. cbn [fst snd]. f_equal. f_equal. f_equal.
  - f_equal. f_equal. apply list_fmap_ext. intros i x _. by rewrite Hn.
  - f_equal. f_equal. apply imap_ext. intros i x _. cbn. do 2 f_equal. lia.
Qed.

Lemma parse_text_print n e ts : writes e ts -> parse_text n (print_line e ts ++ [newline]) = ([e], []).
Proof.
  intros Hw. unfold parse_text. rewrite bool_decide_false by done.
  rewrite trim_line; [by rewrite parse_print|].
  destruct (line_ends e ts Hw) as (s & b & -> & Hb). intros c. rewrite app_comm_cons, last_snoc. intros [= <-].
  apply graphic_range in Hb. unfold carriage, newline. lia.
Qed.

Lemma word_no_newline w : word w -> newline ∉ w.
Proof.
  intros [_ Hw] Hin. rewrite Forall_forall in Hw. apply Hw in Hin. done.
Qed.

Lemma print_line_one e ts : writes e ts -> newline ∉ print_line e ts.
Proof.
  intros Hw. unfold print_line. destruct (types_graphic _ (wr_type _ _ Hw)) as [Hg _].
  assert (Hall : Forall (fun w => newline ∉ w)
    ([oct (Mode e); Owner e; Group e; Path e; Source e] ++ (print_token <$> ts))).
  { apply Forall_app. split.
    - constructor; [apply word_no_newline, oct_word|]. eapply Forall_impl; [apply (wr_words _ _ Hw)|].
      apply word_no_newline.
    - apply Forall_fmap. eapply Forall_impl; [apply (wr_tokens _ _ Hw)|]. intros [k v|w]; cbn [token_ok compose print_token].
      + intros (_ & Hk & Hv & _). rewrite elem_of_app, elem_of_cons, elem_of_app.
        rewrite list_elem_of_singleton. unfold lparen, rparen. intros [Hin|[|[|]]]; try done.
        rewrite Forall_forall in Hk. by apply Hk in Hin.
      + intros [Hw' _]. by apply word_no_newline. }
  cbn [app]. rewrite elem_of_cons. intros [Heq|Hin].
  { rewrite <- Heq in Hg. done. }
  unfold spaced in Hin. apply list_elem_of_join in Hin as (l & Hl & (w & -> & Hin)%list_elem_of_fmap).
  apply elem_of_cons in Hl as [|Hl]; [done|]. rewrite Forall_forall in Hall. by apply (Hall w).
Qed.

(** What each line is read as. *)
Lemma manifest_reads (ws : list (Entry * list token)) :
  Forall (fun w => writes w.1 w.2) ws ->
  ParseIDB (MkStream (unlines ((fun w => print_line w.1 w.2) <$> ws)) None) = Ok (ws.*1, [], None).
Proof.
  intros Hws. unfold ParseIDB. cbn [sdata]. rewrite parse_loop_lines; [|apply Forall_fmap|lia].
  2:{ eapply Forall_impl; [exact Hws|]. intros w. apply print_line_one. }
  rewrite <- list_fmap_compose, imap_fmap. f_equal. f_equal. f_equal.
  - induction Hws as [|w ws Hw Hws IH]; [done|]. rewrite !fmap_cons, mjoin_cons, IH. cbn [compose].
    by rewrite parse_text_print.
  - generalize 1 at 1. induction Hws as [|w ws Hw Hws IH]; intros n; [done|].
    rewrite imap_cons, mjoin_cons. cbn [compose]. rewrite parse_text_print by done. cbn [snd app].
    rewrite <- (IH (n + 1)). f_equal. apply imap_ext. intros i x _. cbn [compose].
    by replace (n + Z.of_nat (S i)) with (n + 1 + Z.of_nat i) by lia.
Qed.

(** A manifest reads back as the entries it was written from: for any order
    of attributes, flags and the dotted subsystem on each line, quoted values
    and values with spaces included, every line is an entry with its fields, in
    order, and no line is lost or bad. *)
Theorem manifest_roundtrip (ws : list (Entry * list token)) :
  Forall (fun w => writes w.1 w.2) ws ->
  ParseIDB (MkStream (unlines ((fun w => print_line w.1 w.2) <$> ws)) None) = Ok (ws.*1, [], None).
Proof. apply manifest_reads. Qed.

(** A configuration file with a quoted command and a link whose target has a
    space, the subsystem in the middle of one tail and at the end of the other. *)
Definition demo_config : Entry := MkEntry 102 0x1a4 (str "root") (str "sys") (str "etc/config") (str "cfg/config")
  (str "eoe.sw.base") 13 5 0 [] []
  {[ str "off" := str "13"; str "size" := str "5"; str "exitop" := dquote :: str "chroot a; b)" ++ [dquote] ]}
  [str "config"].
Definition demo_config_tail : list token :=
  [Attr (str "off") (str "13"); Attr (str "exitop") (dquote :: str "chroot a; b)" ++ [dquote]); Bare (str "config");
   Bare (str "eoe.sw.base"); Attr (str "size") (str "5")].

Definition demo_link : Entry := MkEntry 108 0 (str "root") (str "sys") (str "bin") (str "cfg/bin")
  (str "eoe.man.base") (-1) 0 0 (str "usr bin") [] {[ str "symval" := str "usr bin" ]} [].
Definition demo_link_tail : list token := [Attr (str "symval") (str "usr bin"); Bare (str "eoe.man.base")].

Lemma attr_plain k v :
  bool_decide (k <> [] /\ Forall (fun c => isWord c = true) k /\ newline ∉ v /\ rparen ∉ v /\ head v <> Some dquote) = true ->
  token_ok (Attr k v).
Proof. intros (H1 & H2 & H3 & H4 & H5)%bool_decide_eq_true. split; [done|]. split; [done|]. split; [done|]. by left. Qed.

Lemma demo_config_writes : writes demo_config demo_config_tail.
Proof.
  split; try (vm_compute; split; congruence); try (by vm_compute).
  - by apply (bool_decide_unpack _).
  - apply (bool_decide_unpack _). vm_compute. exact I.
  - repeat apply Forall_cons_2; [..|constructor].
    3, 4: by apply (bool_decide_unpack (word _ /\ lparen ∉ _)).
    1, 3: by apply attr_plain.
    split; [done|]. split; [by apply (bool_decide_unpack _)|]. split; [by apply (bool_decide_unpack _)|].
    right. exists (str "chroot a; b)"). split; [done|]. by apply (bool_decide_unpack _).
  - exists [str "config"], []. repeat split; constructor.
Qed.

Lemma demo_link_writes : writes demo_link demo_link_tail.
Proof.
  split; try (vm_compute; split; congruence); try (by vm_compute).
  - by apply (bool_decide_unpack _).
  - apply (bool_decide_unpack _). vm_compute. exact I.
  - repeat apply Forall_cons_2; [..|constructor].
    + by apply attr_plain.
    + by apply (bool_decide_unpack (word _ /\ lparen ∉ _)).
  - exists [], []. repeat split; constructor.
Qed.

Lemma manifest_roundtrip_witness :
  ParseIDB (MkStream (unlines [print_line demo_config demo_config_tail; print_line demo_link demo_link_tail]) None)
    = Ok ([demo_config; demo_link], [], None).
Proof.
  apply (manifest_roundtrip [(demo_config, demo_config_tail); (demo_link, demo_link_tail)]).
  apply Forall_cons_2; [exact demo_config_writes|]. apply Forall_cons_2; [exact demo_link_writes|constructor].
Defined.
