(* ===== verification/Inst.v ===== *)
(** Inst distributions ([inst/dist.go], [inst/unwrap.go]): the products of a
    directory, the walk that finds records listed without an offset, the
    archives and their records, and files installed compressed. *)
From stdpp Require Import sorting.
From S2P Require Import Prelude Unixcompress Unixpack Text Strconv Strings Idb.

Definition sigLen : Z := 13.
Definition sigPrefix : bytes := str "im001".

(** ** The file system a distribution is read from *)

(** An opened file: its size, random access if it has that, and its bytes read
    from the start. *)
Record file := MkFile { f_size : outcome Z Z; f_ra : option ReaderAt; f_data : stream; f_close : option Z }.

(** [fs.FS] and [fs.ReadDir]: the names of the root, with [IsDir]. *)
Record FS := MkFS { fs_readdir : outcome Z (list (bytes * bool)); fs_open : bytes -> outcome Z file }.

Inductive archive_err :=
| ArchStat (code : Z) | NotReaderAt | TooShort (size : Z) | SigRead (e : io_err) | BadSignature (sig : bytes).

Inductive record_err :=
| NoOffset (off : Z) | PastEnd (off : Z) | HeaderRead (e : io_err) | NamePastEnd (off : Z) | NameRead (e : io_err)
| NamedOther (name : bytes) | DataPastEnd (n start : Z).

Inductive error :=
| ReadingDir (code : Z)
| OpenErr (code : Z)
| ManifestErr (name : bytes) (e : io_err)
| ArchOpen (name : bytes) (code : Z)
| ArchErr (name : bytes) (e : archive_err)
| RecordErr (path : bytes) (e : record_err)
| UncompressErr (path : bytes) (e : Unixcompress.error)
| Stuck (s : stuck).

Record archive_t := MkArchive { a_f : option file; a_r : option ReaderAt; a_size : Z; a_err : option error }.

Record Product := MkProduct { Name : bytes; Entries : list Entry; BadLines : list BadLine }.

Record Dist := MkDist { Products : list Product; archives : gmap bytes archive_t }.

(** ** Offsets *)

Definition with_offset (off : Z) (e : Entry) : Entry :=
  MkEntry (Type_ e) (Mode e) (Owner e) (Group e) (Path e) (Source e) (Subsystem e) off (Size e) (CmpSize e)
    (Symlink e) (Mach e) (Attrs e) (Flags e).

Definition is_file (e : Entry) : bool := Type_ e =? 102.

(** [walkOffsets], from where the next record of each image starts. *)
Fixpoint walk (next : gmap bytes Z) (es : list Entry) : list Entry :=
  match es with
  | [] => []
  | e :: es =>
      if negb (is_file e) then e :: walk next es
      else
        let at_ := default sigLen (next !! Image e) in
        let off := if Offset e <? 0 then at_ else Offset e in
        let n := 2 + zlen (Path e) in
        let after := if (0 <=? off) && (Stored e <=? i64 (max_i64 - off - n)) then i64 (off + n + Stored e) else -1 in
        with_offset off e :: walk (<[Image e := after]> next) es
  end.

Definition walkOffsets (es : list Entry) : list Entry := walk ∅ es.

(** ** Products *)

(** The products that have an archive image in the directory. *)
Definition image_of (de : bytes * bool) : option bytes :=
  let '(name, dir) := de in
  match cut_last dot name with
  | Some (prod, image) =>
      if (dir : bool) || bool_decide (prod = []) || bool_decide (image = []) || bool_decide (image = str "idb")
      then None else Some prod
  | None => None
  end.

Definition hasImage (names : list (bytes * bool)) : gset bytes := list_to_set (omap image_of names).

Definition read_product (fs : FS) (images : gset bytes) (de : bytes * bool) : outcome error (option Product) :=
  let '(name, dir) := de in
  match CutSuffix name (str ".idb") with
  | None => Ok None
  | Some prod =>
      if (dir : bool) || negb (bool_decide (prod ∈ images)) then Ok None
      else match fs_open fs name with
      | Err c => Err (OpenErr c)
      | Panic => Panic
      | Ok f =>
          match ParseIDB (f_data f) with
          | Ok (es, bad, None) => Ok (Some (MkProduct prod (walkOffsets es) bad))
          | Ok (_, _, Some e) => Err (ManifestErr name e)
          | Err s => Err (Stuck s)
          | Panic => Panic
          end
      end
  end.

Fixpoint read_products (fs : FS) (images : gset bytes) (names : list (bytes * bool)) : outcome error (list Product) :=
  match names with
  | [] => Ok []
  | de :: names =>
      p ← read_product fs images de;
      ps ← read_products fs images names;
      Ok (match p with Some p => p :: ps | None => ps end)
  end.

Definition product_le (p q : Product) : Prop := bytes_le (Name p) (Name q).
#[export] Instance product_le_dec : RelDecision product_le.
Proof. intros p q. unfold product_le. apply _. Defined.

Definition OpenDist (fs : FS) : outcome error Dist :=
  match fs_readdir fs with
  | Err c => Err (ReadingDir c)
  | Panic => Panic
  | Ok names =>
      ps ← read_products fs (hasImage names) names;
      Ok (MkDist (merge_sort product_le ps) ∅)
  end.

(** ** Archives *)

Definition open_archive (fs : FS) (name : bytes) : archive_t :=
  match fs_open fs name with
  | Ok f =>
      let fail e := MkArchive (Some f) None 0 (Some (ArchErr name e)) in
      match f_size f with
      | Ok size =>
          match f_ra f with
          | None => fail NotReaderAt
          | Some ra =>
              if size <? sigLen then fail (TooShort size)
              else match ra 0 sigLen with
              | (_, Some e) => fail (SigRead e)
              | (sig, None) =>
                  if negb (bool_decide (take (length sigPrefix) sig = sigPrefix)) || negb (at_ sig (sigLen - 1) =? 0)
                  then fail (BadSignature sig)
                  else MkArchive (Some f) (Some ra) size None
              end
          end
      | Err c => fail (ArchStat c)
      | Panic => fail (ArchStat 0)
      end
  | Err c => MkArchive None None 0 (Some (ArchOpen name c))
  | Panic => MkArchive None None 0 (Some (ArchOpen name 0))
  end.

(** [Dist.archive]: an archive is opened once, a failure too. *)
Definition archive (fs : FS) (d : Dist) (name : bytes) : archive_t * Dist :=
  match archives d !! name with
  | Some a => (a, d)
  | None => let a := open_archive fs name in (a, MkDist (Products d) (<[name := a]> (archives d)))
  end.

(** [io.NewSectionReader(r, start, n)], read from its start to its end. *)
Definition section_stream (ra : ReaderAt) (start n : Z) : stream :=
  let '(d, e) := ra start n in
  MkStream d (match e with Some (OtherIO c) => Some c | Some UnexpectedEOF => Some 0 | _ => None end).

(** A buffer of [n] bytes with what was read at its start. *)
Definition in_buffer (n : Z) (got : bytes) : bytes := got ++ replicate (Z.to_nat (n - zlen got)) 0.

(** [archive.record]. *)
Definition record (ra : ReaderAt) (size : Z) (e : Entry) : outcome record_err stream :=
  let off := Offset e in
  if off <? sigLen then Err (NoOffset off)
  else if size - 2 <? off then Err (PastEnd off)
  else match ra off 2 with
  | (_, Some err) => Err (HeaderRead err)
  | (hdr, None) =>
      let nlen := be hdr in
      if size - off - 2 <? nlen then Err (NamePastEnd off)
      else
        let '(got, err) := ra (off + 2) nlen in
        match err with
        | Some (OtherIO c) => Err (NameRead (OtherIO c))
        | Some UnexpectedEOF => Err (NameRead UnexpectedEOF)
        | _ =>
            let name := in_buffer nlen got in
            if negb (bool_decide (name = Path e)) then Err (NamedOther name)
            else
              let start := off + 2 + nlen in
              let n := Stored e in
              if (n <? 0) || (size - start <? n) then Err (DataPastEnd n start)
              else Ok (section_stream ra start n)
        end
  end.

(** What [Open] gives to read from: the record, or a decoder of it. *)
Inductive content := Plain (s : stream) | Packed (z : Unixpack.reader) | Compressed (z : Unixcompress.reader).

Definition archive_name (product : bytes) (e : Entry) : bytes := product ++ [dot] ++ Image e.

(** [Dist.Open]. *)
Definition Open (fs : FS) (d : Dist) (product : bytes) (e : Entry) : outcome error content * Dist :=
  let '(a, d) := archive fs d (archive_name product e) in
  (match a_err a with
   | Some err => Err err
   | None =>
       match a_r a with
       | None => Panic
       | Some ra =>
           match record ra (a_size a) e with
           | Err err => Err (RecordErr (Path e) err)
           | Panic => Panic
           | Ok rec =>
               if CmpSize e =? 0 then Ok (Plain rec)
               else match Unixcompress.NewReader rec with
                    | inl z => Ok (Compressed z)
                    | inr err => Err (UncompressErr (Path e) err)
                    end
           end
       end
   end, d).

(** [Dist.Close]: the errors of the files that were open. *)
Definition Close (d : Dist) : list Z * Dist :=
  (omap (fun '(_, a) => f ← a_f a; f_close f) (map_to_list (archives d)), MkDist (Products d) ∅).

(** ** Installed compression *)

Inductive unwrap_err := UnpackErr (e : Unixpack.error) | UnwrapErr (e : Unixcompress.error).

(** [Unwrap]: the two bytes peeked stay in the stream. *)
Definition Unwrap (name : bytes) (s : stream) : outcome unwrap_err (bytes * content) :=
  let head := take 2 (sdata s) in
  if HasSuffix name (str ".z") && Unixpack.IsPacked head then
    match Unixpack.NewReader s with
    | Ok z => Ok (take (length name - 2) name, Packed z)
    | Err e => Err (UnpackErr e)
    | Panic => Panic
    end
  else if HasSuffix name (str ".Z") && Unixcompress.IsCompressed head then
    match Unixcompress.NewReader s with
    | inl z => Ok (take (length name - 2) name, Compressed z)
    | inr e => Err (UnwrapErr e)
    end
  else Ok (name, Plain s).

(** ** Records *)

(** A record of an image: its header, the install path and what is stored. *)
Definition record_bytes (path data : bytes) : bytes := be_enc 2 (zlen path) ++ path ++ data.

Lemma in_buffer_full n got : n = zlen got -> in_buffer n got = got.
Proof. intros ->. unfold in_buffer. by rewrite Z.sub_diag, app_nil_r. Qed.

(** A record that is found is the one its entry names. *)
Lemma record_sound ra img e s `{!ReaderAtOK ra (at_ img) (zlen img)} : wf_bytes img ->
  record ra (zlen img) e = Ok s ->
  let start := Offset e + 2 + zlen (Path e) in
  sigLen <= Offset e /\ start + Stored e <= zlen img /\
  s = MkStream (sub img start (Stored e)) None /\
  sub img (Offset e) (start + Stored e - Offset e) = record_bytes (Path e) (sub img start (Stored e)).
Proof.
  intros Hwf. unfold record. destruct (Offset e <? sigLen) eqn:E1; zbool; [done|].
  destruct (zlen img - 2 <? Offset e) eqn:E2; zbool; [done|]. unfold sigLen in *.
  rewrite (reader_sub ra img) by lia. set (hdr := sub img (Offset e) 2).
  assert (Hh : wf_bytes hdr) by (by apply wf_bytes_sub).
  assert (Hl : zlen hdr = 2) by (apply zlen_sub; lia).
  pose proof (be_range hdr Hh) as Hb. rewrite Hl in Hb. change (256 ^ 2) with 65536 in Hb.
  destruct (zlen img - Offset e - 2 <? be hdr) eqn:E3; zbool; [done|].
  rewrite (reader_sub ra img) by lia. cbn iota zeta.
  assert (Hn : zlen (sub img (Offset e + 2) (be hdr)) = be hdr) by (apply zlen_sub; lia).
  rewrite in_buffer_full by done. case_bool_decide as Hp; [|done]. cbn [negb].
  assert (Hz : zlen (Path e) = be hdr) by (by rewrite <- Hp, Hn).
  destruct (_ || _) eqn:E4; zbool; [done|]. unfold section_stream. rewrite <- Hz in *.
  rewrite (reader_sub ra img) by lia. intros <-%Ok_inj. cbn zeta. split_and!; [lia|lia|done|].
  replace (Offset e + 2 + zlen (Path e) + Stored e - Offset e) with (2 + (zlen (Path e) + Stored e)) by lia.
  rewrite sub_split by (auto with golib; lia). rewrite sub_split by (auto with golib; lia). unfold record_bytes.
  rewrite Hp. do 2 f_equal. unfold hdr in *. rewrite Hz at 1. rewrite be_enc_be; [done|done|].
  unfold zlen in Hl. lia.
Qed.

Lemma sub_middle {A} (a b c : list A) : sub (a ++ b ++ c) (zlen a) (zlen b) = b.
Proof. rewrite sub_app_r by lia. rewrite Z.sub_diag. by apply sub_app_l. Qed.

(** A record that is there is found. *)
Lemma record_found ra pre path data post e `{!ReaderAtOK ra (at_ (pre ++ record_bytes path data ++ post))
    (zlen (pre ++ record_bytes path data ++ post))} :
  sigLen <= zlen pre -> zlen path < 2 ^ 16 ->
  Offset e = zlen pre -> Path e = path -> Stored e = zlen data ->
  record ra (zlen (pre ++ record_bytes path data ++ post)) e = Ok (MkStream data None).
Proof.
  intros Hpre Hlen Ho Hp Hs. set (img := pre ++ record_bytes path data ++ post) in *. unfold record.
  pose proof (zlen_nonneg path). pose proof (zlen_nonneg data). pose proof (zlen_nonneg post).
  assert (Himg : zlen img = zlen pre + (2 + (zlen path + zlen data)) + zlen post).
  { unfold img, record_bytes. rewrite !zlen_app, zlen_be_enc. lia. }
  assert (Hhdr : sub img (zlen pre) 2 = be_enc 2 (zlen path)).
  { unfold img, record_bytes. rewrite <- !app_assoc. rewrite <- (zlen_be_enc 2 (zlen path)) at 1. apply sub_middle. }
  assert (Hname : sub img (zlen pre + 2) (zlen path) = path).
  { unfold img, record_bytes. rewrite <- !app_assoc, app_assoc.
    replace (zlen pre + 2) with (zlen (pre ++ be_enc 2 (zlen path))) by (by rewrite zlen_app, zlen_be_enc).
    apply sub_middle. }
  assert (Hdata : sub img (zlen pre + 2 + zlen path) (zlen data) = data).
  { unfold img, record_bytes. rewrite <- !app_assoc, app_assoc, app_assoc.
    replace (zlen pre + 2 + zlen path) with (zlen ((pre ++ be_enc 2 (zlen path)) ++ path))
      by (by rewrite !zlen_app, zlen_be_enc).
    apply sub_middle. }
  rewrite Ho, Hp, Hs. rewrite (proj2 (Z.ltb_ge _ sigLen)) by lia.
  rewrite (proj2 (Z.ltb_ge (zlen img - 2) _)) by lia.
  unfold sigLen in *. rewrite (reader_sub ra img) by lia. rewrite Hhdr, be_be_enc. change (256 ^ Z.of_nat 2) with (2 ^ 16).
  rewrite Z.mod_small by lia. rewrite (proj2 (Z.ltb_ge (zlen img - _ - 2) _)) by lia.
  rewrite (reader_sub ra img) by lia. rewrite Hname, in_buffer_full by done. rewrite bool_decide_true by done. cbn [negb].
  rewrite (proj2 (Z.ltb_ge (zlen data) 0)), (proj2 (Z.ltb_ge (zlen img - _) _)) by lia. cbn [orb].
  unfold section_stream. by rewrite (reader_sub ra img), Hdata by lia.
Qed.

(** ** The layout of a product's images

    The entries of a manifest in order, each with what is stored for it and the
    gap its record leaves in its image. *)
Record piece := MkPiece { pc_entry : Entry; pc_gap : bytes; pc_data : bytes }.

Definition piece_bytes (image : bytes) (p : piece) : bytes :=
  if is_file (pc_entry p) && bool_decide (Image (pc_entry p) = image)
  then pc_gap p ++ record_bytes (Path (pc_entry p)) (pc_data p) else [].

(** An image: the signature, whose version tag is [tag image], and the records. *)
Definition signature (tag : bytes) : bytes := sigPrefix ++ tag ++ [0].
Definition image_bytes (tag : bytes -> bytes) (image : bytes) (ps : list piece) : bytes :=
  signature (tag image) ++ mjoin (piece_bytes image <$> ps).

(** The manifest agrees with the layout: an entry names its offset, or has none
    and follows the record before it. *)
Definition starts (next : gmap bytes Z) (p : piece) : Z :=
  default sigLen (next !! Image (pc_entry p)) + zlen (pc_gap p).

Definition piece_ok (next : gmap bytes Z) (p : piece) : Prop :=
  let e := pc_entry p in
  zlen (Path e) < 2 ^ 16 /\ Stored e = zlen (pc_data p) /\
  (Offset e = starts next p \/ (Offset e < 0 /\ pc_gap p = [])) /\
  starts next p + zlen (record_bytes (Path e) (pc_data p)) <= max_i64.

Definition after (next : gmap bytes Z) (p : piece) : gmap bytes Z :=
  <[Image (pc_entry p) := starts next p + zlen (record_bytes (Path (pc_entry p)) (pc_data p))]> next.

Fixpoint laid_out (next : gmap bytes Z) (ps : list piece) : Prop :=
  match ps with
  | [] => True
  | p :: ps => if is_file (pc_entry p) then piece_ok next p /\ laid_out (after next p) ps else laid_out next ps
  end.

Lemma zlen_record path data : zlen (record_bytes path data) = 2 + (zlen path + zlen data).
Proof. unfold record_bytes. by rewrite !zlen_app, zlen_be_enc. Qed.
#[export] Hint Rewrite zlen_record : zlen.

(** The walk puts each record where it is: after the pieces before it. *)
Lemma walk_piece next p es : is_file (pc_entry p) = true -> piece_ok next p -> 0 <= starts next p ->
  walk next (pc_entry p :: es) = with_offset (starts next p) (pc_entry p) :: walk (after next p) es.
Proof.
  intros Hf (Hlen & Hst & Hoff & Hmax) Hpos. set (e := pc_entry p) in *. cbn [walk]. rewrite Hf. cbn [negb].
  assert (Ho : (if Offset e <? 0 then default sigLen (next !! Image e) else Offset e) = starts next p).
  { destruct Hoff as [->|[Hneg Hg]].
    - by rewrite (proj2 (Z.ltb_ge _ 0)) by lia.
    - rewrite (proj2 (Z.ltb_lt _ 0)) by lia. unfold starts. rewrite Hg, zlen_nil, Z.add_0_r. done. }
  rewrite Ho. rewrite zlen_record in Hmax. unfold max_i64 in *.
  pose proof (zlen_nonneg (Path e)). pose proof (zlen_nonneg (pc_data p)).
  unfold i64. rewrite (proj2 (Z.leb_le 0 _)), Hst by lia. rewrite !signed_id by lia.
  rewrite (proj2 (Z.leb_le (zlen (pc_data p)) _)) by lia. cbn [andb]. unfold after. fold e. rewrite zlen_record.
  do 3 f_equal. lia.
Qed.

(** Where the records of [image] end, as the pieces before left it. *)
Definition reaches (tag : bytes -> bytes) (before : list piece) (next : gmap bytes Z) : Prop :=
  forall image, default sigLen (next !! image) = zlen (image_bytes tag image before).

Lemma reaches_start tag : (forall image, zlen (tag image) = 7) -> reaches tag [] ∅.
Proof.
  intros Ht image. rewrite lookup_empty. unfold image_bytes, signature. cbn [mjoin list_join fmap list_fmap]. by rewrite app_nil_r, !zlen_app, Ht.
Qed.

Lemma image_bytes_app tag image ps qs :
  image_bytes tag image (ps ++ qs) = image_bytes tag image ps ++ mjoin (piece_bytes image <$> qs).
Proof. unfold image_bytes. by rewrite fmap_app, join_app, app_assoc. Qed.

Lemma reaches_step tag before next p : reaches tag before next ->
  reaches tag (before ++ [p]) (if is_file (pc_entry p) then after next p else next).
Proof.
  intros Hr image. rewrite image_bytes_app, zlen_app, <- (Hr image). unfold mjoin. cbn [fmap list_fmap list_join].
  rewrite app_nil_r. unfold piece_bytes.
  destruct (is_file (pc_entry p)); cbn [andb]; [|by rewrite zlen_nil, Z.add_0_r]. unfold after.
  case_bool_decide as Hi.
  - subst image. rewrite lookup_insert_eq. unfold starts. rewrite zlen_app. cbn [from_option]. unfold id. lia.
  - rewrite lookup_insert_ne by done. by rewrite zlen_nil, Z.add_0_r.
Qed.

(** Every piece, after the walk: its record, and its place in its image. *)
Lemma walk_lookup tag before next ps i e : reaches tag before next -> laid_out next ps ->
  walk next (pc_entry <$> ps) !! i = Some e ->
  exists p, ps !! i = Some p /\ e = with_offset (Offset e) (pc_entry p) /\
    (is_file (pc_entry p) = true ->
     zlen (Path (pc_entry p)) < 2 ^ 16 /\ Stored (pc_entry p) = zlen (pc_data p) /\
     Offset e = zlen (image_bytes tag (Image (pc_entry p)) (before ++ take i ps) ++ pc_gap p)).
Proof.
  revert before next i. induction ps as [|p ps IH]; intros before next i Hr Hl; [done|].
  rewrite fmap_cons. cbn [laid_out] in Hl. pose proof (reaches_step tag before next p Hr) as Hr'.
  destruct (is_file (pc_entry p)) eqn:Hf.
  - destruct Hl as [Hp Hl]. assert (Hs : starts next p = zlen (image_bytes tag (Image (pc_entry p)) before ++ pc_gap p)).
    { unfold starts. by rewrite Hr, zlen_app. }
    assert (Hpos : 0 <= starts next p) by (rewrite Hs; auto with golib).
    rewrite walk_piece by done. destruct i as [|i]; cbn [lookup list_lookup].
    + intros [= <-]. exists p. split; [done|]. split; [done|]. intros _. destruct Hp as (H1 & H2 & _).
      cbn [take]. rewrite app_nil_r. split_and!; [done|done|exact Hs].
    + intros Hi. destruct (IH _ _ _ Hr' Hl Hi) as (q & Hq & He & Hx). exists q. split; [done|]. split; [done|].
      rewrite <- app_assoc in Hx. exact Hx.
  - cbn [walk]. rewrite Hf. cbn [negb]. destruct i as [|i]; cbn [lookup list_lookup].
    + intros [= <-]. exists p. split; [done|]. split; [by destruct (pc_entry p)|]. by rewrite Hf.
    + intros Hi. destruct (IH _ _ _ Hr' Hl Hi) as (q & Hq & He & Hx). exists q. split; [done|]. split; [done|].
      rewrite <- app_assoc in Hx. exact Hx.
Qed.

(** ** Reading a distribution *)

(** Every cached archive is what opening it gives. *)
Definition cache_ok (fs : FS) (d : Dist) : Prop :=
  forall name a, archives d !! name = Some a -> a = open_archive fs name.

Lemma archive_cached fs d name : cache_ok fs d ->
  exists d', archive fs d name = (open_archive fs name, d') /\ cache_ok fs d' /\ Products d' = Products d.
Proof.
  intros Hc. unfold archive. destruct (archives d !! name) as [a|] eqn:E.
  - exists d. by rewrite (Hc _ _ E).
  - eexists. split; [done|]. split; [|done]. intros name' a. cbn.
    rewrite lookup_insert_Some. intros [[<- <-]|[_ H]]; [done|by apply Hc].
Qed.

(** A file of the directory with the bytes [img]. *)
Definition holds (fs : FS) (name img : bytes) : Prop :=
  exists f ra, fs_open fs name = Ok f /\ f_size f = Ok (zlen img) /\ f_ra f = Some ra /\
    ReaderAtOK ra (at_ img) (zlen img).

(** The directory holds the images of a product. *)
Definition holds_images (fs : FS) (product : bytes) (tag : bytes -> bytes) (ps : list piece) : Prop :=
  (forall image, zlen (tag image) = 7) /\
  forall p, p ∈ ps -> is_file (pc_entry p) = true ->
    holds fs (archive_name product (pc_entry p)) (image_bytes tag (Image (pc_entry p)) ps).

Lemma zlen_signature tag : zlen (signature tag) = 6 + zlen tag.
Proof. unfold signature. rewrite !zlen_app. change (zlen sigPrefix) with 5. change (zlen [0]) with 1. lia. Qed.

Lemma open_image fs name tag image ps : zlen (tag image) = 7 -> holds fs name (image_bytes tag image ps) ->
  exists f ra, open_archive fs name = MkArchive (Some f) (Some ra) (zlen (image_bytes tag image ps)) None /\
    ReaderAtOK ra (at_ (image_bytes tag image ps)) (zlen (image_bytes tag image ps)).
Proof.
  intros Ht (f & ra & Ho & Hs & Hr & Hra). exists f, ra. split; [|done].
  set (img := image_bytes tag image ps) in *.
  assert (Hsig : exists rest, img = signature (tag image) ++ rest) by (by eexists). destruct Hsig as [rest Hsig].
  assert (Hl : zlen (signature (tag image)) = sigLen) by (by rewrite zlen_signature, Ht).
  assert (Hlen : sigLen <= zlen img) by (rewrite Hsig, zlen_app, Hl; pose proof (zlen_nonneg rest); lia).
  unfold open_archive. rewrite Ho, Hs, Hr. rewrite (proj2 (Z.ltb_ge _ sigLen)) by done.
  rewrite (reader_sub ra img) by (unfold sigLen in *; lia). rewrite Hsig, sub_app_l by done.
  rewrite bool_decide_true by reflexivity.
  assert (at_ (signature (tag image)) (sigLen - 1) = 0) as ->; [|done].
  unfold signature. rewrite app_assoc, at_app_r by (rewrite zlen_app, Ht; done). by rewrite zlen_app, Ht.
Qed.

(** A file of a product reads back as what its archive stores for it: when
    the directory's images lie as the manifest says, with offsets listed, found
    by the walk, or a mix of the two, each file entry opens to exactly its
    stored bytes, decoded when the archive compressed them, whatever was opened
    before. *)
Lemma Open_reads fs d product tag ps i e :
  cache_ok fs d -> holds_images fs product tag ps -> laid_out ∅ ps ->
  walkOffsets (pc_entry <$> ps) !! i = Some e -> is_file e = true ->
  exists p, ps !! i = Some p /\ e = with_offset (Offset e) (pc_entry p) /\
    let '(r, d') := Open fs d product e in
    cache_ok fs d' /\
    r = (if CmpSize e =? 0 then Ok (Plain (MkStream (pc_data p) None))
         else match Unixcompress.NewReader (MkStream (pc_data p) None) with
              | inl z => Ok (Compressed z)
              | inr err => Err (UncompressErr (Path e) err)
              end).
Proof.
  intros Hc [Ht Hi] Hl Hw Hf.
  destruct (walk_lookup tag [] ∅ ps i e (reaches_start tag Ht) Hl Hw) as (p & Hp & He & Hx).
  exists p. split; [done|]. split; [done|].
  assert (Hfp : is_file (pc_entry p) = true) by (by rewrite He in Hf).
  destruct (Hx Hfp) as (Hlen & Hst & Hoff). clear Hx. cbn [app] in Hoff.
  assert (Hsame : Image e = Image (pc_entry p) /\ Path e = Path (pc_entry p) /\ Stored e = Stored (pc_entry p))
    by (by rewrite He). destruct Hsame as (Him & Hpa & Hso).
  destruct (open_image fs (archive_name product e) tag (Image (pc_entry p)) ps) as (f & ra & Ha & Hra).
  { apply Ht. }
  { unfold archive_name. rewrite Him. apply Hi; [by eapply list_elem_of_lookup_2|done]. }
  unfold Open. destruct (archive_cached fs d (archive_name product e) Hc) as (d' & -> & Hc' & _).
  split; [done|]. rewrite Ha. cbn [a_err a_r a_size].
  set (pre := image_bytes tag (Image (pc_entry p)) (take i ps) ++ pc_gap p) in *.
  assert (Himg : exists post, image_bytes tag (Image (pc_entry p)) ps = pre ++ record_bytes (Path (pc_entry p)) (pc_data p) ++ post).
  { exists (mjoin (piece_bytes (Image (pc_entry p)) <$> drop (S i) ps)). unfold pre.
    rewrite <- (take_drop_middle ps i p Hp) at 1. rewrite image_bytes_app, fmap_cons, mjoin_cons.
    unfold piece_bytes at 1. rewrite Hfp, bool_decide_true by done. cbn [andb]. by rewrite <- !app_assoc. }
  destruct Himg as [post Himg]. rewrite Himg in Hra |- *.
  assert (Hpre : sigLen <= zlen pre).
  { unfold pre, image_bytes. rewrite !zlen_app, zlen_signature, Ht. unfold sigLen.
    pose proof (zlen_nonneg (mjoin (piece_bytes (Image (pc_entry p)) <$> take i ps))). pose proof (zlen_nonneg (pc_gap p)). lia. }
  rewrite (record_found ra pre _ (pc_data p) post e) by (done || congruence). done.
Qed.

(** ** The products of a directory *)

Lemma parse_loop_total fuel n s : (length (sdata s) < fuel)%nat ->
  exists es bs e, parse_loop fuel n s = Ok (es, bs, e).
Proof.
  revert n s. induction fuel as [|fuel IH]; intros n [data fl] Hf; [lia|]. cbn [parse_loop].
  unfold read_string. cbn [sdata sfail] in *. destruct (cut newline data) as [l [rest|]] eqn:Hcut.
  - destruct (parse_text n (l ++ [newline])) as [es bs].
    destruct (IH (n + 1) (MkStream rest fl)) as (es' & bs' & e & ->); [|eauto]. cbn.
    enough (length rest < length data)%nat by lia. clear -Hcut.
    revert l Hcut. induction data as [|x data IH]; intros l; cbn; [done|].
    destruct (x =? newline); [intros [= _ ->]; lia|]. destruct (cut newline data) as [a b].
    intros [= <- ->]. specialize (IH a eq_refl). lia.
  - destruct (parse_text n l) as [es bs]. unfold stream_end. cbn [sfail]. destruct fl; eauto.
Qed.

Lemma ParseIDB_total s : exists es bs e, ParseIDB s = Ok (es, bs, e).
Proof. apply parse_loop_total. lia. Qed.

Lemma read_product_Some fs images de p : read_product fs images de = Ok (Some p) ->
  de = (Name p ++ str ".idb", false) /\ Name p ∈ images /\
  exists f es, fs_open fs de.1 = Ok f /\ ParseIDB (f_data f) = Ok (es, BadLines p, None) /\ Entries p = walkOffsets es.
Proof.
  destruct de as [name dir]. unfold read_product. destruct (CutSuffix name _) as [prod|] eqn:Hc; [|done].
  apply CutSuffix_Some in Hc as ->. destruct dir; [done|]. cbn [orb].
  case_bool_decide as Hi; [|done]. cbn [negb]. destruct (fs_open fs _) as [f| |] eqn:Ho; [|done..].
  destruct (ParseIDB (f_data f)) as [[[es bad] [e|]]|s|] eqn:Hp; [done| |done..].
  intros [= <-]. cbn [Name BadLines Entries fst]. split_and!; [done|done|]. eauto.
Qed.

Lemma read_product_is fs images name f r : fs_open fs (name ++ str ".idb") = Ok f -> name ∈ images ->
  read_product fs images (name ++ str ".idb", false) = Ok r -> exists p, r = Some p /\ Name p = name.
Proof.
  intros Ho Hi. unfold read_product. rewrite CutSuffix_app. cbn [orb]. rewrite bool_decide_true by done. cbn [negb].
  rewrite Ho. destruct (ParseIDB _) as [[[es bad] [e|]]|s|]; [done| |done..]. intros [= <-]. by eexists.
Qed.

Lemma read_products_elem fs images names ps : read_products fs images names = Ok ps ->
  (forall p, p ∈ ps <-> exists de, de ∈ names /\ read_product fs images de = Ok (Some p)) /\
  (forall de, de ∈ names -> exists r, read_product fs images de = Ok r).
Proof.
  revert ps. induction names as [|de names IH]; intros ps; cbn [read_products].
  { intros [= <-]. split; [|intros de Hin; by apply not_elem_of_nil in Hin].
    intros p. split; [intros Hin; by apply not_elem_of_nil in Hin|].
    intros (de & Hin & _). by apply not_elem_of_nil in Hin. }
  destruct (read_product fs images de) as [r| |] eqn:Hr; cbn [mbind outcome_bind]; [|done..].
  destruct (read_products fs images names) as [qs| |]; cbn [mbind outcome_bind]; [|done..].
  intros [= <-]. destruct (IH qs eq_refl) as [IH1 IH2]. split.
  - intros p. setoid_rewrite elem_of_cons. destruct r as [q|].
    + rewrite elem_of_cons, IH1. split.
      * intros [->|(de' & Hin & H)]; [by exists de; auto|]. exists de'. auto.
      * intros (de' & [->|Hin] & H); [left; congruence|]. right. eauto.
    + rewrite IH1. split; [intros (de' & Hin & H); exists de'; auto|].
      intros (de' & [->|Hin] & H); [congruence|]. eauto.
  - intros de' [->|Hin]%elem_of_cons; [by exists r|]. by apply IH2.
Qed.

Lemma elem_hasImage names P : P ∈ hasImage names <->
  exists image, (P ++ dot :: image, false) ∈ names /\ P <> [] /\ dot ∉ image /\ image <> [] /\ image <> str "idb".
Proof.
  unfold hasImage. rewrite elem_of_list_to_set, list_elem_of_omap. split.
  - intros ([name dir] & Hin & H). unfold image_of in H. destruct (cut_last dot name) as [[prod image]|] eqn:Hc; [|done].
    apply cut_last_Some in Hc as [-> Hd]. destruct dir; [done|]. repeat (case_bool_decide; [done|]).
    cbn [orb] in H. injection H as ->. exists image. split_and!; done.
  - intros (image & Hin & HP & Hd & Hi & Hidb). exists (P ++ dot :: image, false). split; [done|].
    unfold image_of. rewrite cut_last_app by done. by rewrite !bool_decide_false by done.
Qed.

Lemma OpenDist_read fs d : OpenDist fs = Ok d -> archives d = ∅ /\
  exists names ps, fs_readdir fs = Ok names /\ read_products fs (hasImage names) names = Ok ps /\
    Products d = merge_sort product_le ps.
Proof.
  unfold OpenDist. destruct (fs_readdir fs) as [names| |]; [|done..].
  destruct (read_products fs (hasImage names) names) as [ps| |] eqn:E; cbn [mbind outcome_bind]; [|done..].
  intros [= <-]. split; [done|]. by exists names, ps.
Qed.

(** The products are the names [P] with a manifest file [P.idb]
    and an archive image, a file [P.<image>] whose image has no dot; they come
    in order. *)
Lemma OpenDist_names fs names d : fs_readdir fs = Ok names -> OpenDist fs = Ok d ->
  Sorted bytes_le (Name <$> Products d) /\
  forall P, P ∈ Name <$> Products d <->
    (P ++ str ".idb", false) ∈ names /\
    exists image, (P ++ dot :: image, false) ∈ names /\ P <> [] /\ dot ∉ image /\ image <> [] /\ image <> str "idb".
Proof.
  intros Hn Hd. destruct (OpenDist_read fs d Hd) as (_ & names' & ps & Hn' & Hps & ->).
  assert (names' = names) as -> by congruence.
  destruct (read_products_elem _ _ _ _ Hps) as [He Hr]. split.
  - apply (Sorted_fmap Name product_le bytes_le); [done|]. apply Sorted_merge_sort.
    intros p q. apply bytes_leb_total.
  - intros P. setoid_rewrite list_elem_of_fmap. setoid_rewrite merge_sort_Permutation.
    rewrite <- elem_hasImage. split.
    + intros (p & -> & (de & Hin & H)%He). apply read_product_Some in H as (-> & Hi & _). done.
    + intros [Hin Hi]. destruct (Hr _ Hin) as [r Hr'].
      destruct (fs_open fs (P ++ str ".idb")) as [f| |] eqn:Ho.
      * destruct (read_product_is _ _ _ _ _ Ho Hi Hr') as (p & -> & <-). exists p. split; [done|]. apply He. eauto.
      * unfold read_product in Hr'. rewrite CutSuffix_app, bool_decide_true, Ho in Hr' by done. done.
      * unfold read_product in Hr'. rewrite CutSuffix_app, bool_decide_true, Ho in Hr' by done. done.
Qed.

(** ** From the directory to the bytes *)

(** The state after files were opened. *)
Definition after_opens (fs : FS) (d : Dist) (files : list (bytes * Entry)) : Dist :=
  foldl (fun d f => (Open fs d f.1 f.2).2) d files.

Lemma Open_cache fs d product e : cache_ok fs d -> cache_ok fs (Open fs d product e).2.
Proof.
  intros Hc. unfold Open. destruct (archive_cached fs d (archive_name product e) Hc) as (d' & -> & Hc' & _). done.
Qed.

Lemma after_opens_cache fs d files : cache_ok fs d -> cache_ok fs (after_opens fs d files).
Proof. revert d. induction files as [|f files IH]; intros d Hc; [done|]. apply IH. by apply Open_cache. Qed.

Lemma length_walk next es : length (walk next es) = length es.
Proof.
  revert next. induction es as [|e es IH]; intros next; [done|]. cbn [walk]. destruct (negb _); cbn; by rewrite IH.
Qed.

(** C5. A distribution directory gives each of its files: where a directory holds
    a product's manifest, written with any order of attributes, and its images,
    laid out as the manifest says, the opened directory has the product, with no
    bad line, and each of its file entries opens to exactly the bytes stored for
    it, decoded when the archive compressed them, whatever was opened before. *)
Theorem distribution_reads fs d P f tag (ws : list (piece * list token)) files :
  OpenDist fs = Ok d ->
  P ∈ Name <$> Products d -> fs_open fs (P ++ str ".idb") = Ok f ->
  Forall (fun w => writes (pc_entry w.1) w.2) ws ->
  f_data f = MkStream (unlines ((fun w => print_line (pc_entry w.1) w.2) <$> ws)) None ->
  laid_out ∅ ws.*1 -> holds_images fs P tag ws.*1 ->
  exists prod, prod ∈ Products d /\ Name prod = P /\ BadLines prod = [] /\
    length (Entries prod) = length ws /\
    forall i p, ws.*1 !! i = Some p -> is_file (pc_entry p) = true ->
      exists e, Entries prod !! i = Some e /\ e = with_offset (Offset e) (pc_entry p) /\
        (Open fs (after_opens fs d files) P e).1 =
          (if CmpSize e =? 0 then Ok (Plain (MkStream (pc_data p) None))
           else match Unixcompress.NewReader (MkStream (pc_data p) None) with
                | inl z => Ok (Compressed z)
                | inr err => Err (UncompressErr (Path e) err)
                end).
Proof.
  intros Hd HP Hf Hws Hdata Hl Hi.
  destruct (OpenDist_read fs d Hd) as (Ha & names & ps & Hn & Hps & Hpd).
  apply list_elem_of_fmap in HP as (prod & -> & Hprod). exists prod. split; [done|]. split; [done|].
  assert (Hin : prod ∈ ps) by (by rewrite <- (merge_sort_Permutation product_le ps), <- Hpd).
  destruct (proj1 (read_products_elem _ _ _ _ Hps)) with prod as [Hex _].
  destruct (Hex Hin) as (de & _ & Hr). apply read_product_Some in Hr as (-> & _ & f' & es & Hf' & Hp & He).
  assert (f' = f) as -> by (cbn [fst] in Hf'; congruence).
  assert (Hes : ParseIDB (f_data f) = Ok (pc_entry <$> ws.*1, [], None)).
  { rewrite Hdata. pose proof (manifest_reads ((fun w => (pc_entry w.1, w.2)) <$> ws)) as H.
    rewrite <- !list_fmap_compose in H. rewrite <- list_fmap_compose. apply H. by apply Forall_fmap. }
  rewrite Hes in Hp. injection Hp as <- Hbad. split; [done|]. rewrite He. split.
  { unfold walkOffsets. by rewrite length_walk, !length_fmap. }
  intros i p Hip Hfile. destruct (walkOffsets (pc_entry <$> ws.*1) !! i) as [e|] eqn:Hw.
  - exists e. split; [done|].
    assert (Hc : cache_ok fs (after_opens fs d files)).
    { apply after_opens_cache. intros name a. by rewrite Ha, lookup_empty. }
    destruct (walk_lookup tag [] ∅ _ i e (reaches_start tag (proj1 Hi)) Hl Hw) as (q & Hq & He' & _).
    assert (q = p) as -> by congruence.
    destruct (Open_reads _ _ (Name prod) tag _ i e Hc Hi Hl Hw) as (q & Hq' & He'' & Hopen); [by rewrite He'|].
    assert (q = p) as -> by congruence. split; [done|].
    destruct (Open fs _ (Name prod) e) as [r d']. apply Hopen.
  - apply lookup_ge_None in Hw. unfold walkOffsets in Hw. rewrite length_walk, length_fmap in Hw.
    apply lookup_lt_Some in Hip. lia.
Qed.

(** A product whose manifest lists a configuration file with its offset, a link,
    and two files without one, the second compressed by the archive. *)
Definition demo_plain : Entry := MkEntry 102 0x1ed (str "root") (str "sys") (str "usr/bin/ls") (str "cmd/ls")
  (str "eoe.sw.base") (-1) 3 0 [] [] {[ str "size" := str "3" ]} [].
Definition demo_packed : Entry := MkEntry 102 0x1ed (str "root") (str "sys") (str "usr/hello") (str "cmd/hello")
  (str "eoe.sw.base") (-1) 5 9 [] [] (<[str "cmpsize" := str "9"]> {[ str "size" := str "5" ]}) [].

Definition demo_pieces : list (piece * list token) :=
  [(MkPiece demo_config [] (str "hello"), demo_config_tail);
   (MkPiece demo_link [] [], demo_link_tail);
   (MkPiece demo_plain [] (str "ELF"), [Attr (str "size") (str "3"); Bare (str "eoe.sw.base")]);
   (MkPiece demo_packed [] (sdata demo_stream),
    [Bare (str "eoe.sw.base"); Attr (str "size") (str "5"); Attr (str "cmpsize") (str "9")])].

Definition demo_tag (image : bytes) : bytes := str "V640P00".
Definition demo_sw : bytes := image_bytes demo_tag (str "sw") demo_pieces.*1.
Definition demo_idb : bytes := unlines ((fun w => print_line (pc_entry w.1) w.2) <$> demo_pieces).

Definition bytes_file (b : bytes) : file :=
  MkFile (Ok (zlen b)) (Some (image_reader b)) (MkStream b None) None.

Definition demo_dist : FS := MkFS
  (Ok [(str "eoe.idb", false); (str "eoe.sw", false); (str "notes", false); (str "x.idb", false)])
  (fun name => if bool_decide (name = str "eoe.idb") then Ok (bytes_file demo_idb)
               else if bool_decide (name = str "eoe.sw") then Ok (bytes_file demo_sw) else Err 2).

Lemma demo_writes : Forall (fun w => writes (pc_entry w.1) w.2) demo_pieces.
Proof.
  apply Forall_cons_2; [exact demo_config_writes|]. apply Forall_cons_2; [exact demo_link_writes|].
  apply Forall_cons_2; [|apply Forall_cons_2; [|constructor]]; cbn [fst snd pc_entry].
  - split; try (vm_compute; split; congruence); try (by vm_compute).
    + by apply (bool_decide_unpack _).
    + apply (bool_decide_unpack _). vm_compute. exact I.
    + repeat apply Forall_cons_2; [..|constructor]; [by apply attr_plain|].
      by apply (bool_decide_unpack (word _ /\ lparen ∉ _)).
    + exists [], []. repeat split; constructor.
  - split; try (vm_compute; split; congruence); try (by vm_compute).
    + by apply (bool_decide_unpack _).
    + apply (bool_decide_unpack _). vm_compute. exact I.
    + repeat apply Forall_cons_2; [..|constructor].
      1: by apply (bool_decide_unpack (word _ /\ lparen ∉ _)).
      all: by apply attr_plain.
    + exists [], []. repeat split; constructor.
Qed.

Lemma demo_laid_out : laid_out ∅ demo_pieces.*1.
Proof.
  vm_compute laid_out. repeat split; try done.
  all: try (by left); try (by right).
Qed.

Lemma demo_holds : holds_images demo_dist (str "eoe") demo_tag demo_pieces.*1.
Proof.
  split; [done|]. intros p Hp Hf.
  assert (Him : Image (pc_entry p) = str "sw").
  { cbn [fmap list_fmap demo_pieces fst] in Hp. set_unfold in Hp. destruct_or!; subst; done. }
  unfold archive_name. rewrite Him. exists (bytes_file demo_sw), (image_reader demo_sw).
  split_and!; [done|done|done|apply image_reader_ok].
Qed.

Lemma demo_dist_opens : exists d, OpenDist demo_dist = Ok d /\ str "eoe" ∈ Name <$> Products d.
Proof.
  destruct (OpenDist demo_dist) as [d| |] eqn:E; [|by vm_compute in E..].
  exists d. split; [done|].
  apply (OpenDist_names demo_dist [(str "eoe.idb", false); (str "eoe.sw", false); (str "notes", false); (str "x.idb", false)] d);
    [done|done|]. split; [left|]. exists (str "sw"). split; [right; left|].
  by apply (bool_decide_unpack (_ /\ _ /\ _ /\ _)).
Qed.

Lemma distribution_reads_witness : exists d, OpenDist demo_dist = Ok d /\
  exists prod, prod ∈ Products d /\ Name prod = str "eoe" /\ BadLines prod = [] /\
    length (Entries prod) = length demo_pieces /\
    forall i p, demo_pieces.*1 !! i = Some p -> is_file (pc_entry p) = true ->
      exists e, Entries prod !! i = Some e /\ e = with_offset (Offset e) (pc_entry p) /\
        (Open demo_dist (after_opens demo_dist d [(str "eoe", demo_config)]) (str "eoe") e).1 =
          (if CmpSize e =? 0 then Ok (Plain (MkStream (pc_data p) None))
           else match Unixcompress.NewReader (MkStream (pc_data p) None) with
                | inl z => Ok (Compressed z)
                | inr err => Err (UncompressErr (Path e) err)
                end).
Proof.
  destruct demo_dist_opens as (d & Hd & Hin). exists d. split; [exact Hd|].
  exact (distribution_reads demo_dist d (str "eoe") (bytes_file demo_idb) demo_tag demo_pieces _
    Hd Hin eq_refl demo_writes eq_refl demo_laid_out demo_holds).
Defined.

(** A directory's products are the names [P] with a manifest file [P.idb]
    and an archive image, a file [P.<image>] whose image has no dot; they come
    in order. *)
Theorem OpenDist_products fs names d : fs_readdir fs = Ok names -> OpenDist fs = Ok d ->
  Sorted bytes_le (Name <$> Products d) /\
  forall P, P ∈ Name <$> Products d <->
    (P ++ str ".idb", false) ∈ names /\
    exists image, (P ++ dot :: image, false) ∈ names /\ P <> [] /\ dot ∉ image /\ image <> [] /\ image <> str "idb".
Proof. apply OpenDist_names. Qed.

Lemma OpenDist_products_witness : exists d, OpenDist demo_dist = Ok d /\
  (Sorted bytes_le (Name <$> Products d) /\
   forall P, P ∈ Name <$> Products d <->
     (P ++ str ".idb", false) ∈ [(str "eoe.idb", false); (str "eoe.sw", false); (str "notes", false); (str "x.idb", false)] /\
     exists image, (P ++ dot :: image, false) ∈ [(str "eoe.idb", false); (str "eoe.sw", false); (str "notes", false); (str "x.idb", false)]
       /\ P <> [] /\ dot ∉ image /\ image <> [] /\ image <> str "idb").
Proof.
  destruct demo_dist_opens as (d & Hd & _). exists d. split; [exact Hd|]. exact (OpenDist_products demo_dist _ d eq_refl Hd).
Defined.

(** A record that opens is the one its entry names, wherever the entry says it
    is: whatever the manifest's offsets and sizes, the record lies inside the
    archive, after the signature, its header spells the entry's path, and the
    bytes read are the ones stored after that header; anything else is an
    error. *)
Theorem Open_sound fs d product e img s d' :
  cache_ok fs d -> holds fs (archive_name product e) img -> wf_bytes img ->
  CmpSize e = 0 -> Open fs d product e = (Ok (Plain s), d') ->
  let start := Offset e + 2 + zlen (Path e) in
  sigLen <= Offset e /\ start + Stored e <= zlen img /\
  s = MkStream (sub img start (Stored e)) None /\
  sub img (Offset e) (start + Stored e - Offset e) = record_bytes (Path e) (sub img start (Stored e)).
Proof.
  intros Hc (f & ra & Ho & Hs & Hr & Hra) Hwf Hz. unfold Open.
  destruct (archive_cached fs d (archive_name product e) Hc) as (d1 & -> & _).
  unfold open_archive. rewrite Ho, Hs, Hr. destruct (zlen img <? sigLen); [done|].
  destruct (ra 0 sigLen) as [sig [err|]]; [done|]. destruct (_ || _); [done|]. cbn [a_err a_r a_size].
  destruct (record ra (zlen img) e) as [rec| |] eqn:Hrec; [|done..].
  rewrite Hz, Z.eqb_refl. intros [= <- _]. by apply (record_sound ra img e rec).
Qed.

Lemma Open_sound_witness :
  let start := 13 + 2 + zlen (Path demo_config) in
  sigLen <= 13 /\ start + 5 <= zlen demo_sw /\
  MkStream (str "hello") None = MkStream (sub demo_sw start 5) None /\
  sub demo_sw 13 (start + 5 - 13) = record_bytes (Path demo_config) (sub demo_sw start 5).
Proof.
  apply (Open_sound demo_dist (MkDist [] ∅) (str "eoe") demo_config demo_sw (MkStream (str "hello") None)
    (Open demo_dist (MkDist [] ∅) (str "eoe") demo_config).2).
  - intros name a. cbn. by rewrite lookup_empty.
  - exists (bytes_file demo_sw), (image_reader demo_sw). split_and!; [done|done|done|apply image_reader_ok].
  - apply (bool_decide_unpack _). vm_compute. exact I.
  - reflexivity.
  - vm_compute. reflexivity.
Defined.
