(* ===== verification/Coalesce.v ===== *)
(** The output of a shell session ([instcmd/shell.go]): writes below a size are
    held and sent together, and what is held goes out before anything the
    client could wait for or see in another order. *)
From S2P Require Import Prelude.

Definition smallWrite : Z := 512.
Definition coalesceBuffer : Z := 16 * 1024.

(** The connection: what [Write] answers. Standard output and standard error
    are two writers. *)
Inductive stream_id := StdOut | StdErr.

Section coalesced.
Context {W E : Type} (conn : stream_id -> bytes -> W -> (Z * option E) * W).

(** [coalescedOutput]: the writer it wraps is part of the world [W]. *)
Record coalescedOutput := MkOut { buf : bytes; direct : bool }.

Definition newCoalescedOutput : coalescedOutput := MkOut [] false.

Definition out_state : Type := coalescedOutput * W.

(** [flushLocked]: the buffer is empty after, sent or not. *)
Definition flushLocked (s : out_state) : option E * out_state :=
  let '(o, w) := s in
  if bool_decide (buf o = []) then (None, s)
  else let '((_, err), w) := conn StdOut (buf o) w in (err, (MkOut [] (direct o), w)).

Definition Write (p : bytes) (s : out_state) : (Z * option E) * out_state :=
  let now := direct s.1 || (smallWrite <=? zlen p) in
  let '(err, s) := if now || (coalesceBuffer <? zlen (buf s.1) + zlen p) then flushLocked s else (None, s) in
  match err with
  | Some e => ((0, Some e), s)
  | None =>
      let '(o, w) := s in
      if negb now then ((zlen p, None), (MkOut (buf o ++ p) (direct o), w))
      else let '(r, w) := conn StdOut p w in (r, (o, w))
  end.

Definition Flush (s : out_state) : option E * out_state := flushLocked s.

Definition passThrough (s : out_state) : option E * out_state := flushLocked (MkOut (buf s.1) true, s.2).

(** [flushBeforeWrite.Write]. *)
Definition err_Write (p : bytes) (s : out_state) : (Z * option E) * out_state :=
  match flushLocked s with
  | (Some e, s) => ((0, Some e), s)
  | (None, (o, w)) => let '(r, w) := conn StdErr p w in (r, (o, w))
  end.

(** [flushBeforeRead.Read], around a read of the world. *)
Definition in_Read {A} (read : W -> (A + E) * W) (s : out_state) : (A + E) * out_state :=
  match flushLocked s with
  | (Some e, s) => (inr e, s)
  | (None, (o, w)) => let '(r, w) := read w in (r, (o, w))
  end.

(** ** What a session does with its output *)

Inductive op := Out (p : bytes) | Errw (p : bytes) | Flushed | Direct | Ask.

(** The bytes of an operation, each with the stream it is for. *)
Definition tagged (i : stream_id) (p : bytes) : list (stream_id * Z) := pair i <$> p.
Definition op_bytes (a : op) : list (stream_id * Z) :=
  match a with Out p => tagged StdOut p | Errw p => tagged StdErr p | _ => [] end.

(** [Ask]: a read of the client's input; what it gives is nothing to the output. *)
Definition do_op (a : op) (s : out_state) : option E * out_state :=
  match a with
  | Out p => let '((_, err), s) := Write p s in (err, s)
  | Errw p => let '((_, err), s) := err_Write p s in (err, s)
  | Flushed => Flush s
  | Direct => passThrough s
  | Ask => let '(r, s) := in_Read (fun w => (inl tt, w)) s in (match r with inl _ => None | inr e => Some e end, s)
  end.

Definition do_ops (ops : list op) (s : out_state) : out_state := foldl (fun s a => (do_op a s).2) s ops.

(** A write that is refused: what is held has to go out before it, and cannot. *)
Definition flush_first (a : op) (s : out_state) : bool :=
  match a with Out p => direct s.1 || (smallWrite <=? zlen p) || (coalesceBuffer <? zlen (buf s.1) + zlen p) | _ => true end.
Definition refused (a : op) (s : out_state) : bool := flush_first a s && bool_decide (is_Some (flushLocked s).1).

(** The operations that were not. *)
Fixpoint kept (ops : list op) (s : out_state) : list op :=
  match ops with [] => [] | a :: ops => (if refused a s then [] else [a]) ++ kept ops (do_op a s).2 end.

(** The buffer never grows past its capacity, whatever the connection does. *)
Definition held (s : out_state) : Prop := zlen (buf s.1) <= coalesceBuffer.

Lemma flushLocked_empty s : buf (flushLocked s).2.1 = [].
Proof.
  destruct s as [o w]. unfold flushLocked. case_bool_decide as H; [done|].
  by destruct (conn StdOut (buf o) w) as [[n err] w'].
Qed.

Lemma held_empty s : buf s.1 = [] -> held s.
Proof. unfold held. intros ->. by vm_compute. Qed.

Lemma Write_held p s : held s -> held (Write p s).2.
Proof.
  intros Hs. unfold Write. set (now := direct s.1 || _).
  pose proof (held_empty _ (flushLocked_empty s)) as Hf. pose proof (flushLocked_empty s) as He.
  destruct (now || (coalesceBuffer <? _)) eqn:Enow.
  - destruct (flushLocked s) as [[e|] [o w]]; [done|]. cbn [snd fst] in *. destruct now eqn:Hn; cbn [negb].
    + by destruct (conn StdOut p w).
    + unfold held. cbn [fst snd buf]. rewrite He. cbn [app]. subst now. zbool. unfold smallWrite, coalesceBuffer in *. lia.
  - destruct s as [o w]. cbn [fst snd] in *. destruct now; [done|]. cbn [negb snd]. unfold held. cbn [fst buf].
    rewrite zlen_app. cbn in Enow. zbool. lia.
Qed.

Lemma do_op_held a s : held s -> held (do_op a s).2.
Proof.
  intros Hs. pose proof (held_empty _ (flushLocked_empty s)) as Hf. destruct a as [p|p| | |]; cbn [do_op].
  - pose proof (Write_held p s Hs) as H. by destruct (Write p s) as [[n err] s'].
  - unfold err_Write. destruct (flushLocked s) as [[e|] [o w]]; [done|]. by destruct (conn StdErr p w) as [[n err] w'].
  - exact Hf.
  - apply held_empty, flushLocked_empty.
  - unfold in_Read. by destruct (flushLocked s) as [[e|] [o w]].
Qed.

(** Once the session stopped holding, nothing is held. *)
Definition passing (s : out_state) : Prop := direct s.1 = true /\ buf s.1 = [].

Lemma flushLocked_direct s : direct (flushLocked s).2.1 = direct s.1.
Proof. destruct s as [o w]. unfold flushLocked. case_bool_decide; [done|]. by destruct (conn StdOut (buf o) w) as [[n err] w']. Qed.

Lemma flushed_passing s : direct s.1 = true -> passing (flushLocked s).2.
Proof. intros H. split; [by rewrite flushLocked_direct|apply flushLocked_empty]. Qed.

Lemma do_op_passing a s : passing s \/ a = Direct -> passing (do_op a s).2.
Proof.
  intros [Hp| ->]; [|by apply flushed_passing]. pose proof (flushed_passing s (proj1 Hp)) as Hf. destruct a as [p|p| | |]; cbn [do_op].
  - unfold Write. rewrite (proj1 Hp). cbn [orb negb]. destruct (flushLocked s) as [[e|] [o w]]; [done|]. by destruct (conn StdOut p w) as [[n err] w'].
  - unfold err_Write. destruct (flushLocked s) as [[e|] [o w]]; [done|]. by destruct (conn StdErr p w) as [[n err] w'].
  - exact Hf.
  - by apply flushed_passing.
  - unfold in_Read. by destruct (flushLocked s) as [[e|] [o w]].
Qed.

(** A write that fails drops what was held with the error and nothing else: the
    output goes on as a new one. *)
Lemma Write_fails p s e s' : Write p s = ((0, Some e), s') -> buf s'.1 = [].
Proof.
  unfold Write. set (now := direct s.1 || _). pose proof (flushLocked_empty s) as He.
  destruct (now || _) eqn:Enow.
  - destruct (flushLocked s) as [[e'|] [o w]]; [by intros [= _ <-]|]. destruct now; cbn [negb].
    + destruct (conn StdOut p w) as [r w']. by intros [= _ <-].
    + by intros [= ? ?].
  - destruct s as [o w]. destruct now; [done|]. by intros [= ? ?].
Qed.
End coalesced.

(** ** What the connection was given *)

Section given.
Context {W E : Type} (conn : stream_id -> bytes -> W -> (Z * option E) * W).

(** What the connection was given so far, byte for byte, with the stream of each. *)
Definition logged (i : stream_id) (p : bytes) (w : W * list (stream_id * Z)) : (Z * option E) * (W * list (stream_id * Z)) :=
  let '(r, w1) := conn i p w.1 in (r, (w1, w.2 ++ tagged i p)).

Abbreviation state := (out_state (W := W * list (stream_id * Z))).

(** What it was given, and what is held for it. *)
Definition given (s : state) : list (stream_id * Z) := s.2.2 ++ tagged StdOut (buf s.1).

Lemma on_stream_app i p q : tagged i (p ++ q) = tagged i p ++ tagged i q.
Proof. apply fmap_app. Qed.

Lemma flushLocked_given s : (flushLocked logged s).2.2.2 = given s.
Proof.
  destruct s as [o w]. unfold flushLocked, given. case_bool_decide as H; cbn [fst snd].
  - rewrite H. by rewrite app_nil_r.
  - unfold logged. by destruct (conn StdOut (buf o) w.1) as [[n err] w1].
Qed.

Lemma flushed_given s : given (flushLocked logged s).2 = given s.
Proof. unfold given at 1. rewrite flushLocked_given, flushLocked_empty. apply app_nil_r. Qed.

(** An operation that is not refused adds its bytes, after what there was. *)
Lemma do_op_given a s : given (do_op logged a s).2 = given s ++ (if refused logged a s then [] else op_bytes a).
Proof.
  pose proof (flushLocked_given s) as Hl. pose proof (flushed_given s) as Hf. pose proof (flushLocked_empty logged s) as He.
  unfold refused. destruct a as [p|p| | |]; cbn [do_op flush_first op_bytes andb].
  - unfold Write. set (now := direct s.1 || _). destruct (now || (coalesceBuffer <? _)) eqn:En; cbn [andb].
    + destruct (flushLocked logged s) as [[e|] [o w]]; cbn [fst snd] in *.
      * rewrite bool_decide_true by (by eexists). by rewrite app_nil_r.
      * rewrite bool_decide_false by (by intros [? ?]). destruct now; cbn [negb].
        -- unfold logged. destruct (conn StdOut p w.1) as [[n err] w1]. unfold given at 1. cbn [fst snd]. by rewrite He, Hl, app_nil_r.
        -- unfold given at 1. cbn [fst snd buf]. by rewrite He, Hl.
    + destruct now; [done|]. destruct s as [o w]. cbn [negb]. unfold given. cbn [fst snd buf]. by rewrite on_stream_app, app_assoc.
  - unfold err_Write. destruct (flushLocked logged s) as [[e|] [o w]]; cbn [fst snd] in *.
    + rewrite bool_decide_true by (by eexists). by rewrite app_nil_r.
    + rewrite bool_decide_false by (by intros [? ?]). unfold logged. destruct (conn StdErr p w.1) as [[n err] w1]. unfold given at 1. cbn [fst snd].
      by rewrite He, Hl, app_nil_r.
  - unfold Flush. rewrite Hf. by destruct (bool_decide _); rewrite app_nil_r.
  - unfold passThrough. rewrite flushed_given. by destruct (bool_decide _); rewrite app_nil_r.
  - unfold in_Read. destruct (flushLocked logged s) as [[e|] [o w]]; cbn [fst snd] in *; rewrite Hf; by destruct (bool_decide _); rewrite app_nil_r.
Qed.

Lemma do_ops_given ops s : given (do_ops logged ops s) = given s ++ mjoin (op_bytes <$> kept logged ops s).
Proof.
  revert s. induction ops as [|a ops IH]; intros s; cbn [kept]; [by rewrite app_nil_r|]. change (do_ops logged (a :: ops) s) with (do_ops logged ops (do_op logged a s).2).
  rewrite IH, do_op_given, <- app_assoc. by destruct (refused logged a s).
Qed.

Lemma do_ops_held ops s : held s -> held (do_ops logged ops s).
Proof. revert s. induction ops as [|a ops IH]; intros s Hs; [done|]. by apply IH, do_op_held. Qed.

Lemma do_ops_passing ops s : passing s \/ Direct ∈ ops -> passing (do_ops logged ops s).
Proof.
  revert s. induction ops as [|a ops IH]; intros s H; [by destruct H as [H|H%not_elem_of_nil]|]. apply IH.
  destruct H as [H|[<-|H]%elem_of_cons]; [left; apply do_op_passing; by left|left; apply do_op_passing; by right|by right].
Qed.

(** What is refused is answered with the error of the flush. *)
Lemma refused_error a s : refused logged a s = true -> is_Some (do_op logged a s).1.
Proof.
  unfold refused. intros [Hf [e He]%bool_decide_eq_true]%andb_true_iff. destruct a as [p|p| | |]; cbn [do_op flush_first] in *.
  - unfold Write. rewrite Hf. destruct (flushLocked logged s) as [err s']. cbn [fst] in He. subst err. by eexists.
  - unfold err_Write. destruct (flushLocked logged s) as [err s']. cbn [fst] in He. subst err. by eexists.
  - by eexists.
  - unfold passThrough. destruct s as [o w]. unfold flushLocked in *. cbn [fst snd buf direct] in *. destruct (bool_decide _); [done|].
    destruct (logged StdOut (buf o) w) as [[n err] w']. cbn [fst] in *. by eexists.
  - unfold in_Read. destruct (flushLocked logged s) as [err s']. cbn [fst] in He. subst err. by eexists.
Qed.

Lemma kept_all ops s : (forall i p w, (conn i p w).1.2 = None) -> kept logged ops s = ops.
Proof.
  intros Hc. revert s. induction ops as [|a ops IH]; intros s; cbn [kept]; [done|]. rewrite IH. unfold refused. rewrite bool_decide_false; [by rewrite andb_false_r|].
  destruct s as [o w]. unfold flushLocked. case_bool_decide; [by intros [? ?]|]. unfold logged. pose proof (Hc StdOut (buf o) w.1) as H0.
  destruct (conn StdOut (buf o) w.1) as [[n err] w1]. cbn in *. subst. by intros [? ?].
Qed.

(** C35. Holding writes shows the client nothing that it would not have seen. Whatever the
    connection answers: what it was given, byte for byte with the stream of each, and
    then what is held, is what the session wrote, in order, save the writes that were
    refused because what was held before them could not be sent; each of those was
    answered with that error, and a connection that never fails refuses none. Nothing
    is held once a flush was tried, nor when the client's input is read, which is not
    when the flush failed; nor ever once the session stopped holding; and at most the
    buffer's capacity is. *)
Theorem coalesced_transparent (ops : list op) (w : W) :
  let start := (newCoalescedOutput, (w, [])) in
  let s := do_ops logged ops start in
  s.2.2 ++ tagged StdOut (buf s.1) = mjoin (op_bytes <$> kept logged ops start) /\
  (forall a, refused logged a s = true -> is_Some (do_op logged a s).1) /\
  ((forall i p w, (conn i p w).1.2 = None) -> kept logged ops start = ops) /\
  zlen (buf s.1) <= coalesceBuffer /\ (Direct ∈ ops -> buf s.1 = []) /\
  let '(err, s') := Flush logged s in
  s'.2.2 = mjoin (op_bytes <$> kept logged ops start) /\ buf s'.1 = [] /\
  forall A (read : W * list (stream_id * Z) -> (A + E) * (W * list (stream_id * Z))),
    in_Read logged read s = match err with Some e => (inr e, s') | None => let '(r, w') := read s'.2 in (r, (s'.1, w')) end.
Proof.
  cbn zeta. set (s := do_ops logged ops _). pose proof (do_ops_given ops (newCoalescedOutput, (w, []))) as Hg. fold s in Hg. change (given s = mjoin (op_bytes <$> kept logged ops (newCoalescedOutput, (w, [])))) in Hg.
  split; [exact Hg|]. split; [intros a; apply refused_error|]. split; [apply kept_all|].
  split; [apply do_ops_held, held_empty; done|]. split; [intros H; apply do_ops_passing; by right|].
  pose proof (flushLocked_given s) as Hl. pose proof (flushLocked_empty logged s) as He. unfold Flush, in_Read. destruct (flushLocked logged s) as [err [o w']]. cbn [fst snd] in *.
  split_and!; [by rewrite Hl|done|]. intros A read. by destruct err.
Qed.
End given.
