(* ===== verification/Interrupt.v ===== *)
(** The interrupt controller of a shell session ([transferInterruptController] of
    [instcmd/shell.go]): bytes of the client's callback connection, and file
    transfers that begin and finish, in any order. One goroutine owns the state,
    so a session is a sequence of its steps. *)
From S2P Require Import Prelude.

(** [signals] holds the bytes that wait in the channel. [running] is false once
    the goroutine has stopped. [past] is the connection's write deadline: in the
    past, or none. *)
Record ctl := MkCtl {
  active : Z;
  interrupted : bool;
  disabled : bool;
  suspended : bool;
  deadlineSet : bool;
  closed : bool;
  signals : list Z;
  running : bool;
  past : bool;
}.

Definition newController : ctl := MkCtl 0 false false false false false [] true false.

Definition set_signals (q : list Z) (c : ctl) : ctl :=
  MkCtl (active c) (interrupted c) (disabled c) (suspended c) (deadlineSet c) (closed c) q (running c) (past c).

Section controller.
(** Whether the connection can set a write deadline. *)
Context (deadline : bool).

(** [interrupt]; [ok]: the connection took the deadline. *)
Definition interrupt (ok : bool) (b : Z) (c : ctl) : ctl :=
  if negb (b =? 2) then c
  else if negb (closed c) && negb (disabled c) && negb (suspended c) && (0 <? active c) && negb (interrupted c) then
    let set := deadline && ok in
    MkCtl (active c) true (disabled c) (suspended c) (set || deadlineSet c) (closed c) (signals c) (running c) (set || past c)
  else c.

(** [clearDeadlineLocked], with [interrupted] reset before it. *)
Definition clear (c : ctl) : ctl :=
  let set := deadlineSet c && deadline in
  MkCtl (active c) false (disabled c) (suspended c) (negb set && deadlineSet c) (closed c) (signals c) (running c)
    (negb set && past c).

(** A transfer is accepted before the session closes; the first of a group drops
    the bytes that wait. *)
Definition begin_ (c : ctl) : ctl :=
  if negb (running c) || closed c then c
  else
    let c := if active c =? 0 then set_signals [] c else c in
    MkCtl (active c + 1) (interrupted c) (disabled c) (suspended c) (deadlineSet c) (closed c) (signals c) (running c) (past c).

Definition finishLocked (c : ctl) : ctl :=
  let c := MkCtl (active c - 1) (interrupted c) (disabled c) (suspended c) (deadlineSet c) (closed c) (signals c) (running c) (past c) in
  if active c =? 0 then clear c else c.

Definition disable (c : ctl) : ctl :=
  if negb (running c) then c
  else clear (MkCtl (active c) (interrupted c) true (suspended c) (deadlineSet c) (closed c) (signals c) (running c) (past c)).

Definition setSuspended (v : bool) (c : ctl) : ctl :=
  if negb (running c) then c
  else MkCtl (active c) (interrupted c) (disabled c) v (deadlineSet c) (closed c) (signals c) (running c) (past c).

(** [close]: no transfer begins any more; once the goroutine has stopped, what is
    left is cleared if no transfer is active. *)
Definition close_ (c : ctl) : ctl :=
  MkCtl (active c) (interrupted c) (disabled c) (suspended c) (deadlineSet c) true (signals c) (running c) (past c).

Definition stop (c : ctl) : ctl :=
  let c := MkCtl (active c) (interrupted c) (disabled c) (suspended c) (deadlineSet c) (closed c) (signals c) false (past c) in
  if active c =? 0 then clear c else c.

(** ** Steps *)

(** [Arrive]: a byte comes from the client. [Take]: the goroutine reads one. The
    rest are calls of the shell; a transfer finishes once, after it began. *)
Inductive label := Arrive (b : Z) | Take (ok : bool) | Begin | Finish | Disable | Suspend (v : bool) | Close | Stop.

#[export] Instance label_eq_dec : EqDecision label.
Proof. solve_decision. Defined.

Definition next (a : label) (c : ctl) : ctl :=
  match a with
  | Arrive b => set_signals (signals c ++ [b]) c
  | Take ok =>
      match signals c with
      | b :: q => if running c then interrupt ok b (set_signals q c) else c
      | [] => c
      end
  | Begin => begin_ c
  | Finish => finishLocked c
  | Disable => disable c
  | Suspend v => setSuspended v c
  | Close => close_ c
  | Stop => stop c
  end.

Inductive step : ctl -> label -> ctl -> Prop :=
| step_next c a : (a = Finish -> 0 < active c) -> (a = Stop -> closed c = true) -> step c a (next a c).

(** A session so far: its state, and the labels since the transfers that are
    active now began. *)
Inductive session : list label -> ctl -> list label -> Prop :=
| session_new : session [] newController []
| session_step t c r a c' : session t c r -> step c a c' ->
    session (t ++ [a]) c' (if bool_decide (a = Begin) && (active c =? 0) then [] else r ++ [a]).

(** What holds of the state, and of the bytes and the interrupt against the labels
    since the active transfers began. *)
Record inv (t : list label) (c : ctl) (r : list label) : Prop := {
  inv_active : 0 <= active c;
  inv_int : interrupted c = true -> 0 < active c /\ Arrive 2 ∈ r /\ disabled c = false;
  inv_dead : past c = deadlineSet c /\ (deadlineSet c = true -> interrupted c = true /\ deadline = true);
  inv_queue : 0 < active c -> Forall (fun b => Arrive b ∈ r) (signals c);
  inv_disabled : Disable ∈ t -> running c = true -> disabled c = true;
  inv_stopped : running c = false -> closed c = true;
}.

Lemma clear_dead c : past c = deadlineSet c -> (deadlineSet c = true -> deadline = true) ->
  past (clear c) = false /\ deadlineSet (clear c) = false.
Proof. intros Hp Hd. unfold clear. cbn. rewrite Hp. destruct (deadlineSet c), deadline; try done. by specialize (Hd eq_refl). Qed.

Lemma inv_weaken t c r a : inv t c r -> a <> Disable -> inv (t ++ [a]) c (r ++ [a]).
Proof.
  intros [H1 H2 H3 H4 H5 H6] Ha. split; try done.
  - intros Hi. destruct (H2 Hi) as (? & ? & ?). split_and!; [done| |done]. apply elem_of_app. by left.
  - intros Hc. eapply Forall_impl; [by apply H4|]. intros b Hb. apply elem_of_app. by left.
  - intros [Hin|Hin]%elem_of_app; [by apply H5|]. by apply list_elem_of_singleton in Hin.
Qed.

(** A state that differs only in what an idle controller has. *)
Lemma inv_clear t c r : inv t c r -> inv t (clear c) r.
Proof.
  intros [H1 H2 H3 H4 H5 H6]. destruct H3 as [H3 H3'].
  destruct (clear_dead c H3) as [Hp Hd]; [by intros [_ ?]%H3'|].
  split; try done. split; [by rewrite Hp, Hd|]. by rewrite Hd.
Qed.

Lemma arrive_inv t c r b : inv t c r -> Arrive b ∈ r -> inv t (set_signals (signals c ++ [b]) c) r.
Proof.
  intros [H1 H2 H3 H4 H5 H6] Hb. split; try done. cbn. intros Ha. apply Forall_app.
  split; [by apply H4|by apply Forall_singleton].
Qed.

Lemma interrupt_inv t c r ok b : inv t c r -> (0 < active c -> Arrive b ∈ r) -> inv t (interrupt ok b c) r.
Proof.
  intros [H1 H2 H3 H4 H5 H6] Hb. unfold interrupt. destruct (b =? 2) eqn:Eb; cbn [negb]; [|done].
  destruct (_ && _) eqn:E; [|done]. zbool. subst b. destruct H3 as [H3 H3'].
  split; cbn; try done.
  - intros _. split_and!; [done|by apply Hb|done].
  - rewrite H3. split; [done|]. intros [Hx|Hx]%orb_true_iff; [|split; [done|by apply H3']].
    apply andb_true_iff in Hx as [? _]. done.
Qed.

Lemma drop_signals t c r b q : inv t c r -> signals c = b :: q ->
  inv t (set_signals q c) r /\ (0 < active c -> Arrive b ∈ r).
Proof.
  intros [H1 H2 H3 H4 H5 H6] Hq. rewrite Hq in H4. split.
  - split; try done. cbn. intros Ha. by apply H4, Forall_cons in Ha as [_ ?].
  - intros Ha. by apply H4, Forall_cons in Ha as [? _].
Qed.

Lemma begin_inv t c r : inv t c r -> inv t (begin_ c) (if active c =? 0 then [] else r).
Proof.
  intros [H1 H2 H3 H4 H5 H6]. unfold begin_.
  assert (Hidle : active c = 0 -> interrupted c = false).
  { intros Hz. destruct (interrupted c); [|done]. destruct (H2 eq_refl). lia. }
  destruct (active c =? 0) eqn:Ez; zbool.
  - specialize (Hidle Ez). destruct (negb (running c) || closed c); split; cbn; try done; try lia.
    + by rewrite Hidle.
    + by rewrite Hidle.
  - destruct (negb (running c) || closed c); split; cbn; try done; try lia.
    + intros Hx. destruct (H2 Hx). split; [lia|done].
    + intros _. apply H4. lia.
Qed.

Lemma finish_inv t c r : inv t c r -> 0 < active c -> inv t (finishLocked c) r.
Proof.
  intros [H1 H2 H3 H4 H5 H6] Ha. unfold finishLocked. set (c' := MkCtl (active c - 1) _ _ _ _ _ _ _ _).
  cbn zeta. change (active c') with (active c - 1). destruct (active c - 1 =? 0) eqn:E; zbool.
  - destruct H3 as [H3 H3']. destruct (clear_dead c' H3) as [Hp Hd]; [by intros [_ ?]%H3'|].
    split; try done; cbn [clear active c']; try lia. split; [by rewrite Hp, Hd|]. by rewrite Hd.
  - split; cbn; try done; try lia.
    + intros Hx. destruct (H2 Hx). split; [lia|done].
    + intros _. by apply H4.
Qed.

Lemma disable_inv t c r : inv t c r -> inv (t ++ [Disable]) (disable c) (r ++ [Disable]).
Proof.
  intros [H1 H2 H3 H4 H5 H6]. unfold disable. destruct (running c) eqn:Er; cbn [negb].
  - set (c' := MkCtl _ _ true _ _ _ _ _ _). destruct H3 as [H3 H3'].
    destruct (clear_dead c' H3) as [Hp Hd]; [by intros [_ ?]%H3'|].
    split; try done; cbn [clear active c' signals].
    + split; [by rewrite Hp, Hd|]. by rewrite Hd.
    + intros Ha. eapply Forall_impl; [by apply H4|]. intros b Hb. apply elem_of_app. by left.
  - split; try done.
    + intros Hx. destruct (H2 Hx) as (? & ? & ?). split_and!; [done| |done]. apply elem_of_app. by left.
    + intros Ha. eapply Forall_impl; [by apply H4|]. intros b Hb. apply elem_of_app. by left.
    + rewrite Er. done.
    + intros _. by apply H6.
Qed.

Lemma plain_inv t c r c' : inv t c r -> active c' = active c -> interrupted c' = interrupted c ->
  disabled c' = disabled c -> deadlineSet c' = deadlineSet c -> signals c' = signals c -> past c' = past c ->
  (running c' = true -> running c = true) -> (running c' = false -> closed c' = true) -> inv t c' r.
Proof. intros [H1 H2 H3 H4 H5 H6] E1 E2 E3 E4 E5 E6 E7 E8. split; rewrite ?E1, ?E2, ?E3, ?E4, ?E5, ?E6; auto. Qed.

Lemma next_inv t c r a : inv t c r -> (a = Finish -> 0 < active c) -> (a = Stop -> closed c = true) ->
  inv (t ++ [a]) (next a c) (if bool_decide (a = Begin) && (active c =? 0) then [] else r ++ [a]).
Proof.
  intros Hi Hf Hs. destruct (decide (a = Disable)) as [->|Hd]; [by apply disable_inv|].
  pose proof (inv_weaken t c r a Hi Hd) as Hw.
  destruct a as [b|ok| | | |v| |]; cbn [next]; try done.
  - rewrite bool_decide_false by done. apply arrive_inv; [done|]. apply elem_of_app. right. by left.
  - rewrite bool_decide_false by done. cbn [andb]. destruct (signals c) as [|b q] eqn:Eq; [done|].
    destruct (running c); [|done]. destruct (drop_signals _ _ _ _ _ Hw Eq). by apply interrupt_inv.
  - rewrite bool_decide_true by done. cbn [andb]. pose proof (begin_inv _ _ _ Hw) as H.
    by destruct (active c =? 0).
  - rewrite bool_decide_false by done. apply finish_inv; auto.
  - rewrite bool_decide_false by done. unfold setSuspended. destruct (running c) eqn:Er; [|done]. cbn [negb andb].
    apply (plain_inv _ c); try done.
  - rewrite bool_decide_false by done. apply (plain_inv _ c); done.
  - rewrite bool_decide_false by done. cbn [andb]. unfold stop. set (c' := MkCtl _ _ _ _ _ _ _ false _).
    assert (Hc' : inv (t ++ [Stop]) c' (r ++ [Stop])) by (apply (plain_inv _ c); try done; intros _; by apply Hs).
    cbn zeta. destruct (active c' =? 0); [by apply inv_clear|done].
Qed.

Lemma session_inv t c r : session t c r -> inv t c r.
Proof.
  induction 1 as [|t c r a c' _ IH Hstep].
  - split; cbn; try done. by intros H%not_elem_of_nil.
  - inv Hstep. by apply next_inv.
Qed.

(** A byte of the client interrupts only a transfer that was under way when it
    came: whatever bytes arrive and however transfers, suspensions and the
    session's end interleave, an interrupt means that a transfer is active and
    that a byte 2 came after the first of the active transfers began, on a
    session that has not turned signals off; a write deadline is on the
    connection only for an interrupt, and none is left once no transfer is
    active. *)
Theorem interrupts_only_transfers t c r : session t c r ->
  0 <= active c /\
  (interrupted c = true -> 0 < active c /\ Arrive 2 ∈ r /\ (running c = true -> Disable ∉ t)) /\
  (past c = true -> interrupted c = true) /\
  (active c = 0 -> interrupted c = false /\ past c = false).
Proof.
  intros Hs. destruct (session_inv t c r Hs) as [H1 H2 [H3 H3'] H4 H5 H6].
  assert (Hp : past c = true -> interrupted c = true) by (rewrite H3; intros Hd; by apply H3').
  split; [done|]. split; [|split; [done|]].
  - intros Hi. destruct (H2 Hi) as (Ha & Hb & Hd). split_and!; [done|done|]. intros Hr Hin.
    rewrite (H5 Hin Hr) in Hd. done.
  - intros Hz. assert (Hi : interrupted c = false).
    { destruct (interrupted c); [|done]. destruct (H2 eq_refl). lia. }
    split; [done|]. destruct (past c); [|done]. by rewrite Hp in Hi.
Qed.

(** A byte 2 that is read while a transfer is active interrupts it. *)
Lemma interrupt_taken ok q c : signals c = 2 :: q -> running c = true -> closed c = false -> disabled c = false ->
  suspended c = false -> 0 < active c -> interrupted (next (Take ok) c) = true.
Proof.
  intros Hq Hr Hc Hd Hs Ha. cbn [next]. rewrite Hq, Hr. unfold interrupt. cbn [Z.eqb Pos.eqb negb set_signals closed disabled suspended active interrupted].
  rewrite Hc, Hd, Hs, (proj2 (Z.ltb_lt 0 _)) by done. cbn [negb andb]. by destruct (interrupted c) eqn:E.
Qed.
End controller.

(** A byte while idle, two transfers that overlap, and a byte between. *)
Definition demo_labels : list label := [Arrive 2; Begin; Begin; Arrive 2; Take true; Finish].

Lemma demo_session : session true demo_labels
  (foldl (fun c a => next true a c) newController demo_labels) [Begin; Arrive 2; Take true; Finish].
Proof.
  assert (Hs : forall t c r a r', session true t c r -> (a = Finish -> 0 < active c) -> (a = Stop -> closed c = true) ->
    r' = (if bool_decide (a = Begin) && (active c =? 0) then [] else r ++ [a]) -> session true (t ++ [a]) (next true a c) r').
  { intros t c r a r' H1 H2 H3 ->. eapply session_step; [done|]. by constructor. }
  unfold demo_labels. change [Arrive 2; Begin; Begin; Arrive 2; Take true; Finish] with
    (((((([] ++ [Arrive 2]) ++ [Begin]) ++ [Begin]) ++ [Arrive 2]) ++ [Take true]) ++ [Finish]).
  rewrite !foldl_app. cbn [foldl].
  apply (Hs _ _ [Begin; Arrive 2; Take true]); [|done..].
  apply (Hs _ _ [Begin; Arrive 2]); [|done..]. apply (Hs _ _ [Begin]); [|done..].
  apply (Hs _ _ []); [|done..]. apply (Hs _ _ [Arrive 2]); [|done..]. apply (Hs _ _ []); [|done..]. constructor.
Qed.

Lemma interrupts_only_transfers_witness :
  let c := foldl (fun c a => next true a c) newController demo_labels in
  (active c = 1 /\ interrupted c = true) /\
  (0 <= active c /\
   (interrupted c = true -> 0 < active c /\ Arrive 2 ∈ [Begin; Arrive 2; Take true; Finish] /\
      (running c = true -> Disable ∉ demo_labels)) /\
   (past c = true -> interrupted c = true) /\ (active c = 0 -> interrupted c = false /\ past c = false)).
Proof.
  cbv zeta. split; [by vm_compute|]. exact (interrupts_only_transfers true _ _ _ demo_session).
Defined.
