(* ===== verification/Shell.v ===== *)
(** The commands of the rsh shell ([instcmd/instcmd.go], [instcmd/shell.go]): what
    the handlers of the interpreter do for [echo], [trap], [test], [cd], [dd],
    [ls], [cat] and [grep], for redirects, and for the interpreter's own look at
    files. *)
From S2P Require Import Prelude Text Path Strconv Strings.

(** An error is what it prints. *)
Abbreviation gerr := bytes.

(** ** The file system *)

(** [f_obs] is the [FileTransferObserver] a file may be. *)
Record File := MkFile { f_ra : ReaderAt; f_size : Z; f_obs : option Z }.

(** [Mtime] is in nanoseconds, [None] for the zero time. *)
Record FileInfo := MkFI {
  Ino : Z; IsDir : bool; Perm : Z; Nlink : Z; UID : Z; GID : Z; ISize : Z; Mtime : option Z;
}.

Definition zeroInfo : FileInfo := MkFI 0 false 0 0 0 0 0 None.

Inductive dst := Stdout | Stderr.

(** What a command runs in: the tree, the two writers and the input the
    interpreter gives it, the transfers of the session, and the clock. [h_client]
    says that standard output is the client's. [h_flush] is [flushOutput] of
    standard output. *)
Record Host (W : Type) := MkHost {
  h_open : bytes -> W -> outcome gerr File * W;
  h_readdir : bytes -> W -> outcome gerr (list bytes) * W;
  h_stat : bytes -> W -> outcome gerr FileInfo * W;
  h_resolve : option (bytes -> W -> outcome gerr (bytes * bytes) * W);
  h_write : dst -> bytes -> W -> (Z * option gerr) * W;
  h_flush : W -> option gerr * W;
  h_client : bool;
  h_stdin : W -> stream;
  h_set_stdin : stream -> W -> W;
  h_begin : W -> W;
  h_finish : W -> W;
  h_interrupted : W -> bool;
  h_transferred : Z -> Z -> Z -> W -> W;
  h_served : bytes -> bytes -> bytes -> W -> W;
  h_now : W -> Z;
}.
Arguments h_open {W}. Arguments h_readdir {W}. Arguments h_stat {W}. Arguments h_resolve {W}.
Arguments h_write {W}. Arguments h_flush {W}. Arguments h_client {W}. Arguments h_stdin {W}.
Arguments h_set_stdin {W}. Arguments h_begin {W}. Arguments h_finish {W}. Arguments h_interrupted {W}.
Arguments h_transferred {W}. Arguments h_served {W}. Arguments h_now {W}.

(** ** The session's state, and commands as actions on it *)

Record shellEnv (W : Type) := MkEnv { cwd : bytes; refused : bool; world : W }.
Arguments MkEnv {W}. Arguments cwd {W}. Arguments refused {W}. Arguments world {W}.

Definition cmd (W A : Type) : Type := shellEnv W -> outcome stuck (A * shellEnv W).

#[export] Instance cmd_ret {W} : MRet (cmd W) := fun A a e => Ok (a, e).
#[export] Instance cmd_bind {W} : MBind (cmd W) := fun A B f m e =>
  match m e with Ok (a, e) => f a e | Err s => Err s | Panic => Panic end.

Definition on_world {W A} (f : W -> A * W) : cmd W A := fun e =>
  let '(a, w) := f (world e) in Ok (a, MkEnv (cwd e) (refused e) w).
Definition tell {W} (f : W -> W) : cmd W unit := on_world (fun w => (tt, f w)).
Definition get_cwd {W} : cmd W bytes := fun e => Ok (cwd e, e).
Definition set_cwd {W} (p : bytes) : cmd W unit := fun e => Ok (tt, MkEnv p (refused e) (world e)).
Definition set_refused {W} : cmd W unit := fun e => Ok (tt, MkEnv (cwd e) true (world e)).
Definition go_panic {W A} : cmd W A := fun _ => Panic.
Definition no_fuel {W A} : cmd W A := fun _ => Err OutOfFuel.

(** Running them. *)
Lemma run_bind {W A B} (m : cmd W A) (f : A -> cmd W B) e :
  (m ≫= f) e = match m e with Ok (a, e) => f a e | Err s => Err s | Panic => Panic end.
Proof. reflexivity. Qed.
Lemma run_ret {W A} (a : A) (e : shellEnv W) : (mret a : cmd W A) e = Ok (a, e).
Proof. reflexivity. Qed.
Lemma run_world {W A} (f : W -> A * W) e :
  on_world f e = Ok ((f (world e)).1, MkEnv (cwd e) (refused e) (f (world e)).2).
Proof. unfold on_world. by destruct (f (world e)). Qed.

(** How a command ends: [interp.ExitStatus], with 0 for no error, or another
    error. *)
Inductive status := Exit (n : Z) | Fail (e : gerr).

#[export] Instance status_eq_dec : EqDecision status.
Proof. solve_decision. Defined.

(** ** Text *)

Definition itoa (n : Z) : bytes := if n <? 0 then 45 :: dec (- n) else dec n.
Definition pad (n : nat) (s : bytes) : bytes := replicate (n - length s) space ++ s.
Definition pad0 (n : nat) (s : bytes) : bytes := replicate (n - length s) 48 ++ s.

(** [strings.Join] with a space. *)
Fixpoint join_space (args : list bytes) : bytes :=
  match args with
  | [] => []
  | [a] => a
  | a :: args => a ++ space :: join_space args
  end.

(** [parseSize]. *)
Definition size_suffix (s : bytes) : Z * bytes :=
  if HasSuffix s (str "k") then (1024, take (length s - 1) s)
  else if HasSuffix s (str "b") then (512, take (length s - 1) s)
  else if HasSuffix s (str "w") then (2, take (length s - 1) s)
  else if HasSuffix s (str "m") then (1024 * 1024, take (length s - 1) s)
  else (1, s).

Definition parseSize (s : bytes) : Z + bytes :=
  let '(mult, s) := size_suffix s in
  match ParseInt s with
  | Ok n => if n <=? 0 then inr s else inl (i64 (n * mult))
  | _ => inr s
  end.

(** [shEcho]: the text it writes. *)
Definition escape_char (c : Z) : option Z :=
  if c =? 110 then Some 10 else if c =? 116 then Some 9 else if c =? 114 then Some 13
  else if c =? 97 then Some 7 else if c =? 98 then Some 8 else if c =? 102 then Some 12
  else if c =? 118 then Some 11 else if c =? backslash then Some backslash else None.

Fixpoint echo_text (s : bytes) : bytes :=
  match s with
  | [] => [newline]
  | c :: t =>
      if negb (c =? backslash) then c :: echo_text t
      else match t with
      | [] => [c; newline]
      | x :: t =>
          if x =? 99 then []
          else match escape_char x with
               | Some y => y :: echo_text t
               | None => backslash :: x :: echo_text t
               end
      end
  end.

(** [passthroughTrap]. *)
Definition passthroughTrap (rest : list bytes) : bool :=
  let sigs := match rest with [] => [] | [_] => rest | _ :: sigs => sigs end in
  forallb (fun s => bool_decide (s = str "EXIT") || bool_decide (s = str "ERR")) sigs.

(** [permString]. *)
Definition perm_bit (perm : Z) (i : nat) : Z :=
  if negb (Z.land perm (Z.shiftl 1 (8 - Z.of_nat i)) =? 0) then at_ (str "rwxrwxrwx") (Z.of_nat i) else 45.
Definition permString (isDir : bool) (perm : Z) : bytes :=
  (if isDir then 100 else 45) :: (perm_bit perm <$> seq 0 9).

Section shell.
Context {W : Type} (H : Host W).

(** Which runes above U+00FF print, [strings.ToLower] of runes that are not
    ASCII, how an [io] error prints, and [regexp.Compile]. *)
Context (printWide : Z -> bool) (lowerWide : Z -> Z) (io_text : io_err -> gerr)
  (regexp : bytes -> outcome gerr (bytes -> bool)).

(** The month's name, day, year, hour and minute of a time. *)
Context (civil : Z -> bytes * Z * Z * Z * Z).

Notation cmd := (cmd W).
Notation quote := (Quote printWide).

(** ** Paths *)

Definition resolve_at (cwd p : bytes) : bytes :=
  let p := match p with [] => [dot] | _ => p end in
  Clean (if HasPrefix p [slash] then p else cwd ++ [slash] ++ p).

(** [strings.TrimPrefix] of a slash. *)
Definition strip (p : bytes) : bytes := match p with c :: t => if c =? slash then t else p | [] => [] end.
Definition strip_end (p : bytes) : bytes := default p (CutSuffix p [slash]).

Definition resolve (p : bytes) : cmd bytes := d ← get_cwd; mret (resolve_at d p).
Definition fsPath (p : bytes) : cmd bytes := abs ← resolve p; mret (strip abs).

Definition Open (p : bytes) : cmd (outcome gerr File) := on_world (h_open H p).
Definition ReadDir (p : bytes) : cmd (outcome gerr (list bytes)) := on_world (h_readdir H p).
Definition Stat (p : bytes) : cmd (outcome gerr FileInfo) := on_world (h_stat H p).
Definition Write (d : dst) (p : bytes) : cmd (Z * option gerr) := on_world (h_write H d p).
Definition interrupted : cmd bool := on_world (fun w => (h_interrupted H w, w)).

(** [fmt.Fprintln] to a writer, its error unused. *)
Definition println (d : dst) (s : bytes) : cmd unit := _ ← Write d (s ++ [newline]); mret tt.
Definition warnf (s : bytes) : cmd unit := println Stderr s.
Definition refusef (s : bytes) : cmd unit := _ ← println Stderr s; set_refused.

(** [logServed]. *)
Definition logServed (raw : bytes) : cmd unit :=
  abs ← resolve raw;
  p ← fsPath raw;
  match h_resolve H with
  | Some f =>
      r ← on_world (f p);
      match r with
      | Ok (image, path) => tell (h_served H abs image path)
      | _ => tell (h_served H abs [] [])
      end
  | None => tell (h_served H abs [] [])
  end.

Definition fileTransferred (f : File) (offset len : Z) : cmd unit :=
  match f_obs f with
  | Some o => if h_client H then tell (h_transferred H o offset len) else mret tt
  | None => mret tt
  end.

(** ** [test] *)

Definition unaryTest (op operand : bytes) : cmd (bool * option gerr) :=
  let op_is s := bool_decide (op = s) in
  let stat := p ← fsPath operand; Stat p in
  if op_is (str "-z") then mret (bool_decide (operand = []), None)
  else if op_is (str "-n") then mret (negb (bool_decide (operand = [])), None)
  else if op_is (str "-f") then i ← stat; mret (match i with Ok i => negb (IsDir i) | _ => false end, None)
  else if op_is (str "-d") then i ← stat; mret (match i with Ok i => IsDir i | _ => false end, None)
  else if op_is (str "-e") then i ← stat; mret (match i with Ok _ => true | _ => false end, None)
  else if op_is (str "-s") then i ← stat; mret (match i with Ok i => 0 <? ISize i | _ => false end, None)
  else mret (false, Some (op ++ str ": not supported")).

Definition compare_ints (op : bytes) (a b : Z) : option bool :=
  if bool_decide (op = str "-eq") then Some (a =? b)
  else if bool_decide (op = str "-ne") then Some (negb (a =? b))
  else if bool_decide (op = str "-lt") then Some (a <? b)
  else if bool_decide (op = str "-le") then Some (a <=? b)
  else if bool_decide (op = str "-gt") then Some (b <? a)
  else if bool_decide (op = str "-ge") then Some (b <=? a)
  else None.

Definition binaryTest (a op b : bytes) : bool * option gerr :=
  if bool_decide (op = str "=") || bool_decide (op = str "==") then (bool_decide (a = b), None)
  else if bool_decide (op = str "!=") then (negb (bool_decide (a = b)), None)
  else match compare_ints op 0 0 with
  | None => (false, Some (op ++ str ": not supported"))
  | Some _ =>
      match ParseInt (TrimSpace a), ParseInt (TrimSpace b) with
      | Ok an, Ok bn => (default false (compare_ints op an bn), None)
      | _, _ => (false, Some (a ++ [space] ++ op ++ [space] ++ b ++ str ": integer expression expected"))
      end
  end.

Definition runTest (args : list bytes) : cmd (bool * option gerr) :=
  match args with
  | [] => mret (false, None)
  | [a] => mret (negb (bool_decide (a = [])), None)
  | [a; b] =>
      if bool_decide (a = str "!") then mret (bool_decide (b = []), None)
      else unaryTest a b
  | [a; op; b] => mret (binaryTest a op b)
  | _ => mret (false, Some (str "unsupported expression: " ++ join_space args))
  end.

Definition evalTest (name : bytes) (operands : list bytes) : cmd bool :=
  let run operands :=
    '(ok, err) ← runTest operands;
    _ ← match err with Some e => println Stderr (str "test: " ++ e) | None => mret tt end;
    mret ok in
  if bool_decide (name = [91]) then
    if bool_decide (last operands = Some [93]) then run (take (length operands - 1) operands)
    else _ ← println Stderr (str "[: missing ']'"); mret false
  else run operands.

(** ** [ls] *)

Definition lsDate (now : Z) (mtime : option Z) : bytes :=
  let t := default 0 mtime in
  let age := now - t in
  let '(mon, day, year, hour, minute) := civil t in
  if (182 * 24 * 3600 * 1000000000 <? age) || (age <? 0)
  then mon ++ [space] ++ pad 2 (itoa day) ++ str "  " ++ pad 4 (itoa year)
  else mon ++ [space] ++ pad 2 (itoa day) ++ [space] ++ pad0 2 (itoa hour) ++ str ":" ++ pad0 2 (itoa minute).

Definition lsLongLine (now : Z) (withInode : bool) (name : bytes) (i : FileInfo) : bytes :=
  (if withInode then itoa (Ino i) ++ [space] else []) ++
  permString (IsDir i) (Perm i) ++ [space] ++ pad 3 (itoa (Nlink i)) ++ [space] ++ pad 5 (itoa (UID i)) ++ [space] ++
  pad 5 (itoa (GID i)) ++ [space] ++ pad 8 (itoa (ISize i)) ++ [space] ++ lsDate now (Mtime i) ++ [space] ++ name.

(** The flags of [ls]; other letters are ignored. *)
Record ls_args := MkLs { flagI : bool; flagL : bool; flagD : bool; target : bytes }.

Definition is_flag (a : bytes) : bool := HasPrefix a [45] && (1 <? zlen a).

Definition ls_arg (l : ls_args) (a : bytes) : ls_args :=
  if is_flag a then
    let has c := bool_decide (c ∈ drop 1 a) in
    MkLs (flagI l || has 105) (flagL l || has 108) (flagD l || has 100) (target l)
  else MkLs (flagI l) (flagL l) (flagD l) a.

Definition print_line (withInode : bool) (name : bytes) (i : FileInfo) : cmd unit :=
  now ← on_world (fun w => (h_now H w, w)); println Stdout (lsLongLine now withInode name i).

Fixpoint ls_names (names : list bytes) : cmd unit :=
  match names with [] => mret tt | n :: names => _ ← println Stdout n; ls_names names end.

Fixpoint ls_long (withInode : bool) (base : bytes) (names : list bytes) : cmd unit :=
  match names with
  | [] => mret tt
  | n :: names =>
      i ← Stat (strip (base ++ [slash] ++ n));
      _ ← match i with Ok i => print_line withInode n i | _ => mret tt end;
      ls_long withInode base names
  end.

Definition err_text {A} (r : outcome gerr A) : gerr := match r with Err e => e | _ => [] end.

Definition shLs (args : list bytes) : cmd status :=
  let l := foldl ls_arg (MkLs false false false [dot]) args in
  abs ← resolve (target l);
  i ← Stat (strip abs);
  match i with
  | Ok i =>
      if flagD l || negb (IsDir i) then
        _ ← (if flagL l then print_line (flagI l) (target l) i else println Stdout (target l));
        mret (Exit 0)
      else
        names ← ReadDir (strip abs);
        match names with
        | Ok names =>
            _ ← (if flagL l then ls_long (flagI l) (strip_end abs) names else ls_names names);
            mret (Exit 0)
        | r => _ ← warnf (str "ls: " ++ target l ++ str ": " ++ err_text r); mret (Exit 1)
        end
  | r => _ ← warnf (str "ls: " ++ target l ++ str ": " ++ err_text r); mret (Exit 1)
  end.

(** ** Readers *)

(** [io.SectionReader], the interpreter's input, and [io.LimitReader]. *)
Inductive source := Section_ (ra : ReaderAt) (off limit : Z) | Input | Limited (n : Z) (src : source).

(** [io.NewSectionReader]. *)
Definition NewSection (ra : ReaderAt) (off n : Z) : source :=
  Section_ ra off (if off <=? i64 (max_i64 - n) then i64 (n + off) else max_i64).

Fixpoint Read (src : source) (n : Z) : cmd ((bytes * option io_err) * source) :=
  match src with
  | Section_ ra off limit =>
      if limit <=? off then mret (([], Some EOF), src)
      else
        let '(d, e) := ra off (Z.min n (limit - off)) in
        mret ((d, e), Section_ ra (off + zlen d) limit)
  | Input =>
      on_world (fun w =>
        let s := h_stdin H w in
        let d := take (Z.to_nat n) (sdata s) in
        let w := h_set_stdin H (MkStream (drop (Z.to_nat n) (sdata s)) (sfail s)) w in
        (((d, if (zlen d =? 0) && (0 <? n) then Some (stream_end s) else None), Input), w))
  | Limited k src =>
      if k <=? 0 then mret (([], Some EOF), Limited k src)
      else
        '((d, e), src) ← Read src (Z.min n k);
        mret ((d, e), Limited (k - zlen d) src)
  end.

(** [io.ReadFull] into a buffer of [n] bytes; [got] is in it. *)
Fixpoint read_full_from (fuel : nat) (src : source) (n : Z) (got : bytes) : cmd ((bytes * option io_err) * source) :=
  if n <=? zlen got then mret ((got, None), src)
  else match fuel with
  | O => no_fuel
  | S fuel =>
      '((d, e), src) ← Read src (n - zlen got);
      let got := got ++ d in
      match e with
      | None => read_full_from fuel src n got
      | Some e =>
          mret ((got, if n <=? zlen got then None
                      else Some (if bool_decide (e = EOF) && (0 <? zlen got) then UnexpectedEOF else e)), src)
      end
  end.

Definition ReadFull (src : source) (n : Z) : cmd ((bytes * option io_err) * source) :=
  read_full_from (S (Z.to_nat n)) src n [].

(** [io.CopyN(io.Discard, in, n)]: what is read is gone. *)
Definition discard (n : Z) : cmd (option io_err) := on_world (fun w =>
  if n <=? 0 then (None, w)
  else
    let s := h_stdin H w in
    (if zlen (sdata s) <? n then Some (stream_end s) else None,
     h_set_stdin H (MkStream (drop (Z.to_nat n) (sdata s)) (sfail s)) w)).

Definition ErrShortWrite : gerr := str "short write".
Definition ErrClosedPipe : gerr := str "io: read/write on closed pipe".

(** ** [cat] *)

Definition copyBuffer : Z := 32 * 1024.

(** [copyFileTransfer]. *)
Fixpoint copy_loop (fuel : nat) (src : source) : cmd (option gerr) :=
  stop ← interrupted;
  if (stop : bool) then mret (Some ErrClosedPipe)
  else match fuel with
  | O => no_fuel
  | S fuel =>
      '((d, e), src) ← Read src copyBuffer;
      bad ← (if bool_decide (d = []) then mret None
             else
               '(n, werr) ← Write Stdout d;
               match werr with
               | Some e => mret (Some e)
               | None =>
                   stop ← interrupted;
                   mret (if (stop : bool) then Some ErrClosedPipe
                         else if negb (n =? zlen d) then Some ErrShortWrite else None)
               end);
      match bad, e with
      | Some e, _ => mret (Some e)
      | None, Some EOF => on_world (h_flush H)
      | None, Some e => mret (Some (io_text e))
      | None, None => copy_loop fuel src
      end
  end.

(** The rest of the input, until the writer fails ([io.Copy]). *)
Fixpoint copy_input (fuel : nat) : cmd unit :=
  match fuel with
  | O => no_fuel
  | S fuel =>
      '((d, e), _) ← Read Input copyBuffer;
      bad ← (if bool_decide (d = []) then mret false
             else '(n, werr) ← Write Stdout d;
                  mret (match werr with Some _ => true | None => negb (n =? zlen d) end));
      match e with
      | None => if (bad : bool) then mret tt else copy_input fuel
      | Some _ => mret tt
      end
  end.

Fixpoint cat_files (args : list bytes) : cmd status :=
  match args with
  | [] => mret (Exit 0)
  | p :: args =>
      fp ← fsPath p;
      f ← Open fp;
      match f with
      | Ok f =>
          _ ← logServed p;
          err ← copy_loop (S (S (Z.to_nat (f_size f)))) (NewSection (f_ra f) 0 (f_size f));
          stop ← interrupted;
          match err with
          | Some e => mret (if (stop : bool) then Exit 130 else Fail e)
          | None =>
              if (stop : bool) then mret (Exit 130)
              else _ ← fileTransferred f 0 (f_size f); cat_files args
          end
      | r => _ ← warnf (str "cat: " ++ p ++ str ": " ++ err_text r); mret (Exit 1)
      end
  end.

(** A transfer begins, runs and finishes. *)
Definition in_transfer {A} (m : cmd A) : cmd A :=
  _ ← tell (h_begin H); r ← m; _ ← tell (h_finish H); mret r.

Definition shCat (args : list bytes) : cmd status :=
  match args with
  | [] => s ← on_world (fun w => (h_stdin H w, w)); _ ← copy_input (S (length (sdata s))); mret (Exit 0)
  | _ => in_transfer (cat_files args)
  end.

(** ** [dd] *)

Record dd_args := MkDD { dd_file : bytes; dd_bs : Z; dd_ibs : Z; dd_skip : Z; dd_count : option Z }.

Definition dd_default : dd_args := MkDD [] (-1) 512 0 None.

(** One operand: the arguments, or what is wrong and whether it is refused. *)
Definition dd_number (k v : bytes) : Z + bytes :=
  match ParseInt v with Ok n => if n <? 0 then inr v else inl n | _ => inr v end.

Definition dd_arg (a : bytes) (d : dd_args) : dd_args + (bool * gerr) :=
  match cut 61 a with
  | (_, None) => inr (false, str "dd: bad operand " ++ quote a)
  | (k, Some v) =>
      let k_is s := bool_decide (k = s) in
      let size (f : Z -> dd_args) :=
        match parseSize v with
        | inl n => inl (f n)
        | inr s => inr (false, str "dd: " ++ k ++ str ": bad size " ++ quote s)
        end in
      let number (f : Z -> dd_args) :=
        match dd_number k v with
        | inl n => inl (f n)
        | inr s => inr (false, str "dd: " ++ k ++ str ": bad value " ++ quote s)
        end in
      if k_is (str "if") then inl (MkDD v (dd_bs d) (dd_ibs d) (dd_skip d) (dd_count d))
      else if k_is (str "of") then inr (true, str "dd: of=: not supported (read-only)")
      else if k_is (str "bs") then size (fun n => MkDD (dd_file d) n (dd_ibs d) (dd_skip d) (dd_count d))
      else if k_is (str "ibs") then size (fun n => MkDD (dd_file d) (dd_bs d) n (dd_skip d) (dd_count d))
      else if k_is (str "obs") then size (fun _ => d)
      else if k_is (str "skip") || k_is (str "iseek") then
        number (fun n => MkDD (dd_file d) (dd_bs d) (dd_ibs d) n (dd_count d))
      else if k_is (str "seek") || k_is (str "oseek") then number (fun _ => d)
      else if k_is (str "count") then number (fun n => MkDD (dd_file d) (dd_bs d) (dd_ibs d) (dd_skip d) (Some n))
      else inr (true, str "dd: operand " ++ quote k ++ str " not supported")
  end.

Fixpoint dd_parse (args : list bytes) (d : dd_args) : dd_args + (bool * gerr) :=
  match args with
  | [] => inl d
  | a :: args => match dd_arg a d with inl d => dd_parse args d | inr e => inr e end
  end.

Definition dd_block (d : dd_args) : Z := if 0 <? dd_bs d then dd_bs d else dd_ibs d.

(** The buffer: whole input blocks, up to 32 KiB of them. Division by zero
    panics; so does an allocation past the address space. *)
Definition dd_buffer (ibs : Z) : outcome stuck Z :=
  if ibs <? 32 * 1024 then if ibs =? 0 then Panic else Ok (i64 (Z.quot (32 * 1024) ibs * ibs)) else Ok ibs.

Definition maxAlloc : Z := 2 ^ 48.

(** The copying loop: how it ended, the full blocks, whether one was partial, and
    the bytes copied. *)
Record dd_counts := MkCounts { dd_full : Z; dd_partial : bool; dd_copied : Z }.

Fixpoint dd_loop (fuel : nat) (src : source) (ibs bufSize : Z) (c : dd_counts) : cmd (status + dd_counts) :=
  stop ← interrupted;
  if (stop : bool) then mret (inl (Exit 130))
  else match fuel with
  | O => no_fuel
  | S fuel =>
      '((d, e), src) ← ReadFull src bufSize;
      bad ← (if bool_decide (d = []) then mret None
             else
               '(n, werr) ← Write Stdout d;
               stop ← interrupted;
               mret (match werr with
                     | Some e => Some (if (stop : bool) then Exit 130 else Fail e)
                     | None => if (stop : bool) then Some (Exit 130)
                               else if negb (n =? zlen d) then Some (Fail ErrShortWrite) else None
                     end));
      let n := zlen d in
      let c := if bool_decide (d = []) then c
               else MkCounts (i64 (dd_full c + Z.quot n ibs)) (dd_partial c || negb (Z.rem n ibs =? 0)) (i64 (dd_copied c + n)) in
      match bad, e with
      | Some s, _ => mret (inl s)
      | None, None => dd_loop fuel src ibs bufSize c
      | None, Some (OtherIO code) =>
          _ ← println Stderr (str "dd: read: " ++ io_text (OtherIO code)); mret (inl (Exit 1))
      | None, Some _ => mret (inr c)
      end
  end.

Definition records (full : Z) (partial : bool) : bytes := itoa full ++ [43] ++ (if partial then str "1" else str "0").

(** A source and the file it is over. *)
Definition dd_source (d : dd_args) (ibs : Z) : cmd (status + (source * option File)) :=
  if bool_decide (dd_file d = []) then
    if 0 <? dd_skip d then
      e ← discard (i64 (dd_skip d * ibs));
      match e with
      | Some (OtherIO c) => _ ← println Stderr (str "dd: skip: " ++ io_text (OtherIO c)); mret (inl (Exit 1))
      | Some UnexpectedEOF => _ ← println Stderr (str "dd: skip: " ++ io_text UnexpectedEOF); mret (inl (Exit 1))
      | _ => mret (inr (Input, None))
      end
    else mret (inr (Input, None))
  else
    fp ← fsPath (dd_file d);
    f ← Open fp;
    match f with
    | Ok f =>
        _ ← logServed (dd_file d);
        let off := i64 (dd_skip d * ibs) in
        let size := i64 (f_size f - off) in
        let size := if size <? 0 then 0 else size in
        mret (inr (NewSection (f_ra f) off size, Some f))
    | r => _ ← warnf (str "dd: " ++ dd_file d ++ str ": " ++ err_text r); mret (inl (Exit 1))
    end.

(** What is left after the copying loop. *)
Definition dd_end (d : dd_args) (ibs : Z) (f : option File) (c : dd_counts) : cmd status :=
  e ← on_world (h_flush H);
  match e with
  | Some e => stop ← interrupted; mret (if (stop : bool) then Exit 130 else Fail e)
  | None =>
      let r := records (dd_full c) (dd_partial c) in
      _ ← println Stderr (r ++ str " records in" ++ [newline] ++ r ++ str " records out");
      _ ← (match f with Some f => fileTransferred f (i64 (dd_skip d * ibs)) (dd_copied c) | None => mret tt end);
      mret (Exit 0)
  end.

(** [turns] is the fuel of the copying loop: the code has no bound. *)
Definition dd_copy (turns : nat) (d : dd_args) (ibs : Z) (src : source) (f : option File) : cmd status :=
  in_transfer (
    match dd_buffer ibs with
    | Ok bufSize =>
        if (bufSize <? 0) || (maxAlloc <? bufSize) then go_panic
        else
          r ← dd_loop turns src ibs bufSize (MkCounts 0 false 0);
          match r with inl s => mret s | inr c => dd_end d ibs f c end
    | _ => go_panic
    end).

Definition shDD (turns : nat) (args : list bytes) : cmd status :=
  match dd_parse args dd_default with
  | inr (refused, text) => _ ← (if (refused : bool) then refusef text else warnf text); mret (Exit 1)
  | inl d =>
      let ibs := dd_block d in
      r ← dd_source d ibs;
      match r with
      | inl s => mret s
      | inr (src, f) =>
          dd_copy turns d ibs (match dd_count d with Some c => Limited (i64 (c * ibs)) src | None => src end) f
      end
  end.

(** ** [grep] *)

Record grep_args := MkGrep { g_invert : bool; g_icase : bool; g_pattern : option bytes; g_files : list bytes }.

(** The runes of a string. *)
Fixpoint runes_from (fuel : nat) (s : bytes) : list Z :=
  match fuel, s with
  | S fuel, _ :: _ => let '(r, w) := DecodeRune s in r :: runes_from fuel (drop w s)
  | _, _ => []
  end.
Definition runes (s : bytes) : list Z := runes_from (length s) s.

(** The letters of one flag word; [-e] takes the word after it. *)
Fixpoint grep_flags (cs : list Z) (rest : list bytes) (g : grep_args) : (list bytes * grep_args) + Z :=
  match cs with
  | [] => inl (rest, g)
  | c :: cs =>
      if c =? 118 then grep_flags cs rest (MkGrep true (g_icase g) (g_pattern g) (g_files g))
      else if c =? 105 then grep_flags cs rest (MkGrep (g_invert g) true (g_pattern g) (g_files g))
      else if c =? 101 then
        match rest with
        | p :: rest => grep_flags cs rest (MkGrep (g_invert g) (g_icase g) (Some p) (g_files g))
        | [] => grep_flags cs [] g
        end
      else inr c
  end.

Fixpoint grep_parse (fuel : nat) (args : list bytes) (g : grep_args) : grep_args + Z :=
  match fuel, args with
  | S fuel, a :: args =>
      match g_pattern g with
      | None =>
          if is_flag a then
            match grep_flags (runes (drop 1 a)) args g with
            | inl (args, g) => grep_parse fuel args g
            | inr c => inr c
            end
          else grep_parse fuel args (MkGrep (g_invert g) (g_icase g) (Some a) (g_files g))
      | Some _ => grep_parse fuel args (MkGrep (g_invert g) (g_icase g) (g_pattern g) (g_files g ++ [a]))
      end
  | _, _ => inl g
  end.

(** [strings.ToLower]. *)
Definition lower_ascii (c : Z) : Z := if in_range 65 90 c then c + 32 else c.
Definition lower_rune (r : Z) : Z := if r <? RuneSelf then lower_ascii r else lowerWide r.
Definition ToLower (s : bytes) : bytes :=
  if forallb (fun c => c <? RuneSelf) s then lower_ascii <$> s
  else mjoin ((fun r => EncodeRune (lower_rune r)) <$> runes s).

Definition grep_match (name : bytes) (icase : bool) (pattern : bytes) : outcome gerr (bytes -> bool) :=
  if bool_decide (name = str "fgrep") then
    let low s := if (icase : bool) then ToLower s else s in
    Ok (fun line => Contains (low line) (low pattern))
  else regexp (if (icase : bool) then str "(?i)" ++ pattern else pattern).

(** The lines of a [bufio.Scanner] whose buffer is at most [max] bytes: it stops at
    the first that does not fit. *)
Fixpoint fitting (max : Z) (ls : list bytes) : list bytes :=
  match ls with
  | [] => []
  | l :: ls => if max <=? zlen l then [] else dropCR l :: fitting max ls
  end.
Definition scan_lines (max : Z) (data : bytes) : list bytes := fitting max (raw_lines data).

Definition grepLine : Z := 8 * 1024 * 1024.

(** The inputs: the files that open, or standard input, which is read to its end. *)
Fixpoint grep_open (name : bytes) (files : list bytes) : cmd (list (bytes * bytes)) :=
  match files with
  | [] => mret []
  | p :: files =>
      fp ← fsPath p;
      f ← Open fp;
      match f with
      | Ok f =>
          _ ← logServed p;
          rest ← grep_open name files;
          mret ((p, (f_ra f 0 (f_size f)).1) :: rest)
      | r => _ ← warnf (name ++ str ": " ++ p ++ str ": " ++ err_text r); grep_open name files
      end
  end.

Definition grep_inputs (name : bytes) (files : list bytes) : cmd (list (bytes * bytes)) :=
  match files with
  | [] => on_world (fun w => ([(str "(standard input)", sdata (h_stdin H w))], h_set_stdin H (MkStream [] (sfail (h_stdin H w))) w))
  | _ => grep_open name files
  end.

Fixpoint print_lines (prefix : bytes) (ls : list bytes) : cmd unit :=
  match ls with [] => mret tt | l :: ls => _ ← println Stdout (prefix ++ l); print_lines prefix ls end.

Definition selected (g : grep_args) (f : bytes -> bool) (data : bytes) : list bytes :=
  filter (fun l => xorb (f l) (g_invert g) = true) (scan_lines grepLine data).

Fixpoint grep_sources (g : grep_args) (f : bytes -> bool) (srcs : list (bytes * bytes)) : cmd bool :=
  match srcs with
  | [] => mret false
  | (name, data) :: srcs =>
      let ls := selected g f data in
      _ ← print_lines (if (1 <? length (g_files g))%nat then name ++ str ":" else []) ls;
      found ← grep_sources g f srcs;
      mret (negb (bool_decide (ls = [])) || found)
  end.

Definition shGrep (name : bytes) (args : list bytes) : cmd status :=
  match grep_parse (length args) args (MkGrep false false None []) with
  | inr c => _ ← refusef (name ++ str ": -" ++ EncodeRune c ++ str ": not supported"); mret (Exit 2)
  | inl g =>
      match g_pattern g with
      | None => _ ← warnf (name ++ str ": no pattern"); mret (Exit 2)
      | Some pattern =>
          match grep_match name (g_icase g) pattern with
          | Ok f =>
              srcs ← grep_inputs name (g_files g);
              found ← grep_sources g f srcs;
              mret (Exit (if (found : bool) then 0 else 1))
          | r => _ ← warnf (name ++ str ": bad pattern " ++ quote pattern ++ str ": " ++ err_text r); mret (Exit 2)
          end
      end
  end.

(** ** Handlers *)

(** [callHandler]: the words the interpreter goes on with. *)
Definition callHandler (args : list bytes) : cmd (list bytes) :=
  match args with
  | [] => go_panic
  | name :: rest =>
      let name_is s := bool_decide (path_base name = str s) in
      let answer (b : bool) := [if b then str "true" else str "false"] in
      if name_is "echo" then _ ← Write Stdout (echo_text (join_space rest)); mret [str ":"]
      else if name_is "trap" then mret (if passthroughTrap rest then args else [str ":"])
      else if name_is "test" || name_is "[" then ok ← evalTest name rest; mret (answer ok)
      else if name_is "cd" then
        let target := default [slash] (last rest) in
        abs ← resolve target;
        i ← Stat (strip abs);
        match i with
        | Ok i =>
            if IsDir i then _ ← set_cwd abs; mret (answer true)
            else _ ← warnf (str "cd: " ++ target ++ str ": not a directory"); mret (answer false)
        | _ => _ ← warnf (str "cd: " ++ target ++ str ": not a directory"); mret (answer false)
        end
      else if name_is "source" || name_is "." then _ ← refusef (name ++ str ": not supported"); mret (answer false)
      else mret args
  end.

(** [execHandler]. *)
Definition execHandler (turns : nat) (args : list bytes) : cmd status :=
  match args with
  | [] => go_panic
  | name :: rest =>
      let base := path_base name in
      if bool_decide (base = str "dd") then shDD turns rest
      else if bool_decide (base = str "ls") then shLs rest
      else if bool_decide (base = str "cat") then shCat rest
      else if bool_decide (base = str "grep") || bool_decide (base = str "fgrep") || bool_decide (base = str "egrep")
      then shGrep base rest
      else _ ← refusef (name ++ str ": not supported"); mret (Exit 1)
  end.

(** [openHandler]: the flags that ask for a write, and what a redirect reads. *)
Inductive opened := DevNull | RoFile (src : source).
Inductive open_err := ReadOnly | NotOpened (e : gerr).

Definition openHandler (path : bytes) (write : bool) : cmd (opened + open_err) :=
  if bool_decide (path = str "/dev/null") then mret (inl DevNull)
  else if write then _ ← set_refused; mret (inr ReadOnly)
  else
    fp ← fsPath path;
    f ← Open fp;
    mret (match f with
          | Ok f => inl (RoFile (NewSection (f_ra f) 0 (f_size f)))
          | r => inr (NotOpened (err_text r))
          end).

(** [readDirHandler]: an entry that has no [Stat] is a zero one. *)
Fixpoint dir_entries (base : bytes) (names : list bytes) : cmd (list (bytes * FileInfo)) :=
  match names with
  | [] => mret []
  | n :: names =>
      i ← Stat (strip (base ++ [slash] ++ n));
      rest ← dir_entries base names;
      mret ((n, match i with Ok i => i | _ => zeroInfo end) :: rest)
  end.

Definition readDirHandler (path : bytes) : cmd (outcome gerr (list (bytes * FileInfo))) :=
  abs ← resolve path;
  names ← ReadDir (strip abs);
  match names with
  | Ok names => es ← dir_entries (strip_end abs) names; mret (Ok es)
  | Err e => mret (Err e)
  | Panic => mret Panic
  end.

(** [statHandler]. *)
Definition statHandler (path : bytes) : cmd (outcome gerr (bytes * FileInfo)) :=
  abs ← resolve path;
  i ← Stat (strip abs);
  let name := strip_end abs in
  let name := match cut_last slash name with Some (_, b) => b | None => name end in
  mret (match i with Ok i => Ok (name, i) | Err e => Err e | Panic => Panic end).
End shell.
