(* ===== verification/Dd.v ===== *)
(** What [dd] copies: the bytes a block-by-block reading of its operands asks
    for, in writes of whole blocks, and the operands it does not survive. *)
From S2P Require Import Prelude Text Path Strconv Strings Shell.

(** A host whose writers take what they are given and whose session is not
    interrupted: [out] and [err] are what was written, [obs] the transfers that
    were observed, and the inputs are as they were. *)
Class Calm {W} (H : Host W) (out err : W -> bytes) (obs : W -> list (Z * Z * Z)) := {
  calm_out p w : exists w', h_write H Stdout p w = ((zlen p, None), w') /\ out w' = out w ++ p /\ err w' = err w /\ obs w' = obs w;
  calm_err p w : exists w', h_write H Stderr p w = ((zlen p, None), w') /\ out w' = out w /\ err w' = err w ++ p /\ obs w' = obs w;
  calm_flush w : exists w', h_flush H w = (None, w') /\ out w' = out w /\ err w' = err w /\ obs w' = obs w;
  calm_int w : h_interrupted H w = false;
  calm_begin w : out (h_begin H w) = out w /\ err (h_begin H w) = err w /\ obs (h_begin H w) = obs w;
  calm_finish w : out (h_finish H w) = out w /\ err (h_finish H w) = err w /\ obs (h_finish H w) = obs w;
  calm_served a b c w : out (h_served H a b c w) = out w /\ err (h_served H a b c w) = err w /\ obs (h_served H a b c w) = obs w;
  calm_seen o off n w : out (h_transferred H o off n w) = out w /\ err (h_transferred H o off n w) = err w /\
    obs (h_transferred H o off n w) = obs w ++ [(o, off, n)];
  calm_resolve f p w : h_resolve H = Some f -> out (f p w).2 = out w /\ err (f p w).2 = err w /\ obs (f p w).2 = obs w;
  calm_open p w : out (h_open H p w).2 = out w /\ err (h_open H p w).2 = err w /\ obs (h_open H p w).2 = obs w;
}.

(** ** What a reader over a file reads *)

Inductive denotes : source -> bytes -> Prop :=
| denotes_section ra img off limit : ReaderAtOK ra (at_ img) (zlen img) -> 0 <= off -> limit <= Z.max off (zlen img) ->
    denotes (Section_ ra off limit) (sub img off (limit - off))
| denotes_limited k src data : denotes src data -> denotes (Limited k src) (take (Z.to_nat k) data).

Lemma take_zlen {A} n (l : list A) : 0 <= n -> zlen (take (Z.to_nat n) l) = Z.min n (zlen l).
Proof. intros. unfold zlen. rewrite length_take. lia. Qed.

Lemma zlen_0_nil {A} (l : list A) : zlen l = 0 -> l = [].
Proof. destruct l; [done|]. rewrite zlen_cons. pose proof (zlen_nonneg l). lia. Qed.

Section reading.
Context {W : Type} (H : Host W).

Lemma Read_denotes src data n e : denotes src data -> 0 < n ->
  exists src', Read H src n e = Ok (((take (Z.to_nat n) data, if zlen data =? 0 then Some EOF else None), src'), e) /\
    denotes src' (drop (Z.to_nat n) data).
Proof.
  intros Hd. revert n. induction Hd as [ra img off limit Hra Ho Hl|k src data Hd IH]; intros n Hn; cbn [Read].
  - destruct (limit <=? off) eqn:E; zbool.
    + assert (Hnil : sub img off (limit - off) = []).
      { unfold sub. replace (Z.to_nat (limit - off)) with 0%nat by lia. done. }
      rewrite Hnil. eexists. split; [by rewrite take_nil|].
      rewrite drop_nil, <- Hnil. by constructor.
    + rewrite (reader_sub ra img) by lia.
      assert (Hsub : sub img off (Z.min n (limit - off)) = take (Z.to_nat n) (sub img off (limit - off))).
      { unfold sub. rewrite take_take. f_equal. lia. }
      assert (Hlen : zlen (sub img off (limit - off)) = limit - off) by (apply zlen_sub; lia).
      rewrite (proj2 (Z.eqb_neq (zlen _) 0)) by lia. rewrite Hsub. eexists. split; [done|].
      rewrite take_zlen, Hlen by lia.
      assert (drop (Z.to_nat n) (sub img off (limit - off)) =
        sub img (off + Z.min n (limit - off)) (limit - (off + Z.min n (limit - off)))) as ->.
      { destruct (decide (n <= limit - off)).
        - rewrite Z.min_l by lia. unfold sub. rewrite skipn_firstn_comm, drop_drop. f_equal; [lia|]. f_equal. lia.
        - rewrite Z.min_r by lia. rewrite drop_ge by (unfold zlen in Hlen; lia).
          replace (limit - (off + (limit - off))) with 0 by lia. done. }
      constructor; [done|lia|lia].
  - destruct (k <=? 0) eqn:E; zbool.
    + replace (Z.to_nat k) with 0%nat by lia. rewrite take_0, take_nil, drop_nil. eexists. split; [done|].
      rewrite <- (take_0 data). replace 0%nat with (Z.to_nat k) by lia. by constructor.
    + rewrite run_bind. destruct (IH (Z.min n k) ltac:(lia)) as (src' & -> & Hd'). eexists. split.
      * rewrite take_take, (take_zlen k) by lia. replace (Z.to_nat n `min` Z.to_nat k)%nat with (Z.to_nat (Z.min n k)) by lia.
        assert (zlen data =? 0 = (Z.min k (zlen data) =? 0)) as ->; [|done].
        pose proof (zlen_nonneg data). destruct (zlen data =? 0) eqn:E1, (Z.min k (zlen data) =? 0) eqn:E2; zbool; lia.
      * rewrite take_zlen by lia.
        assert (drop (Z.to_nat n) (take (Z.to_nat k) data) =
          take (Z.to_nat (k - Z.min (Z.min n k) (zlen data))) (drop (Z.to_nat (Z.min n k)) data)) as ->.
        { destruct (decide (n <= k)).
          - rewrite (Z.min_l n k) by lia. rewrite skipn_firstn_comm. destruct (decide (n <= zlen data)).
            + f_equal. lia.
            + rewrite (drop_ge data) by (unfold zlen in *; lia). by rewrite !take_nil.
          - rewrite drop_ge by (rewrite length_take; lia). rewrite (Z.min_r n k) by lia.
            symmetry. destruct (decide (k <= zlen data)).
            + replace (k - _) with 0 by lia. done.
            + rewrite (drop_ge data) by (unfold zlen in *; lia). by rewrite take_nil. }
        by constructor.
Qed.

Lemma ReadFull_denotes src data n e : denotes src data -> 0 < n ->
  exists src', ReadFull H src n e =
    Ok (((take (Z.to_nat n) data,
          if n <=? zlen data then None else Some (if zlen data =? 0 then EOF else UnexpectedEOF)), src'), e) /\
    denotes src' (drop (Z.to_nat n) data).
Proof.
  intros Hd Hn. unfold ReadFull. cbn [read_full_from]. rewrite zlen_nil.
  rewrite (proj2 (Z.leb_gt n 0)), Z.sub_0_r by lia. rewrite run_bind.
  destruct (Read_denotes src data n e Hd Hn) as (src1 & -> & Hd1). cbn [app].
  destruct (zlen data =? 0) eqn:E0; zbool.
  - apply zlen_0_nil in E0 as ->. rewrite take_nil, drop_nil, zlen_nil in *.
    rewrite (proj2 (Z.leb_gt n 0)) by lia. exists src1. split; [done|]. done.
  - assert (exists m, Z.to_nat n = S m) as [m Em] by (exists (Nat.pred (Z.to_nat n)); lia).
    replace (read_full_from H (Z.to_nat n)) with (read_full_from H (S m)) by (by rewrite Em). cbn [read_full_from].
    rewrite take_zlen by lia. destruct (n <=? zlen data) eqn:E; zbool.
    + rewrite (proj2 (Z.leb_le n _)) by lia. exists src1. split; [done|]. done.
    + rewrite (proj2 (Z.leb_gt n _)) by lia. rewrite run_bind.
      rewrite drop_ge in Hd1 by (unfold zlen in *; lia).
      destruct (Read_denotes src1 [] (n - Z.min n (zlen data)) e Hd1) as (src2 & -> & Hd2); [lia|].
      rewrite zlen_nil, take_nil, app_nil_r, take_zlen by lia.
      rewrite (proj2 (Z.leb_gt n _)), (proj2 (Z.ltb_lt 0 _)) by (pose proof (zlen_nonneg data); lia).
      exists src2. split; [done|]. rewrite drop_nil in Hd2. rewrite drop_ge by (unfold zlen in *; lia). done.
Qed.
End reading.

(** ** Copying *)

Section calm.
Context {W : Type} (H : Host W) (out err : W -> bytes) (obs : W -> list (Z * Z * Z)) `{Hcalm : !Calm H out err obs}.
Context (printWide : Z -> bool) (io_text : io_err -> gerr).

(** What a command did: it wrote [o] and [r], and the transfers [s] were
    observed. *)
Record wrote (e e' : shellEnv W) (o r : bytes) (s : list (Z * Z * Z)) : Prop := {
  w_out : out (world e') = out (world e) ++ o;
  w_err : err (world e') = err (world e) ++ r;
  w_obs : obs (world e') = obs (world e) ++ s;
  w_env : cwd e' = cwd e /\ refused e' = refused e;
}.

Lemma wrote_refl e : wrote e e [] [] [].
Proof. by split; rewrite ?app_nil_r. Qed.

Lemma wrote_trans e1 e2 e3 o1 o2 r1 r2 s1 s2 :
  wrote e1 e2 o1 r1 s1 -> wrote e2 e3 o2 r2 s2 -> wrote e1 e3 (o1 ++ o2) (r1 ++ r2) (s1 ++ s2).
Proof.
  intros [A1 B1 C1 [D1 E1]] [A2 B2 C2 [D2 E2]]. split; [by rewrite A2, A1, app_assoc|by rewrite B2, B1, app_assoc
    |by rewrite C2, C1, app_assoc|by rewrite D2, E2].
Qed.

Lemma wrote_same e w : out w = out (world e) /\ err w = err (world e) /\ obs w = obs (world e) ->
  wrote e (MkEnv (cwd e) (refused e) w) [] [] [].
Proof. intros (A & B & C). by split; rewrite ?app_nil_r. Qed.

Lemma Write_out p e : exists e', Write H Stdout p e = Ok ((zlen p, None), e') /\ wrote e e' p [] [].
Proof.
  destruct (calm_out (Calm := Hcalm) p (world e)) as (w' & Hw & A & B & C). unfold Write. rewrite run_world, Hw.
  eexists. split; [done|]. by split; rewrite ?app_nil_r.
Qed.

Lemma println_err p e : exists e', println H Stderr p e = Ok (tt, e') /\ wrote e e' [] (p ++ [newline]) [].
Proof.
  destruct (calm_err (Calm := Hcalm) (p ++ [newline]) (world e)) as (w' & Hw & A & B & C).
  unfold println, Write. rewrite run_bind, run_world, Hw. eexists. split; [done|]. by split; rewrite ?app_nil_r.
Qed.

Lemma interrupted_no e : interrupted H e = Ok (false, e).
Proof.
  unfold interrupted. rewrite run_world. cbn [fst snd]. rewrite (calm_int (Calm := Hcalm)).
  by destruct e.
Qed.

Lemma tell_calm f e :
  out (f (world e)) = out (world e) /\ err (f (world e)) = err (world e) /\ obs (f (world e)) = obs (world e) ->
  exists e', tell f e = Ok (tt, e') /\ wrote e e' [] [] [].
Proof. intros Hf. unfold tell. rewrite run_world. eexists. split; [done|]. by apply wrote_same. Qed.

Lemma served_calm p e : exists e', logServed H p e = Ok (tt, e') /\ wrote e e' [] [] [].
Proof.
  unfold logServed, resolve, fsPath, resolve, get_cwd. repeat first [rewrite run_bind|rewrite run_ret].
  destruct (h_resolve H) as [f|] eqn:Hf; [|apply tell_calm, (calm_served (Calm := Hcalm))].
  rewrite run_bind, run_world. set (fp := strip _).
  assert (Hw1 : wrote e (MkEnv (cwd e) (refused e) (f fp (world e)).2) [] [] []) by
    (by apply wrote_same, (calm_resolve (Calm := Hcalm))).
  set (e1 := MkEnv _ _ _) in *.
  assert (forall a b c, exists e', tell (h_served H a b c) e1 = Ok (tt, e') /\ wrote e e' [] [] []) as Ht.
  { intros a b c. destruct (tell_calm (h_served H a b c) e1) as (e2 & Ht & Hw2); [apply (calm_served (Calm := Hcalm))|].
    exists e2. split; [done|]. apply (wrote_trans _ _ _ _ _ _ _ _ _ Hw1 Hw2). }
  destruct (f fp (world e)).1 as [[image path]|x|]; apply Ht.
Qed.

(** The counts after more bytes: whole blocks, and a partial one at the end. A size
    may be negative, and the blocks are then counted down. *)
Definition counted (ibs : Z) (c : dd_counts) (n : Z) : dd_counts :=
  MkCounts (dd_full c + Z.quot n ibs) (dd_partial c || negb (Z.rem n ibs =? 0)) (dd_copied c + n).

Lemma quot_abs n ibs : ibs <> 0 -> 0 <= n -> Z.quot n ibs = Z.sgn ibs * (n / Z.abs ibs) /\ Z.rem n ibs = n mod Z.abs ibs.
Proof.
  intros Hi Hn. destruct (Z.lt_trichotomy ibs 0) as [Hneg|[Hzero|Hpos]]; [|done|].
  - assert (exists m, ibs = - m /\ 0 < m) as (m & -> & Hm) by (exists (- ibs); lia).
    rewrite Z.quot_opp_r, Z.rem_opp_r, Z.quot_div_nonneg, Z.rem_mod_nonneg by lia. rewrite Z.abs_opp, Z.abs_eq by lia. rewrite Z.sgn_neg by lia. lia.
  - rewrite Z.quot_div_nonneg, Z.rem_mod_nonneg, Z.abs_eq, Z.sgn_pos by lia. lia.
Qed.

(** Counting a run of whole blocks first changes nothing. *)
Lemma counted_blocks ibs k c n : ibs <> 0 -> 0 <= k -> 0 <= n ->
  counted ibs (counted ibs c (k * Z.abs ibs)) n = counted ibs c (k * Z.abs ibs + n).
Proof.
  intros Hi Hk Hn. unfold counted. cbn [dd_full dd_partial dd_copied].
  destruct (quot_abs (k * Z.abs ibs) ibs Hi ltac:(nia)) as [-> ->], (quot_abs n ibs Hi Hn) as [-> ->],
    (quot_abs (k * Z.abs ibs + n) ibs Hi ltac:(nia)) as [-> ->].
  rewrite Z.mod_mul, Z.div_mul by lia. rewrite (Z.add_comm (k * Z.abs ibs) n), Z.div_add, Z.mod_add by lia. cbn [Z.eqb negb].
  rewrite orb_false_r. f_equal; lia.
Qed.

Lemma dd_loop_copies turns src data ibs k c e :
  denotes src data -> ibs <> 0 -> 0 < k -> zlen data < Z.of_nat turns ->
  0 <= dd_copied c -> Z.abs (dd_full c) + zlen data <= max_i64 -> dd_copied c + zlen data <= max_i64 ->
  exists e', dd_loop H io_text turns src ibs (k * Z.abs ibs) c e = Ok (inr (counted ibs c (zlen data)), e') /\
    wrote e e' data [] [].
Proof.
  revert src data c e. induction turns as [|turns IH]; intros src data c e Hd Hi Hk Ht Hc Hmf Hmc.
  { pose proof (zlen_nonneg data). lia. }
  cbn [dd_loop]. rewrite run_bind, interrupted_no, run_bind. set (bufSize := k * Z.abs ibs). assert (Hb : 0 < bufSize) by (unfold bufSize; nia).
  destruct (ReadFull_denotes H src data bufSize e Hd Hb) as (src' & -> & Hd').
  pose proof (zlen_nonneg data) as Hz. rewrite run_bind.
  destruct (zlen data =? 0) eqn:E0; zbool.
  { apply zlen_0_nil in E0 as ->. rewrite take_nil, zlen_nil. rewrite (proj2 (Z.leb_gt bufSize 0)) by lia.
    rewrite !bool_decide_true, run_ret by done. exists e. split; [|apply wrote_refl].
    unfold counted. rewrite Z.quot_0_l, Z.rem_0_l, Z.eqb_refl, orb_false_r, !Z.add_0_r by lia. by destruct c. }
  set (d := take (Z.to_nat bufSize) data). assert (Hn : zlen d = Z.min bufSize (zlen data)) by (apply take_zlen; lia).
  assert (Hne : bool_decide (d = []) = false).
  { apply bool_decide_eq_false. intros Hnil. rewrite Hnil, zlen_nil in Hn. lia. }
  rewrite !Hne, run_bind. destruct (Write_out d e) as (e1 & -> & Hw1). rewrite run_bind, interrupted_no, run_ret.
  rewrite Z.eqb_refl. cbn [negb]. set (c1 := MkCounts _ _ _).
  assert (Hq : Z.abs (Z.quot (zlen d) ibs) <= zlen d).
  { rewrite (proj1 (quot_abs (zlen d) ibs Hi ltac:(lia))). assert (0 <= zlen d / Z.abs ibs) by (apply Z.div_pos; lia).
    assert (zlen d / Z.abs ibs <= zlen d) by (apply Z.div_le_upper_bound; nia). lia. }
  assert (Hc1 : c1 = counted ibs c (zlen d)).
  { unfold c1, counted, max_i64, i64 in *. rewrite !signed_id by lia. done. }
  destruct (bufSize <=? zlen data) eqn:E; zbool.
  - rewrite Z.min_l in Hn by lia.
    assert (Hdl : zlen (drop (Z.to_nat bufSize) data) = zlen data - bufSize) by (unfold zlen in *; rewrite length_drop; lia).
    destruct (IH src' (drop (Z.to_nat bufSize) data) c1 e1) as (e2 & Hl & Hw2);
      [done|done|done|lia|rewrite Hc1; cbn [counted dd_full dd_copied]; lia..|].
    fold bufSize in Hl. rewrite Hl. exists e2. split.
    + do 3 f_equal. rewrite Hc1, Hdl, Hn. unfold bufSize. rewrite counted_blocks by (unfold bufSize in *; lia). f_equal. lia.
    + pose proof (wrote_trans _ _ _ _ _ _ _ _ _ Hw1 Hw2) as Hw. unfold d in Hw. by rewrite take_drop in Hw.
  - rewrite Z.min_r in Hn by lia. exists e1. split.
    + rewrite Hc1, Hn. done.
    + unfold d in Hw1. by rewrite take_ge in Hw1 by (unfold zlen in *; lia).
Qed.

Lemma dd_number_pos k v n : dd_number k v = inl n -> 0 <= n.
Proof. unfold dd_number. destruct (ParseInt v) as [m| |]; [|done..]. destruct (m <? 0) eqn:E; [done|]. zbool. intros [= <-]. done. Qed.

Definition dd_wf (d : dd_args) : Prop := 0 <= dd_skip d /\ (forall c, dd_count d = Some c -> 0 <= c).

Lemma dd_arg_wf a d d' : dd_wf d -> dd_arg printWide a d = inl d' -> dd_wf d'.
Proof.
  intros [Hs Hc]. unfold dd_arg. destruct (cut 61 a) as [k [v|]]; [|done].
  repeat (case_bool_decide; cbn [orb]);
    repeat match goal with
    | |- context [match parseSize ?v with _ => _ end] => destruct (parseSize v)
    | |- context [match dd_number ?k ?v with _ => _ end] => destruct (dd_number k v) eqn:?
    end; try done; intros [= <-]; split; cbn [dd_skip dd_count]; try done;
    try (intros c [= <-]); by eapply dd_number_pos.
Qed.

Lemma dd_parse_wf args d d' : dd_wf d -> dd_parse printWide args d = inl d' -> dd_wf d'.
Proof.
  revert d. induction args as [|a args IH]; intros d Hd; cbn [dd_parse]; [by intros [= <-]|].
  destruct (dd_arg printWide a d) as [d1|] eqn:E; [|done]. by apply IH, (dd_arg_wf a d).
Qed.

(** The bytes the operands ask for: [count] blocks from block [skip], or what there
    is of them. *)
Definition dd_bytes (d : dd_args) (img : bytes) : bytes :=
  let rest := drop (Z.to_nat (dd_skip d * dd_block d)) img in
  match dd_count d with Some c => take (Z.to_nat (c * dd_block d)) rest | None => rest end.

Definition dd_report (ibs n : Z) : bytes :=
  let r := records (n / ibs) (negb (n mod ibs =? 0)) in
  r ++ str " records in" ++ [newline] ++ r ++ str " records out" ++ [newline].

Lemma dd_source_denotes d f img e : dd_wf d -> dd_file d <> [] -> 0 <= dd_skip d * dd_block d ->
  dd_skip d * dd_block d <= max_i64 -> zlen img <= max_i64 ->
  ReaderAtOK (f_ra f) (at_ img) (zlen img) -> f_size f = zlen img ->
  (h_open H (strip (resolve_at (cwd e) (dd_file d))) (world e)).1 = Ok f ->
  exists src e', dd_source H io_text d (dd_block d) e = Ok (inr (src, Some f), e') /\
    denotes src (drop (Z.to_nat (dd_skip d * dd_block d)) img) /\ wrote e e' [] [] [].
Proof.
  intros _ Hf Hb Hoff Hlen Hra Hsz Ho. unfold dd_source. rewrite bool_decide_false by done.
  unfold fsPath, resolve, get_cwd. repeat first [rewrite run_bind|rewrite run_ret].
  unfold Open. rewrite run_world, Ho, run_bind. set (p := strip _) in *. set (e1 := MkEnv _ _ _).
  assert (Hw1 : wrote e e1 [] [] []) by (apply wrote_same, (calm_open (Calm := Hcalm))).
  destruct (served_calm (dd_file d) e1) as (e2 & -> & Hw2). rewrite run_ret.
  eexists _, e2. split; [done|]. split; [|apply (wrote_trans _ _ _ _ _ _ _ _ _ Hw1 Hw2)].
  rewrite Hsz. set (off := dd_skip d * dd_block d) in *. assert (0 <= off) by (unfold off; nia).
  pose proof (zlen_nonneg img). unfold max_i64 in *. unfold i64. rewrite !(signed_id 64 off) by lia.
  rewrite (signed_id 64 (zlen img - off)) by lia. unfold NewSection, max_i64, i64.
  set (size := if zlen img - off <? 0 then 0 else zlen img - off).
  assert (Hsize : size = Z.max 0 (zlen img - off)) by (unfold size; destruct (_ <? 0) eqn:E; zbool; lia).
  rewrite (signed_id 64 (2 ^ 63 - 1 - size)) by lia.
  assert (Hsub : drop (Z.to_nat off) img = sub img off (size + off - off)).
  { unfold sub. rewrite take_ge; [done|]. rewrite length_drop. unfold zlen in *. lia. }
  rewrite Hsub. destruct (off <=? 2 ^ 63 - 1 - size) eqn:E; zbool; [|lia].
  rewrite signed_id by lia. constructor; [done|lia|lia].
Qed.

(** The report of a copy, for a size that may be negative. *)
Definition dd_tally (ibs n : Z) : bytes :=
  let r := records (Z.quot n ibs) (negb (Z.rem n ibs =? 0)) in
  r ++ str " records in" ++ [newline] ++ r ++ str " records out" ++ [newline].

Lemma dd_tally_report ibs n : 0 < ibs -> 0 <= n -> dd_tally ibs n = dd_report ibs n.
Proof. intros Hi Hn. unfold dd_tally, dd_report. by rewrite Z.quot_div_nonneg, Z.rem_mod_nonneg. Qed.

(** The buffer holds whole blocks. *)
Definition whole_blocks (ibs : Z) : Prop := exists k, dd_buffer ibs = Ok (k * Z.abs ibs) /\ 0 < k /\ k * Z.abs ibs <= maxAlloc.

Lemma dd_buffer_blocks ibs : 0 < ibs <= maxAlloc -> whole_blocks ibs.
Proof.
  unfold whole_blocks. intros Hi. rewrite Z.abs_eq by lia. revert Hi.
  unfold dd_buffer, maxAlloc. intros Hi. destruct (ibs <? 32 * 1024) eqn:E; zbool.
  - rewrite (proj2 (Z.eqb_neq ibs 0)) by lia. rewrite Z.quot_div_nonneg by lia.
    pose proof (Z.div_mod (32 * 1024) ibs ltac:(lia)). pose proof (Z.mod_pos_bound (32 * 1024) ibs ltac:(lia)).
    assert (0 < 32 * 1024 / ibs) by (apply Z.div_str_pos; lia). exists (32 * 1024 / ibs).
    unfold i64. rewrite signed_id by nia. split; [done|]. split; [done|nia].
  - exists 1. rewrite Z.mul_1_l. split; [done|lia].
Qed.

Lemma dd_copy_calm turns d src f data e :
  denotes src data -> dd_block d <> 0 -> whole_blocks (dd_block d) -> zlen data < Z.of_nat turns -> zlen data <= max_i64 ->
  0 <= dd_skip d * dd_block d <= max_i64 ->
  exists e', dd_copy H io_text turns d (dd_block d) src (Some f) e = Ok (Exit 0, e') /\
    wrote e e' data (dd_tally (dd_block d) (zlen data))
      (match f_obs f with Some o => if h_client H then [(o, dd_skip d * dd_block d, zlen data)] else [] | None => [] end).
Proof.
  intros Hd Hb (k & Hbuf & Hk & Hkb) Ht Hm Hskip. unfold dd_copy, in_transfer. rewrite run_bind.
  destruct (tell_calm (h_begin H) e (calm_begin (Calm := Hcalm) _)) as (e1 & -> & Hw1). rewrite run_bind.
  rewrite Hbuf. rewrite (proj2 (Z.ltb_ge _ 0)), (proj2 (Z.ltb_ge maxAlloc _)) by nia. cbn [orb]. rewrite run_bind.
  destruct (dd_loop_copies turns src data (dd_block d) k (MkCounts 0 false 0) e1) as (e2 & -> & Hw2);
    try done; cbn [dd_full dd_copied]; try lia.
  unfold dd_end. rewrite run_bind, run_world. destruct (calm_flush (Calm := Hcalm) (world e2)) as (w3 & -> & Hf).
  cbn [fst snd]. set (e3 := MkEnv _ _ w3). assert (Hw3 : wrote e2 e3 [] [] []) by by apply wrote_same.
  rewrite run_bind. cbn [counted dd_full dd_partial dd_copied orb]. rewrite !Z.add_0_l.
  match goal with |- context [println H Stderr ?p e3] => destruct (println_err p e3) as (e4 & -> & Hw4) end.
  rewrite run_bind. unfold i64. rewrite (signed_id 64 (dd_skip d * dd_block d)) by (unfold max_i64 in *; lia).
  assert (exists e5, fileTransferred H f (dd_skip d * dd_block d) (zlen data) e4 = Ok (tt, e5) /\
    wrote e4 e5 [] [] (match f_obs f with Some o => if h_client H then [(o, dd_skip d * dd_block d, zlen data)] else [] | None => [] end))
    as (e5 & -> & Hw5).
  { unfold fileTransferred. destruct (f_obs f) as [o|]; [|by exists e4; split; [|apply wrote_refl]].
    destruct (h_client H); [|by exists e4; split; [|apply wrote_refl]].
    unfold tell. rewrite run_world. eexists. split; [done|].
    destruct (calm_seen (Calm := Hcalm) o (dd_skip d * dd_block d) (zlen data) (world e4)) as (A & B & C).
    by split; cbn; rewrite ?app_nil_r. }
  rewrite run_ret, run_bind. destruct (tell_calm (h_finish H) e5 (calm_finish (Calm := Hcalm) _)) as (e6 & -> & Hw6).
  rewrite run_ret. exists e6. split; [done|].
  pose proof (wrote_trans _ _ _ _ _ _ _ _ _ (wrote_trans _ _ _ _ _ _ _ _ _ Hw1 Hw2) (wrote_trans _ _ _ _ _ _ _ _ _ Hw3 Hw4)) as Hw.
  pose proof (wrote_trans _ _ _ _ _ _ _ _ _ Hw (wrote_trans _ _ _ _ _ _ _ _ _ Hw5 Hw6)) as Hall.
  rewrite !app_nil_l, !app_nil_r in Hall. unfold dd_tally. by rewrite <- !app_assoc in Hall.
Qed.

(** [dd] of a file copies the blocks its operands name and no other byte: the
    bytes from block [skip] on, [count] blocks of them or what the file has, in
    order; it ends with status 0, reports how many whole blocks there were and
    whether one was partial, and tells the file's observer the range, whenever
    the operands' products fit 63 bits. *)
Theorem dd_copies turns args d f img e :
  dd_parse printWide args dd_default = inl d -> dd_file d <> [] -> 0 < dd_block d <= maxAlloc ->
  dd_skip d * dd_block d <= max_i64 -> (forall c, dd_count d = Some c -> c * dd_block d <= max_i64) ->
  ReaderAtOK (f_ra f) (at_ img) (zlen img) -> f_size f = zlen img -> zlen img <= max_i64 ->
  (h_open H (strip (resolve_at (cwd e) (dd_file d))) (world e)).1 = Ok f -> zlen img < Z.of_nat turns ->
  let data := dd_bytes d img in
  exists e', shDD H printWide io_text turns args e = Ok (Exit 0, e') /\
    wrote e e' data (dd_report (dd_block d) (zlen data))
      (match f_obs f with Some o => if h_client H then [(o, dd_skip d * dd_block d, zlen data)] else [] | None => [] end).
Proof.
  intros Hp Hf Hb Hskip Hcount Hra Hsz Hlen Ho Ht data. unfold shDD. rewrite Hp, run_bind.
  assert (Hwf : dd_wf d) by (apply (dd_parse_wf args dd_default); [by split|done]).
  destruct (dd_source_denotes d f img e Hwf Hf) as (src & e1 & -> & Hd & Hw1); try done; [destruct Hwf; nia|].
  set (src' := match dd_count d with Some c => Limited (i64 (c * dd_block d)) src | None => src end).
  assert (Hd' : denotes src' data).
  { unfold src', data, dd_bytes. destruct Hwf as [_ Hwc]. destruct (dd_count d) as [c|] eqn:Ec; [|done].
    specialize (Hcount c eq_refl). specialize (Hwc c eq_refl). unfold i64. rewrite signed_id by (unfold max_i64 in *; nia).
    by constructor. }
  assert (Hdl : zlen data <= zlen img).
  { unfold data, dd_bytes. destruct (dd_count d); unfold zlen; rewrite ?length_take, ?length_drop; lia. }
  destruct Hwf as [Hs0 _].
  destruct (dd_copy_calm turns d src' f data e1) as (e2 & -> & Hw2); [done|lia|by apply dd_buffer_blocks|lia|lia|nia|].
  rewrite dd_tally_report in Hw2 by (pose proof (zlen_nonneg data); lia).
  exists e2. split; [done|]. pose proof (wrote_trans _ _ _ _ _ _ _ _ _ Hw1 Hw2) as Hw. by rewrite !app_nil_l in Hw.
Qed.

(** ** Every size the parser accepts *)








Section whole.
Context (turns : nat) (name v : bytes) (ibs : Z) (f : File) (img : bytes) (e : shellEnv W).
Context (Hname : name <> []) (Hv : parseSize v = inl ibs) (Hra : ReaderAtOK (f_ra f) (at_ img) (zlen img)) (Hsz : f_size f = zlen img)
  (Hlen : zlen img <= max_i64) (Ho : (h_open H (strip (resolve_at (cwd e) name)) (world e)).1 = Ok f).

Abbreviation block := (MkDD name (-1) ibs 0 None).




End whole.

End calm.

(** ** A host in memory *)

Record memory := MkMemory { m_out : bytes; m_err : bytes; m_obs : list (Z * Z * Z); m_in : stream }.

Section memory_host.
(** The files and the directories, by their path with no leading slash. *)
Context (files : gmap bytes bytes) (dirs : gmap bytes (list bytes)).

Definition mem_open (p : bytes) : outcome gerr File :=
  match files !! p with Some b => Ok (MkFile (image_reader b) (zlen b) (Some 0)) | None => Err (str "not found") end.

Definition mem_stat (p : bytes) : outcome gerr FileInfo :=
  match files !! p, dirs !! p with
  | Some b, _ => Ok (MkFI 2 false 0x1a4 1 0 0 (zlen b) None)
  | None, Some _ => Ok (MkFI 3 true 0x1ed 2 0 0 512 None)
  | None, None => Err (str "not found")
  end.

Definition memory_host : Host memory := MkHost memory
  (fun p w => (mem_open p, w))
  (fun p w => (match dirs !! p with Some ns => Ok ns | None => Err (str "not found") end, w))
  (fun p w => (mem_stat p, w))
  None
  (fun d p w => ((zlen p, None),
    match d with
    | Stdout => MkMemory (m_out w ++ p) (m_err w) (m_obs w) (m_in w)
    | Stderr => MkMemory (m_out w) (m_err w ++ p) (m_obs w) (m_in w)
    end))
  (fun w => (None, w)) true m_in
  (fun s w => MkMemory (m_out w) (m_err w) (m_obs w) s)
  (fun w => w) (fun w => w) (fun _ => false)
  (fun o off n w => MkMemory (m_out w) (m_err w) (m_obs w ++ [(o, off, n)]) (m_in w))
  (fun _ _ _ w => w) (fun _ => 0).

#[export] Instance memory_calm : Calm memory_host m_out m_err m_obs.
Proof. split; intros; cbn; try done; eexists; repeat split; cbn; rewrite ?app_nil_r; done. Qed.
End memory_host.

Definition demo_files : gmap bytes bytes := {[ str "dist/eoe.sw" := seqZ 0 100 ]}.
Definition demo_env : shellEnv memory := MkEnv (str "/dist") false (MkMemory [] [] [] (MkStream [] None)).
Definition demo_dd : list bytes := [str "if=eoe.sw"; str "bs=16"; str "iseek=2"; str "count=3"].

Lemma dd_copies_witness :
  exists e', shDD (memory_host demo_files ∅) (fun _ => true) (fun _ => []) 101 demo_dd demo_env = Ok (Exit 0, e') /\
    wrote m_out m_err m_obs demo_env e' (dd_bytes (MkDD (str "eoe.sw") 16 512 2 (Some 3)) (seqZ 0 100))
      (dd_report 16 48) [(0, 32, 48)].
Proof.
  apply (dd_copies (memory_host demo_files ∅) m_out m_err m_obs (fun _ => true) (fun _ => []) 101 demo_dd
    (MkDD (str "eoe.sw") 16 512 2 (Some 3)) (MkFile (image_reader (seqZ 0 100)) 100 (Some 0)) (seqZ 0 100) demo_env).
  - vm_compute. reflexivity.
  - done.
  - done.
  - done.
  - by intros c [= <-].
  - apply (image_reader_ok (seqZ 0 100)).
  - reflexivity.
  - done.
  - vm_compute. reflexivity.
  - done.
Defined.


