(* ===== verification/Session.v ===== *)
(** One rsh session ([RunShellWithSignals] of [instcmd/shell.go]): the client's
    lines go one by one to an interpreter, which does what it does through the
    handlers. The interpreter is a third party's: here it is any program of
    calls of the handlers. *)
From S2P Require Import Prelude Text Path Strconv Strings Coalesce Shell.

(** ** What a session runs on *)

(** The tree, the connection, the transfers and the clock, over a state [C]. *)
Record Base (C : Type) := MkBase {
  b_open : bytes -> C -> outcome gerr File * C;
  b_readdir : bytes -> C -> outcome gerr (list bytes) * C;
  b_stat : bytes -> C -> outcome gerr FileInfo * C;
  b_resolve : option (bytes -> C -> outcome gerr (bytes * bytes) * C);
  b_conn : stream_id -> bytes -> C -> (Z * option gerr) * C;
  b_begin : C -> C;
  b_finish : C -> C;
  b_interrupted : C -> bool;
  b_disable : C -> C;
  b_suspend : bool -> C -> C;
  b_transferred : Z -> Z -> Z -> C -> C;
  b_served : bytes -> bytes -> bytes -> C -> C;
  b_command : bytes -> C -> C;
  b_end : Z -> bool -> C -> C;
  b_now : C -> Z;
}.
Arguments b_open {C}. Arguments b_readdir {C}. Arguments b_stat {C}. Arguments b_resolve {C}. Arguments b_conn {C}.
Arguments b_begin {C}. Arguments b_finish {C}. Arguments b_interrupted {C}. Arguments b_disable {C}.
Arguments b_suspend {C}. Arguments b_transferred {C}. Arguments b_served {C}. Arguments b_command {C}.
Arguments b_end {C}. Arguments b_now {C}.

(** Where a command's standard output and error go, and what it reads: the
    session's output, its standard error, or a pipe of the interpreter. *)
Inductive target := ToClient | ToClientErr | ToPipe (n : nat).

Record HandlerContext := MkHC { hc_stdout : target; hc_stderr : target; hc_stdin : stream }.

(** The world of a command: the session's output over the connection, and what
    went into the pipes. *)
Record sess (C : Type) := MkSess { s_out : out_state (W := C); s_pipes : gmap nat bytes; s_in : stream }.
Arguments MkSess {C}. Arguments s_out {C}. Arguments s_pipes {C}. Arguments s_in {C}.

Section session.
Context {C : Type} (B : Base C).

Definition on_base {A} (f : C -> A * C) (s : sess C) : A * sess C :=
  let '(o, c) := s_out s in let '(a, c) := f c in (a, MkSess (o, c) (s_pipes s) (s_in s)).
Definition tell_base (f : C -> C) (s : sess C) : sess C := (on_base (fun c => (tt, f c)) s).2.

Definition write_to (t : target) (p : bytes) (s : sess C) : (Z * option gerr) * sess C :=
  match t with
  | ToClient => let '(r, o) := Coalesce.Write (b_conn B) p (s_out s) in (r, MkSess o (s_pipes s) (s_in s))
  | ToClientErr => let '(r, o) := err_Write (b_conn B) p (s_out s) in (r, MkSess o (s_pipes s) (s_in s))
  | ToPipe n => ((zlen p, None), MkSess (s_out s) (<[n := default [] (s_pipes s !! n) ++ p]> (s_pipes s)) (s_in s))
  end.

Definition flush_out (s : sess C) : option gerr * sess C :=
  let '(e, o) := Flush (b_conn B) (s_out s) in (e, MkSess o (s_pipes s) (s_in s)).

(** What a command runs in. *)
Definition host_of (hc : HandlerContext) : Host (sess C) := MkHost (sess C)
  (fun p => on_base (b_open B p))
  (fun p => on_base (b_readdir B p))
  (fun p => on_base (b_stat B p))
  ((fun f p => on_base (f p)) <$> b_resolve B)
  (fun d p => write_to (match d with Stdout => hc_stdout hc | Stderr => hc_stderr hc end) p)
  (fun s => match hc_stdout hc with ToClient => flush_out s | _ => (None, s) end)
  (match hc_stdout hc with ToClient => true | _ => false end)
  s_in
  (fun i s => MkSess (s_out s) (s_pipes s) i)
  (tell_base (b_begin B)) (tell_base (b_finish B))
  (fun s => b_interrupted B (s_out s).2)
  (fun o off n => tell_base (b_transferred B o off n))
  (fun abs image path => tell_base (b_served B abs image path))
  (fun s => b_now B (s_out s).2).

Context (printWide : Z -> bool) (lowerWide : Z -> Z) (io_text : io_err -> gerr)
  (regexp : bytes -> outcome gerr (bytes -> bool)) (civil : Z -> bytes * Z * Z * Z * Z).

(** ** The interpreter *)

(** How it ends a line: no error, an exit status, or another error. *)
Inductive run_result := RunOk | RunExit (n : Z) | RunErr (text : gerr).

(** What the interpreter does with a line: calls of handlers, each with the
    writers and the input it chooses, and writes of its own builtins, until it is
    done or is cut off. A handler answers with what is left of the input and what
    went into the pipes. *)
Inductive prog (R : Type) :=
| Done (r : R) (res : run_result)
| Cut
| DoCall (hc : HandlerContext) (args : list bytes) (k : list bytes -> prog R)
| DoExec (hc : HandlerContext) (turns : nat) (args : list bytes) (k : status -> stream -> gmap nat bytes -> prog R)
| DoOpen (path : bytes) (write : bool) (k : opened + open_err -> prog R)
| DoReadDir (path : bytes) (k : outcome gerr (list (bytes * FileInfo)) -> prog R)
| DoStat (path : bytes) (k : outcome gerr (bytes * FileInfo) -> prog R)
| DoWrite (t : target) (p : bytes) (k : Z * option gerr -> prog R).
Arguments Done {R}. Arguments Cut {R}. Arguments DoCall {R}. Arguments DoExec {R}. Arguments DoOpen {R}.
Arguments DoReadDir {R}. Arguments DoStat {R}. Arguments DoWrite {R}.

(** A command of the session, run in a context. *)
Definition with_input {A} (i : stream) (m : cmd (sess C) A) : cmd (sess C) A :=
  _ ← tell (fun s => MkSess (s_out s) ∅ i); m.

Definition plain : HandlerContext := MkHC ToClient ToClientErr (MkStream [] None).

Fixpoint interp {R} (p : prog R) : cmd (sess C) (option (R * run_result)) :=
  match p with
  | Done r res => mret (Some (r, res))
  | Cut => mret None
  | DoCall hc args k =>
      r ← with_input (hc_stdin hc) (callHandler (host_of hc) args); interp (k r)
  | DoExec hc turns args k =>
      r ← with_input (hc_stdin hc) (execHandler (host_of hc) printWide lowerWide io_text regexp civil turns args);
      s ← on_world (fun s => (s, s));
      interp (k r (s_in s) (s_pipes s))
  | DoOpen path write k => r ← openHandler (host_of plain) path write; interp (k r)
  | DoReadDir path k => r ← readDirHandler (host_of plain) path; interp (k r)
  | DoStat path k => r ← statHandler (host_of plain) path; interp (k r)
  | DoWrite t p k => r ← on_world (write_to t p); interp (k r)
  end.

(** ** The session's loop *)

(** The parser and the runner of the interpreter, and what the session asks of a
    parsed line: whether it has background syntax, and whether it has a pipeline
    whose transfers cannot be interrupted. *)
Context {F R : Type} (parse : bytes -> F + gerr) (background unsupported : F -> bool)
  (run : F -> R -> prog R) (exited : R -> bool).

Definition stderr_line (t : gerr) : cmd (sess C) unit :=
  _ ← on_world (write_to ToClientErr (t ++ [newline])); mret tt.

Definition tell_c (f : C -> C) : cmd (sess C) unit := tell (tell_base f).
Definition unrefuse : cmd (sess C) unit := fun e => Ok (tt, MkEnv (cwd e) false (world e)).
Definition was_refused : cmd (sess C) bool := fun e => Ok (refused e, e).

(** The status of a line for its record, and what it prints. *)
Definition run_status (res : run_result) : cmd (sess C) Z :=
  match res with
  | RunOk => mret 0
  | RunExit n => mret n
  | RunErr text => _ ← stderr_line text; mret (-1)
  end.

Definition pass_through : cmd (sess C) unit :=
  on_world (fun s => let '(_, o) := passThrough (b_conn B) (s_out s) in (tt, MkSess o (s_pipes s) (s_in s))).

(** One line that parses: [None] when the interpreter was cut off. *)
Definition run_line (line : bytes) (f : F) (r : R) : cmd (sess C) (option R) :=
  _ ← (if background f then _ ← tell_c (b_disable B); pass_through
       else if unsupported f then tell_c (b_suspend B true) else mret tt);
  _ ← unrefuse;
  _ ← tell_c (b_command B line);
  res ← interp (run f r);
  match res with
  | None => mret None
  | Some (r, res) =>
      status ← run_status res;
      _ ← (if unsupported f && negb (background f) then tell_c (b_suspend B false) else mret tt);
      _ ← on_world flush_out;
      refused ← was_refused;
      _ ← tell_c (b_end B status refused);
      mret (Some r)
  end.

Fixpoint run_lines (lines : list bytes) (r : R) : cmd (sess C) unit :=
  match lines with
  | [] => mret tt
  | l :: lines =>
      _ ← on_world flush_out;
      let line := TrimRight l [carriage] in
      if bool_decide (TrimSpace line = []) then run_lines lines r
      else match parse line with
      | inr text => _ ← stderr_line text; run_lines lines r
      | inl f =>
          r ← run_line line f r;
          match r with
          | Some r => if exited r then mret tt else run_lines lines r
          | None => mret tt
          end
      end
  end.

Definition lineBuffer : Z := 4 * 1024 * 1024.

(** [RunShellWithSignals]: a session that starts in the root, and the last flush. *)
Definition RunShell (stdin : stream) (r0 : R) (c : C) : outcome stuck (unit * shellEnv (sess C)) :=
  (_ ← run_lines (scan_lines lineBuffer (sdata stdin)) r0; _ ← on_world flush_out; mret tt)
    (MkEnv [slash] false (MkSess (newCoalescedOutput, c) ∅ (MkStream [] None))).
End session.
