(* ===== verification/Confined.v ===== *)
(** The shell is confined to its tree: whatever the client sends and whatever the
    interpreter makes of it, every path the tree is asked for is the root or
    proper names below it, and the working directory is such a path. *)
From S2P Require Import Prelude Text Path Strconv Strings Coalesce Shell Session.

(** ** Paths of the tree *)

(** The root, or names joined by slashes: no empty, "." or ".." element. *)
Definition inside (p : bytes) : Prop := exists els, Forall name_ok els /\ p = join_slash els.

(** A clean absolute path. *)
Definition rooted (p : bytes) : Prop := exists els, Forall name_ok els /\ p = slash :: join_slash els.

Lemma Clean_rooted p : IsAbs p = true -> rooted (Clean p).
Proof.
  intros Ha. unfold Clean. rewrite Ha. cbn [app]. rewrite bool_decide_false by done.
  exists (clean_els true (split_byte slash p)). split; [|done].
  destruct (clean_els_shape true (split_byte slash p)) as (ups & names & He & Hu & Hn & Hr).
  rewrite (Hr eq_refl) in He. cbn [app] in He.
  pose proof (clean_els_ok true (split_byte slash p) (split_elements p)) as Hk. rewrite He in Hk |- *.
  rewrite Forall_forall in *. intros e Hin. destruct (Hk e Hin) as [->|]; [|done]. by destruct (Hn dotdot Hin).
Qed.

Lemma resolve_rooted cwd p : rooted cwd -> rooted (resolve_at cwd p).
Proof.
  intros (els & _ & ->). unfold resolve_at. apply Clean_rooted. destruct p as [|c p]; [done|].
  destruct (HasPrefix (c :: p) [slash]) eqn:E; [|done].
  apply HasPrefix_spec in E as [r [= ->]]. done.
Qed.

Lemma strip_rooted p : rooted p -> inside (strip p).
Proof. intros (els & Hels & ->). by exists els. Qed.

(** A name listed in a directory is below it. *)
Lemma strip_child p n : rooted p -> name_ok n -> inside (strip (strip_end p ++ [slash] ++ n)).
Proof.
  intros (els & Hels & ->) Hn. unfold strip_end.
  destruct els as [|x els].
  - change (CutSuffix [slash] [slash]) with (Some (@nil Z)). exists [n]. split; [by apply Forall_singleton|done].
  - assert (Hlast : CutSuffix (slash :: join_slash (x :: els)) [slash] = None).
    { destruct (CutSuffix _ _) as [a|] eqn:E; [|done]. apply CutSuffix_Some in E.
      assert (Hl : last (slash :: join_slash (x :: els)) = Some slash) by (rewrite E; apply last_snoc). exfalso.
      destruct (exists_last (l := x :: els)) as (els' & y & Hy); [done|]. rewrite Hy in Hels, Hl.
      apply Forall_app in Hels as [_ Hy']. rewrite Forall_singleton in Hy'. destruct Hy' as (Hy1 & _ & _ & Hy2).
      destruct els' as [|z els'].
      - cbn in Hl. destruct y; [done|]. rewrite last_cons_cons in Hl. apply last_Some_elem_of in Hl. done.
      - rewrite join_slash_snoc in Hl by done. rewrite app_assoc, app_comm_cons in Hl.
        destruct (exists_last (l := y)) as [y' [c Hc]]; [done|]. rewrite Hc in Hl, Hy2.
        rewrite app_assoc, last_snoc in Hl. injection Hl as ->. apply Hy2, elem_of_app. right. by left. }
    rewrite Hlast. cbn [default from_option]. unfold id.
    change (strip ((slash :: join_slash (x :: els)) ++ [slash] ++ n)) with (join_slash (x :: els) ++ [slash] ++ n).
    exists ((x :: els) ++ [n]). split; [apply Forall_app; by split; [|apply Forall_singleton]|]. by rewrite join_slash_snoc.
Qed.

(** ** Commands that keep to the tree *)

(** [G] is kept by every operation of the host, given paths inside the tree; a
    directory lists names. *)
Class Guarded {W} (H : Host W) (G : W -> Prop) := {
  g_open p w : inside p -> G w -> G (h_open H p w).2;
  g_readdir p w : inside p -> G w -> G (h_readdir H p w).2 /\
    (forall names, (h_readdir H p w).1 = Ok names -> Forall name_ok names);
  g_stat p w : inside p -> G w -> G (h_stat H p w).2;
  g_resolve f p w : h_resolve H = Some f -> inside p -> G w -> G (f p w).2;
  g_write d p w : G w -> G (h_write H d p w).2;
  g_flush w : G w -> G (h_flush H w).2;
  g_set_stdin s w : G w -> G (h_set_stdin H s w);
  g_begin w : G w -> G (h_begin H w);
  g_finish w : G w -> G (h_finish H w);
  g_transferred o off n w : G w -> G (h_transferred H o off n w);
  g_served a b c w : G w -> G (h_served H a b c w);
}.

Create HintDb spec discriminated.
#[export] Hint Constants Opaque : spec.

Section specs.
Context {W : Type} (G : W -> Prop).

Definition ok_env (e : shellEnv W) : Prop := rooted (cwd e) /\ G (world e).

(** Run in a good environment, an action ends in one, with an answer in [Q]. *)
Definition spec {A} (m : cmd W A) (Q : A -> Prop) : Prop := forall e, ok_env e ->
  match m e with Ok (a, e') => ok_env e' /\ Q a | _ => True end.

Definition any {A} (_ : A) : Prop := True.

Lemma spec_ret {A} (a : A) (Q : A -> Prop) : Q a -> spec (mret a) Q.
Proof. by intros ? ? ?. Qed.
Lemma spec_bind {A B} (m : cmd W A) (f : A -> cmd W B) (P : A -> Prop) Q :
  spec m P -> (forall a, P a -> spec (f a) Q) -> spec (m ≫= f) Q.
Proof.
  intros Hm Hf e He. rewrite run_bind. specialize (Hm e He). destruct (m e) as [[a e']| |]; [|done..].
  destruct Hm. by apply Hf.
Qed.
Lemma spec_weaken {A} (m : cmd W A) (P Q : A -> Prop) : spec m P -> (forall a, P a -> Q a) -> spec m Q.
Proof. intros Hm HPQ e He. specialize (Hm e He). destruct (m e) as [[a e']| |]; [|done..]. naive_solver. Qed.
Lemma spec_any {A} (m : cmd W A) P : spec m P -> spec m any.
Proof. intros Hm. by eapply spec_weaken. Qed.
Lemma spec_world {A} (f : W -> A * W) (Q : A -> Prop) :
  (forall w, G w -> G (f w).2 /\ Q (f w).1) -> spec (on_world f) Q.
Proof. intros Hf e [Hc Hw]. rewrite run_world. destruct (Hf _ Hw). by split. Qed.
Lemma spec_tell (f : W -> W) : (forall w, G w -> G (f w)) -> spec (tell f) any.
Proof. intros Hf. apply spec_world. intros w Hw. split; [by apply Hf|done]. Qed.
Lemma spec_panic {A} (Q : A -> Prop) : spec go_panic Q.
Proof. by intros e He. Qed.
Lemma spec_no_fuel {A} (Q : A -> Prop) : spec no_fuel Q.
Proof. by intros e He. Qed.
Lemma spec_refused : spec set_refused any.
Proof. intros e [Hc Hw]. cbn. by split. Qed.
Lemma spec_set_cwd p : rooted p -> spec (set_cwd p) any.
Proof. intros Hp e [Hc Hw]. cbn. by split. Qed.

Context (H : Host W) `{Hguard : !Guarded H G}.

Lemma spec_resolve p : spec (resolve p) rooted.
Proof. intros e [Hc Hw]. cbn. split; [done|]. by apply resolve_rooted. Qed.
Lemma spec_fsPath p : spec (fsPath p) inside.
Proof. intros e [Hc Hw]. cbn. split; [done|]. by apply strip_rooted, resolve_rooted. Qed.

Lemma spec_Open p : inside p -> spec (Open H p) any.
Proof. intros Hp. apply spec_world. intros w Hw. split; [by apply (g_open (Guarded := Hguard))|done]. Qed.
Lemma spec_Stat p : inside p -> spec (Stat H p) any.
Proof. intros Hp. apply spec_world. intros w Hw. split; [by apply (g_stat (Guarded := Hguard))|done]. Qed.
Lemma spec_ReadDir p : inside p -> spec (ReadDir H p) (fun r => forall names, r = Ok names -> Forall name_ok names).
Proof. intros Hp. apply spec_world. intros w Hw. by apply (g_readdir (Guarded := Hguard)). Qed.
Lemma spec_Write d p : spec (Write H d p) any.
Proof. apply spec_world. intros w Hw. split; [by apply (g_write (Guarded := Hguard))|done]. Qed.
Lemma spec_flush : spec (on_world (h_flush H)) any.
Proof. apply spec_world. intros w Hw. split; [by apply (g_flush (Guarded := Hguard))|done]. Qed.
Lemma spec_interrupted : spec (interrupted H) any.
Proof. apply spec_world. by intros w Hw. Qed.
Lemma spec_begin : spec (tell (h_begin H)) any.
Proof. apply spec_tell, (g_begin (Guarded := Hguard)). Qed.
Lemma spec_finish : spec (tell (h_finish H)) any.
Proof. apply spec_tell, (g_finish (Guarded := Hguard)). Qed.
Lemma spec_served a b c : spec (tell (h_served H a b c)) any.
Proof. apply spec_tell, (g_served (Guarded := Hguard)). Qed.
Lemma spec_transferred o off n : spec (tell (h_transferred H o off n)) any.
Proof. apply spec_tell, (g_transferred (Guarded := Hguard)). Qed.
End specs.

#[export] Hint Resolve spec_panic spec_no_fuel spec_refused spec_set_cwd spec_resolve spec_fsPath spec_Open spec_Stat
  spec_ReadDir spec_Write spec_flush spec_interrupted spec_begin spec_finish spec_served spec_transferred : spec.
#[export] Hint Resolve strip_rooted strip_child : spec.

(** One step: a bind whose first action is known, a return, or a case. *)
Ltac spec_leaf := first [by apply spec_ret | by eauto with spec | by (eapply spec_any; eauto with spec)].
Ltac spec_step :=
  match goal with
  | |- spec _ (match ?x with _ => _ end) _ => destruct x eqn:?
  | |- spec _ (if ?x then _ else _) _ => destruct x eqn:?
  | |- spec _ (let '(_, _) := ?x in _) _ => destruct x eqn:?
  | |- spec _ (mret _) _ => apply spec_ret; done
  | |- spec _ (mbind _ _) _ => eapply spec_bind; [solve [spec_leaf]|intros ? ?]
  | |- spec _ (mbind _ _) _ => apply (spec_bind _ _ _ any); [|intros ? ?]
  | |- _ => solve [spec_leaf]
  end.
Ltac specs := repeat (cbn zeta beta; spec_step).

Section commands.
Context {W : Type} (G : W -> Prop) (H : Host W) `{Hguard : !Guarded H G}.
Context (printWide : Z -> bool) (lowerWide : Z -> Z) (io_text : io_err -> gerr)
  (regexp : bytes -> outcome gerr (bytes -> bool)) (civil : Z -> bytes * Z * Z * Z * Z).

Lemma spec_println d s : spec G (println H d s) any.
Proof. unfold println. specs. Qed.
Lemma spec_warnf s : spec G (warnf H s) any.
Proof. apply spec_println. Qed.
Hint Resolve spec_println spec_warnf : spec.
Lemma spec_refusef s : spec G (refusef H s) any.
Proof. unfold refusef. specs. Qed.
Hint Resolve spec_refusef : spec.

Lemma spec_logServed p : spec G (logServed H p) any.
Proof.
  unfold logServed. eapply spec_bind; [apply spec_resolve|]. intros abs _.
  eapply spec_bind; [apply spec_fsPath|]. intros fp Hfp. destruct (h_resolve H) as [f|] eqn:Hf; [|spec_leaf].
  apply (spec_bind _ _ _ any); [|intros r _; specs].
  apply spec_world. intros w Hw. split; [by apply (g_resolve (Guarded := Hguard))|done].
Qed.
Lemma spec_fileTransferred f off n : spec G (fileTransferred H f off n) any.
Proof. unfold fileTransferred. specs. Qed.
Hint Resolve spec_logServed spec_fileTransferred : spec.

Lemma spec_stat_of operand : spec G (p ← fsPath operand; Stat H p) any.
Proof. specs. Qed.
Hint Resolve spec_stat_of : spec.

Lemma spec_unaryTest op operand : spec G (unaryTest H op operand) any.
Proof. unfold unaryTest. specs. Qed.
Hint Resolve spec_unaryTest : spec.
Lemma spec_runTest args : spec G (runTest H args) any.
Proof. unfold runTest. specs. Qed.
Hint Resolve spec_runTest : spec.
Lemma spec_evalTest name operands : spec G (evalTest H name operands) any.
Proof. unfold evalTest. specs. Qed.

Lemma spec_Read src n : spec G (Read H src n) any.
Proof.
  revert n. induction src as [ra off limit| |k src IH]; intros n; cbn [Read].
  - specs.
  - apply spec_world. intros w Hw. cbn. split; [by apply (g_set_stdin (Guarded := Hguard))|done].
  - specs.
Qed.
Hint Resolve spec_Read : spec.
Lemma spec_read_full fuel src n got : spec G (read_full_from H fuel src n got) any.
Proof. revert src got. induction fuel as [|fuel IH]; intros src got; cbn [read_full_from]; specs. all: apply IH. Qed.
Lemma spec_ReadFull src n : spec G (ReadFull H src n) any.
Proof. apply spec_read_full. Qed.
Hint Resolve spec_ReadFull : spec.
Lemma spec_discard n : spec G (discard H n) any.
Proof.
  apply spec_world. intros w Hw. destruct (n <=? 0); [done|]. cbn. split; [by apply (g_set_stdin (Guarded := Hguard))|done].
Qed.
Hint Resolve spec_discard : spec.

Lemma spec_print_line withInode name i : spec G (print_line H civil withInode name i) any.
Proof. unfold print_line. apply (spec_bind _ _ _ any); [by apply spec_world|]. intros now _. apply spec_println. Qed.
Hint Resolve spec_print_line : spec.
Lemma spec_ls_names names : spec G (ls_names H names) any.
Proof. induction names as [|n names IH]; cbn [ls_names]; specs. Qed.
Lemma spec_ls_long withInode abs names : rooted abs -> Forall name_ok names ->
  spec G (ls_long H civil withInode (strip_end abs) names) any.
Proof. intros Ha. induction 1 as [|n names Hn Hns IH]; cbn [ls_long]; specs. Qed.
Hint Resolve spec_ls_names spec_ls_long : spec.

(** A listing that was answered holds names. *)
Lemma spec_listing {A} p (f : outcome gerr (list bytes) -> cmd W A) Q : inside p ->
  (forall names, Forall name_ok names -> spec G (f (Ok names)) Q) ->
  (forall r, (forall names, r <> Ok names) -> spec G (f r) Q) -> spec G (r ← ReadDir H p; f r) Q.
Proof.
  intros Hp Hok Hbad. eapply spec_bind; [by apply spec_ReadDir|]. intros [names|e|] Hr.
  - apply Hok. by apply Hr.
  - by apply Hbad.
  - by apply Hbad.
Qed.

Lemma spec_shLs args : spec G (shLs H civil args) any.
Proof.
  unfold shLs. cbn zeta. eapply spec_bind; [apply spec_resolve|]. intros abs Ha.
  apply (spec_bind _ _ _ any); [spec_leaf|]. intros i _. destruct i as [i|e|]; [|specs..].
  destruct (_ || _); [specs|]. apply spec_listing; [by apply strip_rooted| |].
  - intros names Hnames. specs.
  - intros r Hr. destruct r; [by destruct (Hr a)|specs..].
Qed.

Lemma spec_in_transfer {A} (m : cmd W A) : spec G m any -> spec G (in_transfer H m) any.
Proof. intros Hm. unfold in_transfer. specs. Qed.

Lemma spec_copy_loop fuel src : spec G (copy_loop H io_text fuel src) any.
Proof. revert src. induction fuel as [|fuel IH]; intros src; cbn [copy_loop]; specs. Qed.
Lemma spec_copy_input fuel : spec G (copy_input H fuel) any.
Proof. induction fuel as [|fuel IH]; cbn [copy_input]; specs. Qed.
Hint Resolve spec_copy_loop spec_copy_input : spec.
Lemma spec_cat_files args : spec G (cat_files H io_text args) any.
Proof. induction args as [|p args IH]; cbn [cat_files]; specs. Qed.
Lemma spec_shCat args : spec G (shCat H io_text args) any.
Proof.
  unfold shCat. destruct args; [|apply spec_in_transfer, spec_cat_files].
  apply (spec_bind _ _ _ any); [by apply spec_world|]. intros s _. specs.
Qed.

Lemma spec_dd_loop turns src ibs bufSize c : spec G (dd_loop H io_text turns src ibs bufSize c) any.
Proof. revert src c. induction turns as [|turns IH]; intros src c; cbn [dd_loop]; specs. Qed.
Hint Resolve spec_dd_loop : spec.
Lemma spec_dd_source d ibs : spec G (dd_source H io_text d ibs) any.
Proof. unfold dd_source. specs. Qed.
Lemma spec_dd_end d ibs f c : spec G (dd_end H d ibs f c) any.
Proof. unfold dd_end. specs. Qed.
Hint Resolve spec_dd_source spec_dd_end : spec.
Lemma spec_dd_copy turns d ibs src f : spec G (dd_copy H io_text turns d ibs src f) any.
Proof. apply spec_in_transfer. specs. Qed.
Hint Resolve spec_dd_copy : spec.
Lemma spec_shDD turns args : spec G (shDD H printWide io_text turns args) any.
Proof. unfold shDD. specs. Qed.

Lemma spec_grep_open name files : spec G (grep_open H name files) any.
Proof. induction files as [|p files IH]; cbn [grep_open]; specs. Qed.
Lemma spec_grep_inputs name files : spec G (grep_inputs H name files) any.
Proof.
  destruct files; [|apply spec_grep_open]. apply spec_world. intros w Hw. split; [by apply (g_set_stdin (Guarded := Hguard))|done].
Qed.
Lemma spec_print_lines prefix ls : spec G (print_lines H prefix ls) any.
Proof. induction ls as [|l ls IH]; cbn [print_lines]; specs. Qed.
Hint Resolve spec_grep_inputs spec_print_lines : spec.
Lemma spec_grep_sources g f srcs : spec G (grep_sources H g f srcs) any.
Proof. induction srcs as [|[name data] srcs IH]; cbn [grep_sources]; specs. Qed.
Hint Resolve spec_grep_sources : spec.
Lemma spec_shGrep name args : spec G (shGrep H printWide lowerWide regexp name args) any.
Proof. unfold shGrep. specs. Qed.
Hint Resolve spec_shLs spec_shCat spec_shDD spec_shGrep spec_evalTest : spec.

(** The handlers keep to the tree. *)
Lemma spec_callHandler args : spec G (callHandler H args) any.
Proof.
  destruct args as [|name rest]; [specs|]. unfold callHandler. cbn zeta.
  repeat (case_match; [specs|]); try specs.
Qed.
Lemma spec_execHandler turns args : spec G (execHandler H printWide lowerWide io_text regexp civil turns args) any.
Proof. unfold execHandler. specs. Qed.
Lemma spec_openHandler path write : spec G (openHandler H path write) any.
Proof. unfold openHandler. specs. Qed.

Lemma spec_dir_entries abs names : rooted abs -> Forall name_ok names ->
  spec G (dir_entries H (strip_end abs) names) any.
Proof. intros Ha. induction 1 as [|n names Hn Hns IH]; cbn [dir_entries]; specs. Qed.
Hint Resolve spec_dir_entries : spec.
Lemma spec_readDirHandler path : spec G (readDirHandler H path) any.
Proof.
  unfold readDirHandler. eapply spec_bind; [apply spec_resolve|]. intros abs Ha.
  apply spec_listing; [by apply strip_rooted| |].
  - intros names Hnames. specs.
  - intros r Hr. destruct r; [by destruct (Hr a)|specs..].
Qed.
Lemma spec_statHandler path : spec G (statHandler H path) any.
Proof. unfold statHandler. cbn zeta. specs. Qed.
End commands.

(** ** The session *)

(** A base that writes down every path its tree is asked for. *)
Section watched.
Context {C : Type} (B : Base C).

Definition note {A} (p : bytes) (f : C -> A * C) (s : list bytes * C) : A * (list bytes * C) :=
  let '(a, c) := f s.2 in (a, (s.1 ++ [p], c)).
Definition unseen {A} (f : C -> A * C) (s : list bytes * C) : A * (list bytes * C) :=
  let '(a, c) := f s.2 in (a, (s.1, c)).

Definition watched : Base (list bytes * C) := MkBase (list bytes * C)
  (fun p => note p (b_open B p)) (fun p => note p (b_readdir B p)) (fun p => note p (b_stat B p))
  ((fun f p => note p (f p)) <$> b_resolve B)
  (fun i p => unseen (b_conn B i p))
  (fun s => (s.1, b_begin B s.2)) (fun s => (s.1, b_finish B s.2)) (fun s => b_interrupted B s.2)
  (fun s => (s.1, b_disable B s.2)) (fun v s => (s.1, b_suspend B v s.2))
  (fun o off n s => (s.1, b_transferred B o off n s.2)) (fun a b c s => (s.1, b_served B a b c s.2))
  (fun l s => (s.1, b_command B l s.2)) (fun st r s => (s.1, b_end B st r s.2)) (fun s => b_now B s.2).

(** A directory lists names. *)
Definition lists_names : Prop := forall p c names, (b_readdir B p c).1 = Ok names -> Forall name_ok names.

(** Every path so far was inside the tree. *)
Definition all_inside (s : sess (list bytes * C)) : Prop := Forall inside (s_out s).2.1.

Lemma unseen_log {A} (f : C -> A * C) s : (unseen f s).2.1 = s.1.
Proof. unfold unseen. by destruct (f s.2). Qed.
Lemma note_log {A} p (f : C -> A * C) s : (note p f s).2.1 = s.1 ++ [p].
Proof. unfold note. by destruct (f s.2). Qed.

Lemma flushLocked_log (s : out_state (W := list bytes * C)) : (flushLocked (b_conn watched) s).2.2.1 = s.2.1.
Proof.
  destruct s as [o [l c]]. unfold flushLocked. case_bool_decide; [done|]. cbn [watched b_conn].
  pose proof (unseen_log (b_conn B StdOut (buf o)) (l, c)) as Hl. destruct (unseen _ _) as [[n e] [l' c']]. exact Hl.
Qed.

Lemma Write_log p (s : out_state (W := list bytes * C)) : (Coalesce.Write (b_conn watched) p s).2.2.1 = s.2.1.
Proof.
  unfold Coalesce.Write. set (now := direct s.1 || _). pose proof (flushLocked_log s) as Hf.
  assert (H : forall e o w, w.1 = s.2.1 -> (match e with
    | Some e => ((0, Some e), (o, w))
    | None => if negb now then ((zlen p, None), (MkOut (buf o ++ p) (direct o), w))
              else let '(r, w) := b_conn watched StdOut p w in (r, (o, w))
    end).2.2.1 = s.2.1).
  { intros [e|] o w Hw; [done|]. destruct (negb now); [done|]. cbn [watched b_conn].
    pose proof (unseen_log (b_conn B StdOut p) w) as Hl. destruct (unseen _ _) as [r w']. cbn in *. congruence. }
  destruct (now || _); [|destruct s as [o w]; by apply (H None)].
  destruct (flushLocked (b_conn watched) s) as [e [o w]]. by apply H.
Qed.

Lemma err_Write_log p (s : out_state (W := list bytes * C)) : (err_Write (b_conn watched) p s).2.2.1 = s.2.1.
Proof.
  unfold err_Write. pose proof (flushLocked_log s) as Hf. destruct (flushLocked (b_conn watched) s) as [[e|] [o w]]; [done|].
  cbn [watched b_conn]. pose proof (unseen_log (b_conn B StdErr p) w) as Hl. destruct (unseen _ _) as [r w']. cbn in *. congruence.
Qed.

Lemma write_to_inside t p s : all_inside s -> all_inside (write_to watched t p s).2.
Proof.
  unfold all_inside, write_to. intros Hs. destruct t; [| |done].
  - pose proof (Write_log p (s_out s)) as Hl. destruct (Coalesce.Write _ _ _) as [r o]. cbn in *. by rewrite Hl.
  - pose proof (err_Write_log p (s_out s)) as Hl. destruct (err_Write _ _ _) as [r o]. cbn in *. by rewrite Hl.
Qed.

Lemma flush_out_inside s : all_inside s -> all_inside (flush_out watched s).2.
Proof.
  unfold all_inside, flush_out, Flush. intros Hs. pose proof (flushLocked_log (s_out s)) as Hl.
  destruct (flushLocked _ _) as [r o]. cbn in *. by rewrite Hl.
Qed.

Lemma on_base_inside {A} (f : list bytes * C -> A * (list bytes * C)) s :
  (Forall inside (s_out s).2.1 -> Forall inside (f (s_out s).2).2.1) -> all_inside s -> all_inside (on_base f s).2.
Proof. unfold all_inside, on_base. destruct (s_out s) as [o c]. cbn. destruct (f c) as [a c']. auto. Qed.

Lemma on_base_fst {A} (f : list bytes * C -> A * (list bytes * C)) s : (on_base f s).1 = (f (s_out s).2).1.
Proof. unfold on_base. destruct (s_out s) as [o c]. cbn. by destruct (f c). Qed.

Lemma noted_inside {A} p (f : C -> A * C) s : inside p -> all_inside s -> all_inside (on_base (note p f) s).2.
Proof.
  intros Hp. apply on_base_inside. rewrite note_log. intros Hs. apply Forall_app. split; [done|]. by apply Forall_singleton.
Qed.

Lemma host_guarded hc : lists_names -> Guarded (host_of watched hc) all_inside.
Proof.
  intros Hn. split; cbn [host_of h_open h_readdir h_stat h_resolve h_write h_flush h_set_stdin h_begin h_finish h_transferred h_served].
  - intros p w Hp. by apply noted_inside.
  - intros p w Hp Hw. split; [by apply noted_inside|]. intros names. rewrite on_base_fst. cbn [watched b_readdir].
    unfold note. destruct (b_readdir B p (s_out w).2.2) as [r c] eqn:E. cbn. intros ->. apply (Hn p (s_out w).2.2). by rewrite E.
  - intros p w Hp. by apply noted_inside.
  - intros f p w. cbn [watched b_resolve]. destruct (b_resolve B) as [g|]; cbn; [|done]. intros [= <-] Hp. by apply noted_inside.
  - intros d p w. apply write_to_inside.
  - intros w Hw. destruct (hc_stdout hc); [by apply flush_out_inside|done..].
  - done.
  - intros w. by apply on_base_inside.
  - intros w. by apply on_base_inside.
  - intros o off n w. by apply on_base_inside.
  - intros a b c w. by apply on_base_inside.
Qed.

Context (Hnames : lists_names).
Context (printWide : Z -> bool) (lowerWide : Z -> Z) (io_text : io_err -> gerr)
  (regexp : bytes -> outcome gerr (bytes -> bool)) (civil : Z -> bytes * Z * Z * Z * Z).
Context {F R : Type} (parse : bytes -> F + gerr) (background unsupported : F -> bool)
  (run : F -> R -> prog R) (exited : R -> bool).

Let keeps {A} (m : cmd (sess (list bytes * C)) A) : Prop := spec all_inside m any.

Lemma keeps_base (f : list bytes * C -> list bytes * C) : (forall s, (f s).1 = s.1) -> keeps (tell_c f).
Proof. intros Hf. apply spec_tell. intros w. apply on_base_inside. cbn. by rewrite Hf. Qed.

Lemma keeps_write t p : keeps (on_world (write_to watched t p)).
Proof. apply spec_world. intros w Hw. split; [by apply write_to_inside|done]. Qed.

Lemma keeps_stderr t : keeps (stderr_line watched t).
Proof. apply (spec_bind _ _ _ any); [apply keeps_write|]. intros r _. by apply spec_ret. Qed.

Lemma keeps_input {A} i (m : cmd (sess (list bytes * C)) A) : keeps m -> keeps (with_input i m).
Proof. intros Hm. apply (spec_bind _ _ _ any); [by apply spec_tell|]. by intros _ _. Qed.

Lemma keeps_interp (p : prog R) : keeps (interp watched printWide lowerWide io_text regexp civil p).
Proof.
  induction p as [r res| |hc args k IH|hc turns args k IH|path write k IH|path k IH|path k IH|t p k IH]; cbn [interp].
  - by apply spec_ret.
  - by apply spec_ret.
  - apply (spec_bind _ _ _ any); [|intros r _; apply IH]. apply keeps_input. unshelve eapply spec_callHandler. by apply host_guarded.
  - apply (spec_bind _ _ _ any); [apply keeps_input; unshelve eapply spec_execHandler; by apply host_guarded|].
    intros r _. apply (spec_bind _ _ _ any); [by apply spec_world|]. intros s _. apply IH.
  - apply (spec_bind _ _ _ any); [|intros r _; apply IH]. unshelve eapply spec_openHandler. by apply host_guarded.
  - apply (spec_bind _ _ _ any); [|intros r _; apply IH]. unshelve eapply spec_readDirHandler. by apply host_guarded.
  - apply (spec_bind _ _ _ any); [|intros r _; apply IH]. unshelve eapply spec_statHandler. by apply host_guarded.
  - apply (spec_bind _ _ _ any); [apply keeps_write|intros r _; apply IH].
Qed.

Lemma keeps_flush : keeps (on_world (flush_out watched)).
Proof. apply spec_world. intros w Hw. split; [by apply flush_out_inside|done]. Qed.

Lemma keeps_run_line line f r :
  keeps (run_line watched printWide lowerWide io_text regexp civil background unsupported run line f r).
Proof.
  unfold run_line. apply (spec_bind _ _ _ any).
  { destruct (background f); [|destruct (unsupported f); [by apply keeps_base|by apply spec_ret]].
    apply (spec_bind _ _ _ any); [by apply keeps_base|]. intros _ _. apply spec_world. intros w Hw.
    unfold passThrough. pose proof (flushLocked_log (MkOut (buf (s_out w).1) true, (s_out w).2)) as Hl.
    destruct (flushLocked _ _) as [e o]. cbn in *. split; [|done]. unfold all_inside in *. cbn. by rewrite Hl. }
  intros _ _. apply (spec_bind _ _ _ any); [by intros e [Hc Hw]|]. intros _ _.
  apply (spec_bind _ _ _ any); [by apply keeps_base|]. intros _ _.
  apply (spec_bind _ _ _ any); [apply keeps_interp|]. intros [[r' res]|] _; [|by apply spec_ret].
  apply (spec_bind _ _ _ any).
  { destruct res; [by apply spec_ret..|]. apply (spec_bind _ _ _ any); [apply keeps_stderr|]. intros _ _. by apply spec_ret. }
  intros status _. apply (spec_bind _ _ _ any); [destruct (_ && _); [by apply keeps_base|by apply spec_ret]|].
  intros _ _. apply (spec_bind _ _ _ any); [apply keeps_flush|]. intros _ _.
  apply (spec_bind _ _ _ any); [by intros e [Hc Hw]|]. intros refused _.
  apply (spec_bind _ _ _ any); [by apply keeps_base|]. intros _ _. by apply spec_ret.
Qed.

Lemma keeps_run_lines lines r :
  keeps (run_lines watched printWide lowerWide io_text regexp civil parse background unsupported run exited lines r).
Proof.
  revert r. induction lines as [|l lines IH]; intros r; cbn [run_lines]; [by apply spec_ret|].
  apply (spec_bind _ _ _ any); [apply keeps_flush|]. intros _ _. destruct (bool_decide _); [apply IH|].
  destruct (parse _) as [f|text].
  - apply (spec_bind _ _ _ any); [apply keeps_run_line|]. intros [r'|] _; [|by apply spec_ret].
    destruct (exited r'); [by apply spec_ret|apply IH].
  - apply (spec_bind _ _ _ any); [apply keeps_stderr|]. intros _ _. apply IH.
Qed.

(** C2. A session is confined to the tree: whatever the client sends, and whatever
    an interpreter of any kind does with it through the handlers, every path the
    tree was asked to open, list, stat or resolve is the root or proper names
    below it, with no "..", and so is the directory the session is left in. *)
Theorem session_confined stdin r0 c :
  match RunShell watched printWide lowerWide io_text regexp civil parse background unsupported run exited stdin r0 ([], c) with
  | Ok (_, e) => Forall inside (s_out (world e)).2.1 /\ rooted (cwd e)
  | _ => True
  end.
Proof.
  unfold RunShell. set (e0 := MkEnv _ _ _).
  assert (He : ok_env all_inside e0) by (split; [by exists []|by apply Forall_nil]).
  set (m := mbind _ _). assert (Hk : keeps m).
  { apply (spec_bind _ _ _ any); [apply keeps_run_lines|]. intros _ _.
    apply (spec_bind _ _ _ any); [apply keeps_flush|]. intros _ _. by apply spec_ret. }
  specialize (Hk e0 He). destruct (m e0) as [[u e]| |]; [|done..]. by destruct Hk as [[Hc Hw] _].
Qed.
End watched.
