(* ===== verification/Attempts.v ===== *)
(** Timed installs ([serve/install_timing.go]): a command file that starts an
    installation carries a fresh token, the token is live once the whole file
    went to a client, and the file that reports the return is there only for
    that client's address. *)
From S2P Require Import Prelude Text Path Strconv Strings Shell.

Definition installReturnPrefix : bytes := str "__instigator/attempts/".

Definition installStartPath (script : bytes) : bytes := str "/__instigator/" ++ script ++ str "/start.cmds".
Definition installThenPath (script : bytes) : bytes := str "/__instigator/" ++ script ++ str "/then.cmds".
Definition installThenStartPath (script : bytes) : bytes := str "/__instigator/" ++ script ++ str "/then/start.cmds".
Definition installPostPath (script : bytes) : bytes := str "/__instigator/" ++ script ++ str "/post-install.cmds".
Definition installReturnPath (attempt : bytes) : bytes := [slash] ++ installReturnPrefix ++ attempt ++ str "/returned.cmds".

Definition admin_source (server path : bytes) : bytes := str "admin source " ++ server ++ str ":" ++ path ++ [newline].

Definition installGoCommands (server attempt next : bytes) : bytes :=
  str "go" ++ [newline] ++ admin_source server (installReturnPath attempt) ++
  (if bool_decide (next = []) then [] else admin_source server next).

(** [fsName]. *)
Definition fsName (p : bytes) : bytes := match strip p with [] => [dot] | p => p end.

(** ** State *)

Record installEntry := MkEntry { e_script : bytes; e_next : bytes }.

Record installAttempt := MkAttempt {
  a_id : bytes; a_script : bytes; a_client : bytes; a_address : bytes; a_start : Z; a_returned : bool;
}.

(** A file handed out, and what it does when all of it went to a client: an
    attempt starts, or has returned. Attempts are shared, so they live in a heap
    and are named by their place in it. [sync.Once] is [f_fired]. *)
Inductive done := StartOf (a : nat) | ReturnOf (a : nat).
Record installFile := MkInstallFile { f_done : done; f_len : Z; f_fired : bool }.

Inductive event :=
| InstallStart (id client script : bytes)
| InstallReturned (id client script : bytes) (ms : Z).

Record installScripts := MkScripts {
  heap : list installAttempt;
  attempts : gmap bytes nat;
  files : list installFile;
  events : list event;
}.

Definition newInstallScripts : installScripts := MkScripts [] ∅ [] [].

Section scripts.
(** The server's name, the files that start an installation, and the tokens that
    the random source gives, in order. *)
Context (server : bytes) (starts : gmap bytes installEntry) (token : nat -> bytes).

(** [hex.EncodeToString]. *)
Definition encode_hex (t : bytes) : bytes := mjoin (hex 2 <$> t).

Definition return_name (id : bytes) : bytes := fsName (installReturnPath id).

(** [findReturn]. *)
Definition findReturn (s : installScripts) (name address : bytes) : option (nat * installAttempt) :=
  i ← attempts s !! name; a ← heap s !! i;
  if bool_decide (a_address a = address) then Some (i, a) else None.

(** A file that observes: its place among the files handed out, and its bytes. *)
Definition hand_out (s : installScripts) (d : done) (body : bytes) : (nat * bytes) * installScripts :=
  ((length (files s), body), MkScripts (heap s) (attempts s) (files s ++ [MkInstallFile d (zlen body) false]) (events s)).

(** [installScripts.open]: [None] when it is not one of these files. *)
Definition open (s : installScripts) (name client address : bytes)
    : option ((nat * bytes) + unit) * installScripts :=
  match starts !! name with
  | Some entry =>
      let a := MkAttempt (encode_hex (token (length (heap s)))) (e_script entry) client address 0 false in
      let i := length (heap s) in
      let s := MkScripts (heap s ++ [a]) (attempts s) (files s) (events s) in
      let '(f, s) := hand_out s (StartOf i) (installGoCommands server (a_id a) (e_next entry)) in
      (Some (inl f), s)
  | None =>
      if HasPrefix name installReturnPrefix then
        match findReturn s name address with
        | None => (Some (inr tt), s)
        | Some (i, _) => let '(f, s) := hand_out s (ReturnOf i) [newline] in (Some (inl f), s)
        end
      else (None, s)
  end.

(** [installScripts.stat]. *)
Definition stat (s : installScripts) (name address : bytes) : option (FileInfo + unit) :=
  if negb (HasPrefix name installReturnPrefix) then None
  else match starts !! name with
  | Some _ => None
  | None => Some (match findReturn s name address with
                  | None => inr tt
                  | Some _ => inl (MkFI 0 false 0x124 1 0 0 1 None)
                  end)
  end.

Definition set_start (now : Z) (a : installAttempt) : installAttempt :=
  MkAttempt (a_id a) (a_script a) (a_client a) (a_address a) now (a_returned a).
Definition set_returned (a : installAttempt) : installAttempt :=
  MkAttempt (a_id a) (a_script a) (a_client a) (a_address a) (a_start a) true.

(** What a file does once, at a time in nanoseconds. *)
Definition run_done (d : done) (now : Z) (s : installScripts) : installScripts :=
  match d with
  | StartOf i =>
      match heap s !! i with
      | None => s
      | Some a => MkScripts (alter (set_start now) i (heap s)) (<[return_name (a_id a) := i]> (attempts s)) (files s)
                    (events s ++ [InstallStart (a_id a) (a_client a) (a_script a)])
      end
  | ReturnOf i =>
      match heap s !! i with
      | None => s
      | Some a =>
          if a_returned a then s
          else MkScripts (alter set_returned i (heap s)) (attempts s) (files s)
                 (events s ++ [InstallReturned (a_id a) (a_client a) (a_script a) (Z.quot (now - a_start a) 1000000)])
      end
  end.

(** [installFile.Transferred]: the whole file at once. *)
Definition Transferred (f : nat) (offset len now : Z) (s : installScripts) : installScripts :=
  match files s !! f with
  | None => s
  | Some file =>
      if (offset =? 0) && (len =? f_len file) && negb (f_fired file) then
        run_done (f_done file) now
          (MkScripts (heap s) (attempts s) (alter (fun x => MkInstallFile (f_done x) (f_len x) true) f (files s)) (events s))
      else s
  end.

(** ** What clients do *)

Inductive action :=
| Opened (name client address : bytes)
| Sent (f : nat) (offset len now : Z).

Definition act (s : installScripts) (a : action) : installScripts :=
  match a with
  | Opened name client address => (open s name client address).2
  | Sent f offset len now => Transferred f offset len now s
  end.

Definition history (l : list action) : installScripts := foldl act newInstallScripts l.
End scripts.

(** The attempts that started and that returned, in order. *)
Definition started (l : list event) : list bytes :=
  omap (fun e => match e with InstallStart id _ _ => Some id | _ => None end) l.
Definition returned (l : list event) : list bytes :=
  omap (fun e => match e with InstallReturned id _ _ _ => Some id | _ => None end) l.

Lemma started_app l k : started (l ++ k) = started l ++ started k.
Proof. apply omap_app. Qed.

Lemma returned_app l k : returned (l ++ k) = returned l ++ returned k.
Proof. apply omap_app. Qed.

Lemma return_name_spelled id : return_name id = installReturnPrefix ++ id ++ str "/returned.cmds".
Proof. reflexivity. Qed.

#[global] Instance return_name_inj : Inj (=) (=) return_name.
Proof. intros x y H. rewrite !return_name_spelled in H. by apply app_inv_head, app_inv_tail in H. Qed.

(** An install is told once, in order, and only to the client that began it. *)
Definition told_once_in_order (l : list action) (s : installScripts) : Prop :=
  NoDup (started (events s)) /\
  NoDup (returned (events s)) /\
  (forall before k client script ms after,
     events s = before ++ InstallReturned k client script ms :: after ->
     InstallStart k client script ∈ before) /\
  (forall i a, heap s !! i = Some a -> a_id a ∈ started (events s) ->
     exists f x now, files s !! f = Some x /\ f_done x = StartOf i /\ Sent f 0 (f_len x) now ∈ l) /\
  (forall i a address, heap s !! i = Some a ->
     (is_Some (findReturn s (return_name (a_id a)) address) <->
      address = a_address a /\ a_id a ∈ started (events s))).

Section lifecycle.
Context (server : bytes) (starts : gmap bytes installEntry) (token : nat -> bytes).
(** No two tokens print alike. *)
Hypothesis tokens_differ : forall i j, encode_hex (token i) = encode_hex (token j) -> i = j.

Notation id i := (encode_hex (token i)).

(** What is true of a state: the attempts are numbered by their tokens; an
    attempt has one file that starts it, and has started exactly when that file
    was sent; the live names are the started attempts; a return is told once, of
    a started attempt. *)
Record orderly (s : installScripts) : Prop := {
  o_ids : forall i a, heap s !! i = Some a -> a_id a = id i;
  o_files : forall f x, files s !! f = Some x ->
    match f_done x with
    | StartOf i => is_Some (heap s !! i) /\ (f_fired x = true <-> id i ∈ started (events s))
    | ReturnOf i => is_Some (heap s !! i) /\ id i ∈ started (events s)
    end;
  o_once : forall f g x y i, files s !! f = Some x -> files s !! g = Some y ->
    f_done x = StartOf i -> f_done y = StartOf i -> f = g;
  o_live : forall i, attempts s !! return_name (id i) = Some i <-> is_Some (heap s !! i) /\ id i ∈ started (events s);
  o_named : forall name i, attempts s !! name = Some i -> name = return_name (id i);
  o_told : forall k, k ∈ started (events s) -> exists i, is_Some (heap s !! i) /\ k = id i;
  o_starts : NoDup (started (events s));
  o_returns : NoDup (returned (events s));
  o_flag : forall i a, heap s !! i = Some a -> a_returned a = false -> id i ∉ returned (events s);
  o_order : forall l e k, events s = l ++ e :: k -> match e with
    | InstallReturned i c sc _ => InstallStart i c sc ∈ l | _ => True end;
  o_start : forall i a, heap s !! i = Some a -> id i ∈ started (events s) ->
    InstallStart (id i) (a_client a) (a_script a) ∈ events s;
}.

Lemma elem_started k l : k ∈ started l <-> exists c sc, InstallStart k c sc ∈ l.
Proof.
  unfold started. rewrite list_elem_of_omap. split.
  - intros ([] & H & [= ->]); eauto.
  - intros (c & sc & H). eexists; split; [exact H | done].
Qed.

Lemma elem_returned k l : k ∈ returned l <-> exists c sc ms, InstallReturned k c sc ms ∈ l.
Proof.
  unfold returned. rewrite list_elem_of_omap. split.
  - intros ([] & H & [= ->]); eauto.
  - intros (c & sc & ms & H). eexists; split; [exact H | done].
Qed.

Lemma returned_started s k : orderly s -> k ∈ returned (events s) -> k ∈ started (events s).
Proof.
  intros O (c & sc & ms & (l & r & E)%list_elem_of_split)%elem_returned.
  pose proof (o_order _ O _ _ _ E) as H. cbn in H.
  apply elem_started. exists c, sc. rewrite E. set_solver.
Qed.

Notation hist := (history server starts token).

Lemma orderly_new : orderly newInstallScripts.
Proof.
  split; cbn; intros; simplify_eq; try done; try apply NoDup_nil_2.
  - split; [done | intros [_ B]; inversion B].
  - by match goal with H : _ ∈ _ |- _ => inversion H end.
  - match goal with H : [] = _ |- _ => by destruct l end.
Qed.

(** Attempts are only added, and keep who they are. *)
Lemma heap_lookup_new (h : list installAttempt) a i b :
  (h ++ [a]) !! i = Some b <-> h !! i = Some b \/ (i = length h /\ b = a).
Proof.
  rewrite lookup_app_Some, list_lookup_singleton_Some. split; intros [H | H]; auto; right.
  - destruct H as (L & E & ->). split; [lia | done].
  - destruct H as [-> ->]. split; [lia | split; [lia | done]].
Qed.


(** A state that agrees with an orderly one on what has happened, with one more
    attempt or one more file that is not yet sent. *)
Lemma orderly_attempt s n c ad e : orderly s ->
  let a := MkAttempt (id (length (heap s))) n c ad 0 false in
  orderly (MkScripts (heap s ++ [a]) (attempts s) (files s ++ [MkInstallFile (StartOf (length (heap s))) e false]) (events s)).
Proof.
  intros O a.
  assert (old : forall i, is_Some (heap s !! i) -> is_Some ((heap s ++ [a]) !! i)).
  { intros i [b H]. exists b. rewrite heap_lookup_new. by left. }
  assert (fresh : id (length (heap s)) ∉ started (events s)).
  { intros H. destruct (o_told _ O _ H) as (i & [? Hi%lookup_lt_Some] & ?%tokens_differ). lia. }
  assert (alone : forall f x, files s !! f = Some x -> f_done x <> StartOf (length (heap s))).
  { intros f x Hf E. pose proof (o_files _ O _ _ Hf) as H. rewrite E in H.
    destruct H as [[? Hi%lookup_lt_Some] _]. lia. }
  pose proof (fun k => returned_started s k O) as rs.
  destruct O as [ids fs once live named told st rt flag order start].
  split; cbn [heap attempts files events]; try done.
  - intros i b [H | [-> ->]]%heap_lookup_new; [by apply ids | done].
  - intros f x [H | [L [F <-]%list_lookup_singleton_Some]]%lookup_app_Some.
    + specialize (fs _ _ H). destruct (f_done x) as [i | i], fs; auto.
    + cbn. split; [exists a; rewrite heap_lookup_new; by right | split; [done | by intros ?%fresh]].
  - intros f g x y i [H | [L [F <-]%list_lookup_singleton_Some]]%lookup_app_Some
      [K | [M [G <-]%list_lookup_singleton_Some]]%lookup_app_Some; cbn; intros X Y.
    + by eapply once.
    + injection Y as <-. by apply alone in H.
    + injection X as <-. by apply alone in K.
    + lia.
  - intros i. rewrite live. split; intros [H1 H2]; split; auto.
    destruct H1 as [b [H | [-> ->]]%heap_lookup_new]; [by exists b | done].
  - intros k (i & H & ->)%told. eauto.
  - intros i b [H | [-> ->]]%heap_lookup_new; [by apply flag |]. intros _ K. apply fresh.
    by apply rs.
  - intros i b [H | [-> ->]]%heap_lookup_new; [by apply start | done].
Qed.

Lemma orderly_return_file s i e : orderly s -> is_Some (heap s !! i) -> id i ∈ started (events s) ->
  orderly (MkScripts (heap s) (attempts s) (files s ++ [MkInstallFile (ReturnOf i) e false]) (events s)).
Proof.
  intros O Hi St. destruct O as [ids fs once live named told st rt flag order start].
  split; cbn [heap attempts files events]; try done.
  - intros f x [H | [L [F <-]%list_lookup_singleton_Some]]%lookup_app_Some; [by apply fs in H | done].
  - intros f g x y j [H | [L [F <-]%list_lookup_singleton_Some]]%lookup_app_Some
      [K | [M [G <-]%list_lookup_singleton_Some]]%lookup_app_Some; cbn; try done. by eapply once.
Qed.

Lemma orderly_open s name c ad : orderly s -> orderly (open server starts token s name c ad).2.
Proof.
  intros O. unfold open. destruct (starts !! name) as [e |]; [exact (orderly_attempt s (e_script e) c ad _ O) |].
  destruct (HasPrefix _ _); [| done].
  unfold findReturn. destruct (attempts s !! name) as [i |] eqn:E; [| done]. cbn.
  destruct (heap s !! i) as [a |] eqn:H; [| done]. cbn. case_bool_decide; [| done].
  pose proof (o_named _ O _ _ E) as ->. apply (o_live _ O) in E as [? ?]. by apply (orderly_return_file s i _ O).
Qed.

(** ** Sending a file *)

Lemma alter_is_Some {A} (f : A -> A) i j (l : list A) : is_Some (alter f i l !! j) <-> is_Some (l !! j).
Proof. rewrite list_lookup_alter. case_decide; [subst; by rewrite fmap_is_Some | done]. Qed.

Lemma NoDup_snoc {A} (x : A) l : NoDup l -> x ∉ l -> NoDup (l ++ [x]).
Proof.
  intros H K. apply NoDup_app. split; [done |]. split; [| apply NoDup_singleton].
  intros y Hy Ey. apply list_elem_of_singleton in Ey as ->. by apply K.
Qed.

Definition fire (f : nat) (l : list installFile) : list installFile :=
  alter (fun x => MkInstallFile (f_done x) (f_len x) true) f l.

Lemma fire_lookup f l g x : fire f l !! g = Some x ->
  exists y, l !! g = Some y /\ f_done x = f_done y /\ (f_fired x = true <-> f = g \/ f_fired y = true).
Proof.
  unfold fire. rewrite list_lookup_alter. case_decide; [subst | intros K; exists x; split_and!; [done.. | tauto]].
  destruct (l !! g) as [y |]; [intros [= <-]; cbn | done].
  exists y. split_and!; [done.. | tauto].
Qed.

Lemma fire_length f l g x : fire f l !! g = Some x -> f_len <$> l !! g = Some (f_len x).
Proof.
  unfold fire. rewrite list_lookup_alter. case_decide; [subst | by intros ->].
  by destruct (l !! g) as [y |]; [intros [= <-] |].
Qed.

Lemma orderly_started s f x i a now : orderly s -> files s !! f = Some x -> f_fired x = false ->
  f_done x = StartOf i -> heap s !! i = Some a ->
  orderly (run_done (StartOf i) now (MkScripts (heap s) (attempts s) (fire f (files s)) (events s))).
Proof.
  intros O F X D H. cbn. rewrite H. pose proof (fun k => returned_started s k O) as rs.
  destruct O as [ids fs once live named told st rt flag order start].
  assert (fresh : id i ∉ started (events s)).
  { specialize (fs _ _ F). rewrite D in fs. intros K%fs. congruence. }
  rewrite (ids _ _ H).
  split; cbn [heap attempts files events]; rewrite ?started_app, ?returned_app; cbn [started returned omap list_omap]; rewrite ?app_nil_r.
  - intros j b. rewrite list_lookup_alter. case_decide; [subst; rewrite H; intros [= <-]; cbn; auto | auto].
  - intros g y (z & G & E & W)%fire_lookup. specialize (fs _ _ G) as Q. rewrite E. destruct (f_done z) as [j | j] eqn:Z.
    + rewrite alter_is_Some, W, elem_of_app, list_elem_of_singleton. split; [apply Q |].
      destruct Q as [_ Q]. rewrite Q. split.
      * intros [<- | K]; [right | by left]. rewrite F in G. simplify_eq. congruence.
      * intros [K | K]; [by right | left]. apply tokens_differ in K as ->. by eapply once.
    + rewrite alter_is_Some, elem_of_app. tauto.
  - intros g k y z j (y' & G & E & _)%fire_lookup (z' & K & E' & _)%fire_lookup. rewrite E, E'. by eapply once.
  - intros j. rewrite lookup_insert_Some, alter_is_Some, elem_of_app, list_elem_of_singleton, live.
    split.
    + intros [[_ <-] | [_ ?]]; [split; [by exists a | by right] | tauto].
    + intros [L [K | K]]; [| apply tokens_differ in K as ->; left; by split].
      right. split; [| done]. intros E%(inj return_name). apply fresh. by rewrite E.
  - intros name j [[<- ->] | [_ K]]%lookup_insert_Some; [done | by apply named].
  - intros k [K | ->%list_elem_of_singleton]%elem_of_app.
    + destruct (told _ K) as (j & J & ->). exists j. by rewrite alter_is_Some.
    + exists i. by rewrite alter_is_Some, H.
  - by apply NoDup_snoc.
  - done.
  - intros j b. rewrite list_lookup_alter. case_decide; [subst; rewrite H; intros [= <-]; cbn |].
    + intros _ K. by apply rs in K.
    + by apply flag.
  - intros l e k E. destruct (app_eq_app _ _ _ _ E) as (m & [[E1 E2] | [E1 E2]]).
    + destruct m as [| e' m]; cbn in E2; simplify_eq; [done | by eapply order].
    + destruct m as [| e' m]; cbn in E2; simplify_eq; [done | by destruct m].
  - intros j b. rewrite list_lookup_alter. rewrite elem_of_app. case_decide as J; [subst; rewrite H; intros [= <-]; cbn | ].
    + intros _. set_solver.
    + intros K [L | L]; [apply elem_of_app; left; by apply start |].
      apply list_elem_of_singleton, tokens_differ in L. by subst.
Qed.


Lemma orderly_returned s f x i a now : orderly s -> files s !! f = Some x ->
  f_done x = ReturnOf i -> heap s !! i = Some a ->
  orderly (run_done (ReturnOf i) now (MkScripts (heap s) (attempts s) (fire f (files s)) (events s))).
Proof.
  intros O F D H. cbn. rewrite H.
  assert (St : id i ∈ started (events s)) by (pose proof (o_files _ O _ _ F) as K; rewrite D in K; apply K).
  pose proof (o_start _ O _ _ H St) as Said.
  destruct O as [ids fs once live named told st rt flag order start].
  assert (fired : forall g y, fire f (files s) !! g = Some y -> match f_done y with
    | StartOf j => is_Some (heap s !! j) /\ (f_fired y = true <-> id j ∈ started (events s))
    | ReturnOf j => is_Some (heap s !! j) /\ id j ∈ started (events s) end).
  { intros g y (z & G & E & W)%fire_lookup. specialize (fs _ _ G) as Q. rewrite E.
    destruct (f_done z) as [j | j] eqn:Z; [| done]. rewrite W. split; [apply Q |].
    rewrite (proj2 Q) || rewrite <- (proj2 Q). split; [intros [<- | K]; [congruence | done] | by right]. }
  assert (once' : forall g k y z j, fire f (files s) !! g = Some y -> fire f (files s) !! k = Some z ->
    f_done y = StartOf j -> f_done z = StartOf j -> g = k).
  { intros g k y z j (y' & G & E & _)%fire_lookup (z' & K & E' & _)%fire_lookup. rewrite E, E'. by eapply once. }
  destruct (a_returned a) eqn:R; [by split |].
  rewrite (ids _ _ H) in *.
  split; cbn [heap attempts files events]; rewrite ?started_app, ?returned_app; cbn [started returned omap list_omap]; rewrite ?app_nil_r;
    try done.
  - intros j b. rewrite list_lookup_alter. case_decide; [subst; rewrite H; intros [= <-]; cbn; auto | auto].
  - intros g y G. specialize (fired g y G). destruct (f_done y); by rewrite alter_is_Some.
  - intros j. rewrite alter_is_Some. apply live.
  - intros k (j & J & ->)%told. exists j. by rewrite alter_is_Some.
  - apply NoDup_snoc; [done | by eapply flag].
  - intros j b. rewrite list_lookup_alter. case_decide as J; [subst; rewrite H; by intros [= <-] |].
    intros K Rb [L | L]%elem_of_app; [by eapply flag |].
    apply list_elem_of_singleton, tokens_differ in L. by subst.
  - intros l e k E. destruct (app_eq_app _ _ _ _ E) as (m & [[E1 E2] | [E1 E2]]).
    + destruct m as [| e' m]; cbn in E2; simplify_eq; [rewrite app_nil_r in E1; by rewrite <- E1 | by eapply order].
    + destruct m as [| e' m]; cbn in E2; simplify_eq; [by rewrite app_nil_r | by destruct m].
  - intros j b. rewrite list_lookup_alter. case_decide as J; [subst; rewrite H; intros [= <-]; cbn |];
      intros; apply elem_of_app; left; auto.
Qed.

Lemma orderly_Transferred f offset len now s : orderly s -> orderly (Transferred f offset len now s).
Proof.
  intros O. unfold Transferred. destruct (files s !! f) as [x |] eqn:F; [| done].
  destruct (_ && _) eqn:W; [| done]. apply andb_true_iff in W as [_ W%negb_true_iff].
  pose proof (o_files _ O _ _ F) as K. change (alter _ f (files s)) with (fire f (files s)).
  destruct (f_done x) as [i | i] eqn:D; destruct K as [[a H] _].
  - by apply (orderly_started s f x i a).
  - by apply (orderly_returned s f x i a).
Qed.

Lemma orderly_history l : orderly (hist l).
Proof.
  unfold history. pose proof orderly_new as O. revert O. generalize newInstallScripts.
  induction l as [| [] l IH]; intros s O; cbn; [done | apply IH..]; [by apply orderly_open | by apply orderly_Transferred].
Qed.

(** ** What was sent *)

(** Every attempt has its start file, and a file that fired was sent whole. *)
Definition accounted (l : list action) (s : installScripts) : Prop :=
  (forall i, is_Some (heap s !! i) -> exists f x, files s !! f = Some x /\ f_done x = StartOf i) /\
  (forall f x, files s !! f = Some x -> f_fired x = true -> exists now, Sent f 0 (f_len x) now ∈ l).

Lemma history_snoc l a : hist (l ++ [a]) = act server starts token (hist l) a.
Proof. unfold history. by rewrite foldl_app. Qed.

(** One more file, that has not fired. *)
Lemma accounted_file l s h a d n e : accounted l s ->
  (forall i, is_Some (h !! i) -> is_Some (heap s !! i) \/ d = StartOf i) ->
  accounted (l ++ [a]) (MkScripts h e (files s ++ [MkInstallFile d n false]) (events s)).
Proof.
  intros [A B] Hh. split; cbn.
  - intros i [Hi | ->]%Hh.
    + destruct (A _ Hi) as (f & x & F & D). exists f, x. split; [by apply lookup_app_l_Some | done].
    + exists (length (files s)). eexists. by rewrite lookup_app_r, Nat.sub_diag.
  - intros f x [F | [_ [_ <-]%list_lookup_singleton_Some]]%lookup_app_Some; [| done].
    intros [now N]%(B _ _ F). exists now. apply elem_of_app. by left.
Qed.

Lemma accounted_weaken l s a : accounted l s -> accounted (l ++ [a]) s.
Proof.
  intros [A B]. split; [done |]. intros f x F [now N]%(B _ _ F). exists now. apply elem_of_app. by left.
Qed.

Lemma accounted_act l s a : accounted l s -> accounted (l ++ [a]) (act server starts token s a).
Proof.
  intros O. destruct a as [name c ad | f off len now]; cbn.
  - unfold open. destruct (starts !! name) as [en |]; cbn.
    + apply accounted_file; [done |]. intros i [b [H | [-> _]]%heap_lookup_new]; [left; by exists b | by right].
    + destruct (HasPrefix _ _); [| by apply accounted_weaken].
      destruct (findReturn _ _ _) as [[]|]; [| by apply accounted_weaken]. by apply accounted_file; [| left].
  - unfold Transferred. destruct (files s !! f) as [x |] eqn:F; [| by apply accounted_weaken].
    destruct (_ && _) eqn:W; [| by apply accounted_weaken].
    apply andb_true_iff in W as [[W%Z.eqb_eq L%Z.eqb_eq]%andb_true_iff _]. subst off len.
    change (alter _ f (files s)) with (fire f (files s)). destruct O as [A B].
    match goal with |- accounted _ ?t =>
      assert (Hf : files t = fire f (files s)) by (destruct (f_done x); cbn; repeat case_match; done);
      assert (Hh : forall i, is_Some (heap t !! i) -> is_Some (heap s !! i))
        by (intros k; destruct (f_done x); cbn; repeat case_match; cbn; rewrite ?alter_is_Some; done);
      revert Hf Hh; generalize t end.
    intros t Hf Hh. split; rewrite Hf.
    + intros i (g & y & G & D)%Hh%A. unfold fire. exists g. rewrite list_lookup_alter.
      case_decide; subst; rewrite G; cbn; (eexists; split; [reflexivity | done]).
    + intros g y G Fy. pose proof G as (z & Z & E & [W _])%fire_lookup.
      destruct (W Fy) as [<- | Fz].
      * unfold fire in G. rewrite list_lookup_alter, decide_True in G by done. rewrite F in G. cbn in G.
        injection G as <-. exists now. cbn. apply elem_of_app. right. by apply list_elem_of_singleton.
      * destruct (B _ _ Z Fz) as [now' N]. exists now'. apply elem_of_app. left.
        apply fire_length in G. rewrite Z in G. cbn in G. by injection G as <-.
Qed.

Lemma accounted_history l : accounted l (hist l).
Proof.
  induction l as [| a l IH] using rev_ind; [| rewrite history_snoc; by apply accounted_act].
  split; cbn; [by intros ? [? ?] | done].
Qed.

(** What the theorem below says of a history. *)
Lemma lifecycle_holds l : told_once_in_order l (hist l).
Proof.
  pose proof (orderly_history l) as O. pose proof (accounted_history l) as [A B].
  split_and!; [apply O | apply O | | |].
  - intros before k c sc ms after E. exact (o_order _ O _ _ _ E).
  - intros i a H St. rewrite (o_ids _ O _ _ H) in St.
    destruct (A i) as (f & x & F & D); [by exists a |]. exists f, x.
    pose proof (o_files _ O _ _ F) as K. rewrite D in K. apply K in St.
    destruct (B _ _ F St) as [now N]. by exists now.
  - intros i a ad H. rewrite (o_ids _ O _ _ H). unfold findReturn. split.
    + intros [r R]. destruct (attempts (hist l) !! _) as [j |] eqn:E; [| done]. cbn in R.
      pose proof (o_named _ O _ _ E) as <-%(inj return_name)%tokens_differ.
      rewrite H in R. cbn in R. case_bool_decide; [| done]. split; [done |]. by apply (o_live _ O) in E as [_ ?].
    + intros [-> St]. rewrite (proj2 (o_live _ O i)) by (split; [by exists a | done]).
      cbn. rewrite H. cbn. by rewrite bool_decide_eq_true_2.
Qed.
End lifecycle.

Section tokens.
Context (server : bytes) (starts : gmap bytes installEntry).

(** Only the tokens of the attempts that were made matter. *)
Lemma heap_grows token l a :
  (length (heap (history server starts token l)) <= length (heap (history server starts token (l ++ [a]))))%nat.
Proof.
  rewrite history_snoc. generalize (history server starts token l) as s. intros s.
  destruct a as [name c ad | f off len now]; cbn [act].
  - unfold open. unfold hand_out. repeat case_match; simplify_eq/=; rewrite ?length_app; cbn; lia.
  - unfold Transferred, run_done. repeat case_match; cbn [heap]; rewrite ?length_alter; lia.
Qed.

Lemma history_tokens token token' l :
  (forall i, (i < length (heap (history server starts token l)))%nat -> token' i = token i) ->
  history server starts token' l = history server starts token l.
Proof.
  induction l as [| a l IH] using rev_ind; intros E; [done |].
  pose proof (heap_grows token l a) as G. rewrite !history_snoc, IH by (intros i Hi; apply E; lia).
  rewrite history_snoc in E. revert E. generalize (history server starts token l) as s. intros s E.
  destruct a as [name c ad | f off len now]; [| done]. cbn in *. unfold open in *.
  destruct (starts !! name) as [e |]; [| done]. cbn in *. rewrite E; [done |]. rewrite length_app; cbn; lia.
Qed.

Lemma length_encode_hex t : length (encode_hex t) = (2 * length t)%nat.
Proof. unfold encode_hex. induction t as [| b t IH]; [done |]. rewrite fmap_cons, mjoin_cons, length_app, IH. cbn. lia. Qed.

(** Tokens that never run out, and begin with the given ones. *)
Definition extend (token : nat -> bytes) (n i : nat) : bytes :=
  if decide (i < n)%nat then token i else replicate (1 + i + list_max (length <$> (token <$> seq 0 n)))%nat 0.

Lemma extend_differ token n :
  (forall i j, (i < n)%nat -> (j < n)%nat -> encode_hex (token i) = encode_hex (token j) -> i = j) ->
  forall i j, encode_hex (extend token n i) = encode_hex (extend token n j) -> i = j.
Proof.
  intros D i j. unfold extend.
  assert (short : forall k, (k < n)%nat -> (length (token k) <= list_max (length <$> (token <$> seq 0 n)))%nat).
  { intros k Hk. assert (M : Forall (fun m => (m <= list_max (length <$> (token <$> seq 0 n)))%nat) (length <$> (token <$> seq 0 n)))
      by by apply list_max_le.
    rewrite Forall_forall in M. apply M. rewrite list_elem_of_fmap. exists (token k). split; [done |].
    rewrite list_elem_of_fmap. exists k. split; [done |]. apply elem_of_seq. lia. }
  repeat case_decide; [by apply D | | |]; intros E%(f_equal length); rewrite !length_encode_hex, ?length_replicate in E.
  - specialize (short i). lia.
  - specialize (short j). lia.
  - lia.
Qed.

(** C28. Timed installs. Whatever clients do, as long as no token comes twice, no
    attempt starts or returns twice, every return follows its start, a start is
    told only when a start file of that attempt was sent whole, and the file that
    reports a return can be found by the starting client's address, from the
    start on, and by no other. *)
Theorem attempt_lifecycle token l (s := history server starts token l) :
  (forall i j, (i < length (heap s))%nat -> (j < length (heap s))%nat ->
     encode_hex (token i) = encode_hex (token j) -> i = j) ->
  told_once_in_order l s.
Proof.
  intros H. pose proof (extend_differ _ _ H) as D. subst s.
  rewrite <- (history_tokens token (extend token (length (heap (history server starts token l)))) l).
  - by apply lifecycle_holds.
  - intros i Hi. unfold extend. by rewrite decide_True.
Qed.
End tokens.

Definition demo_starts : gmap bytes installEntry :=
  {[ str "__instigator/base/start.cmds" := MkEntry (str "base") (str "/__instigator/base/then.cmds") ]}.
Definition demo_token (i : nat) : bytes := be_enc 16 (Z.of_nat i + 7).
Definition demo_length : Z :=
  zlen (installGoCommands (str "10.0.0.1") (encode_hex (demo_token 0)) (str "/__instigator/base/then.cmds")).
Definition demo_actions : list action :=
  [Opened (str "__instigator/base/start.cmds") (str "octane") (str "10.0.0.2");
   Opened (str "__instigator/base/start.cmds") (str "octane") (str "10.0.0.2");
   Sent 0 0 20 5000000; Sent 0 0 demo_length 6000000;
   Opened (return_name (encode_hex (demo_token 0))) (str "indy") (str "10.0.0.3");
   Opened (return_name (encode_hex (demo_token 0))) (str "octane") (str "10.0.0.2");
   Sent 2 0 1 9000000; Sent 2 0 1 9900000].

Lemma attempt_lifecycle_witness :
  let s := history (str "10.0.0.1") demo_starts demo_token demo_actions in
  events s = [InstallStart (encode_hex (demo_token 0)) (str "octane") (str "base");
              InstallReturned (encode_hex (demo_token 0)) (str "octane") (str "base") 3] /\
  told_once_in_order demo_actions s.
Proof.
  split; [vm_compute; reflexivity |]. apply attempt_lifecycle.
  intros [| [| i]] [| [| j]] Hi Hj E; vm_compute in Hi, Hj; try lia; vm_compute in E; congruence.
Defined.
