(* ===== verification/Capture.v ===== *)
(** The install recorder ([internal/capture]): sessions and commands as they are
    counted while they run, the events they leave, and the summary read back from the
    file of events. The encoding of an event as JSON is a parameter. *)
From S2P Require Import Prelude Text Strconv Strings Shell.

(** ** Lines of the wire *)

(** [firstVerb]: the base name of the first word. *)
Definition firstVerb (line : bytes) : bytes :=
  match Fields line with
  | [] => []
  | v :: _ => match cut_last slash v with Some (_, base) => base | None => v end
  end.

(** [markerRe]: what [inst] echoes when a command of its own has ended. *)
Definition marker_here (s : bytes) : bool :=
  (HasPrefix s (str "InstProc") || HasPrefix s (str "InstKill")) &&
  let digits := take_while is_digit (drop 8 s) in
  negb (bool_decide (digits = [])) && HasPrefix (drop (8 + length digits) s) (str "IsDone").

Fixpoint isMarker (line : bytes) : bool :=
  marker_here line || match line with [] => false | _ :: rest => isMarker rest end.

(** [\s] of a regular expression. *)
Definition is_blank (c : Z) : bool := bool_decide (c ∈ [9; 10; 12; 13; 32]).

(** [wrapperRe] at a place: a subshell up to the end of the line that takes the status
    and echoes the marker. *)
Definition wrapper_here (s : bytes) : bool :=
  match s with
  | 40 :: s =>
      let s := drop_while is_blank s in
      HasPrefix s (str "status=$?") &&
      let body := reverse (drop_while is_blank (reverse (drop 9 s))) in
      match last body with
      | Some 41 =>
          let inner := take (length body - 1) body in
          negb (contains inner newline) && match Index inner (str "IsDone") with Some _ => true | None => false end
      | _ => false
      end
  | _ => false
  end.

(** Where [wrapperRe] first matches. *)
Fixpoint find_wrapper (s : bytes) : option nat :=
  if wrapper_here s then Some 0%nat else match s with [] => None | _ :: s => S <$> find_wrapper s end.

Definition TrimSuffix (s suf : bytes) : bytes := default s (CutSuffix s suf).

(** [markerPayload]: the command a marker line wraps, if it wraps one. *)
Definition markerPayload (line : bytes) : bytes :=
  match find_wrapper line with
  | None => []
  | Some i =>
      let p := TrimSpace (TrimSuffix (TrimSpace (take i line)) (str ";")) in
      if bool_decide (p = []) || bool_decide (firstVerb p = str "trap") then [] else p
  end.

Example marker_lines :
  let line := str "/usr/bin/dd if=/a ; ( status=$? ; echo 'o?_InstProc421IsDone\c' 1>&2 )" in
  isMarker line = true /\ markerPayload line = str "/usr/bin/dd if=/a" /\ firstVerb line = str "dd" /\
  isMarker (str "InstProcIsDone") = false /\ markerPayload (str "trap : 2 ; ( status=$? ; echo InstKill7IsDone )") = [].
Proof. vm_compute. done. Qed.

(** ** Events *)

Record served := MkServed { sv_TreePath : bytes; sv_Image : bytes; sv_ImagePath : bytes }.

(** [rawEvent]: the fields of an event the summary reads. *)
Record rawEvent := MkEvent {
  Event : bytes; TS : bytes; Attempt : bytes; Script : bytes; Session : bytes; Client : bytes; Result : bytes;
  Seq : Z; Line : bytes; Verb : bytes; ExitStatus : Z; DurationMS : Z;
  EFSReadCalls : Z; EFSReadBytes : Z; StdoutCalls : Z; StdoutBytes : Z; StderrCalls : Z; StderrBytes : Z;
  Served : list served; Marker : bool; CommandCount : Z; BytesOut : Z; ev_Size : Z; BytesSent : Z; Retransmits : Z;
}.

(** ** The summary *)

Record InstallSummary := MkInstall {
  in_Attempt : bytes; in_Client : bytes; in_Script : bytes; in_Started : bytes; in_Returned : bytes; in_DurationMS : option Z; in_Result : bytes;
}.

Record SessionSummary := MkSession {
  ss_ID : bytes; ss_Client : bytes; ss_Result : bytes; ss_WallMS : Z; ss_ActiveMS : Z; ss_IdleMS : Z; ss_Commands : Z;
  ss_BytesOut : Z; ss_ActiveBps : Z; ss_WallBps : Z;
}.

Record VerbLatency := MkVerb { vl_Verb : bytes; vl_Count : Z; vl_MedianMS : Z; vl_P95MS : Z; vl_WorstMS : Z }.
Record PathReuse := MkReuse { pr_Path : bytes; pr_Opens : Z; pr_Bytes : Z }.
Record SlowCommand := MkSlow { sl_Session : bytes; sl_Seq : Z; sl_Verb : bytes; sl_DurationMS : Z; sl_Path : bytes }.

(** The totals of a run. *)
Record totals := MkTotals {
  t_BytesServed : Z; t_Commands : Z; t_Refused : Z; t_Nonzero : Z; t_Transfers : Z; t_Retransmits : Z; t_Aborted : Z; t_Gaveup : Z;
  t_ListenerExits : Z; t_BootpAnswered : Z;
  t_EFSReadCalls : Z; t_EFSReadBytes : Z; t_StdoutCalls : Z; t_StdoutBytes : Z; t_StderrCalls : Z; t_StderrBytes : Z;
}.
Definition noTotals : totals := MkTotals 0 0 0 0 0 0 0 0 0 0 0 0 0 0 0 0.

Record Summary := MkSummary {
  Sessions : list SessionSummary; Installs : list InstallSummary; Totals : totals;
  Verbs : list VerbLatency; Paths : list PathReuse; Slowest : list SlowCommand;
}.

Record sessAgg := MkAgg {
  g_client : bytes; g_result : bytes; g_wall : Z; g_active : Z; g_commands : Z; g_bytesOut : Z; g_stdoutBytes : Z;
}.
Definition noAgg : sessAgg := MkAgg [] [] 0 0 0 0 0.

(** What is gathered while the events are read. *)
Record gathered := MkGathered {
  ga_totals : totals; ga_sessions : gmap bytes sessAgg; ga_order : list bytes;
  ga_verbs : gmap bytes (list Z); ga_paths : gmap bytes PathReuse; ga_pathOrder : list bytes;
  ga_installs : list InstallSummary; ga_index : gmap bytes nat; ga_slowest : list SlowCommand;
}.
Definition nothing : gathered := MkGathered noTotals ∅ [] ∅ ∅ [] [] ∅ [].

(** Sums of 64 bits. *)
Definition add64 (a b : Z) : Z := i64 (a + b).

Definition with_totals (f : totals -> totals) (g : gathered) : gathered :=
  MkGathered (f (ga_totals g)) (ga_sessions g) (ga_order g) (ga_verbs g) (ga_paths g) (ga_pathOrder g) (ga_installs g) (ga_index g) (ga_slowest g).

(** [get], and a change to what it gives. *)
Definition on_session (id : bytes) (f : sessAgg -> sessAgg) (g : gathered) : gathered :=
  MkGathered (ga_totals g) (<[id := f (default noAgg (ga_sessions g !! id))]> (ga_sessions g))
    (match ga_sessions g !! id with Some _ => ga_order g | None => ga_order g ++ [id] end)
    (ga_verbs g) (ga_paths g) (ga_pathOrder g) (ga_installs g) (ga_index g) (ga_slowest g).

Definition install_start (e : rawEvent) (g : gathered) : gathered :=
  match ga_index g !! Attempt e with
  | Some _ => g
  | None =>
      MkGathered (ga_totals g) (ga_sessions g) (ga_order g) (ga_verbs g) (ga_paths g) (ga_pathOrder g)
        (ga_installs g ++ [MkInstall (Attempt e) (Client e) (Script e) (TS e) [] None (str "incomplete")])
        (<[Attempt e := length (ga_installs g)]> (ga_index g)) (ga_slowest g)
  end.

Definition install_returned (e : rawEvent) (g : gathered) : gathered :=
  match ga_index g !! Attempt e with
  | None => g
  | Some i =>
      let upd (s : InstallSummary) :=
        if bool_decide (in_Result s = str "returned") || negb (bool_decide (in_Client s = Client e)) || negb (bool_decide (in_Script s = Script e))
        then s
        else MkInstall (in_Attempt s) (in_Client s) (in_Script s) (in_Started s) (TS e) (Some (DurationMS e)) (str "returned") in
      MkGathered (ga_totals g) (ga_sessions g) (ga_order g) (ga_verbs g) (ga_paths g) (ga_pathOrder g)
        (alter upd i (ga_installs g)) (ga_index g) (ga_slowest g)
  end.

Definition firstServedPath (sv : list served) : bytes :=
  match sv with
  | [] => []
  | s :: _ => if bool_decide (sv_Image s = []) then sv_TreePath s else sv_Image s ++ str ":/" ++ sv_ImagePath s
  end.

(** One file a command read; [alone] when it read no other. *)
Definition serve_path (alone : bool) (e : rawEvent) (g : gathered) (s : served) : gathered :=
  let key := if bool_decide (sv_Image s = []) then sv_TreePath s else sv_Image s ++ str ":/" ++ sv_ImagePath s in
  let p := default (MkReuse key 0 0) (ga_paths g !! key) in
  let p := MkReuse (pr_Path p) (pr_Opens p + 1) (if alone then add64 (pr_Bytes p) (EFSReadBytes e) else pr_Bytes p) in
  MkGathered (ga_totals g) (ga_sessions g) (ga_order g) (ga_verbs g) (<[key := p]> (ga_paths g))
    (match ga_paths g !! key with Some _ => ga_pathOrder g | None => ga_pathOrder g ++ [key] end)
    (ga_installs g) (ga_index g) (ga_slowest g).

(** The verb a command is counted under, unless it is bookkeeping of the protocol. *)
Definition counted_verb (e : rawEvent) : option bytes :=
  if Marker e then match markerPayload (Line e) with [] => None | payload => Some (firstVerb payload) end else Some (Verb e).

Definition command_totals (e : rawEvent) (t : totals) : totals :=
  MkTotals (t_BytesServed t) (t_Commands t + 1)
    (if bool_decide (Result e = str "refused") then t_Refused t + 1 else t_Refused t)
    (if bool_decide (Result e = str "nonzero") then t_Nonzero t + 1 else t_Nonzero t)
    (t_Transfers t) (t_Retransmits t) (t_Aborted t) (t_Gaveup t) (t_ListenerExits t) (t_BootpAnswered t)
    (add64 (t_EFSReadCalls t) (EFSReadCalls e)) (add64 (t_EFSReadBytes t) (EFSReadBytes e))
    (add64 (t_StdoutCalls t) (StdoutCalls e)) (add64 (t_StdoutBytes t) (StdoutBytes e))
    (add64 (t_StderrCalls t) (StderrCalls e)) (add64 (t_StderrBytes t) (StderrBytes e)).

Definition command_end (e : rawEvent) (g : gathered) : gathered :=
  match counted_verb e with
  | None => g
  | Some verb =>
      let g := with_totals (command_totals e) g in
      let g := on_session (Session e) (fun a => MkAgg (g_client a) (g_result a) (g_wall a) (add64 (g_active a) (DurationMS e))
                                                   (g_commands a + 1) (g_bytesOut a) (add64 (g_stdoutBytes a) (StdoutBytes e))) g in
      let g := MkGathered (ga_totals g) (ga_sessions g) (ga_order g)
                 (<[verb := default [] (ga_verbs g !! verb) ++ [DurationMS e]]> (ga_verbs g)) (ga_paths g) (ga_pathOrder g)
                 (ga_installs g) (ga_index g)
                 (ga_slowest g ++ [MkSlow (Session e) (Seq e) verb (DurationMS e) (firstServedPath (Served e))]) in
      fold_left (serve_path (length (Served e) =? 1)%nat e) (Served e) g
  end.

Definition transfer_totals (e : rawEvent) (t : totals) : totals :=
  MkTotals (add64 (t_BytesServed t) (BytesSent e)) (t_Commands t) (t_Refused t) (t_Nonzero t)
    (t_Transfers t + 1) (add64 (t_Retransmits t) (Retransmits e))
    (if bool_decide (Result e = str "aborted") then t_Aborted t + 1 else t_Aborted t)
    (if bool_decide (Result e = str "gaveup") then t_Gaveup t + 1 else t_Gaveup t)
    (t_ListenerExits t) (t_BootpAnswered t) (t_EFSReadCalls t) (t_EFSReadBytes t) (t_StdoutCalls t) (t_StdoutBytes t) (t_StderrCalls t) (t_StderrBytes t).

Definition bootp_totals (e : rawEvent) (t : totals) : totals :=
  MkTotals (t_BytesServed t) (t_Commands t) (t_Refused t) (t_Nonzero t) (t_Transfers t) (t_Retransmits t) (t_Aborted t) (t_Gaveup t)
    (t_ListenerExits t) (if bool_decide (Result e = str "answered") then t_BootpAnswered t + 1 else t_BootpAnswered t)
    (t_EFSReadCalls t) (t_EFSReadBytes t) (t_StdoutCalls t) (t_StdoutBytes t) (t_StderrCalls t) (t_StderrBytes t).

Definition exit_totals (t : totals) : totals :=
  MkTotals (t_BytesServed t) (t_Commands t) (t_Refused t) (t_Nonzero t) (t_Transfers t) (t_Retransmits t) (t_Aborted t) (t_Gaveup t)
    (t_ListenerExits t + 1) (t_BootpAnswered t)
    (t_EFSReadCalls t) (t_EFSReadBytes t) (t_StdoutCalls t) (t_StdoutBytes t) (t_StderrCalls t) (t_StderrBytes t).

(** One event. *)
Definition gather (g : gathered) (e : rawEvent) : gathered :=
  let k := Event e in
  if bool_decide (k = str "install_start") then install_start e g
  else if bool_decide (k = str "install_returned") then install_returned e g
  else if bool_decide (k = str "rsh_session_start") then
    on_session (Session e) (fun a => MkAgg (Client e) (g_result a) (g_wall a) (g_active a) (g_commands a) (g_bytesOut a) (g_stdoutBytes a)) g
  else if bool_decide (k = str "rsh_session_end") then
    on_session (Session e) (fun a => MkAgg (g_client a) (Result e) (DurationMS e) (g_active a) (g_commands a) (BytesOut e) (g_stdoutBytes a)) g
  else if bool_decide (k = str "inst_command_end") then command_end e g
  else if bool_decide (k = str "tftp_transfer_end") then with_totals (transfer_totals e) g
  else if bool_decide (k = str "bootp_reply") then with_totals (bootp_totals e) g
  else if bool_decide (k = str "listener_exit") then with_totals exit_totals g
  else g.

(** ** The latency of a share of the commands *)

(** A product of a whole number and a [float64] of 53 bits [m], in units of the last of
    them, rounded to 53 bits and to the even of two as near. *)
Definition round53 (x : Z) : Z :=
  let bits := Z.log2 x + 1 in
  if bits <=? 53 then x
  else
    let unit := 2 ^ (bits - 53) in
    let q := x / unit in
    let r := x mod unit in
    let q := if (unit <? 2 * r) || ((2 * r =? unit) && Z.odd q) then q + 1 else q in
    q * unit.

(** 0.50 and 0.95 as [float64]s: the multiples of 2 to the -53 they are. *)
Definition half : Z := 2 ^ 52.
Definition ninety_five : Z := 8556839292003942.

(** [percentile] of a sorted list. *)
Definition rank_of (n p : Z) : Z :=
  let rank := (round53 (n * p) + (2 ^ 53 - 1)) / 2 ^ 53 in
  let rank := if rank <? 1 then 1 else rank in
  if n <? rank then n else rank.

Definition percentile (sorted : list Z) (p : Z) : Z :=
  match sorted with [] => 0 | _ => nth (Z.to_nat (rank_of (zlen sorted) p - 1)) sorted 0 end.

(** ** The end of the reading *)

(** [sort.SliceStable]: what comes first stays first among equals. *)
Fixpoint insert_by {A} (before : A -> A -> bool) (x : A) (l : list A) : list A :=
  match l with [] => [x] | y :: l' => if before y x then y :: insert_by before x l' else x :: l end.
Definition stable_sort {A} (before : A -> A -> bool) (l : list A) : list A := foldr (insert_by before) [] l.

Definition session_summary (g : gathered) (id : bytes) : SessionSummary :=
  let s := default noAgg (ga_sessions g !! id) in
  let idle := i64 (g_wall s - g_active s) in
  let rate over := if 0 <? over then Z.quot (i64 (g_stdoutBytes s * 1000)) over else 0 in
  MkSession id (g_client s) (g_result s) (g_wall s) (g_active s) (if idle <? 0 then 0 else idle) (g_commands s) (g_bytesOut s)
    (rate (g_active s)) (rate (g_wall s)).

Definition serve_session (g : gathered) (t : totals) (id : bytes) : totals :=
  MkTotals (add64 (t_BytesServed t) (g_bytesOut (default noAgg (ga_sessions g !! id)))) (t_Commands t) (t_Refused t) (t_Nonzero t)
    (t_Transfers t) (t_Retransmits t) (t_Aborted t) (t_Gaveup t) (t_ListenerExits t) (t_BootpAnswered t)
    (t_EFSReadCalls t) (t_EFSReadBytes t) (t_StdoutCalls t) (t_StdoutBytes t) (t_StderrCalls t) (t_StderrBytes t).

Definition verb_latency (v : bytes * list Z) : VerbLatency :=
  let ds := merge_sort Z.le (snd v) in
  MkVerb (fst v) (zlen ds) (percentile ds half) (percentile ds ninety_five) (default 0 (last ds)).

Definition slowestN : nat := 10.

Definition summarize (g : gathered) : Summary :=
  MkSummary (session_summary g <$> ga_order g) (ga_installs g) (fold_left (serve_session g) (ga_order g) (ga_totals g))
    ((fun v => verb_latency (v, default [] (ga_verbs g !! v))) <$> merge_sort bytes_le ((map_to_list (ga_verbs g)).*1))
    (stable_sort (fun a b => pr_Opens b <? pr_Opens a) (omap (fun k => ga_paths g !! k) (ga_pathOrder g)))
    (take slowestN (stable_sort (fun a b => sl_DurationMS b <? sl_DurationMS a) (ga_slowest g))).

(** ** The file of events *)

Inductive summary_err := BadLine (n : Z) | LineTooLong.

Definition eventLine : Z := 8 * 1024 * 1024.

Section file.
Context (unmarshal : bytes -> option rawEvent).

(** The lines of the file, the first being number [n]; [pending] is the number of a
    line that did not parse. *)
Fixpoint read_lines (n : Z) (pending : option Z) (ls : list bytes) (g : gathered) : outcome summary_err gathered :=
  match ls with
  | [] => Ok g
  | l :: ls =>
      if eventLine <=? zlen l then Err LineTooLong
      else
        match pending with
        | Some k => Err (BadLine k)
        | None =>
            match unmarshal (dropCR l) with
            | None => read_lines (n + 1) (Some n) ls g
            | Some e => read_lines (n + 1) None ls (gather g e)
            end
        end
  end.

Definition Summarize (data : bytes) : outcome summary_err Summary :=
  g ← read_lines 1 None (raw_lines data) nothing; Ok (summarize g).
End file.

(** ** Recording *)

Record command := MkCommand {
  cm_sess : Z; cm_seq : Z; cm_line : bytes; cm_marker : bool; cm_start : Z;
  cm_efsCalls : Z; cm_efsBytes : Z; cm_outCalls : Z; cm_outBytes : Z; cm_errCalls : Z; cm_errBytes : Z; cm_served : list served;
}.

(** [cur] is the place of the current command among all. *)
Record session := MkSess { se_alias : bytes; se_start : Z; se_cmdCount : Z; se_bytesOut : Z; se_cur : option nat }.

(** The recorder: the number of the last session, the sessions by number, the commands,
    and the events of the file. *)
Record recorder := MkRecorder { r_seq : Z; r_sessions : gmap Z session; r_commands : list command; r_events : list rawEvent }.
Definition newRecorder : recorder := MkRecorder 0 ∅ [] [].

Definition session_id (n : Z) : bytes := str "s" ++ dec n.

(** What the code knows of an error that ends a session. *)
Inductive end_err := Clean | DeadlineExceeded | OtherEnd.

(** What a transfer's record has for the summary. *)
Record TransferRecord := MkTransfer { tr_Client : bytes; tr_Size : Z; tr_BytesSent : Z; tr_Retransmits : Z; tr_DurationMS : Z; tr_Result : bytes }.

(** An event of a kind, for a session and a client, with a result; the rest of its
    fields are zero. *)
Definition event (ts kind session client result : bytes) : rawEvent :=
  MkEvent kind ts [] [] session client result 0 [] [] 0 0 0 0 0 0 0 0 [] false 0 0 0 0 0.

Section record.
(** The clock as it prints. *)
Context (stamp : Z -> bytes).

(** [emit]: one line more. *)
Definition emit (e : rawEvent) (r : recorder) : recorder :=
  MkRecorder (r_seq r) (r_sessions r) (r_commands r) (r_events r ++ [e]).

Definition with_session (n : Z) (s : session) (r : recorder) : recorder :=
  MkRecorder (r_seq r) (<[n := s]> (r_sessions r)) (r_commands r) (r_events r).

Definition on_command (c : nat) (f : command -> command) (r : recorder) : recorder :=
  MkRecorder (r_seq r) (r_sessions r) (alter f c (r_commands r)) (r_events r).

Definition millis (ns : Z) : Z := Z.quot ns 1000000.

Definition BeginSession (alias : bytes) (now : Z) (r : recorder) : recorder :=
  let n := r_seq r + 1 in
  emit (event (stamp now) (str "rsh_session_start") (session_id n) alias [])
    (MkRecorder n (<[n := MkSess alias now 0 0 None]> (r_sessions r)) (r_commands r) (r_events r)).

Definition RSHRejected (alias : bytes) (now : Z) (r : recorder) : recorder :=
  let n := r_seq r + 1 in
  emit (event (stamp now) (str "rsh_session_end") (session_id n) alias (str "refused"))
    (emit (event (stamp now) (str "rsh_session_start") (session_id n) alias [])
       (MkRecorder n (r_sessions r) (r_commands r) (r_events r))).

(** [Session.End]. *)
Definition EndSession (n : Z) (err : end_err) (now : Z) (r : recorder) : recorder :=
  match r_sessions r !! n with
  | None => r
  | Some s =>
      let result := match err with Clean => str "ok" | DeadlineExceeded => str "idle" | OtherEnd => str "interrupted" end in
      emit (MkEvent (str "rsh_session_end") (stamp now) [] [] (session_id n) (se_alias s) result 0 [] [] 0 (millis (now - se_start s))
              0 0 0 0 0 0 [] false (se_cmdCount s) (se_bytesOut s) 0 0 0) r
  end.

Definition BeginCommand (n : Z) (line : bytes) (now : Z) (r : recorder) : recorder :=
  match r_sessions r !! n with
  | None => r
  | Some s =>
      let seq := se_cmdCount s + 1 in
      let c := MkCommand n seq line (isMarker line) now 0 0 0 0 0 0 [] in
      emit (MkEvent (str "inst_command_start") (stamp now) [] [] (session_id n) (se_alias s) [] seq line [] 0 0 0 0 0 0 0 0 [] (isMarker line) 0 0 0 0 0)
        (MkRecorder (r_seq r) (<[n := MkSess (se_alias s) (se_start s) seq (se_bytesOut s) (Some (length (r_commands r)))]> (r_sessions r))
           (r_commands r ++ [c]) (r_events r))
  end.

(** [Command.End]. *)
Definition EndCommand (c : nat) (exitStatus : Z) (refused : bool) (now : Z) (r : recorder) : recorder :=
  match r_commands r !! c with
  | None => r
  | Some c =>
      match r_sessions r !! cm_sess c with
      | None => r
      | Some s =>
          let result := if refused then str "refused" else if negb (exitStatus =? 0) then str "nonzero" else str "ok" in
          emit (MkEvent (str "inst_command_end") (stamp now) [] [] (session_id (cm_sess c)) (se_alias s) result (cm_seq c) (cm_line c)
                  (firstVerb (cm_line c)) exitStatus (millis (now - cm_start c)) (cm_efsCalls c) (cm_efsBytes c) (cm_outCalls c) (cm_outBytes c)
                  (cm_errCalls c) (cm_errBytes c) (cm_served c) (cm_marker c) 0 0 0 0 0) r
      end
  end.

(** The current command of a session. *)
Definition current (n : Z) (r : recorder) : option nat := s ← r_sessions r !! n; se_cur s.

Definition RecordServed (n : Z) (sv : served) (r : recorder) : recorder :=
  match current n r with
  | None => r
  | Some c =>
      on_command c (fun c => MkCommand (cm_sess c) (cm_seq c) (cm_line c) (cm_marker c) (cm_start c) (cm_efsCalls c) (cm_efsBytes c)
        (cm_outCalls c) (cm_outBytes c) (cm_errCalls c) (cm_errBytes c) (cm_served c ++ [sv])) r
  end.

(** [countingWriter.Write]: the writer took [wrote] bytes. *)
Definition Wrote (n : Z) (stderr : bool) (wrote : Z) (r : recorder) : recorder :=
  match r_sessions r !! n with
  | None => r
  | Some s =>
      let r := with_session n (MkSess (se_alias s) (se_start s) (se_cmdCount s) (add64 (se_bytesOut s) wrote) (se_cur s)) r in
      match se_cur s with
      | None => r
      | Some c =>
          on_command c (fun c =>
            if stderr then
              MkCommand (cm_sess c) (cm_seq c) (cm_line c) (cm_marker c) (cm_start c) (cm_efsCalls c) (cm_efsBytes c)
                (cm_outCalls c) (cm_outBytes c) (add64 (cm_errCalls c) 1) (add64 (cm_errBytes c) wrote) (cm_served c)
            else
              MkCommand (cm_sess c) (cm_seq c) (cm_line c) (cm_marker c) (cm_start c) (cm_efsCalls c) (cm_efsBytes c)
                (add64 (cm_outCalls c) 1) (add64 (cm_outBytes c) wrote) (cm_errCalls c) (cm_errBytes c) (cm_served c)) r
      end
  end.

(** [countingReaderAt.ReadAt] of a file opened during the command, which gave [got] bytes. *)
Definition ReadAt_ (c : option nat) (got : Z) (r : recorder) : recorder :=
  match c with
  | None => r
  | Some c =>
      on_command c (fun c => MkCommand (cm_sess c) (cm_seq c) (cm_line c) (cm_marker c) (cm_start c) (add64 (cm_efsCalls c) 1) (add64 (cm_efsBytes c) got)
        (cm_outCalls c) (cm_outBytes c) (cm_errCalls c) (cm_errBytes c) (cm_served c)) r
  end.

Definition InstallStart (attempt client script : bytes) (now : Z) : recorder -> recorder :=
  emit (MkEvent (str "install_start") (stamp now) attempt script [] client [] 0 [] [] 0 0 0 0 0 0 0 0 [] false 0 0 0 0 0).

Definition InstallReturned (attempt client script : bytes) (ms now : Z) : recorder -> recorder :=
  emit (MkEvent (str "install_returned") (stamp now) attempt script [] client (str "returned") 0 [] [] 0 ms 0 0 0 0 0 0 [] false 0 0 0 0 0).

Definition ListenerExit (now : Z) : recorder -> recorder := emit (event (stamp now) (str "listener_exit") [] [] (str "error")).

Definition BootpReply (alias result : bytes) (now : Z) : recorder -> recorder := emit (event (stamp now) (str "bootp_reply") [] alias result).

Definition TFTPTransferEnd (t : TransferRecord) (now : Z) : recorder -> recorder :=
  emit (MkEvent (str "tftp_transfer_end") (stamp now) [] [] [] (tr_Client t) (tr_Result t) 0 [] [] 0 (tr_DurationMS t) 0 0 0 0 0 0 [] false 0 0
          (tr_Size t) (tr_BytesSent t) (tr_Retransmits t)).

Definition ServerStart (now : Z) : recorder -> recorder := emit (event (stamp now) (str "server_start") [] [] []).
Definition ServerStop (reason : bytes) (now : Z) : recorder -> recorder := emit (event (stamp now) (str "server_stop") [] [] reason).

(** ** What happens while a server runs *)

Inductive action :=
| BeganSession (alias : bytes) | Rejected (alias : bytes) | EndedSession (n : Z) (err : end_err)
| BeganCommand (n : Z) (line : bytes) | EndedCommand (c : nat) (status : Z) (refused : bool)
| ServedFile (n : Z) (sv : served) | WroteOut (n : Z) (stderr : bool) (wrote : Z) | ReadFile (c : option nat) (got : Z)
| StartedInstall (attempt client script : bytes) | ReturnedInstall (attempt client script : bytes) (ms : Z)
| ListenerExited | Booted (alias result : bytes) | Transferred (t : TransferRecord) | Started | Stopped (reason : bytes).

Definition act (r : recorder) (a : Z * action) : recorder :=
  let now := fst a in
  match snd a with
  | BeganSession alias => BeginSession alias now r
  | Rejected alias => RSHRejected alias now r
  | EndedSession n err => EndSession n err now r
  | BeganCommand n line => BeginCommand n line now r
  | EndedCommand c status refused => EndCommand c status refused now r
  | ServedFile n sv => RecordServed n sv r
  | WroteOut n stderr wrote => Wrote n stderr wrote r
  | ReadFile c got => ReadAt_ c got r
  | StartedInstall attempt client script => InstallStart attempt client script now r
  | ReturnedInstall attempt client script ms => InstallReturned attempt client script ms now r
  | ListenerExited => ListenerExit now r
  | Booted alias result => BootpReply alias result now r
  | Transferred t => TFTPTransferEnd t now r
  | Started => ServerStart now r
  | Stopped reason => ServerStop reason now r
  end.

Definition record (h : list (Z * action)) : recorder := fold_left act h newRecorder.
End record.

(** ** The file while it is written *)

Section writing.
Context {E : Type}.

(** [Recorder.events], what the file holds, and [Recorder.writeErr]. *)
Record eventFile := MkFile { ef_open : bool; ef_data : bytes; ef_err : option E }.
Definition newFile : eventFile := MkFile true [] None.

(** The first error stays. *)
Definition first_error (old new : option E) : option E := match old with Some _ => old | None => new end.

(** [emit], from what [json.Marshal] and the write gave. *)
Definition emit_to (sink : bytes -> Z * option E) (encoded : E + bytes) (f : eventFile) : eventFile :=
  match encoded with
  | inl e => MkFile (ef_open f) (ef_data f) (first_error (ef_err f) (Some e))
  | inr b =>
      if negb (ef_open f) then f
      else let '(n, err) := sink (b ++ [newline]) in
           MkFile true (ef_data f ++ take (Z.to_nat n) (b ++ [newline])) (first_error (ef_err f) err)
  end.

Definition CloseFile (closeErr : option E) (f : eventFile) : option E * eventFile :=
  (first_error (ef_err f) (if ef_open f then closeErr else None), MkFile false (ef_data f) (ef_err f)).

(** [writeSummary]: opening the file, reading it, encoding the summary and saving it. *)
Definition writeSummary (unmarshal : bytes -> option rawEvent) (bad : summary_err -> E) (opened encoded saved : option E) (f : eventFile) : option E :=
  match opened with
  | Some e => Some e
  | None =>
      match Summarize unmarshal (ef_data f) with
      | Ok _ => first_error encoded saved
      | Err e => Some (bad e)
      | Panic => None
      end
  end.

(** [Finish]; [run] is what rewriting [run.json] gave, if there is one. *)
Definition Finish (sink : bytes -> Z * option E) (stop : E + bytes) (closeErr : option E) (run : option (option E))
    (summary : eventFile -> option E) (f : eventFile) : option E * eventFile :=
  let f := emit_to sink stop f in
  let '(err, f) := CloseFile closeErr f in
  let err := first_error err (match run with Some e => e | None => None end) in
  (first_error err (summary f), f).
End writing.
Arguments eventFile : clear implicits.
