(* ===== verification/Accounts.v ===== *)
(** The summary of a run accounts for it: what the recorder counted while sessions ran
    is what is read back from the file, up to a last line that was cut short. *)
From S2P Require Import Prelude Text Strconv Strings Shell Capture.

(** ** Sums of 64 bits *)

Lemma i64_add a b : i64 (i64 a + b) = i64 (a + b).
Proof.
  unfold i64, signed. set (m := 2 ^ (64 - 1)). f_equal.
  replace (_ - m + b + m) with ((a + m) mod 2 ^ 64 + b) by lia.
  rewrite Zplus_mod_idemp_l. f_equal. lia.
Qed.

Lemma add64_i64 a b : add64 (i64 a) b = i64 (a + b).
Proof. apply i64_add. Qed.

(** ** What an event changes *)

Definition gathered_of (r : recorder) : gathered := fold_left gather (r_events r) nothing.

Lemma gathered_emit e r : gathered_of (emit e r) = gather (gathered_of r) e.
Proof. unfold gathered_of, emit. cbn [r_events]. by rewrite fold_left_app. Qed.

(** The bytes a session reported when it ended. *)
Definition bytes_of (g : gathered) (id : bytes) : Z := g_bytesOut (default noAgg (ga_sessions g !! id)).

(** What the account of bytes and commands looks at. *)
Record seen_as (more : Z) (g g' : gathered) : Prop := {
  sa_order : ga_order g' = ga_order g;
  sa_known id : is_Some (ga_sessions g' !! id) <-> is_Some (ga_sessions g !! id);
  sa_bytes id : bytes_of g' id = bytes_of g id;
  sa_served : t_BytesServed (ga_totals g') = t_BytesServed (ga_totals g);
  sa_commands : t_Commands (ga_totals g') = t_Commands (ga_totals g) + more;
}.

Ltac as_seen := split; [done|done|done|done|cbn; lia].

Lemma seen_refl g : seen_as 0 g g.
Proof. as_seen. Qed.

Lemma seen_trans a b g1 g2 g3 : seen_as a g1 g2 -> seen_as b g2 g3 -> seen_as (a + b) g1 g3.
Proof. intros [] []. split; try congruence; [intros id; split; naive_solver|lia]. Qed.

Lemma gather_start g e : Event e = str "rsh_session_start" ->
  gather g e = on_session (Session e) (fun a => MkAgg (Client e) (g_result a) (g_wall a) (g_active a) (g_commands a) (g_bytesOut a) (g_stdoutBytes a)) g.
Proof. intros H. unfold gather. rewrite H. reflexivity. Qed.

Lemma gather_end g e : Event e = str "rsh_session_end" ->
  gather g e = on_session (Session e) (fun a => MkAgg (g_client a) (Result e) (DurationMS e) (g_active a) (g_commands a) (BytesOut e) (g_stdoutBytes a)) g.
Proof. intros H. unfold gather. rewrite H. reflexivity. Qed.

Lemma gather_command g e : Event e = str "inst_command_end" -> gather g e = command_end e g.
Proof. intros H. unfold gather. rewrite H. reflexivity. Qed.

Lemma gather_transfer g e : Event e = str "tftp_transfer_end" -> gather g e = with_totals (transfer_totals e) g.
Proof. intros H. unfold gather. rewrite H. reflexivity. Qed.

(** The events that change none of it. *)
Definition aside : list bytes :=
  [str "install_start"; str "install_returned"; str "bootp_reply"; str "listener_exit"; str "inst_command_start"; str "server_start"; str "server_stop"].

Ltac in_aside := cbn; repeat first [exact (list_elem_of_here _ _) | apply list_elem_of_further].

Lemma gather_aside g e : Event e ∈ aside -> seen_as 0 g (gather g e).
Proof.
  unfold gather. intros H. repeat (apply elem_of_cons in H as [->|H]); [..|by apply elem_of_nil in H]; try apply seen_refl.
  - change (seen_as 0 g (install_start e g)). unfold install_start. destruct (_ !! _); as_seen.
  - change (seen_as 0 g (install_returned e g)). unfold install_returned. destruct (_ !! _); as_seen.
  - change (seen_as 0 g (with_totals (bootp_totals e) g)). as_seen.
  - change (seen_as 0 g (with_totals exit_totals g)). as_seen.
Qed.

Lemma serve_path_seen alone e g s : seen_as 0 g (serve_path alone e g s).
Proof. as_seen. Qed.

Lemma serve_paths_seen alone e l g : seen_as 0 g (fold_left (serve_path alone e) l g).
Proof.
  revert g. induction l as [|s l IH]; intros g; [apply seen_refl|]. cbn [fold_left].
  apply (seen_trans 0 0 _ (serve_path alone e g s)); [apply serve_path_seen|apply IH].
Qed.

(** A change to a session. *)
Lemma bytes_of_on_session id f g id' :
  bytes_of (on_session id f g) id' = if decide (id' = id) then g_bytesOut (f (default noAgg (ga_sessions g !! id))) else bytes_of g id'.
Proof.
  unfold bytes_of, on_session. cbn [ga_sessions]. case_decide as Hd; [subst; by rewrite lookup_insert_eq|by rewrite lookup_insert_ne].
Qed.

Lemma known_on_session id f g id' : is_Some (ga_sessions (on_session id f g) !! id') <-> id' = id \/ is_Some (ga_sessions g !! id').
Proof. unfold on_session. cbn [ga_sessions]. rewrite lookup_insert_is_Some. destruct (decide (id = id')); naive_solver. Qed.

Lemma on_session_seen id f g : is_Some (ga_sessions g !! id) -> (forall a, g_bytesOut (f a) = g_bytesOut a) -> seen_as 0 g (on_session id f g).
Proof.
  intros Hk Hf. split; [| | |done|cbn; lia].
  - unfold on_session. cbn. by destruct Hk as [? ->].
  - intros id'. rewrite known_on_session. naive_solver.
  - intros id'. rewrite bytes_of_on_session. case_decide; [subst; by rewrite Hf|done].
Qed.

(** A command that ended is counted unless it is bookkeeping; nothing else of the
    account changes. *)
Lemma command_end_seen e g : is_Some (ga_sessions g !! Session e) ->
  seen_as (match counted_verb e with None => 0 | Some _ => 1 end) g (command_end e g).
Proof.
  intros Hk. unfold command_end. destruct (counted_verb e) as [verb|]; [|apply seen_refl].
  set (g1 := with_totals _ g). set (g2 := on_session _ _ g1).
  assert (H1 : seen_as 1 g g1) by (by split).
  assert (H2 : seen_as 0 g1 g2) by (by apply on_session_seen).
  eapply (seen_trans 1 0); [exact H1|]. eapply (seen_trans 0 0); [exact H2|].
  eapply (seen_trans 0 0); [|apply serve_paths_seen]. as_seen.
Qed.

(** ** What a run did *)

(** What happened, each at its time. *)
Definition history : Type := list (Z * action).

(** The sessions that began, by number, and whether each was accepted. *)
Definition sessions_of (h : history) : list bool :=
  omap (fun a : Z * action => match snd a with BeganSession _ => Some true | Rejected _ => Some false | _ => None end) h.

(** The lines of the commands, by number. *)
Definition lines_of (h : history) : list bytes :=
  omap (fun a : Z * action => match snd a with BeganCommand _ line => Some line | _ => None end) h.

Definition began (h : history) (n : Z) : bool := bool_decide (1 <= n) && default false (sessions_of h !! Z.to_nat (n - 1)).

Definition ends (n : Z) (a : Z * action) : bool := match snd a with EndedSession m _ => m =? n | _ => false end.
Definition ended (h : history) (n : Z) : bool := existsb (ends n) h.

(** The bytes written for a session, and those sent in transfers. *)
Definition written_by (n : Z) (a : Z * action) : Z := match snd a with WroteOut m _ wrote => if m =? n then wrote else 0 | _ => 0 end.
Definition sent_by (a : Z * action) : Z := match snd a with Transferred t => tr_BytesSent t | _ => 0 end.
Definition sum_of {A} (f : A -> Z) (l : list A) : Z := foldr (fun a s => f a + s) 0 l.
Definition written (h : history) (n : Z) : Z := sum_of (written_by n) h.
Definition sent (h : history) : Z := sum_of sent_by h.

(** A line that is more than the client's bookkeeping. *)
Definition counts (line : bytes) : bool := negb (isMarker line && bool_decide (markerPayload line = [])).

(** The commands that ended. *)
Definition command_by (lines : list bytes) (a : Z * action) : Z :=
  match snd a with EndedCommand c _ _ => if counts (default [] (lines !! c)) then 1 else 0 | _ => 0 end.
Definition commands (h : history) : Z := sum_of (command_by (lines_of h)) h.

(** The server acts for a session between its start and its end, and ends only commands
    that began. *)
Definition allowed (h : history) (a : action) : bool :=
  match a with
  | WroteOut n _ _ | EndedSession n _ | BeganCommand n _ => began h n && negb (ended h n)
  | EndedCommand c _ _ => bool_decide (c < length (lines_of h))%nat
  | _ => true
  end.

Inductive orderly : history -> Prop :=
| orderly_nil : orderly []
| orderly_snoc h t a : orderly h -> allowed h a = true -> orderly (h ++ [(t, a)]).

Lemma sum_of_app {A} (f : A -> Z) l k : sum_of f (l ++ k) = sum_of f l + sum_of f k.
Proof. induction l as [|a l IH]; cbn; [done|]. unfold sum_of in *. cbn. lia. Qed.

Lemma sum_of_one {A} (f : A -> Z) a : sum_of f [a] = f a.
Proof. cbn. lia. Qed.

Lemma sessions_snoc h a : sessions_of (h ++ [a]) = sessions_of h ++ sessions_of [a].
Proof. apply omap_app. Qed.

Lemma lines_snoc h a : lines_of (h ++ [a]) = lines_of h ++ lines_of [a].
Proof. apply omap_app. Qed.

Lemma ended_snoc h a n : ended (h ++ [a]) n = ended h n || ends n a.
Proof. unfold ended. rewrite existsb_app. cbn. by rewrite orb_false_r. Qed.

Lemma written_snoc h a n : written (h ++ [a]) n = written h n + written_by n a.
Proof. unfold written. by rewrite sum_of_app, sum_of_one. Qed.

Lemma sent_snoc h a : sent (h ++ [a]) = sent h + sent_by a.
Proof. unfold sent. by rewrite sum_of_app, sum_of_one. Qed.

Definition ends_one_of (n : nat) (a : Z * action) : Prop :=
  match snd a with EndedCommand c _ _ => (c < n)%nat | _ => True end.

Lemma orderly_ends h : orderly h -> Forall (ends_one_of (length (lines_of h))) h.
Proof.
  induction 1 as [|h t a _ IH Ha]; [done|].
  rewrite lines_snoc, length_app. apply Forall_app. split.
  - eapply Forall_impl; [exact IH|]. intros [t' b]. unfold ends_one_of. cbn. destruct b; auto; lia.
  - apply Forall_singleton. unfold ends_one_of. cbn in *. destruct a; auto. apply bool_decide_eq_true in Ha. lia.
Qed.

Lemma commands_snoc h t a : orderly h -> allowed h a = true ->
  commands (h ++ [(t, a)]) = commands h + command_by (lines_of h) (t, a).
Proof.
  intros Ho Ha. unfold commands. rewrite sum_of_app, sum_of_one, lines_snoc. f_equal.
  - pose proof (orderly_ends h Ho) as Hf. revert Hf. generalize (lines_of h) as ls. clear Ho Ha. intros ls Hf.
    induction Hf as [|[t' b] l Hb _ IH]; [done|].
    unfold sum_of in *. cbn [foldr]. rewrite IH. f_equal.
    unfold command_by, ends_one_of in *. cbn [snd] in *. destruct b; auto. by rewrite lookup_app_l.
  - unfold command_by. cbn [snd] in *. destruct a; auto. cbn. by rewrite app_nil_r.
Qed.

(** ** What the recorder and the reading of its file hold *)

Lemma session_id_inj n m : 0 <= n -> 0 <= m -> session_id n = session_id m -> n = m.
Proof.
  unfold session_id. intros Hn Hm H. apply app_inv_head in H.
  pose proof (parse_dec (Z.max n m) n ltac:(lia)) as H1. rewrite H, (parse_dec (Z.max n m) m) in H1 by lia. by injection H1.
Qed.

Definition ids (k : Z) : list bytes := session_id <$> seqZ 1 k.

Lemma ids_snoc k : 0 <= k -> ids (k + 1) = ids k ++ [session_id (k + 1)].
Proof.
  intros Hk. unfold ids. rewrite (seqZ_app 1 k 1) by lia. rewrite fmap_app. cbn. by rewrite (Z.add_comm 1 k).
Qed.

Lemma elem_of_ids id k : id ∈ ids k <-> exists n, id = session_id n /\ 1 <= n <= k.
Proof.
  unfold ids. rewrite list_elem_of_fmap. split; intros (n & -> & Hn); exists n.
  - apply elem_of_seqZ in Hn. split; [done|lia].
  - split; [done|]. apply elem_of_seqZ. lia.
Qed.

(** What a session adds to the bytes served: what was written to it, once it has ended. *)
Definition reported (h : history) (n : Z) : Z := if ended h n then i64 (written h n) else 0.

Record accounted (h : history) (r : recorder) (g : gathered) : Prop := {
  ac_seq : r_seq r = zlen (sessions_of h);
  ac_sessions n : is_Some (r_sessions r !! n) <-> began h n = true;
  ac_out n s : r_sessions r !! n = Some s -> se_bytesOut s = i64 (written h n);
  ac_lines : cm_line <$> r_commands r = lines_of h;
  ac_commands : Forall (fun c => cm_marker c = isMarker (cm_line c) /\ is_Some (r_sessions r !! cm_sess c)) (r_commands r);
  ac_later n : zlen (sessions_of h) < n -> written h n = 0 /\ ended h n = false;
  ac_order : ga_order g = ids (r_seq r);
  ac_known id : is_Some (ga_sessions g !! id) <-> id ∈ ids (r_seq r);
  ac_bytes n : 1 <= n -> bytes_of g (session_id n) = reported h n;
  ac_served : t_BytesServed (ga_totals g) = i64 (sent h);
  ac_count : t_Commands (ga_totals g) = commands h;
}.

Lemma began_same h a n : sessions_of [a] = [] -> began (h ++ [a]) n = began h n.
Proof. intros Ha. unfold began. by rewrite sessions_snoc, Ha, app_nil_r. Qed.

Lemma began_snoc h a b n : sessions_of [a] = [b] ->
  began (h ++ [a]) n = if bool_decide (n = zlen (sessions_of h) + 1) then b else began h n.
Proof.
  intros Ha. unfold began. rewrite sessions_snoc, Ha. unfold zlen.
  destruct (decide (n = Z.of_nat (length (sessions_of h)) + 1)) as [Hn|Hn];
    [rewrite (bool_decide_true (n = _)) by done|rewrite (bool_decide_false (n = _)) by done].
  - subst n. rewrite (bool_decide_true (1 <= _)) by lia. cbn [andb].
    replace (Z.to_nat _) with (length (sessions_of h)) by lia. by rewrite list_lookup_middle.
  - destruct (decide (1 <= n)) as [H1|H1]; [|by rewrite bool_decide_false]. rewrite bool_decide_true by done. cbn [andb].
    destruct (decide (Z.to_nat (n - 1) < length (sessions_of h))%nat); [by rewrite lookup_app_l|].
    rewrite !lookup_ge_None_2; [done|lia|rewrite length_app; cbn; lia].
Qed.

Lemma began_bound h n : began h n = true -> 1 <= n <= zlen (sessions_of h).
Proof.
  unfold began, zlen. intros [H1%bool_decide_eq_true H2]%andb_true_iff. split; [done|].
  destruct (sessions_of h !! _) eqn:E; [|done]. apply lookup_lt_Some in E. lia.
Qed.

(** What the recorder keeps of a command, for the account. *)
Definition shape (c : command) : Z * bytes * bool := (cm_sess c, cm_line c, cm_marker c).

Lemma shape_lines (cs cs' : list command) : shape <$> cs' = shape <$> cs -> cm_line <$> cs' = cm_line <$> cs.
Proof.
  intros H. change cm_line with ((fun t : Z * bytes * bool => t.1.2) ∘ shape).
  by rewrite !list_fmap_compose, H.
Qed.

Lemma shape_Forall (P : Z -> bytes -> bool -> Prop) (cs cs' : list command) : shape <$> cs' = shape <$> cs ->
  Forall (fun c => P (cm_sess c) (cm_line c) (cm_marker c)) cs -> Forall (fun c => P (cm_sess c) (cm_line c) (cm_marker c)) cs'.
Proof.
  intros H HF. apply (proj1 (Forall_fmap shape (fun t => P t.1.1 t.1.2 t.2) cs')). rewrite H. by apply Forall_fmap.
Qed.

Lemma shape_alter f i (cs : list command) : (forall c, shape (f c) = shape c) -> shape <$> alter f i cs = shape <$> cs.
Proof.
  intros Hf. revert i. induction cs as [|c cs IH]; intros [|i]; cbn; [done..| |].
  - by rewrite Hf.
  - f_equal. apply IH.
Qed.

(** An action that does none of what is counted. *)
Record quiet (h : history) (a : Z * action) : Prop := {
  q_sessions : sessions_of [a] = [];
  q_lines : lines_of [a] = [];
  q_ends n : ends n a = false;
  q_written n : written_by n a = 0;
  q_sent : sent_by a = 0;
}.

(** A step keeps the account when the sessions, their bytes and the commands stay as
    they are. *)
Lemma accounted_quiet h a r r' g g' : quiet h a -> orderly h -> allowed h (snd a) = true ->
  r_seq r' = r_seq r -> r_sessions r' = r_sessions r -> shape <$> r_commands r' = shape <$> r_commands r ->
  seen_as (command_by (lines_of h) a) g g' -> accounted h r g -> accounted (h ++ [a]) r' g'.
Proof.
  intros [Qs Ql Qe Qw Qt] Ho Ha Hq Hs Hc [] [].
  assert (Hw : forall n, written (h ++ [a]) n = written h n) by (intros n; rewrite written_snoc, Qw; lia).
  assert (He : forall n, ended (h ++ [a]) n = ended h n) by (intros n; by rewrite ended_snoc, Qe, orb_false_r).
  split.
  - by rewrite Hq, sessions_snoc, Qs, app_nil_r.
  - intros n. rewrite Hs, began_same by done. done.
  - intros n s. rewrite Hs, Hw. auto.
  - rewrite lines_snoc, Ql, app_nil_r, <- ac_lines0. by apply shape_lines.
  - rewrite Hs. revert ac_commands0. by apply (shape_Forall (fun s l m => m = isMarker l /\ is_Some (r_sessions r !! s))).
  - intros n. rewrite sessions_snoc, Qs, app_nil_r, Hw, He. auto.
  - by rewrite Hq, sa_order0.
  - intros id. by rewrite Hq, sa_known0.
  - intros n Hn. unfold reported. rewrite Hw, He, sa_bytes0. by apply ac_bytes0.
  - rewrite sa_served0, sent_snoc, Qt, Z.add_0_r. done.
  - destruct a as [t a]. rewrite sa_commands0, commands_snoc by done. lia.
Qed.

Lemma counted_verb_counts e : Marker e = isMarker (Line e) ->
  match counted_verb e with None => 0 | Some _ => 1 end = if counts (Line e) then 1 else 0.
Proof.
  intros Hm. unfold counted_verb, counts. rewrite Hm. destruct (isMarker _); [|done]. cbn [andb].
  by destruct (markerPayload _).
Qed.

Lemma live_known h r g n : accounted h r g -> began h n = true -> is_Some (ga_sessions g !! session_id n).
Proof.
  intros Hacc Hb. apply (ac_known _ _ _ Hacc), elem_of_ids. exists n. split; [done|].
  rewrite (ac_seq _ _ _ Hacc). by apply began_bound.
Qed.

Lemma gathered_same r r' : r_events r' = r_events r -> gathered_of r' = gathered_of r.
Proof. unfold gathered_of. by intros ->. Qed.

Section step.
Context (stamp : Z -> bytes).

(** Lines of the file that are not counted. *)
Lemma aside_step h t a r e : quiet h (t, a) -> command_by (lines_of h) (t, a) = 0 -> orderly h -> allowed h a = true ->
  Event e ∈ aside -> accounted h r (gathered_of r) -> accounted (h ++ [(t, a)]) (emit e r) (gathered_of (emit e r)).
Proof.
  intros Hq Hc Ho Ha He Hacc. apply (accounted_quiet h (t, a) r _ (gathered_of r)); try done.
  rewrite gathered_emit, Hc. by apply gather_aside.
Qed.

Lemma tally_step h t a r c f : quiet h (t, a) -> command_by (lines_of h) (t, a) = 0 -> orderly h -> allowed h a = true ->
  (forall c, shape (f c) = shape c) -> accounted h r (gathered_of r) ->
  accounted (h ++ [(t, a)]) (on_command c f r) (gathered_of (on_command c f r)).
Proof.
  intros Hq Hc Ho Ha Hf Hacc. apply (accounted_quiet h (t, a) r _ (gathered_of r)); try done.
  - by apply shape_alter.
  - rewrite Hc. apply seen_refl.
Qed.

Lemma idle_step h t a r : quiet h (t, a) -> command_by (lines_of h) (t, a) = 0 -> orderly h -> allowed h a = true ->
  accounted h r (gathered_of r) -> accounted (h ++ [(t, a)]) r (gathered_of r).
Proof. intros Hq Hc Ho Ha Hacc. apply (accounted_quiet h (t, a) r _ (gathered_of r)); try done. rewrite Hc. apply seen_refl. Qed.

Lemma ended_command_step h t c status refused r : orderly h -> allowed h (EndedCommand c status refused) = true ->
  accounted h r (gathered_of r) -> let r' := EndCommand stamp c status refused t r in
  accounted (h ++ [(t, EndedCommand c status refused)]) r' (gathered_of r').
Proof.
  intros Ho Ha Hacc. pose proof Ha as Hlt. cbn in Hlt. apply bool_decide_eq_true in Hlt.
  rewrite <- (ac_lines _ _ _ Hacc), length_fmap in Hlt. apply lookup_lt_is_Some in Hlt as [cm Hcm].
  pose proof (proj1 (Forall_lookup _ _) (ac_commands _ _ _ Hacc) _ _ Hcm) as [Hm [s Hs]].
  assert (Hline : lines_of h !! c = Some (cm_line cm)) by (by rewrite <- (ac_lines _ _ _ Hacc), list_lookup_fmap, Hcm).
  unfold EndCommand. cbn zeta. rewrite Hcm, Hs.
  apply (accounted_quiet h (t, EndedCommand c status refused) r _ (gathered_of r)); try done.
  rewrite gathered_emit, gather_command by done. unfold command_by. cbn [snd]. rewrite Hline.
  match goal with |- seen_as _ _ (command_end ?e _) => set (ev := e) end.
  change (default [] (Some (cm_line cm))) with (Line ev). rewrite <- (counted_verb_counts ev) by exact Hm.
  apply command_end_seen. apply (live_known h r); [done|]. apply (ac_sessions _ _ _ Hacc). by eexists.
Qed.

(** A new session: accepted, or refused at once. *)
Lemma new_session h t a r r' g' b : accounted h r (gathered_of r) ->
  sessions_of [(t, a)] = [b] -> lines_of [(t, a)] = [] -> (forall n, ends n (t, a) = false) -> (forall n, written_by n (t, a) = 0) ->
  sent_by (t, a) = 0 -> commands (h ++ [(t, a)]) = commands h ->
  r_seq r' = r_seq r + 1 -> r_commands r' = r_commands r ->
  (forall n, n <> r_seq r + 1 -> r_sessions r' !! n = r_sessions r !! n) ->
  (if b then exists s, r_sessions r' !! (r_seq r + 1) = Some s /\ se_bytesOut s = 0 else r_sessions r' !! (r_seq r + 1) = None) ->
  ga_order g' = ga_order (gathered_of r) ++ [session_id (r_seq r + 1)] ->
  (forall id, is_Some (ga_sessions g' !! id) <-> id = session_id (r_seq r + 1) \/ is_Some (ga_sessions (gathered_of r) !! id)) ->
  (forall id, id <> session_id (r_seq r + 1) -> bytes_of g' id = bytes_of (gathered_of r) id) -> bytes_of g' (session_id (r_seq r + 1)) = 0 ->
  t_BytesServed (ga_totals g') = t_BytesServed (ga_totals (gathered_of r)) -> t_Commands (ga_totals g') = t_Commands (ga_totals (gathered_of r)) ->
  accounted (h ++ [(t, a)]) r' g'.
Proof.
  intros [] Hb Hl He Hw Hst Hcm Hq Hcs Hother Hnew Hord Hkn Hby Hby0 Hsv Hct.
  assert (Hlen : zlen (sessions_of (h ++ [(t, a)])) = r_seq r + 1) by (rewrite sessions_snoc, Hb, zlen_app, ac_seq0; done).
  assert (Hpos : 0 <= r_seq r) by (rewrite ac_seq0; apply zlen_nonneg).
  assert (Hw' : forall n, written (h ++ [(t, a)]) n = written h n) by (intros n; rewrite written_snoc, Hw; lia).
  assert (He' : forall n, ended (h ++ [(t, a)]) n = ended h n) by (intros n; by rewrite ended_snoc, He, orb_false_r).
  split.
  - by rewrite Hq, Hlen.
  - intros n. rewrite (began_snoc _ _ b) by done. rewrite <- ac_seq0. case_bool_decide as Hn.
    + subst n. destruct b; [destruct Hnew as (s & -> & _)|rewrite Hnew]; split; intros H; solve [done | by eexists | by destruct H].
    + by rewrite Hother.
  - intros n s. rewrite Hw'. destruct (decide (n = r_seq r + 1)) as [->|Hn]; [|rewrite Hother by done; apply ac_out0].
    rewrite (proj1 (ac_later0 (r_seq r + 1) ltac:(lia))). destruct b; [|by rewrite Hnew]. destruct Hnew as (s' & -> & Hs'). by intros [= <-].
  - by rewrite lines_snoc, Hl, app_nil_r, Hcs.
  - rewrite Hcs. eapply Forall_impl; [exact ac_commands0|]. cbn. intros c [Hm Hs]. split; [done|].
    rewrite Hother; [done|]. apply ac_sessions0, began_bound in Hs. lia.
  - intros n. rewrite Hlen, Hw', He'. intros Hn. apply ac_later0. lia.
  - by rewrite Hord, Hq, ac_order0, ids_snoc.
  - intros id. rewrite Hkn, Hq, ac_known0, ids_snoc by done. rewrite elem_of_app, list_elem_of_singleton. tauto.
  - intros n Hn. unfold reported. rewrite Hw', He'. destruct (decide (n = r_seq r + 1)) as [->|Hne].
    + by rewrite Hby0, (proj2 (ac_later0 (r_seq r + 1) ltac:(lia))).
    + rewrite Hby; [by apply ac_bytes0|]. intros Heq. apply session_id_inj in Heq; lia.
  - by rewrite Hsv, sent_snoc, Hst, Z.add_0_r.
  - by rewrite Hct, Hcm.
Qed.

Lemma nonneg_seq h r g : accounted h r g -> 0 <= r_seq r.
Proof. intros []. rewrite ac_seq0. apply zlen_nonneg. Qed.

Lemma fresh_session h r g n : accounted h r g -> zlen (sessions_of h) < n -> r_sessions r !! n = None /\ ga_sessions g !! session_id n = None.
Proof.
  intros Hacc Hn. pose proof (zlen_nonneg (sessions_of h)). split; apply eq_None_not_Some.
  - intros Hs%(ac_sessions _ _ _ Hacc)%began_bound. lia.
  - intros Hs%(ac_known _ _ _ Hacc). apply elem_of_ids in Hs as (m & Heq & Hm). rewrite (ac_seq _ _ _ Hacc) in Hm.
    apply session_id_inj in Heq; lia.
Qed.

Lemma commands_other h t a : orderly h -> allowed h a = true -> command_by (lines_of h) (t, a) = 0 -> commands (h ++ [(t, a)]) = commands h.
Proof. intros Ho Ha Hc. rewrite commands_snoc, Hc by done. lia. Qed.

Lemma began_session_step h t alias r : orderly h -> accounted h r (gathered_of r) ->
  let r' := BeginSession stamp alias t r in accounted (h ++ [(t, BeganSession alias)]) r' (gathered_of r').
Proof.
  intros Ho Hacc. cbn zeta. pose proof (fresh_session _ _ _ (r_seq r + 1) Hacc) as Hfresh.
  rewrite (ac_seq _ _ _ Hacc) in Hfresh at 1. destruct Hfresh as [_ Hg]; [lia|].
  apply (new_session h t (BeganSession alias) r _ _ true); try done; unfold BeginSession; rewrite ?gathered_emit, ?gather_start by done;
    change (gathered_of (MkRecorder ?a ?b ?c (r_events r))) with (gathered_of r); cbn [event Session].
  - by apply commands_other.
  - intros n Hn. cbn [emit r_sessions]. by rewrite lookup_insert_ne.
  - eexists. cbn [emit r_sessions]. by rewrite lookup_insert_eq.
  - cbn [on_session ga_order event Session]. by rewrite Hg.
  - intros id. apply known_on_session.
  - intros id Hid. rewrite bytes_of_on_session. by rewrite decide_False.
  - rewrite bytes_of_on_session, decide_True by done. cbn [g_bytesOut]. by rewrite Hg.
  - done.
  - done.
Qed.

Lemma rejected_step h t alias r : orderly h -> accounted h r (gathered_of r) ->
  let r' := RSHRejected stamp alias t r in accounted (h ++ [(t, Rejected alias)]) r' (gathered_of r').
Proof.
  intros Ho Hacc. cbn zeta. pose proof (fresh_session _ _ _ (r_seq r + 1) Hacc) as Hfresh.
  rewrite (ac_seq _ _ _ Hacc) in Hfresh at 1. destruct Hfresh as [Hr Hg]; [lia|].
  apply (new_session h t (Rejected alias) r _ _ false); try done; unfold RSHRejected; rewrite ?gathered_emit, ?gather_end, ?gather_start by done;
    change (gathered_of (MkRecorder ?a ?b ?c (r_events r))) with (gathered_of r).
  - by apply commands_other.
  - cbn [on_session ga_order ga_sessions event Session]. rewrite lookup_insert_eq. by rewrite Hg.
  - intros id. rewrite !known_on_session. cbn [event Session]. tauto.
  - intros id Hid. rewrite !bytes_of_on_session. by rewrite !decide_False.
  - by rewrite bytes_of_on_session, decide_True.
  - done.
  - done.
Qed.

(** A write is counted for its session. *)
Lemma wrote_step h t n stderr wrote r : orderly h -> allowed h (WroteOut n stderr wrote) = true -> accounted h r (gathered_of r) ->
  let r' := Wrote n stderr wrote r in accounted (h ++ [(t, WroteOut n stderr wrote)]) r' (gathered_of r').
Proof.
  intros Ho Ha Hacc. cbn zeta. pose proof Ha as [Hb He]%andb_true_iff. apply negb_true_iff in He.
  pose proof (began_bound _ _ Hb) as Hn. destruct (proj2 (ac_sessions _ _ _ Hacc n) Hb) as [s Hs].
  set (h' := h ++ _). set (r' := Wrote n stderr wrote r).
  assert (Hev : gathered_of r' = gathered_of r) by (apply gathered_same; unfold r', Wrote; rewrite Hs; cbn; by destruct (se_cur s)).
  assert (Hseq : r_seq r' = r_seq r) by (unfold r', Wrote; rewrite Hs; cbn; by destruct (se_cur s)).
  assert (Hss : r_sessions r' = <[n := MkSess (se_alias s) (se_start s) (se_cmdCount s) (add64 (se_bytesOut s) wrote) (se_cur s)]> (r_sessions r))
    by (unfold r', Wrote; rewrite Hs; cbn; by destruct (se_cur s)).
  assert (Hcs : shape <$> r_commands r' = shape <$> r_commands r)
    by (unfold r', Wrote; rewrite Hs; cbn; destruct (se_cur s); [apply shape_alter; intros c; by destruct stderr|done]).
  assert (Hw : forall m, written h' m = written h m + (if n =? m then wrote else 0)) by (intros m; unfold h'; by rewrite written_snoc).
  assert (Hen : forall m, ended h' m = ended h m) by (intros m; unfold h'; by rewrite ended_snoc, orb_false_r).
  assert (Hso : sessions_of h' = sessions_of h) by (unfold h'; rewrite sessions_snoc; apply app_nil_r).
  assert (Hlive : forall m, is_Some (r_sessions r' !! m) <-> is_Some (r_sessions r !! m)).
  { intros m. rewrite Hss, lookup_insert_is_Some. destruct (decide (n = m)); [subst; rewrite Hs; naive_solver|naive_solver]. }
  rewrite Hev. destruct Hacc. split.
  - by rewrite Hseq, Hso.
  - intros m. rewrite Hlive. unfold h'. by rewrite began_same.
  - intros m s'. rewrite Hss, Hw. destruct (decide (n = m)) as [<-|Hne].
    + rewrite lookup_insert_eq, Z.eqb_refl. intros [= <-]. cbn. rewrite (ac_out0 _ _ Hs). apply add64_i64.
    + rewrite lookup_insert_ne, (proj2 (Z.eqb_neq n m) Hne), Z.add_0_r by done. apply ac_out0.
  - unfold h'. rewrite lines_snoc, app_nil_r, <- ac_lines0. by apply shape_lines.
  - apply (shape_Forall (fun s l m => m = isMarker l /\ is_Some (r_sessions r' !! s)) (r_commands r)); [done|].
    eapply Forall_impl; [exact ac_commands0|]. cbn. intros c [Hm Hc]. by rewrite Hlive.
  - intros m. rewrite Hso, Hw, Hen. intros Hm. rewrite (proj2 (Z.eqb_neq n m)), Z.add_0_r by lia. auto.
  - by rewrite Hseq.
  - intros id. by rewrite Hseq.
  - intros m Hm. rewrite ac_bytes0 by done. unfold reported. rewrite Hen, Hw. destruct (ended h m) eqn:E; [|done].
    rewrite (proj2 (Z.eqb_neq n m)), Z.add_0_r; [done|]. by intros ->; congruence.
  - unfold h'. rewrite sent_snoc, Z.add_0_r. done.
  - unfold h'. by rewrite commands_other.
Qed.

(** A session that ends reports its bytes. *)
Lemma ended_session_step h t n err r : orderly h -> allowed h (EndedSession n err) = true -> accounted h r (gathered_of r) ->
  let r' := EndSession stamp n err t r in accounted (h ++ [(t, EndedSession n err)]) r' (gathered_of r').
Proof.
  intros Ho Ha Hacc. cbn zeta. pose proof Ha as [Hb _]%andb_true_iff. pose proof (began_bound _ _ Hb) as Hn.
  destruct (proj2 (ac_sessions _ _ _ Hacc n) Hb) as [s Hs]. pose proof (live_known _ _ _ _ Hacc Hb) as Hk.
  unfold EndSession. rewrite Hs, gathered_emit, gather_end by done. cbn [Session Result DurationMS BytesOut].
  set (h' := h ++ _). destruct Hacc.
  assert (Hso : sessions_of h' = sessions_of h) by (unfold h'; rewrite sessions_snoc; apply app_nil_r).
  assert (Hw : forall m, written h' m = written h m) by (intros m; unfold h'; rewrite written_snoc; cbn; lia).
  assert (Hen : forall m, ended h' m = ended h m || (n =? m)) by (intros m; unfold h'; by rewrite ended_snoc).
  split.
  - by rewrite Hso.
  - intros m. cbn [emit r_sessions]. rewrite ac_sessions0. unfold h'. by rewrite began_same.
  - intros m s'. rewrite Hw. apply ac_out0.
  - unfold h'. by rewrite lines_snoc, app_nil_r.
  - done.
  - intros m. rewrite Hso, Hw, Hen. intros Hm. rewrite (proj2 (Z.eqb_neq n m)), orb_false_r by lia. auto.
  - cbn [on_session ga_order emit r_seq]. by destruct Hk as [? ->].
  - intros id. rewrite known_on_session, ac_known0. cbn [emit r_seq]. split; [intros [->|]|]; auto. by apply ac_known0.
  - intros m Hm. rewrite bytes_of_on_session. unfold reported. rewrite Hen, Hw. destruct (decide (m = n)) as [->|Hne].
    + rewrite decide_True, Z.eqb_refl, orb_true_r by done. cbn [g_bytesOut]. by apply ac_out0.
    + rewrite decide_False by (intros Heq; apply session_id_inj in Heq; lia).
      rewrite (proj2 (Z.eqb_neq n m)), orb_false_r by done. by apply ac_bytes0.
  - unfold h'. rewrite sent_snoc, Z.add_0_r. done.
  - unfold h'. by rewrite commands_other.
Qed.

(** A command that begins. *)
Lemma began_command_step h t n line r : orderly h -> allowed h (BeganCommand n line) = true -> accounted h r (gathered_of r) ->
  let r' := BeginCommand stamp n line t r in accounted (h ++ [(t, BeganCommand n line)]) r' (gathered_of r').
Proof.
  intros Ho Ha Hacc. cbn zeta. pose proof Ha as [Hb _]%andb_true_iff.
  destruct (proj2 (ac_sessions _ _ _ Hacc n) Hb) as [s Hs].
  unfold BeginCommand. rewrite Hs, gathered_emit. set (r0 := MkRecorder _ _ _ _). change (gathered_of r0) with (gathered_of r).
  set (e := MkEvent _ _ _ _ _ _ _ _ _ _ _ _ _ _ _ _ _ _ _ _ _ _ _ _ _).
  destruct (gather_aside (gathered_of r) e ltac:(in_aside)) as [So Sk Sb Ss Sc].
  set (h' := h ++ _). destruct Hacc.
  assert (Hso : sessions_of h' = sessions_of h) by (unfold h'; rewrite sessions_snoc; apply app_nil_r).
  assert (Hw : forall m, written h' m = written h m) by (intros m; unfold h'; rewrite written_snoc; cbn; lia).
  assert (Hen : forall m, ended h' m = ended h m) by (intros m; unfold h'; by rewrite ended_snoc, orb_false_r).
  assert (Hlive : forall m, is_Some (r_sessions r0 !! m) <-> is_Some (r_sessions r !! m)).
  { intros m. cbn [r0 r_sessions]. rewrite lookup_insert_is_Some. destruct (decide (n = m)); [subst; rewrite Hs; naive_solver|naive_solver]. }
  split.
  - by rewrite Hso.
  - intros m. cbn [emit r_sessions]. rewrite Hlive. unfold h'. by rewrite began_same.
  - intros m s'. rewrite Hw. cbn [emit r0 r_sessions]. destruct (decide (n = m)) as [<-|Hne].
    + rewrite lookup_insert_eq. intros [= <-]. cbn. by apply ac_out0.
    + rewrite lookup_insert_ne by done. apply ac_out0.
  - unfold h'. rewrite lines_snoc, <- ac_lines0. cbn [emit r0 r_commands]. by rewrite fmap_app.
  - cbn [emit r0 r_commands]. apply Forall_app. split.
    + eapply Forall_impl; [exact ac_commands0|]. cbn beta. intros c [Hm Hc]. by rewrite Hlive.
    + apply Forall_singleton. split; [done|]. apply Hlive. cbn [cm_sess]. by rewrite Hs.
  - intros m. rewrite Hso, Hw, Hen. apply ac_later0.
  - by rewrite So.
  - intros id. by rewrite Sk.
  - intros m Hm. rewrite Sb. unfold reported. rewrite Hen, Hw. by apply ac_bytes0.
  - unfold h'. rewrite Ss, sent_snoc, Z.add_0_r. done.
  - unfold h'. rewrite Sc, commands_other by done. lia.
Qed.

Lemma transferred_step h t tr r : orderly h -> accounted h r (gathered_of r) ->
  let r' := TFTPTransferEnd stamp tr t r in accounted (h ++ [(t, Transferred tr)]) r' (gathered_of r').
Proof.
  intros Ho Hacc. cbn zeta. unfold TFTPTransferEnd. rewrite gathered_emit, gather_transfer by done.
  destruct Hacc. set (h' := h ++ _).
  assert (Hso : sessions_of h' = sessions_of h) by (unfold h'; rewrite sessions_snoc; apply app_nil_r).
  assert (Hw : forall m, written h' m = written h m) by (intros m; unfold h'; rewrite written_snoc; cbn; lia).
  assert (Hen : forall m, ended h' m = ended h m) by (intros m; unfold h'; by rewrite ended_snoc, orb_false_r).
  split; cbn [emit r_seq r_sessions r_commands with_totals ga_order ga_sessions ga_totals transfer_totals t_BytesServed t_Commands BytesSent]; try done.
  - by rewrite Hso.
  - intros m. unfold h'. by rewrite began_same.
  - intros m s'. rewrite Hw. apply ac_out0.
  - unfold h'. by rewrite lines_snoc, app_nil_r.
  - intros m. rewrite Hso, Hw, Hen. apply ac_later0.
  - intros m Hm. unfold reported. rewrite Hen, Hw. by apply ac_bytes0.
  - unfold h'. rewrite sent_snoc, ac_served0. apply add64_i64.
  - unfold h'. by rewrite commands_other.
Qed.

Lemma accounted_nothing : accounted [] newRecorder nothing.
Proof.
  split; try done.
  - intros n. unfold began. cbn. rewrite lookup_empty, andb_false_r. split; [by intros []|done].
  - intros id. cbn. rewrite lookup_empty. split; [by intros []|by intros H%elem_of_nil].
Qed.

Lemma accounted_step h t a r : orderly h -> allowed h a = true -> accounted h r (gathered_of r) ->
  let r' := act stamp r (t, a) in accounted (h ++ [(t, a)]) r' (gathered_of r').
Proof.
  intros Ho Ha Hacc. destruct a; cbn zeta; cbn [act fst snd].
  - by apply began_session_step.
  - by apply rejected_step.
  - by apply ended_session_step.
  - by apply began_command_step.
  - by apply ended_command_step.
  - unfold RecordServed. destruct (current n r); [|by apply idle_step]. by apply tally_step.
  - by apply wrote_step.
  - unfold ReadAt_. destruct c; [|by apply idle_step]. by apply tally_step.
  - apply aside_step; try done. in_aside.
  - apply aside_step; try done. in_aside.
  - apply aside_step; try done. in_aside.
  - apply aside_step; try done. in_aside.
  - by apply transferred_step.
  - apply aside_step; try done. in_aside.
  - apply aside_step; try done. in_aside.
Qed.

Lemma accounted_record h : orderly h -> accounted h (record stamp h) (gathered_of (record stamp h)).
Proof.
  induction 1 as [|h t a Ho IH Ha]; [exact accounted_nothing|].
  unfold record in *. rewrite fold_left_app. by apply accounted_step.
Qed.

(** The bytes of the sessions, added to those of the transfers. *)
Lemma serve_sessions_bytes g ns t z : t_BytesServed t = i64 z ->
  t_BytesServed (fold_left (serve_session g) (session_id <$> ns) t) = i64 (z + sum_of (fun n => bytes_of g (session_id n)) ns).
Proof.
  revert t z. induction ns as [|n ns IH]; intros t z Ht; cbn [fmap list_fmap fold_left].
  - cbn. by rewrite Z.add_0_r.
  - rewrite (IH _ (z + bytes_of g (session_id n))).
    + unfold sum_of. cbn [foldr]. f_equal. lia.
    + cbn [serve_session t_BytesServed]. rewrite Ht. apply add64_i64.
Qed.

Lemma serve_sessions_commands g ids t : t_Commands (fold_left (serve_session g) ids t) = t_Commands t.
Proof. revert t. induction ids as [|i ids IH]; intros t; [done|]. cbn [fold_left]. by rewrite IH. Qed.

Lemma sum_of_ext {A} (f g : A -> Z) l : (forall a, a ∈ l -> f a = g a) -> sum_of f l = sum_of g l.
Proof.
  induction l as [|a l IH]; intros H; [done|]. unfold sum_of in *. cbn. rewrite H by constructor. f_equal.
  apply IH. intros b Hb. apply H. by constructor.
Qed.

Lemma i64_idem z : i64 (i64 z) = i64 z.
Proof. pose proof (i64_add z 0) as H. by rewrite !Z.add_0_r in H. Qed.

Lemma i64_sum {A} (f : A -> Z) l z : i64 (z + sum_of (fun a => i64 (f a)) l) = i64 (z + sum_of f l).
Proof.
  revert z. induction l as [|a l IH]; intros z; [done|]. unfold sum_of in *. cbn [foldr].
  replace (z + (i64 (f a) + _)) with (i64 (f a) + (z + foldr (fun a s => i64 (f a) + s) 0 l)) by lia.
  rewrite i64_add. replace (f a + _) with ((z + f a) + foldr (fun a s => i64 (f a) + s) 0 l) by lia.
  rewrite IH. f_equal. lia.
Qed.

(** C23. What the file of a run adds up to, when the server acts for a session only between
    its start and its end and ends only commands that began. The summary lists the
    sessions that began, those turned away among them, by number in the order they began. The bytes
    of a session are those written to it if it ended, and 0 if it did not. The bytes served are
    those of the TFTP transfers and of the sessions that ended, modulo 2^64 as a signed
    number. The commands are those that ended, other than the client's bookkeeping. *)
Theorem summary_accounts h : orderly h -> let S := summarize (fold_left gather (r_events (record stamp h)) nothing) in
  let numbers := seqZ 1 (zlen (sessions_of h)) in
  (ss_ID <$> Sessions S) = (session_id <$> numbers) /\
  (ss_BytesOut <$> Sessions S) = (reported h <$> numbers) /\
  t_BytesServed (Totals S) = i64 (sent h + sum_of (fun n => if ended h n then written h n else 0) numbers) /\
  t_Commands (Totals S) = commands h.
Proof.
  intros Ho S numbers. pose proof (accounted_record h Ho) as [].
  assert (Hord : ga_order (gathered_of (record stamp h)) = session_id <$> numbers) by (rewrite ac_order0, ac_seq0; done).
  unfold S, summarize. cbn [Sessions Totals]. change (fold_left gather _ nothing) with (gathered_of (record stamp h)).
  rewrite Hord, <- !list_fmap_compose. split; [|split; [|split]].
  - apply list_fmap_ext. by intros.
  - apply list_fmap_ext. intros i n Hi. apply lookup_seqZ in Hi. apply ac_bytes0. lia.
  - rewrite (serve_sessions_bytes _ _ _ (sent h)) by done.
    rewrite <- (i64_sum (fun n => if ended h n then written h n else 0)). f_equal. f_equal.
    apply sum_of_ext. intros n Hn%elem_of_seqZ. rewrite ac_bytes0 by lia. unfold reported. by destruct (ended h n).
  - by rewrite serve_sessions_commands.
Qed.
End step.

(** ** The latency that a share of the commands kept to *)

Lemma round53_below x m : 0 < x -> Z.log2 x + 1 <= 106 -> x <= m * 2 ^ 53 -> round53 x <= m * 2 ^ 53.
Proof.
  unfold round53. intros Hx Hb Hm. set (bits := Z.log2 x + 1) in *. destruct (bits <=? 53) eqn:E; [done|]. zbool.
  set (u := 2 ^ (bits - 53)). assert (Hu : 0 < u) by (apply Z.pow_pos_nonneg; lia).
  assert (Hdiv : 2 ^ 53 = u * 2 ^ (106 - bits)) by (unfold u; rewrite <- Z.pow_add_r by lia; f_equal; lia).
  pose proof (Z.div_mod x u ltac:(lia)) as Hqr. pose proof (Z.mod_pos_bound x u Hu) as Hr.
  set (q := x / u) in *. set (r := x mod u) in *. cbn zeta. rewrite Hdiv in *. set (k := 2 ^ (106 - bits)) in *.
  destruct ((u <? 2 * r) || ((2 * r =? u) && Z.odd q)) eqn:Eup; [|nia].
  assert (0 < r) by (apply orb_true_iff in Eup as [H|[H _]%andb_true_iff]; lia).
  assert (q < m * k) by (apply (Z.mul_lt_mono_pos_l u); [done|]; replace (u * (m * k)) with (m * (u * k)) by ring; lia).
  replace (m * (u * k)) with (m * k * u) by ring. apply Z.mul_le_mono_nonneg_r; lia.
Qed.

Lemma round53_above x : 0 < x -> x - 2 ^ (Z.log2 x - 53) <= round53 x \/ round53 x = x.
Proof.
  unfold round53. intros Hx. set (bits := Z.log2 x + 1) in *. destruct (bits <=? 53) eqn:E; [by right|]. zbool. left.
  assert (He : 2 ^ (bits - 53) = 2 * 2 ^ (Z.log2 x - 53)).
  { unfold bits. rewrite <- Z.pow_succ_r by lia. f_equal. lia. }
  set (h := 2 ^ (Z.log2 x - 53)) in *. rewrite He. assert (Hh : 0 < h) by (apply Z.pow_pos_nonneg; lia).
  pose proof (Z.div_mod x (2 * h) ltac:(lia)) as Hqr. pose proof (Z.mod_pos_bound x (2 * h) ltac:(lia)) as Hr.
  set (q := x / (2 * h)) in *. set (r := x mod (2 * h)) in *. cbn zeta.
  destruct ((2 * h <? 2 * r) || _) eqn:Eup; [nia|]. apply orb_false_iff in Eup as [H _]. nia.
Qed.

(** The rank is the share of the number, rounded up. *)
Definition share_up (a b n : Z) : Z := (a * n + (b - 1)) / b.

Lemma share_up_spec a b n k : 0 < b -> share_up a b n <= k <-> a * n <= b * k.
Proof.
  intros Hb. unfold share_up. pose proof (Z.div_mod (a * n + (b - 1)) b ltac:(lia)). pose proof (Z.mod_pos_bound (a * n + (b - 1)) b Hb).
  nia.
Qed.

Lemma rank_of_share n p q : 0 < n -> 0 < p -> 1 <= q <= n ->
  Z.log2 (n * p) + 1 <= 106 -> n * p <= q * 2 ^ 53 -> (q - 1) * 2 ^ 53 < n * p ->
  (q - 1) * 2 ^ 53 < n * p - 2 ^ (Z.log2 (n * p) - 53) -> rank_of n p = q.
Proof.
  intros Hn Hp Hq Hb Hup Hlo Hlo'. unfold rank_of.
  pose proof (round53_below (n * p) q (Z.mul_pos_pos _ _ Hn Hp) Hb Hup) as H1.
  assert (H2 : (q - 1) * 2 ^ 53 < round53 (n * p)) by (destruct (round53_above (n * p) (Z.mul_pos_pos _ _ Hn Hp)); lia).
  replace ((round53 (n * p) + (2 ^ 53 - 1)) / 2 ^ 53) with q.
  - rewrite (proj2 (Z.ltb_ge q 1)) by lia. by rewrite (proj2 (Z.ltb_ge n q)) by lia.
  - apply Z.div_unique with (r := round53 (n * p) + (2 ^ 53 - 1) - 2 ^ 53 * q); lia.
Qed.

Lemma log2_lt_pow x k : 0 < x -> 0 <= k -> x < 2 ^ k -> Z.log2 x < k.
Proof. intros Hx Hk H. by apply Z.log2_lt_pow2. Qed.

Lemma pow_log2_half x : 0 < x -> 2 ^ (Z.log2 x - 53) * 2 ^ 53 <= x.
Proof.
  intros Hx. destruct (decide (53 <= Z.log2 x)) as [H|H].
  - rewrite <- Z.pow_add_r by lia. replace (_ + 53) with (Z.log2 x) by lia. by apply Z.log2_spec.
  - rewrite (Z.pow_neg_r 2) by lia. lia.
Qed.

Lemma rank_of_95 n : 0 < n < 2 ^ 47 -> rank_of n ninety_five = share_up 19 20 n.
Proof.
  intros Hn. unfold ninety_five. set (c := 8556839292003942). set (q := share_up 19 20 n).
  pose proof (proj1 (share_up_spec 19 20 n q ltac:(lia)) ltac:(unfold q; lia)) as Hu.
  assert (Hl : 20 * (q - 1) < 19 * n).
  { apply Z.nle_gt. rewrite <- (share_up_spec 19 20 n (q - 1)) by lia. unfold q. lia. }
  pose proof (pow_log2_half (n * c) ltac:(lia)) as Hp.
  pose proof (log2_lt_pow (n * c) 100 ltac:(lia) ltac:(lia) ltac:(lia)).
  apply (rank_of_share n c q); lia.
Qed.

Lemma rank_of_half n : 0 < n < 2 ^ 47 -> rank_of n half = share_up 1 2 n.
Proof.
  intros Hn. unfold half. set (q := share_up 1 2 n).
  pose proof (proj1 (share_up_spec 1 2 n q ltac:(lia)) ltac:(unfold q; lia)) as Hu.
  assert (Hl : 2 * (q - 1) < 1 * n).
  { apply Z.nle_gt. rewrite <- (share_up_spec 1 2 n (q - 1)) by lia. unfold q. lia. }
  pose proof (pow_log2_half (n * 2 ^ 52) ltac:(lia)) as Hp.
  pose proof (log2_lt_pow (n * 2 ^ 52) 100 ltac:(lia) ltac:(lia) ltac:(lia)).
  apply (rank_of_share n (2 ^ 52) q); lia.
Qed.

(** How many are at or below a value. *)
Definition at_most (v : Z) (l : list Z) : Z := zlen (filter (fun x => x <= v) l).

Lemma at_most_app v l k : at_most v (l ++ k) = at_most v l + at_most v k.
Proof. unfold at_most. by rewrite filter_app, zlen_app. Qed.

Lemma at_most_all v l : Forall (fun x => x <= v) l -> at_most v l = zlen l.
Proof.
  unfold at_most. induction 1 as [|x l Hx _ IH]; [done|]. rewrite filter_cons_True by done. rewrite !zlen_cons. lia.
Qed.

Lemma at_most_none v l : Forall (fun x => v < x) l -> at_most v l = 0.
Proof. unfold at_most. induction 1 as [|x l Hx _ IH]; [done|]. rewrite filter_cons_False by lia. done. Qed.

Lemma at_most_bound v l : at_most v l <= zlen l.
Proof. unfold at_most, zlen. pose proof (length_filter (fun x => x <= v) l). lia. Qed.

Lemma sorted_split l i v : StronglySorted Z.le l -> l !! i = Some v ->
  Forall (fun x => x <= v) (take i l) /\ Forall (fun x => v <= x) (drop (S i) l).
Proof.
  intros Hs Hv. rewrite <- (take_drop_middle _ _ _ Hv) in Hs. split.
  - apply Forall_forall. intros x Hx. by apply (StronglySorted_app_1_elem_of _ (take i l) _ _ _ Hs Hx); constructor.
  - apply StronglySorted_app_1_r in Hs. by apply StronglySorted_inv in Hs as [_ H].
Qed.

(** What is at the rank of a share is the least value that the share keeps to. *)
Definition least_for (a b v : Z) (l : list Z) : Prop :=
  v ∈ l /\ a * zlen l <= b * at_most v l /\ forall w, a * zlen l <= b * at_most w l -> v <= w.

Lemma percentile_least l p a b : StronglySorted Z.le l -> 0 < a <= b -> l <> [] ->
  rank_of (zlen l) p = share_up a b (zlen l) -> least_for a b (percentile l p) l.
Proof.
  intros Hs Hab Hne Hr. unfold percentile. destruct l as [|x0 l0] eqn:El; [done|]. rewrite <- El in *. clear x0 l0 El.
  assert (Hn : 0 < zlen l) by (unfold zlen; destruct l; [done|cbn; lia]).
  rewrite Hr. set (k := share_up a b (zlen l)).
  assert (Hk : k <= zlen l) by (apply share_up_spec; nia).
  assert (H1 : ~ k <= 0) by (unfold k; rewrite share_up_spec by lia; nia).
  destruct (lookup_lt_is_Some_2 l (Z.to_nat (k - 1))) as [v Hv]; [unfold zlen in *; lia|].
  rewrite (nth_lookup_Some _ _ _ _ Hv). destruct (sorted_split _ _ _ Hs Hv) as [Hlo Hhi].
  pose proof (take_drop_middle _ _ _ Hv) as Hl.
  assert (Hlen : zlen (take (Z.to_nat (k - 1)) l) = k - 1) by (unfold zlen in *; rewrite length_take; lia).
  split; [by eapply list_elem_of_lookup_2|]. split.
  - apply share_up_spec; [lia|]. fold k. rewrite <- Hl, at_most_app, (at_most_all v (take _ _)), Hlen by done.
    unfold at_most. rewrite filter_cons_True, zlen_cons by lia. pose proof (zlen_nonneg (filter (fun x => x <= v) (drop (S (Z.to_nat (k - 1))) l))). lia.
  - intros w Hw. apply Z.nlt_ge. intros Hlt. apply share_up_spec in Hw; [|lia]. fold k in Hw.
    rewrite <- Hl, at_most_app in Hw. pose proof (at_most_bound w (take (Z.to_nat (k - 1)) l)).
    rewrite (at_most_none w (v :: _)) in Hw; [lia|]. constructor; [done|]. eapply Forall_impl; [exact Hhi|]. cbn. lia.
Qed.

Lemma at_most_perm v l k : l ≡ₚ k -> at_most v l = at_most v k.
Proof. intros H. unfold at_most, zlen. by rewrite H. Qed.

Lemma least_for_perm a b v l k : l ≡ₚ k -> least_for a b v l -> least_for a b v k.
Proof.
  intros H (Hv & Hc & Hm). unfold least_for. assert (Hlen : zlen l = zlen k) by (unfold zlen; by rewrite H).
  rewrite <- Hlen, <- (at_most_perm v l k) by done. split; [by rewrite <- H|]. split; [done|].
  intros w. rewrite <- (at_most_perm w l k) by done. apply Hm.
Qed.

Lemma last_greatest l v : StronglySorted Z.le l -> last l = Some v -> v ∈ l /\ forall w, w ∈ l -> w <= v.
Proof.
  intros Hs (l' & ->)%last_Some. split; [apply elem_of_app; right; by constructor|].
  intros w [Hw|Hw%list_elem_of_singleton]%elem_of_app; [|lia].
  apply (StronglySorted_app_1_elem_of _ l' _ _ _ Hs Hw). by constructor.
Qed.

(** The latencies of a verb are those the report says they are. *)
Theorem verb_latency_ranks verb ds : ds <> [] -> zlen ds < 2 ^ 47 ->
  let v := verb_latency (verb, ds) in
  vl_Count v = zlen ds /\ least_for 1 2 (vl_MedianMS v) ds /\ least_for 19 20 (vl_P95MS v) ds /\
  vl_WorstMS v ∈ ds /\ forall d, d ∈ ds -> d <= vl_WorstMS v.
Proof.
  intros Hne Hlen v. unfold v, verb_latency. cbn [vl_Count vl_MedianMS vl_P95MS vl_WorstMS snd].
  pose proof (merge_sort_Permutation Z.le ds) as Hp. pose proof (StronglySorted_merge_sort Z.le ds) as Hs.
  set (l := merge_sort Z.le ds) in *. assert (Hz : zlen l = zlen ds) by (unfold zlen; by rewrite Hp).
  assert (Hnl : l <> []) by (intros H; rewrite H in Hp; by apply Permutation_nil_l in Hp).
  assert (Hpos : 0 < zlen l) by (unfold zlen; destruct l; [done|cbn; lia]).
  split; [done|]. split; [|split].
  - apply (least_for_perm _ _ _ _ _ Hp), percentile_least; [done|lia|done|]. apply rank_of_half. lia.
  - apply (least_for_perm _ _ _ _ _ Hp), percentile_least; [done|lia|done|]. apply rank_of_95. lia.
  - destruct (last l) as [w|] eqn:El; [|by apply last_None in El]. cbn [default]. destruct (last_greatest _ _ Hs El) as [Hin Hmax].
    split; [by rewrite <- Hp|]. intros d. rewrite <- Hp. apply Hmax.
Qed.

(** ** The file of a run *)

#[export] Instance served_eq_dec : EqDecision served.
Proof. solve_decision. Defined.
#[export] Instance rawEvent_eq_dec : EqDecision rawEvent.
Proof. solve_decision. Defined.

Section file.
Context (marshal : rawEvent -> bytes) (unmarshal : bytes -> option rawEvent).

(** An event the encoding carries on a line of the file. *)
Definition carried (e : rawEvent) : Prop :=
  newline ∉ marshal e /\ unmarshal (dropCR (marshal e)) = Some e /\ zlen (marshal e) < eventLine.

(** A line that is no event. *)
Definition malformed (l : bytes) : Prop := newline ∉ l /\ unmarshal (dropCR l) = None /\ zlen l < eventLine.

Lemma read_carried es n ls g : Forall carried es ->
  read_lines unmarshal n None ((marshal <$> es) ++ ls) g = read_lines unmarshal (n + zlen es) None ls (fold_left gather es g).
Proof.
  intros H. revert n g. induction H as [|e es (_ & Hu & Hs) _ IH]; intros n g; [by rewrite Z.add_0_r|].
  cbn [fmap list_fmap app read_lines fold_left]. rewrite (proj2 (Z.leb_gt _ _)), Hu, IH by done. f_equal. rewrite zlen_cons. lia.
Qed.

Lemma raw_lines_cut ls tail : Forall (fun l => newline ∉ l) ls -> newline ∉ tail -> tail <> [] ->
  raw_lines (unlines ls ++ tail) = ls ++ [tail].
Proof.
  intros Hls Ht Hne. unfold raw_lines.
  assert (Hs : split_byte newline (unlines ls ++ tail) = ls ++ [tail]).
  { induction Hls as [|l ls Hl _ IH].
    - cbn [app unlines fmap list_fmap mjoin list_join]. clear Hne. induction tail as [|c t IHt]; [done|].
      apply not_elem_of_cons in Ht as [Hc Ht]. cbn. rewrite (proj2 (Z.eqb_neq c newline)) by congruence. by rewrite IHt.
    - change (unlines (l :: ls)) with (terminated newline (l :: ls)). rewrite terminated_cons.
      change (terminated newline ls) with (unlines ls). rewrite <- app_assoc. cbn [app]. by rewrite split_byte_app, IH. }
  rewrite Hs, last_snoc. by destruct tail.
Qed.

Lemma carried_lines es : Forall carried es -> Forall (fun l => newline ∉ l) (marshal <$> es).
Proof. intros H. apply Forall_fmap. eapply Forall_impl; [exact H|]. by intros e [Hn _]. Qed.

(** The file reads back as the events in their order. A last line that was cut short is
    passed over, and so is a whole one that does not parse; the same line with another
    behind it is an error that names it. *)
Theorem Summarize_file es tail : Forall carried es -> tail = [] \/ malformed tail ->
  Summarize unmarshal (unlines (marshal <$> es) ++ tail) = Ok (summarize (fold_left gather es nothing)) /\
  (forall next more, malformed tail -> zlen next < eventLine -> Forall (fun l => newline ∉ l) (next :: more) ->
     Summarize unmarshal (unlines (marshal <$> es) ++ unlines (tail :: next :: more)) = Err (BadLine (zlen es + 1))).
Proof.
  intros Hes Ht. pose proof (carried_lines es Hes) as Hls. split.
  - unfold Summarize. destruct (decide (tail = [])) as [->|Hne].
    + rewrite app_nil_r, raw_lines_unlines by done. pose proof (read_carried es 1 [] nothing Hes) as Hr.
      rewrite app_nil_r in Hr. by rewrite Hr.
    + destruct Ht as [Ht|(Hn & Hu & Hs)]; [done|]. rewrite raw_lines_cut, read_carried by done.
      cbn [read_lines]. by rewrite (proj2 (Z.leb_gt _ _)), Hu.
  - intros next more (Hn & Hu & Hs) Hns Hm. unfold Summarize.
    rewrite <- unlines_app, raw_lines_unlines by (apply Forall_app; split; [done|by constructor]).
    rewrite read_carried by done. cbn [read_lines]. rewrite (proj2 (Z.leb_gt _ (zlen tail))), Hu by done.
    rewrite (proj2 (Z.leb_gt _ (zlen next))) by done. cbn. do 2 f_equal. lia.
Qed.

Definition carriedb (e : rawEvent) : bool :=
  negb (contains (marshal e) newline) && bool_decide (unmarshal (dropCR (marshal e)) = Some e) && (zlen (marshal e) <? eventLine).

Lemma carriedb_carried es : forallb carriedb es = true -> Forall carried es.
Proof.
  induction es as [|e es IH]; intros H; [constructor|]. cbn [forallb] in H. apply andb_true_iff in H as [He H]. constructor; [|by apply IH].
  unfold carriedb in He. apply andb_true_iff in He as [[H1 H2%bool_decide_eq_true]%andb_true_iff H3%Z.ltb_lt]. apply negb_true_iff in H1.
  apply bool_decide_eq_false in H1. exact (conj H1 (conj H2 H3)).
Qed.
End file.

(** ** A capture that ends without an error is whole *)

Section whole.
Context {E : Type} (sink : bytes -> Z * option E).
(** A write that is short says so. *)
Hypothesis sink_full : forall p n, sink p = (n, None) -> n = zlen p.

Lemma emit_to_err enc f e : ef_err f = Some e -> ef_err (emit_to sink enc f) = Some e.
Proof.
  intros H. unfold emit_to. destruct enc as [e'|b]; cbn; [by rewrite H|]. destruct (ef_open f); cbn; [|done].
  destruct (sink _). cbn. by rewrite H.
Qed.

Lemma emits_err encs f e : ef_err f = Some e -> ef_err (fold_left (fun f enc => emit_to sink enc f) encs f) = Some e.
Proof. revert f. induction encs as [|enc encs IH]; intros f H; [done|]. cbn. by apply IH, emit_to_err. Qed.

Lemma emit_to_open enc f : ef_open (emit_to sink enc f) = ef_open f.
Proof. unfold emit_to. destruct enc; [done|]. destruct (ef_open f) eqn:H; [|done]. cbn. by destruct (sink _). Qed.

Lemma emit_to_clean enc f : ef_open f = true -> ef_err (emit_to sink enc f) = None ->
  exists b, enc = inr b /\ ef_data (emit_to sink enc f) = ef_data f ++ b ++ [newline] /\ ef_err f = None.
Proof.
  intros Ho. unfold emit_to. destruct enc as [e|b]; cbn; [by destruct (ef_err f)|]. rewrite Ho. cbn.
  destruct (sink (b ++ [newline])) as [n err] eqn:Es. cbn. destruct (ef_err f) eqn:Ef; [done|]. cbn. intros ->.
  exists b. split; [done|]. split; [|done]. rewrite (sink_full _ _ Es), take_ge; [done|]. unfold zlen. lia.
Qed.

Lemma emits_clean encs f : ef_open f = true -> ef_err (fold_left (fun f enc => emit_to sink enc f) encs f) = None ->
  exists bs, encs = inr <$> bs /\ ef_data (fold_left (fun f enc => emit_to sink enc f) encs f) = ef_data f ++ unlines bs.
Proof.
  revert f. induction encs as [|enc encs IH]; intros f Ho H; [exists []; by rewrite app_nil_r|]. cbn in H |- *.
  destruct (IH (emit_to sink enc f)) as (bs & -> & Hd); [by rewrite emit_to_open|done|].
  destruct (ef_err (emit_to sink enc f)) eqn:Ee; [by rewrite (emits_err _ _ _ Ee) in H|].
  destruct (emit_to_clean enc f Ho Ee) as (b & -> & Hb & _). exists (b :: bs). split; [done|].
  rewrite Hd, Hb. unfold unlines. by rewrite fmap_cons, mjoin_cons, <- !app_assoc.
Qed.

(** When closing a run gives no error, no event was lost on the way: the file holds every
    one, the last that the server stopped, each on its line and whole. The first error
    of a write is the one that is reported, whatever else goes wrong. *)
Theorem Finish_whole encs stop closeErr run summary :
  let f := fold_left (fun f enc => emit_to sink enc f) encs newFile in
  let '(err, f') := Finish sink stop closeErr run summary f in
  match ef_err (emit_to sink stop f) with
  | Some e => err = Some e
  | None => exists bs, encs ++ [stop] = inr <$> bs /\ ef_data f' = unlines bs /\
      err = first_error (first_error closeErr (match run with Some e => e | None => None end)) (summary (MkFile false (unlines bs) None))
  end.
Proof.
  cbn zeta. set (f := fold_left _ encs newFile). unfold Finish, CloseFile.
  assert (Ho : ef_open f = true).
  { unfold f. generalize (@newFile E) (eq_refl true : ef_open (@newFile E) = true).
    induction encs as [|enc l IH]; intros f0 H0; [done|]. cbn. apply IH. by rewrite emit_to_open. }
  destruct (ef_err (emit_to sink stop f)) as [e|] eqn:Ee; cbn; [done|]. rewrite emit_to_open, Ho.
  pose proof (emits_clean (encs ++ [stop]) newFile eq_refl) as H. rewrite !fold_left_app in H. cbn [fold_left] in H. fold f in H.
  destruct (H Ee) as (bs & Hbs & Hd). exists bs. cbn in Hd. rewrite Hd. by rewrite Hbs.
Qed.
End whole.

(** ** A small run *)

Fixpoint orderlyb (past rest : history) : bool :=
  match rest with [] => true | (t, a) :: rest => allowed past a && orderlyb (past ++ [(t, a)]) rest end.

Lemma orderlyb_orderly past rest : orderly past -> orderlyb past rest = true -> orderly (past ++ rest).
Proof.
  revert past. induction rest as [|[t a] rest IH]; intros past Hp H; [by rewrite app_nil_r|].
  cbn in H. apply andb_true_iff in H as [Ha H]. replace (past ++ (t, a) :: rest) with ((past ++ [(t, a)]) ++ rest) by (by rewrite <- app_assoc).
  apply IH; [by constructor|done].
Qed.

(** One client runs a command, is served a file and reads its messages; another is turned
    away; a third is still connected at the end. *)
Definition demo_run : history :=
  [(0, Started); (1, BeganSession (str "octane")); (2, Rejected (str "indy"));
   (3, BeganCommand 1 (str "trap : 2 ; ( status=$? ; echo o?_InstProc1IsDone )")); (4, EndedCommand 0 0 false);
   (5, BeganCommand 1 (str "/usr/bin/dd if=/dist/x ; ( status=$? ; echo o?_InstProc2IsDone )"));
   (6, ServedFile 1 (MkServed (str "/dist/x") (str "cd1") (str "dist/x"))); (7, ReadFile (Some 1%nat) 512);
   (8, WroteOut 1 false 300); (9, WroteOut 1 true 20); (2000009, EndedCommand 1 0 false);
   (2000010, Transferred (MkTransfer (str "octane") 1000 1000 0 5 (str "complete"))); (2000011, EndedSession 1 Clean);
   (2000012, BeganSession (str "o2")); (2000013, WroteOut 3 false 7); (2000014, Stopped (str "signal"))].

Definition demo_summary : Summary := summarize (fold_left gather (r_events (record dec demo_run)) nothing).

Example demo_summary_is :
  (ss_ID <$> Sessions demo_summary) = [str "s1"; str "s2"; str "s3"] /\ (ss_BytesOut <$> Sessions demo_summary) = [320; 0; 0] /\
  t_BytesServed (Totals demo_summary) = 1320 /\ t_Commands (Totals demo_summary) = 1 /\
  (vl_Verb <$> Verbs demo_summary) = [str "dd"] /\ (pr_Path <$> Paths demo_summary) = [str "cd1:/dist/x"] /\
  (sl_DurationMS <$> Slowest demo_summary) = [2].
Proof. vm_compute. done. Qed.

Lemma demo_orderly : orderly demo_run.
Proof. apply (orderlyb_orderly []); [constructor|vm_compute; reflexivity]. Qed.

Lemma summary_accounts_witness :
  orderly demo_run /\ t_BytesServed (Totals demo_summary) = i64 (sent demo_run + sum_of (fun n => if ended demo_run n then written demo_run n else 0) (seqZ 1 (zlen (sessions_of demo_run)))).
Proof. split; [exact demo_orderly|]. exact (proj1 (proj2 (proj2 (summary_accounts dec demo_run demo_orderly)))). Defined.

Lemma verb_latency_ranks_witness : [30; 10; 20] <> [] /\ zlen [30; 10; 20] < 2 ^ 47 /\ least_for 19 20 (vl_P95MS (verb_latency (str "dd", [30; 10; 20]))) [30; 10; 20].
Proof.
  assert (H1 : [30; 10; 20] <> []) by done. assert (H2 : zlen [30; 10; 20] < 2 ^ 47) by (vm_compute; reflexivity).
  split; [exact H1|]. split; [exact H2|]. exact (proj1 (proj2 (proj2 (verb_latency_ranks (str "dd") _ H1 H2)))).
Defined.

(** An encoding: the place of an event among those of the run. *)
Definition demo_events : list rawEvent := r_events (record dec demo_run).
Fixpoint place_of (e : rawEvent) (es : list rawEvent) : Z :=
  match es with [] => 0 | e' :: es => if decide (e = e') then 0 else 1 + place_of e es end.
Definition demo_marshal (e : rawEvent) : bytes := dec (place_of e demo_events).
Definition demo_unmarshal (l : bytes) : option rawEvent :=
  match Atoi l with Ok n => demo_events !! Z.to_nat n | _ => None end.

Lemma demo_events_carried : Forall (carried demo_marshal demo_unmarshal) demo_events.
Proof. apply carriedb_carried. vm_compute. reflexivity. Qed.

(** The last line was cut short. *)
Lemma demo_malformed : malformed demo_unmarshal (str "{").
Proof. split; [|by split]. intros [H|H%elem_of_nil]%elem_of_cons; done. Qed.

Lemma Summarize_file_witness : Forall (carried demo_marshal demo_unmarshal) demo_events /\
  Summarize demo_unmarshal (unlines (demo_marshal <$> demo_events) ++ str "{") = Ok (summarize (fold_left gather demo_events nothing)).
Proof.
  split; [exact demo_events_carried|].
  exact (proj1 (Summarize_file demo_marshal demo_unmarshal demo_events (str "{") demo_events_carried (or_intror demo_malformed))).
Defined.

(** A sink that has room for one line. *)
Definition demo_sink (p : bytes) : Z * option Z := if zlen p <? 4 then (zlen p, None) else (2, Some 28).

Lemma demo_sink_full p n : demo_sink p = (n, None) -> n = zlen p.
Proof. unfold demo_sink. destruct (_ <? _); [by intros [= <-]|done]. Qed.

Lemma Finish_whole_witness : (forall p n, demo_sink p = (n, None) -> n = zlen p) /\
  (Finish demo_sink (inr (str "x")) None None (fun _ => None) (emit_to demo_sink (inr (str "long")) newFile)).1 = Some 28.
Proof. split; [exact demo_sink_full|]. exact (Finish_whole demo_sink demo_sink_full [inr (str "long")] (inr (str "x")) None None (fun _ => None)). Defined.
