(* ===== verification/Segment.v ===== *)
(** The private segment ([internal/qemunet]): Ethernet frames over a byte stream, each
    behind its length, and the two pumps that move them between the stream and the
    network stack. The stack itself is gVisor's and is not modelled: packets come from
    its queue and frames go into it. *)
From S2P Require Import Prelude.

(** ** Writing frames *)

Inductive write_err := WriteFailed (code : Z) | ErrShortWrite_.

#[export] Instance write_err_eq_dec : EqDecision write_err.
Proof. solve_decision. Defined.

(** The stream the frames go to: a write takes some of the bytes. *)
Class Sink (W : Type) := { sink_write : bytes -> W -> (Z * option Z) * W }.

(** [io.Writer]: it takes a part from the front, and no more than it was given; [taken]
    is what it took so far. *)
Class SinkOK (W : Type) `{Sink W} (taken : W -> bytes) := {
  sink_count p w : 0 <= (sink_write p w).1.1 <= zlen p;
  sink_takes p w : taken (sink_write p w).2 = taken w ++ take (Z.to_nat (sink_write p w).1.1) p;
}.

(** [frameWriter.append]. *)
Definition append_frame (buf frame : bytes) : bytes := buf ++ be_enc 4 (u32 (zlen frame)) ++ frame.

Section writer.
Context {W : Type} `{Sink W}.

(** [writeFull]. *)
Fixpoint writeFull (fuel : nat) (p : bytes) (w : W) : outcome stuck (option write_err * W) :=
  match fuel with
  | O => Err OutOfFuel
  | S fuel =>
      if 0 <? zlen p then
        let '((n, err), w) := sink_write p w in
        match err with
        | Some e => Ok (Some (WriteFailed e), w)
        | None =>
            if n =? 0 then Ok (Some ErrShortWrite_, w)
            else if (n <? 0) || (zlen p <? n) then Panic
            else writeFull fuel (drop (Z.to_nat n) p) w
        end
      else Ok (None, w)
  end.

(** [frameWriter.flush]: the buffer is empty afterwards, whatever happened. *)
Definition flush (buf : bytes) (w : W) : outcome stuck (option write_err * (bytes * W)) :=
  '(err, w) ← writeFull (S (length buf)) buf w; Ok (err, ([], w)).

(** [frameWriter.write]. *)
Definition write_frame (buf frame : bytes) (w : W) : outcome stuck (option write_err * (bytes * W)) :=
  flush (append_frame buf frame) w.

(** ** The pump from the stack *)

Definition frameBatchSize : Z := 32.

(** A frame shorter than an Ethernet frame may be is filled up with zeros. *)
Definition padded (data : bytes) : bytes := if zlen data <? 60 then data ++ replicate (60 - length data) 0 else data.

(** A packet of the stack's queue: the bytes of its frame, or none. *)
Definition packet : Type := option bytes.

(** The inner loop of [writeLoop], with the packet at hand: [queue] is what the queue
    gives as it is read, up to where it has no more for now. *)
Fixpoint batch (count : Z) (pkt : packet) (queue : list packet) (buf : bytes) : bytes * list packet :=
  let buf := match pkt with Some data => append_frame buf (padded data) | None => buf end in
  if count =? frameBatchSize - 1 then (buf, queue)
  else match queue with [] => (buf, []) | pkt :: queue => batch (count + 1) pkt queue buf end.

(** [writeLoop], while the queue has packets: what is left in it when a write failed, or
    when there is none left. *)
Fixpoint writeLoop (fuel : nat) (queue : list packet) (buf : bytes) (w : W) : outcome stuck (option write_err * list packet * W) :=
  match fuel with
  | O => Err OutOfFuel
  | S fuel =>
      match queue with
      | [] => Ok (None, [], w)
      | pkt :: queue =>
          let '(buf, queue) := batch 0 pkt queue buf in
          '(err, (buf, w)) ← flush buf w;
          match err with
          | Some _ => Ok (err, queue, w)
          | None => writeLoop fuel queue buf w
          end
      end
  end.
End writer.

(** ** Reading frames *)

Inductive read_err := ReadFailed (e : io_err) | TooLong (n : Z).

#[export] Instance read_err_eq_dec : EqDecision read_err.
Proof. solve_decision. Defined.

(** [frameReader.read]. *)
Definition read_frame (max : Z) (s : stream) : (read_err + bytes) * stream :=
  let '(hdr, err, s) := read_full s 4 in
  match err with
  | Some e => (inl (ReadFailed e), s)
  | None =>
      let n := be hdr in
      if max <? n then (inl (TooLong n), s)
      else
        let '(buf, err, s) := read_full s n in
        match err with
        | Some e => (inl (ReadFailed (if bool_decide (e = EOF) then UnexpectedEOF else e)), s)
        | None => (inr buf, s)
        end
  end.

Definition maxFrame : Z := 65535.

(** [readLoop]: the frames that go into the stack, and why it stopped. *)
Fixpoint readLoop (fuel : nat) (s : stream) : outcome stuck (list bytes * read_err) :=
  match fuel with
  | O => Err OutOfFuel
  | S fuel =>
      match read_frame maxFrame s with
      | (inl e, _) => Ok ([], e)
      | (inr frame, s) => '(frames, e) ← readLoop fuel s; Ok (frame :: frames, e)
      end
  end.

(** ** Stopping *)

Inductive cause := ReadCause (e : read_err) | WriteCause (e : write_err).

(** [stopOnce], [stopErr] and [closeErr]; [nt_open] is whether the stream is open. *)
Record network := MkNetwork { nt_stopped : bool; nt_err : option cause; nt_closeErr : option Z; nt_open : bool }.
Definition running : network := MkNetwork false None None true.

(** [stop]; [closed] is what closing the stream gives. *)
Definition stop (err : option cause) (closed : option Z) (n : network) : network :=
  if nt_stopped n then n else MkNetwork true err closed false.

(** What stops a network: its pumps, and [Close]. *)
Inductive stop_event := ReadStopped (e : read_err) | WriteStopped (e : write_err) | Closed.

Definition on_stop (closed : option Z) (n : network) (e : stop_event) : network :=
  match e with
  | ReadStopped e => stop (Some (ReadCause e)) closed n
  | WriteStopped e => stop (Some (WriteCause e)) closed n
  | Closed => stop None closed n
  end.

(** ** What is on the stream *)

Definition frame_enc (f : bytes) : bytes := be_enc 4 (u32 (zlen f)) ++ f.
Definition frames_enc (fs : list bytes) : bytes := mjoin (frame_enc <$> fs).

Lemma append_frame_enc buf f : append_frame buf f = buf ++ frame_enc f.
Proof. done. Qed.

Lemma frames_enc_cons f fs : frames_enc (f :: fs) = frame_enc f ++ frames_enc fs.
Proof. unfold frames_enc. by rewrite fmap_cons, mjoin_cons. Qed.

Lemma frames_enc_app fs gs : frames_enc (fs ++ gs) = frames_enc fs ++ frames_enc gs.
Proof. induction fs as [|f fs IH]; [done|]. cbn [app]. by rewrite !frames_enc_cons, IH, app_assoc. Qed.

Lemma length_frame_enc f : length (frame_enc f) = (4 + length f)%nat.
Proof. unfold frame_enc. by rewrite length_app, length_be_enc. Qed.

Lemma be_header (f : bytes) : zlen f < 2 ^ 32 -> be (be_enc 4 (u32 (zlen f))) = zlen f.
Proof.
  intros H. pose proof (zlen_nonneg f). rewrite be_be_enc, u32_small by lia. apply Z.mod_small.
  change (256 ^ Z.of_nat 4) with (2 ^ 32). lia.
Qed.

Lemma zlen_padded data : zlen (padded data) = Z.max 60 (zlen data).
Proof.
  unfold padded. destruct (zlen data <? 60) eqn:E; zbool; [|lia]. rewrite zlen_app, zlen_replicate. unfold zlen in *. lia.
Qed.

(** *** Writing *)

Section writes.
Context {W : Type} `{Sink W} (taken : W -> bytes) `{!SinkOK W taken}.

Lemma writeFull_takes fuel p w : (length p < fuel)%nat -> exists err w' k,
  writeFull fuel p w = Ok (err, w') /\ taken w' = taken w ++ take k p /\ (err = None -> take k p = p).
Proof.
  revert p w. induction fuel as [|fuel IH]; intros p w Hf; [lia|]. cbn [writeFull]. destruct (0 <? zlen p) eqn:Ep; zbool.
  2: { exists None, w, 0%nat. destruct p; [|rewrite zlen_cons in Ep; pose proof (zlen_nonneg p); lia]. by rewrite app_nil_r. }
  pose proof (sink_count p w) as Hc. pose proof (sink_takes p w) as Ht. destruct (sink_write p w) as [[n err] w1]. cbn in Hc, Ht.
  destruct err as [e|]; [exists (Some (WriteFailed e)), w1, (Z.to_nat n); by rewrite Ht|].
  destruct (n =? 0) eqn:En; zbool.
  - exists (Some ErrShortWrite_), w1, 0%nat. split; [done|]. rewrite Ht, En. by split.
  - rewrite (proj2 (Z.ltb_ge n 0)), (proj2 (Z.ltb_ge (zlen p) n)) by lia. cbn.
    destruct (IH (drop (Z.to_nat n) p) w1) as (err & w' & k & -> & Hw & Hk); [rewrite length_drop; unfold zlen in *; lia|].
    exists err, w', (Z.to_nat n + k)%nat. split; [done|]. rewrite Hw, Ht, <- app_assoc.
    assert (Hj : take (Z.to_nat n) p ++ take k (drop (Z.to_nat n) p) = take (Z.to_nat n + k) p) by apply take_take_drop.
    rewrite Hj. split; [done|]. intros ->. rewrite <- Hj, (Hk eq_refl). apply take_drop.
Qed.

Lemma flush_takes buf w : exists err w' k,
  flush buf w = Ok (err, ([], w')) /\ taken w' = taken w ++ take k buf /\ (err = None -> take k buf = buf).
Proof.
  unfold flush. destruct (writeFull_takes (S (length buf)) buf w ltac:(lia)) as (err & w' & k & -> & H2). by exists err, w', k.
Qed.

(** A batch takes the packet at hand and what the queue has behind it, up to 32. *)
Lemma batch_takes count pkt queue buf : 0 <= count < frameBatchSize -> exists taken_ rest,
  batch count pkt queue buf = (buf ++ frames_enc (padded <$> omap id (pkt :: taken_)), rest) /\ queue = taken_ ++ rest /\
  count + zlen (pkt :: taken_) <= frameBatchSize /\ (rest <> [] -> count + zlen (pkt :: taken_) = frameBatchSize).
Proof.
  unfold frameBatchSize. revert count pkt buf. induction queue as [|p queue IH]; intros count pkt buf Hc; cbn [batch];
    set (b := match pkt with Some data => _ | None => buf end);
    assert (Hb : b = buf ++ frames_enc (padded <$> omap id [pkt]))
      by (unfold b; destruct pkt as [data|]; [apply (f_equal (app buf)); symmetry; apply app_nil_r|symmetry; apply app_nil_r]).
  - exists [], []. rewrite Hb, zlen_cons, zlen_nil. destruct (_ =? _); (split; [done|]); (split; [done|]); (split; [lia|done]).
  - destruct (count =? frameBatchSize - 1) eqn:E; unfold frameBatchSize in E; zbool.
    + exists [], (p :: queue). rewrite Hb. rewrite zlen_cons, zlen_nil. split; [done|]. split; [done|]. split; lia.
    + destruct (IH (count + 1) p b ltac:(lia)) as (t & rest & -> & -> & Hlen & Hmore). exists (p :: t), rest.
      rewrite Hb, <- app_assoc, <- frames_enc_app, <- fmap_app. split; [|rewrite !zlen_cons in *; split; [done|split; [lia|intros Hr; specialize (Hmore Hr); lia]]].
      do 3 f_equal. by destruct pkt.
Qed.

(** The frames a list of packets has. *)
Definition sent_frames (pkts : list packet) : list bytes := padded <$> omap id pkts.

Lemma sent_frames_app ps qs : sent_frames (ps ++ qs) = sent_frames ps ++ sent_frames qs.
Proof. unfold sent_frames. by rewrite omap_app, fmap_app. Qed.

Lemma writeLoop_takes fuel queue w : (length queue < fuel)%nat -> exists err rest w' sent k,
  writeLoop fuel queue [] w = Ok (err, rest, w') /\ queue = sent ++ rest /\
  taken w' = taken w ++ take k (frames_enc (sent_frames sent)) /\
  (err = None -> rest = [] /\ take k (frames_enc (sent_frames sent)) = frames_enc (sent_frames sent)).
Proof.
  revert queue w. induction fuel as [|fuel IH]; intros queue w Hf; [lia|]. cbn [writeLoop].
  destruct queue as [|pkt queue]; [exists None, [], w, [], 0%nat; by cbn; rewrite app_nil_r|]. cbn in Hf.
  destruct (batch_takes 0 pkt queue [] ltac:(done)) as (t & rest & -> & -> & _). cbn [app].
  fold (sent_frames (pkt :: t)). destruct (flush_takes (frames_enc (sent_frames (pkt :: t))) w) as (err & w1 & k1 & -> & Hw1 & Hk1). cbn.
  destruct err as [e|]; [by exists (Some e), rest, w1, (pkt :: t), k1|]. specialize (Hk1 eq_refl). rewrite Hk1 in Hw1.
  destruct (IH rest w1) as (err & rest2 & w2 & sent & k2 & -> & -> & Hw2 & Hk2); [rewrite length_app in Hf; lia|].
  exists err, rest2, w2, (pkt :: t ++ sent), (length (frames_enc (sent_frames (pkt :: t))) + k2)%nat.
  rewrite !app_comm_cons, sent_frames_app, frames_enc_app, take_app_add.
  split; [done|]. split; [by rewrite app_assoc|]. split; [by rewrite Hw2, Hw1, <- app_assoc|].
  intros ->. destruct (Hk2 eq_refl) as [-> Hk]. by rewrite Hk.
Qed.
End writes.

(** *** Reading *)

Lemma read_full_front d rest e n : n = zlen d -> read_full (MkStream (d ++ rest) e) n = (d, None, MkStream rest e).
Proof.
  intros ->. unfold read_full. cbn [sdata sfail]. unfold zlen. rewrite Nat2Z.id, take_app_length, drop_app_length.
  by rewrite Z.leb_refl.
Qed.

(** How a stream that ends inside what was asked for looks. *)
Definition cut_end (e : option Z) (none : bool) : io_err :=
  match e with Some c => OtherIO c | None => if none then EOF else UnexpectedEOF end.

Lemma read_full_short d e n : zlen d < n -> read_full (MkStream d e) n = (d, Some (cut_end e (zlen d =? 0)), MkStream [] e).
Proof.
  intros Hn. unfold read_full. cbn [sdata sfail]. rewrite take_ge, drop_ge by (unfold zlen in *; lia).
  rewrite (proj2 (Z.leb_gt n (zlen d))) by done. unfold stream_end, cut_end. cbn. by destruct e.
Qed.

Definition fits (f : bytes) : Prop := zlen f <= maxFrame.

Lemma read_frame_whole f rest e : fits f -> read_frame maxFrame (MkStream (frame_enc f ++ rest) e) = (inr f, MkStream rest e).
Proof.
  unfold fits, maxFrame. intros Hf. unfold read_frame, frame_enc. rewrite <- app_assoc, read_full_front by (by rewrite zlen_be_enc).
  rewrite be_header by lia. unfold maxFrame. rewrite (proj2 (Z.ltb_ge 65535 (zlen f))) by done. by rewrite read_full_front.
Qed.

Lemma read_frame_cut f k e : fits f -> (k < length (frame_enc f))%nat ->
  exists s, read_frame maxFrame (MkStream (take k (frame_enc f)) e) = (inl (ReadFailed (cut_end e (k =? 0)%nat)), s).
Proof.
  unfold fits, maxFrame. intros Hf Hk. rewrite length_frame_enc in Hk. unfold read_frame.
  assert (Hlen : zlen (take k (frame_enc f)) = Z.of_nat k) by (unfold zlen; rewrite length_take, length_frame_enc; lia).
  destruct (decide (k < 4)%nat) as [H4|H4].
  - rewrite read_full_short by lia. eexists. rewrite Hlen. by destruct k.
  - unfold frame_enc in *. rewrite take_app_ge in * by (rewrite length_be_enc; lia). rewrite length_be_enc in *.
    rewrite read_full_front by (by rewrite zlen_be_enc). rewrite be_header by lia. unfold maxFrame.
    rewrite (proj2 (Z.ltb_ge 65535 (zlen f))) by done. rewrite read_full_short by (unfold zlen in *; rewrite length_take; lia).
    eexists. destruct k as [|k]; [lia|]. cbn. do 3 f_equal. unfold cut_end. destruct e as [c|]; [by rewrite bool_decide_false|].
    by destruct (_ =? 0).
Qed.

Lemma readLoop_cut fs : Forall fits fs -> forall k e fuel, (length fs < fuel)%nat -> exists m,
  readLoop fuel (MkStream (take k (frames_enc fs)) e) =
    Ok (take m fs, ReadFailed (cut_end e (bool_decide (take k (frames_enc fs) = frames_enc (take m fs))))) /\
  frames_enc (take m fs) `prefix_of` take k (frames_enc fs) /\
  ((m < length fs)%nat -> (k < length (frames_enc (take (S m) fs)))%nat).
Proof.
  induction 1 as [|f fs Hf Hfs IH]; intros k e [|fuel] Hfuel; try (cbn in Hfuel; lia); cbn [readLoop].
  - exists 0%nat. change (frames_enc []) with (@nil Z). rewrite !take_nil. split; [by destruct e|]. split; [done|]. cbn. lia.
  - rewrite frames_enc_cons. cbn in Hfuel. destruct (decide (k < length (frame_enc f))%nat) as [Hk|Hk].
    + rewrite take_app_le by lia. destruct (read_frame_cut f k e Hf Hk) as [s ->]. exists 0%nat. cbn [take].
      split; [|split; [apply prefix_nil|intros _; cbn [take]; rewrite frames_enc_cons, length_app; lia]].
      do 4 f_equal. pose proof (length_frame_enc f). destruct k as [|k]; [by rewrite bool_decide_true|].
      rewrite bool_decide_false; [done|]. by destruct (frame_enc f).
    + rewrite take_app_ge by lia. rewrite read_frame_whole by done.
      destruct (IH (k - length (frame_enc f))%nat e fuel ltac:(lia)) as (m & -> & Hp & Hm). exists (S m). cbn [mbind outcome_bind firstn].
      rewrite !frames_enc_cons. split; [|split].
      * cbn. do 4 f_equal. apply bool_decide_ext. split; [by intros ->|]. apply app_inv_head.
      * by apply prefix_app.
      * intros Hlt. cbn [length] in Hlt. specialize (Hm ltac:(lia)). rewrite length_app. lia.
Qed.

(** Whatever a peer sends, the pump that reads it stops: it hands the stack frames that
    were sent, none over the maximum. *)
Theorem readLoop_stops data e : wf_bytes data -> exists frames err rest,
  readLoop (S (length data)) (MkStream data e) = Ok (frames, err) /\ Forall fits frames /\ data = frames_enc frames ++ rest /\
  (err = ReadFailed EOF -> rest = [] /\ e = None) /\ (forall n, err = TooLong n -> maxFrame < n < 2 ^ 32 /\ n = be (take 4 rest)).
Proof.
  remember (length data) as len eqn:Hlen. assert (Hle : (length data <= len)%nat) by lia. clear Hlen. revert data Hle.
  induction len as [|len IH]; intros data Hle Hwf.
  { destruct data; [|cbn in Hle; lia]. eexists [], _, []. split; [reflexivity|]. split; [done|]. split; [done|]. split; [by destruct e|done]. }
  remember (S len) as fuel eqn:Hfuel. cbn [readLoop]. unfold read_frame at 1.
  destruct (decide (zlen data < 4)) as [H4|H4].
  { rewrite read_full_short by done. eexists [], _, data. split; [reflexivity|]. split; [done|]. split; [done|]. split; [|done].
    unfold cut_end. destruct e; [done|]. destruct (zlen data =? 0) eqn:Ez; [|done]. zbool. by destruct data. }
  replace (MkStream data e) with (MkStream (take 4 data ++ drop 4 data) e) by (by rewrite take_drop).
  rewrite read_full_front by (unfold zlen in *; rewrite length_take; lia).
  set (n := be (take 4 data)). set (body := drop 4 data).
  assert (Hn : 0 <= n < 2 ^ 32).
  { pose proof (be_range (take 4 data)) as Hr. replace (zlen (take 4 data)) with 4 in Hr by (unfold zlen in *; rewrite length_take; lia).
    apply Hr. by apply Forall_take. }
  destruct (maxFrame <? n) eqn:Emax; zbool.
  { eexists [], _, data. split; [reflexivity|]. split; [done|]. split; [done|]. split; [done|]. intros n' [= <-]. unfold n. lia. }
  destruct (decide (zlen body < n)) as [Hb|Hb].
  { rewrite read_full_short by done. eexists [], _, data. split; [reflexivity|]. split; [done|]. split; [done|]. split; [|done].
    unfold cut_end. destruct e; cbn; [done|]. by destruct (_ =? 0). }
  replace (MkStream body e) with (MkStream (take (Z.to_nat n) body ++ drop (Z.to_nat n) body) e) by (by rewrite take_drop).
  rewrite read_full_front by (unfold zlen in *; rewrite length_take; lia).
  subst fuel. destruct (IH (drop (Z.to_nat n) body)) as (frames & err & rest & Hr & Hfit & Hd & He & Ht).
  { unfold body in *. rewrite !length_drop. unfold zlen in *. lia. }
  { by do 2 apply Forall_drop. }
  rewrite Hr. cbn. assert (Hz : zlen (take (Z.to_nat n) body) = n) by (unfold zlen in *; rewrite length_take; lia).
  exists (take (Z.to_nat n) body :: frames), err, rest. split; [done|]. split; [constructor; [unfold fits; lia|done]|]. split; [|done].
  rewrite frames_enc_cons, <- app_assoc, <- Hd. unfold frame_enc. rewrite Hz, <- app_assoc, take_drop, u32_small by lia.
  change (be_enc 4 n) with (be_enc 4 (be (take 4 data))).
  rewrite be_enc_be; [symmetry; apply (take_drop 4)|by apply Forall_take|rewrite length_take; unfold zlen in *; lia].
Qed.

(** *** From one side to the other *)

Lemma filter_lengths (pkts : list packet) : Forall (fun p => match p with Some d => zlen d <= maxFrame | None => True end) pkts -> Forall fits (sent_frames pkts).
Proof.
  unfold sent_frames. induction 1 as [|[d|] pkts Hd _ IH]; [constructor| |done]. cbn. constructor; [|done].
  unfold fits. rewrite zlen_padded. unfold maxFrame in *. lia.
Qed.

(** C24. Frames cross a stream whole and in order. What the pump writes, in batches and
    however the stream takes it, the other side reads as the packets of the queue, each
    at least 60 bytes long; when the stream breaks, the frames before the break arrive
    and nothing else does, and a break between frames is an end of file. *)
Theorem segment_delivers {W} `{Sink W} (taken : W -> bytes) `{!SinkOK W taken} (queue : list packet) w :
  taken w = [] -> Forall (fun p => match p with Some d => zlen d <= maxFrame | None => True end) queue ->
  exists err rest w' sent m, writeLoop (S (length queue)) queue [] w = Ok (err, rest, w') /\ queue = sent ++ rest /\
    readLoop (S (length queue)) (MkStream (taken w') None) =
      Ok (take m (sent_frames sent), ReadFailed (if bool_decide (taken w' = frames_enc (take m (sent_frames sent))) then EOF else UnexpectedEOF)) /\
    (err = None -> rest = [] /\ take m (sent_frames sent) = sent_frames queue /\ taken w' = frames_enc (sent_frames queue)).
Proof.
  intros Hw Hq. destruct (writeLoop_takes taken (S (length queue)) queue w (Nat.lt_succ_diag_r _)) as (err & rest & w' & sent & k & Hl & -> & Ht & Hdone).
  rewrite Hw in Ht. cbn [app] in Ht. apply Forall_app in Hq as [Hsent _]. pose proof (filter_lengths _ Hsent) as Hfit.
  assert (Hlen : (length (sent_frames sent) < S (length (sent ++ rest)))%nat).
  { unfold sent_frames. rewrite length_fmap, length_app. apply Nat.le_lt_trans with (length sent); [apply length_omap_le'|lia]. }
  destruct (readLoop_cut _ Hfit k None _ Hlen) as (m & Hr & Hp & Hm).
  exists err, rest, w', sent, m. rewrite Hl, Ht. split; [done|]. split; [done|]. split; [done|].
  intros ->. destruct (Hdone eq_refl) as [-> Hk]. rewrite app_nil_r. split; [done|]. split; [|done].
  destruct (decide (m < length (sent_frames sent))%nat) as [Hlt|]; [|by apply take_ge; lia].
  specialize (Hm Hlt). assert (length (take k (frames_enc (sent_frames sent))) = length (frames_enc (sent_frames sent))) as Hlk by (by rewrite Hk).
  rewrite length_take in Hlk.
  assert (length (frames_enc (take (S m) (sent_frames sent))) <= length (frames_enc (sent_frames sent)))%nat; [|lia].
  rewrite <- (take_drop (S m) (sent_frames sent)) at 2. rewrite frames_enc_app, length_app. lia.
Qed.

(** The first cause is the one [Err] gives, and the stream is closed once. *)
Theorem stop_once closed e es :
  let n := fold_left (on_stop closed) (e :: es) running in
  nt_stopped n = true /\ nt_open n = false /\ nt_closeErr n = closed /\
  nt_err n = match e with ReadStopped e => Some (ReadCause e) | WriteStopped e => Some (WriteCause e) | Closed => None end.
Proof.
  cbn [fold_left]. assert (H : forall n, nt_stopped n = true -> fold_left (on_stop closed) es n = n).
  { induction es as [|e' es IH]; intros n Hn; [done|]. cbn. rewrite <- (IH n Hn) at 2. f_equal.
    destruct e'; cbn; unfold stop; by rewrite Hn. }
  rewrite H by (by destruct e). by destruct e.
Qed.

(** ** A small segment *)

(** A stream that takes five bytes at a time. *)
Definition sip : Type := bytes.
#[export] Instance sip_sink : Sink sip := { sink_write p w := ((Z.min 5 (zlen p), None), w ++ take 5 p) }.
#[export] Instance sip_ok : SinkOK sip (fun w => w).
Proof.
  split; intros p w; cbn.
  - pose proof (zlen_nonneg p). lia.
  - f_equal. unfold zlen. destruct (decide (5 <= length p)%nat); [by replace (Z.to_nat _) with 5%nat by lia|].
    rewrite !take_ge; [done|lia|lia].
Qed.

Definition demo_packets : list packet := [Some [1; 2; 3]; None; Some (replicate 70 9)].

Example demo_segment :
  match writeLoop 4 demo_packets [] ([] : sip) with
  | Ok (None, [], w) => readLoop 4 (MkStream w None) = Ok ([[1; 2; 3] ++ replicate 57 0; replicate 70 9], ReadFailed EOF) /\ zlen w = 138
  | _ => False
  end.
Proof. vm_compute. done. Qed.

Lemma demo_packets_fit : Forall (fun p : packet => match p with Some d => zlen d <= maxFrame | None => True end) demo_packets.
Proof. repeat constructor; vm_compute; discriminate. Qed.

Lemma segment_delivers_witness : Forall (fun p : packet => match p with Some d => zlen d <= maxFrame | None => True end) demo_packets /\
  exists err rest w' sent m, writeLoop (S (length demo_packets)) demo_packets [] ([] : sip) = Ok (err, rest, w') /\ demo_packets = sent ++ rest /\
    readLoop (S (length demo_packets)) (MkStream w' None) =
      Ok (take m (sent_frames sent), ReadFailed (if bool_decide (w' = frames_enc (take m (sent_frames sent))) then EOF else UnexpectedEOF)) /\
    (err = None -> rest = [] /\ take m (sent_frames sent) = sent_frames demo_packets /\ w' = frames_enc (sent_frames demo_packets)).
Proof. split; [exact demo_packets_fit|]. exact (segment_delivers (fun w : sip => w) demo_packets [] eq_refl demo_packets_fit). Defined.

(** A peer that sends a length of more than a frame may have. *)
Lemma readLoop_stops_witness : wf_bytes [0; 1; 0; 0; 7] /\ exists frames err rest,
  readLoop 6 (MkStream [0; 1; 0; 0; 7] None) = Ok (frames, err) /\ Forall fits frames /\ [0; 1; 0; 0; 7] = frames_enc frames ++ rest /\
  (err = ReadFailed EOF -> rest = [] /\ None = @None Z) /\ (forall n, err = TooLong n -> maxFrame < n < 2 ^ 32 /\ n = be (take 4 rest)).
Proof.
  assert (H : wf_bytes [0; 1; 0; 0; 7]) by (repeat constructor; unfold is_byte; lia).
  split; [exact H|]. exact (readLoop_stops [0; 1; 0; 0; 7] None H).
Defined.
