(* ===== verification/Scope.v ===== *)
(** Code that opens things and has to close them: what is open, the calls it made, and
    an error or a result. [defer] runs when its body returns, whatever it returns. *)
From S2P Require Import Prelude.

Section scope.
(** Things that are opened, calls worth noting, errors. *)
Context {R X E : Type} `{EqDecision R}.

Record held := MkHeld { h_open : list R; h_log : list X }.

Definition prog (A : Type) : Type := held -> (E + A) * held.

Definition ret {A} (a : A) : prog A := fun h => (inr a, h).
Definition fail {A} (e : E) : prog A := fun h => (inl e, h).
Definition bind {A B} (m : prog A) (f : A -> prog B) : prog B := fun h =>
  match m h with (inl e, h) => (inl e, h) | (inr a, h) => f a h end.

Definition note (x : X) : prog unit := fun h => (inr tt, MkHeld (h_open h) (h_log h ++ [x])).
Definition acquire (r : R) : prog unit := fun h => (inr tt, MkHeld (r :: h_open h) (h_log h)).

(** Closing what is not open does nothing. *)
Fixpoint without (r : R) (l : list R) : list R :=
  match l with [] => [] | x :: l => if decide (x = r) then l else x :: without r l end.
Definition close_ (r : R) (h : held) : held := MkHeld (without r (h_open h)) (h_log h).
Definition release (r : R) : prog unit := fun h => (inr tt, close_ r h).

(** [defer]: the body has the rest of the function. *)
Definition defer {A} (later : held -> held) (body : prog A) : prog A := fun h => let '(r, h) := body h in (r, later h).

(** What to do when a call fails, before its error is passed on. *)
Definition on_error {A} (m : prog A) (f : E -> prog E) : prog A := fun h =>
  match m h with
  | (inl e, h) => match f e h with (inl e, h) => (inl e, h) | (inr e, h) => (inl e, h) end
  | (inr a, h) => (inr a, h)
  end.

(** An outside call: its error, if it fails. *)
Definition call (err : option E) : prog unit := match err with Some e => fail e | None => ret tt end.
Definition answer {A} (a : E + A) : prog A := match a with inl e => fail e | inr a => ret a end.

(** A loop. *)
Fixpoint each {A S} (f : A -> S -> prog S) (l : list A) (s : S) : prog S :=
  match l with [] => ret s | x :: l => bind (f x s) (fun s => each f l s) end.

(** *** What a function leaves open *)

Lemma without_here r l : without r (r :: l) = l.
Proof. cbn. by rewrite decide_True. Qed.

Lemma without_other r x l : x <> r -> without r (x :: l) = x :: without r l.
Proof. intros H. cbn. by rewrite decide_False. Qed.

(** When it fails nothing it opened is open; when it returns, what it says is. *)
Definition leaves {A} (m : prog A) (keeps : A -> list R) : Prop := forall h,
  match m h with (inl _, h') => h_open h' = h_open h | (inr a, h') => h_open h' = keeps a ++ h_open h end.

Lemma leaves_ret {A} (a : A) : leaves (ret a) (fun _ => []).
Proof. by intros h. Qed.

Lemma leaves_fail {A} e (keeps : A -> list R) : leaves (fail e) keeps.
Proof. by intros h. Qed.

Lemma leaves_note x : leaves (note x) (fun _ => []).
Proof. by intros h. Qed.

Lemma leaves_call err : leaves (call err) (fun _ => []).
Proof. intros h. by destruct err. Qed.

Lemma leaves_answer {A} (a : E + A) : leaves (answer a) (fun _ => []).
Proof. intros h. by destruct a. Qed.

(** A step that keeps nothing, and the rest. *)
Lemma leaves_bind {A B} (m : prog A) (f : A -> prog B) keeps :
  leaves m (fun _ => []) -> (forall a, leaves (f a) keeps) -> leaves (bind m f) keeps.
Proof.
  intros Hm Hf h. unfold bind. specialize (Hm h). destruct (m h) as [[e|a] h1]; [done|]. cbn in Hm.
  specialize (Hf a h1). destruct (f a h1) as [[e|b] h2]; by rewrite Hf, Hm.
Qed.

(** Something opened, and the rest: when it fails it has closed it. *)
Lemma leaves_acquire {A} r (f : unit -> prog A) keeps :
  (forall h, match f tt h with
             | (inl _, h') => h_open h' = without r (h_open h)
             | (inr a, h') => h_open h' = keeps a ++ without r (h_open h)
             end) -> leaves (bind (acquire r) f) keeps.
Proof.
  intros H h. unfold bind, acquire. specialize (H (MkHeld (r :: h_open h) (h_log h))). cbn [h_open] in H. rewrite without_here in H.
  done.
Qed.

(** A resource that a [defer] closes. *)
Lemma leaves_deferred {A} r (body : prog A) :
  leaves body (fun _ => []) -> leaves (bind (acquire r) (fun _ => defer (close_ r) body)) (fun _ => []).
Proof.
  intros Hb h. unfold bind, acquire, defer. specialize (Hb (MkHeld (r :: h_open h) (h_log h))).
  destruct (body _) as [[e|a] h1]; cbn in Hb |- *; rewrite Hb; apply without_here.
Qed.

Lemma leaves_each {A S} (f : A -> S -> prog S) l s : (forall x s, leaves (f x s) (fun _ => [])) -> leaves (each f l s) (fun _ => []).
Proof.
  intros Hf. revert s. induction l as [|x l IH]; intros s; [apply leaves_ret|]. cbn. apply leaves_bind; [apply Hf|]. intros s'. apply IH.
Qed.
End scope.
Arguments held : clear implicits.
Arguments prog : clear implicits.
