(* ===== verification/Generate.v ===== *)
(** The command files ([internal/instscript]) and what [serve.go] generates around the
    enabled sets: which files there are, what is in them, and that what a script
    selects is in what it opens. Also [mediatree]: the configured sets as the tree
    builder takes them. *)
From S2P Require Import Prelude Text Path Strconv Strings Tree Build Addr Config Shell Attempts.
From S2P Require Scope.

(** ** [internal/instscript] *)

Record Selection := MkSelection { Stream : bytes; sel_Install : list bytes; sel_Keep : list bytes; sel_Remove : list bytes }.
Definition noSelection : Selection := MkSelection [] [] [] [].

(** A line of a command file. *)
Definition line (s : bytes) : bytes := s ++ [newline].

Definition open_line (server set : bytes) : bytes := line (str "open " ++ server ++ str ":" ++ set).

Definition go_on (server start : bytes) : bytes :=
  if bool_decide (start = []) then line (str "go") else line (str "admin source " ++ server ++ str ":" ++ start).

(** [Commands]: without a set there is no first one. *)
Definition Commands (server : bytes) (sets : list bytes) (sel : Selection) (start : bytes) : outcome Tree.error bytes :=
  match sets with
  | [] => Panic
  | primary :: rest =>
      Ok (mjoin (open_line server <$> rest) ++ open_line server primary ++
          (if bool_decide (Stream sel = str "maintenance") then line (str "install maint") else []) ++
          line (str "keep *") ++ line (str "install standard") ++ line (str "keep java_dev.sw.base") ++
          mjoin ((fun s => line (str "install " ++ s)) <$> sel_Install sel) ++
          mjoin ((fun s => line (str "keep " ++ s)) <$> sel_Keep sel) ++
          mjoin ((fun s => line (str "remove " ++ s)) <$> sel_Remove sel) ++
          go_on server start)
  end.

Definition ThenCommands (server : bytes) (sets install : list bytes) (start : bytes) : bytes :=
  mjoin (open_line server <$> sets) ++ line (str "keep *") ++
  mjoin ((fun s => line (str "install " ++ s)) <$> install) ++ go_on server start.

Definition PostInstallDone : bytes := str "instigator: post-install commands finished".

Definition PostInstallCommands (commands : list bytes) : bytes :=
  line (str "set shell /bin/sh") ++ mjoin ((fun c => line (str "shroot " ++ c)) <$> commands) ++
  line (str "set shell /bin/csh") ++ line (str "sh echo " ++ PostInstallDone).

Definition RelatedDists (sets : list bytes) : bytes := if bool_decide (sets = []) then [] else line (str "CD").

(** ** [mediatree]: the sets as the tree builder has them *)

Definition SetSpec_of (set : InstallSet) : SetSpec :=
  Build.MkSet (is_Name set)
    ((fun l => Build.MkLayer (ly_Name l) (ly_Source l) (ly_Base l) (ly_Dist l) (ly_Stand l) (ly_Boot l)) <$> is_Layers set)
    (is_Collisions set) (is_Replacements set).

Definition setSpecs (sets : list InstallSet) : list SetSpec := SetSpec_of <$> sets.

(** ** What is generated *)

Record generatedFile := MkGenerated { g_path : bytes; g_generator : bytes; g_content : bytes; g_script : bytes; g_next : bytes }.

Record profile := MkProfile { primary : bytes; dists : list bytes; bootPaths : list bytes; remoteDir : bytes; generated : list generatedFile }.
Definition noProfile : profile := MkProfile [] [] [] [] [].

Definition dist_of (set : bytes) : bytes := [slash] ++ set ++ str "/dist".

(** The sets a first pass opens. *)
Definition first_pass (cfg : Config) : list bytes :=
  is_Name <$> filter (fun s => is_Enabled s && negb (is_Addon s)) (InstallSets cfg).

(** The token that stands for one until the file is handed out. *)
Definition no_token : bytes := replicate 32 48.

Definition timing (server path script next : bytes) : generatedFile :=
  MkGenerated (fsName path) (str "install-timing") (installGoCommands server no_token next) script next.

(** [addScript]. *)
Definition addScript (server : bytes) (dists : list bytes) (name : bytes) (sel : Selection) (th : option ThenPass) (post : list bytes) :
  outcome Tree.error (list generatedFile) :=
  body ← Commands server dists sel (installStartPath name);
  let last := if bool_decide (post = []) then [] else installPostPath name in
  let next := match th with Some _ => installThenPath name | None => last end in
  Ok ([MkGenerated (name ++ str ".cmds") (str "admin-source") body [] [];
       timing server (installStartPath name) (name ++ str ".cmds") next] ++
      match th with
      | None => []
      | Some t =>
          [MkGenerated (fsName (installThenPath name)) (str "admin-source-then")
             (ThenCommands server (dist_of <$> th_Sets t) (th_Install t) (installThenStartPath name)) [] [];
           timing server (installThenStartPath name) (name ++ str ".cmds then") last]
      end ++
      (if bool_decide (last = []) then []
       else [MkGenerated (fsName last) (str "admin-source-post-install") (PostInstallCommands post) [] []])).

Definition selection_of (sc : InstallScript) : Selection := MkSelection (sc_Stream sc) (sc_Install sc) (sc_Keep sc) (sc_Remove sc).

(** The scripts, one after the other. *)
Fixpoint add_scripts (server : bytes) (dists : list bytes) (scripts : list InstallScript) : outcome Tree.error (list generatedFile) :=
  match scripts with
  | [] => Ok []
  | sc :: scripts =>
      files ← addScript server dists (sc_Name sc) (selection_of sc) (sc_Then sc) (sc_PostInstall sc);
      rest ← add_scripts server dists scripts;
      Ok (files ++ rest)
  end.

Fixpoint add_files (t : Tree) (files : list generatedFile) : outcome Tree.error Tree :=
  match files with
  | [] => Ok t
  | f :: files =>
      match AddGenerated t (g_path f) (g_generator f) (g_content f) with
      | (Ok _, t) => add_files t files
      | (Err e, _) => Err e
      | (Panic, _) => Panic
      end
  end.

(** The stand programs the tree can answer for. *)
Definition opens (t : Tree) (path : bytes) : bool := match Tree.Open t (fsName path) with Ok _ => true | _ => false end.

Definition boot_paths (t : Tree) (primary : bytes) : list bytes :=
  filter (fun boot => opens t boot)
    ((fun name => [slash] ++ primary ++ str "/stand/" ++ name) <$> [str "fx.64"; str "fx.ARCS"]).

Definition generate (cfg : Config) (t : Tree) : outcome Tree.error (profile * Tree) :=
  match first_pass cfg with
  | [] => Ok (noProfile, t)
  | (primary :: _) as names =>
      let ds := dist_of <$> names in
      let server := AddrString (ServerIP cfg) in
      base ← addScript server ds (str "install") noSelection None [];
      rest ← add_scripts server ds (InstallScripts cfg);
      let files := base ++ [MkGenerated (primary ++ str "/dist/.related_dists") (str "related-dists") (RelatedDists ds) [] []] ++ rest in
      t' ← add_files t files;
      Ok (MkProfile primary ds (boot_paths t primary) (dist_of primary) files, t')
  end.

(** The files that start an installation, for [newInstallScripts]: the last of a path stays. *)
Definition starts_of (files : list generatedFile) : gmap bytes installEntry :=
  fold_left (fun m f => if bool_decide (g_generator f = str "install-timing")
                        then <[g_path f := Attempts.MkEntry (g_script f) (g_next f)]> m else m) files ∅.

(** ** What a script selects *)

Definition suffixes : list bytes := [str ".sw"; str ".man"].

(** The product of a selection when it names a subsystem with this suffix. *)
Definition product_of (selection suffix : bytes) : option bytes :=
  i ← Index selection suffix;
  let rest := drop (i + length suffix) selection in
  if bool_decide (rest = []) || bool_decide (take 1 rest = [dot]) then Some (take i selection) else None.

Definition product_files (selection : bytes) : list bytes :=
  match product_of selection (str ".sw") with
  | Some product => [product ++ str ".sw"]
  | None =>
      match product_of selection (str ".man") with
      | Some product => [product ++ str ".man"]
      | None => (fun suffix => selection ++ suffix) <$> suffixes
      end
  end.

(** A distribution of one of the sets has the file. *)
Definition served_file (t : Tree) (sets : list bytes) (file : bytes) : bool :=
  existsb (fun set => match Tree.Stat t (set ++ str "/dist/" ++ file) with
                      | Ok i => Z.land (Tree.Mode i) Tree.ModeType =? 0
                      | _ => false
                      end) sets.

Inductive check_err := NothingSelected (script pass selection : bytes).

(** [checkSelections]: the first selection that is nowhere; [unopened] are sets whose
    media were not read. *)
Definition checkSelections (t : Tree) (script pass : bytes) (selections sets : list bytes) (unopened : bytes -> bool) : option check_err :=
  if existsb unopened sets then None
  else NothingSelected script pass <$> List.find (fun s => negb (existsb (served_file t sets) (product_files s))) selections.

Fixpoint check_scripts (t : Tree) (enabled : list bytes) (unopened : bytes -> bool) (scripts : list InstallScript) : option check_err :=
  match scripts with
  | [] => None
  | sc :: scripts =>
      match checkSelections t (sc_Name sc) [] (sc_Install sc) enabled unopened with
      | Some e => Some e
      | None =>
          match (t' ← sc_Then sc; checkSelections t (sc_Name sc) (str "then ") (th_Install t') (th_Sets t') unopened) with
          | Some e => Some e
          | None => check_scripts t enabled unopened scripts
          end
      end
  end.

Definition checkInstallSelections (cfg : Config) (t : Tree) (unopened : bytes -> bool) : option check_err :=
  match first_pass cfg with [] => None | enabled => check_scripts t enabled unopened (InstallScripts cfg) end.

(** [buildTree]. *)
Inductive start_err := BuildFailed (e : Tree.error) | GenerateFailed (e : Tree.error) | SelectionFailed (e : check_err).

(** What a tree that was built becomes: generated files in it, its selections checked. *)
Definition assembled (cfg : Config) (unopened : bytes -> bool) (t : Tree) : outcome start_err (Tree * profile) :=
  match generate cfg t with
  | Panic => Panic
  | Err e => Err (GenerateFailed e)
  | Ok (p, t) => match checkInstallSelections cfg t unopened with Some e => Err (SelectionFailed e) | None => Ok (t, p) end
  end.

Definition built (fuel : nat) (resolver : Resolver) (sets : list InstallSet) (cfg : Config) (unopened : bytes -> bool) : outcome start_err (Tree * profile) :=
  match Build fuel (setSpecs sets) resolver with Panic => Panic | Err (e, _) => Err (BuildFailed e) | Ok t => assembled cfg unopened t end.

(** The same with what is open: the media are, from the build on, and are closed again
    when the generation or a selection fails. *)
Section opening.
Context {R X E : Type} `{EqDecision R} (media : R) (failed : start_err -> E) (panicked : E).

Definition close_and_fail (e : start_err) : Scope.prog R X E (Tree * profile) := Scope.bind (Scope.release media) (fun _ => Scope.fail (failed e)).

Definition openTree (fuel : nat) (resolver : Resolver) (sets : list InstallSet) (cfg : Config) (unopened : bytes -> bool) : Scope.prog R X E (Tree * profile) :=
  match Build fuel (setSpecs sets) resolver with
  | Panic => Scope.fail panicked
  | Err (e, _) => Scope.fail (failed (BuildFailed e))
  | Ok t =>
      Scope.bind (Scope.acquire media) (fun _ =>
      match generate cfg t with
      | Panic => Scope.fail panicked
      | Err e => close_and_fail (GenerateFailed e)
      | Ok (p, t) =>
          match checkInstallSelections cfg t unopened with
          | Some e => close_and_fail (SelectionFailed e)
          | None => Scope.ret (t, p)
          end
      end)
  end.

(** [buildTree]. *)
Definition buildTree (fuel : nat) (resolver : Resolver) (cfg : Config) : Scope.prog R X E (Tree * profile) :=
  openTree fuel resolver (InstallSets cfg) cfg (fun _ => false).
End opening.

(** ** Generating does not panic *)

Lemma ensure_parts_panics ns p seen parts origin : (ensure_parts ns p seen parts origin).2 <> Panic.
Proof.
  revert ns p seen. induction parts as [|c parts IH]; intros ns p seen; [done|]. cbn [ensure_parts]. unfold mergeChild.
  destruct (ns !! _) as [old|]; [|apply IH]. cbn [newDir n_dir]. destruct (n_dir old); cbn; [apply IH|done].
Qed.

Lemma AddGenerated_panics t name gen content : (AddGenerated t name gen content).1 <> Panic.
Proof.
  unfold AddGenerated. destruct (_ || _); [done|]. unfold ensureDir. pose proof (ensure_parts_panics (t_nodes t) [] [] (split_byte slash (Dir name)) (MkOrigin OriginGenerated gen [])) as H.
  destruct (bool_decide (Dir name = [dot])).
  - by repeat case_match.
  - destruct (ensure_parts _ _ _ _ _) as [ns [q|e|]]; [|done|by destruct H]. by repeat case_match.
Qed.

Lemma add_files_panics t files : add_files t files <> Panic.
Proof.
  revert t. induction files as [|f files IH]; intros t; [done|]. cbn [add_files]. pose proof (AddGenerated_panics t (g_path f) (g_generator f) (g_content f)) as H.
  destruct (AddGenerated _ _ _ _) as [[u|e|] t1]; [apply IH|done|by destruct H].
Qed.

Lemma addScript_panics server d ds name sel th post : exists files, addScript server (d :: ds) name sel th post = Ok files.
Proof. unfold addScript. cbn [Commands mbind outcome_bind]. by eexists. Qed.

Lemma add_scripts_panics server d ds scripts : exists files, add_scripts server (d :: ds) scripts = Ok files.
Proof.
  induction scripts as [|sc scripts [rest IH]]; [by eexists|]. cbn [add_scripts].
  destruct (addScript_panics server d ds (sc_Name sc) (selection_of sc) (sc_Then sc) (sc_PostInstall sc)) as [files ->]. cbn [mbind outcome_bind]. rewrite IH. by eexists.
Qed.

Lemma generate_panics cfg t : generate cfg t <> Panic.
Proof.
  unfold generate. destruct (first_pass cfg) as [|n names]; [done|]. cbn [fmap list_fmap].
  destruct (addScript_panics (AddrString (ServerIP cfg)) (dist_of n) (dist_of <$> names) (str "install") noSelection None []) as [base ->].
  destruct (add_scripts_panics (AddrString (ServerIP cfg)) (dist_of n) (dist_of <$> names) (InstallScripts cfg)) as [rest ->]. cbn [mbind outcome_bind].
  pose proof (add_files_panics t (base ++ [MkGenerated (n ++ str "/dist/.related_dists") (str "related-dists") (RelatedDists (dist_of n :: (dist_of <$> names))) [] []] ++ rest)) as H.
  by destruct (add_files _ _).
Qed.

(** What a build leaves open: the media when it succeeds, and nothing when it fails. *)
Lemma openTree_runs {R X E : Type} `{EqDecision R} (media : R) (failed : start_err -> E) (panicked : E) fuel resolver sets cfg unopened (h : Scope.held R X) :
  openTree media failed panicked fuel resolver sets cfg unopened h =
  match built fuel resolver sets cfg unopened with
  | Ok r => (inr r, Scope.MkHeld (media :: Scope.h_open h) (Scope.h_log h))
  | Err e => (inl (failed e), h)
  | Panic => (inl panicked, h)
  end.
Proof.
  unfold openTree, built, assembled. destruct (Build _ _ _) as [t|[e cl]|]; [|done..]. unfold Scope.bind at 1, Scope.acquire.
  pose proof (generate_panics cfg t) as Hg. destruct (generate cfg t) as [[p t1]|e|]; [| |done].
  - destruct (checkInstallSelections cfg t1 unopened) as [e|]; [|done]. unfold close_and_fail, Scope.bind, Scope.release, Scope.fail, Scope.close_. cbn [Scope.h_open Scope.h_log].
    rewrite Scope.without_here. by destruct h.
  - unfold close_and_fail, Scope.bind, Scope.release, Scope.fail, Scope.close_. cbn [Scope.h_open Scope.h_log]. rewrite Scope.without_here. by destruct h.
Qed.

(** ** What a build has checked *)

(** A selection is served: a file that holds its products is in one of the sets. *)
Definition selection_served (t : Tree) (sets : list bytes) (selection : bytes) : Prop :=
  exists set file i, set ∈ sets /\ file ∈ product_files selection /\
    Tree.Stat t (set ++ str "/dist/" ++ file) = Ok i /\ Z.land (Tree.Mode i) Tree.ModeType = 0.

Lemma served_file_spec t sets selection :
  existsb (served_file t sets) (product_files selection) = true <-> selection_served t sets selection.
Proof.
  rewrite existsb_exists. unfold served_file. setoid_rewrite existsb_exists. split.
  - intros (file & Hf & set & Hs & H). destruct (Tree.Stat t _) as [i|e| ] eqn:E; [|done|done]. apply Z.eqb_eq in H.
    exists set, file, i. rewrite !list_elem_of_In. done.
  - intros (set & file & i & Hs & Hf & Hi & Hm). rewrite !list_elem_of_In in Hs, Hf. exists file. split; [done|]. exists set.
    split; [done|]. rewrite Hi. by apply Z.eqb_eq.
Qed.

Lemma checkSelections_None t script pass selections sets unopened : checkSelections t script pass selections sets unopened = None <->
  existsb unopened sets = true \/ Forall (selection_served t sets) selections.
Proof.
  unfold checkSelections. destruct (existsb unopened sets); [by split; [left|]|].
  destruct (List.find _ selections) as [s|] eqn:E; cbn.
  - split; [done|]. intros [|H]; [done|]. exfalso. apply find_some in E as [Hin Hs].
    apply list_elem_of_In in Hin. rewrite Forall_forall in H. apply H, served_file_spec in Hin. by rewrite Hin in Hs.
  - split; [|done]. intros _. right. apply Forall_forall. intros s Hs%list_elem_of_In. apply served_file_spec.
    pose proof (find_none _ _ E s Hs) as Hn. by apply negb_false_iff in Hn.
Qed.

(** What a started server's scripts select is served by the sets their passes open. *)
Lemma built_selections fuel resolver cfg t p : built fuel resolver (InstallSets cfg) cfg (fun _ => false) = Ok (t, p) -> first_pass cfg <> [] ->
  Forall (fun sc => Forall (selection_served t (first_pass cfg)) (sc_Install sc) /\
    forall th, sc_Then sc = Some th -> Forall (selection_served t (th_Sets th)) (th_Install th)) (InstallScripts cfg).
Proof.
  unfold built, assembled. destruct (Build _ _ _) as [t0|[e l]| ]; [|done|done]. destruct (generate cfg t0) as [[p1 t1]|e| ]; [|done|done].
  destruct (checkInstallSelections cfg t1 _) as [e|] eqn:E; [done|]. intros [= -> ->] Hen. unfold checkInstallSelections in E.
  destruct (first_pass cfg) as [|set names]; [done|]. clear Hen.
  assert (Hno : forall sets, existsb (fun _ : bytes => false) sets = true -> False).
  { intros sets (x & _ & H)%existsb_exists. done. }
  induction (InstallScripts cfg) as [|sc scripts IH]; [done|]. cbn [check_scripts] in E.
  destruct (checkSelections t (sc_Name sc) [] _ _ _) as [e|] eqn:E1; [done|].
  destruct (t' ← sc_Then sc; _) as [e|] eqn:E2; [done|]. constructor; [|by apply IH]. split.
  - apply checkSelections_None in E1 as [H|H]; [by apply Hno in H|done].
  - intros th Hth. rewrite Hth in E2. apply checkSelections_None in E2 as [H|H]; [by apply Hno in H|done].
Qed.

(** The tree builder is given the names it asks for. *)
Lemma setSpecs_names cfg : config_ok cfg -> Forall (fun set => name_ok (s_Name set)) (setSpecs (InstallSets cfg)).
Proof.
  intros [(_ & _ & Hf & _) _ _ _]. apply Forall_fmap. eapply Forall_impl; [exact Hf|]. intros s Hs. apply (so_name s Hs).
Qed.

Example selects :
  product_files (str "eoe.sw.base") = [str "eoe.sw"] /\ product_files (str "eoe.man") = [str "eoe.man"] /\
  product_files (str "eoe") = [str "eoe.sw"; str "eoe.man"] /\ product_files (str "java.software") = [str "java.software.sw"; str "java.software.man"].
Proof. vm_compute. done. Qed.

(** A set's name may be two lines, and then so is the line that opens it. *)
Lemma set_name_two_lines : IsDirName [97; newline; 98] = true /\
  raw_lines (open_line (str "10.0.0.1") (dist_of [97; newline; 98])) = [str "open 10.0.0.1:/a"; str "b/dist"].
Proof. by vm_compute. Qed.
