(* ===== verification/Rsh.v ===== *)
(** The shell over the served tree ([serve.go]'s [cmdFS], with [installScripts]
    in front of the tree): a client that reads a file of the tree with [dd] gets
    its bytes, and one that reads a start file begins an attempt. *)
From S2P Require Import Prelude Text Path Strconv Tree Strings Coalesce Shell Dd Session Confined Attempts.

#[export] Instance stream_id_eq_dec : EqDecision stream_id.
Proof. solve_decision. Defined.

(** ** The adapters *)

(** [vfs.File]'s reader: an error of the source is some error of the read. *)
Definition ra_of (h : handle) : ReaderAt := fun off n =>
  match h off n with Ok r => r | _ => ([], Some (OtherIO 5)) end.

Section adapters.
Context (t : Tree).
(** Whether a source's error is one of a missing file, and how an error other than
    that one prints. *)
Context (missing : Tree.error -> bool) (find_text : bytes -> find_err -> gerr).

Definition errNotRegular (name : bytes) : gerr := str "open " ++ name ++ str ": not a regular file".

(** [errors.Is] with [vfs.ErrNotFound] or [fs.ErrNotExist]. *)
Definition not_exist (e : find_err) : bool :=
  match e with FErrNotExist => true | FErrOpen e => missing e | _ => false end.

(** [notFound]. *)
Definition notFound (path name : bytes) (e : find_err) : gerr :=
  if not_exist e then path ++ str ": not found" else find_text name e.

(** [openRegular] and [cmdFS.Open] of a tree path. *)
Definition open_tree (path : bytes) : outcome gerr Shell.File :=
  match Tree.Open t (fsName path) with
  | Ok (regular i h) => Ok (Shell.MkFile (ra_of h) (Size i) None)
  | Ok (dirFile _ _ _) => Err (errNotRegular (fsName path))
  | Err e => Err (notFound path (fsName path) e)
  | Panic => Panic
  end.

Definition cmd_ReadDir (path : bytes) : outcome gerr (list bytes) :=
  match Tree.ReadDir t (fsName path) with
  | Ok ents => Ok (Name <$> ents)
  | Err e => Err (notFound path (fsName path) e)
  | Panic => Panic
  end.

Definition info_of (i : fileInfo) : FileInfo :=
  Shell.MkFI (MIno i) (has_mode (Mode i) ModeDir) (Z.land (Mode i) 0xfff) (MNlink i) (MUID i) (MGID i) (Size i) (ModTime i).

Definition stat_tree (path : bytes) : outcome gerr FileInfo :=
  match Tree.Stat t (fsName path) with
  | Ok i => Ok (info_of i)
  | Err e => Err (notFound path (fsName path) e)
  | Panic => Panic
  end.

Definition ResolveImage (path : bytes) : outcome gerr (bytes * bytes) :=
  match Tree.Resolve t (fsName path) with
  | Ok o =>
      match Kind o with
      | OriginImage | OriginDirectory => Ok (Source_ o, Path_ o)
      | _ => Err (path ++ str ": not backed by media")
      end
  | Err e => Err (notFound path (fsName path) e)
  | Panic => Panic
  end.

(** ** A connection *)

(** The wire: what was written, in order, a segment each. *)
Definition wire : Type := list (stream_id * bytes).

(** What is behind a session: the timed installs, the wire, what was reported, and
    the clock. [c_seen] is the reported ranges of files, in order. *)
Record conn := MkConn {
  c_scripts : installScripts; c_wire : wire; c_seen : list (Z * Z * Z);
  c_served : list (bytes * bytes * bytes); c_lines : list bytes; c_ends : list (Z * bool); c_now : Z;
}.

Definition with_scripts (s : installScripts) (c : conn) : conn :=
  MkConn s (c_wire c) (c_seen c) (c_served c) (c_lines c) (c_ends c) (c_now c).

Context (server : bytes) (starts : gmap bytes installEntry) (token : nat -> bytes) (client address : bytes).

(** [cmdFS.Open]. *)
Definition cmd_Open (path : bytes) (c : conn) : outcome gerr Shell.File * conn :=
  match Attempts.open server starts token (c_scripts c) (fsName path) client address with
  | (Some (inl (i, body)), s) => (Ok (Shell.MkFile (image_reader body) (zlen body) (Some (Z.of_nat i))), with_scripts s c)
  | (Some (inr tt), s) => (Err (str "not found"), with_scripts s c)
  | (None, s) => (open_tree path, with_scripts s c)
  end.

(** [cmdFS.Stat]. *)
Definition cmd_Stat (path : bytes) (c : conn) : outcome gerr FileInfo * conn :=
  (match stat starts (c_scripts c) (fsName path) address with
   | Some (inl i) => Ok i
   | Some (inr tt) => Err (str "not found")
   | None => stat_tree path
   end, c).

(** A session of a client that reads what it is sent and does not interrupt. *)
Definition rsh_base : Base conn := MkBase conn
  cmd_Open (fun p c => (cmd_ReadDir p, c)) cmd_Stat (Some (fun p c => (ResolveImage p, c)))
  (fun i p c => ((zlen p, None),
    MkConn (c_scripts c) (c_wire c ++ [(i, p)]) (c_seen c) (c_served c) (c_lines c) (c_ends c) (c_now c)))
  id id (fun _ => false) id (fun _ => id)
  (fun o off n c => MkConn (Transferred (Z.to_nat o) off n (c_now c) (c_scripts c)) (c_wire c) (c_seen c ++ [(o, off, n)])
    (c_served c) (c_lines c) (c_ends c) (c_now c))
  (fun abs image path c => MkConn (c_scripts c) (c_wire c) (c_seen c) (c_served c ++ [(abs, image, path)]) (c_lines c) (c_ends c) (c_now c))
  (fun l c => MkConn (c_scripts c) (c_wire c) (c_seen c) (c_served c) (c_lines c ++ [l]) (c_ends c) (c_now c))
  (fun st r c => MkConn (c_scripts c) (c_wire c) (c_seen c) (c_served c) (c_lines c) (c_ends c ++ [(st, r)]) (c_now c))
  c_now.

(** ** The session is calm *)

(** What one of the client's two streams carried. *)
Definition on_stream (i : stream_id) (w : wire) : bytes :=
  mjoin ((fun x => if bool_decide (x.1 = i) then x.2 else []) <$> w).

Definition sent_out (s : sess conn) : bytes := on_stream StdOut (c_wire (s_out s).2) ++ buf (s_out s).1.
Definition sent_err (s : sess conn) : bytes := on_stream StdErr (c_wire (s_out s).2).
Definition reported (s : sess conn) : list (Z * Z * Z) := c_seen (s_out s).2.

Definition to_client (i : stream) : HandlerContext := MkHC ToClient ToClientErr i.

Lemma on_stream_snoc i w j p : on_stream i (w ++ [(j, p)]) = on_stream i w ++ (if bool_decide (j = i) then p else []).
Proof. unfold on_stream. rewrite fmap_app, join_app. cbn. by rewrite app_nil_r. Qed.

Notation B := rsh_base.

(** A flush moves what is held to the client's stream. *)
Lemma flush_sent s : exists s', flushLocked (b_conn B) s = (None, s') /\ buf s'.1 = [] /\ direct s'.1 = direct s.1 /\
  on_stream StdOut (c_wire s'.2) = on_stream StdOut (c_wire s.2) ++ buf s.1 /\
  on_stream StdErr (c_wire s'.2) = on_stream StdErr (c_wire s.2) /\ c_seen s'.2 = c_seen s.2.
Proof.
  destruct s as [[b d] c]. unfold flushLocked. cbn [fst snd buf direct]. case_bool_decide as E.
  - subst b. eexists. split; [reflexivity|]. cbn [fst snd buf direct]. by rewrite app_nil_r.
  - cbn [b_conn rsh_base]. eexists. split; [reflexivity|]. cbn [fst snd buf direct c_wire c_seen].
    rewrite !on_stream_snoc, !bool_decide_true, bool_decide_false, app_nil_r by done. done.
Qed.

Lemma write_sent p s : exists s', write_to B ToClient p s = ((zlen p, None), s') /\
  sent_out s' = sent_out s ++ p /\ sent_err s' = sent_err s /\ reported s' = reported s.
Proof.
  destruct s as [[o c] pipes i]. cbn [write_to]. unfold Coalesce.Write, sent_out, sent_err, reported.
  cbn [s_out fst snd]. set (now := direct o || _).
  destruct (flush_sent (o, c)) as ([o' c'] & Hf & Hb & _ & Ho & He & Hs). cbn [fst snd] in *. rewrite Hf.
  destruct (now || _) eqn:En; destruct now; cbn [negb] in *; try done;
    (eexists; split; [reflexivity|]); cbn [s_out fst snd buf c_wire c_seen]; rewrite ?on_stream_snoc, ?Hb, ?Ho, ?He, ?Hs.
  - cbn. by rewrite !app_nil_r.
  - done.
  - by rewrite app_assoc.
Qed.

Lemma write_err_sent p s : exists s', write_to B ToClientErr p s = ((zlen p, None), s') /\
  sent_out s' = sent_out s /\ sent_err s' = sent_err s ++ p /\ reported s' = reported s.
Proof.
  destruct s as [[o c] pipes i]. cbn [write_to]. unfold err_Write, sent_out, sent_err, reported.
  destruct (flush_sent (o, c)) as ([o' c'] & Hf & Hb & _ & Ho & He & Hs). cbn [fst snd s_out] in *. rewrite Hf.
  eexists. split; [reflexivity|]. cbn [s_out fst snd buf c_wire c_seen]. rewrite !on_stream_snoc, Hb, Ho, He, Hs.
  cbn. by rewrite !app_nil_r.
Qed.

#[export] Instance rsh_calm i : Calm (host_of B (to_client i)) sent_out sent_err reported.
Proof.
  split; intros; cbn -[rsh_base]; try done.
  - destruct (write_sent p w) as (w' & ? & ? & ? & ?). by exists w'.
  - destruct (write_err_sent p w) as (w' & ? & ? & ? & ?). by exists w'.
  - unfold flush_out. destruct w as [s pipes i']. cbn [s_out]. unfold Flush.
    destruct (flush_sent s) as ([o' c'] & Hf & Hb & _ & Ho & He & Hs). rewrite Hf. eexists. split; [reflexivity|].
    unfold sent_out, sent_err, reported. cbn [s_out fst snd] in *. by rewrite Hb, Ho, He, Hs, app_nil_r.
  - unfold tell_base, on_base. destruct w as [[o' c'] pipes i']. done.
  - unfold tell_base, on_base. destruct w as [[o' c'] pipes i']. done.
  - unfold tell_base, on_base. destruct w as [[o' c'] pipes i']. done.
  - unfold tell_base, on_base. destruct w as [[o' c'] pipes i']. done.
  - cbn in H. injection H as <-. unfold on_base. destruct w as [[o' c'] pipes i']. done.
  - unfold on_base. destruct w as [[o' c'] pipes i']. cbn. unfold cmd_Open.
    destruct (Attempts.open _ _ _ _ _ _ _) as [[[[k body]|[]]|] sc]; done.
Qed.

(** ** A file of the tree over a session *)

(** A path that no timed install answers for. *)
Definition in_tree (path : bytes) : Prop :=
  starts !! fsName path = None /\ HasPrefix (fsName path) installReturnPrefix = false.

Lemma cmd_Open_tree path c : in_tree path -> cmd_Open path c = (open_tree path, c).
Proof.
  intros [Hs Hp]. unfold cmd_Open, Attempts.open. rewrite Hs, Hp. unfold with_scripts. by destruct c.
Qed.

(** The path a command names, from the directory the session is in. *)
Definition named (e : shellEnv (sess conn)) (p : bytes) : bytes := strip (resolve_at (cwd e) p).

(** C9. A client of the shell that reads a file of the tree with [dd] gets, on the
    stream of its output and after what it had been sent, the bytes of the file that
    the operands name and no other; the counts go to its error stream, and the
    timed installs are told nothing. *)
Theorem dd_from_tree printWide io_text turns args d img info h e i :
  Tree.Open t (fsName (named e (dd_file d))) = Ok (regular info h) -> in_tree (named e (dd_file d)) ->
  ReaderAtOK (ra_of h) (at_ img) (zlen img) -> Size info = zlen img -> zlen img <= max_i64 ->
  dd_parse printWide args dd_default = inl d -> dd_file d <> [] -> 0 < dd_block d <= maxAlloc ->
  dd_skip d * dd_block d <= max_i64 -> (forall c, dd_count d = Some c -> c * dd_block d <= max_i64) ->
  zlen img < Z.of_nat turns ->
  exists e', shDD (host_of B (to_client i)) printWide io_text turns args e = Ok (Exit 0, e') /\
    sent_out (world e') = sent_out (world e) ++ dd_bytes d img /\
    sent_err (world e') = sent_err (world e) ++ dd_report (dd_block d) (zlen (dd_bytes d img)) /\
    reported (world e') = reported (world e) /\ cwd e' = cwd e.
Proof.
  intros Ho Hin Hra Hsz Hlen Hp Hf Hb Hskip Hcount Ht.
  destruct (dd_copies (host_of B (to_client i)) sent_out sent_err reported printWide io_text turns args d
    (Shell.MkFile (ra_of h) (Size info) None) img e) as (e' & He & Hw); try done.
  - cbn [host_of h_open]. unfold on_base. destruct (s_out (world e)) as [o c]. cbn [rsh_base b_open].
    fold (named e (dd_file d)). rewrite cmd_Open_tree by done. unfold open_tree. by rewrite Ho.
  - exists e'. split; [exact He|]. destruct Hw as [A1 A2 A3 [A4 _]]. cbn in A3. rewrite app_nil_r in A3. done.
Qed.
End adapters.

(** ** A session over a small tree *)

Definition demo_tree0 : Tree := number (MkTree {[ [] := newDir [dot] zeroOrigin ]} [] 0).
Definition demo_text : bytes := str "go" ++ [newline].
Definition demo_tree : Tree := (AddGenerated demo_tree0 (str "dist/commands") (str "install") demo_text).2.

Abbreviation demo_rsh := (rsh_base demo_tree (fun _ => false) (fun _ _ => str "failed") (str "10.0.0.1") demo_starts demo_token
  (str "octane") (str "10.0.0.2")).

Definition demo_conn : conn := MkConn newInstallScripts [] [] [] [] [] 0.
Definition demo_rsh_env : shellEnv (sess conn) :=
  MkEnv (str "/dist") false (MkSess (newCoalescedOutput, demo_conn) ∅ (MkStream [] None)).

Lemma dd_from_tree_witness : exists e',
  shDD (host_of demo_rsh (to_client (MkStream [] None))) (fun _ => true) (fun _ => []) 9
    [str "if=commands"; str "bs=2"; str "iseek=1"] demo_rsh_env = Ok (Exit 0, e') /\
  sent_out (world e') = [newline] /\ sent_err (world e') = dd_report 2 1 /\ reported (world e') = [] /\ cwd e' = str "/dist".
Proof.
  destruct (dd_from_tree demo_tree (fun _ => false) (fun _ _ => str "failed") (str "10.0.0.1") demo_starts demo_token
    (str "octane") (str "10.0.0.2") (fun _ => true) (fun _ => []) 9 [str "if=commands"; str "bs=2"; str "iseek=1"]
    (MkDD (str "commands") 2 512 1 None) demo_text
    (Tree.MkFileInfo (str "commands") 3 0x124 None 4 0 0 1 (MkOrigin OriginGenerated (str "install") [])) (mem_handle demo_text)
    demo_rsh_env (MkStream [] None)) as (e' & He & H1 & H2 & H3 & H4).
  - vm_compute. reflexivity.
  - split; vm_compute; reflexivity.
  - exact (image_reader_ok demo_text).
  - reflexivity.
  - vm_compute. congruence.
  - vm_compute. reflexivity.
  - done.
  - vm_compute. split; congruence.
  - vm_compute. congruence.
  - done.
  - vm_compute. reflexivity.
  - exists e'. split; [exact He|]. rewrite H1, H2, H3, H4. clear. split_and!; vm_compute; reflexivity.
Defined.

(** A tree of proper names lists proper names. *)
Lemma rsh_lists_names t missing find_text server starts token client address :
  wf (t_nodes t) -> (forall p n, t_nodes t !! p = Some n -> Forall name_ok p) ->
  lists_names (rsh_base t missing find_text server starts token client address).
Proof.
  intros Hw Hn p c names. cbn. unfold cmd_ReadDir, Tree.ReadDir.
  destruct (find t (fsName p)) as [[q n]| |]; cbn; [|done..]. destruct (n_dir n); cbn; [|done].
  intros <-%Ok_inj. rewrite entries_names by done. apply Forall_forall. intros x [m Hm]%elem_sortedNames.
  apply Hn, Forall_app in Hm as [_ Hm]. by rewrite Forall_singleton in Hm.
Qed.

Lemma demo_tree_wf : wf (t_nodes demo_tree) /\ (forall p n, t_nodes demo_tree !! p = Some n -> Forall name_ok p).
Proof.
  assert (H0 : served demo_tree0).
  { apply number_served. split.
    - split; [by eexists|]. intros p c n. cbn. intros H%lookup_singleton_Some. destruct H as [H _]. by destruct p.
    - split; cbn; intros p; intros; simplify_map_eq.
    - vm_compute. reflexivity. }
  destruct (AddGenerated demo_tree0 (str "dist/commands") (str "install") demo_text) as [r t'] eqn:E.
  assert (Hr : (AddGenerated demo_tree0 (str "dist/commands") (str "install") demo_text).1 = Ok tt) by (vm_compute; reflexivity).
  rewrite E in Hr. cbn in Hr. subst r.
  destruct (AddGenerated_nodes _ _ _ _ _ H0 E) as (_ & _ & Hs & _); [vm_compute; reflexivity|].
  assert (Ht : demo_tree = t') by (unfold demo_tree; by rewrite E). rewrite Ht. split; [apply Hs|].
  rewrite <- Ht. clear.
  assert (H : map_Forall (fun p (_ : node) => Forall name_ok p) (t_nodes demo_tree)) by (by apply (bool_decide_unpack _); vm_compute).
  intros p n Hp. exact (H p n Hp).
Qed.

(** An interpreter of single commands: a line is its words, handed to the call
    handler and then to the exec handler. *)
Definition demo_run (words : list bytes) (r : unit) : prog unit :=
  DoCall unit plain words (fun words => DoExec unit plain 9 words (fun st _ _ =>
    Done unit r (match st with Exit 0 => RunOk | Exit n => RunExit n | Shell.Fail e => RunErr e end))).

Definition demo_session : stream := MkStream (unlines
  [str "cd ../../dist"; str "cat ../x/../dist/./commands"; str "cat /../../etc/passwd"; str "ls -l .."]) None.

Definition demo_shell : outcome stuck (unit * shellEnv (sess (list bytes * conn))) :=
  RunShell (watched demo_rsh) (fun _ => true) id (fun _ => []) (fun _ => Err []) (fun _ => ([], 0, 0, 0, 0))
    (fun line => inl (Fields line)) (fun _ => false) (fun _ => false) demo_run (fun _ => false) demo_session tt ([], demo_conn).

Lemma session_confined_witness : exists e, demo_shell = Ok (tt, e) /\
  (s_out (world e)).2.1 = [str "dist"; str "dist/commands"; str "dist/commands"; str "etc/passwd"; []; []; str "dist"] /\
  Forall inside (s_out (world e)).2.1 /\ rooted (cwd e).
Proof.
  pose proof (session_confined demo_rsh
    (rsh_lists_names _ _ _ _ _ _ _ _ (proj1 demo_tree_wf) (proj2 demo_tree_wf)) (fun _ => true) id (fun _ => []) (fun _ => Err [])
    (fun _ => ([], 0, 0, 0, 0)) (fun line => inl (Fields line)) (fun _ => false) (fun _ => false) demo_run
    (fun _ => false) demo_session tt demo_conn) as H.
  fold demo_shell in H.
  assert (Hlog : match demo_shell with Ok (_, e) => (s_out (world e)).2.1 | _ => [] end =
    [str "dist"; str "dist/commands"; str "dist/commands"; str "etc/passwd"; []; []; str "dist"]) by (vm_compute; reflexivity).
  destruct demo_shell as [[[] e]| |]; [|discriminate..].
  exists e. split; [reflexivity|]. split; [exact Hlog|exact H].
Defined.
