(* ===== verification/Install.v ===== *)
(** What a script makes a machine do: the client reads the command file of a script
    over its shell, follows the hand-offs from file to file, and has carried out the
    configured passes, each timed. *)
From S2P Require Import Prelude Text Path Strconv Strings Tree Build Addr Config Shell Attempts Rsh Generate.

(** ** Generated files stay in the tree *)

(** The same nodes, whatever their numbers. *)
Definition same_but_numbers (ns ns' : nodes) : Prop := forall p,
  match ns !! p with None => ns' !! p = None | Some n => exists i, ns' !! p = Some (with_ino i n) end.

Lemma same_refl ns : same_but_numbers ns ns.
Proof. intros p. destruct (ns !! p) as [n|]; [|done]. exists (n_ino n). by rewrite with_ino_same. Qed.

Lemma same_trans ns1 ns2 ns3 : same_but_numbers ns1 ns2 -> same_but_numbers ns2 ns3 -> same_but_numbers ns1 ns3.
Proof.
  intros H1 H2 p. specialize (H1 p). specialize (H2 p). destruct (ns1 !! p) as [n|]; [|by rewrite H1 in H2].
  destruct H1 as [i H1]. rewrite H1 in H2. destruct H2 as [j H2]. exists j. rewrite H2. by destruct n.
Qed.

Lemma foldl_assign_same l ns next : same_but_numbers ns (fst (foldl assign (ns, next) l)).
Proof.
  revert ns next. induction l as [|p l IH]; intros ns next; [apply same_refl|]. cbn [foldl].
  destruct (assign (ns, next) p) as [ns1 next1] eqn:E. eapply same_trans; [|apply IH]. unfold assign in E.
  destruct (ns !! p) as [n|] eqn:Hp; [|injection E as <- <-; apply same_refl].
  destruct (n_ino n =? 0); injection E as <- <-; [|apply same_refl]. intros q.
  destruct (decide (q = p)) as [->|Hne].
  - rewrite Hp, lookup_insert_eq. eauto.
  - rewrite lookup_insert_ne by done. apply same_refl.
Qed.

Lemma number_same t : same_but_numbers (t_nodes t) (t_nodes (number t)).
Proof.
  unfold number. pose proof (foldl_assign_same (preorder (depth (t_nodes t)) (t_nodes t) []) (t_nodes t)
    (if t_nextIno t <? Efs.RootIno then Efs.RootIno else t_nextIno t)) as H.
  by destruct (foldl assign _ _) as [ns next].
Qed.

Lemma wf_same ns ns' : same_but_numbers ns ns' -> wf ns -> wf ns'.
Proof.
  intros H Hw. split.
  - destruct (wf_root _ Hw) as (r & Hr & Hd). specialize (H []). rewrite Hr in H. destruct H as [i ->]. eauto.
  - intros p c n Hn. pose proof (H (p ++ [c])) as Hc. destruct (ns !! (p ++ [c])) as [m|] eqn:Hm; [|congruence].
    destruct Hc as [i Hi]. rewrite Hn in Hi. injection Hi as ->.
    destruct (wf_child _ Hw _ _ _ Hm) as (Hname & d & Hd & Hdir). split; [done|].
    specialize (H p). rewrite Hd in H. destruct H as [j Hj]. eauto.
Qed.

(** A regular file with these contents is at the path. *)
Definition has_text (t : Tree) (name text : bytes) : Prop :=
  exists i, Tree.Open t name = Ok (regular i (mem_handle text)) /\ Size i = zlen text.

Lemma generated_text t name gen content ino : wf (t_nodes t) -> ValidPath name = true ->
  t_nodes t !! path_of name = Some (with_ino ino (generated_node (Base name) gen content 0)) -> has_text t name content.
Proof.
  intros Hw Hv Hn. assert (Hf : find t name = Ok (path_of name, with_ino ino (generated_node (Base name) gen content 0))).
  { by apply find_wf. }
  eexists. unfold Tree.Open. rewrite Hf. by split.
Qed.

(** A generated file is there, and nothing else of the tree has changed. *)
Lemma AddGenerated_text t name gen content t' : wf (t_nodes t) -> AddGenerated t name gen content = (Ok tt, t') ->
  wf (t_nodes t') /\ ValidPath name = true /\
  (exists i, t_nodes t' !! path_of name = Some (with_ino i (generated_node (Base name) gen content 0))) /\
  (forall p n, p <> path_of name -> t_nodes t !! p = Some n -> exists i, t_nodes t' !! p = Some (with_ino i n)).
Proof.
  intros Hw. unfold AddGenerated. destruct (negb (ValidPath name) || _) eqn:E; [done|].
  apply orb_false_iff in E as [Hv%negb_false_iff Hd%bool_decide_eq_false].
  destruct (path_of_Dir name Hv Hd) as [Hp HpD]. unfold ensureDir.
  set (origin := MkOrigin OriginGenerated gen []).
  assert (Hens : (if bool_decide (Dir name = [dot]) then (t_nodes t, Ok [])
      else ensure_parts (t_nodes t) [] [] (split_byte slash (Dir name)) origin) =
    ensure_parts (t_nodes t) [] [] (path_of (Dir name)) origin).
  { rewrite <- HpD. by case_bool_decide. }
  rewrite Hens. clear Hens HpD.
  pose proof (ensure_parts_spec (t_nodes t) [] [] (path_of (Dir name)) origin Hw (wf_root _ Hw)) as Hs.
  destruct (ensure_parts _ _ _ _ _) as [ns r]. destruct Hs as (Hw1 & Hkeep & _ & _ & Hr).
  destruct r as [parent| |]; [|done|done]. destruct Hr as (-> & Hpar). cbn [app]. rewrite <- Hp. intros Hres.
  assert (Hex : exists i, t' = number (MkTree (<[path_of name := generated_node (Base name) gen content i]> ns) (t_closers t) (t_nextIno t))
    /\ (forall m, ns !! path_of name = Some m -> n_dir m = false)).
  { destruct (ns !! path_of name) as [n|] eqn:Hold.
    - destruct (n_dir n) eqn:Hdir; [done|]. injection Hres as <-. exists (n_ino n). split; [done|]. by intros m [= <-].
    - injection Hres as <-. by exists 0. }
  clear Hres. destruct Hex as (i & -> & Hi). set (g := generated_node (Base name) gen content i).
  set (t1 := MkTree (<[path_of name := g]> ns) (t_closers t) (t_nextIno t)).
  assert (Hwg : wf (t_nodes t1)).
  { cbn. rewrite Hp. apply (wf_insert ns (path_of (Dir name)) g); [done|done|]. intros o Ho. cbn in *. rewrite <- Hp in Ho. by rewrite (Hi _ Ho). }
  pose proof (number_same t1) as Hsame. split_and!; [by eapply wf_same|done| |].
  - specialize (Hsame (path_of name)). cbn in Hsame. rewrite lookup_insert_eq in Hsame. destruct Hsame as [j Hj]. by exists j.
  - intros p n Hne Hn. specialize (Hsame p). cbn in Hsame. by rewrite lookup_insert_ne, (Hkeep _ _ Hn) in Hsame.
Qed.

Definition generated_at (t : Tree) (f : generatedFile) : Prop :=
  ValidPath (g_path f) = true /\
  exists i, t_nodes t !! path_of (g_path f) = Some (with_ino i (generated_node (Base (g_path f)) (g_generator f) (g_content f) 0)).

Lemma generated_at_text t f : wf (t_nodes t) -> generated_at t f -> has_text t (g_path f) (g_content f).
Proof. intros Hw [Hv [i Hi]]. by eapply generated_text. Qed.

Lemma add_files_text files t t' : wf (t_nodes t) -> add_files t files = Ok t' -> NoDup (g_path <$> files) ->
  wf (t_nodes t') /\ Forall (generated_at t') files /\
  (forall p n, (forall f, f ∈ files -> p <> path_of (g_path f)) -> t_nodes t !! p = Some n ->
    exists i, t_nodes t' !! p = Some (with_ino i n)).
Proof.
  revert t. induction files as [|f files IH]; intros t Hw Hadd Hnd; cbn [add_files fmap list_fmap] in *.
  { injection Hadd as ->. split_and!; [done|apply Forall_nil_2|]. intros p n _ Hn. exists (n_ino n). by rewrite with_ino_same. }
  apply NoDup_cons in Hnd as [Hnew Hnd].
  destruct (AddGenerated t (g_path f) (g_generator f) (g_content f)) as [r t1] eqn:E. destruct r as [[]|e| ]; [|done|done].
  destruct (AddGenerated_text _ _ _ _ _ Hw E) as (Hw1 & Hv & [i Hi] & Hkeep).
  destruct (IH t1 Hw1 Hadd Hnd) as (Hw' & Hf & Hkeep'). split_and!; [done| |].
  - constructor; [|done]. split; [done|].
    destruct (Hkeep' (path_of (g_path f)) (with_ino i (generated_node (Base (g_path f)) (g_generator f) (g_content f) 0))) as [j Hj]; [|done|].
    + intros f' Hf' E'. apply Hnew. rewrite Forall_forall in Hf. destruct (Hf f' Hf') as [Hv' _].
      rewrite (path_of_inj _ _ Hv Hv' E'). by apply list_elem_of_fmap_2.
    + by exists j.
  - intros p n Hp Hn. destruct (Hkeep p n) as [j Hj]; [by apply Hp; left|done|].
    destruct (Hkeep' p (with_ino j n)) as [k Hk]; [|done|by exists k]. intros f' Hf'. apply Hp. by right.
Qed.

(** ** The generated paths are different *)

Definition instigator : bytes := str "__instigator".

Lemma fsName_slash p : p <> [] -> fsName (slash :: p) = p.
Proof. intros Hp. unfold fsName. cbn. by destruct p. Qed.

Section paths.
Context (name : bytes) (Hname : slash ∉ name).

Lemma els_under rest : split_byte slash (instigator ++ slash :: name ++ slash :: rest) = instigator :: name :: split_byte slash rest.
Proof.
  rewrite split_cons_slash by by apply (bool_decide_unpack _). f_equal. by rewrite split_cons_slash.
Qed.

Lemma els_start : split_byte slash (fsName (installStartPath name)) = [instigator; name; str "start.cmds"].
Proof. change (fsName _) with (instigator ++ slash :: name ++ slash :: str "start.cmds"). by rewrite els_under. Qed.

Lemma els_then : split_byte slash (fsName (installThenPath name)) = [instigator; name; str "then.cmds"].
Proof. change (fsName _) with (instigator ++ slash :: name ++ slash :: str "then.cmds"). by rewrite els_under. Qed.

Lemma els_then_start : split_byte slash (fsName (installThenStartPath name)) = [instigator; name; str "then"; str "start.cmds"].
Proof. change (fsName _) with (instigator ++ slash :: name ++ slash :: str "then/start.cmds"). by rewrite els_under. Qed.

Lemma els_post : split_byte slash (fsName (installPostPath name)) = [instigator; name; str "post-install.cmds"].
Proof. change (fsName _) with (instigator ++ slash :: name ++ slash :: str "post-install.cmds"). by rewrite els_under. Qed.

Lemma els_cmds : split_byte slash (name ++ str ".cmds") = [name ++ str ".cmds"].
Proof. apply split_no_slash. rewrite not_elem_of_app. split; [done|]. by apply (bool_decide_unpack _). Qed.
End paths.

(** The script whose file has these path elements. *)
Definition owner (els : list bytes) : option bytes :=
  match els with [] => None | [x] => CutSuffix x (str ".cmds") | _ :: n :: _ => Some n end.

Definition script_files (dists : list bytes) (server : bytes) (sc : InstallScript) : outcome Tree.error (list generatedFile) :=
  addScript server dists (sc_Name sc) (selection_of sc) (sc_Then sc) (sc_PostInstall sc).

(** The paths of a script's files. *)
Definition script_paths (sc : InstallScript) : list bytes :=
  let name := sc_Name sc in
  [name ++ str ".cmds"; fsName (installStartPath name)] ++
  (if sc_Then sc then [fsName (installThenPath name); fsName (installThenStartPath name)] else []) ++
  (if bool_decide (sc_PostInstall sc = []) then [] else [fsName (installPostPath name)]).

Lemma script_files_paths dists server sc files : script_files dists server sc = Ok files -> g_path <$> files = script_paths sc.
Proof.
  unfold script_files, addScript, script_paths. destruct (Commands _ _ _ _) as [body|e| ]; [|done|done]. cbn [mbind outcome_bind].
  intros <-%Ok_inj. rewrite !fmap_app. f_equal. f_equal; [by destruct (sc_Then sc)|].
  by destruct (bool_decide (sc_PostInstall sc = [])).
Qed.

Lemma script_paths_owner sc p : slash ∉ sc_Name sc -> p ∈ script_paths sc -> owner (split_byte slash p) = Some (sc_Name sc).
Proof.
  intros Hn. unfold script_paths. rewrite !elem_of_app. intros [Hp|[Hp|Hp]].
  - apply elem_of_cons in Hp as [->|Hp].
    + rewrite els_cmds by done. cbn. by rewrite CutSuffix_app.
    + apply list_elem_of_singleton in Hp as ->. by rewrite els_start by done.
  - destruct (sc_Then sc); [|by apply elem_of_nil in Hp].
    apply elem_of_cons in Hp as [->|Hp]; [by rewrite els_then by done|].
    apply list_elem_of_singleton in Hp as ->. by rewrite els_then_start by done.
  - case_bool_decide; [by apply elem_of_nil in Hp|]. apply list_elem_of_singleton in Hp as ->. by rewrite els_post by done.
Qed.

Lemma script_paths_NoDup sc : slash ∉ sc_Name sc -> NoDup (script_paths sc).
Proof.
  intros Hn. apply (NoDup_fmap_1 (split_byte slash)). unfold script_paths.
  rewrite !fmap_app. cbn [fmap list_fmap]. rewrite els_cmds, els_start by done.
  destruct (sc_Then sc); case_bool_decide; cbn [fmap list_fmap app];
    rewrite ?els_then, ?els_then_start, ?els_post by done;
    repeat (apply NoDup_cons; split; [intros Hin; repeat (apply elem_of_cons in Hin as [Hin|Hin]; [discriminate Hin|]); by apply elem_of_nil in Hin|]);
    apply NoDup_nil_2.
Qed.

Lemma scripts_paths_NoDup scripts : NoDup (sc_Name <$> scripts) -> Forall (fun sc => slash ∉ sc_Name sc) scripts ->
  NoDup (mjoin (script_paths <$> scripts)).
Proof.
  induction scripts as [|sc scripts IH]; intros Hnd Hf; [apply NoDup_nil_2|]. cbn [fmap list_fmap] in *.
  apply NoDup_cons in Hnd as [Hnew Hnd]. inversion Hf as [|? ? Hn Hf']; subst. rewrite mjoin_cons. apply NoDup_app.
  split_and!; [by apply script_paths_NoDup| |by apply IH].
  intros p Hp (l & Hin & (sc' & -> & Hsc)%list_elem_of_fmap)%list_elem_of_join. apply Hnew.
  rewrite Forall_forall in Hf'. pose proof (script_paths_owner _ _ (Hf' _ Hsc) Hin) as H1.
  pose proof (script_paths_owner _ _ Hn Hp) as H2. rewrite H1 in H2. injection H2 as <-. by apply list_elem_of_fmap_2.
Qed.

(** The files of a script by the end of their paths. *)
Lemma script_path_shape sc p : p ∈ script_paths sc -> p = sc_Name sc ++ str ".cmds" \/
  exists q e, p = q ++ slash :: e ++ str ".cmds" /\ e ∈ [str "start"; str "then"; str "post-install"].
Proof.
  assert (Hin : forall a x e, e ∈ [str "start"; str "then"; str "post-install"] ->
    exists q e', fsName (str "/__instigator/" ++ a ++ x ++ [slash] ++ e ++ str ".cmds") = q ++ slash :: e' ++ str ".cmds" /\
      e' ∈ [str "start"; str "then"; str "post-install"]).
  { intros a x e He. exists (str "__instigator/" ++ a ++ x), e. split; [|done].
    change (str "/__instigator/" ++ a ++ ?r) with (slash :: (str "__instigator/" ++ a ++ r)).
    rewrite fsName_slash by done. by rewrite <- !app_assoc. }
  unfold script_paths. rewrite !elem_of_app. intros [Hp|[Hp|Hp]].
  - apply elem_of_cons in Hp as [->|Hp]; [by left|]. right. apply list_elem_of_singleton in Hp as ->.
    apply (Hin _ [] (str "start")). by left.
  - right. destruct (sc_Then sc); [|by apply elem_of_nil in Hp]. apply elem_of_cons in Hp as [->|Hp].
    + apply (Hin _ [] (str "then")). right. by left.
    + apply list_elem_of_singleton in Hp as ->. apply (Hin _ (str "/then") (str "start")). by left.
  - right. case_bool_decide; [by apply elem_of_nil in Hp|]. apply list_elem_of_singleton in Hp as ->.
    apply (Hin _ [] (str "post-install")). right. right. by left.
Qed.

Lemma script_paths_cmds sc p : p ∈ script_paths sc -> exists q, p = q ++ str ".cmds".
Proof.
  intros [->|(q & e & -> & _)]%script_path_shape; [by eexists|]. exists (q ++ slash :: e). by rewrite <- app_assoc.
Qed.

(** The script of [install.cmds]. *)
Definition baseline : InstallScript := MkInstallScript (str "install") [] [] [] [] None [].

Definition related (primary : bytes) : bytes := primary ++ str "/dist/.related_dists".

Lemma related_not_script primary sc : related primary ∉ script_paths sc.
Proof.
  intros [q Hq]%script_paths_cmds. apply (f_equal reverse) in Hq. unfold related in Hq. rewrite !reverse_app in Hq.
  discriminate Hq.
Qed.

Lemma add_scripts_files server ds scripts files : add_scripts server ds scripts = Ok files ->
  g_path <$> files = mjoin (script_paths <$> scripts) /\
  Forall (fun sc => exists fs, script_files ds server sc = Ok fs /\ fs ⊆ files) scripts.
Proof.
  revert files. induction scripts as [|sc scripts IH]; intros files; cbn [add_scripts]; [by intros <-%Ok_inj|].
  fold (script_files ds server sc). destruct (script_files ds server sc) as [fs|e| ] eqn:E; [|done|done]. cbn [mbind outcome_bind].
  destruct (add_scripts server ds scripts) as [rest|e| ]; [|done|done]. cbn [mbind outcome_bind]. intros <-%Ok_inj.
  destruct (IH rest eq_refl) as [Hp Hf]. split.
  - by rewrite fmap_app, (script_files_paths _ _ _ _ E), Hp.
  - constructor; [exists fs; split; [done|]; intros f Hf'; apply elem_of_app; by left|].
    eapply Forall_impl; [exact Hf|]. cbn. intros sc' (fs' & Hfs' & Hsub). exists fs'. split; [done|].
    intros f Hf'. apply elem_of_app. right. by apply Hsub.
Qed.

(** What [generate] gives when a set is enabled. *)
Lemma generate_files cfg t p t' : generate cfg t = Ok (p, t') -> first_pass cfg <> [] ->
  let ds := dist_of <$> first_pass cfg in
  let server := AddrString (ServerIP cfg) in
  add_files t (generated p) = Ok t' /\
  (exists primary, g_path <$> generated p ≡ₚ related primary :: mjoin (script_paths <$> baseline :: InstallScripts cfg)) /\
  Forall (fun sc => exists fs, script_files ds server sc = Ok fs /\ fs ⊆ generated p) (baseline :: InstallScripts cfg).
Proof.
  unfold generate. destruct (first_pass cfg) as [|primary names]; [done|]. intros H _. cbn zeta.
  set (ds := dist_of <$> primary :: names) in *. set (server := AddrString (ServerIP cfg)) in *.
  change (addScript server ds (str "install") noSelection None []) with (script_files ds server baseline) in H.
  destruct (script_files ds server baseline) as [base|e| ] eqn:E; [|done|done]. cbn [mbind outcome_bind] in H.
  destruct (add_scripts server ds (InstallScripts cfg)) as [rest|e| ] eqn:Er; [|done|done]. cbn [mbind outcome_bind] in H.
  destruct (add_files t _) as [t1|e| ] eqn:Ea; [|done|done]. cbn [mbind outcome_bind] in H. injection H as <- <-. cbn [generated].
  destruct (add_scripts_files _ _ _ _ Er) as [Hp Hf]. split_and!; [done| |].
  - exists primary. rewrite fmap_app, (script_files_paths _ _ _ _ E). cbn [app]. rewrite fmap_cons, Hp, fmap_cons, mjoin_cons.
    cbn [g_path]. fold (related primary). by rewrite <- Permutation_middle.
  - constructor; [exists base; split; [done|]; intros f Hf'; apply elem_of_app; by left|].
    eapply Forall_impl; [exact Hf|]. cbn. intros sc' (fs' & Hfs' & Hsub). exists fs'. split; [done|].
    intros f Hf'. apply elem_of_app. right. right. by apply Hsub.
Qed.

(** ** The timed files by their paths *)

Definition is_timing (f : generatedFile) : bool := bool_decide (g_generator f = str "install-timing").

Lemma starts_snoc files f : starts_of (files ++ [f]) =
  if is_timing f then <[g_path f := Attempts.MkEntry (g_script f) (g_next f)]> (starts_of files) else starts_of files.
Proof. unfold starts_of. by rewrite fold_left_app. Qed.

Lemma starts_of_Some files k e : starts_of files !! k = Some e ->
  exists f, f ∈ files /\ is_timing f = true /\ g_path f = k /\ e = Attempts.MkEntry (g_script f) (g_next f).
Proof.
  induction files as [|f files IH] using rev_ind; [done|]. rewrite starts_snoc. intros H.
  destruct (is_timing f) eqn:E; [destruct (decide (g_path f = k)) as [<-|Hne]|].
  - rewrite lookup_insert_eq in H. injection H as <-. exists f. split_and!; [set_solver|done..].
  - rewrite lookup_insert_ne in H by done. destruct (IH H) as (f' & Hin & ?). exists f'. split; [set_solver|done].
  - destruct (IH H) as (f' & Hin & ?). exists f'. split; [set_solver|done].
Qed.

Lemma starts_of_in files f : NoDup (g_path <$> files) -> f ∈ files -> is_timing f = true ->
  starts_of files !! g_path f = Some (Attempts.MkEntry (g_script f) (g_next f)).
Proof.
  induction files as [|f' files IH] using rev_ind; intros Hnd Hin Ht; [by apply elem_of_nil in Hin|].
  rewrite fmap_app in Hnd. apply NoDup_app in Hnd as (Hnd & Hdis & _). rewrite starts_snoc.
  apply elem_of_app in Hin as [Hin| ->%list_elem_of_singleton].
  - destruct (is_timing f'); [|by apply IH]. rewrite lookup_insert_ne; [by apply IH|].
    intros E. apply (Hdis (g_path f)); [by apply list_elem_of_fmap_2|]. rewrite <- E. by left.
  - by rewrite Ht, lookup_insert_eq.
Qed.

Lemma starts_of_other files f : NoDup (g_path <$> files) -> f ∈ files -> is_timing f = false -> starts_of files !! g_path f = None.
Proof.
  intros Hnd Hin Ht. destruct (starts_of files !! g_path f) as [e|] eqn:E; [|done]. exfalso.
  apply starts_of_Some in E as (f' & Hin' & Ht' & Hp & _).
  apply list_elem_of_lookup in Hin as [i Hi], Hin' as [j Hj].
  assert (i = j) as ->.
  { eapply (NoDup_lookup _ _ _ (g_path f) Hnd); rewrite list_lookup_fmap; [by rewrite Hi|]. rewrite Hj. cbn. by rewrite Hp. }
  congruence.
Qed.

(** ** inst, reading command files *)

Lemma image_reader_whole text : fst (image_reader text 0 (zlen text)) = text.
Proof.
  unfold image_reader. change (0 <? 0) with false. pose proof (zlen_nonneg text).
  destruct ((zlen text <=? 0) && (0 <? zlen text)) eqn:E; [lia|]. cbn [fst]. by apply sub_all.
Qed.

(** [admin source] of this server: the rest of the line is a path. *)
Definition sourced (server l : bytes) : option bytes :=
  let pre := str "admin source " ++ server ++ str ":" in
  if HasPrefix l pre then Some (drop (length pre) l) else None.

Section client.
Context (t : Tree) (missing : Tree.error -> bool) (find_text : bytes -> find_err -> gerr).
Context (server : bytes) (starts : gmap bytes installEntry) (token : nat -> bytes) (client address : bytes).

(** A command file, read to its end over the shell. *)
Definition read_command (path : bytes) (c : conn) : option bytes * conn :=
  match cmd_Open t missing find_text server starts token client address path c with
  | (Ok f, c) =>
      let text := fst (f_ra f 0 (f_size f)) in
      (Some text, match f_obs f with
                  | Some o => with_scripts (Transferred (Z.to_nat o) 0 (zlen text) (c_now c) (c_scripts c)) c
                  | None => c
                  end)
  | (_, c) => (None, c)
  end.

(** The commands carried out: a line that sources a file stands for the file's. *)
Fixpoint run_lines (source : bytes -> conn -> option (list bytes * conn)) (ls : list bytes) (c : conn) : option (list bytes * conn) :=
  match ls with
  | [] => Some ([], c)
  | l :: ls =>
      '(done, c) ← match sourced server l with
                   | Some path => source path c
                   | None => Some ([l], c)
                   end;
      '(rest, c) ← run_lines source ls c;
      Some (done ++ rest, c)
  end.

(** [depth] files may be open at once. *)
Fixpoint source (depth : nat) (path : bytes) (c : conn) : option (list bytes * conn) :=
  match depth with
  | O => None
  | S depth =>
      match read_command path c with
      | (Some text, c) => run_lines (source depth) (raw_lines text) c
      | (None, _) => None
      end
  end.

Lemma source_step depth path c text c' : read_command path c = (Some text, c') ->
  source (S depth) path c = run_lines (source depth) (raw_lines text) c'.
Proof. intros H. cbn [source]. by rewrite H. Qed.

(** ** Lines and hand-offs *)

Definition plain (ls : list bytes) : Prop := Forall (fun l => sourced server l = None) ls.

Lemma run_plain src ls rest c : plain ls ->
  run_lines src (ls ++ rest) c = ('(done, c) ← run_lines src rest c; Some (ls ++ done, c)).
Proof.
  induction 1 as [|l ls Hl Hls IH]; cbn [app run_lines].
  - by destruct (run_lines src rest c) as [[d c']|].
  - rewrite Hl. cbn [mbind option_bind]. rewrite IH. by destruct (run_lines src rest c) as [[d c']|].
Qed.

Definition handoff (path : bytes) : bytes := str "admin source " ++ server ++ str ":" ++ path.

Lemma sourced_handoff path : sourced server (handoff path) = Some path.
Proof.
  unfold sourced, handoff. replace (str "admin source " ++ server ++ str ":" ++ path) with ((str "admin source " ++ server ++ str ":") ++ path)
    by by rewrite <- !app_assoc.
  assert (HasPrefix ((str "admin source " ++ server ++ str ":") ++ path) (str "admin source " ++ server ++ str ":") = true) as ->
    by (apply HasPrefix_spec; eauto). by rewrite drop_app_length.
Qed.

(** A line that starts with another letter sources nothing. *)
Lemma sourced_other x l : x <> 97 -> sourced server (x :: l) = None.
Proof.
  intros Hx. unfold sourced. destruct (HasPrefix _ _) eqn:E; [|done]. apply HasPrefix_spec in E as [r E].
  change (str "admin source ") with (97 :: str "dmin source ") in E. cbn [app] in E. congruence.
Qed.

Lemma sourced_empty : sourced server [] = None.
Proof. unfold sourced. destruct (HasPrefix _ _) eqn:E; [|done]. by apply HasPrefix_spec in E as [r E]. Qed.

(** A generated file of the tree that is not timed. *)
Lemma read_generated path text c : has_text t (fsName path) text -> in_tree starts path ->
  read_command path c = (Some text, c).
Proof.
  intros (i & Ho & Hs) Hin. unfold read_command. rewrite cmd_Open_tree by done. unfold open_tree. rewrite Ho. cbn [f_ra f_size f_obs].
  unfold ra_of, mem_handle. by rewrite Hs, image_reader_whole.
Qed.

Lemma source_generated depth path ls c : has_text t (fsName path) (unlines ls) -> in_tree starts path ->
  Forall (fun l => newline ∉ l) ls -> source (S depth) path c = run_lines (source depth) ls c.
Proof. intros Ht Hin Hls. cbn [source]. rewrite (read_generated _ _ _ Ht Hin). by rewrite raw_lines_unlines. Qed.

(** ** A timed go *)

Definition told (c : conn) : list Attempts.event := events (c_scripts c).

(** The next attempt's name. *)
Definition next_id (c : conn) : bytes := encode_hex (token (length (heap (c_scripts c)))).

Definition go_events (c : conn) (script : bytes) : list Attempts.event :=
  [InstallStart (next_id c) client script; InstallReturned (next_id c) client script 0].

(** What goes on from [c] to [c']: one attempt more, its events told, the clock where it was. *)
Definition one_attempt (script : bytes) (c c' : conn) : Prop :=
  told c' = told c ++ go_events c script /\ length (heap (c_scripts c')) = S (length (heap (c_scripts c))).

(** A timed file begins an attempt once it was read. *)
Lemma read_timed path entry c : starts !! fsName path = Some entry ->
  exists c', read_command path c = (Some (installGoCommands server (next_id c) (e_next entry)), c') /\
    told c' = told c ++ [InstallStart (next_id c) client (e_script entry)] /\
    c_now c' = c_now c /\ length (heap (c_scripts c')) = S (length (heap (c_scripts c))) /\
    attempts (c_scripts c') !! return_name (next_id c) = Some (length (heap (c_scripts c))) /\
    heap (c_scripts c') !! length (heap (c_scripts c)) =
      Some (MkAttempt (next_id c) (e_script entry) client address (c_now c) false).
Proof.
  intros Hs. unfold read_command, cmd_Open, Attempts.open. rewrite Hs. cbn -[installGoCommands Transferred image_reader zlen].
  rewrite Nat2Z.id, image_reader_whole. set (text := installGoCommands _ _ _).
  eexists. split; [reflexivity|]. unfold Transferred. cbn [files]. rewrite list_lookup_middle by done.
  cbn [f_len f_fired f_done]. rewrite !Z.eqb_refl. cbn [andb negb].
  unfold run_done. cbn [heap]. rewrite list_lookup_middle by done.
  unfold told. cbn [c_scripts with_scripts events c_now heap attempts a_id a_client a_script].
  split_and!; [done|done|rewrite length_alter, length_app; cbn; lia|by rewrite lookup_insert_eq|].
  rewrite list_lookup_alter_eq, list_lookup_middle by done. done.
Qed.

(** The file that reports the return is read once the attempt has started. *)
Lemma read_return id i a c : starts !! return_name id = None ->
  attempts (c_scripts c) !! return_name id = Some i -> heap (c_scripts c) !! i = Some a ->
  a_address a = address -> a_returned a = false ->
  exists c', read_command (installReturnPath id) c = (Some [newline], c') /\
    told c' = told c ++ [InstallReturned (a_id a) (a_client a) (a_script a) (Z.quot (c_now c - a_start a) 1000000)] /\
    length (heap (c_scripts c')) = length (heap (c_scripts c)).
Proof.
  intros Hs Hat Hh Ha Hr. unfold read_command, cmd_Open, Attempts.open. fold (return_name id). rewrite Hs.
  assert (HasPrefix (return_name id) installReturnPrefix = true) as ->.
  { apply HasPrefix_spec. eexists. apply return_name_spelled. }
  unfold findReturn. rewrite Hat. cbn [mbind option_bind]. rewrite Hh. cbn [mbind option_bind]. rewrite bool_decide_true by done.
  cbn -[Transferred image_reader zlen]. rewrite Nat2Z.id, image_reader_whole. eexists. split; [reflexivity|]. unfold Transferred. cbn [files].
  rewrite list_lookup_middle by done. cbn [f_len f_fired f_done]. rewrite !Z.eqb_refl. cbn [andb negb].
  unfold run_done. cbn [heap]. rewrite Hh, Hr. unfold told. cbn [c_scripts with_scripts events c_now heap].
  by rewrite length_alter.
Qed.

Lemma next_id_line c : newline ∉ next_id c.
Proof.
  unfold next_id, encode_hex. intros (l & Hl & (b & -> & _)%list_elem_of_fmap)%list_elem_of_join. revert Hl.
  apply hex_no. unfold newline. lia.
Qed.

(** Timing: the go is carried out, its return is told, and what follows is sourced. *)
Lemma source_timed depth path entry c : starts !! fsName path = Some entry -> (forall id, starts !! return_name id = None) ->
  newline ∉ server -> newline ∉ e_next entry ->
  exists c', one_attempt (e_script entry) c c' /\
    source (S (S depth)) path c =
      if bool_decide (e_next entry = []) then Some ([str "go"; []], c')
      else '(rest, c2) ← source (S depth) (e_next entry) c'; Some ([str "go"; []] ++ rest, c2).
Proof.
  intros Hs Hret Hserver Hnext. destruct (read_timed path entry c Hs) as (c1 & Hr1 & Ht1 & Hn1 & Hl1 & Ha1 & Hh1).
  destruct (read_return (next_id c) _ _ c1 (Hret _) Ha1 Hh1 eq_refl eq_refl) as (c2 & Hr2 & Ht2 & Hl2).
  cbn [a_id a_client a_script a_start] in Ht2. rewrite Hn1, Z.sub_diag in Ht2. change (Z.quot 0 1000000) with 0 in Ht2.
  exists c2. split; [split; [by rewrite Ht2, Ht1, <- app_assoc|congruence]|].
  rewrite (source_step _ _ _ _ _ Hr1). set (ls := [str "go"; handoff (installReturnPath (next_id c))] ++
    (if bool_decide (e_next entry = []) then [] else [handoff (e_next entry)])).
  assert (Htext : installGoCommands server (next_id c) (e_next entry) = unlines ls).
  { unfold ls, installGoCommands, admin_source, unlines, handoff. case_bool_decide; cbn -[str installReturnPath];
      rewrite ?app_nil_r, <- !app_assoc; done. }
  rewrite Htext, raw_lines_unlines.
  2:{ assert (Hh : forall p, newline ∉ p -> newline ∉ handoff p).
      { intros p Hp. unfold handoff. rewrite !not_elem_of_app. split_and!; try done; by apply (bool_decide_unpack _). }
      unfold ls. apply Forall_app. split.
      - constructor; [by apply (bool_decide_unpack _)|]. constructor; [|done]. apply Hh. unfold installReturnPath.
        rewrite !not_elem_of_app. split_and!; try apply next_id_line; by apply (bool_decide_unpack _).
      - case_bool_decide; [done|]. constructor; [by apply Hh|done]. }
  unfold ls. cbn [app run_lines]. assert (sourced server (str "go") = None) as -> by by apply (sourced_other 103).
  cbn [mbind option_bind]. rewrite sourced_handoff.
  rewrite (source_step _ _ _ _ _ Hr2). change (raw_lines [newline]) with [@nil Z]. cbn [run_lines]. rewrite sourced_empty. cbn [mbind option_bind app].
  case_bool_decide; [done|]. cbn [run_lines]. rewrite sourced_handoff.
  destruct (source (S depth) (e_next entry) c2) as [[rest c3]|]; cbn [mbind option_bind]; [|done]. by rewrite app_nil_r.
Qed.
End client.

(** ** What a script carries out *)

Definition opening (server set : bytes) : bytes := str "open " ++ server ++ str ":" ++ set.

(** The lines of the first pass before its go: the other sets, the first one again, and
    what is selected. *)
Definition first_lines (server : bytes) (ds : list bytes) (sel : Selection) : list bytes :=
  (opening server <$> tail ds) ++ (opening server <$> take 1 ds) ++
  (if bool_decide (Stream sel = str "maintenance") then [str "install maint"] else []) ++
  [str "keep *"; str "install standard"; str "keep java_dev.sw.base"] ++
  ((fun s => str "install " ++ s) <$> sel_Install sel) ++ ((fun s => str "keep " ++ s) <$> sel_Keep sel) ++
  ((fun s => str "remove " ++ s) <$> sel_Remove sel).

Definition then_lines (server : bytes) (th : ThenPass) : list bytes :=
  (opening server <$> (dist_of <$> th_Sets th)) ++ [str "keep *"] ++ ((fun s => str "install " ++ s) <$> th_Install th).

Definition post_lines (cmds : list bytes) : list bytes :=
  [str "set shell /bin/sh"] ++ ((fun c => str "shroot " ++ c) <$> cmds) ++ [str "set shell /bin/csh"; str "sh echo " ++ PostInstallDone].

(** A go, and the empty line that is read for its return. *)
Definition go_lines : list bytes := [str "go"; []].

Definition carried_out (server : bytes) (ds : list bytes) (sc : InstallScript) : list bytes :=
  first_lines server ds (selection_of sc) ++ go_lines ++
  (match sc_Then sc with Some th => then_lines server th ++ go_lines | None => [] end) ++
  (if bool_decide (sc_PostInstall sc = []) then [] else post_lines (sc_PostInstall sc)).

(** The passes that are timed. *)
Definition passes (sc : InstallScript) : list bytes :=
  [sc_Name sc ++ str ".cmds"] ++ (if sc_Then sc then [sc_Name sc ++ str ".cmds then"] else []).

Fixpoint attempted (token : nat -> bytes) (client : bytes) (scripts : list bytes) (c c' : conn) : Prop :=
  match scripts with
  | [] => c' = c
  | s :: scripts => exists c1, one_attempt token client s c c1 /\ attempted token client scripts c1 c'
  end.

(** *** The texts are these lines *)

Lemma unlines_cons l ls : unlines (l :: ls) = line l ++ unlines ls.
Proof. unfold unlines. by rewrite fmap_cons, mjoin_cons. Qed.

Lemma unlines_fmap {A} (f : A -> bytes) xs : unlines (f <$> xs) = mjoin ((fun x => line (f x)) <$> xs).
Proof. unfold unlines. by rewrite <- list_fmap_compose. Qed.

Lemma unlines_one l : unlines [l] = line l.
Proof. rewrite unlines_cons. apply app_nil_r. Qed.

Lemma Commands_lines server ds sel start body : start <> [] -> Commands server ds sel start = Ok body ->
  body = unlines (first_lines server ds sel ++ [handoff server start]).
Proof.
  intros Hs. unfold Commands. destruct ds as [|d rest]; [done|]. intros <-%Ok_inj. unfold first_lines, go_on.
  rewrite (bool_decide_false (start = [])) by done. cbn [tail take fmap list_fmap].
  rewrite !unlines_app, !unlines_fmap, !unlines_one, !unlines_cons. rewrite <- !app_assoc. unfold open_line, opening, handoff.
  destruct (bool_decide (Stream sel = _)); [by rewrite unlines_one|done].
Qed.

Lemma ThenCommands_lines server th start : start <> [] ->
  ThenCommands server (dist_of <$> th_Sets th) (th_Install th) start = unlines (then_lines server th ++ [handoff server start]).
Proof.
  intros Hs. unfold ThenCommands, then_lines, go_on. rewrite (bool_decide_false (start = [])) by done.
  rewrite !unlines_app, !unlines_fmap, !unlines_one. by rewrite <- !app_assoc.
Qed.

Lemma PostInstallCommands_lines cmds : PostInstallCommands cmds = unlines (post_lines cmds).
Proof. unfold PostInstallCommands, post_lines. rewrite !unlines_app, !unlines_cons, unlines_fmap. by rewrite app_nil_r. Qed.

(** *** No line sources another file, and every line is one *)

Lemma fmap_plain server c (f : bytes -> bytes) xs : c <> 97 -> (forall x, exists l, f x = c :: l) -> plain server (f <$> xs).
Proof. intros Hc Hf. apply Forall_fmap, Forall_true. intros x. destruct (Hf x) as [l Hl]. cbn. rewrite Hl. by apply sourced_other. Qed.

Lemma first_plain server ds sel : plain server (first_lines server ds sel).
Proof.
  unfold plain, first_lines. rewrite !Forall_app. split_and!.
  - apply (fmap_plain server 111); [done|]. intros x. by eexists.
  - apply (fmap_plain server 111); [done|]. intros x. by eexists.
  - case_bool_decide; [|done]. constructor; [by apply (sourced_other server 105)|done].
  - apply Forall_cons_2; [by apply (sourced_other server 107)|].
    apply Forall_cons_2; [by apply (sourced_other server 105)|]. apply Forall_cons_2; [by apply (sourced_other server 107)|done].
  - apply (fmap_plain server 105); [done|]. intros x. by eexists.
  - apply (fmap_plain server 107); [done|]. intros x. by eexists.
  - apply (fmap_plain server 114); [done|]. intros x. by eexists.
Qed.

Lemma then_plain server th : plain server (then_lines server th).
Proof.
  unfold plain, then_lines. rewrite !Forall_app. split_and!.
  - apply (fmap_plain server 111); [done|]. intros x. by eexists.
  - constructor; [by apply (sourced_other server 107)|done].
  - apply (fmap_plain server 105); [done|]. intros x. by eexists.
Qed.

Lemma post_plain server cmds : plain server (post_lines cmds).
Proof.
  unfold plain, post_lines. rewrite !Forall_app. split_and!.
  - constructor; [by apply (sourced_other server 115)|done].
  - apply (fmap_plain server 115); [done|]. intros x. by eexists.
  - apply Forall_cons_2; [by apply (sourced_other server 115)|]. apply Forall_cons_2; [by apply (sourced_other server 115)|done].
Qed.

(** A line of the file. *)
Definition one (l : bytes) : Prop := newline ∉ l.

Lemma one_app a b : one a -> one b -> one (a ++ b).
Proof. unfold one. rewrite not_elem_of_app. done. Qed.

Ltac one_const := apply (bool_decide_unpack _); vm_compute; exact I.

Lemma one_fmap (f : bytes -> bytes) xs : (forall x, one x -> one (f x)) -> Forall one xs -> Forall one (f <$> xs).
Proof. intros Hf Hx. apply Forall_fmap. eapply Forall_impl; [exact Hx|]. exact Hf. Qed.

Lemma one_opening server set : one server -> one set -> one (opening server set).
Proof. intros H1 H2. unfold opening. repeat apply one_app; try done; one_const. Qed.

Lemma one_handoff server path : one server -> one path -> one (handoff server path).
Proof. intros H1 H2. unfold handoff. repeat apply one_app; try done; one_const. Qed.

Lemma one_dist set : one set -> one (dist_of set).
Proof. intros H. unfold dist_of. repeat apply one_app; try done; one_const. Qed.

Lemma first_one server ds sel : one server -> Forall one ds -> Forall one (sel_Install sel ++ sel_Keep sel ++ sel_Remove sel) ->
  Forall one (first_lines server ds sel).
Proof.
  intros Hs Hd Hsel. rewrite !Forall_app in Hsel. destruct Hsel as (H1 & H2 & H3).
  unfold first_lines. rewrite !Forall_app. split_and!.
  - apply one_fmap; [intros; by apply one_opening|]. destruct ds; [done|]. by inversion Hd.
  - apply one_fmap; [intros; by apply one_opening|]. by apply Forall_take.
  - case_bool_decide; [|done]. constructor; [one_const|done].
  - repeat constructor; one_const.
  - apply one_fmap; [|done]. intros x Hx. apply one_app; [one_const|done].
  - apply one_fmap; [|done]. intros x Hx. apply one_app; [one_const|done].
  - apply one_fmap; [|done]. intros x Hx. apply one_app; [one_const|done].
Qed.

Lemma then_one server th : one server -> Forall one (th_Sets th) -> Forall one (th_Install th) -> Forall one (then_lines server th).
Proof.
  intros Hs Hd Hi. unfold then_lines. rewrite !Forall_app. split_and!.
  - apply one_fmap; [intros; by apply one_opening|]. apply one_fmap; [|done]. apply one_dist.
  - constructor; [one_const|done].
  - apply one_fmap; [|done]. intros x Hx. apply one_app; [one_const|done].
Qed.

Lemma post_one cmds : Forall one cmds -> Forall one (post_lines cmds).
Proof.
  intros H. unfold post_lines. rewrite !Forall_app. split_and!.
  - constructor; [one_const|done].
  - apply one_fmap; [|done]. intros x Hx. apply one_app; [one_const|done].
  - repeat constructor; one_const.
Qed.

(** ** The hand-offs are served *)

(** The names of a configuration that go into command files are lines, and no script's
    files are where the reports of returns are. *)
Record spellable (cfg : Config) : Prop := {
  sp_server : one (zone (ServerIP cfg));
  sp_sets : Forall (fun s => one (is_Name s)) (InstallSets cfg);
  sp_scripts : Forall (fun sc => one (sc_Name sc) /\ sc_Name sc <> str "attempts") (InstallScripts cfg);
}.

(** What a script of the configuration, or the baseline, is. *)
Record script_fit (cfg : Config) (sc : InstallScript) : Prop := {
  sf_slash : slash ∉ sc_Name sc;
  sf_one : one (sc_Name sc);
  sf_attempts : sc_Name sc <> str "attempts";
  sf_tokens : Forall one (sc_Install sc ++ sc_Keep sc ++ sc_Remove sc);
  sf_then th : sc_Then sc = Some th -> Forall one (th_Sets th) /\ Forall one (th_Install th);
  sf_post : Forall one (sc_PostInstall sc);
}.

Lemma scripts_fit cfg : config_ok cfg -> spellable cfg -> Forall (script_fit cfg) (baseline :: InstallScripts cfg).
Proof.
  intros [_ [_ Hok] _ _] [_ Hsets Hsc]. constructor.
  { split; try (by intros); try one_const; try apply Forall_nil_2. }
  apply Forall_forall. intros sc Hin. rewrite Forall_forall in Hok, Hsc. destruct (Hok sc Hin) as [[Hn _] _ Htok Hthen Hpost].
  destruct (Hsc sc Hin) as [Hone Hat]. split; [apply Hn|done|done| | |].
  - eapply Forall_impl; [exact Htok|]. by intros x [_ [H _]].
  - intros th Hth. destruct (Hthen th Hth) as (_ & _ & Hi & Hs). split; [|eapply Forall_impl; [exact Hi|]; by intros x [_ [H _]]].
    eapply Forall_impl; [exact Hs|]. cbn. intros name (s & Hs' & <- & _). rewrite Forall_forall in Hsets. by apply Hsets.
  - eapply Forall_impl; [exact Hpost|]. by intros x [_ [H _]].
Qed.

Lemma script_names_NoDup cfg : config_ok cfg -> NoDup (sc_Name <$> baseline :: InstallScripts cfg).
Proof.
  intros [_ [Hnd Hok] _ _]. rewrite fmap_cons. apply NoDup_cons. split; [|done].
  intros (sc & Hsc & Hin)%list_elem_of_fmap. rewrite Forall_forall in Hok. destruct (Hok sc Hin) as [[_ Hne] _ _ _ _].
  by rewrite <- Hsc in Hne.
Qed.

(** No script's file has the name of a report. *)
Lemma return_not_script id sc : slash ∉ sc_Name sc -> return_name id ∉ script_paths sc.
Proof.
  intros Hs [H|(q & e & H & He)]%script_path_shape; rewrite return_name_spelled in H.
  - assert (Hin : slash ∈ sc_Name sc ++ str ".cmds").
    { rewrite <- H. apply elem_of_app. left. apply (bool_decide_unpack _). vm_compute. exact I. }
    apply elem_of_app in Hin as [|Hin]; [done|]. revert Hin. by apply (bool_decide_unpack _).
  - repeat (apply elem_of_cons in He as [->|He]); [..|by apply elem_of_nil in He];
      apply (f_equal reverse) in H; rewrite !reverse_app, reverse_cons, !reverse_app in H; discriminate H.
Qed.

Section hand_offs.
Context (cfg : Config) (Hcfg : config_ok cfg) (Hsp : spellable cfg) (Henabled : first_pass cfg <> []).
Context (t t' : Tree) (p : profile) (Hw : wf (t_nodes t)) (Hgen : generate cfg t = Ok (p, t')).

Let ds := dist_of <$> first_pass cfg.
Let server := AddrString (ServerIP cfg).
Let starts := starts_of (generated p).

Lemma generated_NoDup : NoDup (g_path <$> generated p).
Proof.
  destruct (generate_files _ _ _ _ Hgen Henabled) as (_ & (primary & Hp) & _). rewrite Hp.
  pose proof (scripts_fit _ Hcfg Hsp) as Hfit. apply NoDup_cons. split.
  - intros (l & Hin & (sc & -> & _)%list_elem_of_fmap)%list_elem_of_join. by apply related_not_script in Hin.
  - apply scripts_paths_NoDup; [by apply script_names_NoDup|]. eapply Forall_impl; [exact Hfit|]. by intros sc [].
Qed.

Lemma return_no_start id : starts !! return_name id = None.
Proof.
  destruct (starts !! return_name id) as [e|] eqn:E; [|done]. exfalso. apply starts_of_Some in E as (f & Hf & _ & Hp & _).
  destruct (generate_files _ _ _ _ Hgen Henabled) as (_ & (primary & Hperm) & _).
  assert (Hin : return_name id ∈ g_path <$> generated p) by (rewrite <- Hp; by apply list_elem_of_fmap_2).
  rewrite Hperm in Hin. apply elem_of_cons in Hin as [Hr|(l & Hin & (sc & -> & Hsc)%list_elem_of_fmap)%list_elem_of_join].
  - rewrite return_name_spelled in Hr. apply (f_equal reverse) in Hr. unfold related in Hr. rewrite !reverse_app in Hr. discriminate Hr.
  - revert Hin. apply return_not_script. pose proof (scripts_fit _ Hcfg Hsp) as Hfit. rewrite Forall_forall in Hfit. by apply Hfit.
Qed.

(** A file of the tree that is generated: its text, and whether it is timed. *)
Lemma generated_served f : f ∈ generated p -> has_text t' (g_path f) (g_content f).
Proof.
  intros Hf. destruct (generate_files _ _ _ _ Hgen Henabled) as (Hadd & _ & _).
  destruct (add_files_text _ _ _ Hw Hadd generated_NoDup) as (Hw' & Hall & _).
  apply generated_at_text; [done|]. rewrite Forall_forall in Hall. by apply Hall.
Qed.

Lemma untimed_in_tree f path : f ∈ generated p -> is_timing f = false -> fsName path = g_path f ->
  HasPrefix (g_path f) installReturnPrefix = false -> in_tree starts path.
Proof. intros Hf Ht Hp Hpre. split; rewrite Hp; [|done]. by apply starts_of_other, Ht; [apply generated_NoDup|]. Qed.

(** A script's name is not where the reports are. *)
Lemma not_a_return name rest : slash ∉ name -> name <> str "attempts" ->
  HasPrefix (instigator ++ slash :: name ++ slash :: rest) installReturnPrefix = false.
Proof.
  intros Hs Hn. destruct (HasPrefix _ _) eqn:E; [|done]. exfalso. apply HasPrefix_spec in E as [r E].
  apply (f_equal (split_byte slash)) in E. rewrite els_under in E by done.
  change (installReturnPrefix ++ r) with (instigator ++ slash :: str "attempts" ++ slash :: r) in E.
  rewrite els_under in E by by apply (bool_decide_unpack _). by injection E.
Qed.

Lemma cmds_not_a_return name : slash ∉ name -> HasPrefix (name ++ str ".cmds") installReturnPrefix = false.
Proof.
  intros Hs. destruct (HasPrefix _ _) eqn:E; [|done]. exfalso. apply HasPrefix_spec in E as [r E].
  assert (Hin : slash ∈ name ++ str ".cmds").
  { rewrite E. apply elem_of_app. left. apply (bool_decide_unpack _). vm_compute. exact I. }
  apply elem_of_app in Hin as [|Hin]; [done|]. revert Hin. by apply (bool_decide_unpack _).
Qed.

(** *** Following them *)

Context (missing : Tree.error -> bool) (find_text : bytes -> find_err -> gerr) (token : nat -> bytes) (client address : bytes).

Notation src := (source t' missing find_text server starts token client address).

Lemma source_on depth path ls next c : has_text t' (fsName path) (unlines (ls ++ [handoff server next])) -> in_tree starts path ->
  Forall one ls -> one server -> one next -> plain server ls ->
  src (S depth) path c = ('(done, c') ← src depth next c; Some (ls ++ done, c')).
Proof.
  intros Ht Hin Hls Hs Hn Hp. rewrite (source_generated _ _ _ _ _ _ _ _ _ _ _ _ Ht Hin).
  2:{ apply Forall_app. split; [done|]. constructor; [by apply one_handoff|done]. }
  rewrite run_plain by done. cbn [run_lines]. rewrite sourced_handoff.
  destruct (src depth next c) as [[d c']|]; cbn [mbind option_bind]; [|done]. by rewrite app_nil_r.
Qed.

Lemma source_last depth path ls c : has_text t' (fsName path) (unlines ls) -> in_tree starts path ->
  Forall one ls -> plain server ls -> src (S depth) path c = Some (ls, c).
Proof.
  intros Ht Hin Hls Hp. rewrite (source_generated _ _ _ _ _ _ _ _ _ _ _ _ Ht Hin Hls).
  rewrite <- (app_nil_r ls) at 1. rewrite run_plain by done. cbn. by rewrite app_nil_r.
Qed.

(** A timed file, and what it leads to. *)
Lemma source_go depth path script next content c : MkGenerated (fsName path) (str "install-timing") content script next ∈ generated p ->
  one server -> one next ->
  exists c', one_attempt token client script c c' /\
    src (S (S depth)) path c =
      if bool_decide (next = []) then Some (go_lines, c') else '(rest, c2) ← src (S depth) next c'; Some (go_lines ++ rest, c2).
Proof.
  intros Hf Hs Hn. pose proof (starts_of_in _ _ generated_NoDup Hf eq_refl) as Hst.
  exact (source_timed t' missing find_text server starts token client address depth path _ c Hst return_no_start Hs Hn).
Qed.

Lemma server_one : one server.
Proof. apply AddrString_line, Hsp. Qed.

Lemma dists_one : Forall one ds.
Proof.
  apply Forall_fmap. unfold first_pass. apply Forall_fmap. apply Forall_forall. intros s [_ Hs]%list_elem_of_filter.
  apply one_dist. pose proof (sp_sets _ Hsp) as H. rewrite Forall_forall in H. by apply H.
Qed.

Lemma one_under name rest : one name -> one rest -> one (str "/__instigator/" ++ name ++ rest).
Proof. intros H1 H2. repeat apply one_app; try done. one_const. Qed.

(** What comes after a script's last go, and after its first. *)
Definition last_path (sc : InstallScript) : bytes := if bool_decide (sc_PostInstall sc = []) then [] else installPostPath (sc_Name sc).
Definition next_path (sc : InstallScript) : bytes := match sc_Then sc with Some _ => installThenPath (sc_Name sc) | None => last_path sc end.

(** The files of a script are among those generated. *)
Record script_there (sc : InstallScript) : Prop := {
  st_cmds : MkGenerated (sc_Name sc ++ str ".cmds") (str "admin-source")
    (unlines (first_lines server ds (selection_of sc) ++ [handoff server (installStartPath (sc_Name sc))])) [] [] ∈ generated p;
  st_start : timing server (installStartPath (sc_Name sc)) (sc_Name sc ++ str ".cmds") (next_path sc) ∈ generated p;
  st_then th : sc_Then sc = Some th ->
    MkGenerated (fsName (installThenPath (sc_Name sc))) (str "admin-source-then")
      (unlines (then_lines server th ++ [handoff server (installThenStartPath (sc_Name sc))])) [] [] ∈ generated p /\
    timing server (installThenStartPath (sc_Name sc)) (sc_Name sc ++ str ".cmds then") (last_path sc) ∈ generated p;
  st_post : sc_PostInstall sc <> [] ->
    MkGenerated (fsName (installPostPath (sc_Name sc))) (str "admin-source-post-install")
      (unlines (post_lines (sc_PostInstall sc))) [] [] ∈ generated p;
}.

Lemma script_is_there sc : sc ∈ baseline :: InstallScripts cfg -> script_there sc.
Proof.
  intros Hsc. destruct (generate_files _ _ _ _ Hgen Henabled) as (_ & _ & Hfiles). rewrite Forall_forall in Hfiles.
  destruct (Hfiles sc Hsc) as (fs & Hfs & Hsub). clear Hfiles. unfold script_files, addScript in Hfs. fold ds server in Hfs.
  destruct (Commands server ds (selection_of sc) (installStartPath (sc_Name sc))) as [body|e| ] eqn:Ebody; [|done|done].
  apply Commands_lines in Ebody; [|done]. cbn [mbind outcome_bind] in Hfs. apply Ok_inj in Hfs. subst fs body.
  fold (last_path sc) in Hsub. fold (next_path sc) in Hsub. split.
  - apply Hsub. by left.
  - apply Hsub. right. by left.
  - intros th Hth. rewrite Hth in Hsub. rewrite <- ThenCommands_lines by done.
    split; apply Hsub; rewrite !elem_of_app; right; left; [by left|right; by left].
  - intros Hpost. apply Hsub. rewrite !elem_of_app. right. right.
    assert (last_path sc = installPostPath (sc_Name sc)) as -> by (unfold last_path; by rewrite bool_decide_false).
    rewrite (bool_decide_false (installPostPath _ = [])), PostInstallCommands_lines by done. by left.
Qed.

(** The lines after the last go. *)
Definition post_part (sc : InstallScript) : list bytes :=
  if bool_decide (sc_PostInstall sc = []) then [] else post_lines (sc_PostInstall sc).

(** A timed file after which the script is at its end. *)
Lemma source_last_go depth path script sc c : script_fit cfg sc -> script_there sc ->
  timing server path script (last_path sc) ∈ generated p ->
  exists c', one_attempt token client script c c' /\ src (S (S depth)) path c = Some (go_lines ++ post_part sc, c').
Proof.
  intros [Hslash Hone Hat _ _ Hpost] Hthere Hf. unfold last_path, post_part in *.
  destruct (source_go depth path _ _ _ c Hf server_one) as (c' & Ha & ->).
  { case_bool_decide; [apply not_elem_of_nil|]. apply one_under; [done|one_const]. }
  exists c'. split; [done|]. destruct (bool_decide (sc_PostInstall sc = [])) eqn:E; [done|]. apply bool_decide_eq_false in E.
  rewrite bool_decide_false by done. pose proof (st_post _ Hthere E) as Hf'. pose proof (generated_served _ Hf') as Ht.
  rewrite (source_last depth _ _ c' Ht); [done| |by apply post_one|apply post_plain].
  eapply untimed_in_tree; [exact Hf'|done|done|]. exact (not_a_return _ (str "post-install.cmds") Hslash Hat).
Qed.

(** The second pass and what follows it. *)
Lemma source_then depth sc th c : script_fit cfg sc -> script_there sc -> sc_Then sc = Some th ->
  exists c', one_attempt token client (sc_Name sc ++ str ".cmds then") c c' /\
    src (S (S (S depth))) (installThenPath (sc_Name sc)) c = Some (then_lines server th ++ go_lines ++ post_part sc, c').
Proof.
  intros Hfit Hthere Hth. destruct (st_then _ Hthere th Hth) as [Hf Hgo].
  destruct (source_last_go depth _ _ sc c Hfit Hthere Hgo) as (c' & Ha & Hsrc). exists c'. split; [done|].
  pose proof Hfit as [Hslash Hone Hat _ Hthen _]. destruct (Hthen th Hth) as [Hs Hi].
  rewrite (source_on _ _ _ _ c (generated_served _ Hf)), Hsrc; [done| |by apply then_one, Hi; [apply server_one|]|apply server_one| |apply then_plain].
  - eapply untimed_in_tree; [exact Hf|done|done|]. exact (not_a_return _ (str "then.cmds") Hslash Hat).
  - apply one_under; [done|one_const].
Qed.

(** A script of the configuration is carried out as it is configured: from the file
    the operator names, the passes and the commands after them, in order, each go timed
    from the reading of its file to its return. *)
Lemma script_followed sc c : sc ∈ baseline :: InstallScripts cfg ->
  exists c', attempted token client (passes sc) c c' /\
    src 5 ([slash] ++ sc_Name sc ++ str ".cmds") c = Some (carried_out server ds sc, c').
Proof.
  intros Hsc. pose proof (scripts_fit _ Hcfg Hsp) as Hfit. rewrite Forall_forall in Hfit. specialize (Hfit sc Hsc).
  pose proof (script_is_there sc Hsc) as Hthere. pose proof Hfit as [Hslash Hone Hat Htok _ _].
  assert (Hpath : fsName ([slash] ++ sc_Name sc ++ str ".cmds") = sc_Name sc ++ str ".cmds") by (apply fsName_slash; by destruct (sc_Name sc)).
  assert (Hin : in_tree starts ([slash] ++ sc_Name sc ++ str ".cmds")).
  { eapply untimed_in_tree; [exact (st_cmds _ Hthere)|done|exact Hpath|by apply cmds_not_a_return]. }
  pose proof (generated_served _ (st_cmds _ Hthere)) as Ht. cbn [g_path g_content] in Ht. rewrite <- Hpath in Ht.
  rewrite (source_on 4 _ _ _ c Ht Hin); [|apply first_one; [apply server_one|apply dists_one|done]|apply server_one|apply one_under; [done|one_const]|apply first_plain].
  unfold carried_out, passes. fold (post_part sc). destruct (sc_Then sc) as [th|] eqn:Hth.
  - pose proof (st_start _ Hthere) as Hstart. unfold next_path in Hstart. rewrite Hth in Hstart.
    destruct (source_go 2 _ _ _ _ c Hstart server_one) as (c1 & Ha1 & ->); [apply one_under; [done|one_const]|].
    destruct (source_then 0 sc th c1 Hfit Hthere Hth) as (c2 & Ha2 & Hs2).
    exists c2. split; [exists c1; split; [done|]; by exists c2|].
    rewrite bool_decide_false, Hs2 by done. cbn [mbind option_bind]. by rewrite <- !app_assoc.
  - pose proof (st_start _ Hthere) as Hstart. unfold next_path in Hstart. rewrite Hth in Hstart.
    destruct (source_last_go 2 _ _ sc c Hfit Hthere Hstart) as (c1 & Ha1 & ->).
    exists c1. split; [by exists c1|]. cbn [mbind option_bind app]. done.
Qed.
End hand_offs.

(** C4. In an accepted configuration that has an enabled set which is no add-on, when the names that
    go into the command files are single lines ([spellable]: the server's zone, the names of
    the sets and of the scripts) and no script is called [attempts], and the files could be
    generated into a well-formed tree: whatever script the operator loads, the machine
    carries out what is configured for it, and nothing else: the sets opened in order and the first one again, the
    selections, go; the second pass on its add-on sets, go; the commands in the
    installed system. Every hand-off from file to file is served, five files deep, and
    each go is told from the reading of its file to its return. *)
Theorem script_installs cfg t p t' missing find_text token client address sc c :
  config_ok cfg -> spellable cfg -> first_pass cfg <> [] -> wf (t_nodes t) -> generate cfg t = Ok (p, t') ->
  sc ∈ baseline :: InstallScripts cfg ->
  exists c', attempted token client (passes sc) c c' /\
    source t' missing find_text (AddrString (ServerIP cfg)) (starts_of (generated p)) token client address 5
      ([slash] ++ sc_Name sc ++ str ".cmds") c =
    Some (carried_out (AddrString (ServerIP cfg)) (dist_of <$> first_pass cfg) sc, c').
Proof. intros Hcfg Hsp Hen Hw Hgen Hsc. exact (script_followed cfg Hcfg Hsp Hen t t' p Hw Hgen _ _ _ _ _ sc c Hsc). Qed.

(** ** A configuration at work *)

Definition demo_layer : Layer := Config.MkLayer (str "cd") (str "/media/cd.img") [] [] [] true.

Definition demo_raw (script : bytes) : raw :=
  MkRaw (str "10.0.0.1") [] [] [MkRawClient (str "octane") (str "08:00:69:01:02:03") (str "10.0.0.2") (str "octane")] [] []
    [str "mips.yaml"]
    [MkRawSet (str "base") None false [demo_layer] ∅ ∅ []; MkRawSet (str "over") None false [demo_layer] ∅ ∅ [str "base"]]
    [MkRawScript script [str "eoe.sw"] [] [str "fonts"] (str "maintenance") None [str "ls"]] None None.

Definition demo_addon : rawAddon := MkRawAddon (str "mips") [demo_layer] [str "c_dev"].

Definition demo_parse (script : bytes) : cfg Config :=
  ParseIn (fun _ => Some (demo_raw script)) (fun _ => Some demo_addon) (fun _ => Some []) id [] (str "/etc").

Definition demo_config (script : bytes) : Config :=
  match demo_parse script with Ok c => c | _ => MkConfig noAddr noAddr None [] [] [] noServices defaultPorts [] [] end.

Definition root_only : Tree := number (MkTree {[ [] := newDir [dot] zeroOrigin ]} [] 0).

Lemma root_only_wf : wf (t_nodes root_only).
Proof.
  eapply wf_same; [apply number_same|]. cbn. split.
  - eexists. by rewrite lookup_singleton_eq.
  - intros q x n Hn. rewrite lookup_singleton_ne in Hn; [done|]. by destruct q.
Qed.

Definition demo_generated (script : bytes) : profile * Tree :=
  match generate (demo_config script) root_only with Ok r => r | _ => (noProfile, root_only) end.

Definition dev : bytes := str "dev".

Lemma demo_config_ok script c : demo_parse script = Ok c -> config_ok c.
Proof. intros H. pose proof (ParseIn_accepts (fun _ => Some (demo_raw script)) (fun _ => Some demo_addon) (fun _ => Some []) id [] (str "/etc")) as Hp. fold (demo_parse script) in Hp. by rewrite H in Hp. Qed.

Definition demo_script : InstallScript :=
  MkInstallScript dev [str "eoe.sw"] [] [str "fonts"] (str "maintenance")
    (Some (MkThenPass [str "addon-mips"] [str "c_dev"])) [str "ls"].

Definition demo_lines : list bytes := str <$>
  ["open 10.0.0.1:/over/dist"; "open 10.0.0.1:/base/dist"; "install maint"; "keep *"; "install standard"; "keep java_dev.sw.base";
   "install eoe.sw"; "remove fonts"; "go"; "";
   "open 10.0.0.1:/addon-mips/dist"; "keep *"; "install c_dev"; "go"; "";
   "set shell /bin/sh"; "shroot ls"; "set shell /bin/csh"; "sh echo instigator: post-install commands finished"]%string.

Lemma demo_spellable : spellable (demo_config dev).
Proof. split; try one_const; repeat constructor; try one_const; done. Qed.

Lemma demo_accepted : config_ok (demo_config dev).
Proof. apply (demo_config_ok dev). vm_compute. reflexivity. Qed.

Lemma demo_enabled : first_pass (demo_config dev) <> [].
Proof. vm_compute. discriminate. Qed.

Lemma demo_generates : generate (demo_config dev) root_only = Ok ((demo_generated dev).1, (demo_generated dev).2).
Proof.
  assert (H : match generate (demo_config dev) root_only with Ok _ => true | _ => false end = true) by (vm_compute; reflexivity).
  unfold demo_generated. by destruct (generate (demo_config dev) root_only) as [[p t]|e| ].
Qed.

Lemma demo_script_in : demo_script ∈ baseline :: InstallScripts (demo_config dev).
Proof. apply (list_elem_of_lookup_2 _ 1). vm_compute. reflexivity. Qed.

Lemma demo_server : AddrString (ServerIP (demo_config dev)) = str "10.0.0.1".
Proof. vm_compute. reflexivity. Qed.

Lemma demo_carried : carried_out (AddrString (ServerIP (demo_config dev))) (dist_of <$> first_pass (demo_config dev)) demo_script = demo_lines.
Proof. vm_compute. reflexivity. Qed.

Lemma script_installs_witness : spellable (demo_config dev) /\
  exists c', attempted demo_token (str "octane") (passes demo_script) demo_conn c' /\
    source (demo_generated dev).2 (fun _ => false) (fun _ _ => []) (str "10.0.0.1") (starts_of (generated (demo_generated dev).1))
      demo_token (str "octane") (str "10.0.0.2") 5 ([slash] ++ sc_Name demo_script ++ str ".cmds") demo_conn = Some (demo_lines, c').
Proof.
  split; [exact demo_spellable|]. rewrite <- demo_carried, <- demo_server.
  exact (script_installs (demo_config dev) root_only (demo_generated dev).1 (demo_generated dev).2 (fun _ => false) (fun _ _ => [])
    demo_token (str "octane") (str "10.0.0.2") demo_script demo_conn
    demo_accepted demo_spellable demo_enabled root_only_wf demo_generates demo_script_in).
Defined.

(** A script may be called attempts, but then its second pass is asked for among the
    reports of returns, and is not found: its first go is all that is done. *)
Lemma attempts_script_lost :
  (exists c, demo_parse (str "attempts") = Ok c) /\
  (exists f, f ∈ generated (demo_generated (str "attempts")).1 /\ g_path f = fsName (installThenPath (str "attempts"))) /\
  forall c, attempts (c_scripts c) = ∅ ->
    (read_command (demo_generated (str "attempts")).2 (fun _ => false) (fun _ _ => []) (str "10.0.0.1")
      (starts_of (generated (demo_generated (str "attempts")).1)) demo_token (str "octane") (str "10.0.0.2")
      (installThenPath (str "attempts")) c).1 = None.
Proof.
  split_and!.
  - eexists. vm_compute. reflexivity.
  - assert (H : exists f, generated (demo_generated (str "attempts")).1 !! 5%nat = Some f /\ g_path f = fsName (installThenPath (str "attempts"))).
    { eexists. split; vm_compute; reflexivity. }
    destruct H as (f & Hf & Hp). exists f. split; [by eapply list_elem_of_lookup_2|done].
  - intros c Hc. unfold read_command, cmd_Open, Attempts.open.
    assert (starts_of (generated (demo_generated (str "attempts")).1) !! fsName (installThenPath (str "attempts")) = None) as -> by (vm_compute; reflexivity).
    assert (HasPrefix (fsName (installThenPath (str "attempts"))) installReturnPrefix = true) as -> by (vm_compute; reflexivity).
    unfold findReturn. by rewrite Hc, lookup_empty.
Qed.
