(* ===== verification/Glob.v ===== *)
(** Go's [path.Match]: [*], [?], character classes and escapes, none of which but
    a class matches a slash. *)
From S2P Require Import Prelude Text Path Strconv Strings.

Definition star_ : Z := 42.
Definition lbrack : Z := 91.
Definition rbrack : Z := 93.
Definition question : Z := 63.
Definition caret : Z := 94.
Definition minus : Z := 45.

(** How much of a pattern a chunk is: up to the next star outside a class. *)
Fixpoint chunk_len (inrange : bool) (p : bytes) : nat :=
  match p with
  | [] => 0
  | c :: p =>
      if c =? backslash then match p with [] => 1 | _ :: p => 2 + chunk_len inrange p end
      else if c =? lbrack then S (chunk_len true p)
      else if c =? rbrack then S (chunk_len false p)
      else if (c =? star_) && negb inrange then 0
      else S (chunk_len inrange p)
  end.

(** [scanChunk]: whether stars come first, the chunk after them, and the rest. *)
Definition scanChunk (p : bytes) : bool * bytes * bytes :=
  let p' := drop_while (fun c => c =? star_) p in
  let n := chunk_len false p' in
  (negb (zlen p =? zlen p'), take n p', drop n p').

(** [getEsc]: one character of a class, perhaps escaped; [None] for a bad pattern. *)
Definition getEsc (chunk : bytes) : option (Z * bytes) :=
  match chunk with
  | [] => None
  | c :: t =>
      if (c =? minus) || (c =? rbrack) then None
      else
        let chunk := if c =? backslash then t else chunk in
        match chunk with
        | [] => None
        | _ =>
            let '(r, n) := DecodeRune chunk in
            if (r =? RuneError) && (n =? 1)%nat then None
            else match drop n chunk with [] => None | rest => Some (r, rest) end
        end
  end.

(** The ranges of a class up to its bracket: whether the rune is in one. *)
Fixpoint class_ranges (fuel : nat) (chunk : bytes) (r : Z) (found first : bool) : option (bool * bytes) :=
  match fuel with
  | O => None
  | S fuel =>
      if negb first && (at_ chunk 0 =? rbrack) && negb (zlen chunk =? 0) then Some (found, drop 1 chunk)
      else
        '(lo, chunk) ← getEsc chunk;
        '(hi, chunk) ← (if at_ chunk 0 =? minus then getEsc (drop 1 chunk) else Some (lo, chunk));
        class_ranges fuel chunk r (found || ((lo <=? r) && (r <=? hi))) false
  end.

(** [matchChunk]: what is left of the name, if it matches so far; [None] for a bad
    pattern. [s] is [None] once the match has failed. *)
Fixpoint match_chunk (fuel : nat) (chunk : bytes) (s : option bytes) : option (option bytes) :=
  match fuel, chunk with
  | _, [] => Some s
  | O, _ => None
  | S fuel, c :: rest =>
      let s := match s with Some [] => None | s => s end in
      if c =? lbrack then
        let '(r, s) := match s with Some t => let '(r, n) := DecodeRune t in (r, Some (drop n t)) | None => (0, None) end in
        let negated := (at_ rest 0 =? caret) && negb (zlen rest =? 0) in
        '(found, rest) ← class_ranges (S (length rest)) (if negated then drop 1 rest else rest) r false true;
        match_chunk fuel rest (if Bool.eqb found negated then None else s)
      else if c =? question then
        match_chunk fuel rest (match s with
          | Some t => if at_ t 0 =? slash then None else Some (drop (DecodeRune t).2 t)
          | None => None end)
      else
        '(c, rest) ← (if c =? backslash then match rest with [] => None | c :: rest => Some (c, rest) end else Some (c, rest));
        match_chunk fuel rest (match s with
          | Some (x :: t) => if x =? c then Some t else None
          | _ => None end)
  end.
Definition matchChunk (chunk s : bytes) : option (option bytes) := match_chunk (length chunk) chunk (Some s).

(** After a star: the first place further on where the chunk matches, and the whole
    name when it is the last chunk. *)
Fixpoint skip_match (chunk : bytes) (last : bool) (name : bytes) : option (option bytes) :=
  match name with
  | [] => Some None
  | c :: t =>
      if c =? slash then Some None
      else match matchChunk chunk t with
           | None => None
           | Some (Some rest) =>
               if last && negb (zlen rest =? 0) then skip_match chunk last t else Some (Some rest)
           | Some None => skip_match chunk last t
           end
  end.

(** Whether what is left of a pattern is well formed. *)
Fixpoint rest_ok (fuel : nat) (p : bytes) : bool :=
  match fuel, p with
  | S fuel, _ :: _ =>
      let '(_, chunk, p) := scanChunk p in
      match matchChunk chunk [] with None => false | Some _ => rest_ok fuel p end
  | _, _ => true
  end.

Fixpoint match_loop (fuel : nat) (p name : bytes) : option bool :=
  match fuel, p with
  | _, [] => Some (zlen name =? 0)
  | O, _ => None
  | S fuel, _ =>
      let '(star, chunk, p) := scanChunk p in
      if star && (zlen chunk =? 0) then Some (negb (contains name slash))
      else
        let last := zlen p =? 0 in
        r ← matchChunk chunk name;
        r ← (match r with
             | Some t => if (zlen t =? 0) || negb last then Some (Some t) else if star then skip_match chunk last name else Some None
             | None => if star then skip_match chunk last name else Some None
             end);
        match r with
        | Some t => match_loop fuel p t
        | None => if rest_ok (length p) p then Some false else None
        end
  end.

(** [path.Match]: [None] is [ErrBadPattern]. Every turn takes a character of the
    pattern. *)
Definition Match (pattern name : bytes) : option bool := match_loop (length pattern) pattern name.

Example Match_demo :
  Match (str "eoe.*.unix") (str "eoe.sw.unix") = Some true /\ Match (str "eoe.*") (str "eoe2.sw") = Some false /\
  Match (str "*.man.[a-d]?") (str "x.man.c1") = Some true /\ Match (str "[") (str "a") = None /\
  Match (str "a\*b") (str "a*b") = Some true /\ Match (str "*x") (str "a/x") = Some false.
Proof. split_and!; vm_compute; reflexivity. Qed.

(** ** Plain patterns *)

(** No star, question mark, class or escape. *)
Definition plain (p : bytes) : Prop := Forall (fun c => c <> star_ /\ c <> question /\ c <> lbrack /\ c <> rbrack /\ c <> backslash) p.

Lemma chunk_len_plain b p q : plain p -> chunk_len b (p ++ q) = (length p + chunk_len b q)%nat.
Proof.
  induction 1 as [|c p (H1 & H2 & H3 & H4 & H5) _ IH]; [done|]. cbn.
  rewrite !(proj2 (Z.eqb_neq c _)) by done. cbn. by rewrite IH.
Qed.

Lemma match_chunk_plain p name fuel : plain p -> (length p <= fuel)%nat ->
  match_chunk fuel p (Some name) = Some (if HasPrefix name p then Some (drop (length p) name) else None).
Proof.
  intros Hp. revert name fuel.
  assert (Hn : forall fuel p, plain p -> (length p <= fuel)%nat -> match_chunk fuel p None = Some None).
  { induction fuel as [|fuel IH]; intros [|c p'] Hp' Hl; cbn in *; try done; [lia|].
    apply Forall_cons in Hp' as [(H1 & H2 & H3 & H4 & H5) Hp']. rewrite !(proj2 (Z.eqb_neq c _)) by done. cbn. apply IH; [done|lia]. }
  induction Hp as [|c p (H1 & H2 & H3 & H4 & H5) Hp IH]; intros name fuel Hl.
  - unfold HasPrefix. cbn. rewrite bool_decide_true by done. by destruct fuel.
  - destruct fuel as [|fuel]; [cbn in Hl; lia|]. cbn in Hl. cbn [match_chunk]. rewrite !(proj2 (Z.eqb_neq c _)) by done. cbn.
    unfold HasPrefix. destruct name as [|x t]; cbn.
    + rewrite bool_decide_false by done. apply Hn; [done|lia].
    + destruct (Z.eqb_spec x c) as [->|Hne].
      * rewrite IH by lia. unfold HasPrefix. repeat case_bool_decide; try done; congruence.
      * rewrite bool_decide_false by congruence. apply Hn; [done|lia].
Qed.

Lemma drop_while_plain p q : plain p -> p <> [] -> drop_while (fun c => c =? star_) (p ++ q) = p ++ q.
Proof. intros Hp Hne. destruct Hp as [|c p (H & _) _]; [done|]. cbn. by rewrite (proj2 (Z.eqb_neq c _)). Qed.

Lemma scanChunk_plain p q : plain p -> p <> [] -> chunk_len false q = 0%nat -> scanChunk (p ++ q) = (false, p, q).
Proof.
  intros Hp Hne Hq. unfold scanChunk. rewrite drop_while_plain by done. rewrite Z.eqb_refl, chunk_len_plain, Hq, Nat.add_0_r by done.
  by rewrite take_app_length, drop_app_length.
Qed.

(** A plain pattern matches itself. *)
Lemma Match_plain p name : plain p -> Match p name = Some (bool_decide (name = p)).
Proof.
  intros Hp. unfold Match. destruct (decide (p = [])) as [->|Hne].
  - cbn. by destruct name.
  - assert (Hsc : scanChunk p = (false, p, [])) by (rewrite <- (app_nil_r p) at 1; by apply scanChunk_plain).
    destruct p as [|c p']; [done|]. cbn [length match_loop]. rewrite Hsc. cbn [andb]. unfold matchChunk.
    rewrite match_chunk_plain by done. set (p := c :: p') in *. destruct (HasPrefix name p) eqn:E.
    + apply HasPrefix_spec in E as [r ->]. rewrite drop_app_length. destruct r as [|x r].
      * rewrite app_nil_r, bool_decide_true by done. cbn. by destruct (length p').
      * assert (bool_decide (p ++ x :: r = p) = false) as ->.
        { apply bool_decide_false. intros E%(f_equal length). rewrite length_app in E. cbn in E. lia. }
        assert (zlen (x :: r) =? 0 = false) as Hz by (rewrite zlen_cons; apply Z.eqb_neq; pose proof (zlen_nonneg r); lia).
        cbn [mbind option_bind]. by rewrite Hz.
    + cbn. rewrite bool_decide_false; [done|]. intros ->. rewrite (proj2 (HasPrefix_spec p p)) in E; [done|].
      exists []. by rewrite app_nil_r.
Qed.

(** A plain pattern and a star match what begins with it and goes on without a
    slash. *)
Lemma Match_prefix p name : plain p -> Match (p ++ [star_]) name = Some (HasPrefix name p && negb (contains (drop (length p) name) slash)).
Proof.
  intros Hp. unfold Match. destruct (decide (p = [])) as [->|Hne]; [done|].
  destruct p as [|c p']; [done|]. cbn [app length match_loop]. rewrite length_app. cbn [length].
  change (c :: p' ++ [star_]) with ((c :: p') ++ [star_]). rewrite scanChunk_plain by done. set (p := c :: p') in *. cbn [andb].
  unfold matchChunk. rewrite match_chunk_plain by done. destruct (HasPrefix name p) eqn:E; cbn; [|done].
  rewrite orb_true_r. rewrite Nat.add_1_r. done.
Qed.
