(* ===== verification/Extract.v ===== *)
(** What an extraction will write ([internal/extract/extract.go], [plan]): the
    entries the options keep, which install set has each path, and which are
    settled without their data. *)
From S2P Require Import Prelude Text Path Strconv Strings Idb Inst Shell Glob.

(** ** Install paths *)

(** [cleanInstallPath]. *)
Definition cleanInstallPath (p : bytes) : bytes * bool :=
  let rel := Clean (TrimLeft p [slash]) in
  (rel, negb (bool_decide (rel = [dot])) && negb (bool_decide (rel = dotdot)) && negb (HasPrefix rel (dotdot ++ [slash]))).

(** [underAny]. *)
Definition underAny (rel : bytes) (dirs : list bytes) : bool :=
  existsb (fun d => bool_decide (rel = d) || HasPrefix rel (d ++ [slash])) dirs.

(** [matchAny]: an error of a pattern is no match. *)
Definition matchAny (globs : list bytes) (s : bytes) : bool :=
  existsb (fun g => match Match g s with Some b => b | None => false end) globs || (zlen globs =? 0).

(** ** Records *)

Record Options := MkOptions { Paths : list bytes; Subsystems : list bytes; Unpack : bool; ManifestOnly : bool }.

(** Nothing yet, or one of the manifest's words. *)
Inductive status := Pending | Written | Duplicate | Variant | Planned | Superseded | Skipped | Failed | Unparsed.

#[export] Instance status_eq_dec : EqDecision status.
Proof. solve_decision. Defined.

Inductive note :=
| NoNote
| TheRoot | EscapesRoot | DelHist | NoData | SpecialFile
| ConflictOf (is_dir : bool)
| LineNote (line : Z) (r : reason)
| AlreadyType (path : bytes) (t : Z) | RootErr (code : Z) | NoSymval | TargetEscapes | NotRelated | NoFreeName (rel : bytes)
| IsDirectory (path : bytes) | OpenNote (e : Inst.error) | UnwrapNote (e : unwrap_err) | ReadNote (e : option io_err).

(** A manifest line. *)
Record Record_ := MkRec {
  r_path : bytes; r_install : bytes; r_type : bytes; r_mode : bytes; r_owner : bytes; r_group : bytes;
  r_product : bytes; r_subsystem : bytes; r_layer : bytes; r_set : bytes; r_sha : bytes; r_symlink : bytes;
  r_target : bytes; r_mach : bytes; r_status : status; r_error : note;
}.

Record item := MkItem { i_set : nat; i_entry : option Entry; i_rel : bytes; i_rec : Record_ }.

(** [item.settle]. *)
Definition settle (s : status) (n : note) (it : item) : item :=
  let r := i_rec it in
  MkItem (i_set it) (i_entry it) (i_rel it)
    (MkRec (r_path r) (r_install r) (r_type r) (r_mode r) (r_owner r) (r_group r) (r_product r) (r_subsystem r) (r_layer r)
      (r_set r) (r_sha r) (r_symlink r) (r_target r) (r_mach r) s n).

Definition i_status (it : item) : status := r_status (i_rec it).
Definition pending (it : item) : bool := bool_decide (i_status it = Pending).

(** An install set: its name, its products, and the layer that holds a file of it. *)
Record dist := MkDistribution { x_set : bytes; x_products : list Product; x_layer : bytes -> bytes }.

Definition is_dir (e : Entry) : bool := Type_ e =? 100.
Definition is_link (e : Entry) : bool := Type_ e =? 108.

(** ** The entries *)

Section plan.
Context (opts : Options) (dists : list dist).

(** The paths asked for, cleaned. *)
Definition wanted : list bytes :=
  omap (fun p => match Trim p [slash] with [] => None | p => Some (Clean p) end) (Paths opts).

(** The last set that ships a product. *)
Fixpoint last_set (s : nat) (ds : list dist) (name : bytes) (acc : nat) : nat :=
  match ds with
  | [] => acc
  | d :: ds => last_set (S s) ds name (if existsb (fun p => bool_decide (Inst.Name p = name)) (x_products d) then s else acc)
  end.
Definition last (name : bytes) : nat := last_set 0 dists name 0.

Definition entry_record (d : dist) (p : Product) (e : Entry) : Record_ :=
  MkRec [] (Idb.Path e) (EncodeRune (Type_ e)) (pad0 4 (oct (Idb.Mode e))) (Owner e) (Group e) (Inst.Name p) (Subsystem e)
    (x_layer d (if is_file e then Inst.Name p ++ [dot] ++ Image e else Inst.Name p ++ str ".idb")) (x_set d) [] (Symlink e) [] (Mach e)
    Pending NoNote.

(** One entry: [None] when the options leave it out. *)
Definition entry_item (s : nat) (d : dist) (p : Product) (e : Entry) : option item :=
  if negb (matchAny (Subsystems opts) (Subsystem e)) then None
  else
    let '(rel, ok) := cleanInstallPath (Idb.Path e) in
    let some_paths := negb (zlen wanted =? 0) in
    let it := MkItem s (Some e) rel (entry_record d p e) in
    if negb ok && bool_decide (rel = [dot]) && is_dir e then
      if some_paths then None else Some (settle Skipped TheRoot it)
    else if negb ok then Some (settle Failed EscapesRoot it)
    else if some_paths && negb (underAny rel wanted) then None
    else if (s <? last (Inst.Name p))%nat then Some (settle Superseded NoNote it)
    else if bool_decide (str "delhist" ∈ Flags e) then Some (settle Skipped DelHist it)
    else if Type_ e =? 88 then Some (settle Skipped NoData it)
    else if negb (is_dir e) && negb (is_link e) && negb (is_file e) then Some (settle Skipped SpecialFile it)
    else Some it.

(** A line that did not parse; it has no set of its own. *)
Definition bad_item (d : dist) (p : Product) (b : BadLine) : item :=
  MkItem 0 None [] (MkRec [] (Text_ b) [] [] [] [] (Inst.Name p) [] (x_layer d (Inst.Name p ++ str ".idb")) (x_set d)
    [] [] [] [] Unparsed (LineNote (Line b) (Reason b))).

Definition product_items (s : nat) (d : dist) (p : Product) : list item :=
  omap (entry_item s d p) (Entries p) ++ (bad_item d p <$> BadLines p).

Definition dist_items (s : nat) (d : dist) : list item := mjoin (product_items s d <$> x_products d).

Definition listed : list item := mjoin (imap dist_items dists).

(** ** Paths claimed in several sets *)

(** The pending entries at a path. *)
Definition claimants (items : list item) (rel : bytes) : list item :=
  filter (fun it => pending it && bool_decide (i_rel it = rel)) items.

Definition entry_dir (it : item) : bool := match i_entry it with Some e => is_dir e | None => false end.

(** What becomes of one claimant, against all of them: the entries at different
    paths do not meet, so the order the paths are taken in does not matter. *)
Definition resolve_item (items : list item) (it : item) : item :=
  if negb (pending it) then it
  else
    let its := claimants items (i_rel it) in
    let lo := foldr Nat.min (i_set it) (i_set <$> its) in
    let hi := foldr Nat.max (i_set it) (i_set <$> its) in
    let dirs := existsb entry_dir its in
    let files := existsb (fun x => negb (entry_dir x)) its in
    if (lo =? hi)%nat || negb files then it
    else if dirs && negb (i_set it =? lo)%nat then settle Failed (ConflictOf (entry_dir it)) it
    else if negb dirs && (i_set it <? hi)%nat then settle Superseded NoNote it
    else it.

(** [plan]. *)
Definition plan : list item := resolve_item listed <$> listed.
End plan.

(** ** Paths inside the set *)

(** A path below the root of the set. *)
Definition below (p : bytes) : Prop := exists els, els <> [] /\ Forall name_ok els /\ p = join_slash els.

Lemma drop_while_first f s : match drop_while f s with [] => True | c :: _ => f c = false end.
Proof. induction s as [|c s IH]; cbn; [done|]. destruct (f c) eqn:E; [exact IH|exact E]. Qed.

Lemma TrimLeft_slash p : IsAbs (TrimLeft p [slash]) = false.
Proof.
  unfold TrimLeft. pose proof (drop_while_first (contains [slash]) p) as H. destruct (drop_while _ p) as [|c t]; [done|].
  cbn [IsAbs]. destruct (Z.eqb_spec c slash) as [->|]; done.
Qed.

(** A clean path that is not absolute: ".", or its elements, the climbing ones first. *)
Lemma Clean_relative p : IsAbs p = false -> exists ups names,
  Forall (fun e => e = dotdot) ups /\ Forall name_ok names /\
  Clean p = if bool_decide (ups ++ names = []) then [dot] else join_slash (ups ++ names).
Proof.
  intros Ha. unfold Clean. rewrite Ha. cbn [app].
  destruct (clean_els_shape false (split_byte slash p)) as (ups & names & He & Hu & Hn & _).
  pose proof (clean_els_ok false (split_byte slash p) (split_elements p)) as Hk. rewrite He in *.
  exists ups, names. split; [done|]. split.
  - rewrite Forall_app in Hk. destruct Hk as [_ Hk]. rewrite Forall_forall in *. intros e Hin.
    destruct (Hk e Hin) as [->|]; [|done]. by destruct (Hn dotdot Hin).
  - destruct (ups ++ names) as [|x l] eqn:E; [done|]. rewrite (bool_decide_false (x :: l = [])) by done.
    rewrite bool_decide_false; [done|]. intros Hj. destruct l; [|destruct x; done]. cbn in Hj. subst x.
    rewrite Forall_forall in Hk. destruct (Hk [] ltac:(by left)) as [|[]]; done.
Qed.

Lemma cleanInstallPath_below p rel : cleanInstallPath p = (rel, true) -> below rel.
Proof.
  unfold cleanInstallPath. intros [= <- H]. rewrite !andb_true_iff, !negb_true_iff in H. destruct H as [[H1 H2] H3].
  apply bool_decide_eq_false in H1, H2.
  destruct (Clean_relative (TrimLeft p [slash]) (TrimLeft_slash p)) as (ups & names & Hu & Hn & E). rewrite E in *.
  destruct (ups ++ names) as [|x l] eqn:El; [by rewrite bool_decide_true in H1|].
  rewrite bool_decide_false in * by done. destruct ups as [|u ups].
  - cbn in El. subst names. exists (x :: l). done.
  - exfalso. injection El as <- <-. apply Forall_cons in Hu as [-> _].
    destruct (ups ++ names) as [|y l]; [done|].
    assert (HasPrefix (join_slash (dotdot :: y :: l)) [dot; dot; slash] = true) as Hp; [|congruence].
    apply HasPrefix_spec. by exists (join_slash (y :: l)).
Qed.

(** ** What the plan settles *)

Lemma fmap_mjoin {A B} (f : A -> B) (ls : list (list A)) : f <$> mjoin ls = mjoin (fmap f <$> ls).
Proof. induction ls as [|l ls IH]; [done|]. cbn [fmap list_fmap]. by rewrite !mjoin_cons, fmap_app, IH. Qed.

Section settled.
Context (opts : Options) (dists : list dist).
Notation items := (listed opts dists).

Lemma settle_status s n it : i_status (settle s n it) = s.
Proof. done. Qed.
Lemma pending_spec it : pending it = true <-> i_status it = Pending.
Proof. apply bool_decide_eq_true. Qed.

Lemma elem_listed it : it ∈ items -> exists s d p, dists !! s = Some d /\ p ∈ x_products d /\ it ∈ product_items opts dists s d p.
Proof.
  unfold listed. rewrite list_elem_of_join. intros (l & Hit & (s & d & -> & Hs)%elem_of_lookup_imap_1).
  unfold dist_items in Hit. apply list_elem_of_join in Hit as (l & Hit & (p & -> & Hp)%list_elem_of_fmap). eauto 10.
Qed.

(** What is pending before paths are compared: an entry to write, inside the set, of
    a product that no later set ships. *)
Lemma listed_pending it : it ∈ items -> i_status it = Pending -> below (i_rel it) /\ exists e p d,
  i_entry it = Some e /\ dists !! i_set it = Some d /\ p ∈ x_products d /\ e ∈ Entries p /\
  (is_dir e || is_link e || is_file e = true) /\ (last dists (Inst.Name p) <= i_set it)%nat /\
  i_rec it = entry_record d p e.
Proof.
  intros (s & d & p & Hs & Hp & [Hit|Hit]%elem_of_app)%elem_listed.
  - apply list_elem_of_omap in Hit as (e & He & Hit). unfold entry_item in Hit.
    destruct (matchAny _ _); [|done]. cbn [negb] in Hit.
    destruct (cleanInstallPath (Idb.Path e)) as [rel ok] eqn:Ec.
    destruct ok; cbn [negb andb] in Hit; [|by repeat case_match; simplify_eq].
    apply cleanInstallPath_below in Ec.
    destruct (_ && negb (underAny _ _)); [done|]. destruct (s <? _)%nat eqn:El; [by simplify_eq|].
    case_bool_decide; [by simplify_eq|]. destruct (_ =? 88); [by simplify_eq|].
    destruct (negb _ && negb _ && negb _) eqn:Ek; simplify_eq; [done|]. intros _. cbn [i_rel i_entry i_set i_rec].
    split; [done|]. exists e, p, d. apply Nat.ltb_ge in El. split_and!; try done.
    destruct (is_dir e), (is_link e), (is_file e); done.
  - apply list_elem_of_fmap in Hit as (b & -> & _). done.
Qed.

Lemma resolve_set it : i_set (resolve_item items it) = i_set it /\ i_rel (resolve_item items it) = i_rel it /\
  i_entry (resolve_item items it) = i_entry it.
Proof. unfold resolve_item. repeat case_match; done. Qed.

Lemma fold_min_le x l y : y ∈ l -> (foldr Nat.min x l <= y)%nat.
Proof. induction 1; cbn; lia. Qed.
Lemma fold_max_ge x l y : y ∈ l -> (y <= foldr Nat.max x l)%nat.
Proof. induction 1; cbn; lia. Qed.
Lemma fold_max_in x l : foldr Nat.max x l = x \/ foldr Nat.max x l ∈ l.
Proof.
  induction l as [|y l IH]; cbn; [by left|]. destruct (Nat.max_spec y (foldr Nat.max x l)) as [[_ ->]|[_ ->]].
  - destruct IH as [->|]; [by left|right; by right].
  - right. by left.
Qed.

Lemma elem_claimants it rel : it ∈ claimants items rel <-> it ∈ items /\ i_status it = Pending /\ i_rel it = rel.
Proof.
  unfold claimants. rewrite list_elem_of_filter, Is_true_true, andb_true_iff, pending_spec, bool_decide_eq_true. tauto.
Qed.

(** The claimants of a path have the same bounds, whichever is asked. *)
Definition lo rel it := foldr Nat.min (i_set it) (i_set <$> claimants items rel).
Definition hi rel it := foldr Nat.max (i_set it) (i_set <$> claimants items rel).

Lemma fold_min_in x l : x ∈ l -> foldr Nat.min x l ∈ l.
Proof.
  intros Hx. assert (foldr Nat.min x l = x \/ foldr Nat.min x l ∈ l) as [->|]; [|done..].
  clear Hx. induction l as [|y l IH]; cbn; [by left|].
  destruct (Nat.min_spec y (foldr Nat.min x l)) as [[_ ->]|[_ ->]]; [right; by left|].
  destruct IH as [->|]; [by left|right; by right].
Qed.

Lemma bounds_same it it' : it ∈ items -> it' ∈ items -> i_status it = Pending -> i_status it' = Pending -> i_rel it = i_rel it' ->
  lo (i_rel it) it = lo (i_rel it') it' /\ hi (i_rel it) it = hi (i_rel it') it'.
Proof.
  intros H H' P P' E. rewrite <- E. unfold lo, hi. set (l := i_set <$> _).
  assert (Hi : i_set it ∈ l) by (apply list_elem_of_fmap; exists it; split; [done|]; by apply elem_claimants).
  assert (Hi' : i_set it' ∈ l) by (apply list_elem_of_fmap; exists it'; split; [done|]; by apply elem_claimants).
  pose proof (fold_min_le (i_set it) l _ (fold_min_in _ _ Hi')). pose proof (fold_min_le (i_set it') l _ (fold_min_in _ _ Hi)).
  assert (forall x y, x ∈ l -> y ∈ l -> (foldr Nat.max x l <= foldr Nat.max y l)%nat) as Hm.
  { intros x y Hx Hy. destruct (fold_max_in x l) as [->|Hin]; by apply fold_max_ge. }
  pose proof (Hm _ _ Hi Hi'). pose proof (Hm _ _ Hi' Hi). lia.
Qed.

(** Whether a set ships a product. *)
Definition ships (s : nat) (name : bytes) : Prop :=
  exists d p, dists !! s = Some d /\ p ∈ x_products d /\ Inst.Name p = name.

Lemma last_set_spec ds name : forall s acc, (last_set s ds name acc = acc /\ (forall i d p, ds !! i = Some d -> p ∈ x_products d -> Inst.Name p <> name)) \/
  exists i d p, last_set s ds name acc = (s + i)%nat /\ ds !! i = Some d /\ p ∈ x_products d /\ Inst.Name p = name /\
    (forall j d p, (i < j)%nat -> ds !! j = Some d -> p ∈ x_products d -> Inst.Name p <> name).
Proof.
  induction ds as [|d ds IH]; intros s acc; cbn [last_set]; [by left|].
  match goal with |- context [last_set (S s) ds name ?a] => destruct (IH (S s) a) as [[-> Hno]|(i & d' & p & -> & Hd & Hp & Hn & Hlast)] end.
  - destruct (existsb _ _) eqn:E.
    + right. apply existsb_exists in E as (p & Hp%list_elem_of_In & Hn%bool_decide_eq_true).
      exists 0%nat, d, p. split_and!; [lia|done..|]. intros [|j] d' p' Hj; [lia|]. apply Hno.
    + left. split; [done|]. intros [|i] d' p; [|apply Hno]. cbn. intros [= <-] Hp Hn.
      assert (existsb (fun p => bool_decide (Inst.Name p = name)) (x_products d) = true); [|congruence].
      apply existsb_exists. exists p. split; [by apply list_elem_of_In|by apply bool_decide_eq_true].
  - right. exists (S i), d', p. split_and!; [lia|done..|]. intros [|j] d'' p'' Hj; [lia|]. apply Hlast. lia.
Qed.

Lemma last_latest s name : ships s name -> (s <= last dists name)%nat.
Proof.
  intros (d & p & Hs & Hp & Hn). unfold last. destruct (last_set_spec dists name 0 0) as [[_ Hno]|(i & d' & p' & -> & Hd & Hp' & Hn' & Hlast)].
  - by destruct (Hno _ _ _ Hs Hp).
  - destruct (decide (s <= i)%nat); [lia|]. exfalso. by eapply (Hlast s d p); [lia| | |].
Qed.

Lemma last_ships s name : (s < last dists name)%nat -> ships (last dists name) name.
Proof.
  unfold last, ships. destruct (last_set_spec dists name 0 0) as [[-> _]|(i & d & p & -> & Hd & Hp & Hn & _)]; [lia|].
  intros _. by exists d, p.
Qed.

(** An item that was superseded before paths were compared. *)
Lemma listed_superseded it : it ∈ items -> i_status it = Superseded ->
  exists s, (i_set it < s)%nat /\ ships s (r_product (i_rec it)).
Proof.
  intros (s & d & p & Hs & Hp & [Hit|Hit]%elem_of_app)%elem_listed.
  - apply list_elem_of_omap in Hit as (e & He & Hit). unfold entry_item in Hit.
    destruct (matchAny _ _); [|done]. cbn [negb] in Hit. destruct (cleanInstallPath _) as [rel ok].
    destruct (negb ok && _ && _); [by repeat case_match; simplify_eq|]. destruct (negb ok); [by simplify_eq|].
    destruct (_ && negb (underAny _ _)); [done|]. destruct (s <? _)%nat eqn:El.
    + simplify_eq. intros _. apply Nat.ltb_lt in El. cbn. exists (last dists (Inst.Name p)). split; [done|]. by eapply last_ships.
    + repeat case_match; by simplify_eq.
  - apply list_elem_of_fmap in Hit as (b & -> & _). done.
Qed.

(** The entries the options keep. *)
Definition keeps (e : Entry) : bool :=
  let '(rel, ok) := cleanInstallPath (Idb.Path e) in
  matchAny (Subsystems opts) (Subsystem e) &&
  ((zlen (wanted opts) =? 0) || (if ok then underAny rel (wanted opts) else negb (bool_decide (rel = [dot]) && is_dir e))).

Lemma entry_item_keeps s d p e : match entry_item opts dists s d p e with
  | Some it => keeps e = true /\ i_entry it = Some e | None => keeps e = false end.
Proof.
  unfold entry_item, keeps. destruct (cleanInstallPath _) as [rel ok].
  destruct (matchAny _ _); cbn [negb andb]; [|done].
  destruct ok; cbn [negb andb].
  - assert (Hrest : forall it1 it2 it3 it4 it5 : item, Forall (fun x => i_entry x = Some e) [it1; it2; it3; it4; it5] ->
      match (if (s <? last dists (Inst.Name p))%nat then Some it1 else if bool_decide (str "delhist" ∈ Flags e) then Some it2
             else if Type_ e =? 88 then Some it3 else if negb (is_dir e) && negb (is_link e) && negb (is_file e) then Some it4
             else Some it5) with Some it => true = true /\ i_entry it = Some e | None => False end).
    { intros it1 it2 it3 it4 it5 H. rewrite !Forall_cons in H. destruct H as (? & ? & ? & ? & ? & _).
      repeat match goal with |- context [if ?b then _ else _] => destruct b end; by split. }
    destruct (zlen _ =? 0); cbn [negb andb orb]; [|destruct (underAny _ _); cbn [negb]; [|done]];
      match goal with |- match (if _ then Some ?a else if _ then Some ?b else if _ then Some ?c else if _ then Some ?d else Some ?x) with _ => _ end =>
        specialize (Hrest a b c d x ltac:(by repeat constructor)) end; by destruct (if (_ <? _)%nat then _ else _).
  - destruct (bool_decide (rel = [dot])), (is_dir e), (zlen (wanted opts) =? 0); cbn; (done || by split).
Qed.

Lemma entries_kept s d p : i_entry <$> product_items opts dists s d p =
  (Some <$> filter (fun e => keeps e = true) (Entries p)) ++ ((fun _ => None) <$> BadLines p).
Proof.
  unfold product_items. rewrite fmap_app. f_equal.
  - induction (Entries p) as [|e es IH]; [done|]. cbn [omap list_omap]. pose proof (entry_item_keeps s d p e) as H.
    destruct (entry_item _ _ _ _ _ _) as [it|].
    + destruct H as [Hk He]. rewrite filter_cons_True by done. cbn. by rewrite He, IH.
    + rewrite filter_cons_False by congruence. exact IH.
  - rewrite <- list_fmap_compose. done.
Qed.
(** How comparing paths changes an item. *)
Lemma resolve_cases it : it ∈ items ->
  resolve_item items it = it /\ (i_status it = Pending ->
    lo (i_rel it) it = hi (i_rel it) it \/ Forall (fun x => entry_dir x = true) (claimants items (i_rel it)) \/
    (i_set it = lo (i_rel it) it /\ Exists (fun x => entry_dir x = true) (claimants items (i_rel it))) \/
    (i_set it = hi (i_rel it) it /\ Forall (fun x => entry_dir x = false) (claimants items (i_rel it)))) \/
  i_status it = Pending /\ i_status (resolve_item items it) = Failed \/
  i_status it = Pending /\ i_status (resolve_item items it) = Superseded /\ (i_set it < hi (i_rel it) it)%nat /\
    lo (i_rel it) it <> hi (i_rel it) it /\ Forall (fun x => entry_dir x = false) (claimants items (i_rel it)).
Proof.
  intros Hin. unfold resolve_item. destruct (pending it) eqn:P; cbn [negb]; [apply pending_spec in P|].
  2: { left. split; [done|]. intros H%pending_spec. congruence. }
  fold (lo (i_rel it) it) (hi (i_rel it) it). set (its := claimants items (i_rel it)).
  assert (Hd : if existsb entry_dir its then Exists (fun x => entry_dir x = true) its else Forall (fun x => entry_dir x = false) its).
  { induction its as [|x l IH]; cbn; [done|]. destruct (entry_dir x) eqn:E; cbn; [by left|].
    destruct (existsb _ l); [by right|by constructor]. }
  assert (Hf : if existsb (fun x => negb (entry_dir x)) its then True else Forall (fun x => entry_dir x = true) its).
  { clear Hd. induction its as [|x l IH]; cbn; [done|]. destruct (entry_dir x) eqn:E; cbn; [|done].
    destruct (existsb _ l); [done|by constructor]. }
  destruct (lo (i_rel it) it =? hi (i_rel it) it)%nat eqn:El; cbn [orb]; [apply Nat.eqb_eq in El; left; by auto|].
  apply Nat.eqb_neq in El.
  destruct (existsb (fun x => negb _) its); cbn [negb]; [|left; split; [done|]; intros _; right; left; exact Hf].
  destruct (existsb entry_dir its); cbn [negb andb].
  - destruct (i_set it =? lo (i_rel it) it)%nat eqn:E1; cbn [negb]; [|right; left; by split].
    apply Nat.eqb_eq in E1. left. split; [done|]. intros _. right. right. left. by split.
  - destruct (i_set it <? hi (i_rel it) it)%nat eqn:E1; [right; right; apply Nat.ltb_lt in E1; by split_and!|].
    apply Nat.ltb_ge in E1. left. split; [done|]. intros _. right. right. right. split; [|done].
    assert (i_set it <= hi (i_rel it) it)%nat; [|lia]. apply fold_max_ge, list_elem_of_fmap.
    exists it. split; [done|]. by apply elem_claimants.
Qed.

Lemma elem_plan it : it ∈ plan opts dists <-> exists it0, it0 ∈ items /\ it = resolve_item items it0.
Proof. unfold plan. rewrite list_elem_of_fmap. naive_solver. Qed.

Lemma pending_plan it : it ∈ plan opts dists -> i_status it = Pending -> it ∈ items /\ resolve_item items it = it.
Proof.
  intros (it0 & H0 & ->)%elem_plan HP. destruct (resolve_cases it0 H0) as [[E _]|[[_ E]|(_ & E & _)]]; [|congruence..].
  by rewrite !E.
Qed.

Lemma lo_le it rel : it ∈ claimants items rel -> (lo rel it <= i_set it <= hi rel it)%nat.
Proof.
  intros H. assert (i_set it ∈ i_set <$> claimants items rel) by (apply list_elem_of_fmap; by exists it).
  split; [by apply fold_min_le|by apply fold_max_ge].
Qed.

(** Two entries still pending at a path. *)
Lemma pending_meet it it' : it ∈ plan opts dists -> it' ∈ plan opts dists -> i_status it = Pending -> i_status it' = Pending ->
  i_rel it = i_rel it' -> i_set it = i_set it' \/ entry_dir it = true /\ entry_dir it' = true.
Proof.
  intros H H' P P' E. apply pending_plan in H as [H R], H' as [H' R']; [|done..].
  destruct (bounds_same it it' H H' P P' E) as [El Eh].
  assert (C : it ∈ claimants items (i_rel it)) by by apply elem_claimants.
  assert (C' : it' ∈ claimants items (i_rel it)) by by apply elem_claimants.
  pose proof (lo_le _ _ C). rewrite E in C'. pose proof (lo_le _ _ C').
  destruct (resolve_cases it H) as [[_ K]|[[_ K]|(_ & K & _)]]; [|congruence..].
  destruct (resolve_cases it' H') as [[_ K']|[[_ K']|(_ & K' & _)]]; [|congruence..].
  specialize (K P). specialize (K' P'). rewrite <- E in *.
  destruct K as [?|[F|[[? X]|[? F]]]]; [left; lia| |..].
  - right. rewrite Forall_forall in F. split; [by apply F|by apply F].
  - destruct K' as [?|[F'|[[? X']|[? F']]]]; [left; lia| |left; lia|].
    + right. rewrite Forall_forall in F'. split; [by apply F'|by apply F'].
    + exfalso. apply Exists_exists in X as (x & Hx & Dx). rewrite Forall_forall in F'. specialize (F' x Hx). congruence.
  - destruct K' as [?|[F'|[[? X']|[? F']]]]; [left; lia| |..|left; lia].
    + rewrite Forall_forall in F'. right. split; [by apply F'|by apply F'].
    + exfalso. apply Exists_exists in X' as (x & Hx & Dx). rewrite Forall_forall in F. specialize (F x Hx). congruence.
Qed.

(** What replaced a superseded entry. *)
Lemma superseded_by it : it ∈ plan opts dists -> i_status it = Superseded ->
  (exists s, (i_set it < s)%nat /\ ships s (r_product (i_rec it))) \/
  (exists it', it' ∈ plan opts dists /\ i_status it' = Pending /\ i_rel it' = i_rel it /\ (i_set it < i_set it')%nat).
Proof.
  intros (it0 & H0 & ->)%elem_plan HS. destruct (resolve_cases it0 H0) as [[E _]|[[_ E]|(P & E & Hlt & Hne & F)]].
  - rewrite E in *. left. by apply listed_superseded.
  - congruence.
  - right. destruct (resolve_set it0) as (-> & -> & _).
    unfold hi in Hlt. destruct (fold_max_in (i_set it0) (i_set <$> claimants items (i_rel it0))) as [Hx|Hx]; [lia|].
    apply list_elem_of_fmap in Hx as (x & Ex & Hx). pose proof Hx as (Hxi & Px & Rx)%elem_claimants.
    destruct (bounds_same it0 x H0 Hxi P Px) as [El Eh]; [done|].
    assert (Hix : i_set x = hi (i_rel x) x) by (rewrite <- Eh; unfold hi; lia).
    assert (Rxx : resolve_item items x = x).
    { destruct (resolve_cases x Hxi) as [[-> _]|[[_ E']|(_ & _ & Hlt' & _)]]; [done| |lia].
      exfalso. unfold resolve_item in E'. rewrite (proj2 (pending_spec x)) in E' by done. cbn [negb] in E'.
      fold (lo (i_rel x) x) (hi (i_rel x) x) in E'. rewrite Rx in *.
      assert (existsb entry_dir (claimants items (i_rel it0)) = false) as Hd.
      { apply not_true_iff_false. intros (y & Hy%list_elem_of_In & Dy)%existsb_exists. rewrite Forall_forall in F. specialize (F y Hy). congruence. }
      rewrite Hd in E'. cbn [andb negb] in E'. destruct ((_ =? _)%nat || _); [congruence|].
      rewrite (proj2 (Nat.ltb_ge _ _)) in E' by (unfold hi in *; lia). congruence. }
    exists x. split_and!; [apply elem_plan; by exists x|done|done|lia].
Qed.
End settled.

(** *** Which entries are left to write *)

Section claims.
Context (opts : Options) (dists : list dist).

(** An entry that has something to write at a path of the set: a directory, a link or a
    file, not of the removal history, inside the set, of a product that no later set
    ships again. *)
Definition claims (it : item) : Prop := exists e, i_entry it = Some e /\ (cleanInstallPath (Idb.Path e)).2 = true /\
  is_dir e || is_link e || is_file e = true /\ str "delhist" ∉ Flags e /\
  forall s, ships dists s (r_product (i_rec it)) -> (s <= i_set it)%nat.

(** The entry an item is of. *)
Definition item_of (it : item) (e : Entry) : Prop := i_rel it = (cleanInstallPath (Idb.Path e)).1 /\
  exists d p, dists !! i_set it = Some d /\ p ∈ x_products d /\ e ∈ Entries p /\ r_product (i_rec it) = Inst.Name p.

Lemma listed_item it e : it ∈ listed opts dists -> i_entry it = Some e -> item_of it e.
Proof.
  intros (s & d & p & Hs & Hp & [Hit|Hit]%elem_of_app)%elem_listed; [|apply list_elem_of_fmap in Hit as (b & -> & _); done].
  apply list_elem_of_omap in Hit as (e' & He & Hit). unfold entry_item in Hit. destruct (matchAny _ _); [|done]. cbn [negb] in Hit.
  destruct (cleanInstallPath (Idb.Path e')) as [rel ok] eqn:Ec. intros Hie.
  assert (i_set it = s /\ i_entry it = Some e' /\ i_rel it = rel /\ r_product (i_rec it) = Inst.Name p) as (H1 & H2 & H3 & H4).
  { clear Hie. repeat case_match; simplify_eq; by split_and!. }
  rewrite Hie in H2. injection H2 as ->. split; [by rewrite H3, Ec|]. exists d, p. by rewrite H1.
Qed.

(** Pending before paths are compared. *)
Lemma listed_claims it : it ∈ listed opts dists -> i_status it = Pending <-> claims it.
Proof.
  intros Hin. split.
  - intros P. pose proof (listed_pending opts dists it Hin P) as [_ (e & p & d & He & Hd & Hp & Hin' & Hk & Hl & Hr)].
    exists e. split; [done|]. destruct (elem_listed opts dists it Hin) as (s & d' & p' & Hs & Hp' & [Hit|Hit]%elem_of_app);
      [|apply list_elem_of_fmap in Hit as (b & -> & _); done].
    apply list_elem_of_omap in Hit as (e' & He' & Hit). unfold entry_item in Hit. destruct (matchAny _ _); [|done]. cbn [negb] in Hit.
    destruct (cleanInstallPath (Idb.Path e')) as [rel ok] eqn:Ec.
    assert (ok = true /\ str "delhist" ∉ Flags e' /\ e' = e) as (-> & Hdel & ->).
    { destruct ok; cbn [negb andb] in Hit; [|by repeat case_match; simplify_eq]. split; [done|].
      destruct (_ && negb (underAny _ _)); [done|]. destruct (s <? _)%nat; [by simplify_eq|].
      case_bool_decide; [by simplify_eq|]. destruct (_ =? 88); [by simplify_eq|]. destruct (negb _ && negb _ && negb _); [by simplify_eq|].
      split; [done|]. simplify_eq. cbn in He. by injection He. }
    rewrite Ec. split_and!; [done..|]. intros s' Hs'. rewrite Hr in Hs'. cbn in Hs'. pose proof (last_latest dists s' _ Hs'). lia.
  - intros (e & He & Hok & Hk & Hdel & Hlater). destruct (elem_listed opts dists it Hin) as (s & d & p & Hs & Hp & [Hit|Hit]%elem_of_app);
      [|apply list_elem_of_fmap in Hit as (b & -> & _); done].
    apply list_elem_of_omap in Hit as (e' & He' & Hit). unfold entry_item in Hit. destruct (matchAny _ _); [|done]. cbn [negb] in Hit.
    destruct (cleanInstallPath (Idb.Path e')) as [rel ok] eqn:Ec.
    assert (e' = e /\ i_set it = s /\ r_product (i_rec it) = Inst.Name p) as (-> & <- & Hr) by (repeat case_match; simplify_eq; by (cbn in He; simplify_eq)).
    rewrite Ec in Hok. cbn in Hok. subst ok. cbn [negb andb] in Hit. destruct (_ && negb (underAny _ _)); [done|].
    rewrite (proj2 (Nat.ltb_ge _ _)) in Hit.
    2: { destruct (decide (last dists (Inst.Name p) <= i_set it)%nat) as [|Hn]; [done|]. rewrite Hr in Hlater.
         apply Hlater. apply last_ships with (s := i_set it). lia. }
    rewrite (bool_decide_false _ Hdel) in Hit.
    replace (Type_ e =? 88) with false in Hit by (unfold is_dir, is_link, is_file in Hk; symmetry; apply Z.eqb_neq; intros E; rewrite E in Hk; done).
    destruct (is_dir e), (is_link e), (is_file e); try done; cbn [negb andb] in Hit; by injection Hit as <-.
Qed.

(** The entries that claim the path of an item, which are those of the plan. *)
Definition rival (items : list item) (it x : item) : Prop := x ∈ items /\ claims x /\ i_rel x = i_rel it.

Lemma claims_resolve it : claims (resolve_item (listed opts dists) it) <-> claims it.
Proof.
  unfold claims. destruct (resolve_set opts dists it) as (-> & _ & ->).
  assert (r_product (i_rec (resolve_item (listed opts dists) it)) = r_product (i_rec it)) as -> by (unfold resolve_item; by repeat case_match). done.
Qed.

Lemma rivals_listed it x : rival (plan opts dists) it x -> exists x0, x0 ∈ claimants (listed opts dists) (i_rel it) /\ i_set x0 = i_set x /\ entry_dir x0 = entry_dir x.
Proof.
  intros ((x0 & H0 & ->)%elem_plan & Hc & Hr). apply (proj1 (claims_resolve x0)) in Hc. destruct (resolve_set opts dists x0) as (Hset & Hrel & Hent). exists x0. split_and!.
  - apply elem_claimants. split; [done|]. split; [exact (proj2 (listed_claims x0 H0) Hc)|congruence].
  - done.
  - unfold entry_dir. by rewrite Hent.
Qed.

Lemma listed_rivals it x0 : x0 ∈ claimants (listed opts dists) (i_rel it) -> exists x, rival (plan opts dists) it x /\ i_set x = i_set x0 /\ entry_dir x = entry_dir x0.
Proof.
  intros (Hin & P & Hr)%elem_claimants. destruct (resolve_set opts dists x0) as (Hset & Hrel & Hent).
  exists (resolve_item (listed opts dists) x0). split_and!.
  - split_and!; [apply elem_plan; by exists x0|exact (proj2 (claims_resolve x0) (proj1 (listed_claims x0 Hin) P))|congruence].
  - done.
  - unfold entry_dir. by rewrite Hent.
Qed.

(** Whether a claim of a set stands against the claims of its path: they are all
    directories; or none is, and none is of a later set; or both meet, and none is of an
    earlier one. *)
Definition stands_in (P : item -> Prop) (s : nat) : Prop :=
  (forall x, P x -> entry_dir x = true) \/
  (forall x, P x -> entry_dir x = false /\ (i_set x <= s)%nat) \/
  (exists x y, P x /\ P y /\ entry_dir x = true /\ entry_dir y = false) /\ (forall x, P x -> (s <= i_set x)%nat).

Definition stands (items : list item) (it : item) : Prop := stands_in (rival items it) (i_set it).

Definition alike (P Q : item -> Prop) : Prop := forall x, P x -> exists y, Q y /\ i_set y = i_set x /\ entry_dir y = entry_dir x.

Lemma stands_alike P Q s : alike P Q -> alike Q P -> stands_in P s -> stands_in Q s.
Proof.
  intros HPQ HQP [H|[H|[(x & y & Hx & Hy & Dx & Dy) H]]].
  - left. intros x (x' & Hx & _ & <-)%HQP. by apply H.
  - right; left. intros x (x' & Hx & <- & <-)%HQP. by apply H.
  - right; right. destruct (HPQ x Hx) as (x' & Hx' & _ & Ex), (HPQ y Hy) as (y' & Hy' & _ & Ey). split; [exists x', y'; by rewrite Ex, Ey|].
    intros z (z' & Hz & <- & _)%HQP. by apply H.
Qed.

Lemma stands_claimants it : stands (plan opts dists) (resolve_item (listed opts dists) it) <->
  stands_in (fun x => x ∈ claimants (listed opts dists) (i_rel it)) (i_set it).
Proof.
  destruct (resolve_set opts dists it) as (Hset & Hrel & _). unfold stands. rewrite Hset. split; apply stands_alike; intros x Hx.
  - rewrite <- Hrel. by apply rivals_listed.
  - apply listed_rivals. by rewrite Hrel.
  - apply listed_rivals. by rewrite Hrel.
  - rewrite <- Hrel. by apply rivals_listed.
Qed.

(** Whether there is a directory, or another entry, among some. *)
Lemma exists_spec (f : item -> bool) l : if existsb f l then exists x, x ∈ l /\ f x = true else forall x, x ∈ l -> f x = false.
Proof.
  destruct (existsb f l) eqn:E; [apply existsb_exists in E as (x & Hx%list_elem_of_In & Hf); eauto|].
  intros x Hx%list_elem_of_In. apply not_true_iff_false. intros Hf. apply not_true_iff_false in E. apply E, existsb_exists. eauto.
Qed.

(** The earliest and the latest set among the claims of a path. *)
Lemma bounds_reached it : it ∈ claimants (listed opts dists) (i_rel it) ->
  (forall x, x ∈ claimants (listed opts dists) (i_rel it) -> (lo opts dists (i_rel it) it <= i_set x <= hi opts dists (i_rel it) it)%nat) /\
  (exists x, x ∈ claimants (listed opts dists) (i_rel it) /\ i_set x = lo opts dists (i_rel it) it) /\
  (exists x, x ∈ claimants (listed opts dists) (i_rel it) /\ i_set x = hi opts dists (i_rel it) it).
Proof.
  intros Hself. set (its := claimants _ _) in *. assert (Hs : i_set it ∈ i_set <$> its) by (apply list_elem_of_fmap; by exists it). unfold lo, hi. fold its. split_and!.
  - intros x Hx. assert (i_set x ∈ i_set <$> its) by (apply list_elem_of_fmap; by exists x). split; [by apply fold_min_le|by apply fold_max_ge].
  - destruct (proj1 (list_elem_of_fmap _ _ _) (fold_min_in (i_set it) _ Hs)) as (x & Ex & Hx). by exists x.
  - destruct (fold_max_in (i_set it) (i_set <$> its)) as [->|Hx]; [by exists it|]. apply list_elem_of_fmap in Hx as (x & Ex & Hx). by exists x.
Qed.

(** Comparing paths leaves a claim pending exactly when it stands. *)
Lemma resolve_stands it : it ∈ listed opts dists -> claims it ->
  i_status (resolve_item (listed opts dists) it) = Pending <-> stands (plan opts dists) (resolve_item (listed opts dists) it).
Proof.
  intros Hin Hc. pose proof (proj2 (listed_claims it Hin) Hc) as P. rewrite stands_claimants.
  assert (Hself : it ∈ claimants (listed opts dists) (i_rel it)) by by apply elem_claimants.
  destruct (bounds_reached it Hself) as (Hb & (xmin & Hxmin & Emin) & (xmax & Hxmax & Emax)). pose proof (Hb it Hself) as Hi.
  unfold resolve_item. rewrite (proj2 (pending_spec it) P). cbn [negb]. fold (lo opts dists (i_rel it) it) (hi opts dists (i_rel it) it).
  set (l := lo _ _ _ it) in *. set (h := hi _ _ _ it) in *. set (its := claimants _ _) in *. unfold stands_in.
  pose proof (exists_spec (fun x => negb (entry_dir x)) its) as Hfiles. pose proof (exists_spec entry_dir its) as Hdirs.
  destruct (existsb (fun x => negb (entry_dir x)) its); cbn [negb].
  2: { rewrite orb_true_r. split; [intros _; left; intros x Hx; by apply negb_false_iff, Hfiles|done]. }
  destruct Hfiles as (y & Hy & Dy%negb_true_iff). rewrite orb_false_r. destruct (existsb entry_dir its); cbn [negb andb].
  - destruct Hdirs as (x & Hx & Dx). transitivity (i_set it = l).
    + destruct (Nat.eqb_spec l h) as [El|El]; [split; [intros _; lia|done]|]. destruct (Nat.eqb_spec (i_set it) l) as [Ei|Ei]; cbn [negb]; [done|by split].
    + split; [intros E; right; right; split; [by exists x, y|intros z Hz; rewrite E; apply (Hb z Hz)]|].
      intros [H|[H|[_ H]]]; [rewrite (H y Hy) in Dy; done|destruct (H x Hx); congruence|specialize (H xmin Hxmin); lia].
  - transitivity (i_set it = h).
    + destruct (Nat.eqb_spec l h) as [El|El]; [split; [intros _; lia|done]|]. destruct (Nat.ltb_spec (i_set it) h) as [Ei|Ei]; [split; [done|lia]|split; [intros _; lia|done]].
    + split; [intros E; right; left; intros x Hx; split; [by apply Hdirs|rewrite E; apply (Hb x Hx)]|].
      intros [H|[H|[(x & z & Hx & _ & Dx & _) _]]]; [rewrite (H y Hy) in Dy; done|destruct (H xmax Hxmax); lia|rewrite (Hdirs x Hx) in Dx; done].
Qed.

(** Left to write: a claim that stands. *)
Lemma plan_pending it : it ∈ plan opts dists -> i_status it = Pending <-> claims it /\ stands (plan opts dists) it.
Proof.
  intros (it0 & H0 & ->)%elem_plan. rewrite claims_resolve. split.
  - intros HP. assert (P0 : i_status it0 = Pending) by (destruct (resolve_cases opts dists it0 H0) as [[E _]|[[? _]|[? _]]]; [by rewrite <- E|done..]).
    pose proof (proj1 (listed_claims it0 H0) P0) as Hc. split; [done|]. by apply resolve_stands.
  - intros [Hc Hs]. by apply resolve_stands.
Qed.

Lemma plan_item it e : it ∈ plan opts dists -> i_entry it = Some e -> item_of it e.
Proof.
  intros (it0 & H0 & ->)%elem_plan. destruct (resolve_set opts dists it0) as (Hset & Hrel & ->). intros He. pose proof (listed_item it0 e H0 He) as H.
  unfold item_of in *. rewrite Hset, Hrel.
  assert (r_product (i_rec (resolve_item (listed opts dists) it0)) = r_product (i_rec it0)) as -> by (unfold resolve_item; by repeat case_match). done.
Qed.
End claims.

(** C8. What an extraction is to write. Each entry the options keep has one item, in the
    order of the sets, of their products and of the manifests, at its cleaned path. It is
    left to write exactly when it claims its path - it is a directory, a link or a file
    inside the set, not of the removal history, of a product that no later set ships
    again - and stands against the others that do: they are all directories, or none is
    and none is of a later set, or a directory and another meet and none is of an earlier
    set. So two that are left at a path are of one set, or directories. And an entry is
    superseded only when a later set ships its product again, or has what is written at
    its path. *)
Theorem plan_settles opts dists :
  let items := plan opts dists in
  i_entry <$> items = mjoin ((fun d => mjoin ((fun p =>
    (Some <$> filter (fun e => keeps opts e = true) (Entries p)) ++ ((fun _ => None) <$> BadLines p)) <$> x_products d)) <$> dists) /\
  (forall it e, it ∈ items -> i_entry it = Some e -> item_of dists it e) /\
  (forall it, it ∈ items -> i_status it = Pending <-> claims dists it /\ stands dists items it) /\
  (forall it, it ∈ items -> i_status it = Pending -> below (i_rel it)) /\
  (forall it it', it ∈ items -> it' ∈ items -> i_status it = Pending -> i_status it' = Pending -> i_rel it = i_rel it' ->
     i_set it = i_set it' \/ entry_dir it = true /\ entry_dir it' = true) /\
  (forall it, it ∈ items -> i_status it = Superseded ->
     (exists s, (i_set it < s)%nat /\ ships dists s (r_product (i_rec it))) \/
     (exists it', it' ∈ items /\ i_status it' = Pending /\ i_rel it' = i_rel it /\ (i_set it < i_set it')%nat)).
Proof.
  cbn zeta. split; [|split; [|split; [|split; [|split]]]].
  - unfold plan. rewrite <- list_fmap_compose.
    transitivity (i_entry <$> listed opts dists).
    { apply list_fmap_ext. intros i it _. apply resolve_set. }
    unfold listed. rewrite fmap_mjoin. f_equal. rewrite fmap_imap, <- imap_const.
    apply imap_ext. intros s d _. cbn. unfold dist_items. rewrite fmap_mjoin. f_equal.
    rewrite <- list_fmap_compose. apply list_fmap_ext. intros ? p _. apply entries_kept.
  - apply plan_item.
  - apply plan_pending.
  - intros it H P. apply pending_plan in H as [H _]; [|done]. apply (listed_pending opts dists it H P).
  - apply pending_meet.
  - apply superseded_by.
Qed.
