(* ===== verification/Rel.v ===== *)
(** Relative paths between places of a tree: Go's [filepath.Rel] on Unix, and where a
    path leads from a directory, element by element. *)
From S2P Require Import Prelude Text Path Strconv Strings Extract.

(** ** [filepath.Rel] *)

Fixpoint drop_common (b t : list bytes) : list bytes * list bytes :=
  match b, t with
  | x :: b', y :: t' => if bool_decide (x = y) then drop_common b' t' else (b, t)
  | _, _ => (b, t)
  end.

Definition elements (p : bytes) : list bytes := if bool_decide (p = []) then [] else split_byte slash p.

(** [None] is the error. *)
Definition Rel (basepath targpath : bytes) : option bytes :=
  let base := Clean basepath in
  let targ := Clean targpath in
  if bool_decide (targ = base) then Some [dot]
  else
    let base := if bool_decide (base = [dot]) then [] else base in
    if negb (Bool.eqb (IsAbs base) (IsAbs targ)) then None
    else
      let '(b, t) := drop_common (elements base) (elements targ) in
      match b with
      | [] => Some (join_slash t)
      | x :: _ =>
          if bool_decide (x = dotdot) && negb (zlen t =? 0) then None
          else Some (join_slash (replicate (length b) dotdot ++ t))
      end.

Example Rel_demo :
  Rel (str "usr/lib") (str "usr/lib/X11/fonts") = Some (str "X11/fonts") /\
  Rel (str "usr/sbin") (str "etc/config") = Some (str "../../etc/config") /\
  Rel (str "a/b") (str "a") = Some (str "..") /\ Rel (str "a") (str ".") = Some (str "../.").
Proof. split_and!; vm_compute; reflexivity. Qed.

(** ** Where a path leads *)

(** From the directory with the elements [D], taking the elements of [t] in turn. *)
Definition walk (D : list bytes) (t : bytes) : list bytes :=
  reverse (foldl (clean_step false) (reverse D) (split_byte slash t)).

(** The path with the elements, "." for none. *)
Definition path_at (els : list bytes) : bytes := if bool_decide (els = []) then [dot] else join_slash els.

(** Elements a clean relative path may have. *)
Definition clean_shape (l : list bytes) : Prop :=
  exists ups names, l = ups ++ names /\ Forall (fun e => e = dotdot) ups /\ Forall name_ok names.

Lemma clean_shape_els els : Forall (fun e => slash ∉ e) els -> clean_shape (clean_els false els).
Proof.
  intros Hs. destruct (clean_els_shape false els) as (ups & names & He & Hu & Hn & _).
  exists ups, names. split_and!; [done..|]. pose proof (clean_els_ok false els Hs) as Hk. rewrite He, Forall_app in Hk.
  destruct Hk as [_ Hk]. rewrite Forall_forall in *. intros e Hin. destruct (Hk e Hin) as [->|]; [|done]. by destruct (Hn dotdot Hin).
Qed.

Lemma clean_els_app D els : Forall name_ok D ->
  clean_els false (D ++ els) = reverse (foldl (clean_step false) (reverse D) els).
Proof.
  intros HD. unfold clean_els. rewrite foldl_app. f_equal. f_equal.
  pose proof (clean_els_names false D HD) as H. unfold clean_els in H.
  rewrite <- (reverse_involutive (foldl (clean_step false) [] D)). by rewrite H.
Qed.

Lemma clean_shape_again l : clean_shape l -> clean_els false l = l.
Proof.
  intros (ups & names & -> & Hu & Hn). unfold clean_els. rewrite foldl_app.
  assert (H : forall kept, Forall (fun e => e = dotdot) kept -> foldl (clean_step false) kept ups = ups ++ kept).
  { clear Hn. induction Hu as [|u ups -> Hu IH]; intros kept Hk; [done|]. cbn [foldl].
    assert (clean_step false kept dotdot = dotdot :: kept) as ->.
    { unfold clean_step. destruct Hk as [|x k -> Hk]; [done|]. rewrite (bool_decide_false (dotdot = [])), (bool_decide_false (dotdot = [dot])), (bool_decide_true (dotdot = dotdot)) by done.
      cbn [orb]; (done || by rewrite (bool_decide_true (dotdot = dotdot))). }
    rewrite IH by by constructor. clear IH. cbn [app]. induction Hu as [|v ups -> _ IH]; [done|]. cbn [app]. by rewrite IH. }
  rewrite H, app_nil_r by done.
  assert (H' : forall kept, foldl (clean_step false) kept names = reverse names ++ kept).
  { clear H Hu. induction Hn as [|e names (H1 & H2 & H3 & _) Hn IH]; intros kept; [done|]. cbn [foldl].
    rewrite IH, reverse_cons, <- app_assoc. f_equal. unfold clean_step. by rewrite !bool_decide_false by done. }
  rewrite H', reverse_app, reverse_involutive. f_equal.
  assert (ups = replicate (length ups) dotdot) as ->. { clear -Hu. induction Hu as [|u ups -> _ IH]; [done|]. cbn. by rewrite <- IH. }
  apply reverse_replicate.
Qed.

Lemma Forall_clean_slash l : clean_shape l -> Forall (fun e => slash ∉ e) l.
Proof.
  intros (ups & names & -> & Hu & Hn). apply Forall_app. split; [|by apply names_no_slash].
  eapply Forall_impl; [exact Hu|]. intros e ->. unfold dotdot. set_solver.
Qed.

Lemma clean_shape_path l : clean_shape l -> l <> [] ->
  join_slash l <> [] /\ IsAbs (join_slash l) = false /\ split_byte slash (join_slash l) = l.
Proof.
  intros Hc Hne. pose proof (split_join l Hne (Forall_clean_slash l Hc)) as Hs. destruct Hc as (ups & names & -> & Hu & Hn).
  assert (Hx : exists x r, ups ++ names = x :: r /\ x <> [] /\ slash ∉ x).
  { destruct ups as [|u ups]; [destruct names as [|x r]; [done|]; inv Hn as [|? ? (? & _ & _ & ?) _]; by exists x, r|].
    inv Hu as [|? ? -> _]. exists dotdot, (ups ++ names). split_and!; [done|done|]. unfold dotdot. set_solver. }
  destruct Hx as (x & r & E & Hx & Hsx). revert Hs. rewrite E. intros Hs. split; [|split; [|exact Hs]].
  - destruct r; cbn; by destruct x.
  - destruct x as [|c x]; [done|]. apply not_elem_of_cons in Hsx as [Hsx _]. destruct r; cbn; apply Z.eqb_neq; congruence.
Qed.

Lemma Clean_path_at l : clean_shape l -> Clean (path_at l) = path_at l.
Proof.
  intros Hc. unfold path_at. case_bool_decide as E; [done|]. destruct (clean_shape_path l Hc E) as (Hj & Ha & Hs).
  unfold Clean. rewrite Ha, Hs, clean_shape_again by done. cbn [app]. by rewrite bool_decide_false.
Qed.

Lemma TrimLeft_path_at l : clean_shape l -> TrimLeft (path_at l) [slash] = path_at l.
Proof.
  intros Hc. unfold path_at. case_bool_decide as E; [done|]. destruct (clean_shape_path l Hc E) as (Hj & Ha & _).
  unfold TrimLeft. destruct (join_slash l) as [|c t]; [done|]. cbn [IsAbs] in Ha. apply Z.eqb_neq in Ha. cbn [drop_while].
  assert (contains [slash] c = false) as ->; [|done]. apply bool_decide_false. set_solver.
Qed.

Lemma Clean_relative_path p : IsAbs p = false -> Clean p = path_at (clean_els false (split_byte slash p)).
Proof.
  intros Ha. unfold Clean, path_at. rewrite Ha. cbn [app].
  destruct (decide (clean_els false (split_byte slash p) = [])) as [->|Hne]; [done|].
  destruct (clean_shape_path _ (clean_shape_els _ (split_elements p)) Hne) as (Hj & _ & _).
  by rewrite !bool_decide_false.
Qed.

(** [cleanInstallPath] of a path that is clean already: it is below the root, the root,
    or leaves it. *)
Lemma cleanInstallPath_at l : clean_shape l ->
  (cleanInstallPath (path_at l)).1 = path_at l /\
  ((cleanInstallPath (path_at l)).2 = true -> l <> [] /\ Forall name_ok l) /\
  (path_at l = [dot] -> l = []) /\
  (Forall name_ok l -> l <> [] -> (cleanInstallPath (path_at l)).2 = true).
Proof.
  intros Hc. unfold cleanInstallPath. rewrite TrimLeft_path_at, Clean_path_at by done. cbn [fst snd]. split; [done|].
  assert (Hdot : path_at l = [dot] -> l = []).
  { unfold path_at. case_bool_decide as E; [done|]. destruct (clean_shape_path l Hc E) as (_ & _ & Hs). intros Hd. rewrite Hd in Hs.
    change (split_byte slash [dot]) with [[dot]] in Hs. subst l. destruct Hc as (ups & names & E' & Hu & Hn).
    assert (Hin : [dot] ∈ ups ++ names) by (rewrite <- E'; by left). rewrite !Forall_forall in *.
    apply elem_of_app in Hin as [H|H]; [by specialize (Hu _ H)|by destruct (Hn _ H) as (_ & ? & _)]. }
  split; [|split; [exact Hdot|]].
  - rewrite !andb_true_iff, !negb_true_iff, !bool_decide_eq_false. intros [[H1 H2] H3].
    assert (Hne : l <> []) by (by intros ->). split; [done|].
    destruct Hc as (ups & names & -> & Hu & Hn). destruct Hu as [|u ups -> Hu]; [done|]. exfalso.
    unfold path_at in *. rewrite bool_decide_false in * by done. cbn [app] in *. destruct (ups ++ names) as [|x r]; [done|].
    assert (HasPrefix (join_slash (dotdot :: x :: r)) (dotdot ++ [slash]) = true) as Hp; [|congruence].
    apply HasPrefix_spec. by exists (join_slash (x :: r)).
  - intros Hn Hne. rewrite !andb_true_iff, !negb_true_iff, !bool_decide_eq_false.
    unfold path_at in *. rewrite bool_decide_false in * by done. destruct (clean_shape_path l Hc Hne) as (_ & _ & Hs).
    split; [split|].
    + intros E. by apply Hne, Hdot.
    + intros E. rewrite E in Hs. change (split_byte slash dotdot) with [dotdot] in Hs. subst l. inv Hn as [|? ? (_ & _ & ? & _) _]; done.
    + apply not_true_iff_false. intros [r Hr]%HasPrefix_spec. rewrite Hr, <- app_assoc in Hs.
      change ([slash] ++ r) with (slash :: r) in Hs. rewrite split_cons_slash in Hs by (unfold dotdot; set_solver).
      subst l. inv Hn as [|? ? (_ & _ & ? & _) _]; done.
Qed.

(** ** Links *)

(** A link at [at_] leads, as it is written, to a place below the root or the root. *)
Definition inside_link (at_ target : bytes) : Prop := IsAbs target = false /\ exists D n,
  at_ = join_slash (D ++ [n]) /\ Forall name_ok D /\ name_ok n /\ Forall name_ok (walk D target).

Lemma path_at_not_nil l : clean_shape l -> path_at l <> [] /\ IsAbs (path_at l) = false.
Proof.
  intros Hc. unfold path_at. case_bool_decide as E; [done|]. by destruct (clean_shape_path l Hc E) as (? & ? & _).
Qed.

Lemma names_shape l : Forall name_ok l -> clean_shape l.
Proof. intros H. by exists [], l. Qed.

Lemma Join_walk D target : Forall name_ok D -> target <> [] ->
  Join (path_at D) target = path_at (walk D target) /\ clean_shape (walk D target).
Proof.
  intros HD Ht. destruct (path_at_not_nil D (names_shape D HD)) as [Hp Ha].
  assert (Hs : clean_els false (split_byte slash (path_at D ++ slash :: target)) = walk D target).
  { unfold path_at. case_bool_decide as E.
    - subst D. rewrite split_cons_slash by set_solver. reflexivity.
    - rewrite split_join_app by (done || by apply names_no_slash). by rewrite clean_els_app. }
  split.
  - unfold Join. rewrite bool_decide_false by done. change ([slash] ++ target) with (slash :: target).
    rewrite Clean_relative_path; [by rewrite Hs|]. by destruct (path_at D).
  - rewrite <- Hs. apply clean_shape_els, split_elements.
Qed.

Lemma walk_inside D target : Forall name_ok D -> target <> [] ->
  let r := cleanInstallPath (Join (path_at D) target) in
  (r.2 = true \/ r.1 = [dot]) -> Forall name_ok (walk D target) /\ r.1 = path_at (walk D target).
Proof.
  intros HD Ht r. subst r. destruct (Join_walk D target HD Ht) as [-> Hc].
  destruct (cleanInstallPath_at _ Hc) as (-> & H1 & H2 & _). intros [H|H]; (split; [|done]); [by apply H1|].
  by rewrite (H2 H).
Qed.

(** What [Rel] gives leads from the one place to the other. *)
Lemma drop_common_spec b t : let '(b', t') := drop_common b t in exists c, b = c ++ b' /\ t = c ++ t'.
Proof.
  revert t. induction b as [|x b IH]; intros [|y t]; cbn; [by exists []..|].
  case_bool_decide as E; [|by exists []]. subst. specialize (IH t). destruct (drop_common b t) as [b' t'].
  destruct IH as (c & -> & ->). by exists (y :: c).
Qed.

Lemma foldl_ups kept n : Forall name_ok (take n kept) -> (n <= length kept)%nat ->
  foldl (clean_step false) kept (replicate n dotdot) = drop n kept.
Proof.
  revert kept. induction n as [|n IH]; intros kept Hk Hl; [done|]. destruct kept as [|k kept]; [cbn in Hl; lia|].
  cbn in Hk, Hl. inv Hk as [|? ? (H1 & H2 & H3 & _) Hk']. cbn [replicate foldl drop].
  assert (clean_step false (k :: kept) dotdot = kept) as ->.
  { unfold clean_step. rewrite (bool_decide_false (dotdot = [])), (bool_decide_false (dotdot = [dot])), (bool_decide_true (dotdot = dotdot)) by done.
    cbn [orb]. by rewrite bool_decide_false. }
  apply IH; [done|lia].
Qed.

Lemma foldl_names kept names : Forall name_ok names -> foldl (clean_step false) kept names = reverse names ++ kept.
Proof.
  intros Hn. revert kept. induction Hn as [|e names (H1 & H2 & H3 & _) Hn IH]; intros kept; [done|]. cbn [foldl].
  rewrite IH, reverse_cons, <- app_assoc. f_equal. unfold clean_step. by rewrite !bool_decide_false by done.
Qed.

Lemma elements_at l : clean_shape l -> elements (path_at l) = if bool_decide (l = []) then [[dot]] else l.
Proof.
  intros Hc. unfold elements, path_at. destruct (decide (l = [])) as [->|E]; [done|].
  destruct (clean_shape_path l Hc E) as (Hj & _ & Hs). rewrite !(bool_decide_false (l = [])) by done.
  by rewrite bool_decide_false.
Qed.

Lemma elements_base l : Forall name_ok l -> elements (if bool_decide (path_at l = [dot]) then [] else path_at l) = l.
Proof.
  intros Hl. case_bool_decide as E.
  - symmetry. by apply (cleanInstallPath_at l (names_shape l Hl)).
  - rewrite elements_at by by apply names_shape. rewrite bool_decide_false; [done|]. by intros ->.
Qed.

Lemma Rel_walk D R r : Forall name_ok D -> Forall name_ok R -> Rel (path_at D) (path_at R) = Some r ->
  IsAbs r = false /\ r <> [] /\ walk D r = R.
Proof.
  intros HD HR. unfold Rel. rewrite !Clean_path_at by by apply names_shape.
  case_bool_decide as E.
  - intros [= <-]. split_and!; [done|done|]. unfold walk. change (split_byte slash [dot]) with [[dot]]. cbn [foldl].
    change (clean_step false ?k [dot]) with k. rewrite reverse_involutive.
    assert (Hj : forall l, Forall name_ok l -> path_at l = [dot] -> l = []) by (intros l Hl; apply cleanInstallPath_at, names_shape, Hl).
    unfold path_at in E. repeat case_bool_decide; subst; try done.
    + symmetry in E. apply (Hj D HD). unfold path_at. by rewrite bool_decide_false.
    + symmetry. apply (Hj R HR). unfold path_at. by rewrite bool_decide_false.
    + apply (f_equal (split_byte slash)) in E. by rewrite !split_join in E by (done || by apply names_no_slash).
  - destruct (path_at_not_nil D (names_shape D HD)) as [_ HaD]. destruct (path_at_not_nil R (names_shape R HR)) as [_ HaR].
    assert (HaB : IsAbs (if bool_decide (path_at D = [dot]) then [] else path_at D) = false) by by case_bool_decide.
    rewrite HaB, HaR. cbn [Bool.eqb negb]. rewrite elements_base by done. rewrite elements_at by by apply names_shape.
    set (T := if bool_decide (R = []) then [[dot]] else R).
    pose proof (drop_common_spec D T) as Hdc. destruct (drop_common D T) as [b t]. destruct Hdc as (c & ED & ET).
    pose proof HD as HD'. rewrite ED, Forall_app in HD'. destruct HD' as [Hc Hb].
    assert (Hts : Forall (fun e => slash ∉ e) t /\ foldl (clean_step false) (reverse c) t = reverse R).
    { unfold T in ET. case_bool_decide as ER.
      - subst R. destruct c as [|y c]; cbn in ET; [subst t; split; [apply Forall_singleton; set_solver|done]|].
        injection ET as <- _. inv Hc as [|? ? (_ & ? & _) _]; done.
      - rewrite ET, Forall_app in HR. destruct HR as [_ Ht]. split; [by apply names_no_slash|].
        rewrite foldl_names by done. by rewrite ET, reverse_app. }
    destruct Hts as [Hts Hfold]. destruct b as [|x b].
    + rewrite app_nil_r in ED. subst c. intros [= <-].
      assert (Htne : t <> []).
      { intros ->. rewrite app_nil_r in ET. unfold T in ET. case_bool_decide as ER; [|by subst; apply E].
        rewrite <- ET in HD. inv HD as [|? ? (_ & ? & _) _]; done. }
      assert (Htc : clean_shape t).
      { unfold T in ET. case_bool_decide as ER.
        - destruct D as [|y D']; [|exfalso; injection ET as <- _; inv HD as [|? ? (_ & ? & _) _]; done]. by subst R.
        - rewrite ET, Forall_app in HR. by apply names_shape, HR. }
      destruct (clean_shape_path t Htc Htne) as (Hjn & Hja & _).
      unfold walk. rewrite split_join by done. rewrite Hfold, reverse_involutive. split_and!; [| |done].
      * exact Hja.
      * exact Hjn.
    + rewrite (bool_decide_false (x = dotdot)) by (inv Hb as [|? ? (_ & _ & ? & _) _]; done). cbn [andb].
      set (ups := replicate (length (x :: b)) dotdot). intros Hr. assert (r = join_slash (ups ++ t)) as -> by congruence. clear Hr.
      assert (Hut : IsAbs (join_slash (ups ++ t)) = false /\ join_slash (ups ++ t) <> []).
      { unfold ups. cbn [length replicate app]. by destruct (replicate (length b) dotdot ++ t). }
      assert (Hup : foldl (clean_step false) (reverse (x :: b) ++ reverse c) ups = reverse c).
      { unfold ups. rewrite <- (length_reverse (x :: b)), foldl_ups, drop_app_length; [done| |rewrite length_app; lia].
        rewrite take_app_length. by apply Forall_reverse. }
      unfold walk. rewrite split_join.
      * rewrite foldl_app, ED, reverse_app, Hup, Hfold, reverse_involutive. destruct Hut as [? ?]. by split_and!.
      * done.
      * apply Forall_app. split; [|done]. apply Forall_replicate. unfold dotdot. set_solver.
Qed.

(** ** Losing a suffix *)

Lemma split_snoc t u : slash ∉ u -> exists init y,
  split_byte slash t = init ++ [y] /\ split_byte slash (t ++ u) = init ++ [y ++ u].
Proof.
  intros Hu. induction t as [|c t (init & y & E1 & E2)].
  - exists [], []. split; [done|]. by apply split_no_slash.
  - cbn [app split_byte]. destruct (c =? slash).
    + exists ([] :: init), y. by rewrite E1, E2.
    + rewrite E1, E2. destruct init as [|i init]; [by exists [], (c :: y)|by exists ((c :: i) :: init), y].
Qed.

(** The elements that would lose everything but dots. *)
Definition odd_names (u : bytes) : list bytes := [u; [dot] ++ u; dotdot ++ u].

(** No element of the path is one of them. *)
Definition tame (u s : bytes) : Prop := Forall (fun e => e ∉ odd_names u) (split_byte slash s).

Lemma tame_last u t : slash ∉ u -> tame u (t ++ u) -> exists init y,
  split_byte slash t = init ++ [y] /\ split_byte slash (t ++ u) = init ++ [y ++ u] /\ name_ok y.
Proof.
  intros Hu Ht. destruct (split_snoc t u Hu) as (init & y & E1 & E2). exists init, y. split_and!; [done..|].
  unfold tame in Ht. rewrite E2, Forall_app in Ht. destruct Ht as [_ Ht]. rewrite Forall_singleton in Ht.
  assert (Hs : slash ∉ y).
  { pose proof (split_elements t) as H. rewrite E1, Forall_app in H. destruct H as [_ H]. rewrite Forall_singleton in H. exact H. }
  unfold odd_names in Ht. rewrite !not_elem_of_cons in Ht. destruct Ht as (H1 & H2 & H3 & _).
  split_and!; [..|done]; intros ->; [by apply H1|by apply H2|by apply H3].
Qed.

Lemma walk_trim D t u : slash ∉ u -> u <> [] -> tame u (t ++ u) ->
  Forall name_ok (walk D (t ++ u)) -> Forall name_ok (walk D t) /\ IsAbs t = IsAbs (t ++ u).
Proof.
  intros Hu Hne Ht. destruct (tame_last u t Hu Ht) as (init & y & E1 & E2 & Hy).
  split; [|destruct t as [|c t]; [|done]; cbn in E1; destruct init; [|by destruct init]; injection E1 as <-; by destruct Hy].
  revert H. unfold walk. rewrite E1, E2, !foldl_app. cbn [foldl]. set (k := foldl _ _ init).
  assert (Hyu : y ++ u <> [] /\ y ++ u <> [dot] /\ y ++ u <> dotdot).
  { destruct Hy as (H1 & H2 & H3 & _). split_and!; intros E.
    - by apply app_nil in E as [? _].
    - destruct y as [|c [|? ?]]; [done| |done]. destruct u; [done|]. done.
    - destruct y as [|c [|d [|? ?]]]; [done| | |done]; destruct u as [|v [|? ?]]; try done; cbn in E; unfold dotdot in *; simplify_eq. }
  assert (Hs1 : clean_step false k (y ++ u) = (y ++ u) :: k) by (unfold clean_step; destruct Hyu as (? & ? & ?); by rewrite !bool_decide_false).
  assert (Hs2 : clean_step false k y = y :: k) by (unfold clean_step; destruct Hy as (? & ? & ? & _); by rewrite !bool_decide_false).
  rewrite Hs1, Hs2, !reverse_cons, !Forall_app, !Forall_singleton. tauto.
Qed.

Lemma below_trim t u : slash ∉ u -> tame u (t ++ u) -> below (t ++ u) -> below t /\ Dir t = Dir (t ++ u).
Proof.
  intros Hu Ht (els & Hne & Hels & E). destruct (tame_last u t Hu Ht) as (init & y & E1 & E2 & Hy).
  assert (Hsp : split_byte slash (t ++ u) = els) by (rewrite E; apply split_join; [done|by apply names_no_slash]).
  rewrite E2 in Hsp. subst els. apply Forall_app in Hels as [Hi Hl]. rewrite Forall_singleton in Hl.
  assert (Et : t = join_slash (init ++ [y])) by (rewrite <- E1; symmetry; apply join_split).
  split.
  - exists (init ++ [y]). split_and!; [by destruct init| |done]. apply Forall_app. split; [done|by apply Forall_singleton].
  - rewrite E, Et. by rewrite !Dir_names.
Qed.
