(* ===== verification/Extractor.v ===== *)
(** What an extraction writes ([internal/extract/write.go] and [extractSet]): the
    order of the entries, directories, links, files and their variants, over any
    [os.Root]. *)
From S2P Require Import Prelude Unixcompress Unixpack Text Path Strconv Strings Idb Inst Shell Attempts Glob Extract Rel.

(** ** The root of a set *)

Inductive kind := KDir | KLink | KFile.
Inductive create_err := Exists_ | Refused (code : Z).

(** [os.Root] over a state [W], paths relative to it. [o_hash] opens a file and reads
    it to its end; [o_put] writes a file just created and closes it. *)
Record Root (W : Type) := MkRoot {
  o_lstat : bytes -> W -> option kind * W;
  o_readlink : bytes -> W -> option bytes * W;
  o_read : bytes -> W -> option bytes * W;
  o_mkdirall : bytes -> W -> option Z * W;
  o_chmod : bytes -> Z -> W -> option Z * W;
  o_symlink : bytes -> bytes -> W -> option Z * W;
  o_create : bytes -> Z -> W -> option create_err * W;
  o_put : bytes -> bytes -> W -> option Z * W;
  o_remove : bytes -> W -> W;
}.
Arguments o_lstat {W}. Arguments o_readlink {W}. Arguments o_read {W}. Arguments o_mkdirall {W}. Arguments o_chmod {W}.
Arguments o_symlink {W}. Arguments o_create {W}. Arguments o_put {W}. Arguments o_remove {W}.

(** ** The writer's state *)

(** [w_dists]: the open distributions, their archives kept between reads. *)
Record writer (W : Type) := MkWriter {
  w_dirs : gset bytes; w_unpacked : gmap bytes bytes; w_links : gmap bytes bytes; w_dists : list Dist; w_root : W;
}.
Arguments MkWriter {W}. Arguments w_dirs {W}. Arguments w_unpacked {W}. Arguments w_links {W}.
Arguments w_dists {W}. Arguments w_root {W}.

(** An action; what was done before it failed stays done. *)
Definition act (W A : Type) : Type := writer W -> outcome stuck A * writer W.
#[export] Instance act_ret {W} : MRet (act W) := fun A a w => (Ok a, w).
#[export] Instance act_bind {W} : MBind (act W) := fun A B f m w =>
  let '(r, w) := m w in match r with Ok a => f a w | Err s => (Err s, w) | Panic => (Panic, w) end.
Definition panic {W A} : act W A := fun w => (Panic, w).

Definition with_root {W} (w : writer W) (r : W) : writer W := MkWriter (w_dirs w) (w_unpacked w) (w_links w) (w_dists w) r.
Definition on_root {W A} (f : W -> A * W) : act W A := fun w => let '(a, r) := f (w_root w) in (Ok a, with_root w r).
Definition on_root_ {W} (f : W -> W) : act W unit := on_root (fun r => (tt, f r)).
Definition state {W} : act W (writer W) := fun w => (Ok w, w).
Definition put_state {W} (w : writer W) : act W unit := fun _ => (Ok tt, w).

Definition dot_z : bytes := str ".z".
Definition dot_Z : bytes := str ".Z".

(** [strings.TrimSuffix]. *)
Definition TrimSuffix (s u : bytes) : bytes := default s (CutSuffix s u).

(** ** Links and names *)

(** [linkDest]. *)
Definition linkDest (rel target : bytes) : bytes * bool :=
  match target with
  | [] => ([], false)
  | c :: _ => if c =? slash then cleanInstallPath (Clean target) else cleanInstallPath (Join (Dir rel) target)
  end.

(** [unpackOf]: links are followed [depth] deep. *)
Fixpoint unpackOf (unpacked links : gmap bytes bytes) (rel : bytes) (depth : nat) : bytes :=
  match unpacked !! rel with
  | Some u => u
  | None =>
      match links !! rel, depth with
      | Some t, S depth =>
          let u := unpackOf unpacked links t depth in
          if negb (bool_decide (u = [])) && HasSuffix rel u then u else []
      | _, _ => []
      end
  end.

(** [sanitize]: by runes, the others an underscore each. *)
Definition safe_rune (r : Z) : bool :=
  in_range 97 122 r || in_range 65 90 r || in_range 48 57 r || (r =? dot) || (r =? 45) || (r =? 95) || (r =? 61).
Definition sanitize (s : bytes) : bytes := (fun r => if safe_rune r then r else 95) <$> runes s.

(** ** Reading an archive's data *)

(** [io.Copy] of a decoder, in blocks, to its end. *)
Fixpoint drain_packed (block : Z) (turns : nat) (z : Unixpack.reader) : outcome stuck (bytes * option Z) :=
  match turns with
  | O => Err OutOfFuel
  | S turns =>
      match Unixpack.Read z block with
      | Ok (out, None, z) => match drain_packed block turns z with Ok (rest, e) => Ok (out ++ rest, e) | r => r end
      | Ok (out, Some PEOF, _) => Ok (out, None)
      | Ok (out, Some _, _) => Ok (out, Some 1)
      | Err s => Err s
      | Panic => Panic
      end
  end.

Fixpoint drain_compressed (block : Z) (turns : nat) (z : Unixcompress.reader) : outcome stuck (bytes * option Z) :=
  match turns with
  | O => Err OutOfFuel
  | S turns =>
      match Unixcompress.Read z block with
      | Ok (out, None, z) => match drain_compressed block turns z with Ok (rest, e) => Ok (out ++ rest, e) | r => r end
      | Ok (out, Some ZEOF, _) => Ok (out, None)
      | Ok (out, Some _, _) => Ok (out, Some 1)
      | Err s => Err s
      | Panic => Panic
      end
  end.

(** The buffer of [io.Copy]. *)
Definition copyBlock : Z := 32768.

(** All a reader gives, and how it ends. *)
Definition contents (turns : nat) (c : content) : outcome stuck stream :=
  match c with
  | Plain s => Ok s
  | Packed z => match drain_packed copyBlock turns z with Ok (b, e) => Ok (MkStream b e) | Err s => Err s | Panic => Panic end
  | Compressed z => match drain_compressed copyBlock turns z with Ok (b, e) => Ok (MkStream b e) | Err s => Err s | Panic => Panic end
  end.

Definition lift_ {W A} (m : outcome stuck A) : act W A := fun w => (m, w).

(** ** Records *)

Definition set_rec (f : Record_ -> Record_) (it : item) : item := MkItem (i_set it) (i_entry it) (i_rel it) (f (i_rec it)).
Definition set_path (p : bytes) : item -> item := set_rec (fun r =>
  MkRec p (r_install r) (r_type r) (r_mode r) (r_owner r) (r_group r) (r_product r) (r_subsystem r) (r_layer r)
    (r_set r) (r_sha r) (r_symlink r) (r_target r) (r_mach r) (r_status r) (r_error r)).
Definition set_target (t : bytes) : item -> item := set_rec (fun r =>
  MkRec (r_path r) (r_install r) (r_type r) (r_mode r) (r_owner r) (r_group r) (r_product r) (r_subsystem r) (r_layer r)
    (r_set r) (r_sha r) (r_symlink r) t (r_mach r) (r_status r) (r_error r)).
Definition set_sha (s : bytes) : item -> item := set_rec (fun r =>
  MkRec (r_path r) (r_install r) (r_type r) (r_mode r) (r_owner r) (r_group r) (r_product r) (r_subsystem r) (r_layer r)
    (r_set r) s (r_symlink r) (r_target r) (r_mach r) (r_status r) (r_error r)).
Definition set_status (s : status) : item -> item := set_rec (fun r =>
  MkRec (r_path r) (r_install r) (r_type r) (r_mode r) (r_owner r) (r_group r) (r_product r) (r_subsystem r) (r_layer r)
    (r_set r) (r_sha r) (r_symlink r) (r_target r) (r_mach r) s (r_error r)).

(** [item.fail]. *)
Definition fail (n : note) (it : item) : item := settle Failed n it.

Section writer.
Context {W : Type} (T : Root W) (sha256 : bytes -> bytes) (fss : list Inst.FS) (turns : nat) (unpack : bool).

(** What the set holds at a path: a type letter, and a file's digest or a link's
    target. *)
Record held := MkHeld { h_typ : Z; h_content : bytes }.

#[local] Instance held_eq_dec : EqDecision held.
Proof. solve_decision. Defined.

Definition digest (data : bytes) : bytes := encode_hex (sha256 data).

(** [writer.lookup]. *)
Definition lookup_at (rel : bytes) : act W (option held) :=
  k ← on_root (o_lstat T rel);
  match k with
  | None => mret None
  | Some KDir => mret (Some (MkHeld 100 []))
  | Some KLink => t ← on_root (o_readlink T rel); mret (Some (MkHeld 108 (default [] t)))
  | Some KFile => d ← on_root (o_read T rel); mret (Some (MkHeld 102 (match d with Some d => digest d | None => [] end)))
  end.

(** The names a variant may take, in order. *)
Definition candidates (rel : bytes) (want : held) (mach : bytes) : list bytes :=
  let d := if h_typ want =? 108 then digest (h_content want) else h_content want in
  let m := sanitize mach in
  (if negb (bool_decide (m = [])) && (zlen (Base rel) + 1 + zlen m <=? 255) then [rel ++ [dot] ++ m] else []) ++
  [rel ++ [dot] ++ take 8 d].

Fixpoint first_free (want : held) (rel : bytes) (cands : list bytes) : act W ((bytes * status) + note) :=
  match cands with
  | [] => mret (inr (NoFreeName rel))
  | c :: cands =>
      h ← lookup_at c;
      match h with
      | None => mret (inl (c, Variant))
      | Some h => if bool_decide (h = want) then mret (inl (c, Duplicate)) else first_free want rel cands
      end
  end.

(** [writer.claim]. *)
Definition claim (rel : bytes) (want : held) (mach : bytes) : act W ((bytes * status) + note) :=
  have ← lookup_at rel;
  match have with
  | None => mret (inl (rel, Written))
  | Some h =>
      if bool_decide (h = want) then mret (inl (rel, Duplicate))
      else if h_typ h =? 100 then mret (inr (IsDirectory rel))
      else first_free want rel (candidates rel want mach)
  end.

(** [writer.dir]: made, and given the mode with the owner able to write. *)
Definition make_dir (e : Entry) (p : bytes) (it : item) : act W item :=
  err ← on_root (o_mkdirall T p);
  match err with
  | Some c => mret (fail (RootErr c) it)
  | None =>
      err ← on_root (o_chmod T p (Z.lor (Z.land (Idb.Mode e) 0x1ff) 0x1c0));
      match err with
      | Some c => mret (fail (RootErr c) it)
      | None =>
          w ← state;
          _ ← put_state (MkWriter ({[p]} ∪ w_dirs w) (w_unpacked w) (w_links w) (w_dists w) (w_root w));
          mret (set_status Written it)
      end
  end.

Definition write_dir (e : Entry) (it : item) : act W item :=
  let p := r_path (i_rec it) in
  w ← state;
  if bool_decide (p ∈ w_dirs w) then mret (set_status Duplicate it)
  else
    h ← lookup_at p;
    match h with
    | Some h => if negb (h_typ h =? 100) then mret (fail (AlreadyType p (h_typ h)) it) else make_dir e p it
    | None => make_dir e p it
    end.

(** [writer.symlink]. The target is as written, or the way to it from the link when it
    is absolute; with unpacking, both lose the suffix the place it leads to lost. *)
Definition link_text (p target : bytes) : option bytes :=
  if HasPrefix target [slash] then Rel (Dir p) (linkDest p target).1 else Some target.

Definition place_link (p target mach : bytes) (it : item) : act W item :=
  r ← claim p (MkHeld 108 target) mach;
  match r with
  | inr n => mret (fail n it)
  | inl (p, st) =>
      let it := set_status st (set_path p it) in
      if bool_decide (st = Duplicate) then mret it
      else
        err ← on_root (o_mkdirall T (Dir p));
        match err with
        | Some c => mret (fail (RootErr c) it)
        | None =>
            err ← on_root (o_symlink T target p);
            match err with
            | Some c => mret (fail (RootErr c) it)
            | None => mret it
            end
        end
  end.

Definition write_link (e : Entry) (it : item) : act W item :=
  let p := r_path (i_rec it) in
  let target := Symlink e in
  if bool_decide (target = []) then mret (fail NoSymval it)
  else
    let '(dest, ok) := linkDest p target in
    if negb ok && negb (bool_decide (dest = [dot])) then mret (settle Skipped TargetEscapes it)
    else match link_text p target with
    | None => mret (fail NotRelated it)
    | Some rel =>
        w ← state;
        let u := if ok && unpack then unpackOf (w_unpacked w) (w_links w) dest 40 else [] in
        let follows := negb (bool_decide (u = [])) && HasSuffix rel u in
        let rel := if follows then TrimSuffix rel u else rel in
        let p := if follows then TrimSuffix p u else p in
        place_link p rel (Mach e) (set_target rel (set_path p it))
    end.

(** What was opened, read: through [Unwrap] when unpacking. *)
Definition read_entry (it : item) (r : outcome Inst.error content) : act W ((bytes * stream) + note) :=
  match r with
  | Err err => mret (inr (OpenNote err))
  | Panic => panic
  | Ok c =>
      s ← lift_ (contents turns c);
      if negb unpack then mret (inl (i_rel it, s))
      else match Unwrap (i_rel it) s with
      | Err err => mret (inr (UnwrapNote err))
      | Panic => panic
      | Ok (name, c) => s ← lift_ (contents turns c); mret (inl (name, s))
      end
  end.

(** [writer.open]: the path a file goes to, and its bytes. *)
Definition open_entry (e : Entry) (it : item) : act W ((bytes * stream) + note) :=
  w ← state;
  match fss !! i_set it, w_dists w !! i_set it with
  | Some fs, Some d =>
      let '(r, d) := Inst.Open fs d (r_product (i_rec it)) e in
      _ ← put_state (MkWriter (w_dirs w) (w_unpacked w) (w_links w) (<[i_set it := d]> (w_dists w)) (w_root w));
      read_entry it r
  | _, _ => panic
  end.

(** [writer.copyTo]: the digest, or whether the name was taken. *)
Definition copyTo (name : bytes) (s : stream) (mode : Z) : act W (bytes + option note) :=
  err ← on_root (o_create T name mode);
  match err with
  | Some Exists_ => mret (inr None)
  | Some (Refused c) => mret (inr (Some (RootErr c)))
  | None =>
      err ← on_root (o_put T name (sdata s));
      err ← (match err, sfail s with
             | Some c, _ => mret (Some (RootErr c))
             | None, Some c => mret (Some (ReadNote (Some (OtherIO c))))
             | None, None => err ← on_root (o_chmod T name mode); mret (match err with Some c => Some (RootErr c) | None => None end)
             end);
      match err with
      | Some n => _ ← on_root_ (o_remove T name); mret (inr (Some n))
      | None => mret (inl (digest (sdata s)))
      end
  end.

(** [writer.writeVariant]: the data is opened again. *)
Definition writeVariant (e : Entry) (it : item) (p : bytes) (mode : Z) : act W (option note) :=
  r ← open_entry e it;
  match r with
  | inr n => mret (Some n)
  | inl (_, s) =>
      r ← copyTo p s mode;
      mret (match r with inl _ => None | inr (Some n) => Some n | inr None => Some (AlreadyType p 102) end)
  end.

(** A name that was taken: where the file goes and its digest, or an error. *)
Definition settle_taken (e : Entry) (it : item) (name : bytes) (s : stream) (mode : Z) : act W ((bytes * status * bytes) + note) :=
  match sfail s with
  | Some c => mret (inr (ReadNote (Some (OtherIO c))))
  | None =>
      let sum := digest (sdata s) in
      r ← claim name (MkHeld 102 sum) (Mach e);
      match r with
      | inr n => mret (inr n)
      | inl (p, st) =>
          err ← (if bool_decide (st = Variant) then writeVariant e it p mode else mret None);
          mret (match err with Some n => inr n | None => inl (p, st, sum) end)
      end
  end.

(** The suffix a file written under another name lost is kept. *)
Definition note_unpacked (it : item) (name : bytes) : act W unit :=
  w ← state;
  put_state (MkWriter (w_dirs w) (<[i_rel it := drop (length name) (i_rel it)]> (w_unpacked w)) (w_links w) (w_dists w) (w_root w)).

(** [writer.file]. *)
Definition write_file (e : Entry) (it : item) : act W item :=
  r ← open_entry e it;
  match r with
  | inr n => mret (fail n it)
  | inl (name, s) =>
      let mode := Z.lor (Z.land (Idb.Mode e) 0x1ff) 0x180 in
      err ← on_root (o_mkdirall T (Dir name));
      match err with
      | Some c => mret (fail (RootErr c) it)
      | None =>
          r ← copyTo name s mode;
          r ← (match r with
               | inl sum => mret (inl (name, Written, sum))
               | inr (Some n) => mret (inr n)
               | inr None => settle_taken e it name s mode
               end);
          match r with
          | inr n => mret (fail n it)
          | inl (p, st, sum) =>
              _ ← (if bool_decide (st = Written) && negb (bool_decide (name = i_rel it)) then note_unpacked it name else mret tt);
              mret (set_sha sum (set_status st (set_path p it)))
          end
      end
  end.

(** [writer.write]. *)
Definition write (it : item) : act W item :=
  let it := set_path (i_rel it) it in
  it ← (match i_entry it with
        | Some e => if is_dir e then write_dir e it else if is_link e then write_link e it
                    else if is_file e then write_file e it else mret it
        | None => mret it
        end);
  mret (if bool_decide (i_status it = Skipped) || bool_decide (i_status it = Failed) then set_path [] it else it).

(** ** The order *)

(** The directories above a path that are not there yet. *)
Fixpoint add_parents (fuel : nat) (d : bytes) (parents : gset bytes) : gset bytes :=
  match fuel with
  | O => parents
  | S fuel => if bool_decide (d = [dot]) || bool_decide (d ∈ parents) then parents else add_parents fuel (Dir d) ({[d]} ∪ parents)
  end.

Definition parents_of (items : list item) : gset bytes :=
  foldl (fun ps it => add_parents (S (length (i_rel it))) (Dir (i_rel it)) ps) ∅ items.

Definition link_entry (it : item) : bool := match i_entry it with Some e => is_link e | None => false end.

(** Where each link leads, by its path; the first of a path is kept. *)
Definition links_of (items : list item) : gmap bytes bytes :=
  foldl (fun ls it => match i_entry it with
    | Some e =>
        let '(t, ok) := linkDest (i_rel it) (Symlink e) in
        if ok && is_link e then match ls !! i_rel it with Some _ => ls | None => <[i_rel it := t]> ls end else ls
    | None => ls
    end) ∅ items.

(** Links that entries are installed beneath, then directories and files, then the
    other links: the places of the pending items, in the order they are written. *)
Definition order (items : list item) : list nat :=
  let idx := filter (fun i => match items !! i with Some it => pending it | None => false end = true) (seq 0 (length items)) in
  let parents := parents_of (filter (fun it => pending it = true) items) in
  let link_is i b := match items !! i with Some it => Bool.eqb b (link_entry it) | None => false end in
  let beneath i := match items !! i with Some it => bool_decide (i_rel it ∈ parents) | None => false end in
  filter (fun i => link_is i true && beneath i = true) idx ++ filter (fun i => link_is i false = true) idx ++
  filter (fun i => link_is i true && negb (beneath i) = true) idx.

Fixpoint write_in (places : list nat) (items : list item) : act W (list item) :=
  match places with
  | [] => mret items
  | i :: places =>
      match items !! i with
      | None => write_in places items
      | Some it => it ← write it; write_in places (<[i := it]> items)
      end
  end.

(** [writer.writeAll]. *)
Definition writeAll (items : list item) : act W (list item) :=
  w ← state;
  _ ← put_state (MkWriter (w_dirs w) (w_unpacked w) (links_of (filter (fun it => pending it = true) items)) (w_dists w) (w_root w));
  write_in (order items) items.
End writer.

(** [extractSet], the manifest's records: planned alone, or written. *)
Definition extract_items {W} (T : Root W) (sha256 : bytes -> bytes) (fss : list Inst.FS) (turns : nat) (opts : Options) (dists : list dist)
    (ds : list Dist) (r : W) : outcome stuck (list item) * writer W :=
  let items := plan opts dists in
  let w := MkWriter ∅ ∅ ∅ ds r in
  if ManifestOnly opts then (Ok ((fun it => if pending it then set_status Planned it else it) <$> items), w)
  else writeAll T sha256 fss turns (Unpack opts) items w.

(** The number of records of a status. *)
Definition count_status (s : status) (items : list item) : nat := length (filter (fun it => i_status it = s) items).
