(* ===== verification/Drain.v ===== *)
(** Reading a decoder to its end: the output of compress(1) and pack(1) files is
    finite, whatever the file, and is bytes. *)
From S2P Require Import Prelude Unixcompress Unixpack Text Path Strconv Strings Idb Inst Shell Attempts Glob Extract Rel Extractor.

(** ** compress(1) *)

Module Compressed_.
Import Unixcompress.

(** What is left to read: bytes, and bits of the group. *)
Definition fuel_left (z : reader) : nat := 129 * length (sdata (fp z)) + Z.to_nat (128 - rOffset z).

Definition shorter (z' z : reader) : Prop := (fuel_left z' < fuel_left z)%nat \/
  fuel_left z' = fuel_left z /\ (length (stack z') < length (stack z))%nat.

Lemma shorter_trans z1 z2 z3 : shorter z1 z2 -> shorter z2 z3 -> shorter z1 z3.
Proof. unfold shorter. lia. Qed.

Lemma getCode_less z d c z' : groups z -> refines z d -> getCode z = Ok (inl c, z') -> (fuel_left z' < fuel_left z)%nat.
Proof.
  intros Hg Hr. unfold getCode, fuel_left. pose proof (gr_off _ Hg). pose proof (gr_size _ Hg). pose proof (gr_bits _ Hg) as Hb. unfold initBits in Hb.
  destruct (clearFlg z || (size z <=? rOffset z) || (maxCode z <? freeEnt z)) eqn:E.
  - destruct (refill_ok z d Hg Hr) as (e & z1 & -> & _ & He). cbn [mbind outcome_bind]. destruct e as [e|]; [done|].
    destruct (He eq_refl) as (Hg1 & _ & Hro & Hl). destruct (extract _ _ _); [|done..]. cbn [mbind outcome_bind]. intros [= _ <-].
    cbn [advance fp rOffset]. rewrite Hro. pose proof (gr_bits _ Hg1) as Hb1. unfold initBits in Hb1. lia.
  - apply orb_false_iff in E as [E _]. apply orb_false_iff in E as [_ E]. zbool. cbn [mbind outcome_bind].
    destruct (extract _ _ _); [|done..]. cbn [mbind outcome_bind]. intros [= _ <-]. cbn [advance fp rOffset]. lia.
Qed.

Lemma push_code_less z c z' : push_code z c = Ok (None, z') -> fuel_left z' = fuel_left z.
Proof.
  unfold push_code. destruct (_ && _); [done|]. destruct (if _ <=? _ then _ else _) as [code stk].
  destruct (chain _ _ _ _ _) as [[lit t]| |]; [|done..]. cbn [mbind outcome_bind].
  destruct (arr_get _ _ _); [|done..]. cbn [mbind outcome_bind]. by intros [= <-].
Qed.

Lemma decode_less fuel : forall z d z', groups z -> refines z d -> decode_loop fuel z = Ok (None, z') -> (fuel_left z' < fuel_left z)%nat.
Proof.
  induction fuel as [|fuel IH]; intros z d z' Hg Hr; [done|]. cbn [decode_loop].
  destruct (getCode_ok z d Hg Hr) as (c & z1 & E & (Ht & _) & Hc). rewrite E. cbn [mbind outcome_bind].
  destruct c as [code|e]; [|done]. destruct Hc as (Hg1 & _). pose proof (getCode_less _ _ _ _ Hg Hr E) as Hl.
  destruct (_ && _) eqn:Ec; zbool.
  - intros Hd. assert (refines z1 d) as Hr1 by (unfold refines; by rewrite Ht).
    specialize (IH _ _ _ (groups_set_clear _ Hg1) (refines_set_clear _ _ Hr1 ltac:(done)) Hd).
    change (fuel_left (set_clear z1)) with (fuel_left z1) in IH. lia.
  - intros Hp%push_code_less. lia.
Qed.

Lemma newEntry_less z z' : newEntry z = Ok z' -> fuel_left z' = fuel_left z.
Proof. unfold newEntry. destruct (if _ && _ then _ else _) as [[[pre suf] fe]| |]; cbn [mbind outcome_bind]; [|done..]. by intros [= <-]. Qed.

(** The loop of [Read] stops at an error, or uses something up. *)
Lemma read_loop_less fuel plen : forall z out out' z', inv z -> read_loop fuel plen z out = Ok (out', z') ->
  err z' <> None \/ shorter z' z \/ z' = z /\ out' = out.
Proof.
  induction fuel as [|fuel IH]; intros z out out' z' Hi; [done|]. cbn [read_loop].
  destruct (negb (zlen out <? plen)) eqn:Elt; [intros [= <- <-]; auto|]. apply negb_false_iff, Z.ltb_lt in Elt. destruct (stack z) as [|x t] eqn:Es.
  - destruct (err z) as [e|] eqn:Ee; [intros [= <- <-]; auto|].
    unfold inv in Hi. rewrite Ee, Es in Hi. destruct Hi as [Hg [d Hr]].
    destruct (decode_loop_ok (length (sdata (fp z)) + 2) z d Hg Hr Es Ee) as (e & z1 & Hd & He & _); [destruct (clearFlg z); lia|].
    unfold decode. rewrite Hd. cbn [mbind outcome_bind]. destruct e as [e|].
    + destruct fuel as [|fuel]; [done|]. cbn [read_loop set_err stack err]. rewrite He.
      intros H. left. destruct (negb _); by injection H as _ <-.
    + destruct He as [Hn Hi1]. pose proof (decode_less _ _ _ _ Hg Hr Hd) as Hl.
      assert (Ee1 : err z1 = None) by (unfold inv in Hi1; destruct (err z1); [done|done]).
      rewrite set_err_None by done. intros H. destruct (IH _ _ _ _ Hi1 H) as [?|[Hs|[-> _]]]; [by left|right; left..].
      * eapply shorter_trans; [exact Hs|by left].
      * by left.
  - set (k := Z.min _ _). set (rest := drop (Z.to_nat k) (x :: t)).
    unfold inv in Hi. rewrite Es in Hi. destruct (err z) as [e|] eqn:Ee; [done|].
    destruct Hi as (z'' & Hne & Hrd & He'' & Hs'').
    assert (Hk : 1 <= k) by (unfold k; rewrite zlen_cons; pose proof (zlen_nonneg t); lia).
    assert (Hrest : (length rest < length (stack z))%nat) by (rewrite Es; unfold rest; rewrite length_drop; cbn [length]; lia).
    cbn [set_stack set_string stack]. destruct (zlen rest =? 0) eqn:E0; zbool.
    + assert (rest = []) as Hr0 by (destruct rest; [done|]; rewrite zlen_cons in E0; pose proof (zlen_nonneg rest); lia).
      rewrite Hr0. change (set_string z [] (finChar z) (incode z)) with (set_stack z []). rewrite Hne. cbn [mbind outcome_bind].
      assert (Hsh : shorter z'' z).
      { right. split; [exact (newEntry_less _ _ Hne)|]. rewrite Hs'', Es. cbn. lia. }
      intros H. destruct (IH _ _ _ _ ltac:(unfold inv; by rewrite He'', Hs'') H) as [?|[Hs|[-> _]]]; auto.
      right. left. by eapply shorter_trans.
    + cbn [mbind outcome_bind]. set (z1 := set_string z rest (finChar z) (incode z)). assert (Hsh : shorter z1 z) by (right; by split).
      assert (Hi1 : inv z1). { unfold inv, z1. cbn [set_string err stack]. rewrite Ee. destruct rest; [done|]. by exists z''. }
      intros H. destruct (IH _ _ _ _ Hi1 H) as [?|[Hs|[-> _]]]; auto. right. left. by eapply shorter_trans.
Qed.

Lemma read_err z plen : 0 < plen -> inv z -> err z <> None -> Read z plen = Ok ([], err z, z).
Proof.
  intros Hp Hi He. unfold Read. rewrite (proj2 (Z.eqb_neq _ _)) by lia. unfold inv in Hi. destruct (err z) as [e|] eqn:Ee; [|done].
  destruct (2 * Z.to_nat plen + 2)%nat eqn:En; [lia|]. cbn [read_loop]. rewrite (@zlen_nil Z), (proj2 (Z.ltb_lt 0 plen)) by done.
  cbn [negb]. rewrite Hi, Ee. cbn [mbind outcome_bind]. by rewrite (@zlen_nil Z), Ee.
Qed.

Lemma shorter_wf : well_founded shorter.
Proof.
  assert (H : forall g k z, fuel_left z = g -> length (stack z) = k -> Acc shorter z); [|intros z; by eapply H].
  induction g as [g IHg] using (well_founded_induction lt_wf).
  induction k as [k IHk] using (well_founded_induction lt_wf). intros z Eg Ek. constructor. intros z' [Hl|[E Hl]].
  - eapply IHg; [|done|done]. lia.
  - eapply (IHk (length (stack z'))); lia.
Qed.

(** A decoder gives all it has in some number of blocks. *)
Lemma drain_ends block z : 0 < block -> inv z -> exists n b e, forall m, (n <= m)%nat -> drain_compressed block m z = Ok (b, e).
Proof.
  intros Hb. induction z as [z IH] using (well_founded_induction shorter_wf). intros Hi.
  destruct (Read_ok z block Hi ltac:(lia)) as (out & e & z1 & HR & Hi1 & _ & Hne).
  assert (Hend : forall e', e = Some e' -> exists n b er, forall m, (n <= m)%nat -> drain_compressed block m z = Ok (b, er)).
  { intros e' ->. exists 1%nat, out, (match e' with ZEOF => None | _ => Some 1 end). intros [|m] Hm; [lia|]. cbn [drain_compressed].
    rewrite HR. by destruct e'. }
  destruct e as [e'|]; [by apply (Hend e')|]. clear Hend.
  assert (Hcase : err z1 <> None \/ shorter z1 z).
  { unfold Read in HR. rewrite (proj2 (Z.eqb_neq block 0)) in HR by lia.
    destruct (read_loop _ _ _ _) as [[o z2]| |] eqn:El; cbn [mbind outcome_bind] in HR; [|done..].
    destruct (read_loop_less _ _ _ _ _ _ Hi El) as [He|[Hs|[-> ->]]].
    - left. by destruct (0 <? zlen o); simplify_eq.
    - right. by destruct (0 <? zlen o); simplify_eq.
    - rewrite (@zlen_nil Z) in HR. cbn in HR. simplify_eq. by destruct (Hne ltac:(lia) eq_refl). }
  assert (Hrest : exists n b e, forall m, (n <= m)%nat -> drain_compressed block m z1 = Ok (b, e)).
  { destruct Hcase as [He|Hs]; [|by apply IH]. destruct (err z1) as [e'|] eqn:Ee; [|done].
    exists 1%nat, [], (match e' with ZEOF => None | _ => Some 1 end). intros [|m] Hm; [lia|]. cbn [drain_compressed].
    rewrite read_err, Ee by (done || congruence). by destruct e'. }
  destruct Hrest as (n & b & er & Hd). exists (S n), (out ++ b), er. intros [|m] Hm; [lia|]. cbn [drain_compressed].
  rewrite HR. by rewrite Hd by lia.
Qed.
(** *** The output is bytes *)

Definition bytes_inv (z : reader) : Prop :=
  wf_bytes (stack z) /\ is_byte (finChar z) /\ forall c, is_byte (default 0 (suffix z !! c)).

Lemma arr_get_eq {E} n a i v : @arr_get E n a i = Ok v -> v = default 0 (a !! i).
Proof. unfold arr_get. destruct (_ && _); [by intros [= <-]|done]. Qed.

Lemma chain_bytes fuel pre suf : (forall c, is_byte (default 0 (suf !! c))) -> forall code stk lit stk',
  wf_bytes stk -> chain fuel pre suf code stk = Ok (lit, stk') -> wf_bytes stk'.
Proof.
  intros Hs. induction fuel as [|fuel IH]; intros code stk lit stk' Hw; [done|]. cbn [chain].
  destruct (256 <=? code); [|by intros [= _ <-]].
  destruct (arr_get table_len suf code) as [c| |] eqn:Ec; [|done..]. cbn [mbind outcome_bind].
  destruct (arr_get table_len pre code) as [next| |]; [|done..]. cbn [mbind outcome_bind]. apply IH.
  apply arr_get_eq in Ec as ->. constructor; [apply Hs|done].
Qed.

Lemma push_bytes z c r z' : bytes_inv z -> push_code z c = Ok (r, z') -> bytes_inv z'.
Proof.
  intros (Hst & Hf & Hs). unfold push_code. destruct (_ && _); [by intros [= _ <-]|].
  destruct (if _ <=? _ then _ else _) as [code stk] eqn:Ek.
  assert (wf_bytes stk) by (destruct (_ <=? c); injection Ek as _ <-; [by constructor|done]).
  destruct (chain _ _ _ _ _) as [[lit t]| |] eqn:Ec; [|done..]. cbn [mbind outcome_bind].
  destruct (arr_get _ _ _) as [fc| |] eqn:Ef; [|done..]. cbn [mbind outcome_bind]. intros [= _ <-].
  apply arr_get_eq in Ef as ->. split_and!; cbn; [|apply Hs|done]. constructor; [apply Hs|]. by eapply chain_bytes.
Qed.

Lemma getCode_bytes z r z' : bytes_inv z -> getCode z = Ok (r, z') -> bytes_inv z'.
Proof.
  intros Hz. unfold getCode.
  assert (Hr : forall e z1, refill z = Ok (e, z1) -> bytes_inv z1).
  { intros e z1. unfold refill. destruct (resize z) as [nb mc]. destruct (16 <? nb); [done|].
    destruct (read_full (fp z) nb) as [[got er] fp']. destruct er as [[| |c]|]; try (destruct (zlen got <=? 0)); by intros [= _ <-]. }
  assert (Hx : forall e z1, (if clearFlg z || (size z <=? rOffset z) || (maxCode z <? freeEnt z) then refill z else Ok (None, z)) = Ok (e, z1) -> bytes_inv z1).
  { intros e z1. destruct (_ || _); [apply Hr|]. by intros [= _ <-]. }
  destruct (if _ || _ then _ else _) as [[e z1]| |] eqn:E; [|done..]. specialize (Hx _ _ eq_refl). cbn [mbind outcome_bind].
  destruct e as [e|]; [by intros [= _ <-]|]. destruct (extract _ _ _); [|done..]. cbn [mbind outcome_bind]. by intros [= _ <-].
Qed.

Lemma decode_bytes fuel : forall z r z', bytes_inv z -> decode_loop fuel z = Ok (r, z') -> bytes_inv z'.
Proof.
  induction fuel as [|fuel IH]; intros z r z' Hz; [done|]. cbn [decode_loop].
  destruct (getCode z) as [[c z1]| |] eqn:E; [|done..]. cbn [mbind outcome_bind]. apply getCode_bytes in E; [|done].
  destruct c as [code|e]; [|by intros [= _ <-]]. destruct (_ && _); [by apply IH|by apply push_bytes].
Qed.

Lemma newEntry_bytes z z' : bytes_inv z -> newEntry z = Ok z' -> bytes_inv z'.
Proof.
  intros (Hst & Hf & Hs). unfold newEntry. destruct (_ && _).
  - destruct (arr_set _ (prefix z) _ _) as [pre| |]; [|done..]. cbn [mbind outcome_bind]. unfold arr_set. destruct (_ && _); [|done].
    cbn [mbind outcome_bind]. intros [= <-]. split_and!; cbn; [done..|]. intros c.
    destruct (decide (c = freeEnt z)) as [->|]; [by rewrite lookup_insert_eq|by rewrite lookup_insert_ne by done].
  - cbn [mbind outcome_bind]. by intros [= <-].
Qed.

Lemma read_loop_bytes fuel plen : forall z out out' z', bytes_inv z -> wf_bytes out -> read_loop fuel plen z out = Ok (out', z') ->
  bytes_inv z' /\ wf_bytes out'.
Proof.
  induction fuel as [|fuel IH]; intros z out out' z' Hz Ho; [done|]. cbn [read_loop].
  destruct (negb _); [by intros [= <- <-]|]. destruct (stack z) as [|x t] eqn:Es.
  - destruct (err z); [by intros [= <- <-]|]. unfold decode. destruct (decode_loop _ z) as [[e z1]| |] eqn:Ed; [|done..].
    cbn [mbind outcome_bind]. apply IH; [|done]. by apply decode_bytes in Ed.
  - set (k := Z.to_nat _). assert (Hz1 : bytes_inv (set_stack z (drop k (x :: t))) /\ wf_bytes (out ++ take k (x :: t))).
    { destruct Hz as (Hst & Hf & Hs). rewrite Es in Hst. split.
      - split_and!; cbn [set_stack set_string stack]; [by apply Forall_drop|done|done].
      - apply wf_bytes_app; [done|by apply Forall_take]. }
    destruct Hz1 as [Hz1 Ho1]. destruct (zlen _ =? 0); cbn [mbind outcome_bind]; [|by apply IH].
    destruct (newEntry _) as [z2| |] eqn:En; [|done..]. cbn [mbind outcome_bind]. apply IH; [|done]. by eapply newEntry_bytes.
Qed.

Lemma drain_bytes block m : forall z b e, bytes_inv z -> drain_compressed block m z = Ok (b, e) -> wf_bytes b.
Proof.
  induction m as [|m IH]; intros z b e Hz; [done|]. cbn [drain_compressed].
  destruct (Read z block) as [[[out er] z1]| |] eqn:ER; [|done..].
  assert (H : bytes_inv z1 /\ wf_bytes out).
  { unfold Read in ER. destruct (block =? 0); [injection ER as <- _ <-; split; [done|apply Forall_nil_2]|]. destruct (read_loop _ _ _ _) as [[o z2]| |] eqn:El; [|done..].
    cbn [mbind outcome_bind] in ER. apply read_loop_bytes in El as [? ?]; [|first [done|apply Forall_nil_2]..]. destruct (0 <? zlen o); injection ER as <- _ <-; (split; [done|]); [done|apply Forall_nil_2]. }
  destruct H as [Hz1 Ho]. destruct er as [[| |]|]; [by intros [= <- _]..|].
  destruct (drain_compressed _ _ z1) as [[rest e']| |] eqn:Ed; [|done..]. intros [= <- _]. apply wf_bytes_app; [done|by eapply IH].
Qed.

Lemma new_bytes s z : NewReader s = inl z -> bytes_inv z.
Proof.
  unfold NewReader. destruct (read_full s 3) as [[h e] s1]. destruct e as [[| |c]|]; try done.
  destruct (negb _); [done|]. destruct (_ || _); [done|]. intros [= <-]. split_and!; cbn [stack finChar suffix]; [apply Forall_nil_2|done|].
  intros c. destruct (init_suffix !! c) as [v|] eqn:E; cbn [default from_option]; [|done].
  unfold init_suffix in E. apply elem_of_list_to_map_2, list_elem_of_fmap in E as (x & [= -> ->] & Hx%elem_of_seqZ).
  change (0 <= x < 256). lia.
Qed.
End Compressed_.

(** ** pack(1) *)

Module Packed_.
Import Unixpack.

Lemma packed_decode_less fuel : forall z b z', 0 <= bitsLeft z <= 8 -> decode_loop fuel z = Ok (inl b, z') ->
  (bits_in z' < bits_in z)%nat /\ 0 <= bitsLeft z' <= 8.
Proof.
  induction fuel as [|fuel IH]; intros z b z' Hb; [done|]. cbn [decode_loop].
  destruct (fill z) as [[[s byte] n]|e] eqn:F; [|done]. destruct (fill_bits _ _ _ _ Hb F) as [Hn Hbits].
  set (code := Z.lor _ _). destruct (index (inodesIn z) _) as [i| |]; [|done..]. cbn [mbind outcome_bind].
  destruct (i <=? code).
  - destruct (index (symbolsIn z) _) as [sy| |]; [|done..]. cbn [mbind outcome_bind]. destruct (sy <? _); [done|].
    destruct (index (tree z) _) as [st| |]; [|done..]. cbn [mbind outcome_bind]. destruct (_ && _); [done|].
    destruct (index (symbol z) _) as [c| |]; [|done..]. cbn [mbind outcome_bind]. intros [= _ <-].
    unfold bits_in in *. cbn [set_pos fpIn bitsLeft]. lia.
  - destruct (_ <? _); [done|]. intros H%IH; [|cbn; lia]. unfold bits_in in *. cbn [set_pos fpIn bitsLeft] in H. lia.
Qed.

Lemma packed_decode_loop_err fuel : forall z r z', decode_loop fuel z = Ok (r, z') -> err z' = err z.
Proof.
  induction fuel as [|fuel IH]; intros z r z'; [done|]. cbn [decode_loop].
  destruct (fill z) as [[[s byte] n]|e] eqn:F; [|by intros [= _ <-]].
  set (code := Z.lor _ _). destruct (index (inodesIn z) _) as [i| |]; [|done..]. cbn [mbind outcome_bind].
  destruct (i <=? code).
  - destruct (index (symbolsIn z) _) as [sy| |]; [|done..]. cbn [mbind outcome_bind]. destruct (sy <? _); [by intros [= _ <-]|].
    destruct (index (tree z) _) as [st| |]; [|done..]. cbn [mbind outcome_bind]. destruct (_ && _); [by intros [= _ <-]|].
    destruct (index (symbol z) _) as [c| |]; [|done..]. cbn [mbind outcome_bind]. by intros [= _ <-].
  - destruct (_ <? _); [by intros [= _ <-]|]. by intros H%IH.
Qed.

Lemma packed_read_loop_less n : forall z out out' z', 0 <= bitsLeft z <= 8 -> err z = None -> read_loop n z out = Ok (out', z') ->
  (length out <= length out')%nat /\
  (err z' <> None \/ (bits_in z' + length out' <= bits_in z + length out)%nat /\ 0 <= bitsLeft z' <= 8 /\ err z' = None).
Proof.
  induction n as [|n IH]; intros z out out' z' Hb He; cbn [read_loop]; [intros [= <- <-]; split; [lia|right; split_and!; lia || done]|].
  rewrite He. unfold decode. destruct (decode_loop _ z) as [[[b|e] z1]| |] eqn:Ed; cbn [mbind outcome_bind]; [|intros [= <- <-]; split; [lia|by left]|done..].
  destruct (packed_decode_less _ _ _ _ Hb Ed) as [Hl Hb1]. intros H. assert (He1 : err z1 = None) by (rewrite <- He; by eapply packed_decode_loop_err).
  destruct (IH _ _ _ _ Hb1 He1 H) as [Hlen Hr]. rewrite length_app in *. cbn [length] in *. split; [lia|].
  destruct Hr as [?|(? & ? & ?)]; [by left|right; split_and!; lia || done].
Qed.

Lemma packed_read_err z plen : err z <> None -> Read z plen = Ok ([], err z, z).
Proof.
  intros He. unfold Read. assert (read_loop (Z.to_nat plen) z [] = Ok ([], z)) as ->; [|by cbn].
  destruct (Z.to_nat plen); cbn [read_loop]; [done|]. by destruct (err z).
Qed.

Lemma packed_drain_ends block z : 0 < block -> inv z -> exists n b e, forall m, (n <= m)%nat -> drain_packed block m z = Ok (b, e).
Proof.
  intros Hblk. remember (bits_in z) as g eqn:Eg. revert z Eg.
  induction g as [g IH] using (well_founded_induction lt_wf). intros z -> Hi.
  destruct (pk_Read_ok z block Hi) as (out & e & z1 & HR & Hi1 & _ & _ & Hne & Hst).
  assert (Herr : forall z e', Read z block = Ok ([], Some e', z) -> forall m, (1 <= m)%nat ->
    drain_packed block m z = Ok ([], match e' with PEOF => None | _ => Some 1 end)).
  { clear. intros z e' HR [|m] Hm; [lia|]. cbn [drain_packed]. rewrite HR. by destruct e'. }
  destruct e as [e'|].
  { exists 1%nat, out, (match e' with PEOF => None | _ => Some 1 end). intros [|m] Hm; [lia|]. cbn [drain_packed].
    rewrite HR. by destruct e'. }
  assert (Hout : out <> []) by (intros ->; by destruct (Hne Hblk eq_refl)).
  assert (He : err z = None) by (destruct (err z) eqn:E; [|done]; destruct (Hst ltac:(done)) as [? _]; done).
  assert (Hcase : err z1 <> None \/ (bits_in z1 < bits_in z)%nat).
  { destruct Hi as [_ Hp]. pose proof (p_bits _ (Hp He)) as Hb. unfold Read in HR.
    destruct (read_loop _ z []) as [[o z2]| |] eqn:El; cbn [mbind outcome_bind] in HR; [|done..].
    destruct (packed_read_loop_less _ _ _ _ _ Hb He El) as [_ [H|(H & _)]].
    - left. by destruct (0 <? zlen o); simplify_eq.
    - right. destruct (0 <? zlen o) eqn:E0; simplify_eq. zbool. unfold zlen in E0. cbn [length] in H. lia. }
  assert (Hrest : exists n b e, forall m, (n <= m)%nat -> drain_packed block m z1 = Ok (b, e)).
  { destruct Hcase as [H|H]; [|by eapply IH]. destruct (err z1) as [e'|] eqn:Ee; [|done].
    exists 1%nat. do 2 eexists. apply Herr. rewrite packed_read_err by congruence. by rewrite Ee. }
  destruct Hrest as (n & b & er & Hd). exists (S n), (out ++ b), er. intros [|m] Hm; [lia|]. cbn [drain_packed].
  rewrite HR. by rewrite Hd by lia.
Qed.
(** *** The output is bytes *)

Lemma read_levels_bytes size counts : forall start s starts syms s', wf_bytes (sdata s) ->
  read_levels size counts start s = Ok ((starts, syms), s') -> wf_bytes syms.
Proof.
  induction counts as [|c counts IH]; intros start s starts syms s' Hs; cbn [read_levels]; [intros [= _ <- _]; apply Forall_nil_2|].
  destruct (read_bytes _ s) as [[l|e] s1] eqn:R; [|done]. apply read_bytes_ok in R as (_ & Hd & _).
  rewrite Hd in Hs. apply Forall_app in Hs as [Hl Hs1]. destruct (size <? _); [done|].
  destruct (read_levels size counts _ s1) as [[[st sy] s2]| |] eqn:E; [|done..]. cbn [mbind outcome_bind].
  intros [= _ <- _]. apply wf_bytes_app; [done|by eapply IH].
Qed.

Lemma packed_new_bytes s z : wf_bytes (sdata s) -> NewReader s = Ok z -> wf_bytes (symbol z).
Proof.
  intros Hwf. unfold NewReader. destruct (read_full s packHeaderLength) as [[hdr e] s1] eqn:Er.
  destruct (read_full_wf _ _ _ _ _ Er Hwf) as [_ Hs1]. destruct e as [[| |c]|]; try done.
  destruct (negb _); [done|]. destruct (_ || _); [done|]. destruct (read_bytes _ s1) as [[counts|e] s2] eqn:Eb; [|done].
  apply read_bytes_ok in Eb as (_ & Hd & _). rewrite Hd in Hs1. apply Forall_app in Hs1 as [_ Hs2].
  destruct (256 <? _); [done|]. destruct (read_levels _ _ _ _) as [[[starts syms] s3]|e|] eqn:El; [|done..].
  intros [= <-]. cbn [symbol]. apply wf_bytes_app; [by eapply read_levels_bytes|apply wf_bytes_replicate].
Qed.

Lemma packed_decode_bytes fuel : forall z r z', wf_bytes (symbol z) -> decode_loop fuel z = Ok (r, z') ->
  symbol z' = symbol z /\ match r with inl b => is_byte b | inr _ => True end.
Proof.
  induction fuel as [|fuel IH]; intros z r z' Hw; [done|]. cbn [decode_loop].
  destruct (fill z) as [[[s byte] n]|e]; [|by intros [= <- <-]].
  set (code := Z.lor _ _). destruct (index (inodesIn z) _) as [i| |]; [|done..]. cbn [mbind outcome_bind].
  destruct (i <=? code).
  - destruct (index (symbolsIn z) _) as [sy| |]; [|done..]. cbn [mbind outcome_bind]. destruct (sy <? _); [by intros [= <- <-]|].
    destruct (index (tree z) _) as [st| |]; [|done..]. cbn [mbind outcome_bind]. destruct (_ && _); [by intros [= <- <-]|].
    unfold index. destruct (_ && _); [|done]. cbn [mbind outcome_bind]. intros [= <- <-]. split; [done|]. by apply at_range.
  - destruct (_ <? _); [by intros [= <- <-]|]. by intros H%IH.
Qed.

Lemma packed_read_loop_bytes n : forall z out out' z', wf_bytes (symbol z) -> wf_bytes out -> read_loop n z out = Ok (out', z') ->
  wf_bytes (symbol z') /\ wf_bytes out'.
Proof.
  induction n as [|n IH]; intros z out out' z' Hz Ho; cbn [read_loop]; [by intros [= <- <-]|].
  destruct (err z); [by intros [= <- <-]|]. unfold decode. destruct (decode_loop _ z) as [[r z1]| |] eqn:Ed; [|done..].
  cbn [mbind outcome_bind]. destruct (packed_decode_bytes _ _ _ _ Hz Ed) as [Hs Hr]. destruct r as [b|e].
  - apply IH; [by rewrite Hs|]. apply wf_bytes_app; [done|by constructor].
  - intros [= <- <-]. cbn. by rewrite Hs.
Qed.

Lemma packed_drain_bytes block m : forall z b e, wf_bytes (symbol z) -> drain_packed block m z = Ok (b, e) -> wf_bytes b.
Proof.
  induction m as [|m IH]; intros z b e Hz; [done|]. cbn [drain_packed].
  destruct (Read z block) as [[[out er] z1]| |] eqn:ER; [|done..].
  assert (H : wf_bytes (symbol z1) /\ wf_bytes out).
  { unfold Read in ER. destruct (read_loop _ _ _) as [[o z2]| |] eqn:El; [|done..].
    cbn [mbind outcome_bind] in ER. apply packed_read_loop_bytes in El as [? ?]; [|first [done|apply Forall_nil_2]..]. destruct (0 <? zlen o); injection ER as <- _ <-; (split; [done|]); [done|apply Forall_nil_2]. }
  destruct H as [Hz1 Ho]. destruct er as [[| |]|]; [by intros [= <- _]..|].
  destruct (drain_packed _ _ z1) as [[rest e']| |] eqn:Ed; [|done..]. intros [= <- _]. apply wf_bytes_app; [done|by eapply IH].
Qed.
End Packed_.

(** ** What is opened *)

(** Readers as [Open] and [Unwrap] make them, of bytes. *)
Definition sound (c : content) : Prop :=
  match c with
  | Plain s => wf_bytes (sdata s)
  | Packed z => Unixpack.inv z /\ wf_bytes (Unixpack.symbol z)
  | Compressed z => Unixcompress.inv z /\ Compressed_.bytes_inv z
  end.

(** All of it is read in some number of blocks, and is bytes. *)
Lemma contents_total c : sound c -> exists n s, wf_bytes (sdata s) /\ forall m, (n <= m)%nat -> contents m c = Ok s.
Proof.
  destruct c as [s|z|z]; cbn [sound]; [intros Hs; exists 0%nat, s; by split| |].
  - intros [Hi Hb]. destruct (Packed_.packed_drain_ends copyBlock z ltac:(done) Hi) as (n & b & e & H). exists n, (MkStream b e).
    split; [eapply (Packed_.packed_drain_bytes _ n); [done|by apply H]|]. intros m Hm. cbn [contents]. by rewrite H.
  - intros [Hi Hb]. destruct (Compressed_.drain_ends copyBlock z ltac:(done) Hi) as (n & b & e & H). exists n, (MkStream b e).
    split; [eapply (Compressed_.drain_bytes _ n); [done|by apply H]|]. intros m Hm. cbn [contents]. by rewrite H.
Qed.

Lemma Unwrap_sound name s : wf_bytes (sdata s) -> match Unwrap name s with Ok (_, c) => sound c | Err _ => True | Panic => False end.
Proof.
  intros Hs. unfold Unwrap. destruct (_ && _).
  - pose proof (Unixpack.pk_NewReader_inv s Hs) as H. destruct (Unixpack.NewReader s) as [z| |] eqn:E; [|done..].
    split; [|by eapply Packed_.packed_new_bytes]. apply Unixpack.pk_reachable_inv. by eapply Unixpack.reachable_new.
  - destruct (_ && _); [|done]. destruct (Unixcompress.NewReader s) as [z|e] eqn:E; [|done].
    split; [by eapply Unixcompress.NewReader_inv|by eapply Compressed_.new_bytes].
Qed.

(** A directory whose archives give bytes. *)
Definition bytes_fs (fs : Inst.FS) : Prop := forall name f ra, fs_open fs name = Ok f -> Inst.f_ra f = Some ra ->
  forall off n, wf_bytes (ra off n).1.

Lemma open_archive_bytes fs name : bytes_fs fs ->
  match a_err (open_archive fs name), a_r (open_archive fs name) with
  | None, Some ra => forall off n, wf_bytes (ra off n).1 | None, None => False | Some _, _ => True end.
Proof.
  intros Hb. unfold open_archive. destruct (fs_open fs name) as [f| |] eqn:Ef; [|done..].
  specialize (Hb name f). destruct (Inst.f_size f); [|done..]. destruct (Inst.f_ra f) as [ra|]; [|done]. destruct (_ <? _); [done|].
  destruct (ra 0 sigLen) as [sig [er|]]; [done|]. destruct (_ || _); [done|]. cbn. by apply Hb.
Qed.

Lemma Open_content fs P e : bytes_fs fs ->
  match (Inst.Open fs (MkDist [] ∅) P e).1 with Ok c => sound c | Err _ => True | Panic => False end.
Proof.
  intros Hb. unfold Inst.Open, archive. cbn [archives]. rewrite lookup_empty. cbn zeta.
  pose proof (open_archive_bytes fs (archive_name P e) Hb) as Ha. set (a := open_archive _ _) in *. cbn [fst].
  destruct (a_err a); [done|]. destruct (a_r a) as [ra|]; [|done].
  assert (Hr : match record ra (a_size a) e with Ok s => wf_bytes (sdata s) | Err _ => True | Panic => False end).
  { unfold record. destruct (_ <? _); [done|]. destruct (_ <? _); [done|]. destruct (ra (Idb.Offset e) 2) as [hdr [er|]]; [done|].
    destruct (_ <? _); [done|]. destruct (ra _ (be hdr)) as [got er]. destruct er as [[| |]|]; try done;
      (destruct (negb _); [done|]; destruct (_ || _); [done|]; unfold section_stream;
       match goal with |- context [ra ?x ?y] => specialize (Ha x y); destruct (ra x y) end; exact Ha). }
  destruct (record _ _ _) as [s| |]; [|done..]. destruct (_ =? 0); [exact Hr|].
  destruct (Unixcompress.NewReader s) as [z|] eqn:E; [|done].
  split; [by eapply Unixcompress.NewReader_inv|by eapply Compressed_.new_bytes].
Qed.
