(* ===== verification/Links.v ===== *)
(** Where the links of an extraction lead, and the names beside a path. *)
From S2P Require Import Prelude Unixcompress Unixpack Text Path Strconv Strings Idb Inst Shell Attempts Glob Extract Rel Extractor.

(** ** Places of a set *)

Lemma below_dir p : below p -> exists D n, p = join_slash (D ++ [n]) /\ Forall name_ok D /\ name_ok n /\ Dir p = path_at D.
Proof.
  intros (els & Hne & Hels & ->). destruct (exists_last Hne) as (D & n & ->). apply Forall_app in Hels as [HD Hn].
  rewrite Forall_singleton in Hn. exists D, n. split_and!; [done..|]. by rewrite Dir_names.
Qed.

Lemma below_Dir p : below p -> below (Dir p) \/ Dir p = [dot].
Proof.
  intros (D & n & _ & HD & _ & ->)%below_dir. unfold path_at. case_bool_decide; [by right|]. left. by exists D.
Qed.

Lemma below_names D n : Forall name_ok D -> name_ok n -> below (join_slash (D ++ [n])).
Proof. intros. exists (D ++ [n]). split_and!; [by destruct D| |done]. apply Forall_app. by rewrite Forall_singleton. Qed.

Lemma inside_below p t : inside_link p t -> below p.
Proof. intros (_ & D & n & -> & HD & Hn & _). by apply below_names. Qed.

(** A dot and a word after the last name. *)
Definition beside (p c : bytes) : Prop := exists s, slash ∉ s /\ c = p ++ [dot] ++ s.

Lemma name_beside n s : name_ok n -> slash ∉ s -> name_ok (n ++ [dot] ++ s).
Proof.
  intros (H1 & H2 & H3 & H4) Hs. split_and!.
  - by destruct n.
  - destruct n as [|c [|? ?]]; done.
  - destruct n as [|c [|d n]]; [done| |]; intros [=]; subst; [done|by destruct n].
  - rewrite !not_elem_of_app. split_and!; [done|unfold dot, slash; set_solver|done].
Qed.

Lemma join_slash_last D n s : join_slash (D ++ [n]) ++ s = join_slash (D ++ [n ++ s]).
Proof. destruct D as [|d D]; [done|]. by rewrite !join_slash_snoc, <- !app_assoc by done. Qed.

Lemma beside_below p c : below p -> beside p c -> below c.
Proof.
  intros (D & n & -> & HD & Hn & _)%below_dir (s & Hs & ->). rewrite join_slash_last. apply below_names; [done|].
  by apply name_beside.
Qed.

Lemma beside_inside p c t : inside_link p t -> beside p c -> inside_link c t.
Proof.
  intros (Ha & D & n & -> & HD & Hn & Hw) (s & Hs & ->). split; [done|]. exists D, (n ++ [dot] ++ s).
  rewrite join_slash_last. split_and!; [done..|by apply name_beside|done].
Qed.

(** ** Suffixes *)

(** The suffixes unpacking takes away. *)
Definition suffixes : list bytes := [dot_z; dot_Z].

Definition tame_names (s : bytes) : Prop := forall u, u ∈ suffixes -> tame u s.

Lemma suffix_plain u : u ∈ suffixes -> slash ∉ u /\ u <> [].
Proof.
  unfold suffixes. rewrite !elem_of_cons, elem_of_nil. intros [->|[->|[]]]; (split; [|done]);
    apply (bool_decide_unpack _); vm_compute; exact I.
Qed.

Lemma odd_plain u e : u ∈ suffixes -> e ∈ [[]; [dot]; dotdot] -> e ∉ odd_names u.
Proof.
  assert (H : Forall (fun u => Forall (fun e => e ∉ odd_names u) [[]; [dot]; dotdot]) suffixes).
  { apply (bool_decide_unpack _). vm_compute. exact I. }
  rewrite Forall_forall in H. intros Hu He. specialize (H u Hu). rewrite Forall_forall in H. by apply H.
Qed.

Lemma TrimSuffix_cases s u : TrimSuffix s u = s \/ s = TrimSuffix s u ++ u.
Proof. unfold TrimSuffix. destruct (CutSuffix s u) as [a|] eqn:E; cbn; [right; by apply CutSuffix_Some in E|by left]. Qed.

Lemma HasSuffix_trim s u : HasSuffix s u = true -> s = TrimSuffix s u ++ u.
Proof.
  intros H. unfold TrimSuffix. assert (CutSuffix s u = Some (take (length s - length u) s)) as ->.
  { unfold CutSuffix. rewrite H, andb_true_r. apply bool_decide_eq_true in H. apply (f_equal length) in H.
    rewrite length_drop in H. by rewrite (proj2 (Nat.leb_le _ _)) by lia. }
  cbn. apply bool_decide_eq_true in H. rewrite <- H at 2. by rewrite take_drop.
Qed.

Lemma below_cut t u : u ∈ suffixes -> tame_names (t ++ u) -> below (t ++ u) -> below t.
Proof. intros Hu Ht Hb. destruct (suffix_plain u Hu). by eapply below_trim; [| |exact Hb]; [|apply Ht]. Qed.

(** A link and its text may both lose the suffix. *)
Lemma inside_trim p t u : u ∈ suffixes -> tame_names p -> tame_names t -> HasSuffix t u = true ->
  inside_link p t -> inside_link (TrimSuffix p u) (TrimSuffix t u).
Proof.
  intros Hu Hp Ht Hs (Ha & D & n & Ep & HD & Hn & Hw). destruct (suffix_plain u Hu) as [Hsl Hne].
  apply HasSuffix_trim in Hs. set (t' := TrimSuffix t u) in *.
  assert (HD' : exists n', TrimSuffix p u = join_slash (D ++ [n']) /\ name_ok n').
  { destruct (TrimSuffix_cases p u) as [->|E]; [by exists n|]. set (p' := TrimSuffix p u) in *.
    specialize (Hp u Hu). rewrite E in Hp. destruct (tame_last u p' Hsl Hp) as (init & y & E1 & E2 & Hy).
    rewrite <- E, Ep, split_join in E2.
    - apply app_inj_tail in E2 as [-> _]. exists y. split; [|done]. rewrite <- E1. symmetry. apply join_split.
    - by destruct D.
    - apply names_no_slash, Forall_app. by rewrite Forall_singleton. }
  destruct HD' as (n' & -> & Hn'). specialize (Ht u Hu). rewrite Hs in Ht, Hw, Ha.
  destruct (walk_trim D t' u Hsl Hne Ht Hw) as [Hw' Ha']. split; [congruence|]. by exists D, n'.
Qed.

(** ** The text of a link *)

Lemma clean_els_sub r els e : e ∈ clean_els r els -> e ∈ els.
Proof.
  unfold clean_els. rewrite elem_of_reverse. intros H.
  assert (G : forall kept, e ∈ foldl (clean_step r) kept els -> e ∈ kept \/ e ∈ els).
  { clear H. induction els as [|x els IH]; intros kept H; [by left|]. cbn [foldl] in H. rewrite elem_of_cons.
    apply IH in H as [H|H]; [|by right; right]. revert H. unfold clean_step.
    repeat case_match; try rewrite elem_of_cons; rewrite ?elem_of_cons; intuition (subst; auto). }
  apply G in H as [H%elem_of_nil|H]; done.
Qed.

(** An absolute target cannot climb out. *)
Lemma linkDest_absolute p target : IsAbs target = true ->
  let R := clean_els true (split_byte slash target) in
  Forall name_ok R /\ (linkDest p target).1 = path_at R.
Proof.
  intros Ha R. assert (HR : Forall name_ok R).
  { destruct (clean_els_shape true (split_byte slash target)) as (ups & names & He & _ & Hn & Hr).
    rewrite (Hr eq_refl) in He. cbn [app] in He.
    pose proof (clean_els_ok true (split_byte slash target) (split_elements target)) as Hk. unfold R. rewrite He in Hk |- *.
    rewrite Forall_forall in *. intros e Hin. destruct (Hk e Hin) as [->|]; [|done]. by destruct (Hn dotdot Hin). }
  split; [done|]. destruct target as [|c target]; [done|]. cbn [IsAbs] in Ha. unfold linkDest. rewrite Ha.
  assert (E : Clean (c :: target) = slash :: join_slash R).
  { unfold Clean. cbn [IsAbs]. rewrite Ha. cbn [app]. by rewrite bool_decide_false. }
  unfold cleanInstallPath. rewrite E.
  assert (ET : TrimLeft (slash :: join_slash R) [slash] = join_slash R).
  { unfold TrimLeft. cbn [drop_while]. assert (contains [slash] slash = true) as ->; [done|].
    destruct (decide (R = [])) as [->|Hne]; [done|]. pose proof (TrimLeft_path_at R (names_shape R HR)) as H.
    unfold path_at in H. by rewrite bool_decide_false in H. }
  rewrite ET. cbn [fst]. destruct (decide (R = [])) as [->|Hne]; [done|].
  pose proof (Clean_path_at R (names_shape R HR)) as H. unfold path_at in *. by rewrite bool_decide_false in *.
Qed.

Lemma Rel_elements D R r e : Forall name_ok D -> Forall name_ok R -> Rel (path_at D) (path_at R) = Some r ->
  e ∈ split_byte slash r -> e ∈ R \/ e ∈ [[]; [dot]; dotdot].
Proof.
  intros HD HR. unfold Rel. rewrite !Clean_path_at by by apply names_shape.
  case_bool_decide as E; [intros [= <-]; right; set_solver|].
  case_match; [done|]. rewrite elements_base by done. rewrite elements_at by by apply names_shape.
  set (T := if bool_decide (R = []) then [[dot]] else R).
  pose proof (drop_common_spec D T) as Hdc. destruct (drop_common D T) as [b t]. destruct Hdc as (c & _ & ET).
  assert (Ht : forall n, e ∈ replicate n dotdot ++ t -> e ∈ R \/ e ∈ [[]; [dot]; dotdot]).
  { intros n [Hin%elem_of_replicate|Hin]%elem_of_app; [right; set_solver|].
    assert (He : e ∈ T) by (rewrite ET; apply elem_of_app; by right). unfold T in He.
    destruct (bool_decide (R = [])); [right|by left]. apply list_elem_of_singleton in He as ->. right. by left. }
  assert (Hns : Forall (fun e => slash ∉ e) t).
  { assert (Hall : Forall (fun e => slash ∉ e) T).
    { unfold T. destruct (bool_decide (R = [])); [apply Forall_singleton; unfold dot, slash; set_solver|by apply names_no_slash]. }
    rewrite ET in Hall. by apply Forall_app in Hall as [_ ?]. }
  assert (Hj : forall n, e ∈ split_byte slash (join_slash (replicate n dotdot ++ t)) -> e ∈ R \/ e ∈ [[]; [dot]; dotdot]).
  { intros n. destruct (decide (replicate n dotdot ++ t = [])) as [->|Hne]; [cbn; set_solver|].
    rewrite split_join; [apply Ht|done|]. apply Forall_app. split; [|done]. apply Forall_replicate. unfold dotdot, dot, slash. set_solver. }
  destruct b as [|x b]; [intros [= <-]; apply (Hj 0%nat)|]. destruct (_ && _); [done|]. intros [= <-]. apply (Hj (S (length b))).
Qed.

Lemma IsAbs_prefix s : HasPrefix s [slash] = IsAbs s.
Proof.
  apply eq_true_iff_eq. rewrite HasPrefix_spec. split; [by intros [r ->]|].
  destruct s as [|c s]; [done|]. cbn. intros ->%Z.eqb_eq. by exists s.
Qed.

(** The text [symlink] writes leads inside, and has the elements of the target. *)
Lemma link_text_inside p target r : below p -> target <> [] ->
  ((linkDest p target).2 = true \/ (linkDest p target).1 = [dot]) -> link_text p target = Some r ->
  inside_link p r /\ (tame_names target -> tame_names r).
Proof.
  intros (D & n & -> & HD & Hn & HDir)%below_dir Hne Hok. unfold link_text. rewrite IsAbs_prefix, HDir.
  destruct (IsAbs target) eqn:Ha.
  - destruct (linkDest_absolute (join_slash (D ++ [n])) target Ha) as [HR ->]. intros Hr.
    destruct (Rel_walk D _ r HD HR Hr) as (Har & _ & Hw). split.
    + split; [done|]. exists D, n. split_and!; [done..|]. by rewrite Hw.
    + intros Ht u Hu. specialize (Ht u Hu). unfold tame in *. pose proof (fun e => Rel_elements D _ r e HD HR Hr) as Hel.
      rewrite Forall_forall in *. intros e [H|H]%Hel; [by apply Ht, (clean_els_sub true)|].
      by apply odd_plain.
  - intros [= <-]. split; [|done]. split; [done|]. exists D, n. split_and!; [done..|].
    revert Hok. unfold linkDest. destruct target as [|c target]; [done|]. cbn [IsAbs] in Ha. rewrite Ha, HDir.
    intros Hok. by apply walk_inside.
Qed.
