(* ===== verification/Contained.v ===== *)
(** An extraction keeps to its set: every path given to the root is below it, every
    link leads inside, and only files the extraction made are written or removed. *)
From S2P Require Import Prelude Unixcompress Unixpack Text Path Strconv Strings Idb Inst Shell Attempts Glob Extract Rel Extractor Links.

(** ** The calls a root is given *)

Inductive call :=
| CLstat (p : bytes) | CReadlink (p : bytes) | CRead (p : bytes)
| CMkdirAll (p : bytes) | CChmod (p : bytes)
| CSymlink (target p : bytes)
| CCreate (p : bytes) (made : bool) | CPut (p : bytes) | CRemove (p : bytes).

#[export] Instance call_eq_dec : EqDecision call.
Proof. solve_decision. Defined.

(** A root that also keeps the calls, the latest first. *)
Definition logged {W} (T : Root W) : Root (list call * W) :=
  let log {A} (c : A -> call) (f : W -> A * W) '(l, w) := let '(a, w) := f w in (a, (c a :: l, w)) in {|
    o_lstat p := log (fun _ => CLstat p) (o_lstat T p);
    o_readlink p := log (fun _ => CReadlink p) (o_readlink T p);
    o_read p := log (fun _ => CRead p) (o_read T p);
    o_mkdirall p := log (fun _ => CMkdirAll p) (o_mkdirall T p);
    o_chmod p m := log (fun _ => CChmod p) (o_chmod T p m);
    o_symlink t p := log (fun _ => CSymlink t p) (o_symlink T t p);
    o_create p m := log (fun e => CCreate p (negb (bool_decide (is_Some e)))) (o_create T p m);
    o_put p d := log (fun _ => CPut p) (o_put T p d);
    o_remove p '(l, w) := (CRemove p :: l, o_remove T p w);
  |}.

(** What a call may be, after the calls [l]. *)
Definition allowed (l : list call) (c : call) : Prop :=
  match c with
  | CLstat p | CReadlink p | CRead p | CChmod p | CCreate p _ => below p
  | CMkdirAll p => below p \/ p = [dot]
  | CSymlink t p => inside_link p t
  | CPut p | CRemove p => below p /\ CCreate p true ∈ l
  end.

Fixpoint safe (l : list call) : Prop :=
  match l with [] => True | c :: l => allowed l c /\ safe l end.

(** ** Actions that keep to the set *)

Create HintDb staying discriminated.
#[export] Hint Constants Opaque : staying.

Section staying.
Context {W : Type} (T : Root W) (sha256 : bytes -> bytes) (fss : list Inst.FS) (turns : nat) (unpack : bool).
Notation L := (logged T).
Notation wr := (writer (list call * W)).

(** The calls are safe, the paths in [made] were created, and what files lost are the
    suffixes. *)
Definition ok (made : bytes -> Prop) (w : wr) : Prop :=
  safe (w_root w).1 /\ (forall p, made p -> CCreate p true ∈ (w_root w).1) /\
  (forall r u, w_unpacked w !! r = Some u -> u ∈ suffixes).

Definition none_made (_ : bytes) : Prop := False.

Definition stays {A} (made : bytes -> Prop) (m : act (list call * W) A) (Q : A -> Prop) : Prop := forall w, ok made w ->
  let '(r, w') := m w in ok made w' /\ match r with Ok a => Q a | _ => True end.

Definition true_ {A} (_ : A) : Prop := True.

Lemma stays_ret {A} made (a : A) (Q : A -> Prop) : Q a -> stays made (mret a) Q.
Proof. by intros ? ? ?. Qed.
Lemma stays_bind {A B} made (m : act (list call * W) A) (f : A -> act (list call * W) B) (P : A -> Prop) Q :
  stays made m P -> (forall a, P a -> stays made (f a) Q) -> stays made (m ≫= f) Q.
Proof.
  intros Hm Hf w Hw. specialize (Hm w Hw). unfold mbind, act_bind. destruct (m w) as [[a| |] w1]; destruct Hm; [by apply Hf|done..].
Qed.
Lemma stays_weaken {A} made (m : act (list call * W) A) (P Q : A -> Prop) :
  stays made m P -> (forall a, P a -> Q a) -> stays made m Q.
Proof. intros Hm HPQ w Hw. specialize (Hm w Hw). destruct (m w) as [[a| |] w1]; naive_solver. Qed.
Lemma stays_true {A} made (m : act (list call * W) A) P : stays made m P -> stays made m true_.
Proof. intros H. by eapply stays_weaken. Qed.
(** What holds for every path made holds for none. *)
Lemma stays_panic {A} made (Q : A -> Prop) : stays made panic Q.
Proof. by intros w Hw. Qed.
Lemma stays_lift {A} made (m : outcome stuck A) : stays made (lift_ m) true_.
Proof. intros w Hw. cbn. by destruct m. Qed.
Lemma stays_state made : stays made state (fun w => forall r u, w_unpacked w !! r = Some u -> u ∈ suffixes).
Proof. intros w Hw. split; [done|]. apply Hw. Qed.

(** A call to the root. *)
Lemma stays_call {A} made (c : A -> call) (f : W -> A * W) :
  (forall l a, (forall p, made p -> CCreate p true ∈ l) -> allowed l (c a)) ->
  stays made (on_root (fun '(l, w) => let '(a, w) := f w in (a, (c a :: l, w)))) true_.
Proof.
  intros Hc w (Hs & Hm & Hu). unfold on_root. destruct (w_root w) as [l r]. destruct (f r) as [a r']. cbn in *.
  split; [|done]. split; [|split; [|done]].
  - split; [by apply Hc|done].
  - intros p Hp. right. by apply Hm.
Qed.

Lemma stays_lstat made p : below p -> stays made (on_root (o_lstat L p)) true_.
Proof. intros. by apply (stays_call made (fun _ => CLstat p)). Qed.
Lemma stays_readlink made p : below p -> stays made (on_root (o_readlink L p)) true_.
Proof. intros. by apply (stays_call made (fun _ => CReadlink p)). Qed.
Lemma stays_read made p : below p -> stays made (on_root (o_read L p)) true_.
Proof. intros. by apply (stays_call made (fun _ => CRead p)). Qed.
Lemma stays_mkdir made p : below p \/ p = [dot] -> stays made (on_root (o_mkdirall L p)) true_.
Proof. intros. by apply (stays_call made (fun _ => CMkdirAll p)). Qed.
Lemma stays_chmod made p m : below p -> stays made (on_root (o_chmod L p m)) true_.
Proof. intros. by apply (stays_call made (fun _ => CChmod p)). Qed.
Lemma stays_symlink made t p : inside_link p t -> stays made (on_root (o_symlink L t p)) true_.
Proof. intros. by apply (stays_call made (fun _ => CSymlink t p)). Qed.
Lemma stays_put made p d : below p -> made p -> stays made (on_root (o_put L p d)) true_.
Proof. intros Hb Hp. apply (stays_call made (fun _ => CPut p)). intros l _ Hl. split; [done|by apply Hl]. Qed.
Lemma stays_remove (made : bytes -> Prop) p : below p -> made p -> stays made (on_root_ (o_remove L p)) true_.
Proof.
  intros Hb Hp w (Hs & Hm & Hu). unfold on_root_, on_root. destruct (w_root w) as [l r]. cbn in *. split; [|done].
  split; [|split; [|done]]; [split; [split; [done|by apply Hm]|done]|]. intros q Hq. right. by apply Hm.
Qed.

(** A file that is created may be written and removed. *)
Lemma stays_create {B} made p m (k : option create_err -> act (list call * W) B) Q : below p ->
  (forall e, stays made (k (Some e)) Q) -> stays (fun q => made q \/ q = p) (k None) Q ->
  stays made (on_root (o_create L p m) ≫= k) Q.
Proof.
  intros Hb He Hn w (Hs & Hm & Hu). unfold mbind, act_bind, on_root. destruct (w_root w) as [l r] eqn:Ew. cbn [logged o_create].
  destruct (o_create T p m r) as [e r']. cbn in Hs, Hm.
  assert (Hok : forall b, ok made (with_root w (CCreate p b :: l, r'))).
  { intros b. split; [|split; [|exact Hu]]; [by split|]. intros q Hq. right. by apply Hm. }
  destruct e as [e|]; [by apply He|].
  assert (Hok' : ok (fun q => made q \/ q = p) (with_root w (CCreate p true :: l, r'))).
  { destruct (Hok true) as (H1 & H2 & H3). split; [done|split; [|done]]. intros q [Hq| ->]; [by apply H2|by left]. }
  specialize (Hn _ Hok'). destruct (k None _) as [res w']. destruct Hn as [(H1 & H2 & H3) HQ].
  split; [|done]. split; [done|split; [|done]]. intros q Hq. apply H2. by left.
Qed.
End staying.

#[export] Hint Resolve stays_panic stays_lift stays_lstat stays_readlink stays_read stays_mkdir stays_chmod
  stays_symlink stays_put stays_remove : staying.
#[export] Hint Resolve below_Dir beside_below beside_inside inside_below : staying.

(** A bind whose first action is known, a return, or a case. *)
Ltac stay_step :=
  match goal with
  | |- stays _ (mret _) _ => apply stays_ret
  | |- stays _ (_ ≫= _) _ => eapply stays_bind; [solve [eauto with staying]|cbv beta; intros]
  | |- stays _ (let '(_, _) := ?x in _) _ => destruct x eqn:?
  | |- stays _ (match ?x with _ => _ end) _ => destruct x eqn:?
  end.
Ltac stay := repeat (cbn zeta; stay_step); try (exact I); try solve [eauto with staying].

(** ** Names *)

Lemma slash_hex t : slash ∉ encode_hex t.
Proof.
  unfold encode_hex. rewrite list_elem_of_join. intros (l & Hin & (c & -> & _)%list_elem_of_fmap). revert Hin.
  assert (Hd : forall d, 0 <= d < 16 -> lowerhex d <> slash) by (intros d Hd; unfold lowerhex, slash; case_match; zbool; lia).
  cbn. rewrite !elem_of_cons, elem_of_nil. intros [E|[E|[]]]; symmetry in E; revert E; apply Hd; apply Z.mod_pos_bound; lia.
Qed.

Lemma slash_sanitize s : slash ∉ sanitize s.
Proof.
  unfold sanitize. rewrite list_elem_of_fmap. intros (r & E & _). revert E.
  destruct (safe_rune r) eqn:Er; [intros <-; by vm_compute in Er|done].
Qed.

Section writes.
Context {W : Type} (T : Root W) (sha256 : bytes -> bytes) (fss : list Inst.FS) (turns : nat) (unpack : bool).
Notation L := (logged T).

Lemma candidates_beside rel want mach : h_typ want = 108 \/ slash ∉ h_content want ->
  Forall (beside rel) (candidates sha256 rel want mach).
Proof.
  intros Hw. unfold candidates. apply Forall_app. split.
  - case_match; [|done]. apply Forall_singleton. exists (sanitize mach). split; [apply slash_sanitize|done].
  - apply Forall_singleton. eexists. split; [|reflexivity]. intros Hin%elem_of_take. destruct Hin as (i & Hin & _).
    apply list_elem_of_lookup_2 in Hin. revert Hin. case_match eqn:E; [by apply slash_hex|]. zbool.
    destruct Hw as [?|Hw]; [done|exact (Hw)].
Qed.

Lemma stays_lookup made p : below p -> stays made (lookup_at L sha256 p) true_.
Proof. intros Hp. unfold lookup_at. stay. Qed.
#[local] Hint Resolve stays_lookup : staying.

Definition placed (p : bytes) (r : (bytes * status) + note) : Prop :=
  match r with inl (q, _) => q = p \/ beside p q | inr _ => True end.

Lemma stays_first_free made p want rel cands : below p -> Forall (beside p) cands ->
  stays made (first_free L sha256 want rel cands) (placed p).
Proof.
  intros Hp Hc. induction Hc as [|c cands Hc _ IH]; cbn [first_free]; [by stay|].
  assert (below c) by eauto with staying. repeat stay_step; try (by right); exact IH.
Qed.

Lemma stays_claim made p want mach : below p -> h_typ want = 108 \/ slash ∉ h_content want ->
  stays made (claim L sha256 p want mach) (placed p).
Proof.
  intros Hp Hw. unfold claim. repeat stay_step; try (by left); try exact I.
  apply stays_first_free; [done|by apply candidates_beside].
Qed.

#[local] Hint Resolve stays_claim : staying.

(** A change of the writer's own state. *)
Lemma stays_change {B} made (f : writer (list call * W) -> writer (list call * W)) (k : unit -> act (list call * W) B) Q :
  (forall w, w_root (f w) = w_root w) ->
  (forall w, (forall r u, w_unpacked w !! r = Some u -> u ∈ suffixes) -> forall r u, w_unpacked (f w) !! r = Some u -> u ∈ suffixes) ->
  stays made (k tt) Q -> stays made (w ← state; _ ← put_state (f w); k tt) Q.
Proof.
  intros Hr Hu Hk w (H1 & H2 & H3). apply (Hk (f w)). unfold ok. rewrite Hr. split_and!; [done..|by apply Hu].
Qed.

Lemma stays_make_dir made e p it : below p -> stays made (make_dir L e p it) true_.
Proof.
  intros Hp. unfold make_dir. stay.
  apply (stays_change made (fun w => MkWriter _ (w_unpacked w) (w_links w) (w_dists w) (w_root w)) (fun _ => mret _)); [done..|].
  by apply stays_ret.
Qed.
#[local] Hint Resolve stays_make_dir : staying.

Lemma stays_write_dir made e it : below (r_path (i_rec it)) -> stays made (write_dir L sha256 e it) true_.
Proof. intros Hp. unfold write_dir. eapply stays_bind; [apply stays_state|]. intros w _. stay. Qed.

Lemma stays_place_link made p t mach it : inside_link p t -> stays made (place_link L sha256 p t mach it) true_.
Proof.
  intros Hp. assert (below p) by eauto with staying. unfold place_link.
  eapply stays_bind; [apply stays_claim; [done|by left]|]. intros [[q st]|n] Hq; [|by stay].
  assert (inside_link q t) by (destruct Hq as [->|]; eauto with staying).
  assert (below q) by eauto with staying. stay.
Qed.

Lemma unpackOf_suffix unpacked links depth : (forall r u, unpacked !! r = Some u -> u ∈ suffixes) ->
  forall rel, unpackOf unpacked links rel depth = [] \/ unpackOf unpacked links rel depth ∈ suffixes.
Proof.
  intros Hu. induction depth as [|depth IH]; intros rel; cbn [unpackOf]; destruct (unpacked !! rel) as [u|] eqn:E;
    try (right; by eapply Hu); destruct (links !! rel) as [t|]; try by left.
  case_match; [apply IH|by left].
Qed.

Definition tame_entry (e : Entry) (it : item) : Prop :=
  unpack = true -> tame_names (r_path (i_rec it)) /\ tame_names (Symlink e).

Lemma stays_write_link made e it : below (r_path (i_rec it)) -> tame_entry e it ->
  stays made (write_link L sha256 unpack e it) true_.
Proof.
  intros Hp Ht. unfold write_link. set (p := r_path (i_rec it)) in *.
  destruct (bool_decide_reflect (Symlink e = [])) as [|Hne]; [by stay|].
  destruct (linkDest p (Symlink e)) as [dest good] eqn:Ed. destruct (negb good && _) eqn:Eg; [by stay|].
  destruct (link_text p (Symlink e)) as [rel|] eqn:El; [|by stay].
  assert (Hok : (linkDest p (Symlink e)).2 = true \/ (linkDest p (Symlink e)).1 = [dot]).
  { rewrite Ed. cbn. destruct good; [by left|right]. cbn in Eg. by apply negb_false_iff, bool_decide_eq_true in Eg. }
  destruct (link_text_inside p _ rel Hp Hne Hok El) as [Hin Htame].
  eapply stays_bind; [apply stays_state|]. intros w Hw. cbn zeta. apply stays_place_link.
  destruct (good && unpack) eqn:Egu; [|exact Hin]. apply andb_true_iff in Egu as [_ Hun]. destruct (Ht Hun) as [Hp' Hs].
  set (u := unpackOf _ _ _ _). destruct (negb _ && HasSuffix rel u) eqn:Ef; [|exact Hin].
  apply andb_true_iff in Ef as [E1 E2]. apply negb_true_iff, bool_decide_eq_false in E1.
  destruct (unpackOf_suffix (w_unpacked w) (w_links w) 40 Hw dest) as [|Hu]; [done|].
  by apply inside_trim; [| |apply Htame| |].
Qed.

(** ** Files *)

Lemma Unwrap_name name s n c : Unwrap name s = Ok (n, c) -> n = name \/ exists u, u ∈ suffixes /\ name = n ++ u.
Proof.
  unfold Unwrap. intros H.
  assert (Hsuf : forall u, length u = 2%nat -> HasSuffix name u = true -> name = take (length name - 2) name ++ u).
  { intros u Hl Hs%bool_decide_eq_true. rewrite Hl in Hs. rewrite <- Hs. by rewrite take_drop. }
  destruct (HasSuffix name (str ".z") && _) eqn:E1; [|destruct (HasSuffix name (str ".Z") && _) eqn:E2].
  - destruct (Unixpack.NewReader s); [|done..]. injection H as <- _. apply andb_true_iff in E1 as [E1 _]. right.
    exists dot_z. split; [by left|by apply Hsuf].
  - destruct (Unixcompress.NewReader s); [|done]. injection H as <- _. apply andb_true_iff in E2 as [E2 _]. right.
    exists dot_Z. split; [right; by left|by apply Hsuf].
  - injection H as <- _. by left.
Qed.

(** The path a file is opened for: its own, or less a suffix. *)
Definition named (it : item) (n : bytes) : Prop :=
  n = i_rel it \/ unpack = true /\ exists u, u ∈ suffixes /\ i_rel it = n ++ u.

Definition opened (it : item) (r : (bytes * stream) + note) : Prop :=
  match r with inl (n, _) => named it n | inr _ => True end.

Lemma stays_read_entry made it r : stays (W := W) made (read_entry turns unpack it r) (opened it).
Proof.
  unfold read_entry. destruct r as [c|err|]; [|by stay..]. eapply stays_bind; [apply stays_lift|]. intros s _.
  destruct unpack eqn:Eu; cbn [negb]; [|apply stays_ret; by left].
  destruct (Unwrap _ s) as [[n c']|err|] eqn:E; [|by stay..]. eapply stays_bind; [apply stays_lift|]. intros s' _.
  apply stays_ret. destruct (Unwrap_name _ _ _ _ E); [by left|by right].
Qed.

Lemma stays_open made e it : stays (W := W) made (open_entry fss turns unpack e it) (opened it).
Proof.
  intros w Hw. unfold open_entry. unfold mbind, act_bind at 1. cbn [state].
  destruct (fss !! i_set it) as [fs|]; [|by apply (stays_panic made)].
  destruct (w_dists w !! i_set it) as [d|]; [|by apply (stays_panic made)].
  destruct (Inst.Open _ _ _ _) as [r d']. unfold mbind, act_bind, put_state. by apply stays_read_entry.
Qed.

Lemma stays_copyTo made n s m : below n -> stays made (copyTo L sha256 n s m) true_.
Proof.
  intros Hn. unfold copyTo. apply stays_create; [done|by intros [|]; stay|].
  eapply stays_bind; [apply stays_put; [done|by right]|]. intros err _.
  eapply stays_bind with (P := true_); [by stay|]. intros [|] _; [|by stay].
  eapply stays_bind; [apply stays_remove; [done|by right]|]. intros. by stay.
Qed.
#[local] Hint Resolve stays_copyTo stays_open : staying.

Lemma stays_variant made e it p m : below p -> stays made (writeVariant L sha256 fss turns unpack e it p m) true_.
Proof. intros Hp. unfold writeVariant. stay. Qed.
#[local] Hint Resolve stays_variant : staying.

Lemma stays_taken made e it n s m : below n -> stays made (settle_taken L sha256 fss turns unpack e it n s m) true_.
Proof.
  intros Hn. unfold settle_taken. destruct (sfail s); [by stay|]. cbn zeta.
  eapply stays_bind; [apply stays_claim; [done|right; apply slash_hex]|]. intros [[q st]|nt] Hq; [|by stay].
  assert (below q) by (destruct Hq as [->|]; eauto with staying).
  eapply stays_bind with (P := true_); [by stay|]. intros. by stay.
Qed.
#[local] Hint Resolve stays_taken : staying.

Lemma stays_note made it n : named it n -> n <> i_rel it -> stays (W := W) made (note_unpacked it n) true_.
Proof.
  intros [->|(_ & u & Hu & E)] Hne; [done|]. unfold note_unpacked. rewrite E, drop_app_length, <- E.
  intros w (H1 & H2 & H3). split; [|done]. split_and!; [done..|]. cbn. intros r v. rewrite lookup_insert_Some. naive_solver.
Qed.

Lemma stays_write_file made e it : below (i_rel it) -> (unpack = true -> tame_names (i_rel it)) ->
  stays made (write_file L sha256 fss turns unpack e it) true_.
Proof.
  intros Hp Ht. unfold write_file. eapply stays_bind; [apply stays_open|]. intros [[n s]|nt] Hn; [|by stay].
  assert (Hb : below n).
  { destruct Hn as [->|(Hun & u & Hu & E)]; [done|]. specialize (Ht Hun). rewrite E in Ht, Hp. by eapply below_cut. }
  cbn zeta. eapply stays_bind; [eauto with staying|]. intros [c|] _; [by stay|].
  eapply stays_bind; [eauto with staying|]. intros r _. eapply stays_bind with (P := true_); [by stay|].
  intros [[[p st] sum]|nt] _; [|by stay]. eapply stays_bind with (P := true_); [|intros; by stay].
  destruct (bool_decide (st = Written) && _) eqn:E; [|by stay]. apply andb_true_iff in E as [_ E].
  apply negb_true_iff, bool_decide_eq_false in E. by apply stays_note.
Qed.

(** ** The whole *)

(** An item whose path is below the root, and tame with its link when unpacking. *)
Definition fit (it : item) : Prop := below (i_rel it) /\
  (unpack = true -> tame_names (i_rel it) /\ forall e, i_entry it = Some e -> tame_names (Symlink e)).

Lemma stays_write made it : fit it -> stays made (write L sha256 fss turns unpack it) true_.
Proof.
  intros [Hb Ht]. unfold write. eapply stays_bind with (P := true_); [|intros; by stay].
  cbn zeta. change (i_entry (set_path (i_rel it) it)) with (i_entry it).
  destruct (i_entry it) as [e|] eqn:Ee; [|by stay].
  destruct (is_dir e); [by apply stays_write_dir|].
  destruct (is_link e).
  - apply stays_write_link; [done|]. intros Hun. destruct (Ht Hun) as [H1 H2]. split; [done|by apply H2].
  - destruct (is_file e); [|by stay]. apply stays_write_file; [done|]. intros Hun. by destruct (Ht Hun).
Qed.

Lemma stays_write_in made places : forall items,
  (forall i it, i ∈ places -> items !! i = Some it -> fit it) -> NoDup places ->
  stays made (write_in L sha256 fss turns unpack places items) true_.
Proof.
  induction places as [|i places IH]; intros items Hf Hnd; cbn [write_in]; [by stay|]. apply NoDup_cons in Hnd as [Hi Hnd].
  destruct (items !! i) as [it|] eqn:Ei; [|apply IH; [|done]; intros j x Hj; apply Hf; by right].
  eapply stays_bind; [apply stays_write, (Hf i); [by left|done]|]. intros it' _. apply IH; [|done].
  intros j x Hj. rewrite list_lookup_insert_ne by (by intros ->). apply Hf. by right.
Qed.

Lemma elem_order i items : i ∈ order items -> exists it, items !! i = Some it /\ i_status it = Pending.
Proof.
  unfold order. rewrite !elem_of_app, !list_elem_of_filter.
  intros [(_ & H & _)|[(_ & H & _)|(_ & H & _)]]; destruct (items !! i) as [it|]; try done; apply bool_decide_eq_true in H; eauto.
Qed.

Lemma NoDup_order items : NoDup (order items).
Proof.
  unfold order. set (idx := filter _ (seq _ _)). assert (Hn : NoDup idx) by apply NoDup_filter, NoDup_seq.
  apply NoDup_app. split; [by apply NoDup_filter|]. split.
  - intros i Hi%list_elem_of_filter [H%list_elem_of_filter|H%list_elem_of_filter]%elem_of_app; destruct Hi as [Hi _], H as [H _];
      (destruct (items !! i) as [it|]; [destruct (link_entry it)|]; cbn in *; try done).
    by destruct (bool_decide _).
  - apply NoDup_app. split; [by apply NoDup_filter|]. split; [|by apply NoDup_filter].
    intros i Hi%list_elem_of_filter H%list_elem_of_filter. destruct Hi as [Hi _], H as [H _].
    destruct (items !! i) as [it|]; [destruct (link_entry it)|]; cbn in *; try done.
Qed.
End writes.

(** The entries of the sets are tame: no element of a path, once clean, or of a link's
    text is a suffix alone or after dots alone. *)
Definition tame_dists (dists : list dist) : Prop := forall d p e, d ∈ dists -> p ∈ x_products d -> e ∈ Entries p ->
  tame_names (cleanInstallPath (Idb.Path e)).1 /\ tame_names (Symlink e).

Lemma listed_source opts dists it e : it ∈ listed opts dists -> i_entry it = Some e ->
  exists d p, d ∈ dists /\ p ∈ x_products d /\ e ∈ Entries p /\ i_rel it = (cleanInstallPath (Idb.Path e)).1.
Proof.
  intros (s & d & p & Hs & Hp & [Hit|Hit]%elem_of_app)%elem_listed He.
  - apply list_elem_of_omap in Hit as (e' & He' & Hit). exists d, p. unfold entry_item in Hit.
    destruct (negb (matchAny _ _)); [done|]. destruct (cleanInstallPath (Idb.Path e')) as [rel good] eqn:Ec.
    assert (Hit' : i_entry it = Some e' /\ i_rel it = rel).
    { destruct (negb good && _ && _); [by repeat case_match; simplify_eq|].
      repeat (match type of Hit with (if ?b then _ else _) = _ => destruct b end; [by simplify_eq|]). by simplify_eq. }
    destruct Hit' as [E1 E2]. rewrite He in E1. injection E1 as ->. rewrite Ec. split_and!; [|done..].
    by eapply list_elem_of_lookup_2.
  - apply list_elem_of_fmap in Hit as (b & -> & _). done.
Qed.

Lemma plan_fit opts dists it : (Unpack opts = true -> tame_dists dists) -> it ∈ plan opts dists -> i_status it = Pending ->
  fit (Unpack opts) it.
Proof.
  intros Ht Hin HP. destruct (pending_plan opts dists it Hin HP) as [Hl _].
  destruct (listed_pending opts dists it Hl HP) as [Hb (e & p & d & He & _)].
  split; [done|]. intros Hun. destruct (listed_source opts dists it e Hl He) as (d' & p' & Hd & Hp & Hine & ->).
  destruct (Ht Hun d' p' e Hd Hp Hine) as [H1 H2]. split; [done|]. intros e'. rewrite He. by intros [= <-].
Qed.

Lemma stays_writeAll {W} (T : Root W) sha256 fss turns unpack made items :
  (forall it, it ∈ items -> i_status it = Pending -> fit unpack it) ->
  stays made (writeAll (logged T) sha256 fss turns unpack items) true_.
Proof.
  intros Hf. unfold writeAll.
  apply (stays_change made (fun w => MkWriter _ (w_unpacked w) _ (w_dists w) (w_root w)) (fun _ => write_in _ _ _ _ _ _ _)); [done..|].
  apply stays_write_in; [|apply NoDup_order]. intros i it (it' & Ei & HP)%elem_order Hi. rewrite Hi in Ei. injection Ei as ->.
  apply Hf; [by eapply list_elem_of_lookup_2|done].
Qed.

(** C6. Whatever the distributions hold, an extraction keeps to the directory of its
    set. Every path given to the root has proper names only; every link made is
    relative and leads, followed from its directory, to a place in the set; a file is
    written or removed only after this extraction created it, so nothing that was
    there before is overwritten. When installed compression is undone, the names must
    have more than dots before the suffix taken away. *)
Theorem extraction_confined {W} (T : Root W) sha256 fss turns opts dists ds r :
  (Unpack opts = true -> tame_dists dists) ->
  safe (w_root (extract_items (logged T) sha256 fss turns opts dists ds ([], r)).2).1.
Proof.
  intros Ht. unfold extract_items. destruct (ManifestOnly opts); [done|].
  pose proof (stays_writeAll T sha256 fss turns (Unpack opts) none_made (plan opts dists)
    (fun it => plan_fit opts dists it Ht) (MkWriter ∅ ∅ ∅ ds ([], r))) as H.
  destruct (writeAll _ _ _ _ _ _ _) as [res w]. apply H. split_and!; [done|done|]. intros p u. cbn [w_unpacked]. by rewrite lookup_empty.
Qed.
