(* ===== verification/Truth.v ===== *)
(** The records of an extraction are true: what a record says was written is what the
    set holds, at the path it gives, when the extraction ends. *)
From S2P Require Import Prelude Unixcompress Unixpack Text Path Strconv Strings Idb Inst Shell Attempts Glob Extract Rel Extractor Drain Links Contained.

(** ** What a root promises *)

(** What is at a path: its kind, and a file's bytes or a link's text. *)
Definition seen {W} (T : Root W) (w : W) (p : bytes) : option (kind * option bytes) :=
  match (o_lstat T p w).1 with
  | None => None
  | Some KDir => Some (KDir, None)
  | Some KLink => Some (KLink, (o_readlink T p w).1)
  | Some KFile => Some (KFile, (o_read T p w).1)
  end.

(** What was there is there still. *)
Definition grows {W} (T : Root W) (w w' : W) : Prop := forall p x, seen T w p = Some x -> seen T w' p = Some x.

(** A file just created is filled, given its mode, or removed again. *)
Inductive filling {W} (T : Root W) (p : bytes) (w0 : W) : W -> Prop :=
| fill_none : filling T p w0 w0
| fill_put d w : filling T p w0 w -> filling T p w0 (o_put T p d w).2
| fill_chmod m w : filling T p w0 w -> filling T p w0 (o_chmod T p m w).2
| fill_remove w : filling T p w0 w -> filling T p w0 (o_remove T p w).

(** A directory nobody else writes to: looking changes nothing, nothing but a file
    just created loses what it holds, and what succeeds is seen. *)
Class RootLaws {W} (T : Root W) := {
  l_lstat p w : (o_lstat T p w).2 = w;
  l_readlink p w : (o_readlink T p w).2 = w;
  l_read p w : (o_read T p w).2 = w;
  l_mkdirall p w : grows T w (o_mkdirall T p w).2;
  l_chmod p m w : grows T w (o_chmod T p m w).2;
  l_symlink t p w : grows T w (o_symlink T t p w).2;
  l_mkdir_made p w : seen T w p = None -> (o_mkdirall T p w).1 = None -> seen T (o_mkdirall T p w).2 p = Some (KDir, None);
  l_symlink_made t p w : (o_symlink T t p w).1 = None -> seen T (o_symlink T t p w).2 p = Some (KLink, Some t);
  l_create_refused p m w : (o_create T p m w).1 <> None -> grows T w (o_create T p m w).2;
  l_create_taken p m w : (o_create T p m w).1 = Some Exists_ -> seen T (o_create T p m w).2 p <> None;
  l_create p m w w' : (o_create T p m w).1 = None -> filling T p (o_create T p m w).2 w' -> grows T w w';
  l_put p m d w : (o_create T p m w).1 = None -> let w1 := (o_create T p m w).2 in
    (o_put T p d w1).1 = None -> seen T (o_put T p d w1).2 p = Some (KFile, Some d);
}.

#[export] Instance grows_preorder {W} (T : Root W) : PreOrder (grows T).
Proof. split; [by intros w p x|]. intros w1 w2 w3 H1 H2 p x Hx. by apply H2, H1. Qed.

(** ** Weakest preconditions *)

Definition wp {W A} (m : act W A) (w : writer W) (Q : A -> writer W -> Prop) : Prop :=
  match m w with (Ok a, w') => Q a w' | _ => True end.

Section wp.
Context {W : Type}.
Lemma wp_ret {A} (a : A) (w : writer W) Q : Q a w -> wp (mret a) w Q.
Proof. done. Qed.
Lemma wp_bind {A B} (m : act W A) (f : A -> act W B) w Q : wp m w (fun a w' => wp (f a) w' Q) -> wp (m ≫= f) w Q.
Proof. unfold wp, mbind, act_bind. by destruct (m w) as [[a| |] w']. Qed.
Lemma wp_mono {A} (m : act W A) w (P Q : A -> writer W -> Prop) : wp m w P -> (forall a w', P a w' -> Q a w') -> wp m w Q.
Proof. unfold wp. destruct (m w) as [[a| |] w']; auto. Qed.
Lemma wp_root {A} (f : W -> A * W) w Q :
  Q (f (w_root w)).1 (with_root w (f (w_root w)).2) -> wp (on_root f) w Q.
Proof. unfold wp, on_root. by destruct (f (w_root w)). Qed.
Lemma with_same (w : writer W) r : r = w_root w -> with_root w r = w.
Proof. intros ->. by destruct w. Qed.
End wp.

Section truth.
Context {W : Type} (T : Root W) `{!RootLaws T} (sha256 : bytes -> bytes) (fss : list Inst.FS) (turns : nat) (unpack : bool).

(** What [lookup] reports. *)
Definition held_of (x : kind * option bytes) : held :=
  match x with
  | (KDir, _) => MkHeld 100 []
  | (KLink, t) => MkHeld 108 (default [] t)
  | (KFile, d) => MkHeld 102 (match d with Some d => digest sha256 d | None => [] end)
  end.
Definition look (w : W) (p : bytes) : option held := held_of <$> seen T w p.

Lemma look_grows w w' p h : grows T w w' -> look w p = Some h -> look w' p = Some h.
Proof. unfold look. intros Hg (x & Hx & ->)%fmap_Some. by rewrite (Hg _ _ Hx). Qed.
Lemma look_None w p : look w p = None -> seen T w p = None.
Proof. unfold look. by destruct (seen T w p). Qed.

Lemma run_look w r p : (o_lstat T p r).2 = r -> with_root (with_root w r) (o_lstat T p r).2 = with_root w r.
Proof. by intros ->. Qed.

(** Looking gives what is there, and changes nothing. *)
Lemma lookup_run p (w : writer W) : lookup_at T sha256 p w = (Ok (look (w_root w) p), w).
Proof.
  unfold lookup_at, mbind, act_bind, on_root, look, seen.
  pose proof (l_lstat p (w_root w)) as H1. destruct (o_lstat T p (w_root w)) as [k r1]. cbn in H1. subst r1. cbn [fst].
  rewrite with_same by done. destruct k as [[| |]|]; cbn [fmap option_fmap option_map held_of]; try done.
  - pose proof (l_readlink p (w_root w)) as H. destruct (o_readlink T p (w_root w)) as [t r]. cbn in H. subst r. by rewrite with_same.
  - pose proof (l_read p (w_root w)) as H. destruct (o_read T p (w_root w)) as [t r]. cbn in H. subst r. by rewrite with_same.
Qed.

Lemma wp_lookup p w Q : Q (look (w_root w) p) w -> wp (lookup_at T sha256 p) w Q.
Proof. unfold wp. by rewrite lookup_run. Qed.

(** Where [claim] sends an entry: nothing is there, or just what it would write. *)
Definition claimed (r : W) (want : held) (a : (bytes * status) + note) : Prop :=
  match a with
  | inl (q, Duplicate) => look r q = Some want
  | inl (q, Written) | inl (q, Variant) => look r q = None
  | inl _ => False
  | inr _ => True
  end.

Lemma wp_first_free want rel cands w Q :
  (forall a, claimed (w_root w) want a -> (forall q, a <> inl (q, Written)) -> Q a w) ->
  wp (first_free T sha256 want rel cands) w Q.
Proof.
  intros HQ. induction cands as [|c cands IH]; cbn [first_free]; [by apply wp_ret, HQ|].
  apply wp_bind, wp_lookup. destruct (look (w_root w) c) as [h|] eqn:E; [|by apply wp_ret, HQ].
  case_bool_decide; [subst; by apply wp_ret, HQ|exact IH].
Qed.

Lemma wp_claim p want mach w (Q : _ -> _ -> Prop) :
  (forall a, claimed (w_root w) want a -> (forall q, a = inl (q, Written) -> q = p) -> Q a w) -> wp (claim T sha256 p want mach) w Q.
Proof.
  intros HQ. unfold claim. apply wp_bind, wp_lookup. destruct (look (w_root w) p) as [h|] eqn:E; [|apply wp_ret, HQ; by naive_solver].
  case_bool_decide; [subst; apply wp_ret, HQ; by naive_solver|]. destruct (_ =? _); [apply wp_ret, HQ; by naive_solver|].
  apply wp_first_free. intros a Ha Hn. apply HQ; [done|]. intros q ->. by destruct (Hn q).
Qed.

(** ** What every step keeps *)

(** The directories that were made are there, and the archives kept are the ones
    opening them gives. *)
Definition good (w : writer W) : Prop :=
  (forall p, p ∈ w_dirs w -> look (w_root w) p = Some (MkHeld 100 [])) /\ Forall2 cache_ok fss (w_dists w).

Definition step (w w' : writer W) : Prop := good w' /\ grows T (w_root w) (w_root w').

Lemma step_refl w : good w -> step w w.
Proof. by split. Qed.
Lemma step_trans w1 w2 w3 : step w1 w2 -> step w2 w3 -> step w1 w3.
Proof. intros [_ H1] [H2 H3]. split; [done|]. by etrans. Qed.
Lemma step_root w r : good w -> grows T (w_root w) r -> step w (with_root w r).
Proof.
  intros [Hd Hc] Hg. split; [|exact Hg]. split; [|exact Hc]. intros p Hp. eapply look_grows; [exact Hg|]. by apply Hd.
Qed.

Lemma wp_step {A} (m : act W A) w w0 (P : A -> writer W -> Prop) : step w0 w ->
  wp m w (fun a w' => step w w' /\ P a w') -> wp m w (fun a w' => step w0 w' /\ P a w').
Proof. intros H0 Hm. eapply wp_mono; [exact Hm|]. intros a w' [H1 H2]. split; [by eapply step_trans|done]. Qed.

(** *** Opening *)

Lemma Open_fresh fs d P e : cache_ok fs d -> (Inst.Open fs d P e).1 = (Inst.Open fs (MkDist [] ∅) P e).1.
Proof.
  intros Hc. unfold Inst.Open. destruct (archive_cached fs d (archive_name P e) Hc) as (d1 & -> & _).
  destruct (archive_cached fs (MkDist [] ∅) (archive_name P e)) as (d2 & -> & _); [|done].
  intros n a. cbn. by rewrite lookup_empty.
Qed.

(** The path and the bytes of an entry, whatever was opened before. *)
Definition gives (it : item) (e : Entry) (n : bytes) (s : stream) : Prop := exists fs, fss !! i_set it = Some fs /\
  forall w : writer W, read_entry turns unpack it (Inst.Open fs (MkDist [] ∅) (r_product (i_rec it)) e).1 w = (Ok (inl (n, s)), w).

Lemma gives_same it e n s n' s' (w : writer W) : gives it e n s -> gives it e n' s' -> s = s'.
Proof. intros (fs & Hf & H) (fs' & Hf' & H'). assert (fs' = fs) as -> by congruence. specialize (H w). specialize (H' w). congruence. Qed.

Lemma read_entry_pure it r (w w' : writer W) :
  (read_entry turns unpack it r w).2 = w /\ (read_entry turns unpack it r w).1 = (read_entry turns unpack it r w').1.
Proof.
  unfold read_entry. destruct r as [c| |]; [|done..]. unfold mbind, act_bind, lift_.
  destruct (contents turns c); [|done..]. destruct (negb unpack); [done|].
  destruct (Unwrap _ _) as [[n c']| |]; [|done..]. by destruct (contents turns c').
Qed.

Lemma wp_open e it w (Q : _ -> _ -> Prop) : good w ->
  (forall r w', step w w' -> w_root w' = w_root w -> (forall n s, r = inl (n, s) -> gives it e n s) -> Q r w') ->
  wp (open_entry fss turns unpack e it) w Q.
Proof.
  intros [Hd Hc] HQ. unfold open_entry. apply wp_bind. unfold wp at 1. cbn [state].
  destruct (fss !! i_set it) as [fs|] eqn:Ef; [|done]. destruct (w_dists w !! i_set it) as [d|] eqn:Ed; [|done].
  pose proof (Forall2_lookup_lr _ _ _ _ _ _ Hc Ef Ed) as Hfd.
  pose proof (Open_fresh fs d (r_product (i_rec it)) e Hfd) as Hfresh. pose proof (Open_cache fs d (r_product (i_rec it)) e Hfd) as Hcache.
  destruct (Inst.Open fs d (r_product (i_rec it)) e) as [r d'] eqn:Eo. cbn [fst] in Hfresh, Hcache.
  apply wp_bind. unfold wp at 1. cbn [put_state]. set (w' := MkWriter _ _ _ _ _).
  assert (Hs : step w w').
  { split; [|done]. split; [exact Hd|]. cbn. rewrite <- (list_insert_id fss (i_set it) fs) by done. by apply Forall2_insert. }
  unfold wp. destruct (read_entry_pure it r w' w') as [H2 _].
  destruct (read_entry turns unpack it r w') as [[a| |] w2] eqn:Er; [|done..]. cbn in H2. subst w2. apply HQ; [done..|].
  intros n s ->. exists fs. split; [done|]. intros v. rewrite <- Hfresh. destruct (read_entry_pure it r v w') as [H3 H4].
  rewrite Er in H4. destruct (read_entry turns unpack it r v) as [a v']. cbn in *. by subst.
Qed.

(** *** Copying *)

Definition copied (n : bytes) (s : stream) (a : bytes + option note) (w : writer W) : Prop :=
  match a with
  | inl sum => sum = digest sha256 (sdata s) /\ sfail s = None /\ look (w_root w) n = Some (MkHeld 102 sum)
  | inr None => look (w_root w) n <> None
  | inr (Some _) => True
  end.

Lemma wp_copyTo n s m w : good w -> wp (copyTo T sha256 n s m) w (fun a w' => step w w' /\ copied n s a w').
Proof.
  intros Hw. unfold copyTo. apply wp_bind, wp_root.
  pose proof (l_create_refused n m (w_root w)) as Hr. pose proof (l_create_taken n m (w_root w)) as Ht.
  pose proof (l_create n m (w_root w)) as Hc. pose proof (fun d => l_put n m d (w_root w)) as Hp.
  destruct (o_create T n m (w_root w)) as [[err|] r1]; cbn [fst snd] in *.
  { assert (step w (with_root w r1)) by (apply step_root; [done|by apply Hr]).
    destruct err; apply wp_ret; (split; [done|]); [|exact I]. cbn [copied].
    intros E%look_None. by apply Ht. }
  specialize (Hp (sdata s) eq_refl). apply wp_bind, wp_root. cbn [w_root with_root].
  assert (Hput : filling T n r1 (o_put T n (sdata s) r1).2) by apply fill_put, fill_none.
  set (e2 := (o_put T n (sdata s) r1).1) in *. set (r2 := (o_put T n (sdata s) r1).2) in *.
  pose proof (l_chmod n m r2) as Hm.
  assert (Hgone : forall r, filling T n r1 r -> step w (with_root w (o_remove T n r))).
  { intros r Hf. apply step_root; [done|]. by apply Hc, fill_remove. }
  destruct e2 as [c|].
  { apply wp_bind, wp_ret, wp_bind, wp_root, wp_ret. split; [by apply (Hgone r2)|done]. }
  destruct (sfail s) as [c|] eqn:Es.
  { apply wp_bind, wp_ret, wp_bind, wp_root, wp_ret. split; [by apply (Hgone r2)|done]. }
  apply wp_bind, wp_bind, wp_root. cbn [w_root with_root]. pose proof (fill_chmod T n r1 m r2 Hput) as Hf.
  set (r3 := (o_chmod T n m r2).2) in *. destruct (o_chmod T n m r2).1 as [c|].
  { apply wp_ret, wp_bind, wp_root, wp_ret. split; [by apply (Hgone r3)|done]. }
  apply wp_ret, wp_ret. split; [apply (step_root w r3); [done|by apply Hc]|].
  split_and!; [done..|]. change (look r3 n = Some (MkHeld 102 (digest sha256 (sdata s)))). unfold look. by rewrite (Hm n _ (Hp eq_refl)).
Qed.

(** A name that was taken: the same bytes are there, or are now beside it. *)
Lemma wp_taken e it n s m w : good w -> gives it e n s -> look (w_root w) n <> None ->
  wp (settle_taken T sha256 fss turns unpack e it n s m) w (fun a w' => step w w' /\
    match a with
    | inl (p, st, sum) => (st = Duplicate \/ st = Variant) /\ sum = digest sha256 (sdata s) /\ sfail s = None /\
        look (w_root w') p = Some (MkHeld 102 sum)
    | inr _ => True
    end).
Proof.
  intros Hw Hg Hl. unfold settle_taken. destruct (sfail s) eqn:Es; [by apply wp_ret; split; [apply step_refl|]|]. cbn zeta.
  apply wp_bind, wp_claim. intros [[p st]|nt] Ha Hwr; [|by apply wp_ret; split; [apply step_refl|]].
  destruct st; cbn [claimed] in Ha; try done.
  - rewrite (Hwr p eq_refl) in Ha. done.
  - rewrite (bool_decide_false (Duplicate = Variant)) by done. apply wp_bind, wp_ret, wp_ret.
    split; [by apply step_refl|]. split_and!; auto.
  - rewrite bool_decide_true by done. apply wp_bind. unfold writeVariant. apply wp_bind.
    apply wp_open; [done|]. intros r w1 Hs1 Hr1 Hgv. destruct r as [[n' s']|nt]; [|by apply wp_ret, wp_ret].
    assert (s' = s) as -> by (symmetry; eapply gives_same; [exact w|exact Hg|by apply Hgv]).
    apply wp_bind. eapply wp_mono; [apply wp_copyTo; apply Hs1|]. intros a w2 [Hs2 Hcp].
    assert (step w w2) by (by eapply step_trans). apply wp_ret, wp_ret.
    destruct a as [sum|[nt|]]; [|done..]. destruct Hcp as (-> & _ & Hlk). split_and!; auto.
Qed.

(** ** What a record says *)

(** Something is at the path: a directory, the link with the target, or a file with
    the digest, and that is the digest of the entry's own bytes. *)
Definition stands (r : W) (it : item) (e : Entry) : Prop :=
  if is_dir e then look r (r_path (i_rec it)) = Some (MkHeld 100 [])
  else if is_link e then look r (r_path (i_rec it)) = Some (MkHeld 108 (r_target (i_rec it)))
  else look r (r_path (i_rec it)) = Some (MkHeld 102 (r_sha (i_rec it))) /\
    exists n s, gives it e n s /\ sfail s = None /\ r_sha (i_rec it) = digest sha256 (sdata s).

Definition told (r : W) (it : item) (e : Entry) : Prop :=
  match i_status it with
  | Written | Duplicate | Variant => stands r it e
  | Skipped | Failed => True
  | _ => False
  end.

(** Only the path, the target, the digest and the status of a record change. *)
Definition same_entry (it it' : item) : Prop :=
  i_set it' = i_set it /\ i_entry it' = i_entry it /\ i_rel it' = i_rel it /\ r_product (i_rec it') = r_product (i_rec it) /\
  r_install (i_rec it') = r_install (i_rec it).

Lemma told_grows r r' it e : grows T r r' -> told r it e -> told r' it e.
Proof.
  intros Hg. unfold told, stands. destruct (i_status it); try done; repeat case_match;
    first [by apply look_grows|intros [H1 H2]; split; [by eapply look_grows|done]].
Qed.

Definition outcome_of (w : writer W) (it : item) (e : Entry) (it' : item) (w' : writer W) : Prop :=
  step w w' /\ same_entry it it' /\ told (w_root w') it' e.

Lemma failed_as w it e n it' w' : step w w' -> same_entry it it' -> outcome_of w it e (fail n it') w'.
Proof. intros H1 H2. by split. Qed.
Lemma failed_of w it e n w' : step w w' -> outcome_of w it e (fail n it) w'.
Proof. by split. Qed.

(** ** Every write *)

Lemma wp_make_dir e p it w : good w -> is_dir e = true -> r_path (i_rec it) = p ->
  look (w_root w) p = None \/ look (w_root w) p = Some (MkHeld 100 []) ->
  wp (make_dir T e p it) w (outcome_of w it e).
Proof.
  intros Hw Hd Hp Hl. unfold make_dir. apply wp_bind, wp_root.
  pose proof (l_mkdirall p (w_root w)) as Hg. pose proof (l_mkdir_made p (w_root w)) as Hm.
  destruct (o_mkdirall T p (w_root w)) as [[c|] r1]; cbn [fst snd] in *; [by apply wp_ret, failed_of, step_root|].
  assert (Hl1 : look r1 p = Some (MkHeld 100 [])).
  { destruct Hl as [Hn%look_None|Hl]; [unfold look; by rewrite (Hm Hn eq_refl)|by eapply look_grows]. }
  apply wp_bind, wp_root. cbn [w_root with_root]. set (m := Z.lor _ _).
  pose proof (l_chmod p m r1) as Hg2. destruct (o_chmod T p m r1) as [[c|] r2]; cbn [fst snd] in *.
  { apply wp_ret, failed_of, (step_root w r2); [done|by etrans]. }
  apply wp_bind. unfold wp at 1. cbn [state]. apply wp_bind. unfold wp at 1. cbn [put_state]. apply wp_ret.
  assert (Hl2 : look r2 p = Some (MkHeld 100 [])) by by eapply look_grows.
  split; [|split; [done|]].
  - destruct (step_root w r2) as [[Hdirs Hc] Hgr]; [done|by etrans|]. split; [|exact Hgr]. split; [|exact Hc].
    intros q. cbn. rewrite elem_of_union, elem_of_singleton. intros [->|Hq]; [exact Hl2|by apply Hdirs].
  - unfold told, stands. cbn. by rewrite Hd, Hp.
Qed.

Lemma wp_write_dir e it w : good w -> is_dir e = true -> wp (write_dir T sha256 e it) w (outcome_of w it e).
Proof.
  intros Hw Hd. unfold write_dir. apply wp_bind. unfold wp at 1. cbn [state].
  case_bool_decide as Hin.
  - apply wp_ret. split; [by apply step_refl|split; [done|]]. unfold told, stands. cbn. rewrite Hd. by apply Hw.
  - apply wp_bind, wp_lookup. destruct (look (w_root w) _) as [h|] eqn:El; [|apply wp_make_dir; auto].
    destruct (negb (h_typ h =? 100)) eqn:Eh; [by apply wp_ret, failed_of, step_refl|].
    apply wp_make_dir; [done..|]. right. rewrite El. f_equal. apply negb_false_iff, Z.eqb_eq in Eh.
    unfold look in El. apply fmap_Some in El as ([k c] & _ & ->). destruct k; cbn in *; done.
Qed.

Lemma wp_place_link e p t mach it w : good w -> is_dir e = false -> is_link e = true -> r_target (i_rec it) = t ->
  wp (place_link T sha256 p t mach it) w (outcome_of w it e).
Proof.
  intros Hw Hd Hl Ht. unfold place_link. apply wp_bind, wp_claim. intros [[q st]|n] Hc _; [|by apply wp_ret, failed_of, step_refl].
  case_bool_decide as Hst; cbn zeta.
  - subst st. apply wp_ret. split; [by apply step_refl|split; [done|]]. unfold told, stands. cbn. by rewrite Hd, Hl, Ht.
  - apply wp_bind, wp_root. pose proof (l_mkdirall (Dir q) (w_root w)) as Hg.
    destruct (o_mkdirall T (Dir q) (w_root w)) as [[c|] r1]; cbn [fst snd] in *; [by apply wp_ret, failed_as; [apply step_root|]|].
    apply wp_bind, wp_root. cbn [w_root with_root]. pose proof (l_symlink t q r1) as Hg2. pose proof (l_symlink_made t q r1) as Hm.
    destruct (o_symlink T t q r1) as [[c|] r2]; cbn [fst snd] in *.
    + apply wp_ret, failed_as; [|done]. apply (step_root w r2); [done|by etrans].
    + apply wp_ret. split; [apply (step_root w r2); [done|by etrans]|split; [done|]].
      assert (look r2 q = Some (MkHeld 108 t)) by (unfold look; by rewrite (Hm eq_refl)).
      unfold told, stands. cbn. rewrite Hd, Hl, Ht. by destruct st.
Qed.

Lemma wp_write_link e it w : good w -> is_dir e = false -> is_link e = true ->
  wp (write_link T sha256 unpack e it) w (outcome_of w it e).
Proof.
  intros Hw Hd Hl. unfold write_link. case_bool_decide; [by apply wp_ret, failed_of, step_refl|].
  destruct (linkDest _ _) as [dest ok]. destruct (negb ok && _); [by apply wp_ret; split; [apply step_refl|]|].
  destruct (link_text _ _) as [rel|]; [|by apply wp_ret, failed_of, step_refl].
  apply wp_bind. unfold wp at 1. cbn [state]. cbn zeta.
  eapply wp_mono; [by apply (wp_place_link e)|]. intros it' w' (H1 & H2 & H3). by split_and!.
Qed.

Lemma wp_write_file e it w : good w -> is_dir e = false -> is_link e = false ->
  wp (write_file T sha256 fss turns unpack e it) w (outcome_of w it e).
Proof.
  intros Hw Hd Hl. unfold write_file. apply wp_bind, wp_open; [done|]. intros [[n s]|nt] w1 Hs1 _ Hg; [|by apply wp_ret, failed_of].
  specialize (Hg n s eq_refl). cbn zeta. apply wp_bind, wp_root. pose proof (l_mkdirall (Dir n) (w_root w1)) as Hgr.
  destruct (o_mkdirall T (Dir n) (w_root w1)) as [err r1]; cbn [fst snd] in *.
  assert (Hs2 : step w (with_root w1 r1)) by (eapply step_trans; [exact Hs1|apply step_root; [apply Hs1|done]]).
  destruct err as [c|]; [by apply wp_ret, failed_of|].
  apply wp_bind. eapply wp_mono; [apply (wp_step _ _ w); [exact Hs2|apply wp_copyTo; apply Hs2]|]. intros a w2 [Hs3 Hcp].
  assert (Hend : forall p st sum w3, step w w3 -> st = Written \/ st = Duplicate \/ st = Variant ->
    sum = digest sha256 (sdata s) -> sfail s = None -> look (w_root w3) p = Some (MkHeld 102 sum) ->
    wp (_ ← (if bool_decide (st = Written) && negb (bool_decide (n = i_rel it)) then note_unpacked it n else mret tt);
        mret (set_sha sum (set_status st (set_path p it)))) w3 (outcome_of w it e)).
  { intros p st sum w3 Hs Hst Hsum Hf Hlk. apply wp_bind.
    assert (Ht : told (w_root w3) (set_sha sum (set_status st (set_path p it))) e).
    { assert (stands (w_root w3) (set_sha sum (set_status st (set_path p it))) e).
      { unfold stands. cbn. rewrite Hd, Hl. split; [done|]. by exists n, s. }
      unfold told. cbn. by destruct Hst as [->|[->| ->]]. }
    destruct (_ && _); [|by apply wp_ret, wp_ret]. unfold note_unpacked. apply wp_bind. unfold wp at 1. cbn [state].
    unfold wp at 1. cbn [put_state]. apply wp_ret. by split. }
  apply wp_bind. destruct a as [sum|[nt|]].
  - apply wp_ret. destruct Hcp as (Hsum & Hf & Hlk). by apply Hend; auto.
  - by apply wp_ret, wp_ret, failed_of.
  - eapply wp_mono; [apply (wp_step _ _ w); [exact Hs3|by apply wp_taken; [apply Hs3|exact Hg|exact Hcp]]|].
    intros [[[p st] sum]|nt] w3 [Hs4 H]; [|by apply wp_ret, failed_of]. destruct H as (Hst & Hsum & Hf & Hlk).
    apply Hend; auto.
Qed.

Lemma wp_write it e w : good w -> i_entry it = Some e -> is_dir e || is_link e || is_file e = true ->
  wp (write T sha256 fss turns unpack it) w (fun it' w' => step w w' /\ same_entry it it' /\ told (w_root w') it' e /\
    (i_status it' = Skipped \/ i_status it' = Failed -> r_path (i_rec it') = [])).
Proof.
  intros Hw He Hk. unfold write. cbn zeta. change (i_entry (set_path (i_rel it) it)) with (i_entry it). rewrite He.
  apply wp_bind. apply wp_mono with (P := outcome_of w (set_path (i_rel it) it) e).
  - destruct (is_dir e) eqn:Ed; [by apply wp_write_dir|]. destruct (is_link e) eqn:El; [by apply wp_write_link|].
    destruct (is_file e); [|done]. by apply wp_write_file.
  - intros it' w' (H1 & H2 & H3). change (same_entry it it') in H2. apply wp_ret. split; [done|].
    destruct (bool_decide_reflect (i_status it' = Skipped)) as [E|E]; cbn [orb].
    + split_and!; [done| |done]. unfold told. change (i_status (set_path [] it')) with (i_status it'). by rewrite E.
    + destruct (bool_decide_reflect (i_status it' = Failed)) as [E'|E']; [|by split_and!; [..|intros [?|?]]].
      split_and!; [done| |done]. unfold told. change (i_status (set_path [] it')) with (i_status it'). by rewrite E'.
Qed.

(** ** The whole extraction *)

(** The record of an entry that was pending: it is true of what the set holds, and has
    a path unless nothing was written. *)
Definition true_record (r : W) (it0 it : item) : Prop := same_entry it0 it /\
  if pending it0 then exists e, i_entry it0 = Some e /\ told r it e /\
    (i_status it = Skipped \/ i_status it = Failed -> r_path (i_rec it) = [])
  else it = it0.

Lemma true_record_grows r r' it0 it : grows T r r' -> true_record r it0 it -> true_record r' it0 it.
Proof.
  intros Hg (Hs & H). split; [done|]. destruct (pending it0); [|done]. destruct H as (e & He & Ht & Hp).
  exists e. split_and!; [done|by eapply told_grows|done].
Qed.

Definition writable (it : item) : Prop := exists e, i_entry it = Some e /\ is_dir e || is_link e || is_file e = true.

(** The items at the places are as they were planned; the others have their records. *)
Definition progress (places : list nat) (r : W) (its0 items : list item) : Prop := length items = length its0 /\
  forall j a b, its0 !! j = Some a -> items !! j = Some b ->
    if decide (j ∈ places) then b = a else true_record r a b.

Lemma progress_end r its0 items : progress [] r its0 items -> Forall2 (true_record r) its0 items.
Proof.
  intros [Hl H]. apply Forall2_same_length_lookup. split; [done|]. intros j a b Ha Hb. specialize (H j a b Ha Hb).
  by rewrite decide_False in H by by apply not_elem_of_nil.
Qed.

Lemma progress_absent i places r its0 items : items !! i = None -> progress (i :: places) r its0 items -> progress places r its0 items.
Proof.
  intros Hi [Hl H]. split; [done|]. intros j a b Ha Hb. specialize (H j a b Ha Hb).
  assert (j <> i) by congruence. destruct (decide (j ∈ places)) as [Hj|Hj].
  - by rewrite decide_True in H by by right.
  - by rewrite decide_False in H by by rewrite not_elem_of_cons.
Qed.

Lemma progress_next i places r r' its0 items it0 it : i ∉ places -> grows T r r' -> its0 !! i = Some it0 ->
  true_record r' it0 it -> progress (i :: places) r its0 items -> progress places r' its0 (<[i := it]> items).
Proof.
  intros Hi Hg E0 Ht [Hl H]. split; [by rewrite length_insert|]. intros j a b Ha Hb. destruct (decide (j = i)) as [->|Hne].
  - assert (a = it0) as -> by congruence. rewrite list_lookup_insert_eq in Hb by (rewrite Hl; by eapply lookup_lt_Some).
    injection Hb as <-. by rewrite decide_False.
  - rewrite list_lookup_insert_ne in Hb by done. specialize (H j a b Ha Hb). destruct (decide (j ∈ places)) as [Hj|Hj].
    + by rewrite decide_True in H by by right.
    + rewrite decide_False in H by by rewrite not_elem_of_cons. by eapply true_record_grows.
Qed.

Lemma wp_write_in its0 places : forall items w, good w -> NoDup places ->
  (forall i it, i ∈ places -> its0 !! i = Some it -> writable it /\ pending it = true) ->
  progress places (w_root w) its0 items ->
  wp (write_in T sha256 fss turns unpack places items) w (fun items' w' => step w w' /\
    Forall2 (true_record (w_root w')) its0 items').
Proof.
  induction places as [|i places IH]; intros items w Hw Hnd Hf Hpr; cbn [write_in].
  { apply wp_ret. split; [by apply step_refl|by apply progress_end]. }
  apply NoDup_cons in Hnd as [Hi Hnd].
  assert (Hf' : forall j it, j ∈ places -> its0 !! j = Some it -> writable it /\ pending it = true) by (intros j x Hj; apply Hf; by right).
  destruct (items !! i) as [it|] eqn:Ei; [|apply IH; [done..|by eapply progress_absent]].
  destruct (lookup_lt_is_Some_2 its0 i) as [it0 E0]; [apply lookup_lt_Some in Ei; by rewrite <- (proj1 Hpr)|].
  assert (it = it0) as ->.
  { destruct Hpr as [_ H]. specialize (H i it0 it E0 Ei). by rewrite decide_True in H by by left. }
  destruct (Hf i it0 ltac:(by left) E0) as [(e & He & Hk) Hp].
  apply wp_bind. eapply wp_mono; [by apply (wp_write it0 e)|]. intros it' w1 (Hs & Hsame & Ht & Hpath).
  eapply wp_mono; [apply IH; [apply Hs|done..|]|].
  - eapply progress_next; [done|apply Hs|done| |done]. split; [done|]. rewrite Hp. by exists e.
  - intros items' w2 [Hs2 HF]. split; [by eapply step_trans|done].
Qed.

Lemma order_pending i items it : items !! i = Some it -> pending it = true -> i ∈ order items.
Proof.
  intros Hi Hp. unfold order. set (idx := filter _ (seq 0 _)).
  assert (Hin : i ∈ idx).
  { apply list_elem_of_filter. rewrite Hi. split; [done|]. apply elem_of_seq. apply lookup_lt_Some in Hi. lia. }
  rewrite !elem_of_app, !list_elem_of_filter, Hi. destruct (link_entry it); cbn; [|auto].
  destruct (bool_decide _); cbn; auto.
Qed.

Lemma wp_writeAll items w : good w -> (forall it, it ∈ items -> pending it = true -> writable it) ->
  wp (writeAll T sha256 fss turns unpack items) w (fun items' w' => step w w' /\ Forall2 (true_record (w_root w')) items items').
Proof.
  intros Hw Hp. unfold writeAll. apply wp_bind. unfold wp at 1. cbn [state]. apply wp_bind. unfold wp at 1. cbn [put_state].
  set (w1 := MkWriter _ _ _ _ _). assert (Hw1 : good w1) by exact Hw. eapply wp_mono; [apply (wp_write_in items); [done|apply NoDup_order| |]|].
  - intros i it (it' & Ei & HP)%elem_order Hi. rewrite Hi in Ei. injection Ei as ->.
    assert (pending it' = true) by by apply pending_spec. split; [|done]. apply Hp; [by eapply list_elem_of_lookup_2|done].
  - split; [done|]. intros j a b Ha Hb. assert (b = a) as -> by congruence. destruct (decide _) as [|Hn]; [done|].
    split; [done|]. destruct (pending a) eqn:E; [|done]. by destruct Hn; eapply order_pending.
  - intros items' w2 [Hs HF]. by split.
Qed.
End truth.

(** ** The extraction ends *)

Section ends.
Context {W : Type} (T : Root W) (sha256 : bytes -> bytes) (fss : list Inst.FS) (turns : nat) (unpack : bool).

(** From any state that keeps true archives, an action gives a value and leaves one. *)
Definition ends {A} (m : act W A) : Prop := forall w, Forall2 cache_ok fss (w_dists w) ->
  exists a w', m w = (Ok a, w') /\ Forall2 cache_ok fss (w_dists w').

Lemma ends_ret {A} (a : A) : ends (mret a).
Proof. intros w Hw. by exists a, w. Qed.
Lemma ends_bind {A B} (m : act W A) (f : A -> act W B) : ends m -> (forall a, ends (f a)) -> ends (m ≫= f).
Proof. intros Hm Hf w Hw. destruct (Hm w Hw) as (a & w1 & E & H1). unfold mbind, act_bind. rewrite E. by apply Hf. Qed.
Lemma ends_root {A} (f : W -> A * W) : ends (on_root f).
Proof. intros w Hw. unfold on_root. destruct (f (w_root w)) as [a r]. by exists a, (with_root w r). Qed.
Lemma ends_change {B} (f : writer W -> writer W) (k : unit -> act W B) : (forall w, w_dists (f w) = w_dists w) ->
  ends (k tt) -> ends (w ← state; _ ← put_state (f w); k tt).
Proof. intros Hf Hk w Hw. apply (Hk (f w)). by rewrite Hf. Qed.
Lemma ends_state {B} (k : writer W -> act W B) : (forall w, ends (k w)) -> ends (state ≫= k).
Proof. intros Hk w Hw. by apply Hk. Qed.

Ltac ends_step :=
  match goal with
  | |- ends (mret _) => apply ends_ret
  | |- ends (on_root _) => apply ends_root
  | |- ends (on_root_ _) => apply ends_root
  | |- ends (state ≫= _) => apply ends_state; intros
  | |- ends (_ ≫= _) => apply ends_bind; [|intros]
  | |- ends (let '(_, _) := ?x in _) => destruct x
  | |- ends (match ?x with _ => _ end) => destruct x
  end.
Ltac ends_all := repeat (cbn zeta; (ends_step || assumption)).

Lemma ends_lookup p : ends (lookup_at T sha256 p).
Proof. unfold lookup_at. ends_all. Qed.
Lemma ends_first_free want rel cands : ends (first_free T sha256 want rel cands).
Proof. induction cands as [|c cands IH]; cbn [first_free]; pose proof (ends_lookup); ends_all. apply ends_lookup. Qed.
Lemma ends_claim p want mach : ends (claim T sha256 p want mach).
Proof. unfold claim. ends_all; [apply ends_lookup|apply ends_first_free]. Qed.
Lemma ends_copyTo n s m : ends (copyTo T sha256 n s m).
Proof. unfold copyTo. ends_all. Qed.

(** The entry can be read in the number of blocks. *)
Definition readable (it : item) : Prop := forall e, i_entry it = Some e -> exists fs, fss !! i_set it = Some fs /\
  exists r, forall w : writer W, read_entry turns unpack it (Inst.Open fs (MkDist [] ∅) (r_product (i_rec it)) e).1 w = (Ok r, w).

Lemma ends_open e it : readable it -> i_entry it = Some e -> ends (open_entry fss turns unpack e it).
Proof.
  intros Hr He w Hc. destruct (Hr e He) as (fs & Ef & r & Hread). unfold open_entry, mbind, act_bind at 1. cbn [state]. rewrite Ef.
  destruct (Forall2_lookup_l _ _ _ _ _ Hc Ef) as (d & Ed & Hfd). rewrite Ed.
  pose proof (Open_fresh fs d (r_product (i_rec it)) e Hfd) as Hfresh. pose proof (Open_cache fs d (r_product (i_rec it)) e Hfd) as Hcache.
  destruct (Inst.Open fs d (r_product (i_rec it)) e) as [o d'] eqn:Eo. cbn [fst snd] in Hfresh, Hcache. rewrite Hfresh.
  unfold act_bind, put_state. set (w' := MkWriter _ _ _ _ _). exists r, w'. split; [apply Hread|]. cbn.
  rewrite <- (list_insert_id fss (i_set it) fs) by done. by apply Forall2_insert.
Qed.

Lemma ends_note it n : ends (note_unpacked it n).
Proof. intros w Hw. unfold note_unpacked, mbind, act_bind. cbn [state put_state]. by do 2 eexists. Qed.

Lemma ends_variant e it p m : readable it -> i_entry it = Some e -> ends (writeVariant T sha256 fss turns unpack e it p m).
Proof. intros Hr He. unfold writeVariant. ends_all; [by apply ends_open|apply ends_copyTo]. Qed.

Lemma ends_taken e it n s m : readable it -> i_entry it = Some e -> ends (settle_taken T sha256 fss turns unpack e it n s m).
Proof. intros Hr He. unfold settle_taken. ends_all; [apply ends_claim|by apply ends_variant]. Qed.

Lemma ends_write_file e it : readable it -> i_entry it = Some e -> ends (write_file T sha256 fss turns unpack e it).
Proof.
  intros Hr He. unfold write_file.
  ends_all; first [by apply ends_open|apply ends_copyTo|by apply ends_taken|apply ends_note].
Qed.

Lemma ends_make_dir e p it : ends (make_dir T e p it).
Proof.
  unfold make_dir. do 2 (apply ends_bind; [apply ends_root|]; intros [|]; [apply ends_ret|]).
  apply (ends_change (fun w => MkWriter _ (w_unpacked w) _ (w_dists w) _) (fun _ => mret _)); [done|apply ends_ret].
Qed.
Lemma ends_write_dir e it : ends (write_dir T sha256 e it).
Proof. unfold write_dir. ends_all; first [apply ends_lookup|apply ends_make_dir]. Qed.
Lemma ends_write_link e it : ends (write_link T sha256 unpack e it).
Proof. unfold write_link, place_link. ends_all; apply ends_claim. Qed.

Lemma ends_write it : readable it -> ends (write T sha256 fss turns unpack it).
Proof.
  intros Hr. unfold write. cbn zeta. change (i_entry (set_path (i_rel it) it)) with (i_entry it). apply ends_bind; [|intros; apply ends_ret].
  destruct (i_entry it) as [e|] eqn:He; [|apply ends_ret].
  destruct (is_dir e); [apply ends_write_dir|]. destruct (is_link e); [apply ends_write_link|].
  destruct (is_file e); [by apply ends_write_file|apply ends_ret].
Qed.

Lemma ends_write_in places : forall items, (forall i it, i ∈ places -> items !! i = Some it -> readable it) -> NoDup places ->
  ends (write_in T sha256 fss turns unpack places items).
Proof.
  induction places as [|i places IH]; intros items Hf Hnd; cbn [write_in]; [apply ends_ret|]. apply NoDup_cons in Hnd as [Hi Hnd].
  destruct (items !! i) as [it|] eqn:Ei; [|apply IH; [|done]; intros j x Hj; apply Hf; by right].
  apply ends_bind; [apply ends_write, (Hf i); [by left|done]|]. intros it'. apply IH; [|done].
  intros j x Hj. rewrite list_lookup_insert_ne by (by intros ->). apply Hf. by right.
Qed.

Lemma ends_writeAll items : (forall it, it ∈ items -> i_status it = Pending -> readable it) ->
  ends (writeAll T sha256 fss turns unpack items).
Proof.
  intros Hf. unfold writeAll.
  apply (ends_change (fun w => MkWriter _ (w_unpacked w) _ (w_dists w) (w_root w)) (fun _ => write_in _ _ _ _ _ _ _)); [done|].
  apply ends_write_in; [|apply NoDup_order]. intros i it (it' & Ei & HP)%elem_order Hi. rewrite Hi in Ei. injection Ei as ->.
  apply Hf; [by eapply list_elem_of_lookup_2|done].
Qed.
End ends.

(** Enough blocks for one entry, and for all of them. *)
Lemma readable_total {W} fss unpack it : (exists fs, fss !! i_set it = Some fs /\ bytes_fs fs) ->
  exists n, forall m, (n <= m)%nat -> readable (W := W) fss m unpack it.
Proof.
  intros (fs & Ef & Hb). unfold readable. destruct (i_entry it) as [e|]; [|by exists 0%nat].
  pose proof (Open_content fs (r_product (i_rec it)) e Hb) as Hc. set (o := (Inst.Open _ _ _ _).1) in *.
  assert (H : exists n r, forall m, (n <= m)%nat -> forall w : writer W, read_entry m unpack it o w = (Ok r, w)).
  { unfold read_entry. destruct o as [c|er|]; [|by exists 0%nat, (inr (OpenNote er))|done].
    destruct (contents_total c Hc) as (n & s & Hs & Hn). destruct (negb unpack).
    { exists n, (inl (i_rel it, s)). intros m Hm w. unfold mbind, act_bind, lift_. by rewrite Hn. }
    pose proof (Unwrap_sound (i_rel it) s Hs) as Hu. destruct (Unwrap (i_rel it) s) as [[name c']|er|] eqn:Eu; [| |done].
    - destruct (contents_total c' Hu) as (n' & s' & _ & Hn'). exists (n + n')%nat, (inl (name, s')). intros m Hm w.
      unfold mbind, act_bind, lift_. rewrite Hn by lia. rewrite Eu. by rewrite Hn' by lia.
    - exists n, (inr (UnwrapNote er)). intros m Hm w. unfold mbind, act_bind, lift_. rewrite Hn by lia. by rewrite Eu. }
  destruct H as (n & r & H). exists n. intros m Hm e' [= <-]. exists fs. split; [done|]. exists r. by apply H.
Qed.

Lemma for_all_items {A} (P : nat -> A -> Prop) (l : list A) : (forall a, a ∈ l -> exists n, forall m, (n <= m)%nat -> P m a) ->
  exists n, forall m, (n <= m)%nat -> forall a, a ∈ l -> P m a.
Proof.
  induction l as [|a l IH]; intros H; [exists 0%nat; intros m _ a Ha; by apply elem_of_nil in Ha|].
  destruct (H a ltac:(by left)) as [n1 H1]. destruct IH as [n2 H2]; [intros x Hx; apply H; by right|].
  exists (n1 + n2)%nat. intros m Hm x [->|Hx]%elem_of_cons; [apply H1; lia|apply H2; [lia|done]].
Qed.

(** C7. An extraction ends, and its records are true. There is one for each planned
    entry, in the same order. One that was settled is unchanged. One that was written
    has a status; when that says something was written, or was already there, the set
    holds it at the path of the record when the extraction ends: a directory, the link
    with the target given, or a file with the digest given, and the digest is that of
    the entry's own bytes, from its archive, unwrapped when asked. When it says
    nothing was written there is no path. *)
Theorem records_true {W} (T : Root W) `{!RootLaws T} sha256 fss opts dists ds r :
  length dists = length fss -> Forall bytes_fs fss -> Forall2 cache_ok fss ds -> ManifestOnly opts = false ->
  exists enough, forall turns, (enough <= turns)%nat -> exists items w,
    extract_items T sha256 fss turns opts dists ds r = (Ok items, w) /\
    Forall2 (true_record T sha256 fss turns (Unpack opts) (w_root w)) (plan opts dists) items.
Proof.
  intros Hlen Hb Hc Hm.
  assert (Hp : forall it, it ∈ plan opts dists -> i_status it = Pending -> writable it /\ exists fs, fss !! i_set it = Some fs /\ bytes_fs fs).
  { intros it Hin HP. destruct (pending_plan opts dists it Hin HP) as [Hl _].
    destruct (listed_pending opts dists it Hl HP) as [_ (e & p & d & He & Hd & _ & _ & Hk & _)]. split; [by exists e|].
    destruct (lookup_lt_is_Some_2 fss (i_set it)) as [fs Ef]; [rewrite <- Hlen; by eapply lookup_lt_Some|].
    exists fs. split; [done|]. by eapply Forall_lookup_1. }
  destruct (for_all_items (fun n it => i_status it = Pending -> readable (W := W) fss n (Unpack opts) it) (plan opts dists)) as [n Hn].
  { intros it Hin. destruct (decide (i_status it = Pending)) as [HP|]; [|by exists 0%nat].
    destruct (Hp it Hin HP) as [_ Hf]. destruct (readable_total (W := W) fss (Unpack opts) it Hf) as [k Hk]. exists k. auto. }
  exists n. intros turns Ht. unfold extract_items. rewrite Hm. set (w0 := MkWriter ∅ ∅ ∅ ds r).
  destruct (ends_writeAll T sha256 fss turns (Unpack opts) (plan opts dists)) with (w := w0) as (items & w & E & _);
    [intros it Hin HP; by apply Hn|exact Hc|]. exists items, w. split; [exact E|].
  pose proof (wp_writeAll T sha256 fss turns (Unpack opts) (plan opts dists) w0) as H. unfold wp in H. rewrite E in H. apply H.
  - split; [|exact Hc]. intros p H'. cbn in H'. by apply elem_of_empty in H'.
  - intros it Hin HP%pending_spec. by apply Hp.
Qed.
