(* ===== verification/Demoset.v ===== *)
(** An extraction on a small set: a root in memory, the witness of the containment
    theorem, and links that unpacking makes climb. *)
From S2P Require Import Prelude Unixcompress Unixpack Text Path Strconv Strings Idb Inst Shell Attempts Glob Extract Rel Extractor Drain Links Contained Truth.

(** ** A root in memory *)

Inductive node := NDir | NLink (t : bytes) | NFile (d : bytes).

Notation mem := (gmap bytes node).

Definition node_kind (n : node) : kind := match n with NDir => KDir | NLink _ => KLink | NFile _ => KFile end.

Definition mem_at (p : bytes) (m : mem) : option node := if bool_decide (p = [dot]) then Some NDir else m !! p.
Definition mem_add (p : bytes) (n : node) (m : mem) : mem := match mem_at p m with Some _ => m | None => <[p := n]> m end.

(** A directory and those above it, unless something is there. *)
Fixpoint mem_dirs (fuel : nat) (p : bytes) (m : mem) : mem :=
  match fuel with
  | O => m
  | S fuel => mem_dirs fuel (Dir p) (mem_add p NDir m)
  end.

Definition mem_root : Root mem := {|
  o_lstat p m := (node_kind <$> mem_at p m, m);
  o_readlink p m := (match mem_at p m with Some (NLink t) => Some t | _ => None end, m);
  o_read p m := (match mem_at p m with Some (NFile d) => Some d | _ => None end, m);
  o_mkdirall p m := match mem_at p m with Some (NFile _) => (Some 20, m) | _ => (None, mem_dirs (S (length p)) p m) end;
  o_chmod p _ m := (match mem_at p m with Some _ => None | None => Some 2 end, m);
  o_symlink t p m := match mem_at p m with Some _ => (Some 17, m) | None => (None, mem_add p (NLink t) m) end;
  o_create p _ m := match mem_at p m with Some _ => (Some Exists_, m) | None => (None, mem_add p (NFile []) m) end;
  o_put p d m := (None, if bool_decide (p = [dot]) then m else <[p := NFile d]> m);
  o_remove p m := delete p m;
|}.

Definition node_seen (n : node) : kind * option bytes :=
  match n with NDir => (KDir, None) | NLink t => (KLink, Some t) | NFile d => (KFile, Some d) end.

Lemma mem_seen m p : seen mem_root m p = node_seen <$> mem_at p m.
Proof. unfold seen. cbn. destruct (mem_at p m) as [[]|]; done. Qed.

Lemma mem_grows m m' : (forall p n, mem_at p m = Some n -> mem_at p m' = Some n) -> grows mem_root m m'.
Proof. intros H p x. rewrite !mem_seen. intros (n & Hn & ->)%fmap_Some. by rewrite (H _ _ Hn). Qed.

Lemma mem_at_add p n m q : mem_at q (mem_add p n m) = match mem_at q m with Some x => Some x | None => if bool_decide (q = p) then Some n else None end.
Proof.
  unfold mem_add, mem_at. destruct (decide (q = [dot])) as [->|Hq]; [by rewrite bool_decide_true|].
  rewrite !(bool_decide_false (q = [dot])) by done. destruct (decide (p = [dot])) as [->|Hp].
  - rewrite !bool_decide_true, bool_decide_false by done. by destruct (m !! q).
  - rewrite (bool_decide_false (p = [dot])) by done. destruct (decide (q = p)) as [->|Hne].
    + rewrite bool_decide_true by done. destruct (m !! p) eqn:E; [by rewrite E|by rewrite lookup_insert_eq].
    + rewrite (bool_decide_false (q = p)) by done.
      destruct (m !! p); [|rewrite lookup_insert_ne by done]; by destruct (m !! q).
Qed.

Lemma mem_at_dirs fuel : forall p m q n, mem_at q m = Some n -> mem_at q (mem_dirs fuel p m) = Some n.
Proof. induction fuel as [|fuel IH]; intros p m q n H; [done|]. cbn. apply IH. by rewrite mem_at_add, H. Qed.

Lemma mem_filling p m m' : mem_at p m = None -> filling mem_root p (mem_add p (NFile []) m) m' ->
  forall q n, mem_at q m = Some n -> mem_at q m' = Some n.
Proof.
  intros Hp Hf q n Hq. assert (Hne : q <> p) by congruence.
  induction Hf as [|d w _ IH|mo w _ IH|w _ IH]; cbn [o_put o_chmod o_remove mem_root snd].
  - by rewrite mem_at_add, Hq.
  - destruct (bool_decide (p = [dot])); [done|]. unfold mem_at in *. destruct (bool_decide (q = [dot])); [done|]. by rewrite lookup_insert_ne.
  - done.
  - unfold mem_at in *. destruct (bool_decide (q = [dot])); [done|]. by rewrite lookup_delete_ne.
Qed.

#[export] Instance mem_laws : RootLaws mem_root.
Proof.
  split; try done.
  - intros p w. apply mem_grows. intros q n Hq. cbn [o_mkdirall mem_root].
    assert (mem_at q (mem_dirs (S (length p)) p w) = Some n) by by apply mem_at_dirs. by destruct (mem_at p w) as [[]|].
  - intros t p w. apply mem_grows. intros q n Hq. cbn [o_symlink mem_root].
    assert (mem_at q (mem_add p (NLink t) w) = Some n) by by rewrite mem_at_add, Hq. by destruct (mem_at p w).
  - intros p w. rewrite !mem_seen. intros Hp%fmap_None _. cbn [o_mkdirall mem_root]. rewrite Hp. cbn [snd mem_dirs].
    rewrite (mem_at_dirs _ _ _ _ NDir); [done|]. rewrite mem_at_add, Hp. by rewrite bool_decide_true.
  - intros t p w. rewrite mem_seen. cbn [o_symlink mem_root]. destruct (mem_at p w) eqn:E; [done|]. intros _. cbn [snd].
    rewrite mem_at_add, E. by rewrite bool_decide_true.
  - intros p m w. cbn [o_create mem_root]. by destruct (mem_at p w).
  - intros p m w. rewrite mem_seen. cbn [o_create mem_root]. by destruct (mem_at p w) eqn:E; cbn [fst snd]; [rewrite E|].
  - intros p m w w'. cbn [o_create mem_root]. destruct (mem_at p w) eqn:E; [done|]. intros _ Hf. by apply mem_grows, (mem_filling p).
  - intros p m d w. cbn [o_create mem_root]. destruct (mem_at p w) eqn:E; [done|]. intros _ _. rewrite mem_seen. cbn [o_put mem_root snd].
    unfold mem_at in *. by destruct (bool_decide (p = [dot])); [|rewrite lookup_insert_eq].
Qed.

(** ** A set *)

Definition set_entry (t : Z) (p target : bytes) (off size : Z) : Idb.Entry :=
  Idb.MkEntry t 0x1ed (str "root") (str "sys") p p (str "eoe.sw.base") off size 0 target [] ∅ [].

(** A page the archive stores as its manifest gives it, compressed when installed; a
    link to it from elsewhere, and one to the root of the system. *)
Definition page : Idb.Entry := set_entry 102 (str "usr/man/page.Z") [] 13 (zlen (sdata demo_stream)).
Definition demo_entries : list Idb.Entry :=
  [page; set_entry 108 (str "usr/doc/page.Z") (str "/usr/man/page.Z") (-1) 0;
   set_entry 108 (str "root") (str "/") (-1) 0; set_entry 108 (str "etc/passwd") (str "../../passwd") (-1) 0;
   set_entry 100 (str "usr/man") [] (-1) 0].

Definition archive_of (e : Idb.Entry) : bytes := image_bytes demo_tag (str "sw") [MkPiece e [] (sdata demo_stream)].
Definition set_fs (e : Idb.Entry) : Inst.FS := MkFS (Ok [])
  (fun name => if bool_decide (name = str "eoe.sw") then Ok (bytes_file (archive_of e)) else Err 2).
Definition set_dist (es : list Idb.Entry) : dist := MkDistribution (str "base") [MkProduct (str "eoe") es []] (fun f => str "base/" ++ f).

(** No digest is needed; the bytes stand for themselves. *)
Definition run_set (e : Idb.Entry) (es : list Idb.Entry) : outcome stuck (list item) * writer (list call * mem) :=
  extract_items (logged mem_root) (fun d => d) [set_fs e] 10 (MkOptions [] [] true false) [set_dist es] [MkDist [] ∅] ([], ∅).

Example demo_extracted :
  let '(r, w) := run_set page demo_entries in
  (exists items, r = Ok items /\
     (fun it => (r_path (i_rec it), i_status it, r_target (i_rec it))) <$> items =
     [(str "usr/man/page", Written, []); (str "usr/doc/page", Written, str "../man/page"); (str "root", Written, str ".");
      ([], Skipped, []); (str "usr/man", Written, [])]) /\
  (w_root w).2 !! str "usr/man/page" = Some (NFile (str "hello")).
Proof. vm_compute. split; [eexists; split; reflexivity|reflexivity]. Qed.

Lemma demo_tame : tame_dists [set_dist demo_entries].
Proof.
  assert (H : Forall (fun e => Forall (fun u => tame u (cleanInstallPath (Idb.Path e)).1 /\ tame u (Symlink e)) suffixes) demo_entries).
  { apply (bool_decide_unpack _). vm_compute. exact I. }
  intros d p e ->%list_elem_of_singleton ->%list_elem_of_singleton He. rewrite Forall_forall in H. specialize (H e He).
  rewrite Forall_forall in H. split; intros u Hu; by apply H.
Qed.

Lemma extraction_confined_witness : tame_dists [set_dist demo_entries] /\ safe (w_root (run_set page demo_entries).2).1.
Proof.
  split; [exact demo_tame|]. unfold run_set.
  exact (extraction_confined mem_root (fun d => d) [set_fs page] 10 (MkOptions [] [] true false) [set_dist demo_entries]
    [MkDist [] ∅] ∅ (fun _ => demo_tame)).
Defined.

Lemma set_fs_bytes e : wf_bytes (archive_of e) -> bytes_fs (set_fs e).
Proof.
  intros Hw name f ra Ho Hr off n. cbn in Ho. destruct (bool_decide _); [|done]. injection Ho as <-. cbn in Hr. injection Hr as <-.
  unfold image_reader. destruct (off <? 0); [apply Forall_nil_2|]. destruct (_ && _); [apply Forall_nil_2|]. by apply wf_bytes_sub.
Qed.

Lemma records_true_witness : exists enough, forall turns, (enough <= turns)%nat -> exists items w,
  extract_items mem_root (fun d => d) [set_fs page] turns (MkOptions [] [] true false) [set_dist demo_entries] [MkDist [] ∅] ∅ = (Ok items, w) /\
  Forall2 (true_record mem_root (fun d => d) [set_fs page] turns true (w_root w))
    (plan (MkOptions [] [] true false) [set_dist demo_entries]) items.
Proof.
  exact (records_true mem_root (fun d => d) [set_fs page] (MkOptions [] [] true false) [set_dist demo_entries] [MkDist [] ∅] ∅
    eq_refl ltac:(apply Forall_singleton, set_fs_bytes, (bool_decide_unpack _); vm_compute; exact I)
    ltac:(apply Forall2_cons_2; [intros n a; cbn; by rewrite lookup_empty|by apply Forall2_nil_2]) eq_refl).
Defined.

(** ** A link that climbs *)

(** A compressed file, a link to it whose name is three dots and the suffix, and a
    link to that link. *)
Definition small : Idb.Entry := set_entry 102 (str "foo.Z") [] 13 (zlen (sdata demo_stream)).
Definition climbing_entries : list Idb.Entry :=
  [small; set_entry 108 (str "...Z") (str "foo.Z") (-1) 0; set_entry 108 (str "bar") (str "...Z") (-1) 0].

(** A link that leads outside the set is to be recorded only, but the test is made
    before the suffix is taken off: with unpacking, the target [...Z] becomes [..],
    and the link made at the top of the set leads to the directory above it. *)
Theorem unpacking_climbs :
  let o := run_set small climbing_entries in
  (exists items, o.1 = Ok items /\ i_status <$> items !! 2%nat = Some Written) /\
  (w_root o.2).2 !! str "bar" = Some (NLink (str "..")) /\
  CSymlink (str "..") (str "bar") ∈ (w_root o.2).1 /\ ~ inside_link (str "bar") (str "..").
Proof.
  intros o. split; [vm_compute; eexists; split; reflexivity|]. split; [vm_compute; reflexivity|].
  split; [apply (bool_decide_unpack _); vm_compute; exact I|].
  intros (_ & D & n & E & HD & Hn & Hw). apply (f_equal (split_byte slash)) in E. rewrite split_join in E.
  - destruct D as [|d D]; [|destruct D; done]. inv Hw as [|? ? (_ & _ & ? & _) _]; done.
  - by destruct D.
  - apply names_no_slash, Forall_app. by rewrite Forall_singleton.
Qed.
