(* ===== verification/PathTable.v ===== *)
(** The numbering of a share's paths ([internal/sharefs/table.go]): the table
    in memory, the file of lines it is replayed from, and what a rename or a
    removal in the share does to both ([Rename] and [forget] in
    [internal/sharefs/sharefs.go]).

    A host that can fail to write is an argument of each operation: the number
    of bytes the write of its line gets out. Go leaves the order in which a map
    is visited open, so it is an argument too. *)
From S2P Require Import Prelude Text Strconv.

Record pathTable := MkTable {
  next : Z;
  byID : gmap Z bytes;
  byPath : gmap bytes Z;
}.

Definition empty_table : pathTable := MkTable 1 ∅ ∅.

Definition set (id : Z) (p : bytes) (t : pathTable) : pathTable :=
  let paths := match byID t !! id with Some old => delete old (byPath t) | None => byPath t end in
  MkTable (Z.max (next t) (u64 (id + 1))) (<[id := p]> (byID t)) (<[p := id]> paths).

(** The zero value of an absent id's path is the empty string. *)
Definition del (id : Z) (t : pathTable) : pathTable :=
  MkTable (next t) (delete id (byID t)) (delete (default [] (byID t !! id)) (byPath t)).

(** [under(p, base)]. *)
Definition under (p base : bytes) : bool :=
  bool_decide (p = base) || HasPrefix p (base ++ [slash]).

Section table.
Context (printWide : Z -> bool).

Definition set_line (id : Z) (p : bytes) : bytes :=
  str "set " ++ dec id ++ str " " ++ Quote printWide p.
Definition del_line (id : Z) : bytes := str "del " ++ dec id.
Definition next_line (id : Z) : bytes := str "next " ++ dec id.

(** ** Replaying the file *)

Inductive load_err :=
| Malformed (n : Z)
| BadNumber (n : Z) (e : num_err)
| BadQuote (n : Z)
| TooLong
| HostError.

Definition replay_line (n : Z) (t : pathTable) (line : bytes) : outcome load_err pathTable :=
  match SplitN space line 3 with
  | cmd :: num :: rest =>
      match ParseUint 64 num with
      | Ok id =>
          match rest with
          | [] =>
              if bool_decide (cmd = str "next") then Ok (MkTable (Z.max (next t) id) (byID t) (byPath t))
              else if bool_decide (cmd = str "del") then Ok (del id t)
              else Err (Malformed n)
          | quoted :: _ =>
              if bool_decide (cmd = str "set") then
                match Unquote quoted with
                | Some p => Ok (set id p t)
                | None => Err (BadQuote n)
                end
              else if bool_decide (cmd = str "del") then Ok (del id t)
              else Err (Malformed n)
          end
      | Err e => Err (BadNumber n e)
      | Panic => Panic
      end
  | _ => Err (Malformed n)
  end.

(** A line and its newline fit the scanner's buffer of [1 << 20] bytes. *)
Definition max_line : Z := 2 ^ 20.

Fixpoint replay (n : Z) (t : pathTable) (lines : list bytes) : outcome load_err pathTable :=
  match lines with
  | [] => Ok t
  | l :: lines =>
      if max_line <=? zlen l then Err TooLong
      else match replay_line n t (dropCR l) with
           | Ok t => replay (n + 1) t lines
           | r => r
           end
  end.

(** [load]: a file that does not exist is an empty table. *)
Definition load (file : option bytes) : outcome load_err pathTable :=
  match file with
  | None => Ok empty_table
  | Some text => replay 1 empty_table (raw_lines text)
  end.

(** ** Opening *)

(** The compacted table. *)
Definition compact (t : pathTable) : list bytes :=
  let ids := merge_sort Z.le (map_to_list (byID t)).*1 in
  next_line (next t) :: ((fun id => set_line id (default [] (byID t !! id))) <$> ids).

(** Which of the calls on the host succeed. *)
Record host := MkHost {
  makes_dir : bool;
  opens_old : bool;
  creates : bool;
  writes : bool;
  renames : bool;
  reopens : bool;
}.

(** [openPathTable]: the table, and the file left on the host. *)
Definition openPathTable (h : host) (file : option bytes) :
    outcome load_err pathTable * option bytes :=
  if negb (makes_dir h && opens_old h) then (Err HostError, file)
  else match load file with
       | Ok t =>
           if creates h && writes h && renames h then
             let file := Some (unlines (compact t)) in
             if reopens h then (Ok t, file) else (Err HostError, file)
           else (Err HostError, file)
       | r => (r, file)
       end.

(** ** Operations on an open table *)

Record opened := MkOpened { tbl : pathTable; file : bytes }.

(** [fmt.Fprintf] of a line: whether it succeeds, and the file. *)
Definition emit (io : Z) (line file : bytes) : bool * bytes :=
  (zlen line + 1 <=? io, file ++ take (Z.to_nat io) (line ++ [newline])).

Definition idFor (io : Z) (p : bytes) (o : opened) : option Z * opened :=
  match byPath (tbl o) !! p with
  | Some id => (Some id, o)
  | None =>
      let id := next (tbl o) in
      let '(ok, f) := emit io (set_line id p) (file o) in
      if (ok : bool) then (Some id, MkOpened (set id p (tbl o)) f) else (None, MkOpened (tbl o) f)
  end.

Definition path (id : Z) (o : opened) : option bytes := byID (tbl o) !! id.

Definition remove_visit (p : bytes) (o : opened) (v : Z * Z) : opened :=
  let '(id, io) := v in
  match byID (tbl o) !! id with
  | Some q =>
      if under q p then MkOpened (del id (tbl o)) (snd (emit io (del_line id) (file o))) else o
  | None => o
  end.

(** [visits] are the ids in the order the map gives them, with what the host
    writes of each line. *)
Definition remove (visits : list (Z * Z)) (p : bytes) (o : opened) : opened :=
  foldl (remove_visit p) o visits.

Definition move_visit (p q : bytes) (o : opened) (v : Z * Z) : opened :=
  let '(id, io) := v in
  match byID (tbl o) !! id with
  | Some old =>
      if under old p then
        let np := q ++ drop (length p) old in
        MkOpened (set id np (tbl o)) (snd (emit io (set_line id np) (file o)))
      else o
  | None => o
  end.

Definition move (visits : list (Z * Z)) (p q : bytes) (o : opened) : opened :=
  foldl (move_visit p q) o visits.

(** What [FS.Rename] does to the table once the host has renamed the file. *)
Definition renamed (visits1 visits2 : list (Z * Z)) (from to : bytes) (o : opened) : opened :=
  if bool_decide (from = to) then o else move visits2 from to (remove visits1 to o).

(** ** Invariant *)

(** Ids and paths name each other, and every id is below the next. *)
Record wf (t : pathTable) : Prop := {
  wf_inverse : forall id p, byID t !! id = Some p <-> byPath t !! p = Some id;
  wf_below : forall id p, byID t !! id = Some p -> 1 <= id < next t;
  wf_next : 1 <= next t < 2 ^ 64;
}.

Lemma wf_empty : wf empty_table.
Proof. split; cbn; [|by intros; simplify_map_eq|done]. intros. by rewrite !lookup_empty. Qed.

Lemma wf_set id p t : wf t -> 1 <= id < 2 ^ 64 - 1 ->
  byPath t !! p = None \/ byPath t !! p = Some id -> wf (set id p t).
Proof.
  intros Hwf Hid Hp. pose proof (wf_inverse t Hwf) as Hi.
  assert (u64 (id + 1) = id + 1) as Hu by (apply u64_small; lia).
  split; unfold set; cbn [byID byPath next]; rewrite ?Hu.
  - intros j r. destruct (decide (j = id)) as [->|Hj], (decide (r = p)) as [->|Hr].
    + by rewrite !lookup_insert_eq.
    + rewrite lookup_insert_eq, lookup_insert_ne by done.
      split; [congruence|]. destruct (byID t !! id) as [old|] eqn:E.
      * intros [Hne H]%lookup_delete_Some. apply Hi in H. congruence.
      * intros H. apply Hi in H. congruence.
    + rewrite lookup_insert_ne, lookup_insert_eq by done. split; [|congruence].
      intros H. apply Hi in H. destruct Hp; congruence.
    + rewrite !lookup_insert_ne by done. rewrite Hi.
      destruct (byID t !! id) as [old|] eqn:E; [|done]. rewrite lookup_delete_Some.
      split; [|by intros []]. intros H. split; [|done]. intros ->. apply Hi in E. congruence.
  - intros j r. destruct (decide (j = id)) as [->|Hj]; [lia|].
    rewrite lookup_insert_ne by done. intros H%(wf_below t Hwf). lia.
  - pose proof (wf_next t Hwf). lia.
Qed.

Lemma wf_del id q t : wf t -> byID t !! id = Some q -> wf (del id t).
Proof.
  intros Hwf Hq. pose proof (wf_inverse t Hwf) as Hi.
  split; unfold del; replace (default [] (byID t !! id)) with q by (by rewrite Hq);
    cbn [byID byPath next].
  - intros j r. rewrite !lookup_delete_Some, Hi. split; intros [Hne H]; (split; [|done]).
    + intros ->. apply Hi in Hq. congruence.
    + intros ->. apply Hi in H. congruence.
  - intros j r [_ H]%lookup_delete_Some. by apply (wf_below t Hwf) in H.
  - apply Hwf.
Qed.

Lemma wf_short id p t : wf t -> byID t !! id = Some p -> 1 <= id < 2 ^ 64 - 1.
Proof. intros Hwf H. pose proof (wf_below t Hwf _ _ H). pose proof (wf_next t Hwf). lia. Qed.

(** ** Lines *)

Lemma split_cmd cmd rest : space ∉ cmd -> cut space (cmd ++ [space] ++ rest) = (cmd, Some rest).
Proof. intros H. by apply cut_app. Qed.

Lemma split2 cmd id : space ∉ cmd -> SplitN space (cmd ++ [space] ++ dec id) 3 = [cmd; dec id].
Proof.
  intros H. cbn [SplitN]. rewrite split_cmd by done. rewrite cut_none; [done|by apply dec_no].
Qed.

Lemma split3 cmd id rest : space ∉ cmd ->
  SplitN space (cmd ++ [space] ++ dec id ++ [space] ++ rest) 3 = [cmd; dec id; rest].
Proof.
  intros H. cbn [SplitN]. rewrite split_cmd by done.
  rewrite split_cmd by by apply dec_no. done.
Qed.

Lemma replay_set n t id p : 0 <= id < 2 ^ 64 -> wf_bytes p ->
  replay_line n t (set_line id p) = Ok (set id p t).
Proof.
  intros Hid Hp. unfold replay_line, set_line.
  change (str "set ") with (str "set" ++ [space]). change (str " ") with [space].
  rewrite <- app_assoc, split3 by set_solver.
  rewrite ParseUint_dec by done. rewrite bool_decide_true by done. by rewrite Unquote_Quote.
Qed.

Lemma replay_del n t id : 0 <= id < 2 ^ 64 -> replay_line n t (del_line id) = Ok (del id t).
Proof.
  intros Hid. unfold replay_line, del_line.
  change (str "del ") with (str "del" ++ [space]).
  rewrite <- app_assoc, split2 by set_solver.
  rewrite ParseUint_dec by done. rewrite bool_decide_false by done. by rewrite bool_decide_true.
Qed.

Lemma replay_next n t id : 0 <= id < 2 ^ 64 ->
  replay_line n t (next_line id) = Ok (MkTable (Z.max (next t) id) (byID t) (byPath t)).
Proof.
  intros Hid. unfold replay_line, next_line.
  change (str "next ") with (str "next" ++ [space]).
  rewrite <- app_assoc, split2 by set_solver.
  rewrite ParseUint_dec by done. by rewrite bool_decide_true.
Qed.

(** A line the scanner gives back as it was written. *)
Definition good_line (l : bytes) : Prop :=
  newline ∉ l /\ last l <> Some carriage /\ zlen l < max_line.

Definition path_fits (id : Z) (p : bytes) : Prop := wf_bytes p /\ zlen (set_line id p) < max_line.

Lemma last_dec id : exists c, last (dec id) = Some c /\ is_digit c = true.
Proof.
  pose proof (dec_is_digits id) as Hd. destruct (last (dec id)) as [c|] eqn:E.
  - exists c. split; [done|]. rewrite Forall_forall in Hd. apply Hd.
    apply last_Some in E as [l ->]. apply elem_of_app. right. by left.
  - apply last_None in E. by destruct (dec_not_nil id).
Qed.

Lemma zlen_dec_digits fuel n k acc : 0 <= n < 10 ^ Z.of_nat k -> (0 < k)%nat ->
  zlen (dec_digits fuel n acc) <= Z.of_nat k + zlen acc.
Proof.
  revert n k acc. induction fuel as [|fuel IH]; intros n k acc Hn Hk; [cbn [dec_digits]; lia|].
  cbn [dec_digits]. destruct (n <? 10) eqn:E; zbool; [rewrite zlen_cons; lia|].
  destruct k as [|[|k]]; [lia|change (10 ^ Z.of_nat 1) with 10 in Hn; lia|].
  etransitivity; [apply (IH _ (S k))|rewrite zlen_cons; lia]; [|lia].
  rewrite (Nat2Z.inj_succ (S k)), Z.pow_succ_r in Hn by lia.
  Z.to_euclidean_division_equations; lia.
Qed.

Lemma zlen_dec id : 0 <= id < 2 ^ 64 -> zlen (dec id) <= 20.
Proof.
  intros H. unfold dec. pose proof (zlen_dec_digits (S (Z.to_nat (Z.log2 id))) id 20 []) as Hz.
  rewrite (@zlen_nil Z) in Hz. change (Z.of_nat 20) with 20 in Hz. apply Hz; lia.
Qed.

Lemma good_num_line cmd id : newline ∉ cmd -> zlen cmd <= 5 -> 0 <= id < 2 ^ 64 ->
  good_line (cmd ++ dec id).
Proof.
  intros Hc Hl Hid. pose proof (zlen_dec id Hid). split_and!.
  - apply not_elem_of_app. split; [done|by apply dec_no].
  - rewrite last_app. destruct (last_dec id) as (c & -> & Hd). intros [= ->]. done.
  - rewrite zlen_app. unfold max_line. lia.
Qed.

Lemma good_del id : 0 <= id < 2 ^ 64 -> good_line (del_line id).
Proof. intros. apply good_num_line; [by set_solver|done|done]. Qed.

Lemma good_next id : 0 <= id < 2 ^ 64 -> good_line (next_line id).
Proof. intros. apply good_num_line; [by set_solver|done|done]. Qed.

Lemma good_set id p : path_fits id p -> good_line (set_line id p).
Proof.
  intros [Hp Hl]. destruct (Quote_line printWide p Hp) as [Hn Hlast]. split_and!; [| |done].
  - unfold set_line. rewrite !not_elem_of_app. split; [by set_solver|].
    split; [by apply dec_no|]. split; [by set_solver|done].
  - unfold set_line. rewrite !last_app, Hlast. done.
Qed.

(** ** The file and the table in memory agree *)

Lemma replay_app n t ls ks :
  replay n t (ls ++ ks) =
  match replay n t ls with Ok t => replay (n + zlen ls) t ks | r => r end.
Proof.
  revert n t. induction ls as [|l ls IH]; intros n t; cbn [app replay].
  - by rewrite (@zlen_nil bytes), Z.add_0_r.
  - destruct (_ <=? _); [done|]. destruct (replay_line _ _ _); try done.
    rewrite IH, zlen_cons. by rewrite Z.add_assoc.
Qed.

Lemma replay_one n t l t' : good_line l -> replay_line n t l = Ok t' -> replay n t [l] = Ok t'.
Proof.
  intros (_ & Hcr & Hl) H. cbn [replay].
  rewrite (proj2 (Z.leb_gt _ _)) by done. by rewrite dropCR_id, H by done.
Qed.

(** The file of a table is whole good lines that replay to it. *)
Definition tracked (o : opened) : Prop :=
  exists ls, file o = unlines ls /\ Forall good_line ls /\ replay 1 empty_table ls = Ok (tbl o).

Lemma tracked_load o : tracked o -> load (Some (file o)) = Ok (tbl o).
Proof.
  intros (ls & Hf & Hg & Hr). unfold load. rewrite Hf, raw_lines_unlines; [done|].
  eapply Forall_impl; [exact Hg|]. by intros l [].
Qed.

Lemma tracked_emit o t io l : tracked o -> good_line l -> max_line <= io ->
  (forall n, replay_line n (tbl o) l = Ok t) -> tracked (MkOpened t (snd (emit io l (file o)))).
Proof.
  intros (ls & Hf & Hg & Hr) Hl Hio Ht. exists (ls ++ [l]). cbn [file tbl emit snd].
  destruct Hl as (Hn & Hcr & Hlen). split_and!.
  - rewrite Hf, unlines_app. f_equal. rewrite take_ge; [|rewrite length_app; cbn; unfold zlen in *; lia].
    unfold unlines. cbn. by rewrite app_nil_r.
  - apply Forall_app. by repeat constructor.
  - rewrite replay_app, Hr. by apply replay_one.
Qed.

(** The part of a table whose ids are in [D]. *)
Definition restrict (t : pathTable) (D : list Z) : pathTable :=
  MkTable (next t) (filter (fun kv => fst kv ∈ D) (byID t)) (filter (fun kv => snd kv ∈ D) (byPath t)).

Lemma restrict_set t D id p : wf t -> byID t !! id = Some p ->
  set id p (restrict t D) = restrict t (id :: D).
Proof.
  intros Hwf Hp. pose proof (wf_short _ _ _ Hwf Hp). pose proof (wf_below _ Hwf _ _ Hp).
  pose proof (wf_inverse _ Hwf) as Hi. pose proof (proj1 (Hi _ _) Hp) as Hp'.
  unfold set, restrict. cbn [next byID byPath].
  assert (Hkeep : forall m : gmap bytes Z, (m = filter (fun kv => snd kv ∈ D) (byPath t) \/
    m = delete p (filter (fun kv => snd kv ∈ D) (byPath t))) ->
    <[p := id]> m = filter (fun kv => snd kv ∈ id :: D) (byPath t)).
  { intros m Hm. apply map_eq. intros r. destruct (decide (r = p)) as [->|Hr].
    - rewrite lookup_insert_eq. symmetry. apply map_lookup_filter_Some. split; [done|]. by left.
    - rewrite lookup_insert_ne by done. transitivity (filter (fun kv => snd kv ∈ D) (byPath t) !! r).
      { destruct Hm as [-> | ->]; [done|]. by rewrite lookup_delete_ne. }
      apply option_eq. intros j. rewrite !map_lookup_filter_Some. cbn.
      split; intros [Hj HD]; (split; [done|]); [by right|].
      apply elem_of_cons in HD as [->|?]; [|done]. apply Hi in Hj. congruence. }
  f_equal.
  - rewrite u64_small by lia. lia.
  - apply map_eq. intros j. destruct (decide (j = id)) as [->|Hj].
    + rewrite lookup_insert_eq. symmetry. apply map_lookup_filter_Some. split; [done|]. by left.
    + rewrite lookup_insert_ne by done. apply option_eq. intros r. rewrite !map_lookup_filter_Some. cbn.
      rewrite elem_of_cons. intuition congruence.
  - apply Hkeep. destruct (filter _ (byID t) !! id) as [old|] eqn:E; [|by left].
    right. f_equal. apply map_lookup_filter_Some in E as [E _]. congruence.
Qed.

Lemma restrict_all t D : wf t -> (forall id p, byID t !! id = Some p -> id ∈ D) -> restrict t D = t.
Proof.
  intros Hwf HD. destruct t as [n ids paths]. unfold restrict. cbn [next byID byPath] in *. f_equal.
  - apply map_filter_id. intros id p H. by eapply HD.
  - apply map_filter_id. intros p id H. eapply HD. by apply (wf_inverse _ Hwf) in H.
Qed.

Lemma replay_sets n t D ids : wf t -> map_Forall path_fits (byID t) ->
  (forall id, id ∈ ids -> exists p, byID t !! id = Some p) ->
  replay n (restrict t D) ((fun id => set_line id (default [] (byID t !! id))) <$> ids) =
  Ok (restrict t (reverse ids ++ D)).
Proof.
  intros Hwf Hfit. revert n D. induction ids as [|id ids IH]; intros n D Hids; [done|].
  destruct (Hids id ltac:(left)) as [p Hp]. specialize (Hfit id p Hp) as Hf.
  pose proof (wf_short _ _ _ Hwf Hp).
  rewrite fmap_cons. change (?l :: ?ks) with ([l] ++ ks). rewrite replay_app.
  replace (default [] (byID t !! id)) with p by (by rewrite Hp).
  erewrite replay_one; [|by apply good_set|apply replay_set; [lia|apply Hf]].
  rewrite restrict_set by done. rewrite IH; [|intros j Hj; apply Hids; by right].
  change ([id] ++ ids) with (id :: ids). by rewrite reverse_cons, <- app_assoc.
Qed.

Definition sorted_ids (t : pathTable) : list Z := merge_sort Z.le (map_to_list (byID t)).*1.

Lemma elem_of_sorted_ids t id : id ∈ sorted_ids t <-> exists p, byID t !! id = Some p.
Proof.
  unfold sorted_ids. rewrite (merge_sort_Permutation Z.le), list_elem_of_fmap. split.
  - intros ([j p] & -> & H%elem_of_map_to_list). by exists p.
  - intros [p H]. exists (id, p). split; [done|]. by apply elem_of_map_to_list.
Qed.

Lemma compact_tracked t : wf t -> map_Forall path_fits (byID t) ->
  tracked (MkOpened t (unlines (compact t))).
Proof.
  intros Hwf Hfit. exists (compact t). pose proof (wf_next _ Hwf) as Hn. split_and!; [done| |].
  - unfold compact. constructor; [apply good_next; lia|]. apply Forall_fmap, Forall_forall.
    intros id Hid%elem_of_sorted_ids. destruct Hid as [p Hp]. unfold compose.
    replace (default [] (byID t !! id)) with p by (by rewrite Hp). apply good_set. by apply Hfit.
  - unfold compact. change (?l :: ?ks) with ([l] ++ ks). rewrite replay_app.
    erewrite replay_one; [|apply good_next; lia|apply replay_next; lia].
    replace (MkTable _ _ _) with (restrict t []).
    2: { unfold restrict, empty_table. cbn [next byID byPath]. f_equal; [lia| |];
         apply map_eq; intros k; rewrite lookup_empty; apply map_lookup_filter_None; right;
         intros x _; apply not_elem_of_nil. }
    rewrite replay_sets; [|done|done|intros id; apply elem_of_sorted_ids].
    rewrite restrict_all; [done|done|]. intros id p Hp. rewrite app_nil_r, elem_of_reverse.
    apply elem_of_sorted_ids. by exists p.
Qed.

(** ** What the operations do, in whatever order the map is visited *)

Lemma remove_lookup visits p o id :
  byID (tbl (remove visits p o)) !! id =
  match byID (tbl o) !! id with
  | Some q => if under q p && bool_decide (id ∈ visits.*1) then None else Some q
  | None => None
  end.
Proof.
  revert o. induction visits as [|[j io] vs IH]; intros o.
  { cbn. destruct (_ !! id); [|done]. by rewrite andb_false_r. }
  change (remove ((j, io) :: vs) p o) with (remove vs p (remove_visit p o (j, io))).
  rewrite IH. cbn [fmap list_fmap fst remove_visit].
  destruct (byID (tbl o) !! j) as [r|] eqn:Ej.
  - destruct (under r p) eqn:Eu.
    + cbn [tbl del byID]. destruct (decide (id = j)) as [->|Hne].
      * rewrite lookup_delete_eq, Ej, Eu. by rewrite bool_decide_true by (by left).
      * rewrite lookup_delete_ne by done. destruct (_ !! id) as [q|]; [|done].
        rewrite (bool_decide_ext (id ∈ j :: vs.*1) (id ∈ vs.*1)); [done|]. set_solver.
    + destruct (decide (id = j)) as [->|Hne].
      * rewrite Ej, Eu. done.
      * destruct (_ !! id) as [q|]; [|done].
        rewrite (bool_decide_ext (id ∈ j :: vs.*1) (id ∈ vs.*1)); [done|]. set_solver.
  - destruct (byID (tbl o) !! id) as [q|] eqn:E; [|done].
    rewrite (bool_decide_ext (id ∈ j :: vs.*1) (id ∈ vs.*1)); [done|]. set_solver.
Qed.

(** The order visits every id once, and the host writes every line whole. *)
Definition covers (visits : list (Z * Z)) (o : opened) : Prop :=
  NoDup visits.*1 /\ forall id, id ∈ visits.*1 <-> exists p, byID (tbl o) !! id = Some p.

Definition written (visits : list (Z * Z)) : Prop := Forall (fun v => max_line <= snd v) visits.

Lemma remove_visit_ok p o v : wf (tbl o) ->
  wf (tbl (remove_visit p o v)) /\ next (tbl (remove_visit p o v)) = next (tbl o) /\
  (tracked o -> max_line <= snd v -> tracked (remove_visit p o v)).
Proof.
  destruct v as [id io]. intros Hwf. cbn [remove_visit snd].
  destruct (byID (tbl o) !! id) as [q|] eqn:E; [|done]. destruct (under q p); [|done].
  pose proof (wf_short _ _ _ Hwf E). split_and!; [by eapply wf_del|done|].
  intros Ht Hio. apply tracked_emit; [done|apply good_del; lia|done|].
  intros n. apply replay_del. lia.
Qed.

Lemma remove_ok visits p o : wf (tbl o) ->
  wf (tbl (remove visits p o)) /\ next (tbl (remove visits p o)) = next (tbl o) /\
  (tracked o -> written visits -> tracked (remove visits p o)).
Proof.
  revert o. induction visits as [|v vs IH]; intros o Hwf; [done|].
  change (remove (v :: vs) p o) with (remove vs p (remove_visit p o v)).
  destruct (remove_visit_ok p o v Hwf) as (Hwf' & Hn & Ht).
  destruct (IH _ Hwf') as (Hwf'' & Hn' & Ht'). split_and!; [done|congruence|].
  intros H Hw. inv Hw. auto.
Qed.

Lemma under_split old p : under old p = true <-> exists r, old = p ++ r /\ (r = [] \/ head r = Some slash).
Proof.
  unfold under. rewrite orb_true_iff, bool_decide_eq_true, HasPrefix_spec. split.
  - intros [->|[r ->]]; [exists []; rewrite app_nil_r; auto|].
    exists (slash :: r). rewrite <- app_assoc. auto.
  - intros (r & -> & [->|Hr]); [left; by rewrite app_nil_r|right].
    destruct r as [|c r]; [done|]. injection Hr as ->. exists r. by rewrite <- app_assoc.
Qed.

(** Where a path under [p] goes when [p] becomes [q]. *)
Definition moved_path (p q old : bytes) : bytes := q ++ drop (length p) old.

Lemma moved_path_under p q old : under old p = true -> under (moved_path p q old) q = true.
Proof.
  intros (r & -> & Hr)%under_split. apply under_split. exists r.
  unfold moved_path. by rewrite drop_app_length.
Qed.

Lemma moved_path_inj p q a b : under a p = true -> under b p = true ->
  moved_path p q a = moved_path p q b -> a = b.
Proof.
  intros (r & -> & _)%under_split (r' & -> & _)%under_split. unfold moved_path.
  rewrite !drop_app_length. by intros ->%app_inv_head.
Qed.

Lemma move_lookup visits p q o id : NoDup visits.*1 ->
  byID (tbl (move visits p q o)) !! id =
  match byID (tbl o) !! id with
  | Some old => if under old p && bool_decide (id ∈ visits.*1) then Some (moved_path p q old) else Some old
  | None => None
  end.
Proof.
  revert o. induction visits as [|[j io] vs IH]; intros o Hnd.
  { cbn. destruct (_ !! id); [|done]. by rewrite andb_false_r. }
  cbn in Hnd. apply NoDup_cons in Hnd as [Hj Hnd].
  change (move ((j, io) :: vs) p q o) with (move vs p q (move_visit p q o (j, io))).
  rewrite IH by done. cbn [fmap list_fmap fst move_visit].
  destruct (decide (id = j)) as [->|Hne].
  - rewrite (bool_decide_true (j ∈ j :: _)) by (by left).
    rewrite (bool_decide_false _ Hj).
    destruct (byID (tbl o) !! j) as [r|] eqn:Ej; [|by rewrite Ej].
    destruct (under r p) eqn:Eu; [|by rewrite Ej, Eu].
    cbn [tbl set byID]. rewrite lookup_insert_eq. by rewrite andb_false_r.
  - rewrite (bool_decide_ext (id ∈ j :: vs.*1) (id ∈ vs.*1)) by set_solver.
    destruct (byID (tbl o) !! j) as [r|] eqn:Ej; [|done].
    destruct (under r p) eqn:Eu; [|done].
    cbn [tbl set byID]. by rewrite lookup_insert_ne by done.
Qed.

(** Moving does not run into a path that another id has. *)
Definition free (p q : bytes) (t : pathTable) (ids : list Z) : Prop :=
  forall id old, id ∈ ids -> byID t !! id = Some old -> under old p = true ->
    byPath t !! moved_path p q old = None \/ byPath t !! moved_path p q old = Some id.

Lemma move_visit_ok p q o id io : wf (tbl o) -> free p q (tbl o) [id] ->
  let o' := move_visit p q o (id, io) in
  wf (tbl o') /\ next (tbl o') = next (tbl o) /\
  (forall ids, id ∉ ids -> free p q (tbl o) ids -> free p q (tbl o') ids) /\
  (forall old, tracked o -> max_line <= io ->
     (byID (tbl o) !! id = Some old -> under old p = true -> path_fits id (moved_path p q old)) ->
     byID (tbl o) !! id = Some old -> tracked o').
Proof.
  intros Hwf Hfree. cbn [move_visit].
  destruct (byID (tbl o) !! id) as [old|] eqn:E; [|done].
  destruct (under old p) eqn:Eu; [|split_and!; [done..|]; intros; done].
  pose proof (wf_short _ _ _ Hwf E) as Hid. pose proof (wf_below _ Hwf _ _ E) as Hb.
  pose proof (wf_inverse _ Hwf) as Hi. fold (moved_path p q old). cbn [tbl file].
  pose proof (Hfree id old ltac:(left) E Eu) as Hf.
  split_and!.
  - by apply wf_set.
  - cbn [set next]. rewrite u64_small by lia. lia.
  - intros ids Hids Hfr j old' Hj Hjo Hu'. cbn [set byID byPath] in *. rewrite E.
    assert (j <> id) by (intros ->; done). rewrite lookup_insert_ne in Hjo by done.
    rewrite lookup_insert_ne.
    + destruct (Hfr j old' Hj Hjo Hu') as [Hn|Hs].
      * left. apply lookup_delete_None. by right.
      * right. apply lookup_delete_Some. split; [|done]. intros Heq. rewrite <- Heq in Hs. apply Hi in E. congruence.
    + intros Heq. apply (moved_path_inj p q _ _ Eu Hu') in Heq as <-.
      apply Hi in E, Hjo. congruence.
  - intros old' Ht Hio Hfit [= <-]. specialize (Hfit eq_refl Eu).
    apply tracked_emit; [done|by apply good_set|done|]. intros n. apply replay_set; [lia|apply Hfit].
Qed.

Lemma move_ok visits p q o : wf (tbl o) -> NoDup visits.*1 -> free p q (tbl o) visits.*1 ->
  wf (tbl (move visits p q o)) /\ next (tbl (move visits p q o)) = next (tbl o) /\
  (tracked o -> written visits -> map_Forall path_fits (byID (tbl (move visits p q o))) ->
   tracked (move visits p q o)).
Proof.
  revert o. induction visits as [|[id io] vs IH]; intros o Hwf Hnd Hfree; [done|].
  cbn in Hnd. apply NoDup_cons in Hnd as [Hj Hnd].
  change (move ((id, io) :: vs) p q o) with (move vs p q (move_visit p q o (id, io))).
  destruct (move_visit_ok p q o id io) as (Hwf' & Hn & Hfree' & Ht); [done| |].
  { intros j old ->%list_elem_of_singleton. apply Hfree. by left. }
  destruct (IH _ Hwf' Hnd) as (Hwf'' & Hn' & Ht').
  { apply Hfree'; [done|]. intros j old Hin. apply Hfree. by right. }
  split_and!; [done|congruence|]. intros Htr Hw Hfit. inv Hw as [|? ? Hio Hw'].
  apply Ht'; [|done|done].
  destruct (byID (tbl o) !! id) as [old|] eqn:E.
  - eapply Ht; [done|done| |done]. intros _ Hu.
    specialize (Hfit id (moved_path p q old)). apply Hfit.
    rewrite move_lookup by done. cbn [move_visit]. rewrite E, Hu. cbn [tbl set byID].
    rewrite lookup_insert_eq. by rewrite (bool_decide_false _ Hj), andb_false_r.
  - cbn [move_visit]. by rewrite E.
Qed.

(** [Rename]: the paths under [to] are forgotten, and those under [from]
    keep their ids. *)
Lemma renamed_lookup v1 v2 from to o id : from <> to ->
  covers v1 o -> covers v2 (remove v1 to o) ->
  byID (tbl (renamed v1 v2 from to o)) !! id =
  match byID (tbl o) !! id with
  | Some p =>
      if under p to then None
      else Some (if under p from then moved_path from to p else p)
  | None => None
  end.
Proof.
  intros Hne [_ H1] [Hnd H2]. unfold renamed. rewrite bool_decide_false by done.
  rewrite move_lookup by done. specialize (H1 id). specialize (H2 id).
  rewrite remove_lookup in *. destruct (byID (tbl o) !! id) as [p|]; [|done].
  rewrite (bool_decide_true (id ∈ v1.*1)) in * by (apply H1; eauto). rewrite andb_true_r in *.
  destruct (under p to); [done|]. rewrite bool_decide_true by (apply H2; eauto).
  by rewrite andb_true_r; destruct (under p from).
Qed.

Lemma remove_free v1 p q o ids : wf (tbl o) -> covers v1 o ->
  free p q (tbl (remove v1 q o)) ids.
Proof.
  intros Hwf [_ Hc] id old _ _ Hu. left.
  destruct (byPath (tbl (remove v1 q o)) !! moved_path p q old) as [j|] eqn:E; [|done].
  destruct (remove_ok v1 q o Hwf) as (Hwf' & _). apply (wf_inverse _ Hwf') in E.
  rewrite remove_lookup in E. destruct (byID (tbl o) !! j) as [r|] eqn:Ej; [|done].
  rewrite bool_decide_true, andb_true_r in E by (apply Hc; eauto).
  destruct (under r q) eqn:Er; [done|]. injection E as ->.
  by rewrite moved_path_under in Er.
Qed.

(** ** Histories of a table *)

Definition fits (o : opened) : Prop := map_Forall path_fits (byID (tbl o)).

(** One thing that happens to the table of a share: a path is numbered, a
    file is removed or renamed, or the server is restarted, on a host that
    writes what it is given. *)
Inductive step : opened -> opened -> Prop :=
| step_idFor o io p :
    path_fits (next (tbl o)) p -> next (tbl o) < 2 ^ 64 - 1 -> max_line <= io ->
    step o (snd (idFor io p o))
| step_remove o v p :
    covers v o -> written v ->
    step o (remove v p o)
| step_rename o v1 v2 from to :
    covers v1 o -> written v1 -> covers v2 (remove v1 to o) -> written v2 ->
    fits (renamed v1 v2 from to o) ->
    step o (renamed v1 v2 from to o)
| step_restart o h t f :
    openPathTable h (Some (file o)) = (Ok t, Some f) ->
    step o (MkOpened t f).

(** The table of a share that had none. *)
Definition fresh : opened := MkOpened empty_table (unlines (compact empty_table)).

Definition reachable (o : opened) : Prop := rtc step fresh o.

Record good (o : opened) : Prop := {
  good_wf : wf (tbl o);
  good_fits : fits o;
  good_tracked : tracked o;
}.

Lemma good_restart h o : good o ->
  let '(r, f) := openPathTable h (Some (file o)) in
  (r = Ok (tbl o) \/ r = Err HostError) /\
  exists f', f = Some f' /\ tracked (MkOpened (tbl o) f').
Proof.
  intros [Hwf Hfit Ht]. unfold openPathTable.
  assert (Hold : tracked (MkOpened (tbl o) (file o))) by (by destruct o).
  destruct (negb _); [split; eauto|]. rewrite (tracked_load o Ht).
  destruct (creates h && _ && _); [|split; eauto].
  pose proof (compact_tracked _ Hwf Hfit). destruct (reopens h); split; eauto.
Qed.

Lemma step_good o o' : good o -> step o o' -> good o' /\ next (tbl o) <= next (tbl o') /\
  forall id, id < next (tbl o) -> byID (tbl o) !! id = None -> byID (tbl o') !! id = None.
Proof.
  intros [Hwf Hfit Ht] Hs. pose proof (wf_next _ Hwf) as Hn.
  destruct Hs as [o io p Hp Hmax Hio|o v p Hc Hw|o v1 v2 from to Hc1 Hw1 Hc2 Hw2 Hf|o h t f Ho].
  - unfold idFor. destruct (byPath (tbl o) !! p) as [id|] eqn:E; [done|].
    destruct (good_set _ _ Hp) as (_ & _ & Hlen).
    unfold emit. rewrite (proj2 (Z.leb_le _ _)) by lia. cbn [snd]. split.
    { split; cbn [tbl].
      - apply wf_set; [done|lia|by left].
      - unfold fits. cbn [tbl set byID]. by apply map_Forall_insert_2.
      - change (tracked (MkOpened (set (next (tbl o)) p (tbl o))
                  (snd (emit io (set_line (next (tbl o)) p) (file o))))).
        apply tracked_emit; [done|by apply good_set|done|].
        intros m. apply replay_set; [lia|apply Hp]. }
    cbn [tbl set byID next]. rewrite u64_small by lia. split; [lia|].
    intros id Hid Hnone. by rewrite lookup_insert_ne by lia.
  - destruct (remove_ok v p o Hwf) as (Hwf' & Hn' & Ht'). split; [split; [done| |auto]|].
    + intros id q. rewrite remove_lookup. destruct (byID (tbl o) !! id) as [r|] eqn:E; [|done].
      destruct (under r p && _); [done|]. intros [= <-]. by apply Hfit.
    + split; [lia|]. intros id _ Hid. by rewrite remove_lookup, Hid.
  - destruct (decide (from = to)) as [->|Hne].
    { unfold renamed. rewrite bool_decide_true by done. done. }
    destruct (remove_ok v1 to o Hwf) as (Hwf' & Hn' & Ht').
    destruct (move_ok v2 from to (remove v1 to o)) as (Hwf'' & Hn'' & Ht'');
      [done|apply Hc2|by apply remove_free|].
    assert (Hr : renamed v1 v2 from to o = move v2 from to (remove v1 to o)).
    { unfold renamed. by rewrite bool_decide_false. }
    split; [split; [by rewrite Hr|done|rewrite Hr in *; auto]|].
    rewrite Hr in *. split; [lia|]. intros id _ Hid. rewrite <- Hr.
    rewrite renamed_lookup by done. by rewrite Hid.
  - pose proof (good_restart h o (Build_good _ Hwf Hfit Ht)) as H. rewrite Ho in H.
    destruct H as [[[= ->]|?] (f' & [= ->] & Htr)]; [|done].
    split; [|done]. by split.
Qed.

Lemma good_fresh : good fresh.
Proof.
  split; [apply wf_empty|by intros id p H; cbn in H; simplify_map_eq|].
  apply compact_tracked; [apply wf_empty|].
  intros id p H. cbn in H. simplify_map_eq.
Qed.

Lemma steps_good o o' : good o -> rtc step o o' -> good o' /\ next (tbl o) <= next (tbl o') /\
  forall id, id < next (tbl o) -> byID (tbl o) !! id = None -> byID (tbl o') !! id = None.
Proof.
  intros Hg H. induction H as [o|o o1 o2 Hs Hr IH]; [split; [done|split; [lia|done]]|].
  destruct (step_good _ _ Hg Hs) as (Hg1 & Hn1 & H1).
  destruct (IH Hg1) as (Hg2 & Hn2 & H2). split; [done|]. split; [lia|].
  intros id Hid Hnone. apply H2; [lia|auto].
Qed.

Lemma reachable_good o : reachable o -> good o.
Proof. intros H. by destruct (steps_good fresh o good_fresh H) as [Hg _]. Qed.

(** ** Properties *)

(** C33. On a host whose writes to the table's file succeed, with paths whose line fits what a load
    reads and ids that do not run out: an id that named a file and no longer does never names
    one again, whatever files are numbered, removed and renamed afterwards, and however
    often the server is restarted: a handle to a removed file cannot reach a later
    one. ([failed_write_revives] is what one failed write does.) *)
Theorem ids_never_reused o o' id : reachable o -> rtc step o o' ->
  id < next (tbl o) -> path id o = None -> path id o' = None.
Proof.
  intros Hr Hs. destruct (steps_good o o' (reachable_good o Hr) Hs) as (_ & _ & H). apply H.
Qed.

(** Restarting: whichever call on the host fails, [openPathTable] gives the
    table that was in memory or an error, it gives the table when nothing
    fails, and the file it leaves is still one of that table. *)
Theorem restart_keeps_table h o : reachable o ->
  let '(r, f) := openPathTable h (Some (file o)) in
  (r = Ok (tbl o) \/ r = Err HostError) /\
  (h = MkHost true true true true true true -> r = Ok (tbl o)) /\
  load f = Ok (tbl o).
Proof.
  intros Hr%reachable_good. pose proof (good_restart h o Hr) as H.
  destruct (openPathTable h (Some (file o))) as [r f] eqn:E.
  destruct H as (Hres & f' & -> & Ht). split_and!; [done| |by apply (tracked_load _ Ht)].
  intros ->. unfold openPathTable in E. cbn [makes_dir opens_old andb negb] in E.
  rewrite (tracked_load o (good_tracked _ Hr)) in E. by injection E as <- _.
Qed.

(** Renaming keeps handles: an id under the old path names the same place
    under the new one, an id under the path that was replaced names nothing, and
    every other id is as it was. Neither the order in which Go visits the map nor
    a failing write of the file matters. *)
Theorem rename_keeps_ids v1 v2 from to o id : reachable o -> from <> to ->
  covers v1 o -> covers v2 (remove v1 to o) ->
  path id (renamed v1 v2 from to o) =
    (p ← path id o;
     if under p to then None else Some (if under p from then to ++ drop (length from) p else p)) /\
  wf (tbl (renamed v1 v2 from to o)).
Proof.
  intros Hr%reachable_good Hne H1 H2. unfold path. split.
  - rewrite renamed_lookup by done. by destruct (byID (tbl o) !! id).
  - unfold renamed. rewrite bool_decide_false by done.
    destruct (remove_ok v1 to o (good_wf _ Hr)) as (Hwf & _).
    apply move_ok; [done|apply H2|by apply remove_free; [apply good_wf|]].
Qed.

(** [idFor] answers the id the path has, or the next one, and afterwards the
    id and the path name each other; a failed write changes nothing in memory. *)
Theorem idFor_names io p o : reachable o -> next (tbl o) < 2 ^ 64 - 1 ->
  match idFor io p o with
  | (Some id, o') => forall id' q, path id' o' = Some q <-> path id' o = Some q \/ id' = id /\ q = p
  | (None, o') => tbl o' = tbl o
  end.
Proof.
  intros Hr%reachable_good Hmax. pose proof (wf_inverse _ (good_wf _ Hr)) as Hi. unfold idFor, path.
  destruct (byPath (tbl o) !! p) as [id|] eqn:E.
  { intros id' q. split; [by left|]. intros [H|[-> ->]]; [done|]. by apply Hi. }
  destruct (emit _ _ _) as [[] f]; [|done]. intros id' q. cbn [tbl set byID].
  destruct (decide (id' = next (tbl o))) as [->|Hne].
  - rewrite lookup_insert_eq. split; [intros [= ->]; by right|]. intros [H|[_ ->]]; [|done].
    apply (wf_below _ (good_wf _ Hr)) in H. lia.
  - rewrite lookup_insert_ne by done. split; [by left|]. intros [H|[-> _]]; [done|done].
Qed.
End table.

(** ** The theorems at work *)

Definition no_wide (r : Z) : bool := false.
Definition mk (p : string) (o : opened) : opened := snd (idFor no_wide (2 ^ 21) (str p) o).
Definition all_ok : host := MkHost true true true true true true.

Definition ex_o : opened := mk "a/b" (mk "a" (fresh no_wide)).
Definition ex_v : list (Z * Z) := [(2, 2 ^ 21); (1, 2 ^ 21)].

Lemma ex_mk p o : bool_decide (wf_bytes (str p)) = true ->
  (zlen (set_line no_wide (next (tbl o)) (str p)) <? max_line) = true ->
  (next (tbl o) <? 2 ^ 64 - 1) = true ->
  reachable no_wide o -> reachable no_wide (mk p o).
Proof.
  intros Hp%bool_decide_eq_true Hl%Z.ltb_lt Hn%Z.ltb_lt Hr. eapply rtc_r; [exact Hr|].
  apply step_idFor; [by split|done|done].
Qed.

Lemma ex_reachable : reachable no_wide ex_o.
Proof. unfold ex_o. do 2 (apply ex_mk; [by vm_compute..|]). apply rtc_refl. Qed.

Lemma ex_covers o v : bool_decide (NoDup v.*1) = true ->
  bool_decide (merge_sort Z.le v.*1 = merge_sort Z.le (map_to_list (byID (tbl o))).*1) = true ->
  covers v o.
Proof.
  intros H1%bool_decide_eq_true H2%bool_decide_eq_true. split; [done|]. intros id.
  rewrite <- (elem_of_sorted_ids (tbl o) id). unfold sorted_ids. rewrite <- H2.
  by rewrite (merge_sort_Permutation Z.le).
Qed.

Lemma ids_never_reused_witness :
  path 2 (mk "a/b" (remove ex_v (str "a/b") ex_o)) = None.
Proof.
  apply (ids_never_reused no_wide (remove ex_v (str "a/b") ex_o)).
  - eapply rtc_r; [apply ex_reachable|]. apply step_remove; [by apply ex_covers; vm_compute|].
    by repeat constructor.
  - apply rtc_once. apply step_idFor; [|by vm_compute|done].
    split; [by apply (bool_decide_unpack (wf_bytes _)); vm_compute|by vm_compute].
  - by vm_compute.
  - by vm_compute.
Defined.

Lemma restart_keeps_table_witness :
  load (snd (openPathTable no_wide all_ok (Some (file ex_o)))) = Ok (tbl ex_o).
Proof.
  pose proof (restart_keeps_table no_wide all_ok ex_o ex_reachable) as H.
  destruct (openPathTable no_wide all_ok (Some (file ex_o))) as [r f]. apply H.
Defined.

Lemma rename_keeps_ids_witness :
  path 2 (renamed no_wide ex_v ex_v (str "a") (str "c") ex_o) = Some (str "c/b").
Proof.
  rewrite (proj1 (rename_keeps_ids no_wide ex_v ex_v (str "a") (str "c") ex_o 2 ex_reachable
    ltac:(done) ltac:(by apply ex_covers; vm_compute) ltac:(by apply ex_covers; vm_compute))).
  by vm_compute.
Defined.

Lemma idFor_names_witness :
  path 3 (snd (idFor no_wide (2 ^ 21) (str "d") ex_o)) = Some (str "d").
Proof.
  pose proof (idFor_names no_wide (2 ^ 21) (str "d") ex_o ex_reachable ltac:(by vm_compute)) as H.
  assert (E : fst (idFor no_wide (2 ^ 21) (str "d") ex_o) = Some 3) by (by vm_compute).
  destruct (idFor no_wide (2 ^ 21) (str "d") ex_o) as [r o']. cbn in E. subst r.
  apply H. by right.
Defined.

(** ** What a failing host can do *)

(** [remove] drops the error of writing its line: after a restart the id of the
    removed path names it again. *)
Theorem failed_write_revives :
  let o := remove [(1, 0); (2, 2 ^ 21)] (str "a") ex_o in
  path 1 o = None /\
  load (Some (file o)) = Ok (MkTable 3 {[1 := str "a"]} {[str "a" := 1]}).
Proof. split; [by vm_compute|]. by vm_compute. Qed.

(** A write that fails part way leaves a piece of a line, and the next line
    is appended to it: the table cannot be opened again. *)
Theorem torn_write_unreadable :
  let o := snd (idFor no_wide 5 (str "c") ex_o) in
  load (Some (file (mk "d" o))) = Err (BadNumber 4 ErrSyntax).
Proof. by vm_compute. Qed.
