(* ===== verification/Bootp.v ===== *)
(** The BOOTP and DHCP server ([internal/bootp/bootp.go], [dhcp.go]): reading
    a request, choosing the answer, building it, and the loop of [Serve] for one
    datagram. Sockets, the control message that picks an interface, logging and
    capture are left out. *)
From S2P Require Import Prelude.

Definition packetLen : Z := 300.

(** A [netip.Addr] is its bytes: none if invalid, 4 or 16. *)
Abbreviation Addr := bytes.
Definition IsValid (a : Addr) : bool := negb (zlen a =? 0).
(** [netip.Addr.IsUnspecified]. *)
Definition IsUnspecified (a : Addr) : bool :=
  bool_decide (a = [0; 0; 0; 0]) || bool_decide (a = replicate 16 0).

(** A [net.Addr]: a UDP address, or some other implementation. *)
Inductive net_Addr :=
| UDPAddr (IP : bytes) (Port : Z)
| OtherAddr (tag : Z).
(** [net.IP.IsUnspecified] also knows 0.0.0.0 in its 16-byte form. *)
Definition IP_IsUnspecified (ip : bytes) : bool :=
  IsUnspecified ip || bool_decide (ip = replicate 10 0 ++ [255; 255; 0; 0; 0; 0]).
Definition IPv4bcast : bytes := [255; 255; 255; 255].

Record Client := MkClient { Name : bytes; MAC : bytes; IP : Addr; Hostname : bytes }.

(** [Netmask] is the length of the prefix, when it is valid. *)
Record Server := MkServer {
  ServerIP : Addr;
  Netmask : option Z;
  Clients : list Client;
  DHCPServerID : Addr;
  DHCP : bool;
  ReplyAddr : option net_Addr;
}.

(** [net.CIDRMask(ones, 32)]: nothing for a length that is out of range. *)
Definition CIDRMask (ones : Z) : bytes :=
  if (0 <=? ones) && (ones <=? 32) then be_enc 4 (2 ^ 32 - 2 ^ (32 - ones)) else [].

Definition cookie : bytes := [99; 130; 83; 99].

(** [l] with [v] from [off] on. *)
Definition overlay (l : bytes) (off : Z) (v : bytes) : bytes :=
  take (Z.to_nat off) l ++ v ++ drop (Z.to_nat (off + zlen v)) l.

(** [copy(l[lo:hi], v)], and [l[i] = v]. *)
Definition copy_in (l : bytes) (lo hi : Z) (v : bytes) : outcome Empty_set bytes :=
  if (0 <=? lo) && (lo <=? hi) && (hi <=? zlen l)
  then Ok (overlay l lo (take (Z.to_nat (hi - lo)) v)) else Panic.
Definition set_at (l : bytes) (i v : Z) : outcome Empty_set bytes :=
  if (0 <=? i) && (i <? zlen l) then Ok (overlay l i [v]) else Panic.

(** ** Reading a request *)

(** The loop of [isDHCP] over the options. *)
Fixpoint isDHCP_loop (fuel : nat) (opts : bytes) : bool :=
  match fuel with
  | O => false
  | S fuel =>
      match opts with
      | [] => false
      | code :: rest =>
          if code =? 0 then isDHCP_loop fuel rest
          else if code =? 255 then false
          else if (zlen opts <? 2) || (zlen opts <? 2 + at_ opts 1) then false
          else if code =? 53 then true
          else isDHCP_loop fuel (drop (Z.to_nat (2 + at_ opts 1)) opts)
      end
  end.

Definition isDHCP (req : bytes) : outcome Empty_set bool :=
  opts ← slice req 236 (zlen req);
  if (zlen opts <? 4) || negb (bool_decide (take 4 opts = cookie)) then Ok false
  else Ok (isDHCP_loop (length opts) (drop 4 opts)).

(** [bytes.TrimRight(b, "\x00")]. *)
Definition trim_zeros (b : bytes) : bytes := trim_right 0 b.

(** The MAC and the boot file. *)
Definition parseRequest (req : bytes) : outcome Empty_set (option (bytes * bytes)) :=
  if (zlen req <? packetLen) || negb (at_ req 0 =? 1) || negb (at_ req 1 =? 1) || negb (at_ req 2 =? 6)
  then Ok None
  else
    d ← isDHCP req;
    if (d : bool) then Ok None
    else
      mac ← slice req 28 34;
      file ← slice req 108 236;
      Ok (Some (mac, trim_zeros file)).

Definition lookupClient (s : Server) (mac : bytes) : option Client :=
  head (filter (fun c => MAC c = mac) (Clients s)).

(** ** The BOOTP reply *)

(** The subnet mask and the host name in the vendor area, from [w] on. *)
Definition put_mask (s : Server) (vend : bytes) (w : Z) : outcome Empty_set (bytes * Z) :=
  match Netmask s with
  | None => Ok (vend, w)
  | Some bits =>
      vend ← set_at vend w 1;
      vend ← set_at vend (w + 1) 4;
      vend ← copy_in vend (w + 2) (w + 6) (CIDRMask bits);
      Ok (vend, w + 6)
  end.

Definition put_hostname (h : bytes) (vend : bytes) (w : Z) : outcome Empty_set (bytes * Z) :=
  if negb (zlen h =? 0) && (w + 2 + zlen h + 1 <=? zlen vend) then
    vend ← set_at vend w 12;
    vend ← set_at vend (w + 1) (u8 (zlen h));
    vend ← copy_in vend (w + 2) (zlen vend) h;
    Ok (vend, w + (2 + zlen h))
  else Ok (vend, w).

Definition buildVendor (s : Server) (client : Client) : outcome Empty_set bytes :=
  vend ← copy_in (replicate 64 0) 0 4 cookie;
  '(vend, w) ← put_mask s vend 4;
  '(vend, w) ← put_hostname (Hostname client) vend w;
  set_at vend w 255.

Definition buildReply (s : Server) (req : bytes) (client : Client) : outcome Empty_set bytes :=
  first ← slice req 0 packetLen;
  rep ← copy_in (replicate 300 0) 0 packetLen first;
  rep ← set_at rep 0 2;
  rep ← set_at rep 3 0;
  rep ← copy_in rep 16 20 (IP client);
  rep ← copy_in rep 20 24 (ServerIP s);
  rep ← copy_in rep 44 108 (replicate 64 0);
  vend ← buildVendor s client;
  copy_in rep 236 packetLen vend.

(** ** DHCP *)

Definition dhcpDiscover : Z := 1.
Definition dhcpOffer : Z := 2.
Definition dhcpRequest : Z := 3.
Definition dhcpAck : Z := 5.
Definition dhcpNak : Z := 6.
Definition LeaseSeconds : Z := 365 * 24 * 60 * 60.

Record dhcpMsg := MkMsg {
  typ : Z;
  mac : bytes;
  xid : bytes;
  flags : bytes;
  ciaddr : Addr;
  giaddr : bytes;
  requested : Addr;
  m_serverID : Addr;
  chaddr : bytes;
}.

(** What one option changes in the message. *)
Definition parse_option (m : dhcpMsg) (code : Z) (v : bytes) : dhcpMsg :=
  if (code =? 53) && (zlen v =? 1) then
    MkMsg (at_ v 0) (mac m) (xid m) (flags m) (ciaddr m) (giaddr m) (requested m) (m_serverID m) (chaddr m)
  else if (code =? 50) && (zlen v =? 4) then
    MkMsg (typ m) (mac m) (xid m) (flags m) (ciaddr m) (giaddr m) v (m_serverID m) (chaddr m)
  else if (code =? 54) && (zlen v =? 4) then
    MkMsg (typ m) (mac m) (xid m) (flags m) (ciaddr m) (giaddr m) (requested m) v (chaddr m)
  else m.

Fixpoint parse_options (fuel : nat) (m : dhcpMsg) (opts : bytes) : dhcpMsg * bool :=
  match fuel with
  | O => (m, negb (typ m =? 0))
  | S fuel =>
      match opts with
      | [] => (m, negb (typ m =? 0))
      | code :: rest =>
          if code =? 0 then parse_options fuel m rest
          else if code =? 255 then (m, negb (typ m =? 0))
          else if (zlen opts <? 2) || (zlen opts <? 2 + at_ opts 1) then (m, false)
          else
            let v := sub opts 2 (at_ opts 1) in
            parse_options fuel (parse_option m code v) (drop (Z.to_nat (2 + zlen v)) opts)
      end
  end.

Definition no_msg : dhcpMsg := MkMsg 0 [] [] [] [] [] [] [] [].

Definition parseDHCP (req : bytes) : dhcpMsg * bool :=
  if (zlen req <? 241) || negb (at_ req 0 =? 1) || negb (at_ req 1 =? 1) || negb (at_ req 2 =? 6)
     || negb (bool_decide (sub req 236 4 = cookie)) then (no_msg, false)
  else
    let m := MkMsg 0 (sub req 28 6) (sub req 4 4) (sub req 10 2) (sub req 12 4) (sub req 24 4) [] []
                   (sub req 28 16) in
    let opts := drop 240 req in
    parse_options (length opts) m opts.

Definition serverID (s : Server) : Addr :=
  if IsValid (DHCPServerID s) then DHCPServerID s else ServerIP s.

(** The type of the reply, or 0 for none. *)
Definition dhcpAnswer (s : Server) (m : dhcpMsg) (c : Client) : Z :=
  if typ m =? dhcpDiscover then dhcpOffer
  else if typ m =? dhcpRequest then
    if IsValid (m_serverID m) && negb (bool_decide (m_serverID m = serverID s)) then 0
    else
      let want := if negb (IsValid (requested m)) && negb (IsUnspecified (ciaddr m))
                  then ciaddr m else requested m in
      if negb (IsValid want) then 0
      else if bool_decide (want = IP c) then dhcpAck
      else dhcpNak
  else 0.

(** [opt] appends an option. *)
Definition opt (code : Z) (v : bytes) (rep : bytes) : bytes := (rep ++ [code; u8 (zlen v)]) ++ v.

Definition append_opts (s : Server) (c : Client) (t : Z) (rep : bytes) : bytes :=
  let rep := opt 53 [t] rep in
  let rep := opt 54 (serverID s) rep in
  if negb (t =? dhcpNak) then
    let rep := opt 51 (be_enc 4 LeaseSeconds) rep in
    let rep := match Netmask s with Some bits => opt 1 (CIDRMask bits) rep | None => rep end in
    if negb (zlen (Hostname c) =? 0) then opt 12 (Hostname c) rep else rep
  else rep.

Definition buildDHCP (s : Server) (m : dhcpMsg) (c : Client) (t : Z) : outcome Empty_set bytes :=
  rep ← set_at (replicate 240 0) 0 2;
  rep ← set_at rep 1 1;
  rep ← set_at rep 2 6;
  rep ← copy_in rep 4 8 (xid m);
  rep ← copy_in rep 10 12 (flags m);
  rep ← (if t =? dhcpAck then copy_in rep 12 16 (ciaddr m) else Ok rep);
  rep ← (if negb (t =? dhcpNak) then
           rep ← copy_in rep 16 20 (IP c);
           copy_in rep 20 24 (ServerIP s)
         else Ok rep);
  rep ← copy_in rep 24 28 (giaddr m);
  rep ← copy_in rep 28 44 (chaddr m);
  rep ← copy_in rep 236 240 cookie;
  let rep := append_opts s c t rep ++ [255] in
  Ok (rep ++ replicate (Z.to_nat (packetLen - zlen rep)) 0).

(** [serveDHCP]: the datagram sent, and where to. *)
Definition serveDHCP (s : Server) (m : dhcpMsg) : outcome Empty_set (option (bytes * net_Addr)) :=
  match lookupClient s (mac m) with
  | None => Ok None
  | Some client =>
      let t := dhcpAnswer s m client in
      if t =? 0 then Ok None
      else
        reply ← buildDHCP s m client t;
        let dst := match ReplyAddr s with
                   | Some a => a
                   | None =>
                       if (t =? dhcpAck) && negb (IsUnspecified (ciaddr m))
                       then UDPAddr (ciaddr m) 68 else UDPAddr IPv4bcast 68
                   end in
        Ok (Some (reply, dst))
  end.

(** ** Serve *)

(** Where a BOOTP reply goes. *)
Definition reply_to (s : Server) (src : net_Addr) : net_Addr :=
  match ReplyAddr s with
  | Some a => a
  | None =>
      match src with
      | UDPAddr ip port =>
          if negb (bool_decide (ip = [])) && negb (IP_IsUnspecified ip) then src
          else UDPAddr IPv4bcast port
      | OtherAddr _ => UDPAddr IPv4bcast 68
      end
  end.

Definition serveBOOTP (s : Server) (req : bytes) (src : net_Addr) :
    outcome Empty_set (option (bytes * net_Addr)) :=
  if zlen req <? packetLen then Ok None
  else
    r ← parseRequest req;
    match r with
    | None => Ok None
    | Some (mac, _) =>
        match lookupClient s mac with
        | None => Ok None
        | Some client =>
            reply ← buildReply s req client;
            Ok (Some (reply, reply_to s src))
        end
    end.

(** One datagram of [Serve]: what it sends, if anything. *)
Definition Serve (s : Server) (req : bytes) (src : net_Addr) :
    outcome Empty_set (option (bytes * net_Addr)) :=
  let '(m, ok) := parseDHCP req in
  if DHCP s && ok then serveDHCP s m else serveBOOTP s req src.

(** ** The options area, as a list *)

Inductive ending := Ended | Exhausted | Truncated.

#[export] Instance ending_eq_dec : EqDecision ending.
Proof. solve_decision. Defined.

(** The options of an options area, and how it ends. *)
Fixpoint options (fuel : nat) (opts : bytes) : list (Z * bytes) * ending :=
  match fuel with
  | O => ([], Exhausted)
  | S fuel =>
      match opts with
      | [] => ([], Exhausted)
      | code :: rest =>
          if code =? 0 then options fuel rest
          else if code =? 255 then ([], Ended)
          else if (zlen opts <? 2) || (zlen opts <? 2 + at_ opts 1) then ([], Truncated)
          else
            let n := at_ opts 1 in
            let '(os, e) := options fuel (drop (Z.to_nat (2 + n)) opts) in
            ((code, sub opts 2 n) :: os, e)
      end
  end.

Definition has_type (os : list (Z * bytes)) : bool := existsb (fun o => fst o =? 53) os.

Lemma isDHCP_options fuel opts : isDHCP_loop fuel opts = has_type (fst (options fuel opts)).
Proof.
  revert opts. induction fuel as [|fuel IH]; intros opts; [done|].
  cbn [isDHCP_loop options]. destruct opts as [|code rest]; [done|].
  destruct (code =? 0); [apply IH|]. destruct (code =? 255); [done|].
  destruct (_ || _); [done|]. rewrite IH.
  destruct (options _ _) as [os e]. cbn. by destruct (code =? 53).
Qed.

Lemma parse_options_fold fuel m opts : wf_bytes opts ->
  parse_options fuel m opts =
  let '(os, e) := options fuel opts in
  let m := foldl (fun m o => parse_option m (fst o) (snd o)) m os in
  (m, negb (bool_decide (e = Truncated)) && negb (typ m =? 0)).
Proof.
  revert m opts. induction fuel as [|fuel IH]; intros m opts Hwf; [done|].
  cbn [parse_options options]. destruct opts as [|code rest]; [done|].
  destruct (code =? 0); [apply IH; by inv Hwf|]. destruct (code =? 255); [done|].
  destruct (_ || _) eqn:E; [done|]. zbool. pose proof (at_range _ 1 Hwf).
  rewrite zlen_sub by lia. rewrite IH by (by apply Forall_drop).
  by destruct (options _ _) as [os e].
Qed.

(** A message the server reads as DHCP has a message type option. *)
Lemma typed_options m os : typ m = 0 ->
  typ (foldl (fun m o => parse_option m (fst o) (snd o)) m os) <> 0 -> has_type os = true.
Proof.
  revert m. induction os as [|[code v] os IH]; intros m Hm H; [done|].
  cbn [has_type existsb fst]. destruct (code =? 53) eqn:E; [done|].
  apply (IH (parse_option m code v)); [|done].
  unfold parse_option. rewrite E. cbn [andb].
  destruct ((code =? 50) && _); [done|]. by destruct ((code =? 54) && _).
Qed.

(** ** Building messages part by part *)

Lemma zlen_take (l : bytes) n : 0 <= n -> zlen (take (Z.to_nat n) l) = Z.min n (zlen l).
Proof. intros. unfold zlen. rewrite length_take. lia. Qed.

Lemma zlen_overlay l off v : 0 <= off -> off + zlen v <= zlen l -> zlen (overlay l off v) = zlen l.
Proof.
  intros. pose proof (zlen_nonneg v). unfold overlay. rewrite !zlen_app, zlen_take by done.
  unfold zlen in *. rewrite length_drop. lia.
Qed.

Lemma copy_in_ok l lo hi v : 0 <= lo -> lo <= hi -> hi <= zlen l ->
  exists l', copy_in l lo hi v = Ok l' /\ zlen l' = zlen l.
Proof.
  intros. unfold copy_in.
  rewrite (proj2 (Z.leb_le 0 lo)), (proj2 (Z.leb_le lo hi)), (proj2 (Z.leb_le hi _)) by done.
  eexists. split; [done|]. apply zlen_overlay; [done|]. rewrite zlen_take by lia. lia.
Qed.

Lemma set_at_ok l i v : 0 <= i < zlen l -> exists l', set_at l i v = Ok l' /\ zlen l' = zlen l.
Proof.
  intros. unfold set_at. rewrite (proj2 (Z.leb_le 0 i)), (proj2 (Z.ltb_lt i _)) by lia.
  eexists. split; [done|]. apply zlen_overlay; [lia|]. rewrite zlen_cons, (@zlen_nil Z). lia.
Qed.

Lemma overlay_mid a b c v : zlen v = zlen b -> overlay (a ++ b ++ c) (zlen a) v = a ++ v ++ c.
Proof.
  intros Hv. unfold overlay, zlen in *. rewrite Nat2Z.id, take_app_length. f_equal. f_equal.
  rewrite app_assoc, drop_app_length'; [done|]. rewrite length_app. lia.
Qed.

Lemma set_at_copy l i v : set_at l i v = copy_in l i (i + 1) [v].
Proof.
  unfold set_at, copy_in. replace (i <? zlen l) with (i + 1 <=? zlen l) by lia.
  replace (i <=? i + 1) with true by lia. rewrite andb_true_r.
  by replace (Z.to_nat (i + 1 - i)) with 1%nat by lia.
Qed.

(** Copying over the [k]-th of the parts a buffer is made of. *)
Lemma copy_part ps k b v lo hi : ps !! k = Some b -> zlen v = zlen b ->
  lo = zlen (mjoin (take k ps)) -> hi = lo + zlen b ->
  copy_in (mjoin ps) lo hi v = Ok (mjoin (<[k := v]> ps)).
Proof.
  intros (l1 & l2 & -> & ->)%list_elem_of_split_length Hv -> ->.
  rewrite take_app_length. replace (<[length l1 := v]> _) with (l1 ++ v :: l2).
  2: { rewrite <- (Nat.add_0_r (length l1)). by rewrite insert_app_r. }
  rewrite !join_app, !mjoin_cons. unfold copy_in. rewrite !zlen_app.
  pose proof (zlen_nonneg (mjoin l1)). pose proof (zlen_nonneg (mjoin l2)). pose proof (zlen_nonneg b).
  rewrite (proj2 (Z.leb_le 0 _)), (proj2 (Z.leb_le (zlen _) _)), (proj2 (Z.leb_le (_ + _) _)) by lia.
  cbn [andb]. rewrite take_ge by (unfold zlen in *; lia). by rewrite overlay_mid.
Qed.

Lemma set_part ps k b v lo : ps !! k = Some [b] -> lo = zlen (mjoin (take k ps)) ->
  set_at (mjoin ps) lo v = Ok (mjoin (<[k := [v]]> ps)).
Proof. intros Hk Hlo. rewrite set_at_copy. by eapply copy_part. Qed.

(** ** The options a reply carries *)

Definition enc_opt (o : Z * bytes) : bytes := [fst o; u8 (zlen (snd o))] ++ snd o.

Definition plain_opt (o : Z * bytes) : Prop :=
  0 < fst o < 255 /\ zlen (snd o) <= 255.

Lemma opt_enc code v rep : opt code v rep = rep ++ enc_opt (code, v).
Proof. unfold opt, enc_opt. by rewrite <- app_assoc. Qed.

(** An encoded list of options is read back, and what follows the end option is
    not looked at. *)
Lemma options_enc os rest fuel : Forall plain_opt os -> (length os < fuel)%nat ->
  options fuel (mjoin (enc_opt <$> os) ++ 255 :: rest) = (os, Ended).
Proof.
  intros Hos. revert fuel. induction Hos as [|[code v] os [Hc Hv] Hos IH]; intros fuel Hf.
  { destruct fuel; [cbn in Hf; lia|]. done. }
  destruct fuel as [|fuel]; [lia|]. cbn in Hf. rewrite fmap_cons, mjoin_cons, <- app_assoc.
  cbn [fst snd] in *. pose proof (zlen_nonneg v).
  assert (Hu : u8 (zlen v) = zlen v) by (apply Z.mod_small; lia).
  unfold enc_opt at 1. cbn [fst snd]. rewrite Hu, <- app_assoc.
  set (rest' := mjoin _ ++ _). change ([code; zlen v] ++ v ++ rest') with (code :: zlen v :: v ++ rest').
  cbn [options]. rewrite (proj2 (Z.eqb_neq code 0)), (proj2 (Z.eqb_neq code 255)) by lia.
  rewrite !zlen_cons, zlen_app. pose proof (zlen_nonneg rest').
  change (at_ (code :: zlen v :: v ++ rest') 1) with (zlen v).
  rewrite (proj2 (Z.ltb_ge _ 2)), (proj2 (Z.ltb_ge _ (2 + _))) by lia. cbn [orb].
  replace (drop _ _) with rest'.
  2: { replace (Z.to_nat (2 + zlen v)) with (S (S (length v))) by (unfold zlen; lia).
       cbn [drop]. by rewrite drop_app_length. }
  rewrite IH by lia. f_equal. f_equal. f_equal.
  change (code :: zlen v :: v ++ rest') with ([code; zlen v] ++ v ++ rest').
  rewrite sub_app_r by (rewrite !zlen_cons, (@zlen_nil Z); lia).
  by rewrite sub_app_l.
Qed.

(** ** The layout of a BOOTP reply *)

(** What the vendor area names: the mask, and the host name if it fits. *)
Definition bootp_opts (s : Server) (c : Client) : list (Z * bytes) :=
  (match Netmask s with Some bits => [(1, CIDRMask bits)] | None => [] end) ++
  (let w := match Netmask s with Some _ => 10 | None => 4 end in
   if negb (zlen (Hostname c) =? 0) && (w + 2 + zlen (Hostname c) + 1 <=? 64)
   then [(12, Hostname c)] else []).

Definition vendor (s : Server) (c : Client) : bytes :=
  let v := cookie ++ mjoin (enc_opt <$> bootp_opts s c) ++ [255] in
  v ++ replicate (Z.to_nat (64 - zlen v)) 0.

Definition bootp_reply (s : Server) (req : bytes) (c : Client) : bytes :=
  mjoin [[2]; sub req 1 2; [0]; sub req 4 12; IP c; ServerIP s; sub req 24 20; replicate 64 0;
         sub req 108 128; vendor s c].

Record plain_server (s : Server) : Prop := {
  server_v4 : zlen (ServerIP s) = 4;
  server_id_v4 : zlen (serverID s) = 4;
  server_mask : forall bits, Netmask s = Some bits -> 0 <= bits <= 32;
}.

Lemma zlen_CIDRMask bits : 0 <= bits <= 32 -> zlen (CIDRMask bits) = 4.
Proof.
  intros. unfold CIDRMask. rewrite (proj2 (Z.leb_le 0 bits)), (proj2 (Z.leb_le bits 32)) by lia.
  cbn [andb]. apply (zlen_be_enc 4).
Qed.

Abbreviation zeros n := (replicate (Z.to_nat n) 0).

Lemma zlen_zeros n : 0 <= n -> zlen (zeros n) = n.
Proof. intros. rewrite zlen_replicate. lia. Qed.

Lemma zeros_split n a : 0 <= a <= n -> zeros n = zeros a ++ zeros (n - a).
Proof. intros. rewrite <- replicate_add. f_equal. lia. Qed.

Lemma set_zeros pre n v : 1 <= n ->
  set_at (pre ++ zeros n) (zlen pre) v = Ok ((pre ++ [v]) ++ zeros (n - 1)).
Proof.
  intros Hn. rewrite (zeros_split n 1) by lia.
  transitivity (set_at (mjoin [pre; [0]; zeros (n - 1)]) (zlen pre) v).
  { cbn. by rewrite app_nil_r. }
  rewrite (set_part _ 1 0 v) by (cbn; rewrite ?app_nil_r; done). cbn. by rewrite app_nil_r, <- app_assoc.
Qed.

Lemma copy_zeros pre n hi v : zlen v <= n -> zlen pre + zlen v <= hi -> hi <= zlen pre + n ->
  copy_in (pre ++ zeros n) (zlen pre) hi v = Ok ((pre ++ v) ++ zeros (n - zlen v)).
Proof.
  intros Hv Hlo Hhi. pose proof (zlen_nonneg v). pose proof (zlen_nonneg pre).
  transitivity (copy_in (mjoin [pre; zeros (zlen v); zeros (n - zlen v)]) (zlen pre) (zlen pre + zlen v) v).
  - assert (Hl : zlen (pre ++ zeros n) = zlen pre + n) by (rewrite zlen_app, zlen_zeros; lia).
    cbn [mjoin list_join]. rewrite app_nil_r, <- zeros_split by lia. unfold copy_in. rewrite Hl.
    rewrite (proj2 (Z.leb_le 0 _)), (proj2 (Z.leb_le (zlen pre) _)), (proj2 (Z.leb_le hi _)),
      (proj2 (Z.leb_le (zlen pre) _)), (proj2 (Z.leb_le (_ + _) _)) by lia.
    cbn [andb]. by rewrite !take_ge by (unfold zlen in *; lia).
  - rewrite (copy_part _ 1 (zeros (zlen v)) v); rewrite ?zlen_zeros by lia; try done.
    + cbn. by rewrite app_nil_r, <- app_assoc.
    + cbn. by rewrite app_nil_r.
Qed.

(** Writing one option at the end of what is there. *)
Lemma put_opt code v pre n hi :
  2 + zlen v <= n -> zlen v <= 255 -> zlen pre + 2 + zlen v <= hi -> hi <= zlen pre + n ->
  exists v1 v2,
    set_at (pre ++ zeros n) (zlen pre) code = Ok v1 /\
    set_at v1 (zlen pre + 1) (zlen v) = Ok v2 /\ zlen v2 = zlen pre + n /\
    copy_in v2 (zlen pre + 2) hi v = Ok ((pre ++ enc_opt (code, v)) ++ zeros (n - (2 + zlen v))).
Proof.
  intros Hn Hv Hlo Hhi. pose proof (zlen_nonneg v).
  assert (Hl : forall x, zlen (pre ++ [x]) = zlen pre + 1) by (intros; by rewrite zlen_app).
  eexists _, _. rewrite set_zeros by lia. split; [done|].
  rewrite <- (Hl code), set_zeros by lia. split; [done|].
  split; [autorewrite with zlen; lia|].
  replace (zlen pre + 2) with (zlen ((pre ++ [code]) ++ [zlen v])) by (autorewrite with zlen; lia).
  rewrite copy_zeros by (autorewrite with zlen; lia).
  unfold enc_opt. cbn [fst snd]. replace (u8 (zlen v)) with (zlen v) by (symmetry; apply Z.mod_small; lia).
  rewrite <- !app_assoc. cbn [app]. do 6 f_equal. lia.
Qed.

Lemma zlen_enc_opt o : zlen (enc_opt o) = 2 + zlen (snd o).
Proof. unfold enc_opt. by rewrite zlen_app. Qed.

Lemma zlen_vendor_opts s c : plain_server s ->
  zlen (mjoin (enc_opt <$> bootp_opts s c)) <= 59 /\ Forall plain_opt (bootp_opts s c).
Proof.
  intros Hs. pose proof (zlen_nonneg (Hostname c)).
  assert (Hm : forall bits, Netmask s = Some bits -> zlen (CIDRMask bits) = 4)
    by (intros; by apply zlen_CIDRMask, (server_mask s)).
  unfold bootp_opts. destruct (Netmask s) as [bits|]; [specialize (Hm bits eq_refl)|];
    destruct (negb _ && _) eqn:E; zbool; cbn [app fmap list_fmap mjoin list_join];
    rewrite ?zlen_app, ?zlen_enc_opt, ?(@zlen_nil Z); cbn [snd]; rewrite ?Hm;
    (split; [lia|repeat constructor; cbn; lia]).
Qed.

Lemma copy_whole l v hi : zlen v = zlen l -> hi = zlen l -> copy_in l 0 hi v = Ok v.
Proof.
  intros Hv ->. rewrite <- (app_nil_r l) at 1. rewrite <- (app_nil_r v) at 2.
  transitivity (copy_in (mjoin [l]) 0 (zlen l) v); [done|].
  by rewrite (copy_part _ 0 l v).
Qed.

Lemma slice_sub {E} (l : bytes) lo hi : 0 <= lo -> lo <= hi -> hi <= zlen l ->
  @slice E _ l lo hi = Ok (sub l lo (hi - lo)).
Proof. apply slice_ok. Qed.

Ltac split_sub l lo n m :=
  let H := fresh in
  pose proof (sub_split l lo n m ltac:(lia) ltac:(lia) ltac:(lia)) as H;
  let t := eval vm_compute in (n + m) in change (n + m) with t in H;
  let u := eval vm_compute in (lo + n) in change (lo + n) with u in H;
  rewrite H; clear H.

Lemma sub_parts (l : bytes) : 300 <= zlen l ->
  sub l 0 300 = mjoin [sub l 0 1; sub l 1 2; sub l 3 1; sub l 4 12; sub l 16 4; sub l 20 4;
    sub l 24 20; sub l 44 64; sub l 108 128; sub l 236 64].
Proof.
  intros Hl. cbn [mjoin list_join]. rewrite app_nil_r.
  split_sub l 0 1 299. split_sub l 1 2 297. split_sub l 3 1 296. split_sub l 4 12 284.
  split_sub l 16 4 280. split_sub l 20 4 276. split_sub l 24 20 256. split_sub l 44 64 192.
  by split_sub l 108 128 64.
Qed.

Lemma sub_one (l : bytes) i : 0 <= i < zlen l -> exists b, sub l i 1 = [b].
Proof.
  intros H. assert (Hz : zlen (sub l i 1) = 1) by (apply zlen_sub; lia).
  destruct (sub l i 1) as [|b [|b' k]]; [done|by exists b|].
  rewrite !zlen_cons in Hz. pose proof (zlen_nonneg k). lia.
Qed.

Lemma buildVendor_ok s c : plain_server s ->
  buildVendor s c = Ok (vendor s c) /\ zlen (vendor s c) = 64.
Proof.
  intros Hs. pose proof (zlen_nonneg (Hostname c)). unfold buildVendor, put_mask.
  assert (Hm : forall bits, Netmask s = Some bits -> zlen (CIDRMask bits) = 4)
    by (intros; by apply zlen_CIDRMask, (server_mask s)).
  split.
  2: { destruct (zlen_vendor_opts s c Hs) as [Hl _]. unfold vendor.
       rewrite zlen_app, zlen_zeros; autorewrite with zlen; change (zlen cookie) with 4; lia. }
  change (replicate 64 0) with ([] ++ zeros 64).
  rewrite copy_zeros by done. cbn [mbind outcome_bind app]. change (64 - zlen cookie) with 60.
  assert (Hh : forall pre n, zlen pre + n = 64 -> 0 < n -> zlen pre <= 63 ->
    pre = cookie ++ mjoin (enc_opt <$> match Netmask s with Some bits => [(1, CIDRMask bits)] | None => [] end) ->
    ('(vend, w) ← put_hostname (Hostname c) (pre ++ zeros n) (zlen pre); set_at vend w 255) = Ok (vendor s c)).
  { intros pre n Hn Hpos Hw Hpre. unfold put_hostname. rewrite zlen_app, zlen_zeros, Hn by lia.
    assert (Hw' : match Netmask s with Some _ => 10 | None => 4 end = zlen pre).
    { rewrite Hpre. destruct (Netmask s) as [bits|]; [|done]. rewrite zlen_app. cbn [fmap list_fmap mjoin list_join].
      rewrite app_nil_r, zlen_enc_opt. cbn [snd]. by rewrite Hm. }
    unfold vendor, bootp_opts. rewrite fmap_app, join_app, Hw'.
    set (M := mjoin (enc_opt <$> match Netmask s with Some _ => _ | None => _ end)) in *.
    pose proof (zlen_nonneg pre). assert (HM : zlen pre = zlen cookie + zlen M) by (by rewrite Hpre, zlen_app).
    destruct (negb _ && _) eqn:E; zbool.
    - replace (u8 (zlen (Hostname c))) with (zlen (Hostname c)) by (symmetry; apply Z.mod_small; lia).
      destruct (put_opt 12 (Hostname c) pre n 64) as (v1 & v2 & -> & H1' & Hz & H2'); [lia..|].
      cbn [mbind outcome_bind]. rewrite H1'. cbn [mbind outcome_bind]. rewrite Hz, Hn, H2'.
      cbn [mbind outcome_bind].
      replace (zlen pre + _) with (zlen (pre ++ enc_opt (12, Hostname c))) by (rewrite zlen_app, zlen_enc_opt; done).
      rewrite set_zeros by lia. f_equal. cbn [fmap list_fmap mjoin list_join]. rewrite app_nil_r.
      rewrite !zlen_app, zlen_enc_opt, <- !app_assoc, (app_assoc cookie M), <- Hpre.
      cbn [snd]. do 4 f_equal. change (zlen [255]) with 1. lia.
    - cbn [mbind outcome_bind]. rewrite set_zeros by lia. cbn [fmap list_fmap mjoin list_join]. rewrite app_nil_r.
      rewrite !zlen_app, <- !app_assoc, (app_assoc cookie M), <- Hpre.
      replace (64 - _) with (n - 1); [done|]. change (zlen [255]) with 1. lia. }
  destruct (Netmask s) as [bits|] eqn:Em.
  - specialize (Hm bits eq_refl).
    destruct (put_opt 1 (CIDRMask bits) cookie 60 10) as (v1 & v2 & H1 & H2 & _ & H3);
      [rewrite ?Hm; change (zlen cookie) with 4; lia..|].
    change (zlen cookie) with 4 in H1, H2, H3. rewrite Hm in H2, H3.
    rewrite H1. cbn [mbind outcome_bind]. rewrite H2. cbn [mbind outcome_bind].
    change (4 + 6) with 10. rewrite H3. cbn [mbind outcome_bind].
    assert (Hp : zlen (cookie ++ enc_opt (1, CIDRMask bits)) = 10)
      by (rewrite zlen_app, zlen_enc_opt; cbn [snd]; rewrite Hm; done).
    rewrite <- Hp. apply Hh; rewrite ?Hp; try done.
    cbn [fmap list_fmap mjoin list_join]. by rewrite app_nil_r.
  - cbn [mbind outcome_bind]. change 4 with (zlen cookie). by apply Hh.
Qed.

Ltac part_len Hz :=
  cbn [insert list_insert take mjoin list_join app]; autorewrite with zlen; rewrite ?Hz; lia.

(** Every index and slice of [buildReply] is in range, and the reply it builds
    is the request's transaction, addresses, hardware address and file, with
    the client's and the server's addresses, and the options. *)
Lemma buildReply_layout s req c : plain_server s -> zlen (IP c) = 4 -> 300 <= zlen req ->
  buildReply s req c = Ok (bootp_reply s req c).
Proof.
  intros Hs Hip Hreq. pose proof (server_v4 s Hs) as Hsip. pose proof (zlen_nonneg (Hostname c)).
  assert (Hz : forall lo n, 0 <= lo -> 0 <= n -> lo + n <= 300 -> zlen (sub req lo n) = n)
    by (intros; apply zlen_sub; lia).
  unfold buildReply, packetLen. rewrite slice_sub by lia. change (300 - 0) with 300.
  cbn [mbind outcome_bind].
  rewrite (copy_whole (replicate 300 0)); [|by rewrite Hz|done].
  cbn [mbind outcome_bind]. rewrite sub_parts by done.
  destruct (sub_one req 0) as [b0 ->]; [lia|]. destruct (sub_one req 3) as [b3 ->]; [lia|].
  rewrite (set_part _ 0 b0) by done. cbn [mbind outcome_bind].
  rewrite (set_part _ 2 b3); [|done|part_len Hz]. cbn [mbind outcome_bind].
  rewrite (copy_part _ 4 (sub req 16 4)); [|done|part_len Hz..].
  cbn [mbind outcome_bind].
  rewrite (copy_part _ 5 (sub req 20 4)); [|done|part_len Hz..].
  cbn [mbind outcome_bind].
  rewrite (copy_part _ 7 (sub req 44 64)); [|done|part_len Hz..].
  cbn [mbind outcome_bind insert list_insert].
  destruct (buildVendor_ok s c Hs) as [-> Hv]. cbn [mbind outcome_bind].
  rewrite (copy_part _ 9 (sub req 236 64)); [done|done|part_len Hz..].
Qed.

(** ** The layout of a DHCP reply *)

Definition dhcp_opts (s : Server) (c : Client) (t : Z) : list (Z * bytes) :=
  [(53, [t]); (54, serverID s)] ++
  (if t =? dhcpNak then []
   else [(51, be_enc 4 LeaseSeconds)] ++
        match Netmask s with Some bits => [(1, CIDRMask bits)] | None => [] end ++
        if zlen (Hostname c) =? 0 then [] else [(12, Hostname c)]).

Definition dhcp_header (s : Server) (m : dhcpMsg) (c : Client) (t : Z) : bytes :=
  mjoin [[2]; [1]; [6]; [0]; xid m; zeros 2; flags m;
         if t =? dhcpAck then ciaddr m else zeros 4;
         if t =? dhcpNak then zeros 4 else IP c;
         if t =? dhcpNak then zeros 4 else ServerIP s;
         giaddr m; chaddr m; zeros 192; cookie].

Definition dhcp_reply (s : Server) (m : dhcpMsg) (c : Client) (t : Z) : bytes :=
  let rep := dhcp_header s m c t ++ mjoin (enc_opt <$> dhcp_opts s c t) ++ [255] in
  rep ++ zeros (packetLen - zlen rep).

(** The fields of a message the server keeps have the widths of the header. *)
Record plain_msg (m : dhcpMsg) : Prop := {
  msg_xid : zlen (xid m) = 4;
  msg_flags : zlen (flags m) = 2;
  msg_ciaddr : zlen (ciaddr m) = 4;
  msg_giaddr : zlen (giaddr m) = 4;
  msg_chaddr : zlen (chaddr m) = 16;
}.

Lemma append_opts_enc s c t rep :
  append_opts s c t rep = rep ++ mjoin (enc_opt <$> dhcp_opts s c t).
Proof.
  unfold append_opts. cbv zeta.
  unfold dhcp_opts. rewrite !opt_enc. rewrite !fmap_app, !join_app.
  destruct (t =? dhcpNak); cbn [negb].
  - cbn [fmap list_fmap mjoin list_join]. by rewrite !app_nil_r, <- !app_assoc.
  - destruct (Netmask s), (zlen (Hostname c) =? 0); cbn [negb]; rewrite ?opt_enc;
      cbn [fmap list_fmap mjoin list_join app]; by rewrite ?app_nil_r, <- !app_assoc.
Qed.

Ltac len_of Hz Hc :=
  cbn [insert list_insert take mjoin list_join app]; autorewrite with zlen; rewrite ?Hz, ?Hc by lia; lia.

Lemma buildDHCP_layout s m c t : plain_server s -> plain_msg m -> zlen (IP c) = 4 ->
  buildDHCP s m c t = Ok (dhcp_reply s m c t).
Proof.
  intros Hs [Hx Hf Hci Hgi Hch] Hip. pose proof (server_v4 s Hs) as Hsip.
  assert (Hz : forall n, 0 <= n -> zlen (zeros n) = n) by (intros; by apply zlen_zeros).
  assert (Hc : zlen cookie = 4) by done.
  unfold buildDHCP.
  change (replicate 240 0) with
    (mjoin [[0]; [0]; [0]; [0]; zeros 4; zeros 2; zeros 2; zeros 4; zeros 4; zeros 4; zeros 4; zeros 16;
            zeros 192; zeros 4]).
  rewrite (set_part _ 0 0) by done. cbn [mbind outcome_bind].
  rewrite (set_part _ 1 0) by done. cbn [mbind outcome_bind].
  rewrite (set_part _ 2 0) by done. cbn [mbind outcome_bind].
  rewrite (copy_part _ 4 (zeros 4)); [|done|len_of Hz Hc..]. cbn [mbind outcome_bind].
  rewrite (copy_part _ 6 (zeros 2)); [|done|len_of Hz Hc..]. cbn [mbind outcome_bind].
  transitivity (Ok (let rep := append_opts s c t (dhcp_header s m c t) ++ [255] in
                    rep ++ replicate (Z.to_nat (packetLen - zlen rep)) 0) : outcome Empty_set bytes).
  2: { unfold dhcp_reply. cbv zeta. by rewrite append_opts_enc, <- (app_assoc (dhcp_header s m c t) _ [255]). }
  unfold dhcp_header. destruct (t =? dhcpAck) eqn:Ea.
  - replace (t =? dhcpNak) with false by (unfold dhcpAck, dhcpNak in *; lia). cbn [negb].
    rewrite (copy_part _ 7 (zeros 4)); [|done|len_of Hz Hc..]. cbn [mbind outcome_bind].
    rewrite (copy_part _ 8 (zeros 4)); [|done|len_of Hz Hc..]. cbn [mbind outcome_bind].
    rewrite (copy_part _ 9 (zeros 4)); [|done|len_of Hz Hc..]. cbn [mbind outcome_bind].
    rewrite (copy_part _ 10 (zeros 4)); [|done|len_of Hz Hc..]. cbn [mbind outcome_bind].
    rewrite (copy_part _ 11 (zeros 16)); [|done|len_of Hz Hc..]. cbn [mbind outcome_bind].
    by rewrite (copy_part _ 13 (zeros 4)); [|done|len_of Hz Hc..].
  - cbn [mbind outcome_bind]. destruct (t =? dhcpNak); cbn [negb mbind outcome_bind].
    + rewrite (copy_part _ 10 (zeros 4)); [|done|len_of Hz Hc..]. cbn [mbind outcome_bind].
      rewrite (copy_part _ 11 (zeros 16)); [|done|len_of Hz Hc..]. cbn [mbind outcome_bind].
      by rewrite (copy_part _ 13 (zeros 4)); [|done|len_of Hz Hc..].
    + rewrite (copy_part _ 8 (zeros 4)); [|done|len_of Hz Hc..]. cbn [mbind outcome_bind].
      rewrite (copy_part _ 9 (zeros 4)); [|done|len_of Hz Hc..]. cbn [mbind outcome_bind].
      rewrite (copy_part _ 10 (zeros 4)); [|done|len_of Hz Hc..]. cbn [mbind outcome_bind].
      rewrite (copy_part _ 11 (zeros 16)); [|done|len_of Hz Hc..]. cbn [mbind outcome_bind].
      by rewrite (copy_part _ 13 (zeros 4)); [|done|len_of Hz Hc..].
Qed.

(** ** What a client reads of a reply *)

Definition rep_op (rep : bytes) : bytes := sub rep 0 3.
Definition rep_xid (rep : bytes) : bytes := sub rep 4 4.
Definition yiaddr (rep : bytes) : Addr := sub rep 16 4.
Definition siaddr (rep : bytes) : Addr := sub rep 20 4.
Definition rep_chaddr (rep : bytes) : bytes := sub rep 28 16.
Definition rep_options (rep : bytes) : list (Z * bytes) * ending :=
  if bool_decide (sub rep 236 4 = cookie) then options (length rep) (drop 240 rep) else ([], Truncated).
Definition option_value (code : Z) (rep : bytes) : option bytes :=
  snd <$> head (filter (fun o => fst o = code) (fst (rep_options rep))).

Lemma sub_part (ps : list bytes) (tail b : bytes) k lo n : ps !! k = Some b -> lo = zlen (mjoin (take k ps)) -> n = zlen b ->
  sub (mjoin ps ++ tail) lo n = b.
Proof.
  intros (l1 & l2 & -> & ->)%list_elem_of_split_length -> ->.
  rewrite take_app_length, join_app, mjoin_cons, <- !app_assoc.
  rewrite sub_app_r by lia. rewrite Z.sub_diag. by rewrite sub_app_l.
Qed.

Lemma drop_mjoin ps (tail : bytes) n : Z.of_nat n = zlen (mjoin ps) -> drop n (mjoin ps ++ tail) = tail.
Proof. intros H. rewrite drop_app_length'; [done|]. unfold zlen in H. lia. Qed.

Definition plain_client (c : Client) : Prop := zlen (IP c) = 4 /\ zlen (Hostname c) <= 255.

Lemma length_enc_opts os : (length os <= length (mjoin (enc_opt <$> os)))%nat.
Proof.
  induction os as [|o os IH]; [done|]. rewrite fmap_cons, mjoin_cons, length_app.
  unfold enc_opt at 1. cbn [length app]. lia.
Qed.

Lemma rep_options_enc hdr os k : zlen hdr = 240 -> sub (hdr ++ mjoin (enc_opt <$> os) ++ 255 :: k) 236 4 = cookie ->
  Forall plain_opt os -> rep_options (hdr ++ mjoin (enc_opt <$> os) ++ 255 :: k) = (os, Ended).
Proof.
  intros Hh Hc Hos. unfold rep_options. rewrite Hc, bool_decide_true by done.
  rewrite drop_app_length' by (unfold zlen in Hh; lia). apply options_enc; [done|].
  rewrite !length_app. cbn [length]. pose proof (length_enc_opts os). lia.
Qed.

Lemma dhcp_opts_plain s c t : plain_server s -> plain_client c -> Forall plain_opt (dhcp_opts s c t).
Proof.
  intros Hs [_ Hh]. pose proof (server_id_v4 s Hs).
  assert (Hm : forall bits, Netmask s = Some bits -> zlen (CIDRMask bits) = 4)
    by (intros; by apply zlen_CIDRMask, (server_mask s)).
  unfold dhcp_opts. apply Forall_app. split; [repeat constructor; cbn [fst snd]; change (zlen [t]) with 1; lia|].
  destruct (t =? dhcpNak); [constructor|]. apply Forall_app. split.
  { repeat constructor. cbn [snd]. rewrite zlen_be_enc. lia. }
  apply Forall_app. split.
  - destruct (Netmask s) as [bits|]; [|constructor]. specialize (Hm bits eq_refl).
    repeat constructor; cbn [fst snd]; lia.
  - destruct (_ =? _); repeat constructor; cbn [fst snd]; lia.
Qed.

Lemma parse_option_keeps m code v :
  mac (parse_option m code v) = mac m /\ xid (parse_option m code v) = xid m /\
  flags (parse_option m code v) = flags m /\ ciaddr (parse_option m code v) = ciaddr m /\
  giaddr (parse_option m code v) = giaddr m /\ chaddr (parse_option m code v) = chaddr m.
Proof. unfold parse_option. repeat case_match; done. Qed.

Lemma parse_options_keeps fuel m opts : let m' := fst (parse_options fuel m opts) in
  mac m' = mac m /\ xid m' = xid m /\ flags m' = flags m /\ ciaddr m' = ciaddr m /\
  giaddr m' = giaddr m /\ chaddr m' = chaddr m.
Proof.
  revert m opts. induction fuel as [|fuel IH]; intros m opts; [done|].
  cbn [parse_options]. destruct opts as [|code rest]; [done|].
  destruct (code =? 0); [apply IH|]. destruct (code =? 255); [done|]. destruct (_ || _); [done|].
  match goal with |- context [parse_options fuel (parse_option m code ?v) ?o] =>
    specialize (IH (parse_option m code v) o); pose proof (parse_option_keeps m code v) end.
  cbn zeta in *. intuition congruence.
Qed.

(** What a message the server accepts holds of the request. *)
Lemma parseDHCP_fields req m : parseDHCP req = (m, true) ->
  mac m = sub req 28 6 /\ xid m = sub req 4 4 /\ chaddr m = sub req 28 16 /\ plain_msg m /\ 241 <= zlen req.
Proof.
  unfold parseDHCP. destruct (_ || _ || _ || _ || _) eqn:E; [done|]. zbool. intros Hp.
  pose proof (parse_options_keeps (length (drop 240 req))
    (MkMsg 0 (sub req 28 6) (sub req 4 4) (sub req 10 2) (sub req 12 4) (sub req 24 4) [] [] (sub req 28 16))
    (drop 240 req)) as H'. rewrite Hp in H'. cbn in H'.
  destruct H' as (Hm & Hx & Hf & Hci & Hgi & Hch).
  split_and!; [done..| |lia].
  split; rewrite ?Hx, ?Hf, ?Hci, ?Hgi, ?Hch; apply zlen_sub; lia.
Qed.

(** ** Properties *)

(** The server as the configuration makes it: addresses are IPv4, a mask is a
    prefix length, and host names fit an option. *)
Definition plain_config (s : Server) : Prop := plain_server s /\ Forall plain_client (Clients s).

Lemma lookupClient_Some s mac c : lookupClient s mac = Some c -> c ∈ Clients s /\ MAC c = mac.
Proof.
  unfold lookupClient. intros H. assert (Hin : c ∈ filter (fun c => MAC c = mac) (Clients s)).
  { destruct (filter _ _); [done|]. injection H as ->. by left. }
  apply list_elem_of_filter in Hin as [? ?]. done.
Qed.

Lemma isDHCP_ok req : 300 <= zlen req ->
  isDHCP req = Ok (bool_decide (sub req 236 4 = cookie) &&
    has_type (fst (options (length req - 236) (drop 240 req)))).
Proof.
  intros Hl. unfold isDHCP. rewrite slice_sub by lia. cbn [mbind outcome_bind].
  assert (Hs : sub req 236 (zlen req - 236) = drop 236 req).
  { unfold sub. apply take_ge. rewrite length_drop. unfold zlen. lia. }
  rewrite Hs. assert (Hlen : length (drop 236 req) = (length req - 236)%nat) by apply length_drop.
  rewrite (proj2 (Z.ltb_ge _ 4)) by (unfold zlen in *; lia). cbn [orb].
  change (take 4 (drop 236 req)) with (sub req 236 4).
  destruct (bool_decide _); [|done]. cbn [negb andb]. rewrite isDHCP_options, Hlen, drop_drop. done.
Qed.

Lemma options_fuel f g opts : (length opts <= f)%nat -> (length opts <= g)%nat -> wf_bytes opts ->
  options f opts = options g opts.
Proof.
  revert g opts. induction f as [|f IH]; intros g opts Hf Hg Hwf.
  { destruct opts; [by destruct g|cbn in Hf; lia]. }
  destruct g as [|g]; [destruct opts; [done|cbn in Hg; lia]|]. cbn [options].
  destruct opts as [|code rest]; [done|]. cbn [length] in *.
  destruct (code =? 0); [apply IH; [lia..|by inv Hwf]|]. destruct (code =? 255); [done|].
  destruct (_ || _) eqn:E; [done|]. pose proof (at_range _ 1 Hwf).
  rewrite (IH g); [done|rewrite length_drop; cbn [length]; lia..|by apply Forall_drop].
Qed.

(** What the DHCP server takes for DHCP, the BOOTP server leaves alone. *)
Lemma parseDHCP_isDHCP req m : wf_bytes req -> 300 <= zlen req -> parseDHCP req = (m, true) ->
  isDHCP req = Ok true.
Proof.
  intros Hwf Hl Hp. rewrite isDHCP_ok by done. unfold parseDHCP in Hp.
  destruct (_ || _ || _ || _ || _) eqn:E; [done|]. apply orb_false_iff in E as [_ E].
  apply negb_false_iff in E. rewrite E. cbn [andb]. f_equal.
  rewrite parse_options_fold in Hp by (by apply Forall_drop).
  rewrite (options_fuel _ (length (drop 240 req))) by
    (rewrite ?length_drop; unfold zlen in *; lia || by apply Forall_drop).
  destruct (options _ _) as [os e]. injection Hp as Hm Ht.
  apply andb_true_iff in Ht as [_ Ht]. zbool. cbn [fst]. eapply typed_options; [|exact Ht]. done.
Qed.

Lemma sub_cons_at (l : bytes) i n : 0 <= i -> 0 < n -> i + n <= zlen l ->
  sub l i n = at_ l i :: sub l (i + 1) (n - 1).
Proof.
  intros. unfold sub, at_. rewrite (Z2Nat.inj_add i 1) by lia.
  replace (Z.to_nat n) with (S (Z.to_nat (n - 1))) by lia. rewrite Nat.add_1_r.
  assert (Hi : (Z.to_nat i < length l)%nat) by (unfold zlen in *; lia).
  rewrite (drop_S l (nth (Z.to_nat i) l 0)); [done|].
  destruct (nth_lookup_or_length l (Z.to_nat i) 0); [done|lia].
Qed.

Lemma sub_type (req : bytes) : 241 <= zlen req -> at_ req 1 = 1 -> at_ req 2 = 6 -> sub req 1 2 = [1; 6].
Proof.
  intros Hl H1 H2. rewrite sub_cons_at by lia. change (1 + 1) with 2. change (2 - 1) with 1.
  rewrite sub_cons_at by lia. rewrite H1, H2. by rewrite sub_0.
Qed.

Ltac head_part Hrep Hz k := rewrite Hrep; apply (sub_part _ _ _ k); [done|part_len Hz..].

(** The head of a BOOTP reply. *)
Lemma bootp_reply_head s req c : plain_server s -> plain_client c -> 300 <= zlen req ->
  let rep := bootp_reply s req c in
  rep_xid rep = sub req 4 4 /\ yiaddr rep = IP c /\ siaddr rep = ServerIP s /\
  rep_chaddr rep = sub req 28 16 /\ sub rep 1 2 = sub req 1 2 /\ at_ rep 0 = 2 /\
  sub rep 108 128 = sub req 108 128 /\ sub rep 44 64 = zeros 64 /\ zlen rep = 300 /\
  rep_options rep = (bootp_opts s c, Ended).
Proof.
  intros Hs [Hip _] Hreq. pose proof (server_v4 s Hs) as Hsip. destruct (buildVendor_ok s c Hs) as [_ Hv].
  assert (Hz : forall lo n, 0 <= lo -> 0 <= n -> lo + n <= 300 -> zlen (sub req lo n) = n)
    by (intros; apply zlen_sub; lia).
  intros rep. assert (Hck : zlen cookie = 4) by done.
  assert (Hrep : rep = mjoin [[2]; sub req 1 2; [0]; sub req 4 4; sub req 8 8; IP c; ServerIP s; sub req 24 4;
     sub req 28 16; zeros 64; sub req 108 128; vendor s c] ++ []).
  { unfold rep, bootp_reply. split_sub req 4 4 8. split_sub req 24 4 16.
    cbn [mjoin list_join]. by rewrite !app_nil_r, <- !app_assoc. }
  assert (Hl : zlen rep = 300) by (rewrite Hrep; part_len Hz).
  split_and!; [head_part Hrep Hz 3%nat|head_part Hrep Hz 5%nat|head_part Hrep Hz 6%nat|head_part Hrep Hz 8%nat|
    head_part Hrep Hz 1%nat|by rewrite Hrep|head_part Hrep Hz 10%nat|head_part Hrep Hz 9%nat|done|].
  destruct (zlen_vendor_opts s c Hs) as [Hle Hplain].
  assert (Hsplit : rep = mjoin [[2]; sub req 1 2; [0]; sub req 4 4; sub req 8 8; IP c; ServerIP s; sub req 24 4;
     sub req 28 16; zeros 64; sub req 108 128; cookie] ++ mjoin (enc_opt <$> bootp_opts s c) ++
     255 :: zeros (64 - zlen (cookie ++ mjoin (enc_opt <$> bootp_opts s c) ++ [255]))).
  { rewrite Hrep. unfold vendor. cbn [mjoin list_join]. by rewrite !app_nil_r, <- !app_assoc. }
  rewrite Hsplit. apply rep_options_enc; [|apply (sub_part _ _ _ 11%nat)|done];
    [part_len Hz|done|part_len Hz|done].
Qed.

Ltac dhcp_len Hz :=
  cbn [take mjoin list_join app]; autorewrite with zlen; rewrite ?Hz by lia; lia.

(** The head of a DHCP reply. *)
Lemma dhcp_reply_head s m c t : plain_server s -> plain_client c -> plain_msg m ->
  let rep := dhcp_reply s m c t in
  rep_op rep = [2; 1; 6] /\ rep_xid rep = xid m /\ rep_chaddr rep = chaddr m /\
  yiaddr rep = (if t =? dhcpNak then zeros 4 else IP c) /\
  siaddr rep = (if t =? dhcpNak then zeros 4 else ServerIP s) /\
  300 <= zlen rep /\ rep_options rep = (dhcp_opts s c t, Ended).
Proof.
  intros Hs Hc [Hx Hf Hci Hgi Hch]. pose proof (server_v4 s Hs) as Hsip. pose proof (proj1 Hc) as Hip.
  assert (Hz : forall n, 0 <= n -> zlen (zeros n) = n) by (intros; by apply zlen_zeros).
  intros rep. set (tail := mjoin (enc_opt <$> dhcp_opts s c t) ++ 255 :: zeros (packetLen -
    zlen (dhcp_header s m c t ++ mjoin (enc_opt <$> dhcp_opts s c t) ++ [255]))).
  assert (Hrep : rep = dhcp_header s m c t ++ tail).
  { unfold rep, dhcp_reply, tail. cbv zeta. by rewrite <- !app_assoc. }
  assert (H4 : forall (b : bool) (x y : bytes), zlen x = 4 -> zlen y = 4 -> zlen (if b then x else y) = 4) by (by intros []).
  assert (Ha : zlen (if t =? dhcpAck then ciaddr m else zeros 4) = 4) by (by apply H4).
  assert (Hy : zlen (if t =? dhcpNak then zeros 4 else IP c) = 4) by (by apply H4).
  assert (Hsi : zlen (if t =? dhcpNak then zeros 4 else ServerIP s) = 4) by (by apply H4).
  assert (Hck : zlen cookie = 4) by done.
  assert (Hh : zlen (dhcp_header s m c t) = 240) by (unfold dhcp_header; dhcp_len Hz).
  assert (Hpart : forall k b lo n, [[2]; [1]; [6]; [0]; xid m; zeros 2; flags m;
         if t =? dhcpAck then ciaddr m else zeros 4; if t =? dhcpNak then zeros 4 else IP c;
         if t =? dhcpNak then zeros 4 else ServerIP s; giaddr m; chaddr m; zeros 192; cookie] !! k = Some b ->
     lo = zlen (mjoin (take k [[2]; [1]; [6]; [0]; xid m; zeros 2; flags m;
         if t =? dhcpAck then ciaddr m else zeros 4; if t =? dhcpNak then zeros 4 else IP c;
         if t =? dhcpNak then zeros 4 else ServerIP s; giaddr m; chaddr m; zeros 192; cookie])) -> n = zlen b ->
     sub rep lo n = b).
  { intros k b lo n. rewrite Hrep. unfold dhcp_header. apply sub_part. }
  split_and!.
  - by rewrite Hrep.
  - apply (Hpart 4%nat); [done|dhcp_len Hz..].
  - apply (Hpart 11%nat); [done|dhcp_len Hz..].
  - apply (Hpart 8%nat); [done|dhcp_len Hz..].
  - apply (Hpart 9%nat); [done|dhcp_len Hz..].
  - unfold rep, dhcp_reply. cbv zeta. rewrite zlen_app, zlen_replicate. unfold packetLen. lia.
  - rewrite Hrep. apply rep_options_enc; [done| |by apply dhcp_opts_plain].
    change (_ ++ mjoin _ ++ _) with (dhcp_header s m c t ++ tail). rewrite <- Hrep.
    apply (Hpart 13%nat); [done|dhcp_len Hz..].
Qed.

(** With DHCP off, a message a DHCP server would read draws no reply, so a DHCP
    service on the same network can own port 67. *)
Theorem dhcp_left_alone s req src m : wf_bytes req -> DHCP s = false ->
  parseDHCP req = (m, true) -> Serve s req src = Ok None.
Proof.
  intros Hwf Hoff Hp. unfold Serve. rewrite Hp, Hoff. cbn [andb]. unfold serveBOOTP.
  destruct (zlen req <? packetLen) eqn:E; [done|]. zbool. unfold packetLen in E.
  unfold parseRequest. destruct (_ || _ || _ || _); [done|].
  by rewrite (parseDHCP_isDHCP req m) by done.
Qed.

(** What a reply tells the machine it is for. *)
Definition replies_to (s : Server) (req rep : bytes) : Prop :=
  exists c, c ∈ Clients s /\ MAC c = sub req 28 6 /\
    rep_op rep = [2; 1; 6] /\ rep_xid rep = sub req 4 4 /\ rep_chaddr rep = sub req 28 16 /\
    (yiaddr rep = IP c /\ siaddr rep = ServerIP s \/
     option_value 53 rep = Some [dhcpNak] /\ yiaddr rep = [0; 0; 0; 0]) /\
    300 <= zlen rep.

Lemma serveDHCP_ok s req m : plain_config s -> parseDHCP req = (m, true) ->
  exists r, serveDHCP s m = Ok r /\ forall rep dst, r = Some (rep, dst) -> replies_to s req rep.
Proof.
  intros [Hs Hcs] Hp. destruct (parseDHCP_fields _ _ Hp) as (Hmac & Hx & Hch & Hm & _).
  unfold serveDHCP. destruct (lookupClient s (mac m)) as [c|] eqn:E; [|by eexists].
  destruct (lookupClient_Some _ _ _ E) as [Hin Hc].
  assert (Hcl : plain_client c) by (rewrite Forall_forall in Hcs; auto).
  destruct (_ =? 0) eqn:E0; [by eexists|]. rewrite buildDHCP_layout by (done || apply Hcl).
  cbn [mbind outcome_bind]. eexists. split; [done|]. intros rep dst [= <- <-].
  destruct (dhcp_reply_head s m c (dhcpAnswer s m c) Hs Hcl Hm) as (Ho & Hrx & Hrc & Hy & Hsi & Hl & Hopts).
  exists c. split_and!; try done; [by rewrite Hc|by rewrite Hrx|by rewrite Hrc| ].
  rewrite Hy, Hsi. destruct (dhcpAnswer s m c =? dhcpNak) eqn:En; [right|by left]. zbool.
  unfold option_value. rewrite Hopts, En. done.
Qed.

Lemma serveBOOTP_ok s req src : plain_config s -> wf_bytes req ->
  exists r, serveBOOTP s req src = Ok r /\ forall rep dst, r = Some (rep, dst) -> replies_to s req rep.
Proof.
  intros [Hs Hcs] Hwf. unfold serveBOOTP.
  destruct (zlen req <? packetLen) eqn:E; [by eexists|]. zbool. unfold packetLen in E.
  unfold parseRequest. destruct (_ || _ || _ || _) eqn:Eh; [by eexists|].
  apply orb_false_iff in Eh as [[[_ Eh0]%orb_false_iff Eh1]%orb_false_iff Eh2].
  rewrite isDHCP_ok by done. cbn [mbind outcome_bind]. destruct (bool_decide _ && _); [by eexists|].
  rewrite !slice_sub by lia. cbn [mbind outcome_bind]. change (34 - 28) with 6.
  destruct (lookupClient s (sub req 28 6)) as [c|] eqn:El; [|by eexists].
  destruct (lookupClient_Some _ _ _ El) as [Hin Hc].
  assert (Hcl : plain_client c) by (rewrite Forall_forall in Hcs; auto).
  rewrite buildReply_layout by (done || apply Hcl). cbn [mbind outcome_bind].
  eexists. split; [done|]. intros rep dst [= <- <-].
  destruct (bootp_reply_head s req c Hs Hcl E) as (Hx & Hy & Hsi & Hch & Ht & H0 & _ & _ & Hl & _).
  exists c. split_and!; try done; [|left; done|lia].
  unfold rep_op. rewrite sub_cons_at by lia. rewrite H0. change (0 + 1) with 1. change (3 - 1) with 2.
  rewrite Ht. zbool. rewrite sub_type by lia. done.
Qed.

Lemma Serve_replies s req src : plain_config s -> wf_bytes req ->
  exists r, Serve s req src = Ok r /\ forall rep dst, r = Some (rep, dst) -> replies_to s req rep.
Proof.
  intros Hs Hwf. unfold Serve. destruct (parseDHCP req) as [m ok] eqn:Hp.
  destruct (DHCP s && ok) eqn:E; [|by apply serveBOOTP_ok].
  apply andb_true_iff in E as [_ ->]. by apply serveDHCP_ok.
Qed.

(** Whatever datagram arrives, [Serve] does not panic; and what it sends, if
    anything, goes to a configured machine: the one whose hardware address the
    request carries, with the request's transaction, giving that machine's
    address and no other, or refusing it one. *)
Theorem Serve_answers s req src : plain_config s -> wf_bytes req ->
  exists r, Serve s req src = Ok r /\ forall rep dst, r = Some (rep, dst) -> replies_to s req rep.
Proof. apply Serve_replies. Qed.

(** A BOOTP request of a configured machine is answered in a packet of 300
    bytes that echoes the boot file it asked for, names the server, and carries
    the subnet mask and a host name that fits as options; it goes back to a
    machine that has an address, and is broadcast to one that has none. *)
Theorem bootp_answer s req src c : plain_config s -> wf_bytes req -> 300 <= zlen req ->
  sub req 0 3 = [1; 1; 6] -> isDHCP req = Ok false -> lookupClient s (sub req 28 6) = Some c ->
  exists rep, Serve s req src = Ok (Some (rep, reply_to s src)) /\
    zlen rep = 300 /\ yiaddr rep = IP c /\ siaddr rep = ServerIP s /\
    sub rep 108 128 = sub req 108 128 /\ sub rep 44 64 = replicate 64 0 /\
    rep_options rep = (bootp_opts s c, Ended).
Proof.
  intros [Hs Hcs] Hwf Hl Hop Hd Hc. unfold Serve.
  destruct (parseDHCP req) as [m ok] eqn:Hp.
  assert (ok = false) as -> .
  { destruct ok; [|done]. rewrite (parseDHCP_isDHCP req m) in Hd by done. done. }
  rewrite andb_false_r. unfold serveBOOTP. rewrite (proj2 (Z.ltb_ge _ packetLen)) by done.
  rewrite !sub_cons_at in Hop by lia. change (0 + 1 + 1) with 2 in Hop. change (0 + 1) with 1 in Hop.
  injection Hop as H0 H1 H2. unfold parseRequest.
  rewrite H0, H1, H2, (proj2 (Z.ltb_ge _ packetLen)) by done. cbn [orb negb Z.eqb Pos.eqb].
  rewrite Hd. cbn [mbind outcome_bind]. rewrite !slice_sub by lia. cbn [mbind outcome_bind].
  change (34 - 28) with 6. rewrite Hc. destruct (lookupClient_Some _ _ _ Hc) as [Hin _].
  assert (Hcl : plain_client c) by (rewrite Forall_forall in Hcs; auto).
  rewrite buildReply_layout by (done || apply Hcl). cbn [mbind outcome_bind].
  eexists. split; [done|].
  destruct (bootp_reply_head s req c Hs Hcl Hl) as (Hx & Hy & Hsi & Hch & Ht & _ & Hf & Hsn & Hz & Ho).
  done.
Qed.

(** A DHCP REQUEST of a configured machine, not for another server, that asks for
    an address: if it is the machine's own the reply is an ACK that gives it, for
    the lease of a year, sent straight to a machine that renews it; for any other
    address it is a broadcast NAK that gives none. *)
Theorem request_answer s req src m c want : plain_config s -> DHCP s = true ->
  ReplyAddr s = None -> parseDHCP req = (m, true) -> lookupClient s (sub req 28 6) = Some c ->
  typ m = dhcpRequest -> (m_serverID m = [] \/ m_serverID m = serverID s) ->
  want <> [] -> (requested m = want \/ requested m = [] /\ ciaddr m = want /\ IsUnspecified want = false) ->
  exists rep dst, Serve s req src = Ok (Some (rep, dst)) /\
    if bool_decide (want = IP c) then
      option_value 53 rep = Some [dhcpAck] /\ yiaddr rep = IP c /\
      option_value 51 rep = Some (be_enc 4 LeaseSeconds) /\
      dst = UDPAddr (if IsUnspecified (ciaddr m) then IPv4bcast else ciaddr m) 68
    else
      option_value 53 rep = Some [dhcpNak] /\ yiaddr rep = [0; 0; 0; 0] /\
      dst = UDPAddr IPv4bcast 68.
Proof.
  intros [Hs Hcs] Hon Hra Hp Hc Ht Hsid Hwant Hreq.
  destruct (parseDHCP_fields _ _ Hp) as (Hmac & _ & _ & Hm & _).
  unfold Serve. rewrite Hp, Hon. cbn [andb]. unfold serveDHCP. rewrite Hmac, Hc.
  destruct (lookupClient_Some _ _ _ Hc) as [Hin _].
  assert (Hcl : plain_client c) by (rewrite Forall_forall in Hcs; auto).
  assert (Hv : forall a : Addr, a <> [] -> IsValid a = true).
  { intros [|x a] Ha; [done|]. unfold IsValid. rewrite zlen_cons. pose proof (zlen_nonneg a).
    apply negb_true_iff, Z.eqb_neq. lia. }
  assert (Ha : dhcpAnswer s m c = if bool_decide (want = IP c) then dhcpAck else dhcpNak).
  { unfold dhcpAnswer. rewrite Ht. change (dhcpRequest =? dhcpDiscover) with false.
    change (dhcpRequest =? dhcpRequest) with true. cbn iota.
    replace (IsValid (m_serverID m) && _) with false.
    2: { destruct Hsid as [-> | ->]; [done|]. by rewrite bool_decide_true, andb_false_r. }
    replace (if negb (IsValid (requested m)) && _ then _ else _) with want.
    2: { destruct Hreq as [Hr|(Hr & Hci & Hu)]; rewrite Hr; [by rewrite (Hv want Hwant)|].
         rewrite Hci, Hu. done. }
    by rewrite (Hv want Hwant). }
  rewrite Ha, Hra.
  replace ((if bool_decide (want = IP c) then dhcpAck else dhcpNak) =? 0) with false by by case_bool_decide.
  rewrite buildDHCP_layout by (done || apply Hcl). cbn [mbind outcome_bind].
  eexists _, _. split; [done|].
  destruct (dhcp_reply_head s m c (if bool_decide (want = IP c) then dhcpAck else dhcpNak) Hs Hcl Hm)
    as (_ & _ & _ & Hy & _ & _ & Ho).
  unfold option_value. rewrite Ho, Hy. case_bool_decide; [|done].
  split_and!; try done. change (dhcpAck =? dhcpAck) with true. cbn [andb].
  by destruct (IsUnspecified (ciaddr m)).
Qed.

(** C38. Getting an address by DHCP: a configured machine that sends DISCOVER is
    offered its address, and when it sends a REQUEST for the address and server
    identifier it read in the OFFER, it gets an ACK for that address. *)
Theorem dhcp_handshake s discover src m c : plain_config s -> DHCP s = true ->
  parseDHCP discover = (m, true) -> typ m = dhcpDiscover -> lookupClient s (sub discover 28 6) = Some c ->
  exists offer dst, Serve s discover src = Ok (Some (offer, dst)) /\
    option_value 53 offer = Some [dhcpOffer] /\ yiaddr offer = IP c /\
    forall request m2 sid, parseDHCP request = (m2, true) -> typ m2 = dhcpRequest ->
      sub request 28 6 = sub discover 28 6 ->
      requested m2 = yiaddr offer -> option_value 54 offer = Some sid -> m_serverID m2 = sid ->
      exists ack dst2, Serve s request src = Ok (Some (ack, dst2)) /\
        option_value 53 ack = Some [dhcpAck] /\ yiaddr ack = yiaddr offer.
Proof.
  intros [Hs Hcs] Hon Hp Ht Hc. destruct (parseDHCP_fields _ _ Hp) as (Hmac & _ & _ & Hm & _).
  destruct (lookupClient_Some _ _ _ Hc) as [Hin _].
  assert (Hcl : plain_client c) by (rewrite Forall_forall in Hcs; auto).
  unfold Serve at 1. rewrite Hp, Hon. cbn [andb]. unfold serveDHCP. rewrite Hmac, Hc.
  unfold dhcpAnswer at 1. rewrite Ht. change (dhcpDiscover =? dhcpDiscover) with true. cbn iota.
  replace (dhcpAnswer s m c) with dhcpOffer by (unfold dhcpAnswer; by rewrite Ht).
  change (dhcpOffer =? 0) with false. cbn iota.
  rewrite buildDHCP_layout by (done || apply Hcl). cbn [mbind outcome_bind].
  eexists _, _. split; [done|].
  destruct (dhcp_reply_head s m c dhcpOffer Hs Hcl Hm) as (_ & _ & _ & Hy & _ & _ & Ho).
  split; [unfold option_value; by rewrite Ho|]. rewrite Hy. split; [done|].
  intros request m2 sid Hp2 Ht2 Hmac2 Hr2 Hsid Hms.
  unfold option_value in Hsid. rewrite Ho in Hsid. injection Hsid as Hsid.
  destruct (parseDHCP_fields _ _ Hp2) as (Hm2 & _ & _ & Hpm2 & _).
  unfold Serve. rewrite Hp2, Hon. cbn [andb]. unfold serveDHCP. rewrite Hm2, Hmac2, Hc.
  change (dhcpOffer =? dhcpNak) with false in Hr2. cbn iota in Hr2.
  replace (dhcpAnswer s m2 c) with dhcpAck.
  2: { unfold dhcpAnswer. rewrite Ht2, Hr2, Hms, <- Hsid, bool_decide_true, andb_false_r by done.
       assert (Hv : IsValid (IP c) = true) by (unfold IsValid; by rewrite (proj1 Hcl)).
       rewrite !Hv. cbn [negb andb]. rewrite Hv. by rewrite bool_decide_true. }
  change (dhcpAck =? 0) with false. cbn iota.
  rewrite buildDHCP_layout by (done || apply Hcl). cbn [mbind outcome_bind].
  eexists _, _. split; [done|].
  destruct (dhcp_reply_head s m2 c dhcpAck Hs Hcl Hpm2) as (_ & _ & _ & Hy2 & _ & _ & Ho2).
  split; [unfold option_value; by rewrite Ho2|]. by rewrite Hy2.
Qed.

(** ** The theorems at work: an Indy at 08:00:69:01:02:03 *)

Definition ex_mac : bytes := [8; 0; 0x69; 1; 2; 3].
Definition ex_client : Client := MkClient (str "indy") ex_mac [192; 168; 1; 5] (str "indy").
Definition ex_server (on : bool) : Server :=
  MkServer [192; 168; 1; 1] (Some 24) [ex_client] [] on None.

Definition ex_request (opts : bytes) : bytes :=
  [1; 1; 6; 0; 1; 2; 3; 4] ++ zeros 20 ++ ex_mac ++ zeros 74 ++ str "/unix" ++ zeros 123 ++ opts.
Definition ex_bootp : bytes := ex_request (zeros 64).
Definition ex_discover : bytes := ex_request (cookie ++ [53; 1; 1; 255] ++ zeros 56).
Definition ex_select : bytes :=
  ex_request (cookie ++ [53; 1; 3; 50; 4; 192; 168; 1; 5; 54; 4; 192; 168; 1; 1; 255] ++ zeros 44).

Lemma ex_config on : plain_config (ex_server on).
Proof.
  split; [split; [done..|]; by intros bits [= <-]|]. repeat constructor; done.
Qed.

Lemma ex_wf req : bool_decide (wf_bytes req) = true -> wf_bytes req.
Proof. apply bool_decide_eq_true_1. Qed.

Lemma dhcp_left_alone_witness : Serve (ex_server false) ex_discover (OtherAddr 0) = Ok None.
Proof.
  apply (dhcp_left_alone _ _ _ (fst (parseDHCP ex_discover))); [apply ex_wf; by vm_compute|done|by vm_compute].
Defined.

Lemma Serve_answers_witness :
  exists rep dst, Serve (ex_server false) ex_bootp (UDPAddr [0; 0; 0; 0] 1234) = Ok (Some (rep, dst)) /\
    replies_to (ex_server false) ex_bootp rep.
Proof.
  destruct (Serve_answers (ex_server false) ex_bootp (UDPAddr [0; 0; 0; 0] 1234) (ex_config false)
    ltac:(apply ex_wf; by vm_compute)) as ([[rep dst]|] & Hr & H).
  - exists rep, dst. split; [exact Hr|by eapply H].
  - exfalso. vm_compute in Hr. discriminate.
Defined.

Lemma bootp_answer_witness :
  exists rep, Serve (ex_server true) ex_bootp (UDPAddr [0; 0; 0; 0] 1234) =
    Ok (Some (rep, UDPAddr IPv4bcast 1234)) /\ yiaddr rep = [192; 168; 1; 5] /\
    rep_options rep = ([(1, [255; 255; 255; 0]); (12, str "indy")], Ended).
Proof.
  destruct (bootp_answer (ex_server true) ex_bootp (UDPAddr [0; 0; 0; 0] 1234) ex_client (ex_config true))
    as (rep & Hr & _ & Hy & _ & _ & _ & Ho).
  - apply ex_wf. by vm_compute.
  - by vm_compute.
  - by vm_compute.
  - by vm_compute.
  - by vm_compute.
  - exists rep. split; [exact Hr|]. split; [exact Hy|]. rewrite Ho. by vm_compute.
Defined.

Lemma request_answer_witness :
  exists rep dst, Serve (ex_server true) ex_select (OtherAddr 0) = Ok (Some (rep, dst)) /\
    option_value 53 rep = Some [dhcpAck].
Proof.
  destruct (request_answer (ex_server true) ex_select (OtherAddr 0) (fst (parseDHCP ex_select)) ex_client
    [192; 168; 1; 5] (ex_config true)) as (rep & dst & Hr & H).
  - done.
  - done.
  - by vm_compute.
  - by vm_compute.
  - by vm_compute.
  - right. by vm_compute.
  - done.
  - left. by vm_compute.
  - exists rep, dst. split; [exact Hr|]. rewrite bool_decide_true in H by done. apply H.
Defined.

Lemma dhcp_handshake_witness :
  exists offer dst ack dst2,
    Serve (ex_server true) ex_discover (OtherAddr 0) = Ok (Some (offer, dst)) /\
    Serve (ex_server true) ex_select (OtherAddr 0) = Ok (Some (ack, dst2)) /\
    option_value 53 ack = Some [dhcpAck] /\ yiaddr ack = yiaddr offer.
Proof.
  destruct (dhcp_handshake (ex_server true) ex_discover (OtherAddr 0) (fst (parseDHCP ex_discover)) ex_client
    (ex_config true)) as (offer & dst & Hr & Ht & Hy & H).
  - done.
  - by vm_compute.
  - by vm_compute.
  - by vm_compute.
  - assert (Hsid : option_value 54 offer = Some [192; 168; 1; 1]).
    { vm_compute in Hr. injection Hr as <- _. by vm_compute. }
    destruct (H ex_select (fst (parseDHCP ex_select)) [192; 168; 1; 1]) as (ack & dst2 & Hr2 & Ha & Hya).
    + by vm_compute.
    + by vm_compute.
    + by vm_compute.
    + rewrite Hy. by vm_compute.
    + exact Hsid.
    + by vm_compute.
    + exists offer, dst, ack, dst2. exact (conj Hr (conj Hr2 (conj Ha Hya))).
Defined.
