(* ===== verification/Tftp.v ===== *)
(** The TFTP server ([internal/tftp/tftp.go]): reading a request, negotiating
    options, and one transfer, lock-step, block by block.

    A transfer talks to the network through a socket. The network is an
    automaton of any kind: it is given each packet sent, may refuse it (a send
    that fails), and puts what it likes in the socket's inbox: datagrams from any
    address, and the ends of read deadlines among them. A read from an empty
    inbox is a deadline that passes. Goroutines, the mutex, logging and the
    capture of the record are left out; the record itself is computed. *)
From S2P Require Import Prelude Netip Text.

Definition opRRQ : Z := 1.
Definition opWRQ : Z := 2.
Definition opDATA : Z := 3.
Definition opACK : Z := 4.
Definition opERROR : Z := 5.
Definition opOACK : Z := 6.
Definition blockSize : Z := 512.
Definition minOptBlockSize : Z := 8.
Definition maxOptBlockSize : Z := 65464.

Definition errNotDefined : Z := 0.
Definition errFileNotFound : Z := 1.
Definition errAccessViolation : Z := 2.

(** ** Requests *)

(** [strings.ToLower]: letter by letter on ASCII, and by the Unicode tables
    otherwise, which are left open. *)
Definition lower_ascii (c : Z) : Z := if in_range 65 90 c then c + 32 else c.
Definition ToLower (unicode : bytes -> bytes) (s : bytes) : bytes :=
  if forallb (fun c => c <? 0x80) s then lower_ascii <$> s else unicode s.

Inductive rrq_err := NoFilename | NoMode.

Section requests.
Context (unicode : bytes -> bytes).

(** The file name, the mode and the bytes after it. *)
Definition parseRRQ (pkt : bytes) : outcome rrq_err (bytes * bytes * bytes) :=
  body ← slice pkt 2 (zlen pkt);
  match cut 0 body with
  | (_, None) => Err NoFilename
  | (file, Some rest) =>
      match cut 0 rest with
      | (_, None) => Err NoMode
      | (mode, Some trailing) => Ok (file, ToLower unicode mode, trailing)
      end
  end.

Definition isPrintableASCII (b : bytes) : bool := forallb (in_range 0x20 0x7e) b.

(** The loop of [parseOptions] over the fields, two at a time. *)
Fixpoint option_pairs (fields : list bytes) (opts : gmap bytes bytes) : option (gmap bytes bytes) :=
  match fields with
  | name :: val :: fields =>
      if (zlen name =? 0) || (zlen val =? 0) || negb (isPrintableASCII name) || negb (isPrintableASCII val)
      then None
      else option_pairs fields (<[ToLower unicode name := val]> opts)
  | _ => Some opts
  end.

(** [None] is what does not parse as options. *)
Definition parseOptions (trailing : bytes) : option (gmap bytes bytes) :=
  if zlen trailing =? 0 then Some ∅
  else
    let fields := split_byte 0 trailing in
    if (zlen fields <? 3) || negb (bool_decide (last fields = Some [])) then None
    else
      let fields := take (length fields - 1) fields in
      if negb (zlen fields mod 2 =? 0) then None else option_pairs fields ∅.
End requests.

(** ** Option negotiation *)

Definition Second : Z := 1000000000.
Definition Millisecond : Z := 1000000.

Definition opt_text (name : string) (n : Z) : bytes := str name ++ [0] ++ dec n ++ [0].

(** A requested value out of RFC 2348's range is clamped. *)
Definition clamp (n : Z) : Z :=
  if n <? minOptBlockSize then minOptBlockSize else if maxOptBlockSize <? n then maxOptBlockSize else n.

(** The OACK to send, if any option was accepted, the block size and the
    timeout. *)
Definition negotiateOptions (opts : gmap bytes bytes) (fileSize defaultBlockSize defaultTimeout : Z) :
    option bytes * Z * Z :=
  if bool_decide (opts = ∅) then (None, defaultBlockSize, defaultTimeout)
  else
    let '(b1, blkSize, a1) :=
      match opts !! str "blksize" with
      | Some v => match Atoi v with
                  | Ok n => (opt_text "blksize" (clamp n), clamp n, true)
                  | _ => ([], defaultBlockSize, false)
                  end
      | None => ([], defaultBlockSize, false)
      end in
    let '(b2, timeout, a2) :=
      match opts !! str "timeout" with
      | Some v => match Atoi v with
                  | Ok n => if (1 <=? n) && (n <=? 255) then (opt_text "timeout" n, n * Second, true)
                            else ([], defaultTimeout, false)
                  | _ => ([], defaultTimeout, false)
                  end
      | None => ([], defaultTimeout, false)
      end in
    let '(b3, a3) :=
      match opts !! str "tsize" with
      | Some _ => (opt_text "tsize" fileSize, true)
      | None => ([], false)
      end in
    if negb (a1 || a2 || a3) then (None, defaultBlockSize, defaultTimeout)
    else (Some (be_enc 2 opOACK ++ b1 ++ b2 ++ b3), blkSize, timeout).

(** ** The socket *)

Inductive Addr := UDPAddr (IP : bytes) (Port : Z) | OtherAddr (tag : Z).

Inductive event :=
| Packet (from : Addr) (data : bytes)
| ReadError.

(** An [AddrPort] with the address unmapped. *)
Definition AddrPort (ip : bytes) (port : Z) : bytes * Z := (Unmap (AddrFromSlice ip), port).

Section transfer.
Context {P : Type} (peer : P -> bytes -> bool * list event * P).

Record net := MkNet {
  inbox : list event;
  network : P;
  sent : list bytes;      (* every packet handed to the network, in order *)
  deadlines : list Z;     (* every read deadline set *)
}.

Definition WriteTo (pkt : bytes) (n : net) : bool * net :=
  let '(ok, evs, p) := peer (network n) pkt in
  (ok, MkNet (inbox n ++ evs) p (sent n ++ [pkt]) (deadlines n)).

Definition SetReadDeadline (t : Z) (n : net) : net :=
  MkNet (inbox n) (network n) (sent n) (deadlines n ++ [t]).

Definition error_packet (code : Z) (msg : bytes) : bytes :=
  be_enc 2 opERROR ++ be_enc 2 code ++ msg ++ [0].

(** [sendError] drops the error of the send. *)
Definition sendError (code : Z) (msg : bytes) (n : net) : net := snd (WriteTo (error_packet code msg) n).

(** ** Sending one packet *)

Inductive waited := GotAck | TimedOut | GotError.

(** The read loop: skip what is not an ACK of the block, from the client. *)
Fixpoint wait_ack (client : bytes * Z) (wantBlock : Z) (inbox : list event) : waited * list event :=
  match inbox with
  | [] => (TimedOut, [])
  | ReadError :: inbox => (TimedOut, inbox)
  | Packet from data :: inbox =>
      match from with
      | OtherAddr _ => wait_ack client wantBlock inbox
      | UDPAddr ip port =>
          let ackbuf := take 1500 data in
          if negb (bool_decide (AddrPort ip port = client)) then wait_ack client wantBlock inbox
          else if zlen ackbuf <? 4 then wait_ack client wantBlock inbox
          else
            let op := get_u16 ackbuf 0 in
            if op =? opACK then
              if get_u16 ackbuf 2 =? wantBlock then (GotAck, inbox) else wait_ack client wantBlock inbox
            else if op =? opERROR then (GotError, inbox)
            else wait_ack client wantBlock inbox
      end
  end.

(** [acked], [aborted] and [resends]. *)
Definition ack_result : Type := bool * bool * Z.

Fixpoint send_attempts (client : bytes * Z) (pkt : bytes) (wantBlock timeout retries : Z)
    (tries : nat) (attempt : Z) (n : net) : ack_result * net :=
  match tries with
  | O => ((false, false, retries), n)
  | S tries =>
      let '(ok, n) := WriteTo pkt n in
      if negb ok then ((false, true, attempt), n)
      else
        let n := SetReadDeadline timeout n in
        let '(w, rest) := wait_ack client wantBlock (inbox n) in
        let n := MkNet rest (network n) (sent n) (deadlines n) in
        match w with
        | GotAck => ((true, false, attempt), n)
        | GotError => ((false, true, attempt), n)
        | TimedOut => send_attempts client pkt wantBlock timeout retries tries (attempt + 1) n
        end
  end.

Definition sendAndWaitAck (client : bytes * Z) (pkt : bytes) (wantBlock timeout retries : Z) (n : net) :
    ack_result * net :=
  send_attempts client pkt wantBlock timeout retries (Z.to_nat (retries + 1)) 0 n.

(** ** A transfer *)

Record Server := MkServer {
  AllowIP : option (bytes -> bool);
  PortMin : Z;
  PortMax : Z;
  RetryInterval : Z;
  Retries : Z;
  FinalRetries : Z;
  FinalTimeout : Z;
}.

Record File := MkFile { ReadAt : ReaderAt; Size : Z }.

(** Zero means the default. *)
Definition or_default (n d : Z) : Z := if n =? 0 then d else n.

Definition retryPolicy (s : Server) : Z * Z * Z * Z :=
  (or_default (RetryInterval s) Second, or_default (Retries s) 5,
   or_default (FinalRetries s) 1, or_default (FinalTimeout s) (300 * Millisecond)).

(** [listenTransfer]: the port it binds, where [free] says which can be bound. *)
Definition listenTransfer (s : Server) (free : Z -> bool) : option Z :=
  if (PortMin s =? 0) && (PortMax s =? 0) then if free 0 then Some 0 else None
  else head (filter (fun p => free p = true) (seqZ (PortMin s) (PortMax s - PortMin s + 1))).

Inductive result := RError | NotFound | RAborted | GaveUp | ROk | UnackedFinal.

#[export] Instance result_eq_dec : EqDecision result.
Proof. solve_decision. Defined.

(** What is recorded of a transfer. *)
Record Transfer := MkTransfer {
  t_Size : Z;
  t_BlockSize : Z;
  blocksSent : Z;
  bytesSent : Z;
  bytesAcked : Z;
  resendTotal : Z;
  t_result : result;
}.

(** [f.ReadAt(data[4:4+want], off)], over what the buffer held: the buffer, and
    whether the read failed with other than [io.EOF]. *)
Definition read_block (f : File) (buf : bytes) (want off : Z) : bytes * bool :=
  if 0 <? want then
    let '(d, err) := ReadAt f off want in
    let d := take (Z.to_nat want) d in
    (d ++ drop (length d) buf, match err with None | Some EOF => false | Some _ => true end)
  else (buf, false).

Definition want_at (size bs off : Z) : Z := Z.max 0 (Z.min bs (size - off)).

Definition data_packet (block : Z) (payload : bytes) : bytes :=
  be_enc 2 opDATA ++ be_enc 2 block ++ payload.

(** The [for] loop of [serveFile]: [retry] and [retries] for the blocks, and
    [final] for the last one. *)
Fixpoint send_blocks (fuel : nat) (client : bytes * Z) (f : File) (bs : Z) (policy final : Z * Z)
    (off block : Z) (buf : bytes) (t : Transfer) (n : net) : option (Transfer * net) :=
  match fuel with
  | O => None
  | S fuel =>
      let want := want_at (Size f) bs off in
      let '(buf, failed) := read_block f buf want off in
      if (failed : bool) then Some (t, sendError errNotDefined (str "read error") n)
      else
        let pkt := data_packet block (take (Z.to_nat want) buf) in
        let isFinal := want <? bs in
        let '(timeout, retries) := if isFinal then final else policy in
        let '((acked, aborted, resends), n) := sendAndWaitAck client pkt block timeout retries n in
        let t r := MkTransfer (t_Size t) (t_BlockSize t) (blocksSent t + 1) (bytesSent t + want)
                     (if (acked : bool) then bytesAcked t + want else bytesAcked t)
                     (resendTotal t + resends) r in
        if (aborted : bool) then Some (t RAborted, n)
        else if isFinal then Some (t (if acked then ROk else UnackedFinal), n)
        else if negb acked then Some (t GaveUp, n)
        else send_blocks fuel client f bs policy final (off + bs) (u16 (block + 1)) buf (t RError) n
  end.

(** Enough for every block; see [serveFile_total]. *)
Definition block_fuel (size bs : Z) : nat := Z.to_nat (Z.max 0 size / bs + 2).

(** [strings.TrimPrefix(name, "/")]. *)
Definition trim_slash (name : bytes) : bytes :=
  match name with c :: rest => if c =? slash then rest else name | [] => name end.

(** The file system: a file, or an error, which may be [ErrNotFound] and has a
    text. *)
Definition FileSystem : Type := bytes -> File + bool * bytes.

Definition no_transfer (r : result) : Transfer := MkTransfer 0 blockSize 0 0 0 0 r.

Definition serveFile (s : Server) (FS : FileSystem) (free : Z -> bool) (ip : bytes) (port : Z)
    (name : bytes) (opts : gmap bytes bytes) (n : net) : option (Transfer * net) :=
  match FS (trim_slash name) with
  | inr (notFound, msg) =>
      match listenTransfer s free with
      | None => Some (no_transfer RError, n)
      | Some _ =>
          let code := if (notFound : bool) then errFileNotFound else errNotDefined in
          Some (no_transfer (if notFound then NotFound else RError), sendError code msg n)
      end
  | inl f =>
      match listenTransfer s free with
      | None => Some (no_transfer RError, n)
      | Some _ =>
          let '(retry, retries, finalRetries, finalTimeout) := retryPolicy s in
          let size := Size f in
          let '(oack, bs, retry) := negotiateOptions opts size blockSize retry in
          let finalTimeout := if retry <? finalTimeout then retry else finalTimeout in
          let client := AddrPort ip port in
          let t resends r := MkTransfer size bs 0 0 0 resends r in
          let blocks resends n :=
            send_blocks (block_fuel size bs) client f bs (retry, retries) (finalTimeout, finalRetries)
              0 1 (replicate (Z.to_nat bs) 0) (t resends RError) n in
          match oack with
          | None => blocks 0 n
          | Some oack =>
              let '((acked, aborted, resends), n) := sendAndWaitAck client oack 0 retry retries n in
              if (aborted : bool) then Some (t resends RAborted, n)
              else if negb acked then Some (t resends GaveUp, n)
              else blocks resends n
          end
      end
  end.

(** [handle]: one datagram on the request port. [reply] is that socket, [xfer]
    the transfer's. *)
Definition handle (unicode : bytes -> bytes) (s : Server) (FS : FileSystem) (free : Z -> bool) (addr : Addr) (pkt : bytes)
    (reply xfer : net) : outcome rrq_err (option Transfer * net * net) :=
  let ignored := Ok (None, reply, xfer) in
  let refuse code msg := Ok (None, sendError code msg reply, xfer) in
  if zlen pkt <? 2 then ignored
  else
    match addr with
    | OtherAddr _ => ignored
    | UDPAddr ip port =>
        let allowed := match AllowIP s with
                       | Some allow => allow (Unmap (AddrFromSlice ip))
                       | None => true
                       end in
        if negb allowed then refuse errAccessViolation (str "access denied")
        else
          let op := get_u16 pkt 0 in
          if op =? opRRQ then
            match parseRRQ unicode pkt with
            | Ok (file, mode, trailing) =>
                let opts := default ∅ (parseOptions unicode trailing) in
                match serveFile s FS free ip port file opts xfer with
                | Some (t, xfer) => Ok (Some t, reply, xfer)
                | None => Panic
                end
            | Err NoFilename => refuse errNotDefined (str "malformed request: no filename terminator")
            | Err NoMode => refuse errNotDefined (str "malformed request: no mode terminator")
            | Panic => Panic
            end
          else if op =? opWRQ then refuse errAccessViolation (str "server is read-only")
          else ignored
    end.

(** ** Every transfer ends, and its record adds up *)

Definition packets (n : net) : Z := zlen (sent n).

Lemma WriteTo_spec pkt n : let '(_, n') := WriteTo pkt n in
  sent n' = sent n ++ [pkt] /\ deadlines n' = deadlines n.
Proof. unfold WriteTo. by destruct (peer _ _) as [[? ?] ?]. Qed.

Lemma send_attempts_spec client pkt b timeout retries tries attempt n :
  retries = attempt + Z.of_nat tries - 1 ->
  let '((acked, aborted, resends), n') := send_attempts client pkt b timeout retries tries attempt n in
  packets n' = packets n + (resends - attempt) + 1 /\
  (acked = true -> aborted = false) /\
  exists k, deadlines n' = deadlines n ++ replicate k timeout.
Proof.
  revert attempt n. induction tries as [|tries IH]; intros attempt n Hr; cbn [send_attempts].
  { split; [lia|]. split; [done|]. exists O. by rewrite app_nil_r. }
  pose proof (WriteTo_spec pkt n) as Hw. destruct (WriteTo pkt n) as [ok n1]. destruct Hw as [Hs Hd].
  assert (Hp : packets n1 = packets n + 1) by (unfold packets; by rewrite Hs, zlen_app).
  destruct ok; cbn [negb].
  2: { split; [lia|]. split; [done|]. exists O. by rewrite app_nil_r. }
  destruct (wait_ack _ _ _) as [w rest]. set (n2 := MkNet _ _ _ _).
  assert (Hp2 : packets n2 = packets n1) by done.
  assert (Hd2 : deadlines n2 = deadlines n ++ [timeout]) by (unfold n2; cbn; by rewrite Hd).
  destruct w.
  - split; [lia|]. split; [done|]. by exists 1%nat.
  - specialize (IH (attempt + 1) n2 ltac:(lia)).
    destruct (send_attempts _ _ _ _ _ tries _ _) as [[[acked aborted] resends] n'].
    destruct IH as (Hp' & Hx & k & Hk). split; [lia|]. split; [done|].
    exists (S k). by rewrite Hk, Hd2, <- app_assoc.
  - split; [lia|]. split; [done|]. by exists 1%nat.
Qed.

Lemma sendAndWaitAck_spec client pkt b timeout retries n : 0 <= retries ->
  let '((acked, aborted, resends), n') := sendAndWaitAck client pkt b timeout retries n in
  packets n' = packets n + resends + 1 /\
  (acked = true -> aborted = false) /\
  exists k, deadlines n' = deadlines n ++ replicate k timeout.
Proof.
  intros Hr. unfold sendAndWaitAck.
  pose proof (send_attempts_spec client pkt b timeout retries (Z.to_nat (retries + 1)) 0 n ltac:(lia)) as H.
  destruct (send_attempts _ _ _ _ _ _ _ _) as [[[acked aborted] resends] n']. by rewrite Z.sub_0_r in H.
Qed.

(** The record of a transfer against the packets it sent: [extra] are those that
    are not blocks. *)
Record adds_up (t : Transfer) (extra : Z) (n n' : net) : Prop := {
  adds_packets : packets n' = packets n + blocksSent t + resendTotal t + extra;
  adds_acked : 0 <= bytesAcked t <= bytesSent t;
  adds_size : bytesSent t <= Z.max 0 (t_Size t);
  adds_done : t_result t = ROk \/ t_result t = UnackedFinal -> bytesSent t = Z.max 0 (t_Size t);
  adds_ok : t_result t = ROk -> bytesAcked t = Z.max 0 (t_Size t);
}.

Lemma send_blocks_spec client f bs policy final fuel off block buf t n n0 extra tmax :
  0 < bs -> 0 <= snd policy -> 0 <= snd final -> fst policy <= tmax -> fst final <= tmax ->
  0 <= off <= Z.max 0 (Size f) -> Z.max 0 (Size f) - off < Z.of_nat fuel * bs ->
  bytesSent t = off -> bytesAcked t = off -> t_Size t = Size f -> t_result t = RError ->
  packets n = packets n0 + blocksSent t + resendTotal t + extra ->
  Forall (fun d => d <= tmax) (deadlines n) ->
  exists t' n', send_blocks fuel client f bs policy final off block buf t n = Some (t', n') /\
    adds_up t' (extra + if decide (t_result t' = RError) then 1 else 0) n0 n' /\
    Forall (fun d => d <= tmax) (deadlines n') /\ t_BlockSize t' = t_BlockSize t /\ t_Size t' = Size f.
Proof.
  intros Hbs Hpol Hfin Hp1 Hf1. revert off block buf t n.
  induction fuel as [|fuel IH]; intros off block buf t n Hoff Hfuel Hbytes Hacked Hsize Hres Hpk Hdl.
  { lia. }
  rewrite Nat2Z.inj_succ, Z.mul_succ_l in Hfuel.
  cbn [send_blocks]. set (want := want_at (Size f) bs off).
  assert (Hwant : 0 <= want <= bs /\ off + want <= Z.max 0 (Size f) /\ (want < bs -> off + want = Z.max 0 (Size f)))
    by (unfold want, want_at; lia).
  destruct (read_block f buf want off) as [buf' failed]. destruct failed.
  { eexists _, _. split; [done|]. unfold sendError.
    pose proof (WriteTo_spec (error_packet errNotDefined (str "read error")) n) as Hw.
    destruct (WriteTo _ n) as [ok n']. destruct Hw as [Hs Hd]. cbn [snd]. rewrite decide_True by done.
    split; [|by rewrite Hd]. split; rewrite ?Hres, ?Hbytes, ?Hacked, ?Hsize; try lia; try (intros; intuition discriminate).
    unfold packets in *. rewrite Hs, zlen_app, zlen_cons, (@zlen_nil bytes). lia. }
  set (pk := data_packet _ _). destruct (if want <? bs then final else policy) as [timeout retries] eqn:Ef.
  assert (Hr : 0 <= retries /\ timeout <= tmax).
  { destruct (want <? bs); [destruct final|destruct policy]; injection Ef as -> ->; by cbn in *. }
  destruct Hr as [Hr Ht].
  pose proof (sendAndWaitAck_spec client pk block timeout retries n Hr) as Hw.
  destruct (sendAndWaitAck _ _ _ _ _ _) as [[[acked aborted] resends] n1].
  destruct Hw as (Hp & Hab & k & Hd).
  assert (Hdl1 : Forall (fun d => d <= tmax) (deadlines n1)).
  { rewrite Hd. apply Forall_app. split; [done|]. by apply Forall_replicate. }
  destruct aborted.
  { eexists _, _. split; [done|]. cbn [t_result]. rewrite decide_False by done. split; [|done].
    split; cbn [t_result blocksSent resendTotal bytesSent bytesAcked t_Size]; rewrite ?Hsize;
      try (destruct acked; lia); intuition discriminate. }
  destruct (want <? bs) eqn:Efin; zbool.
  { eexists _, _. split; [done|]. cbn [t_result]. rewrite decide_False by (by destruct acked). split; [|done].
    split; cbn [t_result blocksSent resendTotal bytesSent bytesAcked t_Size]; rewrite ?Hsize;
      destruct acked; try lia; intuition discriminate. }
  destruct acked; cbn [negb].
  - match goal with |- context [send_blocks fuel _ _ _ _ _ ?o ?b ?bu ?t ?n] =>
      destruct (IH o b bu t n) as (t' & n' & H) end;
      cbn [t_result blocksSent resendTotal bytesSent bytesAcked t_Size]; try done; try lia.
    by exists t', n'.
  - eexists _, _. split; [done|]. cbn [t_result]. rewrite decide_False by done. split; [|done].
    split; cbn [t_result blocksSent resendTotal bytesSent bytesAcked t_Size]; rewrite ?Hsize;
      try lia; intuition discriminate.
Qed.

Lemma negotiate_bounds opts size t :
  let '(_, bs, timeout) := negotiateOptions opts size blockSize t in
  minOptBlockSize <= bs <= maxOptBlockSize /\ (timeout = t \/ Second <= timeout <= 255 * Second).
Proof.
  unfold negotiateOptions, blockSize, minOptBlockSize, maxOptBlockSize.
  case_bool_decide; [lia|].
  assert (Hc : forall n, 8 <= clamp n <= 65464).
  { intros n. unfold clamp, minOptBlockSize, maxOptBlockSize.
    destruct (n <? 8) eqn:?; zbool; [lia|]. destruct (_ <? n) eqn:?; zbool; lia. }
  destruct (opts !! str "blksize") as [v|]; [destruct (Atoi v) as [n| |]; [pose proof (Hc n)|..]|];
    (destruct (opts !! str "timeout") as [v'|];
       [destruct (Atoi v') as [n'| |]; [destruct ((1 <=? n') && (n' <=? 255)) eqn:E; zbool|..]|]);
    (destruct (opts !! str "tsize")); cbn [negb orb]; unfold Second; lia.
Qed.

Record plain_policy (s : Server) : Prop := {
  policy_retries : 0 <= Retries s;
  policy_final : 0 <= FinalRetries s;
  policy_interval : 0 <= RetryInterval s;
}.

Lemma block_fuel_enough size bs : 0 < bs -> Z.max 0 size - 0 < Z.of_nat (block_fuel size bs) * bs.
Proof.
  intros Hbs. unfold block_fuel. set (z := Z.max 0 size).
  pose proof (Z.div_mod z bs ltac:(lia)). pose proof (Z.mod_pos_bound z bs Hbs).
  assert (0 <= z / bs) by (apply Z.div_pos; lia). rewrite Z2Nat.id by lia. nia.
Qed.

Definition oack_of (s : Server) (f : File) (opts : gmap bytes bytes) : option bytes * Z * Z :=
  negotiateOptions opts (Size f) blockSize (or_default (RetryInterval s) Second).

(** The socket a transfer binds: nothing sent yet, no deadline set. *)
Definition new_socket (evs : list event) (p : P) : net := MkNet evs p [] [].

(** A transfer of a file that was opened, on any network at all: it ends, and
    its record counts every packet that was sent, never more bytes than the file
    has, all of them acknowledged when the result is "ok"; the block size is
    within RFC 2348's range, and no wait is longer than the negotiated timeout. *)
Theorem transfer_accounts s FS free ip port name opts evs p f : plain_policy s ->
  FS (trim_slash name) = inl f -> listenTransfer s free <> None ->
  exists t n', serveFile s FS free ip port name opts (new_socket evs p) = Some (t, n') /\
    let '(oack, bs, timeout) := oack_of s f opts in
    t_Size t = Size f /\ t_BlockSize t = bs /\ minOptBlockSize <= bs <= maxOptBlockSize /\
    packets n' = blocksSent t + resendTotal t +
      (if oack then 1 else 0) + (if decide (t_result t = RError) then 1 else 0) /\
    0 <= bytesAcked t <= bytesSent t /\ bytesSent t <= Z.max 0 (Size f) /\
    (t_result t = ROk \/ t_result t = UnackedFinal -> bytesSent t = Z.max 0 (Size f)) /\
    (t_result t = ROk -> bytesAcked t = Z.max 0 (Size f)) /\
    Forall (fun d => d <= timeout) (deadlines n').
Proof.
  intros [Hr Hf Hi] Hfs Hl. unfold serveFile. rewrite Hfs.
  destruct (listenTransfer s free) as [lp|]; [|done]. unfold retryPolicy, oack_of.
  set (retry := or_default (RetryInterval s) Second).
  assert (Hor : forall n d, 0 <= n -> 0 <= d -> 0 <= or_default n d)
    by (intros ? ? ? ?; unfold or_default; destruct (_ =? _); lia).
  pose proof (negotiate_bounds opts (Size f) retry) as Hb.
  destruct (negotiateOptions opts (Size f) blockSize retry) as [[oack bs] timeout].
  destruct Hb as [Hbs Ht]. unfold minOptBlockSize in *.
  set (final := if _ <? _ then _ else _). set (c := AddrPort ip port). cbv zeta.
  assert (Hfinal : final <= timeout) by (unfold final; destruct (_ <? _) eqn:?; zbool; lia).
  set (rt := or_default (Retries s) 5). set (frt := or_default (FinalRetries s) 1).
  assert (Hrt : 0 <= rt) by (by apply Hor). assert (Hfrt : 0 <= frt) by (by apply Hor).
  set (n0 := new_socket evs p). assert (Hn0 : packets n0 = 0) by done.
  assert (Hblocks : forall resends n1 e, packets n1 = packets n0 + resends + e ->
    Forall (fun d => d <= timeout) (deadlines n1) ->
    exists t' n', send_blocks (block_fuel (Size f) bs) c f bs (timeout, rt) (final, frt) 0 1
        (replicate (Z.to_nat bs) 0) (MkTransfer (Size f) bs 0 0 0 resends RError) n1 = Some (t', n') /\
      adds_up t' (e + if decide (t_result t' = RError) then 1 else 0) n0 n' /\
      Forall (fun d => d <= timeout) (deadlines n') /\ t_BlockSize t' = bs /\ t_Size t' = Size f).
  { intros resends n1 e Hp Hd. apply send_blocks_spec; cbn [snd fst t_Size bytesSent bytesAcked t_result
      blocksSent resendTotal]; try done; try lia. apply block_fuel_enough. lia. }
  assert (Hend : forall t' n' e, adds_up t' (e + if decide (t_result t' = RError) then 1 else 0) n0 n' ->
    t_BlockSize t' = bs -> t_Size t' = Size f -> Forall (fun d => d <= timeout) (deadlines n') ->
    t_Size t' = Size f /\ t_BlockSize t' = bs /\ 8 <= bs <= maxOptBlockSize /\
    packets n' = blocksSent t' + resendTotal t' + e + (if decide (t_result t' = RError) then 1 else 0) /\
    0 <= bytesAcked t' <= bytesSent t' /\ bytesSent t' <= Z.max 0 (Size f) /\
    (t_result t' = ROk \/ t_result t' = UnackedFinal -> bytesSent t' = Z.max 0 (Size f)) /\
    (t_result t' = ROk -> bytesAcked t' = Z.max 0 (Size f)) /\
    Forall (fun d => d <= timeout) (deadlines n')).
  { intros t' n' e [A1 A2 A3 A4 A5] Hb' Hs' Hd'. rewrite Hs' in *. split_and!; try done; lia. }
  destruct oack as [oack|].
  - pose proof (sendAndWaitAck_spec c oack 0 timeout rt n0 Hrt) as Hw.
    destruct (sendAndWaitAck _ _ _ _ _ _) as [[[acked aborted] resends] n1].
    destruct Hw as (Hp & Hab & k & Hd).
    assert (Hd1 : Forall (fun d => d <= timeout) (deadlines n1)) by (rewrite Hd; by apply Forall_replicate).
    assert (Hstop : forall r, r = RAborted \/ r = GaveUp ->
      adds_up (MkTransfer (Size f) bs 0 0 0 resends r) (1 + if decide (r = RError) then 1 else 0) n0 n1).
    { intros r Hr'. split; cbn; rewrite ?decide_False by (destruct Hr'; congruence); try lia;
        destruct Hr'; intuition congruence. }
    destruct aborted; [eexists _, _; split; [done|]; apply Hend; auto|].
    destruct acked; cbn [negb]; [|eexists _, _; split; [done|]; apply Hend; auto].
    destruct (Hblocks resends n1 1 ltac:(lia) Hd1) as (t' & n' & H1 & H2 & H3 & H4 & H5).
    exists t', n'. split; [done|]. by apply Hend.
  - destruct (Hblocks 0 n0 0 ltac:(lia) ltac:(constructor)) as (t' & n' & H1 & H2 & H3 & H4 & H5).
    exists t', n'. split; [done|]. by apply Hend.
Qed.
End transfer.

Arguments MkNet {P}.
Arguments inbox {P}.
Arguments network {P}.
Arguments sent {P}.
Arguments deadlines {P}.

(** ** Datagrams from elsewhere *)

Definition from_client (client : bytes * Z) (e : event) : bool :=
  match e with
  | ReadError => true
  | Packet (UDPAddr ip port) _ => bool_decide (AddrPort ip port = client)
  | Packet (OtherAddr _) _ => false
  end.

Definition keep (client : bytes * Z) (evs : list event) : list event :=
  filter (fun e => from_client client e = true) evs.

(** A network from which only the client's datagrams arrive. *)
Definition without_strays {P} (client : bytes * Z) (peer : P -> bytes -> bool * list event * P) :
    P -> bytes -> bool * list event * P :=
  fun p pkt => let '(ok, evs, p') := peer p pkt in (ok, keep client evs, p').

Definition strip {P} (client : bytes * Z) (n : @net P) : @net P :=
  MkNet (keep client (inbox n)) (network n) (sent n) (deadlines n).

Section strays.
Context {P : Type} (client : bytes * Z) (peer : P -> bytes -> bool * list event * P).
Let quiet := without_strays client peer.

Lemma keep_app evs evs' : keep client (evs ++ evs') = keep client evs ++ keep client evs'.
Proof. apply filter_app. Qed.

Lemma keep_cons e evs : keep client (e :: evs) =
  if from_client client e then e :: keep client evs else keep client evs.
Proof. unfold keep. rewrite filter_cons. by destruct (from_client client e). Qed.

Lemma WriteTo_strip pkt n :
  WriteTo quiet pkt (strip client n) = (fst (WriteTo peer pkt n), strip client (snd (WriteTo peer pkt n))).
Proof.
  unfold WriteTo, quiet, without_strays, strip. cbn [inbox network sent deadlines].
  destruct (peer _ _) as [[ok evs] p]. cbn [fst snd inbox network sent deadlines]. by rewrite keep_app.
Qed.

Lemma wait_ack_keep b evs :
  wait_ack client b (keep client evs) =
  (fst (wait_ack client b evs), keep client (snd (wait_ack client b evs))).
Proof.
  induction evs as [|e evs IH]; [done|]. rewrite keep_cons.
  destruct e as [[ip port|tag] data|]; [| |done]; cbn [wait_ack from_client]; [|done].
  case_bool_decide as Hc; cbn [negb]; [|done].
  cbn [wait_ack]. rewrite (bool_decide_true _ Hc). cbn [negb].
  repeat (case_match; try done).
Qed.

Lemma send_attempts_strip pkt b timeout retries tries attempt n :
  send_attempts quiet client pkt b timeout retries tries attempt (strip client n) =
  (fst (send_attempts peer client pkt b timeout retries tries attempt n),
   strip client (snd (send_attempts peer client pkt b timeout retries tries attempt n))).
Proof.
  revert attempt n. induction tries as [|tries IH]; intros attempt n; [done|].
  cbn [send_attempts]. rewrite WriteTo_strip. destruct (WriteTo peer pkt n) as [ok n1]. cbn [fst snd].
  destruct ok; cbn [negb]; [|done].
  change (inbox (SetReadDeadline timeout (strip client n1))) with (keep client (inbox n1)).
  change (inbox (SetReadDeadline timeout n1)) with (inbox n1).
  rewrite wait_ack_keep. destruct (wait_ack client b (inbox n1)) as [w rest]. cbn [fst snd].
  destruct w; try done.
  apply (IH (attempt + 1) (MkNet rest (network n1) (sent n1) (deadlines n1 ++ [timeout]))).
Qed.

Lemma send_blocks_strip f bs policy final fuel off block buf t n :
  send_blocks quiet fuel client f bs policy final off block buf t (strip client n) =
  (fun '(t, n) => (t, strip client n)) <$> send_blocks peer fuel client f bs policy final off block buf t n.
Proof.
  revert off block buf t n. induction fuel as [|fuel IH]; intros off block buf t n; [done|].
  cbn [send_blocks]. destruct (read_block _ _ _ _) as [buf' []].
  { cbn. unfold sendError. by rewrite WriteTo_strip. }
  destruct (if _ <? bs then final else policy) as [timeout retries].
  unfold sendAndWaitAck. rewrite send_attempts_strip.
  destruct (send_attempts peer _ _ _ _ _ _ _ _) as [[[acked aborted] resends] n1]. cbn [fst snd].
  destruct aborted; [done|]. destruct (_ <? bs); [done|]. destruct acked; [|done]. apply IH.
Qed.
End strays.

(** Datagrams from any address but the client's change nothing: with them and
    without them the server sends the same packets, waits as long and records
    the same transfer. *)
Theorem strays_ignored {P} (peer : P -> bytes -> bool * list event * P) s FS free ip port name opts evs p :
  let client := AddrPort ip port in
  serveFile (without_strays client peer) s FS free ip port name opts (new_socket (keep client evs) p) =
  (fun '(t, n) => (t, strip client n)) <$> serveFile peer s FS free ip port name opts (new_socket evs p).
Proof.
  intros client. change (new_socket (keep client evs) p) with (strip client (new_socket evs p)).
  generalize (new_socket evs p). intros n. unfold serveFile. destruct (FS _) as [f|[notFound msg]].
  - destruct (listenTransfer s free); [|done]. destruct (retryPolicy s) as [[[retry retries] fr] ft].
    destruct (negotiateOptions _ _ _ _) as [[[oack|] bs] rt]; [|apply send_blocks_strip].
    unfold sendAndWaitAck. fold client. rewrite send_attempts_strip.
    destruct (send_attempts peer _ _ _ _ _ _ _ _) as [[[acked aborted] resends] n1]. cbn [fst snd].
    destruct aborted; [done|]. destruct acked; [|done]. apply send_blocks_strip.
  - destruct (listenTransfer s free); [|done]. cbn. unfold sendError. by rewrite WriteTo_strip.
Qed.

(** ** A client behind a network that loses packets *)

(** A TFTP client: the block it waits for, what it has, and whether it has seen
    the last block. *)
Record receiver := MkReceiver { expected : Z; got : bytes; finished : bool }.

(** The client on one packet, for a block size: the block it acknowledges, if
    any. It acknowledges the block before the one it waits for again. *)
Definition receive (bs : Z) (c : receiver) (pkt : bytes) : option Z * receiver :=
  let op := get_u16 pkt 0 in
  if op =? opOACK then (Some 0, c)
  else if op =? opDATA then
    let block := get_u16 pkt 2 in
    let payload := drop 4 pkt in
    if negb (finished c) && (block =? expected c)
    then (Some block, MkReceiver (u16 (block + 1)) (got c ++ payload) (zlen payload <? bs))
    else if block =? u16 (expected c - 1) then (Some block, c)
    else (None, c)
  else (None, c).

Definition ack_packet (b : Z) : bytes := be_enc 2 opACK ++ be_enc 2 b.

(** The network loses the packets and the acknowledgements that [faults] says,
    one pair for each packet sent, and none when they run out. *)
Definition lossy (ip : bytes) (port bs : Z) (s : receiver * list (bool * bool)) (pkt : bytes) :
    bool * list event * (receiver * list (bool * bool)) :=
  let '(c, faults) := s in
  let '((lost, lostAck), faults) := match faults with x :: r => (x, r) | [] => ((false, false), []) end in
  if (lost : bool) then (true, [], (c, faults))
  else
    let '(ack, c) := receive bs c pkt in
    (true, match ack with
           | Some b => if (lostAck : bool) then [] else [Packet (UDPAddr ip port) (ack_packet b)]
           | None => []
           end, (c, faults)).

Definition fault (x : bool * bool) : bool := fst x || snd x.

(** No two sends in a row fail. *)
Fixpoint spaced (faults : list (bool * bool)) : bool :=
  match faults with
  | x :: rest => negb (fault x && match rest with y :: _ => fault y | [] => false end) && spaced rest
  | [] => true
  end.

Lemma get_u16_enc k v : get_u16 (be_enc 2 v ++ k) 0 = u16 v.
Proof.
  unfold get_u16. rewrite sub_app_l by (by rewrite zlen_be_enc). rewrite be_be_enc. done.
Qed.

Lemma get_u16_second a b k : get_u16 (be_enc 2 a ++ be_enc 2 b ++ k) 2 = u16 b.
Proof.
  unfold get_u16. rewrite sub_app_r by (rewrite zlen_be_enc; lia). rewrite zlen_be_enc.
  change (2 - Z.of_nat 2) with 0. rewrite sub_app_l by (by rewrite zlen_be_enc). by rewrite be_be_enc.
Qed.

Lemma u16_small z : 0 <= z < 2 ^ 16 -> u16 z = z.
Proof. apply Z.mod_small. Qed.

Section lossy.
Context (ip : bytes) (port bs : Z).
Let client := AddrPort ip port.
Let peer := lossy ip port bs.

Lemma wait_ack_packet b : 0 <= b < 2 ^ 16 ->
  wait_ack client b [Packet (UDPAddr ip port) (ack_packet b)] = (GotAck, []).
Proof.
  intros Hb. cbn [wait_ack]. rewrite bool_decide_true by done. cbn [negb].
  assert (Hl : zlen (ack_packet b) = 4) by (unfold ack_packet; rewrite zlen_app, !zlen_be_enc; done).
  rewrite take_ge by (unfold zlen in Hl; lia). rewrite Hl. change (4 <? 4) with false. cbn iota.
  unfold ack_packet. rewrite get_u16_enc. change (u16 opACK =? opACK) with true. cbn iota.
  rewrite <- (app_nil_r (be_enc 2 b)), get_u16_second, u16_small by done. by rewrite Z.eqb_refl.
Qed.

(** Sending a packet that the client, in state [before] or already in [target],
    acknowledges as block [b] and ends up in [target]. *)
Lemma send_attempts_lossy pkt b timeout before target :
  receive bs before pkt = (Some b, target) -> receive bs target pkt = (Some b, target) -> 0 <= b < 2 ^ 16 ->
  forall retries tries attempt n,
  inbox n = [] -> (fst (network n) = before \/ fst (network n) = target) ->
  exists acked r n', send_attempts peer client pkt b timeout retries tries attempt n = ((acked, false, r), n') /\
    inbox n' = [] /\ (fst (network n') = before \/ fst (network n') = target) /\
    (acked = true -> fst (network n') = target) /\
    (spaced (snd (network n)) = true -> spaced (snd (network n')) = true /\
      ((2 <= tries)%nat -> acked = true)).
Proof.
  intros Hb Ht Hr retries. induction tries as [|tries IH]; intros attempt n Hin Hc.
  { exists false, retries, n. split_and!; try done. intros ?. split; [done|lia]. }
  cbn [send_attempts]. unfold WriteTo, peer, lossy. rewrite Hin.
  destruct (network n) as [c faults] eqn:Hnet. cbn [fst snd] in *.
  set (head := match faults with x :: r => (x, r) | [] => ((false, false), []) end).
  destruct head as [[lost lostAck] rest] eqn:Hhead.
  assert (Hsp : spaced faults = true -> spaced rest = true /\
    (lost || lostAck = true -> forall x r, rest = x :: r -> fault x = false)).
  { unfold head in Hhead. destruct faults as [|x fs]; injection Hhead as <- <- <- || injection Hhead as -> ->; [done|].
    cbn [spaced]. rewrite andb_true_iff, negb_true_iff, andb_false_iff. intros [H1 H2]. split; [done|].
    intros Hl y r ->. destruct H1 as [H1|H1]; [|done]. unfold fault in H1. cbn in H1. congruence. }
  assert (Hrec : receive bs c pkt = (Some b, target)) by (by destruct Hc as [-> | ->]).
  rewrite Hrec. destruct (lost || lostAck) eqn:El.
  - assert (Hgo : exists p, (if lost then (true, [], (c, rest))
        else (true, if lostAck then [] else [Packet (UDPAddr ip port) (ack_packet b)], (target, rest))) =
        (true, [], (p, rest)) /\ (p = before \/ p = target)).
    { destruct lost; [by exists c|]. cbn in El. subst lostAck. exists target. auto. }
    destruct Hgo as (p & -> & Hp). cbn [negb inbox network sent deadlines SetReadDeadline app wait_ack].
    destruct (IH (attempt + 1) (MkNet [] (p, rest) (sent n ++ [pkt]) (deadlines n ++ [timeout])))
      as (acked & r & n' & H1 & H2 & H3 & H4 & H5); [done|done|].
    exists acked, r, n'. split_and!; try done. intros Hs. destruct (Hsp Hs) as [Hs' Hnext].
    destruct (H5 Hs') as [H6 H7]. split; [done|]. intros Htries.
    destruct tries as [|[|tries]]; [lia| |apply H7; lia].
    (* the second of two tries *)
    cbn [send_attempts] in H1. unfold WriteTo, peer, lossy in H1. cbn [network inbox] in H1.
    destruct rest as [|x rest']; [|pose proof (Hnext eq_refl x rest' eq_refl) as Hx;
      unfold fault in Hx; destruct x as [[] []]; try done];
      (replace (receive bs p pkt) with (Some b, target) in H1 by (by destruct Hp as [-> | ->]));
      cbn [negb app] in H1; unfold SetReadDeadline in H1; cbn [inbox] in H1;
      rewrite wait_ack_packet in H1 by done; by injection H1 as <- _ _.
  - apply orb_false_iff in El as [-> ->]. cbn [negb app]. unfold SetReadDeadline. cbn [inbox].
    rewrite wait_ack_packet by done. eexists true, _, _. split; [done|]. cbn.
    split_and!; auto. intros Hs. destruct (Hsp Hs). by split.
Qed.

Lemma zlen_data_packet b k : zlen (data_packet b k) = 4 + zlen k.
Proof. unfold data_packet. rewrite !zlen_app, !zlen_be_enc. lia. Qed.

Lemma receive_data b payload g : 0 <= b < 2 ^ 16 ->
  let target := MkReceiver (u16 (b + 1)) (g ++ payload) (zlen payload <? bs) in
  receive bs (MkReceiver b g false) (data_packet b payload) = (Some b, target) /\
  receive bs target (data_packet b payload) = (Some b, target).
Proof.
  intros Hb target. unfold receive, data_packet. rewrite get_u16_enc, get_u16_second.
  change (u16 opDATA =? opOACK) with false. change (u16 opDATA =? opDATA) with true. cbn iota.
  rewrite (u16_small b) by done. cbn [finished expected got negb andb].
  rewrite Z.eqb_refl. replace (drop 4 _) with payload.
  2: { rewrite app_assoc. rewrite drop_app_length'; [done|]. rewrite length_app, !length_be_enc. done. }
  split; [done|].
  assert (b <> u16 (b + 1)) by (unfold u16; Z.to_euclidean_division_equations; lia).
  rewrite (proj2 (Z.eqb_neq b (expected target))) by done. rewrite andb_false_r.
  replace (u16 (expected target - 1)) with b; [by rewrite Z.eqb_refl|].
  cbn [expected target]. unfold u16. rewrite Zminus_mod_idemp_l. replace (b + 1 - 1) with b by lia.
  symmetry. by apply Z.mod_small.
Qed.

Lemma send_blocks_lossy f data policy final fuel off block buf t n :
  ReaderAtOK (ReadAt f) (at_ data) (zlen data) -> Size f = zlen data -> 0 < bs -> zlen buf = bs ->
  0 <= off <= zlen data -> zlen data - off < Z.of_nat fuel * bs -> 0 <= block < 2 ^ 16 ->
  inbox n = [] -> fst (network n) = MkReceiver block (sub data 0 off) false ->
  exists t' n', send_blocks peer fuel client f bs policy final off block buf t n = Some (t', n') /\
    (exists k, 0 <= k <= zlen data /\ got (fst (network n')) = sub data 0 k) /\
    (t_result t' = ROk -> got (fst (network n')) = data /\ finished (fst (network n')) = true) /\
    (spaced (snd (network n)) = true -> 1 <= snd policy -> 1 <= snd final -> t_result t' = ROk).
Proof.
  intros Hra Hsize Hbs. revert off block buf t n.
  induction fuel as [|fuel IH]; intros off block buf t n Hbuf Hoff Hfuel Hblock Hin Hnet; [lia|].
  rewrite Nat2Z.inj_succ, Z.mul_succ_l in Hfuel. cbn [send_blocks].
  set (want := want_at (Size f) bs off). pose proof (zlen_nonneg data).
  assert (Hwant : 0 <= want <= bs /\ off + want <= zlen data /\ (want < bs -> off + want = zlen data))
    by (unfold want, want_at; lia).
  assert (Hread : exists buf', read_block f buf want off = (buf', false) /\ zlen buf' = bs /\
    take (Z.to_nat want) buf' = sub data off want).
  { unfold read_block. destruct (0 <? want) eqn:E; zbool.
    - rewrite (reader_exact (ReadAt f) (at_ data) (zlen data)), seqZ_of_sub by lia.
      assert (Hz : length (sub data off want) = Z.to_nat want).
      { pose proof (zlen_sub data off want ltac:(lia) ltac:(lia) ltac:(lia)) as Hz. unfold zlen in Hz. lia. }
      rewrite (take_ge (sub data off want)) by lia.
      eexists. split; [done|]. split.
      + rewrite zlen_app. unfold zlen in *. rewrite length_drop. lia.
      + rewrite <- Hz. apply take_app_length.
    - replace want with 0 by lia. eexists. split; [done|]. split; [done|]. by rewrite sub_0. }
  destruct Hread as (buf' & -> & Hbuf' & ->).
  assert (Hz : zlen (sub data off want) = want) by (apply zlen_sub; lia).
  destruct (if want <? bs then final else policy) as [timeout retries] eqn:Ef.
  destruct (receive_data block (sub data off want) (sub data 0 off) Hblock) as [Hr1 Hr2].
  rewrite Hz in Hr1, Hr2.
  assert (Hgot : sub data 0 off ++ sub data off want = sub data 0 (off + want)).
  { symmetry. rewrite sub_split by lia. by rewrite Z.add_0_l. }
  rewrite Hgot in Hr1, Hr2. set (before := MkReceiver block (sub data 0 off) false) in *.
  set (target := MkReceiver (u16 (block + 1)) _ _) in *.
  unfold sendAndWaitAck.
  destruct (send_attempts_lossy (data_packet block (sub data off want)) block timeout before target
    Hr1 Hr2 Hblock retries (Z.to_nat (retries + 1)) 0 n Hin (or_introl Hnet))
    as (acked & r & n1 & -> & Hin1 & Hc1 & Hack & Hsp).
  assert (Hprefix : exists k, 0 <= k <= zlen data /\ got (fst (network n1)) = sub data 0 k).
  { destruct Hc1 as [-> | ->]; [exists off|exists (off + want)]; (split; [lia|done]). }
  assert (Hlive : spaced (snd (network n)) = true -> 1 <= snd policy -> 1 <= snd final ->
    acked = true /\ spaced (snd (network n1)) = true).
  { intros Hs H1 H2. destruct (Hsp Hs) as [Hs1 Ha]. split; [|done]. apply Ha.
    destruct (want <? bs); [destruct final|destruct policy]; injection Ef as -> ->; cbn in *; lia. }
  destruct (want <? bs) eqn:Efin; zbool.
  - eexists _, _. split; [done|]. cbn [t_result]. split; [done|]. split.
    + intros Hok. destruct acked; [|done]. rewrite (Hack eq_refl). cbn [got finished target].
      split; [apply sub_all; lia|done].
    + intros Hs H1 H2. destruct (Hlive Hs H1 H2) as [-> _]. done.
  - destruct acked; cbn [negb].
    + assert (want = bs) by lia.
      match goal with |- context [send_blocks peer fuel client f bs policy final ?o ?b ?bu ?t ?n] =>
        destruct (IH o b bu t n) as (t' & n' & H1 & H2 & H3 & H4) end; try done; try lia.
      * unfold u16. apply Z.mod_pos_bound. lia.
      * rewrite (Hack eq_refl). unfold target. f_equal. f_equal. lia.
      * exists t', n'. split; [done|]. split; [done|]. split; [done|].
        intros Hs Hp Hf. apply H4; [|done|done]. by apply Hlive.
    + eexists _, _. split; [done|]. cbn [t_result]. split; [done|]. split; [done|].
      intros Hs Hp Hf. by destruct (Hlive Hs Hp Hf).
Qed.
End lossy.

Lemma negotiate_opcode opts size bs t oack :
  fst (fst (negotiateOptions opts size bs t)) = Some oack -> get_u16 oack 0 = opOACK.
Proof.
  unfold negotiateOptions. case_bool_decide; [done|].
  destruct (match opts !! str "blksize" with Some _ => _ | None => _ end) as [[b1 bs1] a1].
  destruct (match opts !! str "timeout" with Some _ => _ | None => _ end) as [[b2 t2] a2].
  destruct (match opts !! str "tsize" with Some _ => _ | None => _ end) as [b3 a3].
  destruct (negb _); [done|]. cbn [fst]. intros Ho%(inj Some). subst oack. by rewrite get_u16_enc.
Qed.

(** The client at the start of a transfer. *)
Definition waiting : receiver := MkReceiver 1 [] false.

(** A transfer to a client behind a network that loses packets and
    acknowledgements in any pattern: what the client has is at every moment a
    prefix of the file; if the server records "ok" the client has the whole file
    and knows it; and when no two sends in a row fail, the transfer is "ok". *)
Theorem transfer_delivers s FS free ip port name opts faults f data : plain_policy s ->
  FS (trim_slash name) = inl f -> listenTransfer s free <> None ->
  ReaderAtOK (ReadAt f) (at_ data) (zlen data) -> Size f = zlen data ->
  let '(_, bs, _) := oack_of s f opts in
  exists t n', serveFile (lossy ip port bs) s FS free ip port name opts (new_socket [] (waiting, faults)) = Some (t, n') /\
    let c := fst (network n') in
    (exists k, 0 <= k <= zlen data /\ got c = sub data 0 k) /\
    (t_result t = ROk -> got c = data /\ finished c = true) /\
    (spaced faults = true -> t_result t = ROk).
Proof.
  intros [Hr Hf Hi] Hfs Hl Hra Hsize. unfold oack_of.
  set (retry := or_default (RetryInterval s) Second).
  pose proof (negotiate_bounds opts (Size f) retry) as Hb.
  destruct (negotiateOptions opts (Size f) blockSize retry) as [[oack bs] timeout] eqn:Hneg.
  destruct Hb as [Hbs _]. unfold minOptBlockSize, maxOptBlockSize in Hbs.
  unfold serveFile. rewrite Hfs. destruct (listenTransfer s free) as [lp|]; [|done].
  unfold retryPolicy. fold retry. rewrite Hneg. cbv zeta.
  set (final := if _ <? _ then _ else _).
  assert (Hor : forall n d, 0 <= n -> 1 <= d -> 1 <= or_default n d)
    by (intros ? ? ? ?; unfold or_default; destruct (_ =? _) eqn:?; zbool; lia).
  pose proof (Hor (Retries s) 5 Hr ltac:(lia)) as Hrt. pose proof (Hor (FinalRetries s) 1 Hf ltac:(lia)) as Hfrt.
  assert (Hblocks : forall t n1, inbox n1 = [] -> fst (network n1) = waiting ->
    exists t' n', send_blocks (lossy ip port bs) (block_fuel (Size f) bs) (AddrPort ip port) f bs
        (timeout, or_default (Retries s) 5) (final, or_default (FinalRetries s) 1) 0 1
        (replicate (Z.to_nat bs) 0) t n1 = Some (t', n') /\
      (exists k, 0 <= k <= zlen data /\ got (fst (network n')) = sub data 0 k) /\
      (t_result t' = ROk -> got (fst (network n')) = data /\ finished (fst (network n')) = true) /\
      (spaced (snd (network n1)) = true -> t_result t' = ROk)).
  { intros t n1 Hin Hnet. pose proof (zlen_nonneg data).
    destruct (send_blocks_lossy ip port bs f data (timeout, or_default (Retries s) 5)
      (final, or_default (FinalRetries s) 1) (block_fuel (Size f) bs) 0 1 (replicate (Z.to_nat bs) 0) t n1)
      as (t' & n' & H1 & H2 & H3 & H4); try done; try lia.
    - rewrite zlen_replicate. lia.
    - pose proof (block_fuel_enough (Size f) bs ltac:(lia)). lia.
    - exists t', n'. auto. }
  destruct oack as [oack|]; [|by apply Hblocks].
  assert (Hoack : get_u16 oack 0 = opOACK).
  { apply (negotiate_opcode opts (Size f) blockSize retry). by rewrite Hneg. }
  assert (Hrec : receive bs waiting oack = (Some 0, waiting)) by (unfold receive; by rewrite Hoack).
  unfold sendAndWaitAck.
  destruct (send_attempts_lossy ip port bs oack 0 timeout waiting waiting Hrec Hrec ltac:(lia)
    (or_default (Retries s) 5) (Z.to_nat (or_default (Retries s) 5 + 1)) 0 (new_socket [] (waiting, faults)))
    as (acked & r & n1 & -> & Hin & Hc & _ & Hsp); [done|by left|].
  assert (Hw : fst (network n1) = waiting) by (by destruct Hc). pose proof (zlen_nonneg data).
  destruct acked; cbn [negb].
  - destruct (Hblocks (MkTransfer (Size f) bs 0 0 0 r RError) n1 Hin Hw) as (t' & n' & H1 & H2 & H3 & H4).
    exists t', n'. split_and!; try done. intros Hs. apply H4, Hsp. done.
  - eexists _, _. split; [done|]. rewrite Hw. cbn [t_result waiting got]. split_and!; [|done|].
    + exists 0. split; [lia|]. by rewrite sub_0.
    + intros Hs. destruct (Hsp Hs) as [_ Ha]. discriminate Ha. lia.
Qed.

(** ** What a client sends and reads back *)

(** The fields of an option list: names and values in turn. *)
Definition fields_of (opts : list (bytes * bytes)) : list bytes := mjoin ((fun o => [fst o; snd o]) <$> opts).

(** A read request, with its options. *)
Definition rrq (file mode : bytes) (opts : list (bytes * bytes)) : bytes :=
  be_enc 2 opRRQ ++ terminated 0 (file :: mode :: fields_of opts).

Definition good_option (o : bytes * bytes) : Prop :=
  fst o <> [] /\ snd o <> [] /\ isPrintableASCII (fst o) = true /\ isPrintableASCII (snd o) = true.

Lemma printable_no_nul s : isPrintableASCII s = true -> 0 ∉ s.
Proof.
  unfold isPrintableASCII. rewrite forallb_forall. intros H Hin%list_elem_of_In.
  apply H in Hin. done.
Qed.

Lemma fields_cons o opts : fields_of (o :: opts) = fst o :: snd o :: fields_of opts.
Proof. unfold fields_of. by rewrite fmap_cons, mjoin_cons. Qed.

Lemma length_fields opts : length (fields_of opts) = (2 * length opts)%nat.
Proof. induction opts as [|o opts IH]; [done|]. rewrite fields_cons. cbn [length]. lia. Qed.

Section read_back.
Context (unicode : bytes -> bytes).

(** The options a server makes of a list: the last of a name counts. *)
Definition as_map (opts : list (bytes * bytes)) : gmap bytes bytes :=
  foldl (fun m o => <[ToLower unicode (fst o) := snd o]> m) ∅ opts.

Lemma option_pairs_fields opts m : Forall good_option opts ->
  option_pairs unicode (fields_of opts) m =
  Some (foldl (fun m o => <[ToLower unicode (fst o) := snd o]> m) m opts).
Proof.
  intros H. revert m. induction H as [|[name val] opts (Hn & Hv & Hpn & Hpv) Hopts IH]; intros m; [done|].
  rewrite fields_cons. cbn [option_pairs fst snd] in *. rewrite Hpn, Hpv. cbn [negb orb].
  assert (Hz : forall s : bytes, s <> [] -> (zlen s =? 0) = false).
  { intros [|c s] Hs; [done|]. apply Z.eqb_neq. rewrite zlen_cons. pose proof (zlen_nonneg s). lia. }
  rewrite !Hz by done. cbn [orb]. apply IH.
Qed.

Lemma parseOptions_fields opts : Forall good_option opts ->
  parseOptions unicode (terminated 0 (fields_of opts)) = Some (as_map opts).
Proof.
  intros H. destruct opts as [|o opts]; [done|]. set (os := o :: opts) in *.
  assert (Hf : Forall (fun l => 0 ∉ l) (fields_of os)).
  { clear -H. induction H as [|o' os (_ & _ & H1 & H2) _ IH]; [constructor|].
    rewrite fields_cons. by repeat constructor; try apply printable_no_nul. }
  unfold parseOptions. rewrite split_terminated by done.
  rewrite (proj2 (Z.eqb_neq _ 0)).
  2: { unfold os. rewrite fields_cons, terminated_cons, zlen_app, zlen_cons.
       pose proof (zlen_nonneg (fst o)). pose proof (zlen_nonneg (terminated 0 (snd o :: fields_of opts))). lia. }
  assert (Hl : length (fields_of os) = (2 + 2 * length opts)%nat) by (rewrite length_fields; cbn; lia).
  rewrite (proj2 (Z.ltb_ge _ 3)) by (rewrite zlen_app, zlen_cons, (@zlen_nil bytes); unfold zlen; lia).
  rewrite last_snoc, bool_decide_true by done. cbn [orb negb].
  rewrite length_app, Nat.add_sub, take_app_length.
  rewrite (proj2 (Z.eqb_eq _ 0)); [by apply option_pairs_fields|].
  unfold zlen. rewrite Hl. Z.to_euclidean_division_equations; lia.
Qed.

(** A request is read as it was made: the file, the mode in lower case, and the
    options. *)
Theorem rrq_roundtrip file mode opts : 0 ∉ file -> 0 ∉ mode -> Forall good_option opts ->
  exists trailing,
    parseRRQ unicode (rrq file mode opts) = Ok (file, ToLower unicode mode, trailing) /\
    parseOptions unicode trailing = Some (as_map opts).
Proof.
  intros Hf Hm Ho. exists (terminated 0 (fields_of opts)). split; [|by apply parseOptions_fields].
  unfold parseRRQ, rrq. rewrite slice_ok by (rewrite ?zlen_app, ?zlen_be_enc; pose proof
    (zlen_nonneg (terminated 0 (file :: mode :: fields_of opts))); lia).
  cbn [mbind outcome_bind]. rewrite sub_app_r by (rewrite zlen_be_enc; lia).
  rewrite sub_all by (rewrite zlen_app, zlen_be_enc; lia).
  rewrite terminated_cons, cut_app by done. by rewrite terminated_cons, cut_app by done.
Qed.

Lemma dec_printable n : isPrintableASCII (dec n) = true.
Proof.
  unfold isPrintableASCII. apply forallb_forall. intros c Hc%list_elem_of_In.
  pose proof (dec_is_digits n) as Hd. rewrite Forall_forall in Hd. apply Hd in Hc.
  unfold is_digit, in_range in *. lia.
Qed.

Lemma good_num (name : bytes) n : name <> [] -> isPrintableASCII name = true -> good_option (name, dec n).
Proof. intros. split_and!; [done|apply dec_not_nil|done|apply dec_printable]. Qed.

Lemma opt_text_fields name n : opt_text name n = terminated 0 (fields_of [(str name, dec n)]).
Proof. unfold opt_text. by rewrite fields_cons, !terminated_cons. Qed.

Lemma fields_app a b : fields_of (a ++ b) = fields_of a ++ fields_of b.
Proof. unfold fields_of. by rewrite fmap_app, join_app. Qed.

Lemma terminated_app c a b : terminated c (a ++ b) = terminated c a ++ terminated c b.
Proof. unfold terminated. by rewrite fmap_app, join_app. Qed.

Definition field (name : bytes) (v : option bytes) : list (bytes * bytes) :=
  match v with Some v => [(name, v)] | None => [] end.

Lemma as_map_fields k1 k2 k3 v1 v2 v3 : k1 <> k2 -> k1 <> k3 -> k2 <> k3 ->
  Forall (fun k => ToLower unicode k = k) [k1; k2; k3] ->
  let m := as_map (field k1 v1 ++ field k2 v2 ++ field k3 v3) in
  m !! k1 = v1 /\ m !! k2 = v2 /\ m !! k3 = v3 /\
  (forall k, k <> k1 -> k <> k2 -> k <> k3 -> m !! k = None).
Proof.
  intros H12 H13 H23 Hl m. inv Hl as [|? ? L1 Hl']. inv Hl' as [|? ? L2 Hl'']. inv Hl'' as [|? ? L3 _].
  unfold m, as_map. destruct v1, v2, v3; cbn [field app foldl fst snd]; rewrite ?L1, ?L2, ?L3;
    (split_and!; [by simplify_map_eq..|intros; by simplify_map_eq]).
Qed.

(** What the negotiation accepted, as a list. *)
Definition blksize_of (opts : gmap bytes bytes) : option Z :=
  v ← opts !! str "blksize"; match Atoi v with Ok n => Some (clamp n) | _ => None end.
Definition timeout_of (opts : gmap bytes bytes) : option Z :=
  v ← opts !! str "timeout";
  match Atoi v with Ok n => if (1 <=? n) && (n <=? 255) then Some n else None | _ => None end.
Definition tsize_of (opts : gmap bytes bytes) (size : Z) : option Z :=
  _ ← opts !! str "tsize"; Some size.

Definition accepted (opts : gmap bytes bytes) (size : Z) : list (bytes * bytes) :=
  field (str "blksize") (dec <$> blksize_of opts) ++ field (str "timeout") (dec <$> timeout_of opts) ++
  field (str "tsize") (dec <$> tsize_of opts size).

Lemma negotiate_accepted opts size bs t :
  negotiateOptions opts size bs t =
  (if bool_decide (accepted opts size = []) then None
   else Some (be_enc 2 opOACK ++ terminated 0 (fields_of (accepted opts size))),
   default bs (blksize_of opts), default t ((fun n => n * Second) <$> timeout_of opts)).
Proof.
  unfold negotiateOptions, accepted, blksize_of, timeout_of, tsize_of. case_bool_decide as Hempty.
  { subst opts. by rewrite !lookup_empty. }
  destruct (opts !! str "blksize") as [v|]; [cbn [mbind option_bind]; destruct (Atoi v) as [n| |]|];
    (destruct (opts !! str "timeout") as [v'|];
       [cbn [mbind option_bind]; destruct (Atoi v') as [n'| |]; [destruct ((1 <=? n') && (n' <=? 255))|..]|]);
    (destruct (opts !! str "tsize")); cbn [negb orb app mbind option_bind fmap option_fmap option_map field default];
    rewrite ?bool_decide_false by done; rewrite ?bool_decide_true by done; try done;
    by rewrite !opt_text_fields, <- ?terminated_app, <- ?fields_app.
Qed.

(** What a client reads in the OACK is what the server does: the block size and
    the timeout in force, the defaults for an option that is not there, and the
    size of the file; and no option that was not asked for. *)
Theorem oack_tells opts size t : 0 <= size < 2 ^ 63 ->
  let '(oack, bs, timeout) := negotiateOptions opts size blockSize t in
  match oack with
  | None => bs = blockSize /\ timeout = t
  | Some pkt =>
      get_u16 pkt 0 = opOACK /\
      exists m, parseOptions unicode (drop 2 pkt) = Some m /\
        (forall k, m !! k <> None -> opts !! k <> None) /\
        match m !! str "blksize" with Some v => Atoi v = Ok bs | None => bs = blockSize end /\
        match m !! str "timeout" with
        | Some v => exists n, Atoi v = Ok n /\ timeout = n * Second
        | None => timeout = t
        end /\
        (m !! str "tsize" <> None -> m !! str "tsize" = Some (dec size))
  end.
Proof.
  intros Hsize. rewrite negotiate_accepted. case_bool_decide as Hempty.
  - unfold accepted in Hempty. by destruct (blksize_of opts), (timeout_of opts).
  - split; [by rewrite get_u16_enc|]. exists (as_map (accepted opts size)).
    split.
    { rewrite drop_app_length' by (by rewrite length_be_enc). apply parseOptions_fields.
      unfold accepted. destruct (blksize_of opts), (timeout_of opts), (tsize_of opts size);
        repeat constructor; try done; apply dec_not_nil || apply dec_printable. }
    destruct (as_map_fields (str "blksize") (str "timeout") (str "tsize") (dec <$> blksize_of opts)
      (dec <$> timeout_of opts) (dec <$> tsize_of opts size)) as (Hb & Ht & Hz & Ho); [done..| |].
    { by repeat constructor. }
    fold (accepted opts size) in Hb, Ht, Hz, Ho. rewrite Hb, Ht, Hz. split_and!.
    + intros k Hk. destruct (decide (k = str "blksize")) as [->|].
      { rewrite Hb in Hk. unfold blksize_of in Hk. by destruct (opts !! _). }
      destruct (decide (k = str "timeout")) as [->|].
      { rewrite Ht in Hk. unfold timeout_of in Hk. by destruct (opts !! _). }
      destruct (decide (k = str "tsize")) as [->|]; [|by rewrite Ho in Hk].
      rewrite Hz in Hk. unfold tsize_of in Hk. by destruct (opts !! _).
    + unfold blksize_of. destruct (opts !! str "blksize") as [v|]; [|done]. cbn [mbind option_bind].
      destruct (Atoi v) as [n| |]; try done. cbn. apply Atoi_dec. unfold clamp, minOptBlockSize, maxOptBlockSize.
      destruct (n <? 8) eqn:?; zbool; [lia|]. destruct (_ <? n) eqn:?; zbool; lia.
    + unfold timeout_of. destruct (opts !! str "timeout") as [v|]; [|done]. cbn [mbind option_bind].
      destruct (Atoi v) as [n| |]; try done. destruct (_ && _) eqn:E; [|done]. zbool. exists n.
      split; [|done]. apply Atoi_dec. lia.
    + unfold tsize_of. by destruct (opts !! str "tsize").
Qed.
End read_back.

(** ** The theorems at work: twenty bytes in blocks of eight, one packet and one
    acknowledgement lost *)

Definition ex_data : bytes := seqZ 1 20.
Definition ex_file : File := MkFile (image_reader ex_data) 20.
Definition ex_FS : FileSystem := fun p => if bool_decide (p = str "sash") then inl ex_file else inr (true, str "file not found").
Definition ex_server : Server := MkServer None 0 0 0 0 0 0.
Definition ex_opts : gmap bytes bytes := {[str "blksize" := str "8"]}.
Definition ex_faults : list (bool * bool) := [(false, false); (true, false); (false, false); (false, true)].

Lemma ex_policy : plain_policy ex_server.
Proof. by split. Qed.

Lemma transfer_accounts_witness : exists t n',
  serveFile (lossy [10; 0; 0; 2] 2000 8) ex_server ex_FS (fun _ => true) [10; 0; 0; 2] 2000 (str "/sash") ex_opts
    (new_socket [] (waiting, ex_faults)) = Some (t, n') /\ packets n' = blocksSent t + resendTotal t + 1 + 0 /\
    blocksSent t = 3 /\ resendTotal t = 2 /\ bytesAcked t = 20.
Proof.
  destruct (transfer_accounts (lossy [10; 0; 0; 2] 2000 8) ex_server ex_FS (fun _ => true) [10; 0; 0; 2] 2000
    (str "/sash") ex_opts [] (waiting, ex_faults) ex_file ex_policy eq_refl ltac:(discriminate))
    as (t & n' & Hrun & Hspec).
  exists t, n'. split; [exact Hrun|].
  assert (Ht : t = MkTransfer 20 8 3 20 20 2 ROk).
  { vm_compute in Hrun. by injection Hrun as <- _. }
  subst t.
  replace (oack_of ex_server ex_file ex_opts)
    with (Some (be_enc 2 opOACK ++ opt_text "blksize" 8), 8, Second) in Hspec by (by vm_compute).
  destruct Hspec as (_ & _ & _ & Hp & _). exact (conj Hp (conj eq_refl (conj eq_refl eq_refl))).
Defined.

Lemma transfer_delivers_witness : exists t n',
  serveFile (lossy [10; 0; 0; 2] 2000 8) ex_server ex_FS (fun _ => true) [10; 0; 0; 2] 2000 (str "/sash") ex_opts
    (new_socket [] (waiting, ex_faults)) = Some (t, n') /\ t_result t = ROk /\ got (fst (network n')) = ex_data.
Proof.
  pose proof (transfer_delivers ex_server ex_FS (fun _ => true) [10; 0; 0; 2] 2000 (str "/sash") ex_opts ex_faults
    ex_file ex_data ex_policy eq_refl ltac:(discriminate) (image_reader_ok ex_data) eq_refl) as H.
  replace (oack_of ex_server ex_file ex_opts)
    with (Some (be_enc 2 opOACK ++ opt_text "blksize" 8), 8, Second) in H by (by vm_compute).
  destruct H as (t & n' & Hrun & _ & Hok & Hlive). specialize (Hlive eq_refl). destruct (Hok Hlive) as [Hgot _].
  exists t, n'. exact (conj Hrun (conj Hlive Hgot)).
Defined.

Lemma rrq_roundtrip_witness : exists trailing,
  parseRRQ id (rrq (str "/unix") (str "OCTET") [(str "BLKSIZE", str "1024")]) = Ok (str "/unix", str "octet", trailing) /\
  parseOptions id trailing = Some (as_map id [(str "BLKSIZE", str "1024")]).
Proof.
  apply (rrq_roundtrip id (str "/unix") (str "OCTET") [(str "BLKSIZE", str "1024")]).
  - apply (bool_decide_unpack _). vm_compute. exact I.
  - apply (bool_decide_unpack _). vm_compute. exact I.
  - repeat constructor; discriminate.
Defined.

Lemma oack_tells_witness : exists m,
  parseOptions id (drop 2 (be_enc 2 opOACK ++ opt_text "blksize" 8)) = Some m /\
  match m !! str "blksize" with Some v => Atoi v = Ok 8 | None => 8 = blockSize end.
Proof.
  pose proof (oack_tells id ex_opts 20 Second ltac:(lia)) as H.
  replace (negotiateOptions ex_opts 20 blockSize Second)
    with (Some (be_enc 2 opOACK ++ opt_text "blksize" 8), 8, Second) in H by (by vm_compute).
  destruct H as (_ & m & Hm & _ & Hb & _). exists m. exact (conj Hm Hb).
Defined.
