(* ===== verification/Xdr.v ===== *)
(** XDR ([nfs/xdr.go]): the reader of a request's arguments, which never fails
    but remembers that it ran out, and the writer of a reply's body. *)
From S2P Require Import Prelude.

(** ** State-passing computations

    A handler reads its arguments, calls the file system and builds a reply; it
    is a function of the state it starts in. *)
Definition state (St A : Type) : Type := St -> A * St.
#[export] Instance state_ret {St} : MRet (state St) := fun A a s => (a, s).
#[export] Instance state_bind {St} : MBind (state St) := fun A B f m s =>
  let '(a, s) := m s in f a s.

(** ** The reader *)

Record xdrReader := XdrReader { rb : bytes; off : Z; err : bool }.

Definition fail (r : xdrReader) : xdrReader := XdrReader (rb r) (off r) true.
Definition skip (r : xdrReader) (n : Z) : xdrReader := XdrReader (rb r) (off r + n) (err r).

(** [(n + 3) &^ 3]. *)
Definition pad4 (n : Z) : Z := Z.ldiff (n + 3) 3.

Definition uint32 : state xdrReader Z := fun r =>
  if zlen (rb r) <? off r + 4 then (0, fail r)
  else (be (sub (rb r) (off r) 4), skip r 4).

Definition uint64 : state xdrReader Z :=
  hi ← uint32; lo ← uint32; mret (Z.lor (Z.shiftl hi 32) lo).

Definition bool_ : state xdrReader bool := v ← uint32; mret (negb (v =? 0)).

Definition bytes_ (n : Z) : state xdrReader bytes := fun r =>
  if zlen (rb r) <? off r + n then ([], fail r)
  else (sub (rb r) (off r) n, skip r n).

Definition opaque (max : Z) : state xdrReader bytes := fun r =>
  let '(n, r) := uint32 r in
  if err r || (u32 max <? n) || (zlen (rb r) <? off r + n) then ([], fail r)
  else
    let v := sub (rb r) (off r) n in
    let r := skip r (pad4 n) in
    (v, if zlen (rb r) <? off r then fail r else r).

Definition str_ : state xdrReader bytes := fun r => opaque (zlen (rb r)) r.

(** ** The writer: what each call appends to [w.b] *)

Definition writer : Type := bytes -> bytes.

(** One write after another. *)
Definition then_ (a b : writer) : writer := fun w => b (a w).
Infix ">>" := then_ (at level 51, right associativity) : xdr_scope.
Delimit Scope xdr_scope with xdr.

Open Scope xdr_scope.

Definition w_uint32 (v : Z) : writer := fun w => w ++ be_enc 4 v.
Definition w_uint64 (v : Z) : writer := fun w => w ++ be_enc 8 v.
Definition w_bool (v : bool) : writer := if v then w_uint32 1 else w_uint32 0.
Definition w_fixed (p : bytes) : writer := fun w => w ++ p.

(** [for len(w.b)%4 != 0 { w.b = append(w.b, 0) }] stops in three passes at
    most. *)
Fixpoint pad_loop (fuel : nat) (w : bytes) : bytes :=
  match fuel with
  | O => w
  | S fuel => if zlen w mod 4 =? 0 then w else pad_loop fuel (w ++ [0])
  end.

Definition w_opaque (p : bytes) : writer := fun w =>
  pad_loop 4 ((w ++ be_enc 4 (zlen p)) ++ p).

Definition w_nil : writer := fun w => w.
Definition w_list {A} (f : A -> writer) (l : list A) : writer :=
  fun w => fold_left (fun w a => f a w) l w.

(** ** Alignment *)

Lemma pad4_spec n : 0 <= n -> pad4 n = 4 * ((n + 3) / 4).
Proof.
  intros. unfold pad4. change 3 with (Z.ones 2) at 2.
  rewrite Z.ldiff_ones_r, Z.shiftl_mul_pow2, Z.shiftr_div_pow2 by lia.
  change (2 ^ 2) with 4. lia.
Qed.

Lemma pad4_bounds n : 0 <= n -> n <= pad4 n < n + 4 /\ pad4 n mod 4 = 0.
Proof.
  intros. rewrite pad4_spec by lia. pose proof (Z.div_mod (n + 3) 4 ltac:(lia)).
  pose proof (Z.mod_pos_bound (n + 3) 4 ltac:(lia)).
  split; [lia|]. rewrite Z.mul_comm. apply Z.mod_mul. lia.
Qed.

Lemma pad4_mult n : 0 <= n -> n mod 4 = 0 -> pad4 n = n.
Proof.
  intros H0 Hn. rewrite pad4_spec by lia. pose proof (Z.div_mod n 4 ltac:(lia)).
  replace (n + 3) with (3 + (n / 4) * 4) by lia. rewrite Z.div_add by lia. change (3 / 4) with 0. lia.
Qed.

(** [len(w.b)] is rounded up with zeros. *)
Lemma pad_loop_spec w :
  pad_loop 4 w = w ++ replicate (Z.to_nat (pad4 (zlen w) - zlen w)) 0.
Proof.
  pose proof (zlen_nonneg w) as Hw.
  assert (forall fuel k, pad4 (zlen k) - zlen k <= Z.of_nat fuel ->
    pad_loop (S fuel) k = k ++ replicate (Z.to_nat (pad4 (zlen k) - zlen k)) 0) as H.
  { induction fuel as [|fuel IH]; intros k Hk.
    - pose proof (zlen_nonneg k). destruct (pad4_bounds (zlen k)) as [? Hm]; [lia|].
      assert (pad4 (zlen k) = zlen k) as E by lia. rewrite E in Hm.
      cbn [pad_loop]. rewrite Hm, E, Z.sub_diag. cbn. by rewrite app_nil_r.
    - pose proof (zlen_nonneg k). destruct (pad4_bounds (zlen k)) as [Hb Hm]; [lia|].
      cbn [pad_loop]. destruct (zlen k mod 4 =? 0) eqn:E; zbool.
      { rewrite pad4_mult by lia. rewrite Z.sub_diag. cbn. by rewrite app_nil_r. }
      assert (zlen (k ++ [0]) = zlen k + 1) as Hs.
      { by rewrite zlen_app, zlen_cons, (@zlen_nil Z). }
      assert (pad4 (zlen k) <> zlen k) by (intros E'; by rewrite E' in Hm).
      assert (pad4 (zlen k + 1) = pad4 (zlen k)) as Hp.
      { rewrite !pad4_spec in * by lia. f_equal. symmetry.
        pose proof (Z.div_mod (zlen k + 3) 4 ltac:(lia)).
        apply (Z.div_unique _ _ _ ((zlen k + 3) mod 4 + 1)); [|lia].
        left. pose proof (Z.mod_pos_bound (zlen k + 3) 4 ltac:(lia)).
        pose proof (Z.mod_pos_bound (zlen k) 4 ltac:(lia)).
        pose proof (Z.div_mod (zlen k) 4 ltac:(lia)). lia. }
      change (pad_loop (S fuel) (k ++ [0])
        = k ++ replicate (Z.to_nat (pad4 (zlen k) - zlen k)) 0).
      rewrite IH, Hs, Hp by (rewrite Hs, Hp; lia).
      rewrite <- app_assoc. f_equal.
      replace (Z.to_nat (pad4 (zlen k) - zlen k))
        with (S (Z.to_nat (pad4 (zlen k) - (zlen k + 1)))) by lia. done. }
  apply H. pose proof (pad4_bounds (zlen w) Hw). lia.
Qed.

Definition aligned (w : bytes) : Prop := zlen w mod 4 = 0.

(** What an opaque adds to an aligned body. *)
Definition opaque_enc (p : bytes) : bytes :=
  be_enc 4 (zlen p) ++ p ++ replicate (Z.to_nat (pad4 (zlen p) - zlen p)) 0.

Lemma pad4_add m n : 0 <= m -> 0 <= n -> m mod 4 = 0 -> pad4 (m + n) = m + pad4 n.
Proof.
  intros Hm Hn H. rewrite !pad4_spec by lia. pose proof (Z.div_mod m 4 ltac:(lia)).
  replace (m + n + 3) with (n + 3 + (m / 4) * 4) by lia. rewrite Z.div_add by lia. lia.
Qed.

Lemma w_opaque_enc p w : aligned w -> w_opaque p w = w ++ opaque_enc p.
Proof.
  unfold aligned, w_opaque, opaque_enc. intros H. rewrite pad_loop_spec, <- !app_assoc.
  do 3 f_equal. rewrite !zlen_app, zlen_be_enc. change (Z.of_nat 4) with 4.
  pose proof (zlen_nonneg w). pose proof (zlen_nonneg p).
  rewrite Z.add_assoc, pad4_add; [f_equal; f_equal; lia|lia|lia|].
  rewrite Z.add_mod, H by lia. done.
Qed.

Lemma zlen_opaque_enc p : zlen (opaque_enc p) = 4 + pad4 (zlen p).
Proof.
  unfold opaque_enc. rewrite !zlen_app, zlen_be_enc, zlen_replicate.
  pose proof (pad4_bounds (zlen p) (zlen_nonneg p)). lia.
Qed.

Lemma aligned_app a b : aligned a -> aligned b -> aligned (a ++ b).
Proof. unfold aligned. intros Ha Hb. by rewrite zlen_app, Z.add_mod, Ha, Hb by lia. Qed.
Lemma aligned_be4 v : aligned (be_enc 4 v).
Proof. reflexivity. Qed.
Lemma aligned_be8 v : aligned (be_enc 8 v).
Proof. reflexivity. Qed.
Lemma aligned_opaque_enc p : aligned (opaque_enc p).
Proof.
  unfold aligned. rewrite zlen_opaque_enc. pose proof (pad4_bounds (zlen p) (zlen_nonneg p)) as [_ H].
  by rewrite Z.add_mod, H by lia.
Qed.
#[export] Hint Resolve aligned_app aligned_be4 aligned_be8 aligned_opaque_enc : golib.

(** ** Reading what was written *)

(** [m] reads the encoding [enc] as [v], wherever it is. *)
Definition reads {A} (m : state xdrReader A) (enc : bytes) (v : A) : Prop :=
  forall pre post, m (XdrReader (pre ++ enc ++ post) (zlen pre) false)
    = (v, XdrReader (pre ++ enc ++ post) (zlen pre + zlen enc) false).

Lemma reads_bind {A B} (m : state xdrReader A) (f : A -> state xdrReader B) e1 e2 a b :
  reads m e1 a -> reads (f a) e2 b -> reads (m ≫= f) (e1 ++ e2) b.
Proof.
  intros H1 H2 pre post. unfold mbind, state_bind.
  rewrite <- app_assoc, H1.
  specialize (H2 (pre ++ e1) post). rewrite zlen_app, <- app_assoc in H2.
  rewrite H2. by rewrite zlen_app, Z.add_assoc.
Qed.

Lemma reads_ret {A} (a : A) : reads (mret a) [] a.
Proof. intros pre post. unfold mret, state_ret. by rewrite (@zlen_nil Z), Z.add_0_r. Qed.

Lemma read_window (pre enc post : bytes) n : n = zlen enc ->
  (zlen (pre ++ enc ++ post) <? zlen pre + n) = false /\
  sub (pre ++ enc ++ post) (zlen pre) n = enc.
Proof.
  intros ->. pose proof (zlen_nonneg post). split.
  - apply Z.ltb_ge. rewrite !zlen_app. lia.
  - rewrite sub_app_r by lia. rewrite Z.sub_diag. by apply sub_app_l.
Qed.

Lemma reads_uint32 v : 0 <= v < 2 ^ 32 -> reads uint32 (be_enc 4 v) v.
Proof.
  intros Hv pre post. unfold uint32. cbn [rb off].
  destruct (read_window pre (be_enc 4 v) post 4) as [-> ->]; [by rewrite zlen_be_enc|].
  rewrite be_be_enc, zlen_be_enc. change (256 ^ Z.of_nat 4) with (2 ^ 32).
  by rewrite Z.mod_small by lia.
Qed.

Lemma be_enc_split n m v : 0 <= v -> be_enc (n + m) v = be_enc n (v / 256 ^ Z.of_nat m) ++ be_enc m v.
Proof.
  intros Hv. induction n as [|n IH]; [done|].
  change (be_enc (S n + m) v) with ((v / 256 ^ Z.of_nat (n + m)) mod 256 :: be_enc (n + m) v).
  rewrite IH. change (be_enc (S n) (v / 256 ^ Z.of_nat m)) with
    ((v / 256 ^ Z.of_nat m / 256 ^ Z.of_nat n) mod 256 :: be_enc n (v / 256 ^ Z.of_nat m)).
  rewrite Z.div_div by (try apply Z.pow_pos_nonneg; lia).
  by rewrite <- Z.pow_add_r, <- Nat2Z.inj_add, Nat.add_comm by lia.
Qed.

Lemma reads_uint64 v : 0 <= v < 2 ^ 64 -> reads uint64 (be_enc 8 v) v.
Proof.
  intros Hv. rewrite (be_enc_split 4 4) by lia. change (256 ^ Z.of_nat 4) with (2 ^ 32).
  unfold uint64. eapply reads_bind.
  - apply reads_uint32. split; [apply Z.div_pos; lia|apply Z.div_lt_upper_bound; lia].
  - rewrite <- (app_nil_r (be_enc 4 v)). eapply reads_bind.
    + rewrite <- be_enc_u32. apply reads_uint32. apply u32_range.
    + assert (v = Z.lor (Z.shiftl (v / 2 ^ 32) 32) (u32 v)) as E.
      { rewrite Z.lor_comm, lor_shift_add by (lia || apply u32_range).
        unfold u32. rewrite Z.add_comm. apply Z.div_mod. lia. }
      rewrite E at 3. apply reads_ret.
Qed.

Lemma reads_bool (b : bool) : reads bool_ (be_enc 4 (if b then 1 else 0)) b.
Proof.
  unfold bool_. rewrite <- (app_nil_r (be_enc 4 _)). eapply reads_bind.
  - apply reads_uint32. destruct b; lia.
  - destruct b; apply reads_ret.
Qed.

Lemma reads_bytes p : reads (bytes_ (zlen p)) p p.
Proof.
  intros pre post. unfold bytes_. cbn [rb off].
  by destruct (read_window pre p post (zlen p)) as [-> ->].
Qed.

Lemma reads_opaque max p : 0 <= max < 2 ^ 32 -> zlen p <= max ->
  reads (opaque max) (opaque_enc p) p.
Proof.
  intros Hm Hp pre post. pose proof (zlen_nonneg p) as Hp0. unfold opaque.
  pose proof (zlen_opaque_enc p) as Hlen. unfold opaque_enc in *.
  set (fill := replicate (Z.to_nat (pad4 (zlen p) - zlen p)) 0) in *.
  rewrite <- (app_assoc (be_enc 4 (zlen p))).
  rewrite (reads_uint32 (zlen p) ltac:(lia) pre ((p ++ fill) ++ post)). cbn [err rb off].
  rewrite zlen_be_enc. change (Z.of_nat 4) with 4.
  rewrite u32_small, (proj2 (Z.ltb_ge max _)) by lia. cbn [orb].
  rewrite app_assoc, <- (app_assoc p).
  assert (zlen pre + 4 = zlen (pre ++ be_enc 4 (zlen p))) as E by (by rewrite zlen_app).
  rewrite E. destruct (read_window (pre ++ be_enc 4 (zlen p)) p (fill ++ post) (zlen p)) as [-> ->]; [done|].
  cbn [rb off skip err].
  assert (pad4 (zlen p) = zlen p + zlen fill) as Hpad.
  { unfold fill. rewrite zlen_replicate. pose proof (pad4_bounds (zlen p)). lia. }
  rewrite (proj2 (Z.ltb_ge _ _)).
  - f_equal. unfold skip. cbn [rb off err]. f_equal. rewrite Hlen. lia.
  - rewrite Hpad, !zlen_app. pose proof (zlen_nonneg post). lia.
Qed.

(** ** What the reader keeps whatever it is given *)

(** A failed reader stays failed, and the data it reads is never changed. *)
Definition keeps {A} (m : state xdrReader A) : Prop := forall r,
  rb (snd (m r)) = rb r /\ off r <= off (snd (m r)) /\ (err r = true -> err (snd (m r)) = true).

Lemma keeps_ret {A} (a : A) : keeps (mret a).
Proof. intros r. split_and!; done. Qed.

Lemma keeps_bind {A B} (m : state xdrReader A) (f : A -> state xdrReader B) :
  keeps m -> (forall a, keeps (f a)) -> keeps (m ≫= f).
Proof.
  intros Hm Hf r. unfold mbind, state_bind. destruct (Hm r) as (H1 & H2 & H3).
  destruct (m r) as [a r1]. cbn in *. destruct (Hf a r1) as (G1 & G2 & G3).
  split_and!; [congruence|lia|auto].
Qed.

Lemma keeps_uint32 : keeps uint32.
Proof. intros r. unfold uint32. destruct (_ <? _); cbn; split_and!; done || lia. Qed.
Lemma keeps_uint64 : keeps uint64.
Proof. repeat (apply keeps_bind; [apply keeps_uint32|intros]). apply keeps_ret. Qed.
Lemma keeps_bool : keeps bool_.
Proof. apply keeps_bind; [apply keeps_uint32|intros; apply keeps_ret]. Qed.
Lemma keeps_bytes n : 0 <= n -> keeps (bytes_ n).
Proof. intros Hn r. unfold bytes_. destruct (_ <? _); cbn; split_and!; done || lia. Qed.

Lemma uint32_range r : wf_bytes (rb r) -> 0 <= fst (uint32 r) < 2 ^ 32.
Proof.
  intros H. unfold uint32. destruct (_ <? _); cbn; [lia|]. by apply get_u32_range.
Qed.

Lemma be_nonneg l : wf_bytes l -> 0 <= be l.
Proof. apply be_range. Qed.

Lemma keeps_opaque_wf max r : wf_bytes (rb r) ->
  let r' := snd (opaque max r) in
  rb r' = rb r /\ off r <= off r' /\ (err r = true -> err r' = true).
Proof.
  intros Hwf. unfold opaque. pose proof (keeps_uint32 r) as (H1 & H2 & H3).
  pose proof (uint32_range r Hwf). destruct (uint32 r) as [n r1]. cbn [fst snd] in *.
  destruct (err r1 || _ || _) eqn:E; [cbn; auto|].
  pose proof (pad4_bounds n ltac:(lia)).
  cbn [rb off skip err snd]. destruct (zlen (rb r1) <? off r1 + pad4 n); cbn; split_and!; try done; try lia; auto.
Qed.

(** An opaque is at most as long as allowed, and is bytes of the request. *)
Lemma opaque_bound max r : wf_bytes (rb r) -> 0 <= max ->
  zlen (fst (opaque max r)) <= max /\ wf_bytes (fst (opaque max r)).
Proof.
  intros Hwf Hm. unfold opaque.
  pose proof (uint32_range r Hwf). pose proof (keeps_uint32 r) as (H1 & _).
  destruct (uint32 r) as [n r1]. cbn [fst snd] in *.
  destruct (err r1 || (u32 max <? n) || _) eqn:E; cbn.
  { split; [unfold zlen; cbn; lia|constructor]. }
  zbool. rewrite H1. split; [|auto with golib].
  assert (u32 max <= max) by (apply Z.mod_le; lia).
  enough (zlen (sub (rb r) (off r1) n) <= n) by lia.
  unfold zlen, sub. rewrite length_take. lia.
Qed.
