(* ===== verification/Nfs.v ===== *)
(** The file system the NFS server exports ([nfs/nfs.go]): errors, attributes,
    nodes and the interfaces an export implements, with the laws the server's
    theorems rely on. *)
From S2P Require Import Prelude Xdr.

(** ** Errors

    The sentinels an FS returns. An error is what [errors.Is] finds in it: the
    sentinels it wraps, or none. *)
Inductive sentinel :=
| ErrNotFound | ErrNotDir | ErrStale | ErrIO | ErrBadHandle | ErrExist | ErrIsDir
| ErrNotEmpty | ErrInval | ErrAccess | ErrPerm | ErrNoSpace | ErrQuota
| ErrNameTooLong | ErrFBig | ErrXDev | ErrROFS | ErrNotSupp.
#[export] Instance sentinel_eq_dec : EqDecision sentinel.
Proof. solve_decision. Defined.

Definition error : Type := list sentinel.
Definition Is (e : error) (s : sentinel) : bool := bool_decide (s ∈ e).
(** A sentinel returned as it is. *)
Definition only (s : sentinel) : error := [s].

(** ** Times: an instant is a count of nanoseconds since 1970 *)
Definition gotime : Type := Z.
Definition second : Z := 1000000000.
(** [time.Unix(sec, nsec)], [t.Unix()], [t.Nanosecond()] and [t.Equal]. *)
Definition time_Unix (sec nsec : Z) : gotime := sec * second + nsec.
Definition Unix (t : gotime) : Z := t / second.
Definition Nanosecond (t : gotime) : Z := t mod second.
Definition time_Equal (t u : gotime) : bool := t =? u.

(** ** Attributes and directories *)

Record Attr_t := MkAttr {
  a_Mode : Z; Nlink : Z; a_Size : Z; Used : Z; Fileid : Z;
  Atime : gotime; a_Mtime : gotime; Ctime : gotime }.

Record DirEntry (Node : Type) := MkDirEntry { Name : bytes; ent_Node : Node; Cookie : Z }.
Arguments MkDirEntry {Node} Name ent_Node Cookie.
Arguments Name {Node} d.
Arguments ent_Node {Node} d.
Arguments Cookie {Node} d.

Record SetAttr_t := MkSetAttr {
  s_Mode : option Z; s_Size : option Z; s_Atime : option gotime; s_Mtime : option gotime }.

Inductive CreateHow := Unchecked | Guarded | Exclusive.

Record Space_t := MkSpace {
  Total : Z; Free : Z; Avail : Z; Files : Z; FreeFiles : Z; AvailFiles : Z }.

(** ** The interfaces of an export

    [S] is the state of the file system; every call may change it (a read may
    refresh a cache). A call that returns a node and an error returns one of
    them. A [Node] is what the file system answered, so its attributes do not
    change under it. *)
Section interfaces.
Context (S Node : Type).
Notation result A := (state S (A + error)).

Record HandleFS := {
  Handle : Node -> state S bytes;
  NodeByHandle : bytes -> result Node }.

Record WriteFS := {
  SetAttr : Node -> SetAttr_t -> state S (option error);
  WriteAt : Node -> bytes -> Z -> state S (option error);
  Create : Node -> bytes -> CreateHow -> SetAttr_t -> bytes -> result Node;
  Mkdir : Node -> bytes -> SetAttr_t -> result Node;
  Symlink : Node -> bytes -> bytes -> SetAttr_t -> result Node;
  Remove : Node -> bytes -> state S (option error);
  Rmdir : Node -> bytes -> state S (option error);
  Rename : Node -> bytes -> Node -> bytes -> state S (option error) }.

(** [ReadAt n count off] is what the call stored in a buffer of [count] bytes,
    with its error. The optional interfaces are what the type assertions of the
    server find. *)
Record FS := {
  ID : Node -> Z; Mode : Node -> Z; Size : Node -> Z; Mtime : Node -> Z;
  Attr : Node -> option Attr_t;
  MountRoot : bytes -> result Node;
  NodeByID : Z -> result Node;
  Lookup : Node -> bytes -> result Node;
  ReadDir : Node -> result (list (DirEntry Node));
  ReadAt : Node -> Z -> Z -> state S (bytes * option error);
  Readlink : Node -> result bytes;
  handles : option HandleFS;
  writes : option WriteFS;
  space_of : option (result Space_t);
  Exports : option (list bytes) }.
End interfaces.

Arguments Handle {S Node} h.
Arguments NodeByHandle {S Node} h.
Arguments SetAttr {S Node} w.
Arguments WriteAt {S Node} w.
Arguments Create {S Node} w.
Arguments Mkdir {S Node} w.
Arguments Symlink {S Node} w.
Arguments Remove {S Node} w.
Arguments Rmdir {S Node} w.
Arguments Rename {S Node} w.
Arguments ID {S Node} f.
Arguments Mode {S Node} f.
Arguments Size {S Node} f.
Arguments Mtime {S Node} f.
Arguments Attr {S Node} f.
Arguments MountRoot {S Node} f.
Arguments NodeByID {S Node} f.
Arguments Lookup {S Node} f.
Arguments ReadDir {S Node} f.
Arguments ReadAt {S Node} f.
Arguments Readlink {S Node} f.
Arguments handles {S Node} f.
Arguments writes {S Node} f.
Arguments space_of {S Node} f.
Arguments Exports {S Node} f.

(** [attrOf]. [(size + 511) &^ 511] is in 64 bits. *)
Definition attrOf {S Node} (fs : FS S Node) (n : Node) : Attr_t :=
  match Attr fs n with
  | Some a => a
  | None =>
      let size := Z.max (Size fs n) 0 in
      let mt := time_Unix (Mtime fs n) 0 in
      {| a_Mode := Mode fs n; Nlink := 1; a_Size := size;
         Used := Z.ldiff (u64 (size + 511)) 511; Fileid := ID fs n;
         Atime := mt; a_Mtime := mt; Ctime := mt |}
  end.

(** ** What the server relies on

    [view] is what the export's clients can observe of the state. The calls
    that only read leave it alone; a handle is 32 bytes; a read returns at most
    what was asked for. *)
Class FSLaws {S Node V} (fs : FS S Node) (view : S -> V) := {
  law_mountroot : forall p s, view (snd (MountRoot fs p s)) = view s;
  law_nodebyid : forall i s, view (snd (NodeByID fs i s)) = view s;
  law_lookup : forall d n s, view (snd (Lookup fs d n s)) = view s;
  law_readdir : forall d s, view (snd (ReadDir fs d s)) = view s;
  law_readat : forall n c o s, view (snd (ReadAt fs n c o s)) = view s;
  law_readlink : forall n s, view (snd (Readlink fs n s)) = view s;
  law_handle : forall h n s, handles fs = Some h -> view (snd (Handle h n s)) = view s;
  law_nodebyhandle : forall h b s, handles fs = Some h -> view (snd (NodeByHandle h b s)) = view s;
  law_space : forall sp s, space_of fs = Some sp -> view (snd (sp s)) = view s;
  law_handle_size : forall h n s, handles fs = Some h -> zlen (fst (Handle h n s)) = 32;
  law_read_size : forall n c o s, 0 <= c -> zlen (fst (fst (ReadAt fs n c o s))) <= c;
}.

(** ** Handlers

    A handler reads the arguments of the call and calls the file system. *)
Definition handler (S A : Type) : Type := state (xdrReader * S) A.

(** Reading an argument. *)
Definition arg {S A} (m : state xdrReader A) : handler S A := fun '(r, s) =>
  let '(a, r) := m r in (a, (r, s)).
(** Calling the file system. *)
Definition call {S A} (m : state S A) : handler S A := fun '(r, s) =>
  let '(a, s) := m s in (a, (r, s)).
(** [r.err]. *)
Definition failed {S} : handler S bool := fun '(r, s) => (err r, (r, s)).
(** [r.err = true]. *)
Definition set_failed {S} : handler S unit := fun '(r, s) => (tt, (fail r, s)).
(** [time.Now()] in a call: the clock when the arguments have been read so
    far. *)
Definition time_now {S} (now : Z -> gotime) : handler S gotime := fun '(r, s) => (now (off r), (r, s)).

(** ** Predicates on handlers *)

(** [h] leaves the view of the file system alone. *)
Definition pure_view {S A V} (view : S -> V) (h : handler S A) : Prop :=
  forall r s, view (snd (snd (h (r, s)))) = view s.

(** [h] changes the view only if all the arguments could be read. *)
Definition safe_view {S A V} (view : S -> V) (h : handler S A) : Prop :=
  forall r s, err (fst (snd (h (r, s)))) = true -> view (snd (snd (h (r, s)))) = view s.

Section views.
Context {S V : Type} (view : S -> V).

Lemma pure_ret {A} (a : A) : pure_view view (mret a).
Proof. done. Qed.
Lemma pure_bind {A B} (m : handler S A) (f : A -> handler S B) :
  pure_view view m -> (forall a, pure_view view (f a)) -> pure_view view (m ≫= f).
Proof.
  intros Hm Hf r s. unfold mbind, state_bind. specialize (Hm r s).
  destruct (m (r, s)) as [a [r' s']]. cbn in Hm. rewrite <- Hm. apply Hf.
Qed.
Lemma pure_arg {A} (m : state xdrReader A) : pure_view view (arg m).
Proof. intros r s. cbn. by destruct (m r). Qed.
Lemma pure_call {A} (m : state S A) :
  (forall s, view (snd (m s)) = view s) -> pure_view view (call m).
Proof. intros H r s. cbn. specialize (H s). by destruct (m s). Qed.
Lemma pure_failed : pure_view view failed.
Proof. done. Qed.
Lemma pure_set_failed : pure_view view set_failed.
Proof. done. Qed.
Lemma pure_now now : pure_view view (time_now now).
Proof. done. Qed.

Lemma pure_safe {A} (h : handler S A) : pure_view view h -> safe_view view h.
Proof. intros H r s _. apply H. Qed.

Lemma safe_bind {A B} (m : handler S A) (f : A -> handler S B) :
  pure_view view m -> (forall a, safe_view view (f a)) -> safe_view view (m ≫= f).
Proof.
  intros Hm Hf r s. unfold mbind, state_bind. specialize (Hm r s).
  destruct (m (r, s)) as [a [r' s']]. cbn in Hm. rewrite <- Hm. apply Hf.
Qed.

(** The guard every procedure that changes the export starts with. *)
Lemma safe_guard {A} (a : A) (h : handler S A) :
  (forall r s, err r = false -> err (fst (snd (h (r, s)))) = false) ->
  safe_view view (failed ≫= fun b : bool => if b then mret a else h).
Proof.
  intros Hh r s. unfold mbind, state_bind, failed. destruct (err r) eqn:E; [done|].
  intros H. specialize (Hh r s E). congruence.
Qed.
End views.

(** [h] does not touch the arguments. *)
Definition no_args {S A} (h : handler S A) : Prop :=
  forall r s, fst (snd (h (r, s))) = r.

Lemma no_args_ret {S A} (a : A) : no_args (S := S) (mret a).
Proof. done. Qed.
Lemma no_args_bind {S A B} (m : handler S A) (f : A -> handler S B) :
  no_args m -> (forall a, no_args (f a)) -> no_args (m ≫= f).
Proof.
  intros Hm Hf r s. unfold mbind, state_bind. specialize (Hm r s).
  destruct (m (r, s)) as [a [r' s']]. cbn in Hm. subst r'. apply Hf.
Qed.
Lemma no_args_call {S A} (m : state S A) : no_args (call m).
Proof. intros r s. cbn. by destruct (m s). Qed.

Lemma safe_guard_calls {S A V} (view : S -> V) (a : A) (h : handler S A) :
  no_args h -> safe_view view (failed ≫= fun b : bool => if b then mret a else h).
Proof. intros H. apply safe_guard. intros r s E. by rewrite H. Qed.

#[export] Hint Resolve pure_ret pure_bind pure_arg pure_call pure_failed pure_set_failed
  pure_now pure_safe safe_bind safe_guard_calls no_args_ret no_args_bind no_args_call : golib.
