(* ===== verification/Rpc.v ===== *)
(** ONC RPC ([nfs/rpc.go]): record marking, the dispatch of a call to its
    handler, the duplicate request cache and the UDP and TCP servers. *)
From S2P Require Import Prelude Netip Xdr Nfs.

Definition callMsg : Z := 0.
Definition replyMsg : Z := 1.
Definition msgAccepted : Z := 0.
Definition msgDenied : Z := 1.
Definition success : Z := 0.
Definition progUnavail : Z := 1.
Definition progMismatch : Z := 2.
Definition procUnavail : Z := 3.
Definition garbageArgs : Z := 4.
Definition rpcMismatch : Z := 0.

Definition progPortmap : Z := 100000.
Definition progNFS : Z := 100003.
Definition progMount : Z := 100005.

(** ** Replies *)

Definition replyAccepted (xid acceptStat : Z) (body : bytes) : bytes :=
  (w_uint32 xid >> w_uint32 replyMsg >> w_uint32 msgAccepted >> w_uint32 0 >> w_uint32 0
   >> w_uint32 acceptStat >> w_fixed body) [].

Definition replyDenied (xid : Z) : bytes :=
  (w_uint32 xid >> w_uint32 replyMsg >> w_uint32 msgDenied >> w_uint32 rpcMismatch
   >> w_uint32 2 >> w_uint32 2) [].

(** ** The table of procedures *)

Definition procKey : Type := Z * Z * Z.

Record rpcTable (S : Type) := MkTable {
  procs : gmap procKey (handler S bytes);
  versions : gmap Z (Z * Z) }.
Arguments MkTable {S} procs versions.
Arguments procs {S} r.
Arguments versions {S} r.

(** [add(prog, vers, procs)]; no procedure is named twice. *)
Definition add {S} (t : rpcTable S) (prog vers : Z) (ps : list (Z * handler S bytes)) : rpcTable S := {|
  procs := foldr (fun '(proc, h) m => <[(prog, vers, proc) := h]> m) (procs t) ps;
  versions :=
    let r := match versions t !! prog with Some r => r | None => (vers, vers) end in
    <[prog := (Z.min r.1 vers, Z.max r.2 vers)]> (versions t) |}.

Definition empty_table {S} : rpcTable S := MkTable ∅ ∅.

Definition null {S} : handler S bytes := mret [].

(** ** dispatch *)

Definition skipOpaque : state xdrReader unit := fun r =>
  let '(n, r) := uint32 r in
  if u32 (zlen (rb r)) <? n then (tt, fail r)
  else
    let r := skip r (pad4 n) in
    (tt, if zlen (rb r) <? off r then fail r else r).

(** The part of the call after the RPC version: the program, version and
    procedure, with the credential and the verifier passed over. *)
Definition call_header : state xdrReader (Z * Z * Z) :=
  prog ← uint32;
  vers ← uint32;
  proc ← uint32;
  _ ← uint32;
  _ ← skipOpaque;
  _ ← uint32;
  _ ← skipOpaque;
  mret (prog, vers, proc).

(** The reply, [None] when the message is not a call. *)
Definition dispatch {S} (t : rpcTable S) (pkt : bytes) : state S (option bytes) := fun s =>
  let r := XdrReader pkt 0 false in
  let '(xid, r) := uint32 r in
  let '(kind, r) := uint32 r in
  if negb (kind =? callMsg) || err r then (None, s)
  else
    let '(version, r) := uint32 r in
    if negb (version =? 2) then (Some (replyDenied xid), s)
    else
      let '((prog, vers, proc), r) := call_header r in
      if err r then (Some (replyAccepted xid garbageArgs []), s)
      else
        match versions t !! prog with
        | None => (Some (replyAccepted xid progUnavail []), s)
        | Some vr =>
            match procs t !! (prog, vers, 0) with
            | None =>
                let w := (w_uint32 vr.1 >> w_uint32 vr.2) [] in
                (Some (replyAccepted xid progMismatch w), s)
            | Some _ =>
                match procs t !! (prog, vers, proc) with
                | None => (Some (replyAccepted xid procUnavail []), s)
                | Some h =>
                    let '(body, (r, s)) := h (r, s) in
                    if err r then (Some (replyAccepted xid garbageArgs []), s)
                    else (Some (replyAccepted xid success body), s)
                end
            end
        end.

(** ** Clients *)

Inductive addr_kind := UDPAddr | TCPAddr | OtherAddr.
(** A [net.Addr]: its dynamic type, its address and its [String()]. *)
Record net_addr := MkAddr { a_kind : addr_kind; a_IP : bytes; a_String : bytes }.

Definition allowed (AllowIP : option (bytes -> bool)) (addr : net_addr) : bool :=
  match AllowIP with
  | None => true
  | Some allow =>
      match a_kind addr with
      | UDPAddr | TCPAddr => allow (Unmap (AddrFromSlice (a_IP addr)))
      | OtherAddr => false
      end
  end.

(** ** The duplicate request cache *)

Definition drc_size : Z := 64.
Record drcEntry := MkDrcEntry { e_addr : bytes; e_call : bytes; e_reply : option bytes }.
Record drc := MkDrc { ent : list drcEntry; next : Z }.

Definition new_drc : drc := MkDrc (replicate 64 (MkDrcEntry [] [] None)) 0.

Definition nonIdempotent (pkt : bytes) : bool :=
  if (zlen pkt <? 24) || negb (get_u32 pkt 12 =? progNFS) then false
  else
    let proc := get_u32 pkt 20 in
    let vers := get_u32 pkt 16 in
    if vers =? 2 then (proc =? 2) || ((9 <=? proc) && (proc <=? 15))
    else if vers =? 3 then (proc =? 2) || ((8 <=? proc) && (proc <=? 15))
    else false.

Definition matches (a call : bytes) (e : drcEntry) : bool :=
  bool_decide (e_addr e = a) && bool_decide (e_call e = call).

Definition drc_lookup (d : drc) (addr : net_addr) (call : bytes) : option (option bytes) :=
  if negb (nonIdempotent call) then None
  else e_reply <$> head (filter (fun e => matches (a_String addr) call e = true) (ent d)).

Definition drc_store (d : drc) (addr : net_addr) (call : bytes) (reply : option bytes) : drc :=
  if negb (nonIdempotent call) then d
  else {| ent := <[Z.to_nat (next d) := MkDrcEntry (a_String addr) call reply]> (ent d);
          next := (next d + 1) mod zlen (ent d) |}.

(** ** ServeUDP: one datagram *)

Definition serve_packet {S} (AllowIP : option (bytes -> bool)) (t : rpcTable S)
    (p : net_addr * bytes) : state (drc * S) (option bytes) := fun '(d, s) =>
  let '(addr, pkt) := p in
  if negb (allowed AllowIP addr) then (None, (d, s))
  else
    match drc_lookup d addr pkt with
    | Some reply => (reply, (d, s))
    | None =>
        let '(reply, s) := dispatch t pkt s in
        (reply, (drc_store d addr pkt reply, s))
    end.

(** The datagrams of a run, one at a time, and the replies sent. *)
Fixpoint ServeUDP {S} (AllowIP : option (bytes -> bool)) (t : rpcTable S)
    (ps : list (net_addr * bytes)) : state (drc * S) (list (option bytes)) := fun ds =>
  match ps with
  | [] => ([], ds)
  | p :: ps =>
      let '(reply, ds) := serve_packet AllowIP t p ds in
      let '(replies, ds) := ServeUDP AllowIP t ps ds in
      (reply :: replies, ds)
  end.

(** ** Record marking *)

Definition maxRecord : Z := Z.shiftl 1 20.

Inductive record_err :=
| ReadErr (e : io_err)
| errRecordTooLarge.

(** Each fragment takes at least its header from the stream. *)
Fixpoint read_fragments (fuel : nat) (rec : bytes) (s : stream)
    : outcome stuck ((bytes + record_err) * stream) :=
  match fuel with
  | O => Err OutOfFuel
  | S fuel =>
      let '(hdr, e, s) := read_full s 4 in
      match e with
      | Some e =>
          let e := if (0 <? zlen rec) && bool_decide (e = EOF) then UnexpectedEOF else e in
          Ok (inr (ReadErr e), s)
      | None =>
          let h := be hdr in
          let n := Z.land h 0x7fffffff in
          if maxRecord <? zlen rec + n then Ok (inr errRecordTooLarge, s)
          else
            let '(frag, e, s) := read_full s n in
            match e with
            | Some _ => Ok (inr (ReadErr UnexpectedEOF), s)
            | None =>
                if negb (Z.land h 0x80000000 =? 0) then Ok (inl (rec ++ frag), s)
                else read_fragments fuel (rec ++ frag) s
            end
      end
  end.

Definition readRecord (s : stream) : outcome stuck ((bytes + record_err) * stream) :=
  read_fragments (length (sdata s) + 1) [] s.

Definition recordMark (msg : bytes) : bytes :=
  be_enc 4 (Z.lor 0x80000000 (u32 (zlen msg))) ++ msg.

(** ** serveConn: a connection, until its stream or a write fails

    [write k] says whether the [k]-th reply can be written. The result is what
    was written. *)
Fixpoint serve_loop {S} (fuel : nat) (t : rpcTable S) (write : nat -> bool) (k : nat)
    (st : stream) (s : S) : outcome stuck (bytes * S) :=
  match fuel with
  | O => Err OutOfFuel
  | Datatypes.S fuel =>
      '(call, st) ← readRecord st;
      match call with
      | inr _ => Ok ([], s)
      | inl call =>
          let '(reply, s) := dispatch t call s in
          match reply with
          | None => serve_loop fuel t write k st s
          | Some reply =>
              if write k then
                '(out, s) ← serve_loop fuel t write (Datatypes.S k) st s;
                Ok (recordMark reply ++ out, s)
              else Ok ([], s)
          end
      end
  end.

Definition serveConn {S} (t : rpcTable S) (write : nat -> bool) (st : stream) (s : S)
    : outcome stuck (bytes * S) :=
  serve_loop (length (sdata st) + 1) t write 0 st s.

(** ** The arguments of a call *)

Lemma uint32_ok r : err (snd (uint32 r)) = false ->
  uint32 r = (get_u32 (rb r) (off r), skip r 4) /\ off r + 4 <= zlen (rb r) /\ err r = false.
Proof.
  unfold uint32, get_u32. destruct (_ <? _) eqn:E; cbn; [done|]. zbool. auto with lia.
Qed.

Lemma keeps_skipOpaque_err r : err r = true -> err (snd (skipOpaque r)) = true.
Proof.
  unfold skipOpaque. pose proof (keeps_uint32 r) as (_ & _ & H). intros E.
  destruct (uint32 r) as [n r1]. cbn in *. destruct (_ <? _); cbn; [done|].
  destruct (_ <? _); cbn; auto.
Qed.
Lemma skipOpaque_rb r : rb (snd (skipOpaque r)) = rb r.
Proof.
  unfold skipOpaque. pose proof (keeps_uint32 r) as (H & _ & _).
  destruct (uint32 r) as [n r1]. cbn in *. destruct (_ <? _); cbn; [done|].
  by destruct (_ <? _).
Qed.

(** A header that is all there is the words of the packet. *)
Lemma call_header_ok r : err (snd (call_header r)) = false ->
  fst (call_header r) = (get_u32 (rb r) (off r), get_u32 (rb r) (off r + 4), get_u32 (rb r) (off r + 8)) /\
  off r + 12 <= zlen (rb r) /\ err r = false /\ rb (snd (call_header r)) = rb r.
Proof.
  intros H. unfold call_header, mbind, state_bind, mret, state_ret in *.
  destruct (uint32 r) as [prog r1] eqn:E1. destruct (uint32 r1) as [vers r2] eqn:E2.
  destruct (uint32 r2) as [proc r3] eqn:E3. destruct (uint32 r3) as [x4 r4] eqn:E4.
  destruct (skipOpaque r4) as [x5 r5] eqn:E5. destruct (uint32 r5) as [x6 r6] eqn:E6.
  destruct (skipOpaque r6) as [x7 r7] eqn:E7. cbn [fst snd] in *.
  pose proof (keeps_skipOpaque_err r6) as S7. rewrite E7 in S7.
  pose proof (keeps_uint32 r5) as (B6 & _ & S6). rewrite E6 in B6, S6.
  pose proof (keeps_skipOpaque_err r4) as S5. rewrite E5 in S5.
  pose proof (keeps_uint32 r3) as (B4 & _ & S4). rewrite E4 in B4, S4.
  pose proof (skipOpaque_rb r6) as B7. rewrite E7 in B7.
  pose proof (skipOpaque_rb r4) as B5. rewrite E5 in B5. cbn [snd] in *.
  assert (err r3 = false) as H3.
  { destruct (err r3); [|done]. rewrite S7 in H; [done|]. by apply S6, S5, S4. }
  destruct (uint32_ok r2) as (F3 & O3 & H2); [by rewrite E3|].
  destruct (uint32_ok r1) as (F2 & O2 & H1); [by rewrite E2|].
  destruct (uint32_ok r) as (F1 & O1 & H0); [by rewrite E1|].
  rewrite E1 in F1. injection F1 as -> ->. rewrite E2 in F2. injection F2 as -> ->.
  rewrite E3 in F3. injection F3 as -> ->. cbn [rb off skip] in *.
  split_and!; [|lia|done|congruence].
  by replace (off r + 8) with (off r + 4 + 4) by lia.
Qed.

Lemma replyAccepted_enc xid st body :
  replyAccepted xid st body
  = be_enc 4 xid ++ be_enc 4 replyMsg ++ be_enc 4 msgAccepted ++ be_enc 4 0 ++ be_enc 4 0
    ++ be_enc 4 st ++ body.
Proof. unfold replyAccepted, then_, w_uint32, w_fixed. by rewrite <- !app_assoc. Qed.

Lemma replyDenied_enc xid :
  replyDenied xid = be_enc 4 xid ++ be_enc 4 replyMsg ++ be_enc 4 msgDenied
    ++ be_enc 4 rpcMismatch ++ be_enc 4 2 ++ be_enc 4 2.
Proof. unfold replyDenied, then_, w_uint32. by rewrite <- !app_assoc. Qed.

(** The word at offset [k] of a reply. *)
Lemma get_u32_word (pre : bytes) v post k : zlen pre = k -> get_u32 (pre ++ be_enc 4 v ++ post) k = u32 v.
Proof.
  intros <-. unfold get_u32. rewrite sub_app_r by lia. rewrite Z.sub_diag. exact (get_u32_enc post v).
Qed.

Lemma accepted_stat xid st body : get_u32 (replyAccepted xid st body) 20 = u32 st.
Proof.
  rewrite replyAccepted_enc. rewrite !(app_assoc _ _ (be_enc 4 st ++ body)).
  by rewrite (get_u32_word _ _ _ 20).
Qed.
Lemma accepted_kind xid st body : get_u32 (replyAccepted xid st body) 8 = msgAccepted.
Proof.
  rewrite replyAccepted_enc. rewrite (app_assoc (be_enc 4 xid)). by rewrite (get_u32_word _ _ _ 8).
Qed.
Lemma denied_kind xid : get_u32 (replyDenied xid) 8 = msgDenied.
Proof.
  rewrite replyDenied_enc. rewrite (app_assoc (be_enc 4 xid)). by rewrite (get_u32_word _ _ _ 8).
Qed.

(** A reply other than SUCCESS. *)
Lemma refused_not_success xid st body xid' body' : u32 st <> success ->
  Some (replyAccepted xid st body) <> Some (replyAccepted xid' success body').
Proof. intros H E%Some_inj%(f_equal (fun l => get_u32 l 20)). by rewrite !accepted_stat in E. Qed.
Lemma denied_not_success xid xid' body' :
  Some (replyDenied xid) <> Some (replyAccepted xid' success body').
Proof.
  intros E%Some_inj%(f_equal (fun l => get_u32 l 8)).
  by rewrite accepted_kind, denied_kind in E.
Qed.

(** What [dispatch] can do: refuse without touching the state, or run one
    procedure of the table on the rest of the call. *)
Lemma dispatch_inv {S} (t : rpcTable S) pkt s :
  (snd (dispatch t pkt s) = s /\
   forall xid body, fst (dispatch t pkt s) <> Some (replyAccepted xid success body)) \/
  exists h r, 24 <= zlen pkt /\ get_u32 pkt 4 = callMsg /\
    procs t !! (get_u32 pkt 12, get_u32 pkt 16, get_u32 pkt 20) = Some h /\
    err r = false /\ rb r = pkt /\
    let '(body, (r', s')) := h (r, s) in
    snd (dispatch t pkt s) = s' /\
    fst (dispatch t pkt s) =
      Some (if err r' then replyAccepted (get_u32 pkt 0) garbageArgs []
            else replyAccepted (get_u32 pkt 0) success body).
Proof.
  unfold dispatch. set (r0 := XdrReader pkt 0 false).
  destruct (uint32 r0) as [xid r1] eqn:E1. destruct (uint32 r1) as [kind r2] eqn:E2.
  destruct (negb (kind =? callMsg) || err r2) eqn:Ek; [by left|]. zbool.
  destruct (uint32_ok r1) as (F2 & O2 & G1); [by rewrite E2|].
  destruct (uint32_ok r0) as (F1 & O1 & _); [by rewrite E1|].
  rewrite E1 in F1. injection F1 as -> ->. rewrite E2 in F2. injection F2 as -> ->.
  destruct (uint32 (skip (skip r0 4) 4)) as [version r3] eqn:E3.
  destruct (negb (version =? 2)); [left; auto using denied_not_success|].
  destruct (call_header r3) as [[[prog vers] proc] r4] eqn:E4.
  destruct (err r4) eqn:Eh; [left; split; [done|intros; by apply refused_not_success]|].
  destruct (call_header_ok r3) as (F4 & O4 & H3 & B4); [by rewrite E4|]. rewrite E4 in F4, B4.
  destruct (uint32_ok (skip (skip r0 4) 4)) as (F3 & _); [by rewrite E3|].
  rewrite E3 in F3. injection F3 as _ ->. cbn [fst snd rb off skip r0] in *.
  injection F4 as -> -> ->. change (0 + 4 + 4 + 4) with 12 in *.
  change (12 + 4) with 16 in *. change (12 + 8) with 20 in *.
  destruct (versions t !! get_u32 pkt 12) as [vr|];
    [|left; split; [done|intros; by apply refused_not_success]].
  destruct (procs t !! (get_u32 pkt 12, get_u32 pkt 16, 0)) as [h0|];
    [|left; split; [done|intros; by apply refused_not_success]].
  destruct (procs t !! (get_u32 pkt 12, _, _)) as [h|] eqn:Eproc;
    [|left; split; [done|intros; by apply refused_not_success]].
  right. exists h, r4.
  split; [lia|]. split; [assumption|]. split; [done|]. split; [done|]. split; [done|].
  destruct (h (r4, s)) as [body [r' s']]. by destruct (err r').
Qed.

(** ** Replies: every call gets one that carries its transaction id *)

Lemma word0 v (l : bytes) : get_u32 (be_enc 4 v ++ l) 0 = u32 v.
Proof. apply get_u32_enc. Qed.
Lemma word1 v w (l : bytes) : get_u32 (be_enc 4 v ++ be_enc 4 w ++ l) 4 = u32 w.
Proof. by rewrite (get_u32_word (be_enc 4 v) w l 4). Qed.

Definition reply_for (xid : Z) (reply : bytes) : Prop :=
  24 <= zlen reply /\ get_u32 reply 0 = xid /\ get_u32 reply 4 = replyMsg.

Lemma accepted_reply xid st body : 0 <= xid < 2 ^ 32 -> reply_for xid (replyAccepted xid st body).
Proof.
  intros Hx. rewrite replyAccepted_enc. unfold reply_for.
  rewrite word0, word1, !zlen_app, !zlen_be_enc. pose proof (zlen_nonneg body).
  split_and!; [lia|by apply u32_small|done].
Qed.
Lemma denied_reply xid : 0 <= xid < 2 ^ 32 -> reply_for xid (replyDenied xid).
Proof.
  intros Hx. rewrite replyDenied_enc. unfold reply_for.
  rewrite word0, word1, !zlen_app, !zlen_be_enc.
  split_and!; [lia|by apply u32_small|done].
Qed.

(** A message is answered exactly when it is a call - eight bytes, the second
    word CALL - and the answer is a reply with the call's transaction id. *)
Theorem dispatch_answers {S} (t : rpcTable S) pkt s : wf_bytes pkt ->
  match fst (dispatch t pkt s) with
  | None => zlen pkt < 8 \/ get_u32 pkt 4 <> callMsg
  | Some reply => 8 <= zlen pkt /\ get_u32 pkt 4 = callMsg /\ reply_for (get_u32 pkt 0) reply
  end.
Proof.
  intros Hwf. unfold dispatch. set (r0 := XdrReader pkt 0 false).
  pose proof (get_u32_range pkt 0 Hwf) as Hx.
  destruct (uint32 r0) as [xid r1] eqn:E1. destruct (uint32 r1) as [kind r2] eqn:E2.
  destruct (negb (kind =? callMsg) || err r2) eqn:Ek.
  - cbn [fst]. destruct (decide (zlen pkt < 8)) as [|Hlen]; [by left|right].
    unfold uint32 in E1, E2. cbn [rb off r0] in E1. rewrite (proj2 (Z.ltb_ge _ _)) in E1 by lia.
    injection E1 as _ <-. cbn [rb off skip r0] in E2. rewrite (proj2 (Z.ltb_ge _ _)) in E2 by lia.
    injection E2 as <- <-. cbn [err skip rb off r0] in Ek. rewrite orb_false_r in Ek. zbool. exact Ek.
  - zbool. destruct (uint32_ok r1) as (F2 & O2 & G1); [by rewrite E2|].
    destruct (uint32_ok r0) as (F1 & O1 & _); [by rewrite E1|].
    rewrite E1 in F1. injection F1 as -> ->. rewrite E2 in F2. injection F2 as -> ->.
    cbn [rb off skip r0] in *.
    assert (forall st body, reply_for (get_u32 pkt 0) (replyAccepted (get_u32 pkt 0) st body))
      as HA by (intros; by apply accepted_reply).
    destruct (uint32 (skip (skip r0 4) 4)) as [version r3]. destruct (negb (version =? 2)); cbn [fst].
    { split_and!; [lia|assumption|]. by apply denied_reply. }
    destruct (call_header r3) as [[[prog vers] proc] r4]. destruct (err r4); cbn [fst].
    { split_and!; [lia|assumption|apply HA]. }
    destruct (versions t !! prog); cbn [fst]; [|split_and!; [lia|assumption|apply HA]].
    destruct (procs t !! _); cbn [fst]; [|split_and!; [lia|assumption|apply HA]].
    destruct (procs t !! _) as [h'|]; cbn [fst]; [|split_and!; [lia|assumption|apply HA]].
    destruct (h' _) as [body [r' s']]. destruct (err r'); split_and!; (lia || assumption || apply HA).
Qed.

(** ** A call that is all there reaches its handler *)

Definition call_bytes (xid prog vers proc cflavor : Z) (cred : bytes) (vflavor : Z) (verf args : bytes) : bytes :=
  be_enc 4 xid ++ be_enc 4 callMsg ++ be_enc 4 2 ++
  (be_enc 4 prog ++ be_enc 4 vers ++ be_enc 4 proc ++ be_enc 4 cflavor ++ opaque_enc cred
   ++ be_enc 4 vflavor ++ opaque_enc verf) ++ args.

Lemma reads_skipOpaque p : zlen p < 2 ^ 32 -> forall pre post,
  zlen (pre ++ opaque_enc p ++ post) < 2 ^ 32 ->
  skipOpaque (XdrReader (pre ++ opaque_enc p ++ post) (zlen pre) false)
    = (tt, XdrReader (pre ++ opaque_enc p ++ post) (zlen pre + zlen (opaque_enc p)) false).
Proof.
  intros Hp pre post Hlen. pose proof (zlen_nonneg p) as Hp0. unfold skipOpaque.
  pose proof (zlen_opaque_enc p) as Hpl. rewrite !zlen_app in Hlen.
  pose proof (zlen_nonneg pre). pose proof (zlen_nonneg post).
  pose proof (pad4_bounds (zlen p) Hp0) as Hpad.
  pose proof (reads_uint32 (zlen p) ltac:(lia) pre
    ((p ++ replicate (Z.to_nat (pad4 (zlen p) - zlen p)) 0) ++ post)) as Hr.
  rewrite (app_assoc (be_enc 4 (zlen p))) in Hr. fold (opaque_enc p) in Hr. rewrite Hr.
  unfold skip. cbn [rb off err fail]. rewrite zlen_be_enc. change (Z.of_nat 4) with 4.
  rewrite !zlen_app, Hpl in *. rewrite u32_small, !(proj2 (Z.ltb_ge _ _)) by lia.
  do 2 f_equal. lia.
Qed.

(** [reads] inside a packet whose length fits 32 bits. *)
Definition reads_in {A} (m : state xdrReader A) (enc : bytes) (v : A) : Prop :=
  forall pre post, zlen (pre ++ enc ++ post) < 2 ^ 32 ->
    m (XdrReader (pre ++ enc ++ post) (zlen pre) false)
      = (v, XdrReader (pre ++ enc ++ post) (zlen pre + zlen enc) false).

Lemma reads_in_bind {A B} (m : state xdrReader A) (f : A -> state xdrReader B) e1 e2 a b :
  reads_in m e1 a -> reads_in (f a) e2 b -> reads_in (m ≫= f) (e1 ++ e2) b.
Proof.
  intros H1 H2 pre post Hl. unfold mbind, state_bind. rewrite <- app_assoc in *.
  rewrite H1 by done. specialize (H2 (pre ++ e1) post). rewrite (zlen_app pre e1), <- app_assoc in H2.
  rewrite H2 by done. by rewrite (zlen_app e1), Z.add_assoc.
Qed.

Lemma reads_in_reads {A} (m : state xdrReader A) enc v : reads m enc v -> reads_in m enc v.
Proof. intros H pre post _. apply H. Qed.

Lemma reads_call_header prog vers proc cf cred vf verf :
  0 <= prog < 2 ^ 32 -> 0 <= vers < 2 ^ 32 -> 0 <= proc < 2 ^ 32 ->
  0 <= cf < 2 ^ 32 -> 0 <= vf < 2 ^ 32 -> zlen cred < 2 ^ 32 -> zlen verf < 2 ^ 32 ->
  reads_in call_header
    (be_enc 4 prog ++ be_enc 4 vers ++ be_enc 4 proc ++ be_enc 4 cf ++ opaque_enc cred
     ++ be_enc 4 vf ++ opaque_enc verf) (prog, vers, proc).
Proof.
  intros. unfold call_header.
  do 4 (eapply reads_in_bind; [by apply reads_in_reads, reads_uint32|]).
  eapply reads_in_bind; [intros pre post Hl; by apply reads_skipOpaque|].
  eapply reads_in_bind; [by apply reads_in_reads, reads_uint32|].
  rewrite <- (app_nil_r (opaque_enc verf)).
  eapply reads_in_bind; [intros pre post Hl; by apply reads_skipOpaque|].
  apply reads_in_reads, reads_ret.
Qed.

(** A well-formed call of a procedure in the table runs its handler on exactly
    the arguments after the credential and the verifier, whatever those hold;
    the reply is its body, or GARBAGE_ARGS when it could not read them. *)
Theorem dispatch_runs {S} (t : rpcTable S) xid prog vers proc cf cred vf verf args h h0 vr s :
  0 <= xid < 2 ^ 32 -> 0 <= prog < 2 ^ 32 -> 0 <= vers < 2 ^ 32 -> 0 <= proc < 2 ^ 32 ->
  0 <= cf < 2 ^ 32 -> 0 <= vf < 2 ^ 32 -> zlen cred < 2 ^ 32 -> zlen verf < 2 ^ 32 ->
  let pkt := call_bytes xid prog vers proc cf cred vf verf args in
  zlen pkt < 2 ^ 32 ->
  versions t !! prog = Some vr -> procs t !! (prog, vers, 0) = Some h0 ->
  procs t !! (prog, vers, proc) = Some h ->
  dispatch t pkt s =
    let '(body, (r, s')) := h (XdrReader pkt (zlen pkt - zlen args) false, s) in
    (Some (if err r then replyAccepted xid garbageArgs [] else replyAccepted xid success body), s').
Proof.
  intros Hx Hp Hv Hc Hcf Hvf Hcr Hve pkt Hlen Hvr H0 Hh. unfold dispatch.
  set (hdr := be_enc 4 prog ++ be_enc 4 vers ++ be_enc 4 proc ++ be_enc 4 cf ++ opaque_enc cred
     ++ be_enc 4 vf ++ opaque_enc verf).
  assert (pkt = [] ++ be_enc 4 xid ++ (be_enc 4 callMsg ++ be_enc 4 2 ++ hdr ++ args)) as E1 by done.
  assert (pkt = be_enc 4 xid ++ be_enc 4 callMsg ++ (be_enc 4 2 ++ hdr ++ args)) as E2 by done.
  assert (pkt = (be_enc 4 xid ++ be_enc 4 callMsg) ++ be_enc 4 2 ++ (hdr ++ args)) as E3
    by (by rewrite E2, <- app_assoc).
  assert (pkt = (be_enc 4 xid ++ be_enc 4 callMsg ++ be_enc 4 2) ++ hdr ++ args) as E4
    by (by rewrite E2, <- !app_assoc).
  pose proof (reads_uint32 xid Hx [] (be_enc 4 callMsg ++ be_enc 4 2 ++ hdr ++ args)) as R1.
  rewrite <- E1 in R1. change (zlen []) with 0 in R1. rewrite R1. clear R1.
  pose proof (reads_uint32 callMsg ltac:(unfold callMsg; lia) (be_enc 4 xid) (be_enc 4 2 ++ hdr ++ args)) as R2.
  rewrite <- E2 in R2. rewrite !zlen_be_enc in R2 |- *. change (0 + Z.of_nat 4) with (Z.of_nat 4). rewrite R2.
  clear R2. cbn [err negb orb]. change (callMsg =? callMsg) with true. cbn [err negb orb].
  pose proof (reads_uint32 2 ltac:(lia) (be_enc 4 xid ++ be_enc 4 callMsg) (hdr ++ args)) as R3.
  rewrite <- E3, zlen_app, !zlen_be_enc in R3. rewrite ?zlen_be_enc. rewrite R3. clear R3.
  change (2 =? 2) with true. cbn [negb].
  pose proof (reads_call_header prog vers proc cf cred vf verf Hp Hv Hc Hcf Hvf Hcr Hve
    (be_enc 4 xid ++ be_enc 4 callMsg ++ be_enc 4 2) args) as R4.
  fold hdr in R4. rewrite <- E4, !zlen_app, !zlen_be_enc in R4.
  change (Z.of_nat 4 + Z.of_nat 4 + Z.of_nat 4) with (Z.of_nat 4 + (Z.of_nat 4 + Z.of_nat 4)).
  rewrite R4 by done. clear R4. cbn [err]. rewrite Hvr, H0, Hh.
  assert (zlen pkt - zlen args = Z.of_nat 4 + (Z.of_nat 4 + Z.of_nat 4) + zlen hdr) as ->.
  { rewrite E4, !zlen_app, !zlen_be_enc. lia. }
  destruct (h _) as [body [r' s']]. by destruct (err r').
Qed.

(** ** Retransmissions over UDP *)

Definition wf_drc (d : drc) : Prop := length (ent d) = 64%nat /\ 0 <= next d < drc_size.

Lemma store_wf d a c r : wf_drc d -> wf_drc (drc_store d a c r).
Proof.
  intros [Hl Hn]. unfold drc_store, wf_drc, drc_size in *. destruct (negb _); [done|]. cbn.
  rewrite length_insert. split; [done|]. unfold zlen. rewrite Hl. apply Z.mod_pos_bound. lia.
Qed.

(** The reply to a call is in slot [i], stored [j] calls ago, and nowhere
    else. *)
Definition kept (a call : bytes) (reply : option bytes) (i j : Z) (d : drc) : Prop :=
  wf_drc d /\ 0 <= i < drc_size /\ 0 <= j /\ next d = (i + 1 + j) mod drc_size /\
  ent d !! Z.to_nat i = Some (MkDrcEntry a call reply) /\
  (forall k e, ent d !! k = Some e -> matches a call e = true -> k = Z.to_nat i).

Lemma head_filter_at (l : list drcEntry) (P : drcEntry -> Prop) `{forall e, Decision (P e)} i e :
  l !! i = Some e -> P e -> (forall k e', l !! k = Some e' -> P e' -> k = i) ->
  head (filter P l) = Some e.
Proof.
  intros Hi HP Hu. rewrite <- (take_drop_middle l i e Hi), filter_app, filter_cons_True by done.
  assert (filter P (take i l) = []) as ->; [|done].
  destruct (filter P (take i l)) as [|e' r] eqn:E; [done|].
  assert (e' ∈ filter P (take i l)) as Hin by (rewrite E; left).
  apply list_elem_of_filter in Hin as [Hp Hin].
  apply list_elem_of_lookup in Hin as [k Hk]. apply lookup_take_Some in Hk as [Hk Hlt].
  pose proof (Hu k e' Hk Hp). lia.
Qed.

Lemma kept_lookup a call reply i j d addr :
  kept a call reply i j d -> a_String addr = a -> nonIdempotent call = true ->
  drc_lookup d addr call = Some reply.
Proof.
  intros (_ & _ & _ & _ & He & Hu) <- Hn. unfold drc_lookup. rewrite Hn. cbn [negb].
  rewrite (head_filter_at _ _ (Z.to_nat i) _ He); [done| |done].
  unfold matches. by rewrite !bool_decide_eq_true_2 by done.
Qed.

Lemma kept_store a call reply i j d addr c r :
  kept a call reply i j d -> j < 63 ->
  drc_lookup d addr c = None ->
  kept a call reply i (j + (if nonIdempotent c then 1 else 0)) (drc_store d addr c r).
Proof.
  intros K Hlt Hmiss. pose proof K as (Hwf & Hi & Hj & Hnext & He & Hu). unfold drc_store, drc_lookup in *.
  destruct (nonIdempotent c); cbn [negb] in *; [|by rewrite Z.add_0_r].
  pose proof Hwf as [Hl Hn]. unfold drc_size in *.
  pose proof (Z.mod_pos_bound (i + 1 + j) 64 ltac:(lia)).
  assert (next d <> i) as Hne.
  { rewrite Hnext. intros E. pose proof (Z.div_mod (i + 1 + j) 64 ltac:(lia)). lia. }
  unfold kept, wf_drc, drc_size. cbn [ent next]. rewrite length_insert.
  assert (0 <= (next d + 1) mod zlen (ent d) < 64).
  { unfold zlen. rewrite Hl. apply Z.mod_pos_bound. lia. }
  split; [done|]. split; [done|]. split; [lia|]. split; [|split].
  - unfold zlen. rewrite Hl, Hnext. change (Z.of_nat 64) with 64.
    rewrite Zplus_mod_idemp_l. f_equal. lia.
  - rewrite list_lookup_insert_ne by lia. done.
  - intros k e Hk Hm. destruct (decide (k = Z.to_nat (next d))) as [->|Hk'].
    + exfalso. rewrite list_lookup_insert in Hk by lia. rewrite decide_True in Hk by (split; [done|lia]).
      injection Hk as <-. unfold matches in Hm.
      cbn in Hm. apply andb_true_iff in Hm as [Ha%bool_decide_eq_true Hc%bool_decide_eq_true].
      subst a call.
      rewrite (head_filter_at _ _ (Z.to_nat i) _ He) in Hmiss; [done| |done].
      unfold matches. by rewrite !bool_decide_eq_true_2.
    + rewrite list_lookup_insert_ne in Hk by done. by apply (Hu k e).
Qed.

Definition counted (ps : list (net_addr * bytes)) : Z :=
  zlen (filter (fun p => nonIdempotent p.2 = true) ps).

Section udp.
Context {S : Type} (AllowIP : option (bytes -> bool)) (t : rpcTable S).

Lemma serve_packet_kept a call reply i j d s p :
  kept a call reply i j d -> j + (if nonIdempotent p.2 then 1 else 0) <= 63 ->
  exists j', kept a call reply i j' (fst (snd (serve_packet AllowIP t p (d, s)))) /\
    j' <= j + (if nonIdempotent p.2 then 1 else 0).
Proof.
  intros K Hj. destruct p as [addr pkt]. cbn [snd] in *. unfold serve_packet.
  destruct (negb (allowed AllowIP addr)).
  { exists j. split; [done|]. destruct (nonIdempotent pkt); lia. }
  destruct (drc_lookup d addr pkt) eqn:E.
  { exists j. split; [done|]. destruct (nonIdempotent pkt); lia. }
  destruct (dispatch t pkt s) as [r s']. cbn [fst snd].
  destruct (nonIdempotent pkt) eqn:En.
  - exists (j + 1). split; [|lia].
    replace (j + 1) with (j + (if nonIdempotent pkt then 1 else 0)) by (rewrite En; lia).
    apply kept_store; [done|lia|done].
  - exists j. split; [|lia]. unfold drc_store. by rewrite En.
Qed.

Lemma counted_cons p ps : counted (p :: ps) = (if nonIdempotent p.2 then 1 else 0) + counted ps.
Proof.
  unfold counted. destruct (nonIdempotent p.2) eqn:E.
  - rewrite filter_cons_True by done. by rewrite zlen_cons.
  - rewrite filter_cons_False by congruence. lia.
Qed.

Lemma ServeUDP_kept a call reply i j ps d s :
  kept a call reply i j d -> j + counted ps <= 63 ->
  exists j', kept a call reply i j' (fst (snd (ServeUDP AllowIP t ps (d, s)))).
Proof.
  revert j d s. induction ps as [|p ps IH]; intros j d s K Hj; [by exists j|].
  cbn [ServeUDP]. rewrite counted_cons in Hj. unfold counted in *.
  pose proof (zlen_nonneg (filter (fun p => nonIdempotent p.2 = true) ps)).
  destruct (serve_packet_kept a call reply i j d s p K) as (j1 & K1 & Hj1); [lia|].
  destruct (serve_packet AllowIP t p (d, s)) as [r1 [d1 s1]]. cbn [fst snd] in K1.
  destruct (IH j1 d1 s1 K1) as (j2 & K2); [lia|].
  destruct (ServeUDP AllowIP t ps (d1, s1)) as [rs [d2 s2]]. by exists j2.
Qed.

(** C30. At most once: when a call the cache keeps has been run, the same call from
    the same address is answered with the same reply and runs nothing, as long
    as fewer than 64 calls the cache keeps came in between - whatever those
    were, and however often the client sends it. *)
Theorem retransmission addr pkt d s reply d1 s1 ps :
  wf_drc d -> allowed AllowIP addr = true -> nonIdempotent pkt = true ->
  drc_lookup d addr pkt = None ->
  serve_packet AllowIP t (addr, pkt) (d, s) = (reply, (d1, s1)) ->
  counted ps < drc_size ->
  let '(_, (d2, s2)) := ServeUDP AllowIP t ps (d1, s1) in
  serve_packet AllowIP t (addr, pkt) (d2, s2) = (reply, (d2, s2)).
Proof.
  intros Hwf Ha Hn Hmiss Hrun Hps. unfold drc_size in Hps.
  assert (kept (a_String addr) pkt reply (next d) 0 d1) as K.
  { unfold serve_packet in Hrun. rewrite Ha, Hmiss in Hrun. cbn [negb] in Hrun.
    destruct (dispatch t pkt s) as [r s'] eqn:Ed. injection Hrun as <- <- <-.
    unfold kept. split; [by apply store_wf|]. destruct Hwf as [Hl Hx].
    unfold drc_lookup, drc_store in *. rewrite Hn in *. cbn [negb ent next] in *.
    split; [done|]. split; [lia|]. split; [|split].
    - unfold zlen. rewrite Hl. by rewrite Z.add_0_r.
    - rewrite list_lookup_insert. apply decide_True. unfold drc_size in Hx. split; [done|lia].
    - intros k e Hk Hm. destruct (decide (k = Z.to_nat (next d))) as [|Hne]; [done|exfalso].
      rewrite list_lookup_insert_ne in Hk by done.
      assert (e ∈ filter (fun e => matches (a_String addr) pkt e = true) (ent d)) as Hin.
      { apply list_elem_of_filter. split; [done|]. by eapply list_elem_of_lookup_2. }
      destruct (filter _ (ent d)) as [|e' l]; [|done]. by apply not_elem_of_nil in Hin. }
  destruct (ServeUDP_kept _ _ _ _ _ ps d1 s1 K) as (j & K2); [lia|].
  destruct (ServeUDP AllowIP t ps (d1, s1)) as [rs [d2 s2]]. cbn [fst snd] in K2.
  unfold serve_packet. rewrite Ha. cbn [negb].
  by rewrite (kept_lookup _ _ _ _ _ _ addr K2 eq_refl Hn).
Qed.
End udp.

(** ** Records *)

Definition max_frag : Z := 0x7fffffff.

(** A fragment: its header and its bytes. *)
Definition fragment (final : bool) (p : bytes) : bytes :=
  be_enc 4 (zlen p + (if final then 2 ^ 31 else 0)) ++ p.

Lemma read_full_take l rest f n : zlen l = n ->
  read_full (MkStream (l ++ rest) f) n = (l, None, MkStream rest f).
Proof.
  intros <-. unfold read_full, zlen. cbn [sdata sfail]. rewrite Nat2Z.id.
  rewrite take_app_length, drop_app_length. by rewrite Z.leb_refl.
Qed.

Lemma header_bits n (final : bool) : 0 <= n < 2 ^ 31 ->
  let h := n + (if final then 2 ^ 31 else 0) in
  Z.land h 0x7fffffff = n /\ negb (Z.land h 0x80000000 =? 0) = final.
Proof.
  intros Hn h. change 0x7fffffff with (Z.ones 31). rewrite Z.land_ones by lia. split.
  - subst h. destruct final; [|rewrite Z.add_0_r; by apply Z.mod_small].
    rewrite <- (Z.mul_1_l (2 ^ 31)) at 1. rewrite Z_mod_plus_full. by apply Z.mod_small.
  - assert (Z.land h 0x80000000 = if final then 0x80000000 else 0) as ->; [|by destruct final].
    apply Z.bits_inj'. intros k Hk. rewrite Z.land_spec.
    change 0x80000000 with (2 ^ 31). rewrite Z.pow2_bits_eqb by lia.
    destruct (31 =? k) eqn:E; zbool.
    + subst k. rewrite andb_true_r, Z.testbit_eqb, <- (Z.mul_1_l (2 ^ 31)) by lia. subst h.
      destruct final.
      * rewrite <- (Z.mul_1_l (2 ^ 31)) at 1. rewrite Z.div_add, Z.div_small by lia. done.
      * rewrite Z.add_0_r, Z.mul_1_l, Z.div_small by lia. done.
    + rewrite andb_false_r. destruct final; [|by rewrite Z.bits_0].
      rewrite Z.pow2_bits_eqb by lia. symmetry. apply Z.eqb_neq. lia.
Qed.

Lemma fragment_header (final : bool) (p : bytes) : zlen p < 2 ^ 31 ->
  be (be_enc 4 (zlen p + (if final then 2 ^ 31 else 0))) = zlen p + (if final then 2 ^ 31 else 0).
Proof.
  intros Hp. pose proof (zlen_nonneg p). rewrite be_be_enc. apply Z.mod_small.
  change (256 ^ Z.of_nat 4) with (2 ^ 32). destruct final; lia.
Qed.

(** One pass over a fragment. *)
Lemma read_fragment fuel rec (final : bool) p rest f :
  zlen rec + zlen p <= maxRecord ->
  read_fragments (Datatypes.S fuel) rec (MkStream (fragment final p ++ rest) f) =
    if final then Ok (inl (rec ++ p), MkStream rest f)
    else read_fragments fuel (rec ++ p) (MkStream rest f).
Proof.
  intros Hp. assert (maxRecord = 1048576) as Hmax by done.
  pose proof (zlen_nonneg p). pose proof (zlen_nonneg rec).
  cbn [read_fragments]. unfold fragment. rewrite <- app_assoc, read_full_take by apply zlen_be_enc.
  rewrite fragment_header by lia.
  destruct (header_bits (zlen p) final) as [-> ->]; [lia|].
  rewrite (proj2 (Z.ltb_ge _ _)) by lia. rewrite read_full_take by done.
  by destruct final.
Qed.

(** A record is read back however it was cut into fragments, and nothing after
    it is read. *)
Theorem readRecord_fragments ps q rest f :
  zlen (mjoin ps ++ q) <= maxRecord ->
  readRecord (MkStream (mjoin (fragment false <$> ps) ++ fragment true q ++ rest) f)
    = Ok (inl (mjoin ps ++ q), MkStream rest f).
Proof.
  intros Hl. unfold readRecord. cbn [sdata].
  enough (forall fuel rec, (length ps < fuel)%nat -> zlen rec + zlen (mjoin ps ++ q) <= maxRecord ->
    read_fragments fuel rec (MkStream (mjoin (fragment false <$> ps) ++ fragment true q ++ rest) f)
      = Ok (inl (rec ++ mjoin ps ++ q), MkStream rest f)) as H.
  { apply H; [|by rewrite (@zlen_nil Z)].
    rewrite length_app. enough (length ps <= length (mjoin (fragment false <$> ps)))%nat by lia.
    clear. induction ps as [|p ps IH]; [done|]. rewrite fmap_cons, mjoin_cons, length_app.
    unfold fragment at 1. rewrite length_app, length_be_enc. cbn [length]. lia. }
  clear Hl. induction ps as [|p ps IH]; intros fuel rec Hf Hl; (destruct fuel as [|fuel]; [lia|]).
  - rewrite fmap_nil. cbn [mjoin list_join app] in *. by rewrite read_fragment.
  - rewrite fmap_cons, !mjoin_cons, <- !app_assoc in *. rewrite !zlen_app in Hl.
    pose proof (zlen_nonneg q). pose proof (zlen_nonneg (mjoin ps)).
    rewrite read_fragment by lia. rewrite IH.
    + by rewrite <- app_assoc.
    + cbn in Hf. lia.
    + rewrite !zlen_app. lia.
Qed.

(** On any stream [readRecord] ends, with a record within the bound or an
    error, and what it leaves is the end of what it was given. *)
Lemma read_fragments_total fuel rec s :
  (length (sdata s) < fuel)%nat -> zlen rec <= maxRecord ->
  exists r s' pre, read_fragments fuel rec s = Ok (r, s') /\ sdata s = pre ++ sdata s' /\
    match r with inl rec' => zlen rec' <= maxRecord /\ (4 <= length pre)%nat | inr _ => True end.
Proof.
  revert rec s. induction fuel as [|fuel IH]; intros rec s Hf Hrec; [lia|].
  cbn [read_fragments]. destruct (read_full s 4) as [[hdr e] s1] eqn:E1.
  assert (exists p1, sdata s = p1 ++ sdata s1 /\ (e = None -> length p1 = 4%nat)) as (p1 & Hd1 & Hp1).
  { unfold read_full in E1. exists (take 4 (sdata s)).
    destruct (4 <=? _) eqn:El; injection E1 as <- <- <-; cbn; rewrite take_drop;
      (split; [done|]); [|done]. zbool. intros _. unfold zlen in El.
    rewrite length_take in *. change (Z.to_nat 4) with 4%nat in *. lia. }
  destruct e as [e|]; [by eexists _, s1, p1|].
  destruct (maxRecord <? _) eqn:Em; [by eexists _, s1, p1|]. zbool.
  destruct (read_full s1 _) as [[frag e] s2] eqn:E2.
  set (n := Z.land (be hdr) 2147483647) in *.
  assert (exists p2, sdata s1 = p2 ++ sdata s2 /\ zlen frag <= Z.max 0 n) as (p2 & Hd2 & Hfr).
  { unfold read_full in E2. exists (take (Z.to_nat n) (sdata s1)).
    destruct (n <=? _); injection E2 as <- <- <-; cbn; rewrite take_drop;
      (split; [done|]); unfold zlen; rewrite length_take; lia. }
  assert (0 <= n) as Hn by (apply Z.land_nonneg; lia).
  destruct e as [e|]; [exists (inr (ReadErr UnexpectedEOF)), s2, (p1 ++ p2); by rewrite <- app_assoc, <- Hd2|].
  specialize (Hp1 eq_refl).
  destruct (negb _).
  - exists (inl (rec ++ frag)), s2, (p1 ++ p2). rewrite zlen_app, length_app, <- app_assoc, <- Hd2.
    split_and!; try done; lia.
  - destruct (IH (rec ++ frag) s2) as (r & s' & pre & -> & Hpre & Hr).
    + rewrite Hd1, Hd2, !length_app in Hf. lia.
    + rewrite zlen_app. lia.
    + exists r, s', (p1 ++ p2 ++ pre). split; [done|]. split.
      * by rewrite Hd1, Hd2, Hpre, <- !app_assoc.
      * destruct r; [|done]. rewrite !length_app. split; [apply Hr|lia].
Qed.

(** On any stream [readRecord] ends, with a record of at most [maxRecord] bytes
    or an error, having taken a prefix of the stream. *)
Theorem readRecord_total s :
  exists r s' pre, readRecord s = Ok (r, s') /\ sdata s = pre ++ sdata s' /\
    match r with inl rec => zlen rec <= maxRecord /\ (4 <= length pre)%nat | inr _ => True end.
Proof. apply read_fragments_total; [lia|]. by vm_compute. Qed.

Lemma recordMark_fragment msg : zlen msg < 2 ^ 31 -> recordMark msg = fragment true msg.
Proof.
  intros Hm. pose proof (zlen_nonneg msg). unfold recordMark, fragment. do 2 f_equal.
  rewrite u32_small, Z.lor_comm by lia. change 0x80000000 with (Z.shiftl 1 31).
  rewrite lor_shift_add by lia. lia.
Qed.

(** ** A TCP connection *)

(** The replies to calls in order, and the state after them. *)
Fixpoint run_calls {S} (t : rpcTable S) (calls : list bytes) (s : S) : list bytes * S :=
  match calls with
  | [] => ([], s)
  | c :: calls =>
      let '(r, s) := dispatch t c s in
      let '(rs, s) := run_calls t calls s in
      (match r with Some r => r :: rs | None => rs end, s)
  end.

Lemma readRecord_mark call rest f : zlen call <= maxRecord ->
  readRecord (MkStream (recordMark call ++ rest) f) = Ok (inl call, MkStream rest f).
Proof.
  intros Hc. assert (maxRecord = 1048576) as Hmax by done.
  rewrite recordMark_fragment by lia. unfold readRecord. cbn [sdata].
  rewrite Nat.add_comm. cbn [Nat.add]. by rewrite read_fragment.
Qed.

(** A connection is answered like its calls one by one: the replies, marked, in
    the order of the calls, each call seeing what the ones before it did, and
    calls sent ahead of the replies make no difference. *)
Theorem serveConn_runs {S} (t : rpcTable S) calls (s : S) :
  Forall (fun c => zlen c <= maxRecord) calls ->
  serveConn t (fun _ => true) (MkStream (mjoin (recordMark <$> calls)) None) s
    = Ok (mjoin (recordMark <$> fst (run_calls t calls s)), snd (run_calls t calls s)).
Proof.
  intros H. unfold serveConn. cbn [sdata].
  enough (forall fuel k s, (length calls < fuel)%nat ->
    serve_loop fuel t (fun _ => true) k (MkStream (mjoin (recordMark <$> calls)) None) s
      = Ok (mjoin (recordMark <$> fst (run_calls t calls s)), snd (run_calls t calls s))) as HH.
  { apply HH. enough (length calls <= length (mjoin (recordMark <$> calls)))%nat by lia. clear.
    induction calls as [|c cs IH]; [done|]. rewrite fmap_cons, mjoin_cons, length_app.
    unfold recordMark at 1. rewrite length_app, length_be_enc. cbn [length]. lia. }
  clear s. induction H as [|c calls Hc H IH]; intros fuel k s Hf; (destruct fuel as [|fuel]; [lia|]).
  - done.
  - rewrite fmap_cons, mjoin_cons. cbn [serve_loop]. rewrite readRecord_mark by done.
    cbn [mbind outcome_bind run_calls]. destruct (dispatch t c s) as [[r|] s'].
    + rewrite IH by (cbn in Hf; lia). cbn [mbind outcome_bind].
      by destruct (run_calls t calls s') as [rs s''].
    + rewrite IH by (cbn in Hf; lia). by destruct (run_calls t calls s') as [rs s''].
Qed.

(** ** The theorems at concrete calls

    A table whose version 2 REMOVE counts how often it runs. *)
Definition counting : rpcTable Z :=
  add empty_table progNFS 2 [(0, null); (10, fun '(r, n) => (be_enc 4 n, (r, n + 1)))].

Definition remove_call : bytes := call_bytes 7 progNFS 2 10 0 [] 0 [] [].
Definition client : net_addr := MkAddr UDPAddr [192; 168; 0; 9] (str "192.168.0.9:1023").

Lemma retransmission_witness :
  exists d1 ps, serve_packet None counting (client, remove_call) (new_drc, 5)
    = (Some (replyAccepted 7 0 (be_enc 4 5)), (d1, 6)) /\ length ps = 63%nat /\
  let '(_, (d2, s2)) := ServeUDP None counting ps (d1, 6) in
  serve_packet None counting (client, remove_call) (d2, s2)
    = (Some (replyAccepted 7 0 (be_enc 4 5)), (d2, s2)).
Proof.
  eexists _, ((fun i => (client, call_bytes i progNFS 2 10 0 [] 0 [] [])) <$> seqZ 8 63).
  split; [vm_compute; reflexivity|]. split; [vm_compute; reflexivity|].
  apply (retransmission None counting client remove_call new_drc 5 (Some (replyAccepted 7 0 (be_enc 4 5)))).
  - split; [reflexivity|]. vm_compute. split; congruence.
  - reflexivity.
  - vm_compute. reflexivity.
  - vm_compute. reflexivity.
  - vm_compute. reflexivity.
  - vm_compute. reflexivity.
Defined.

Lemma dispatch_answers_witness :
  match fst (dispatch counting remove_call 0) with
  | None => zlen remove_call < 8 \/ get_u32 remove_call 4 <> callMsg
  | Some reply => 8 <= zlen remove_call /\ get_u32 remove_call 4 = callMsg /\
      reply_for (get_u32 remove_call 0) reply
  end.
Proof. apply (dispatch_answers counting remove_call 0). apply (bool_decide_unpack _). vm_compute. exact I. Defined.

Lemma dispatch_runs_witness :
  dispatch counting (call_bytes 7 progNFS 2 10 1 [1; 2; 3] 0 [] [9; 9; 9; 9]) 3
    = (Some (replyAccepted 7 success (be_enc 4 3)), 4).
Proof.
  assert (H := dispatch_runs counting 7 progNFS 2 10 1 [1; 2; 3] 0 [] [9; 9; 9; 9]
    (fun '(r, n) => (be_enc 4 n, (r, n + 1))) null (2, 2) 3).
  cbv zeta in H. rewrite H; clear H; [vm_compute; reflexivity|by vm_compute..|].
  unfold counting, add. cbn [procs foldr]. rewrite lookup_insert_ne by done. apply lookup_insert_eq.
Defined.

Lemma readRecord_fragments_witness :
  readRecord (MkStream (mjoin (fragment false <$> [[1; 2]; []; [3]]) ++ fragment true [4] ++ [5; 6]) None)
    = Ok (inl (mjoin [[1; 2]; []; [3]] ++ [4]), MkStream [5; 6] None).
Proof. apply (readRecord_fragments [[1; 2]; []; [3]] [4] [5; 6] None). by vm_compute. Defined.

Lemma serveConn_runs_witness :
  serveConn counting (fun _ => true) (MkStream (mjoin (recordMark <$> [remove_call; [1]; remove_call])) None) 0
    = Ok (mjoin (recordMark <$> [replyAccepted 7 success (be_enc 4 0); replyAccepted 7 success (be_enc 4 1)]), 2).
Proof.
  rewrite (serveConn_runs counting [remove_call; [1]; remove_call] 0).
  - vm_compute. reflexivity.
  - repeat constructor; by vm_compute.
Defined.
