(* ===== verification/Nfs2.v ===== *)
(** NFS version 2 ([nfs/nfs2.go]): filehandles, statuses, and one handler per
    procedure. *)
From S2P Require Import Prelude Xdr Nfs Rpc.

Definition nfsOK : Z := 0.
Definition nfsErrPerm : Z := 1.
Definition nfsErrNoent : Z := 2.
Definition nfsErrIO : Z := 5.
Definition nfsErrNotdir : Z := 20.
Definition nfsErrROFS : Z := 30.
Definition nfsErrStale : Z := 70.

Definition nfNON : Z := 0.
Definition nfREG : Z := 1.
Definition nfDIR : Z := 2.
Definition nfLNK : Z := 5.

Definition fhSize : Z := 32.

(** ** Filehandles *)

Definition encodeFH (id : Z) : bytes := [1] ++ be_enc 8 id ++ replicate 23 0.

Definition decodeFH (fh : bytes) : option Z :=
  if negb (zlen fh =? fhSize) || negb (at_ fh 0 =? 1) then None else Some (get_u64 fh 1).

(** ** Statuses *)

Definition statuses : list (sentinel * Z) := [
  (ErrPerm, nfsErrPerm); (ErrNotFound, nfsErrNoent); (ErrIO, nfsErrIO);
  (ErrAccess, 13); (ErrExist, 17); (ErrXDev, 18); (ErrNotDir, nfsErrNotdir);
  (ErrIsDir, 21); (ErrInval, 22); (ErrFBig, 27); (ErrNoSpace, 28);
  (ErrROFS, nfsErrROFS); (ErrNameTooLong, 63); (ErrNotEmpty, 66);
  (ErrQuota, 69); (ErrStale, nfsErrStale);
  (ErrBadHandle, 10001); (ErrNotSupp, 10004) ].

Fixpoint status_in (l : list (sentinel * Z)) (e : error) : Z :=
  match l with
  | [] => nfsErrIO
  | (s, code) :: l => if Is e s then code else status_in l e
  end.

Definition statusFor (e : option error) : Z :=
  match e with None => nfsOK | Some e => status_in statuses e end.

Definition status2For (e : option error) : Z :=
  match e with
  | None => nfsOK
  | Some e =>
      if Is e ErrBadHandle then nfsErrStale
      else if Is e ErrNotSupp then nfsErrIO
      else statusFor (Some e)
  end.

Definition ftype (mode : Z) : Z :=
  let m := Z.land mode 0xF000 in
  if m =? 0x4000 then nfDIR
  else if m =? 0xA000 then nfLNK
  else if m =? 0x8000 then nfREG
  else nfNON.

Definition clamp32 (v : Z) : Z := u32 (Z.min v max_u32).

(** [cmp.Or]: the first that is not zero. *)
Definition cmp_Or (a b : option error) : option error :=
  match a with Some e => Some e | None => b end.

(** What a result's error is, and a lone error as an FS error. *)
Definition error_of {A} (r : A + error) : option error :=
  match r with inl _ => None | inr e => Some e end.

(** ** The rest of the arguments *)

(** All ones leaves a time alone; a million microseconds is the server's
    clock. *)
Definition readTime2 {S} (now : Z -> gotime) : handler S (option gotime) :=
  sec ← arg uint32; usec ← arg uint32;
  if sec =? max_u32 then mret None
  else if usec =? 1000000 then t ← time_now now; mret (Some t)
  else mret (Some (time_Unix sec (usec * 1000))).

Definition readSattr2 {S} (now : Z -> gotime) : handler S SetAttr_t :=
  m ← arg uint32;
  _ ← arg uint32;
  _ ← arg uint32;
  sz ← arg uint32;
  at_ ← readTime2 now;
  mt ← readTime2 now;
  mret {| s_Mode := if m =? max_u32 then None else Some (Z.land m 0xFFF);
          s_Size := if sz =? max_u32 then None else Some sz;
          s_Atime := at_; s_Mtime := mt |}.

(** ** Directory listings *)

Fixpoint first_after {Node} (ents : list (DirEntry Node)) (cookie i : Z) : Z :=
  match ents with
  | [] => i
  | e :: ents => if cookie <? Cookie e then i else first_after ents cookie (i + 1)
  end.

Definition readdirStart {Node} (ents : list (DirEntry Node)) (cookie : Z) : Z :=
  match ents with
  | e :: _ => if negb (Cookie e =? 0) then first_after ents cookie 0 else Z.min cookie (zlen ents)
  | [] => Z.min cookie (zlen ents)
  end.

(** [entryCookie(ents, i)] for [e = ents[i]]. *)
Definition entryCookie {Node} (e : DirEntry Node) (i : Z) : Z :=
  if negb (Cookie e =? 0) then Cookie e else i + 1.

(** ** The procedures *)

Section procedures.
Context {S Node : Type} (fs : FS S Node) (now : Z -> gotime).
Notation H := (handler S).

Definition resolve (fh : bytes) : H (Node + error) :=
  match handles fs with
  | Some h => call (NodeByHandle h fh)
  | None =>
      match decodeFH fh with
      | None => mret (inr (only ErrBadHandle))
      | Some id => call (NodeByID fs id)
      end
  end.

Definition handle (n : Node) : H bytes :=
  match handles fs with
  | Some h => call (Handle h n)
  | None => mret (encodeFH (ID fs n))
  end.

Definition writeFattr (n : Node) : writer :=
  let a := attrOf fs n in
  w_uint32 (ftype (a_Mode a)) >> w_uint32 (a_Mode a) >> w_uint32 (Nlink a)
  >> w_uint32 0 >> w_uint32 0 >> w_uint32 (clamp32 (a_Size a))
  >> w_uint32 512 >> w_uint32 0 >> w_uint32 (clamp32 (Used a / 512))
  >> w_uint32 1 >> w_uint32 (u32 (Fileid a))
  >> w_list (fun t => w_uint32 (u32 (Unix t)) >> w_uint32 (u32 (Nanosecond t / 1000)))
       [Atime a; a_Mtime a; Ctime a].

(** [s.node(fh)]: the node, or the status. *)
Definition node (fh : bytes) : H (Node + Z) :=
  r ← resolve fh;
  mret match r with inl n => inl n | inr e => inr (status2For (Some e)) end.

Definition attrstat (fh : bytes) (e : option error) : H bytes :=
  match e with
  | Some _ => mret (w_uint32 (status2For e) [])
  | None =>
      r ← node fh;
      mret match r with
           | inr st => w_uint32 st []
           | inl n => (w_uint32 nfsOK >> writeFattr n) []
           end
  end.

Definition nfsGetattr : H bytes := fh ← arg (bytes_ fhSize); attrstat fh None.

Definition nfsLookup : H bytes :=
  fh ← arg (bytes_ fhSize);
  name ← arg str_;
  r ← node fh;
  match r with
  | inr st => mret (w_uint32 st [])
  | inl dir =>
      c ← call (Lookup fs dir name);
      match c with
      | inr e => mret (w_uint32 (status2For (Some e)) [])
      | inl child =>
          h ← handle child;
          mret ((w_uint32 nfsOK >> w_fixed h >> writeFattr child) [])
      end
  end.

Definition nfsReadlink : H bytes :=
  fh ← arg (bytes_ fhSize);
  r ← node fh;
  match r with
  | inr st => mret (w_uint32 st [])
  | inl n =>
      t ← call (Readlink fs n);
      mret match t with
           | inr e => w_uint32 (status2For (Some e)) []
           | inl target => (w_uint32 nfsOK >> w_opaque target) []
           end
  end.

Definition maxRead : Z := 8192.

Definition nfsRead : H bytes :=
  fh ← arg (bytes_ fhSize);
  offset ← arg uint32;
  count ← arg uint32;
  _ ← arg uint32;
  r ← node fh;
  match r with
  | inr st => mret (w_uint32 st [])
  | inl n =>
      let count := if maxRead <? count then maxRead else count in
      '(got, e) ← call (ReadAt fs n count offset);
      mret match e with
           | Some _ =>
               if zlen got =? 0 then w_uint32 (status2For e) []
               else (w_uint32 nfsOK >> writeFattr n >> w_opaque got) []
           | None => (w_uint32 nfsOK >> writeFattr n >> w_opaque got) []
           end
  end.

Definition nfsROFS : H bytes := mret (w_uint32 nfsErrROFS []).
Definition nfsLink : H bytes := mret (w_uint32 nfsErrPerm []).

(** [s.dirop(r)]: the directory and name, or the error; with arguments missing
    the result is not used. *)
Definition dirop : H ((Node + error) * bytes) :=
  fh ← arg (bytes_ fhSize);
  name ← arg str_;
  bad ← failed;
  if (bad : bool) then mret (inr [], [])
  else
    r ← resolve fh;
    mret (match r with
          | inl dir => if negb (ftype (Mode fs dir) =? nfDIR) then inr (only ErrNotDir) else inl dir
          | inr e => inr e
          end, name).

Definition nfsSetattr (wfs : WriteFS S Node) : H bytes :=
  fh ← arg (bytes_ fhSize);
  a ← readSattr2 now;
  bad ← failed;
  if (bad : bool) then mret []
  else
    r ← resolve fh;
    e ← match r with inl n => call (SetAttr wfs n a) | inr e => mret (Some e) end;
    attrstat fh e.

(** [writeTo]: only to a regular file, and not beyond the last offset. *)
Definition writeTo (wfs : WriteFS S Node) (n : Node) (data : bytes) (offset : Z) : H (option error) :=
  let t := ftype (Mode fs n) in
  if t =? nfREG then
    if u64 (max_i64 - zlen data) <? offset then mret (Some (only ErrFBig))
    else call (WriteAt wfs n data offset)
  else if t =? nfDIR then mret (Some (only ErrIsDir))
  else mret (Some (only ErrInval)).

Definition nfsWrite (wfs : WriteFS S Node) : H bytes :=
  fh ← arg (bytes_ fhSize);
  _ ← arg uint32;
  offset ← arg uint32;
  _ ← arg uint32;
  data ← arg (opaque maxRecord);
  bad ← failed;
  if (bad : bool) then mret []
  else
    r ← resolve fh;
    e ← match r with inl n => writeTo wfs n data offset | inr e => mret (Some e) end;
    attrstat fh e.

Definition nfsCreate (wfs : WriteFS S Node) (mkdir : bool) : H bytes :=
  '(dir, name) ← dirop;
  a ← readSattr2 now;
  bad ← failed;
  if (bad : bool) then mret []
  else
    r ← match dir with
        | inl dir =>
            if mkdir then call (Mkdir wfs dir name a)
            else call (Create wfs dir name Unchecked a (replicate 8 0))
        | inr e => mret (inr e)
        end;
    match r with
    | inr e => mret (w_uint32 (status2For (Some e)) [])
    | inl n =>
        fh ← handle n;
        r ← resolve fh;
        mret match r with
             | inr e => w_uint32 (status2For (Some e)) []
             | inl n => (w_uint32 nfsOK >> w_fixed fh >> writeFattr n) []
             end
    end.

Definition nfsRemove (wfs : WriteFS S Node) (rmdir : bool) : H bytes :=
  '(dir, name) ← dirop;
  bad ← failed;
  if (bad : bool) then mret []
  else
    e ← match dir with
        | inl dir => if rmdir then call (Rmdir wfs dir name) else call (Remove wfs dir name)
        | inr e => mret (Some e)
        end;
    mret (w_uint32 (status2For e) []).

Definition nfsRename (wfs : WriteFS S Node) : H bytes :=
  '(from, fromName) ← dirop;
  '(to, toName) ← dirop;
  bad ← failed;
  if (bad : bool) then mret []
  else
    e ← match from, to with
        | inl from, inl to => call (Rename wfs from fromName to toName)
        | _, _ => mret (cmp_Or (error_of from) (error_of to))
        end;
    mret (w_uint32 (status2For e) []).

Definition nfsSymlink (wfs : WriteFS S Node) : H bytes :=
  '(dir, name) ← dirop;
  target ← arg str_;
  a ← readSattr2 now;
  bad ← failed;
  if (bad : bool) then mret []
  else
    e ← match dir with
        | inl dir => r ← call (Symlink wfs dir name target a); mret (error_of r)
        | inr e => mret (Some e)
        end;
    mret (w_uint32 (status2For e) []).

(** The loop over the entries from index [i]: the first is always written. *)
Fixpoint readdir_loop (ents : list (DirEntry Node)) (i : Z) (first : bool) (budget : Z) : writer :=
  match ents with
  | [] => w_uint32 0 >> w_bool true
  | e :: ents =>
      let entrySize := 4 + 4 + 4 + pad4 (zlen (Name e)) + 4 in
      if (budget - entrySize <? 0) && negb first then w_uint32 0 >> w_bool false
      else
        w_uint32 1 >> w_uint32 (u32 (Fileid (attrOf fs (ent_Node e)))) >> w_opaque (Name e)
        >> w_uint32 (u32 (entryCookie e i))
        >> readdir_loop ents (i + 1) false (budget - entrySize)
  end.

Definition nfsReaddir : H bytes :=
  fh ← arg (bytes_ fhSize);
  cookie ← arg uint32;
  count ← arg uint32;
  r ← node fh;
  match r with
  | inr st => mret (w_uint32 st [])
  | inl dir =>
      l ← call (ReadDir fs dir);
      mret match l with
           | inr e => w_uint32 (status2For (Some e)) []
           | inl ents =>
               let start := readdirStart ents cookie in
               (w_uint32 nfsOK >> readdir_loop (drop (Z.to_nat start) ents) start true count) []
           end
  end.

Definition space : H (Space_t + error) :=
  match space_of fs with
  | Some sp => call sp
  | None => mret (inl (MkSpace 0 0 0 0 0 0))
  end.

Definition nfsStatfs : H bytes :=
  fh ← arg (bytes_ fhSize);
  r ← node fh;
  match r with
  | inr st => mret (w_uint32 st [])
  | inl _ =>
      sp ← space;
      mret match sp with
           | inr e => w_uint32 (status2For (Some e)) []
           | inl sp =>
               let bsize := if Total sp =? 0 then 512 else 4096 in
               (w_uint32 nfsOK >> w_uint32 maxRead >> w_uint32 bsize
                >> w_uint32 (clamp32 (Total sp / bsize)) >> w_uint32 (clamp32 (Free sp / bsize))
                >> w_uint32 (clamp32 (Avail sp / bsize))) []
           end
  end.

Definition nfs2Procs : list (Z * H bytes) :=
  let t := [(0, null); (1, nfsGetattr); (3, null); (4, nfsLookup); (5, nfsReadlink);
            (6, nfsRead); (7, null); (16, nfsReaddir); (17, nfsStatfs)] in
  match writes fs with
  | None =>
      t ++ [(2, nfsROFS); (8, nfsROFS); (9, nfsROFS); (10, nfsROFS); (11, nfsROFS);
            (12, nfsROFS); (13, nfsROFS); (14, nfsROFS); (15, nfsROFS)]
  | Some wfs =>
      t ++ [(2, nfsSetattr wfs); (8, nfsWrite wfs); (9, nfsCreate wfs false);
            (10, nfsRemove wfs false); (11, nfsRename wfs); (12, nfsLink);
            (13, nfsSymlink wfs); (14, nfsCreate wfs true); (15, nfsRemove wfs true)]
  end.
End procedures.

(** ** Calls that leave the arguments alone *)

Section no_args.
Context {S Node : Type} (fs : FS S Node).
Lemma no_args_resolve fh : no_args (resolve fs fh).
Proof.
  unfold resolve. destruct (handles fs); [apply no_args_call|].
  destruct (decodeFH fh); [apply no_args_call|apply no_args_ret].
Qed.
Lemma no_args_handle n : no_args (handle fs n).
Proof. unfold handle. destruct (handles fs); [apply no_args_call|apply no_args_ret]. Qed.
End no_args.

(** ** Handles of an export without its own *)

(** The handle made of a node's id is 32 bytes and names that id again. *)
Theorem fh_roundtrip id : 0 <= id < 2 ^ 64 ->
  zlen (encodeFH id) = fhSize /\ decodeFH (encodeFH id) = Some id.
Proof.
  intros Hid. assert (zlen (encodeFH id) = fhSize) as Hl.
  { unfold encodeFH. by rewrite !zlen_app, zlen_be_enc, zlen_replicate. }
  split; [done|]. unfold decodeFH. rewrite Hl. change (negb (fhSize =? fhSize)) with false.
  change (negb (at_ (encodeFH id) 0 =? 1)) with false. cbn [orb]. f_equal.
  unfold get_u64, encodeFH. rewrite sub_app_r by done. rewrite sub_app_l by done.
  rewrite be_be_enc. apply Z.mod_small. exact Hid.
Qed.

Lemma fh_roundtrip_witness : zlen (encodeFH 513) = fhSize /\ decodeFH (encodeFH 513) = Some 513.
Proof. apply (fh_roundtrip 513). lia. Defined.
