(* ===== verification/Nfs3.v ===== *)
(** NFS version 3 ([nfs/nfs3.go]): one handler per procedure. *)
From S2P Require Import Prelude Xdr Nfs Rpc Nfs2.

Definition nfs3ErrInval : Z := 22.
Definition nfs3ErrIsdir : Z := 21.
Definition nfs3ErrBadHandle : Z := 10001.
Definition nfs3ErrNotSync : Z := 10002.
Definition nfs3ErrNotSupp : Z := 10004.
Definition nfs3ErrTooSmall : Z := 10005.

Definition maxRead3 : Z := 32768.

Definition access3Read : Z := 0x01.
Definition access3Lookup : Z := 0x02.
Definition access3Modify : Z := 0x04.
Definition access3Extend : Z := 0x08.
Definition access3Delete : Z := 0x10.
Definition access3Execute : Z := 0x20.

(** [xdrStrLen] of a name. *)
Definition xdrStrLen (s : bytes) : Z := 4 + pad4 (zlen s).

Definition readdirFixed : Z := 4 + 4 + 84 + 8 + 4 + 4.

Definition fsf3Symlink : Z := 0x02.
Definition fsf3Homogeneous : Z := 0x08.
Definition fsf3CanSetTime : Z := 0x10.

Definition fileSync : Z := 2.

Definition writeTime3 (t : gotime) : writer :=
  w_uint32 (u32 (Unix t)) >> w_uint32 (u32 (Nanosecond t)).

(** [refuse3]: a failure that counts [empty] absent attributes. *)
Definition refuse3 {S} (status : Z) (empty : nat) : handler S bytes :=
  mret ((w_uint32 status >> w_list (fun _ => w_bool false) (seq 0 empty)) []).
Definition rofs3 {S} (empty : nat) : handler S bytes := refuse3 nfsErrROFS empty.
Definition notsupp3 {S} (empty : nat) : handler S bytes := refuse3 nfs3ErrNotSupp empty.

Definition readFH3 {S} : handler S bytes := arg (opaque 64).

(** ** Attributes to set *)

Definition readSetTime3 {S} (now : Z -> gotime) : handler S (option gotime) :=
  how ← arg uint32;
  if how =? 0 then mret None
  else if how =? 1 then t ← time_now now; mret (Some t)
  else if how =? 2 then
    sec ← arg uint32; nsec ← arg uint32; mret (Some (time_Unix sec nsec))
  else _ ← set_failed; mret None.

(** A value behind a flag. *)
Definition optional {S A} (m : handler S A) : handler S (option A) :=
  b ← arg bool_;
  if (b : bool) then a ← m; mret (Some a) else mret None.

Definition readSattr3 {S} (now : Z -> gotime) : handler S SetAttr_t :=
  mode ← optional (arg uint32);
  _ ← optional (arg uint32);
  _ ← optional (arg uint32);
  size ← optional (arg uint64);
  atime ← readSetTime3 now;
  mtime ← readSetTime3 now;
  mret {| s_Mode := (fun m => Z.land m 0xFFF) <$> mode; s_Size := size;
          s_Atime := atime; s_Mtime := mtime |}.

(** Attributes before a change, of the object a handle names; absent when the
    handle named nothing. *)
Definition wcc : Type := option (bytes * Attr_t).

Definition writePreOp (a : option Attr_t) : writer :=
  match a with
  | None => w_bool false
  | Some a => w_bool true >> w_uint64 (a_Size a) >> writeTime3 (a_Mtime a) >> writeTime3 (Ctime a)
  end.

(** The entries that fit a budget, from index [i], appended to [body]; [None]
    when not even the first fits. *)
Fixpoint readdir_entries {S Node B} (fits : B -> DirEntry Node -> option B)
    (emit : DirEntry Node -> Z -> handler S writer)
    (ents : list (DirEntry Node)) (i : Z) (first : bool) (b : B) (body : bytes)
    : handler S (option bytes) :=
  match ents with
  | [] => mret (Some ((w_bool false >> w_bool true) body))
  | e :: ents =>
      match fits b e with
      | None =>
          if first then mret None
          else mret (Some ((w_bool false >> w_bool false) body))
      | Some b =>
          w ← emit e (entryCookie e i);
          readdir_entries fits emit ents (i + 1) false b ((w_bool true >> w) body)
      end
  end.

Definition readdirEntries {S Node B} (fits : B -> DirEntry Node -> option B)
    (emit : DirEntry Node -> Z -> handler S writer)
    (ents : list (DirEntry Node)) (cookie : Z) (b : B) : handler S (option bytes) :=
  let start := Nfs2.readdirStart ents cookie in
  readdir_entries fits emit (drop (Z.to_nat start) ents) start true b [].

Definition zeroVerf : bytes := replicate 8 0.

Section procedures.
Context {S Node : Type} (fs : FS S Node) (now : Z -> gotime) (Verifier : bytes).
Notation H := (handler S).

Definition node3 (fh : bytes) : H (Node + Z) :=
  r ← resolve fs fh;
  mret match r with inl n => inl n | inr e => inr (statusFor (Some e)) end.

Definition writeFattr3 (n : Node) : writer :=
  let a := attrOf fs n in
  w_uint32 (ftype (a_Mode a)) >> w_uint32 (Z.land (a_Mode a) 0xFFF) >> w_uint32 (Nlink a)
  >> w_uint32 0 >> w_uint32 0 >> w_uint64 (a_Size a) >> w_uint64 (Used a)
  >> w_uint32 0 >> w_uint32 0 >> w_uint64 1 >> w_uint64 (Fileid a)
  >> writeTime3 (Atime a) >> writeTime3 (a_Mtime a) >> writeTime3 (Ctime a).

Definition writePostOp (n : option Node) : writer :=
  match n with
  | None => w_bool false
  | Some n => w_bool true >> writeFattr3 n
  end.

Definition nfs3Getattr : H bytes :=
  fh ← readFH3;
  r ← node3 fh;
  mret match r with
       | inl n => (w_uint32 nfsOK >> writeFattr3 n) []
       | inr st => w_uint32 st []
       end.

(** The reply to a handle that names nothing. *)
Definition no_object (st : Z) : bytes := (w_uint32 st >> writePostOp None) [].
(** A failure on an object that is there. *)
Definition failure (st : Z) (n : Node) : bytes := (w_uint32 st >> writePostOp (Some n)) [].

Definition nfs3Lookup : H bytes :=
  fh ← readFH3;
  name ← arg str_;
  r ← node3 fh;
  match r with
  | inr st => mret (no_object st)
  | inl dir =>
      if negb (ftype (Mode fs dir) =? nfDIR) then mret (failure nfsErrNotdir dir)
      else
        c ← call (Lookup fs dir name);
        match c with
        | inr e => mret (failure (statusFor (Some e)) dir)
        | inl child =>
            h ← handle fs child;
            mret ((w_uint32 nfsOK >> w_opaque h >> writePostOp (Some child) >> writePostOp (Some dir)) [])
        end
  end.

(** What root may do with a node. *)
Definition access_allowed (n : Node) : Z :=
  let writable := match writes fs with Some _ => true | None => false end in
  let t := ftype (Mode fs n) in
  if t =? nfDIR then
    Z.lor (Z.lor access3Read access3Lookup)
      (if writable then Z.lor (Z.lor access3Modify access3Extend) access3Delete else 0)
  else if t =? nfREG then
    Z.lor (Z.lor access3Read (if negb (Z.land (Mode fs n) 0x49 =? 0) then access3Execute else 0))
      (if writable then Z.lor access3Modify access3Extend else 0)
  else access3Read.

Definition nfs3Access : H bytes :=
  fh ← readFH3;
  want ← arg uint32;
  r ← node3 fh;
  mret match r with
       | inr st => no_object st
       | inl n =>
           (w_uint32 nfsOK >> writePostOp (Some n) >> w_uint32 (Z.land want (access_allowed n))) []
       end.

Definition nfs3Readlink : H bytes :=
  fh ← readFH3;
  r ← node3 fh;
  match r with
  | inr st => mret (no_object st)
  | inl n =>
      if negb (ftype (Mode fs n) =? nfLNK) then mret (failure nfs3ErrInval n)
      else
        t ← call (Readlink fs n);
        mret match t with
             | inr e => failure (statusFor (Some e)) n
             | inl target => (w_uint32 nfsOK >> writePostOp (Some n) >> w_opaque target) []
             end
  end.

(** The status of reading from a node of this type. *)
Definition read_status (t : Z) : Z :=
  if t =? nfDIR then nfs3ErrIsdir else if t =? nfREG then nfsOK else nfs3ErrInval.

Definition nfs3Read : H bytes :=
  fh ← readFH3;
  offset ← arg uint64;
  count ← arg uint32;
  r ← node3 fh;
  match r with
  | inr st => mret (no_object st)
  | inl n =>
      let st := read_status (ftype (Mode fs n)) in
      if negb (st =? nfsOK) then mret (failure st n)
      else
        let size := Z.max (Size fs n) 0 in
        let ok data :=
          (w_uint32 nfsOK >> writePostOp (Some n) >> w_uint32 (u32 (zlen data))
           >> w_bool (size <=? u64 (offset + zlen data)) >> w_opaque data) [] in
        if offset <? size then
          '(got, e) ← call (ReadAt fs n (Z.min count maxRead3) offset);
          mret match e with
               | Some e => if zlen got =? 0 then failure (statusFor (Some e)) n else ok got
               | None => ok got
               end
        else mret (ok [])
  end.

(** [s.readdirStart]: the directory and its entries, or the failure. *)
Definition readdirStart3 (fh : bytes) : H ((Node * list (DirEntry Node)) + bytes) :=
  r ← node3 fh;
  match r with
  | inr st => mret (inr (no_object st))
  | inl dir =>
      if negb (ftype (Mode fs dir) =? nfDIR) then mret (inr (failure nfsErrNotdir dir))
      else
        l ← call (ReadDir fs dir);
        mret match l with
             | inr e => inr (failure (statusFor (Some e)) dir)
             | inl ents => inl (dir, ents)
             end
  end.

(** The reply around the entries. *)
Definition readdir_reply (dir : Node) (body : option bytes) : bytes :=
  match body with
  | None => failure nfs3ErrTooSmall dir
  | Some body => (w_uint32 nfsOK >> writePostOp (Some dir) >> w_fixed zeroVerf >> w_fixed body) []
  end.

Definition readdir_fits (budget : Z) (e : DirEntry Node) : option Z :=
  let n := 4 + 8 + xdrStrLen (Name e) + 8 in
  if budget <? n then None else Some (budget - n).

Definition readdir_emit (e : DirEntry Node) (c : Z) : H writer :=
  mret (w_uint64 (Fileid (attrOf fs (ent_Node e))) >> w_opaque (Name e) >> w_uint64 c).

Definition nfs3Readdir : H bytes :=
  fh ← readFH3;
  cookie ← arg uint64;
  _ ← arg (bytes_ 8);
  count ← arg uint32;
  r ← readdirStart3 fh;
  match r with
  | inr reply => mret reply
  | inl (dir, ents) =>
      body ← readdirEntries readdir_fits readdir_emit ents cookie (count - readdirFixed);
      mret (readdir_reply dir body)
  end.

(** The two budgets of READDIRPLUS: [dircount] and [maxcount]. *)
Definition readdirplus_fits (b : Z * Z) (e : DirEntry Node) : option (Z * Z) :=
  let d := 8 + xdrStrLen (Name e) + 8 in
  let m := 4 + d + 4 + 84 + 4 + 4 + fhSize in
  if (b.1 <? d) || (b.2 <? m) then None else Some (b.1 - d, b.2 - m).

Definition readdirplus_emit (e : DirEntry Node) (c : Z) : H writer :=
  h ← handle fs (ent_Node e);
  mret (w_uint64 (Fileid (attrOf fs (ent_Node e))) >> w_opaque (Name e) >> w_uint64 c
        >> writePostOp (Some (ent_Node e)) >> w_bool true >> w_opaque h).

Definition nfs3Readdirplus : H bytes :=
  fh ← readFH3;
  cookie ← arg uint64;
  _ ← arg (bytes_ 8);
  dircount ← arg uint32;
  maxcount ← arg uint32;
  r ← readdirStart3 fh;
  match r with
  | inr reply => mret reply
  | inl (dir, ents) =>
      body ← readdirEntries readdirplus_fits readdirplus_emit ents cookie
               (dircount, maxcount - readdirFixed);
      mret (readdir_reply dir body)
  end.

Definition nfs3Fsstat : H bytes :=
  fh ← readFH3;
  r ← node3 fh;
  match r with
  | inr st => mret (no_object st)
  | inl n =>
      sp ← space fs;
      mret match sp with
           | inr e => failure (statusFor (Some e)) n
           | inl sp =>
               (w_uint32 nfsOK >> writePostOp (Some n)
                >> w_list w_uint64 [Total sp; Free sp; Avail sp; Files sp; FreeFiles sp; AvailFiles sp]
                >> w_uint32 0) []
           end
  end.

Definition nfs3Fsinfo : H bytes :=
  fh ← readFH3;
  r ← node3 fh;
  mret match r with
       | inr st => no_object st
       | inl n =>
           (w_uint32 nfsOK >> writePostOp (Some n)
            >> w_uint32 maxRead3 >> w_uint32 maxRead3 >> w_uint32 4096
            >> w_uint32 maxRead3 >> w_uint32 maxRead3 >> w_uint32 4096
            >> w_uint32 8192 >> w_uint64 max_i64
            >> match writes fs with
               | Some _ =>
                   w_uint32 0 >> w_uint32 1
                   >> w_uint32 (Z.lor (Z.lor fsf3Symlink fsf3Homogeneous) fsf3CanSetTime)
               | None => w_uint32 1 >> w_uint32 0 >> w_uint32 (Z.lor fsf3Symlink fsf3Homogeneous)
               end) []
       end.

Definition nfs3Pathconf : H bytes :=
  fh ← readFH3;
  r ← node3 fh;
  mret match r with
       | inr st => no_object st
       | inl n =>
           (w_uint32 nfsOK >> writePostOp (Some n) >> w_uint32 1 >> w_uint32 255
            >> w_bool true >> w_bool true >> w_bool false >> w_bool true) []
       end.

(** ** Changes *)

Definition wccOf (fh : bytes) (n : Node) : wcc := Some (fh, attrOf fs n).

Definition writeWcc (c : wcc) : H writer :=
  match c with
  | None => mret (writePreOp None >> writePostOp None)
  | Some (fh, pre) =>
      r ← resolve fs fh;
      mret (writePreOp (Some pre) >> writePostOp match r with inl n => Some n | inr _ => None end)
  end.

(** [s.dirop3(r)]; with arguments missing the result is not used. *)
Definition dirop3 : H ((Node + error) * bytes * wcc) :=
  fh ← readFH3;
  name ← arg str_;
  bad ← failed;
  if (bad : bool) then mret (inr [], [], None)
  else
    r ← resolve fs fh;
    mret match r with
         | inl dir =>
             (if negb (ftype (Mode fs dir) =? nfDIR) then inr (only ErrNotDir) else inl dir,
              name, wccOf fh dir)
         | inr e => (inr e, name, None)
         end.

Definition readGuard3 : H (option gotime) :=
  optional (sec ← arg uint32; nsec ← arg uint32; mret (time_Unix sec nsec)).

Definition nfs3Setattr (wfs : WriteFS S Node) : H bytes :=
  fh ← readFH3;
  a ← readSattr3 now;
  guard ← readGuard3;
  bad ← failed;
  if (bad : bool) then mret []
  else
    r ← resolve fs fh;
    '(st, c) ← match r with
               | inr e => mret (statusFor (Some e), None)
               | inl n =>
                   let c := wccOf fh n in
                   let stale := match guard with
                                | Some t => negb (time_Equal t (Ctime (attrOf fs n)))
                                | None => false
                                end in
                   if stale then mret (nfs3ErrNotSync, c)
                   else e ← call (SetAttr wfs n a); mret (statusFor e, c)
               end;
    w ← writeWcc c;
    mret ((w_uint32 st >> w) []).

Definition nfs3Write (wfs : WriteFS S Node) : H bytes :=
  fh ← readFH3;
  offset ← arg uint64;
  count ← arg uint32;
  _ ← arg uint32;
  data ← arg (opaque maxRecord);
  bad ← failed;
  if (bad : bool) then mret []
  else
    let data := sub data 0 (Z.min count (zlen data)) in
    r ← resolve fs fh;
    '(e, c) ← match r with
              | inr e => mret (Some e, None)
              | inl n => e ← writeTo fs wfs n data offset; mret (e, wccOf fh n)
              end;
    w ← writeWcc c;
    mret match e with
         | Some _ => (w_uint32 (statusFor e) >> w) []
         | None =>
             (w_uint32 (statusFor e) >> w >> w_uint32 (u32 (zlen data)) >> w_uint32 fileSync
              >> w_fixed Verifier) []
         end.

Definition nfs3Commit : H bytes :=
  fh ← readFH3;
  _ ← arg uint64;
  _ ← arg uint32;
  bad ← failed;
  if (bad : bool) then mret []
  else
    r ← resolve fs fh;
    mret match r with
         | inr e => (w_uint32 (statusFor (Some e)) >> writePreOp None >> writePostOp None) []
         | inl n =>
             (w_uint32 nfsOK >> writePreOp None >> writePostOp (Some n) >> w_fixed Verifier) []
         end.

Definition newNode (n : Node) (dir : wcc) : H writer :=
  fh ← handle fs n;
  r ← resolve fs fh;
  w ← writeWcc dir;
  mret (w_uint32 nfsOK
        >> match r with
           | inr _ => w_bool false >> writePostOp None
           | inl n => w_bool true >> w_opaque fh >> writePostOp (Some n)
           end
        >> w).

Definition made (r : Node + error) (dir : wcc) : H bytes :=
  match r with
  | inr e => w ← writeWcc dir; mret ((w_uint32 (statusFor (Some e)) >> w) [])
  | inl n => w ← newNode n dir; mret (w [])
  end.

(** The mode of a CREATE with what follows it. *)
Definition readHow3 : H (option (CreateHow * SetAttr_t * bytes)) :=
  how ← arg uint32;
  if how =? 0 then a ← readSattr3 now; mret (Some (Unchecked, a, replicate 8 0))
  else if how =? 1 then a ← readSattr3 now; mret (Some (Guarded, a, replicate 8 0))
  else if how =? 2 then
    verf ← arg (bytes_ 8); mret (Some (Exclusive, MkSetAttr None None None None, verf))
  else _ ← set_failed; mret None.

Definition nfs3Create (wfs : WriteFS S Node) : H bytes :=
  '(dir, name, c) ← dirop3;
  h ← readHow3;
  bad ← failed;
  if (bad : bool) then mret []
  else
    match h with
    | None => mret []
    | Some (how, a, verf) =>
        r ← match dir with
            | inl dir => call (Create wfs dir name how a verf)
            | inr e => mret (inr e)
            end;
        made r c
    end.

Definition nfs3Mkdir (wfs : WriteFS S Node) : H bytes :=
  '(dir, name, c) ← dirop3;
  a ← readSattr3 now;
  bad ← failed;
  if (bad : bool) then mret []
  else
    r ← match dir with
        | inl dir => call (Mkdir wfs dir name a)
        | inr e => mret (inr e)
        end;
    made r c.

Definition nfs3Symlink (wfs : WriteFS S Node) : H bytes :=
  '(dir, name, c) ← dirop3;
  a ← readSattr3 now;
  target ← arg str_;
  bad ← failed;
  if (bad : bool) then mret []
  else
    r ← match dir with
        | inl dir => call (Symlink wfs dir name target a)
        | inr e => mret (inr e)
        end;
    made r c.

Definition nfs3Remove (wfs : WriteFS S Node) (rmdir : bool) : H bytes :=
  '(dir, name, c) ← dirop3;
  bad ← failed;
  if (bad : bool) then mret []
  else
    e ← match dir with
        | inl dir => if rmdir then call (Rmdir wfs dir name) else call (Remove wfs dir name)
        | inr e => mret (Some e)
        end;
    w ← writeWcc c;
    mret ((w_uint32 (statusFor e) >> w) []).

Definition nfs3Rename (wfs : WriteFS S Node) : H bytes :=
  '(from, fromName, fc) ← dirop3;
  '(to, toName, tc) ← dirop3;
  bad ← failed;
  if (bad : bool) then mret []
  else
    e ← match from, to with
        | inl from, inl to => call (Rename wfs from fromName to toName)
        | _, _ => mret (cmp_Or (error_of from) (error_of to))
        end;
    w1 ← writeWcc fc;
    w2 ← writeWcc tc;
    mret ((w_uint32 (statusFor e) >> w1 >> w2) []).

Definition nfs3Procs : list (Z * H bytes) :=
  let t := [(0, null); (1, nfs3Getattr); (3, nfs3Lookup); (4, nfs3Access); (5, nfs3Readlink);
            (6, nfs3Read); (16, nfs3Readdir); (17, nfs3Readdirplus); (18, nfs3Fsstat);
            (19, nfs3Fsinfo); (20, nfs3Pathconf)] in
  match writes fs with
  | None =>
      t ++ [(2, rofs3 2); (7, rofs3 2); (8, rofs3 2); (9, rofs3 2); (10, rofs3 2); (11, rofs3 2);
            (12, rofs3 2); (13, rofs3 2); (14, rofs3 4); (15, rofs3 3); (21, rofs3 2)]
  | Some wfs =>
      t ++ [(2, nfs3Setattr wfs); (7, nfs3Write wfs); (8, nfs3Create wfs); (9, nfs3Mkdir wfs);
            (10, nfs3Symlink wfs); (11, notsupp3 2); (12, nfs3Remove wfs false);
            (13, nfs3Remove wfs true); (14, nfs3Rename wfs); (15, notsupp3 3); (21, nfs3Commit)]
  end.
End procedures.
