(* ===== verification/Mount.v ===== *)
(** The MOUNT protocol, versions 1 and 3 ([nfs/mount.go]). *)
From S2P Require Import Prelude Xdr Nfs Rpc Nfs2.

Section procedures.
Context {S Node : Type} (fs : FS S Node).
Notation H := (handler S).

(** A mount path's root handle, in the form of the version. *)
Definition mountMnt (vers : Z) : H bytes :=
  path ← arg str_;
  bad ← failed;
  if (bad : bool) then mret []
  else
    r ← call (MountRoot fs path);
    match r with
    | inr e => mret (w_uint32 (statusFor (Some e)) [])
    | inl root =>
        if negb (ftype (Mode fs root) =? nfDIR)
        then mret (w_uint32 (statusFor (Some (only ErrNotDir))) [])
        else
          h ← handle fs root;
          if vers =? 1 then mret ((w_uint32 nfsOK >> w_fixed h) [])
          else mret ((w_uint32 nfsOK >> w_opaque h >> w_uint32 1 >> w_uint32 1) [])
    end.

Definition mountUmnt : H bytes := _ ← arg str_; mret [].

Definition mountExport : H bytes :=
  let exports := default [[slash]] (Exports fs) in
  mret ((w_list (fun p => w_bool true >> w_opaque p >> w_bool false) exports >> w_bool false) []).

Definition mountProcs (vers : Z) : list (Z * H bytes) :=
  [(0, null); (1, mountMnt vers); (3, mountUmnt); (4, null); (5, mountExport)].
End procedures.
