(* ===== verification/Portmap.v ===== *)
(** The portmapper ([nfs/portmap.go]). *)
From S2P Require Import Prelude Xdr Nfs Rpc.

Definition ipprotoTCP : Z := 6.
Definition ipprotoUDP : Z := 17.

(** [Ports]: a zero port leaves a program unregistered. *)
Record Ports := MkPorts { p_Portmap : Z; p_Mount : Z; p_NFS : Z }.

Record mapping := MkMapping { m_prog : Z; m_vers : Z; m_prot : Z; m_port : Z }.

Definition candidates (prot : Z) (ports : Ports) : list mapping := [
  MkMapping progPortmap 2 prot (p_Portmap ports);
  MkMapping progMount 1 prot (p_Mount ports);
  MkMapping progMount 3 prot (p_Mount ports);
  MkMapping progNFS 2 prot (p_NFS ports);
  MkMapping progNFS 3 prot (p_NFS ports) ].

(** [ports] is what [SetPorts] stored: UDP and TCP. *)
Definition mappings (ports : option (Ports * Ports)) : list mapping :=
  match ports with
  | None => []
  | Some (udp, tcp) =>
      filter (fun m => m_port m <> 0) (candidates ipprotoUDP udp ++ candidates ipprotoTCP tcp)
  end.

Section procedures.
Context {S : Type} (ports : option (Ports * Ports)).

(** The port of the first registration for the triple, or 0. *)
Definition port_for (ms : list mapping) (prog vers prot : Z) : Z :=
  match head (filter (fun m => m_prog m = prog /\ m_vers m = vers /\ m_prot m = prot) ms) with
  | Some m => m_port m
  | None => 0
  end.

Definition pmapGetport : handler S bytes :=
  prog ← arg uint32;
  vers ← arg uint32;
  prot ← arg uint32;
  _ ← arg uint32;
  mret (w_uint32 (port_for (mappings ports) prog vers prot) []).

Definition pmapDump : handler S bytes :=
  mret ((w_list (fun m => w_bool true >> w_uint32 (m_prog m) >> w_uint32 (m_vers m)
                          >> w_uint32 (m_prot m) >> w_uint32 (m_port m)) (mappings ports)
         >> w_bool false) []).

Definition portmapProcs : list (Z * handler S bytes) := [(0, null); (3, pmapGetport); (4, pmapDump)].
End procedures.

(** ** What a client reads of a DUMP *)

Fixpoint read_dump (fuel : nat) : state xdrReader (option (list mapping)) :=
  match fuel with
  | O => mret None
  | Datatypes.S fuel =>
      more ← bool_;
      if (more : bool) then
        prog ← uint32; vers ← uint32; prot ← uint32; port ← uint32;
        rest ← read_dump fuel;
        mret (cons (MkMapping prog vers prot port) <$> rest)
      else mret (Some [])
  end.

Definition wf_ports (p : Ports) : Prop :=
  0 <= p_Portmap p < 2 ^ 32 /\ 0 <= p_Mount p < 2 ^ 32 /\ 0 <= p_NFS p < 2 ^ 32.

Definition wf_mapping (m : mapping) : Prop :=
  0 <= m_prog m < 2 ^ 32 /\ 0 <= m_vers m < 2 ^ 32 /\ 0 <= m_prot m < 2 ^ 32 /\ 0 <= m_port m < 2 ^ 32.

Lemma candidates_wf prot p : 0 <= prot < 2 ^ 32 -> wf_ports p -> Forall wf_mapping (candidates prot p).
Proof.
  intros Hp (H1 & H2 & H3). unfold candidates, progPortmap, progMount, progNFS.
  repeat constructor; cbn; lia.
Qed.

Lemma mappings_wf udp tcp : wf_ports udp -> wf_ports tcp ->
  Forall wf_mapping (mappings (Some (udp, tcp))).
Proof.
  intros Hu Ht. unfold mappings. apply Forall_forall. intros m [_ Hm]%list_elem_of_filter.
  apply elem_of_app in Hm as [Hm|Hm].
  - eapply Forall_forall in Hm; [exact Hm|]. by apply candidates_wf.
  - eapply Forall_forall in Hm; [exact Hm|]. by apply candidates_wf.
Qed.

Lemma mapping_enc m w :
  (w_bool true >> w_uint32 (m_prog m) >> w_uint32 (m_vers m) >> w_uint32 (m_prot m)
   >> w_uint32 (m_port m)) w
  = w ++ be_enc 4 1 ++ be_enc 4 (m_prog m) ++ be_enc 4 (m_vers m) ++ be_enc 4 (m_prot m)
      ++ be_enc 4 (m_port m).
Proof. unfold then_, w_bool, w_uint32. by rewrite <- !app_assoc. Qed.

Definition mapping_bytes (m : mapping) : bytes :=
  be_enc 4 1 ++ be_enc 4 (m_prog m) ++ be_enc 4 (m_vers m) ++ be_enc 4 (m_prot m)
  ++ be_enc 4 (m_port m).

Lemma dump_bytes ms w :
  w_list (fun m => w_bool true >> w_uint32 (m_prog m) >> w_uint32 (m_vers m)
                   >> w_uint32 (m_prot m) >> w_uint32 (m_port m)) ms w
  = w ++ mjoin (mapping_bytes <$> ms).
Proof.
  unfold w_list. revert w. induction ms as [|m ms IH]; intros w; [by rewrite app_nil_r|].
  cbn [fold_left]. rewrite IH, mapping_enc, fmap_cons, mjoin_cons. unfold mapping_bytes.
  by rewrite <- !app_assoc.
Qed.

Lemma reads_dump ms fuel : Forall wf_mapping ms -> (length ms < fuel)%nat ->
  reads (read_dump fuel) (mjoin (mapping_bytes <$> ms) ++ be_enc 4 0) (Some ms).
Proof.
  intros H. revert fuel. induction H as [|m ms (H1 & H2 & H3 & H4) Hms IH]; intros fuel Hf.
  all: destruct fuel as [|fuel]; [lia|]; cbn [read_dump].
  - rewrite fmap_nil. change (mjoin []) with (@nil Z). rewrite app_nil_l, <- (app_nil_r (be_enc 4 0)).
    eapply reads_bind; [apply (reads_bool false)|]. apply reads_ret.
  - rewrite fmap_cons, mjoin_cons. unfold mapping_bytes at 1. rewrite <- !app_assoc.
    eapply reads_bind; [apply (reads_bool true)|]. cbv iota.
    do 4 (eapply reads_bind; [by apply reads_uint32|]).
    rewrite <- (app_nil_r (mjoin _ ++ _)). eapply reads_bind.
    + apply IH. cbn in Hf. lia.
    + destruct m. apply reads_ret.
Qed.

(** DUMP lists every registration: a client that reads the reply back gets the
    registered mappings, in order, and nothing is left over. *)
Theorem pmapDump_lists {S} udp tcp (r : xdrReader) (s : S) :
  wf_ports udp -> wf_ports tcp ->
  let ms := mappings (Some (udp, tcp)) in
  let reply := fst (pmapDump (Some (udp, tcp)) (r, s)) in
  read_dump (1 + length ms) (XdrReader reply 0 false)
    = (Some ms, XdrReader reply (zlen reply) false).
Proof.
  intros Hu Ht ms reply.
  assert (reply = mjoin (mapping_bytes <$> ms) ++ be_enc 4 0) as E.
  { unfold reply, pmapDump, mret, state_ret, then_. cbn [fst].
    by rewrite dump_bytes. }
  pose proof (reads_dump ms (1 + length ms) (mappings_wf _ _ Hu Ht) ltac:(lia) [] []) as H.
  cbn [app] in H. rewrite app_nil_r in H. rewrite E. exact H.
Qed.

Lemma pmapDump_lists_witness :
  let udp := MkPorts 111 635 2049 in
  let reply := fst (pmapDump (Some (udp, MkPorts 111 0 0)) (XdrReader [] 0 false, tt)) in
  read_dump 7 (XdrReader reply 0 false)
    = (Some (mappings (Some (udp, MkPorts 111 0 0))), XdrReader reply (zlen reply) false).
Proof.
  apply (pmapDump_lists (MkPorts 111 635 2049) (MkPorts 111 0 0)); repeat split; cbn; lia.
Defined.

(** ** GETPORT and the registrations *)

Lemma filter_head_unique (ms : list mapping) (P : mapping -> Prop) `{forall m, Decision (P m)} m :
  m ∈ ms -> P m -> (forall m', m' ∈ ms -> P m' -> m' = m) -> head (filter P ms) = Some m.
Proof.
  intros Hin HP Hu. destruct (filter P ms) as [|m' l] eqn:E.
  - assert (m ∈ filter P ms) as Hc by (by apply list_elem_of_filter). rewrite E in Hc.
    by apply not_elem_of_nil in Hc.
  - cbn. f_equal. assert (m' ∈ filter P ms) as Hc by (rewrite E; left).
    apply list_elem_of_filter in Hc as [? ?]. by apply Hu.
Qed.

Lemma mapping_unique ports m m' :
  m ∈ mappings ports -> m' ∈ mappings ports ->
  m_prog m = m_prog m' -> m_vers m = m_vers m' -> m_prot m = m_prot m' -> m = m'.
Proof.
  destruct ports as [[u t]|]; [|by intros ?%not_elem_of_nil].
  unfold mappings, candidates, progPortmap, progMount, progNFS, ipprotoTCP, ipprotoUDP.
  intros [_ H]%list_elem_of_filter [_ H']%list_elem_of_filter. cbn in H, H'.
  rewrite !elem_of_cons in H, H'. intros E1 E2 E3.
  repeat destruct H as [->|H]; try (by apply not_elem_of_nil in H);
    repeat destruct H' as [->|H']; try (by apply not_elem_of_nil in H'); cbn in *;
    first [reflexivity|discriminate].
Qed.

(** GETPORT and DUMP agree: a registration's port is answered for its program,
    version and transport; for anything DUMP does not list the answer is 0. *)
Theorem getport_dump ports prog vers prot :
  (forall m, m ∈ mappings ports -> m_prog m = prog -> m_vers m = vers -> m_prot m = prot ->
     port_for (mappings ports) prog vers prot = m_port m /\ m_port m <> 0) /\
  ((forall m, m ∈ mappings ports -> ~ (m_prog m = prog /\ m_vers m = vers /\ m_prot m = prot)) ->
     port_for (mappings ports) prog vers prot = 0).
Proof.
  split.
  - intros m Hm <- <- <-. unfold port_for. rewrite (filter_head_unique _ _ m); [|done..|].
    + split; [done|]. destruct ports as [[u t]|]; [|by apply not_elem_of_nil in Hm].
      apply list_elem_of_filter in Hm as [? _]. done.
    + intros m' Hm' (E1 & E2 & E3). by apply (mapping_unique ports).
  - intros H. unfold port_for. destruct (filter _ _) as [|m l] eqn:E; [done|].
    assert (m ∈ m :: l) as Hc by left. rewrite <- E in Hc.
    apply list_elem_of_filter in Hc as [Hp Hc]. by destruct (H m Hc).
Qed.
