(* ===== verification/Server.v ===== *)
(** The server ([nfs/nfs.go], [Server.table] of [nfs/rpc.go]): the table of every
    procedure, and what holds of every call whatever it asks for. *)
From S2P Require Import Prelude Xdr Nfs Rpc Nfs2 Nfs3 Mount Portmap.

(** The write verifier: the configured one, or the start time. *)
Definition verifier (Verifier : bytes) (start : gotime) : bytes :=
  if bool_decide (Verifier = replicate 8 0) then be_enc 8 start else Verifier.

Definition table {S Node} (fs : FS S Node) (now : Z -> gotime) (ports : option (Ports * Ports))
    (Verifier : bytes) : rpcTable S :=
  let t := empty_table in
  let t := add t progPortmap 2 (portmapProcs ports) in
  let t := add t progMount 1 (mountProcs fs 1) in
  let t := add t progMount 3 (mountProcs fs 3) in
  let t := add t progNFS 2 (nfs2Procs fs now) in
  add t progNFS 3 (nfs3Procs fs now Verifier).

(** ** The views of the handlers *)

(** Splits on the tests a handler makes. *)
Ltac handler_cases := repeat match goal with
  | |- context [match ?x with _ => _ end] => destruct x
  end.

Ltac pure := repeat first
  [ apply pure_ret | apply pure_arg | apply pure_failed | apply pure_set_failed | apply pure_now
  | apply pure_bind; [|intros ?]
  | assumption
  | match goal with |- pure_view _ (match ?x with _ => _ end) => destruct x end
  | match goal with |- pure_view _ (let '_ := ?x in _) => destruct x end ].

Section views.
Context {S Node V : Type} (fs : FS S Node) (view : S -> V) `{!FSLaws fs view}.
Context (now : Z -> gotime) (Verifier : bytes) (ports : option (Ports * Ports)).
Notation pure_view := (pure_view view).
Notation safe_view := (safe_view view).

Lemma pure_call_of {A} (m : state S A) : (forall s, view (snd (m s)) = view s) -> pure_view (call m).
Proof. apply pure_call. Qed.

Lemma pure_resolve fh : pure_view (resolve fs fh).
Proof.
  unfold resolve. destruct (handles fs) as [h|] eqn:E.
  - apply pure_call. intros. by apply law_nodebyhandle.
  - destruct (decodeFH fh); [|apply pure_ret]. apply pure_call. intros. apply law_nodebyid.
Qed.
Lemma pure_handle n : pure_view (handle fs n).
Proof.
  unfold handle. destruct (handles fs) as [h|] eqn:E; [|apply pure_ret].
  apply pure_call. intros. by apply law_handle.
Qed.
Lemma pure_space : pure_view (space fs).
Proof.
  unfold space. destruct (space_of fs) as [sp|] eqn:E; [|apply pure_ret].
  apply pure_call. intros. by apply law_space.
Qed.
Lemma pure_lookup d n : pure_view (call (Lookup fs d n)).
Proof. apply pure_call. intros. apply law_lookup. Qed.
Lemma pure_readdir d : pure_view (call (ReadDir fs d)).
Proof. apply pure_call. intros. apply law_readdir. Qed.
Lemma pure_readat n c o : pure_view (call (ReadAt fs n c o)).
Proof. apply pure_call. intros. apply law_readat. Qed.
Lemma pure_readlink n : pure_view (call (Readlink fs n)).
Proof. apply pure_call. intros. apply law_readlink. Qed.
Lemma pure_mountroot p : pure_view (call (MountRoot fs p)).
Proof. apply pure_call. intros. apply law_mountroot. Qed.

Ltac reads_only := repeat first
  [ progress pure
  | apply pure_resolve | apply pure_handle | apply pure_space | apply pure_lookup
  | apply pure_readdir | apply pure_readat | apply pure_readlink | apply pure_mountroot
  | progress unfold node, node3, attrstat, readTime2, readSattr2, dirop, optional, readFH3,
      readSetTime3, readSattr3, readGuard3, readHow3, dirop3, readdirStart3, readdirEntries,
      writeWcc, newNode, made, readdir_emit, readdirplus_emit, null, nfsROFS, nfsLink, rofs3,
      notsupp3, refuse3 ].

Lemma pure_readdir_entries {B} (fits : B -> DirEntry Node -> option B) emit ents i first b body :
  (forall e c, pure_view (emit e c)) ->
  pure_view (readdir_entries fits emit ents i first b body).
Proof.
  intros He. revert i first b body. induction ents as [|e ents IH]; intros; cbn [readdir_entries].
  - apply pure_ret.
  - destruct (fits b e); [apply pure_bind; [apply He|intros; apply IH]|]. destruct first; apply pure_ret.
Qed.

(** The procedures that only read. *)
Lemma pure_nfs2 p h : (p, h) ∈ [(0, null); (1, nfsGetattr fs); (3, null); (4, nfsLookup fs);
    (5, nfsReadlink fs); (6, nfsRead fs); (7, null); (16, nfsReaddir fs); (17, nfsStatfs fs)] ->
  pure_view h.
Proof.
  rewrite !elem_of_cons. intros H.
  repeat destruct H as [[= -> ->]|H]; [..|by apply not_elem_of_nil in H];
    unfold nfsGetattr, nfsLookup, nfsReadlink, nfsRead, nfsReaddir, nfsStatfs; reads_only.
Qed.

Lemma pure_nfs3 p h : (p, h) ∈ [(0, null); (1, nfs3Getattr fs); (3, nfs3Lookup fs);
    (4, nfs3Access fs); (5, nfs3Readlink fs); (6, nfs3Read fs); (16, nfs3Readdir fs);
    (17, nfs3Readdirplus fs); (18, nfs3Fsstat fs); (19, nfs3Fsinfo fs); (20, nfs3Pathconf fs)] ->
  pure_view h.
Proof.
  rewrite !elem_of_cons. intros H.
  repeat destruct H as [[= -> ->]|H]; [..|by apply not_elem_of_nil in H];
    unfold nfs3Getattr, nfs3Lookup, nfs3Access, nfs3Readlink, nfs3Read, nfs3Readdir,
      nfs3Readdirplus, nfs3Fsstat, nfs3Fsinfo, nfs3Pathconf; reads_only.
  all: apply pure_readdir_entries; intros; reads_only.
Qed.

(** *** The procedures that change the export *)

Ltac calls_only := repeat first
  [ apply no_args_ret | apply no_args_call | apply no_args_resolve | apply no_args_handle
  | apply no_args_bind; [|intros ?]
  | match goal with |- no_args (match ?x with _ => _ end) => destruct x end
  | match goal with |- no_args (let '_ := ?x in _) => destruct x end
  | progress unfold attrstat, node, writeTo, writeWcc, made, newNode ].

(** Reading, then the guard, then calls. *)
Ltac guarded := repeat first
  [ apply safe_guard_calls; calls_only
  | apply safe_bind; [solve [reads_only]|intros ?]
  | match goal with |- safe_view (match ?x with _ => _ end) => destruct x end
  | match goal with |- safe_view (let '_ := ?x in _) => destruct x end ].

Lemma safe_nfs2 (wfs : WriteFS S Node) p h :
  (p, h) ∈ [(2, nfsSetattr fs now wfs); (8, nfsWrite fs wfs); (9, nfsCreate fs now wfs false);
            (10, nfsRemove fs wfs false); (11, nfsRename fs wfs); (12, nfsLink);
            (13, nfsSymlink fs now wfs); (14, nfsCreate fs now wfs true); (15, nfsRemove fs wfs true)] ->
  safe_view h.
Proof.
  rewrite !elem_of_cons. intros H.
  repeat destruct H as [[= -> ->]|H]; [..|by apply not_elem_of_nil in H];
    unfold nfsSetattr, nfsWrite, nfsCreate, nfsRemove, nfsRename, nfsSymlink;
    guarded.
  apply pure_safe. reads_only.
Qed.

Lemma safe_nfs3 (wfs : WriteFS S Node) p h :
  (p, h) ∈ [(2, nfs3Setattr fs now wfs); (7, nfs3Write fs Verifier wfs); (8, nfs3Create fs now wfs);
            (9, nfs3Mkdir fs now wfs); (10, nfs3Symlink fs now wfs); (11, notsupp3 2);
            (12, nfs3Remove fs wfs false); (13, nfs3Remove fs wfs true); (14, nfs3Rename fs wfs);
            (15, notsupp3 3); (21, nfs3Commit fs Verifier)] ->
  safe_view h.
Proof.
  rewrite !elem_of_cons. intros H.
  repeat destruct H as [[= -> ->]|H]; [..|by apply not_elem_of_nil in H];
    unfold nfs3Setattr, nfs3Write, nfs3Create, nfs3Mkdir, nfs3Symlink, nfs3Remove, nfs3Rename,
      nfs3Commit;
    guarded.
  all: apply pure_safe; reads_only.
Qed.
End views.

(** ** The table *)

Lemma add_procs {S} (t : rpcTable S) prog vers ps k h :
  procs (add t prog vers ps) !! k = Some h ->
  (exists proc, k = (prog, vers, proc) /\ (proc, h) ∈ ps) \/ procs t !! k = Some h.
Proof.
  cbn. induction ps as [|[proc h'] ps IH]; cbn; [auto|].
  intros H. destruct (decide (k = (prog, vers, proc))) as [->|Hne].
  - rewrite lookup_insert_eq in H. inv H. left. exists proc. split; [done|left].
  - rewrite lookup_insert_ne in H by done.
    destruct (IH H) as [(p & -> & Hp)|]; [|by right]. left. exists p. split; [done|by right].
Qed.

(** The version ranges of the table, and NULL in every version. *)
Lemma table_procs {S Node} (fs : FS S Node) now ports V k h :
  procs (table fs now ports V) !! k = Some h ->
  (exists proc, k = (progPortmap, 2, proc) /\ (proc, h) ∈ portmapProcs ports) \/
  (exists vers proc, (vers = 1 \/ vers = 3) /\ k = (progMount, vers, proc) /\ (proc, h) ∈ mountProcs fs vers) \/
  (exists proc, k = (progNFS, 2, proc) /\ (proc, h) ∈ nfs2Procs fs now) \/
  (exists proc, k = (progNFS, 3, proc) /\ (proc, h) ∈ nfs3Procs fs now V).
Proof.
  unfold table. intros H. repeat apply add_procs in H as [(proc & -> & Hp)|H].
  - by do 3 right; eauto.
  - right; right; left; eauto.
  - right; left. exists 3, proc. auto.
  - right; left. exists 1, proc. auto.
  - left; eauto.
  - done.
Qed.

(** ** What a call can change *)

(** The procedures of a writable export that change it. *)
Definition changing (vers proc : Z) : bool :=
  if vers =? 2 then bool_decide (proc ∈ [2; 8; 9; 10; 11; 13; 14; 15])
  else if vers =? 3 then bool_decide (proc ∈ [2; 7; 8; 9; 10; 12; 13; 14])
  else false.

Section changes.
Context {S Node V : Type} (fs : FS S Node) (view : S -> V) `{!FSLaws fs view}.
Context (now : Z -> gotime) (Verifier : bytes) (ports : option (Ports * Ports)).
Notation t := (table fs now ports Verifier).

Lemma pure_portmap p h : (p, h) ∈ portmapProcs ports -> pure_view view (h : handler S bytes).
Proof.
  unfold portmapProcs. rewrite !elem_of_cons. intros H.
  repeat destruct H as [[= -> ->]|H]; [..|by apply not_elem_of_nil in H];
    unfold null, pmapGetport, pmapDump; pure.
Qed.

Lemma pure_mount vers p h : (p, h) ∈ mountProcs fs vers -> pure_view view h.
Proof.
  unfold mountProcs. rewrite !elem_of_cons. intros H.
  repeat destruct H as [[= -> ->]|H]; [..|by apply not_elem_of_nil in H];
    unfold null, mountMnt, mountUmnt, mountExport;
    repeat first [progress pure | apply (pure_mountroot fs view) | apply (pure_handle fs view)].
Qed.

Lemma pure_refuse3 st n : pure_view view (refuse3 (S := S) st n).
Proof. apply pure_ret. Qed.

(** A procedure of version 2 reads only, or changes only with good arguments. *)
Lemma nfs2_views p h : (p, h) ∈ nfs2Procs fs now ->
  pure_view view h \/ (writes fs <> None /\ changing 2 p = true /\ safe_view view h).
Proof.
  unfold nfs2Procs. destruct (writes fs) as [wfs|]; intros H; apply elem_of_app in H as [H|H];
    try (left; by eapply pure_nfs2).
  - pose proof (safe_nfs2 fs view now wfs p h H) as Hs. rewrite !elem_of_cons in H.
    repeat destruct H as [[= -> ->]|H]; [..|by apply not_elem_of_nil in H];
      first [by right|left; apply pure_ret].
  - left. rewrite !elem_of_cons in H.
    repeat destruct H as [[= -> ->]|H]; [..|by apply not_elem_of_nil in H]; apply pure_ret.
Qed.

Lemma nfs3_views p h : (p, h) ∈ nfs3Procs fs now Verifier ->
  pure_view view h \/ (writes fs <> None /\ changing 3 p = true /\ safe_view view h).
Proof.
  unfold nfs3Procs. destruct (writes fs) as [wfs|]; intros H; apply elem_of_app in H as [H|H];
    try (left; by eapply pure_nfs3).
  - pose proof (safe_nfs3 fs view now Verifier wfs p h H) as Hs. rewrite !elem_of_cons in H.
    repeat destruct H as [[= -> ->]|H]; [..|by apply not_elem_of_nil in H];
      first [by right|left; apply pure_ret|left].
    unfold nfs3Commit, readFH3.
    repeat first [progress pure | apply (pure_resolve fs view)].
  - left. rewrite !elem_of_cons in H.
    repeat destruct H as [[= -> ->]|H]; [..|by apply not_elem_of_nil in H]; apply pure_ret.
Qed.

Lemma table_views k h : procs t !! k = Some h ->
  pure_view view h \/
  (writes fs <> None /\ k.1.1 = progNFS /\ changing k.1.2 k.2 = true /\ safe_view view h).
Proof.
  intros H. apply table_procs in H as
    [(p & -> & Hp)|[(v & p & Hv & -> & Hp)|[(p & -> & Hp)|(p & -> & Hp)]]].
  - left. by eapply pure_portmap.
  - left. by eapply pure_mount.
  - destruct (nfs2_views p h Hp) as [|(? & ? & ?)]; [by left|by right].
  - destruct (nfs3_views p h Hp) as [|(? & ? & ?)]; [by left|by right].
Qed.

Lemma dispatch_changes pkt s :
  view (snd (dispatch t pkt s)) = view s \/
  (24 <= zlen pkt /\ writes fs <> None /\ get_u32 pkt 12 = progNFS /\
   changing (get_u32 pkt 16) (get_u32 pkt 20) = true /\
   exists body, fst (dispatch t pkt s) = Some (replyAccepted (get_u32 pkt 0) success body)).
Proof.
  destruct (dispatch_inv t pkt s) as [[E _]|(h & r & Hl & _ & Hh & Hr & Hb & Hrun)].
  { left. by rewrite E. }
  destruct (h (r, s)) as [body [r' s']] eqn:Eh. destruct Hrun as [Es Ef]. rewrite Es.
  destruct (table_views _ _ Hh) as [Hp|(Hw & Hk & Hc & Hs)].
  { left. specialize (Hp r s). by rewrite Eh in Hp. }
  cbn [fst snd] in *. specialize (Hs r s). rewrite Eh in Hs. cbn [fst snd] in Hs.
  destruct (err r'); [left; by apply Hs|right]. split_and!; [done..|]. by exists body.
Qed.

(** C31. A call changes the export only when the export is writable, the call names
    one of the procedures that change files, every argument could be decoded,
    and the reply says so: any other message - truncated, of another version or
    program, garbled - and any call to a read-only export leaves what clients
    see as it was. *)
Theorem only_good_calls_change pkt s :
  view (snd (dispatch (table fs now ports Verifier) pkt s)) = view s \/
  (writes fs <> None /\ get_u32 pkt 12 = progNFS /\
   changing (get_u32 pkt 16) (get_u32 pkt 20) = true /\
   exists body, fst (dispatch (table fs now ports Verifier) pkt s) = Some (replyAccepted (get_u32 pkt 0) success body)).
Proof. destruct (dispatch_changes pkt s) as [|(_ & H)]; [by left|by right]. Qed.

(** Every call that changes the export is one the duplicate request cache keeps,
    except WRITE, which may run twice. *)
Theorem cache_covers_changes pkt s :
  view (snd (dispatch (table fs now ports Verifier) pkt s)) = view s \/ nonIdempotent pkt = true \/
  (get_u32 pkt 16, get_u32 pkt 20) = (2, 8) \/ (get_u32 pkt 16, get_u32 pkt 20) = (3, 7).
Proof.
  destruct (dispatch_changes pkt s) as [|(Hl & _ & Hn & Hc & _)]; [by left|right].
  unfold nonIdempotent. rewrite (proj2 (Z.ltb_ge _ _)), Hn by lia. cbn [orb negb].
  change (progNFS =? progNFS) with true. cbn [negb].
  unfold changing in Hc. set (v := get_u32 pkt 16) in *. set (p := get_u32 pkt 20) in *.
  destruct (v =? 2) eqn:E2; [|destruct (v =? 3) eqn:E3; [|done]]; zbool;
    apply bool_decide_eq_true in Hc; rewrite !elem_of_cons in Hc;
    rewrite ?E2, ?E3; repeat destruct Hc as [->|Hc]; auto; by apply not_elem_of_nil in Hc.
Qed.
End changes.

(** ** What every reply looks like *)

(** [P] holds of what [h] returns. *)
Definition returns {S A} (P : A -> Prop) (h : handler S A) : Prop := forall r s, P (fst (h (r, s))).

Lemma returns_ret {S A} (P : A -> Prop) a : P a -> returns (S := S) P (mret a).
Proof. intros H r s. exact H. Qed.
Lemma returns_bind {S A B} (Q : A -> Prop) (P : B -> Prop) (m : handler S A) (f : A -> handler S B) :
  returns Q m -> (forall a, Q a -> returns P (f a)) -> returns P (m ≫= f).
Proof.
  intros Hm Hf r s. unfold mbind, state_bind. specialize (Hm r s).
  destruct (m (r, s)) as [a [r' s']]. by apply Hf.
Qed.
Lemma returns_seq {S A B} (P : B -> Prop) (m : handler S A) (f : A -> handler S B) :
  (forall a, returns P (f a)) -> returns P (m ≫= f).
Proof. intros H. by apply (returns_bind (fun _ => True)). Qed.

(** A writer adds whole words to a body of whole words, and keeps what is
    there. *)
Definition keeps4 (w : writer) : Prop :=
  forall b, aligned b -> exists rest, w b = b ++ rest /\ aligned rest.

Lemma keeps4_then a b : keeps4 a -> keeps4 b -> keeps4 (a >> b).
Proof.
  intros Ha Hb l Hl. unfold then_. destruct (Ha l Hl) as (r1 & -> & H1).
  destruct (Hb (l ++ r1)) as (r2 & -> & H2); [by apply aligned_app|].
  exists (r1 ++ r2). split; [by rewrite app_assoc|by apply aligned_app].
Qed.
Lemma keeps4_uint32 v : keeps4 (w_uint32 v).
Proof. intros b Hb. by exists (be_enc 4 v). Qed.
Lemma keeps4_uint64 v : keeps4 (w_uint64 v).
Proof. intros b Hb. by exists (be_enc 8 v). Qed.
Lemma keeps4_bool v : keeps4 (w_bool v).
Proof. destruct v; apply keeps4_uint32. Qed.
Lemma keeps4_fixed p : aligned p -> keeps4 (w_fixed p).
Proof. intros Hp b Hb. by exists p. Qed.
Lemma keeps4_opaque p : keeps4 (w_opaque p).
Proof. intros b Hb. exists (opaque_enc p). split; [by apply w_opaque_enc|apply aligned_opaque_enc]. Qed.
Lemma keeps4_list {A} (f : A -> writer) l : (forall x, keeps4 (f x)) -> keeps4 (w_list f l).
Proof.
  intros H. unfold w_list. induction l as [|x l IH]; intros b Hb; cbn [fold_left].
  - exists []. by rewrite app_nil_r.
  - exact (keeps4_then (f x) (fun w => fold_left (fun w a => f a w) l w) (H x) IH b Hb).
Qed.
Lemma keeps4_aligned w b : keeps4 w -> aligned b -> aligned (w b).
Proof. intros H Hb. destruct (H b Hb) as (r & -> & Hr). by apply aligned_app. Qed.
Lemma aligned_writer w : keeps4 w -> aligned (w []).
Proof. intros H. by apply keeps4_aligned. Qed.

Ltac words := repeat match goal with
  | |- aligned ((then_ _ _) []) => apply aligned_writer
  | |- aligned (w_uint32 _ []) => apply aligned_writer
  | |- keeps4 (then_ _ _) => apply keeps4_then
  | |- keeps4 (w_uint32 _) => apply keeps4_uint32
  | |- keeps4 (w_uint64 _) => apply keeps4_uint64
  | |- keeps4 (w_bool _) => apply keeps4_bool
  | |- keeps4 (w_opaque _) => apply keeps4_opaque
  | |- keeps4 (w_fixed _) => apply keeps4_fixed
  | |- keeps4 (w_list _ _) => apply keeps4_list; intros ?
  | |- keeps4 (match ?x with _ => _ end) => destruct x
  | |- aligned (match ?x with _ => _ end) => destruct x
  | |- aligned [] => reflexivity
  | |- aligned zeroVerf => reflexivity
  | H : aligned ?x |- aligned ?x => exact H
  | H : keeps4 ?x |- keeps4 ?x => exact H
  | H : keeps4 ?x |- aligned (?x []) => by apply aligned_writer
  | _ => progress unfold writeFattr, writeFattr3, writeTime3, writePostOp, writePreOp, no_object,
      failure, readdir_reply
  end.

(** Follows a handler to its replies, with [special] for the calls whose results
    matter. *)
Ltac follow special done_tac := repeat first
  [ special
  | apply returns_ret; solve [done_tac]
  | apply returns_seq; intros ?
  | match goal with |- returns _ (match ?x with _ => _ end) => destruct x end
  | match goal with |- returns _ (let '_ := ?x in _) => destruct x end ].

Section alignment.
Context {S Node V : Type} (fs : FS S Node) (view : S -> V) `{!FSLaws fs view}.
Context (now : Z -> gotime) (Verifier : bytes) (ports : option (Ports * Ports)).
Hypothesis HV : zlen Verifier = 8.

Lemma handle_aligned n : returns aligned (handle fs n).
Proof.
  unfold handle. destruct (handles fs) as [h|] eqn:E.
  - intros r s. cbn. pose proof (law_handle_size h n s E) as H.
    destruct (Handle h n s) as [b s']. unfold aligned. cbn in *. by rewrite H.
  - apply returns_ret. unfold aligned, encodeFH. by rewrite !zlen_app, zlen_be_enc, zlen_replicate.
Qed.
Lemma verifier_aligned : aligned Verifier.
Proof. unfold aligned. by rewrite HV. Qed.

Lemma readdir_loop_aligned ents i first budget : keeps4 (readdir_loop fs ents i first budget).
Proof.
  revert i first budget. induction ents as [|e ents IH]; intros; cbn [readdir_loop]; [words|].
  destruct (_ && _); [words|]. words. apply IH.
Qed.

Lemma readdir_entries_aligned {B} (fits : B -> DirEntry Node -> option B) emit ents i first b body :
  (forall e c, returns keeps4 (emit e c)) -> aligned body ->
  returns (fun o => match o with Some body => aligned body | None => True end)
    (readdir_entries (S := S) fits emit ents i first b body).
Proof.
  intros He. revert i first b body. induction ents as [|e ents IH]; intros i first b body Hb; cbn [readdir_entries].
  - apply returns_ret. apply keeps4_aligned; [words|done].
  - destruct (fits b e).
    + eapply returns_bind; [apply He|]. intros w Hw. apply IH. apply keeps4_aligned; [words|done].
    + destruct first; apply returns_ret; [done|].
      apply keeps4_aligned; [words|done].
Qed.

Lemma writeWcc_aligned c : returns keeps4 (writeWcc fs c).
Proof. unfold writeWcc. follow ltac:(fail) ltac:(words). Qed.

Ltac with_handle := eapply returns_bind; [apply handle_aligned|intros ? ?].
Ltac with_wcc := eapply returns_bind; [apply writeWcc_aligned|intros ? ?].
Ltac with_helper := match goal with
  | |- returns _ (handle _ _ ≫= _) => with_handle
  | |- returns _ (writeWcc _ _ ≫= _) => with_wcc
  end.

Lemma newNode_aligned n dir : returns keeps4 (newNode fs n dir).
Proof.
  unfold newNode. with_handle. apply returns_seq. intros r. with_wcc. apply returns_ret. words.
Qed.
Lemma made_aligned r dir : returns aligned (made fs r dir).
Proof.
  unfold made. destruct r as [n|e]; [eapply returns_bind; [apply newNode_aligned|intros ? ?]|with_wcc];
    apply returns_ret; words.
Qed.

Lemma portmap_aligned p h : (p, h) ∈ portmapProcs ports -> returns aligned (h : handler S bytes).
Proof.
  unfold portmapProcs. rewrite !elem_of_cons. intros H.
  repeat destruct H as [[= -> ->]|H]; [..|by apply not_elem_of_nil in H];
    unfold null, pmapGetport, pmapDump; follow ltac:(idtac; with_helper) ltac:(words).
Qed.

Lemma mount_aligned vers p h : (p, h) ∈ mountProcs fs vers -> returns aligned h.
Proof.
  unfold mountProcs. rewrite !elem_of_cons. intros H.
  repeat destruct H as [[= -> ->]|H]; [..|by apply not_elem_of_nil in H];
    unfold null, mountMnt, mountUmnt, mountExport;
    follow ltac:(idtac; with_helper) ltac:(words).
Qed.

Ltac finish := solve [words; try exact verifier_aligned; try apply readdir_loop_aligned].

Lemma nfs2_aligned p h : (p, h) ∈ nfs2Procs fs now -> returns aligned h.
Proof.
  unfold nfs2Procs. destruct (writes fs) as [wfs|]; intros H; apply elem_of_app in H as [H|H];
    rewrite !elem_of_cons in H; repeat destruct H as [[= -> ->]|H];
    try (by apply not_elem_of_nil in H);
    unfold nfsGetattr, nfsLookup, nfsReadlink, nfsRead, nfsReaddir, nfsStatfs, nfsSetattr, nfsWrite,
      nfsCreate, nfsRemove, nfsRename, nfsSymlink, nfsLink, nfsROFS, null, attrstat, node;
    follow ltac:(idtac; with_helper) ltac:(finish).
Qed.

Lemma readdir_reply_aligned dir body :
  match body with Some body => aligned body | None => True end -> aligned (readdir_reply fs dir body).
Proof. destruct body; intros H; words. Qed.

Lemma readdirStart3_aligned fh :
  returns (fun r => match r with inr reply => aligned reply | inl _ => True end) (readdirStart3 fs fh).
Proof.
  unfold readdirStart3, node3. follow ltac:(idtac; fail)
    ltac:(cbv beta; repeat match goal with
          | |- context [match ?x with _ => _ end] => is_var x; destruct x end;
          solve [exact I|words]).
Qed.

Ltac with_entries := match goal with
  | |- returns _ (readdirStart3 _ _ ≫= _) =>
      eapply returns_bind; [apply readdirStart3_aligned|intros [[? ?]|?] ?; [|by apply returns_ret]]
  | |- returns _ (readdirEntries _ _ _ _ _ ≫= _) =>
      eapply returns_bind;
        [unfold readdirEntries; apply readdir_entries_aligned; [intros ? ?|reflexivity]
        |intros ? ?; apply returns_ret; by apply readdir_reply_aligned]
  | |- returns _ (made _ _ _) => apply made_aligned
  | _ => with_helper
  end.

Lemma nfs3_aligned p h : (p, h) ∈ nfs3Procs fs now Verifier -> returns aligned h.
Proof.
  unfold nfs3Procs. destruct (writes fs) as [wfs|]; intros H; apply elem_of_app in H as [H|H];
    rewrite !elem_of_cons in H; repeat destruct H as [[= -> ->]|H];
    try (by apply not_elem_of_nil in H);
    unfold nfs3Getattr, nfs3Lookup, nfs3Access, nfs3Readlink, nfs3Read, nfs3Readdir, nfs3Readdirplus,
      nfs3Fsstat, nfs3Fsinfo, nfs3Pathconf, nfs3Setattr, nfs3Write, nfs3Create, nfs3Mkdir,
      nfs3Symlink, nfs3Remove, nfs3Rename, nfs3Commit, rofs3, notsupp3, refuse3, null, node3,
      readdir_emit, readdirplus_emit;
    follow ltac:(idtac; with_entries) ltac:(finish).
Qed.

Lemma table_aligned k h : procs (table fs now ports Verifier) !! k = Some h -> returns aligned h.
Proof.
  intros H. apply table_procs in H as
    [(p & -> & Hp)|[(v & p & Hv & -> & Hp)|[(p & -> & Hp)|(p & -> & Hp)]]].
  - by eapply portmap_aligned.
  - by eapply mount_aligned.
  - by eapply nfs2_aligned.
  - by eapply nfs3_aligned.
Qed.

Lemma accepted_aligned xid st body : aligned body -> aligned (replyAccepted xid st body).
Proof. intros H. rewrite replyAccepted_enc. by repeat apply aligned_app. Qed.

(** Every reply is a whole number of four-byte words, as XDR requires, whatever
    the call and whatever names, targets and handles the file system gives. *)
Theorem replies_aligned pkt s :
  match fst (dispatch (table fs now ports Verifier) pkt s) with
  | Some reply => aligned reply
  | None => True
  end.
Proof.
  unfold dispatch.
  destruct (uint32 _) as [xid r1]. destruct (uint32 r1) as [kind r2].
  destruct (_ || _); [done|]. destruct (uint32 r2) as [version r3].
  destruct (negb (version =? 2)); [by rewrite replyDenied_enc|].
  destruct (call_header r3) as [[[prog vers] proc] r4].
  destruct (err r4); [by apply accepted_aligned|].
  destruct (versions _ !! prog) as [vr|]; [|by apply accepted_aligned].
  destruct (procs _ !! (prog, vers, 0)) as [h0|]; [|by apply accepted_aligned].
  destruct (procs _ !! (prog, vers, proc)) as [h|] eqn:Eh; [|by apply accepted_aligned].
  pose proof (table_aligned _ _ Eh r4 s) as Ha.
  destruct (h (r4, s)) as [body [r' s']]. destruct (err r'); by apply accepted_aligned.
Qed.
End alignment.

(** ** Statuses of version 2 *)

Definition v2_statuses : list Z := [0; 1; 2; 5; 13; 17; 18; 20; 21; 22; 27; 28; 30; 63; 66; 69; 70].

(** A body that is empty or starts with a version 2 status. *)
Definition v2_body (body : bytes) : Prop :=
  body = [] \/ exists st rest, body = be_enc 4 st ++ rest /\ st ∈ v2_statuses.

Lemma status_in_spec l e :
  status_in l e = nfsErrIO \/ exists s c, (s, c) ∈ l /\ Is e s = true /\ status_in l e = c.
Proof.
  induction l as [|[s c] l IH]; [by left|]. cbn [status_in]. destruct (Is e s) eqn:E.
  - right. exists s, c. split; [left|done].
  - destruct IH as [IH|(s' & c' & H1 & H2)]; [by left|right]. exists s', c'. split; [by right|done].
Qed.

Lemma status2For_v2 e : status2For e ∈ v2_statuses.
Proof.
  destruct e as [e|]; [|by left]. unfold status2For.
  destruct (Is e ErrBadHandle) eqn:E1; [by apply (bool_decide_unpack _)|].
  destruct (Is e ErrNotSupp) eqn:E2; [by apply (bool_decide_unpack _)|].
  cbn [statusFor]. destruct (status_in_spec statuses e) as [->|(s & c & Hin & Hs & ->)];
    [by apply (bool_decide_unpack _)|].
  unfold statuses in Hin. rewrite !elem_of_cons in Hin.
  repeat destruct Hin as [[= -> ->]|Hin]; [..|by apply not_elem_of_nil in Hin];
    (congruence || by apply (bool_decide_unpack _)).
Qed.

Lemma v2_status_body st w : st ∈ v2_statuses -> keeps4 w -> v2_body ((w_uint32 st >> w) []).
Proof.
  intros Hst Hw. right. destruct (Hw (be_enc 4 st)) as (rest & E & _); [done|].
  exists st, rest. by split.
Qed.
Lemma v2_status_only st : st ∈ v2_statuses -> v2_body (w_uint32 st []).
Proof. intros Hst. right. exists st, []. by rewrite app_nil_r. Qed.

Ltac v2_done := cbv beta; repeat match goal with
  | |- v2_body [] => by left
  | |- v2_body (w_uint32 _ []) => apply v2_status_only
  | |- v2_body ((w_uint32 _ >> _) []) => apply v2_status_body
  | |- v2_body (match ?x with _ => _ end) => destruct x
  | |- status2For _ ∈ _ => apply status2For_v2
  | H : ?x ∈ v2_statuses |- ?x ∈ v2_statuses => exact H
  | |- nfsOK ∈ _ => by left
  | |- nfsErrROFS ∈ _ => by apply (bool_decide_unpack _)
  | |- nfsErrPerm ∈ _ => by apply (bool_decide_unpack _)
  | |- keeps4 _ => progress words
  end.

Section v2.
Context {S Node V : Type} (fs : FS S Node) (view : S -> V) `{!FSLaws fs view} (now : Z -> gotime).

Lemma node_v2 fh : returns (fun r => match r with inr st => st ∈ v2_statuses | inl _ => True end)
  (node fs fh).
Proof.
  unfold node. apply returns_seq. intros [n|e]; apply returns_ret; [done|apply status2For_v2].
Qed.

Ltac with_node := match goal with
  | |- returns _ (node _ _ ≫= _) => eapply returns_bind; [apply node_v2|intros [?|?] ?]
  | |- returns _ (handle _ _ ≫= _) => eapply returns_bind; [by apply (handle_aligned fs view)|intros ? ?]
  | |- v2_body _ => idtac
  end.

(** No version 2 reply carries a status only version 3 has: every body starts
    with one of the seventeen values above, in particular never BADHANDLE or
    NOTSUPP, and READDIR, READ and the rest report errors only there. *)
Theorem v2_statuses_only p h r s : (p, h) ∈ nfs2Procs fs now -> v2_body (fst (h (r, s))).
Proof.
  intros H. revert r s. change (returns v2_body h). revert H.
  unfold nfs2Procs. destruct (writes fs) as [wfs|]; intros H; apply elem_of_app in H as [H|H];
    rewrite !elem_of_cons in H; repeat destruct H as [[= -> ->]|H];
    try (by apply not_elem_of_nil in H);
    unfold nfsGetattr, nfsLookup, nfsReadlink, nfsRead, nfsReaddir, nfsStatfs, nfsSetattr, nfsWrite,
      nfsCreate, nfsRemove, nfsRename, nfsSymlink, nfsLink, nfsROFS, null, attrstat;
    follow ltac:(idtac; with_node) ltac:(solve [v2_done; try apply readdir_loop_aligned]).
Qed.
End v2.
