(* ===== verification/Nfs3Client.v ===== *)
(** What an NFSv3 client gets from READ, READDIR and READDIRPLUS
    ([nfs/nfs3.go]): sizes within what it asked for, and whole files and
    directories from repeated calls. *)
From S2P Require Import Prelude Xdr Nfs Rpc Nfs2 Nfs3.

(** ** The bytes the writers add *)

Definition time3_bytes (t : gotime) : bytes := be_enc 4 (u32 (Unix t)) ++ be_enc 4 (u32 (Nanosecond t)).

Definition fattr3_bytes {S Node} (fs : FS S Node) (n : Node) : bytes :=
  let a := attrOf fs n in
  be_enc 4 (ftype (a_Mode a)) ++ be_enc 4 (Z.land (a_Mode a) 0xFFF) ++ be_enc 4 (Nlink a)
  ++ be_enc 4 0 ++ be_enc 4 0 ++ be_enc 8 (a_Size a) ++ be_enc 8 (Used a)
  ++ be_enc 4 0 ++ be_enc 4 0 ++ be_enc 8 1 ++ be_enc 8 (Fileid a)
  ++ time3_bytes (Atime a) ++ time3_bytes (a_Mtime a) ++ time3_bytes (Ctime a).

Lemma writeFattr3_bytes {S Node} (fs : FS S Node) n w : writeFattr3 fs n w = w ++ fattr3_bytes fs n.
Proof.
  unfold writeFattr3, fattr3_bytes, writeTime3, time3_bytes, then_, w_uint32, w_uint64.
  by rewrite <- !app_assoc.
Qed.

Lemma aligned_fattr3 {S Node} (fs : FS S Node) n : aligned (fattr3_bytes fs n).
Proof. unfold fattr3_bytes, time3_bytes. cbv zeta. auto 25 with golib. Qed.
#[export] Hint Resolve aligned_fattr3 : golib.

Lemma zlen_fattr3 {S Node} (fs : FS S Node) n : zlen (fattr3_bytes fs n) = 84.
Proof. unfold fattr3_bytes, time3_bytes. by rewrite !zlen_app, !zlen_be_enc. Qed.

(** A post_op_attr with the attributes. *)
Definition attr_bytes {S Node} (fs : FS S Node) (n : Node) : bytes := be_enc 4 1 ++ fattr3_bytes fs n.

Lemma writePostOp_bytes {S Node} (fs : FS S Node) n w :
  writePostOp fs (Some n) w = w ++ attr_bytes fs n.
Proof. unfold writePostOp, then_, attr_bytes, w_bool, w_uint32. by rewrite writeFattr3_bytes, <- app_assoc. Qed.

Lemma zlen_attr_bytes {S Node} (fs : FS S Node) n : zlen (attr_bytes fs n) = 88.
Proof. unfold attr_bytes. by rewrite zlen_app, zlen_be_enc, zlen_fattr3. Qed.

(** ** A client's calls *)

(** One procedure on encoded arguments: its body unless they were garbage. *)
Definition run {S} (h : handler S bytes) (args : bytes) : state S (option bytes) := fun s =>
  let '(body, (r, s)) := h (XdrReader args 0 false, s) in (if err r then None else Some body, s).

Lemma arg_reads {S A} (m : state xdrReader A) enc v pre post (s : S) :
  reads m enc v ->
  arg m (XdrReader (pre ++ enc ++ post) (zlen pre) false, s)
    = (v, (XdrReader (pre ++ enc ++ post) (zlen pre + zlen enc) false, s)).
Proof. intros H. unfold arg. by rewrite H. Qed.

(** A handler's argument reading, in the style of [reads]. *)
Definition reads_h {S A} (m : handler S A) (enc : bytes) (v : A) : Prop :=
  forall pre post s, m (XdrReader (pre ++ enc ++ post) (zlen pre) false, s)
    = (v, (XdrReader (pre ++ enc ++ post) (zlen pre + zlen enc) false, s)).

Lemma reads_h_arg {S A} (m : state xdrReader A) enc v : reads m enc v -> reads_h (S := S) (arg m) enc v.
Proof. intros H pre post s. by apply arg_reads. Qed.

(** The first argument of what is left, then the rest. *)
Lemma run_arg {S A B} (m : handler S A) (f : A -> handler S B) enc v pre post s :
  reads_h m enc v ->
  (m ≫= f) (XdrReader (pre ++ enc ++ post) (zlen pre) false, s)
    = f v (XdrReader ((pre ++ enc) ++ post) (zlen (pre ++ enc)) false, s).
Proof.
  intros H. unfold mbind, state_bind. rewrite H. by rewrite <- app_assoc, zlen_app.
Qed.

Lemma at_start {S} (enc : bytes) (s : S) :
  (XdrReader enc 0 false, s) = (XdrReader ([] ++ enc) (zlen (@nil Z)) false, s).
Proof. done. Qed.

Definition wf_fh (fh : bytes) : Prop := zlen fh <= 64.

Lemma reads_fh {S} fh : wf_fh fh -> reads_h (S := S) readFH3 (opaque_enc fh) fh.
Proof. intros H. apply reads_h_arg, reads_opaque; [lia|exact H]. Qed.

(** The calls of one client while [same] holds of the file system: the files it
    asks about are not being changed. *)
Section client.
Context {S Node : Type} (fs : FS S Node) (same : S -> Prop).

(** [fh] is a handle of [n]. *)
Definition names (fh : bytes) (n : Node) : Prop :=
  wf_fh fh /\ forall r s, same s -> exists s', resolve fs fh (r, s) = (inl n, (r, s')) /\ same s'.

Lemma names_node3 fh n r s : names fh n -> same s ->
  exists s', node3 fs fh (r, s) = (inl n, (r, s')) /\ same s'.
Proof.
  intros [_ H] Hs. destruct (H r s Hs) as (s' & E & Hs'). exists s'.
  unfold node3, mbind, state_bind. by rewrite E.
Qed.

(** ** READ *)

Definition read_args (fh : bytes) (offset count : Z) : bytes :=
  opaque_enc fh ++ be_enc 8 offset ++ be_enc 4 count.

(** What a client decodes: the data and the end-of-file flag. *)
Definition parse_read : state xdrReader (option (bytes * bool)) :=
  status ← uint32;
  if negb (status =? nfsOK) then mret None
  else
    _ ← bool_;
    _ ← bytes_ 84;
    _ ← uint32;
    eof ← bool_;
    data ← opaque maxRead3;
    mret (Some (data, eof)).

Definition client_read (fh : bytes) (offset count : Z) : state S (option (bytes * bool)) := fun s =>
  let '(reply, s) := run (nfs3Read fs) (read_args fh offset count) s in
  match reply with
  | None => (None, s)
  | Some body =>
      let '(d, r) := parse_read (XdrReader body 0 false) in
      (if err r then None else d, s)
  end.

(** Sequential reads of [count] bytes until the end of file. *)
Fixpoint read_file (fuel : nat) (fh : bytes) (count offset : Z) : state S (option bytes) := fun s =>
  match fuel with
  | O => (None, s)
  | Datatypes.S fuel =>
      let '(r, s) := client_read fh offset count s in
      match r with
      | None => (None, s)
      | Some (d, true) => (Some d, s)
      | Some (d, false) =>
          let '(rest, s) := read_file fuel fh count (offset + zlen d) s in
          (app d <$> rest, s)
      end
  end.

(** [n] is a regular file holding [data]. *)
Definition holds (n : Node) (data : bytes) : Prop :=
  ftype (Mode fs n) = nfREG /\ Size fs n = zlen data /\
  forall c o s, same s -> 0 <= c -> 0 <= o < zlen data -> exists e s',
    ReadAt fs n c o s = ((sub data o c, e), s') /\ (sub data o c = [] -> e = None) /\ same s'.

Definition read_reply (n : Node) (data : bytes) (eof : bool) : bytes :=
  be_enc 4 nfsOK ++ attr_bytes fs n ++ be_enc 4 (zlen data)
  ++ be_enc 4 (if eof then 1 else 0) ++ opaque_enc data.

Lemma aligned_head n (data : bytes) (eof : bool) :
  aligned (be_enc 4 nfsOK ++ attr_bytes fs n ++ be_enc 4 (zlen data) ++ be_enc 4 (if eof then 1 else 0)).
Proof. unfold aligned. by rewrite !zlen_app, zlen_attr_bytes, !zlen_be_enc. Qed.

Lemma read_reply_bytes n (data : bytes) (eof : bool) : zlen data < 2 ^ 32 ->
  (w_uint32 nfsOK >> writePostOp fs (Some n) >> w_uint32 (u32 (zlen data)) >> w_bool eof >> w_opaque data) []
  = read_reply n data eof.
Proof.
  intros Hl. pose proof (zlen_nonneg data). unfold then_, read_reply.
  rewrite u32_small by lia.
  assert (w_bool eof (w_uint32 (zlen data) (writePostOp fs (Some n) (w_uint32 nfsOK [])))
    = be_enc 4 nfsOK ++ attr_bytes fs n ++ be_enc 4 (zlen data) ++ be_enc 4 (if eof then 1 else 0)) as ->.
  { rewrite writePostOp_bytes. unfold w_uint32, w_bool. destruct eof; unfold w_uint32;
      by rewrite <- !app_assoc. }
  rewrite w_opaque_enc by apply aligned_head. by rewrite <- !app_assoc.
Qed.

(** The data a READ returns: what is there from the offset, at most what was
    asked for and at most 32 KiB. *)
Definition read_data (data : bytes) (offset count : Z) : bytes :=
  if offset <? zlen data then sub data offset (Z.min count maxRead3) else [].

Lemma read_data_len data offset count : 0 <= offset -> 0 <= count ->
  zlen (read_data data offset count) = Z.max 0 (Z.min (Z.min count maxRead3) (zlen data - offset)).
Proof.
  intros Ho Hc. assert (maxRead3 = 32768) as Hm by done. unfold read_data.
  destruct (offset <? zlen data) eqn:E; zbool.
  - apply zlen_sub_min; lia.
  - rewrite (@zlen_nil Z). lia.
Qed.

(** READ answers exactly the bytes of the file at the offset, no more than it
    was asked for, and sets eof exactly when they reach the end. *)
Lemma nfs3Read_spec fh n data offset count s :
  same s -> names fh n -> holds n data -> 0 <= offset < 2 ^ 64 -> 0 <= count < 2 ^ 32 -> zlen data < 2 ^ 63 ->
  let d := read_data data offset count in
  exists s', run (nfs3Read fs) (read_args fh offset count) s
    = (Some (read_reply n d (zlen data <=? offset + zlen d)), s') /\ same s'.
Proof.
  intros Hs Hn (Ht & Hsz & Hread) Ho Hc Hlen d. assert (maxRead3 = 32768) as Hm by done.
  assert (zlen d <= 32768) as Hd by (unfold d; rewrite read_data_len by lia; lia).
  pose proof (zlen_nonneg d).
  unfold run, nfs3Read, read_args.
  rewrite (at_start _ s), (run_arg _ _ _ _ _ _ _ (reads_fh fh (proj1 Hn))).
  rewrite (run_arg _ _ _ _ _ _ _ (reads_h_arg _ _ _ (reads_uint64 offset Ho))).
  rewrite <- (app_nil_r (be_enc 4 count)).
  rewrite (run_arg _ _ _ _ _ _ _ (reads_h_arg _ _ _ (reads_uint32 count Hc))).
  set (r := XdrReader _ _ _). destruct (names_node3 fh n r s Hn Hs) as (s1 & E1 & Hs1).
  unfold mbind, state_bind. rewrite E1, Ht. change (negb (read_status nfREG =? nfsOK)) with false.
  cbv iota zeta. rewrite Hsz, Z.max_l by apply zlen_nonneg.
  unfold call, d, read_data in *. destruct (offset <? zlen data) eqn:Eo; zbool.
  - destruct (Hread (Z.min count maxRead3) offset s1 Hs1) as (e & s2 & -> & He & Hs2); [lia..|].
    set (got := sub data offset (Z.min count maxRead3)) in *.
    rewrite (u64_small (offset + zlen got)) by lia. exists s2.
    destruct e as [e|]; [destruct (zlen got =? 0) eqn:Ez; zbool|].
    { destruct got as [|x g]; [by specialize (He eq_refl)|].
      rewrite zlen_cons in Ez. pose proof (zlen_nonneg g). lia. }
    all: unfold mret, state_ret; rewrite read_reply_bytes by lia; by split.
  - exists s1. rewrite (u64_small (offset + zlen [])) by (rewrite (@zlen_nil Z); lia).
    unfold mret, state_ret. rewrite read_reply_bytes by lia. by split.
Qed.

Lemma reads_parse_read n d eof : zlen d <= maxRead3 ->
  reads parse_read (read_reply n d eof) (Some (d, eof)).
Proof.
  intros Hd. assert (maxRead3 = 32768) as Hm by done. pose proof (zlen_nonneg d).
  unfold parse_read, read_reply, attr_bytes. rewrite <- (app_assoc (be_enc 4 1)).
  eapply reads_bind; [apply reads_uint32; unfold nfsOK; lia|]. change (nfsOK =? nfsOK) with true.
  cbv iota. cbn [negb].
  eapply reads_bind; [apply (reads_bool true)|].
  eapply reads_bind; [rewrite <- (zlen_fattr3 fs n); apply reads_bytes|].
  eapply reads_bind; [apply reads_uint32; lia|].
  eapply reads_bind; [apply reads_bool|].
  rewrite <- (app_nil_r (opaque_enc d)).
  eapply reads_bind; [apply reads_opaque; lia|]. apply reads_ret.
Qed.

Lemma reads_all {A} (m : state xdrReader A) enc v : reads m enc v ->
  m (XdrReader enc 0 false) = (v, XdrReader enc (zlen enc) false).
Proof. intros H. specialize (H [] []). cbn [app] in H. by rewrite app_nil_r in H. Qed.

Lemma client_read_spec fh n data offset count s :
  same s -> names fh n -> holds n data -> 0 <= offset < 2 ^ 64 -> 0 <= count < 2 ^ 32 -> zlen data < 2 ^ 63 ->
  let d := read_data data offset count in
  exists s', client_read fh offset count s = (Some (d, zlen data <=? offset + zlen d), s') /\ same s'.
Proof.
  intros Hs Hn Hh Ho Hc Hl d. unfold client_read.
  destruct (nfs3Read_spec fh n data offset count s Hs Hn Hh Ho Hc Hl) as (s' & -> & Hs').
  assert (zlen d <= maxRead3) as Hd.
  { assert (maxRead3 = 32768) as Hm by done. unfold d. rewrite read_data_len by lia. lia. }
  rewrite (reads_all _ _ _ (reads_parse_read n _ _ Hd)). by exists s'.
Qed.

(** Reading a file from the start with READs of any size until the server says
    end of file yields the whole file: no byte is lost, repeated or invented,
    and the loop ends. [fuel] bounds the number of calls. *)
Theorem read_file_whole fh n data count fuel s :
  same s -> names fh n -> holds n data -> 0 < count < 2 ^ 32 -> zlen data < 2 ^ 63 ->
  (length data < fuel)%nat ->
  fst (read_file fuel fh count 0 s) = Some data.
Proof.
  intros Hs Hn Hh Hc Hl Hf. assert (maxRead3 = 32768) as Hm by done.
  enough (forall fuel off s, same s -> 0 <= off <= zlen data -> zlen data - off < Z.of_nat fuel ->
    fst (read_file fuel fh count off s) = Some (drop (Z.to_nat off) data)) as H.
  { rewrite H; [by rewrite drop_0|done| |]; pose proof (zlen_nonneg data); unfold zlen in *; lia. }
  clear fuel s Hs Hf. induction fuel as [|fuel IH]; intros off s Hs Ho Hf; [lia|]. cbn [read_file].
  destruct (client_read_spec fh n data off count s Hs Hn Hh ltac:(lia) ltac:(lia) Hl) as (s1 & -> & Hs1).
  set (d := read_data data off count).
  assert (zlen d = Z.min (Z.min count 32768) (zlen data - off)) as Hd.
  { unfold d. rewrite read_data_len by lia. lia. }
  assert (d ++ drop (Z.to_nat (off + zlen d)) data = drop (Z.to_nat off) data) as Happ.
  { assert (d = sub data off (zlen d)) as E.
    { unfold d, read_data in *. destruct (off <? zlen data) eqn:Eo; zbool; [|by rewrite sub_0].
      rewrite Hd. unfold sub, zlen in *. rewrite Hm.
      destruct (decide (Z.min count 32768 <= Z.of_nat (length data) - off)); [f_equal; lia|].
      rewrite !take_ge; [done|rewrite length_drop; lia..]. }
    rewrite E at 1. unfold sub. rewrite Z2Nat.inj_add, <- drop_drop by lia.
    apply take_drop. }
  destruct (zlen data <=? off + zlen d) eqn:Ee; zbool.
  - cbn [fst]. f_equal. rewrite <- Happ, (drop_ge data), app_nil_r; [done|unfold zlen in *; lia].
  - specialize (IH (off + zlen d) s1 Hs1 ltac:(lia) ltac:(lia)).
    destruct (read_file fuel fh count (off + zlen d) s1) as [rest s2]. cbn [fst] in *.
    rewrite IH. cbn. by rewrite Happ.
Qed.
End client.

(** ** The size of a listing *)

Definition readdir_cost {Node} (e : DirEntry Node) : Z := 4 + 8 + xdrStrLen (Name e) + 8.
Definition readdirplus_cost {Node} (e : DirEntry Node) : Z :=
  4 + (8 + xdrStrLen (Name e) + 8) + 4 + 84 + 4 + 4 + fhSize.

Lemma xdrStrLen_enc (p : bytes) : xdrStrLen p = zlen (opaque_enc p).
Proof. by rewrite zlen_opaque_enc. Qed.

Lemma xdrStrLen_pos (p : bytes) : 4 <= xdrStrLen p /\ xdrStrLen p mod 4 = 0.
Proof.
  unfold xdrStrLen. pose proof (pad4_bounds (zlen p) (zlen_nonneg p)) as [? H].
  pose proof (zlen_nonneg p). split; [lia|]. by rewrite Z.add_mod, H by lia.
Qed.

Lemma mod4_add a b : a mod 4 = 0 -> b mod 4 = 0 -> (a + b) mod 4 = 0.
Proof. intros Ha Hb. by rewrite Z.add_mod, Ha, Hb by lia. Qed.

Lemma readdir_cost_mod {Node} (e : DirEntry Node) : readdir_cost e mod 4 = 0.
Proof.
  replace (readdir_cost e) with (xdrStrLen (Name e) + 20) by (unfold readdir_cost; lia).
  apply mod4_add; [apply xdrStrLen_pos|done].
Qed.
Lemma readdirplus_cost_mod {Node} (e : DirEntry Node) : readdirplus_cost e mod 4 = 0.
Proof.
  replace (readdirplus_cost e) with (xdrStrLen (Name e) + 148)
    by (unfold readdirplus_cost, fhSize; lia).
  apply mod4_add; [apply xdrStrLen_pos|done].
Qed.

(** Entries that each cost what their writer adds stay inside the budget, with
    the terminator and the flag after them. *)
Lemma readdir_entries_size {S Node B} (fits : B -> DirEntry Node -> option B)
    (emit : DirEntry Node -> Z -> handler S writer) (left_of : B -> Z) (cost : DirEntry Node -> Z) :
  (forall e, cost e mod 4 = 0) ->
  (forall b e b', fits b e = Some b' -> left_of b' = left_of b - cost e /\ 0 <= left_of b') ->
  (forall e c r s w, aligned w -> zlen (fst (emit e c (r, s)) w) = zlen w + (cost e - 4)) ->
  forall ents i first b body r s, aligned body ->
  match fst (readdir_entries fits emit ents i first b body (r, s)) with
  | Some out => zlen out <= zlen body + Z.max (left_of b) 0 + 8 /\ aligned out
  | None => True
  end.
Proof.
  intros Hmod Hfits Hemit. induction ents as [|e ents IH]; intros i first b body r s Hb;
    cbn [readdir_entries].
  all: assert (forall x y l, aligned l -> zlen ((w_bool x >> w_bool y) l) = zlen l + 8 /\
    aligned ((w_bool x >> w_bool y) l)) as Hend
    by (intros x y l Hl; destruct x, y; unfold then_, w_bool, w_uint32;
        (split; [rewrite !zlen_app, !zlen_be_enc; lia|auto with golib])).
  - destruct (Hend false true body Hb) as [E Ha]. cbn [fst mret state_ret]. unfold mret, state_ret.
    cbn [fst]. rewrite E. split; [lia|done].
  - destruct (fits b e) as [b'|] eqn:Ef.
    + destruct (Hfits b e b' Ef) as [Hl Hn]. unfold mbind, state_bind.
      specialize (Hemit e (entryCookie e i) r s). destruct (emit e (entryCookie e i) (r, s)) as [w [r' s']].
      cbn [fst] in Hemit.
      assert (aligned (w_bool true body)) as Hb1.
      { unfold w_bool, w_uint32. auto with golib. }
      assert (zlen ((w_bool true >> w) body) = zlen body + cost e) as Hz.
      { unfold then_. rewrite Hemit by done. unfold w_bool, w_uint32. rewrite zlen_app, zlen_be_enc. lia. }
      assert (aligned ((w_bool true >> w) body)) as Hb2.
      { unfold aligned in *. rewrite Hz, Z.add_mod, Hb, Hmod by lia. done. }
      specialize (IH (i + 1) false b' ((w_bool true >> w) body) r' s' Hb2).
      destruct (readdir_entries _ _ _ _ _ _ _ _) as [[out|] ?]; cbn [fst] in *; [|done].
      destruct IH as [IH Ha]. split; [lia|done].
    + unfold mret, state_ret. destruct first; [done|]. cbn [fst].
      destruct (Hend false false body Hb) as [E Ha]. rewrite E. split; [lia|done].
Qed.

Section listing_size.
Context {S Node V : Type} (fs : FS S Node) (view : S -> V) `{!FSLaws fs view}.

Lemma zlen_failure st n : zlen (failure fs st n) = 92.
Proof.
  unfold failure, then_. rewrite writePostOp_bytes. unfold w_uint32.
  by rewrite !zlen_app, zlen_attr_bytes, zlen_be_enc.
Qed.

Lemma readdir_reply_size dir body :
  zlen (readdir_reply fs dir body) = match body with Some b => 100 + zlen b | None => 92 end.
Proof.
  destruct body as [b|]; cbn [readdir_reply]; [|apply zlen_failure].
  unfold then_, w_fixed. rewrite writePostOp_bytes. unfold w_uint32.
  rewrite !zlen_app, zlen_attr_bytes, zlen_be_enc. change (zlen zeroVerf) with 8.
  rewrite (@zlen_nil Z). lia.
Qed.

Lemma readdirStart3_size fh r s reply st :
  readdirStart3 fs fh (r, s) = (inr reply, st) -> zlen reply <= 92.
Proof.
  unfold readdirStart3, mbind, state_bind, mret, state_ret.
  destruct (node3 fs fh (r, s)) as [[dir|status] [r1 s1]].
  - destruct (negb _).
    + intros [= <- <-]. by rewrite zlen_failure.
    + unfold call. destruct (ReadDir fs dir s1) as [[ents|e] s2]; [done|].
      intros [= <- <-]. by rewrite zlen_failure.
  - intros [= <- <-]. unfold no_object, then_, writePostOp, w_bool, w_uint32.
    by rewrite zlen_app, !zlen_be_enc.
Qed.

Lemma emit_size e c r s w : aligned w ->
  zlen (fst (readdir_emit (S := S) fs e c (r, s)) w) = zlen w + (readdir_cost e - 4).
Proof.
  intros Hw. unfold readdir_emit, mret, state_ret, then_, w_uint64, readdir_cost. cbn [fst].
  rewrite w_opaque_enc by auto with golib.
  rewrite !zlen_app, !zlen_be_enc, <- xdrStrLen_enc. lia.
Qed.

Lemma handle_size n r s : zlen (fst (handle fs n (r, s))) = fhSize.
Proof.
  unfold handle. destruct (handles fs) as [h|] eqn:E.
  - pose proof (law_handle_size h n s E) as H. unfold call. by destruct (Handle h n s).
  - unfold mret, state_ret, encodeFH. cbn [fst]. by rewrite !zlen_app, zlen_be_enc, zlen_replicate.
Qed.

Lemma emitplus_size e c r s w : aligned w ->
  zlen (fst (readdirplus_emit fs e c (r, s)) w) = zlen w + (readdirplus_cost e - 4).
Proof.
  intros Hw. unfold readdirplus_emit, mbind, state_bind, mret, state_ret.
  pose proof (handle_size (ent_Node e) r s) as Hh.
  destruct (handle fs (ent_Node e) (r, s)) as [h [r' s']]. cbn [fst] in *.
  unfold then_, w_uint64, w_bool, readdirplus_cost.
  rewrite writePostOp_bytes. pose proof (xdrStrLen_pos (Name e)) as [_ Hx].
  assert (aligned (w ++ be_enc 8 (Fileid (attrOf fs (ent_Node e))))) as Ha.
  { auto with golib. }
  rewrite (w_opaque_enc (Name e)) by done. unfold w_uint32.
  rewrite w_opaque_enc.
  - rewrite !zlen_app, !zlen_be_enc, <- xdrStrLen_enc, zlen_attr_bytes, zlen_opaque_enc, Hh.
    change (pad4 fhSize) with fhSize. lia.
  - unfold attr_bytes. auto 12 with golib.
Qed.

(** READDIR and READDIRPLUS answer within the size the client gave - the
    [count] or [maxcount] argument, or the fixed part where that is larger -
    whatever is in the directory. *)
Lemma readdir_size dir ents cookie count r s out st :
  readdirEntries readdir_fits (readdir_emit (S := S) fs) ents cookie (count - readdirFixed) (r, s) = (out, st) ->
  zlen (readdir_reply fs dir out) <= Z.max count readdirFixed.
Proof.
  intros E. rewrite readdir_reply_size. destruct out as [b|]; [|unfold readdirFixed; lia].
  pose proof (readdir_entries_size readdir_fits (readdir_emit (S := S) fs) (fun b => b) readdir_cost) as H.
  unfold readdirEntries in E.
  specialize (H readdir_cost_mod).
  specialize (H ltac:(intros b0 e b'; unfold readdir_fits; destruct (_ <? _) eqn:Ef; [done|];
    intros [= <-]; zbool; unfold readdir_cost; lia) ltac:(intros; by apply emit_size)).
  match type of E with readdir_entries _ _ ?l ?i ?f ?bb ?w _ = _ =>
    specialize (H l i f bb w r s ltac:(done)) end.
  rewrite E in H. cbn [fst] in H. destruct H as [H _]. rewrite (@zlen_nil Z) in H.
  unfold readdirFixed in *. lia.
Qed.

Lemma readdirplus_size dir ents cookie dircount maxcount r s out st :
  readdirEntries readdirplus_fits (readdirplus_emit fs) ents cookie
    (dircount, maxcount - readdirFixed) (r, s) = (out, st) ->
  zlen (readdir_reply fs dir out) <= Z.max maxcount readdirFixed.
Proof.
  intros E. rewrite readdir_reply_size. destruct out as [b|]; [|unfold readdirFixed; lia].
  pose proof (readdir_entries_size readdirplus_fits (readdirplus_emit fs) snd readdirplus_cost) as H.
  unfold readdirEntries in E.
  specialize (H readdirplus_cost_mod).
  specialize (H ltac:(intros b0 e b'; unfold readdirplus_fits; destruct (_ || _) eqn:Ef; [done|];
    intros [= <-]; zbool; unfold readdirplus_cost; cbn; lia) ltac:(intros; by apply emitplus_size)).
  match type of E with readdir_entries _ _ ?l ?i ?f ?bb ?w _ = _ =>
    specialize (H l i f bb w r s ltac:(done)) end.
  rewrite E in H. cbn [fst snd] in H. destruct H as [H _]. rewrite (@zlen_nil Z) in H.
  unfold readdirFixed in *. lia.
Qed.
End listing_size.

Definition readdir_args (fh : bytes) (cookie : Z) (verf : bytes) (count : Z) : bytes :=
  opaque_enc fh ++ be_enc 8 cookie ++ verf ++ be_enc 4 count.
Definition readdirplus_args (fh : bytes) (cookie : Z) (verf : bytes) (dircount maxcount : Z) : bytes :=
  opaque_enc fh ++ be_enc 8 cookie ++ verf ++ be_enc 4 dircount ++ be_enc 4 maxcount.

Lemma reads_verf {S} (verf : bytes) : zlen verf = 8 -> reads_h (S := S) (arg (bytes_ 8)) verf verf.
Proof. intros <-. apply reads_h_arg, reads_bytes. Qed.

Section listing_args.
Context {S Node : Type} (fs : FS S Node).

(** A listing after its arguments. *)
Definition listing (fh : bytes) (entries : list (DirEntry Node) -> handler S (option bytes)) : handler S bytes :=
  r ← readdirStart3 fs fh;
  match r with
  | inr reply => mret reply
  | inl (dir, ents) => body ← entries ents; mret (readdir_reply fs dir body)
  end.

(** READDIR with its arguments decoded. *)
Lemma run_readdir fh cookie verf count s :
  wf_fh fh -> 0 <= cookie < 2 ^ 64 -> zlen verf = 8 -> 0 <= count < 2 ^ 32 ->
  exists r, err r = false /\ nfs3Readdir fs (XdrReader (readdir_args fh cookie verf count) 0 false, s) =
    listing fh (fun ents => readdirEntries readdir_fits (readdir_emit fs) ents cookie (count - readdirFixed))
      (r, s).
Proof.
  intros Hf Hc Hv Hn. unfold nfs3Readdir, readdir_args.
  rewrite (at_start _ s), (run_arg _ _ _ _ _ _ _ (reads_fh fh Hf)).
  rewrite (run_arg _ _ _ _ _ _ _ (reads_h_arg _ _ _ (reads_uint64 cookie Hc))).
  rewrite (run_arg _ _ _ _ _ _ _ (reads_verf verf Hv)).
  rewrite <- (app_nil_r (be_enc 4 count)).
  rewrite (run_arg _ _ _ _ _ _ _ (reads_h_arg _ _ _ (reads_uint32 count Hn))).
  eexists. split; [|reflexivity]. reflexivity.
Qed.

Lemma run_readdirplus fh cookie verf dircount maxcount s :
  wf_fh fh -> 0 <= cookie < 2 ^ 64 -> zlen verf = 8 -> 0 <= dircount < 2 ^ 32 -> 0 <= maxcount < 2 ^ 32 ->
  exists r, err r = false /\
    nfs3Readdirplus fs (XdrReader (readdirplus_args fh cookie verf dircount maxcount) 0 false, s) =
    listing fh (fun ents => readdirEntries readdirplus_fits (readdirplus_emit fs) ents cookie
      (dircount, maxcount - readdirFixed)) (r, s).
Proof.
  intros Hf Hc Hv Hd Hn. unfold nfs3Readdirplus, readdirplus_args.
  rewrite (at_start _ s), (run_arg _ _ _ _ _ _ _ (reads_fh fh Hf)).
  rewrite (run_arg _ _ _ _ _ _ _ (reads_h_arg _ _ _ (reads_uint64 cookie Hc))).
  rewrite (run_arg _ _ _ _ _ _ _ (reads_verf verf Hv)).
  rewrite (run_arg _ _ _ _ _ _ _ (reads_h_arg _ _ _ (reads_uint32 dircount Hd))).
  rewrite <- (app_nil_r (be_enc 4 maxcount)).
  rewrite (run_arg _ _ _ _ _ _ _ (reads_h_arg _ _ _ (reads_uint32 maxcount Hn))).
  eexists. split; [|reflexivity]. reflexivity.
Qed.

Lemma no_args_entries {B} (fits : B -> DirEntry Node -> option B) emit ents cookie b :
  (forall e c, no_args (emit e c)) -> no_args (readdirEntries (S := S) fits emit ents cookie b).
Proof.
  intros He. unfold readdirEntries. generalize (Nfs2.readdirStart ents cookie) at 2.
  generalize true (@nil Z). revert b. induction (drop _ ents) as [|e l IH]; intros b f body i;
    cbn [readdir_entries]; [apply no_args_ret|].
  destruct (fits b e); [apply no_args_bind; [apply He|intros; apply IH]|].
  destruct f; apply no_args_ret.
Qed.

Lemma no_args_start fh : no_args (readdirStart3 fs fh).
Proof.
  unfold readdirStart3, node3.
  repeat first [apply no_args_ret | apply no_args_call | apply no_args_resolve
    | apply no_args_bind; [|intros ?]
    | match goal with |- no_args (match ?x with _ => _ end) => destruct x end].
Qed.

Lemma no_args_emitplus e c : no_args (readdirplus_emit fs e c).
Proof.
  unfold readdirplus_emit. apply no_args_bind; [apply no_args_handle|intros; apply no_args_ret].
Qed.

(** The part after the arguments of both listings. *)
Lemma listing_bound fh (entries : list (DirEntry Node) -> handler S (option bytes)) r s bound :
  err r = false -> (forall ents, no_args (entries ents)) ->
  (forall dir ents r s out st, entries ents (r, s) = (out, st) ->
     zlen (readdir_reply fs dir out) <= Z.max bound readdirFixed) ->
  exists reply,
    fst (let '(body, (r, s)) := listing fh entries (r, s) in
         (if err r then None else Some body, s)) = Some reply /\
    zlen reply <= Z.max bound readdirFixed.
Proof.
  intros Hr Hna Hb. assert (92 <= Z.max bound readdirFixed) by (unfold readdirFixed; lia).
  pose proof (no_args_start fh r s) as N1. unfold listing, mbind, state_bind.
  destruct (readdirStart3 fs fh (r, s)) as [[[dir ents]|reply] [r1 s1]] eqn:Es; cbn [fst snd] in N1; subst r1.
  - pose proof (Hna ents r s1) as N2. destruct (entries ents (r, s1)) as [out [r2 s2]] eqn:Ee.
    cbn [fst snd] in N2. subst r2. unfold mret, state_ret. rewrite Hr.
    eexists. split; [done|]. by eapply Hb.
  - unfold mret, state_ret. rewrite Hr. exists reply. split; [done|].
    pose proof (readdirStart3_size fs _ _ _ _ _ Es). lia.
Qed.
End listing_args.

(** A READDIR reply is no longer than the [count] the client gave, and a
    READDIRPLUS reply than its [maxcount] (or, where that is less than a reply
    without entries takes, than those 108 bytes), whatever the directory holds. *)
Theorem listings_within {S Node V} (fs : FS S Node) (view : S -> V) `{!FSLaws fs view}
    fh cookie verf dircount count s :
  wf_fh fh -> 0 <= cookie < 2 ^ 64 -> zlen verf = 8 -> 0 <= dircount < 2 ^ 32 -> 0 <= count < 2 ^ 32 ->
  (exists reply, fst (run (nfs3Readdir fs) (readdir_args fh cookie verf count) s) = Some reply /\
     zlen reply <= Z.max count readdirFixed) /\
  (exists reply, fst (run (nfs3Readdirplus fs) (readdirplus_args fh cookie verf dircount count) s) = Some reply /\
     zlen reply <= Z.max count readdirFixed).
Proof.
  intros Hf Hc Hv Hd Hn.
  destruct (run_readdir fs fh cookie verf count s) as (r1 & E1 & R1); try assumption.
  destruct (run_readdirplus fs fh cookie verf dircount count s) as (r2 & E2 & R2); try assumption.
  unfold run. rewrite R1, R2. clear R1 R2.
  split.
  - apply listing_bound; [done| |by intros; eapply readdir_size].
    intros. apply no_args_entries. intros. apply no_args_ret.
  - apply listing_bound; [done| |by intros; eapply (readdirplus_size fs view)].
    intros. apply no_args_entries. intros. apply no_args_emitplus.
Qed.

(** ** Listing a directory page by page *)

(** What a client decodes of an entry. *)
Record dent := MkDent { d_fileid : Z; d_name : bytes; d_cookie : Z }.

Fixpoint parse_entries (fuel : nat) : state xdrReader (option (list dent * bool)) :=
  match fuel with
  | O => mret None
  | Datatypes.S fuel =>
      more ← bool_;
      if (more : bool) then
        id ← uint64; name ← opaque max_u32; c ← uint64;
        rest ← parse_entries fuel;
        mret match rest with Some (l, eof) => Some (MkDent id name c :: l, eof) | None => None end
      else eof ← bool_; mret (Some ([], eof))
  end.

Definition parse_readdir (fuel : nat) : state xdrReader (option (list dent * bool)) :=
  status ← uint32;
  if negb (status =? nfsOK) then mret None
  else _ ← bool_; _ ← bytes_ 84; _ ← bytes_ 8; parse_entries fuel.

Section paging.
Context {S Node : Type} (fs : FS S Node) (same : S -> Prop).

Definition client_readdir (fh : bytes) (cookie count : Z) : state S (option (list dent * bool)) := fun s =>
  let '(reply, s) := run (nfs3Readdir fs) (readdir_args fh cookie zeroVerf count) s in
  match reply with
  | None => (None, s)
  | Some body =>
      let '(d, r) := parse_readdir (length body) (XdrReader body 0 false) in
      (if err r then None else d, s)
  end.

(** Calls that resume after the last cookie, until the server says it is the
    end. *)
Fixpoint list_dir (fuel : nat) (fh : bytes) (count cookie : Z) : state S (option (list dent)) := fun s =>
  match fuel with
  | O => (None, s)
  | Datatypes.S fuel =>
      let '(r, s) := client_readdir fh cookie count s in
      match r with
      | None => (None, s)
      | Some (l, true) => (Some l, s)
      | Some (l, false) =>
          match last l with
          | None => (None, s)
          | Some e =>
              let '(rest, s) := list_dir fuel fh count (d_cookie e) s in (app l <$> rest, s)
          end
      end
  end.

(** [dir] is a directory that lists [ents]. *)
Definition lists (dir : Node) (ents : list (DirEntry Node)) : Prop :=
  ftype (Mode fs dir) = nfDIR /\ 
  forall s, same s -> exists s', ReadDir fs dir s = (inl ents, s') /\ same s'.

(** Cookies are positions, or the entries' own in increasing order. *)
Definition good_cookies (ents : list (DirEntry Node)) : Prop :=
  Forall (fun e => Cookie e = 0) ents \/
  (Forall (fun e => 0 < Cookie e < 2 ^ 32) ents /\ StronglySorted (fun e e' => Cookie e < Cookie e') ents).

Definition wf_entry (e : DirEntry Node) : Prop := 0 <= Fileid (attrOf fs (ent_Node e)) < 2 ^ 64.

(** What the client sees of the entries from index [i]. *)
Fixpoint seen (i : Z) (ents : list (DirEntry Node)) : list dent :=
  match ents with
  | [] => []
  | e :: l => MkDent (Fileid (attrOf fs (ent_Node e))) (Name e) (entryCookie e i) :: seen (i + 1) l
  end.

Lemma seen_app i l k : seen i (l ++ k) = seen i l ++ seen (i + zlen l) k.
Proof.
  revert i. induction l as [|e l IH]; intros i; cbn [seen app].
  - by rewrite (@zlen_nil (DirEntry Node)), Z.add_0_r.
  - rewrite IH, zlen_cons. do 3 f_equal. lia.
Qed.

(** *** Where a listing resumes *)

Lemma first_after_sorted (ents : list (DirEntry Node)) c i k : StronglySorted (fun e e' => Cookie e < Cookie e') ents ->
  (forall e, ents !! k = Some e -> Cookie e = c) -> (k < length ents)%nat ->
  first_after ents c i = i + Z.of_nat k + 1.
Proof.
  intros H. revert i k. induction H as [|e l Hs IH He]; intros i k Hk Hlt; cbn [length] in Hlt; [lia|].
  cbn [first_after]. destruct k as [|k].
  - rewrite (Hk e eq_refl) in *. rewrite Z.ltb_irrefl. destruct l as [|e' l]; cbn [first_after]; [lia|].
    apply Forall_cons in He as [He _]. rewrite (proj2 (Z.ltb_lt _ _)) by lia. lia.
  - destruct (lookup_lt_is_Some_2 l k) as [x Hx]; [lia|].
    assert (Cookie x = c) as Hc by by apply Hk.
    pose proof (proj1 (Forall_lookup _ _) He k x Hx) as Hlt'. cbn in Hlt'.
    rewrite (proj2 (Z.ltb_ge _ _)) by lia. rewrite (IH (i + 1) k); [lia|by apply Hk|lia].
Qed.

Lemma readdirStart_0 (ents : list (DirEntry Node)) : good_cookies ents -> Nfs2.readdirStart ents 0 = 0.
Proof.
  intros H. unfold Nfs2.readdirStart. pose proof (zlen_nonneg ents).
  destruct ents as [|e l]; [done|]. destruct H as [H|[H _]]; apply Forall_cons in H as [He _].
  - rewrite He. cbn [negb Z.eqb]. lia.
  - rewrite (proj2 (Z.eqb_neq _ _)) by lia. cbn [negb first_after].
    by rewrite (proj2 (Z.ltb_lt _ _)) by lia.
Qed.

Lemma readdirStart_resume (ents : list (DirEntry Node)) (k : nat) e : good_cookies ents -> ents !! k = Some e ->
  Nfs2.readdirStart ents (entryCookie e (Z.of_nat k)) = Z.of_nat k + 1.
Proof.
  intros H Hk. pose proof (lookup_lt_Some _ _ _ Hk) as Hlt.
  unfold Nfs2.readdirStart, entryCookie. destruct H as [H|[H Hs]].
  - pose proof (proj1 (Forall_lookup _ _) H k e Hk) as He. cbn in He. rewrite He.
    change (negb (0 =? 0)) with false. cbv iota. destruct ents as [|e0 l]; [by cbn in Hlt; lia|].
    apply Forall_cons in H as [-> _]. change (negb (0 =? 0)) with false. cbv iota.
    unfold zlen. lia.
  - pose proof (proj1 (Forall_lookup _ _) H k e Hk) as He. cbn in He.
    rewrite (proj2 (Z.eqb_neq (Cookie e) _)) by lia. cbn [negb].
    destruct ents as [|e0 l]; [by cbn in Hlt; lia|]. apply Forall_cons in H as [H0 _].
    rewrite (proj2 (Z.eqb_neq (Cookie e0) _)) by lia. cbn [negb].
    rewrite (first_after_sorted (e0 :: l) _ 0 k Hs); [lia| |done].
    intros x Hx. congruence.
Qed.

Lemma cookie_range (ents : list (DirEntry Node)) (k : nat) e : good_cookies ents -> ents !! k = Some e ->
  Z.of_nat (length ents) < 2 ^ 32 -> 0 <= entryCookie e (Z.of_nat k) < 2 ^ 64.
Proof.
  intros H Hk Hl. pose proof (lookup_lt_Some _ _ _ Hk). unfold entryCookie.
  destruct H as [H|[H _]]; pose proof (proj1 (Forall_lookup _ _) H k e Hk) as He; cbn in He.
  - rewrite He. cbn. lia.
  - rewrite (proj2 (Z.eqb_neq _ _)) by lia. cbn. lia.
Qed.

(** *** One page *)

Definition entry_bytes (i : Z) (e : DirEntry Node) : bytes :=
  be_enc 4 1 ++ be_enc 8 (Fileid (attrOf fs (ent_Node e))) ++ opaque_enc (Name e)
  ++ be_enc 8 (entryCookie e i).

Fixpoint entries_bytes (i : Z) (ents : list (DirEntry Node)) : bytes :=
  match ents with [] => [] | e :: l => entry_bytes i e ++ entries_bytes (i + 1) l end.

Definition tail_bytes (eof : bool) : bytes := be_enc 4 0 ++ be_enc 4 (if eof then 1 else 0).

Lemma tail_writer (eof : bool) body : (w_bool false >> w_bool eof) body = body ++ tail_bytes eof.
Proof. unfold then_, tail_bytes, w_bool, w_uint32. destruct eof; by rewrite <- app_assoc. Qed.

Lemma emit_bytes e c body r (s : S) : aligned body ->
  (w_bool true >> fst (readdir_emit fs e c (r, s))) body
    = body ++ be_enc 4 1 ++ be_enc 8 (Fileid (attrOf fs (ent_Node e))) ++ opaque_enc (Name e) ++ be_enc 8 c.
Proof.
  intros Hb. unfold readdir_emit, mret, state_ret, then_, w_bool, w_uint32, w_uint64. cbn [fst].
  rewrite w_opaque_enc by auto with golib. by rewrite <- !app_assoc.
Qed.

Lemma page ents i (first : bool) b body r (s : S) : aligned body ->
  (first = true -> match ents with e :: _ => readdir_cost e <= b | [] => True end) ->
  exists k, (k <= length ents)%nat /\ (first = true -> ents <> [] -> (0 < k)%nat) /\
    readdir_entries readdir_fits (readdir_emit fs) ents i first b body (r, s)
      = (Some (body ++ entries_bytes i (take k ents) ++ tail_bytes (bool_decide (k = length ents))), (r, s)).
Proof.
  revert i first b body. induction ents as [|e l IH]; intros i first b body Hb Hfirst; cbn [readdir_entries].
  - exists 0%nat. split_and!; [lia|done|]. unfold mret, state_ret. by rewrite tail_writer.
  - unfold readdir_fits at 1. fold (readdir_cost e).
    change (4 + 8 + xdrStrLen (Name e) + 8) with (readdir_cost e).
    destruct (b <? readdir_cost e) eqn:Ef; zbool.
    + destruct first; [specialize (Hfirst eq_refl); lia|].
      exists 0%nat. split_and!; [lia|done|]. unfold mret, state_ret. by rewrite tail_writer.
    + pose proof (emit_bytes e (entryCookie e i) body r s Hb) as He.
      destruct (readdir_emit fs e (entryCookie e i) (r, s)) as [w st] eqn:Ew. cbn [fst] in He.
      assert (st = (r, s)) as -> by (unfold readdir_emit in Ew; by injection Ew).
      unfold mbind, state_bind. rewrite Ew, He.
      destruct (IH (i + 1) false (b - readdir_cost e)
        (body ++ be_enc 4 1 ++ be_enc 8 (Fileid (attrOf fs (ent_Node e))) ++ opaque_enc (Name e)
         ++ be_enc 8 (entryCookie e i))) as (k & Hk & _ & E); [auto 10 with golib|done|].
      exists (Datatypes.S k). cbn [length]. split_and!; [lia|lia|]. rewrite E. cbn [take entries_bytes]. unfold entry_bytes.
      rewrite <- !app_assoc. do 9 f_equal.
      all: repeat f_equal; apply bool_decide_ext; lia.
Qed.

Lemma reads_entries (l : list (DirEntry Node)) i eof fuel :
  Forall wf_entry l -> Forall (fun e => zlen (Name e) < 2 ^ 32) l ->
  (forall k e, l !! k = Some e -> 0 <= entryCookie e (i + Z.of_nat k) < 2 ^ 64) ->
  (length l < fuel)%nat ->
  reads (parse_entries fuel) (entries_bytes i l ++ tail_bytes eof) (Some (seen i l, eof)).
Proof.
  intros Hw Hn. revert i fuel. induction l as [|e l IH]; intros i fuel Hc Hf;
    (destruct fuel as [|fuel]; [lia|]); cbn [parse_entries].
  - cbn [entries_bytes app]. unfold tail_bytes. rewrite <- (app_nil_r (be_enc 4 (if eof then 1 else 0))).
    eapply reads_bind; [apply (reads_bool false)|]. cbv iota.
    eapply reads_bind; [apply reads_bool|apply reads_ret].
  - apply Forall_cons in Hw as [He Hw]. apply Forall_cons in Hn as [Hne Hn].
    cbn [entries_bytes seen]. unfold entry_bytes. rewrite <- !app_assoc.
    eapply reads_bind; [apply (reads_bool true)|]. cbv iota.
    eapply reads_bind; [apply reads_uint64; exact He|].
    eapply reads_bind; [apply reads_opaque; unfold max_u32; lia|].
    eapply reads_bind; [apply reads_uint64; specialize (Hc 0%nat e eq_refl); by rewrite Z.add_0_r in Hc|].
    rewrite <- (app_nil_r (entries_bytes _ _ ++ _)).
    eapply reads_bind; [apply IH; [done|done| |cbn in Hf; lia]|apply reads_ret].
    intros k x Hk. specialize (Hc (Datatypes.S k) x Hk).
    by replace (i + 1 + Z.of_nat k) with (i + Z.of_nat (Datatypes.S k)) by lia.
Qed.

(** *** One call *)

(** Every entry fits a reply of [count] bytes by itself. *)
Definition each_fits (count : Z) (ents : list (DirEntry Node)) : Prop :=
  Forall (fun e => readdir_cost e <= count - readdirFixed) ents.

Lemma entries_bytes_length i l : (length l <= length (entries_bytes i l))%nat.
Proof.
  revert i. induction l as [|e l IH]; intros i; [done|]. cbn [entries_bytes length].
  unfold entry_bytes. rewrite !length_app, length_be_enc. specialize (IH (i + 1)). lia.
Qed.

Lemma cost_name (e : DirEntry Node) : zlen (Name e) <= readdir_cost e.
Proof.
  unfold readdir_cost, xdrStrLen. pose proof (pad4_bounds (zlen (Name e)) (zlen_nonneg _)). lia.
Qed.

Lemma reads_page dir i l eof :
  Forall wf_entry l -> Forall (fun e => zlen (Name e) < 2 ^ 32) l ->
  (forall k e, l !! k = Some e -> 0 <= entryCookie e (i + Z.of_nat k) < 2 ^ 64) ->
  let body := be_enc 4 nfsOK ++ attr_bytes fs dir ++ zeroVerf ++ entries_bytes i l ++ tail_bytes eof in
  parse_readdir (length body) (XdrReader body 0 false)
    = (Some (seen i l, eof), XdrReader body (zlen body) false).
Proof.
  intros Hw Hn Hc body. apply reads_all. unfold parse_readdir, body, attr_bytes.
  rewrite <- (app_assoc (be_enc 4 1)).
  eapply reads_bind; [apply reads_uint32; unfold nfsOK; lia|]. change (nfsOK =? nfsOK) with true.
  cbn [negb]. cbv iota.
  eapply reads_bind; [apply (reads_bool true)|].
  eapply reads_bind; [rewrite <- (zlen_fattr3 fs dir); apply reads_bytes|].
  eapply reads_bind; [change 8 with (zlen zeroVerf); apply reads_bytes|].
  apply reads_entries; [done..|].
  pose proof (entries_bytes_length i l). rewrite !length_app, length_be_enc. lia.
Qed.

Lemma client_readdir_spec fh dir ents (i : nat) cookie count s :
  same s -> names fs same fh dir -> lists dir ents -> good_cookies ents -> Forall wf_entry ents ->
  Z.of_nat (length ents) < 2 ^ 32 -> 0 <= count < 2 ^ 32 -> each_fits count ents ->
  0 <= cookie < 2 ^ 64 -> Nfs2.readdirStart ents cookie = Z.of_nat i -> (i <= length ents)%nat ->
  exists k s', (k <= length ents - i)%nat /\ ((i < length ents)%nat -> (0 < k)%nat) /\
    client_readdir fh cookie count s
      = (Some (seen (Z.of_nat i) (take k (drop i ents)), bool_decide (k = length ents - i)%nat), s') /\
    same s'.
Proof.
  intros Hs Hn [Ht Hl] Hg Hw Hlen Hcount Hfit Hcookie Hstart Hi. unfold client_readdir, run.
  destruct (run_readdir fs fh cookie zeroVerf count s) as (r & Hr & ->); [apply Hn|done..|].
  unfold listing, readdirStart3, mbind, state_bind, mret, state_ret.
  destruct (names_node3 fs same fh dir r s Hn Hs) as (s1 & -> & Hs1). rewrite Ht. change (nfDIR =? nfDIR) with true.
  cbn [negb]. unfold call. destruct (Hl s1 Hs1) as (s2 & -> & Hs2). unfold readdirEntries. rewrite Hstart, Nat2Z.id.
  destruct (page (drop i ents) (Z.of_nat i) true (count - readdirFixed) [] r s2) as (k & Hk & Hpos & ->);
    [done| |].
  { intros _. pose proof (Forall_drop _ i ents Hfit) as Hd. destruct (drop i ents); [done|].
    by apply Forall_cons in Hd as [? _]. }
  rewrite length_drop in *. rewrite Hr. cbn [readdir_reply app].
  set (l := take k (drop i ents)). set (eof := bool_decide (k = length ents - i)%nat).
  assert ((w_uint32 nfsOK >> writePostOp fs (Some dir) >> w_fixed zeroVerf
           >> w_fixed (entries_bytes (Z.of_nat i) l ++ tail_bytes eof)) []
    = be_enc 4 nfsOK ++ attr_bytes fs dir ++ zeroVerf ++ entries_bytes (Z.of_nat i) l ++ tail_bytes eof) as ->.
  { unfold then_. rewrite writePostOp_bytes. unfold w_fixed, w_uint32. by rewrite <- !app_assoc. }
  assert (forall P, Forall P ents -> Forall P l) as Hsub.
  { intros P HP. by apply Forall_take, Forall_drop. }
  rewrite reads_page.
  - exists k, s2. split_and!; [lia| |done|done]. intros Hlt. apply Hpos; [done|].
    intros E. apply (f_equal length) in E. rewrite length_drop in E. cbn in E. lia.
  - by apply Hsub.
  - eapply Forall_impl; [apply Hsub, Hfit|]. intros e He. cbn in He. pose proof (cost_name e).
    unfold readdirFixed in He. lia.
  - intros j e He. unfold l in He. apply lookup_take_Some in He as [He _]. rewrite lookup_drop in He.
    rewrite <- Nat2Z.inj_add. by apply (cookie_range ents).
Qed.

(** A directory is listed whole: pages of any size that has room for its
    longest name, each resuming after the last cookie of the one before, give
    every entry once, in the directory's order, and then the end - for entries
    numbered by position and for entries with their own cookies alike. *)
Theorem list_dir_whole fh dir ents count fuel s :
  same s -> names fs same fh dir -> lists dir ents -> good_cookies ents -> Forall wf_entry ents ->
  Z.of_nat (length ents) < 2 ^ 32 -> 0 <= count < 2 ^ 32 -> each_fits count ents ->
  (length ents < fuel)%nat ->
  fst (list_dir fuel fh count 0 s) = Some (seen 0 ents).
Proof.
  intros Hs Hn Hl Hg Hw Hlen Hcount Hfit Hf.
  enough (forall fuel (i : nat) cookie s, same s -> (i <= length ents)%nat -> (length ents - i < fuel)%nat ->
    0 <= cookie < 2 ^ 64 -> Nfs2.readdirStart ents cookie = Z.of_nat i ->
    fst (list_dir fuel fh count cookie s) = Some (seen (Z.of_nat i) (drop i ents))) as H.
  { rewrite (H fuel 0%nat 0 s); [by rewrite drop_0|done|lia|lia|lia|by apply readdirStart_0]. }
  clear fuel Hf s Hs. induction fuel as [|fuel IH]; intros i cookie s Hs Hi Hf Hc Hst; [lia|]. cbn [list_dir].
  destruct (client_readdir_spec fh dir ents i cookie count s) as (k & s1 & Hk & Hpos & -> & Hs1); [done..|].
  case_bool_decide as Heof.
  - cbn [fst]. do 2 f_equal. apply take_ge. rewrite length_drop. lia.
  - assert (0 < k)%nat by (apply Hpos; lia).
    destruct (lookup_lt_is_Some_2 ents (i + (k - 1))) as [e He]; [lia|].
    assert (take k (drop i ents) = take (k - 1) (drop i ents) ++ [e]) as Htake.
    { replace k with (Datatypes.S (k - 1)) at 1 by lia. apply take_S_r. by rewrite lookup_drop. }
    assert (last (seen (Z.of_nat i) (take k (drop i ents)))
      = Some (MkDent (Fileid (attrOf fs (ent_Node e))) (Name e)
                (entryCookie e (Z.of_nat (i + (k - 1)))))) as ->.
    { rewrite Htake, seen_app. cbn [seen]. rewrite last_snoc. do 3 f_equal.
      unfold zlen. rewrite length_take, length_drop. lia. }
    cbn [d_cookie].
    specialize (IH (i + k)%nat (entryCookie e (Z.of_nat (i + (k - 1)))) s1 Hs1).
    destruct (list_dir fuel fh count _ s1) as [rest s2]. cbn [fst] in *.
    rewrite IH; [|lia|lia|by apply (cookie_range ents)|].
    2: { rewrite (readdirStart_resume ents _ e Hg He). lia. }
    cbn [fmap option_fmap option_map]. f_equal.
    rewrite <- (take_drop k (drop i ents)) at 2. rewrite seen_app, drop_drop. do 2 f_equal.
    unfold zlen. rewrite length_take, length_drop. lia.
Qed.
End paging.
