(* ===== verification/MemFs.v ===== *)
(** A small writable file system in memory, one directory of files: it shows
    that the laws of [Nfs.FSLaws] can hold, and gives the theorems about the
    server something concrete to be evaluated on. It models no code of the
    repository. *)
From S2P Require Import Prelude Xdr Nfs Rpc Nfs2 Nfs3 Server Nfs3Client.

Definition mem : Type := list (bytes * bytes).

(** The root, or a file with its position and its contents when it was looked
    up. *)
Inductive mem_node := Root | File (i : Z) (data : bytes).

Definition mem_file (m : mem) (i : Z) : mem_node + error :=
  match m !! Z.to_nat i with
  | Some (_, data) => if i <? 0 then inr (only ErrStale) else inl (File i data)
  | None => inr (only ErrStale)
  end.

Fixpoint find_name (m : mem) (name : bytes) (i : Z) : option Z :=
  match m with
  | [] => None
  | (n, _) :: m => if bool_decide (n = name) then Some i else find_name m name (i + 1)
  end.

Definition mem_lookup (m : mem) (name : bytes) : mem_node + error :=
  match find_name m name 0 with
  | Some i => mem_file m i
  | None => inr (only ErrNotFound)
  end.

Definition mem_write (old data : bytes) (off : Z) : bytes :=
  let o := Z.to_nat off in
  take o (old ++ replicate (o - length old) 0) ++ data ++ drop (o + length data) old.

Definition unsupported {A} : state mem (A + error) := fun m => (inr (only ErrNotSupp), m).

Definition mem_writes : WriteFS mem mem_node := {|
  SetAttr := fun _ _ m => (None, m);
  WriteAt := fun n data off m =>
    match n with
    | File i _ =>
        (None, alter (fun f => (f.1, mem_write f.2 data off)) (Z.to_nat i) m)
    | Root => (Some (only ErrIsDir), m)
    end;
  Create := fun _ name _ _ _ m =>
    match mem_lookup m name with
    | inl n => (inl n, m)
    | inr _ => (inl (File (zlen m) []), m ++ [(name, [])])
    end;
  Mkdir := fun _ _ _ => unsupported;
  Symlink := fun _ _ _ _ => unsupported;
  Remove := fun _ name m =>
    match find_name m name 0 with
    | Some i => (None, delete (Z.to_nat i) m)
    | None => (Some (only ErrNotFound), m)
    end;
  Rmdir := fun _ _ m => (Some (only ErrNotDir), m);
  Rename := fun _ _ _ _ m => (Some (only ErrNotSupp), m) |}.

Definition memfs : FS mem mem_node := {|
  ID := fun n => match n with Root => 1 | File i _ => i + 2 end;
  Mode := fun n => match n with Root => 0x41ED | File _ _ => 0x81A4 end;
  Size := fun n => match n with Root => 512 | File _ d => zlen d end;
  Mtime := fun _ => 0;
  Attr := fun _ => None;
  MountRoot := fun p m => (if bool_decide (p = [slash]) then inl Root else inr (only ErrNotFound), m);
  NodeByID := fun i m => (if i =? 1 then inl Root else mem_file m (i - 2), m);
  Lookup := fun n name m => (match n with Root => mem_lookup m name | File _ _ => inr (only ErrNotDir) end, m);
  ReadDir := fun n m =>
    (match n with
     | Root => inl (imap (fun i f => MkDirEntry f.1 (File (Z.of_nat i) f.2) 0) m)
     | File _ _ => inr (only ErrNotDir)
     end, m);
  ReadAt := fun n c o m =>
    (match n with
     | File _ d => (sub d o c, None)
     | Root => ([], Some (only ErrIsDir))
     end, m);
  Readlink := fun _ m => (inr (only ErrInval), m);
  handles := None;
  writes := Some mem_writes;
  space_of := None;
  Exports := None |}.

(** What clients see is all of it. *)
#[export] Instance memfs_laws : FSLaws memfs (fun m => m).
Proof.
  split; try done.
  intros n c o s Hc. destruct n as [|i d]; cbn [fst ReadAt memfs]; [done|].
  unfold zlen, sub. rewrite length_take. lia.
Qed.

Definition files : mem := [(str "unix", [1; 2; 3; 4; 5]); (str "a", [])].

(** ** The server's theorems on it *)

Definition clock : Z -> gotime := fun _ => 0.
Definition v7 : bytes := be_enc 8 7.

(** A version 2 WRITE of two bytes at offset 1, to a file of [files]. *)
Definition write_call : bytes :=
  call_bytes 1 progNFS 2 8 0 [] 0 []
    (encodeFH 2 ++ be_enc 4 0 ++ be_enc 4 1 ++ be_enc 4 0 ++ opaque_enc [7; 7]).

Lemma only_good_calls_change_witness :
  snd (dispatch (table memfs clock None v7) write_call files)
    = [(str "unix", [1; 7; 7; 4; 5]); (str "a", [])] /\
  (snd (dispatch (table memfs clock None v7) write_call files) = files \/
   (writes memfs <> None /\ get_u32 write_call 12 = progNFS /\
    changing (get_u32 write_call 16) (get_u32 write_call 20) = true /\
    exists body, fst (dispatch (table memfs clock None v7) write_call files)
      = Some (replyAccepted (get_u32 write_call 0) success body))).
Proof.
  split; [vm_compute; reflexivity|].
  apply (only_good_calls_change memfs (fun m => m) clock v7 None write_call files).
Defined.

Lemma cache_covers_changes_witness :
  snd (dispatch (table memfs clock None v7) write_call files) = files \/ nonIdempotent write_call = true \/
  (get_u32 write_call 16, get_u32 write_call 20) = (2, 8) \/
  (get_u32 write_call 16, get_u32 write_call 20) = (3, 7).
Proof. apply (cache_covers_changes memfs (fun m => m) clock v7 None write_call files). Defined.

Lemma replies_aligned_witness :
  match fst (dispatch (table memfs clock None v7) write_call files) with
  | Some reply => aligned reply
  | None => True
  end.
Proof.
  apply (replies_aligned memfs (fun m => m) clock v7 None); [reflexivity].
Defined.

Lemma v2_statuses_only_witness :
  v2_body (fst (nfsLookup memfs (XdrReader (encodeFH 1 ++ opaque_enc (str "a")) 0 false, files))).
Proof.
  apply (v2_statuses_only memfs (fun m => m) clock 4). unfold nfs2Procs. cbn [writes memfs].
  apply elem_of_app. left. rewrite !elem_of_cons. auto 10.
Defined.

(** ** The client's theorems on it *)

Definition root_fh : bytes := encodeFH 1.
Definition unix_fh : bytes := encodeFH 2.
Definition unix : mem_node := File 0 [1; 2; 3; 4; 5].
Definition listed : list (DirEntry mem_node) :=
  [MkDirEntry (str "unix") unix 0; MkDirEntry (str "a") (File 1 []) 0].

Lemma root_names : names memfs (eq files) root_fh Root.
Proof. split; [by vm_compute|]. intros r s <-. by exists files. Qed.
Lemma unix_names : names memfs (eq files) unix_fh unix.
Proof. split; [by vm_compute|]. intros r s <-. by exists files. Qed.
Lemma unix_holds : holds memfs (eq files) unix [1; 2; 3; 4; 5].
Proof. split_and!; [done..|]. intros c o s <- _ _. by exists None, files. Qed.
Lemma root_lists : lists memfs (eq files) Root listed.
Proof. split; [done|]. intros s <-. by exists files. Qed.

Lemma read_file_whole_witness :
  fst (read_file memfs 6 unix_fh 2 0 files) = Some [1; 2; 3; 4; 5].
Proof.
  apply (read_file_whole memfs (eq files) unix_fh unix); [done|apply unix_names|apply unix_holds|lia|..];
    vm_compute; try done; lia.
Defined.

Lemma list_dir_whole_witness :
  fst (list_dir memfs 3 root_fh 140 0 files) = Some [MkDent 2 (str "unix") 1; MkDent 3 (str "a") 2].
Proof.
  apply (list_dir_whole memfs (eq files) root_fh Root listed);
    [done|apply root_names|apply root_lists|left; repeat constructor|repeat constructor; by vm_compute|
     by vm_compute|lia|repeat constructor; by vm_compute|cbn; lia].
Defined.

Lemma listings_within_witness :
  (exists reply, fst (run (nfs3Readdir memfs) (readdir_args root_fh 0 zeroVerf 140) files) = Some reply /\
     zlen reply <= Z.max 140 readdirFixed) /\
  (exists reply, fst (run (nfs3Readdirplus memfs) (readdirplus_args root_fh 0 zeroVerf 64 140) files) = Some reply /\
     zlen reply <= Z.max 140 readdirFixed).
Proof.
  apply (listings_within memfs (fun m => m) root_fh 0 zeroVerf 64 140 files);
    try (split; [lia|reflexivity]); by vm_compute.
Defined.
