(* ===== verification/Simulation.v ===== *)
(** Exports that the server cannot tell apart: when the states and nodes of two
    file systems are related and every operation respects that, a server of one
    answers every client as a server of the other does. What holds of one export
    is carried to another by such a relation, and an invariant of an export is
    one with itself. *)
From S2P Require Import Prelude Xdr Nfs Rpc Nfs2 Nfs3 Mount Portmap Server.

Create HintDb hrel discriminated.
#[export] Hint Constants Opaque : hrel.
#[export] Hint Transparent writer : hrel.

(** Results with the same error, or related values. *)
Definition result_rel {A B E} (RA : A -> B -> Prop) (x : A + E) (y : B + E) : Prop :=
  match x, y with inl a, inl b => RA a b | inr e, inr e' => e = e' | _, _ => False end.

Definition option_rel {A B} (RA : A -> B -> Prop) (x : option A) (y : option B) : Prop :=
  match x, y with Some a, Some b => RA a b | None, None => True | _, _ => False end.

Definition pair_rel {A B C D} (RA : A -> B -> Prop) (RC : C -> D -> Prop) (x : A * C) (y : B * D) : Prop :=
  RA x.1 y.1 /\ RC x.2 y.2.

Lemma result_inl {A B E} (RA : A -> B -> Prop) a b : RA a b -> result_rel (E := E) RA (inl a) (inl b).
Proof. done. Qed.
Lemma result_inr {A B E} (RA : A -> B -> Prop) (e : E) : result_rel RA (inr e) (inr e).
Proof. done. Qed.
#[export] Hint Resolve result_inl result_inr : hrel.

Section simulation.
Context {S1 N1 S2 N2 : Type} (fs1 : FS S1 N1) (fs2 : FS S2 N2) (RS : S1 -> S2 -> Prop) (RN : N1 -> N2 -> Prop).

(** Run from related states, the answers are related by [RA] and the states are
    again. *)
Definition srel {A B} (RA : A -> B -> Prop) (m1 : state S1 A) (m2 : state S2 B) : Prop :=
  forall s1 s2, RS s1 s2 -> RA (fst (m1 s1)) (fst (m2 s2)) /\ RS (snd (m1 s1)) (snd (m2 s2)).

Definition entry_rel (e1 : DirEntry N1) (e2 : DirEntry N2) : Prop :=
  Name e1 = Name e2 /\ Cookie e1 = Cookie e2 /\ RN (ent_Node e1) (ent_Node e2).

Record handles_rel (h1 : HandleFS S1 N1) (h2 : HandleFS S2 N2) : Prop := {
  hs_Handle n1 n2 : RN n1 n2 -> srel eq (Handle h1 n1) (Handle h2 n2);
  hs_NodeByHandle fh : srel (result_rel RN) (NodeByHandle h1 fh) (NodeByHandle h2 fh);
}.

Record writes_rel (w1 : WriteFS S1 N1) (w2 : WriteFS S2 N2) : Prop := {
  ws_SetAttr n1 n2 a : RN n1 n2 -> srel eq (SetAttr w1 n1 a) (SetAttr w2 n2 a);
  ws_WriteAt n1 n2 d o : RN n1 n2 -> srel eq (WriteAt w1 n1 d o) (WriteAt w2 n2 d o);
  ws_Create n1 n2 nm how a v : RN n1 n2 -> srel (result_rel RN) (Create w1 n1 nm how a v) (Create w2 n2 nm how a v);
  ws_Mkdir n1 n2 nm a : RN n1 n2 -> srel (result_rel RN) (Mkdir w1 n1 nm a) (Mkdir w2 n2 nm a);
  ws_Symlink n1 n2 nm t a : RN n1 n2 -> srel (result_rel RN) (Symlink w1 n1 nm t a) (Symlink w2 n2 nm t a);
  ws_Remove n1 n2 nm : RN n1 n2 -> srel eq (Remove w1 n1 nm) (Remove w2 n2 nm);
  ws_Rmdir n1 n2 nm : RN n1 n2 -> srel eq (Rmdir w1 n1 nm) (Rmdir w2 n2 nm);
  ws_Rename n1 n2 nm m1 m2 mm : RN n1 n2 -> RN m1 m2 -> srel eq (Rename w1 n1 nm m1 mm) (Rename w2 n2 nm m2 mm);
}.

Class Simulates := {
  sim_ID n1 n2 : RN n1 n2 -> ID fs1 n1 = ID fs2 n2;
  sim_Mode n1 n2 : RN n1 n2 -> Mode fs1 n1 = Mode fs2 n2;
  sim_Size n1 n2 : RN n1 n2 -> Size fs1 n1 = Size fs2 n2;
  sim_Mtime n1 n2 : RN n1 n2 -> Mtime fs1 n1 = Mtime fs2 n2;
  sim_Attr n1 n2 : RN n1 n2 -> Attr fs1 n1 = Attr fs2 n2;
  sim_MountRoot p : srel (result_rel RN) (MountRoot fs1 p) (MountRoot fs2 p);
  sim_NodeByID i : srel (result_rel RN) (NodeByID fs1 i) (NodeByID fs2 i);
  sim_Lookup n1 n2 nm : RN n1 n2 -> srel (result_rel RN) (Lookup fs1 n1 nm) (Lookup fs2 n2 nm);
  sim_ReadDir n1 n2 : RN n1 n2 -> srel (result_rel (Forall2 entry_rel)) (ReadDir fs1 n1) (ReadDir fs2 n2);
  sim_ReadAt n1 n2 c o : RN n1 n2 -> srel eq (ReadAt fs1 n1 c o) (ReadAt fs2 n2 c o);
  sim_Readlink n1 n2 : RN n1 n2 -> srel eq (Readlink fs1 n1) (Readlink fs2 n2);
  sim_handles : option_rel handles_rel (handles fs1) (handles fs2);
  sim_writes : option_rel writes_rel (writes fs1) (writes fs2);
  sim_space : option_rel (srel eq) (space_of fs1) (space_of fs2);
  sim_Exports : Exports fs1 = Exports fs2;
}.

Context `{Hsim : !Simulates} (now : Z -> gotime) (Verifier : bytes) (ports : option (Ports * Ports)).

(** ** Handlers *)

Definition hrel {A B} (RA : A -> B -> Prop) (h1 : handler S1 A) (h2 : handler S2 B) : Prop :=
  forall r s1 s2, RS s1 s2 ->
    RA (fst (h1 (r, s1))) (fst (h2 (r, s2))) /\ fst (snd (h1 (r, s1))) = fst (snd (h2 (r, s2))) /\
    RS (snd (snd (h1 (r, s1)))) (snd (snd (h2 (r, s2)))).

Lemma hrel_ret {A B} (RA : A -> B -> Prop) a b : RA a b -> hrel RA (mret a) (mret b).
Proof. by intros Ha r s1 s2 Hs. Qed.
Lemma hrel_bind {A B A' B'} (RA : A -> B -> Prop) (RB : A' -> B' -> Prop) m1 m2 f1 f2 :
  hrel RA m1 m2 -> (forall a b, RA a b -> hrel RB (f1 a) (f2 b)) -> hrel RB (m1 ≫= f1) (m2 ≫= f2).
Proof.
  intros Hm Hf r s1 s2 Hs. unfold mbind, state_bind. destruct (Hm r s1 s2 Hs) as (Ha & Hr & Hs').
  destruct (m1 (r, s1)) as [a [r1 s1']], (m2 (r, s2)) as [b [r2 s2']]. cbn [fst snd] in *. subst r2. by apply Hf.
Qed.
Lemma hrel_ret_bind {A B A' B'} (RB : A' -> B' -> Prop) (a : A) (b : B) f1 f2 :
  hrel RB (f1 a) (f2 b) -> hrel RB (mret a ≫= f1) (mret b ≫= f2).
Proof. done. Qed.
Lemma hrel_assoc {A A' A'' B B' B''} (RB : A'' -> B'' -> Prop) (m1 : handler S1 A) (f1 : A -> handler S1 A') g1
    (m2 : handler S2 B) (f2 : B -> handler S2 B') g2 :
  hrel RB (m1 ≫= fun x => f1 x ≫= g1) (m2 ≫= fun x => f2 x ≫= g2) -> hrel RB ((m1 ≫= f1) ≫= g1) ((m2 ≫= f2) ≫= g2).
Proof.
  intros Hr r s1 s2 Hs. specialize (Hr r s1 s2 Hs). unfold mbind, state_bind in *.
  by destruct (m1 (r, s1)), (m2 (r, s2)).
Qed.
Lemma hrel_arg {A} (m : state xdrReader A) : hrel eq (arg m) (arg m).
Proof. intros r s1 s2 Hs. cbn. by destruct (m r). Qed.
Lemma hrel_call {A B} (RA : A -> B -> Prop) m1 m2 : srel RA m1 m2 -> hrel RA (call m1) (call m2).
Proof.
  intros Hm r s1 s2 Hs. cbn. destruct (Hm s1 s2 Hs) as [Ha Hs']. by destruct (m1 s1), (m2 s2).
Qed.
Lemma hrel_failed : hrel eq failed failed.
Proof. by intros r s1 s2 Hs. Qed.
Lemma hrel_set_failed : hrel eq set_failed set_failed.
Proof. by intros r s1 s2 Hs. Qed.
Lemma hrel_now : hrel eq (time_now now) (time_now now).
Proof. by intros r s1 s2 Hs. Qed.

(** What the server writes of a node. *)
Lemma attrOf_rel n1 n2 : RN n1 n2 -> attrOf fs1 n1 = attrOf fs2 n2.
Proof.
  intros Hn. unfold attrOf. by rewrite (sim_Attr _ _ Hn), (sim_Size _ _ Hn), (sim_Mtime _ _ Hn), (sim_Mode _ _ Hn), (sim_ID _ _ Hn).
Qed.
Lemma writeFattr_rel n1 n2 : RN n1 n2 -> writeFattr fs1 n1 = writeFattr fs2 n2.
Proof. intros Hn. unfold writeFattr. by rewrite (attrOf_rel _ _ Hn). Qed.
Lemma writeFattr3_rel n1 n2 : RN n1 n2 -> writeFattr3 fs1 n1 = writeFattr3 fs2 n2.
Proof. intros Hn. unfold writeFattr3. by rewrite (attrOf_rel _ _ Hn). Qed.
Lemma writePostOp_None : writePostOp fs1 None = writePostOp fs2 None.
Proof. done. Qed.
Lemma writePostOp_rel n1 n2 : RN n1 n2 -> writePostOp fs1 (Some n1) = writePostOp fs2 (Some n2).
Proof. intros Hn. cbn. by rewrite (writeFattr3_rel _ _ Hn). Qed.
Lemma failure_rel st n1 n2 : RN n1 n2 -> failure fs1 st n1 = failure fs2 st n2.
Proof. intros Hn. unfold failure. by rewrite (writePostOp_rel _ _ Hn). Qed.
Lemma no_object_rel st : no_object fs1 st = no_object fs2 st.
Proof. done. Qed.
Lemma wccOf_rel fh n1 n2 : RN n1 n2 -> wccOf fs1 fh n1 = wccOf fs2 fh n2.
Proof. intros Hn. unfold wccOf. by rewrite (attrOf_rel _ _ Hn). Qed.
Lemma readdir_reply_rel n1 n2 b : RN n1 n2 -> readdir_reply fs1 n1 b = readdir_reply fs2 n2 b.
Proof. intros Hn. unfold readdir_reply. rewrite (writePostOp_rel _ _ Hn). by rewrite (failure_rel _ _ _ Hn). Qed.

Lemma writes_same : option_rel (fun _ _ => True) (writes fs1) (writes fs2).
Proof. pose proof sim_writes as Hw. by destruct (writes fs1), (writes fs2). Qed.

Lemma access_allowed_rel n1 n2 : RN n1 n2 -> access_allowed fs1 n1 = access_allowed fs2 n2.
Proof.
  intros Hn. unfold access_allowed. rewrite (sim_Mode _ _ Hn). pose proof sim_writes as Hw.
  by destruct (writes fs1), (writes fs2).
Qed.

(** Whatever is said of a node of the one, in terms of the other. *)
Ltac say := repeat match goal with
  | H : RN ?n ?m |- _ => progress rewrite ?(writePostOp_rel _ _ H), ?(writeFattr_rel _ _ H), ?(writeFattr3_rel _ _ H),
      ?(failure_rel _ _ _ H), ?(wccOf_rel _ _ _ H), ?(readdir_reply_rel _ _ _ H), ?(access_allowed_rel _ _ H),
      ?(attrOf_rel _ _ H), ?(sim_Mode _ _ H), ?(sim_Size _ _ H), ?(sim_ID _ _ H)
  end; rewrite ?writePostOp_None, ?no_object_rel.

Ltac related := repeat match goal with
  | H : _ = _ |- _ => first [subst|progress simplify_eq]
  | H : pair_rel _ _ ?x ?y |- _ => destruct x, y; destruct H as [? ?]; cbn [fst snd] in *
  | H : result_rel _ ?x ?y |- _ => destruct x, y; cbn [result_rel] in H; try done
  | H : option_rel _ ?x ?y |- _ => destruct x, y; cbn [option_rel] in H; try done
  end.

(** The values returned. *)
Ltac values := unfold pair_rel; cbn [result_rel option_rel fst snd];
  repeat match goal with
  | |- _ /\ _ => split
  | |- result_rel _ (if ?b then _ else _) _ => destruct b; cbn [result_rel]
  end; try done.

Ltac h_call := match goal with
  | |- hrel _ (arg _) _ => apply hrel_arg
  | |- hrel _ failed _ => apply hrel_failed
  | |- hrel _ set_failed _ => apply hrel_set_failed
  | |- hrel _ (time_now _) _ => apply hrel_now
  | |- _ => solve [eauto 3 with hrel nocore]
  end.

(** Through a pair of handlers, side by side. *)
Ltac h_step := related; say; match goal with
  | |- hrel _ (mret _) (mret _) => apply hrel_ret; values
  | |- hrel _ (mret _ ≫= _) (mret _ ≫= _) => apply hrel_ret_bind; cbn [error_of cmp_Or]
  | |- hrel _ ((_ ≫= _) ≫= _) ((_ ≫= _) ≫= _) => apply hrel_assoc
  | |- hrel _ ((if ?b then _ else _) ≫= _) ((if ?b then _ else _) ≫= _) => destruct b
  | |- hrel _ (_ ≫= _) (_ ≫= _) => eapply hrel_bind; [h_call|intros ? ? ?]
  | |- hrel _ (match ?x with _ => _ end) (match ?x with _ => _ end) => destruct x
  | |- hrel _ (let '_ := _ in _) _ => progress cbn [fst snd]
  | |- hrel _ _ _ => solve [h_call]
  end.
Ltac h := repeat h_step.

(** ** What the handlers share *)

Lemma resolve_rel fh : hrel (result_rel RN) (resolve fs1 fh) (resolve fs2 fh).
Proof.
  unfold resolve. pose proof sim_handles as Hh. destruct (handles fs1), (handles fs2); try done.
  - apply hrel_call, Hh.
  - destruct (decodeFH fh); [apply hrel_call, sim_NodeByID|by apply hrel_ret].
Qed.
Lemma handle_rel n1 n2 : RN n1 n2 -> hrel eq (handle fs1 n1) (handle fs2 n2).
Proof.
  intros Hn. unfold handle. pose proof sim_handles as Hh. destruct (handles fs1), (handles fs2); try done.
  - by apply hrel_call, Hh.
  - apply hrel_ret. by rewrite (sim_ID _ _ Hn).
Qed.
Lemma space_rel : hrel eq (space fs1) (space fs2).
Proof.
  unfold space. pose proof sim_space as Hs. destruct (space_of fs1), (space_of fs2); try done. by apply hrel_call.
Qed.
Lemma Lookup_rel n1 n2 nm : RN n1 n2 -> hrel (result_rel RN) (call (Lookup fs1 n1 nm)) (call (Lookup fs2 n2 nm)).
Proof. intros Hn. by apply hrel_call, sim_Lookup. Qed.
Lemma ReadDir_rel n1 n2 : RN n1 n2 ->
  hrel (result_rel (Forall2 entry_rel)) (call (ReadDir fs1 n1)) (call (ReadDir fs2 n2)).
Proof. intros Hn. by apply hrel_call, sim_ReadDir. Qed.
Lemma ReadAt_rel n1 n2 c o : RN n1 n2 -> hrel eq (call (ReadAt fs1 n1 c o)) (call (ReadAt fs2 n2 c o)).
Proof. intros Hn. by apply hrel_call, sim_ReadAt. Qed.
Lemma Readlink_rel n1 n2 : RN n1 n2 -> hrel eq (call (Readlink fs1 n1)) (call (Readlink fs2 n2)).
Proof. intros Hn. by apply hrel_call, sim_Readlink. Qed.
Lemma MountRoot_rel p : hrel (result_rel RN) (call (MountRoot fs1 p)) (call (MountRoot fs2 p)).
Proof. apply hrel_call, sim_MountRoot. Qed.
Hint Resolve resolve_rel handle_rel space_rel Lookup_rel ReadDir_rel ReadAt_rel Readlink_rel MountRoot_rel : hrel.

Lemma readFH3_rel : hrel eq readFH3 readFH3.
Proof. apply hrel_arg. Qed.
Lemma readTime2_rel : hrel eq (readTime2 now) (readTime2 now).
Proof. unfold readTime2. h. Qed.
Hint Resolve readFH3_rel readTime2_rel : hrel.
Lemma readSattr2_rel : hrel eq (readSattr2 now) (readSattr2 now).
Proof. unfold readSattr2. h. Qed.
Lemma optional_rel {A} (m1 : handler S1 A) m2 : hrel eq m1 m2 -> hrel eq (optional m1) (optional m2).
Proof. 
  intros Hm. unfold optional. eapply hrel_bind; [apply hrel_arg|]. intros b ? <-.
  destruct b; [|by apply hrel_ret]. eapply hrel_bind; [done|]. intros a ? <-. by apply hrel_ret.
Qed.
Lemma readSetTime3_rel : hrel eq (readSetTime3 now) (readSetTime3 now).
Proof. unfold readSetTime3. h. Qed.
Lemma optional_arg_rel {A} (m : state xdrReader A) : hrel eq (optional (arg m)) (optional (arg m)).
Proof. apply optional_rel, hrel_arg. Qed.
Hint Resolve readSattr2_rel readSetTime3_rel optional_arg_rel : hrel.
Lemma readSattr3_rel : hrel eq (readSattr3 now) (readSattr3 now).
Proof. unfold readSattr3. h. Qed.
Lemma readGuard3_rel : hrel eq readGuard3 readGuard3.
Proof. unfold readGuard3. apply optional_rel. h. Qed.
Hint Resolve readSattr3_rel readGuard3_rel : hrel.
Lemma readHow3_rel : hrel eq (readHow3 now) (readHow3 now).
Proof. unfold readHow3. h. Qed.

Lemma node_rel fh : hrel (result_rel RN) (node fs1 fh) (node fs2 fh).
Proof. unfold node. h. Qed.
Lemma node3_rel fh : hrel (result_rel RN) (node3 fs1 fh) (node3 fs2 fh).
Proof. unfold node3. h. Qed.
Hint Resolve readHow3_rel node_rel node3_rel : hrel.
Lemma attrstat_rel fh e : hrel eq (attrstat fs1 fh e) (attrstat fs2 fh e).
Proof. unfold attrstat. h. Qed.
Hint Resolve attrstat_rel : hrel.
Lemma dirop_rel : hrel (pair_rel (result_rel RN) eq) (dirop fs1) (dirop fs2).
Proof. unfold dirop. h. Qed.
Lemma dirop3_rel : hrel (pair_rel (pair_rel (result_rel RN) eq) eq) (dirop3 fs1) (dirop3 fs2).
Proof. unfold dirop3. h. Qed.
Lemma writeWcc_rel c : hrel eq (writeWcc fs1 c) (writeWcc fs2 c).
Proof. unfold writeWcc. h. Qed.
Hint Resolve dirop_rel dirop3_rel writeWcc_rel : hrel.
Lemma newNode_rel n1 n2 c : RN n1 n2 -> hrel eq (newNode fs1 n1 c) (newNode fs2 n2 c).
Proof. intros Hn. unfold newNode. h. Qed.
Hint Resolve newNode_rel : hrel.
Lemma made_rel r1 r2 c : result_rel RN r1 r2 -> hrel eq (made fs1 r1 c) (made fs2 r2 c).
Proof. intros Hn. unfold made. h. Qed.
Hint Resolve made_rel : hrel.

(** ** Listings *)

Lemma first_after_rel l1 l2 c i : Forall2 entry_rel l1 l2 -> first_after l1 c i = first_after l2 c i.
Proof.
  intros Hl. revert i. induction Hl as [|e1 e2 l1 l2 (_ & Hc & _) _ IH]; intros i; cbn [first_after]; [done|].
  by rewrite Hc, IH.
Qed.

Lemma readdirStart_rel l1 l2 c : Forall2 entry_rel l1 l2 -> readdirStart l1 c = readdirStart l2 c.
Proof.
  intros Hl. unfold readdirStart, zlen. rewrite (Forall2_length _ _ _ Hl), (first_after_rel _ _ _ _ Hl).
  destruct Hl as [|e1 e2 l1 l2 (_ & Hc & _) _]; [done|]. by rewrite Hc.
Qed.

Lemma entryCookie_rel e1 e2 i : entry_rel e1 e2 -> entryCookie e1 i = entryCookie e2 i.
Proof. intros (_ & Hc & _). unfold entryCookie. by rewrite Hc. Qed.

Lemma readdir_loop_rel l1 l2 i first budget : Forall2 entry_rel l1 l2 ->
  readdir_loop fs1 l1 i first budget = readdir_loop fs2 l2 i first budget.
Proof.
  intros Hl. revert i first budget. induction Hl as [|e1 e2 l1 l2 He _ IH]; intros i first budget; [done|].
  cbn [readdir_loop]. rewrite (entryCookie_rel _ _ _ He). destruct He as (Hn & _ & Hnode).
  by rewrite Hn, (attrOf_rel _ _ Hnode), IH.
Qed.

Lemma readdir_entries_rel {B} fits1 fits2 emit1 emit2 l1 l2 i first (b : B) body :
  (forall b e1 e2, entry_rel e1 e2 -> fits1 b e1 = fits2 b e2) ->
  (forall e1 e2 c, entry_rel e1 e2 -> hrel eq (emit1 e1 c) (emit2 e2 c)) -> Forall2 entry_rel l1 l2 ->
  hrel eq (readdir_entries fits1 emit1 l1 i first b body) (readdir_entries fits2 emit2 l2 i first b body).
Proof.
  intros Hf He Hl. revert i first b body.
  induction Hl as [|e1 e2 l1 l2 Hr _ IH]; intros i first b body; cbn [readdir_entries]; [by apply hrel_ret|].
  rewrite (Hf b e1 e2 Hr), (entryCookie_rel _ _ _ Hr). destruct (fits2 b e2); [|destruct first; by apply hrel_ret].
  eapply hrel_bind; [by apply He|]. intros w ? <-. apply IH.
Qed.

Lemma readdirEntries_rel {B} fits1 fits2 emit1 emit2 l1 l2 c (b : B) :
  (forall b e1 e2, entry_rel e1 e2 -> fits1 b e1 = fits2 b e2) ->
  (forall e1 e2 c, entry_rel e1 e2 -> hrel eq (emit1 e1 c) (emit2 e2 c)) -> Forall2 entry_rel l1 l2 ->
  hrel eq (readdirEntries fits1 emit1 l1 c b) (readdirEntries fits2 emit2 l2 c b).
Proof.
  intros Hf He Hl. unfold readdirEntries. rewrite (readdirStart_rel _ _ _ Hl).
  apply readdir_entries_rel; [done..|]. by apply Forall2_drop.
Qed.

Lemma readdirStart3_rel fh :
  hrel (result_rel (pair_rel RN (Forall2 entry_rel))) (readdirStart3 fs1 fh) (readdirStart3 fs2 fh).
Proof. unfold readdirStart3. h. Qed.

Lemma readdir_fits_rel b e1 e2 : entry_rel e1 e2 -> readdir_fits b e1 = readdir_fits b e2.
Proof. intros (Hn & _). unfold readdir_fits. by rewrite Hn. Qed.
Lemma readdirplus_fits_rel b e1 e2 : entry_rel e1 e2 -> readdirplus_fits b e1 = readdirplus_fits b e2.
Proof. intros (Hn & _). unfold readdirplus_fits. by rewrite Hn. Qed.
Lemma readdir_emit_rel e1 e2 c : entry_rel e1 e2 -> hrel eq (readdir_emit fs1 e1 c) (readdir_emit fs2 e2 c).
Proof. intros (Hn & _ & Hnode). unfold readdir_emit. rewrite Hn. h. Qed.
Lemma readdirplus_emit_rel e1 e2 c : entry_rel e1 e2 ->
  hrel eq (readdirplus_emit fs1 e1 c) (readdirplus_emit fs2 e2 c).
Proof. intros (Hn & _ & Hnode). unfold readdirplus_emit. rewrite Hn. h. Qed.
Lemma readdir_rel l1 l2 c b : Forall2 entry_rel l1 l2 ->
  hrel eq (readdirEntries readdir_fits (readdir_emit fs1) l1 c b) (readdirEntries readdir_fits (readdir_emit fs2) l2 c b).
Proof. intros Hl. apply readdirEntries_rel; [apply readdir_fits_rel|apply readdir_emit_rel|done]. Qed.
Lemma readdirplus_rel l1 l2 c b : Forall2 entry_rel l1 l2 ->
  hrel eq (readdirEntries readdirplus_fits (readdirplus_emit fs1) l1 c b)
          (readdirEntries readdirplus_fits (readdirplus_emit fs2) l2 c b).
Proof. intros Hl. apply readdirEntries_rel; [apply readdirplus_fits_rel|apply readdirplus_emit_rel|done]. Qed.
Hint Resolve readdirStart3_rel readdir_rel readdirplus_rel : hrel.

(** ** The procedures *)

Definition procs_rel (ps1 : list (Z * handler S1 bytes)) (ps2 : list (Z * handler S2 bytes)) : Prop :=
  Forall2 (fun p q => p.1 = q.1 /\ hrel eq p.2 q.2) ps1 ps2.

Ltac each := repeat (apply Forall2_cons; split; [split; [reflexivity|cbn [snd]]|]); [..|by apply Forall2_nil].

Lemma null_rel : hrel eq null null.
Proof. by apply hrel_ret. Qed.

Lemma nfsReaddir_rel : hrel eq (nfsReaddir fs1) (nfsReaddir fs2).
Proof.
  unfold nfsReaddir. h. match goal with Hl : Forall2 entry_rel _ _ |- _ =>
    rewrite (readdirStart_rel _ _ _ Hl); by rewrite (readdir_loop_rel _ _ _ _ _ (Forall2_drop _ _ _ _ Hl)) end.
Qed.
Hint Resolve null_rel nfsReaddir_rel : hrel.

Lemma nfs2_reads_rel : procs_rel
  [(0, null); (1, nfsGetattr fs1); (3, null); (4, nfsLookup fs1); (5, nfsReadlink fs1);
   (6, nfsRead fs1); (7, null); (16, nfsReaddir fs1); (17, nfsStatfs fs1)]
  [(0, null); (1, nfsGetattr fs2); (3, null); (4, nfsLookup fs2); (5, nfsReadlink fs2);
   (6, nfsRead fs2); (7, null); (16, nfsReaddir fs2); (17, nfsStatfs fs2)].
Proof. each; unfold nfsGetattr, nfsLookup, nfsReadlink, nfsRead, nfsStatfs; h. Qed.

Section writes.
Context (w1 : WriteFS S1 N1) (w2 : WriteFS S2 N2) (Hw : writes_rel w1 w2).

Lemma SetAttr_rel n1 n2 a : RN n1 n2 -> hrel eq (call (SetAttr w1 n1 a)) (call (SetAttr w2 n2 a)).
Proof. intros Hn. by apply hrel_call, Hw. Qed.
Lemma Create_rel n1 n2 nm how a v : RN n1 n2 ->
  hrel (result_rel RN) (call (Create w1 n1 nm how a v)) (call (Create w2 n2 nm how a v)).
Proof. intros Hn. by apply hrel_call, Hw. Qed.
Lemma Mkdir_rel n1 n2 nm a : RN n1 n2 ->
  hrel (result_rel RN) (call (Mkdir w1 n1 nm a)) (call (Mkdir w2 n2 nm a)).
Proof. intros Hn. by apply hrel_call, Hw. Qed.
Lemma Symlink_rel n1 n2 nm t a : RN n1 n2 ->
  hrel (result_rel RN) (call (Symlink w1 n1 nm t a)) (call (Symlink w2 n2 nm t a)).
Proof. intros Hn. by apply hrel_call, Hw. Qed.
Lemma Remove_rel n1 n2 nm : RN n1 n2 -> hrel eq (call (Remove w1 n1 nm)) (call (Remove w2 n2 nm)).
Proof. intros Hn. by apply hrel_call, Hw. Qed.
Lemma Rmdir_rel n1 n2 nm : RN n1 n2 -> hrel eq (call (Rmdir w1 n1 nm)) (call (Rmdir w2 n2 nm)).
Proof. intros Hn. by apply hrel_call, Hw. Qed.
Lemma Rename_rel n1 n2 nm m1 m2 mm : RN n1 n2 -> RN m1 m2 ->
  hrel eq (call (Rename w1 n1 nm m1 mm)) (call (Rename w2 n2 nm m2 mm)).
Proof. intros Hn Hm. by apply hrel_call, Hw. Qed.

Lemma writeTo_rel n1 n2 d o : RN n1 n2 -> hrel eq (writeTo fs1 w1 n1 d o) (writeTo fs2 w2 n2 d o).
Proof.
  intros Hn. unfold writeTo. rewrite (sim_Mode _ _ Hn). h. by apply hrel_call, Hw.
Qed.
Hint Resolve SetAttr_rel Create_rel Mkdir_rel Symlink_rel Remove_rel Rmdir_rel Rename_rel writeTo_rel : hrel.

Lemma nfs2_writes_rel : procs_rel
  [(2, nfsSetattr fs1 now w1); (8, nfsWrite fs1 w1); (9, nfsCreate fs1 now w1 false); (10, nfsRemove fs1 w1 false);
   (11, nfsRename fs1 w1); (12, nfsLink); (13, nfsSymlink fs1 now w1); (14, nfsCreate fs1 now w1 true);
   (15, nfsRemove fs1 w1 true)]
  [(2, nfsSetattr fs2 now w2); (8, nfsWrite fs2 w2); (9, nfsCreate fs2 now w2 false); (10, nfsRemove fs2 w2 false);
   (11, nfsRename fs2 w2); (12, nfsLink); (13, nfsSymlink fs2 now w2); (14, nfsCreate fs2 now w2 true);
   (15, nfsRemove fs2 w2 true)].
Proof.
  each; unfold nfsSetattr, nfsWrite, nfsCreate, nfsRemove, nfsRename, nfsLink, nfsSymlink; h.
Qed.

Lemma nfs3_writes_rel : procs_rel
  [(2, nfs3Setattr fs1 now w1); (7, nfs3Write fs1 Verifier w1); (8, nfs3Create fs1 now w1); (9, nfs3Mkdir fs1 now w1);
   (10, nfs3Symlink fs1 now w1); (11, notsupp3 2); (12, nfs3Remove fs1 w1 false); (13, nfs3Remove fs1 w1 true);
   (14, nfs3Rename fs1 w1); (15, notsupp3 3); (21, nfs3Commit fs1 Verifier)]
  [(2, nfs3Setattr fs2 now w2); (7, nfs3Write fs2 Verifier w2); (8, nfs3Create fs2 now w2); (9, nfs3Mkdir fs2 now w2);
   (10, nfs3Symlink fs2 now w2); (11, notsupp3 2); (12, nfs3Remove fs2 w2 false); (13, nfs3Remove fs2 w2 true);
   (14, nfs3Rename fs2 w2); (15, notsupp3 3); (21, nfs3Commit fs2 Verifier)].
Proof.
  each; unfold nfs3Setattr, nfs3Write, nfs3Create, nfs3Mkdir, nfs3Symlink, notsupp3, refuse3, nfs3Remove, nfs3Rename,
    nfs3Commit; h.
Qed.
End writes.

Lemma nfs3Fsinfo_rel : hrel eq (nfs3Fsinfo fs1) (nfs3Fsinfo fs2).
Proof.
  unfold nfs3Fsinfo. h. pose proof sim_writes as Hw. by destruct (writes fs1), (writes fs2).
Qed.
Hint Resolve nfs3Fsinfo_rel : hrel.

Lemma nfs3_reads_rel : procs_rel
  [(0, null); (1, nfs3Getattr fs1); (3, nfs3Lookup fs1); (4, nfs3Access fs1); (5, nfs3Readlink fs1);
   (6, nfs3Read fs1); (16, nfs3Readdir fs1); (17, nfs3Readdirplus fs1); (18, nfs3Fsstat fs1);
   (19, nfs3Fsinfo fs1); (20, nfs3Pathconf fs1)]
  [(0, null); (1, nfs3Getattr fs2); (3, nfs3Lookup fs2); (4, nfs3Access fs2); (5, nfs3Readlink fs2);
   (6, nfs3Read fs2); (16, nfs3Readdir fs2); (17, nfs3Readdirplus fs2); (18, nfs3Fsstat fs2);
   (19, nfs3Fsinfo fs2); (20, nfs3Pathconf fs2)].
Proof.
  each; unfold nfs3Getattr, nfs3Lookup, nfs3Access, nfs3Readlink, nfs3Read, nfs3Readdir, nfs3Readdirplus, nfs3Fsstat,
    nfs3Pathconf, readdir_reply, failure; h.
Qed.

Lemma nfs2Procs_rel : procs_rel (nfs2Procs fs1 now) (nfs2Procs fs2 now).
Proof.
  unfold nfs2Procs. pose proof sim_writes as Hw. destruct (writes fs1), (writes fs2); try done.
  - apply Forall2_app; [apply nfs2_reads_rel|by apply nfs2_writes_rel].
  - apply Forall2_app; [apply nfs2_reads_rel|]. each; unfold nfsROFS; h.
Qed.

Lemma nfs3Procs_rel : procs_rel (nfs3Procs fs1 now Verifier) (nfs3Procs fs2 now Verifier).
Proof.
  unfold nfs3Procs. pose proof sim_writes as Hw. destruct (writes fs1), (writes fs2); try done.
  - apply Forall2_app; [apply nfs3_reads_rel|by apply nfs3_writes_rel].
  - apply Forall2_app; [apply nfs3_reads_rel|]. each; unfold rofs3, refuse3; h.
Qed.

Lemma mountProcs_rel vers : procs_rel (mountProcs fs1 vers) (mountProcs fs2 vers).
Proof.
  each; unfold mountMnt, mountUmnt, mountExport; rewrite ?sim_Exports; h.
Qed.

Lemma portmapProcs_rel : procs_rel (portmapProcs ports) (portmapProcs ports).
Proof. each; unfold pmapGetport, pmapDump; h. Qed.

(** ** Servers *)

Definition table_rel (t1 : rpcTable S1) (t2 : rpcTable S2) : Prop :=
  versions t1 = versions t2 /\ forall k : procKey, option_rel (hrel eq) (procs t1 !! k) (procs t2 !! k).

Lemma add_rel t1 t2 prog vers ps1 ps2 : table_rel t1 t2 -> procs_rel ps1 ps2 ->
  table_rel (add t1 prog vers ps1) (add t2 prog vers ps2).
Proof.
  intros [Hv Hp] Hps. split; [cbn; by rewrite Hv|]. intros k. cbn [procs add].
  induction Hps as [|[p1 h1] [p2 h2] ps1 ps2 [Hk Hh] _ IH]; cbn [foldr]; [apply Hp|]. cbn [fst snd] in Hk, Hh. subst p2.
  destruct (decide (k = (prog, vers, p1))) as [->|Hne]; [by rewrite !lookup_insert_eq|by rewrite !lookup_insert_ne].
Qed.

Lemma server_rel : table_rel (table fs1 now ports Verifier) (table fs2 now ports Verifier).
Proof.
  unfold table. repeat apply add_rel;
    auto using portmapProcs_rel, mountProcs_rel, nfs2Procs_rel, nfs3Procs_rel.
  split; [done|]. by intros k.
Qed.

Lemma lookup_rel t1 t2 (prog vers proc : Z) : table_rel t1 t2 ->
  (exists h1 h2, procs t1 !! (prog, vers, proc) = Some h1 /\ procs t2 !! (prog, vers, proc) = Some h2 /\ hrel eq h1 h2) \/
  procs t1 !! (prog, vers, proc) = None /\ procs t2 !! (prog, vers, proc) = None.
Proof.
  intros [_ Hp].
  assert (Hk : option_rel (hrel eq) (procs t1 !! (prog, vers, proc)) (procs t2 !! (prog, vers, proc)))
    by exact (Hp (prog, vers, proc)).
  destruct (procs t1 !! (prog, vers, proc)), (procs t2 !! (prog, vers, proc)); try done; [left; eauto|by right].
Qed.

Lemma dispatch_rel t1 t2 pkt : table_rel t1 t2 -> srel eq (dispatch t1 pkt) (dispatch t2 pkt).
Proof.
  intros [Hv Hp] s1 s2 Hs. unfold dispatch. rewrite Hv. set (r0 := XdrReader pkt 0 false).
  destruct (uint32 r0) as [xid r1]. destruct (uint32 r1) as [kind r2]. destruct (_ || _); [done|].
  destruct (uint32 r2) as [version r3]. destruct (negb _); [done|].
  destruct (call_header r3) as [[[prog vers] proc] r4]. destruct (err r4); [done|].
  destruct (versions t2 !! prog) as [vr|]; [|done].
  destruct (lookup_rel t1 t2 prog vers 0 (conj Hv Hp)) as [(? & ? & -> & -> & _)|[-> ->]]; [|done].
  destruct (lookup_rel t1 t2 prog vers proc (conj Hv Hp)) as [(h1 & h2 & E1 & E2 & H1)|[E1 E2]];
    unfold handler, state in *; rewrite E1, E2; [|done].
  destruct (H1 r4 s1 s2 Hs) as (Hb & Hr & Hs').
  destruct (h1 (r4, s1)) as [b1 [r1' s1']], (h2 (r4, s2)) as [b2 [r2' s2']]. cbn [fst snd] in *. subst b2 r2'.
  by destruct (err r1').
Qed.

Notation t1 := (table fs1 now ports Verifier).
Notation t2 := (table fs2 now ports Verifier).

Lemma serve_packet_rel AllowIP p d s1 s2 : RS s1 s2 ->
  exists reply d' s1' s2', serve_packet AllowIP t1 p (d, s1) = (reply, (d', s1')) /\
    serve_packet AllowIP t2 p (d, s2) = (reply, (d', s2')) /\ RS s1' s2'.
Proof.
  intros Hs. destruct p as [addr pkt]. unfold serve_packet.
  destruct (negb (allowed AllowIP addr)); [by do 4 eexists|].
  destruct (drc_lookup d addr pkt); [by do 4 eexists|].
  destruct (dispatch_rel t1 t2 pkt server_rel s1 s2 Hs) as [Hr Hs'].
  destruct (dispatch t1 pkt s1) as [r1 s1'], (dispatch t2 pkt s2) as [r2 s2']. cbn [fst snd] in *. subst r2.
  by do 4 eexists.
Qed.

Lemma ServeUDP_rel AllowIP ps d s1 s2 : RS s1 s2 ->
  exists replies d' s1' s2', ServeUDP AllowIP t1 ps (d, s1) = (replies, (d', s1')) /\
    ServeUDP AllowIP t2 ps (d, s2) = (replies, (d', s2')) /\ RS s1' s2'.
Proof.
  revert d s1 s2. induction ps as [|p ps IH]; intros d s1 s2 Hs; [by do 4 eexists|]. cbn [ServeUDP].
  destruct (serve_packet_rel AllowIP p d s1 s2 Hs) as (reply & d1 & s1' & s2' & -> & -> & Hs').
  destruct (IH d1 s1' s2' Hs') as (replies & d2 & s1'' & s2'' & -> & -> & Hs''). by do 4 eexists.
Qed.

Lemma serve_loop_rel fuel write k st s1 s2 : RS s1 s2 ->
  match serve_loop fuel t1 write k st s1, serve_loop fuel t2 write k st s2 with
  | Ok (out1, s1'), Ok (out2, s2') => out1 = out2 /\ RS s1' s2'
  | Err e1, Err e2 => e1 = e2
  | Panic, Panic => True
  | _, _ => False
  end.
Proof.
  revert k st s1 s2. induction fuel as [|fuel IH]; intros k st s1 s2 Hs; cbn [serve_loop]; [done|].
  destruct (readRecord st) as [[call st']|e|]; cbn; [|done..]. destruct call as [call|e]; [|done].
  destruct (dispatch_rel t1 t2 call server_rel s1 s2 Hs) as [Hr Hs'].
  destruct (dispatch t1 call s1) as [r1 s1'], (dispatch t2 call s2) as [r2 s2']. cbn [fst snd] in *. subst r2.
  destruct r1 as [reply|]; [|by apply IH]. destruct (write k); [|done].
  specialize (IH (S k) st' s1' s2' Hs').
  destruct (serve_loop fuel t1 write (S k) st' s1') as [[o1 u1]|e1|],
    (serve_loop fuel t2 write (S k) st' s2') as [[o2 u2]|e2|]; cbn; try done.
  by destruct IH as [-> Hu].
Qed.

(** A server of the one export answers as a server of the other: the same replies
    to the same datagrams, with the same duplicate request cache, and the same
    bytes on a connection; and the exports are related again after. *)
Theorem same_service AllowIP ps write st d s1 s2 : RS s1 s2 ->
  (let '(replies1, (d1, s1')) := ServeUDP AllowIP t1 ps (d, s1) in
   let '(replies2, (d2, s2')) := ServeUDP AllowIP t2 ps (d, s2) in
   replies1 = replies2 /\ d1 = d2 /\ RS s1' s2') /\
  match serveConn t1 write st s1, serveConn t2 write st s2 with
  | Ok (out1, s1'), Ok (out2, s2') => out1 = out2 /\ RS s1' s2'
  | Err e1, Err e2 => e1 = e2
  | Panic, Panic => True
  | _, _ => False
  end.
Proof.
  intros Hs. split; [|by apply serve_loop_rel].
  destruct (ServeUDP_rel AllowIP ps d s1 s2 Hs) as (replies & d' & s1' & s2' & -> & -> & Hs'). done.
Qed.
End simulation.

(** ** Invariants *)

(** An export keeps an invariant of its state when each operation does, given
    nodes that satisfy [P], and the nodes it answers satisfy [P]. *)
Definition keeping {S N} (fs : FS S N) (I : S -> Prop) (P : N -> Prop) : Prop :=
  Simulates fs fs (fun s1 s2 => s1 = s2 /\ I s1) (fun n1 n2 => n1 = n2 /\ P n1).

(** A server keeps what its export keeps, whatever datagrams come. *)
Lemma service_keeps {S N} (fs : FS S N) I P now Verifier ports AllowIP ps d s :
  keeping fs I P -> I s -> I (snd (snd (ServeUDP AllowIP (table fs now ports Verifier) ps (d, s)))).
Proof.
  intros Hk Hs.
  destruct (ServeUDP_rel fs fs _ _ (Hsim := Hk) now Verifier ports AllowIP ps d s s (conj eq_refl Hs))
    as (replies & d' & s1 & s2 & -> & _ & _ & H). done.
Qed.

Lemma connection_keeps {S N} (fs : FS S N) I P now Verifier ports write st s out s' :
  keeping fs I P -> I s -> serveConn (table fs now ports Verifier) write st s = Ok (out, s') -> I s'.
Proof.
  intros Hk Hs E.
  pose proof (serve_loop_rel fs fs _ _ (Hsim := Hk) now Verifier ports (length (sdata st) + 1) write 0 st s s (conj eq_refl Hs)) as H.
  unfold serveConn in E. rewrite E in H. by destruct H as (_ & _ & H).
Qed.
