(* ===== verification/Sharefs.v ===== *)
(** A host directory exported to read and write ([internal/sharefs/sharefs.go],
    with [stat.go], [sys_linux.go] and [errno_unix.go]).

    The host is what [os.Root] and the system calls do: a record of operations
    over a state [H], with descriptors [Fd] and directory entries [Ent]. The
    share keeps the host, whether birth times are known to be missing, and the
    names of files: a path table or a cache of paths by inode. On Linux
    [osPath], [FromSlash] and [ToSlash] are the identity. *)
From S2P Require Import Prelude Text Path PathTable Xdr Nfs.

(** ** Host errors: what [errors.Is] finds in them *)

Inductive errno :=
| EPERM | EACCES | EEXIST | ENOENT | ENOTDIR | EISDIR | EINVAL | ENOSPC | EDQUOT
| ENAMETOOLONG | ENOTEMPTY | EFBIG | EXDEV | EROFS | ENOSYS.
#[export] Instance errno_eq_dec : EqDecision errno.
Proof. solve_decision. Defined.

Inductive cause := Errno (e : errno) | FsNotExist | FsExist | FsPermission | IoEOF.
#[export] Instance cause_eq_dec : EqDecision cause.
Proof. solve_decision. Defined.

Definition herr : Type := list cause.
Definition hIs (e : herr) (c : cause) : bool := bool_decide (c ∈ e).

Definition errnos : list (errno * sentinel) :=
  [(EPERM, ErrPerm); (EACCES, ErrAccess); (EEXIST, ErrExist); (ENOENT, ErrNotFound);
   (ENOTDIR, ErrNotDir); (EISDIR, ErrIsDir); (EINVAL, ErrInval); (ENOSPC, ErrNoSpace);
   (EDQUOT, ErrQuota); (ENAMETOOLONG, ErrNameTooLong); (ENOTEMPTY, ErrNotEmpty);
   (EFBIG, ErrFBig); (EXDEV, ErrXDev); (EROFS, ErrROFS)].

Definition mapErr (err : herr) : error :=
  match find (fun e => hIs err (Errno e.1)) errnos with
  | Some (_, s) => only s
  | None =>
      if hIs err FsNotExist then only ErrNotFound
      else if hIs err FsExist then only ErrExist
      else if hIs err FsPermission then only ErrAccess
      else only ErrIO
  end.

(** ** What the host says of a file *)

Inductive filetype := TDir | TSymlink | TOther.

(** [syscall.Stat_t], as far as it is used. *)
Record Stat_t := MkStat_t {
  st_Mode : Z; st_Nlink : Z; st_Blocks : Z; st_Atim : gotime; st_Ctim : gotime; st_Dev : Z; st_Ino : Z;
}.

(** [fs.FileInfo]. *)
Record FileInfo := MkFileInfo {
  fi_perm : Z; fi_setgid : bool; fi_sticky : bool; fi_type : filetype;
  fi_size : Z; fi_modtime : gotime; fi_sys : option Stat_t;
}.

Record stat := MkStat {
  mode : Z; nlink : Z; size : Z; used : Z; atime : gotime; mtime : gotime; ctime : gotime;
  dev : Z; ino : Z; gen : Z;
}.

Definition genericStat (fi : FileInfo) : stat :=
  let m := fi_perm fi in
  let m := if fi_setgid fi then Z.lor m 0x400 else m in
  let m := if fi_sticky fi then Z.lor m 0x200 else m in
  let m := Z.lor m (match fi_type fi with TDir => 0x4000 | TSymlink => 0xA000 | TOther => 0x8000 end) in
  let sz := Z.max (fi_size fi) 0 in
  MkStat m 1 sz (Z.ldiff (u64 (sz + 4095)) 4095) (fi_modtime fi) (fi_modtime fi) (fi_modtime fi) 0 0 0.

Definition fileStat (fi : FileInfo) : stat :=
  let st := genericStat fi in
  match fi_sys fi with
  | Some s => MkStat (st_Mode s) (u32 (st_Nlink s)) (size st) (u64 (u64 (st_Blocks s) * 512))
                     (st_Atim s) (mtime st) (st_Ctim s) (u64 (st_Dev s)) (st_Ino s) 0
  | None => st
  end.

(** ** The host *)

(** What [statx] of a descriptor says: the inode, and the birth time if the mask
    has it. *)
Record Statx_t := MkStatx { stx_Ino : Z; stx_Btime : option (Z * Z) }.

Definition O_WRONLY : Z := 1.
Definition O_CREATE : Z := 0x40.
Definition O_EXCL : Z := 0x80.

Section host.
Context (H Fd Ent : Type).

(** [table_io] and [table_visits] are what the path table's file and Go's map
    iteration do: how many bytes the next write takes, and the order of ids with
    the same for each. *)
Record Root := {
  Lstat : bytes -> state H (FileInfo + herr);
  Openat2 : bytes -> state H (Fd + errno);
  Statx : Fd -> state H (option Statx_t);
  Open_ : bytes -> state H (Fd + herr);
  ReadDirAll : Fd -> state H (list Ent * option herr);
  ent_name : Ent -> bytes;
  ent_isdir : Ent -> bool;
  ent_Info : Ent -> state H (FileInfo + herr);
  fd_ReadAt : Fd -> Z -> Z -> state H (bytes * option herr);
  fd_WriteAt : Fd -> bytes -> Z -> state H (option herr);
  fd_Truncate : Fd -> Z -> state H (option herr);
  fd_Close : Fd -> state H (option herr);
  OpenFile : bytes -> Z -> Z -> state H (Fd + herr);
  root_Readlink : bytes -> state H (bytes + herr);
  root_Chmod : bytes -> Z -> state H (option herr);
  root_Chtimes : bytes -> option gotime -> option gotime -> state H (option herr);
  root_Mkdir : bytes -> Z -> state H (option herr);
  root_Symlink : bytes -> bytes -> state H (option herr);
  root_Remove : bytes -> state H (option herr);
  root_Rename : bytes -> bytes -> state H (option herr);
  diskSpace : state H (Space_t + herr);
  table_io : state H Z;
  table_visits : gmap Z bytes -> state H (list (Z * Z));
}.
End host.

Arguments Lstat {H Fd Ent} r.
Arguments Openat2 {H Fd Ent} r.
Arguments Statx {H Fd Ent} r.
Arguments Open_ {H Fd Ent} r.
Arguments ReadDirAll {H Fd Ent} r.
Arguments ent_name {H Fd Ent} r.
Arguments ent_isdir {H Fd Ent} r.
Arguments ent_Info {H Fd Ent} r.
Arguments fd_ReadAt {H Fd Ent} r.
Arguments fd_WriteAt {H Fd Ent} r.
Arguments fd_Truncate {H Fd Ent} r.
Arguments fd_Close {H Fd Ent} r.
Arguments OpenFile {H Fd Ent} r.
Arguments root_Readlink {H Fd Ent} r.
Arguments root_Chmod {H Fd Ent} r.
Arguments root_Chtimes {H Fd Ent} r.
Arguments root_Mkdir {H Fd Ent} r.
Arguments root_Symlink {H Fd Ent} r.
Arguments root_Remove {H Fd Ent} r.
Arguments root_Rename {H Fd Ent} r.
Arguments diskSpace {H Fd Ent} r.
Arguments table_io {H Fd Ent} r.
Arguments table_visits {H Fd Ent} r.

(** ** The share *)

Record key := MkKey { k_dev : Z; k_ino : Z; k_gen : Z }.
#[export] Instance key_eq_dec : EqDecision key.
Proof. solve_decision. Defined.
#[export] Instance key_countable : Countable key.
Proof.
  refine (inj_countable' (fun k => (k_dev k, k_ino k, k_gen k)) (fun '(a, b, c) => MkKey a b c) _).
  by intros [].
Defined.

Definition fmtInode : Z := 2.
Definition fmtTable : Z := 3.

Inductive naming := ByTable (o : opened) | ByCache (c : gmap key bytes).

(** What does not change in an [FS]. *)
Record config := MkConfig { cfg_name : bytes; exportID : Z; cfg_filter : option (Attr_t -> Attr_t) }.

(** What does. *)
Record share (H : Type) := MkShare { s_host : H; noBtime : bool; names : naming }.
Arguments MkShare {H} s_host noBtime names.
Arguments s_host {H} s.
Arguments noBtime {H} s.
Arguments names {H} s.

Record node := MkNode { n_path : bytes; raw : Z; n_attr : Attr_t; n_key : key }.

Definition isDir (n : node) : bool := Z.land (raw n) 0xF000 =? 0x4000.
Definition isReg (n : node) : bool := Z.land (raw n) 0xF000 =? 0x8000.
Definition isLink (n : node) : bool := Z.land (raw n) 0xF000 =? 0xA000.

Definition join (dir name : bytes) : bytes :=
  if bool_decide (dir = [dot]) then name else dir ++ [slash] ++ name.

Definition checkName (name : bytes) : option sentinel :=
  if bool_decide (name = []) || bool_decide (name = [dot]) || bool_decide (name = dotdot) then Some ErrInval
  else if bool_decide (slash ∈ name) || bool_decide (0 ∈ name) then Some ErrInval
  else if 255 <? zlen name then Some ErrNameTooLong
  else None.

(** [fnv.New32a]. *)
Definition fnv32a (s : bytes) : Z := foldl (fun h b => u32 (Z.lxor h b * 16777619)) 2166136261 s.

Definition cookie (name : bytes) : Z := Z.max (Z.land (fnv32a name) 0x7FFFFFFF) 1.

Definition fileMode (m : Z) : Z :=
  let fm := Z.land m 0x1FF in
  let fm := if negb (Z.land m 0x400 =? 0) then Z.lor fm (2 ^ 22) else fm in
  if negb (Z.land m 0x200 =? 0) then Z.lor fm (2 ^ 20) else fm.

Definition sameInode (fi : FileInfo) (k : key) : bool :=
  match fi_sys fi with
  | Some s => (u64 (st_Dev s) =? k_dev k) && (st_Ino s =? k_ino k)
  | None => false
  end.

(** ** Operations

    An operation answers a value or the error the server reports. *)
Section sharefs.
Context {H Fd Ent : Type} (R : Root H Fd Ent) (printWide : Z -> bool) (cfg : config).
(** More directories than the share has: [search] expands one a turn. *)
Context (dirs : nat).

Notation io A := (state (share H) (A + error)).

Definition try {A B} (m : io A) (f : A -> io B) : io B := fun s =>
  match m s with (inl a, s) => f a s | (inr e, s) => (inr e, s) end.
Notation "x ←! m ; k" := (try m (fun x => k)) (at level 100, m at level 90, k at level 200, right associativity).

Definition fail_with {A} (e : sentinel) : io A := mret (inr (only e)).
Definition give {A} (a : A) : io A := mret (inl a).

(** A call on the host, its error as it is, and its error mapped. *)
Definition on_host {A} (m : state H A) : state (share H) A := fun s =>
  let '(a, h) := m (s_host s) in (a, MkShare h (noBtime s) (names s)).
Definition mapped {A} (m : state H (A + herr)) : io A :=
  r ← on_host m; mret match r with inl a => inl a | inr e => inr (mapErr e) end.
Definition ok_of (e : option herr) : unit + error := match e with None => inl () | Some e => inr (mapErr e) end.
Definition done_by (m : state H (option herr)) : io unit := r ← on_host m; mret (ok_of r).

Definition get_names : state (share H) naming := fun s => (names s, s).
Definition set_names (n : naming) : state (share H) unit := fun s => (tt, MkShare (s_host s) (noBtime s) n).

(** ** Describing a file *)

Definition generation (rel : bytes) (st : stat) : state (share H) Z := fun s =>
  if noBtime s then (0, s)
  else
    let '(r, s) := on_host (Openat2 R rel) s in
    match r with
    | inr e => (0, if bool_decide (e = ENOSYS) then MkShare (s_host s) true (names s) else s)
    | inl fd =>
        let '(x, s) := on_host (Statx R fd) s in
        let '(_, s) := on_host (fd_Close R fd) s in
        (match x with
         | Some (MkStatx i (Some (sec, nsec))) =>
             if negb (i =? ino st) then 0 else u64 (u64 (u64 sec * 1000000000) + nsec)
         | _ => 0
         end, s)
    end.

Definition idFor_ (rel : bytes) (o : opened) : io Z :=
  n ← on_host (table_io R);
  let '(r, o) := idFor printWide n rel o in
  _ ← set_names (ByTable o);
  mret (match r with Some id => inl id | None => inr (only ErrIO) end).

Definition name_file (rel : bytes) (st : stat) : io key :=
  ns ← get_names;
  match ns with
  | ByTable o => id ←! idFor_ rel o; give (MkKey 0 id 0)
  | ByCache c =>
      let k := MkKey (dev st) (ino st) (gen st) in
      _ ← set_names (ByCache (<[k := rel]> c));
      give k
  end.

Definition shown (rel : bytes) (st : stat) (k : key) : node :=
  let a := MkAttr (Z.ldiff (mode st) 0x800) (nlink st) (size st) (used st) (k_ino k) (atime st) (mtime st) (ctime st) in
  let n := MkNode rel (mode st) a k in
  let a := if isLink n then MkAttr (Z.lor (a_Mode a) 0x1FF) (Nlink a) (a_Size a) (Used a) (Fileid a)
                              (Atime a) (a_Mtime a) (Ctime a)
           else a in
  MkNode rel (mode st) (match cfg_filter cfg with Some f => f a | None => a end) k.

Definition describe (rel : bytes) (st : stat) : io node :=
  k ←! name_file rel st; give (shown rel st k).

Definition with_gen (st : stat) (g : Z) : stat :=
  MkStat (mode st) (nlink st) (size st) (used st) (atime st) (mtime st) (ctime st) (dev st) (ino st) g.

Definition statNode (rel : bytes) : io node :=
  fi ←! mapped (Lstat R rel);
  let st := fileStat fi in
  g ← generation rel st;
  describe rel (with_gen st g).

Definition ownDir (d : node) : io node := if isDir d then give d else fail_with ErrNotDir.

(** ** Names and handles *)

Fixpoint mount_parts (n : node) (parts : list bytes) : io node :=
  match parts with
  | [] => give n
  | part :: parts =>
      if bool_decide (part = []) then mount_parts n parts
      else match checkName part with
           | Some _ => fail_with ErrNotFound
           | None =>
               if negb (isDir n) then fail_with ErrNotDir
               else n ←! statNode (join (n_path n) part); mount_parts n parts
           end
  end.

Definition MountRoot (p : bytes) : io node :=
  let parts := split_byte slash (trim slash p) in
  if negb (bool_decide (hd [] parts = cfg_name cfg)) then fail_with ErrNotFound
  else n ←! statNode [dot]; mount_parts n (tl parts).

Definition handle_format (ns : naming) : Z := match ns with ByTable _ => fmtTable | ByCache _ => fmtInode end.

Definition Handle (n : node) : state (share H) bytes :=
  ns ← get_names;
  mret ([handle_format ns; 0; 0; 0] ++ be_enc 4 (exportID cfg)
        ++ be_enc 8 (k_dev (n_key n)) ++ be_enc 8 (k_ino (n_key n)) ++ be_enc 8 (k_gen (n_key n))).

(** The entries of one directory: the file found, or the queue with the
    directories below added. *)
Fixpoint search_ents (k : key) (dir : bytes) (ents : list Ent) (queue : list bytes)
    : state (share H) (node + list bytes) :=
  match ents with
  | [] => mret (inr queue)
  | e :: ents =>
      let rel := join dir (ent_name R e) in
      let queue := if ent_isdir R e then queue ++ [rel] else queue in
      info ← on_host (ent_Info R e);
      if match info with inl fi => sameInode fi k | inr _ => false end then
        r ← statNode rel;
        match r with
        | inl n => if bool_decide (n_key n = k) then mret (inl n) else search_ents k dir ents queue
        | inr _ => search_ents k dir ents queue
        end
      else search_ents k dir ents queue
  end.

Fixpoint search_loop (fuel : nat) (k : key) (queue : list bytes) : io node :=
  match queue with
  | [] => fail_with ErrStale
  | dir :: queue =>
      match fuel with
      | O => mret (inr [])  (* not reached: [search_finds] *)
      | S fuel =>
          d ← on_host (Open_ R dir);
          match d with
          | inr _ => search_loop fuel k queue
          | inl d =>
              ents ← on_host (ReadDirAll R d);
              _ ← on_host (fd_Close R d);
              r ← search_ents k dir ents.1 queue;
              match r with
              | inl n => give n
              | inr queue => search_loop fuel k queue
              end
          end
      end
  end.

Definition search (k : key) : io node :=
  r ← statNode [dot];
  match r with
  | inl n => if bool_decide (n_key n = k) then give n else search_loop dirs k [[dot]]
  | inr _ => search_loop dirs k [[dot]]
  end.

Definition handle_key (fh : bytes) : key := MkKey (get_u64 fh 8) (get_u64 fh 16) (get_u64 fh 24).

Definition NodeByHandle (fh : bytes) : io node :=
  ns ← get_names;
  let b := at_ fh in
  if negb (zlen fh =? 32) || negb (Z.lor (Z.lor (b 1) (b 2)) (b 3) =? 0)
     || (negb (b 0 =? fmtInode) && negb (b 0 =? fmtTable)) then fail_with ErrBadHandle
  else if negb (b 0 =? handle_format ns) || negb (get_u32 fh 4 =? exportID cfg) then fail_with ErrStale
  else
    let k := handle_key fh in
    match ns with
    | ByTable o =>
        match PathTable.path (k_ino k) o with
        | None => fail_with ErrStale
        | Some rel =>
            r ← statNode rel;
            match r with
            | inr e => if Is e ErrNotFound then fail_with ErrStale else mret (inr e)
            | inl n => give n
            end
        end
    | ByCache c =>
        match c !! k with
        | None => search k
        | Some rel =>
            r ← statNode rel;
            match r with
            | inl n => if bool_decide (n_key n = k) then give n else search k
            | inr _ => search k
            end
        end
    end.

Definition Lookup (dir : node) (name : bytes) : io node :=
  d ←! ownDir dir;
  if bool_decide (name = [dot]) then statNode (n_path d)
  else if bool_decide (name = dotdot) then statNode (Dir (n_path d))
  else match checkName name with
       | Some _ => fail_with ErrNotFound
       | None => statNode (join (n_path d) name)
       end.

(** ** Reading *)

Fixpoint stat_entries (d : bytes) (nms : list bytes) : state (share H) (list (DirEntry node)) :=
  match nms with
  | [] => mret []
  | name :: nms =>
      r ← statNode (join d name);
      out ← stat_entries d nms;
      mret match r with inl n => MkDirEntry name n (cookie name) :: out | inr _ => out end
  end.

Definition entry_le (x y : DirEntry node) : Prop :=
  Cookie x < Cookie y \/ Cookie x = Cookie y /\ bytes_le (Name x) (Name y).
Global Instance entry_le_dec : RelDecision entry_le.
Proof. intros x y. unfold entry_le. apply _. Defined.

Definition ReadDir (dir : node) : io (list (DirEntry node)) :=
  d ←! ownDir dir;
  fd ←! mapped (Open_ R (n_path d));
  ents ← on_host (ReadDirAll R fd);
  _ ← on_host (fd_Close R fd);
  match ents.2 with
  | Some e => mret (inr (mapErr e))
  | None =>
      out ← stat_entries (n_path d) (merge_sort bytes_le (ent_name R <$> ents.1));
      give (merge_sort entry_le out)
  end.

Definition ReadAt (n : node) (count off : Z) : state (share H) (bytes * option error) :=
  if negb (isReg n) then mret ([], Some (only ErrInval))
  else
    r ← mapped (Open_ R (n_path n));
    match r with
    | inr e => mret ([], Some e)
    | inl fd =>
        got ← on_host (fd_ReadAt R fd count off);
        _ ← on_host (fd_Close R fd);
        mret (got.1, match got.2 with
                     | Some e => if hIs e IoEOF then None else Some (mapErr e)
                     | None => None
                     end)
    end.

Definition Readlink (n : node) : io bytes :=
  if negb (isLink n) then fail_with ErrInval else mapped (root_Readlink R (n_path n)).

(** ** Changing *)

Definition clearSetuid (n : node) : state (share H) unit :=
  let strip := if negb (Z.land (raw n) 8 =? 0) then Z.lor 0x800 0x400 else 0x800 in
  if negb (Z.land (raw n) strip =? 0) then
    _ ← on_host (root_Chmod R (n_path n) (fileMode (Z.ldiff (raw n) strip))); mret tt
  else mret tt.

Definition truncate (n : node) (size : Z) : io unit :=
  if isDir n then fail_with ErrIsDir
  else if negb (isReg n) then fail_with ErrInval
  else
    fd ←! mapped (OpenFile R (n_path n) O_WRONLY 0);
    r ← on_host (fd_Truncate R fd (Z.min size (2 ^ 63 - 1)));
    _ ← on_host (fd_Close R fd);
    match r with
    | Some e => mret (inr (mapErr e))
    | None => _ ← clearSetuid n; give tt
    end.

Definition SetAttr (n : node) (a : SetAttr_t) : io unit :=
  _ ←! (match s_Size a with Some size => truncate n size | None => give tt end);
  if isLink n then give tt
  else
    _ ←! (match s_Mode a with Some m => done_by (root_Chmod R (n_path n) (fileMode m)) | None => give tt end);
    match s_Atime a, s_Mtime a with
    | None, None => give tt
    | at_, mt => done_by (root_Chtimes R (n_path n) at_ mt)
    end.

Definition WriteAt (n : node) (p : bytes) (off : Z) : io unit :=
  if negb (isReg n) then fail_with ErrInval
  else
    fd ←! mapped (OpenFile R (n_path n) O_WRONLY 0);
    r ← on_host (fd_WriteAt R fd p off);
    c ← on_host (fd_Close R fd);
    match match r with None => c | Some _ => r end with
    | Some e => mret (inr (mapErr e))
    | None => _ ← clearSetuid n; give tt
    end.

Definition newEntry (dir : node) (name : bytes) : io bytes :=
  d ←! ownDir dir;
  match checkName name with
  | Some e => fail_with e
  | None => give (join (n_path d) name)
  end.

Definition verfTimes (verf : bytes) : gotime * gotime :=
  (time_Unix (get_u32 verf 0) 0, time_Unix (get_u32 verf 4) 0).

Definition retransmitted (rel : bytes) (verf : bytes) : io node :=
  n ←! statNode rel;
  fi ←! mapped (Lstat R rel);
  let '(at_, mt) := verfTimes verf in
  let st := fileStat fi in
  if isReg n && time_Equal (atime st) at_ && time_Equal (mtime st) mt then give n else fail_with ErrExist.

(** [Create] once there is no file to open as it is. *)
Definition create_at (rel : bytes) (how : CreateHow) (a : SetAttr_t) (verf : bytes) : io node :=
  let flags := match how with Unchecked => Z.lor O_WRONLY O_CREATE | _ => Z.lor (Z.lor O_WRONLY O_CREATE) O_EXCL end in
  let perm := default 0x1A4 (s_Mode a) in
  r ← on_host (OpenFile R rel flags (Z.land perm 0x1FF));
  match r with
  | inr e =>
      match how with
      | Exclusive => if hIs e FsExist then retransmitted rel verf else mret (inr (mapErr e))
      | _ => mret (inr (mapErr e))
      end
  | inl fd =>
      _ ← on_host (fd_Close R fd);
      let a := match how with
               | Exclusive => let '(at_, mt) := verfTimes verf in MkSetAttr None None (Some at_) (Some mt)
               | _ => a
               end in
      let a := MkSetAttr (Some perm) (s_Size a) (s_Atime a) (s_Mtime a) in
      n ←! statNode rel;
      _ ←! SetAttr n a;
      statNode rel
  end.

Definition Create (dir : node) (name : bytes) (how : CreateHow) (a : SetAttr_t) (verf : bytes) : io node :=
  rel ←! newEntry dir name;
  match how with
  | Unchecked =>
      r ← statNode rel;
      match r with
      | inl n => if negb (isReg n) then fail_with ErrExist else _ ←! SetAttr n a; give n
      | inr _ => create_at rel how a verf
      end
  | _ => create_at rel how a verf
  end.

Definition Mkdir (dir : node) (name : bytes) (a : SetAttr_t) : io node :=
  rel ←! newEntry dir name;
  _ ←! done_by (root_Mkdir R rel 0x1ED);
  n ←! statNode rel;
  _ ←! SetAttr n (MkSetAttr (s_Mode a) None (s_Atime a) (s_Mtime a));
  statNode rel.

Definition Symlink (dir : node) (name target : bytes) (_ : SetAttr_t) : io node :=
  rel ←! newEntry dir name;
  if bool_decide (target = []) || bool_decide (0 ∈ target) then fail_with ErrInval
  else _ ←! done_by (root_Symlink R target rel); statNode rel.

(** ** Forgetting and moving names *)

Definition forget (rel : bytes) : state (share H) unit :=
  ns ← get_names;
  match ns with
  | ByTable o =>
      v ← on_host (table_visits R (PathTable.byID (tbl o)));
      set_names (ByTable (PathTable.remove v rel o))
  | ByCache c => set_names (ByCache (filter (fun kp => under kp.2 rel = false) c))
  end.

Definition moved (from to : bytes) : state (share H) unit :=
  ns ← get_names;
  match ns with
  | ByTable o =>
      v ← on_host (table_visits R (PathTable.byID (tbl o)));
      set_names (ByTable (PathTable.move printWide v from to o))
  | ByCache c =>
      set_names (ByCache ((fun p => if under p from then to ++ drop (length from) p else p) <$> c))
  end.

Definition remove_ (dir : node) (name : bytes) (wantDir : bool) : io unit :=
  rel ←! newEntry dir name;
  n ←! statNode rel;
  if wantDir && negb (isDir n) then fail_with ErrNotDir
  else if negb wantDir && isDir n then fail_with ErrIsDir
  else
    _ ←! done_by (root_Remove R rel);
    _ ← forget rel; give tt.
Definition Remove (dir : node) (name : bytes) : io unit := remove_ dir name false.
Definition Rmdir (dir : node) (name : bytes) : io unit := remove_ dir name true.

Definition Rename (fromDir : node) (fromName : bytes) (toDir : node) (toName : bytes) : io unit :=
  from ←! newEntry fromDir fromName;
  to ←! newEntry toDir toName;
  _ ←! done_by (root_Rename R from to);
  if bool_decide (from = to) then give tt
  else _ ← forget to; _ ← moved from to; give tt.

Definition Space : io Space_t := mapped (diskSpace R).

(** ** The share as an export *)

Definition failure_of (m : io unit) : state (share H) (option error) :=
  r ← m; mret match r with inl _ => None | inr e => Some e end.

Definition share_handles : HandleFS (share H) node := {|
  Nfs.Handle := Handle; Nfs.NodeByHandle := NodeByHandle |}.

Definition share_writes : WriteFS (share H) node := {|
  Nfs.SetAttr := fun n a => failure_of (SetAttr n a);
  Nfs.WriteAt := fun n p off => failure_of (WriteAt n p off);
  Nfs.Create := Create;
  Nfs.Mkdir := Mkdir;
  Nfs.Symlink := Symlink;
  Nfs.Remove := fun d n => failure_of (Remove d n);
  Nfs.Rmdir := fun d n => failure_of (Rmdir d n);
  Nfs.Rename := fun fd fn td tn => failure_of (Rename fd fn td tn) |}.

Definition share_FS : FS (share H) node := {|
  ID := fun n => Fileid (n_attr n);
  Mode := fun n => a_Mode (n_attr n);
  Size := fun n => i64 (a_Size (n_attr n));
  Mtime := fun n => u32 (Unix (a_Mtime (n_attr n)));
  Attr := fun n => Some (n_attr n);
  Nfs.MountRoot := MountRoot;
  NodeByID := fun _ => fail_with ErrStale;
  Nfs.Lookup := Lookup;
  Nfs.ReadDir := ReadDir;
  Nfs.ReadAt := ReadAt;
  Nfs.Readlink := Readlink;
  handles := Some share_handles;
  writes := Some share_writes;
  space_of := Some Space;
  Exports := Some [[slash] ++ cfg_name cfg] |}.
End sharefs.

(** ** Opening a share *)

(** What the host answers while a share is opened: whether the path is made
    absolute, what is there, and whether the directory opens twice and keeps birth
    times. *)
Record open_env := MkOpenEnv {
  e_abs : bool; e_stat : option bool; e_root : bool; e_sys : bool; e_birth : bool;
  e_table : PathTable.host; e_file : option bytes }.

(** [Options], without the filter. [NoBirthTime] is for tests. *)
Record Options := MkOptions { o_PathTable : bytes; o_TableFallback : bytes; o_NoBirthTime : bool }.

Inductive open_err := BadName | HostFailed | NotADirectory | NeedsTable | TableFailed (e : load_err).

(** [Open] on a host with stable inode numbers; whether the descriptors are left
    open. *)
Definition Open_share (printWide : Z -> bool) (name : bytes) (opts : Options) (env : open_env)
    : (config * naming + open_err) * bool :=
  if bool_decide (name = []) || bool_decide (slash ∈ name) || bool_decide (92 ∈ name) then (inr BadName, false)
  else if negb (e_abs env) then (inr HostFailed, false)
  else match e_stat env with
       | None => (inr HostFailed, false)
       | Some false => (inr NotADirectory, false)
       | Some true =>
           if negb (e_root env) || negb (e_sys env) then (inr HostFailed, false)
           else
             let cfg := MkConfig name (fnv32a name) None in
             let table := o_PathTable opts in
             let missing := bool_decide (table = []) && (o_NoBirthTime opts || negb (e_birth env)) in
             let table := if missing then o_TableFallback opts else table in
             if missing && bool_decide (table = []) then (inr NeedsTable, false)
             else if negb (bool_decide (table = [])) then
               match openPathTable printWide (e_table env) (e_file env) with
               | (Ok t, Some f) => (inl (cfg, ByTable (MkOpened t f)), true)
               | (Err e, _) => (inr (TableFailed e), false)
               | _ => (inr HostFailed, false)
               end
             else (inl (cfg, ByCache ∅), true)
       end.

(** ** Operations that keep an invariant *)

(** From a state where [I] holds, [m] ends in one where it does, with an answer
    that satisfies [Q]. *)
Definition triple {S A} (I : S -> Prop) (m : state S A) (Q : A -> Prop) : Prop :=
  forall s, I s -> Q (fst (m s)) /\ I (snd (m s)).

(** A value that satisfies [Q], or an error. *)
Definition okay {A} (Q : A -> Prop) (r : A + error) : Prop := match r with inl a => Q a | inr _ => True end.
Definition any {A} (_ : A) : Prop := True.

Lemma triple_ret {S A} (I : S -> Prop) (a : A) (Q : A -> Prop) : Q a -> triple I (mret a) Q.
Proof. by intros H s Hs. Qed.
Lemma triple_bind {S A B} (I : S -> Prop) (m : state S A) (f : A -> state S B) P Q :
  triple I m P -> (forall a, P a -> triple I (f a) Q) -> triple I (m ≫= f) Q.
Proof.
  intros Hm Hf s Hs. unfold mbind, state_bind. destruct (m s) as [a s'] eqn:E.
  destruct (Hm s Hs) as [Ha Hs']. rewrite E in Ha, Hs'. by apply Hf.
Qed.
Lemma triple_try {H A B} (I : share H -> Prop) (m : state (share H) (A + error)) (f : A -> state (share H) (B + error)) P Q :
  triple I m (okay P) -> (forall a, P a -> triple I (f a) (okay Q)) -> triple I (try m f) (okay Q).
Proof.
  intros Hm Hf s Hs. unfold try. destruct (m s) as [[a|e] s'] eqn:E; destruct (Hm s Hs) as [Ha Hs'];
    rewrite E in Ha, Hs'; [by apply Hf|done].
Qed.
Lemma triple_weaken {S A} (I : S -> Prop) (m : state S A) (P Q : A -> Prop) :
  triple I m P -> (forall a, P a -> Q a) -> triple I m Q.
Proof. intros Hm H s Hs. destruct (Hm s Hs). auto. Qed.

(** A path or a name is only used where [P] or [E] allows it; [M] is what may be
    asked of [Chmod]. *)
Record host_keeps {H Fd Ent} (R : Root H Fd Ent) (J : H -> Prop) (P E : bytes -> Prop) : Prop := {
  k_Lstat p : P p -> triple J (Lstat R p) any;
  k_Openat2 p : P p -> triple J (Openat2 R p) any;
  k_Statx fd : triple J (Statx R fd) any;
  k_Open p : P p -> triple J (Open_ R p) any;
  k_ReadDirAll fd : triple J (ReadDirAll R fd) (fun r => Forall (fun e => E (ent_name R e)) r.1);
  k_Info e : triple J (ent_Info R e) any;
  k_ReadAt fd c o : triple J (fd_ReadAt R fd c o) any;
  k_Close fd : triple J (fd_Close R fd) any;
  k_Readlink p : P p -> triple J (root_Readlink R p) any;
  k_diskSpace : triple J (diskSpace R) any;
  k_table_io : triple J (table_io R) any;
  k_table_visits m : triple J (table_visits R m) any;
}.

Record host_keeps_writes {H Fd Ent} (R : Root H Fd Ent) (J : H -> Prop) (P : bytes -> Prop) (M : Z -> Prop) : Prop := {
  k_WriteAt fd p o : triple J (fd_WriteAt R fd p o) any;
  k_Truncate fd n : triple J (fd_Truncate R fd n) any;
  k_OpenFile p fl m : P p -> M m -> triple J (OpenFile R p fl m) any;
  k_Chmod p m : P p -> M m -> triple J (root_Chmod R p m) any;
  k_Chtimes p a m : P p -> triple J (root_Chtimes R p a m) any;
  k_Mkdir p m : P p -> M m -> triple J (root_Mkdir R p m) any;
  k_Symlink t p : P p -> triple J (root_Symlink R t p) any;
  k_Remove p : P p -> triple J (root_Remove R p) any;
  k_Rename p q : P p -> P q -> triple J (root_Rename R p q) any;
}.

(** Paths the operations build from paths. *)
Record closed (P E : bytes -> Prop) : Prop := {
  c_root : P [dot];
  c_join d n : P d -> E n -> P (join d n);
  c_Dir d : P d -> P (Dir d);
  c_name n : checkName n = None -> E n;
  c_moved p from to : P p -> P from -> P to -> to <> [dot] -> under p from = true -> P (to ++ drop (length from) p);
}.

Definition names_ok (P : bytes -> Prop) (ns : naming) : Prop :=
  match ns with
  | ByTable o => map_Forall (fun _ p => P p) (PathTable.byID (tbl o))
  | ByCache c => map_Forall (fun _ p => P p) c
  end.

Definition share_ok {H} (J : H -> Prop) (P : bytes -> Prop) (s : share H) : Prop :=
  J (s_host s) /\ names_ok P (names s).

Section keeps.
Context {H Fd Ent : Type} (R : Root H Fd Ent) (printWide : Z -> bool) (cfg : config) (dirs : nat).
Context (J : H -> Prop) (P E : bytes -> Prop) (Hk : host_keeps R J P E) (Hc : closed P E).
Notation I := (share_ok J P).
Definition at_ok (n : node) : Prop := P (n_path n).

Lemma triple_on_host {A} (m : state H A) Q : triple J m Q -> triple I (on_host m) Q.
Proof.
  intros Hm s [Hs Hn]. unfold on_host. destruct (m (s_host s)) as [a h] eqn:Em.
  destruct (Hm (s_host s) Hs) as [Ha Hh]. rewrite Em in Ha, Hh. by split.
Qed.
Lemma triple_mapped {A} (m : state H (A + herr)) : triple J m any -> triple I (mapped m) (okay any).
Proof.
  intros Hm. unfold mapped. eapply triple_bind; [by apply triple_on_host|]. intros [a|e] _; by apply triple_ret.
Qed.
Lemma triple_done_by m : triple J m any -> triple I (done_by m) (okay any).
Proof.
  intros Hm. unfold done_by. eapply triple_bind; [by apply triple_on_host|]. intros [e|] _; by apply triple_ret.
Qed.
Lemma triple_get_names : triple I get_names (names_ok P).
Proof. by intros s [Hs Hn]. Qed.
Lemma triple_set_names ns : names_ok P ns -> triple I (set_names ns) any.
Proof. by intros Hns s [Hs Hn]. Qed.
Lemma triple_fail {A} e (Q : A -> Prop) : triple I (fail_with e) (okay Q).
Proof. by intros s Hs. Qed.
Lemma triple_give {A} (a : A) (Q : A -> Prop) : Q a -> triple I (give a) (okay Q).
Proof. by intros Ha s Hs. Qed.

Lemma triple_generation rel st : P rel -> triple I (generation R rel st) any.
Proof.
  intros Hrel s Hs. split; [done|]. unfold generation. destruct (noBtime s); [done|].
  pose proof (triple_on_host _ _ (k_Openat2 _ _ _ _ Hk rel Hrel) s Hs) as [_ H1].
  destruct (on_host (Openat2 R rel) s) as [[fd|e] s1]; cbn [snd] in H1.
  - pose proof (triple_on_host _ _ (k_Statx _ _ _ _ Hk fd) s1 H1) as [_ H2].
    destruct (on_host (Statx R fd) s1) as [x s2]; cbn [snd] in H2.
    pose proof (triple_on_host _ _ (k_Close _ _ _ _ Hk fd) s2 H2) as [_ H3].
    by destruct (on_host (fd_Close R fd) s2).
  - by case_bool_decide.
Qed.

Lemma names_ok_idFor n rel o : P rel -> names_ok P (ByTable o) -> names_ok P (ByTable (idFor printWide n rel o).2).
Proof.
  intros Hrel Ho. unfold idFor. destruct (byPath (tbl o) !! rel); [done|].
  destruct (emit _ _ _) as [[] f]; [|done]. cbn. by apply map_Forall_insert_2.
Qed.

Lemma triple_name_file rel st : P rel -> triple I (name_file R printWide rel st) (okay any).
Proof.
  intros Hrel. unfold name_file. eapply triple_bind; [apply triple_get_names|]. intros [o|c] Hn.
  - eapply (triple_try _ _ _ any); [|intros; by apply triple_give]. unfold idFor_.
    eapply triple_bind; [apply triple_on_host, (k_table_io _ _ _ _ Hk)|]. intros n _.
    pose proof (names_ok_idFor n rel o Hrel Hn) as Ho. destruct (idFor printWide n rel o) as [r o'].
    eapply triple_bind; [by apply triple_set_names|]. intros _ _. by destruct r; apply triple_ret.
  - eapply triple_bind; [|intros; by apply triple_give].
    apply triple_set_names. cbn. by apply map_Forall_insert_2.
Qed.

Lemma triple_statNode rel : P rel -> triple I (statNode R printWide cfg rel) (okay at_ok).
Proof.
  intros Hrel. unfold statNode, describe.
  eapply triple_try; [by apply triple_mapped, (k_Lstat _ _ _ _ Hk)|]. intros fi _.
  eapply triple_bind; [by apply triple_generation|]. intros g _.
  eapply triple_try; [by apply triple_name_file|]. intros k _. by apply triple_give.
Qed.

Lemma triple_ownDir d (Q : node -> Prop) : Q d -> triple I (ownDir d) (okay Q).
Proof. intros Hd. unfold ownDir. destruct (isDir d); [by apply triple_give|apply triple_fail]. Qed.

(** Branches, sequences and the lemmas above, as far as they go. *)
Ltac op := repeat (cbv zeta; match goal with
  | |- triple _ (try _ _) _ => eapply triple_try; [|intros ? ?]
  | |- triple _ (_ ≫= _) _ => eapply triple_bind; [|intros ? ?]
  | |- triple _ (mret (match ?x with _ => _ end)) _ => destruct x
  | |- triple _ (mret _) _ => apply triple_ret; first [done|cbn [okay]]
  | |- triple _ (fail_with _) _ => apply triple_fail
  | |- triple _ (give _) _ => apply triple_give; try done
  | |- triple _ get_names _ => apply triple_get_names
  | |- triple _ (on_host _) _ => apply triple_on_host
  | |- triple _ (mapped _) _ => apply triple_mapped
  | |- triple _ (done_by _) _ => apply triple_done_by
  | |- triple _ (ownDir _) _ => apply (triple_ownDir _ at_ok); try done
  | |- triple _ (statNode _ _ _ _) _ => apply triple_statNode
  | |- triple _ (match ?x with _ => _ end) _ => destruct x eqn:?
  | |- triple J _ _ => first [by apply (k_Open _ _ _ _ Hk)|apply (k_ReadDirAll _ _ _ _ Hk)|apply (k_Close _ _ _ _ Hk)|
      by apply (k_Lstat _ _ _ _ Hk)|apply (k_Info _ _ _ _ Hk)|apply (k_ReadAt _ _ _ _ Hk)|by apply (k_Readlink _ _ _ _ Hk)|
      apply (k_diskSpace _ _ _ _ Hk)|apply (k_table_visits _ _ _ _ Hk)]
  end).

Lemma triple_mount_parts n parts : at_ok n -> triple I (mount_parts R printWide cfg n parts) (okay at_ok).
Proof.
  revert n. induction parts as [|part parts IH]; intros n Hn; cbn [mount_parts]; op; auto.
  apply (c_join _ _ Hc); [done|by apply (c_name _ _ Hc)].
Qed.

Lemma triple_MountRoot p : triple I (MountRoot R printWide cfg p) (okay at_ok).
Proof. unfold MountRoot. op; [apply (c_root _ _ Hc)|by apply triple_mount_parts]. Qed.

Lemma triple_search_ents k dir ents queue : P dir -> Forall (fun e => E (ent_name R e)) ents -> Forall P queue ->
  triple I (search_ents R printWide cfg k dir ents queue)
    (fun r => match r with inl n => at_ok n | inr q => Forall P q end).
Proof.
  intros Hd He. revert queue. induction He as [|e ents He _ IH]; intros queue Hq; cbn [search_ents]; [op|].
  pose proof (c_join _ _ Hc _ _ Hd He) as Hp.
  assert (Hq' : Forall P (if ent_isdir R e then queue ++ [join dir (ent_name R e)] else queue)).
  { destruct (ent_isdir R e); [|done]. apply Forall_app. split; [done|by apply Forall_singleton]. }
  op; auto.
Qed.

Lemma triple_search_loop fuel k queue : Forall P queue ->
  triple I (search_loop R printWide cfg fuel k queue) (okay at_ok).
Proof.
  revert queue. induction fuel as [|fuel IH]; intros queue Hq; cbn [search_loop];
    (destruct Hq as [|dir queue Hd Hq]; [op|]); [op|].
  eapply triple_bind; [by apply triple_on_host, (k_Open _ _ _ _ Hk)|]. intros [fd|e] _; [|auto].
  eapply triple_bind; [apply triple_on_host, (k_ReadDirAll _ _ _ _ Hk)|]. intros ents He.
  eapply triple_bind; [apply triple_on_host, (k_Close _ _ _ _ Hk)|]. intros _ _.
  eapply triple_bind; [by apply triple_search_ents|]. intros [n|q] Hr; op; auto.
Qed.

Lemma triple_search k : triple I (search R printWide cfg dirs k) (okay at_ok).
Proof.
  unfold search. pose proof (c_root _ _ Hc).
  op; try done; apply triple_search_loop; by apply Forall_singleton.
Qed.

Lemma triple_Handle n : triple I (Handle cfg n) any.
Proof. unfold Handle. op. Qed.

Lemma triple_NodeByHandle fh : triple I (NodeByHandle R printWide cfg dirs fh) (okay at_ok).
Proof.
  unfold NodeByHandle. op; try apply triple_search; try done; cbn in *;
    match goal with Hm : map_Forall _ ?m, Hl : ?m !! _ = Some _ |- _ => exact (Hm _ _ Hl) end.
Qed.

Lemma triple_Lookup d name : at_ok d -> triple I (Lookup R printWide cfg d name) (okay at_ok).
Proof.
  intros Hd. unfold Lookup. op; [done|by apply (c_Dir _ _ Hc)|].
  apply (c_join _ _ Hc); [done|by apply (c_name _ _ Hc)].
Qed.

Lemma triple_stat_entries d nms : P d -> Forall E nms ->
  triple I (stat_entries R printWide cfg d nms) (Forall (fun e => at_ok (ent_Node e))).
Proof.
  intros Hd He. induction He as [|name nms Hn _ IH]; cbn [stat_entries]; op; auto. by apply (c_join _ _ Hc).
Qed.

Lemma triple_ReadDir d : at_ok d ->
  triple I (ReadDir R printWide cfg d) (okay (Forall (fun e => at_ok (ent_Node e)))).
Proof.
  intros Hd. unfold ReadDir. eapply triple_try; [by apply (triple_ownDir _ at_ok)|]. intros d' Hd'.
  eapply triple_try; [by apply triple_mapped, (k_Open _ _ _ _ Hk)|]. intros fd _.
  eapply triple_bind; [apply triple_on_host, (k_ReadDirAll _ _ _ _ Hk)|]. intros ents He.
  eapply triple_bind; [apply triple_on_host, (k_Close _ _ _ _ Hk)|]. intros _ _.
  destruct ents.2 as [e|]; [op|].
  eapply triple_bind; [apply triple_stat_entries; [done|]|].
  - rewrite merge_sort_Permutation. by apply Forall_fmap.
  - intros out Ho. apply triple_give. by rewrite merge_sort_Permutation.
Qed.

Lemma triple_ReadAt n c o : at_ok n -> triple I (ReadAt R n c o) any.
Proof.
  intros Hn. unfold ReadAt. destruct (negb (isReg n)); [op|].
  eapply triple_bind; [by apply triple_mapped, (k_Open _ _ _ _ Hk)|]. intros [fd|e] _; op.
Qed.

Lemma triple_Readlink n : at_ok n -> triple I (Readlink R n) (okay any).
Proof. intros Hn. unfold Readlink. op. Qed.

Lemma triple_Space : triple I (Space R) (okay any).
Proof. unfold Space. op. Qed.

(** ** Changing *)

Context (M : Z -> Prop) (Hw : host_keeps_writes R J P M).
(** Modes the share may ask for. *)
Context (HM : forall m, M (fileMode m)) (Hperm : forall m, M (Z.land m 0x1FF)).

Ltac wr := repeat (op; try match goal with
  | |- triple J _ _ => first [apply (k_WriteAt _ _ _ _ Hw)|apply (k_Truncate _ _ _ _ Hw)|by apply (k_OpenFile _ _ _ _ Hw)|
      by apply (k_Chmod _ _ _ _ Hw)|by apply (k_Chtimes _ _ _ _ Hw)|by apply (k_Mkdir _ _ _ _ Hw)|
      by apply (k_Symlink _ _ _ _ Hw)|by apply (k_Remove _ _ _ _ Hw)|by apply (k_Rename _ _ _ _ Hw)]
  end).

Lemma triple_clearSetuid n : at_ok n -> triple I (clearSetuid R n) any.
Proof. intros Hn. unfold clearSetuid. wr. Qed.

Lemma triple_truncate n size : at_ok n -> triple I (truncate R n size) (okay any).
Proof.
  intros Hn. unfold truncate. op; [apply (k_OpenFile _ _ _ _ Hw); [done|apply (Hperm 0)]|wr; try done..].
  by apply triple_clearSetuid.
Qed.

Lemma triple_SetAttr n a : at_ok n -> triple I (SetAttr R n a) (okay any).
Proof.
  intros Hn. unfold SetAttr. eapply (triple_try _ _ _ any); [|intros _ _].
  { destruct (s_Size a); [by apply triple_truncate|op]. }
  destruct (isLink n); [op|]. eapply (triple_try _ _ _ any); [|intros _ _]; wr.
Qed.

Lemma triple_WriteAt n p off : at_ok n -> triple I (WriteAt R n p off) (okay any).
Proof.
  intros Hn. unfold WriteAt. wr; try done; [by apply (k_OpenFile _ _ _ _ Hw); [|apply (Hperm 0)]|].
  by apply triple_clearSetuid.
Qed.

Lemma join_not_root d name : checkName name = None -> join d name <> [dot].
Proof.
  intros Hn. unfold join. case_bool_decide as Hd.
  - unfold checkName in Hn. intros ->. by vm_compute in Hn.
  - intros Ej. destruct d as [|c [|? ?]]; cbn in Ej; [done| |done].
    injection Ej as _ Ej. by destruct name.
Qed.

Definition below_root (p : bytes) : Prop := P p /\ p <> [dot].

Lemma triple_newEntry d name : at_ok d -> triple I (newEntry d name) (okay below_root).
Proof.
  intros Hd. unfold newEntry. op. split; [|by apply join_not_root].
  apply (c_join _ _ Hc); [done|by apply (c_name _ _ Hc)].
Qed.

Lemma triple_retransmitted rel verf : P rel -> triple I (retransmitted R printWide cfg rel verf) (okay at_ok).
Proof. intros Hr. unfold retransmitted. op; done. Qed.

(** Set what a new file is to have, and look at it again. *)
Lemma triple_settle rel a : P rel ->
  triple I (try (statNode R printWide cfg rel) (fun n =>
    try (SetAttr R n (a n)) (fun _ => statNode R printWide cfg rel))) (okay at_ok).
Proof.
  intros Hr. eapply triple_try; [by apply triple_statNode|]. intros n Hn.
  eapply triple_try; [by apply triple_SetAttr|]. intros _ _. by apply triple_statNode.
Qed.

Lemma triple_create_at rel how a verf : P rel -> triple I (create_at R printWide cfg rel how a verf) (okay at_ok).
Proof.
  intros Hr. unfold create_at. cbv zeta.
  eapply triple_bind; [apply triple_on_host; by apply (k_OpenFile _ _ _ _ Hw)|].
  intros [fd|e] _; [|destruct how; [op..|destruct (hIs e FsExist); [by apply triple_retransmitted|op]]].
  eapply triple_bind; [apply triple_on_host, (k_Close _ _ _ _ Hk)|]. intros _ _.
  by apply (triple_settle rel (fun _ => _)).
Qed.

Lemma triple_Create d name how a verf : at_ok d ->
  triple I (Create R printWide cfg d name how a verf) (okay at_ok).
Proof.
  intros Hd. unfold Create. eapply triple_try; [by apply triple_newEntry|]. intros rel [Hr _].
  destruct how; [|by apply triple_create_at..].
  eapply triple_bind; [by apply triple_statNode|]. intros [n|e] Hn; [|by apply triple_create_at].
  destruct (negb (isReg n)); [op|]. eapply triple_try; [by apply triple_SetAttr|]. intros _ _. op.
Qed.

Lemma triple_Mkdir d name a : at_ok d -> triple I (Mkdir R printWide cfg d name a) (okay at_ok).
Proof.
  intros Hd. unfold Mkdir. eapply triple_try; [by apply triple_newEntry|]. intros rel [Hr _].
  eapply (triple_try _ _ _ any); [apply triple_done_by, (k_Mkdir _ _ _ _ Hw); [done|apply (Hperm 0x1ED)]|].
  intros _ _. by apply (triple_settle rel (fun _ => _)).
Qed.

Lemma triple_Symlink d name target a : at_ok d ->
  triple I (Symlink R printWide cfg d name target a) (okay at_ok).
Proof.
  intros Hd. unfold Symlink. eapply triple_try; [by apply triple_newEntry|]. intros rel [Hr _].
  destruct (_ || _); [op|]. eapply (triple_try _ _ _ any); [wr|]. intros _ _. by apply triple_statNode.
Qed.

Lemma names_ok_remove v rel o : names_ok P (ByTable o) -> names_ok P (ByTable (PathTable.remove v rel o)).
Proof.
  unfold PathTable.remove. revert o. induction v as [|[id n] v IH]; intros o Ho; [done|]. cbn [foldl]. apply IH.
  unfold remove_visit. destruct (byID (tbl o) !! id) as [q|]; [|done]. destruct (under q rel); [|done].
  cbn. by apply map_Forall_delete.
Qed.

Lemma names_ok_move v from to o : P from -> P to -> to <> [dot] -> names_ok P (ByTable o) ->
  names_ok P (ByTable (PathTable.move printWide v from to o)).
Proof.
  intros Hf Ht Hne. unfold PathTable.move. revert o. induction v as [|[id n] v IH]; intros o Ho; [done|].
  cbn [foldl]. apply IH. unfold move_visit. destruct (byID (tbl o) !! id) as [q|] eqn:Eq; [|done].
  destruct (under q from) eqn:Eu; [|done]. cbn. apply map_Forall_insert_2; [|done].
  apply (c_moved _ _ Hc); [exact (Ho _ _ Eq)|done..].
Qed.

Lemma triple_forget rel : triple I (forget R rel) any.
Proof.
  unfold forget. eapply triple_bind; [apply triple_get_names|]. intros [o|c] Hn.
  - eapply triple_bind; [apply triple_on_host, (k_table_visits _ _ _ _ Hk)|]. intros v _.
    apply triple_set_names. by apply names_ok_remove.
  - apply triple_set_names. cbn. intros k p [Hp _]%map_lookup_filter_Some. exact (Hn _ _ Hp).
Qed.

Lemma triple_moved from to : P from -> P to -> to <> [dot] -> triple I (moved R printWide from to) any.
Proof.
  intros Hf Ht Hne. unfold moved. eapply triple_bind; [apply triple_get_names|]. intros [o|c] Hn.
  - eapply triple_bind; [apply triple_on_host, (k_table_visits _ _ _ _ Hk)|]. intros v _.
    apply triple_set_names. by apply names_ok_move.
  - apply triple_set_names. cbn. intros k p. rewrite lookup_fmap. intros (q & Hq & ->)%fmap_Some.
    pose proof (Hn _ _ Hq). destruct (under q from) eqn:Eu; [by apply (c_moved _ _ Hc)|done].
Qed.

Lemma triple_remove_ d name w : at_ok d -> triple I (remove_ R printWide cfg d name w) (okay any).
Proof.
  intros Hd. unfold remove_. eapply triple_try; [by apply triple_newEntry|]. intros rel [Hr _].
  eapply triple_try; [by apply triple_statNode|]. intros n Hn.
  destruct (w && _); [op|]. destruct (_ && isDir n); [op|].
  eapply (triple_try _ _ _ any); [wr|]. intros _ _. eapply triple_bind; [apply triple_forget|]. intros _ _. op.
Qed.

Lemma triple_Rename fd fn td tn : at_ok fd -> at_ok td -> triple I (Rename R printWide fd fn td tn) (okay any).
Proof.
  intros Hf Ht. unfold Rename. eapply triple_try; [by apply triple_newEntry|]. intros from [Hfr _].
  eapply triple_try; [by apply triple_newEntry|]. intros to [Hto Hne].
  eapply (triple_try _ _ _ any); [wr|]. intros _ _. destruct (bool_decide _); [op|].
  eapply triple_bind; [apply triple_forget|]. intros _ _.
  eapply triple_bind; [by apply triple_moved|]. intros _ _. op.
Qed.
End keeps.

(** ** Nothing outside the directory is reached *)

Definition elem_ok (e : bytes) : Prop := name_ok e /\ 0 ∉ e.

(** The root, or names below it, none of them "..". *)
Definition confined (p : bytes) : Prop :=
  p = [dot] \/ exists els, els <> [] /\ Forall elem_ok els /\ p = join_slash els.

Lemma checkName_ok n : checkName n = None -> elem_ok n.
Proof.
  unfold checkName. intros Hn.
  repeat (case_bool_decide; cbn [orb] in Hn; [done|]). by repeat split.
Qed.

Lemma elems_names els : Forall elem_ok els -> Forall name_ok els.
Proof. intros H. eapply Forall_impl; [exact H|by intros e [? _]]. Qed.

Lemma join_confined d n : confined d -> elem_ok n -> confined (join d n).
Proof.
  intros Hd Hn. right. unfold join. case_bool_decide as E.
  { exists [n]. split_and!; [done|by apply Forall_singleton|done]. }
  destruct Hd as [|(els & Hne & Hf & ->)]; [done|]. exists (els ++ [n]). split_and!.
  - by destruct els.
  - apply Forall_app. split; [done|by apply Forall_singleton].
  - by rewrite join_slash_snoc.
Qed.

Lemma Dir_confined d : confined d -> confined (Dir d).
Proof.
  intros [->|(els & Hne & Hf & ->)]; [by left|]. destruct (exists_last Hne) as (els' & e & ->).
  apply Forall_app in Hf as [Hf He]. rewrite Forall_singleton in He.
  rewrite Dir_names by first [by apply elems_names|apply He]. case_bool_decide; [by left|].
  right. by exists els'.
Qed.

Lemma moved_confined p from to : confined p -> confined from -> confined to -> to <> [dot] ->
  under p from = true -> confined (to ++ drop (length from) p).
Proof.
  intros Hp Hf Ht Hne Hu. apply under_split in Hu as (r & -> & Hr). rewrite drop_app_length.
  destruct Ht as [|(tels & Htn & Htf & ->)]; [done|].
  destruct Hr as [->|Hr]; [rewrite app_nil_r; right; by exists tels|].
  destruct r as [|c r]; [done|]. injection Hr as ->.
  destruct Hp as [Hp|(els & Hen & Hef & Hp)].
  { exfalso. destruct Hf as [->|(fels & Hfn & Hff & ->)]; [done|].
    pose proof (join_slash_not_nil fels Hfn (elems_names _ Hff)).
    apply (f_equal length) in Hp. rewrite length_app in Hp. cbn in Hp. destruct (join_slash fels); [done|cbn in Hp; lia]. }
  assert (Hsplit : Forall elem_ok (split_byte slash r)).
  { apply (f_equal (split_byte slash)) in Hp. rewrite split_join in Hp; [|done|by apply names_no_slash, elems_names].
    destruct Hf as [->|(fels & Hfn & Hff & ->)].
    - exfalso. change (split_byte slash ([dot] ++ slash :: r)) with ([dot] :: split_byte slash r) in Hp.
      rewrite <- Hp in Hef. by inv Hef as [|? ? [(_ & Hd & _) _] _].
    - rewrite split_join_app in Hp by (done || by apply names_no_slash, elems_names).
      rewrite <- Hp in Hef. by apply Forall_app in Hef as [_ ?]. }
  right. exists (tels ++ split_byte slash r). split_and!.
  - by destruct tels.
  - by apply Forall_app.
  - rewrite join_slash_app by (done || apply split_not_nil). by rewrite join_split.
Qed.

Lemma confined_closed : closed confined elem_ok.
Proof.
  split; [by left|apply join_confined|apply Dir_confined|apply checkName_ok|apply moved_confined].
Qed.

Lemma any_closed : closed any any.
Proof. by split. Qed.

(** ** What is asked of the host, recorded *)

(** A call with a path, and the mode it asks for if it asks for one. *)
Record access := MkAccess { ac_path : bytes; ac_mode : option Z }.

Definition ModeSetuid : Z := 23.

(** Nothing is asked for outside the directory, and no mode with the setuid bit. *)
Definition proper_access (a : access) : Prop :=
  confined (ac_path a) /\ (forall m, ac_mode a = Some m -> Z.testbit m ModeSetuid = false).

Section logged.
Context {H Fd Ent : Type} (R : Root H Fd Ent).

Definition log {A} (accs : list access) (m : state H A) : state (H * list access) A := fun '(h, l) =>
  let '(a, h) := m h in (a, (h, accs ++ l)).
Definition at_path (p : bytes) : list access := [MkAccess p None].
Definition with_mode (p : bytes) (m : Z) : list access := [MkAccess p (Some m)].

(** The host, writing down what it is asked. *)
Definition logged : Root (H * list access) Fd Ent := {|
  Lstat p := log (at_path p) (Lstat R p);
  Openat2 p := log (at_path p) (Openat2 R p);
  Statx fd := log [] (Statx R fd);
  Open_ p := log (at_path p) (Open_ R p);
  ReadDirAll fd := log [] (ReadDirAll R fd);
  ent_name := ent_name R;
  ent_isdir := ent_isdir R;
  ent_Info e := log [] (ent_Info R e);
  fd_ReadAt fd c o := log [] (fd_ReadAt R fd c o);
  fd_WriteAt fd p o := log [] (fd_WriteAt R fd p o);
  fd_Truncate fd n := log [] (fd_Truncate R fd n);
  fd_Close fd := log [] (fd_Close R fd);
  OpenFile p fl m := log (with_mode p m) (OpenFile R p fl m);
  root_Readlink p := log (at_path p) (root_Readlink R p);
  root_Chmod p m := log (with_mode p m) (root_Chmod R p m);
  root_Chtimes p a m := log (at_path p) (root_Chtimes R p a m);
  root_Mkdir p m := log (with_mode p m) (root_Mkdir R p m);
  root_Symlink t p := log (at_path p) (root_Symlink R t p);
  root_Remove p := log (at_path p) (root_Remove R p);
  root_Rename p q := log (at_path p ++ at_path q) (root_Rename R p q);
  diskSpace := log [] (diskSpace R);
  table_io := log [] (table_io R);
  table_visits m := log [] (table_visits R m);
|}.

Definition log_ok (s : H * list access) : Prop := Forall proper_access s.2.

(** The names a directory lists are names. *)
Definition lists_names : Prop := forall fd h, Forall (fun e => elem_ok (ent_name R e)) (fst (ReadDirAll R fd h)).1.

Lemma triple_log {A} accs (m : state H A) Q : Forall proper_access accs -> (forall h, Q (fst (m h))) ->
  triple log_ok (log accs m) Q.
Proof.
  intros Ha Hq [h l] Hl. unfold log. specialize (Hq h). destruct (m h) as [a h'].
  split; [done|]. by apply Forall_app.
Qed.

Lemma at_path_ok p : confined p -> Forall proper_access (at_path p).
Proof. intros Hp. by apply Forall_singleton. Qed.

Lemma with_mode_ok p m : confined p -> Z.testbit m ModeSetuid = false -> Forall proper_access (with_mode p m).
Proof. intros Hp Hm. apply Forall_singleton. split; [done|]. by intros ? [= <-]. Qed.

Lemma fileMode_no_setuid m : Z.testbit (fileMode m) ModeSetuid = false.
Proof.
  assert (Hl : Z.testbit (Z.land m 0x1FF) ModeSetuid = false) by (rewrite Z.land_spec; by rewrite andb_comm).
  unfold fileMode. destruct (negb (Z.land m 0x400 =? 0)), (negb (Z.land m 0x200 =? 0)); rewrite ?Z.lor_spec, Hl; done.
Qed.

Lemma perm_no_setuid m : Z.testbit (Z.land m 0x1FF) ModeSetuid = false.
Proof. rewrite Z.land_spec. by rewrite andb_comm. Qed.

Lemma logged_keeps : lists_names -> host_keeps logged log_ok confined elem_ok.
Proof.
  intros Hn. split; intros; apply triple_log; try done; try by apply at_path_ok; try by constructor.
Qed.

Lemma logged_keeps_writes : host_keeps_writes logged log_ok confined (fun m => Z.testbit m ModeSetuid = false).
Proof.
  split; intros; apply triple_log; try done; try by constructor.
  all: try by apply at_path_ok. all: try by apply with_mode_ok.
  apply Forall_app. split; by apply at_path_ok.
Qed.
End logged.

(** ** A share is an export *)

Lemma zlen_Handle {H} cfg n (s : share H) : zlen (fst (Handle cfg n s)) = 32.
Proof.
  unfold Handle, mbind, state_bind, get_names, mret, state_ret. cbn [fst]. by rewrite !zlen_app, !zlen_be_enc.
Qed.

(** What the server relies on, when the host's reads leave [view] of it alone and
    give at most what they are asked for. *)
Section laws.
Context {H Fd Ent V : Type} (R : Root H Fd Ent) (printWide : Z -> bool) (cfg : config) (dirs : nat) (view : H -> V).

Class ReadsKeep := {
  rk_keeps : forall v, host_keeps R (fun h => view h = v) any any;
  rk_read : forall fd c o h, 0 <= c -> zlen (fst (fst (fd_ReadAt R fd c o h))) <= c;
}.

Context `{!ReadsKeep}.

Lemma keeps_view {A} (m : state (share H) A) Q s :
  (forall v, triple (share_ok (fun h => view h = v) any) m Q) -> view (s_host (snd (m s))) = view (s_host s).
Proof.
  intros Hm. destruct (Hm (view (s_host s)) s) as [_ [Hv _]]; [|done]. split; [done|].
  destruct (names s); cbn; by intros ? ? ?.
Qed.

Notation SFS := (share_FS R printWide cfg dirs).

#[export] Instance share_laws : FSLaws SFS (fun s => view (s_host s)).
Proof.
  pose proof any_closed as Hc. pose proof rk_keeps as Hk.
  split; try (intros h ? ? [= <-]); try (intros sp ? [= <-]).
  - intros p s. eapply keeps_view. intros v. by eapply triple_MountRoot.
  - done.
  - intros d n s. eapply keeps_view. intros v. by eapply triple_Lookup.
  - intros d s. eapply keeps_view. intros v. by eapply triple_ReadDir.
  - intros n c o s. eapply keeps_view. intros v. by eapply triple_ReadAt.
  - intros n s. eapply keeps_view. intros v. by eapply triple_Readlink.
  - eapply keeps_view. intros v. by eapply triple_Handle.
  - eapply keeps_view. intros v. by eapply triple_NodeByHandle.
  - eapply keeps_view. intros v. by eapply triple_Space.
  - apply zlen_Handle.
  - intros n c o s Hz. cbn [Nfs.ReadAt share_FS]. unfold ReadAt.
    destruct (negb (isReg n)); [done|]. unfold mapped, on_host, mbind, state_bind, mret, state_ret.
    destruct (Open_ R (n_path n) (s_host s)) as [[fd|e] h]; cbn [s_host]; [|done].
    pose proof (rk_read fd c o h Hz) as Hr. destruct (fd_ReadAt R fd c o h) as [[d e] h1]; cbn [s_host].
    by destruct (fd_Close R fd h1).
Qed.
End laws.
