(* ===== verification/Handles.v ===== *)
(** The file a handle of a share names ([internal/sharefs/sharefs.go]): a handle
    finds the file with its device, inode and birth time wherever it is in the
    share, whatever the cache remembers, and is stale when there is none. *)
From S2P Require Import Prelude Text Path PathTable Xdr Nfs Sharefs.

(** ** A host that nobody else changes

    What reading tells is a function of [view], which reading leaves alone:
    [lstat] what [Lstat] says of a path, [statx] what its descriptor does, and
    [entries] what is in a directory, nothing for a path that cannot be
    opened. *)
Record tree_view (V Ent : Type) := MkTreeView {
  lstat : V -> bytes -> FileInfo + herr;
  statx : V -> bytes -> option Statx_t;
  entries : V -> bytes -> list Ent;
}.
Arguments lstat {V Ent} t.
Arguments statx {V Ent} t.
Arguments entries {V Ent} t.

Class Quiet {H Fd Ent V : Type} (R : Root H Fd Ent) (view : H -> V) (T : tree_view V Ent) := {
  q_Lstat p h : Lstat R p h = (lstat T (view h) p, snd (Lstat R p h)) /\ view (snd (Lstat R p h)) = view h;
  q_statx p h : match Openat2 R p h with
    | (inl fd, h1) => view h1 = view h /\
        forall h2, view h2 = view h -> fst (Statx R fd h2) = statx T (view h) p
    | (inr e, h1) => view h1 = view h /\ e <> ENOSYS /\ statx T (view h) p = None
    end;
  q_Statx fd h : view (snd (Statx R fd h)) = view h;
  q_entries p h : match Open_ R p h with
    | (inl fd, h1) => view h1 = view h /\
        forall h2, view h2 = view h -> (fst (ReadDirAll R fd h2)).1 = entries T (view h) p
    | (inr e, h1) => view h1 = view h /\ entries T (view h) p = []
    end;
  q_ReadDirAll fd h : view (snd (ReadDirAll R fd h)) = view h;
  q_Close fd h : view (snd (fd_Close R fd h)) = view h;
  q_Info e h : view (snd (ent_Info R e h)) = view h;
  q_entry p e h : e ∈ entries T (view h) p ->
    fst (ent_Info R e h) = lstat T (view h) (join p (ent_name R e));
  q_sys v p fi : lstat T v p = inl fi -> fi_sys fi <> None;
}.

Section handles.
Context {H Fd Ent V : Type} (R : Root H Fd Ent) (view : H -> V) (T : tree_view V Ent) `{!Quiet R view T}.
Context (printWide : Z -> bool) (cfg : config) (dirs : nat) (v : V).

(** The file at a path, as the share describes it. *)
Definition birth (rel : bytes) (st : stat) : Z :=
  match statx T v rel with
  | Some (MkStatx i (Some (sec, nsec))) => if negb (i =? ino st) then 0 else u64 (u64 (u64 sec * 1000000000) + nsec)
  | _ => 0
  end.

Definition look (rel : bytes) : node + error :=
  match lstat T v rel with
  | inl fi =>
      let st := with_gen (fileStat fi) (birth rel (fileStat fi)) in
      inl (shown cfg rel st (MkKey (dev st) (ino st) (gen st)))
  | inr e => inr (mapErr e)
  end.

(** A file that is there, with the key. *)
Definition named (n : node) (k : key) : Prop := look (n_path n) = inl n /\ n_key n = k.

Lemma look_named rel n : look rel = inl n -> named n (n_key n).
Proof.
  intros Hl. split; [|done]. enough (n_path n = rel) as -> by done. unfold look in Hl.
  destruct (lstat T v rel); [|done]. by apply (inj inl) in Hl as <-.
Qed.

Definition has_key (rel : bytes) (k : key) : Prop := exists n, look rel = inl n /\ n_key n = k.

(** A share that names files by inode, on a host as [v] shows it. *)
Definition quiet (s : share H) : Prop :=
  view (s_host s) = v /\ noBtime s = false /\ exists c, names s = ByCache c.

Lemma quiet_host h ns : view h = v -> quiet (MkShare h false (ByCache ns)).
Proof. intros Hv. repeat split; [done|by eexists]. Qed.

Lemma generation_quiet rel st s : quiet s ->
  exists s', generation R rel st s = (birth rel st, s') /\ quiet s'.
Proof.
  intros (Hv & Hb & c & Hc). unfold generation, birth, on_host. rewrite Hb, Hc.
  pose proof (q_statx rel (s_host s)) as Hq. destruct (Openat2 R rel (s_host s)) as [[fd|e] h1].
  - destruct Hq as [Hv1 Hx]. cbn [s_host noBtime names]. specialize (Hx h1 Hv1).
    pose proof (q_Statx fd h1) as Hs. destruct (Statx R fd h1) as [x h2]. cbn [fst snd s_host noBtime names] in *.
    pose proof (q_Close fd h2) as Hcl. destruct (fd_Close R fd h2) as [u h3]. cbn [fst snd] in *.
    eexists. split; [by rewrite Hx, Hv|]. apply quiet_host. congruence.
  - destruct Hq as (Hv1 & He & Hx). rewrite Hv in Hx. rewrite Hx, bool_decide_false by done.
    eexists. split; [done|]. apply quiet_host. congruence.
Qed.

Lemma statNode_quiet rel s : quiet s ->
  exists s', statNode R printWide cfg rel s = (look rel, s') /\ quiet s'.
Proof.
  intros (Hv & Hb & c & Hc). unfold statNode, look, try, mapped, mbind, state_bind, mret, state_ret, on_host.
  destruct (q_Lstat rel (s_host s)) as [He Hv1]. rewrite He, Hv, Hb, Hc. clear He.
  destruct (lstat T v rel) as [fi|e]; [|eexists; split; [done|]; apply quiet_host; congruence].
  destruct (generation_quiet rel (fileStat fi) (MkShare (snd (Lstat R rel (s_host s))) false (ByCache c)))
    as (s2 & -> & Hv2 & Hb2 & c2 & Hc2); [apply quiet_host; congruence|].
  unfold describe, name_file, try, get_names, set_names, give, mbind, state_bind, mret, state_ret. rewrite Hc2.
  eexists. split; [done|]. rewrite Hb2. by apply quiet_host.
Qed.

(** ** Searching *)

Definition subdirs (dir : bytes) : list bytes :=
  (fun e => join dir (ent_name R e)) <$> filter (fun e => ent_isdir R e = true) (entries T v dir).

(** What a search below a directory can come to. *)
Inductive below : bytes -> bytes -> Prop :=
| below_here dir e : e ∈ entries T v dir -> below dir (join dir (ent_name R e))
| below_deeper dir sub rel : sub ∈ subdirs dir -> below sub rel -> below dir rel.

(** No more than [d] directories below one another; how many there are. *)
Fixpoint shallow (d : nat) (dir : bytes) : Prop :=
  match d with
  | O => subdirs dir = []
  | S d => Forall (shallow d) (subdirs dir)
  end.

Fixpoint count (d : nat) (dir : bytes) : nat :=
  S match d with O => O | S d => sum_list_with (count d) (subdirs dir) end.

Lemma shallow_S d dir : shallow d dir -> shallow (S d) dir.
Proof.
  revert dir. induction d as [|d IH]; intros dir Hd; cbn [shallow] in *; [by rewrite Hd|].
  eapply Forall_impl; [exact Hd|apply IH].
Qed.

Lemma count_S d dir : shallow d dir -> count (S d) dir = count d dir.
Proof.
  revert dir. induction d as [|d IH]; intros dir Hd; cbn [shallow] in Hd.
  - cbn. by rewrite Hd.
  - change (count (S (S d)) dir) with (S (sum_list_with (count (S d)) (subdirs dir))).
    change (count (S d) dir) with (S (sum_list_with (count d) (subdirs dir))). f_equal.
    induction Hd as [|x xs Hx _ IHx]; [done|]. cbn [sum_list_with]. by rewrite IH, IHx.
Qed.

Definition total (d : nat) (queue : list bytes) : nat := sum_list_with (count d) queue.

Lemma total_queue_app d q q' : total d (q ++ q') = (total d q + total d q')%nat.
Proof. apply sum_list_with_app. Qed.

(** Expanding a directory trades it for the ones in it. *)
Lemma count_subdirs d dir : shallow d dir -> count d dir = S (total d (subdirs dir)) /\ Forall (shallow d) (subdirs dir).
Proof.
  intros Hd. rewrite <- (count_S d dir Hd).
  split; [done|]. destruct d as [|d]; cbn [shallow] in Hd; [by rewrite Hd|].
  eapply Forall_impl; [exact Hd|apply shallow_S].
Qed.

(** Everything below is below one of the entries, or among them. *)
Lemma below_inv dir rel : below dir rel ->
  rel ∈ ((fun e => join dir (ent_name R e)) <$> entries T v dir) \/ exists sub, sub ∈ subdirs dir /\ below sub rel.
Proof.
  intros Hb. destruct Hb as [dir e He|dir sub rel Hs Hb]; [left|right; eauto].
  apply list_elem_of_fmap. eauto.
Qed.

Definition absent (queue : list bytes) (k : key) : Prop :=
  forall q rel, q ∈ queue -> below q rel -> ~ has_key rel k.

Lemma sameInode_key rel k fi : lstat T v rel = inl fi -> has_key rel k -> sameInode fi k = true.
Proof.
  intros Hl (n & Hn & <-). unfold look in Hn. rewrite Hl in Hn. apply (inj inl) in Hn. subst n.
  pose proof (q_sys v rel fi Hl) as Hs. unfold sameInode. destruct (fi_sys fi) as [s|] eqn:Es; [|done].
  unfold fileStat. rewrite Es. cbn. by rewrite !Z.eqb_refl.
Qed.

Lemma search_ents_quiet k dir ents queue s : quiet s -> Forall (fun e => e ∈ entries T v dir) ents ->
  exists r s', search_ents R printWide cfg k dir ents queue s = (r, s') /\ quiet s' /\
    match r with
    | inl n => named n k
    | inr q => q = queue ++ ((fun e => join dir (ent_name R e)) <$> filter (fun e => ent_isdir R e = true) ents) /\
        Forall (fun e => ~ has_key (join dir (ent_name R e)) k) ents
    end.
Proof.
  intros Hs He. revert queue s Hs. induction He as [|e ents He _ IH]; intros queue s Hs.
  { exists (inr queue), s. do 2 (split; [done|]). split; [by rewrite app_nil_r|constructor]. }
  cbn [search_ents]. set (rel := join dir (ent_name R e)).
  unfold mbind, state_bind. unfold on_host at 1. pose proof Hs as (Hv & Hb & c & Hc).
  pose proof (q_Info e (s_host s)) as Hi. rewrite <- Hv in He. pose proof (q_entry dir e (s_host s) He) as Hei.
  rewrite Hv in Hei. fold rel in Hei. destruct (ent_Info R e (s_host s)) as [info h1]. cbn [fst snd] in Hi, Hei. subst info.
  rewrite Hb, Hc. assert (Hs1 : quiet (MkShare h1 false (ByCache c))) by (apply quiet_host; congruence).
  set (queue' := if ent_isdir R e then queue ++ [rel] else queue).
  assert (Hskip : ~ has_key rel k -> forall s, quiet s -> exists r s',
    search_ents R printWide cfg k dir ents queue' s = (r, s') /\ quiet s' /\
    match r with
    | inl n => named n k
    | inr q => q = queue ++ ((fun e => join dir (ent_name R e)) <$> filter (fun e => ent_isdir R e = true) (e :: ents)) /\
        Forall (fun e => ~ has_key (join dir (ent_name R e)) k) (e :: ents)
    end).
  { intros Hno s' Hs'. destruct (IH queue' s' Hs') as (r & s'' & -> & Hq & Hr). exists r, s''.
    do 2 (split; [done|]). destruct r as [n|q]; [done|]. destruct Hr as [-> Hall]. split; [|by constructor].
    subst queue'. rewrite filter_cons. destruct (ent_isdir R e); [rewrite decide_True by done|rewrite decide_False by done].
    - cbn [fmap list_fmap]. by rewrite <- app_assoc.
    - done. }
  destruct (lstat T v rel) as [fi|er] eqn:El.
  - destruct (sameInode fi k) eqn:Esame.
    + destruct (statNode_quiet rel _ Hs1) as (s2 & Est & Hs2). unfold mbind, state_bind. rewrite Est.
      destruct (look rel) as [n|er] eqn:Elook.
      * case_bool_decide as Hk; [exists (inl n), s2; subst k; do 2 (split; [done|]); by eapply look_named|].
        apply Hskip; [|done]. intros (n' & Hn' & Hk'). congruence.
      * apply Hskip; [|done]. intros (n' & Hn' & _). congruence.
    + apply Hskip; [|done]. intros Hk. by rewrite (sameInode_key rel k fi El Hk) in Esame.
  - apply Hskip; [|done]. intros (n & Hn & _). unfold look in Hn. by rewrite El in Hn.
Qed.

Lemma absent_cons dir queue k : Forall (fun e => ~ has_key (join dir (ent_name R e)) k) (entries T v dir) ->
  absent (queue ++ subdirs dir) k -> absent (dir :: queue) k.
Proof.
  intros He Ha q rel [->|Hq]%elem_of_cons Hb.
  - apply below_inv in Hb as [Hb|(sub & Hs & Hb)].
    + apply list_elem_of_fmap in Hb as (e & -> & Hin). by rewrite Forall_forall in He; apply He.
    + apply (Ha sub rel); [|done]. apply elem_of_app. by right.
  - apply (Ha q rel); [|done]. apply elem_of_app. by left.
Qed.

Lemma search_loop_quiet fuel d k queue s : quiet s -> Forall (shallow d) queue -> (total d queue <= fuel)%nat ->
  exists r s', search_loop R printWide cfg fuel k queue s = (r, s') /\ quiet s' /\
    match r with inl n => named n k | inr e => e = only ErrStale /\ absent queue k end.
Proof.
  revert queue s. induction fuel as [|fuel IH]; intros queue s Hs Hq Hf.
  all: destruct queue as [|dir queue];
    [exists (inr (only ErrStale)), s; do 2 (split; [done|]); split; [done|]; by intros q rel Hin%not_elem_of_nil|].
  { exfalso. unfold total in Hf. cbn [sum_list_with] in Hf. destruct d; cbn in Hf; lia. }
  inv Hq as [|? ? Hd Hq']. destruct (count_subdirs d dir Hd) as [Hn Hsub].
  unfold total in Hf. cbn [sum_list_with] in Hf. fold (total d queue) in Hf.
  cbn [search_loop]. unfold mbind, state_bind. unfold on_host at 1. pose proof Hs as (Hv & Hb & c & Hc).
  pose proof (q_entries dir (s_host s)) as Ho. destruct (Open_ R dir (s_host s)) as [[fd|e] h1]; rewrite Hb, Hc.
  - destruct Ho as [Hv1 Ho]. specialize (Ho h1 Hv1). unfold on_host. cbn [s_host noBtime names].
    pose proof (q_ReadDirAll fd h1) as Hr. destruct (ReadDirAll R fd h1) as [ents h2]. cbn [fst snd s_host noBtime names] in *.
    pose proof (q_Close fd h2) as Hcl. destruct (fd_Close R fd h2) as [u h3]. cbn [fst snd] in Hcl.
    assert (Hs3 : quiet (MkShare h3 false (ByCache c))) by (apply quiet_host; congruence).
    rewrite Hv in Ho. destruct (search_ents_quiet k dir ents.1 queue _ Hs3) as (r & s4 & -> & Hs4 & Hres).
    { rewrite Ho. by apply Forall_forall. }
    destruct r as [n|q]; [by exists (inl n), s4|]. destruct Hres as [-> Habs]. rewrite Ho in *. fold (subdirs dir).
    destruct (IH (queue ++ subdirs dir) s4 Hs4) as (r & s5 & -> & Hs5 & Hr5).
    { by apply Forall_app. }
    { rewrite total_queue_app. lia. }
    exists r, s5. do 2 (split; [done|]). destruct r as [n|e]; [done|]. destruct Hr5 as [-> Ha].
    split; [done|]. by apply absent_cons.
  - destruct Ho as [Hv1 Ho]. rewrite Hv in Ho.
    destruct (IH queue (MkShare h1 false (ByCache c))) as (r & s5 & -> & Hs5 & Hr5);
      [apply quiet_host; congruence|done|lia|].
    exists r, s5. do 2 (split; [done|]). destruct r as [n|e']; [done|]. destruct Hr5 as [-> Ha].
    split; [done|]. apply absent_cons; [rewrite Ho; constructor|].
    unfold subdirs. by rewrite Ho, app_nil_r.
Qed.

(** ** Handles *)

Definition key_fits (k : key) : Prop :=
  0 <= k_dev k < 2 ^ 64 /\ 0 <= k_ino k < 2 ^ 64 /\ 0 <= k_gen k < 2 ^ 64.

(** The handle of a key. *)
Definition handle_of (format : Z) (k : key) : bytes :=
  [format; 0; 0; 0] ++ be_enc 4 (exportID cfg) ++ be_enc 8 (k_dev k) ++ be_enc 8 (k_ino k) ++ be_enc 8 (k_gen k).

Lemma Handle_of n (s : share H) : fst (Handle cfg n s) = handle_of (handle_format (names s)) (n_key n).
Proof. done. Qed.

Lemma zlen_handle_of f k : zlen (handle_of f k) = 32.
Proof. unfold handle_of. by rewrite !zlen_app, !zlen_be_enc. Qed.

Lemma handle_of_key f k : key_fits k -> handle_key (handle_of f k) = k.
Proof.
  intros (Hd & Hi & Hg). unfold handle_key, handle_of, get_u64. destruct k as [kd ki kg]. cbn [k_dev k_ino k_gen] in *.
  rewrite !app_assoc. 
  assert (Hw : forall pre z post, 0 <= z < 2 ^ 64 -> be (sub (pre ++ be_enc 8 z ++ post) (zlen pre) 8) = z).
  { intros pre z post Hz. rewrite sub_app_r by lia. rewrite Z.sub_diag. rewrite sub_app_l by done.
    rewrite be_be_enc. by apply Z.mod_small. }
  f_equal.
  - rewrite <- !app_assoc. rewrite (app_assoc [f; 0; 0; 0]). by apply (Hw ([f; 0; 0; 0] ++ be_enc 4 (exportID cfg)) kd).
  - rewrite <- !(app_assoc _ (be_enc 8 ki)). by apply (Hw (([f; 0; 0; 0] ++ be_enc 4 (exportID cfg)) ++ be_enc 8 kd) ki).
  - rewrite <- (app_nil_r (be_enc 8 kg)).
    by apply (Hw ((([f; 0; 0; 0] ++ be_enc 4 (exportID cfg)) ++ be_enc 8 kd) ++ be_enc 8 ki) kg []).
Qed.

(** The answer is a file with the key, or that there is none. *)
Definition settled (k : key) (r : node + error) : Prop :=
  match r with
  | inl n => named n k
  | inr e => e = only ErrStale /\ forall rel, rel = [dot] \/ below [dot] rel -> ~ has_key rel k
  end.

Lemma search_quiet d k s : quiet s -> shallow d [dot] -> (count d [dot] <= dirs)%nat ->
  exists r s', search R printWide cfg dirs k s = (r, s') /\ quiet s' /\ settled k r.
Proof.
  intros Hs Hd Hn. unfold search, mbind, state_bind.
  destruct (statNode_quiet [dot] s Hs) as (s1 & -> & Hs1).
  assert (Hloop : ~ has_key [dot] k ->
    exists r s', search_loop R printWide cfg dirs k [[dot]] s1 = (r, s') /\ quiet s' /\ settled k r).
  { intros Hroot. destruct (search_loop_quiet dirs d k [[dot]] s1 Hs1) as (r & s2 & -> & Hs2 & Hr).
    - by apply Forall_singleton.
    - unfold total. cbn [sum_list_with]. lia.
    - exists r, s2. do 2 (split; [done|]). destruct r as [n|e]; [done|]. destruct Hr as [-> Ha].
      split; [done|]. intros rel [->|Hb]; [done|]. apply (Ha [dot]); [by apply list_elem_of_singleton|done]. }
  destruct (look [dot]) as [n|e] eqn:El.
  - case_bool_decide as E; [|apply Hloop; intros (n' & ? & ?); congruence].
    exists (inl n), s1. subst k. do 2 (split; [done|]). by eapply look_named.
  - apply Hloop. intros (n' & ? & _). congruence.
Qed.

Lemma handle_id f k : 0 <= exportID cfg < 2 ^ 32 -> get_u32 (handle_of f k) 4 = exportID cfg.
Proof.
  intros He. unfold get_u32, handle_of. rewrite sub_app_r by done. change (4 - zlen [f; 0; 0; 0]) with 0.
  rewrite sub_app_l by done. rewrite be_be_enc. by apply Z.mod_small.
Qed.

(** A well-formed handle of this share passes the checks. *)
Lemma NodeByHandle_of k s : 0 <= exportID cfg < 2 ^ 32 -> key_fits k ->
  NodeByHandle R printWide cfg dirs (handle_of (handle_format (names s)) k) s =
    match names s with
    | ByTable o =>
        match PathTable.path (k_ino k) o with
        | None => fail_with ErrStale s
        | Some rel =>
            let '(r, s) := statNode R printWide cfg rel s in
            (match r with inr e => if Is e ErrNotFound then inr (only ErrStale) else inr e | inl n => inl n end, s)
        end
    | ByCache c =>
        match c !! k with
        | None => search R printWide cfg dirs k s
        | Some rel =>
            let '(r, s) := statNode R printWide cfg rel s in
            match r with
            | inl n => if bool_decide (n_key n = k) then (inl n, s) else search R printWide cfg dirs k s
            | inr _ => search R printWide cfg dirs k s
            end
        end
    end.
Proof.
  intros He Hk. unfold NodeByHandle, mbind, state_bind, get_names.
  rewrite zlen_handle_of, handle_of_key, handle_id by done.
  assert (Hf : at_ (handle_of (handle_format (names s)) k) 0 = handle_format (names s)) by done. rewrite Hf.
  change (at_ (handle_of ?f k) 1) with 0. change (at_ (handle_of ?f k) 2) with 0. change (at_ (handle_of ?f k) 3) with 0.
  destruct (names s) as [o|c]; rewrite !Z.eqb_refl; cbn [negb orb andb handle_format].
  - change (32 =? 32) with true. change (Z.lor (Z.lor 0 0) 0 =? 0) with true. change (fmtTable =? fmtInode) with false. cbn [negb orb andb].
    destruct (PathTable.path (k_ino k) o) as [rel|]; [|done].
    destruct (statNode R printWide cfg rel s) as [[n|e] s']; [done|]. by destruct (Is e ErrNotFound).
  - change (32 =? 32) with true. change (Z.lor (Z.lor 0 0) 0 =? 0) with true. cbn [negb orb andb].
    destruct (c !! k) as [rel|]; [|done].
    destruct (statNode R printWide cfg rel s) as [[n|e] s']; [|done]. by case_bool_decide.
Qed.

(** C25. A handle issued for a file finds a file with the same device, inode and birth
    time, wherever in the share that is now and whatever the cache of paths says
    - it may be empty, after a restart, or wrong - and is stale exactly when there
    is none; [search] never gives up early. *)
Theorem handle_finds k s d : 0 <= exportID cfg < 2 ^ 32 -> key_fits k -> quiet s ->
  shallow d [dot] -> (count d [dot] <= dirs)%nat ->
  exists r s', NodeByHandle R printWide cfg dirs (handle_of fmtInode k) s = (r, s') /\ quiet s' /\ settled k r.
Proof.
  intros He Hk Hs Hd Hn. pose proof Hs as (Hv & Hb & c & Hc).
  pose proof (NodeByHandle_of k s He Hk) as Hh. rewrite Hc in Hh. cbn [handle_format] in Hh. rewrite Hh.
  destruct (c !! k) as [rel|]; [|by eapply search_quiet].
  destruct (statNode_quiet rel s Hs) as (s1 & -> & Hs1).
  destruct (look rel) as [n|e] eqn:El; [|by eapply search_quiet].
  case_bool_decide as E; [|by eapply search_quiet].
  exists (inl n), s1. subst k. do 2 (split; [done|]). by eapply look_named.
Qed.

(** ** Listing *)

(** The entry of a name, if there still is a file by it. *)
Definition listed (dir name : bytes) : option (DirEntry node) :=
  match look (join dir name) with inl n => Some (MkDirEntry name n (cookie name)) | inr _ => None end.

Lemma stat_entries_quiet dir nms s : quiet s ->
  exists s', stat_entries R printWide cfg dir nms s = (omap (listed dir) nms, s') /\ quiet s'.
Proof.
  revert s. induction nms as [|name nms IH]; intros s Hs; [by exists s|].
  cbn [stat_entries omap list_omap]. unfold mbind, state_bind, mret, state_ret.
  destruct (statNode_quiet (join dir name) s Hs) as (s1 & -> & Hs1). destruct (IH s1 Hs1) as (s2 & -> & Hs2).
  exists s2. split; [|done].
  assert (El : listed dir name = match look (join dir name) with
    inl n => Some (MkDirEntry name n (cookie name)) | inr _ => None end) by done.
  rewrite El. by destruct (look (join dir name)).
Qed.

Lemma cookie_fits name : 1 <= cookie name < 2 ^ 31.
Proof.
  unfold cookie. change 0x7FFFFFFF with (Z.ones 31). rewrite Z.land_ones by done.
  pose proof (Z.mod_pos_bound (fnv32a name) (2 ^ 31) ltac:(done)). lia.
Qed.

#[local] Instance entry_le_total : base.Total entry_le.
Proof.
  intros x y. unfold entry_le. destruct (Z.lt_trichotomy (Cookie x) (Cookie y)) as [|[E|]]; [auto| |auto].
  destruct (bytes_leb_total (Name x) (Name y)); auto.
Qed.
#[local] Instance entry_le_trans : Transitive entry_le.
Proof.
  intros x y z [?|[E1 H1]] [?|[E2 H2]]; unfold entry_le; [left; lia..|]. right. split; [congruence|].
  by eapply bytes_leb_trans.
Qed.

(** A listing is in cookie order, and is what is in the directory: an entry for
    each name that still has a file, with its file and a cookie that depends on
    the name alone and fits version 2's 32 bits, never 0. *)
Theorem ReadDir_lists d s out s' : quiet s -> ReadDir R printWide cfg d s = (inl out, s') ->
  quiet s' /\ StronglySorted entry_le out /\
  out ≡ₚ omap (listed (n_path d)) (ent_name R <$> entries T v (n_path d)) /\
  Forall (fun e => Cookie e = cookie (Name e) /\ 1 <= Cookie e < 2 ^ 31) out.
Proof.
  intros Hs. pose proof Hs as (Hv & Hb & c & Hc). unfold ReadDir, ownDir. destruct (isDir d); [|done].
  unfold try, give, mapped, mbind, state_bind, mret, state_ret. unfold on_host at 1.
  pose proof (q_entries (n_path d) (s_host s)) as Ho. destruct (Open_ R (n_path d) (s_host s)) as [[fd|e] h1]; [|done].
  destruct Ho as [Hv1 Ho]. specialize (Ho h1 Hv1). unfold on_host. cbn [s_host noBtime names].
  pose proof (q_ReadDirAll fd h1) as Hr. destruct (ReadDirAll R fd h1) as [ents h2]. cbn [fst snd s_host noBtime names] in *.
  pose proof (q_Close fd h2) as Hcl. destruct (fd_Close R fd h2) as [u h3]. cbn [fst snd] in Hcl. rewrite Hb, Hc.
  assert (Hs3 : quiet (MkShare h3 false (ByCache c))) by (apply quiet_host; congruence).
  destruct ents.2 as [e|]; [done|].
  destruct (stat_entries_quiet (n_path d) (merge_sort bytes_le (ent_name R <$> ents.1)) _ Hs3) as (s4 & -> & Hs4).
  intros [= <- <-]. rewrite Hv in Ho. split; [done|].
  assert (Hp : merge_sort entry_le (omap (listed (n_path d)) (merge_sort bytes_le (ent_name R <$> ents.1)))
    ≡ₚ omap (listed (n_path d)) (ent_name R <$> entries T v (n_path d))).
  { rewrite <- Ho. rewrite (merge_sort_Permutation entry_le). apply omap_Permutation, merge_sort_Permutation. }
  split_and!; [|done|].
  - apply (StronglySorted_merge_sort entry_le). 
  - rewrite Hp. apply Forall_forall. intros x (name & _ & Hx)%list_elem_of_omap. unfold listed in Hx.
    destruct (look _); [|done]. injection Hx as <-. split; [done|]. apply cookie_fits.
Qed.
End handles.

(** ** Handles from a table of paths *)

Section table.
Context {H Fd Ent : Type} (R : Root H Fd Ent) (printWide : Z -> bool) (cfg : config) (dirs : nat).

(** With a path table, a handle is for the path its id has now - the one a rename
    gave it - and the file there has the same handle; an id the table no longer
    has is stale, and so is a path with nothing at it. *)
Theorem table_handle o k s : 0 <= exportID cfg < 2 ^ 32 -> key_fits k -> names s = ByTable o -> wf (tbl o) ->
  let '(r, s') := NodeByHandle R printWide cfg dirs (handle_of cfg fmtTable k) s in
  match PathTable.path (k_ino k) o with
  | None => r = inr (only ErrStale) /\ s' = s
  | Some rel => names s' = ByTable o /\
      match r with
      | inl n => n_path n = rel /\ n_key n = MkKey 0 (k_ino k) 0
      | inr e => Is e ErrNotFound = false
      end
  end.
Proof.
  intros He Hk Ho Hw. pose proof (NodeByHandle_of R printWide cfg dirs k s He Hk) as Hh.
  rewrite Ho in Hh. cbn [handle_format] in Hh. rewrite Hh. clear Hh.
  destruct (PathTable.path (k_ino k) o) as [rel|] eqn:Ep; [|done].
  assert (Hin : PathTable.byPath (tbl o) !! rel = Some (k_ino k)) by (by apply (wf_inverse _ Hw)).
  unfold statNode, try, mapped, mbind, state_bind, mret, state_ret, on_host.
  destruct (Lstat R rel (s_host s)) as [[fi|e] h1].
  - assert (Hg : forall st s, exists s', snd (generation R rel st s) = s' /\ names s' = names s).
    { intros st s0. eexists. split; [done|]. unfold generation. destruct (noBtime s0); [done|].
      unfold on_host. destruct (Openat2 R rel (s_host s0)) as [[fd|e] h2].
      - destruct (Statx R fd _) as [x h3]. by destruct (fd_Close R fd _).
      - by case_bool_decide. }
    destruct (Hg (fileStat fi) (MkShare h1 (noBtime s) (names s))) as (s2 & <- & Hn2).
    destruct (generation R rel _ _) as [g s2]. cbn [snd names] in Hn2. rewrite Ho in Hn2.
    unfold describe, name_file, idFor_, try, get_names, set_names, on_host, give, mbind, state_bind, mret, state_ret.
    rewrite Hn2. destruct (table_io R (s_host s2)) as [n h3]. unfold idFor. by rewrite Hin.
  - destruct (Is (mapErr e) ErrNotFound) eqn:E; [|done]. done.
Qed.
End table.

(** ** Opening *)

Lemma fnv32a_range name : 0 <= fnv32a name < 2 ^ 32.
Proof.
  unfold fnv32a. assert (H : 0 <= 2166136261 < 2 ^ 32) by lia. revert H. generalize 2166136261.
  induction name as [|c name IH]; intros h Hh; [done|]. cbn [foldl]. apply IH. apply u32_range.
Qed.

(** A share that opens has the id of its name; it names files by inode, from
    nothing remembered, only on a file system that keeps birth times, and
    otherwise by the table its file holds. Nothing stays open when it fails. *)
Theorem Open_share_names printWide name opts env :
  let '(r, left_open) := Open_share printWide name opts env in
  match r with
  | inr _ => left_open = false
  | inl (cfg, ns) => left_open = true /\ name <> [] /\ slash ∉ name /\ cfg_name cfg = name /\
      exportID cfg = fnv32a name /\ 0 <= exportID cfg < 2 ^ 32 /\
      match ns with
      | ByCache c => c = ∅ /\ o_PathTable opts = [] /\ e_birth env = true
      | ByTable o => openPathTable printWide (e_table env) (e_file env) = (Ok (tbl o), Some (file o))
      end
  end.
Proof.
  unfold Open_share. repeat case_bool_decide; cbn [orb]; try done.
  all: destruct (e_abs env); cbn [negb]; [|done]; destruct (e_stat env) as [[]|]; try done.
  all: destruct (e_root env), (e_sys env); cbn [negb orb]; try done.
  all: destruct (o_NoBirthTime opts), (e_birth env) eqn:Eb; cbn [negb orb andb] in *; try done.
  all: try (destruct (openPathTable printWide (e_table env) (e_file env)) as [[t|e|] [f|]]; try done).
  all: try (rewrite bool_decide_true by done); cbn [negb andb orb]; try done.
  all: try (rewrite bool_decide_false by done); cbn [negb andb orb]; try done.
  all: try (split_and!; try done; apply fnv32a_range).
Qed.
