(* ===== verification/Shareserver.v ===== *)
(** A share behind the server: whatever datagrams and connections come, nothing
    outside the share's directory is asked of the host, and no setuid bit is
    shown or set ([internal/sharefs/sharefs.go] with [nfs]). *)
From S2P Require Import Prelude Text Path PathTable Xdr Nfs Rpc Nfs2 Nfs3 Mount Portmap Server Simulation Sharefs.

(** An operation that keeps an invariant is related to itself. *)
Lemma triple_srel {S A} (I : S -> Prop) (m : state S A) (Q : A -> Prop) (RA : A -> A -> Prop) :
  triple I m Q -> (forall a, Q a -> RA a a) -> srel (fun s1 s2 => s1 = s2 /\ I s1) RA m m.
Proof. intros Hm Hr s1 s2 [<- Hs]. destruct (Hm s1 Hs) as [Ha Hs']. auto. Qed.

Section server.
Context {H Fd Ent : Type} (R : Root H Fd Ent) (printWide : Z -> bool) (cfg : config) (dirs : nat).
Context (J : H -> Prop) (P E : bytes -> Prop) (M : Z -> Prop).
Context (Hk : host_keeps R J P E) (Hc : closed P E) (Hw : host_keeps_writes R J P M).
Context (HM : forall m, M (fileMode m)) (Hperm : forall m, M (Z.land m 0x1FF)).

Lemma okay_result {A} (Q : A -> Prop) (RA : A -> A -> Prop) (r : A + error) :
  (forall a, Q a -> RA a a) -> okay Q r -> result_rel RA r r.
Proof. intros Hr. destruct r; cbn; auto. Qed.

Lemma okay_node r : okay (at_ok P) r -> result_rel (fun n1 n2 : node => n1 = n2 /\ at_ok P n1) r r.
Proof. by apply okay_result. Qed.

Lemma triple_failure_of {I : share H -> Prop} m : triple I m (okay any) -> triple I (failure_of m) any.
Proof. intros Hm. unfold failure_of. eapply triple_bind; [done|]. intros [u|e] _; by apply triple_ret. Qed.

(** A share keeps an invariant of its host as its operations do. *)
Lemma share_keeping : keeping (share_FS R printWide cfg dirs) (share_ok J P) (at_ok P).
Proof.
  split; try (by intros n1 n2 [<- _]).
  - intros p. eapply triple_srel; [by eapply triple_MountRoot|apply okay_node].
  - intros i. eapply triple_srel; [by apply (triple_fail J P ErrStale (at_ok P))|apply okay_node].
  - intros n1 n2 nm [<- Hn]. eapply triple_srel; [by eapply triple_Lookup|apply okay_node].
  - intros n1 n2 [<- Hn]. eapply triple_srel; [by eapply triple_ReadDir|]. intros r. apply okay_result.
    intros l Hl. induction Hl; constructor; [by repeat split|done].
  - intros n1 n2 c o [<- Hn]. eapply triple_srel; [by eapply triple_ReadAt|done].
  - intros n1 n2 [<- Hn]. eapply triple_srel; [by eapply triple_Readlink|done].
  - split.
    + intros n1 n2 [<- Hn]. eapply triple_srel; [apply triple_Handle|done].
    + intros fh. eapply triple_srel; [by eapply triple_NodeByHandle|apply okay_node].
  - split; cbn.
    + intros n1 n2 a [<- Hn]. eapply triple_srel; [by eapply triple_failure_of, triple_SetAttr|done].
    + intros n1 n2 d o [<- Hn]. eapply triple_srel; [by eapply triple_failure_of, triple_WriteAt|done].
    + intros n1 n2 nm how a v [<- Hn]. eapply triple_srel; [by eapply triple_Create|apply okay_node].
    + intros n1 n2 nm a [<- Hn]. eapply triple_srel; [by eapply triple_Mkdir|apply okay_node].
    + intros n1 n2 nm t a [<- Hn]. eapply triple_srel; [by eapply triple_Symlink|apply okay_node].
    + intros n1 n2 nm [<- Hn]. eapply triple_srel; [by eapply triple_failure_of, triple_remove_|done].
    + intros n1 n2 nm [<- Hn]. eapply triple_srel; [by eapply triple_failure_of, triple_remove_|done].
    + intros n1 n2 nm m1 m2 mm [<- Hn] [<- Hm].
      eapply triple_srel; [by eapply triple_failure_of, triple_Rename|done].
  - eapply triple_srel; [by eapply triple_Space|done].
  - done.
Qed.
End server.

Section confinement.
Context {H Fd Ent : Type} (R : Root H Fd Ent) (printWide : Z -> bool) (cfg : config) (dirs : nat).
Context (now : Z -> gotime) (Verifier : bytes) (ports : option (Ports * Ports)).
Notation t := (table (share_FS (logged R) printWide cfg dirs) now ports Verifier).

Lemma logged_keeping : lists_names R ->
  keeping (share_FS (logged R) printWide cfg dirs) (share_ok (log_ok (H := H)) confined) (at_ok confined).
Proof.
  intros Hn. eapply share_keeping; [by apply logged_keeps|apply confined_closed|apply logged_keeps_writes|
    apply fileMode_no_setuid|apply perm_no_setuid].
Qed.

(** C1. Whatever clients send - datagrams from anywhere, a connection with any bytes,
    garbled calls, handles made up, names with ".." and slashes - every path the
    share gives the host is its own root or names below it, and no mode it asks
    for has the setuid bit. *)
Theorem requests_confined AllowIP ps d write st s : lists_names R -> names_ok confined (names s) ->
  (s_host s).2 = [] ->
  Forall proper_access (s_host (snd (snd (ServeUDP AllowIP t ps (d, s))))).2 /\
  forall out s', serveConn t write st s = Ok (out, s') -> Forall proper_access (s_host s').2.
Proof.
  intros Hn Hs Hl. assert (Hok : share_ok (log_ok (H := H)) confined s).
  { split; [|done]. unfold log_ok. by rewrite Hl. }
  split.
  - by destruct (service_keeps _ _ _ now Verifier ports AllowIP ps d s (logged_keeping Hn) Hok).
  - intros out s' E. by destruct (connection_keeps _ _ _ now Verifier ports write st s out s' (logged_keeping Hn) Hok E).
Qed.
End confinement.

(** ** The setuid bit *)

(** The bit in a Unix mode. *)
Definition S_ISUID : Z := 11.

Lemma shown_no_setuid cfg rel st k : cfg_filter cfg = None ->
  Z.testbit (a_Mode (n_attr (shown cfg rel st k))) S_ISUID = false.
Proof.
  intros Hf. unfold shown. rewrite Hf. cbn [n_attr].
  assert (Hm : Z.testbit (Z.ldiff (mode st) 0x800) S_ISUID = false) by (rewrite Z.ldiff_spec; apply andb_false_r).
  destruct (isLink _); cbn [a_Mode]; [|done]. by rewrite Z.lor_spec, Hm.
Qed.

Lemma land_ldiff_swap m s k : Z.land (Z.ldiff m s) k = Z.land m (Z.ldiff k s).
Proof.
  apply Z.bits_inj'. intros i _. rewrite !Z.land_spec, !Z.ldiff_spec.
  by destruct (Z.testbit m i), (Z.testbit s i), (Z.testbit k i).
Qed.

(** The permission bits are asked for as they are. *)
Lemma fileMode_perm m : Z.land (fileMode m) 0x1FF = Z.land m 0x1FF.
Proof.
  assert (Hor : forall a b, Z.land b 0x1FF = 0 -> Z.land (Z.lor a b) 0x1FF = Z.land a 0x1FF).
  { intros a b Hb. by rewrite Z.land_lor_distr_l, Hb, Z.lor_0_r. }
  assert (Hid : Z.land (Z.land m 0x1FF) 0x1FF = Z.land m 0x1FF) by (by rewrite <- Z.land_assoc).
  unfold fileMode. by destruct (negb (Z.land m 0x400 =? 0)), (negb (Z.land m 0x200 =? 0)); rewrite ?Hor.
Qed.

Section setuid.
Context {H Fd Ent : Type} (R : Root H Fd Ent) (cfg : config) (n : node).

(** The host has been asked for the file's mode, without the bit. *)
Definition bit_cleared (s : share (H * list access)) : Prop :=
  exists m, MkAccess (n_path n) (Some m) ∈ (s_host s).2 /\ Z.testbit m ModeSetuid = false /\
    Z.land m 0x1FF = Z.land (raw n) 0x1FF.

Lemma clearSetuid_clears s : Z.testbit (raw n) S_ISUID = true -> bit_cleared (snd (clearSetuid (logged R) n s)).
Proof.
  intros Hbit. unfold clearSetuid. set (strip := if negb (Z.land (raw n) 8 =? 0) then Z.lor 0x800 0x400 else 0x800).
  assert (Hs : Z.testbit strip S_ISUID = true) by (subst strip; by destruct (negb _)).
  assert (Hlow : Z.ldiff 0x1FF strip = 0x1FF) by (subst strip; by destruct (negb _)).
  assert (Hne : Z.land (raw n) strip =? 0 = false).
  { apply Z.eqb_neq. intros Hz. apply (f_equal (fun z => Z.testbit z S_ISUID)) in Hz.
    by rewrite Z.land_spec, Hbit, Hs in Hz. }
  rewrite Hne. cbn [negb]. unfold mbind, state_bind, mret, state_ret, on_host. cbn [root_Chmod logged]. unfold log.
  destruct (s_host s) as [h l]. destruct (root_Chmod R (n_path n) _ h) as [r h']. cbn [snd s_host].
  eexists. split_and!; [by left|apply fileMode_no_setuid|].
  by rewrite fileMode_perm, land_ldiff_swap, Hlow.
Qed.

(** A file with the bit: it is not shown, and once its contents have been changed
    through the share - a write that succeeds, or a change of size - the host has
    been asked for its mode without the bit. *)
Theorem setuid_cleared s : Z.testbit (raw n) S_ISUID = true ->
  (forall rel st k, cfg_filter cfg = None -> Z.testbit (a_Mode (n_attr (shown cfg rel st k))) S_ISUID = false) /\
  (forall p off s', WriteAt (logged R) n p off s = (inl tt, s') -> bit_cleared s') /\
  (forall size s', truncate (logged R) n size s = (inl tt, s') -> bit_cleared s').
Proof.
  intros Hbit. split; [intros; by apply shown_no_setuid|]. split.
  - intros p off s'. unfold WriteAt. destruct (negb (isReg n)); [done|].
    unfold try, mapped, mbind, state_bind, mret, state_ret, give.
    destruct (on_host (OpenFile _ _ _ _) s) as [[fd|e] s1]; [|done].
    destruct (on_host (fd_WriteAt _ _ _ _) s1) as [r s2]. destruct (on_host (fd_Close _ _) s2) as [c s3].
    destruct (match r with None => c | Some _ => r end); [done|]. pose proof (clearSetuid_clears s3 Hbit) as Hc.
    destruct (clearSetuid _ _ s3) as [u s4]. by intros [= <-].
  - intros size s'. unfold truncate. destruct (isDir n); [done|]. destruct (negb (isReg n)); [done|].
    unfold try, mapped, mbind, state_bind, mret, state_ret, give.
    destruct (on_host (OpenFile _ _ _ _) s) as [[fd|e] s1]; [|done].
    destruct (on_host (fd_Truncate _ _ _) s1) as [r s2]. destruct (on_host (fd_Close _ _) s2) as [c s3].
    destruct r; [done|]. pose proof (clearSetuid_clears s3 Hbit) as Hc.
    destruct (clearSetuid _ _ s3) as [u s4]. by intros [= <-].
Qed.
End setuid.
