(* ===== verification/Multi.v ===== *)
(** Several shares served as one export ([internal/sharefs/multi.go]). A node
    carries its share, by its place in the list; the state is that of every
    share. *)
From S2P Require Import Prelude Text Path PathTable Xdr Nfs Rpc Nfs2 Nfs3 Mount Portmap Server Simulation Sharefs.

Record Multi := MkMulti { shares : list config; byID : gmap Z nat; byName : gmap bytes nat }.

Inductive multi_err := GivenTwice (name : bytes) | SameID (name other : bytes) | NoShares.

(** [OpenMulti], from the share at [i]. *)
Fixpoint open_from (i : nat) (cfgs : list config) (m : Multi) : Multi + multi_err :=
  match cfgs with
  | [] => inl m
  | s :: cfgs =>
      if bool_decide (byName m !! cfg_name s <> None) then inr (GivenTwice (cfg_name s))
      else match byID m !! exportID s with
           | Some o => inr (SameID (default [] (cfg_name <$> shares m !! o)) (cfg_name s))
           | None => open_from (S i) cfgs
                       (MkMulti (shares m) (<[exportID s := i]> (byID m)) (<[cfg_name s := i]> (byName m)))
           end
  end.

Definition OpenMulti (cfgs : list config) : Multi + multi_err :=
  match open_from 0 cfgs (MkMulti cfgs ∅ ∅) with
  | inl m => match cfgs with [] => inr NoShares | _ => inl m end
  | inr e => inr e
  end.

(** [cutPath]: the first element. *)
Definition cutPath (p : bytes) : bytes :=
  let p := trim_left slash p in (cut slash p).1.

Section multi.
Context {H Fd Ent : Type} (R : nat -> Root H Fd Ent) (printWide : Z -> bool) (dirs : nat) (m : Multi).
Notation io A := (state (list (share H)) (A + error)).

(** An operation of the share at [i]. *)
Definition on_share {A} (i : nat) (dflt : A) (op : config -> state (share H) A) : state (list (share H)) A := fun l =>
  match l !! i, shares m !! i with
  | Some s, Some cfg => let '(a, s) := op cfg s in (a, <[i := s]> l)
  | _, _ => (dflt, l)  (* not reached: a node is of a share *)
  end.

(** What the share answered is the share's. *)
Definition tag (i : nat) (r : node + error) : (nat * node) + error :=
  match r with inl n => inl (i, n) | inr e => inr e end.

Definition stale {A} : A + error := inr (only ErrStale).

Definition node_of (i : nat) (op : config -> state (share H) (node + error)) : io (nat * node) :=
  r ← on_share i stale op; mret (tag i r).

Definition m_MountRoot (p : bytes) : io (nat * node) :=
  match byName m !! cutPath p with
  | None => mret (inr (only ErrNotFound))
  | Some i => node_of i (fun cfg => MountRoot (R i) printWide cfg p)
  end.

Definition m_Handle (n : nat * node) : state (list (share H)) bytes :=
  on_share n.1 (replicate 32 0) (fun cfg => Handle cfg n.2).

Definition m_NodeByHandle (fh : bytes) : io (nat * node) :=
  if negb (zlen fh =? 32) then mret (inr (only ErrBadHandle))
  else match byID m !! get_u32 fh 4 with
       | Some i => node_of i (fun cfg => NodeByHandle (R i) printWide cfg dirs fh)
       | None =>
           r ← node_of 0 (fun cfg => NodeByHandle (R 0) printWide cfg dirs fh);
           mret match r with
                | inr e => if Is e ErrBadHandle then inr e else stale
                | inl _ => stale
                end
       end.

Definition m_Lookup (d : nat * node) (name : bytes) : io (nat * node) :=
  node_of d.1 (fun cfg => Lookup (R d.1) printWide cfg d.2 name).

Definition tag_entry (i : nat) (e : DirEntry node) : DirEntry (nat * node) :=
  MkDirEntry (Name e) (i, ent_Node e) (Cookie e).

Definition m_ReadDir (d : nat * node) : io (list (DirEntry (nat * node))) :=
  r ← on_share d.1 stale (fun cfg => ReadDir (R d.1) printWide cfg d.2);
  mret match r with inl l => inl (tag_entry d.1 <$> l) | inr e => inr e end.

Definition m_ReadAt (n : nat * node) (count off : Z) : state (list (share H)) (bytes * option error) :=
  on_share n.1 ([], Some (only ErrStale)) (fun _ => ReadAt (R n.1) n.2 count off).

Definition m_Readlink (n : nat * node) : io bytes := on_share n.1 stale (fun _ => Readlink (R n.1) n.2).

Definition m_Rename (fd : nat * node) (fn : bytes) (td : nat * node) (tn : bytes) : io unit :=
  if bool_decide (fd.1 = td.1) then on_share fd.1 stale (fun _ => Rename (R fd.1) printWide fd.2 fn td.2 tn)
  else mret (inr (only ErrXDev)).

Definition m_Space : io Space_t := on_share 0 stale (fun _ => Space (R 0%nat)).

Definition failing (r : unit + error) : option error := match r with inl _ => None | inr e => Some e end.
Definition m_failure (i : nat) (op : config -> state (share H) (unit + error)) : state (list (share H)) (option error) :=
  r ← on_share i stale op; mret (failing r).

Definition multi_FS : FS (list (share H)) (nat * node) := {|
  ID := fun n => Fileid (n_attr n.2);
  Mode := fun n => a_Mode (n_attr n.2);
  Size := fun n => i64 (a_Size (n_attr n.2));
  Mtime := fun n => u32 (Unix (a_Mtime (n_attr n.2)));
  Attr := fun n => Some (n_attr n.2);
  Nfs.MountRoot := m_MountRoot;
  NodeByID := fun _ => mret stale;
  Nfs.Lookup := m_Lookup;
  Nfs.ReadDir := m_ReadDir;
  Nfs.ReadAt := m_ReadAt;
  Nfs.Readlink := m_Readlink;
  handles := Some {| Nfs.Handle := m_Handle; Nfs.NodeByHandle := m_NodeByHandle |};
  writes := Some {|
    Nfs.SetAttr := fun n a => m_failure n.1 (fun _ => SetAttr (R n.1) n.2 a);
    Nfs.WriteAt := fun n p off => m_failure n.1 (fun _ => WriteAt (R n.1) n.2 p off);
    Nfs.Create := fun d name how a verf => node_of d.1 (fun cfg => Create (R d.1) printWide cfg d.2 name how a verf);
    Nfs.Mkdir := fun d name a => node_of d.1 (fun cfg => Mkdir (R d.1) printWide cfg d.2 name a);
    Nfs.Symlink := fun d name target a => node_of d.1 (fun cfg => Symlink (R d.1) printWide cfg d.2 name target a);
    Nfs.Remove := fun d name => m_failure d.1 (fun cfg => Remove (R d.1) printWide cfg d.2 name);
    Nfs.Rmdir := fun d name => m_failure d.1 (fun cfg => Rmdir (R d.1) printWide cfg d.2 name);
    Nfs.Rename := fun fd fn td tn => r ← m_Rename fd fn td tn; mret (failing r) |};
  space_of := Some m_Space;
  Exports := Some ((fun cfg => [slash] ++ cfg_name cfg) <$> shares m) |}.
End multi.

(** ** Shares with their own names and ids *)

Lemma open_from_spec i cfgs m m' : open_from i cfgs m = inl m' ->
  shares m' = shares m /\
  (forall j cfg, cfgs !! j = Some cfg -> byID m' !! exportID cfg = Some (i + j)%nat /\ byName m' !! cfg_name cfg = Some (i + j)%nat) /\
  (forall id k, byID m !! id = Some k -> byID m' !! id = Some k) /\
  (forall nm k, byName m !! nm = Some k -> byName m' !! nm = Some k) /\
  (forall id k, byID m' !! id = Some k -> byID m !! id = Some k \/ exists j cfg, cfgs !! j = Some cfg /\ k = (i + j)%nat /\ exportID cfg = id) /\
  (forall nm k, byName m' !! nm = Some k -> byName m !! nm = Some k \/ exists j cfg, cfgs !! j = Some cfg /\ k = (i + j)%nat /\ cfg_name cfg = nm).
Proof.
  revert i m. induction cfgs as [|s cfgs IH]; intros i m Ho; cbn [open_from] in Ho.
  { injection Ho as <-. split_and!; auto. by intros j cfg Hj; rewrite lookup_nil in Hj. }
  case_bool_decide as Hn; [done|]. destruct (byID m !! exportID s) eqn:Hi; [done|].
  destruct (IH _ _ Ho) as (Hsh & Hall & Hid & Hnm & Hid' & Hnm'). cbn [shares byID byName] in *. split_and!; [done|..].
  - intros [|j] cfg Hj; cbn in Hj.
    + injection Hj as ->. rewrite Nat.add_0_r. split; [apply Hid|apply Hnm]; apply lookup_insert_eq.
    + destruct (Hall j cfg Hj) as [H1 H2]. by rewrite Nat.add_succ_r.
  - intros id k Hk. apply Hid. rewrite lookup_insert_ne; [done|]. intros <-. congruence.
  - intros nm k Hk. apply Hnm. rewrite lookup_insert_ne; [done|]. intros <-. congruence.
  - intros id k Hk. destruct (Hid' _ _ Hk) as [Hk'|(j & cfg & Hj & -> & He)].
    + destruct (decide (id = exportID s)) as [->|Hne].
      * rewrite lookup_insert_eq in Hk'. injection Hk' as <-. right. exists 0%nat, s. split_and!; [done|lia|done].
      * rewrite lookup_insert_ne in Hk' by done. by left.
    + right. exists (S j), cfg. split_and!; [done|lia|done].
  - intros nm k Hk. destruct (Hnm' _ _ Hk) as [Hk'|(j & cfg & Hj & -> & He)].
    + destruct (decide (nm = cfg_name s)) as [->|Hne].
      * rewrite lookup_insert_eq in Hk'. injection Hk' as <-. right. exists 0%nat, s. split_and!; [done|lia|done].
      * rewrite lookup_insert_ne in Hk' by done. by left.
    + right. exists (S j), cfg. split_and!; [done|lia|done].
Qed.

(** A [Multi] finds each of its shares by its id and by its name, and nothing
    else. *)
Lemma OpenMulti_finds cfgs m : OpenMulti cfgs = inl m -> shares m = cfgs /\ cfgs <> [] /\
  (forall id i, byID m !! id = Some i <-> exists cfg, cfgs !! i = Some cfg /\ exportID cfg = id) /\
  (forall nm i, byName m !! nm = Some i <-> exists cfg, cfgs !! i = Some cfg /\ cfg_name cfg = nm).
Proof.
  unfold OpenMulti. destruct (open_from 0 cfgs _) as [m'|e] eqn:E; [|done].
  intros Hm. assert (m' = m /\ cfgs <> []) as [-> Hne] by (destruct cfgs; [done|by injection Hm as ->]).
  destruct (open_from_spec _ _ _ _ E) as (Hs & Hall & _ & _ & Hid & Hnm). cbn in *. split_and!; [done|done|..].
  - intros id i. split.
    + intros Hi. destruct (Hid _ _ Hi) as [Hx|(j & cfg & Hj & -> & He)]; [by rewrite lookup_empty in Hx|by exists cfg].
    + intros (cfg & Hi & <-). by apply (Hall i cfg Hi).
  - intros nm i. split.
    + intros Hi. destruct (Hnm _ _ Hi) as [Hx|(j & cfg & Hj & -> & He)]; [by rewrite lookup_empty in Hx|by exists cfg].
    + intros (cfg & Hi & <-). by apply (Hall i cfg Hi).
Qed.

(** ** One share of many *)

(** A share takes no handle of another. *)
Lemma foreign_handle {H Fd Ent : Type} (R : Root H Fd Ent) printWide cfg dirs fh s : zlen fh = 32 -> get_u32 fh 4 <> exportID cfg ->
  exists e, NodeByHandle R printWide cfg dirs fh s = (inr e, s) /\ (e = only ErrBadHandle \/ e = only ErrStale).
Proof.
  intros Hl Hne. unfold NodeByHandle, mbind, state_bind, get_names. rewrite Hl. cbn [negb Z.eqb Pos.eqb orb].
  destruct (_ || _); [eexists; split; [done|by left]|].
  rewrite (proj2 (Z.eqb_neq (get_u32 fh 4) (exportID cfg))) by done. rewrite orb_true_r. eexists. split; [done|by right].
Qed.

(** A handle has the id of the share that gave it. *)
Lemma get_u32_Handle {H} cfg n (s : share H) : 0 <= exportID cfg < 2 ^ 32 -> get_u32 (fst (Handle cfg n s)) 4 = exportID cfg.
Proof.
  intros He. unfold Handle, mbind, state_bind, get_names, mret, state_ret, get_u32. cbn [fst].
  rewrite sub_app_r by done. change (4 - zlen [handle_format (names s); 0; 0; 0]) with 0.
  rewrite sub_app_l by done. rewrite be_be_enc. by apply Z.mod_small.
Qed.

Section isolation.
Context {H Fd Ent : Type} (R : nat -> Root H Fd Ent) (printWide : Z -> bool) (dirs : nat) (m : Multi).

Lemma on_share_frame {A} i (dflt : A) op (l : list (share H)) j : i <> j -> (snd (on_share m i dflt op l)) !! j = l !! j.
Proof.
  intros Hij. unfold on_share. destruct (l !! i) as [s|]; [|done]. destruct (shares m !! i) as [cfg|]; [|done].
  destruct (op cfg s) as [a s']. cbn [snd]. by apply list_lookup_insert_ne.
Qed.

Lemma on_share_at {A} i (dflt : A) op (l : list (share H)) s cfg : l !! i = Some s -> shares m !! i = Some cfg ->
  on_share m i dflt op l = (fst (op cfg s), <[i := snd (op cfg s)]> l).
Proof. intros Hl Hs. unfold on_share. rewrite Hl, Hs. by destruct (op cfg s). Qed.

(** A handle goes to the share that issued it and to no other: the node is the
    one that share alone finds, and the other shares are as they were. *)
Theorem handle_reaches_its_share cfgs i cfg l s k : OpenMulti cfgs = inl m ->
  cfgs !! i = Some cfg -> l !! i = Some s -> 0 <= exportID cfg < 2 ^ 32 ->
  let fh := fst (Handle cfg k s) in
  let '(r, s') := NodeByHandle (R i) printWide cfg dirs fh s in
  m_NodeByHandle R printWide dirs m fh l = (tag i r, <[i := s']> l).
Proof.
  intros Ho Hi Hl He. cbv zeta. destruct (OpenMulti_finds _ _ Ho) as (Hs & _ & Hid & _).
  set (fh := fst (Handle cfg k s)).
  assert (Hlen : zlen fh = 32) by apply zlen_Handle.
  assert (Hget : get_u32 fh 4 = exportID cfg) by (by apply get_u32_Handle).
  destruct (NodeByHandle (R i) printWide cfg dirs fh s) as [r s'] eqn:E.
  unfold m_NodeByHandle. rewrite Hlen, Hget. cbn [negb Z.eqb Pos.eqb].
  rewrite (proj2 (Hid (exportID cfg) i)) by (by exists cfg).
  unfold node_of, mbind, state_bind. rewrite (on_share_at _ _ _ _ s cfg) by (by rewrite ?Hs). by rewrite E.
Qed.



Section placed.
Context (cfgs : list config) (i : nat) (cfg : config) (l : list (share H)) (s : share H).
Context (Ho : OpenMulti cfgs = inl m) (Hi : cfgs !! i = Some cfg) (Hl : l !! i = Some s).








End placed.

End isolation.

(** ** A share served alone *)

Section alone.
Context {H Fd Ent : Type} (R : Root H Fd Ent) (printWide : Z -> bool) (dirs : nat) (cfg : config) (m : Multi).
Context (Ho : OpenMulti [cfg] = inl m).

Lemma alone_finds : shares m = [cfg] /\ byID m = {[exportID cfg := 0%nat]} /\ byName m = {[cfg_name cfg := 0%nat]}.
Proof. vm_compute in Ho. by injection Ho as <-. Qed.

Notation RS := (fun (s : share H) (l : list (share H)) => l = [s]).
Notation RN := (fun (n : node) (n' : nat * node) => n' = (0%nat, n)).
Notation srel := (@srel (share H) (list (share H)) RS).

Lemma on_share_alone {A} (dflt : A) op (s : share H) : on_share m 0 dflt op [s] = (fst (op cfg s), [snd (op cfg s)]).
Proof. destruct alone_finds as (Hs & _). rewrite (on_share_at m 0 dflt op [s] s cfg); [done|done|by rewrite Hs]. Qed.

Lemma srel_share {A} (op : config -> state (share H) A) dflt : srel eq (op cfg) (on_share m 0 dflt op).
Proof. intros s l ->. by rewrite on_share_alone. Qed.

Lemma srel_node op : srel (result_rel RN) (op cfg) (node_of m 0 op).
Proof.
  intros s l ->. unfold node_of, mbind, state_bind. rewrite on_share_alone.
  by destruct (op cfg s) as [[n|e] s'].
Qed.

Lemma srel_failure (op : config -> state (share H) (unit + error)) : srel eq (failure_of (op cfg)) (m_failure m 0 op).
Proof.
  intros s l ->. unfold failure_of, m_failure, mbind, state_bind. rewrite on_share_alone.
  by destruct (op cfg s) as [[u|e] s'].
Qed.

(** The first element of a mount path, both ways. *)
Lemma hd_split p : hd [] (split_byte slash p) = (cut slash p).1.
Proof.
  induction p as [|c p IH]; [done|]. cbn. destruct (c =? slash); [done|].
  destruct (cut slash p) as [a r]. pose proof (split_not_nil slash p). destruct (split_byte slash p); [done|].
  cbn in *. by rewrite IH.
Qed.

Lemma cut_trailing p k : (cut slash (p ++ replicate k slash)).1 = (cut slash p).1.
Proof.
  induction p as [|c p IH]; [by destruct k|]. cbn. destruct (c =? slash); [done|].
  destruct (cut slash (p ++ replicate k slash)), (cut slash p). cbn in *. by rewrite IH.
Qed.

Lemma trim_right_trailing p : exists k, p = trim_right slash p ++ replicate k slash.
Proof.
  unfold trim_right. enough (Hl : forall q, exists k, q = replicate k slash ++ trim_left slash q).
  { destruct (Hl (reverse p)) as [k Hk]. exists k. apply (f_equal reverse) in Hk.
    by rewrite reverse_involutive, reverse_app, reverse_replicate in Hk. }
  induction q as [|c q [k IH]]; [by exists 0%nat|]. cbn. destruct (c =? slash) eqn:E; [|by exists 0%nat].
  zbool. subst c. exists (S k). cbn. by f_equal.
Qed.

Lemma first_element p : hd [] (split_byte slash (trim slash p)) = cutPath p.
Proof.
  rewrite hd_split. unfold trim, cutPath. destruct (trim_right_trailing (trim_left slash p)) as [k Hk].
  rewrite Hk at 2. by rewrite cut_trailing.
Qed.

Lemma MountRoot_alone p : srel (result_rel RN) (MountRoot R printWide cfg p) (m_MountRoot (fun _ => R) printWide m p).
Proof.
  unfold m_MountRoot. destruct alone_finds as (_ & _ & ->). destruct (decide (cutPath p = cfg_name cfg)) as [->|Hne].
  - rewrite lookup_singleton_eq. apply (srel_node (fun cfg => MountRoot R printWide cfg p)).
  - rewrite lookup_singleton_ne by done. unfold MountRoot.
    rewrite first_element, bool_decide_false by done. by intros s l ->.
Qed.

Lemma NodeByHandle_alone fh :
  srel (result_rel RN) (NodeByHandle R printWide cfg dirs fh) (m_NodeByHandle (fun _ => R) printWide dirs m fh).
Proof.
  unfold m_NodeByHandle. destruct (negb (zlen fh =? 32)) eqn:El.
  { unfold NodeByHandle. intros s l ->. unfold mbind, state_bind, get_names. by rewrite El. }
  destruct alone_finds as (_ & -> & _). destruct (decide (get_u32 fh 4 = exportID cfg)) as [->|Hne].
  { rewrite lookup_singleton_eq. apply (srel_node (fun cfg => NodeByHandle R printWide cfg dirs fh)). }
  rewrite lookup_singleton_ne by done. intros s l ->. unfold node_of, mbind, state_bind, mret, state_ret.
  rewrite on_share_alone. apply negb_false_iff, Z.eqb_eq in El.
  destruct (foreign_handle R printWide cfg dirs fh s El Hne) as (e & -> & [->| ->]); done.
Qed.

(** A share served alone and a [Multi] of it are the same export to every
    client. *)
Lemma alone_simulates : Simulates (share_FS R printWide cfg dirs) (multi_FS (fun _ => R) printWide dirs m) RS RN.
Proof.
  split; try (by intros n1 n2 ->).
  - apply MountRoot_alone.
  - intros i s l ->. done.
  - intros n1 n2 nm ->. apply (srel_node (fun cfg => Lookup R printWide cfg n1 nm)).
  - intros n1 n2 -> s l ->. cbn [Nfs.ReadDir share_FS multi_FS]. unfold m_ReadDir, mbind, state_bind. cbn [fst snd].
    rewrite on_share_alone. destruct (ReadDir R printWide cfg n1 s) as [[ents|e] s']; cbn; [|done]. split; [|done].
    induction ents; constructor; done.
  - intros n1 n2 c o ->. apply (srel_share (fun _ => ReadAt R n1 c o)).
  - intros n1 n2 ->. apply (srel_share (fun _ => Readlink R n1)).
  - split; cbn.
    + intros n1 n2 ->. apply (srel_share (fun cfg => Handle cfg n1)).
    + apply NodeByHandle_alone.
  - split; cbn.
    + intros n1 n2 a ->. apply (srel_failure (fun _ => SetAttr R n1 a)).
    + intros n1 n2 d o ->. apply (srel_failure (fun _ => WriteAt R n1 d o)).
    + intros n1 n2 nm how a v ->. apply (srel_node (fun cfg => Create R printWide cfg n1 nm how a v)).
    + intros n1 n2 nm a ->. apply (srel_node (fun cfg => Mkdir R printWide cfg n1 nm a)).
    + intros n1 n2 nm t a ->. apply (srel_node (fun cfg => Symlink R printWide cfg n1 nm t a)).
    + intros n1 n2 nm ->. apply (srel_failure (fun cfg => Remove R printWide cfg n1 nm)).
    + intros n1 n2 nm ->. apply (srel_failure (fun cfg => Rmdir R printWide cfg n1 nm)).
    + intros n1 n2 nm m1 m2 mm -> ->. apply (srel_failure (fun _ => Rename R printWide n1 nm m1 mm)).
  - apply (srel_share (fun _ => Space R)).
  - cbn. by destruct alone_finds as (-> & _).
Qed.

(** Whatever clients send, a [Multi] of one share answers as the share served
    alone: the same replies and the same bytes, and the share's state - its host,
    its names - is the same after. *)
Theorem alone_or_multi now Verifier ports AllowIP ps write st d s :
  (let '(replies, (d', s')) := ServeUDP AllowIP (table (share_FS R printWide cfg dirs) now ports Verifier) ps (d, s) in
   ServeUDP AllowIP (table (multi_FS (fun _ => R) printWide dirs m) now ports Verifier) ps (d, [s]) = (replies, (d', [s']))) /\
  match serveConn (table (share_FS R printWide cfg dirs) now ports Verifier) write st s with
  | Ok (out, s') => serveConn (table (multi_FS (fun _ => R) printWide dirs m) now ports Verifier) write st [s] = Ok (out, [s'])
  | _ => True
  end.
Proof.
  pose proof alone_simulates as Hsim. split.
  - destruct (ServeUDP_rel _ _ _ _ (Hsim := Hsim) now Verifier ports AllowIP ps d s [s] eq_refl)
      as (replies & d' & s1 & s2 & -> & -> & ->). done.
  - pose proof (serve_loop_rel _ _ _ _ (Hsim := Hsim) now Verifier ports (length (sdata st) + 1) write 0 st s [s] eq_refl) as H0.
    unfold serveConn. destruct (serve_loop _ (table (share_FS _ _ _ _) _ _ _) _ _ _ _) as [[out s']|e|]; [|done..].
    destruct (serve_loop _ _ _ _ _ _) as [[out2 l]|e|]; [|done..]. by destruct H0 as [-> ->].
Qed.
End alone.
