(* ===== verification/Demohost.v ===== *)
(** A small host, read only, on which the theorems about shares are evaluated: a
    directory that holds a directory that holds a file. It models no code of the
    repository. *)
From S2P Require Import Prelude Text Path PathTable Xdr Nfs Rpc Nfs2 Nfs3 Mount Portmap Server Simulation MemFs Sharefs Handles Shareserver Multi.

Definition sys (mode ino : Z) : FileInfo :=
  MkFileInfo (Z.land mode 0x1FF) false false (if Z.land mode 0xF000 =? 0x4000 then TDir else TOther) 5 0
    (Some (MkStat_t mode 1 8 0 0 9 ino)).

Definition demo_lstat (p : bytes) : FileInfo + herr :=
  if bool_decide (p = [dot]) then inl (sys 0x41ED 1)
  else if bool_decide (p = str "a") then inl (sys 0x41ED 2)
  else if bool_decide (p = str "a/f") then inl (sys 0x89ED 3)
  else inr [Errno ENOENT; FsNotExist].

Definition demo_statx (p : bytes) : option Statx_t :=
  match demo_lstat p with
  | inl fi => Some (MkStatx (match fi_sys fi with Some s => st_Ino s | None => 0 end) (Some (7, 1)))
  | inr _ => None
  end.

(** An entry is its directory and its name. *)
Definition demo_entries (p : bytes) : list (bytes * bytes) :=
  if bool_decide (p = [dot]) then [([dot], str "a")]
  else if bool_decide (p = str "a") then [(str "a", str "f")] else [].

Definition readonly : herr := [Errno EROFS].
Definition refused {A} : state unit (A + herr) := fun h => (inr readonly, h).
Definition refusal : state unit (option herr) := fun h => (Some readonly, h).

(** Descriptors are paths. Writes are taken only of a file that is open. *)
Definition demo : Root unit bytes (bytes * bytes) := {|
  Lstat p h := (demo_lstat p, h);
  Openat2 p h := (match demo_lstat p with inl _ => inl p | inr _ => inr ENOENT end, h);
  Statx p h := (demo_statx p, h);
  Open_ p h := (match demo_lstat p with inl _ => inl p | inr e => inr e end, h);
  ReadDirAll p h := ((demo_entries p, None), h);
  ent_name e := e.2;
  ent_isdir e := bool_decide (e.2 = str "a");
  ent_Info e h := (demo_lstat (join e.1 e.2), h);
  fd_ReadAt _ _ _ h := (([], Some [IoEOF]), h);
  fd_WriteAt _ _ _ h := (None, h);
  fd_Truncate _ _ h := (None, h);
  fd_Close _ h := (None, h);
  OpenFile p _ _ h := (match demo_lstat p with inl _ => inl p | inr e => inr e end, h);
  root_Readlink _ := refused;
  root_Chmod _ _ := refusal;
  root_Chtimes _ _ _ := refusal;
  root_Mkdir _ _ := refusal;
  root_Symlink _ _ := refusal;
  root_Remove _ := refusal;
  root_Rename _ _ := refusal;
  diskSpace := refused;
  table_io h := (2 ^ 21, h);
  table_visits m h := ((fun id => (id, 2 ^ 21)) <$> (map_to_list m).*1, h) |}.

Definition demo_view : tree_view unit (bytes * bytes) :=
  MkTreeView _ _ (fun _ => demo_lstat) (fun _ => demo_statx) (fun _ => demo_entries).

#[export] Instance demo_quiet : Quiet demo (fun h => h) demo_view.
Proof.
  split; try done.
  - intros p []. cbn. unfold demo_statx. destruct (demo_lstat p) eqn:El; split_and!; try done. intros h2 _. by rewrite El.
  - intros p []. cbn. unfold demo_entries, demo_lstat. repeat case_bool_decide; by repeat split.
  - intros p e []. cbn. unfold demo_entries.
    repeat case_bool_decide; intros Hin; [apply list_elem_of_singleton in Hin as ->..|by apply not_elem_of_nil in Hin]; by subst.
  - intros [] p fi. cbn. unfold demo_lstat. repeat case_bool_decide; by intros [= <-].
Qed.

Lemma demo_lists_names : lists_names demo.
Proof.
  intros p h. cbn. unfold demo_entries. repeat case_bool_decide; [..|constructor];
    apply Forall_singleton; apply checkName_ok; by vm_compute.
Qed.

Definition pw : Z -> bool := no_wide.
Definition demo_cfg : config := MkConfig (str "irix") (fnv32a (str "irix")) None.
Definition reopened : share unit := MkShare tt false (ByCache ∅).

(** The file's key, after the server was restarted. *)
Definition file_key : key := MkKey 9 3 7000000001.

Lemma handle_finds_witness : exists r s',
  NodeByHandle demo pw demo_cfg 3 (handle_of demo_cfg fmtInode file_key) reopened = (r, s') /\
  settled demo demo_view demo_cfg tt file_key r /\ exists n, r = inl n /\ n_path n = str "a/f".
Proof.
  destruct (handle_finds demo (fun h => h) demo_view pw demo_cfg 3 tt file_key reopened 2) as (r & s' & E & _ & Hr).
  - by vm_compute.
  - by vm_compute.
  - repeat split. by exists ∅.
  - cbn. unfold subdirs, entries, demo_view, demo_entries. vm_compute. by repeat constructor.
  - vm_compute. lia.
  - exists r, s'. split; [exact E|]. split; [exact Hr|].
    assert (Hv : exists n s'', NodeByHandle demo pw demo_cfg 3 (handle_of demo_cfg fmtInode file_key) reopened = (inl n, s'')
      /\ n_path n = str "a/f") by (do 2 eexists; split; vm_compute; reflexivity).
    destruct Hv as (n & s'' & E' & Hn). rewrite E in E'. injection E' as -> ->. exists n. exact (conj eq_refl Hn).
Defined.

(** The same file by a path table. *)
Definition demo_table : opened := mk "a/f" (mk "a" (PathTable.fresh pw)).
Lemma demo_table_wf : wf (tbl demo_table).
Proof.
  apply (good_wf pw). apply reachable_good. unfold demo_table. do 2 (apply ex_mk; [by vm_compute..|]). apply rtc_refl.
Qed.
Definition by_table : share unit := MkShare tt false (ByTable demo_table).

Lemma table_handle_witness : wf (tbl demo_table) /\
  exists n s', NodeByHandle demo pw demo_cfg 3 (handle_of demo_cfg fmtTable (MkKey 0 2 0)) by_table = (inl n, s') /\
    n_path n = str "a/f" /\ n_key n = MkKey 0 2 0.
Proof.
  pose proof demo_table_wf as Hw. split; [exact Hw|].
  pose proof (table_handle demo pw demo_cfg 3 demo_table (MkKey 0 2 0) by_table ltac:(by vm_compute) ltac:(by vm_compute)
    eq_refl Hw) as Ht.
  assert (Ep : PathTable.path (k_ino (MkKey 0 2 0)) demo_table = Some (str "a/f")) by (vm_compute; reflexivity).
  rewrite Ep in Ht.
  destruct (NodeByHandle demo pw demo_cfg 3 (handle_of demo_cfg fmtTable (MkKey 0 2 0)) by_table) as [r s'] eqn:E.
  assert (Hr : exists n, r = inl n).
  { assert (E' : exists n, fst (NodeByHandle demo pw demo_cfg 3 (handle_of demo_cfg fmtTable (MkKey 0 2 0)) by_table) = inl n)
      by (eexists; vm_compute; reflexivity). rewrite E in E'. exact E'. }
  destruct Hr as [n ->]. exists n, s'. destruct Ht as [_ [Hp Hk]]. exact (conj eq_refl (conj Hp Hk)).
Defined.

(** ** Requests *)

Definition share0 : share (unit * list access) := MkShare (tt, []) false (ByCache ∅).
Definition client : net_addr := MkAddr UDPAddr [10; 0; 0; 7] (str "10.0.0.7:1").

(** A MOUNT of the share, and a LOOKUP of a name that leads out. *)
Definition mount_call : bytes := call_bytes 1 progMount 1 1 0 [] 0 [] (opaque_enc (str "/irix/a")).
Definition lookup_call : bytes :=
  call_bytes 2 progNFS 2 4 0 [] 0 [] (handle_of demo_cfg fmtInode (MkKey 9 2 7000000001) ++ opaque_enc (str "../../etc")).

Notation share_table := (table (share_FS (logged demo) pw demo_cfg 3) clock None v7).
Definition after_calls : share (unit * list access) :=
  snd (snd (ServeUDP None share_table [(client, mount_call); (client, lookup_call)] (new_drc, share0))).

Lemma requests_confined_witness : length (s_host after_calls).2 = 6%nat /\ Forall proper_access (s_host after_calls).2.
Proof.
  split; [vm_compute; reflexivity|].
  exact (proj1 (requests_confined demo pw demo_cfg 3 clock v7 None None
    [(client, mount_call); (client, lookup_call)] new_drc (fun _ => true) (MkStream [] None) share0
    demo_lists_names ltac:(by vm_compute) eq_refl)).
Defined.

(** A write to the file, which has the setuid bit. *)
Definition file_node : node := shown demo_cfg (str "a/f") (fileStat (sys 0x89ED 3)) file_key.

Lemma setuid_cleared_witness : exists s',
  WriteAt (logged demo) file_node [1; 2] 0 share0 = (inl tt, s') /\ bit_cleared file_node s' /\
  a_Mode (n_attr file_node) = 0x81ED.
Proof.
  eexists. split; [vm_compute; reflexivity|]. split; [|vm_compute; reflexivity].
  refine (proj1 (proj2 (setuid_cleared demo demo_cfg file_node share0 eq_refl)) [1; 2] 0 _ _).
  vm_compute. reflexivity.
Defined.

(** ** Two shares *)

Definition other_cfg : config := MkConfig (str "dist") (fnv32a (str "dist")) None.
Definition two : Multi := MkMulti [demo_cfg; other_cfg]
  {[fnv32a (str "dist") := 1%nat; fnv32a (str "irix") := 0%nat]} {[str "dist" := 1%nat; str "irix" := 0%nat]}.

Lemma handle_reaches_its_share_witness :
  let fh := fst (Handle other_cfg file_node reopened) in
  let '(r, s') := NodeByHandle demo pw other_cfg 3 fh reopened in
  m_NodeByHandle (fun _ => demo) pw 3 two fh [reopened; reopened] = (tag 1 r, [reopened; s']).
Proof.
  exact (handle_reaches_its_share (fun _ => demo) pw 3 two [demo_cfg; other_cfg] 1 other_cfg [reopened; reopened]
    reopened file_node ltac:(vm_compute; reflexivity) eq_refl eq_refl ltac:(by vm_compute)).
Defined.


Definition one : Multi := MkMulti [demo_cfg] {[fnv32a (str "irix") := 0%nat]} {[str "irix" := 0%nat]}.

Lemma alone_or_multi_witness :
  let '(replies, (d', s')) :=
    ServeUDP None (table (share_FS demo pw demo_cfg 3) clock None v7) [(client, mount_call)] (new_drc, reopened) in
  ServeUDP None (table (multi_FS (fun _ => demo) pw 3 one) clock None v7) [(client, mount_call)] (new_drc, [reopened])
  = (replies, (d', [s'])).
Proof.
  exact (proj1 (alone_or_multi demo pw 3 demo_cfg one ltac:(vm_compute; reflexivity) clock v7 None None
    [(client, mount_call)] (fun _ => true) (MkStream [] None) new_drc reopened)).
Defined.

(** ** The server's theorem on related exports *)

Lemma memfs_itself : Simulates memfs memfs eq eq.
Proof.
  assert (Hrefl : forall A (m : state mem A), srel eq eq m m) by (by intros A m s1 s2 ->).
  assert (Hres : forall (m : state mem (mem_node + error)), srel eq (result_rel eq) m m).
  { intros m s1 s2 ->. by destruct (m s2) as [[n|e] s]. }
  split; try (by intros ? ? ->); try (intros; subst; auto); try done.
  - intros s1 s2 ->. cbn. destruct n2; cbn; [|done]. split; [|done].
    induction s2 as [|f s2 IH] using rev_ind; [done|]. rewrite imap_app. apply Forall2_app; [done|by repeat constructor].
  - split; cbn [writes memfs mem_writes]; intros; subst; auto.
Qed.

Lemma same_service_witness : (24 <= length (default [] (hd None (fst (ServeUDP None (table memfs clock None v7)
    [(client, write_call)] (new_drc, files))))))%nat /\
  let '(replies1, (d1, s1')) := ServeUDP None (table memfs clock None v7) [(client, write_call)] (new_drc, files) in
  let '(replies2, (d2, s2')) := ServeUDP None (table memfs clock None v7) [(client, write_call)] (new_drc, files) in
  replies1 = replies2 /\ d1 = d2 /\ s1' = s2'.
Proof.
  split; [vm_compute; lia|].
  exact (proj1 (same_service memfs memfs eq eq (Hsim := memfs_itself) clock v7 None None [(client, write_call)]
    (fun _ => true) (MkStream [] None) new_drc files files eq_refl)).
Defined.

Definition root_node : node := shown demo_cfg [dot] (fileStat (sys 0x41ED 1)) (MkKey 9 1 7000000001).

Lemma ReadDir_lists_witness : exists e s', ReadDir demo pw demo_cfg root_node reopened = (inl [e], s') /\
  Name e = str "a" /\ StronglySorted entry_le [e] /\ 1 <= Cookie e < 2 ^ 31.
Proof.
  destruct (ReadDir demo pw demo_cfg root_node reopened) as [r s'] eqn:E.
  assert (Hr : exists e, r = inl [e] /\ Name e = str "a").
  { assert (E' : exists e, fst (ReadDir demo pw demo_cfg root_node reopened) = inl [e] /\ Name e = str "a")
      by (eexists; split; vm_compute; reflexivity). rewrite E in E'. exact E'. }
  destruct Hr as (e & -> & Hn). exists e, s'.
  assert (Hq : quiet (fun h => h) tt reopened) by (repeat split; by exists ∅).
  destruct (ReadDir_lists demo (fun h => h) demo_view pw demo_cfg tt root_node reopened [e] s' Hq E) as (_ & Hs & _ & Hc).
  exact (conj eq_refl (conj Hn (conj Hs (proj2 (proj1 (Forall_cons_1 _ _ _ Hc)))))).
Defined.
