(* ===== verification/Resolver.v ===== *)
(** The resolver of sources ([internal/source]): a local path or an URL becomes a
    read-only file system with what frees it. The calls to the operating system, the
    extractor and the downloader are the arguments of the definitions; how an image is
    read over HTTP is Range.v and Cache.v. *)
From S2P Require Import Prelude Text Path Strings Tree Build Tftp Scope.

(** ** What is opened *)

Inductive resource :=
| OpenRoot (dir : bytes)
| TempDir (dir : bytes)
| OpenFile (path : bytes)
| Store.

#[export] Instance resource_eq_dec : EqDecision resource.
Proof. solve_decision. Defined.

(** The calls outside that are noted. *)
Inductive fetched := Downloaded (ref dst : bytes) (auth : option (bytes * bytes)) | Ranged (ref : bytes) (auth : option (bytes * bytes)) | Extracted (archive dst : bytes) (tar : bool) | RemovedFile (path : bytes).

Inductive source_err :=
| StatFailed (e : Z) | OpenFailed (e : Z) | BadImage (e : image_err) | ParseFailed (e : Z) | MakeDir (e : Z) | ExtractFailed (e : Z) | BadTar (e : Z)
| RequestFailed (e : Z) | FetchFailed (e : Z).

(** An URL, as [url.Parse] gives it. *)
Record URL := MkURL { u_Scheme : bytes; u_Hostname : bytes; u_Path : bytes }.

Record Credential := MkCredential { Host : bytes; Username : bytes; Password : bytes }.

(** What the calls give. *)
Record outside := MkOutside {
  stat : bytes -> source_err + bool;
  openRoot : bytes -> option source_err;
  openFile : bytes -> option source_err;
  reader_of : bytes -> ReaderAt;
  parse_url : bytes -> source_err + URL;
  mkdirTemp : bytes -> source_err + bytes;
  mkdirAll : bytes -> option source_err;
  unpack : bytes -> bytes -> bool -> option source_err;
  readDir : bytes -> source_err + list (bytes * bool);
  tar_next : bytes -> option (option source_err);
  seek : bytes -> option source_err;
  close_file : bytes -> option source_err;
  remove : bytes -> option source_err;
  new_request : bytes -> option source_err;
  grab : bytes -> bytes -> option source_err;
  range_reader : bytes -> source_err + ReaderAt;
  sha256_hex : bytes -> bytes;
}.

(** The headers of an image are read without a panic, whatever they hold. *)
Lemma OpenImageReader_runs ra : OpenImageReader ra <> Panic.
Proof.
  unfold OpenImageReader. destruct (ra 0 512) as [d [e|]]; [done|].
  assert (Hp : Dvh.Parse (d ++ replicate (512 - length d) 0) <> Panic) by (unfold Dvh.Parse; repeat case_match; done).
  destruct (Dvh.Parse _) as [hdr|e|]; [|done|by destruct Hp]. destruct (Dvh.EFS hdr) as [part|]; [|done].
  assert (Ho : Efs.Open ra (Dvh.First part) <> Panic).
  { unfold Efs.Open. destruct (Efs.readBlock _ 1) as [b|e|] eqn:E; [|done|unfold Efs.readBlock in E; by repeat case_match].
    cbn [mbind outcome_bind]. by repeat case_match. }
  by destruct (Efs.Open _ _).
Qed.

Section resolver.
(** [strings.ToLower] and the folding of [strings.EqualFold] beyond ASCII. *)
Context (unicode fold : bytes -> bytes) (cacheDir : bytes) (creds : list Credential) (o : outside).

Abbreviation act := (prog resource fetched source_err).

(** [isURL]. *)
Definition isURL (ref : bytes) : bool := HasPrefix ref (str "http://") || HasPrefix ref (str "https://").

Definition isTreePath (p : bytes) : bool :=
  let lp := ToLower unicode p in
  HasSuffix lp (str ".tar.gz") || HasSuffix lp (str ".tardist.gz") || HasSuffix lp (str ".tardist") || HasSuffix lp (str ".tgz") || HasSuffix lp (str ".tar").

Definition isArchivePath (p : bytes) : bool := isTreePath p || HasSuffix (ToLower unicode p) (str ".gz").

(** [Credentials.apply], for an URL. *)
Definition apply (u : URL) : option (bytes * bytes) :=
  if negb (bool_decide (u_Scheme u = str "https")) then None
  else match filter (fun c => fold (Host c) = fold (u_Hostname u)) creds with
       | c :: _ => Some (Username c, Password c)
       | [] => None
       end.

(** ** Opening *)

Inductive kind := ImageKind | DirectoryKind.

(** [vfs.Resolved]: the kind, where its files are, and what its closer closes, in
    order. *)
Record resolved := MkResolved { rv_kind : kind; rv_at : bytes; rv_closer : list resource }.

(** [vfs.OpenImage]. *)
Definition OpenImage (path : bytes) : act resource :=
  bind (call (openFile o path)) (fun _ => bind (acquire (OpenFile path)) (fun _ =>
  match OpenImageReader (reader_of o path) with
  | Ok _ => ret (OpenFile path)
  | Err e => bind (release (OpenFile path)) (fun _ => fail (BadImage e))
  | Panic => fail (OpenFailed 0)  (* not reached: [OpenImageReader_runs] *)
  end)).

(** A failure discards the directory. *)
Definition or_remove {A} (tmp : bytes) (m : act A) : act A := on_error m (fun e => bind (release (TempDir tmp)) (fun _ => ret e)).

(** [unpackUnrecognizedTar]. *)
Definition unpackUnrecognizedTar (dir : bytes) : act unit :=
  bind (answer (readDir o dir)) (fun entries =>
  match entries with
  | [(name, true)] =>
      if negb (HasSuffix (ToLower unicode name) (str ".tar")) then ret tt
      else
        let path := Join dir name in
        bind (call (openFile o path)) (fun _ => bind (acquire (OpenFile path)) (fun _ => defer (close_ (OpenFile path))
        (bind (match tar_next o path with Some (Some e) => fail e | _ => ret tt end) (fun _ =>
         bind (call (seek o path)) (fun _ =>
         bind (note (Extracted path dir true)) (fun _ =>
         bind (call (unpack o path dir true)) (fun _ =>
         bind (call (close_file o path)) (fun _ =>
         bind (call (remove o path)) (fun _ => note (RemovedFile path)))))))))) 
  | _ => ret tt
  end).

(** [extract]: the directory. *)
Definition extract (archive outName : bytes) : act bytes :=
  bind (answer (mkdirTemp o cacheDir)) (fun tmp => bind (acquire (TempDir tmp)) (fun _ =>
  bind (or_remove tmp (call (openFile o archive))) (fun _ => bind (acquire (OpenFile archive)) (fun _ => defer (close_ (OpenFile archive))
  (let dst := if bool_decide (outName = []) then tmp else Join tmp outName in
   bind (note (Extracted archive dst false)) (fun _ =>
   bind (or_remove tmp (call (unpack o archive dst false))) (fun _ =>
   bind (if bool_decide (outName = []) then or_remove tmp (unpackUnrecognizedTar tmp) else ret tt) (fun _ => ret tmp)))))))).

(** [resolveExtractedArchive]. *)
Definition resolveExtractedArchive (archive base : bytes) : act resolved :=
  if isTreePath base then
    bind (extract archive []) (fun tmp =>
    bind (or_remove tmp (call (openRoot o tmp))) (fun _ =>
    bind (acquire (OpenRoot tmp)) (fun _ => ret (MkResolved DirectoryKind tmp [OpenRoot tmp; TempDir tmp]))))
  else
    let name := take (length base - 3) base in
    bind (extract archive name) (fun tmp =>
    bind (or_remove tmp (OpenImage (Join tmp name))) (fun disc => ret (MkResolved ImageKind (Join tmp name) [disc; TempDir tmp]))).

(** [resolveLocal]. *)
Definition resolveLocal (ref : bytes) : act resolved :=
  bind (answer (stat o ref)) (fun isDir =>
  if (isDir : bool) then
    bind (call (openRoot o ref)) (fun _ => bind (acquire (OpenRoot ref)) (fun _ => ret (MkResolved DirectoryKind ref [OpenRoot ref])))
  else if isArchivePath ref then resolveExtractedArchive ref (Base ref)
  else bind (OpenImage ref) (fun disc => ret (MkResolved ImageKind ref [disc]))).

(** [cacheDest]. *)
Definition cacheDest (rawURL base : bytes) : bytes := Join (Join cacheDir (take 16 (sha256_hex o rawURL))) base.

Definition download (ref : bytes) (u : URL) (dst : bytes) : act unit :=
  bind (call (mkdirAll o (Dir dst))) (fun _ =>
  bind (call (new_request o ref)) (fun _ =>
  bind (note (Downloaded ref dst (apply u))) (fun _ => call (grab o ref dst)))).

Definition resolveArchive (ref : bytes) (u : URL) : act resolved :=
  let base := Path.Base (u_Path u) in
  let archive := cacheDest ref base in
  bind (download ref u archive) (fun _ => resolveExtractedArchive archive base).

(** [resolveRaw]: the store is there from the start, its file only if it is used. *)
Definition resolveRaw (ref : bytes) (u : URL) : act resolved :=
  bind (call (new_request o ref)) (fun _ => bind (note (Ranged ref (apply u))) (fun _ => bind (acquire Store) (fun _ =>
  match range_reader o ref with
  | inl e => bind (release Store) (fun _ => fail e)
  | inr reader =>
      match OpenImageReader reader with
      | Ok _ => ret (MkResolved ImageKind ref [Store])
      | Err e => bind (release Store) (fun _ => fail (BadImage e))
      | Panic => fail (OpenFailed 0)
      end
  end))).

(** [Resolve]. *)
Definition Resolve (ref : bytes) : act resolved :=
  if negb (isURL ref) then resolveLocal ref
  else bind (answer (parse_url o ref)) (fun u => if isArchivePath (u_Path u) then resolveArchive ref u else resolveRaw ref u).

(** Closing what was resolved. *)
Definition close_all (rs : list resource) (h : held resource fetched) : held resource fetched := fold_left (fun h r => close_ r h) rs h.

(** ** Nothing is left behind *)

Ltac opened_ := cbn [app h_open close_]; repeat first [rewrite without_here | rewrite without_other by done]; try done.

Lemma OpenImage_leaves path : leaves (OpenImage path) (fun r => [r]).
Proof.
  intros h. unfold OpenImage, bind, call, acquire, release, fail, ret. destruct (openFile o path); [done|]. cbn.
  destruct (OpenImageReader _) eqn:E; [by opened_|by opened_|by destruct (OpenImageReader_runs _ E)].
Qed.

Lemma or_remove_leaves {A} tmp (m : act A) keeps h : leaves m keeps ->
  match or_remove tmp m (MkHeld (TempDir tmp :: h_open h) (h_log h)) with
  | (inl _, h') => h_open h' = h_open h
  | (inr a, h') => h_open h' = keeps a ++ TempDir tmp :: h_open h
  end.
Proof.
  intros Hm. unfold or_remove, on_error. specialize (Hm (MkHeld (TempDir tmp :: h_open h) (h_log h))). destruct (m _) as [[e|a] h1]; [|done].
  cbn in Hm |- *. rewrite Hm. apply without_here.
Qed.

Lemma unpackUnrecognizedTar_leaves dir : leaves (unpackUnrecognizedTar dir) (fun _ => []).
Proof.
  unfold unpackUnrecognizedTar. apply leaves_bind; [apply leaves_answer|]. intros entries.
  destruct entries as [|[name [|]] [|]]; try apply leaves_ret. destruct (negb _); [apply leaves_ret|].
  apply leaves_bind; [apply leaves_call|]. intros _. apply leaves_deferred.
  apply leaves_bind; [destruct (tar_next _ _) as [[e|]|]; [apply leaves_fail|apply leaves_ret..]|]. intros _.
  apply leaves_bind; [apply leaves_call|]. intros _. apply leaves_bind; [apply leaves_note|]. intros _.
  do 3 (apply leaves_bind; [apply leaves_call|]; intros _). apply leaves_note.
Qed.

(** A step of what was assumed of a part. *)
Ltac part H := lazymatch type of H with leaves ?m _ => match goal with |- context [m ?h0] => specialize (H h0); destruct (m h0) as [[?|?] ?] end end; cbn [h_open] in H.

Ltac unwind := unfold or_remove, on_error, bind, answer, call, acquire, note, defer, release, ret, fail; cbn [h_open h_log close_].

Lemma extract_leaves archive outName : leaves (extract archive outName) (fun tmp => [TempDir tmp]).
Proof.
  intros h. unfold extract. unwind. destruct (mkdirTemp o cacheDir) as [e|tmp]; [done|]. unwind. destruct (openFile o archive); [by opened_|].
  unwind. destruct (unpack o archive _ false); [by opened_|]. unwind. destruct (bool_decide (outName = [])); [|by opened_].
  pose proof (unpackUnrecognizedTar_leaves tmp) as H. part H; cbn [h_open close_]; rewrite H; by opened_.
Qed.

Lemma resolveExtractedArchive_leaves archive base : leaves (resolveExtractedArchive archive base) rv_closer.
Proof.
  intros h. unfold resolveExtractedArchive. destruct (isTreePath base); unwind.
  - pose proof (extract_leaves archive []) as H. part H; [done|]. destruct (openRoot o _); unwind; rewrite H; by opened_.
  - pose proof (extract_leaves archive (take (length base - 3) base)) as H. part H; [done|].
    match goal with |- context [OpenImage ?p _] => pose proof (OpenImage_leaves p) as Hi end.
    part Hi; cbn [h_open close_]; rewrite Hi, H; by opened_.
Qed.

Lemma resolveLocal_leaves ref : leaves (resolveLocal ref) rv_closer.
Proof.
  apply leaves_bind; [apply leaves_answer|]. intros [|].
  - intros h. unwind. by destruct (openRoot o ref).
  - destruct (isArchivePath ref); [apply resolveExtractedArchive_leaves|]. intros h. unwind.
    pose proof (OpenImage_leaves ref) as H. by part H.
Qed.

Lemma download_leaves ref u dst : leaves (download ref u dst) (fun _ => []).
Proof. repeat (apply leaves_bind; [first [apply leaves_call|apply leaves_note]|]; intros _). apply leaves_call. Qed.

Lemma resolveRaw_leaves ref u : leaves (resolveRaw ref u) rv_closer.
Proof.
  repeat (apply leaves_bind; [first [apply leaves_call|apply leaves_note]|]; intros _). intros h. unwind.
  destruct (range_reader o ref) as [e|reader]; [by opened_|].
  destruct (OpenImageReader reader) eqn:E; [done|by opened_|by destruct (OpenImageReader_runs _ E)].
Qed.

Lemma Resolve_leaves ref : leaves (Resolve ref) rv_closer.
Proof.
  unfold Resolve. destruct (negb _); [apply resolveLocal_leaves|]. apply leaves_bind; [apply leaves_answer|]. intros u.
  destruct (isArchivePath _); [|apply resolveRaw_leaves]. apply leaves_bind; [apply download_leaves|]. intros _.
  apply resolveExtractedArchive_leaves.
Qed.

Lemma close_all_open rs rest log : h_open (close_all rs (MkHeld (rs ++ rest) log)) = rest.
Proof. unfold close_all. revert log. induction rs as [|r rs IH]; intros log; [done|]. cbn [app fold_left]. unfold close_ at 2. cbn [h_open h_log]. rewrite without_here. apply IH. Qed.

(** C15. Whatever the calls outside give, nothing is left behind: a source that is not
    resolved leaves no file open and no directory, and closing one that is frees all
    that was opened for it and nothing else. *)
Theorem Resolve_frees ref h :
  match Resolve ref h with
  | (inl _, h') => h_open h' = h_open h
  | (inr rv, h') => h_open h' = rv_closer rv ++ h_open h /\ h_open (close_all (rv_closer rv) h') = h_open h
  end.
Proof.
  pose proof (Resolve_leaves ref h) as H. destruct (Resolve ref h) as [[e|rv] [op log]]; [done|]. cbn [h_open] in H.
  split; [done|]. rewrite H. apply close_all_open.
Qed.

(** Credentials are those of the first entry for the host, and only over https. *)
Lemma apply_https u n p : apply u = Some (n, p) -> u_Scheme u = str "https" /\
  exists pre c post, creds = pre ++ c :: post /\ fold (Host c) = fold (u_Hostname u) /\ (n, p) = (Username c, Password c) /\
    Forall (fun c => fold (Host c) <> fold (u_Hostname u)) pre.
Proof.
  unfold apply. case_bool_decide as Hs; [|done]. cbn. intros H. split; [done|]. clear Hs. revert H.
  induction creds as [|c cs IH]; [done|]. destruct (decide (fold (Host c) = fold (u_Hostname u))) as [Hc|Hc].
  - rewrite filter_cons_True by done. intros [= <- <-]. by exists [], c, cs.
  - rewrite filter_cons_False by done. intros H. destruct (IH H) as (pre & c' & post & -> & Hh & Hn & Hf).
    exists (c :: pre), c', post. split; [done|]. split; [done|]. split; [done|]. by constructor.
Qed.

End resolver.

(** ** A small host *)

(** One directory, one archive that extracts to a single old tar file, and a server
    that has an archive whose extraction fails. *)
Definition demo_outside : outside := {|
  stat p := if bool_decide (p = str "/media") then inr true else if bool_decide (p = str "/a.tar.gz") then inr false else inl (StatFailed 2);
  openRoot _ := None;
  openFile _ := None;
  reader_of _ := image_reader [];
  parse_url r := inr (MkURL (take 5 r) (str "h") (drop 9 r));
  mkdirTemp d := inr (d ++ str "/extract-1");
  mkdirAll _ := None;
  unpack a _ tar := if HasSuffix a (str "bad.tgz") then Some (ExtractFailed 1) else None;
  readDir _ := inr [(str "a.tar", true)];
  tar_next _ := None;
  seek _ := None;
  close_file _ := None;
  remove _ := None;
  new_request _ := None;
  grab _ _ := None;
  range_reader _ := inl (FetchFailed 404);
  sha256_hex _ := str "0123456789abcdef0123";
|}.

Definition demo_resolve (ref : bytes) : (source_err + resolved) * held resource fetched :=
  Resolve (fun s => s) (fun s => s) (str "/c") [MkCredential (str "h") (str "me") (str "pw")] demo_outside ref (MkHeld [] []).

Example demo_resolved :
  demo_resolve (str "/media") = (inr (MkResolved DirectoryKind (str "/media") [OpenRoot (str "/media")]), MkHeld [OpenRoot (str "/media")] []) /\
  demo_resolve (str "/a.tar.gz") =
    (inr (MkResolved DirectoryKind (str "/c/extract-1") [OpenRoot (str "/c/extract-1"); TempDir (str "/c/extract-1")]),
     MkHeld [OpenRoot (str "/c/extract-1"); TempDir (str "/c/extract-1")]
       [Extracted (str "/a.tar.gz") (str "/c/extract-1") false; Extracted (str "/c/extract-1/a.tar") (str "/c/extract-1") true;
        RemovedFile (str "/c/extract-1/a.tar")]) /\
  demo_resolve (str "https://h/bad.tgz") =
    (inl (ExtractFailed 1), MkHeld [] [Downloaded (str "https://h/bad.tgz") (str "/c/0123456789abcdef/bad.tgz") (Some (str "me", str "pw"));
                                       Extracted (str "/c/0123456789abcdef/bad.tgz") (str "/c/extract-1") false]) /\
  (demo_resolve (str "http://h/disc")).2 = MkHeld [] [Ranged (str "http://h/disc") None].
Proof. vm_compute. done. Qed.
