(* ===== verification/Services.v ===== *)
(** Starting and stopping the services ([internal/serve]): [Start] builds the tree,
    opens the capture and the sockets, and launches the services; [CloseWithReason]
    stops them. The servers are those of Bootp.v, Tftp.v and Rcmd.v, made from the
    configuration of Config.v. *)
From S2P Require Import Prelude Netip Addr Build Config Generate Scope.
From S2P Require Bootp Tftp Rcmd.

Inductive service := BOOTP | TFTP | RSH.

#[export] Instance service_eq_dec : EqDecision service.
Proof. solve_decision. Defined.

(** What is open: the tree, the file of events, a socket. *)
Inductive resource := Media | Events | Socket (s : service).

#[export] Instance resource_eq_dec : EqDecision resource.
Proof. solve_decision. Defined.

(** What happens, in order. *)
Inductive happening :=
| Listened (s : service) (on_network : bool) (port : Z)
| WroteRun
| ServerStarted
| Launched (s : service)
| FinishedCapture (reason : bytes)
| ClosedCapture
| ListenerExited (s : service).

Inductive start_failure :=
| NotBuilt (e : start_err)
| NotRecorded (e : Z)
| NoRun (e : Z)
| NotBound (s : service) (port : Z) (permission : bool) (e : Z)
| BuildPanicked.

(** [options]: where the recorder comes from, if there is one. *)
Inductive recording := NoCapture | CaptureDir | Injected.
Record options := MkOptions {
  o_replyAddr : option Bootp.net_Addr; o_highPorts : bool; o_recording : recording; o_idle : Z; o_network : bool;
}.

(** What the calls outside give: the error of a bind says whether it is one of
    permission. *)
Record answers := MkAnswers {
  a_newRecorder : option Z; a_writeRun : option Z; a_listen : service -> option (bool * Z);
  a_loops : bool; a_rsh : bool; a_tftp : bool;  (* each stage ended in its time *)
  a_finish : option Z; a_closeEvents : option Z; a_tree : option Z;
}.

(** [Servers]. *)
Record Servers := MkServers {
  sv_rec : bool; sv_started : bool; sv_closing : bool;
  sv_bootp : option Bootp.Server; sv_tftp : option Tftp.Server; sv_rsh : option (Rcmd.Server * Z);
}.

Definition minute : Z := 60 * 1000 * 1000 * 1000.
Definition defaultRSHIdleTimeout : Z := 30 * minute.

(** The addresses the services answer, and the name a machine has: the last one that
    has the address. *)
Definition allow (cfg : Config) (a : bytes) : bool := existsb (fun c => bool_decide (c_IP c = MkAddr a [])) (Clients cfg).
Definition aliasByIP (cfg : Config) (a : bytes) : bytes :=
  match last (filter (fun c => c_IP c = MkAddr a []) (Clients cfg)) with Some c => c_Name c | None => [] end.

Definition bootpServer (cfg : Config) (o : options) : Bootp.Server :=
  Bootp.MkServer (ip (ServerIP cfg)) (p_bits <$> Netmask cfg)
    ((fun c => Bootp.MkClient (c_Name c) (c_MAC c) (ip (c_IP c)) (c_Hostname c)) <$> Clients cfg)
    (ip (DHCPServerID cfg)) (o_network o) (o_replyAddr o).

Definition tftpServer (cfg : Config) : Tftp.Server :=
  let ports := PortRange (s_TFTP (Services_ cfg)) in Tftp.MkServer (Some (allow cfg)) (fst ports) (snd ports) 0 0 0 0.

Definition rshServer (cfg : Config) (o : options) : Rcmd.Server * Z :=
  (Rcmd.MkServer (Some (allow cfg)) (o_highPorts o),
   if (o_idle o =? 0) && negb (o_network o) then defaultRSHIdleTimeout else o_idle o).

Section services.
Context (k : answers).

Abbreviation act := (prog resource happening start_failure).

(** ** Stopping *)

Inductive close_failure := Incomplete | CaptureFailed (e : Z) | TreeFailed (e : Z).

Definition socket_of {A} (s : service) (server : option A) : list resource := match server with Some _ => [Socket s] | None => [] end.
Definition sockets (s : Servers) : list resource :=
  socket_of BOOTP (sv_bootp s) ++ socket_of TFTP (sv_tftp s) ++ socket_of RSH (sv_rsh s).

Definition logged (x : happening) (h : held resource happening) : held resource happening := MkHeld (h_open h) (h_log h ++ [x]).

(** Every stage of the drain ended. *)
Definition drained (s : Servers) : bool :=
  a_loops k && match sv_rsh s with Some _ => a_rsh k | None => true end && match sv_tftp s with Some _ => a_tftp k | None => true end.

Definition closed (s : Servers) : Servers := MkServers (sv_rec s) (sv_started s) true (sv_bootp s) (sv_tftp s) (sv_rsh s).

(** [CloseWithReason]: what it returns, and the servers that are closing. *)
Definition CloseWithReason (reason : bytes) (s : Servers) (h : held resource happening) : (option close_failure * Servers) * held resource happening :=
  let h := fold_left (fun h r => close_ r h) (sockets s) h in
  let '(recErr, h) :=
    if sv_rec s then
      if sv_started s then (a_finish k, close_ Events (logged (FinishedCapture (if drained s then reason else str "incomplete")) h))
      else (a_closeEvents k, close_ Events (logged ClosedCapture h))
    else (None, h) in
  let h := close_ Media h in
  (if negb (drained s) then Some Incomplete
   else match recErr with Some e => Some (CaptureFailed e) | None => TreeFailed <$> a_tree k end, closed s, h).

(** [Close]. *)
Definition Close (s : Servers) : held resource happening -> (option close_failure * Servers) * held resource happening := CloseWithReason (str "clean") s.

(** A start that failed closes what there is; the error of the start is the one
    reported. *)
Definition or_close {A} (s : Servers) (m : act A) : act A := on_error m (fun e h => (inr e, (Close s h).2)).

(** ** Starting *)

(** One service: its socket, and the server that has it. *)
Definition listen (s : Servers) (sv : service) (on_network : bool) (port : Z) : act unit :=
  bind (note (Listened sv on_network port)) (fun _ =>
  bind (or_close s (match a_listen k sv with Some (perm, e) => fail (NotBound sv port perm e) | None => ret tt end)) (fun _ =>
  acquire (Socket sv))).

Definition start_bootp (cfg : Config) (o : options) (s : Servers) : act Servers :=
  if s_BOOTP (Services_ cfg) then
    bind (listen s BOOTP (o_network o) (p_BOOTP (Ports_ cfg))) (fun _ =>
    ret (MkServers (sv_rec s) (sv_started s) (sv_closing s) (Some (bootpServer cfg o)) (sv_tftp s) (sv_rsh s)))
  else ret s.

Definition start_tftp (cfg : Config) (o : options) (s : Servers) : act Servers :=
  if tftp_Enabled (s_TFTP (Services_ cfg)) then
    bind (listen s TFTP (o_network o) (p_TFTP (Ports_ cfg))) (fun _ =>
    ret (MkServers (sv_rec s) (sv_started s) (sv_closing s) (sv_bootp s) (Some (tftpServer cfg)) (sv_rsh s)))
  else ret s.

Definition start_rsh (cfg : Config) (o : options) (s : Servers) : act Servers :=
  if s_RSH (Services_ cfg) then
    bind (listen s RSH (o_network o) (p_RSH (Ports_ cfg))) (fun _ =>
    ret (MkServers (sv_rec s) (sv_started s) (sv_closing s) (sv_bootp s) (sv_tftp s) (Some (rshServer cfg o))))
  else ret s.

(** The recorder: one that was given is open already. *)
Definition start_recorder (o : options) : act bool :=
  match o_recording o with
  | Injected => bind (acquire Events) (fun _ => ret true)
  | CaptureDir =>
      bind (on_error (match a_newRecorder k with Some e => fail (NotRecorded e) | None => ret tt end) (fun e => bind (release Media) (fun _ => ret e)))
        (fun _ => bind (acquire Events) (fun _ => ret true))
  | NoCapture => ret false
  end.

(** The services that are launched, in order. *)
Definition running (s : Servers) : list service :=
  match sv_bootp s with Some _ => [BOOTP] | None => [] end ++ match sv_tftp s with Some _ => [TFTP] | None => [] end ++
  match sv_rsh s with Some _ => [RSH] | None => [] end.

Definition launch (s : Servers) : act Servers :=
  bind (if sv_rec s then note ServerStarted else ret tt) (fun _ =>
  bind (each (fun l _ => note (Launched l)) (running s) tt) (fun _ =>
  ret (MkServers (sv_rec s) (sv_rec s) (sv_closing s) (sv_bootp s) (sv_tftp s) (sv_rsh s)))).

(** [Start]. *)
Definition Start (fuel : nat) (resolver : Resolver) (cfg : Config) (o : options) : act Servers :=
  bind (buildTree Media NotBuilt BuildPanicked fuel resolver cfg) (fun _ =>
  bind (start_recorder o) (fun rec =>
  let s := MkServers rec false false None None None in
  bind (if rec then bind (or_close s (match a_writeRun k with Some e => fail (NoRun e) | None => ret tt end)) (fun _ => note WroteRun) else ret tt) (fun _ =>
  bind (start_bootp cfg o s) (fun s =>
  bind (start_tftp cfg o s) (fun s =>
  bind (start_rsh cfg o s) launch))))).

(** [runListener]: a service that stopped on its own is recorded. *)
Definition runListener (s : Servers) (l : service) (h : held resource happening) : held resource happening :=
  if sv_closing s then h else if sv_rec s then logged (ListenerExited l) h else h.
End services.

(** ** A start leaves all or nothing *)

Section starting.
Context (k : answers).

Definition events_of (s : Servers) : list resource := if sv_rec s then [Events] else [].

(** What a server that runs has open, the last opened first. *)
Definition kept (s : Servers) : list resource := reverse (sockets s) ++ events_of s ++ [Media].

Ltac opened := cbn [app h_open close_ reverse rev_append fold_left]; repeat first [rewrite without_here | rewrite without_other by done]; try done.

(** Closing gives back what was open before. *)
Lemma Close_open reason s h rest : h_open h = kept s ++ rest -> h_open (CloseWithReason k reason s h).2 = rest.
Proof.
  unfold CloseWithReason, kept, sockets, events_of, socket_of. destruct s as [rec started closing b t r]. cbn [sv_rec sv_started sv_closing sv_bootp sv_tftp sv_rsh].
  intros H. destruct b, t, r, rec, started; cbn [app fold_left close_ h_open logged snd reverse rev_append] in H |- *; rewrite H; by opened.
Qed.

(** No capture was finished between. *)
Definition unfinished (h h' : held resource happening) : Prop := forall r, FinishedCapture r ∈ h_log h' -> FinishedCapture r ∈ h_log h.

Lemma unfinished_app h op log xs : Forall (fun x => forall r, x <> FinishedCapture r) xs -> log = h_log h ++ xs -> unfinished h (MkHeld op log).
Proof.
  intros Hx -> r. cbn [h_log]. intros [H|H]%elem_of_app; [done|]. rewrite Forall_forall in Hx. by destruct (Hx _ H r).
Qed.

Lemma fold_close_log rs (h : held resource happening) : h_log (fold_left (fun h r => close_ r h) rs h) = h_log h.
Proof. revert h. induction rs as [|r rs IH]; intros h; [done|]. cbn. by rewrite IH. Qed.

Lemma Close_unfinished s h : sv_started s = false -> unfinished h (Close k s h).2.
Proof.
  intros Hs r. unfold Close, CloseWithReason. rewrite Hs. destruct (sv_rec s); cbn [snd close_ h_log logged]; rewrite fold_close_log; [|done].
  intros [H|H%list_elem_of_singleton]%elem_of_app; done.
Qed.

(** A service is opened, or nothing of the server is left. *)
Lemma listen_open s sv n port h rest : h_open h = kept s ++ rest ->
  match listen k s sv n port h with
  | (inl _, h') => h_open h' = rest /\ (sv_started s = false -> unfinished h h')
  | (inr _, h') => h_open h' = Socket sv :: kept s ++ rest /\ h_log h' = h_log h ++ [Listened sv n port]
  end.
Proof.
  intros H. unfold listen, bind, note, or_close, on_error, fail, ret, acquire, Close. destruct (a_listen k sv) as [[perm e]|]; cbn [h_open h_log].
  - split; [by apply Close_open|]. intros Hs r Hr. apply Close_unfinished in Hr; [|done]. cbn in Hr.
    apply elem_of_app in Hr as [Hr|Hr%list_elem_of_singleton]; done.
  - by rewrite H.
Qed.

(** A step of a start: it ends with nothing open, or with a server that has what is. *)
Definition step (h0 : held resource happening) (r : (start_failure + Servers) * held resource happening) (log : list happening) (s' : Servers) : Prop :=
  match r with
  | (inl _, h') => h_open h' = h_open h0 /\ unfinished h0 h'
  | (inr s1, h') => s1 = s' /\ h_open h' = kept s' ++ h_open h0 /\ h_log h' = h_log h0 ++ log
  end.

(** What a start may note before it serves. *)
Definition quiet (xs : list happening) : Prop := Forall (fun x => forall r, x <> FinishedCapture r) xs.

Lemma unfinished_trans h0 h h' xs : quiet xs -> h_log h = h_log h0 ++ xs -> unfinished h h' -> unfinished h0 h'.
Proof.
  intros Hq Hl Hu r Hr. apply Hu in Hr. rewrite Hl in Hr. apply elem_of_app in Hr as [|Hr]; [done|].
  unfold quiet in Hq. rewrite Forall_forall in Hq. by destruct (Hq _ Hr r).
Qed.

Lemma step_bind h0 m log s (f : Servers -> prog resource happening start_failure Servers) h log' s' :
  step h0 (m h) log s -> (forall h1, h_open h1 = kept s ++ h_open h0 -> h_log h1 = h_log h0 ++ log -> step h0 (f s h1) log' s') ->
  step h0 (bind m f h) log' s'.
Proof. unfold step, bind. destruct (m h) as [[e|s1] h1]; [done|]. intros (-> & Ho & Hl) Hf. by apply Hf. Qed.

Section steps.
Context (cfg : Config) (o : options) (rec : bool) (h0 : held resource happening) (xs : list happening) (Hxs : quiet xs).

Definition server_of {A} (on : bool) (server : A) : option A := if on then Some server else None.
Definition listened (on : bool) (l : service) (port : Z) : list happening := if on then [Listened l (o_network o) port] else [].

Lemma step_listen s sv port s' h : h_open h = kept s ++ h_open h0 -> h_log h = h_log h0 ++ xs -> sv_started s = false -> kept s' = Socket sv :: kept s ->
  step h0 (bind (listen k s sv (o_network o) port) (fun _ => ret s') h) (xs ++ listened true sv port) s'.
Proof.
  intros Hh Hlog0 Hs Hk. pose proof (listen_open s sv (o_network o) port h (h_open h0) Hh) as Hl. unfold bind at 1.
  destruct (listen k s sv (o_network o) port h) as [[e|u] h1].
  - destruct Hl as [Ho Hu]. split; [done|]. by eapply unfinished_trans; [|done|apply Hu].
  - destruct Hl as [Ho Hlog]. unfold ret, step. rewrite Hk, Hlog, Hlog0, <- app_assoc. by split.
Qed.

Definition with_bootp : Servers := MkServers rec false false (server_of (s_BOOTP (Services_ cfg)) (bootpServer cfg o)) None None.
Definition with_tftp : Servers :=
  MkServers rec false false (sv_bootp with_bootp) (server_of (tftp_Enabled (s_TFTP (Services_ cfg))) (tftpServer cfg)) None.
Definition with_rsh : Servers :=
  MkServers rec false false (sv_bootp with_bootp) (sv_tftp with_tftp) (server_of (s_RSH (Services_ cfg)) (rshServer cfg o)).

Lemma start_bootp_step h : h_open h = kept (MkServers rec false false None None None) ++ h_open h0 -> h_log h = h_log h0 ++ xs ->
  step h0 (start_bootp k cfg o (MkServers rec false false None None None) h) (xs ++ listened (s_BOOTP (Services_ cfg)) BOOTP (p_BOOTP (Ports_ cfg))) with_bootp.
Proof.
  intros Hh Hl. unfold start_bootp, with_bootp. destruct (s_BOOTP (Services_ cfg)); [|rewrite app_nil_r; by split].
  by apply (step_listen (MkServers rec false false None None None)).
Qed.

Lemma start_tftp_step h : h_open h = kept with_bootp ++ h_open h0 -> h_log h = h_log h0 ++ xs ->
  step h0 (start_tftp k cfg o with_bootp h) (xs ++ listened (tftp_Enabled (s_TFTP (Services_ cfg))) TFTP (p_TFTP (Ports_ cfg))) with_tftp.
Proof.
  intros Hh Hl. unfold start_tftp, with_tftp. destruct (tftp_Enabled (s_TFTP (Services_ cfg))); [|rewrite app_nil_r; by split].
  apply (step_listen with_bootp); try done. unfold kept, sockets, with_bootp; cbn; by destruct (s_BOOTP _).
Qed.

Lemma start_rsh_step h : h_open h = kept with_tftp ++ h_open h0 -> h_log h = h_log h0 ++ xs ->
  step h0 (start_rsh k cfg o with_tftp h) (xs ++ listened (s_RSH (Services_ cfg)) RSH (p_RSH (Ports_ cfg))) with_rsh.
Proof.
  intros Hh Hl. unfold start_rsh, with_rsh. destruct (s_RSH (Services_ cfg)); [|rewrite app_nil_r; by split].
  apply (step_listen with_tftp); try done. unfold kept, sockets, with_tftp, with_bootp; cbn; by destruct (s_BOOTP _), (tftp_Enabled _).
Qed.

(** The server that serves. *)
Definition serving : Servers := MkServers rec rec false (sv_bootp with_rsh) (sv_tftp with_rsh) (sv_rsh with_rsh).

Lemma notes_log ls h : (each (E := start_failure) (R := resource) (fun l _ => note (Launched l)) ls tt h) = (inr tt, MkHeld (h_open h) (h_log h ++ (Launched <$> ls))).
Proof.
  revert h. induction ls as [|l ls IH]; intros h; [rewrite app_nil_r; by destruct h|]. cbn [each]. unfold bind, note at 1. rewrite IH. cbn [h_open h_log].
  by rewrite <- app_assoc.
Qed.

Lemma launch_step h : h_open h = kept with_rsh ++ h_open h0 -> h_log h = h_log h0 ++ xs ->
  step h0 (launch with_rsh h) (xs ++ (if rec then [ServerStarted] else []) ++ (Launched <$> running serving)) serving.
Proof.
  intros Hh Hl. unfold launch, bind. change (sv_rec with_rsh) with rec. change (running with_rsh) with (running serving).
  destruct rec eqn:Er; cbn [note ret]; rewrite notes_log; cbn [h_open h_log]; (split; [unfold serving; by rewrite Er|]);
    (split; [exact Hh|cbn [h_log]; rewrite Hl; by rewrite <- ?app_assoc]).
Qed.
End steps.

(** The recorder of a start, and the file of a run. *)
Definition records (o : options) : bool := match o_recording o with NoCapture => false | _ => true end.

Definition bare (rec : bool) : Servers := MkServers rec false false None None None.

Lemma start_recorder_open o h rest : h_open h = Media :: rest ->
  match start_recorder k o h with
  | (inl _, h') => h_open h' = rest /\ h_log h' = h_log h
  | (inr rec, h') => rec = records o /\ h_open h' = kept (bare rec) ++ rest /\ h_log h' = h_log h
  end.
Proof.
  intros Hh. unfold start_recorder, records, bind, on_error, release, acquire, ret, fail.
  destruct (o_recording o); [by rewrite Hh| |by rewrite Hh].
  destruct (a_newRecorder k); cbn [h_open h_log close_ app kept]; [|by rewrite Hh].
  by rewrite Hh, without_here.
Qed.

Definition wrote (rec : bool) : list happening := if rec then [WroteRun] else [].

Definition start_run (rec : bool) : prog resource happening start_failure unit :=
  if rec then bind (or_close k (bare rec) (match a_writeRun k with Some e => fail (NoRun e) | None => ret tt end)) (fun _ => note WroteRun) else ret tt.

Lemma start_run_open rec h rest : h_open h = kept (bare rec) ++ rest ->
  match start_run rec h with
  | (inl _, h') => h_open h' = rest /\ unfinished h h'
  | (inr _, h') => h_open h' = kept (bare rec) ++ rest /\ h_log h' = h_log h ++ wrote rec
  end.
Proof.
  intros Hh. unfold start_run, wrote. destruct rec; [|by rewrite app_nil_r].
  unfold bind, or_close, on_error, note, ret, fail. destruct (a_writeRun k); [|done].
  split; [by apply Close_open|by apply Close_unfinished].
Qed.

(** What a start does before it serves, and when it serves. *)
Definition noted (cfg : Config) (o : options) : list happening :=
  wrote (records o) ++ listened o (s_BOOTP (Services_ cfg)) BOOTP (p_BOOTP (Ports_ cfg)) ++
  listened o (tftp_Enabled (s_TFTP (Services_ cfg))) TFTP (p_TFTP (Ports_ cfg)) ++ listened o (s_RSH (Services_ cfg)) RSH (p_RSH (Ports_ cfg)) ++
  (if records o then [ServerStarted] else []) ++ (Launched <$> running (serving cfg o (records o))).

Lemma quiet_listened o on l port : quiet (listened o on l port).
Proof. destruct on; by repeat constructor. Qed.

Lemma quiet_wrote rec : quiet (wrote rec).
Proof. destruct rec; by repeat constructor. Qed.

Lemma step_services cfg o rec h0 h : h_open h = kept (bare rec) ++ h_open h0 -> h_log h = h_log h0 ++ wrote rec ->
  step h0 (bind (start_bootp k cfg o (bare rec)) (fun s => bind (start_tftp k cfg o s) (fun s => bind (start_rsh k cfg o s) launch)) h)
    (wrote rec ++ listened o (s_BOOTP (Services_ cfg)) BOOTP (p_BOOTP (Ports_ cfg)) ++
     listened o (tftp_Enabled (s_TFTP (Services_ cfg))) TFTP (p_TFTP (Ports_ cfg)) ++ listened o (s_RSH (Services_ cfg)) RSH (p_RSH (Ports_ cfg)) ++
     (if rec then [ServerStarted] else []) ++ (Launched <$> running (serving cfg o rec))) (serving cfg o rec).
Proof.
  intros Hh Hl.
  rewrite !app_assoc.
  eapply step_bind; [apply (start_bootp_step cfg o rec h0 (wrote rec)); [apply quiet_wrote|done|done]|]. intros h1 Hh1 Hl1.
  eapply step_bind; [eapply start_tftp_step; [|done|done]|]. { apply Forall_app. split; [apply quiet_wrote|apply quiet_listened]. }
  intros h2 Hh2 Hl2.
  eapply step_bind; [eapply start_rsh_step; [|done|done]|]. { apply Forall_app; split; [apply Forall_app; split; [apply quiet_wrote|apply quiet_listened]|apply quiet_listened]. }
  intros h3 Hh3 Hl3. rewrite <- (app_assoc _ (if rec then _ else _)). by apply launch_step.
Qed.

(** A start leaves all or nothing. When it fails — the tree is not built, the
    capture is not opened, the file of the run is not written, or a socket is not
    bound — everything it opened is closed and no capture was finished. When it
    serves, the tree, the file of events if it records, and the sockets of the services
    that the configuration enables are open, and what happened is, in this order: the
    file of the run was written, every socket was bound, the start was recorded, and
    only then the services were launched. *)
Lemma Start_all_or_nothing fuel resolver cfg o h :
  step h (Start k fuel resolver cfg o h) (noted cfg o) (serving cfg o (records o)).
Proof.
  unfold Start, buildTree. unfold bind at 1. rewrite openTree_runs. destruct (built _ _ _ _ _) as [[t p]|e|]; [|by split; [|intros ?]..].
  set (h1 := MkHeld (Media :: h_open h) (h_log h)).
  pose proof (start_recorder_open o h1 (h_open h) eq_refl) as Hr. unfold bind at 1. destruct (start_recorder k o h1) as [[e|rec] h2].
  { destruct Hr as [Ho Hl]. split; [done|]. intros r. by rewrite Hl. }
  destruct Hr as (-> & Ho & Hl). change (MkServers (records o) false false None None None) with (bare (records o)).
  pose proof (start_run_open (records o) h2 (h_open h) Ho) as Hw.
  change (if records o then _ else ret tt) with (start_run (records o)).
  unfold bind at 1. destruct (start_run (records o) h2) as [[e|u] h3].
  { destruct Hw as [Ho3 Hu]. split; [done|]. intros r Hr. apply Hu in Hr. by rewrite Hl in Hr. }
  destruct Hw as [Ho3 Hl3]. apply step_services; [done|]. by rewrite Hl3, Hl.
Qed.

(** *** Closing *)

(** What a close reports, and the reason a capture gets. *)
Definition reported (s : Servers) : option close_failure :=
  if drained k s then
    match (if sv_rec s then if sv_started s then a_finish k else a_closeEvents k else None) with
    | Some e => Some (CaptureFailed e)
    | None => TreeFailed <$> a_tree k
    end
  else Some Incomplete.

Definition ending (reason : bytes) (s : Servers) : list happening :=
  if sv_rec s then if sv_started s then [FinishedCapture (if drained k s then reason else str "incomplete")] else [ClosedCapture] else [].

Lemma CloseWithReason_runs reason s h rest : h_open h = kept s ++ rest ->
  CloseWithReason k reason s h = (reported s, closed s, MkHeld rest (h_log h ++ ending reason s)).
Proof.
  intros Hh. pose proof (Close_open reason s h rest Hh) as Ho.
  assert (Hl : h_log (CloseWithReason k reason s h).2 = h_log h ++ ending reason s).
  { unfold CloseWithReason, ending. destruct (sv_rec s), (sv_started s); cbn [snd h_log close_ logged]; by rewrite fold_close_log, ?app_nil_r. }
  assert (He : (CloseWithReason k reason s h).1 = (reported s, closed s)).
  { unfold CloseWithReason, reported. destruct (sv_rec s), (sv_started s), (drained k s); done. }
  destruct (CloseWithReason k reason s h) as [r h']. cbn in *. subst r. destruct h'. cbn in *. by subst.
Qed.

(** A run from its start to its end. *)
Definition run (fuel : nat) (resolver : Resolver) (cfg : Config) (o : options) (reason : bytes) (h : held resource happening) :
  (start_failure + option close_failure) * held resource happening :=
  match Start k fuel resolver cfg o h with
  | (inl e, h) => (inl e, h)
  | (inr s, h) => let '((err, _), h) := CloseWithReason k reason s h in (inr err, h)
  end.

(** C12. A run ends as it began: whatever fails, what it opened is closed — also the
    media of a tree whose generated files or selections are refused. If it served
    and recorded, its capture is finished once, last, and with the reason it was stopped
    for, or as incomplete when work was still going on — which is then also what the
    stop reports, before an error of the capture, before one of the tree. *)
Theorem run_ends fuel resolver cfg o reason h :
  let '(r, h') := run fuel resolver cfg o reason h in
  h_open h' = h_open h /\
  match r with
  | inl _ => unfinished h h'
  | inr err => let s := serving cfg o (records o) in
      err = reported s /\
      h_log h' = h_log h ++ noted cfg o ++ (if records o then [FinishedCapture (if drained k s then reason else str "incomplete")] else [])
  end.
Proof.
  pose proof (Start_all_or_nothing fuel resolver cfg o h) as Hs. unfold run. unfold step in Hs.
  destruct (Start k fuel resolver cfg o h) as [[e|s] h1]; [done|]. destruct Hs as (-> & Ho & Hl).
  rewrite (CloseWithReason_runs _ _ _ _ Ho). cbn [h_open h_log]. split; [done|]. split; [done|].
  rewrite Hl, <- app_assoc. unfold ending. cbn [serving sv_rec sv_started]. by destruct (records o).
Qed.

(** A service that stops on its own while the others run is recorded; one that stops
    because of the close is not. *)
Lemma runListener_closed reason s l h : runListener (CloseWithReason k reason s h).1.2 l h = h.
Proof. unfold CloseWithReason. by destruct (sv_rec s), (sv_started s). Qed.
End starting.
