(* ===== verification/Configured.v ===== *)
(** An accepted configuration, and the servers [internal/serve] makes of it: whom they
    serve. The servers of Services.v, with what Bootp.v, Tftp.v and Rcmd.v show of any
    server. *)
From S2P Require Import Prelude Netip Addr Config Install Services.
From S2P Require Bootp Tftp Rcmd.

(** Every address is IPv4: of the addresses, the reader asks this only of the
    identifier of the DHCP server. *)
Record all_v4 (c : Config) : Prop := {
  v4_server : Is4 (ServerIP c) = true;
  v4_clients : Forall (fun cl => Is4 (c_IP cl) = true) (Clients c);
  v4_mask p : Netmask c = Some p -> Is4 (p_addr p) = true;
}.

(** A machine of the configuration has the address. *)
Definition machine (c : Config) (a : bytes) : Prop := exists cl, cl ∈ Clients c /\ c_IP cl = MkAddr a [].

Lemma allow_machine c a : allow c a = true <-> machine c a.
Proof.
  unfold allow, machine. rewrite existsb_exists. setoid_rewrite list_elem_of_In. setoid_rewrite bool_decide_eq_true. done.
Qed.

Lemma allow_false c a : ~ machine c a -> allow c a = false.
Proof. rewrite <- allow_machine. by destruct (allow c a). Qed.

(** The name of a machine is the one of the last client that has its address. *)
Lemma aliasByIP_machine c a : machine c a -> exists pre cl post,
  Clients c = pre ++ cl :: post /\ c_IP cl = MkAddr a [] /\ Forall (fun d => c_IP d <> MkAddr a []) post /\ aliasByIP c a = c_Name cl.
Proof.
  intros (cl & Hin & Hip). unfold aliasByIP. induction (Clients c) as [|d cs IH] using rev_ind; [by apply not_elem_of_nil in Hin|].
  rewrite filter_app. destruct (decide (c_IP d = MkAddr a [])) as [Hd|Hd].
  - exists cs, d, []. rewrite filter_cons_True by done. rewrite filter_nil, last_snoc. by split_and!.
  - rewrite filter_cons_False, filter_nil, app_nil_r by done. apply elem_of_app in Hin as [Hin|H]; [|by apply list_elem_of_singleton in H as ->].
    destruct (IH Hin) as (pre & c' & post & -> & H1 & H2 & H3). exists pre, c', (post ++ [d]).
    rewrite <- app_assoc. split_and!; [done|done| |done]. apply Forall_app. split; [done|by apply Forall_singleton].
Qed.

(** A server of an accepted configuration is one that answers without fail. *)
Lemma bootpServer_plain c o : config_ok c -> all_v4 c -> Bootp.plain_config (bootpServer c o).
Proof.
  intros Hok [Hs Hc Hm]. unfold Is4 in *. apply Z.eqb_eq in Hs. split.
  - split; cbn; [done| |].
    + unfold Bootp.serverID. cbn. destruct (ok_ids c Hok) as [->|H]; [done|]. unfold Is4 in H. zbool.
      destruct (ip (DHCPServerID c)); done.
    + intros bits. destruct (Netmask c) as [p|] eqn:E; [|done]. cbn. intros [= <-].
      pose proof (ok_mask c Hok p E) as Hb. specialize (Hm p eq_refl). unfold Is6 in Hb. zbool. by rewrite Hm in Hb.
  - cbn. apply Forall_fmap. destruct (ok_clients c Hok) as [_ Hh]. rewrite Forall_forall in Hc, Hh |- *.
    intros cl Hcl. specialize (Hc cl Hcl). destruct (Hh cl Hcl) as [Hl _]. unfold maxHostname in Hl. zbool. split; cbn; [done|lia].
Qed.

(** What is answered to a request for an address is for a machine of the configuration. *)
Definition answers_machine (c : Config) (req rep : bytes) : Prop :=
  exists cl, cl ∈ Clients c /\ c_MAC cl = sub req 28 6 /\ Bootp.rep_xid rep = sub req 4 4 /\
    (Bootp.yiaddr rep = ip (c_IP cl) /\ Bootp.siaddr rep = ip (ServerIP c) \/
     Bootp.option_value 53 rep = Some [Bootp.dhcpNak] /\ Bootp.yiaddr rep = [0; 0; 0; 0]).

Lemma replies_machine c o req rep : Bootp.replies_to (bootpServer c o) req rep -> answers_machine c req rep.
Proof.
  intros (bc & Hin & Hmac & _ & Hx & _ & H & _). cbn in Hin. apply list_elem_of_fmap in Hin as (cl & -> & Hcl). by exists cl.
Qed.

(** C11. Only the machines of the configuration are served. Of a configuration that is
    accepted and whose addresses are IPv4: whatever datagram arrives at the BOOTP port,
    the server does not panic, and what it answers is for the machine whose hardware
    address the request has, with that machine's address and the server's, or refuses
    it one; without a network of its own it leaves DHCP alone; and a transfer or a
    command that is asked for from an address that no machine has is refused before the
    file is looked for or the request is read. *)
Theorem configured_only c o : config_ok c -> all_v4 c ->
  (forall req src, wf_bytes req -> exists r, Bootp.Serve (bootpServer c o) req src = Ok r /\
     forall rep dst, r = Some (rep, dst) -> answers_machine c req rep) /\
  (forall req src m, wf_bytes req -> o_network o = false -> Bootp.parseDHCP req = (m, true) -> Bootp.Serve (bootpServer c o) req src = Ok None) /\
  (forall tcp port, ~ machine c (Unmap (AddrFromSlice tcp)) ->
     (forall (P : Type) (peer : P -> bytes -> bool * list Tftp.event * P) unicode FS free pkt reply xfer, 2 <= zlen pkt ->
        Tftp.handle peer unicode (tftpServer c) FS free (Tftp.UDPAddr tcp port) pkt reply xfer =
        Ok (None, Tftp.sendError peer Tftp.errAccessViolation (str "access denied") reply, xfer)) /\
     (forall (W : Type) (conn : Rcmd.Conn W) w,
        (Rcmd.handle (rshServer c o).1 (Rcmd.logged conn) (Some (tcp, port)) (w, [])).2 =
        [Rcmd.EvReject (Unmap (AddrFromSlice tcp)) Rcmd.Filter; Rcmd.refusal (str "permission denied"); Rcmd.EvClose])).
Proof.
  intros Hok Hv. split_and!.
  - intros req src Hwf. destruct (Bootp.Serve_replies (bootpServer c o) req src (bootpServer_plain c o Hok Hv) Hwf) as (r & Hr & H).
    exists r. split; [done|]. intros rep dst E. by eapply replies_machine, H.
  - intros req src m Hwf Ho. by apply Bootp.dhcp_left_alone.
  - intros tcp port Hm%allow_false. split.
    + intros P peer unicode FS free pkt reply xfer Hl. unfold Tftp.handle. rewrite (proj2 (Z.ltb_ge _ _)) by done. cbn. by rewrite Hm.
    + intros W conn w. by apply (Rcmd.handle_denied _ _ (allow c)).
Qed.

(** *** A machine of a small configuration, and a stranger *)

Definition demo_options : options := MkOptions None false NoCapture 0 false.

Lemma demo_v4 : all_v4 (demo_config dev).
Proof.
  assert (H : Is4 (ServerIP (demo_config dev)) && forallb (fun cl => Is4 (c_IP cl)) (Clients (demo_config dev)) &&
              match Netmask (demo_config dev) with None => true | Some p => Is4 (p_addr p) end = true) by (vm_compute; reflexivity).
  apply andb_true_iff in H as [[H1 H2]%andb_true_iff H3]. split; [done| |].
  - apply Forall_forall. intros cl Hcl%list_elem_of_In. rewrite forallb_forall in H2. by apply H2.
  - intros p Hp. by rewrite Hp in H3.
Qed.

Lemma demo_stranger : ~ machine (demo_config dev) (Unmap (AddrFromSlice [10; 0; 0; 9])).
Proof. rewrite <- allow_machine. assert (H : allow (demo_config dev) (Unmap (AddrFromSlice [10; 0; 0; 9])) = false) by (vm_compute; reflexivity). by rewrite H. Qed.

Lemma configured_only_witness :
  (Rcmd.handle (rshServer (demo_config dev) demo_options).1 (Rcmd.logged (Rcmd.client_conn Rcmd.no_shell)) (Some ([10; 0; 0; 9], 1000)) (Rcmd.demo_request, [])).2 =
  [Rcmd.EvReject [10; 0; 0; 9] Rcmd.Filter; Rcmd.refusal (str "permission denied"); Rcmd.EvClose].
Proof.
  destruct (configured_only (demo_config dev) demo_options demo_accepted demo_v4) as (_ & _ & H).
  exact (proj2 (H [10; 0; 0; 9] 1000 demo_stranger) _ _ _).
Defined.

(** A server whose address is not IPv4. *)
Definition v6_raw : raw :=
  MkRaw (str "fe80::1") [] [] [MkRawClient (str "indy") (str "08:00:69:01:02:03") (str "192.168.1.5") (str "indy")] [] [] []
    [MkRawSet (str "base") None false [demo_layer] ∅ ∅ []] [] None None.
Definition v6_config : cfg Config := ParseIn (fun _ => Some v6_raw) (fun _ => None) (fun _ => None) id [] (str "/etc").

(** The reader takes it, and a machine that boots is told an address that is its first
    four bytes. *)
Theorem v6_server_cut : exists c rep dst, v6_config = Ok c /\ zlen (ip (ServerIP c)) = 16 /\
  Bootp.Serve (bootpServer c demo_options) Bootp.ex_bootp (Bootp.UDPAddr [0; 0; 0; 0] 68) = Ok (Some (rep, dst)) /\
  Bootp.siaddr rep = take 4 (ip (ServerIP c)).
Proof.
  assert (H : match v6_config with
              | Ok c => match Bootp.Serve (bootpServer c demo_options) Bootp.ex_bootp (Bootp.UDPAddr [0; 0; 0; 0] 68) with
                        | Ok (Some (rep, dst)) => bool_decide (zlen (ip (ServerIP c)) = 16) && bool_decide (Bootp.siaddr rep = take 4 (ip (ServerIP c)))
                        | _ => false
                        end
              | _ => false end = true) by (vm_compute; reflexivity).
  destruct v6_config as [c|e|]; [|done|done]. destruct (Bootp.Serve _ _ _) as [[[rep dst]|]|e|] eqn:E; [|done..].
  apply andb_true_iff in H as [H1%bool_decide_eq_true H2%bool_decide_eq_true]. by exists c, rep, dst.
Qed.
