(* ===== verification/Boot.v ===== *)
(** Booting from the server: a machine of an accepted configuration asks by BOOTP, reads
    its address and the boot file in the reply, and fetches the file by TFTP; the TFTP
    server reads the tree ([treeFS] of [internal/serve/serve.go]). The servers are those
    of Services.v, the client is a PROM that resends until it is answered. *)
From S2P Require Import Prelude Netip Text Addr Config Tree Attempts Rsh Services Configured.
From S2P Require Bootp Tftp Install.

Section tree_fs.
Context (t : Tree) (missing : Tree.error -> bool) (find_text : bytes -> find_err -> bytes).

(** [treeFS.Open]. *)
Definition treeFS_Open (path : bytes) : outcome Empty_set (Tftp.File + bool * bytes) :=
  match Tree.Open t (fsName path) with
  | Ok (regular i h) => Ok (inl (Tftp.MkFile (ra_of h) (Size i)))
  | Ok (dirFile _ _ _) => Ok (inr (false, errNotRegular (fsName path)))
  | Err e => Ok (inr (if not_exist missing e then (true, path ++ str ": file not found") else (false, find_text (fsName path) e)))
  | Panic => Panic
  end.

(** [treeFS.ResolveImage]: for the record of a transfer. *)
Definition treeFS_ResolveImage (path : bytes) : outcome (find_err + bytes) (bytes * bytes) :=
  match Tree.Resolve t (fsName path) with
  | Ok o =>
      match Kind o with
      | OriginImage | OriginDirectory => Ok (Source_ o, Path_ o)
      | _ => Err (inr (path ++ str ": not backed by media"))
      end
  | Err e => Err (inl e)
  | Panic => Panic
  end.

(** The file system of the TFTP server. *)
Definition serves_tree (FS : Tftp.FileSystem) : Prop := forall p r, treeFS_Open p = Ok r -> FS p = r.
End tree_fs.

(** ** The client *)

(** What a PROM takes from a reply: the boot file, up to its first NUL. *)
Definition boot_file (rep : bytes) : bytes := (cut 0 (sub rep 108 128)).1.

(** What it asks for then. *)
Definition boot_rrq (rep : bytes) (opts : list (bytes * bytes)) : bytes := Tftp.rrq (boot_file rep) (str "octet") opts.

(** The first client of the configuration with a hardware address. *)
Definition first_with (c : Config) (mac : bytes) (cl : Client) : Prop :=
  exists pre post, Clients c = pre ++ cl :: post /\ c_MAC cl = mac /\ Forall (fun d => c_MAC d <> mac) pre.

Lemma lookup_first c o mac cl : first_with c mac cl ->
  Bootp.lookupClient (bootpServer c o) mac = Some (Bootp.MkClient (c_Name cl) (c_MAC cl) (ip (c_IP cl)) (c_Hostname cl)).
Proof.
  intros (pre & post & E & Hm & Hp). unfold Bootp.lookupClient. cbn. rewrite E. clear E.
  induction Hp as [|d pre Hd Hp IH]; cbn [app fmap list_fmap].
  - by rewrite filter_cons_True.
  - by rewrite filter_cons_False.
Qed.

Lemma client_machine c mac cl a : first_with c mac cl -> c_IP cl = MkAddr a [] -> machine c a.
Proof. intros (pre & post & E & _) Ha. exists cl. rewrite E. split; [|done]. apply elem_of_app. right. by left. Qed.

Lemma cut_zeros (file : bytes) k : 0 ∉ file -> (cut 0 (file ++ replicate k 0)).1 = file.
Proof.
  intros Hf. destruct k as [|k]; [|cbn [replicate]; by rewrite cut_app].
  rewrite app_nil_r. induction file as [|x file IH]; [done|]. apply not_elem_of_cons in Hf as [Hx Hf]. cbn. rewrite (proj2 (Z.eqb_neq x 0)) by congruence.
  destruct (cut 0 file) eqn:E. cbn in *. by rewrite IH.
Qed.

Lemma tftpServer_plain c : Tftp.plain_policy (tftpServer c).
Proof. by split. Qed.

(** A BOOTP request for a boot file. *)
Record asks (req mac file : bytes) : Prop := {
  as_wf : wf_bytes req; as_length : 300 <= zlen req; as_head : sub req 0 3 = [1; 1; 6];
  as_bootp : Bootp.isDHCP req = Ok false; as_mac : sub req 28 6 = mac;
  as_file : exists k, sub req 108 128 = file ++ replicate k 0; as_text : 0 ∉ file;
}.

Lemma lookup_tftp t missing find_text FS file i h : serves_tree t missing find_text FS ->
  Tree.Open t (fsName (Tftp.trim_slash file)) = Ok (regular i h) -> FS (Tftp.trim_slash file) = inl (Tftp.MkFile (ra_of h) (Size i)).
Proof. intros HF Ho. apply HF. unfold treeFS_Open. by rewrite Ho. Qed.

(** A read request of a machine of the configuration runs a transfer. *)
Lemma handle_rrq {P} (peer : P -> bytes -> bool * list Tftp.event * P) unicode c FS free a port file mode opts (reply xfer : Tftp.net) t n' :
  machine c a -> zlen a = 4 -> 0 ∉ file -> 0 ∉ mode -> Forall Tftp.good_option opts ->
  Tftp.serveFile peer (tftpServer c) FS free a port file (Tftp.as_map unicode opts) xfer = Some (t, n') ->
  Tftp.handle peer unicode (tftpServer c) FS free (Tftp.UDPAddr a port) (Tftp.rrq file mode opts) reply xfer = Ok (Some t, reply, n').
Proof.
  intros Hm%allow_machine Ha Hf Hmode Ho Hs. destruct (Tftp.rrq_roundtrip unicode file mode opts Hf Hmode Ho) as (trailing & Hp & Hopts).
  assert (Hl : 2 <= zlen (Tftp.rrq file mode opts)) by (unfold Tftp.rrq; rewrite zlen_app, zlen_be_enc; pose proof (zlen_nonneg (terminated 0 (file :: mode :: Tftp.fields_of opts))); lia).
  unfold Tftp.handle. rewrite (proj2 (Z.ltb_ge _ 2)) by done. cbn [Tftp.AllowIP tftpServer].
  replace (Unmap (AddrFromSlice a)) with a by (unfold AddrFromSlice, Unmap; rewrite Ha; cbn; by rewrite Ha).
  rewrite Hm. cbn [negb]. replace (get_u16 (Tftp.rrq file mode opts) 0) with Tftp.opRRQ by (unfold Tftp.rrq; by rewrite Tftp.get_u16_enc). rewrite Z.eqb_refl, Hp, Hopts. change (default ∅ (Some (Tftp.as_map unicode opts))) with (Tftp.as_map unicode opts). by rewrite Hs.
Qed.

(** C3. A machine boots. To a BOOTP request of full length that is no DHCP message, with the
    hardware address of a client of an accepted configuration whose addresses are IPv4,
    whatever else is in it, the server answers with the address of the first such client, with its own, and with the boot
    file that was asked for. When the machine then asks the TFTP server of the same
    configuration for that file from that address, with any printable options, over a network
    that loses packets and acknowledgements in any pattern, the tree has the file as one
    that reads like its bytes, and a port is free for the transfer:
    what it has is at every moment a prefix of the file's bytes; if the server records
    success it has them all and knows it; and that is so when no two sends in a row fail. *)
Theorem boot_delivers c o t missing find_text FS unicode free mac cl a req src file i h img :
  config_ok c -> all_v4 c -> first_with c mac cl -> c_IP cl = MkAddr a [] -> asks req mac file ->
  serves_tree t missing find_text FS -> Tree.Open t (fsName (Tftp.trim_slash file)) = Ok (regular i h) ->
  ReaderAtOK (ra_of h) (at_ img) (zlen img) -> Size i = zlen img -> Tftp.listenTransfer (tftpServer c) free <> None ->
  exists rep, Bootp.Serve (bootpServer c o) req src = Ok (Some (rep, Bootp.reply_to (bootpServer c o) src)) /\
    Bootp.yiaddr rep = a /\ Bootp.siaddr rep = ip (ServerIP c) /\ boot_file rep = file /\
    forall port opts faults reply, Forall Tftp.good_option opts ->
      let f := Tftp.MkFile (ra_of h) (Size i) in
      let bs := (Tftp.oack_of (tftpServer c) f (Tftp.as_map unicode opts)).1.2 in
      exists tr n', Tftp.handle (Tftp.lossy (Bootp.yiaddr rep) port bs) unicode (tftpServer c) FS free (Tftp.UDPAddr (Bootp.yiaddr rep) port) (boot_rrq rep opts)
          reply (Tftp.new_socket [] (Tftp.waiting, faults)) = Ok (Some tr, reply, n') /\
        let r := fst (Tftp.network n') in
        (exists k, 0 <= k <= zlen img /\ Tftp.got r = sub img 0 k) /\
        (Tftp.t_result tr = Tftp.ROk -> Tftp.got r = img /\ Tftp.finished r = true) /\
        (Tftp.spaced faults = true -> Tftp.t_result tr = Tftp.ROk).
Proof.
  intros Hok Hv Hfirst Hip [Hwf Hlen Hhead Hb Hmac [k Hfile] Hnul] HFS Ho Hra Hsz Hl. subst mac.
  destruct (Bootp.bootp_answer (bootpServer c o) req src _ (bootpServer_plain c o Hok Hv) Hwf Hlen Hhead Hb (lookup_first c o _ cl Hfirst))
    as (rep & Hr & _ & Hy & Hs & Hf & _). cbn in Hy, Hs. rewrite Hip in Hy. cbn in Hy.
  assert (Hbf : boot_file rep = file) by (unfold boot_file; rewrite Hf, Hfile; by apply cut_zeros).
  assert (Ha : zlen a = 4).
  { pose proof (v4_clients _ Hv) as H4. destruct Hfirst as (pre & post & E & _). rewrite E, Forall_app, Forall_cons, Hip in H4. unfold Is4 in H4. cbn in H4. lia. }
  exists rep. split; [exact Hr|]. split; [exact Hy|]. split; [exact Hs|]. split; [exact Hbf|]. intros port opts faults reply Hopts f bs. rewrite Hy. unfold boot_rrq. rewrite Hbf.
  pose proof (Tftp.transfer_delivers (tftpServer c) FS free a port file (Tftp.as_map unicode opts) faults f img (tftpServer_plain c)
    (lookup_tftp _ _ _ _ _ _ _ HFS Ho) Hl Hra Hsz) as H.
  unfold bs. destruct (Tftp.oack_of (tftpServer c) f (Tftp.as_map unicode opts)) as [[oack b] tm]. cbn [fst snd] in *.
  destruct H as (tr & n' & Hrun & H). exists tr, n'. split; [|exact H]. apply handle_rrq; [by eapply client_machine|done|done| |done|done].
  apply (bool_decide_unpack _). vm_compute. exact I.
Qed.

(** ** A machine that boots from a small tree *)

Lemma listenTransfer_first s free : 0 < Tftp.PortMin s <= Tftp.PortMax s -> free (Tftp.PortMin s) = true -> Tftp.listenTransfer s free = Some (Tftp.PortMin s).
Proof.
  intros Hp Hf. unfold Tftp.listenTransfer. rewrite (proj2 (Z.eqb_neq (Tftp.PortMin s) 0)) by lia. cbn [andb].
  rewrite seqZ_cons by lia. by rewrite filter_cons_True.
Qed.

Definition demo_file : bytes := str "/dist/commands".
Definition demo_boot : bytes :=
  [1; 1; 6; 0; 1; 2; 3; 4] ++ replicate 20 0 ++ Bootp.ex_mac ++ replicate 74 0 ++ demo_file ++ replicate 114 0 ++ replicate 64 0.

Definition demo_FS : Tftp.FileSystem := fun p =>
  match treeFS_Open demo_tree (fun _ => false) (fun _ _ => str "failed") p with Ok r => r | _ => inr (true, []) end.

Definition demo_machine : Client := hd (MkClient [] [] noAddr []) (Clients (Install.demo_config Install.dev)).

Lemma boot_delivers_witness : exists rep dst tr n',
  Bootp.Serve (bootpServer (Install.demo_config Install.dev) demo_options) demo_boot (Bootp.UDPAddr [0; 0; 0; 0] 68) = Ok (Some (rep, dst)) /\
  Tftp.handle (Tftp.lossy (Bootp.yiaddr rep) 2000 512) id (tftpServer (Install.demo_config Install.dev)) demo_FS (fun _ => true)
    (Tftp.UDPAddr (Bootp.yiaddr rep) 2000) (boot_rrq rep []) (Tftp.new_socket [] (Tftp.waiting, []))
    (Tftp.new_socket [] (Tftp.waiting, [(true, false)])) = Ok (Some tr, Tftp.new_socket [] (Tftp.waiting, []), n') /\
  Tftp.got (fst (Tftp.network n')) = demo_text /\ Tftp.finished (fst (Tftp.network n')) = true.
Proof.
  destruct (boot_delivers (Install.demo_config Install.dev) demo_options demo_tree (fun _ => false) (fun _ _ => str "failed") demo_FS id (fun _ => true)
    Bootp.ex_mac demo_machine (ip (c_IP demo_machine)) demo_boot (Bootp.UDPAddr [0; 0; 0; 0] 68) demo_file
    (Tree.MkFileInfo (str "commands") 3 0x124 None 4 0 0 1 (MkOrigin OriginGenerated (str "install") [])) (mem_handle demo_text) demo_text
    Install.demo_accepted demo_v4) as (rep & Hr & _ & _ & _ & H).
  - exists [], (tl (Clients (Install.demo_config Install.dev))). split_and!; [vm_compute; reflexivity|vm_compute; reflexivity|constructor].
  - vm_compute. reflexivity.
  - split; [apply (bool_decide_unpack _); vm_compute; exact I|vm_compute; congruence|vm_compute; reflexivity|vm_compute; reflexivity|vm_compute; reflexivity| |apply (bool_decide_unpack _); vm_compute; exact I].
    exists 114%nat. vm_compute. reflexivity.
  - intros p r E. unfold demo_FS. by rewrite E.
  - vm_compute. reflexivity.
  - exact (image_reader_ok demo_text).
  - reflexivity.
  - rewrite listenTransfer_first; [done|vm_compute; split; congruence|done].
  - destruct (H 2000 [] [(true, false)] (Tftp.new_socket [] (Tftp.waiting, [])) ltac:(constructor)) as (tr & n' & Hrun & _ & Hok & Hlive).
    assert (Hbs : (Tftp.oack_of (tftpServer (Install.demo_config Install.dev)) (Tftp.MkFile (ra_of (mem_handle demo_text)) 3) (Tftp.as_map id [])).1.2 = 512)
      by (vm_compute; reflexivity).
    cbn [Size] in Hrun. rewrite Hbs in Hrun. destruct (Hok (Hlive eq_refl)) as [H1 H2]. exists rep. eexists. exists tr, n'. exact (conj Hr (conj Hrun (conj H1 H2))).
Defined.
