(* ===== verification/Checks.v ===== *)
(** Checking a configuration without serving it ([internal/serve], [Check] and
    [CheckShallow]): a full check builds the tree; a shallow one builds only the sets
    that are all local, and asks the servers of the others whether they answer. *)
From S2P Require Import Prelude Tree Build Config Generate.
From S2P Require Range Resolver Scope.

(** [source.IsRemote]. *)
Definition IsRemote (ref : bytes) : bool := Resolver.isURL ref.

Inductive check_failure :=
| InvalidSet (e : Tree.error)
| NoLocalSource (set layer : bytes) (e : Z)
| Unreachable (failures : list (bytes * Range.probe_err))
| NotBuilt (e : start_err)
| TreeClose (e : Z)
| CheckPanics.

Section checks.
(** How deep a source is, how sources open, what a server meets with a HEAD and with a
    ranged GET, what [os.Stat] gives, and the error of closing the tree. *)
Context (fuel : nat) (resolver : Resolver) (asked : bytes -> Range.reply * Range.reply) (stat : bytes -> option Z) (close_tree : option Z).

(** What a check may have open is the tree's media. *)
Abbreviation checking := (Scope.prog unit Empty_set check_failure unit).
Definition idle : Scope.held unit Empty_set := Scope.MkHeld [] [].
Definition error_of (m : checking) : option check_failure := match (m idle).1 with inl e => Some e | inr _ => None end.

(** [Tree.Close]. *)
Definition close_media : checking := Scope.bind (Scope.release tt) (fun _ => Scope.call (TreeClose <$> close_tree)).

(** [Check]. *)
Definition run_check (c : Config) : checking := Scope.bind (buildTree tt NotBuilt CheckPanics fuel resolver c) (fun _ => close_media).
Definition Check (c : Config) : option check_failure := error_of (run_check c).

(** What the sets of a configuration are: those that are all local, the remote sources,
    each once, and the names of the sets that are not opened. *)
Record sorted_sets := MkSorted { ss_local : list InstallSet; ss_remote : list bytes; ss_unopened : list bytes }.

Definition remote_layers (set : InstallSet) : list bytes := filter (fun s => IsRemote s = true) (ly_Source <$> is_Layers set).

Definition add_remote (remote : list bytes) (ref : bytes) : list bytes := if bool_decide (ref ∈ remote) then remote else remote ++ [ref].

(** The local sources of a set that is not opened are there. *)
Fixpoint confirm (set : bytes) (layers : list Layer) : option check_failure :=
  match layers with
  | [] => None
  | l :: layers =>
      if IsRemote (ly_Source l) then confirm set layers
      else match stat (ly_Source l) with Some e => Some (NoLocalSource set (ly_Name l) e) | None => confirm set layers end
  end.

Fixpoint sort_sets (sets : list InstallSet) (st : sorted_sets) : check_failure + sorted_sets :=
  match sets with
  | [] => inr st
  | set :: sets =>
      match Validate (SetSpec_of set) with
      | Err e => inl (InvalidSet e)
      | Panic => inl CheckPanics
      | Ok _ =>
          let remote := fold_left add_remote (remote_layers set) (ss_remote st) in
          match remote_layers set with
          | [] => sort_sets sets (MkSorted (ss_local st ++ [set]) remote (ss_unopened st))
          | _ => match confirm (is_Name set) (is_Layers set) with
                 | Some e => inl e
                 | None => sort_sets sets (MkSorted (ss_local st) remote (ss_unopened st ++ [is_Name set]))
                 end
          end
      end
  end.

(** [Resolver.Probe], and the failures of [probeSources] in the order of the references. *)
Definition probe (ref : bytes) : option Range.probe_err := let '(head, ranged) := asked ref in (Range.Probe head ranged).2.
Definition probeSources (refs : list bytes) : list (bytes * Range.probe_err) := omap (fun ref => (fun e => (ref, e)) <$> probe ref) refs.

(** [CheckShallow]. *)
Definition run_shallow (c : Config) : checking :=
  match sort_sets (InstallSets c) (MkSorted [] [] []) with
  | inl e => Scope.fail e
  | inr st =>
      match probeSources (ss_remote st) with
      | (_ :: _) as failures => Scope.fail (Unreachable failures)
      | [] => Scope.bind (openTree tt NotBuilt CheckPanics fuel resolver (ss_local st) c (fun set => bool_decide (set ∈ ss_unopened st))) (fun _ => close_media)
      end
  end.
Definition CheckShallow (c : Config) : option check_failure := error_of (run_shallow c).

(** What a tree that is opened and closed again answers; it leaves nothing open. *)
Definition settled (r : outcome start_err (Tree * profile)) : option check_failure :=
  match r with Ok _ => TreeClose <$> close_tree | Err e => Some (NotBuilt e) | Panic => Some CheckPanics end.

Lemma close_media_runs (h : Scope.held unit Empty_set) :
  close_media (Scope.MkHeld (tt :: Scope.h_open h) (Scope.h_log h)) = (match TreeClose <$> close_tree with Some e => inl e | None => inr tt end, h).
Proof. destruct h. unfold close_media, Scope.bind, Scope.release, Scope.call. destruct close_tree; done. Qed.

Lemma opened_runs sets c unopened h :
  Scope.bind (openTree tt NotBuilt CheckPanics fuel resolver sets c unopened) (fun _ => close_media) h =
  (match settled (built fuel resolver sets c unopened) with Some e => inl e | None => inr tt end, h).
Proof.
  unfold Scope.bind. rewrite openTree_runs. destruct (built _ _ _ _ _) as [[t p]|e|]; [|done..]. by rewrite close_media_runs.
Qed.

Lemma checks_close c h : (run_check c h).2 = h /\ (run_shallow c h).2 = h.
Proof.
  unfold run_check, buildTree. rewrite opened_runs. split; [done|]. unfold run_shallow. destruct (sort_sets _ _) as [e|st]; [done|].
  destruct (probeSources _); [|done]. by rewrite opened_runs.
Qed.

Lemma Check_settled c : Check c = settled (built fuel resolver (InstallSets c) c (fun _ => false)).
Proof. unfold Check, error_of, run_check, buildTree. rewrite opened_runs. by destruct (settled _). Qed.

Lemma CheckShallow_settled c : CheckShallow c =
  match sort_sets (InstallSets c) (MkSorted [] [] []) with
  | inl e => Some e
  | inr st =>
      match probeSources (ss_remote st) with
      | (_ :: _) as failures => Some (Unreachable failures)
      | [] => settled (built fuel resolver (ss_local st) c (fun set => bool_decide (set ∈ ss_unopened st)))
      end
  end.
Proof.
  unfold CheckShallow, error_of, run_shallow. destruct (sort_sets _ _) as [e|st]; [done|]. destruct (probeSources _); [|done].
  rewrite opened_runs. by destruct (settled _).
Qed.

(** ** What is sorted *)

Definition all_local (set : InstallSet) : Prop := remote_layers set = [].

#[export] Instance all_local_dec set : Decision (all_local set).
Proof. unfold all_local. apply _. Defined.

Definition remotes (c : list InstallSet) : list bytes := c ≫= remote_layers.

(** Each remote source once, in the order the configuration names them. *)
Definition firsts (refs : list bytes) : list bytes := fold_left add_remote refs [].

Lemma add_remote_elem refs seen x : x ∈ fold_left add_remote refs seen <-> x ∈ seen \/ x ∈ refs.
Proof.
  revert seen. induction refs as [|r refs IH]; intros seen; cbn; [set_solver|]. rewrite IH. unfold add_remote. case_bool_decide; set_solver.
Qed.

Lemma add_remote_NoDup refs seen : NoDup seen -> NoDup (fold_left add_remote refs seen).
Proof.
  revert seen. induction refs as [|r refs IH]; intros seen Hs; [done|]. cbn. apply IH. unfold add_remote. case_bool_decide; [done|].
  apply NoDup_app. split_and!; [done| |apply NoDup_singleton]. set_solver.
Qed.

Lemma confirm_None set layers : confirm set layers = None <->
  forall l, l ∈ layers -> IsRemote (ly_Source l) = false -> stat (ly_Source l) = None.
Proof.
  induction layers as [|l layers IH]; cbn; [set_solver|]. destruct (IsRemote (ly_Source l)) eqn:E; [|destruct (stat (ly_Source l)) eqn:Es].
  - rewrite IH. split; intros H l' Hl'; [apply elem_of_cons in Hl' as [->|Hl']; [congruence|]|]; apply H; set_solver.
  - split; [done|]. intros H. specialize (H l ltac:(left) E). congruence.
  - rewrite IH. split; intros H l' Hl'; [apply elem_of_cons in Hl' as [->|Hl']; [done|]|]; apply H; set_solver.
Qed.

(** What a shallow check asks of a set before anything is opened. *)
Definition set_sound (set : InstallSet) : Prop := Validate (SetSpec_of set) = Ok tt /\ (all_local set \/ confirm (is_Name set) (is_Layers set) = None).

Lemma sort_sets_spec sets st st' : sort_sets sets st = inr st' <->
  Forall set_sound sets /\
  st' = MkSorted (ss_local st ++ filter all_local sets) (fold_left add_remote (remotes sets) (ss_remote st))
          (ss_unopened st ++ (is_Name <$> filter (fun s => ~ all_local s) sets)).
Proof.
  revert st. induction sets as [|set sets IH]; intros st; cbn [sort_sets].
  { rewrite !filter_nil, !app_nil_r. cbn. destruct st. split; [intros [= <-]; by split|by intros [_ ->]]. }
  unfold remotes. cbn [mbind list_bind]. rewrite fold_left_app, Forall_cons. unfold set_sound at 1.
  destruct (Validate (SetSpec_of set)) as [[]|e|]; [|by split; [|intros [[[? _] _] _]]..].
  destruct (remote_layers set) as [|r rs] eqn:Er.
  - rewrite filter_cons_True, filter_cons_False by (unfold all_local; tauto). rewrite IH. cbn. rewrite <- app_assoc. cbn.
    split; intros [H1 H2]; (split; [|done]); [split; [|done]; split; [done|by left]|apply H1].
  - rewrite filter_cons_False, filter_cons_True by (unfold all_local; by rewrite Er).
    destruct (confirm _ _) as [e|] eqn:Ec.
    + split; [done|]. intros [[[_ [H|H]] _] _]; [unfold all_local in H; congruence|done].
    + rewrite IH. cbn [ss_local ss_remote ss_unopened]. rewrite <- app_assoc. cbn.
      split; intros [H1 H2]; (split; [|done]); [split; [|done]; split; [done|by right]|apply H1].
Qed.

(** ** What a shallow check accepts *)

Lemma probeSources_nil refs : probeSources refs = [] <-> forall ref, ref ∈ refs -> probe ref = None.
Proof.
  unfold probeSources. induction refs as [|r refs IH]; cbn; [set_solver|]. destruct (probe r) eqn:E; cbn.
  - split; [done|]. intros H. by rewrite (H r ltac:(left)) in E.
  - rewrite IH. split; intros H x Hx; [apply elem_of_cons in Hx as [->|Hx]; [done|]|]; apply H; set_solver.
Qed.

Lemma firsts_elem refs x : x ∈ firsts refs <-> x ∈ refs.
Proof. unfold firsts. rewrite add_remote_elem. set_solver. Qed.

Definition unopened (c : Config) (set : bytes) : bool := bool_decide (set ∈ is_Name <$> filter (fun s => ~ all_local s) (InstallSets c)).

(** The local sets make a tree, whose scripts are served as far as it can tell. *)
Definition builds_local (c : Config) : Prop := exists t p t',
  Build fuel (setSpecs (filter all_local (InstallSets c))) resolver = Ok t /\ generate c t = Ok (p, t') /\
  checkInstallSelections c t' (unopened c) = None.

Lemma CheckShallow_None c : CheckShallow c = None <->
  Forall set_sound (InstallSets c) /\ (forall ref, ref ∈ remotes (InstallSets c) -> probe ref = None) /\ builds_local c /\ close_tree = None.
Proof.
  rewrite CheckShallow_settled. destruct (sort_sets (InstallSets c) (MkSorted [] [] [])) as [e|st] eqn:E.
  { split; [done|]. intros [Hs _]. pose proof (proj2 (sort_sets_spec (InstallSets c) (MkSorted [] [] []) _) (conj Hs eq_refl)) as H. by rewrite E in H. }
  apply sort_sets_spec in E as [Hs ->]. cbn [ss_local ss_remote ss_unopened app].
  fold (firsts (remotes (InstallSets c))). destruct (probeSources _) as [|f fs] eqn:Ep.
  2:{ split; [done|]. intros (_ & H & _). assert (Hn : probeSources (firsts (remotes (InstallSets c))) = []) by (apply probeSources_nil; intros ref Hr; rewrite firsts_elem in Hr; by apply H).
      by rewrite Ep in Hn. }
  rewrite probeSources_nil in Ep. setoid_rewrite firsts_elem in Ep. unfold builds_local, settled, built, assembled.
  destruct (Build _ _ _) as [t|[e cl]|]; [|by split; [|intros (_ & _ & (? & ? & ? & ? & _) & _)]..].
  destruct (generate c t) as [[p t']|e|] eqn:Eg; [|by split; [|intros (_ & _ & (? & ? & ? & [= <-] & ? & _) & _); congruence]..].
  destruct (checkInstallSelections c t' _) as [e|] eqn:Ec.
  - split; [done|]. intros (_ & _ & (? & ? & ? & [= <-] & Hg & H) & _). rewrite Eg in Hg. injection Hg as <- <-. unfold unopened in H. congruence.
  - split.
    + intros Hc. split_and!; [done|done|by exists t, p, t'|by destruct close_tree].
    + by intros (_ & _ & _ & ->).
Qed.

(** Every server that does not answer is reported, once, in the order the
    configuration first names it. *)
Theorem CheckShallow_reports c : Forall set_sound (InstallSets c) ->
  let fs := probeSources (firsts (remotes (InstallSets c))) in
  NoDup fs.*1 /\ (forall ref e, (ref, e) ∈ fs <-> ref ∈ remotes (InstallSets c) /\ probe ref = Some e) /\
  (fs <> [] -> CheckShallow c = Some (Unreachable fs)).
Proof.
  intros Hs fs. split_and!.
  - subst fs. assert (Hn : NoDup (firsts (remotes (InstallSets c)))) by (apply add_remote_NoDup, NoDup_nil_2).
    induction Hn as [|r refs Hr Hn IH]; [apply NoDup_nil_2|]. unfold probeSources. cbn [omap list_omap]. fold (probeSources refs).
    destruct (probe r); [|done]. cbn. constructor; [|done]. intros (x & -> & Hx)%list_elem_of_fmap. apply Hr.
    apply list_elem_of_omap in Hx as (r' & Hin & H). destruct (probe r'); [|done]. by injection H as <-.
  - intros ref e. subst fs. unfold probeSources. rewrite list_elem_of_omap. rewrite <- firsts_elem. split.
    + intros (r & Hr & H). destruct (probe r) eqn:E; [|done]. injection H as -> ->. done.
    + intros [Hr He]. exists ref. by rewrite He.
  - rewrite CheckShallow_settled.
    rewrite (proj2 (sort_sets_spec (InstallSets c) (MkSorted [] [] []) _) (conj Hs eq_refl)). cbn [ss_remote]. fold (firsts (remotes (InstallSets c))).
    subst fs. by destruct (probeSources _).
Qed.

(** ** A configuration that is all local *)

Lemma add_layers_names set layers r b : (add_layers fuel set layers r b).1 = Ok tt -> Forall (fun l => l_Name l <> [] /\ l_Source l <> [] /\ exists p, layerPaths l = Ok p) layers.
Proof.
  revert b. induction layers as [|l layers IH]; intros b; [by constructor|]. cbn [add_layers]. unfold addLayer.
  case_bool_decide; [done|]. case_bool_decide; [done|]. destruct (openSource r l b) as [[res|e|] b1]; [|done|done].
  unfold merge_layer. destruct (layerPaths l) as [p|e|] eqn:E; [|done|done].
  destruct (_ ≫= _) as [ns|e|]; [|done|done]. intros Hb. constructor; [split_and!; [done|done|by exists p]|by eapply IH].
Qed.

Lemma build_set_valid r set b : (build_set fuel r set b).1 = Ok tt -> Validate set = Ok tt.
Proof.
  unfold build_set, Validate. case_bool_decide; [done|]. destruct (b_nodes b !! _); [done|]. destruct (checkReplacements set) as [[]|e|]; [|done|done].
  cbn [mbind outcome_bind]. match goal with |- context [add_layers ?f ?x ?l ?r ?b'] => pose proof (add_layers_names x l r b') as Ha end.
  destruct (add_layers _ _ _ _ _) as [[[]|e|] b1]; [|done|done]. intros _. specialize (Ha eq_refl). clear -Ha.
  induction Ha as [|l layers (Hn & Hs & [p Hp]) _ IH]; [done|]. cbn. by rewrite !bool_decide_eq_false_2, Hp.
Qed.

Lemma build_sets_valid r sets b : (build_sets fuel r sets b).1 = Ok tt -> Forall (fun set => Validate set = Ok tt) sets.
Proof.
  revert b. induction sets as [|set sets IH]; intros b; [by constructor|]. cbn. pose proof (build_set_valid r set b) as Hv.
  destruct (build_set _ _ _ _) as [[[]|e|] b1]; [|done|done]. intros H. constructor; [by apply Hv|by eapply IH].
Qed.

Lemma checkSelections_ext t script pass selections sets f g : (forall s, f s = g s) ->
  checkSelections t script pass selections sets f = checkSelections t script pass selections sets g.
Proof. intros H. unfold checkSelections. assert (Hx : existsb f sets = existsb g sets) by (induction sets as [|x l IH]; cbn; [done|by rewrite IH, H]). by rewrite Hx. Qed.

Lemma checkInstallSelections_ext c t f g : (forall s, f s = g s) -> checkInstallSelections c t f = checkInstallSelections c t g.
Proof.
  intros H. unfold checkInstallSelections. destruct (first_pass c) as [|n names]; [done|]. induction (InstallScripts c) as [|sc scripts IH]; [done|].
  cbn [check_scripts]. rewrite (checkSelections_ext _ _ _ _ _ f g H). destruct (checkSelections _ _ _ _ _ _); [done|].
  rewrite IH. destruct (sc_Then sc); [|done]. cbn [mbind option_bind]. by rewrite (checkSelections_ext _ _ _ _ _ f g H).
Qed.

Lemma filter_every {A} (P : A -> Prop) `{forall x, Decision (P x)} l : Forall P l -> filter P l = l.
Proof. induction 1 as [|x l Hx _ IH]; [done|]. by rewrite filter_cons_True, IH. Qed.

Lemma local_agrees c : Forall all_local (InstallSets c) -> (CheckShallow c = None <-> Check c = None).
Proof.
  intros Hl. rewrite CheckShallow_None, Check_settled. unfold settled, built, assembled, builds_local.
  assert (Hf : filter all_local (InstallSets c) = InstallSets c) by (by apply filter_every).
  assert (Hu : forall s, unopened c s = false).
  { intros s. unfold unopened. apply bool_decide_eq_false. intros (x & -> & Hx)%list_elem_of_fmap. apply list_elem_of_filter in Hx as [Hx Hin].
    rewrite Forall_forall in Hl. by apply Hx, Hl. }
  assert (Hr : remotes (InstallSets c) = []).
  { unfold remotes. clear Hf Hu. induction Hl as [|x l Hx _ IH]; [done|]. cbn. by rewrite Hx, IH. }
  rewrite Hf, Hr. split.
  - intros (_ & _ & (t & p & t' & -> & -> & Hc) & ->). by rewrite (checkInstallSelections_ext c t' _ _ Hu) in Hc; rewrite Hc.
  - destruct (Build _ _ _) as [t|[e cl]|] eqn:Eb; [|done|done]. destruct (generate c t) as [[p t']|e|] eqn:Eg; [|done|done].
    destruct (checkInstallSelections c t' _) as [e|] eqn:Ec; [done|]. intros Hc. split_and!.
    + unfold Build in Eb. destruct (build_sets _ _ _ _) as [[[]|e|] b] eqn:E; [|done|done].
      pose proof (build_sets_valid resolver (setSpecs (InstallSets c)) build_start) as Hv. rewrite E in Hv. specialize (Hv eq_refl).
      unfold setSpecs in Hv. rewrite Forall_fmap in Hv. rewrite Forall_forall in Hv, Hl |- *. intros set Hin. split; [by apply Hv|left; by apply Hl].
    + intros ref Hin. by apply not_elem_of_nil in Hin.
    + exists t, p, t'. split_and!; [done|done|]. by rewrite (checkInstallSelections_ext c t' _ _ Hu).
    + by destruct close_tree.
Qed.
End checks.

(** ** No remote media is read *)

Section resolvers.
Context (r1 r2 : Resolver) (Hr : forall ref, IsRemote ref = false -> r1 ref = r2 ref).

Definition local_layers (set : SetSpec) : Prop := Forall (fun l => IsRemote (l_Source l) = false) (s_Layers set).

Lemma add_layers_local fuel set layers b : Forall (fun l => IsRemote (l_Source l) = false) layers -> add_layers fuel set layers r1 b = add_layers fuel set layers r2 b.
Proof.
  intros H. revert b. induction H as [|l layers Hl _ IH]; intros b; [done|]. cbn [add_layers].
  assert (Ha : addLayer fuel set l r1 b = addLayer fuel set l r2 b) by (unfold addLayer, openSource; by rewrite (Hr _ Hl)).
  rewrite Ha. clear Ha. destruct (addLayer fuel set l r2 b) as [[[]|e|] b1]; [apply IH|done|done].
Qed.

Lemma build_sets_local fuel sets b : Forall local_layers sets -> build_sets fuel r1 sets b = build_sets fuel r2 sets b.
Proof.
  intros H. revert b. induction H as [|set sets Hs _ IH]; intros b; [done|]. cbn [build_sets].
  assert (Hb : build_set fuel r1 set b = build_set fuel r2 set b) by (unfold build_set; by rewrite add_layers_local).
  rewrite Hb. clear Hb. destruct (build_set fuel r2 set b) as [[[]|e|] b1]; [apply IH|done|done].
Qed.

Lemma all_local_layers set : all_local set -> local_layers (SetSpec_of set).
Proof.
  unfold all_local, remote_layers, local_layers, SetSpec_of. cbn [s_Layers]. rewrite Forall_fmap. induction (is_Layers set) as [|l layers IH]; intros H; [by constructor|].
  rewrite fmap_cons in H. destruct (IsRemote (ly_Source l)) eqn:E; [by rewrite filter_cons_True in H|]. rewrite filter_cons_False in H by congruence. constructor; [done|by apply IH].
Qed.

Lemma CheckShallow_local fuel asked stat close_tree c : CheckShallow fuel r1 asked stat close_tree c = CheckShallow fuel r2 asked stat close_tree c.
Proof.
  rewrite !CheckShallow_settled. destruct (sort_sets _ _ _) as [e|st] eqn:E; [done|]. apply sort_sets_spec in E as [_ ->]. cbn [ss_local app]. unfold built, Build.
  rewrite build_sets_local; [done|]. unfold setSpecs. rewrite Forall_fmap. apply Forall_forall. intros set [Hl _]%list_elem_of_filter. by apply all_local_layers.
Qed.
End resolvers.

(** C13. A shallow check reads no remote media, and stands for a full one where it can:
    what remote sources hold has no part in its answer; it accepts a configuration
    exactly when every set is well formed, the local sources of the sets it does not
    open are there, every remote source answers, and the sets that are all local make a
    tree in which the scripts find what they select; and of a configuration that is
    all local it accepts what the full check does. *)
Theorem shallow_check fuel asked stat close_tree c :
  (forall r1 r2, (forall ref, IsRemote ref = false -> r1 ref = r2 ref) ->
     CheckShallow fuel r1 asked stat close_tree c = CheckShallow fuel r2 asked stat close_tree c) /\
  (forall resolver, CheckShallow fuel resolver asked stat close_tree c = None <->
     Forall (set_sound stat) (InstallSets c) /\ (forall ref, ref ∈ remotes (InstallSets c) -> probe asked ref = None) /\
     builds_local fuel resolver c /\ close_tree = None) /\
  (forall resolver, Forall all_local (InstallSets c) ->
     (CheckShallow fuel resolver asked stat close_tree c = None <-> Check fuel resolver close_tree c = None)).
Proof.
  split_and!; [intros r1 r2 H; by apply CheckShallow_local|intros resolver; apply CheckShallow_None|intros resolver; apply local_agrees].
Qed.

(** *** One set that is local, one that is not *)

Definition demo_set (name src : string) : InstallSet := MkInstallSet (str name) true false [Config.MkLayer (str "cd") (str src) [] [] [] false] ∅ ∅ [].
Definition demo_checked : Config :=
  MkConfig (Addr.MkAddr [10; 0; 0; 1] []) Addr.noAddr None [] [demo_set "s" "one"; demo_set "r" "http://h/cd"; demo_set "q" "http://h/dvd"] []
    (MkServices true (MkTFTPService true (2048, 32767)) true) (MkPorts 67 69 514) [] [].

Definition answers (status : Z) (ref : bytes) : Range.reply * Range.reply :=
  let r := Range.Answered (Range.MkResponse (if bool_decide (ref = str "http://h/cd") then 200 else status) [] [] [] [] 100 (MkStream [] None)) in (r, r).

Example demo_shallow :
  CheckShallow 2 demo_resolver (answers 200) (fun _ => None) None demo_checked = None /\
  CheckShallow 2 demo_resolver (answers 404) (fun _ => None) None demo_checked = Some (Unreachable [(str "http://h/dvd", Range.BadStatus 404)]) /\
  CheckShallow 0 demo_resolver (answers 200) (fun _ => None) None demo_checked <> None.
Proof. vm_compute. split_and!; done. Qed.
