(* ===== verification/Serving.v ===== *)
(** The loops that accept, the handlers they start and the shutdown that ends them, as
    steps that interleave: connections of [rcmd.Server] and of the NFS server, and the
    transfers of the TFTP server. What a handler does meanwhile is elsewhere; here it
    is only running, or at one of its last steps. *)
From S2P Require Import Prelude.

(** A run: every action is possible where it happens. *)
Section runs.
Context {S A : Type} (next : S -> A -> option S).

Fixpoint run (s : S) (acts : list A) : option S :=
  match acts with [] => Some s | a :: acts => s ← next s a; run s acts end.

Lemma run_app s l1 l2 : run s (l1 ++ l2) = s1 ← run s l1; run s1 l2.
Proof.
  revert s. induction l1 as [|a l1 IH]; intros s; [done|]. cbn. destruct (next s a) as [s1|]; [|done]. cbn. apply IH.
Qed.

(** What every step keeps holds to the end. *)
Lemma run_invariant (I : S -> Prop) s acts s' : (forall s a s', I s -> next s a = Some s' -> I s') -> I s -> run s acts = Some s' -> I s'.
Proof.
  intros Hs. revert s. induction acts as [|a acts IH]; intros s Hi; [by intros [= <-]|]. cbn.
  destruct (next s a) as [s1|] eqn:E; [|done]. cbn. apply IH. by eapply Hs.
Qed.

(** What every step adds to is never lost. *)
Lemma run_grows (R : S -> S -> Prop) s acts s' : (forall s, R s s) -> (forall s1 s2 s3, R s1 s2 -> R s2 s3 -> R s1 s3) ->
  (forall s a s', next s a = Some s' -> R s s') -> run s acts = Some s' -> R s s'.
Proof.
  intros Hr Ht Hs. revert s. induction acts as [|a acts IH]; intros s; [intros [= <-]; apply Hr|]. cbn.
  destruct (next s a) as [s1|] eqn:E; [|done]. cbn. intros H. eapply Ht; [by eapply Hs|by apply IH].
Qed.
End runs.

(** ** Connections *)

(** How far a handler is: it runs, it has closed its connection, it is no longer in the
    map; then it is done and gone. *)
Inductive phase := Handling | HasClosed | Untracked.

#[export] Instance phase_eq_dec : EqDecision phase.
Proof. solve_decision. Defined.

(** [conns], [closed] and [wg] of [rcmd.Server], or those of a [ServeTCP]; every
    connection there has been, and those that are closed. *)
Record pool := MkPool { closed : bool; conns : gset nat; wg : Z; handlers : gmap nat phase; seen : gset nat; shut : gset nat }.

Definition idle : pool := MkPool false ∅ 0 ∅ ∅ ∅.

Inductive pool_action :=
| Accept (c : nat)    (* a connection comes to a server that takes it *)
| Refuse (c : nat)    (* or that does not *)
| Close (c : nat)     (* a handler ends *)
| Untrack (c : nat)
| Done (c : nat)
| CloseAll.           (* [Shutdown], or the end of [ServeTCP] *)

Definition set_phase (c : nat) (p : phase) (s : pool) : pool := MkPool (closed s) (conns s) (wg s) (<[c := p]> (handlers s)) (seen s) (shut s).

(** The accept loop: a server that is shut down closes what comes. *)
Definition accept (c : nat) (s : pool) : option pool :=
  if closed s || bool_decide (c ∈ seen s) then None
  else Some (MkPool false (conns s ∪ {[c]}) (wg s + 1) (<[c := Handling]> (handlers s)) (seen s ∪ {[c]}) (shut s)).

Definition refuse (c : nat) (s : pool) : option pool :=
  if bool_decide (c ∈ seen s) then None
  else Some (MkPool (closed s) (conns s) (wg s) (handlers s) (seen s ∪ {[c]}) (shut s ∪ {[c]})).

Definition closeAll (s : pool) : pool := MkPool true (conns s) (wg s) (handlers s) (seen s) (shut s ∪ conns s).

Definition at_phase (c : nat) (p : phase) (s : pool) : bool := bool_decide (handlers s !! c = Some p).

Definition pool_next (s : pool) (a : pool_action) : option pool :=
  match a with
  | Accept c => accept c s
  | Refuse c => refuse c s
  | Close c => if at_phase c Handling s then Some (set_phase c HasClosed (MkPool (closed s) (conns s) (wg s) (handlers s) (seen s) (shut s ∪ {[c]}))) else None
  | Untrack c => if at_phase c HasClosed s then Some (set_phase c Untracked (MkPool (closed s) (conns s ∖ {[c]}) (wg s) (handlers s) (seen s) (shut s))) else None
  | Done c => if at_phase c Untracked s then Some (MkPool (closed s) (conns s) (wg s - 1) (delete c (handlers s)) (seen s) (shut s)) else None
  | CloseAll => Some (closeAll s)
  end.

(** The wait of a shutdown is over. *)
Definition drained (s : pool) : bool := wg s =? 0.

(** *** What holds at every moment *)

Record pool_ok (s : pool) : Prop := {
  ok_wg : wg s = Z.of_nat (size (handlers s));
  ok_conns c : c ∈ conns s <-> handlers s !! c = Some Handling \/ handlers s !! c = Some HasClosed;
  ok_seen c : is_Some (handlers s !! c) -> c ∈ seen s;
  ok_shut c : c ∈ seen s -> c ∈ shut s \/ handlers s !! c = Some Handling /\ closed s = false;
  ok_known c : c ∈ shut s -> c ∈ seen s;
}.

Lemma idle_ok : pool_ok idle.
Proof. split; cbn; try set_solver; try (intros c; rewrite lookup_empty); try naive_solver; by intros c [? ?]. Qed.

Lemma at_phase_true c p s : at_phase c p s = true -> handlers s !! c = Some p.
Proof. apply bool_decide_eq_true. Qed.

Lemma size_phase c p q s : handlers s !! c = Some p -> size (<[c := q]> (handlers s)) = size (handlers s).
Proof. intros H. apply map_size_insert_Some; by exists p. Qed.

Lemma pool_next_ok s a s' : pool_ok s -> pool_next s a = Some s' -> pool_ok s'.
Proof.
  intros [Hw Hc Hs Hh Hk]. destruct a as [c|c|c|c|c|]; cbn [pool_next]; unfold accept, refuse.
  - destruct (closed s) eqn:Ec; [done|]. case_bool_decide as Hn; [done|]. intros [= <-].
    assert (Hnone : handlers s !! c = None). { destruct (handlers s !! c) eqn:E; [|done]. destruct Hn. by apply Hs; rewrite E. }
    split; cbn.
    + rewrite map_size_insert_None by done. lia.
    + intros d. rewrite elem_of_union, elem_of_singleton, Hc. destruct (decide (d = c)) as [->|Hd]; [rewrite lookup_insert_eq; naive_solver|rewrite lookup_insert_ne by done; naive_solver].
    + intros d. destruct (decide (d = c)) as [->|Hd]; [set_solver|]. rewrite lookup_insert_ne by done. intros H%Hs. set_solver.
    + intros d Hd. destruct (decide (d = c)) as [->|Hdc]; [right; by rewrite lookup_insert_eq|]. rewrite lookup_insert_ne by done.
      destruct (Hh d) as [H|[H _]]; [set_solver|by left|by right].
    + set_solver.
  - case_bool_decide as Hn; [done|]. intros [= <-]. split; cbn; [done|done|set_solver| |set_solver].
    intros d Hd. destruct (decide (d = c)) as [->|Hdc]; [set_solver|]. destruct (Hh d) as [H|H]; set_solver.
  - destruct (at_phase c Handling s) eqn:E; [|done]. apply at_phase_true in E. intros [= <-]. split; cbn.
    + by rewrite (size_phase _ Handling).
    + intros d. rewrite Hc. destruct (decide (d = c)) as [->|Hd]; [rewrite lookup_insert_eq; naive_solver|by rewrite lookup_insert_ne].
    + intros d. destruct (decide (d = c)) as [->|Hd]; [intros _; apply Hs; by rewrite E|by rewrite lookup_insert_ne; [apply Hs|]].
    + intros d Hd. destruct (decide (d = c)) as [->|Hdc]; [set_solver|]. rewrite lookup_insert_ne by done. destruct (Hh d Hd) as [?|?]; [set_solver|by right].
    + intros d [H|Hd%elem_of_singleton]%elem_of_union; [by apply Hk|]. subst d. apply Hs. by rewrite E.
  - destruct (at_phase c HasClosed s) eqn:E; [|done]. apply at_phase_true in E. intros [= <-]. split; cbn.
    + by rewrite (size_phase _ HasClosed).
    + intros d. rewrite elem_of_difference, elem_of_singleton, Hc. destruct (decide (d = c)) as [->|Hd]; [rewrite lookup_insert_eq; naive_solver|rewrite lookup_insert_ne by done; naive_solver].
    + intros d. destruct (decide (d = c)) as [->|Hd]; [intros _; apply Hs; by rewrite E|by rewrite lookup_insert_ne; [apply Hs|]].
    + intros d Hd. destruct (decide (d = c)) as [->|Hdc]; [destruct (Hh c Hd) as [?|[? _]]; [by left|congruence]|]. rewrite lookup_insert_ne by done. by apply Hh.
    + done.
  - destruct (at_phase c Untracked s) eqn:E; [|done]. apply at_phase_true in E. intros [= <-]. split; cbn.
    + rewrite map_size_delete_Some by (by exists Untracked). assert (size (handlers s) <> 0%nat); [|lia]. intros H%map_size_empty_inv. by rewrite H, lookup_empty in E.
    + intros d. rewrite Hc. destruct (decide (d = c)) as [->|Hd]; [rewrite lookup_delete_eq; naive_solver|by rewrite lookup_delete_ne].
    + intros d. destruct (decide (d = c)) as [->|Hd]; [rewrite lookup_delete_eq; by intros [? ?]|by rewrite lookup_delete_ne; [apply Hs|]].
    + intros d Hd. destruct (decide (d = c)) as [->|Hdc]; [destruct (Hh c Hd) as [?|[? _]]; [by left|congruence]|]. rewrite lookup_delete_ne by done. by apply Hh.
    + done.
  - intros [= <-]. split; cbn; [done|done|done| |].
    + intros d Hd. left. apply elem_of_union. destruct (Hh d Hd) as [?|[H _]]; [by left|right]. apply Hc. by left.
    + intros d [H|H%Hc]%elem_of_union; [by apply Hk|]. apply Hs. by destruct H as [->| ->].
Qed.

Lemma run_ok acts s : run pool_next idle acts = Some s -> pool_ok s.
Proof. apply run_invariant; [apply pool_next_ok|apply idle_ok]. Qed.

(** *** A shutdown *)

(** What a handler still does. *)
Definition rest_of (c : nat) (p : phase) : list pool_action :=
  match p with Handling => [Close c; Untrack c; Done c] | HasClosed => [Untrack c; Done c] | Untracked => [Done c] end.

Lemma at_phase_eq c p s : handlers s !! c = Some p -> at_phase c p s = true.
Proof. apply bool_decide_eq_true_2. Qed.

Lemma finish_one s c p : handlers s !! c = Some p ->
  exists s', run pool_next s (rest_of c p) = Some s' /\ handlers s' = delete c (handlers s).
Proof.
  assert (Hd : forall s, handlers s !! c = Some Untracked -> exists s', run pool_next s [Done c] = Some s' /\ handlers s' = delete c (handlers s)).
  { intros s0 H. cbn. rewrite at_phase_eq by done. by eexists. }
  assert (Hu : forall s, handlers s !! c = Some HasClosed -> exists s', run pool_next s [Untrack c; Done c] = Some s' /\ handlers s' = delete c (handlers s)).
  { intros s0 H. cbn [run pool_next]. rewrite at_phase_eq by done. cbn [mbind option_bind].
    destruct (Hd (set_phase c Untracked (MkPool (closed s0) (conns s0 ∖ {[c]}) (wg s0) (handlers s0) (seen s0) (shut s0)))) as (s' & Hr & Hh).
    - cbn. by rewrite lookup_insert_eq.
    - exists s'. split; [exact Hr|]. rewrite Hh. cbn. by rewrite delete_insert_eq. }
  destruct p; intros H; [|by apply Hu|by apply Hd]. cbn [rest_of run pool_next]. rewrite at_phase_eq by done. cbn [mbind option_bind].
  destruct (Hu (set_phase c HasClosed (MkPool (closed s) (conns s) (wg s) (handlers s) (seen s) (shut s ∪ {[c]})))) as (s' & Hr & Hh).
  - cbn. by rewrite lookup_insert_eq.
  - exists s'. split; [exact Hr|]. rewrite Hh. cbn. by rewrite delete_insert_eq.
Qed.

(** An action of a handler. *)
Definition own (a : pool_action) : Prop := match a with Close _ | Untrack _ | Done _ => True | _ => False end.

Lemma rest_own c p : Forall own (rest_of c p) /\ (length (rest_of c p) <= 3)%nat.
Proof. destruct p; cbn; (split; [repeat constructor|lia]). Qed.

Lemma handlers_finish s : exists acts s', Forall own acts /\ (length acts <= 3 * size (handlers s))%nat /\ run pool_next s acts = Some s' /\ handlers s' = ∅.
Proof.
  remember (size (handlers s)) as n eqn:E. revert s E. induction n as [|n IH]; intros s E.
  - exists [], s. split_and!; [constructor|cbn; lia|done|]. by apply map_size_empty_inv.
  - destruct (map_choose (handlers s)) as (c & p & Hc). { intros H. by rewrite H, map_size_empty in E. }
    destruct (finish_one s c p Hc) as (s1 & Hr & Hh). destruct (rest_own c p) as [Ho Hl].
    destruct (IH s1) as (acts & s' & Hf & Hn & Hr' & He). { rewrite Hh, map_size_delete_Some by (by exists p). lia. }
    exists (rest_of c p ++ acts), s'. split_and!; [by apply Forall_app|rewrite length_app; lia| |done]. rewrite run_app, Hr. exact Hr'.
Qed.

(** Nothing is opened again, and no handler starts once the pool is closed. *)
Definition later (s s' : pool) : Prop := closed s = true -> closed s' = true /\ dom (handlers s') ⊆ dom (handlers s).

Lemma dom_set c p (m : gmap nat phase) q : m !! c = Some q -> dom (<[c := p]> m) = dom m.
Proof. intros H. rewrite dom_insert_L. assert (c ∈ dom m) by (apply elem_of_dom; by exists q). set_solver. Qed.

Lemma pool_next_later s a s' : pool_next s a = Some s' -> later s s'.
Proof.
  destruct a as [c|c|c|c|c|]; cbn [pool_next]; unfold accept, refuse; intros H Hc.
  - by rewrite Hc in H.
  - case_bool_decide; [done|]. injection H as <-. done.
  - destruct (at_phase c Handling s) eqn:E; [|done]. apply at_phase_true in E. injection H as <-. cbn. by rewrite (dom_set _ _ _ _ E).
  - destruct (at_phase c HasClosed s) eqn:E; [|done]. apply at_phase_true in E. injection H as <-. cbn. by rewrite (dom_set _ _ _ _ E).
  - destruct (at_phase c Untracked s); [|done]. injection H as <-. cbn. split; [done|]. rewrite dom_delete_L. set_solver.
  - by injection H as <-.
Qed.

Lemma run_later s acts s' : run pool_next s acts = Some s' -> later s s'.
Proof.
  apply run_grows; [done| |apply pool_next_later]. intros s1 s2 s3 H1 H2 Hc. destruct (H1 Hc) as [Hc2 Hd]. destruct (H2 Hc2) as [Hc3 Hd']. split; [done|set_solver].
Qed.

(** C21. After a shutdown - of the rsh server, or the end of the NFS server's loop -
    however connections and handlers came in between: every connection there has been
    is closed, so that no handler waits for its client; no handler starts; the wait ends
    exactly when no handler is left; and the handlers that are left can all end, in
    three steps each. *)
Theorem shutdown_closes before after s : run pool_next idle (before ++ CloseAll :: after) = Some s ->
  (forall c, c ∈ seen s -> c ∈ shut s) /\
  (exists s0, run pool_next idle before = Some s0 /\ dom (handlers s) ⊆ dom (handlers s0)) /\
  (drained s = true <-> handlers s = ∅) /\
  (exists acts s', Forall own acts /\ (length acts <= 3 * size (handlers s))%nat /\ run pool_next s acts = Some s' /\ drained s' = true).
Proof.
  intros H. pose proof (run_ok _ _ H) as Hok. rewrite run_app in H. destruct (run pool_next idle before) as [s0|] eqn:E0; [|done].
  cbn [mbind option_bind] in H. change (run pool_next s0 (CloseAll :: after)) with (run pool_next (closeAll s0) after) in H.
  destruct (run_later _ _ _ H eq_refl) as [Hc Hd]. cbn [closeAll handlers] in Hd.
  assert (Hdr : forall s, pool_ok s -> drained s = true <-> handlers s = ∅).
  { intros s1 H1. unfold drained. rewrite Z.eqb_eq, (ok_wg s1 H1). split; [|intros ->; by rewrite map_size_empty].
    intros Hz. apply map_size_empty_inv. lia. }
  split_and!.
  - intros c Hs. destruct (ok_shut s Hok c Hs) as [?|[_ ?]]; [done|congruence].
  - by exists s0.
  - by apply Hdr.
  - destruct (handlers_finish s) as (acts & s' & Ho & Hl & Hr & He). exists acts, s'. split_and!; [done..|].
    apply Hdr; [|done]. eapply (run_invariant pool_next pool_ok); [apply pool_next_ok|exact Hok|exact Hr].
Qed.

(** ** Transfers *)

(** How far the handler of a request is: it was counted; its socket is open; the socket
    is where a shutdown finds it; it is no longer; the socket is closed. *)
Inductive progress := Counted | Bound | Tracked | LetGo | SocketClosed.

#[export] Instance progress_eq_dec : EqDecision progress.
Proof. solve_decision. Defined.

(** [closed], [xfers] and [wg] of [tftp.Server], and the sockets that are open. *)
Record transfers := MkTransfers { t_closed : bool; xfers : gset nat; t_wg : Z; t_handlers : gmap nat progress; t_seen : gset nat; open : gset nat }.

Definition t_idle : transfers := MkTransfers false ∅ 0 ∅ ∅ ∅.

Inductive t_action :=
| Receive (h : nat)   (* a datagram, and its handler *)
| Bind (h : nat)      (* [listenTransfer] *)
| TrackXfer (h : nat)
| UntrackXfer (h : nat)
| CloseSocket (h : nat)
| Finish (h : nat)
| Shutdown.

Definition moves (h : nat) (from to : progress) (s : transfers) (s' : transfers) : option transfers :=
  if bool_decide (t_handlers s !! h = Some from)
  then Some (MkTransfers (t_closed s') (xfers s') (t_wg s') (<[h := to]> (t_handlers s')) (t_seen s') (open s')) else None.

(** The loop drops what comes after a shutdown. *)
Definition receive (h : nat) (s : transfers) : option transfers :=
  if bool_decide (h ∈ t_seen s) then None
  else if t_closed s then Some (MkTransfers true (xfers s) (t_wg s) (t_handlers s) (t_seen s ∪ {[h]}) (open s))
  else Some (MkTransfers false (xfers s) (t_wg s + 1) (<[h := Counted]> (t_handlers s)) (t_seen s ∪ {[h]}) (open s)).

Definition trackXfer (h : nat) (s : transfers) : transfers := MkTransfers (t_closed s) (xfers s ∪ {[h]}) (t_wg s) (t_handlers s) (t_seen s) (open s).
Definition untrackXfer (h : nat) (s : transfers) : transfers := MkTransfers (t_closed s) (xfers s ∖ {[h]}) (t_wg s) (t_handlers s) (t_seen s) (open s).
Definition opened (h : nat) (s : transfers) : transfers := MkTransfers (t_closed s) (xfers s) (t_wg s) (t_handlers s) (t_seen s) (open s ∪ {[h]}).
Definition closes (h : nat) (s : transfers) : transfers := MkTransfers (t_closed s) (xfers s) (t_wg s) (t_handlers s) (t_seen s) (open s ∖ {[h]}).

(** A handler that has no socket is done at once: a request that is not a read. *)
Definition finish (h : nat) (s : transfers) : option transfers :=
  if bool_decide (t_handlers s !! h = Some SocketClosed) || bool_decide (t_handlers s !! h = Some Counted)
  then Some (MkTransfers (t_closed s) (xfers s) (t_wg s - 1) (delete h (t_handlers s)) (t_seen s) (open s)) else None.

Definition shutdown (s : transfers) : transfers := MkTransfers true (xfers s) (t_wg s) (t_handlers s) (t_seen s) (open s ∖ xfers s).

(** A reply of a file that was not found closes its socket without a place for it. *)
Definition close_socket (h : nat) (s : transfers) : option transfers :=
  match moves h LetGo SocketClosed s (closes h s) with Some s' => Some s' | None => moves h Bound SocketClosed s (closes h s) end.

Definition t_next (s : transfers) (a : t_action) : option transfers :=
  match a with
  | Receive h => receive h s
  | Bind h => moves h Counted Bound s (opened h s)
  | TrackXfer h => moves h Bound Tracked s (trackXfer h s)
  | UntrackXfer h => moves h Tracked LetGo s (untrackXfer h s)
  | CloseSocket h => close_socket h s
  | Finish h => finish h s
  | Shutdown => Some (shutdown s)
  end.

(** *** What holds at every moment *)

Record t_ok (s : transfers) : Prop := {
  to_wg : t_wg s = Z.of_nat (size (t_handlers s));
  to_xfers h : h ∈ xfers s <-> t_handlers s !! h = Some Tracked;
  to_open h : h ∈ open s -> t_handlers s !! h = Some Bound \/ t_handlers s !! h = Some Tracked \/ t_handlers s !! h = Some LetGo;
  to_seen h : is_Some (t_handlers s !! h) -> h ∈ t_seen s;
}.

Lemma t_idle_ok : t_ok t_idle.
Proof. split; cbn; try (intros h; rewrite lookup_empty); [done|set_solver|set_solver|by intros [? ?]]. Qed.

Lemma moves_inv h from to s s1 s' : moves h from to s s1 = Some s' -> t_handlers s !! h = Some from /\
  s' = MkTransfers (t_closed s1) (xfers s1) (t_wg s1) (<[h := to]> (t_handlers s1)) (t_seen s1) (open s1).
Proof. unfold moves. case_bool_decide; [|done]. by intros [= <-]. Qed.

Lemma close_socket_inv h s s' : close_socket h s = Some s' ->
  (t_handlers s !! h = Some LetGo \/ t_handlers s !! h = Some Bound) /\
  s' = MkTransfers (t_closed s) (xfers s) (t_wg s) (<[h := SocketClosed]> (t_handlers s)) (t_seen s) (open s ∖ {[h]}).
Proof.
  unfold close_socket. destruct (moves h LetGo SocketClosed s (closes h s)) as [s1|] eqn:E.
  - intros [= <-]. apply moves_inv in E as [H ->]. split; [by left|done].
  - intros [H ->]%moves_inv. split; [by right|done].
Qed.

Lemma t_size_phase h p q s : t_handlers s !! h = Some p -> size (<[h := q]> (t_handlers s)) = size (t_handlers s).
Proof. intros H. apply map_size_insert_Some; by exists p. Qed.

(** A handler that went on: the others are where they were. *)
Lemma t_moved s h p q xf op : t_ok s -> t_handlers s !! h = Some p ->
  (forall k, k ∈ xf <-> <[h := q]> (t_handlers s) !! k = Some Tracked) ->
  (forall k, k ∈ op -> k ∈ open s \/ k = h) -> (h ∈ op -> q = Bound \/ q = Tracked \/ q = LetGo) ->
  t_ok (MkTransfers (t_closed s) xf (t_wg s) (<[h := q]> (t_handlers s)) (t_seen s) op).
Proof.
  intros [Hw Hx Ho Hs] Hh Hxf Hop Hq. split; cbn; [by rewrite (t_size_phase _ p)|done| |].
  - intros k Hk. destruct (decide (k = h)) as [->|Hne]; [rewrite lookup_insert_eq; destruct (Hq Hk) as [->|[->| ->]]; auto|].
    rewrite lookup_insert_ne by done. destruct (Hop k Hk); [by apply Ho|done].
  - intros k. destruct (decide (k = h)) as [->|Hne]; [intros _; apply Hs; by exists p|]. by rewrite lookup_insert_ne; [apply Hs|].
Qed.

Lemma xfers_at s h p q : t_ok s -> t_handlers s !! h = Some p -> p <> Tracked -> q <> Tracked ->
  forall k, k ∈ xfers s <-> <[h := q]> (t_handlers s) !! k = Some Tracked.
Proof.
  intros Hok Hh Hp Hq k. rewrite (to_xfers s Hok). destruct (decide (k = h)) as [->|Hne]; [rewrite lookup_insert_eq, Hh; split; congruence|by rewrite lookup_insert_ne].
Qed.

Lemma t_next_ok s a s' : t_ok s -> t_next s a = Some s' -> t_ok s'.
Proof.
  intros Hok. pose proof Hok as [Hw Hx Ho Hs]. destruct a as [h|h|h|h|h|h|]; cbn [t_next].
  - unfold receive. case_bool_decide as Hn; [done|]. assert (Hnone : t_handlers s !! h = None).
    { destruct (t_handlers s !! h) eqn:E; [|done]. destruct Hn. by apply Hs; rewrite E. }
    destruct (t_closed s); intros [= <-]; split; cbn; [done|done|done|set_solver| | | |].
    + rewrite map_size_insert_None by done. lia.
    + intros k. rewrite Hx. destruct (decide (k = h)) as [->|Hne]; [rewrite lookup_insert_eq; split; congruence|by rewrite lookup_insert_ne].
    + intros k Hk. destruct (decide (k = h)) as [->|Hne]; [destruct (Ho h Hk) as [?|[?|?]]; congruence|rewrite lookup_insert_ne by done; auto].
    + intros k. destruct (decide (k = h)) as [->|Hne]; [set_solver|]. rewrite lookup_insert_ne by done. intros H%Hs. set_solver.
  - intros [H ->]%moves_inv. cbn. eapply (t_moved s h); [done|exact H|by eapply xfers_at|cbn; set_solver|auto].
  - intros [H ->]%moves_inv. cbn. eapply (t_moved s h); [done|exact H| |cbn; set_solver|auto].
    intros k. cbn. rewrite elem_of_union, elem_of_singleton, Hx.
    destruct (decide (k = h)) as [->|Hne]; [rewrite lookup_insert_eq; tauto|rewrite lookup_insert_ne by done; tauto].
  - intros [H ->]%moves_inv. cbn. eapply (t_moved s h); [done|exact H| |cbn; set_solver|auto].
    intros k. cbn. rewrite elem_of_difference, elem_of_singleton, Hx.
    destruct (decide (k = h)) as [->|Hne]; [rewrite lookup_insert_eq; split; [tauto|congruence]|rewrite lookup_insert_ne by done; tauto].
  - intros [H ->]%close_socket_inv. eapply (t_moved s h (if decide (t_handlers s !! h = Some LetGo) then LetGo else Bound)); [done| | |cbn; set_solver|set_solver].
    + case_decide; [done|]. by destruct H as [H|H].
    + intros k. destruct H as [H|H]; revert k; (eapply xfers_at; [done|exact H|done|done]).
  - unfold finish. destruct (_ || _) eqn:E; [|done]. intros [= <-].
    assert (Hh : t_handlers s !! h = Some SocketClosed \/ t_handlers s !! h = Some Counted).
    { apply orb_true_iff in E as [E|E]; apply bool_decide_eq_true in E; auto. }
    split; cbn.
    + rewrite map_size_delete_Some by (destruct Hh as [->| ->]; by eexists). assert (size (t_handlers s) <> 0%nat); [|lia].
      intros H%map_size_empty_inv. rewrite H, lookup_empty in Hh. by destruct Hh.
    + intros k. rewrite Hx. destruct (decide (k = h)) as [->|Hne]; [rewrite lookup_delete_eq; destruct Hh as [->| ->]; split; congruence|by rewrite lookup_delete_ne].
    + intros k Hk. destruct (decide (k = h)) as [->|Hne]; [destruct (Ho h Hk) as [?|[?|?]], Hh; congruence|rewrite lookup_delete_ne by done; auto].
    + intros k. destruct (decide (k = h)) as [->|Hne]; [rewrite lookup_delete_eq; by intros [? ?]|by rewrite lookup_delete_ne; [apply Hs|]].
  - intros [= <-]. split; cbn; [done|done| |done]. intros k Hk. apply Ho. set_solver.
Qed.

(** *** A shutdown *)

(** After a shutdown: no handler starts, and a transfer that was found stays cancelled. *)
Definition t_later (s s' : transfers) : Prop := t_closed s = true -> t_closed s' = true /\ dom (t_handlers s') ⊆ dom (t_handlers s).

Lemma t_dom_set h p (m : gmap nat progress) q : m !! h = Some q -> dom (<[h := p]> m) = dom m.
Proof. intros H. rewrite dom_insert_L. assert (h ∈ dom m) by (apply elem_of_dom; by exists q). set_solver. Qed.

Lemma t_next_later s a s' : t_next s a = Some s' -> t_later s s'.
Proof.
  intros H Hc. destruct a as [h|h|h|h|h|h|]; cbn [t_next] in H.
  - unfold receive in H. case_bool_decide; [done|]. rewrite Hc in H. by injection H as <-.
  - apply moves_inv in H as [H ->]. cbn. by rewrite (t_dom_set _ _ _ _ H).
  - apply moves_inv in H as [H ->]. cbn. by rewrite (t_dom_set _ _ _ _ H).
  - apply moves_inv in H as [H ->]. cbn. by rewrite (t_dom_set _ _ _ _ H).
  - apply close_socket_inv in H as [[H|H] ->]; cbn; by rewrite (t_dom_set _ _ _ _ H).
  - unfold finish in H. destruct (_ || _); [|done]. injection H as <-. cbn. split; [done|]. rewrite dom_delete_L. set_solver.
  - by injection H as <-.
Qed.

Lemma t_run_later s acts s' : run t_next s acts = Some s' -> t_later s s'.
Proof.
  apply run_grows; [done| |apply t_next_later]. intros s1 s2 s3 H1 H2 Hc. destruct (H1 Hc) as [Hc2 Hd]. destruct (H2 Hc2) as [Hc3 Hd']. split; [done|set_solver].
Qed.

(** Its socket is closed, and it will not have another. *)
Definition cancelled (h : nat) (s : transfers) : Prop :=
  h ∉ open s /\ h ∈ t_seen s /\ t_handlers s !! h <> Some Counted.

Lemma cancelled_step h s a s' : cancelled h s -> t_next s a = Some s' -> cancelled h s'.
Proof.
  intros (Ho & Hs & Hc) H.
  assert (Hmove : forall k p q, t_handlers s !! k = Some p -> (k = h -> q <> Counted) -> (<[k := q]> (t_handlers s)) !! h <> Some Counted).
  { intros k p q Hk Hq. destruct (decide (k = h)) as [->|Hne]; [rewrite lookup_insert_eq; intros [= ->]; by apply Hq|by rewrite lookup_insert_ne]. }
  destruct a as [k|k|k|k|k|k|]; cbn [t_next] in H.
  - unfold receive in H. case_bool_decide as Hk; [done|]. assert (k <> h) by (intros ->; done).
    destruct (t_closed s); injection H as <-; split_and!; cbn; [done|set_solver|done|done|set_solver|by rewrite lookup_insert_ne].
  - apply moves_inv in H as [H ->]. assert (k <> h) by (intros ->; done). split_and!; cbn; [set_solver|done|by eapply Hmove].
  - apply moves_inv in H as [H ->]. split_and!; cbn; [done|done|by eapply Hmove].
  - apply moves_inv in H as [H ->]. split_and!; cbn; [done|done|by eapply Hmove].
  - apply close_socket_inv in H as [[H|H] ->]; split_and!; cbn; (set_solver || done || by eapply Hmove).
  - unfold finish in H. destruct (_ || _); [|done]. injection H as <-. split_and!; cbn; [done|done|].
    destruct (decide (k = h)) as [->|Hne]; [by rewrite lookup_delete_eq|by rewrite lookup_delete_ne].
  - injection H as <-. split_and!; cbn; [set_solver|done|done].
Qed.

(** A transfer that let go of its place closes its socket next, and does nothing else. *)
Definition leaving (h : nat) (s : transfers) : Prop := t_handlers s !! h = Some LetGo \/ cancelled h s.

Lemma leaving_step h s a s' : t_ok s -> leaving h s -> t_next s a = Some s' -> leaving h s'.
Proof.
  intros Hok [Hh|Hc] H; [|right; by eapply cancelled_step].
  assert (Hmove : forall k p q, t_handlers s !! k = Some p -> p <> LetGo -> (<[k := q]> (t_handlers s)) !! h = Some LetGo).
  { intros k p q Hk Hp. rewrite lookup_insert_ne; [done|]. intros ->. congruence. }
  assert (Hseen : h ∈ t_seen s) by (apply (to_seen s Hok); by rewrite Hh).
  destruct a as [k|k|k|k|k|k|]; cbn [t_next] in H.
  - left. unfold receive in H. case_bool_decide as Hk; [done|]. destruct (t_closed s); injection H as <-; cbn; [done|].
    rewrite lookup_insert_ne; [done|]. by intros ->.
  - apply moves_inv in H as [H ->]. left. by eapply Hmove.
  - apply moves_inv in H as [H ->]. left. by eapply Hmove.
  - apply moves_inv in H as [H ->]. left. by eapply Hmove.
  - apply close_socket_inv in H as [Hk ->]. destruct (decide (k = h)) as [->|Hne].
    + right. split_and!; cbn; [set_solver|done|by rewrite lookup_insert_eq].
    + left. cbn. by rewrite lookup_insert_ne.
  - left. unfold finish in H. destruct (_ || _) eqn:E; [|done]. injection H as <-. cbn. rewrite lookup_delete_ne; [done|]. intros ->.
    apply orb_true_iff in E as [E|E]; apply bool_decide_eq_true in E; congruence.
  - injection H as <-. by left.
Qed.

(** C20. A shutdown of the TFTP server, however transfers came and went before and after:
    the transfers it finds are cancelled for good, and no handler starts. A socket that
    is open after it is of a handler that had started before: either one that had not yet
    put its socket where the shutdown looks, or one that had taken it away again, which
    has only to close it. And the wait ends exactly when no handler is left. *)
Theorem transfers_cancelled before after s : run t_next t_idle (before ++ Shutdown :: after) = Some s ->
  exists s0, run t_next t_idle before = Some s0 /\
    (forall h, h ∈ xfers s0 -> cancelled h s) /\
    (forall h, h ∈ open s -> t_handlers s0 !! h = Some Counted \/ t_handlers s0 !! h = Some Bound \/
       t_handlers s0 !! h = Some LetGo /\ t_handlers s !! h = Some LetGo) /\
    dom (t_handlers s) ⊆ dom (t_handlers s0) /\
    (t_wg s = 0 <-> t_handlers s = ∅).
Proof.
  intros H. assert (Hok : t_ok s) by (revert H; apply run_invariant; [apply t_next_ok|apply t_idle_ok]).
  rewrite run_app in H. destruct (run t_next t_idle before) as [s0|] eqn:E0; [|done].
  assert (Hok0 : t_ok s0) by (revert E0; apply run_invariant; [apply t_next_ok|apply t_idle_ok]).
  cbn [mbind option_bind] in H. change (run t_next s0 (Shutdown :: after)) with (run t_next (shutdown s0) after) in H.
  assert (Hok1 : t_ok (shutdown s0)) by by apply (t_next_ok s0 Shutdown).
  destruct (t_run_later _ _ _ H eq_refl) as [Hc Hd].
  assert (Hstays : forall h, cancelled h (shutdown s0) -> cancelled h s).
  { intros h Hh. eapply (run_invariant t_next (cancelled h)); [intros s1 a s2 H1 H2; by eapply cancelled_step|exact Hh|exact H]. }
  assert (Hfound : forall h, h ∈ xfers s0 -> cancelled h s).
  { intros h Hh. apply Hstays. apply (to_xfers s0 Hok0) in Hh as Hp. split_and!; cbn; [set_solver|by apply (to_seen s0 Hok0); rewrite Hp|by rewrite Hp]. }
  exists s0. split_and!; [done|exact Hfound| |exact Hd|].
  - intros h Ho. assert (Hin : h ∈ dom (t_handlers s0)) by (apply Hd, elem_of_dom; destruct (to_open s Hok h Ho) as [->|[->| ->]]; by eexists).
    apply elem_of_dom in Hin as [p Hp]. destruct p; [by left|by right; left|exfalso; apply (to_xfers s0 Hok0) in Hp; destruct (Hfound h Hp) as [Hn _]; by apply Hn| |exfalso].
    + right. right. split; [done|]. assert (Hl : t_ok s /\ leaving h s).
      { eapply (run_invariant t_next (fun s => t_ok s /\ leaving h s)); [|split; [exact Hok1|by left]|exact H].
        intros s1 a s2 [H1 H2] H3. split; [by eapply t_next_ok|by eapply leaving_step]. }
      destruct Hl as [_ [Hl|[Hl _]]]; done.
    + assert (Hcan : cancelled h (shutdown s0)).
      { split_and!; cbn; [|by apply (to_seen s0 Hok0); rewrite Hp|by rewrite Hp].
        intros Hx%elem_of_difference. destruct Hx as [Hx _]. destruct (to_open s0 Hok0 h Hx) as [E|[E|E]]; congruence. }
      destruct (Hstays h Hcan) as [Hn _]. by apply Hn.
  - rewrite (to_wg s Hok). split; [|intros ->; by rewrite map_size_empty]. intros Hz. apply map_size_empty_inv. lia.
Qed.

(** A transfer that was about to start is not found: [trackXfer] does not ask whether
    the server is closed, and its socket stays open with nothing left to close it. *)
Theorem late_transfer : exists s, run t_next t_idle [Receive 0; Bind 0; Shutdown; TrackXfer 0] = Some s /\
  t_closed s = true /\ 0%nat ∈ xfers s /\ 0%nat ∈ open s /\ t_wg s = 1.
Proof. eexists. split; [vm_compute; reflexivity|]. split_and!; done. Qed.

(** *** Two connections and a shutdown between *)

Definition demo_before : list pool_action := [Accept 0; Accept 1; Close 0].
Definition demo_after : list pool_action := [Untrack 0; Refuse 2; Done 0; Close 1].

Definition ended (before : list pool_action) (after : list pool_action) : pool := default idle (run pool_next idle (before ++ CloseAll :: after)).

Lemma demo_ended : run pool_next idle (demo_before ++ CloseAll :: demo_after) = Some (ended demo_before demo_after).
Proof. vm_compute. reflexivity. Qed.

Lemma shutdown_closes_witness : 0%nat ∈ seen (ended demo_before demo_after) /\ 0%nat ∈ shut (ended demo_before demo_after).
Proof.
  assert (H : 0%nat ∈ seen (ended demo_before demo_after)) by (apply (bool_decide_unpack _); vm_compute; exact I).
  split; [exact H|]. exact (proj1 (shutdown_closes demo_before demo_after _ demo_ended) _ H).
Defined.

Definition t_before : list t_action := [Receive 0; Receive 1; Bind 0; TrackXfer 0].
Definition t_after : list t_action := [Receive 2; UntrackXfer 0; CloseSocket 0].
Definition t_ended : transfers := default t_idle (run t_next t_idle (t_before ++ Shutdown :: t_after)).

Lemma demo_t_ended : run t_next t_idle (t_before ++ Shutdown :: t_after) = Some t_ended.
Proof. vm_compute. reflexivity. Qed.

Lemma transfers_cancelled_witness : exists s0, run t_next t_idle t_before = Some s0 /\ 0%nat ∈ xfers s0 /\ cancelled 0 t_ended.
Proof.
  destruct (transfers_cancelled t_before t_after t_ended demo_t_ended) as (s0 & H0 & H & _). exists s0. split; [done|].
  assert (Hx : 0%nat ∈ xfers s0).
  { assert (Hb : match run t_next t_idle t_before with Some s => bool_decide (0%nat ∈ xfers s) | None => false end = true) by (vm_compute; reflexivity).
    rewrite H0 in Hb. by apply bool_decide_eq_true in Hb. }
  split; [exact Hx|exact (H 0%nat Hx)].
Defined.
