(* ===== verification/Clients.v ===== *)
(** The options of the share command ([cmd/instigator/share.go], [private.go]): what its
    arguments say, checked, and the BOOTP server they make for a private network. The
    arguments come split from the command line, with the flags that were given. *)
From S2P Require Import Prelude Netip Text Strings Addr Config.
From S2P Require Bootp.

(** ** Shares *)

(** [shareSpec]. *)
Record shareSpec := MkShare { sh_name : bytes; sh_dir : bytes }.

Inductive share_err :=
| NotNameDir (arg : bytes) | NotOneElement (arg : bytes) | NameUsed (arg name : bytes)
| NameWithoutDir | NothingToShare | NotOnPrivate (flag : bytes) | NeedsPrivate (flag : bytes)
| BadAddress (arg : bytes) | NotEthernet (arg : bytes) | NotIPv4 (arg addr : bytes) | EachNeedsIP (arg : bytes)
| NotOnNetwork (arg : bytes) | BadClientHost (arg : bytes) | Repeats (arg : bytes)
| ServerIDAlone | BadServerID (arg : bytes) | BothEndpoints.

Notation opt := (outcome share_err).

(** [strings.Cut], with what is after the separator when it is there. *)
Definition Cut (c : Z) (s : bytes) : bytes * bytes * bool := match cut c s with (a, Some b) => (a, b, true) | (a, None) => (a, [], false) end.

Definition equals : Z := 61.
Definition comma : Z := 44.
Definition backslash : Z := 92.

(** [parseShareSpecs], with the specs so far. *)
Fixpoint parse_specs (args : list bytes) (specs : list shareSpec) : opt (list shareSpec) :=
  match args with
  | [] => Ok specs
  | a :: args =>
      let '(name, dir, ok) := Cut equals a in
      if negb ok || bool_decide (name = []) || bool_decide (dir = []) then Err (NotNameDir a)
      else if bool_decide (slash ∈ name) || bool_decide (backslash ∈ name) then Err (NotOneElement a)
      else if bool_decide (name ∈ sh_name <$> specs) then Err (NameUsed a name)
      else parse_specs args (specs ++ [MkShare name dir])
  end.
Definition parseShareSpecs (args : list bytes) : opt (list shareSpec) := parse_specs args [].

(** ** Machines *)

(** [netip.Prefix.Contains]: the bits of the prefix are those of the address. *)
Definition Contains (p : Prefix) (a : Addr) : bool :=
  bool_decide (zone a = []) && negb (bool_decide (ip a = [])) && bool_decide (length (ip a) = length (ip (p_addr p))) &&
  (Z.shiftr (Z.lxor (be (ip a)) (be (ip (p_addr p)))) (8 * zlen (ip a) - p_bits p) =? 0).

(** [defaultClientIP]. *)
Definition defaultClientIP : Addr := MkAddr [10; 98; 0; 65] [].

(** The address of a client: the one it gives, or the default for a client alone. *)
Definition client_addr (a ipStr : bytes) (alone : bool) : opt Addr :=
  if negb (bool_decide (ipStr = [])) then
    match ParseAddr ipStr with Some i => if Is4 i then Ok i else Err (NotIPv4 a ipStr) | None => Err (NotIPv4 a ipStr) end
  else if alone then Ok defaultClientIP else Err (EachNeedsIP a).

Definition parse_client (a : bytes) (alone : bool) (server : Prefix) (out : list Client) : opt Client :=
  let '(macStr, rest, _) := Cut equals a in
  let '(ipStr, host, _) := Cut comma rest in
  match ParseMAC macStr with
  | Some mac =>
      if negb (zlen mac =? 6) then Err (NotEthernet a)
      else
        i ← client_addr a ipStr alone;
        if negb (Contains server i) || bool_decide (i = p_addr server) then Err (NotOnNetwork a)
        else if negb (checkHostname host) then Err (BadClientHost a)
        else if existsb (fun c => bool_decide (c_MAC c = mac) || bool_decide (c_IP c = i)) out then Err (Repeats a)
        else Ok (Config.MkClient macStr mac i host)
  | None => Err (NotEthernet a)
  end.

(** [parseClients]. *)
Fixpoint parse_clients (args : list bytes) (alone : bool) (server : Prefix) (out : list Client) : opt (list Client) :=
  match args with
  | [] => Ok out
  | a :: args => c ← parse_client a alone server out; parse_clients args alone server (out ++ [c])
  end.
Definition parseClients (args : list bytes) (server : Prefix) : opt (list Client) := parse_clients args (bool_decide (length args <= 1)%nat) server [].

(** ** The command *)

Record privateEndpoint := MkEndpoint { e_socket : bytes; e_tcp : bytes }.
Definition enabled (e : privateEndpoint) : bool := negb (bool_decide (e_socket e = [])) || negb (bool_decide (e_tcp e = [])).
Definition endpoint_check (e : privateEndpoint) : opt unit :=
  if negb (bool_decide (e_socket e = [])) && negb (bool_decide (e_tcp e = [])) then Err BothEndpoints else Ok tt.

(** What the command line gives. *)
Record flags := MkFlags {
  f_name : list bytes; f_dir : list bytes; f_share : list bytes; f_listen : list bytes; f_port : Z; f_portmap : Z;
  f_udp : bool; f_tcp : bool; f_table : bytes; f_endpoint : privateEndpoint; f_address : bytes; f_client : list bytes;
  f_serverID : bytes; f_isset : bytes -> bool;
}.

Record shareOptions := MkShareOptions {
  so_shares : list shareSpec; so_listen : list bytes; so_port : Z; so_portmap : Z; so_udp : bool; so_tcp : bool;
  so_table : bytes; so_network : privateEndpoint; so_address : option Prefix; so_clients : list Client; so_serverID : Addr;
}.

Definition host_flags : list bytes := str <$> ["listen"; "port"; "portmap-port"; "udp"; "tcp"]%string.
Definition private_flags : list bytes := str <$> ["address"; "client"; "dhcp-server-id"]%string.

Definition address_of (s : bytes) : opt Prefix :=
  match ParsePrefix s with Some p => if Is4 (p_addr p) then Ok p else Err (BadAddress s) | None => Err (BadAddress s) end.

Definition serverID_of (s : bytes) (clients : list Client) : opt Addr :=
  if bool_decide (s = []) then Ok noAddr
  else if bool_decide (clients = []) then Err ServerIDAlone
  else match ParseAddr s with Some i => if Is4 i then Ok i else Err (BadServerID s) | None => Err (BadServerID s) end.

(** [shareOptionsFromCommand]. *)
Definition shareOptionsFromCommand (f : flags) : opt shareOptions :=
  if negb (length (f_name f) =? length (f_dir f))%nat then Err NameWithoutDir
  else
    specs ← parseShareSpecs (zip_with (fun n d => n ++ [equals] ++ d) (f_name f) (f_dir f) ++ f_share f);
    if bool_decide (specs = []) then Err NothingToShare
    else
      let o := MkShareOptions specs (f_listen f) (f_port f) (f_portmap f) (f_udp f) (f_tcp f) (f_table f) (f_endpoint f) in
      if enabled (f_endpoint f) then
        match List.find (f_isset f) host_flags with
        | Some flag => Err (NotOnPrivate flag)
        | None =>
            address ← address_of (f_address f);
            clients ← parseClients (f_client f) address;
            id ← serverID_of (f_serverID f) clients;
            Ok (o (Some address) clients id)
        end
      else match List.find (f_isset f) private_flags with
           | Some flag => Err (NeedsPrivate flag)
           | None => Ok (o None [] noAddr)
           end.

(** The BOOTP server of a private share ([servePrivateShare]). *)
Definition privateBootp (address : Prefix) (o : shareOptions) : Bootp.Server :=
  Bootp.MkServer (ip (p_addr address)) (Some (p_bits address))
    ((fun c => Bootp.MkClient (c_Name c) (c_MAC c) (ip (c_IP c)) (c_Hostname c)) <$> so_clients o)
    (ip (so_serverID o)) true None.

(** ** What is accepted *)

Lemma parse_specs_ok args specs specs' : parse_specs args specs = Ok specs' -> NoDup (sh_name <$> specs) ->
  Forall (fun sp => sh_name sp <> [] /\ sh_dir sp <> [] /\ slash ∉ sh_name sp) specs ->
  NoDup (sh_name <$> specs') /\ Forall (fun sp => sh_name sp <> [] /\ sh_dir sp <> [] /\ slash ∉ sh_name sp) specs'.
Proof.
  revert specs. induction args as [|a args IH]; intros specs; [intros [= ->] ? ?; by split|]. cbn [parse_specs].
  destruct (Cut equals a) as [[name dir] ok]. destruct (negb ok || bool_decide (name = []) || bool_decide (dir = [])) eqn:E1; [done|].
  destruct (bool_decide (slash ∈ name) || bool_decide (backslash ∈ name)) eqn:E2; [done|].
  destruct (bool_decide (name ∈ sh_name <$> specs)) eqn:E3; [done|]. apply bool_decide_eq_false in E3. intros H Hn Hf. apply orb_false_iff in E1 as [[_ ?%bool_decide_eq_false]%orb_false_iff ?%bool_decide_eq_false].
  apply orb_false_iff in E2 as [?%bool_decide_eq_false _]. apply (IH _ H).
  - rewrite fmap_app. apply NoDup_app. split_and!; [done| |apply NoDup_singleton]. intros x Hx ->%list_elem_of_singleton. done.
  - apply Forall_app. split; [done|]. by apply Forall_singleton.
Qed.

(** A machine the private network can have. *)
Record client_ok (server : Prefix) (c : Client) : Prop := {
  cl_mac : zlen (c_MAC c) = 6;
  cl_v4 : Is4 (c_IP c) = true;
  cl_on : Contains server (c_IP c) = true;
  cl_other : c_IP c <> p_addr server;
  cl_host : zlen (c_Hostname c) <= maxHostname;
}.

Lemma client_addr_v4 a s alone i : client_addr a s alone = Ok i -> Is4 i = true.
Proof.
  unfold client_addr. case_bool_decide; cbn [negb]; [destruct alone; [by intros [= <-]|done]|].
  destruct (ParseAddr s) as [j|]; [|done]. destruct (Is4 j) eqn:E; [by intros [= <-]|done].
Qed.

Lemma parse_client_ok a alone server out c : parse_client a alone server out = Ok c ->
  client_ok server c /\ c_MAC c ∉ c_MAC <$> out /\ c_IP c ∉ c_IP <$> out.
Proof.
  unfold parse_client. destruct (Cut equals a) as [[macStr rest] ?]. destruct (Cut comma rest) as [[ipStr host] ?].
  destruct (ParseMAC macStr) as [mac|]; [|done]. destruct (zlen mac =? 6) eqn:Em; [|done]. cbn [negb].
  destruct (client_addr _ _ _) as [i|e|] eqn:Ei; [|done|done]. cbn [mbind outcome_bind].
  destruct (negb (Contains server i) || _) eqn:Ec; [done|]. destruct (checkHostname host) eqn:Eh; [|done]. cbn [negb].
  destruct (existsb _ _) eqn:Ex; [done|]. intros [= <-]. apply orb_false_iff in Ec as [Ec%negb_false_iff Ec'%bool_decide_eq_false].
  assert (Hnot : forall d, d ∈ out -> c_MAC d <> mac /\ c_IP d <> i).
  { intros d Hd%list_elem_of_In. destruct (bool_decide (c_MAC d = mac) || bool_decide (c_IP d = i)) eqn:E.
    - assert (existsb (fun c => bool_decide (c_MAC c = mac) || bool_decide (c_IP c = i)) out = true) by (apply existsb_exists; by exists d). congruence.
    - by apply orb_false_iff in E as [?%bool_decide_eq_false ?%bool_decide_eq_false]. }
  split_and!.
  - split; cbn; [lia|by eapply client_addr_v4|done|done|]. unfold checkHostname in Eh. zbool. lia.
  - cbn. intros (d & Hd & Hin)%list_elem_of_fmap. destruct (Hnot d Hin); congruence.
  - cbn. intros (d & Hd & Hin)%list_elem_of_fmap. destruct (Hnot d Hin); congruence.
Qed.

Lemma parse_clients_ok args alone server out out' : parse_clients args alone server out = Ok out' ->
  Forall (client_ok server) out -> NoDup (c_MAC <$> out) -> NoDup (c_IP <$> out) ->
  Forall (client_ok server) out' /\ NoDup (c_MAC <$> out') /\ NoDup (c_IP <$> out').
Proof.
  revert out. induction args as [|a args IH]; intros out; [intros [= ->] ? ? ?; by split_and!|]. cbn [parse_clients].
  destruct (parse_client a alone server out) as [c|e|] eqn:Ec; [|done|done]. cbn [mbind outcome_bind]. intros H Hf Hm Hi.
  destruct (parse_client_ok _ _ _ _ _ Ec) as (Hc & Hnm & Hni). apply (IH _ H).
  - apply Forall_app. split; [done|]. by apply Forall_singleton.
  - rewrite fmap_app. apply NoDup_app. split_and!; [done| |apply NoDup_singleton]. intros x Hx ->%list_elem_of_singleton. done.
  - rewrite fmap_app. apply NoDup_app. split_and!; [done| |apply NoDup_singleton]. intros x Hx ->%list_elem_of_singleton. done.
Qed.

(** What the options of a private share are. *)
Lemma private_options f o : shareOptionsFromCommand f = Ok o -> enabled (f_endpoint f) = true ->
  exists address, so_address o = Some address /\ Is4 (p_addr address) = true /\ 0 <= p_bits address <= 32 /\
    parseClients (f_client f) address = Ok (so_clients o) /\ (so_serverID o = noAddr \/ Is4 (so_serverID o) = true).
Proof.
  unfold shareOptionsFromCommand. destruct (negb _); [done|]. destruct (parseShareSpecs _) as [specs|e|]; [|done|done]. cbn [mbind outcome_bind].
  destruct (bool_decide (specs = [])); [done|]. intros H He. rewrite He in H. destruct (List.find _ _); [done|]. revert H.
  unfold address_of. destruct (ParsePrefix (f_address f)) as [p|] eqn:Ep; [|done]. destruct (Is4 (p_addr p)) eqn:E4; [|done]. cbn [mbind outcome_bind].
  destruct (parseClients _ _) as [cs|e|] eqn:Ec; [|done|done]. cbn [mbind outcome_bind].
  unfold serverID_of. intros H'. exists p. pose proof (ParsePrefix_bits _ _ Ep) as Hb.
  assert (H6 : Is6 (p_addr p) = false) by (unfold Is4 in E4; unfold Is6; zbool; lia). rewrite H6 in Hb.
  revert H'. case_bool_decide; [intros [= <-]; split_and!; (done || by left || lia)|]. case_bool_decide; [done|].
  destruct (ParseAddr (f_serverID f)) as [i|]; [|done]. destruct (Is4 i) eqn:Ei; [|done]. intros [= <-]. split_and!; (done || by right || lia).
Qed.

(** ** The machines of a private network *)

Lemma privateBootp_plain address o : Is4 (p_addr address) = true -> 0 <= p_bits address <= 32 -> Forall (client_ok address) (so_clients o) ->
  (so_serverID o = noAddr \/ Is4 (so_serverID o) = true) -> Bootp.plain_config (privateBootp address o).
Proof.
  intros H4 Hb Hc Hid. unfold Is4 in H4. zbool. split.
  - split; cbn; [done| |by intros bits [= <-]]. unfold Bootp.serverID. cbn. destruct Hid as [->|Hid]; [done|].
    unfold Is4 in Hid. zbool. by destruct (ip (so_serverID o)).
  - cbn. apply Forall_fmap. eapply Forall_impl; [exact Hc|]. intros c [_ H _ _ Hh]. unfold Is4 in H. unfold maxHostname in Hh. zbool. split; cbn; lia.
Qed.

(** Two of a list with the same key are one. *)
Lemma NoDup_fmap_eq {A B} (f : A -> B) l x y : NoDup (f <$> l) -> x ∈ l -> y ∈ l -> f x = f y -> x = y.
Proof.
  intros Hn (i & Hi)%list_elem_of_lookup (j & Hj)%list_elem_of_lookup Hf.
  assert (i = j) as ->; [|congruence]. apply (NoDup_lookup _ _ _ (f x) Hn); rewrite list_lookup_fmap, ?Hi, ?Hj; cbn; congruence.
Qed.

(** C17. The machines that the share command names get addresses of their own. Of
    options that are accepted for a private network: no two machines have one hardware
    address or one address; every address is of the network and is not the server's;
    and whatever datagram arrives, the BOOTP server does not panic, and answers a
    machine with the address the options give it, or refuses it one. *)
Theorem private_clients f o : shareOptionsFromCommand f = Ok o -> enabled (f_endpoint f) = true ->
  exists address, so_address o = Some address /\
    NoDup (c_MAC <$> so_clients o) /\ NoDup (c_IP <$> so_clients o) /\ Forall (client_ok address) (so_clients o) /\
    forall req src, wf_bytes req -> exists r, Bootp.Serve (privateBootp address o) req src = Ok r /\
      forall rep dst, r = Some (rep, dst) -> exists c, c ∈ so_clients o /\ c_MAC c = sub req 28 6 /\
        (forall d, d ∈ so_clients o -> c_MAC d = sub req 28 6 -> d = c) /\
        (Bootp.yiaddr rep = ip (c_IP c) /\ Bootp.siaddr rep = ip (p_addr address) \/
         Bootp.option_value 53 rep = Some [Bootp.dhcpNak] /\ Bootp.yiaddr rep = [0; 0; 0; 0]).
Proof.
  intros Ho He. destruct (private_options f o Ho He) as (address & Ha & H4 & Hb & Hc & Hid). exists address. split; [done|].
  destruct (parse_clients_ok _ _ _ _ _ Hc) as (Hf & Hm & Hi); [constructor..|]. split_and!; [done..|].
  intros req src Hwf. destruct (Bootp.Serve_replies (privateBootp address o) req src) as (r & Hr & H); [by apply privateBootp_plain|done|].
  exists r. split; [done|]. intros rep dst E. destruct (H rep dst E) as (bc & Hin & Hmac & _ & _ & _ & Hy & _).
  cbn in Hin. apply list_elem_of_fmap in Hin as (c & -> & Hcin). exists c. split_and!; [done|done| |done].
  intros d Hd Hdm. eapply NoDup_fmap_eq; [exact Hm|done|done|]. cbn in Hmac. congruence.
Qed.

(** *** Two machines *)

Definition demo_flags : flags :=
  MkFlags [str "src"] [str "/home/src"] [str "tmp=/tmp"] [str "127.0.0.1"] 2049 111 true true [] (MkEndpoint (str "/run/m.sock") [])
    (str "10.98.0.2/24") [str "08:00:69:01:02:03=192.168.1.5"] [] (fun _ => false).

Definition demo_two : flags :=
  MkFlags [] [] [str "src=/home/src"] [str "127.0.0.1"] 2049 111 true true [] (MkEndpoint (str "/run/m.sock") [])
    (str "192.168.1.1/24") [str "08:00:69:01:02:03=192.168.1.5,indy"; str "08:00:69:01:02:04=192.168.1.6"] [] (fun _ => false).

Definition demo_options : shareOptions :=
  match shareOptionsFromCommand demo_two with Ok o => o | _ => MkShareOptions [] [] 0 0 false false [] (MkEndpoint [] []) None [] noAddr end.

Example demo_refused :
  shareOptionsFromCommand demo_flags = Err (NotOnNetwork (str "08:00:69:01:02:03=192.168.1.5")) /\
  parseShareSpecs [str "a=/x"; str "a=/y"] = Err (NameUsed (str "a=/y") (str "a")) /\
  parseClients [str "08:00:69:01:02:03"; str "08:00:69:01:02:04=10.98.0.66"] (MkPrefix (MkAddr [10; 98; 0; 2] []) 24) =
    Err (EachNeedsIP (str "08:00:69:01:02:03")).
Proof. vm_compute. done. Qed.

Lemma demo_two_ok : shareOptionsFromCommand demo_two = Ok demo_options.
Proof. vm_compute. reflexivity. Qed.

Lemma private_clients_witness :
  exists rep dst, Bootp.Serve (privateBootp (MkPrefix (MkAddr [192; 168; 1; 1] []) 24) demo_options) Bootp.ex_bootp (Bootp.UDPAddr [0; 0; 0; 0] 68) =
    Ok (Some (rep, dst)) /\ Bootp.yiaddr rep = [192; 168; 1; 5] /\ length (so_clients demo_options) = 2%nat.
Proof.
  destruct (private_clients demo_two demo_options demo_two_ok eq_refl) as (address & Ha & _ & _ & _ & H).
  assert (Hp : address = MkPrefix (MkAddr [192; 168; 1; 1] []) 24) by (vm_compute in Ha; by injection Ha as <-). subst address.
  destruct (H Bootp.ex_bootp (Bootp.UDPAddr [0; 0; 0; 0] 68) ltac:(apply Bootp.ex_wf; by vm_compute)) as ([[rep dst]|] & Hr & _).
  - exists rep, dst. split; [exact Hr|]. split; [|by vm_compute].
    assert (Hy : match Bootp.Serve (privateBootp (MkPrefix (MkAddr [192; 168; 1; 1] []) 24) demo_options) Bootp.ex_bootp (Bootp.UDPAddr [0; 0; 0; 0] 68) with
                 | Ok (Some (rep, _)) => Bootp.yiaddr rep | _ => [] end = [192; 168; 1; 5]) by (vm_compute; reflexivity).
    by rewrite Hr in Hy.
  - exfalso. vm_compute in Hr. discriminate.
Defined.
