(* ===== verification/Commands.v ===== *)
(** The commands that serve ([cmd/instigator], [serve.go], [share.go], [private.go]): in
    what order they open shares, endpoints, sockets and services, report that they are
    ready, and close everything again. The options are those of Clients.v, the
    configuration that of Config.v, a start and a stop those of Services.v, and a share
    is opened as in Sharefs.v. *)
From S2P Require Import Prelude Netip Text Path Strconv Strings Addr Build Config Scope Clients.
From S2P Require Services Sharefs Multi Bootp.

Inductive resource :=
| Share (i : nat)              (* the shares in order *)
| Endpoint | Attached          (* the stream endpoint, and the machine on it *)
| Port (udp : bool) (port : Z) (* a port of the private network *)
| Socket (udp : bool) (k : nat) (* a socket of the host, by when it was bound *)
| Sv (r : Services.resource).

#[export] Instance resource_eq_dec : EqDecision resource.
Proof. pose proof Services.resource_eq_dec. solve_decision. Defined.

Inductive moment :=
| OpenedShare (i : nat) | Listening | Ready | Connected | BoundPort (udp : bool) (port : Z) | BoundSocket (udp : bool) (addr : bytes) (port : Z)
| Ran (x : Services.happening).

Inductive command_err :=
| BadOptions (e : share_err) | NothingToOpen | OneTable | NoCacheDir | ShareFailed (i : nat) (e : Sharefs.open_err) | NotTogether (e : Multi.multi_err)
| NoConfig (e : Z) | BadConfig (e : cfg_err) | Panicked
| BadEndpoint | BadNetwork | EndpointFailed (e : Z) | NotifyFailed (e : Z) | AcceptFailed (e : Z) | PortFailed (udp : bool) (port : Z) (e : Z)
| SocketFailed (udp : bool) (addr : bytes) (port : Z) (e : Z) | TransportsOff | NotStarted (e : Services.start_failure).

(** What ends a command that serves. *)
Inductive ending := Signal | MachineLeft (e : Z) | ServerFailed (e : Z).

(** What the calls outside give. *)
Record world := MkWorld {
  w_windows : bool; w_cacheDir : option bytes; w_abs : bytes -> option bytes; w_printWide : Z -> bool;
  w_share : bytes -> bytes -> Sharefs.open_env;       (* the host, for a share of a name and a directory *)
  w_endpoint : option Z; w_notify : option Z;
  w_accept : Z + bool;                                (* the machine, or a signal first *)
  w_port : bool -> Z -> option Z;
  w_socket : bool -> bytes -> Z -> Z + Z;             (* the error, or the port that was bound *)
  w_end : ending;                                     (* on a private network *)
  w_failed : option Z;                                (* on the host: a listener, or else a signal *)
  w_file : Z + bytes;
  w_services : Services.answers;
}.

(** A list of things is closed in its order. *)
Definition close_list {R X} `{EqDecision R} (rs : list R) (h : held R X) : held R X := fold_left (fun h r => close_ r h) rs h.

Section commands.
Context (w : world).

Abbreviation act := (prog resource moment command_err).

(** When a call fails, what was opened so far is closed. *)
Definition or_close_list {A} (rs : list resource) (m : act A) : act A := on_error m (fun e h => (inr e, close_list rs h)).

Definition lift_opt {A} (m : opt A) : act A := match m with Ok a => ret a | Err e => fail (BadOptions e) | Panic => fail Panicked end.

(** ** Shares *)

Definition handles_name (sp : shareSpec) (suffix : bytes) : bytes := str "share-" ++ sh_name sp ++ suffix ++ str ".handles".

(** [fallbackTable]. *)
Definition fallbackTable (sp : shareSpec) : bytes :=
  match w_cacheDir w with
  | None => []
  | Some dir => match w_abs w (sh_dir sp) with
                | None => []
                | Some abs => Join (Join dir (str "instigator")) (handles_name sp ([dash] ++ hex 8 (Sharefs.fnv32a abs)))
                end
  end.

(** The path table a share is given; none where inodes do. *)
Definition table_for (handleTable : bytes) (sp : shareSpec) : option bytes :=
  if bool_decide (handleTable = []) && w_windows w then (fun dir => Join (Join dir (str "instigator")) (handles_name sp [])) <$> w_cacheDir w
  else Some handleTable.

Definition open_share (i : nat) (sp : shareSpec) (table : bytes) : act Sharefs.config :=
  match Sharefs.Open_share (w_printWide w) (sh_name sp) (Sharefs.MkOptions table (fallbackTable sp) false) (w_share w (sh_name sp) (sh_dir sp)) with
  | (inl (cfg, _), _) => bind (note (OpenedShare i)) (fun _ => bind (acquire (Share i)) (fun _ => ret cfg))
  | (inr e, _) => fail (ShareFailed i e)
  end.

(** The loop of [openShares], with the shares opened so far. *)
Fixpoint open_each (handleTable : bytes) (i : nat) (specs : list shareSpec) (cfgs : list Sharefs.config) : act (list Sharefs.config) :=
  match specs with
  | [] => ret cfgs
  | sp :: specs =>
      bind (or_close_list (Share <$> seq 0 i)
        match table_for handleTable sp with None => fail NoCacheDir | Some table => open_share i sp table end) (fun cfg =>
      open_each handleTable (S i) specs (cfgs ++ [cfg]))
  end.

(** [openShares]: the shares that are open. *)
Definition openShares (specs : list shareSpec) (handleTable : bytes) : act (list Sharefs.config) :=
  if bool_decide (specs = []) then fail NothingToOpen
  else if negb (bool_decide (handleTable = [])) && (1 <? length specs)%nat then fail OneTable
  else
    bind (open_each handleTable 0 specs []) (fun cfgs =>
    match cfgs with
    | [_] => ret cfgs
    | _ => bind (or_close_list (Share <$> seq 0 (length cfgs)) match Multi.OpenMulti cfgs with inl _ => ret tt | inr e => fail (NotTogether e) end)
             (fun _ => ret cfgs)
    end).

(** The closer of what [openShares] opened. *)
Definition shares_of (cfgs : list Sharefs.config) : list resource := Share <$> seq 0 (length cfgs).

(** ** The private network *)

(** [net.SplitHostPort]. *)
Definition lbracket : Z := 91.
Definition rbracket : Z := 93.
Definition last_index (c : Z) (s : bytes) : Z := match list_find (fun x => x = c) (reverse s) with Some (i, _) => zlen s - 1 - Z.of_nat i | None => -1 end.
Definition SplitHostPort (s : bytes) : option (bytes * bytes) :=
  let i := last_index colon s in
  if i <? 0 then None
  else
    '(host, j, k) ← match s with
      | 91 :: _ =>
          e ← list_find (fun c => c = rbracket) s;
          if Z.of_nat (fst e) + 1 =? i then Some (sub s 1 (Z.of_nat (fst e) - 1), 1, Z.of_nat (fst e) + 1) else None
      | _ => let host := sub s 0 i in if bool_decide (colon ∈ host) then None else Some (host, 0, 0)
      end;
    if bool_decide (lbracket ∈ drop (Z.to_nat j) s) || bool_decide (rbracket ∈ drop (Z.to_nat k) s) then None
    else Some (host, drop (Z.to_nat (i + 1)) s).

(** [netip.Addr.IsLoopback]. *)
Definition IsLoopback (a : Addr) : bool :=
  let b := Unmap (ip a) in
  if zlen b =? 4 then at_ b 0 =? 127 else bool_decide (b = replicate 15 0 ++ [1]).

(** [ListenTCP]: a loopback address, with its port. *)
Definition tcp_endpoint_ok (address : bytes) : bool :=
  match SplitHostPort address with
  | None => false
  | Some (host, port) =>
      match ParseAddr host with
      | None => false
      | Some a => IsLoopback a && match Atoi port with Ok n => (1 <=? n) && (n <=? 65535) | _ => false end
      end
  end.

(** [privateEndpoint.listen]. *)
Definition endpoint_listen (e : privateEndpoint) : act unit :=
  bind (if bool_decide (e_tcp e = []) then ret tt else if tcp_endpoint_ok (e_tcp e) then ret tt else fail BadEndpoint) (fun _ =>
  bind (call (EndpointFailed <$> w_endpoint w)) (fun _ =>
  bind (note Listening) (fun _ => acquire Endpoint))).

Definition notify : act unit := bind (call (NotifyFailed <$> w_notify w)) (fun _ => note Ready).

(** What [qemunet.New] asks of the server's address and prefix. *)
Definition network_ok (server : Addr) (bits : Z) : bool := Is4 server && (0 <=? bits) && (bits <=? 32).

(** [acceptNetwork]: whether a machine came before the signal. The connection is closed
    again when the network cannot be made. *)
Definition acceptNetwork (server : Addr) (bits : Z) : act bool :=
  match w_accept w with
  | inl e => fail (AcceptFailed e)
  | inr false => ret false
  | inr true =>
      bind (note Connected) (fun _ => bind (acquire Attached) (fun _ =>
      if network_ok server bits then ret true else bind (release Attached) (fun _ => fail BadNetwork)))
  end.

Definition open_port (udp : bool) (port : Z) (closers : list resource) : act (list resource) :=
  bind (or_close_list closers (call (PortFailed udp port <$> w_port w udp port))) (fun _ =>
  bind (note (BoundPort udp port)) (fun _ => bind (acquire (Port udp port)) (fun _ => ret (closers ++ [Port udp port])))).

Definition private_ports : list Z := [111; 635; 2049].

(** [serveSharesOn]: the closers. *)
Definition serveSharesOn : act (list resource) :=
  each (fun port closers => bind (open_port true port closers) (fun closers => open_port false port closers)) private_ports [].

(** The body of a function after a [defer] of what is open. *)
Definition scoped {A B} (m : act A) (closers : A -> list resource) (body : A -> act B) : act B := bind m (fun a => defer (close_list (closers a)) (body a)).

Definition only (r : resource) : list resource := [r].

(** [servePrivateShare]. A signal before the machine is no error. *)
Definition servePrivateShare (o : shareOptions) : act (option ending) :=
  let address := default (MkPrefix noAddr (-1)) (so_address o) in
  bind (lift_opt (endpoint_check (so_network o))) (fun _ =>
  scoped (openShares (so_shares o) (so_table o)) shares_of (fun _ =>
  scoped (endpoint_listen (so_network o)) (fun _ => only Endpoint) (fun _ =>
  bind notify (fun _ =>
  scoped (acceptNetwork (p_addr address) (p_bits address)) (fun came : bool => if came then only Attached else []) (fun came =>
  if negb came then ret None
  else
    scoped serveSharesOn id (fun _ =>
    if bool_decide (so_clients o = []) then ret (Some (w_end w))
    else scoped (open_port true 67 []) id (fun _ => ret (Some (w_end w))))))))).

(** ** The host *)

(** A socket of the host, with the closers so far; it takes the port it was given. *)
Definition open_socket (udp : bool) (addr : bytes) (st : list resource * Z) : act (list resource * Z) :=
  let '(closers, port) := st in
  let k := length closers in
  bind (or_close_list closers (match w_socket w udp addr port with inl e => fail (SocketFailed udp addr port e) | inr p => ret p end)) (fun p =>
  bind (note (BoundSocket udp addr p)) (fun _ => bind (acquire (Socket udp k)) (fun _ => ret (closers ++ [Socket udp k], p)))).

(** [bind]: every address, over the transports that are on. *)
Definition bind_all (o : shareOptions) (st : list resource * Z) : act (list resource * Z) :=
  each (fun addr st =>
    bind (if so_udp o then open_socket true addr st else ret st) (fun st =>
    if so_tcp o then open_socket false addr st else ret st)) (so_listen o) st.

(** The sockets, and the ports of NFS and of the portmapper. *)
Definition bind_ports (o : shareOptions) : act (list resource * Z * Z) :=
  bind (bind_all o ([], so_port o)) (fun '(closers, nfsPort) =>
  if so_portmap o =? 0 then ret (closers, nfsPort, 0)
  else bind (bind_all o (closers, so_portmap o)) (fun '(closers, pmapPort) => ret (closers, nfsPort, pmapPort))).

(** [serveShare]: what ended it, and the ports. *)
Definition serveShare (o : shareOptions) : act (option ending) :=
  if enabled (so_network o) then servePrivateShare o
  else if negb (so_udp o) && negb (so_tcp o) then fail TransportsOff
  else
    scoped (openShares (so_shares o) (so_table o)) shares_of (fun _ =>
    scoped (bind_ports o) (fun '(closers, _, _) => closers) (fun _ =>
    ret (Some (match w_failed w with Some e => ServerFailed e | None => Signal end)))).

(** ** The install services *)

Definition is_sv (r : resource) : bool := match r with Sv _ => true | _ => false end.
Definition services_part (h : held resource moment) : held Services.resource Services.happening :=
  MkHeld (omap (fun r => match r with Sv r => Some r | _ => None end) (h_open h)) [].
Definition other_part (l : list resource) : list resource := filter (fun r => is_sv r = false) l.

(** A call of [internal/serve], which has its part of what is open. *)
Definition embed {A} (f : held Services.resource Services.happening -> A * held Services.resource Services.happening) (h : held resource moment) : A * held resource moment :=
  let '(a, h') := f (services_part h) in (a, MkHeld ((Sv <$> h_open h') ++ other_part (h_open h)) (h_log h ++ (Ran <$> h_log h'))).

Definition start (fuel : nat) (resolver : Resolver) (cfg : Config) (o : Services.options) : act Services.Servers := fun h =>
  match embed (Services.Start (w_services w) fuel resolver cfg o) h with
  | (inl e, h) => (inl (NotStarted e), h)
  | (inr s, h) => (inr s, h)
  end.

(** The servers are closed; what that reports is part of the answer. *)
Definition stop (reason : bytes) (s : Services.Servers) : act (option Services.close_failure) := fun h =>
  let '((e, _), h) := embed (Services.CloseWithReason (w_services w) reason s) h in (inr e, h).

Record serve_options := MkServe { v_capture : bool; v_endpoint : privateEndpoint; v_shares : list bytes }.

(** The options of a start. *)
Definition start_options (v : serve_options) (private : bool) : Services.options :=
  Services.MkOptions None false (if v_capture v then Services.CaptureDir else Services.NoCapture) 0 private.

Section serve.
Context (unmarshal : bytes -> option raw) (decodeAddon : bytes -> option rawAddon) (readFile : bytes -> option bytes) (getenv : bytes -> bytes) (dir : bytes).
Context (fuel : nat) (resolver : Resolver).

(** [serve.Start] and what follows. [shared]: whether a share can fail. *)
Definition serve_services (cfg : Config) (v : serve_options) (private shared : bool) : act (option (ending * option Services.close_failure)) :=
  bind (start fuel resolver cfg (start_options v private)) (fun s =>
  bind (if private then ret tt else on_error notify (fun e => bind (stop (str "clean") s) (fun _ => ret e))) (fun _ =>
  let why := if private then match w_end w with ServerFailed e => if shared then ServerFailed e else Signal | e => e end else Signal in
  bind (stop (match why with MachineLeft _ => str "disconnected" | _ => str "clean" end) s) (fun err => ret (Some (why, err))))).

(** The shares that go with the services, if any. *)
Definition with_shares {A} (specs : list shareSpec) (body : act A) : act A :=
  if bool_decide (specs = []) then body else scoped (openShares specs []) shares_of (fun _ => body).
Definition with_share_servers {A} (specs : list shareSpec) (body : act A) : act A :=
  if bool_decide (specs = []) then body else scoped serveSharesOn id (fun _ => body).

(** [runUntilSignal]: nothing, if a signal came before the machine. *)
Definition runUntilSignal (v : serve_options) : act (option (ending * option Services.close_failure)) :=
  bind (lift_opt (endpoint_check (v_endpoint v))) (fun _ =>
  bind (lift_opt (parseShareSpecs (v_shares v))) (fun specs =>
  bind (if negb (bool_decide (specs = [])) && negb (enabled (v_endpoint v)) then fail (BadOptions (NeedsPrivate (str "share"))) else ret tt) (fun _ =>
  bind (match w_file w with inl e => fail (NoConfig e) | inr b => ret b end) (fun b =>
  bind (match ParseIn unmarshal decodeAddon readFile getenv b dir with Ok cfg => ret cfg | Err e => fail (BadConfig e) | Panic => fail Panicked end) (fun cfg =>
  if enabled (v_endpoint v) then
    with_shares specs
      (scoped (endpoint_listen (v_endpoint v)) (fun _ => only Endpoint) (fun _ =>
       bind notify (fun _ =>
       scoped (acceptNetwork (ServerIP cfg) (from_option p_bits (-1) (Netmask cfg))) (fun came : bool => if came then only Attached else []) (fun came =>
       if negb came then ret None
       else with_share_servers specs (serve_services cfg v true (negb (bool_decide (specs = []))))))))
  else serve_services cfg v false false))))).
End serve.
End commands.

(** ** Nothing is left open *)

Section grows.
Context {R X E : Type} `{EqDecision R}.

Lemma without_app r (l rest : list R) : r ∈ l -> without r (l ++ rest) = without r l ++ rest /\ l ≡ₚ r :: without r l.
Proof.
  induction l as [|x l IH]; [by intros ?%not_elem_of_nil|]. intros Hr. cbn [app without]. case_decide as Hx; [by subst|].
  apply elem_of_cons in Hr as [->|Hr]; [done|]. destruct (IH Hr) as [H1 H2]. rewrite H1. split; [done|]. rewrite H2 at 1. apply Permutation_swap.
Qed.

(** A block on top is closed by a list of what is in it. *)
Lemma close_list_block rs (blk rest : list R) (log : list X) : rs ≡ₚ blk -> h_open (close_list rs (MkHeld (blk ++ rest) log)) = rest.
Proof.
  unfold close_list. revert blk. induction rs as [|r rs IH]; intros blk Hp; [apply Permutation_nil in Hp as ->; done|].
  cbn [fold_left]. unfold close_ at 2. cbn [h_open h_log]. assert (Hr : r ∈ blk) by (rewrite <- Hp; by left).
  destruct (without_app r blk rest Hr) as [-> Hb]. apply IH. apply (Permutation_cons_inv (a := r)). by rewrite Hp.
Qed.

(** From a block on top of the rest: a failure leaves the rest, a result its block. *)
Definition grows {A} (m : prog R X E A) (blk : list R) (keeps : A -> list R) : Prop := forall h rest, h_open h = blk ++ rest ->
  match m h with (inl _, h') => h_open h' = rest | (inr a, h') => h_open h' = keeps a ++ rest end.

Lemma grows_ret {A} (a : A) blk keeps : keeps a = blk -> grows (ret a) blk keeps.
Proof. by intros <- h rest H. Qed.

Lemma grows_bind {A B} (m : prog R X E A) (f : A -> prog R X E B) blk k1 k2 : grows m blk k1 -> (forall a, grows (f a) (k1 a) k2) -> grows (bind m f) blk k2.
Proof.
  intros Hm Hf h rest H. specialize (Hm h rest H). unfold bind. destruct (m h) as [[e|a] h1]; [done|]. by apply Hf.
Qed.

Lemma grows_note x blk : grows (note x) blk (fun _ => blk).
Proof. by intros h rest H. Qed.

Lemma grows_acquire r blk : grows (acquire r) blk (fun _ => r :: blk).
Proof. intros h rest H. cbn. by rewrite H. Qed.

Lemma grows_each {A S} (f : A -> S -> prog R X E S) l s (K : S -> list R) : (forall x s, grows (f x s) (K s) K) -> grows (each f l s) (K s) K.
Proof. intros Hf. revert s. induction l as [|x l IH]; intros s; [by apply grows_ret|]. cbn. eapply grows_bind; [apply Hf|apply IH]. Qed.

Lemma leaves_grows {A} (m : prog R X E A) keeps : grows m [] keeps -> leaves m keeps.
Proof. intros H h. exact (H h (h_open h) eq_refl). Qed.
End grows.

Section closing.
Context (w : world).

Abbreviation act := (prog resource moment command_err).

Lemma grows_or_close {A} rs (m : act A) blk k : leaves m k -> rs ≡ₚ blk -> grows (or_close_list rs m) blk (fun a => k a ++ blk).
Proof.
  intros Hm Hp h rest H. unfold or_close_list, on_error. specialize (Hm h). destruct (m h) as [[e|a] [op log]]; cbn [h_open] in Hm.
  - rewrite Hm, H. by apply close_list_block.
  - cbn [h_open]. by rewrite Hm, H, <- app_assoc.
Qed.

Lemma open_share_leaves i sp table : leaves (open_share w i sp table) (fun _ => [Share i]).
Proof.
  unfold open_share. destruct (Sharefs.Open_share _ _ _ _) as [[[cfg ns]|e] k]; [|apply leaves_fail].
  apply leaves_grows. eapply grows_bind; [apply grows_note|intros []]. eapply grows_bind; [apply grows_acquire|intros []]. by apply grows_ret.
Qed.

(** The shares that are open, the last on top. *)
Definition share_block (n : nat) : list resource := reverse (Share <$> seq 0 n).

Lemma share_block_perm n : Share <$> seq 0 n ≡ₚ share_block n.
Proof. symmetry. apply reverse_Permutation. Qed.

Lemma share_block_S n : share_block (S n) = Share n :: share_block n.
Proof. unfold share_block. rewrite seq_S, fmap_app. cbn. by rewrite reverse_snoc. Qed.

Lemma open_each_grows handleTable specs i cfgs : i = length cfgs -> grows (open_each w handleTable i specs cfgs) (share_block i) (fun cfgs => share_block (length cfgs)).
Proof.
  revert i cfgs. induction specs as [|sp specs IH]; intros i cfgs ->; [by apply grows_ret|]. cbn [open_each].
  eapply (grows_bind _ _ _ (fun _ => share_block (S (length cfgs)))).
  - rewrite share_block_S. apply (grows_or_close _ _ _ (fun _ => [Share (length cfgs)])); [|apply share_block_perm].
    destruct (table_for w handleTable sp); [apply open_share_leaves|apply leaves_fail].
  - intros cfg. apply IH. rewrite length_app. cbn. lia.
Qed.

Lemma openShares_leaves specs handleTable : leaves (openShares w specs handleTable) (fun cfgs => share_block (length cfgs)).
Proof.
  unfold openShares. case_bool_decide; [apply leaves_fail|]. destruct (_ && _); [apply leaves_fail|]. apply leaves_grows.
  eapply grows_bind; [by apply (open_each_grows handleTable specs 0 [])|]. intros cfgs.
  assert (Hm : grows (bind (or_close_list (Share <$> seq 0 (length cfgs)) match Multi.OpenMulti cfgs with inl _ => ret tt | inr e => fail (NotTogether e) end)
             (fun _ => (ret cfgs : act _))) (share_block (length cfgs)) (fun cfgs => share_block (length cfgs))).
  { eapply grows_bind; [apply (grows_or_close _ _ _ (fun _ => [])); [|apply share_block_perm]|intros []; by apply grows_ret].
    destruct (Multi.OpenMulti cfgs); [apply leaves_ret|apply leaves_fail]. }
  destruct cfgs as [|c [|d cfgs]]; [exact Hm|by apply grows_ret|exact Hm].
Qed.

Lemma endpoint_leaves e : leaves (endpoint_listen w e) (fun _ => [Endpoint]).
Proof.
  unfold endpoint_listen. apply leaves_bind; [case_bool_decide; [apply leaves_ret|]; destruct (tcp_endpoint_ok _); [apply leaves_ret|apply leaves_fail]|intros _].
  apply leaves_bind; [apply leaves_call|intros _]. apply leaves_bind; [apply leaves_note|intros _]. apply leaves_grows, grows_acquire.
Qed.

Lemma notify_leaves : leaves (notify w) (fun _ => []).
Proof. unfold notify. apply leaves_bind; [apply leaves_call|intros _; apply leaves_note]. Qed.

Definition attached (came : bool) : list resource := if came then [Attached] else [].

Lemma accept_leaves server bits : leaves (acceptNetwork w server bits) attached.
Proof.
  unfold acceptNetwork. destruct (w_accept w) as [e|[|]]; [apply leaves_fail| |by intros h].
  apply leaves_bind; [apply leaves_note|intros _]. intros h. unfold bind, acquire, release, fail, ret.
  destruct (network_ok server bits); cbn [h_open h_log close_ attached app]; [done|apply without_here].
Qed.

Lemma open_port_grows udp port closers : grows (open_port w udp port closers) (reverse closers) (fun closers => reverse closers).
Proof.
  unfold open_port. eapply grows_bind; [apply (grows_or_close _ _ _ (fun _ => [])); [apply leaves_call|symmetry; apply reverse_Permutation]|intros []].
  cbn [app]. eapply grows_bind; [apply grows_note|intros []]. eapply grows_bind; [apply grows_acquire|intros []]. apply grows_ret. by rewrite reverse_snoc.
Qed.

Lemma serveSharesOn_leaves : leaves (serveSharesOn w) (fun closers => reverse closers).
Proof.
  apply leaves_grows. unfold serveSharesOn. apply (grows_each _ _ ([] : list resource) (fun closers => reverse closers)). intros port closers.
  eapply grows_bind; [apply open_port_grows|intros closers'; apply open_port_grows].
Qed.

Lemma open_socket_grows udp addr st : grows (open_socket w udp addr st) (reverse st.1) (fun st => reverse st.1).
Proof.
  destruct st as [closers port]. cbn [open_socket fst].
  eapply grows_bind; [apply (grows_or_close _ _ _ (fun _ => [])); [|symmetry; apply reverse_Permutation]|].
  - destruct (w_socket w udp addr port); [apply leaves_fail|apply leaves_ret].
  - intros p. cbn [app]. eapply grows_bind; [apply grows_note|intros []]. eapply grows_bind; [apply grows_acquire|intros []]. apply grows_ret. cbn [fst]. by rewrite reverse_snoc.
Qed.

Lemma bind_all_grows o st : grows (bind_all w o st) (reverse st.1) (fun st => reverse st.1).
Proof.
  unfold bind_all. apply (grows_each _ _ st (fun st => reverse st.1)). intros addr st'.
  eapply (grows_bind _ _ _ (fun st => reverse st.1)); [destruct (so_udp o); [apply open_socket_grows|by apply grows_ret]|].
  intros st''. destruct (so_tcp o); [apply open_socket_grows|by apply grows_ret].
Qed.

Lemma bind_ports_leaves o : leaves (bind_ports w o) (fun r => reverse r.1.1).
Proof.
  apply leaves_grows. unfold bind_ports. eapply grows_bind; [apply (bind_all_grows o ([], so_port o))|]. intros [closers nfsPort].
  destruct (_ =? 0); [by apply grows_ret|]. eapply grows_bind; [apply (bind_all_grows o (closers, so_portmap o))|]. intros [closers' pmapPort]. by apply grows_ret.
Qed.

(** What is open when none of the services is. *)
Definition plain (h : held resource moment) : Prop := Forall (fun r => is_sv r = false) (h_open h).

(** A result, if there is one, satisfies [P]. *)
Definition yields {A} (m : act A) (P : A -> Prop) : Prop := forall h a h', m h = (inr a, h') -> P a.

Definition no_sv (l : list resource) : Prop := Forall (fun r => is_sv r = false) l.

Lemma yields_bind {A B} (m : act A) (f : A -> act B) P Q : yields m P -> (forall a, P a -> yields (f a) Q) -> yields (bind m f) Q.
Proof. intros Hm Hf h b h'. unfold bind. destruct (m h) as [[e|a] h1] eqn:E; [done|]. apply Hf. by eapply Hm. Qed.

Lemma yields_any {A} (m : act A) : yields m (fun _ => True).
Proof. by intros h a h'. Qed.

Lemma yields_ret {A} (a : A) (P : A -> Prop) : P a -> yields (ret a) P.
Proof. by intros H h a' h' [= <- _]. Qed.

Lemma yields_each {A S} (f : A -> S -> act S) l s (P : S -> Prop) : (forall x s, P s -> yields (f x s) P) -> P s -> yields (each f l s) P.
Proof.
  intros Hf. revert s. induction l as [|x l IH]; intros s Hs; [by apply yields_ret|]. cbn. eapply yields_bind; [by apply Hf|]. intros s'. apply IH.
Qed.

(** From there, nothing is left open. *)
Definition clean {A} (m : act A) : Prop := forall h, plain h -> h_open (m h).2 = h_open h.

Lemma clean_leaves {A} (m : act A) : leaves m (fun _ => []) -> clean m.
Proof. intros Hm h _. specialize (Hm h). by destruct (m h) as [[e|a] h']. Qed.

Lemma clean_bind {A B} (m : act A) (f : A -> act B) : leaves m (fun _ => []) -> (forall a, clean (f a)) -> clean (bind m f).
Proof.
  intros Hm Hf h Hh. unfold bind. specialize (Hm h). destruct (m h) as [[e|a] h1]; [done|]. cbn in Hm. rewrite (Hf a h1); [done|].
  unfold plain. by rewrite Hm.
Qed.

(** What a function opens and a [defer] closes. *)
Lemma clean_scoped {A B} (m : act A) keeps closers (body : A -> act B) : leaves m keeps -> (forall a, closers a ≡ₚ keeps a) ->
  yields m (fun a => no_sv (keeps a)) -> (forall a, clean (body a)) -> clean (scoped m closers body).
Proof.
  intros Hm Hp Hs Hb h Hh. unfold scoped, bind. specialize (Hm h). specialize (Hs h). destruct (m h) as [[e|a] h1]; [done|]. specialize (Hs a h1 eq_refl).
  unfold defer. specialize (Hb a h1). destruct (body a h1) as [r [op log]]. cbn [snd h_open] in *.
  rewrite Hb, Hm; [by apply close_list_block|]. unfold plain. rewrite Hm. by apply Forall_app.
Qed.

(** What the log is when it returns. *)
Definition ends_with {A} (m : act A) (Q : A -> list moment -> Prop) : Prop := forall h a h', plain h -> m h = (inr a, h') -> Q a (h_log h').

Lemma ends_with_bind {A B} (m : act A) (f : A -> act B) Q : leaves m (fun _ => []) -> (forall a, ends_with (f a) Q) -> ends_with (bind m f) Q.
Proof.
  intros Hm Hf h b h' Hh. unfold bind. specialize (Hm h). destruct (m h) as [[e|a] h1]; [done|]. cbn in Hm. apply Hf. unfold plain. by rewrite Hm.
Qed.

Lemma close_list_log rs (h : held resource moment) : h_log (close_list rs h) = h_log h.
Proof. unfold close_list. revert h. induction rs as [|r rs IH]; intros h; [done|]. cbn. by rewrite IH. Qed.

Lemma ends_scoped {A B} (m : act A) keeps closers (body : A -> act B) Q : leaves m keeps -> yields m (fun a => no_sv (keeps a)) ->
  (forall a, ends_with (body a) Q) -> ends_with (scoped m closers body) Q.
Proof.
  intros Hm Hs Hb h b h' Hh. unfold scoped, bind. specialize (Hm h). specialize (Hs h). destruct (m h) as [[e|a] h1]; [done|]. specialize (Hs a h1 eq_refl).
  unfold defer. destruct (body a h1) as [[e|b'] h2] eqn:E; [done|]. intros [= -> <-]. rewrite close_list_log. eapply (Hb a); [|exact E].
  unfold plain. rewrite Hm. by apply Forall_app.
Qed.

(** *** The blocks have nothing of the services *)

Lemma share_block_no_sv specs handleTable : yields (openShares w specs handleTable) (fun cfgs => no_sv (share_block (length cfgs))).
Proof. intros h cfgs h' _. apply Forall_reverse, Forall_fmap, Forall_true. done. Qed.

Lemma endpoint_no_sv e : yields (endpoint_listen w e) (fun _ => no_sv [Endpoint]).
Proof. intros h a h' _. by repeat constructor. Qed.

Lemma accept_no_sv server bits : yields (acceptNetwork w server bits) (fun came => no_sv (attached came)).
Proof. intros h a h' _. destruct a; by repeat constructor. Qed.

Lemma open_port_no_sv udp port closers : no_sv closers -> yields (open_port w udp port closers) no_sv.
Proof.
  intros Hc. unfold open_port. repeat (eapply yields_bind; [apply yields_any|intros ? _]). apply yields_ret, Forall_app. split; [done|]. by repeat constructor.
Qed.

Lemma serveSharesOn_no_sv : yields (serveSharesOn w) (fun closers => no_sv (reverse closers)).
Proof.
  intros h closers h' H. apply Forall_reverse. revert h closers h' H. apply (yields_each _ _ _ no_sv); [|constructor]. intros port closers Hc.
  eapply yields_bind; [by apply open_port_no_sv|]. intros closers' Hc'. by apply open_port_no_sv.
Qed.

Lemma open_socket_no_sv udp addr st : no_sv st.1 -> yields (open_socket w udp addr st) (fun st => no_sv st.1).
Proof.
  destruct st as [closers port]. intros Hc. cbn [open_socket]. repeat (eapply yields_bind; [apply yields_any|intros ? _]).
  apply yields_ret, Forall_app. split; [done|]. by repeat constructor.
Qed.

Lemma bind_all_no_sv o st : no_sv st.1 -> yields (bind_all w o st) (fun st => no_sv st.1).
Proof.
  apply (yields_each _ _ st (fun st => no_sv st.1)). intros addr st' Hs. eapply (yields_bind _ _ (fun st => no_sv st.1)).
  - destruct (so_udp o); [by apply open_socket_no_sv|by apply yields_ret].
  - intros st'' Hs'. destruct (so_tcp o); [by apply open_socket_no_sv|by apply yields_ret].
Qed.

Lemma bind_ports_no_sv o : yields (bind_ports w o) (fun r => no_sv (reverse r.1.1)).
Proof.
  intros h r h' H. apply Forall_reverse. revert h r h' H. unfold bind_ports.
  eapply (yields_bind _ _ (fun st => no_sv st.1)); [apply bind_all_no_sv; constructor|]. intros [closers nfsPort] Hc.
  destruct (_ =? 0); [by apply yields_ret|]. eapply (yields_bind _ _ (fun st => no_sv st.1)); [by apply bind_all_no_sv|]. intros [closers' p] Hc'. by apply yields_ret.
Qed.

(** *** Sharing *)

Lemma clean_ret {A} (a : A) : clean (ret a).
Proof. by intros h. Qed.

Lemma clean_fail {A} e : clean (fail e : act A).
Proof. by intros h. Qed.

Lemma lift_opt_leaves {A} (m : opt A) : leaves (lift_opt m) (fun _ => []).
Proof. destruct m; [apply leaves_ret|apply leaves_fail..]. Qed.

Lemma shares_scoped {B} specs handleTable (body : list Sharefs.config -> act B) : (forall a, clean (body a)) -> clean (scoped (openShares w specs handleTable) shares_of body).
Proof. eapply clean_scoped; [apply openShares_leaves|intros cfgs; apply share_block_perm|apply share_block_no_sv]. Qed.

Lemma endpoint_scoped {B} e (body : unit -> act B) : (forall a, clean (body a)) -> clean (scoped (endpoint_listen w e) (fun _ => only Endpoint) body).
Proof. eapply clean_scoped; [apply endpoint_leaves|done|apply endpoint_no_sv]. Qed.

Lemma accept_scoped {B} server bits (body : bool -> act B) : (forall a, clean (body a)) ->
  clean (scoped (acceptNetwork w server bits) (fun came : bool => if came then only Attached else []) body).
Proof. eapply clean_scoped; [apply accept_leaves|by intros []|apply accept_no_sv]. Qed.

Lemma servers_scoped {B} (body : list resource -> act B) : (forall a, clean (body a)) -> clean (scoped (serveSharesOn w) id body).
Proof. eapply clean_scoped; [apply serveSharesOn_leaves|intros a; symmetry; apply reverse_Permutation|apply serveSharesOn_no_sv]. Qed.

Lemma servePrivateShare_clean o : clean (servePrivateShare w o).
Proof.
  apply clean_bind; [apply lift_opt_leaves|intros _]. apply shares_scoped. intros _. apply endpoint_scoped. intros _.
  apply clean_bind; [apply notify_leaves|intros _]. apply accept_scoped. intros [|]; [|apply clean_ret]. apply servers_scoped. intros _. cbn [negb].
  case_bool_decide; [apply clean_ret|]. eapply (clean_scoped _ (fun closers => reverse closers)); [| | |intros _; apply clean_ret].
  - apply leaves_grows. apply (open_port_grows true 67 []).
  - intros a. symmetry. apply reverse_Permutation.
  - intros h a h' Ha. apply Forall_reverse. revert h a h' Ha. apply open_port_no_sv. constructor.
Qed.

Lemma serveShare_clean o : clean (serveShare w o).
Proof.
  unfold serveShare. destruct (enabled _); [apply servePrivateShare_clean|]. destruct (_ && _); [apply clean_fail|]. apply shares_scoped. intros _.
  eapply (clean_scoped _ (fun r => reverse r.1.1)); [apply bind_ports_leaves| |apply bind_ports_no_sv|intros _; apply clean_ret].
  intros [[closers n] p]. symmetry. apply reverse_Permutation.
Qed.
End closing.

(** ** The install services *)

Section serving.
Context (w : world).
Context (unmarshal : bytes -> option raw) (decodeAddon : bytes -> option rawAddon) (readFile : bytes -> option bytes) (getenv : bytes -> bytes) (dir : bytes).
Context (fuel : nat) (resolver : Resolver).

Abbreviation act := (prog resource moment command_err).

Lemma plain_parts h l rest log : plain h -> h_open h = rest -> services_part (MkHeld ((Sv <$> l) ++ rest) log) = MkHeld l [] /\ other_part ((Sv <$> l) ++ rest) = rest.
Proof.
  intros Hp <-. unfold services_part, other_part, plain in *. cbn [h_open]. split.
  - f_equal. induction l as [|r l IH]; cbn; [|by rewrite IH]. induction Hp as [|x rs Hx _ IH]; [done|]. cbn. by destruct x.
  - induction l as [|r l IH]; cbn [fmap list_fmap app]; [|by rewrite filter_cons_False].
    induction Hp as [|x rs Hx _ IH]; [done|]. by rewrite filter_cons_True, IH.
Qed.

(** A start: all or nothing. *)
Lemma start_plain cfg o h : plain h ->
  match start w fuel resolver cfg o h with
  | (inl _, h') => h_open h' = h_open h
  | (inr s, h') => s = Services.serving cfg o (Services.records o) /\ h_open h' = (Sv <$> Services.kept s) ++ h_open h
  end.
Proof.
  intros Hp. unfold start, embed. destruct (plain_parts h [] (h_open h) (h_log h) Hp eq_refl) as [H1 H2]. cbn [fmap list_fmap app] in H1, H2.
  assert (Hs : services_part h = MkHeld [] []) by (destruct h; exact H1). rewrite Hs, H2.
  pose proof (Services.Start_all_or_nothing (w_services w) fuel resolver cfg o (MkHeld [] [])) as H. unfold Services.step in H.
  destruct (Services.Start _ _ _ _ _ _) as [[e|s] h']; cbn [h_open] in *.
  - by destruct H as [-> _].
  - destruct H as (-> & -> & _). by rewrite app_nil_r.
Qed.

(** A stop gives back what the start opened, and says how it went. *)
Lemma stop_plain reason s h h1 : plain h -> h_open h1 = (Sv <$> Services.kept s) ++ h_open h ->
  stop w reason s h1 = (inr (Services.reported (w_services w) s), MkHeld (h_open h) (h_log h1 ++ (Ran <$> Services.ending (w_services w) reason s))).
Proof.
  intros Hp Ho. unfold stop, embed. destruct (plain_parts h (Services.kept s) (h_open h) (h_log h1) Hp eq_refl) as [H1 H2]. rewrite <- Ho in H1, H2.
  assert (Hs : services_part h1 = MkHeld (Services.kept s) []) by (destruct h1; exact H1). rewrite Hs, H2.
  rewrite (Services.CloseWithReason_runs _ _ _ _ []); [done|]. by rewrite app_nil_r.
Qed.

(** Why a capture ended, for what ended the command. *)
Definition reason_of (why : ending) : bytes := match why with MachineLeft _ => str "disconnected" | _ => str "clean" end.

(** The last things the services did. *)
Definition closing_log (cfg : Config) (v : serve_options) (private : bool) (why : ending) : list moment :=
  let o := start_options v private in Ran <$> Services.ending (w_services w) (reason_of why) (Services.serving cfg o (Services.records o)).

Definition served_ok (v : serve_options) (r : option (ending * option Services.close_failure)) (log : list moment) : Prop :=
  match r with
  | None => True
  | Some (why, err) => exists cfg private, let s := Services.serving cfg (start_options v private) (Services.records (start_options v private)) in
      err = Services.reported (w_services w) s /\ exists log0, log = log0 ++ closing_log cfg v private why
  end.

Lemma serve_services_both cfg v private shared h : plain h ->
  let '(r, h') := serve_services w fuel resolver cfg v private shared h in
  h_open h' = h_open h /\ match r with inl _ => True | inr r => served_ok v r (h_log h') end.
Proof.
  intros Hp. unfold serve_services, bind at 1. pose proof (start_plain cfg (start_options v private) h Hp) as Hs.
  destruct (start _ _ _ _ _ _) as [[e|s] h1]; [by split|]. destruct Hs as [Hs Ho].
  set (why := if private then match w_end w with ServerFailed e => if shared then ServerFailed e else Signal | e => e end else Signal).
  assert (Hstop : forall h2, h_open h2 = h_open h1 ->
    let '(r, h') := bind (stop w (reason_of why) s) (fun err => ret (Some (why, err))) h2 in
    h_open h' = h_open h /\ match r with inl _ => True | inr r => served_ok v r (h_log h') end).
  { intros h2 H2. unfold bind. rewrite (stop_plain _ s h h2 Hp) by (by rewrite H2). split; [done|].
    exists cfg, private. cbn zeta. rewrite <- Hs. split; [done|]. exists (h_log h2). unfold closing_log. by rewrite <- Hs. }
  unfold bind at 1. destruct private; [by apply Hstop|].
  pose proof (notify_leaves w h1) as Hn. unfold on_error. destruct (notify w h1) as [[e|u] h2]; [|by apply Hstop].
  unfold bind. rewrite (stop_plain _ s h h2 Hp) by (by rewrite Hn). by split.
Qed.

Lemma serve_services_clean cfg v private shared : clean (serve_services w fuel resolver cfg v private shared).
Proof. intros h Hp. pose proof (serve_services_both cfg v private shared h Hp) as H. destruct (serve_services _ _ _ _ _ _ _ _) as [r h']. apply H. Qed.

Lemma serve_services_ends cfg v private shared : ends_with (serve_services w fuel resolver cfg v private shared) (served_ok v).
Proof. intros h a h' Hp E. pose proof (serve_services_both cfg v private shared h Hp) as H. rewrite E in H. apply H. Qed.

(** Both of a body, and both of a function around it. *)
Definition good (v : serve_options) (m : act (option (ending * option Services.close_failure))) : Prop := clean m /\ ends_with m (served_ok v).

Lemma good_scoped {A} v (m : act A) keeps closers body : leaves m keeps -> (forall a, closers a ≡ₚ keeps a) -> yields m (fun a => no_sv (keeps a)) ->
  (forall a, good v (body a)) -> good v (scoped m closers body).
Proof. intros Hm Hp Hs Hb. split; [eapply clean_scoped; [done..|]; intros a; apply Hb|eapply ends_scoped; [done..|]; intros a; apply Hb]. Qed.

Lemma good_bind {A} v (m : act A) f : leaves m (fun _ => []) -> (forall a, good v (f a)) -> good v (bind m f).
Proof. intros Hm Hf. split; [apply clean_bind; [done|]; intros a; apply Hf|apply ends_with_bind; [done|]; intros a; apply Hf]. Qed.

Lemma good_none v : good v (ret None).
Proof. split; [apply clean_ret|]. by intros h a h' _ [= <- <-]. Qed.

Lemma runUntilSignal_good v : good v (runUntilSignal w unmarshal decodeAddon readFile getenv dir fuel resolver v).
Proof.
  unfold runUntilSignal. apply good_bind; [apply lift_opt_leaves|intros _]. apply good_bind; [apply lift_opt_leaves|intros specs].
  apply good_bind; [destruct (_ && _); [apply leaves_fail|apply leaves_ret]|intros _].
  apply good_bind; [destruct (w_file w); [apply leaves_fail|apply leaves_ret]|intros b].
  apply good_bind; [destruct (ParseIn _ _ _ _ _ _); [apply leaves_ret|apply leaves_fail..]|intros cfg].
  destruct (enabled _); [|by split; [apply serve_services_clean|apply serve_services_ends]].
  assert (Hbody : good v (scoped (endpoint_listen w (v_endpoint v)) (fun _ => only Endpoint) (fun _ => bind (notify w) (fun _ =>
    scoped (acceptNetwork w (ServerIP cfg) (from_option p_bits (-1) (Netmask cfg))) (fun came : bool => if came then only Attached else []) (fun came =>
    if negb came then ret None
    else with_share_servers w specs (serve_services w fuel resolver cfg v true (negb (bool_decide (specs = []))))))))).
  { eapply good_scoped; [apply endpoint_leaves|done|apply endpoint_no_sv|intros _]. apply good_bind; [apply notify_leaves|intros _].
    eapply good_scoped; [apply accept_leaves|by intros []|apply accept_no_sv|]. intros [|]; [|apply good_none]. cbn [negb]. unfold with_share_servers.
    case_bool_decide; [by split; [apply serve_services_clean|apply serve_services_ends]|].
    eapply good_scoped; [apply serveSharesOn_leaves|intros a; symmetry; apply reverse_Permutation|apply serveSharesOn_no_sv|].
    intros _. by split; [apply serve_services_clean|apply serve_services_ends]. }
  unfold with_shares. case_bool_decide; [done|].
  eapply good_scoped; [apply openShares_leaves|intros cfgs; apply share_block_perm|apply share_block_no_sv|intros _; exact Hbody].
Qed.

(** C16. The commands that serve leave nothing behind. Whatever calls fail, and whenever a
    signal comes, the machine goes away or a listener fails: when [share] or [serve]
    returns, every share, endpoint, socket and service it opened is closed. When
    [serve] has served and recorded, the end of its capture is the last it does, for
    the reason it ended: the machine disconnected, or else it was stopped, or work was
    still going on; and what the stop reported is part of what the command reports. *)
Theorem commands_clean o v h : plain h ->
  h_open (serveShare w o h).2 = h_open h /\
  let '(r, h') := runUntilSignal w unmarshal decodeAddon readFile getenv dir fuel resolver v h in
  h_open h' = h_open h /\
  forall why err, r = inr (Some (why, err)) -> exists cfg private,
    let s := Services.serving cfg (start_options v private) (v_capture v) in
    err = Services.reported (w_services w) s /\
    (v_capture v = true -> last (h_log h') =
       Some (Ran (Services.FinishedCapture (if Services.drained (w_services w) s then reason_of why else str "incomplete")))).
Proof.
  intros Hp. split; [by apply serveShare_clean|]. destruct (runUntilSignal_good v) as [Hc He]. specialize (Hc h Hp). specialize (He h).
  destruct (runUntilSignal _ _ _ _ _ _ _ _ _ h) as [r h'] eqn:E. split; [exact Hc|]. intros why err ->.
  destruct (He (Some (why, err)) h' Hp eq_refl) as (cfg & private & Herr & log0 & Hlog). exists cfg, private.
  assert (Hrec : Services.records (start_options v private) = v_capture v) by (unfold start_options, Services.records; cbn; by destruct (v_capture v)).
  rewrite Hrec in Herr. split; [done|]. intros Hv. rewrite Hlog. unfold closing_log. rewrite Hrec. unfold Services.ending.
  cbn [Services.serving Services.sv_rec Services.sv_started]. rewrite Hv. cbn [fmap list_fmap]. by rewrite last_snoc.
Qed.
End serving.

(** *** Two runs *)

Definition demo_share : Sharefs.open_env := Sharefs.MkOpenEnv true (Some true) true true true (PathTable.MkHost true true true true true true) None.

Definition demo_world (socket : bool -> bytes -> Z -> Z + Z) : world := {|
  w_windows := false; w_cacheDir := Some (str "/c"); w_abs p := Some p; w_printWide _ := false;
  w_share _ _ := demo_share; w_endpoint := None; w_notify := None; w_accept := inr true; w_port _ _ := None; w_socket := socket;
  w_end := MachineLeft 5; w_failed := None; w_file := inr [];
  w_services := Services.MkAnswers None None (fun _ => None) true true true None None None;
|}.

Definition demo_serve : serve_options := MkServe true (MkEndpoint (str "/run/m.sock") []) [str "src=/home/src"; str "tmp=/tmp"].

Definition demo_cfg : raw :=
  MkRaw (str "10.0.0.1") [] (str "10.0.0.0/24") [MkRawClient (str "octane") (str "08:00:69:01:02:03") (str "10.0.0.2") (str "octane")] [] [] []
    [MkRawSet (str "s") None false [Config.MkLayer (str "cd") (str "one") [] [] [] false] ∅ ∅ []] [] None None.

Definition demo_run : (command_err + option (ending * option Services.close_failure)) * held resource moment :=
  runUntilSignal (demo_world (fun _ _ p => inr p)) (fun _ => Some demo_cfg) (fun _ => None) (fun _ => None) id (str "/etc") 2 demo_resolver demo_serve (MkHeld [] []).

(** A machine that installs and goes away. *)
Lemma demo_disconnects : demo_run.1 = inr (Some (MachineLeft 5, None)) /\ h_open demo_run.2 = [] /\
  last (h_log demo_run.2) = Some (Ran (Services.FinishedCapture (str "disconnected"))) /\
  take 12 (h_log demo_run.2) = [OpenedShare 0; OpenedShare 1; Listening; Ready; Connected; BoundPort true 111; BoundPort false 111; BoundPort true 635;
    BoundPort false 635; BoundPort true 2049; BoundPort false 2049; Ran Services.WroteRun].
Proof. vm_compute. done. Qed.

(** A share of the host whose second socket is taken. *)
Definition demo_host_share : shareOptions :=
  MkShareOptions [Clients.MkShare (str "src") (str "/home/src")] [str "127.0.0.1"] 0 0 true true [] (MkEndpoint [] []) None [] noAddr.
Definition taken : bool -> bytes -> Z -> Z + Z := fun udp _ port => if udp then inr (if port =? 0 then 40000 else port) else inl 98.

Lemma commands_clean_witness :
  serveShare (demo_world taken) demo_host_share (MkHeld [] []) =
    (inl (SocketFailed false (str "127.0.0.1") 40000 98), MkHeld [] [OpenedShare 0; BoundSocket true (str "127.0.0.1") 40000]) /\
  h_open (serveShare (demo_world taken) demo_host_share (MkHeld [] [])).2 = [].
Proof.
  split; [vm_compute; reflexivity|].
  pose proof (commands_clean (demo_world taken) (fun _ => Some demo_cfg) (fun _ => None) (fun _ => None) id (str "/etc") 2 demo_resolver
    demo_host_share demo_serve (MkHeld [] []) (Forall_nil_2 _)) as H.
  apply proj1 in H. exact H.
Defined.
