(* ===== verification/Dump.v ===== *)
(** The dump command ([cmd/instigator/dump.go]): a subtree of an EFS image is written
    to a directory of the host, without a server and without the checks of the
    extractor. The calls to the host are kept in order, with what it answered. *)
From S2P Require Import Prelude Text Path Efs.

(** A path from the output directory: the names on the way. *)
Definition rel : Type := list bytes.

Inductive op :=
| MkdirAll (p : rel) | OpenFile (p : rel) | Write (p : rel) (b : bytes) | CloseFile (p : rel) | Chmod (p : rel) (mode : Z) | Symlink (target : bytes) (p : rel).

Definition path_of (o : op) : rel :=
  match o with MkdirAll p | OpenFile p | Write p _ | CloseFile p | Chmod p _ | Symlink _ p => p end.

Inductive dump_err := HostError (e : Z) | ImageError (e : Efs.error) | InodeAt (p : rel) (e : Efs.error) | ReadFailed (e : io_err) | Panics | NoFuel.

(** [filepath.Join] of a path and one name: an empty one, or [.], adds nothing. *)
Definition join_name (p : rel) (name : bytes) : rel := if bool_decide (name = []) || bool_decide (name = [dot]) then p else p ++ [name].

Record dumper := MkDumper { d_ops : list op; d_files : Z; d_bytes : Z }.

Section dump.
(** What the host answers to a call after those before it. *)
Context (fs : Efs.FS) (host : list op -> op -> option Z).

Definition act (A : Type) : Type := dumper -> (dump_err + A) * dumper.
Definition ret {A} (a : A) : act A := fun d => (inr a, d).
Definition fail {A} (e : dump_err) : act A := fun d => (inl e, d).
Definition bind {A B} (m : act A) (f : A -> act B) : act B := fun d => match m d with (inl e, d) => (inl e, d) | (inr a, d) => f a d end.

(** A call: it was made, whatever it answers. *)
Definition try_ (o : op) : act (option Z) := fun d => (inr (host (d_ops d) o), MkDumper (d_ops d ++ [o]) (d_files d) (d_bytes d)).
Definition call (o : op) : act unit := bind (try_ o) (fun e => match e with Some e => fail (HostError e) | None => ret tt end).
Definition image {A} (m : outcome Efs.error A) : act A := match m with Ok a => ret a | Err e => fail (ImageError e) | Panic => fail Panics end.
Definition wrote (n : Z) : act unit := fun d => (inr tt, MkDumper (d_ops d) (d_files d) (d_bytes d + n)).
Definition counted : act unit := fun d => (inr tt, MkDumper (d_ops d) (d_files d + 1) (d_bytes d)).

Definition chunk : Z := 64 * 1024.

(** [copyContent]. *)
Fixpoint copyContent (fuel : nat) (node : Efs.Inode_t) (p : rel) (off : Z) : act unit :=
  match fuel with
  | O => fail NoFuel
  | S fuel =>
      bind (image (Efs.ReadAt fs node chunk off)) (fun '(b, err) =>
      bind (if 0 <? zlen b then bind (call (Write p b)) (fun _ => wrote (zlen b)) else ret tt) (fun _ =>
      match err with
      | Some EOF => ret tt
      | Some e => fail (ReadFailed e)
      | None => copyContent fuel node p (off + zlen b)
      end))
  end.

(** Reads until the end of a file of the size that the inode says. *)
Definition copy_fuel (node : Efs.Inode_t) : nat := Z.to_nat (Efs.Size node / chunk) + 2.

(** The file is closed when its content fails, whatever that answers. *)
Definition extractFile (node : Efs.Inode_t) (p : rel) : act unit :=
  bind (call (OpenFile p)) (fun _ =>
  bind (fun d => match copyContent (copy_fuel node) node p 0 d with
                 | (inl e, d) => ((inl e, (try_ (CloseFile p) d).2) : (dump_err + unit) * dumper)
                 | (inr u, d) => (inr u, d)
                 end) (fun _ =>
  bind (call (CloseFile p)) (fun _ =>
  bind counted (fun _ => call (Chmod p (Z.land (Efs.Mode node) 0x1ff)))))).

(** A link that cannot be made is left out. *)
Definition extractSymlink (node : Efs.Inode_t) (p : rel) : act unit :=
  bind (image (Efs.Readlink fs node)) (fun target => bind (try_ (Symlink target p)) (fun _ => ret tt)).

(** The loop of [extractDir]. *)
Fixpoint each_entry (extract : Efs.Inode_t -> rel -> act unit) (p : rel) (ents : list Efs.DirEntry) : act unit :=
  match ents with
  | [] => ret tt
  | e :: ents =>
      let name := Efs.EName e in
      if bool_decide (name = [dot]) || bool_decide (name = dotdot) || bool_decide (slash ∈ name) then each_entry extract p ents
      else
        bind (match Efs.Inode fs (Efs.Ino e) with Ok n => ret n | Err x => fail (InodeAt (join_name p name) x) | Panic => fail Panics end) (fun child =>
        bind (extract child (join_name p name)) (fun _ => each_entry extract p ents))
  end.

(** [extract], with [extractDir]: [fuel] is how deep it may go. *)
Fixpoint extract (fuel : nat) (node : Efs.Inode_t) (p : rel) : act unit :=
  if Efs.IsDir node then
    match fuel with
    | O => fail NoFuel
    | S fuel =>
        bind (call (MkdirAll p)) (fun _ =>
        bind (image (Efs.ReadDir fs node)) (fun ents =>
        bind (each_entry (extract fuel) p ents) (fun _ =>
        call (Chmod p (Z.land (Efs.Mode node) 0x1ff)))))
    end
  else if Efs.IsSymlink node then extractSymlink node p
  else if Efs.IsRegular node then extractFile node p
  else ret tt.

Definition new_dumper : dumper := MkDumper [] 0 0.

(** [runDump]: a file or a link keeps its name below the output directory. Only here
    can a name be [..], of an image that has a file of that name: it stands for the
    directory above. *)
Definition runDump (fuel : nat) (srcPath : bytes) : act unit :=
  let srcPath := if bool_decide (srcPath = []) then [slash] else srcPath in
  bind (image (Efs.Lookup fs srcPath)) (fun node =>
  if Efs.IsDir node then extract fuel node []
  else bind (call (MkdirAll [])) (fun _ => extract fuel node (join_name [] (Base (trim_right slash srcPath))))).

(** ** Where it writes *)

Definition under (p : rel) (ops : list op) : Prop := Forall (fun o => p `prefix_of` path_of o) ops.

(** No call goes through a link that the dump made: the path of no other call is at or
    below it. *)
Definition apart (ops : list op) : Prop := forall i j o, i <> j -> ops !! i = Some o -> (exists t p, o = Symlink t p) ->
  forall o', ops !! j = Some o' -> ~ path_of o `prefix_of` path_of o'.

(** What a step adds. *)
Definition adds (P : list op -> Prop) {A} (m : act A) : Prop := forall d, exists new, d_ops (m d).2 = d_ops d ++ new /\ P new.

(** No entry of a directory has no name, or the name of another: what is skipped does
    not count. *)
Definition kept_name (name : bytes) : bool := negb (bool_decide (name = [dot]) || bool_decide (name = dotdot) || bool_decide (slash ∈ name)).
Definition kept_names (ents : list Efs.DirEntry) : list bytes := filter (fun n => kept_name n = true) (Efs.EName <$> ents).
Definition tidy (node : Efs.Inode_t) : Prop := forall ents, Efs.ReadDir fs node = Ok ents -> NoDup (kept_names ents) /\ [] ∉ kept_names ents.

(** What a dump of a node comes to: the node, and what the entries that it keeps say. *)
Inductive holds : Efs.Inode_t -> Efs.Inode_t -> Prop :=
| holds_self node : holds node node
| holds_entry node ents e child n : Efs.ReadDir fs node = Ok ents -> e ∈ ents -> kept_name (Efs.EName e) = true ->
    Efs.Inode fs (Efs.Ino e) = Ok child -> holds child n -> holds node n.

Lemma adds_ret {A} (P : list op -> Prop) (a : A) : P [] -> adds P (ret a).
Proof. intros H d. exists []. by rewrite app_nil_r. Qed.

Lemma adds_fail {A} (P : list op -> Prop) e : P [] -> adds P (fail e : act A).
Proof. intros H d. exists []. by rewrite app_nil_r. Qed.

Lemma adds_bind {A B} (P Q R : list op -> Prop) (m : act A) (f : A -> act B) :
  adds P m -> (forall a, adds Q (f a)) -> (forall l, P l -> R l) -> (forall l k, P l -> Q k -> R (l ++ k)) -> adds R (bind m f).
Proof.
  intros Hm Hf H1 H2 d. unfold bind. destruct (Hm d) as (l & Hl & Hp). destruct (m d) as [[e|a] d1]; cbn [snd] in *; [exists l; auto|].
  destruct (Hf a d1) as (k & Hk & Hq). exists (l ++ k). rewrite Hk, Hl, app_assoc. auto.
Qed.

(** A property of lists of calls that is kept when they are put together. *)
Definition closed (P : list op -> Prop) : Prop := P [] /\ forall l k, P l -> P k -> P (l ++ k).

Lemma adds_step {A B} (P : list op -> Prop) (m : act A) (f : A -> act B) : closed P -> adds P m -> (forall a, adds P (f a)) -> adds P (bind m f).
Proof. intros [_ Hc] Hm Hf. eapply adds_bind; [exact Hm|exact Hf|done|exact Hc]. Qed.

Lemma adds_try (P : list op -> Prop) o : P [o] -> adds P (try_ o).
Proof. intros H d. by exists [o]. Qed.

Lemma adds_call (P : list op -> Prop) o : closed P -> P [o] -> adds P (call o).
Proof. intros Hc H. apply adds_step; [done|by apply adds_try|]. intros [e|]; [apply adds_fail|apply adds_ret]; apply Hc. Qed.

Lemma adds_image {A} (P : list op -> Prop) (m : outcome Efs.error A) : P [] -> adds P (image m).
Proof. intros H. destruct m; [by apply adds_ret|by apply adds_fail..]. Qed.

(** Calls of one file, and no link. *)
Definition of_file (p : rel) (ops : list op) : Prop := Forall (fun o => path_of o = p /\ forall t q, o <> Symlink t q) ops.

Lemma of_file_closed p : closed (of_file p).
Proof. split; [constructor|]. intros l k Hl Hk. by apply Forall_app. Qed.

Lemma of_file_one p o : path_of o = p -> (forall t q, o <> Symlink t q) -> of_file p [o].
Proof. intros H1 H2. by constructor. Qed.

Lemma copyContent_adds fuel node p off : adds (of_file p) (copyContent fuel node p off).
Proof.
  revert off. induction fuel as [|fuel IH]; intros off; cbn [copyContent]; [apply adds_fail, of_file_closed|].
  apply adds_step; [apply of_file_closed|apply adds_image, of_file_closed|]. intros [b err].
  apply adds_step; [apply of_file_closed| |].
  - destruct (0 <? zlen b); [|apply adds_ret, of_file_closed]. apply adds_step; [apply of_file_closed| |].
    + apply adds_call; [apply of_file_closed|by apply of_file_one].
    + intros _ d. exists []. cbn. rewrite app_nil_r. split; [done|constructor].
  - intros _. destruct err as [[]|]; [apply adds_ret, of_file_closed|apply adds_fail, of_file_closed..|apply IH].
Qed.

Lemma extractFile_adds node p : adds (of_file p) (extractFile node p).
Proof.
  apply adds_step; [apply of_file_closed|apply adds_call; [apply of_file_closed|by apply of_file_one]|]. intros _.
  apply adds_step; [apply of_file_closed| |].
  - intros d. destruct (copyContent_adds (copy_fuel node) node p 0 d) as (new & Hn & Hf).
    destruct (copyContent _ _ _ _ d) as [[e|u] d1]; cbn [snd try_ d_ops] in *; [|by exists new].
    exists (new ++ [CloseFile p]). rewrite Hn, app_assoc. split; [done|]. apply Forall_app. split; [done|]. by apply of_file_one.
  - intros _. apply adds_step; [apply of_file_closed|apply adds_call; [apply of_file_closed|by apply of_file_one]|]. intros _.
    apply adds_step; [apply of_file_closed| |]; [|intros _; apply adds_call; [apply of_file_closed|by apply of_file_one]].
    intros d. exists []. cbn. rewrite app_nil_r. split; [done|constructor].
Qed.

(** *** Calls and links *)

Definition safe (p : rel) (ops : list op) : Prop := under p ops /\ apart ops.

Lemma apart_one o : apart [o].
Proof. intros i j x Hij Hi _ y Hj. apply lookup_lt_Some in Hi, Hj. cbn in Hi, Hj. lia. Qed.

Lemma apart_nil : apart [].
Proof. by intros i j o _ Hi. Qed.

Lemma of_file_safe p ops : of_file p ops -> safe p ops.
Proof.
  intros H. split; [eapply Forall_impl; [exact H|]; by intros o [-> _]|]. intros i j o _ Hi Hl o' _ _. unfold of_file in H.
  rewrite Forall_lookup in H. destruct (H _ _ Hi) as [_ Hn], Hl as (t & q & ->). by destruct (Hn t q).
Qed.

(** Two parts, where no link of one is on the way of the other. *)
Lemma apart_app l k : apart l -> apart k ->
  (forall t p o, Symlink t p ∈ l -> o ∈ k -> ~ p `prefix_of` path_of o) -> (forall t p o, Symlink t p ∈ k -> o ∈ l -> ~ p `prefix_of` path_of o) -> apart (l ++ k).
Proof.
  intros Hl Hk H1 H2 i j o Hij Hi (t & p & ->) o' Hj. cbn [path_of].
  apply lookup_app_Some in Hi as [Hi|[Hi' Hi]], Hj as [Hj|[Hj' Hj]].
  - apply (Hl i j _ Hij Hi (ex_intro _ t (ex_intro _ p eq_refl)) _ Hj).
  - eapply H1; by eapply list_elem_of_lookup_2.
  - eapply H2; by eapply list_elem_of_lookup_2.
  - apply (Hk (i - length l)%nat (j - length l)%nat _ ltac:(lia) Hi (ex_intro _ t (ex_intro _ p eq_refl)) _ Hj).
Qed.

(** The calls for the entries of a directory: each is below one of the names, and no
    link is the directory itself. *)
Definition in_names (p : rel) (names : list bytes) (ops : list op) : Prop :=
  Forall (fun o => exists n, n ∈ names /\ (p ++ [n]) `prefix_of` path_of o) ops.

Lemma entries_adds (extract : Efs.Inode_t -> rel -> act unit) p ents :
  NoDup (kept_names ents) -> [] ∉ kept_names ents ->
  (forall e child, e ∈ ents -> kept_name (Efs.EName e) = true -> Efs.Inode fs (Efs.Ino e) = Ok child -> forall q, adds (safe q) (extract child q)) ->
  adds (fun ops => in_names p (kept_names ents) ops /\ apart ops) (each_entry extract p ents).
Proof.
  intros Hn He Hx. induction ents as [|e ents IH]; [apply adds_ret; split; [constructor|apply apart_nil]|]. cbn [each_entry].
  unfold kept_names in *. cbn [fmap list_fmap] in *. destruct (kept_name (Efs.EName e)) eqn:Ek; unfold kept_name in Ek.
  2:{ apply negb_false_iff in Ek. rewrite Ek. assert (Hk : kept_name (Efs.EName e) <> true) by (unfold kept_name; by rewrite Ek).
      rewrite filter_cons_False in Hn, He |- * by done. apply IH; [done..|]. intros e' c He'. apply Hx. by right. }
  apply negb_true_iff in Ek. rewrite Ek. assert (Hk : kept_name (Efs.EName e) = true) by (unfold kept_name; by rewrite Ek).
  rewrite filter_cons_True in Hn, He |- * by done. apply NoDup_cons in Hn as [Hnin Hn]. apply not_elem_of_cons in He as [Hne He].
  specialize (IH Hn He (fun e' c He' => Hx e' c (list_elem_of_further _ _ _ He'))). set (names := filter _ _) in *. set (n := Efs.EName e) in *.
  assert (Hj : join_name p n = p ++ [n]).
  { unfold join_name. apply orb_false_iff in Ek as [[Ed _]%orb_false_iff _]. subst n. by rewrite Ed, bool_decide_eq_false_2. }
  assert (Hfirst : forall l, safe (p ++ [n]) l -> in_names p (n :: names) l).
  { intros l [Hu _]. eapply Forall_impl; [exact Hu|]. intros o Ho. exists n. split; [by left|done]. }
  assert (Hrest : forall l, in_names p names l -> in_names p (n :: names) l).
  { intros l Hl. eapply Forall_impl; [exact Hl|]. intros o (m & Hm & Ho). exists m. split; [by right|done]. }
  destruct (Efs.Inode fs (Efs.Ino e)) as [child|x|] eqn:Ei; [|by intros d; exists []; rewrite app_nil_r; split; [|split; [constructor|apply apart_nil]]..].
  change (adds (fun ops => in_names p (n :: names) ops /\ apart ops) (bind (extract child (join_name p n)) (fun _ => each_entry extract p ents))).
  rewrite Hj. eapply adds_bind; [apply (Hx e child); [by left|done|done]|intros _; exact IH| |].
  - intros l Hs. split; [by apply Hfirst|apply Hs].
  - intros l k [Hu Ha] [Hi Hb]. split; [apply Forall_app; split; [by apply Hfirst; split|by apply Hrest]|]. unfold in_names, under in *. rewrite Forall_forall in Hu, Hi.
    assert (Hcross : forall a b (q r : rel), a ≠ b -> (p ++ [a]) `prefix_of` q -> (p ++ [b]) `prefix_of` r -> ~ q `prefix_of` r).
    { intros a b q r Hab Hq Hr Hqr. assert (Hpa : (p ++ [a]) `prefix_of` r) by (by trans q). destruct Hpa as [x ->]. destruct Hr as [y Hy].
      rewrite <- !app_assoc in Hy. apply app_inv_head in Hy. cbn in Hy. congruence. }
    apply apart_app; [done|done| |].
    + intros t q o Hq Ho. destruct (Hi o Ho) as (m & Hm & Hp). eapply (Hcross n m); [by intros ->|exact (Hu _ Hq)|exact Hp].
    + intros t q o Hq Ho. destruct (Hi _ Hq) as (m & Hm & Hp). eapply (Hcross m n); [by intros ->|exact Hp|exact (Hu _ Ho)].
Qed.

(** The calls for a directory: those on itself, which are no links, and those below. *)
Definition dir_ops (p : rel) (ops : list op) : Prop :=
  Forall (fun o => path_of o = p /\ (forall t q, o <> Symlink t q) \/ exists n, (p ++ [n]) `prefix_of` path_of o) ops /\ apart ops.

Lemma dir_ops_self p ops : of_file p ops -> dir_ops p ops.
Proof. intros H. split; [|apply (of_file_safe _ _ H)]. eapply Forall_impl; [exact H|]. intros o Ho. by left. Qed.

Lemma dir_ops_names p names ops : in_names p names ops -> apart ops -> dir_ops p ops.
Proof. intros H Ha. split; [|done]. eapply Forall_impl; [exact H|]. intros o (n & _ & Ho). right. by exists n. Qed.

Lemma dir_ops_safe p ops : dir_ops p ops -> safe p ops.
Proof.
  intros [H Ha]. split; [|done]. eapply Forall_impl; [exact H|]. intros o [[-> _]|(n & Ho)]; [done|]. trans (p ++ [n]); [by apply prefix_app_r|done].
Qed.

(** A link below a directory is not on the way to the directory. *)
Lemma dir_ops_link p l k : dir_ops p l -> of_file p k -> forall t q o, Symlink t q ∈ l -> o ∈ k -> ~ q `prefix_of` path_of o.
Proof.
  intros [Hl _] Hk t q o Hq Ho Hqo. rewrite Forall_forall in Hl. unfold of_file in Hk. rewrite Forall_forall in Hk. destruct (Hk o Ho) as [Hp _].
  destruct (Hl _ Hq) as [[_ Hn]|(n & Hnq)]; [by destruct (Hn t q)|]. cbn in Hnq. rewrite Hp in Hqo.
  apply prefix_length in Hnq, Hqo. rewrite length_app in Hnq. cbn in Hnq. lia.
Qed.

Lemma dir_ops_app p l k : dir_ops p l -> of_file p k -> dir_ops p (l ++ k) /\ dir_ops p (k ++ l).
Proof.
  intros Hl Hk. pose proof (dir_ops_link p l k Hl Hk) as H1. pose proof (dir_ops_self _ _ Hk) as Hk'.
  assert (H2 : forall t q o, Symlink t q ∈ k -> o ∈ l -> ~ q `prefix_of` path_of o).
  { intros t q o Hq. unfold of_file in Hk. rewrite Forall_forall in Hk. destruct (Hk _ Hq) as [_ Hn]. by destruct (Hn t q). }
  destruct Hl as [Hf Ha], Hk' as [Hf' Ha']. split; (split; [by apply Forall_app|by apply apart_app]).
Qed.

Lemma extract_adds fuel node p : (forall n, holds node n -> tidy n) -> adds (safe p) (extract fuel node p).
Proof.
  assert (Hself : forall o, path_of o = p -> (forall t q, o <> Symlink t q) -> adds (of_file p) (call o)).
  { intros o H1 H2. apply adds_call; [apply of_file_closed|by apply of_file_one]. }
  intros Htidy. revert node p Htidy Hself. induction fuel as [|fuel IH]; intros node p Htidy Hself; cbn [extract]; destruct (Efs.IsDir node) eqn:Ed.
  1: apply adds_fail; split; [constructor|apply apart_nil].
  2:{ eapply (adds_bind (of_file p) (dir_ops p)); [by apply Hself| |apply of_file_safe|].
      2:{ intros l k Hl Hk. apply dir_ops_safe. by apply (dir_ops_app p k l). }
      intros _. destruct (Efs.ReadDir fs node) as [ents|e|] eqn:Er; [|by intros d; exists []; rewrite app_nil_r; split; [|apply dir_ops_self; constructor]..].
      destruct (Htidy node (holds_self node) ents Er) as [Hn He]. change (adds (dir_ops p) (bind (each_entry (extract fuel) p ents) (fun _ => call (Chmod p (Z.land (Efs.Mode node) 0x1ff))))).
      eapply adds_bind; [apply entries_adds; [done|done|]|intros _; by apply Hself| |].
      - intros e n Hin Hk Hi q. apply IH; [intros m Hm; apply Htidy; by eapply holds_entry|]. intros o H1 H2. apply adds_call; [apply of_file_closed|by apply of_file_one].
      - intros l [Hl Ha]. by eapply dir_ops_names.
      - intros l k [Hl Ha] Hk. apply (dir_ops_app p l k); [by eapply dir_ops_names|done]. }
  all: destruct (Efs.IsSymlink node).
  1,3: unfold extractSymlink; destruct (Efs.Readlink fs node) as [t|e|]; [|by intros d; exists []; rewrite app_nil_r; split; [|split; [constructor|apply apart_nil]]..];
    intros d; exists [Symlink t p]; split; [done|]; split; [by constructor|apply apart_one].
  all: destruct (Efs.IsRegular node); [|apply adds_ret; split; [constructor|apply apart_nil]].
  all: intros d; destruct (extractFile_adds node p d) as (new & Hnew & Hf); exists new; split; [done|by apply of_file_safe].
Qed.

(** C18. Where no directory of what is dumped has an entry without a name, or two of one
    name: whatever the host answers, no call of a dump of a directory goes through a
    link that the dump made, so that all it writes is below the output directory; and it
    makes each link once. *)
Theorem dump_apart fuel srcPath node :
  Efs.Lookup fs (if bool_decide (srcPath = []) then [slash] else srcPath) = Ok node -> Efs.IsDir node = true -> (forall n, holds node n -> tidy n) ->
  apart (d_ops (runDump fuel srcPath new_dumper).2).
Proof.
  intros Hl Hd Ht. unfold runDump. rewrite Hl. unfold bind at 1. cbn [image ret]. rewrite Hd.
  destruct (extract_adds fuel node [] Ht new_dumper) as (new & -> & _ & Ha). exact Ha.
Qed.
(** ** What it writes *)

Definition written (o : op) : bytes := match o with Write _ b => b | _ => [] end.
Definition content (ops : list op) : bytes := mjoin (written <$> ops).

Section copy.
Context (bytes_at : Z -> Z) (isize : Z) `{!ReaderAtOK (Efs.r fs) bytes_at isize}.

(** The host makes every call for the path. *)
Definition obliges (p : rel) : Prop := forall done o, path_of o = p -> host done o = None.

Lemma call_obliged p o d : obliges p -> path_of o = p -> call o d = (inr tt, MkDumper (d_ops d ++ [o]) (d_files d) (d_bytes d)).
Proof. intros Hh Ho. unfold call, bind, try_. by rewrite (Hh _ _ Ho). Qed.

Definition file_from (node : Efs.Inode_t) (off : Z) : bytes := Efs.file_byte fs bytes_at (Efs.Extents node) <$> seqZ off (Efs.Size node - off).

(** One round of the loop. *)
Lemma copy_round fuel node p off d : obliges p -> Efs.wf_extents fs isize (Efs.Extents node) -> 0 <= off < Efs.Size node ->
  let n := Z.min chunk (Efs.Size node - off) in
  let b := Efs.file_byte fs bytes_at (Efs.Extents node) <$> seqZ off n in
  let d' := MkDumper (d_ops d ++ [Write p b]) (d_files d) (d_bytes d + n) in
  copyContent (S fuel) node p off d = if n <? chunk then (inr tt, d') else copyContent fuel node p (off + n) d'.
Proof.
  intros Hh Hw Ho n b d'. assert (Hc : 0 < chunk) by done. assert (Hn : 0 < n) by lia.
  assert (Hlen : zlen b = n) by (unfold b, zlen; rewrite length_fmap, length_seqZ; lia).
  cbn [copyContent]. rewrite (Efs.ReadAt_correct fs bytes_at isize node chunk off Hw Ho ltac:(lia)). fold n. fold b. unfold bind at 1. cbn [image ret].
  rewrite Hlen, (proj2 (Z.ltb_lt 0 n)) by lia. unfold bind at 1 2. rewrite (call_obliged p) by done. unfold wrote. cbn [d_ops d_files d_bytes].
  by destruct (n <? chunk).
Qed.

Lemma copy_past fuel node p off d : Efs.Size node <= off -> 0 <= off -> copyContent (S fuel) node p off d = (inr tt, d).
Proof.
  intros H H0. cbn [copyContent]. unfold Efs.ReadAt. rewrite (proj2 (Z.ltb_ge off 0)), (proj2 (Z.leb_le _ _)) by lia. done.
Qed.

(** Reads enough for what is left. *)
Lemma copy_all fuel node p off d : obliges p -> Efs.wf_extents fs isize (Efs.Extents node) -> 0 <= off <= Efs.Size node ->
  (Efs.Size node - off) / chunk + 1 < Z.of_nat fuel + 1 ->
  exists new, copyContent fuel node p off d = (inr tt, MkDumper (d_ops d ++ new) (d_files d) (d_bytes d + (Efs.Size node - off)))
    /\ Forall (fun o => exists b, o = Write p b) new /\ content new = file_from node off.
Proof.
  intros Hh Hw. revert off d. induction fuel as [|fuel IH]; intros off d Ho Hf.
  { pose proof (Z.div_pos (Efs.Size node - off) chunk ltac:(lia) ltac:(done)). lia. }
  destruct (decide (off = Efs.Size node)) as [->|Hne].
  { exists []. rewrite copy_past by lia. rewrite Z.sub_diag, Z.add_0_r, app_nil_r. unfold file_from. rewrite Z.sub_diag. destruct d. by split_and!. }
  rewrite copy_round by (try done; lia). cbv zeta. set (n := Z.min chunk (Efs.Size node - off)). set (b := _ <$> seqZ off n).
  assert (Hc : chunk = 65536) by done.
  destruct (n <? chunk) eqn:E; zbool.
  - assert (n = Efs.Size node - off) as -> by lia. exists [Write p b]. split; [done|]. split; [by repeat econstructor|]. cbn. by rewrite app_nil_r.
  - assert (n = chunk) as Hn by lia. destruct (IH (off + n) (MkDumper (d_ops d ++ [Write p b]) (d_files d) (d_bytes d + n))) as (new & -> & Hnew & Hcont); [lia| |].
    { replace (Efs.Size node - off) with ((Efs.Size node - (off + n)) + 1 * chunk) in Hf by lia. rewrite Z.div_add in Hf by lia. lia. }
    exists (Write p b :: new). cbn [d_ops d_files d_bytes]. rewrite <- app_assoc. split; [do 2 f_equal; lia|]. split; [constructor; [by exists b|done]|].
    change (b ++ content new = file_from node off). rewrite Hcont. unfold b, file_from. rewrite <- fmap_app. f_equal.
    replace (Efs.Size node - off) with (n + (Efs.Size node - (off + n))) by lia. rewrite seqZ_app by lia. done.
Qed.

(** C19. A file of the image whose extents are sound, where the host makes the calls for its
    path: the dump opens it, writes its bytes in order and no others, closes it, gives
    it the permissions of its inode, and counts it; it always ends. *)
Theorem file_dumped fuel node p d : Efs.IsDir node = false -> Efs.IsSymlink node = false -> Efs.IsRegular node = true ->
  obliges p -> Efs.wf_extents fs isize (Efs.Extents node) -> 0 <= Efs.Size node ->
  exists writes, extract fuel node p d =
      (inr tt, MkDumper (d_ops d ++ OpenFile p :: writes ++ [CloseFile p; Chmod p (Z.land (Efs.Mode node) 0x1ff)]) (d_files d + 1) (d_bytes d + Efs.Size node))
    /\ Forall (fun o => exists b, o = Write p b) writes
    /\ content writes = Efs.file_byte fs bytes_at (Efs.Extents node) <$> seqZ 0 (Efs.Size node).
Proof.
  intros Hd Hl Hr Hh Hw Hs.
  assert (He : extract fuel node p = extractFile node p) by (destruct fuel; cbn [extract]; by rewrite Hd, Hl, Hr). rewrite He.
  unfold extractFile. unfold bind at 1. rewrite (call_obliged p) by done. unfold bind at 1.
  edestruct (copy_all (copy_fuel node) node p 0) as (new & -> & Hnew & Hc); [done|done|lia| |].
  { unfold copy_fuel. rewrite Z.sub_0_r. pose proof (Z.div_pos (Efs.Size node) chunk ltac:(lia) ltac:(done)). lia. }
  exists new. unfold bind at 1. rewrite (call_obliged p) by done. unfold bind, counted. cbn [d_ops d_files d_bytes]. rewrite (call_obliged p) by done.
  cbn [d_ops d_files d_bytes]. rewrite Z.sub_0_r. split; [|split; [done|]].
  - f_equal. f_equal. rewrite <- !app_assoc. done.
  - rewrite Hc. unfold file_from. by rewrite Z.sub_0_r.
Qed.
End copy.
End dump.

(** ** Images *)

(** A file system of eight inodes: the root directory (2), of two entries of six bytes
    each, a link to [/etc] (3), a directory (4) which has one file, [f], and the file (5). *)
Definition letter_entry (ino : Z) (c : Z) : bytes := be_enc 4 ino ++ [1; c].
Definition small_inode (mode size block : Z) : bytes :=
  be_enc 2 mode ++ be_enc 2 2 ++ replicate 4 0 ++ be_enc 4 size ++ replicate 16 0 ++ be_enc 2 1 ++ replicate 2 0 ++ be_enc 4 block ++ be_enc 4 (2 ^ 24) ++ replicate 88 0.
Definition link_image (ents : bytes) : bytes :=
  let sb := be_enc 4 100 ++ be_enc 4 2 ++ be_enc 4 10 ++ be_enc 2 2 ++ replicate 4 0 ++ be_enc 2 1 ++ replicate 8 0 ++ be_enc 4 Efs.SuperMagic in
  replicate 512 0 ++ sb ++ replicate (512 - length sb) 0
  ++ replicate 256 0 ++ small_inode 0x41ed 512 4 ++ small_inode 0xa1ff 4 5
  ++ small_inode 0x41ed 512 6 ++ small_inode 0x81a4 3 7 ++ replicate 256 0
  ++ ([0xBE; 0xEF; 250; 2; 250; 253] ++ replicate 494 0 ++ ents)
  ++ (str "/etc" ++ replicate 508 0)
  ++ ([0xBE; 0xEF; 253; 1; 253] ++ replicate 501 0 ++ letter_entry 5 102)
  ++ (str "abc" ++ replicate 509 0).

Definition link_fs (ents : bytes) : Efs.FS := match Efs.Open (image_reader (link_image ents)) 0 with Ok fs => fs | _ => Efs.demo_fs end.
Definition link_node (ents : bytes) (ino : Z) : Efs.Inode_t := match Efs.Inode (link_fs ents) ino with Ok n => n | _ => Efs.demo_inode end.

(** A host where every call succeeds: as it does in a directory that can be written,
    where the link leads to a directory. *)
Definition willing : list op -> op -> option Z := fun _ _ => None.


(** The link is [x], the directory [y]; both are [x]; both entries are the root itself,
    without a name. *)
Definition tidy_ents : bytes := letter_entry 3 120 ++ letter_entry 4 121.
Definition twice_ents : bytes := letter_entry 3 120 ++ letter_entry 4 120.
Definition nameless_ents : bytes := be_enc 4 2 ++ [0; 0] ++ be_enc 4 2 ++ [0; 0].

Lemma tidy_nodes ino : ino ∈ [2; 3; 4; 5] -> Efs.Inode (link_fs tidy_ents) ino = Ok (link_node tidy_ents ino).
Proof. intros H. repeat (apply elem_of_cons in H as [->|H]; [vm_compute; reflexivity|]). by apply not_elem_of_nil in H. Qed.

Lemma tidy_dirs ino ents : ino ∈ [2; 3; 4; 5] -> Efs.ReadDir (link_fs tidy_ents) (link_node tidy_ents ino) = Ok ents ->
  ents = [Efs.MkDirEntry [120] 3; Efs.MkDirEntry [121] 4] \/ ents = [Efs.MkDirEntry [102] 5].
Proof.
  intros H. repeat (apply elem_of_cons in H as [->|H]; [intros He; vm_compute in He; first [discriminate He|injection He as <-; auto]|]).
  by apply not_elem_of_nil in H.
Qed.

Lemma tidy_inos ents e : ents = [Efs.MkDirEntry [120] 3; Efs.MkDirEntry [121] 4] \/ ents = [Efs.MkDirEntry [102] 5] -> e ∈ ents -> Efs.Ino e ∈ [2; 3; 4; 5].
Proof. intros [-> | ->]; set_solver. Qed.

Lemma tidy_holds ino n : ino ∈ [2; 3; 4; 5] -> holds (link_fs tidy_ents) (link_node tidy_ents ino) n ->
  exists i, i ∈ [2; 3; 4; 5] /\ n = link_node tidy_ents i.
Proof.
  intros Hi H. remember (link_node tidy_ents ino) as m eqn:Em. revert ino Hi Em.
  induction H as [m|m ents e child n Hr Hin Hk Hn _ IH]; intros ino Hi ->; [by exists ino|].
  assert (He : Efs.Ino e ∈ [2; 3; 4; 5]).
  { eapply tidy_inos; [by apply (tidy_dirs ino)|exact Hin]. }
  rewrite (tidy_nodes _ He) in Hn. injection Hn as <-. by apply (IH (Efs.Ino e)).
Qed.

Lemma tidy_tidy n : holds (link_fs tidy_ents) (link_node tidy_ents 2) n -> tidy (link_fs tidy_ents) n.
Proof.
  intros H. apply tidy_holds in H as (i & Hi & ->); [|by left]. intros ents He.
  destruct (tidy_dirs i ents Hi He) as [-> | ->]; (split; [apply (bool_decide_unpack _); vm_compute; exact I|apply (bool_decide_unpack _); vm_compute; exact I]).
Qed.

Lemma tidy_root : Efs.Lookup (link_fs tidy_ents) (if bool_decide (@nil Z = []) then [slash] else []) = Ok (link_node tidy_ents 2).
Proof. vm_compute. reflexivity. Qed.

Lemma tidy_root_dir : Efs.IsDir (link_node tidy_ents 2) = true.
Proof. vm_compute. reflexivity. Qed.

Lemma tidy_calls : d_ops (runDump (link_fs tidy_ents) willing 3 [] new_dumper).2
  = [MkdirAll []; Symlink (str "/etc") [[120]]; MkdirAll [[121]]; OpenFile [[121]; [102]]; Write [[121]; [102]] (str "abc"); CloseFile [[121]; [102]];
     Chmod [[121]; [102]] 420; Chmod [[121]] 493; Chmod [] 493].
Proof. vm_compute. reflexivity. Qed.

Lemma dump_apart_witness :
  apart [MkdirAll []; Symlink (str "/etc") [[120]]; MkdirAll [[121]]; OpenFile [[121]; [102]]; Write [[121]; [102]] (str "abc"); CloseFile [[121]; [102]];
     Chmod [[121]; [102]] 420; Chmod [[121]] 493; Chmod [] 493].
Proof. rewrite <- tidy_calls. exact (dump_apart (link_fs tidy_ents) willing 3 [] (link_node tidy_ents 2) tidy_root tidy_root_dir tidy_tidy). Defined.

Lemma file_dumped_witness : exists writes, content writes = str "abc" /\
  d_ops (extract (link_fs tidy_ents) willing 0 (link_node tidy_ents 5) [[102]] new_dumper).2 = OpenFile [[102]] :: writes ++ [CloseFile [[102]]; Chmod [[102]] 420].
Proof.
  destruct (file_dumped (link_fs tidy_ents) willing (at_ (link_image tidy_ents)) 4096 (ReaderAtOK0 := image_reader_ok (link_image tidy_ents)) 0 (link_node tidy_ents 5) [[102]] new_dumper)
    as (writes & He & _ & Hc).
  1-3: vm_compute; reflexivity.
  1: done.
  1: split; [repeat constructor; vm_compute; discriminate|repeat constructor].
  1: vm_compute; discriminate.
  exists writes. rewrite He, Hc. split; [vm_compute; reflexivity|reflexivity].
Defined.

(** Nothing asks that the names of a directory differ: the second entry [x] is dumped
    through the link that the first one made, so a file is written to [/etc/f]. *)
Lemma dump_follows : exists k, d_ops (runDump (link_fs twice_ents) willing 3 [] new_dumper).2
  = [MkdirAll []; Symlink (str "/etc") [[120]]; MkdirAll [[120]]; OpenFile [[120]; [102]]; Write [[120]; [102]] (str "abc")] ++ k.
Proof. eexists. vm_compute. reflexivity. Qed.

(** Nor is a directory inside itself looked for: with an entry that has no name it goes
    on at the same path for ever. *)
Definition loop_node : Efs.Inode_t := link_node nameless_ents 2.

Lemma loop_dir : Efs.ReadDir (link_fs nameless_ents) loop_node = Ok [Efs.MkDirEntry [] 2; Efs.MkDirEntry [] 2].
Proof. vm_compute. reflexivity. Qed.
Lemma loop_inode : Efs.Inode (link_fs nameless_ents) 2 = Ok loop_node.
Proof. vm_compute. reflexivity. Qed.
Lemma loop_is_dir : Efs.IsDir loop_node = true.
Proof. vm_compute. reflexivity. Qed.

Lemma dump_endless fuel d : extract (link_fs nameless_ents) willing fuel loop_node [] d
  = (inl NoFuel, MkDumper (d_ops d ++ replicate fuel (MkdirAll [])) (d_files d) (d_bytes d)).
Proof.
  revert d. induction fuel as [|fuel IH]; intros d; cbn [extract]; rewrite loop_is_dir.
  - cbn. rewrite app_nil_r. by destruct d.
  - rewrite loop_dir. cbv beta iota zeta delta [call bind ret image try_ willing d_ops d_files d_bytes]. cbn [each_entry Efs.EName Efs.Ino].
    rewrite loop_inode, !bool_decide_eq_false_2 by set_solver.
    change (join_name [] []) with (@nil bytes). cbv beta iota zeta delta [bind ret orb]. rewrite IH. cbn. by rewrite <- app_assoc.
Qed.
