(* ===== verification/Nfsexport.v ===== *)
(** A file system of [io/fs] served over NFS ([internal/nfsexport]): it is walked once,
    and every call is then a lookup in the index. The tree of Tree.v is such a file
    system; an NFS client of its export sees the tree. *)
From S2P Require Import Prelude Xdr Path Strings.
From S2P Require Efs Tree Build Nfs Nfs2 Nfs3 Nfs3Client.
Import Nfs (FS, only, ErrNotFound, ErrNotDir, ErrStale, ErrIO).

(** ** What [io/fs] gives *)

(** [fs.FileInfo], with the inode of a [*vfs.Metadata]. *)
Record finfo := MkInfo { fi_dir : bool; fi_mode : Z; fi_size : Z; fi_mtime : Z; fi_ino : option Z }.

(** An entry of a directory: [Info] can fail. *)
Record fentry := MkEntry { fe_name : bytes; fe_dir : bool; fe_info : option finfo }.

(** An open file: a read into a buffer, or a panic of what it reads from. *)
Definition reader : Type := Z -> Z -> option (bytes * option bool).

(** [f_statter] and [f_resolver]: what the type assertions find; the error of a read is
    whether it is [io.EOF]. *)
Record IoFS := MkIoFS {
  f_stat : bytes -> option finfo;
  f_readdir : bytes -> option (list fentry);
  f_open : bytes -> option (option reader);
  f_readlink : bytes -> option bytes;
  f_statter : bool;
  f_resolver : option (bytes -> option Tree.Origin_t);
}.

(** ** The index *)

Record record := MkRecord { r_path : bytes; isDir : bool; id : Z; mode : Z; size : Z; mtime : Z; describe : bytes }.

Record index := MkIndex { byPath : gmap bytes record; byID : gmap Z record; next : Z }.

Definition no_index : index := MkIndex ∅ ∅ 1.

(** [unixMode]. *)
Definition unixMode (i : finfo) : Z :=
  let perm := Z.land (fi_mode i) 0xfff in
  if fi_dir i then Z.lor 0x4000 perm
  else if Tree.has_mode (fi_mode i) Tree.ModeSymlink then Z.lor 0xa000 perm
  else Z.lor 0x8000 perm.

(** [normalize]. *)
Definition normalize (p : bytes) : bytes :=
  let p := trim slash p in if bool_decide (p = []) then [dot] else p.

(** [isComponent]. *)
Definition isComponent (name : bytes) : bool :=
  negb (bool_decide (name = [])) && negb (bool_decide (name = [dot])) && negb (bool_decide (name = dotdot)) && negb (bool_decide (slash ∈ name)).

Section export.
Context (fsys : IoFS).

(** [realIno]. *)
Definition realIno (p : bytes) : option Z := if f_statter fsys then i ← f_stat fsys p; fi_ino i else None.

Definition manifest (p : bytes) (dir : bool) : bytes :=
  match f_resolver fsys with
  | Some resolve => if dir then [] else match resolve p with Some o => Tree.Source_ o ++ str ":/" ++ Tree.Path_ o | None => [] end
  | None => []
  end.

(** The function of the walk: a path with what its entry says. *)
Definition visit (p : bytes) (dir : bool) (info : finfo) (ix : index) : index :=
  let '(i, nx) := match realIno p with Some i => (i, next ix) | None => (next ix, u64 (next ix + 1)) end in
  let rec := MkRecord p dir i (unixMode info) (fi_size info) (u32 (fi_mtime info)) (manifest p dir) in
  MkIndex (<[p := rec]> (byPath ix)) (<[i := rec]> (byID ix)) nx.

(** The entries of a directory, until one of them ends the walk. *)
Fixpoint each_child (walk : bytes -> bool -> option finfo -> index -> index * bool) (p : bytes) (ents : list fentry) (ix : index) : index * bool :=
  match ents with
  | [] => (ix, true)
  | e :: ents =>
      match walk (Join p (fe_name e)) (fe_dir e) (fe_info e) ix with
      | (ix, true) => each_child walk p ents ix
      | (ix, false) => (ix, false)
      end
  end.

(** [fs.WalkDir] below a path; [fuel] is how deep it may go. Whether it went on. *)
Fixpoint walk (fuel : nat) (p : bytes) (dir : bool) (info : option finfo) (ix : index) : index * bool :=
  match info with
  | None => (ix, false)
  | Some i =>
      let ix := visit p dir i ix in
      if dir then
        match fuel with
        | O => (ix, false)
        | S fuel =>
            match f_readdir fsys p with
            | None => (ix, false)
            | Some ents => each_child (walk fuel) p ents ix
            end
        end
      else (ix, true)
  end.

(** [Export]: the index of what the walk came to. *)
Definition Export (fuel : nat) : index :=
  match f_stat fsys [dot] with
  | None => no_index
  | Some i => (walk fuel [dot] (fi_dir i) (Some i) no_index).1
  end.

(** ** The calls *)

Section calls.
Context (ix : index).

Definition MountRoot (p : bytes) : record + Nfs.error :=
  match byPath ix !! normalize p with Some r => inl r | None => inr (only ErrNotFound) end.

Definition NodeByID (i : Z) : record + Nfs.error :=
  match byID ix !! i with Some r => inl r | None => inr (only ErrStale) end.

Definition Lookup (dir : record) (name : bytes) : record + Nfs.error :=
  if negb (isDir dir) then inr (only ErrNotDir)
  else if negb (isComponent name) then inr (only ErrNotFound)
  else match byPath ix !! Join (r_path dir) name with Some r => inl r | None => inr (only ErrNotFound) end.

(** An entry that the walk did not come to is left out. *)
Definition ReadDir (dir : record) : list (Nfs.DirEntry record) + Nfs.error :=
  if negb (isDir dir) then inr (only ErrNotDir)
  else match f_readdir fsys (r_path dir) with
       | None => inr (only ErrIO)
       | Some ents => inl (omap (fun e => (fun r => Nfs.MkDirEntry (fe_name e) r 0) <$> byPath ix !! Join (r_path dir) (fe_name e)) ents)
       end.

(** What a read stored, with its error; [None] when it panics. *)
Definition ReadAt (n : record) (count off : Z) : option (bytes * option Nfs.error) :=
  if size n <=? off then Some ([], None)
  else match f_open fsys (r_path n) with
       | None | Some None => Some ([], Some (only ErrIO))
       | Some (Some read) =>
           '(b, e) ← read off count;
           Some (b, match e with Some false => Some (only ErrIO) | _ => None end)
       end.

Definition Readlink (n : record) : bytes + Nfs.error :=
  if negb (Z.land (mode n) 0xf000 =? 0xa000) then inr (only ErrIO)
  else match f_readlink fsys (r_path n) with None => inr (only ErrIO) | Some t => inl t end.

(** The [nfs.FS]. There is no state; whether a call panicked is kept, and what is
    computed after that does not count. *)
Definition export : FS bool record := {|
  Nfs.ID := id; Nfs.Mode := mode; Nfs.Size := size; Nfs.Mtime := mtime; Nfs.Attr := fun _ => None;
  Nfs.MountRoot p := fun s => (MountRoot p, s);
  Nfs.NodeByID i := fun s => (NodeByID i, s);
  Nfs.Lookup d name := fun s => (Lookup d name, s);
  Nfs.ReadDir d := fun s => (ReadDir d, s);
  Nfs.ReadAt n count off := fun s => match ReadAt n count off with Some r => (r, s) | None => (([], Some (only ErrIO)), true) end;
  Nfs.Readlink n := fun s => (Readlink n, s);
  Nfs.handles := None; Nfs.writes := None; Nfs.space_of := None; Nfs.Exports := None;
|}.
End calls.
End export.

(** ** The tree *)

(** [time.Time.Unix]: the tree keeps seconds; the zero [time.Time] is that of the year 1. *)
Definition unix_of (t : option Z) : Z := default (-62135596800) t.

Definition finfo_of (n : Tree.node) : finfo :=
  let i := Tree.fileInfo_of n in MkInfo (Tree.n_dir n) (Tree.Mode i) (Tree.Size i) (unix_of (Tree.ModTime i)) (Some (Tree.MIno i)).
Definition fentry_of (n : Tree.node) : fentry := MkEntry (Tree.n_name n) (Tree.n_dir n) (Some (finfo_of n)).

Definition ok {E A} (m : outcome E A) : option A := match m with Ok a => Some a | _ => None end.

Definition reader_of (h : Tree.handle) : reader := fun off n =>
  match h off n with Ok (b, e) => Some (b, (fun e => bool_decide (e = EOF)) <$> e) | Err _ => Some ([], Some false) | Panic => None end.

(** [vfs.Tree] as such a file system. A directory is no [io.ReaderAt]. *)
Definition tree_io (t : Tree.Tree) : IoFS := {|
  f_stat p := '(_, n) ← ok (Tree.find t p); Some (finfo_of n);
  f_readdir p := '(p, n) ← ok (Tree.find t p);
    if Tree.n_dir n then Some (omap (fun c => fentry_of <$> Tree.t_nodes t !! (p ++ [c])) (Tree.sortedNames (Tree.t_nodes t) p)) else None;
  f_open p := match Tree.Open t p with Ok (Tree.regular _ h) => Some (Some (reader_of h)) | Ok (Tree.dirFile _ _ _) => Some None | _ => None end;
  f_readlink _ := None;
  f_statter := true;
  f_resolver := Some (fun p => ok (Tree.Resolve t p));
|}.

(** ** The index of a tree *)

(** The name of a path in [io/fs]. *)
Definition io_name (p : list bytes) : bytes := if bool_decide (p = []) then [dot] else join_slash p.

(** Every path of the tree has a name that can be asked for. *)
Definition nameable (t : Tree.Tree) : Prop := forall p n, Tree.t_nodes t !! p = Some n -> Forall name_ok p /\ ValidPath (io_name p) = true.

Lemma path_of_io p : Forall name_ok p -> Tree.path_of (io_name p) = p.
Proof.
  intros H. unfold io_name. case_bool_decide as E; [by subst|]. by apply Tree.path_of_join.
Qed.

Lemma io_name_inj p q : Forall name_ok p -> Forall name_ok q -> io_name p = io_name q -> p = q.
Proof. intros Hp Hq E. by rewrite <- (path_of_io p), <- (path_of_io q), E. Qed.

Lemma Join_io p c : Forall name_ok p -> name_ok c -> Join (io_name p) c = io_name (p ++ [c]).
Proof.
  intros Hp Hc. unfold io_name at 2. rewrite bool_decide_false by (by destruct p). unfold io_name. case_bool_decide as E.
  - subst. by rewrite Join_dot.
  - by apply Join_names.
Qed.

(** What the index says of a node. *)
Definition record_of (p : list bytes) (n : Tree.node) : record :=
  MkRecord (io_name p) (Tree.n_dir n) (Tree.n_ino n) (unixMode (finfo_of n)) (Tree.n_size n) (u32 (unix_of (Tree.n_mtime n)))
    (if Tree.n_dir n then [] else Tree.Source_ (Tree.n_origin n) ++ str ":/" ++ Tree.Path_ (Tree.n_origin n)).

(** The index has the nodes of [l], and nothing else. *)
Record indexed (ns : Tree.nodes) (l : list (list bytes)) (ix : index) : Prop := {
  in_path k r : byPath ix !! k = Some r <-> exists p n, p ∈ l /\ ns !! p = Some n /\ k = io_name p /\ r = record_of p n;
  in_id i r : byID ix !! i = Some r <-> exists p n, p ∈ l /\ ns !! p = Some n /\ i = Tree.n_ino n /\ r = record_of p n;
}.

Section tree.
Context (t : Tree.Tree) (Hserved : Tree.served t) (Hnames : nameable t).
Abbreviation ns := (Tree.t_nodes t).
Let Hwf := Tree.sv_wf t Hserved.

Lemma stat_node p n : ns !! p = Some n -> Tree.find t (io_name p) = Ok (p, n).
Proof. intros H. destruct (Hnames p n H) as [Hp Hv]. apply Tree.find_wf; [done|]. by rewrite path_of_io. Qed.

Lemma visit_node p n ix : ns !! p = Some n -> let r := record_of p n in
  visit (tree_io t) (io_name p) (Tree.n_dir n) (finfo_of n) ix = MkIndex (<[io_name p := r]> (byPath ix)) (<[Tree.n_ino n := r]> (byID ix)) (next ix).
Proof.
  intros H r. unfold visit, realIno, manifest, tree_io. cbn [f_statter f_stat f_resolver]. unfold Tree.Resolve. rewrite (stat_node p n H). done.
Qed.

Lemma ino_eq p q n m : ns !! p = Some n -> ns !! q = Some m -> Tree.n_ino n = Tree.n_ino m -> p = q.
Proof. intros Hp Hq. apply (Tree.ino_inj _ _ (Tree.sv_ok t Hserved) _ _ _ _ Hp Hq). by apply (Tree.sv_all t Hserved p). Qed.

Lemma visit_indexed l p n ix : ns !! p = Some n -> indexed ns l ix ->
  indexed ns (p :: l) (visit (tree_io t) (io_name p) (Tree.n_dir n) (finfo_of n) ix).
Proof.
  intros Hp [H1 H2]. rewrite visit_node by done. split; cbn [byPath byID].
  - intros k r. destruct (decide (k = io_name p)) as [->|Hne].
    + rewrite lookup_insert_eq. split; [intros [= <-]; exists p, n; split_and!; [by left|done..]|].
      intros (q & m & _ & Hq & E & ->). apply io_name_inj in E as ->; [congruence|apply (Hnames _ _ Hp)|apply (Hnames _ _ Hq)].
    + rewrite lookup_insert_ne, H1 by done. split; intros (q & m & Hin & Hq & -> & ->); exists q, m; split_and!; try done; [by right|].
      by apply elem_of_cons in Hin as [->|Hin].
  - intros i r. destruct (decide (i = Tree.n_ino n)) as [->|Hne].
    + rewrite lookup_insert_eq. split; [intros [= <-]; exists p, n; split_and!; [by left|done..]|].
      intros (q & m & _ & Hq & E & ->). pose proof (ino_eq p q n m Hp Hq E) as ->. congruence.
    + rewrite lookup_insert_ne, H2 by done. split; intros (q & m & Hin & Hq & -> & ->); exists q, m; split_and!; try done; [by right|].
      apply elem_of_cons in Hin as [->|Hin]; [|done]. destruct Hne. congruence.
Qed.

Lemma trim_left_none c s : head s <> Some c -> trim_left c s = s.
Proof. destruct s as [|x s]; [done|]. cbn. intros H. by rewrite (proj2 (Z.eqb_neq x c)) by congruence. Qed.

Lemma normalize_io p : Forall name_ok p -> normalize (io_name p) = io_name p.
Proof.
  intros Hp. unfold io_name. case_bool_decide as E; [by compute|]. unfold normalize, trim.
  assert (Hl : trim_left slash (join_slash p) = join_slash p).
  { apply trim_left_none. pose proof (join_slash_not_abs p E Hp) as H. destruct (join_slash p) as [|x s]; [done|]. cbn in H |- *. intros [= ->]. by rewrite Z.eqb_refl in H. }
  rewrite Hl. destruct (exists_last E) as (els & e & ->). apply Forall_app in Hp as [Hels He]. rewrite Forall_singleton in He.
  assert (Hlast : exists l x, join_slash (els ++ [e]) = l ++ [x] /\ x <> slash).
  { destruct He as (Hne & _ & _ & Hs). destruct (exists_last Hne) as (e' & x & ->). assert (Hx : x <> slash) by (intros ->; apply Hs, elem_of_app; right; by left).
    destruct els as [|d els]; [by exists e', x|]. exists (join_slash (d :: els) ++ slash :: e'), x. split; [|done].
    rewrite join_slash_snoc by done. by rewrite <- app_assoc. }
  destruct Hlast as (l & x & -> & Hx). rewrite trim_right_last by done. by rewrite bool_decide_false by (by destruct l).
Qed.

(** *** The walk *)

(** What the walk does at the nodes of a list. *)
Definition visits (l : list (list bytes)) (ix : index) : index :=
  foldl (fun ix p => match ns !! p with Some n => visit (tree_io t) (io_name p) (Tree.n_dir n) (finfo_of n) ix | None => ix end) ix l.

Lemma children_of p n : ns !! p = Some n -> Tree.n_dir n = true ->
  f_readdir (tree_io t) (io_name p) = Some (omap (fun c => fentry_of <$> ns !! (p ++ [c])) (Tree.sortedNames ns p)).
Proof. intros H Hd. cbn [tree_io f_readdir]. rewrite (stat_node p n H). cbn. by rewrite Hd. Qed.

Lemma child_ok p c n : ns !! (p ++ [c]) = Some n -> Forall name_ok p /\ name_ok c /\ Tree.n_name n = c.
Proof.
  intros H. destruct (Hnames _ _ H) as [Hf _]. rewrite Forall_app, Forall_singleton in Hf. destruct Hf as [Hp Hc]. split; [done|]. split; [done|].
  by destruct (Tree.wf_child _ Hwf _ _ _ H).
Qed.

(** A loop over children is the walks of their paths in turn. *)
Lemma each_visits (go : bytes -> bool -> option finfo -> index -> index * bool) (below : list bytes -> list (list bytes)) p names ix :
  (forall c n ix, c ∈ names -> ns !! (p ++ [c]) = Some n -> go (io_name (p ++ [c])) (Tree.n_dir n) (Some (finfo_of n)) ix = (visits (below (p ++ [c])) ix, true)) ->
  (forall c, c ∈ names -> is_Some (ns !! (p ++ [c]))) ->
  each_child go (io_name p) (omap (fun c => fentry_of <$> ns !! (p ++ [c])) names) ix = (visits (names ≫= fun c => below (p ++ [c])) ix, true).
Proof.
  intros Hgo Hs. revert ix. induction names as [|c names IH]; intros ix; [done|]. cbn [omap list_omap].
  destruct (Hs c) as [n Hn]; [by left|]. rewrite Hn. cbn [fmap option_fmap option_map each_child fentry_of fe_name fe_dir fe_info].
  destruct (child_ok p c n Hn) as (Hp & Hc & ->). rewrite Join_io by done. rewrite (Hgo c n ix) by (done || by left).
  change ((c :: names) ≫= (fun c => below (p ++ [c]))) with (below (p ++ [c]) ++ (names ≫= fun c => below (p ++ [c]))).
  unfold visits. rewrite foldl_app. apply IH; [intros d m ix' Hd; apply Hgo; by right|intros d Hd; apply Hs; by right].
Qed.

Lemma no_children p n : ns !! p = Some n -> Tree.n_dir n = false -> Tree.sortedNames ns p = [].
Proof.
  intros H Hd. destruct (Tree.sortedNames ns p) as [|c l] eqn:E; [done|].
  assert (Hc : c ∈ Tree.sortedNames ns p) by (rewrite E; by left). apply Tree.elem_sortedNames in Hc as [m Hm].
  destruct (Tree.wf_child _ Hwf _ _ _ Hm) as (_ & d & Hd' & Hdir). congruence.
Qed.

(** With fuel for the depth of the tree, the walk visits in the order of [number]. *)
Lemma walk_visits fuel p n ix : ns !! p = Some n -> (Tree.depth ns <= length p + fuel)%nat ->
  walk (tree_io t) fuel (io_name p) (Tree.n_dir n) (Some (finfo_of n)) ix = (visits (Tree.preorder (S fuel) ns p) ix, true).
Proof.
  revert p n ix. induction fuel as [|fuel IH]; intros p n ix Hp Hf.
  { pose proof (Tree.length_lt_depth ns p ltac:(by eexists)). lia. }
  cbn [walk Tree.preorder]. assert (Hv : visits [p] ix = visit (tree_io t) (io_name p) (Tree.n_dir n) (finfo_of n) ix) by (cbn; by rewrite Hp).
  destruct (Tree.n_dir n) eqn:Hd.
  - rewrite (children_of p n Hp Hd).
    rewrite (each_visits _ (Tree.preorder (S fuel) ns)).
    + f_equal. rewrite <- Hv. unfold visits. by rewrite <- foldl_app.
    + intros c m ix' _ Hc. apply IH; [done|]. rewrite length_app. cbn. lia.
    + intros c Hc. by apply Tree.elem_sortedNames.
  - rewrite (no_children p n Hp Hd). by rewrite <- Hv.
Qed.

Lemma visits_indexed l ix k : (forall p, p ∈ l -> is_Some (ns !! p)) -> indexed ns k ix -> indexed ns (reverse l ++ k) (visits l ix).
Proof.
  revert k ix. induction l as [|p l IH]; intros k ix Hs Hi; [done|]. rewrite reverse_cons, <- app_assoc. cbn [app].
  destruct (Hs p) as [n Hn]; [by left|]. change (visits (p :: l) ix) with (visits l (match ns !! p with Some n => visit (tree_io t) (io_name p) (Tree.n_dir n) (finfo_of n) ix | None => ix end)).
  rewrite Hn. apply IH; [intros q Hq; apply Hs; by right|]. by apply visit_indexed.
Qed.

(** The export has every node of the tree, under its name and its inode. *)
Lemma Export_indexed fuel : (Tree.depth ns <= fuel)%nat -> exists l, (forall p, p ∈ l <-> is_Some (ns !! p)) /\ indexed ns l (Export (tree_io t) fuel).
Proof.
  intros Hf. destruct (Tree.wf_root _ Hwf) as (r & Hr & Hd). exists (reverse (Tree.preorder (S fuel) ns []) ++ []). split.
  - intros p. rewrite app_nil_r, elem_of_reverse, Tree.elem_preorder by (done || by exists r). split; [by intros (? & -> & ? & _)|].
    intros Hp. exists p. split_and!; [done..|]. pose proof (Tree.length_lt_depth ns p Hp). lia.
  - unfold Export. assert (f_stat (tree_io t) [dot] = Some (finfo_of r)) as ->.
    { cbn [tree_io f_stat]. by rewrite (stat_node [] r Hr : Tree.find t [dot] = _). }
    change [dot] with (io_name []). change (fi_dir (finfo_of r)) with (Tree.n_dir r). rewrite (walk_visits fuel [] r no_index Hr) by (cbn; lia). cbn [fst]. apply visits_indexed.
    + intros p Hp. apply Tree.elem_preorder in Hp as (? & -> & ? & _); [done|done|by exists r].
    + split; [intros k x|intros i x]; (split; [intros E; cbn in E; by rewrite lookup_empty in E|by intros (? & ? & ?%elem_of_nil & _)]).
Qed.
(** ** What the export answers *)

Context (fuel : nat) (Hfuel : (Tree.depth ns <= fuel)%nat).
Abbreviation ix := (Export (tree_io t) fuel).

Lemma by_name p : Forall name_ok p -> byPath ix !! io_name p = record_of p <$> ns !! p.
Proof.
  intros Hp. destruct (Export_indexed fuel Hfuel) as (l & Hl & [H _]). destruct (ns !! p) as [n|] eqn:E; cbn.
  - apply H. exists p, n. split_and!; [by apply Hl; exists n|done..].
  - apply eq_None_not_Some. intros [r Hr]. apply H in Hr as (q & m & _ & Hq & Eq & _). apply io_name_inj in Eq as ->; [congruence|done|apply (Hnames _ _ Hq)].
Qed.

Lemma by_ino p n : ns !! p = Some n -> NodeByID ix (Tree.n_ino n) = inl (record_of p n).
Proof.
  intros Hp. destruct (Export_indexed fuel Hfuel) as (l & Hl & [_ H]). unfold NodeByID.
  assert (byID ix !! Tree.n_ino n = Some (record_of p n)) as ->; [|done]. apply H. exists p, n. split_and!; [by apply Hl; exists n|done..].
Qed.

Lemma isComponent_ok c : isComponent c = true <-> name_ok c.
Proof.
  unfold isComponent, name_ok. rewrite !andb_true_iff, !negb_true_iff, !bool_decide_eq_false. tauto.
Qed.

(** A look-up goes to the entry of that name, one step down, and nowhere else. *)
Lemma Lookup_child p n c : ns !! p = Some n -> Tree.n_dir n = true ->
  Lookup ix (record_of p n) c = match (if isComponent c then ns !! (p ++ [c]) else None) with Some m => inl (record_of (p ++ [c]) m) | None => inr (only ErrNotFound) end.
Proof.
  intros Hp Hd. unfold Lookup. cbn [record_of isDir r_path]. rewrite Hd. cbn [negb]. destruct (isComponent c) eqn:Hc; [|done]. apply isComponent_ok in Hc. cbn [negb].
  destruct (Hnames _ _ Hp) as [Hf _]. rewrite Join_io, by_name by (done || (apply Forall_app; split; [done|by apply Forall_singleton])). by destruct (ns !! (p ++ [c])).
Qed.

(** The entries of a directory of the tree. *)
Definition listing (p : list bytes) : list (Nfs.DirEntry record) :=
  omap (fun c => (fun m => Nfs.MkDirEntry c (record_of (p ++ [c]) m) 0) <$> ns !! (p ++ [c])) (Tree.sortedNames ns p).

Lemma ReadDir_listing p n : ns !! p = Some n -> Tree.n_dir n = true -> ReadDir (tree_io t) ix (record_of p n) = inl (listing p).
Proof.
  intros Hp Hd. unfold ReadDir. cbn [record_of isDir r_path]. rewrite Hd. cbn [negb]. rewrite (children_of p n Hp Hd). f_equal. unfold listing.
  assert (Hs : forall c, c ∈ Tree.sortedNames ns p -> is_Some (ns !! (p ++ [c]))) by (by intros c ?%Tree.elem_sortedNames).
  revert Hs. generalize (Tree.sortedNames ns p) as names. intros names Hs. induction names as [|c names IH]; [done|].
  destruct (Hs c) as [m Hm]; [by left|]. destruct (child_ok p c m Hm) as (Hf & Hc & Hname). cbn [omap list_omap]. rewrite Hm. cbn [fmap option_fmap option_map omap list_omap fentry_of fe_name].
  rewrite Hname, Join_io by done. rewrite by_name by (apply Forall_app; split; [done|by apply Forall_singleton]). rewrite Hm. cbn [fmap option_fmap option_map]. f_equal.
  apply IH. intros d Hd'. apply Hs. by right.
Qed.

Lemma listing_names p : Nfs.Name <$> listing p = Tree.sortedNames ns p.
Proof.
  unfold listing. assert (Hs : forall c, c ∈ Tree.sortedNames ns p -> is_Some (ns !! (p ++ [c]))) by (by intros c ?%Tree.elem_sortedNames).
  revert Hs. generalize (Tree.sortedNames ns p) as names. intros names Hs. induction names as [|c names IH]; [done|].
  destruct (Hs c) as [m Hm]; [by left|]. cbn [omap list_omap]. rewrite Hm. cbn. f_equal. apply IH. intros d Hd'. apply Hs. by right.
Qed.
(** ** A client of it *)

(** The handle of a node, and that no call has panicked. *)
Definition handle_of (n : Tree.node) : bytes := Nfs2.encodeFH (Tree.n_ino n).
Definition going (crashed : bool) : Prop := crashed = false.
Abbreviation served_fs := (export (tree_io t) ix).

(** What [io.ReaderAt] asks of an open file whose bytes are [data]. *)
Definition reads_bytes (h : Tree.handle) (data : bytes) : Prop := forall off n, 0 <= n -> 0 <= off < zlen data ->
  exists e, h off n = Ok (sub data off n, e) /\ (e = None \/ e = Some EOF).

Lemma land_type k m : Z.land k 0xf000 = k -> Z.land (Z.lor k (Z.land m 0xfff)) 0xf000 = k.
Proof. intros Hk. rewrite Z.land_lor_distr_l, <- Z.land_assoc. change (Z.land 0xfff 0xf000) with 0. by rewrite Z.land_0_r, Z.lor_0_r. Qed.

Lemma type_dir p n : Tree.n_dir n = true -> Nfs2.ftype (mode (record_of p n)) = Nfs2.nfDIR.
Proof. intros H. cbn [record_of mode]. unfold unixMode, Nfs2.ftype. cbn [finfo_of fi_dir]. rewrite H. by rewrite land_type. Qed.

Lemma type_file p n : Tree.n_dir n = false -> Tree.has_mode (Tree.n_perm n) Tree.ModeSymlink = false -> Nfs2.ftype (mode (record_of p n)) = Nfs2.nfREG.
Proof.
  intros H Hl. cbn [record_of mode]. unfold unixMode, Nfs2.ftype. cbn [finfo_of fi_dir fi_mode Tree.fileInfo_of Tree.Mode]. rewrite H, Hl. by rewrite land_type.
Qed.

Hypothesis Hnext : Tree.t_nextIno t <= 2 ^ 64.

Lemma ino_range p n : ns !! p = Some n -> 0 <= Tree.n_ino n < 2 ^ 64.
Proof.
  intros Hp. pose proof (Tree.ino_range _ _ (Tree.sv_ok t Hserved) p n Hp (Tree.sv_all t Hserved p n Hp)) as H. unfold Efs.RootIno in H. lia.
Qed.

Lemma handle_names p n : ns !! p = Some n -> Nfs3Client.names served_fs going (handle_of n) (record_of p n).
Proof.
  intros Hp. destruct (Nfs2.fh_roundtrip (Tree.n_ino n) (ino_range p n Hp)) as [Hl Hd]. split.
  - unfold Nfs3Client.wf_fh, handle_of. rewrite Hl. by compute.
  - intros r s Hs. exists s. split; [|done]. unfold Nfs2.resolve. cbn [export Nfs.handles]. unfold handle_of. rewrite Hd. unfold Nfs.call. cbn [export Nfs.NodeByID].
    by rewrite (by_ino p n Hp).
Qed.

Lemma tree_holds p n i h data : ns !! p = Some n -> Tree.has_mode (Tree.n_perm n) Tree.ModeSymlink = false ->
  Tree.Open t (io_name p) = Ok (Tree.regular i h) -> Tree.n_size n = zlen data -> reads_bytes h data ->
  Nfs3Client.holds served_fs going (record_of p n) data.
Proof.
  intros Hp Hl Ho Hs Hh. assert (Hd : Tree.n_dir n = false).
  { unfold Tree.Open in Ho. rewrite (stat_node p n Hp) in Ho. cbn in Ho. by destruct (Tree.n_dir n). }
  split; [by apply type_file|]. split; [exact Hs|]. intros c o s Hg Hc Hoff. destruct (Hh o c Hc Hoff) as (e & Hr & He).
  exists None, s. split_and!; [|done|done]. cbn [export Nfs.ReadAt]. unfold ReadAt. cbn [record_of size r_path]. rewrite Hs, (proj2 (Z.leb_gt _ _)) by lia.
  cbn [tree_io f_open]. rewrite Ho. unfold reader_of. rewrite Hr. cbn [mbind option_bind fmap option_fmap option_map]. by destruct He as [-> | ->].
Qed.

Lemma tree_lists p n : ns !! p = Some n -> Tree.n_dir n = true -> Nfs3Client.lists served_fs going (record_of p n) (listing p).
Proof. intros Hp Hd. split; [by apply type_dir|]. intros s Hs. exists s. split; [|done]. cbn [export Nfs.ReadDir]. by rewrite (ReadDir_listing p n Hp Hd). Qed.

Lemma listing_entry p e : e ∈ listing p -> exists m, ns !! (p ++ [Nfs.Name e]) = Some m /\ e = Nfs.MkDirEntry (Nfs.Name e) (record_of (p ++ [Nfs.Name e]) m) 0.
Proof. unfold listing. intros (c & _ & H)%list_elem_of_omap. apply fmap_Some in H as (m & Hm & ->). by exists m. Qed.

Lemma seen_names {N} (fs : FS bool N) i ents : Nfs3Client.d_name <$> Nfs3Client.seen fs i ents = Nfs.Name <$> ents.
Proof. revert i. induction ents as [|e ents IH]; intros i; [done|]. cbn [Nfs3Client.seen]. rewrite !fmap_cons. by rewrite IH. Qed.

(** C29. A version 3 client of the export sees the tree, when it is as a build leaves
    it and all its paths are ones that [io/fs] takes: names of UTF-8, with no [.] or [..] ([unnameable_root] is what
    happens otherwise). A name of the tree mounts as its
    node, and the handle of a node leads to that node again; a look-up in a directory
    goes to its entry of that name and nowhere else; pages of any size with room for
    the names list a directory whole, by the names of the tree in their order; and
    reads of any size give the bytes of a file whole. *)
Theorem tree_over_nfs p n s : going s -> ns !! p = Some n ->
  MountRoot ix (io_name p) = inl (record_of p n) /\
  Nfs3Client.names served_fs going (handle_of n) (record_of p n) /\
  (Tree.n_dir n = true ->
    (forall c, Lookup ix (record_of p n) c = match (if isComponent c then ns !! (p ++ [c]) else None) with Some m => inl (record_of (p ++ [c]) m) | None => inr (only ErrNotFound) end) /\
    (forall count turns, 0 <= count < 2 ^ 32 -> Nfs3Client.each_fits count (listing p) -> Z.of_nat (length (listing p)) < 2 ^ 32 -> (length (listing p) < turns)%nat ->
      exists l, fst (Nfs3Client.list_dir served_fs turns (handle_of n) count 0 s) = Some l /\ Nfs3Client.d_name <$> l = Tree.sortedNames ns p)) /\
  (forall i h data count turns, Tree.has_mode (Tree.n_perm n) Tree.ModeSymlink = false ->
    Tree.Open t (io_name p) = Ok (Tree.regular i h) -> Tree.n_size n = zlen data -> reads_bytes h data ->
    0 < count < 2 ^ 32 -> zlen data < 2 ^ 63 -> (length data < turns)%nat ->
    fst (Nfs3Client.read_file served_fs turns (handle_of n) count 0 s) = Some data).
Proof.
  intros Hs Hp. destruct (Hnames _ _ Hp) as [Hf Hv]. split_and!.
  - unfold MountRoot. assert (normalize (io_name p) = io_name p) as -> by by apply normalize_io. by rewrite by_name, Hp.
  - by apply handle_names.
  - intros Hd. split; [intros c; by apply Lookup_child|]. intros count turns Hc Hfit Hlen Ht. eexists. split.
    + apply (Nfs3Client.list_dir_whole served_fs going (handle_of n) (record_of p n) (listing p)); try done; [by apply handle_names|by apply tree_lists| |].
      * left. apply Forall_forall. intros e He. destruct (listing_entry p e He) as (m & _ & ->). done.
      * apply Forall_forall. intros e He. destruct (listing_entry p e He) as (m & Hm & ->). exact (ino_range _ m Hm).
    + by rewrite seen_names, listing_names.
  - intros i h data count turns Hl Ho Hsz Hh Hc Hlen Ht.
    apply (Nfs3Client.read_file_whole served_fs going (handle_of n) (record_of p n)); try done; [by apply handle_names|by eapply tree_holds].
Qed.
End tree.

(** ** What the server relies on *)

(** A read stores no more than it was asked for, as [io.ReaderAt] says. *)
Definition bounded_reads (f : IoFS) : Prop := forall p r off n b e, f_open f p = Some (Some r) -> 0 <= n -> r off n = Some (b, e) -> zlen b <= n.

#[export] Instance export_laws f ix (H : bounded_reads f) : Nfs.FSLaws (export f ix) (fun _ : bool => tt).
Proof.
  split; try done. intros n c o s Hc. cbn [export Nfs.ReadAt]. unfold ReadAt. destruct (size n <=? o); [exact Hc|].
  destruct (f_open f (r_path n)) as [[r|]|] eqn:E; [|exact Hc..]. destruct (r o c) as [[b e]|] eqn:Er; cbn; [|exact Hc].
  by apply (H (r_path n) r o c b e).
Qed.

(** ** A small tree *)

Definition demo_path : list bytes := [str "s"; str "dist"].
Definition demo_dir : Tree.node := default (Tree.newDir [] Tree.zeroOrigin) (Tree.t_nodes Build.demo_tree !! demo_path).
Definition demo_file : Tree.node := default (Tree.newDir [] Tree.zeroOrigin) (Tree.t_nodes Build.demo_tree !! (demo_path ++ [str "a"])).

Lemma demo_nameable : nameable Build.demo_tree.
Proof.
  intros p n Hp. assert (H : map_Forall (fun p (_ : Tree.node) => Forall name_ok p /\ ValidPath (io_name p) = true) (Tree.t_nodes Build.demo_tree)).
  { apply (bool_decide_unpack _). vm_compute. exact I. }
  exact (H p n Hp).
Qed.

Lemma demo_dir_there : Tree.t_nodes Build.demo_tree !! demo_path = Some demo_dir.
Proof. vm_compute. reflexivity. Qed.
Lemma demo_file_there : Tree.t_nodes Build.demo_tree !! (demo_path ++ [str "a"]) = Some demo_file.
Proof. vm_compute. reflexivity. Qed.

Lemma mem_reads_bytes data : reads_bytes (Tree.mem_handle data) data.
Proof.
  intros off n Hn Ho. unfold Tree.mem_handle, image_reader. rewrite (proj2 (Z.ltb_ge off 0)), (proj2 (Z.leb_gt (zlen data) off)) by lia. cbn [andb].
  eexists. split; [done|]. destruct (_ <? n); auto.
Qed.

Lemma export_demo_open : exists i, Tree.Open Build.demo_tree (io_name (demo_path ++ [str "a"])) = Ok (Tree.regular i (Tree.mem_handle (str "hello"))).
Proof. eexists. vm_compute. reflexivity. Qed.

Lemma demo_facts : (Tree.depth (Tree.t_nodes Build.demo_tree) <= 4)%nat /\ Tree.t_nextIno Build.demo_tree <= 2 ^ 64 /\ Tree.n_dir demo_dir = true /\
  Tree.has_mode (Tree.n_perm demo_file) Tree.ModeSymlink = false /\ Tree.n_size demo_file = 5 /\
  Tree.sortedNames (Tree.t_nodes Build.demo_tree) demo_path = [str "a"; str "b"; str "c"].
Proof. split_and!; by vm_compute; try lia. Qed.

Lemma demo_fits : Nfs3Client.each_fits 200 (listing Build.demo_tree demo_path) /\ length (listing Build.demo_tree demo_path) = 3%nat.
Proof. split; [|by vm_compute]. apply (bool_decide_unpack _). vm_compute. exact I. Qed.

Abbreviation demo_nfs := (export (tree_io Build.demo_tree) (Export (tree_io Build.demo_tree) 4)).

Lemma tree_over_nfs_witness :
  (exists l, fst (Nfs3Client.list_dir demo_nfs 4 (handle_of demo_dir) 200 0 false) = Some l /\ Nfs3Client.d_name <$> l = [str "a"; str "b"; str "c"]) /\
  fst (Nfs3Client.read_file demo_nfs 6 (handle_of demo_file) 2 0 false) = Some (str "hello").
Proof.
  destruct demo_facts as (Hfuel & Hnext & Hd & Hl & Hsz & <-), export_demo_open as [i Ho], demo_fits as [Hfit Hlen]. split.
  - destruct (tree_over_nfs Build.demo_tree Build.demo_served demo_nameable 4 Hfuel Hnext demo_path demo_dir false eq_refl demo_dir_there) as (_ & _ & H & _).
    destruct (H Hd) as [_ H']. apply H'; [lia|exact Hfit|rewrite Hlen; lia|rewrite Hlen; lia].
  - destruct (tree_over_nfs Build.demo_tree Build.demo_served demo_nameable 4 Hfuel Hnext (demo_path ++ [str "a"]) demo_file false eq_refl demo_file_there) as (_ & _ & _ & H).
    apply (H i (Tree.mem_handle (str "hello")) (str "hello") 2 6%nat Hl Ho Hsz (mem_reads_bytes _)); [lia|done|cbn; lia].
Defined.

(** ** A tree with names that are no UTF-8 *)

(** A set of an EFS image with two such names: [Build] takes them, as any bytes are a
    name on EFS, and [Stat] does not. *)
Definition raw_resolver : Build.Resolver := fun _ =>
  Ok (Build.MkResolved (Build.demo_source [([254], str "x"); ([255], str "y")]) Tree.OriginImage None).
Definition raw_set : Build.SetSpec := Build.MkSet (str "s") [Build.demo_layer "first" "one"] ∅ ∅.
Definition raw_tree : Tree.Tree := match Build.Build 2 [raw_set] raw_resolver with Ok t => t | _ => Tree.MkTree ∅ [] 0 end.

(** The walk then hands out ids from 1 on, and the second is the root's: the root's own
    handle leads to a file. So [nameable] is needed for what a client sees. *)
Lemma unnameable_root :
  Build.is_ok (Build.Build 2 [raw_set] raw_resolver) = true /\
  let ix := Export (tree_io raw_tree) 4 in
  match MountRoot ix [slash] with
  | inl r => id r = Efs.RootIno /\ isDir r = true /\
      match NodeByID ix (id r) with inl n => isDir n = false /\ r_path n = str "s/dist/" ++ [255] | inr _ => False end
  | inr _ => False
  end.
Proof. vm_compute. split_and!; done. Qed.
