(* ===== verification/Extractrun.v ===== *)
(** A run of the extractor ([Run] and [extractSet] of [internal/extract/extract.go]): what
    is refused before anything is written, what is opened and closed again, a manifest and
    a summary for each set. The command that starts it is in Extractcmd.v. What becomes
    of an entry is in Extract.v and Extractor.v, the sets are those of Config.v, and the
    tree is built as in Build.v. *)
From S2P Require Import Prelude Text Path Strconv Strings Addr Scope.
From S2P Require Tree Build Inst Glob Extract Extractor Config Generate.
Import Extract (Options, Subsystems, Unpack, ManifestOnly, item, plan, status).

Inductive resource := MediaTree | Distribution (set : bytes) | SetRoot (set : bytes) | Manifest (set : bytes).

#[export] Instance resource_eq_dec : EqDecision resource.
Proof. solve_decision. Defined.

(** What [os.Lstat] finds. *)
Inductive there := Present | Missing | Unknown (e : Z).

Inductive run_err :=
| BadPattern (g : bytes) | UnpackNeedsData | BadOrder (e : Config.cfg_err) | AlreadyThere (p : bytes) | NotSeen (p : bytes) (e : Z)
| TreeFailed (e : Tree.error) | NotOpened (set : bytes) (e : option Inst.error) | NoProducts (set : bytes)
| OutFailed (e : Z) | SetFailed (set : bytes) (e : Z) | ManifestFailed (set : bytes) (e : Z) | HadErrors (sets : list bytes)
| NotFinished (s : stuck) | Panicked.

(** The statuses in the order of a summary. *)
Definition summary : list status :=
  [Extract.Written; Extract.Duplicate; Extract.Variant; Extract.Planned; Extract.Superseded; Extract.Skipped; Extract.Failed; Extract.Unparsed].

Section run.
(** A directory to write to, as the writer sees it, and the one of each set when it is new. *)
Context {W : Type} (T : Extractor.Root W) (fresh : bytes -> W) (sha256 : bytes -> bytes).
(** [fs.Sub] of the tree at the distribution directory of a set, [<name>/dist]. *)
Context (sub : Tree.Tree -> bytes -> option Inst.FS).

(** What is done to the outside, in order. *)
Inductive moment := MadeOut | MadeSet (set : bytes) | Filled (set : bytes) (root : W) | Recorded (set : bytes) (items : list item)
  | Summed (set : bytes) (counts : list nat).

(** What the calls outside give, for one set and for a run. *)
Record calls := MkCalls {
  w_mkdir : option Z; w_openRoot : option Z; w_create : option Z;
  w_encode : nat -> option Z; w_flush : option Z; w_close : option Z;
}.

Record world := MkWorld {
  w_lstat : bytes -> there;                   (* below the output directory *)
  w_mkdirAll : option Z;
  w_sets : nat -> calls;                      (* of the extraction of each set in turn *)
}.

Context (w : world) (bfuel : nat) (resolver : Build.Resolver) (turns : nat).

Abbreviation act := (prog resource moment run_err).

(** A distribution that is open: the extractor's view, its files, its archives. *)
Definition open_dist : Type := Extract.dist * Inst.FS * Inst.Dist.

(** [openDist]. *)
Definition openDist (tree : Tree.Tree) (name : bytes) : act open_dist :=
  match sub tree name with
  | None => fail (NotOpened name None)
  | Some fsys =>
      match Inst.OpenDist fsys with
      | Panic => fail Panicked
      | Err e => fail (NotOpened name (Some e))
      | Ok d =>
          if bool_decide (Inst.Products d = []) then fail (NoProducts name)
          else ret (Extract.MkDistribution name (Inst.Products d)
                 (fun file => match Tree.Resolve tree (name ++ str "/dist/" ++ file) with Ok o => Tree.Source_ o | _ => [] end), fsys, d)
      end
  end.

(** The manifest: every record is encoded until one fails; the first error of that, of
    the flush and of the close is the one. *)
Definition first_error (errs : list (option Z)) : option Z := hd None (filter (fun e => e <> None) errs).
Definition manifest_error (c : calls) (items : list item) : option Z :=
  first_error [first_error (w_encode c <$> seq 0 (length items)); w_flush c].

Definition write_manifest (c : calls) (name : bytes) (items : list item) : act unit :=
  bind (call (SetFailed name <$> w_create c)) (fun _ =>
  bind (acquire (Manifest name)) (fun _ =>
  bind (release (Manifest name)) (fun _ =>
  bind (call (ManifestFailed name <$> first_error [manifest_error c items; w_close c])) (fun _ =>
  note (Recorded name items))))).

(** The records of a set, and its directory. *)
Definition fill (name : bytes) (dists : list open_dist) (opts : Options) : outcome stuck (list item) * Extractor.writer W :=
  Extractor.extract_items T sha256 ((fun d => d.1.2) <$> dists) turns opts ((fun d => d.1.1) <$> dists) ((fun d => d.2) <$> dists) (fresh name).

Definition settled {A} (r : outcome stuck (list item) * Extractor.writer W) (after : list item * list Inst.Dist -> act A) : act A :=
  match r with
  | (Ok items, wr) => after (items, Extractor.w_dists wr)
  | (Err s, _) => fail (NotFinished s)
  | (Panic, _) => fail Panicked
  end.

Definition finish (c : calls) (name : bytes) (x : list item * list Inst.Dist) : act (list item * list Inst.Dist) := bind (write_manifest c name x.1) (fun _ => ret x).

(** [extractSet]: the items as they were recorded, and the distributions after it. *)
Definition extractSet (c : calls) (name : bytes) (dists : list open_dist) (opts : Options) : act (list item * list Inst.Dist) :=
  let r := fill name dists opts in
  if ManifestOnly opts then settled r (finish c name)
  else
    bind (call (SetFailed name <$> w_mkdir c)) (fun _ =>
    bind (note (MadeSet name)) (fun _ =>
    bind (call (SetFailed name <$> w_openRoot c)) (fun _ =>
    bind (acquire (SetRoot name)) (fun _ => defer (close_ (SetRoot name))
      (settled r (fun x => bind (note (Filled name (Extractor.w_root r.2))) (fun _ => finish c name x))))))).

(** ** Run *)

Definition check_patterns (opts : Options) : act unit :=
  each (fun g (_ : unit) => if bool_decide (Glob.Match g [] = None) then fail (BadPattern g) else ret tt) (Subsystems opts) tt.

Definition manifest_name (name : bytes) : bytes := name ++ str ".jsonl".

(** Existing output is refused. *)
Definition check_absent (name : bytes) : act unit :=
  each (fun p (_ : unit) => match w_lstat w p with Present => fail (AlreadyThere p) | Unknown e => fail (NotSeen p e) | Missing => ret tt end)
    [name; manifest_name name] tt.

(** The order of a set, and the sets to build with those of it that are new. *)
Definition add_order (sets : list Config.InstallSet) (name : bytes) (st : list (bytes * list bytes) * list Config.InstallSet) :
    act (list (bytes * list bytes) * list Config.InstallSet) :=
  match Config.InstallOrder sets name with
  | Panic => fail Panicked
  | Err e => fail (BadOrder e)
  | Ok order =>
      let build := fold_left (fun b s => if bool_decide (Config.is_Name s ∈ Config.is_Name <$> b) then b else b ++ [s]) order st.2 in
      bind (check_absent name) (fun _ => ret (st.1 ++ [(name, Config.is_Name <$> order)], build))
  end.

(** Every distribution is closed when [Run] returns. *)
Fixpoint with_dists {A : Type} (tree : Tree.Tree) (names : list bytes) (opened : gmap bytes open_dist) (body : gmap bytes open_dist -> act A) : act A :=
  match names with
  | [] => body opened
  | name :: names =>
      bind (openDist tree name) (fun d =>
      bind (acquire (Distribution name)) (fun _ => defer (close_ (Distribution name))
        (with_dists tree names (<[name := d]> opened) body)))
  end.

Definition counts_of (items : list item) : list nat := (fun s => Extractor.count_status s items) <$> summary.

(** The archives that a set's extraction opened stay open for the next. *)
Definition put_dists (order : list bytes) (ds : list Inst.Dist) (opened : gmap bytes open_dist) : gmap bytes open_dist :=
  fold_left (fun o nd => match o !! nd.1 with Some (x, f, _) => <[nd.1 := (x, f, nd.2)]> o | None => o end) (zip order ds) opened.

(** The sets that had errors so far. *)
Fixpoint extract_sets (i : nat) (orders : list (bytes * list bytes)) (opts : Options) (opened : gmap bytes open_dist) (bad : list bytes) : act (list bytes) :=
  match orders with
  | [] => ret bad
  | (name, order) :: orders =>
      bind (extractSet (w_sets w i) name (omap (fun s => opened !! s) order) opts) (fun '(items, ds) =>
      bind (note (Summed name (counts_of items))) (fun _ =>
      extract_sets (S i) orders opts (put_dists order ds opened) (if (0 <? Extractor.count_status Extract.Failed items)%nat then bad ++ [name] else bad)))
  end.

(** The sets that recorded a failed entry, when nothing else failed. *)
Definition extract_all (cfg : Config.Config) (names : list bytes) (opts : Options) : act (list bytes) :=
  let sets := Config.InstallSets cfg in
  bind (check_patterns opts) (fun _ =>
  bind (if ManifestOnly opts && Unpack opts then fail UnpackNeedsData else ret tt) (fun _ =>
  let names := if bool_decide (names = []) then Config.is_Name <$> sets else names in
  bind (each (add_order sets) names ([], [])) (fun '(orders, build) =>
  match Build.Build bfuel (Generate.setSpecs build) resolver with
  | Panic => fail Panicked
  | Err (e, _) => fail (TreeFailed e)
  | Ok tree =>
      bind (acquire MediaTree) (fun _ => defer (close_ MediaTree)
        (with_dists tree (Config.is_Name <$> build) ∅ (fun opened =>
         bind (call (OutFailed <$> w_mkdirAll w)) (fun _ => bind (note MadeOut) (fun _ => extract_sets 0 orders opts opened [])))))
  end))).

(** [Run]: the error names them. *)
Definition Run (cfg : Config.Config) (names : list bytes) (opts : Options) : act unit :=
  bind (extract_all cfg names opts) (fun bad => if bool_decide (bad = []) then ret tt else fail (HadErrors bad)).

(** ** Nothing is left open *)

Lemma leaves_openDist tree name : leaves (openDist tree name) (fun _ => []).
Proof.
  unfold openDist. destruct (sub tree name) as [fsys|]; [|apply leaves_fail]. destruct (Inst.OpenDist fsys) as [d|e|]; [|apply leaves_fail..].
  destruct (bool_decide _); [apply leaves_fail|apply leaves_ret].
Qed.

Lemma leaves_manifest c name items : leaves (write_manifest c name items) (fun _ => []).
Proof.
  apply leaves_bind; [apply leaves_call|]. intros _. apply leaves_acquire. intros h. unfold bind, release. cbn [h_open close_].
  unfold call. by destruct (ManifestFailed name <$> _).
Qed.

Lemma leaves_finish c name x : leaves (finish c name x) (fun _ => []).
Proof. apply leaves_bind; [apply leaves_manifest|intros _; apply leaves_ret]. Qed.

Lemma leaves_settled {A} r (after : list item * list Inst.Dist -> act A) : (forall x, leaves (after x) (fun _ => [])) -> leaves (settled r after) (fun _ => []).
Proof. intros H. destruct r as [[items|s|] wr]; [apply H|apply leaves_fail..]. Qed.

Lemma leaves_extractSet c name dists opts : leaves (extractSet c name dists opts) (fun _ => []).
Proof.
  unfold extractSet. destruct (ManifestOnly opts); [apply leaves_settled, leaves_finish|].
  apply leaves_bind; [apply leaves_call|]. intros _. apply leaves_bind; [apply leaves_note|]. intros _. apply leaves_bind; [apply leaves_call|]. intros _.
  apply leaves_deferred, leaves_settled. intros x. apply leaves_bind; [apply leaves_note|]. intros _. apply leaves_finish.
Qed.

Lemma leaves_sets i orders opts opened bad : leaves (extract_sets i orders opts opened bad) (fun _ => []).
Proof.
  revert i opened bad. induction orders as [|[name order] orders IH]; intros i opened bad; [apply leaves_ret|]. cbn [extract_sets].
  apply leaves_bind; [apply leaves_extractSet|]. intros [items ds]. apply leaves_bind; [apply leaves_note|]. intros _. apply IH.
Qed.

Lemma leaves_dists {A : Type} (tree : Tree.Tree) (names : list bytes) (opened : gmap bytes open_dist) (body : gmap bytes open_dist -> act A) : (forall o, leaves (body o) (fun _ => [])) ->
  leaves (with_dists tree names opened body) (fun _ => []).
Proof.
  intros Hb. revert opened. induction names as [|name names IH]; intros opened; [apply Hb|]. cbn [with_dists].
  apply leaves_bind; [apply leaves_openDist|]. intros d. apply leaves_deferred, IH.
Qed.

Lemma leaves_all cfg names opts : leaves (extract_all cfg names opts) (fun _ => []).
Proof.
  apply leaves_bind; [apply leaves_each; intros g s; destruct (bool_decide _); [apply leaves_fail|apply leaves_ret]|]. intros _.
  apply leaves_bind; [destruct (_ && _); [apply leaves_fail|apply leaves_ret]|]. intros _.
  apply leaves_bind.
  - apply leaves_each. intros name st. unfold add_order. destruct (Config.InstallOrder _ _) as [order|e|]; [|apply leaves_fail..].
    apply leaves_bind; [|intros _; apply leaves_ret]. apply leaves_each. intros q u. destruct (w_lstat w q); [apply leaves_fail|apply leaves_ret|apply leaves_fail].
  - intros [orders build]. destruct (Build.Build _ _ _) as [tree|[e cs]|]; [|apply leaves_fail..]. apply leaves_deferred, leaves_dists. intros opened.
    apply leaves_bind; [apply leaves_call|]. intros _. apply leaves_bind; [apply leaves_note|]. intros _. apply leaves_sets.
Qed.

(** ** What it does to the outside *)

(** The moments that a step adds, with what it answers. *)
Definition says {A} (m : act A) (P : run_err + A -> list moment -> Prop) : Prop := forall h, exists new, h_log (m h).2 = h_log h ++ new /\ P (m h).1 new.

Lemma says_ret {A} (a : A) (P : run_err + A -> list moment -> Prop) : P (inr a) [] -> says (ret a) P.
Proof. intros H h. exists []. by rewrite app_nil_r. Qed.

Lemma says_fail {A} e (P : run_err + A -> list moment -> Prop) : P (inl e) [] -> says (fail e : act A) P.
Proof. intros H h. exists []. by rewrite app_nil_r. Qed.

Lemma says_bind {A B} (m : act A) (f : A -> act B) P Q (R : run_err + B -> list moment -> Prop) : says m P -> (forall a, says (f a) (Q a)) ->
  (forall e new, P (inl e) new -> R (inl e) new) -> (forall a r new new', P (inr a) new -> Q a r new' -> R r (new ++ new')) -> says (bind m f) R.
Proof.
  intros Hm Hf He Ha h. unfold bind. destruct (Hm h) as (new & Hl & Hp). destruct (m h) as [[e|a] h1]; cbn [fst snd] in *; [exists new; auto|].
  destruct (Hf a h1) as (new' & Hl' & Hq). exists (new ++ new'). rewrite Hl', Hl, app_assoc. split; [done|]. by eapply Ha.
Qed.

Lemma says_mono {A} (m : act A) (P Q : run_err + A -> list moment -> Prop) : says m P -> (forall r new, P r new -> Q r new) -> says m Q.
Proof. intros H HPQ h. destruct (H h) as (new & Hl & Hp). exists new. auto. Qed.

(** A step that does nothing to the outside. *)
Definition quiet {A} (m : act A) (P : A -> Prop) : Prop := says m (fun r new => new = [] /\ forall a, r = inr a -> P a).

Lemma quiet_then {A B} (m : act A) (f : A -> act B) P (R : run_err + B -> list moment -> Prop) : quiet m P -> (forall e, R (inl e) []) ->
  (forall a, P a -> says (f a) R) -> says (bind m f) R.
Proof.
  intros Hm He Hf h. unfold bind. destruct (Hm h) as (new & Hl & -> & Hp). destruct (m h) as [[e|a] h1]; cbn [fst snd] in *; rewrite app_nil_r in Hl.
  - exists []. by rewrite app_nil_r.
  - rewrite <- Hl. by apply Hf, Hp.
Qed.

Lemma quiet_ret {A} (a : A) (P : A -> Prop) : P a -> quiet (ret a) P.
Proof. intros H. apply says_ret. split; [done|]. by intros ? [= <-]. Qed.

Lemma quiet_fail {A} e (P : A -> Prop) : quiet (fail e) P.
Proof. by apply says_fail. Qed.

Lemma quiet_bind {A B} (m : act A) (f : A -> act B) P Q : quiet m P -> (forall a, P a -> quiet (f a) Q) -> quiet (bind m f) Q.
Proof. intros Hm Hf. by apply (quiet_then m f P). Qed.

Lemma quiet_call e : quiet (call e) (fun _ => e = None).
Proof. destruct e; [apply quiet_fail|by apply quiet_ret]. Qed.

Lemma says_acquire {A} r (m : act A) P : says m P -> says (bind (acquire r) (fun _ => defer (close_ r) m)) P.
Proof. intros H h. unfold bind, acquire, defer. destruct (H (MkHeld (r :: h_open h) (h_log h))) as (new & Hl & Hp). exists new. by destruct (m _) as [x h1]. Qed.

Lemma says_note {A} x (f : unit -> act A) P : says (f tt) (fun r new => P r (x :: new)) -> says (bind (note x) f) P.
Proof.
  intros H h. unfold bind, note. destruct (H (MkHeld (h_open h) (h_log h ++ [x]))) as (new & Hl & Hp). exists (x :: new). rewrite Hl. cbn [h_log].
  by rewrite <- app_assoc.
Qed.

Lemma quiet_each {A} (f : A -> unit -> act unit) (P : A -> Prop) l : (forall x, quiet (f x tt) (fun _ => P x)) -> quiet (each f l tt) (fun _ => Forall P l).
Proof.
  intros Hf. induction l as [|x l IH]; [by apply quiet_ret|]. cbn [each]. eapply quiet_bind; [apply Hf|]. intros [] Hx.
  eapply says_mono; [exact IH|]. intros r new [-> H]. split; [done|]. intros a E. constructor; [done|by eapply H].
Qed.
(** *** Before anything is written *)

Lemma quiet_patterns opts : quiet (check_patterns opts) (fun _ => Forall (fun g => Glob.Match g [] <> None) (Subsystems opts)).
Proof. apply quiet_each. intros g. case_bool_decide; [apply quiet_fail|by apply quiet_ret]. Qed.

Definition absent (name : bytes) : Prop := Forall (fun p => w_lstat w p = Missing) [name; manifest_name name].

Lemma quiet_absent name : quiet (check_absent name) (fun _ => absent name).
Proof. apply quiet_each. intros p. destruct (w_lstat w p) eqn:E; [apply quiet_fail|by apply quiet_ret|apply quiet_fail]. Qed.

(** A set that can be extracted: nothing is in its place, and it has an order. *)
Definition ready (sets : list Config.InstallSet) (no : bytes * list bytes) : Prop :=
  absent no.1 /\ exists order, Config.InstallOrder sets no.1 = Ok order /\ no.2 = Config.is_Name <$> order.

Lemma add_new_names order (build : list Config.InstallSet) :
  let build' := fold_left (fun b s => if bool_decide (Config.is_Name s ∈ Config.is_Name <$> b) then b else b ++ [s]) order build in
  (Config.is_Name <$> build) ++ (Config.is_Name <$> order) ⊆ Config.is_Name <$> build'.
Proof.
  cbn zeta. revert build. induction order as [|s order IH]; intros build; cbn [fold_left fmap list_fmap]; [by rewrite app_nil_r|].
  etrans; [|apply IH]. intros x. rewrite !elem_of_app, elem_of_cons. case_bool_decide as Hs; [|rewrite fmap_app, elem_of_app].
  - intros [?|[->|?]]; auto.
  - intros [?|[->|?]]; auto. left. right. by left.
Qed.

Lemma quiet_order sets name st : quiet (add_order sets name st) (fun st' => exists names, st'.1 = st.1 ++ [(name, names)] /\ ready sets (name, names) /\
  (Config.is_Name <$> st.2) ++ names ⊆ Config.is_Name <$> st'.2).
Proof.
  unfold add_order. destruct (Config.InstallOrder sets name) as [order|e|] eqn:E; [|apply quiet_fail..]. eapply quiet_bind; [apply quiet_absent|].
  intros u Ha. apply quiet_ret. exists (Config.is_Name <$> order). split; [done|]. split; [split; [done|by exists order]|]. apply add_new_names.
Qed.

Lemma quiet_orders sets names st : quiet (each (add_order sets) names st) (fun st' => exists l, st'.1 = st.1 ++ l /\ l.*1 = names /\ Forall (ready sets) l /\
  (Config.is_Name <$> st.2) ++ mjoin l.*2 ⊆ Config.is_Name <$> st'.2).
Proof.
  revert st. induction names as [|name names IH]; intros st.
  - apply quiet_ret. exists []. by rewrite !app_nil_r.
  - cbn [each]. eapply quiet_bind; [apply quiet_order|]. intros st1 (ns & E1 & Hr & Hs). eapply says_mono; [apply IH|]. intros r new [-> H]. split; [done|].
    intros st' Er. destruct (H st' Er) as (l & E & Hl & Hf & Hs'). exists ((name, ns) :: l). rewrite E, E1, <- app_assoc. split; [done|]. split; [cbn; by rewrite Hl|].
    split; [by constructor|]. cbn [fmap list_fmap mjoin list_join]. intros x Hx. apply Hs'. rewrite app_assoc in Hx. apply elem_of_app in Hx as [Hx|Hx]; apply elem_of_app; [left; by apply Hs|by right].
Qed.

(** *** The distributions *)

Definition layer_of (tree : Tree.Tree) (name file : bytes) : bytes := match Tree.Resolve tree (name ++ str "/dist/" ++ file) with Ok o => Tree.Source_ o | _ => [] end.

(** The distribution of a set of the tree, which has products. *)
Definition opens (tree : Tree.Tree) (name : bytes) (x : Extract.dist) (f : Inst.FS) : Prop :=
  exists d, sub tree name = Some f /\ Inst.OpenDist f = Ok d /\ Inst.Products d <> [] /\ x = Extract.MkDistribution name (Inst.Products d) (layer_of tree name).

Definition all_open (tree : Tree.Tree) (opened : gmap bytes open_dist) : Prop := forall name d, opened !! name = Some d -> opens tree name d.1.1 d.1.2.

Lemma quiet_dist tree name : quiet (openDist tree name) (fun d => opens tree name d.1.1 d.1.2).
Proof.
  unfold openDist. destruct (sub tree name) as [fsys|] eqn:Es; [|apply quiet_fail]. destruct (Inst.OpenDist fsys) as [d|e|] eqn:Ed; [|apply quiet_fail..].
  case_bool_decide as Hp; [apply quiet_fail|]. apply quiet_ret. by exists d.
Qed.

Lemma says_dists {A : Type} (tree : Tree.Tree) (names : list bytes) (opened : gmap bytes open_dist) (body : gmap bytes open_dist -> act A) R :
  all_open tree opened -> (forall e, R (inl e) []) ->
  (forall o, all_open tree o -> (forall s, s ∈ names \/ is_Some (opened !! s) -> is_Some (o !! s)) -> says (body o) R) ->
  says (with_dists tree names opened body) R.
Proof.
  intros Ho He. revert opened Ho. induction names as [|name names IH]; intros opened Ho Hb; cbn [with_dists].
  - apply Hb; [done|]. intros s [?%not_elem_of_nil|?]; done.
  - eapply quiet_then; [apply quiet_dist|done|]. intros d Hd. apply says_acquire, IH.
    + intros n d' [[<- <-]|[_ Hn]]%lookup_insert_Some; [done|by apply Ho].
    + intros o Hall Hdom. apply Hb; [done|]. intros s Hs. apply Hdom. destruct (decide (s = name)) as [->|Hne]; [right; by rewrite lookup_insert_eq|].
      rewrite lookup_insert_ne by done. destruct Hs as [Hs|Hs]; [left|by right]. by apply elem_of_cons in Hs as [->|Hs].
Qed.
(** *** The sets *)

(** What the extraction of a set did to the outside, with the directory it left. *)
Definition moments_of (opts : Options) (rec : bytes * list item * W) : list moment :=
  let '(name, items, root) := rec in (if ManifestOnly opts then [] else [MadeSet name; Filled name root]) ++ [Recorded name items; Summed name (counts_of items)].

(** Its records are those of the set over the sets it is installed over. *)
Definition made (opts : Options) (tree : Tree.Tree) (no : bytes * list bytes) (rec : bytes * list item * W) : Prop :=
  rec.1.1 = no.1 /\ exists dists fss ds wr, Forall2 (fun s xf => opens tree s xf.1 xf.2) no.2 (zip dists fss) /\ length dists = length fss /\
    Extractor.extract_items T sha256 fss turns opts dists ds (fresh no.1) = (Ok rec.1.2, wr) /\ Extractor.w_root wr = rec.2.

Lemma says_manifest c name items : says (write_manifest c name items) (fun r new => r = inr tt -> new = [Recorded name items]).
Proof.
  intros h. unfold write_manifest, bind, call, acquire, release, note. destruct (SetFailed name <$> w_create c); [exists []; by rewrite app_nil_r|].
  destruct (ManifestFailed name <$> _); cbn; [exists []; by rewrite app_nil_r|by exists [Recorded name items]].
Qed.

Lemma says_finish c name x : says (finish c name x) (fun r new => forall a, r = inr a -> a = x /\ new = [Recorded name x.1]).
Proof.
  eapply says_bind; [apply says_manifest|intros a; apply (says_ret x (fun r new => r = inr x /\ new = [])); done|done|].
  intros [] r new new' Hm [-> ->] a [= <-]. rewrite app_nil_r. split; [done|by apply Hm].
Qed.

Lemma says_set c name dists opts : says (extractSet c name dists opts) (fun r new => forall items ds, r = inr (items, ds) ->
  exists wr, fill name dists opts = (Ok items, wr) /\ ds = Extractor.w_dists wr /\ new ++ [Summed name (counts_of items)] = moments_of opts (name, items, Extractor.w_root wr)).
Proof.
  unfold extractSet, moments_of. destruct (fill name dists opts) as [[its|e|] wr] eqn:Ef.
  2,3: destruct (ManifestOnly opts); [by apply says_fail|]; eapply quiet_then; [apply quiet_call|done|]; intros u _; apply says_note;
    eapply says_mono; [eapply (quiet_then _ _ _ (fun r _ => forall a, r <> inr a)); [apply quiet_call|done|intros u' _; by apply says_acquire, says_fail]|];
    intros r new H items ds ->; by destruct (H (items, ds)).
  cbn [settled]. assert (Hfin : forall pre, says (finish c name (its, Extractor.w_dists wr)) (fun r new => forall items ds, r = inr (items, ds) ->
    exists wr', (Ok its, wr) = ((Ok items, wr') : outcome stuck (list item) * Extractor.writer W) /\ ds = Extractor.w_dists wr' /\ (pre (Extractor.w_root wr) ++ new) ++ [Summed name (counts_of items)] = pre (Extractor.w_root wr') ++ [Recorded name items; Summed name (counts_of items)])).
  { intros pre. eapply says_mono; [apply says_finish|]. intros r new H items ds E. destruct (H _ E) as [[= -> ->] ->]. exists wr. by rewrite <- app_assoc. }
  destruct (ManifestOnly opts); [exact (Hfin (fun _ => []))|].
  eapply quiet_then; [apply quiet_call|done|]. intros u _. apply says_note. eapply quiet_then; [apply quiet_call|done|]. intros u' _. apply says_acquire, says_note.
  exact (Hfin (fun r => [MadeSet name; Filled name r])).
Qed.

Lemma omap_opened (opened : gmap bytes open_dist) (l : list bytes) : (forall s, s ∈ l -> is_Some (opened !! s)) ->
  Forall2 (fun s d => opened !! s = Some d) l (omap (fun s => opened !! s) l).
Proof.
  induction l as [|s l IH]; intros H; [constructor|]. cbn [omap list_omap]. destruct (H s) as [d Hd]; [by left|]. rewrite Hd. constructor; [done|].
  apply IH. intros n Hn. apply H. by right.
Qed.

Lemma put_open (tree : Tree.Tree) (order : list bytes) (ds : list Inst.Dist) (opened : gmap bytes open_dist) : all_open tree opened ->
  all_open tree (put_dists order ds opened) /\ forall s, is_Some (opened !! s) -> is_Some (put_dists order ds opened !! s).
Proof.
  unfold put_dists. revert ds opened. induction order as [|n order IH]; intros [|d ds] opened Ho; cbn [zip zip_with fold_left fst snd]; try done.
  set (o1 := match opened !! n with Some _ => _ | None => _ end). assert (H1 : all_open tree o1 /\ forall s, is_Some (opened !! s) -> is_Some (o1 !! s)).
  { unfold o1. destruct (opened !! n) as [[[x f] d']|] eqn:E; [|done]. split.
    - intros m d2 [[<- <-]|[_ Hm]]%lookup_insert_Some; [exact (Ho _ _ E)|by apply Ho].
    - intros s Hs. destruct (decide (s = n)) as [->|Hne]; [rewrite lookup_insert_eq; by eexists|by rewrite lookup_insert_ne]. }
  destruct H1 as [Ho1 Hd1]. destruct (IH ds o1 Ho1) as [Ho2 Hd2]. split; [done|]. auto.
Qed.

Lemma zip_opened (tree : Tree.Tree) (opened : gmap bytes open_dist) (l : list bytes) (k : list open_dist) : all_open tree opened -> Forall2 (fun s d => opened !! s = Some d) l k ->
  Forall2 (fun s xf => opens tree s xf.1 xf.2) l (zip ((fun d => d.1.1) <$> k) ((fun d => d.1.2) <$> k)).
Proof. intros Ho H. induction H as [|s d l k Hd Hf IH]; cbn; constructor; [by apply Ho|exact IH]. Qed.

Definition failed_sets (recs : list (bytes * list item * W)) : list bytes :=
  omap (fun rec => if (0 <? Extractor.count_status Extract.Failed rec.1.2)%nat then Some rec.1.1 else None) recs.

Lemma says_sets (i : nat) (tree : Tree.Tree) (opts : Options) (orders : list (bytes * list bytes)) (opened : gmap bytes open_dist) (bad : list bytes) : all_open tree opened -> (forall s, s ∈ mjoin orders.*2 -> is_Some (opened !! s)) ->
  says (extract_sets i orders opts opened bad) (fun r new => forall bad', r = inr bad' ->
    exists recs, Forall2 (made opts tree) orders recs /\ new = mjoin (moments_of opts <$> recs) /\ bad' = bad ++ failed_sets recs).
Proof.
  revert i opened bad. induction orders as [|[name order] orders IH]; intros i opened bad Ho Hs; cbn [extract_sets].
  { apply says_ret. intros bad' [= <-]. exists []. by rewrite app_nil_r. }
  cbn [fmap list_fmap mjoin list_join snd] in Hs.
  assert (Hopen : Forall2 (fun s d => opened !! s = Some d) order (omap (fun s => opened !! s) order)) by (apply omap_opened; intros s H; apply Hs, elem_of_app; by left).
  set (k := omap (fun s => opened !! s) order) in *.
  eapply (says_bind _ _ _ (fun a r new => forall bad', r = inr bad' -> exists recs new', new = Summed name (counts_of a.1) :: new' /\ Forall2 (made opts tree) orders recs /\
    new' = mjoin (moments_of opts <$> recs) /\ bad' = (if (0 <? Extractor.count_status Extract.Failed a.1)%nat then bad ++ [name] else bad) ++ failed_sets recs)); [apply says_set| |done|].
  - intros [items ds]. apply says_note. destruct (put_open tree order ds opened Ho) as [Ho' Hd']. eapply says_mono; [apply (IH _ _ _ Ho')|].
    + intros s H. apply Hd', Hs, elem_of_app. by right.
    + intros r new H bad' E. destruct (H bad' E) as (recs & Hf & -> & ->). by exists recs, (mjoin (moments_of opts <$> recs)).
  - intros [items ds] r new new' H H' bad' E. destruct (H items ds eq_refl) as (wr & Hfill & -> & Hm). destruct (H' bad' E) as (recs & rest & -> & Hf & -> & ->).
    exists ((name, items, Extractor.w_root wr) :: recs). split_and!.
    + constructor; [|done]. split; [done|]. exists ((fun d => d.1.1) <$> k), ((fun d => d.1.2) <$> k), ((fun d => d.2) <$> k), wr.
      split_and!; [by eapply zip_opened|by rewrite !length_fmap|exact Hfill|done].
    + cbn [fmap list_fmap mjoin list_join]. rewrite <- Hm, <- app_assoc. done.
    + unfold failed_sets. cbn [omap list_omap fst snd]. destruct (0 <? _)%nat; [by rewrite <- app_assoc|done].
Qed.
(** The sets that are extracted: those named, or all. *)
Definition chosen (cfg : Config.Config) (names : list bytes) : list bytes := if bool_decide (names = []) then Config.is_Name <$> Config.InstallSets cfg else names.

(** What holds before anything is written. *)
Definition acceptable (cfg : Config.Config) (names : list bytes) (opts : Options) (orders : list (bytes * list bytes)) (tree : Tree.Tree) : Prop :=
  Forall (fun g => Glob.Match g [] <> None) (Subsystems opts) /\ ManifestOnly opts && Unpack opts = false /\
  orders.*1 = chosen cfg names /\ Forall (ready (Config.InstallSets cfg)) orders /\
  (exists build, Build.Build bfuel (Generate.setSpecs build) resolver = Ok tree) /\
  forall s, s ∈ mjoin orders.*2 -> exists x f, opens tree s x f.

Lemma says_all cfg names opts : says (extract_all cfg names opts) (fun r new =>
  (new <> [] -> exists orders tree, acceptable cfg names opts orders tree) /\
  forall bad, r = inr bad -> exists orders tree recs, acceptable cfg names opts orders tree /\ Forall2 (made opts tree) orders recs /\
    new = MadeOut :: mjoin (moments_of opts <$> recs) /\ bad = failed_sets recs).
Proof.
  eapply quiet_then; [apply quiet_patterns|done|]. intros u0 Hg.
  eapply (quiet_then _ _ (fun _ => ManifestOnly opts && Unpack opts = false)); [destruct (ManifestOnly opts && Unpack opts) eqn:E; [apply quiet_fail|by apply quiet_ret]|done|]. intros u1 Hm.
  eapply quiet_then; [apply quiet_orders|done|]. intros [orders build] (l & E & Hl & Hr & Hs). cbn [fst snd app fmap list_fmap] in E, Hs. subst l.
  destruct (Build.Build _ _ _) as [tree|[e cs]|] eqn:Eb; [|by apply says_fail..]. apply says_acquire.
  eapply says_dists; [by intros s d Hd|done|]. intros o Hall Hdom.
  assert (Hok : acceptable cfg names opts orders tree).
  { split_and!; [done..|by exists build|]. intros s Hin. destruct (Hdom s) as [d Hd]; [left; by apply Hs|]. exists d.1.1, d.1.2. by apply Hall. }
  eapply quiet_then; [apply quiet_call|done|]. intros u2 _. apply says_note. eapply says_mono; [apply (says_sets 0 tree opts orders o []); [done|]|].
  - intros s Hin. apply Hdom. left. by apply Hs.
  - intros r new H. split; [intros _; by exists orders, tree|]. intros bad ->. destruct (H bad eq_refl) as (recs & Hf & -> & ->). by exists orders, tree, recs.
Qed.

(** C14. A run of the extractor, whatever the calls outside answer. Everything it opened is
    closed again. It touches the outside only when every pattern is one, the options go
    together, nothing is in the place of a set or its manifest, each set has an order of
    sets to be installed over, the tree was built, and every distribution has products.
    When nothing else fails, each set was written once, in the order asked for: its
    directory filled, its manifest with the records of the plan and of what the writer
    did, a summary that counts them; and it reports an error exactly when a set recorded
    a failed entry, naming those that did. *)
Theorem Run_accounts cfg names opts h :
  let '(r, h') := Run cfg names opts h in
  h_open h' = h_open h /\ exists new, h_log h' = h_log h ++ new /\
    (new <> [] -> exists orders tree, acceptable cfg names opts orders tree) /\
    (r = inr tt \/ (exists bad, (extract_all cfg names opts h).1 = inr bad) ->
      exists orders tree recs, acceptable cfg names opts orders tree /\ Forall2 (made opts tree) orders recs /\
        new = MadeOut :: mjoin (moments_of opts <$> recs) /\
        r = (if bool_decide (failed_sets recs = []) then inr tt else inl (HadErrors (failed_sets recs)))).
Proof.
  unfold Run, bind. pose proof (leaves_all cfg names opts h) as Hl. destruct (says_all cfg names opts h) as (new & Hlog & Hnew & Hend).
  destruct (extract_all cfg names opts h) as [[e|bad] h'] eqn:E; cbn [fst snd] in *.
  - split; [done|]. exists new. split_and!; [done..|]. intros [Hr|(bad & Hr)]; discriminate.
  - destruct (Hend bad eq_refl) as (orders & tree & recs & Ha & Hf & Hn & ->).
    assert (Hr : (if bool_decide (failed_sets recs = []) then ret tt else fail (HadErrors (failed_sets recs))) h'
      = ((if bool_decide (failed_sets recs = []) then inr tt else inl (HadErrors (failed_sets recs))), h')) by (by destruct (bool_decide _)).
    rewrite Hr. cbn [app] in Hl. split; [done|]. exists new. split_and!; [done..|]. intros _. by exists orders, tree, recs.
Qed.
End run.
