(* ===== verification/Extractcmd.v ===== *)
(** The extract command ([cmd/instigator/extract.go]): the sets of a configuration, or
    one set of the images and directories that are named. What a run does with them is in
    Extractrun.v, what a configuration means in Config.v. *)
From S2P Require Import Prelude Text Path Strconv Strings Addr Scope.
From S2P Require Config Extract Extractrun.
Import Config (InstallSet, MkInstallSet, Layer, MkLayer, is_Name, is_Layers, ly_Name, ly_Source, IsDirName, set_ok, layer_ok).

(** [filepath.Ext]: from the last dot of the last element. *)
Fixpoint ext_from (acc r : bytes) : bytes :=
  match r with [] => [] | c :: r => if c =? slash then [] else if c =? dot then c :: acc else ext_from (c :: acc) r end.
Definition Ext (p : bytes) : bytes := ext_from [] (reverse p).

(** [strings.ToLower(e) == s] for a text [s] of small letters without [k] and [i]: no
    letter outside ASCII has such a small one. *)
Definition lower_byte (c : Z) : Z := if in_range 65 90 c then c + 32 else c.
Definition lowers_to (e s : bytes) : bool := bool_decide (lower_byte <$> e = s).

Definition isConfigArg (p : bytes) : bool := lowers_to (Ext p) (str ".yaml") || lowers_to (Ext p) (str ".yml").

Definition stripExt (src : bytes) : bytes :=
  let base := Base (Clean src) in
  let ext := Ext base in
  if bool_decide (ext = base) then base else default base (CutSuffix base ext).

(** The loop for a layer's name: [base-2], [base-3] and so on until one is not used. *)
Fixpoint unused (fuel : nat) (base ln : bytes) (n : Z) (used : list bytes) : option bytes :=
  match fuel with
  | O => None
  | S fuel => if bool_decide (ln ∈ used) then unused fuel base (base ++ [dash] ++ dec n) (n + 1) used else Some ln
  end.

Definition or_else (a b : bytes) : bytes := if bool_decide (a = []) then b else a.

Fixpoint add_sources (dist : bytes) (sources : list bytes) (layers : list Layer) : option (list Layer) :=
  match sources with
  | [] => Some layers
  | src :: sources =>
      ln ← unused (length layers + 1) (stripExt src) (stripExt src) 2 (ly_Name <$> layers);
      add_sources dist sources (layers ++ [MkLayer ln src [] dist [] false])
  end.

Inductive direct_err := NotASetName (name : bytes) | NoTurns.

(** [directSet]: of at least one source. *)
Definition directSet (sources : list bytes) (dist name : bytes) : outcome direct_err InstallSet :=
  match sources with
  | [] => Panic
  | first :: _ =>
      let name := or_else name (stripExt first) in
      if negb (IsDirName name) then Err (NotASetName name)
      else match add_sources (or_else dist (str "dist")) sources [] with
           | Some layers => Ok (MkInstallSet name true false layers ∅ ∅ [])
           | None => Err NoTurns
           end
  end.

(** ** The command *)

(** A [Config] of sets alone. *)
Definition only_sets (sets : list InstallSet) : Config.Config := Config.MkConfig noAddr noAddr None [] sets [] Config.noServices (Config.MkPorts 0 0 0) [] [].

Inductive cmd_err := TooFewArgs | OnlyWithoutConfig | ConfigNotRead | ConfigRefused (e : Config.cfg_err) | OnlyWithConfig | NotASet (e : direct_err).

(** What [extract.Run] is called with: a configuration, the sets to extract, and the
    output directory. *)
Definition extractCommand (unmarshal : bytes -> option Config.raw) (decodeAddon : bytes -> option Config.rawAddon) (readFile getenv : bytes -> option bytes)
    (args sets : list bytes) (dist name : bytes) : outcome cmd_err (Config.Config * list bytes * bytes) :=
  match reverse args with
  | outDir :: (_ :: _) as rsrcs =>
      let srcs := reverse rsrcs in
      match srcs, isConfigArg (hd [] srcs) with
      | [file], true =>
          if negb (bool_decide (dist = [])) || negb (bool_decide (name = [])) then Err OnlyWithoutConfig
          else match readFile file with
               | None => Err ConfigNotRead
               | Some b =>
                   match Config.ParseInstallSetsIn unmarshal decodeAddon readFile (fun v => default [] (getenv v)) b (Dir file) with
                   | Ok cfg => Ok (cfg, sets, outDir)
                   | Err e => Err (ConfigRefused e)
                   | Panic => Panic
                   end
               end
      | _, _ =>
          if negb (bool_decide (sets = [])) then Err OnlyWithConfig
          else match directSet srcs dist name with
               | Ok set => Ok (only_sets [set], [], outDir)
               | Err e => Err (NotASet e)
               | Panic => Panic
               end
      end
  | _ => Err TooFewArgs
  end.

(** ** The set is one that a configuration could have *)

Definition numbered (base : bytes) (n : Z) : bytes := base ++ [dash] ++ dec n.

Lemma numbered_inj base n m : 0 <= n -> 0 <= m -> numbered base n = numbered base m -> n = m.
Proof.
  unfold numbered. intros Hn Hm H. do 2 apply app_inv_head in H.
  pose proof (parse_dec (Z.max n m) n ltac:(lia)) as H1. rewrite H, (parse_dec (Z.max n m) m) in H1 by lia. by injection H1.
Qed.

(** The names that the loop tries. *)
Definition tried (fuel : nat) (base ln : bytes) (n : Z) : list bytes :=
  match fuel with O => [] | S fuel => ln :: (numbered base <$> seqZ n (Z.of_nat fuel)) end.

Lemma unused_tried fuel base ln n used :
  match unused fuel base ln n used with
  | Some x => x ∉ used /\ x ∈ tried fuel base ln n
  | None => Forall (fun x => x ∈ used) (tried fuel base ln n)
  end.
Proof.
  revert ln n. induction fuel as [|fuel IH]; intros ln n; cbn [unused tried]; [constructor|]. case_bool_decide as Hu; [|split; [done|by left]].
  specialize (IH (numbered base n) (n + 1)). fold (numbered base n).
  assert (E : tried fuel base (numbered base n) (n + 1) = numbered base <$> seqZ n (Z.of_nat fuel)).
  { destruct fuel as [|fuel]; [done|]. cbn [tried]. by rewrite (seqZ_cons n) by lia; rewrite Nat2Z.inj_succ, Z.pred_succ. }
  rewrite E in IH. destruct (unused fuel base (numbered base n) (n + 1) used) as [x|]; [split; [apply IH|right; apply IH]|by constructor].
Qed.

Lemma tried_NoDup fuel base n : 0 <= n -> NoDup (tried fuel base base n).
Proof.
  intros Hn. destruct fuel as [|fuel]; [constructor|]. cbn [tried]. constructor.
  - intros (i & E & _)%list_elem_of_fmap. apply (f_equal length) in E. unfold numbered in E. rewrite length_app in E. cbn in E. lia.
  - apply NoDup_fmap_2_strong; [|apply NoDup_seqZ]. intros a b Ha%elem_of_seqZ Hb%elem_of_seqZ. apply numbered_inj; lia.
Qed.

(** There are more names to try than names used. *)
Lemma unused_found base used fuel : (length used < fuel)%nat -> exists x, unused fuel base base 2 used = Some x /\ x ∉ used /\ x ∈ tried fuel base base 2.
Proof.
  intros Hf. pose proof (unused_tried fuel base base 2 used) as H. destruct (unused fuel base base 2 used) as [x|]; [by exists x|].
  assert (Hs : tried fuel base base 2 ⊆+ used) by (apply NoDup_submseteq; [by apply tried_NoDup|]; intros x Hx; rewrite Forall_forall in H; by apply H).
  apply submseteq_length in Hs. destruct fuel as [|fuel]; [lia|]. cbn [tried length] in Hs. rewrite length_fmap, length_seqZ in Hs. lia.
Qed.

Lemma stripExt_named src : stripExt src <> [].
Proof.
  unfold stripExt. set (base := Base (Clean src)). assert (Hb : base <> []).
  { unfold base, Base, path_base. case_bool_decide; [done|]. destruct (trim_right slash (Clean src)) as [|c q] eqn:Et; [done|].
    assert (Hl : last (c :: q) <> Some slash).
    { rewrite <- Et. unfold trim_right. rewrite last_reverse. clear. induction (reverse (Clean src)) as [|x l IH]; [done|]. cbn [trim_left]. destruct (x =? slash) eqn:E; [done|].
      apply Z.eqb_neq in E. cbn. congruence. }
    pose proof (join_split (c :: q)) as Hj. destruct (last (split_byte slash (c :: q))) as [e|] eqn:El.
    - cbn. intros ->. apply last_Some in El as [l' El]. rewrite El in Hj. destruct l' as [|x l'].
      + by cbn in Hj.
      + rewrite join_slash_snoc, app_assoc, app_nil_r in Hj by done. apply Hl. rewrite <- Hj. by rewrite last_snoc.
    - apply last_None in El. by destruct (split_not_nil slash (c :: q)). }
  case_bool_decide as He; [done|]. destruct (CutSuffix base (Ext base)) as [p|] eqn:Ec; [|done]. cbn. intros ->.
  apply CutSuffix_Some in Ec. by apply He.
Qed.

(** ** Every name and layer is in order *)

Lemma add_sources_ok dist sources layers : dist <> [] -> Forall (fun s => s <> []) sources ->
  NoDup (ly_Name <$> layers) -> Forall layer_ok layers -> Forall (fun l => Config.ly_Boot l = false) layers ->
  exists more, add_sources dist sources layers = Some (layers ++ more) /\ ly_Source <$> more = sources /\
    NoDup (ly_Name <$> layers ++ more) /\ Forall layer_ok (layers ++ more) /\ Forall (fun l => Config.ly_Boot l = false) (layers ++ more).
Proof.
  intros Hd Hs. revert layers. induction Hs as [|src sources Hsrc Hs IH]; intros layers Hn Hl Hb; cbn [add_sources]; [exists []; by rewrite app_nil_r|].
  destruct (unused_found (stripExt src) (ly_Name <$> layers) (length layers + 1)) as (ln & -> & Hnew & Htry); [rewrite length_fmap; lia|].
  assert (Hln : ln <> []).
  { replace (length layers + 1)%nat with (S (length layers)) in Htry by lia. cbn [tried] in Htry. apply elem_of_cons in Htry as [->|(i & -> & _)%list_elem_of_fmap]; [apply stripExt_named|].
    unfold numbered. by destruct (stripExt src). }
  cbn [mbind option_bind]. set (l := MkLayer ln src [] dist [] false). destruct (IH (layers ++ [l])) as (more & E & Esrc & H1 & H2 & H3).
  - rewrite fmap_app. apply NoDup_app. split; [done|]. split; [|apply NoDup_singleton]. intros x Hx Hx'. apply list_elem_of_singleton in Hx'. by subst x.
  - apply Forall_app. split; [done|]. by apply Forall_singleton.
  - apply Forall_app. split; [done|]. by apply Forall_singleton.
  - exists (l :: more). rewrite <- app_assoc in *. cbn [app] in *. split; [done|]. by rewrite <- Esrc.
Qed.

Lemma or_else_ne a b : b <> [] -> or_else a b <> [].
Proof. unfold or_else. by case_bool_decide. Qed.

(** The set of a command line always comes to a layer for each source, and it is one a
    configuration could have: each layer is named, and named once. *)
Lemma directSet_ok sources dist name : sources <> [] -> Forall (fun s => s <> []) sources ->
  match directSet sources dist name with
  | Ok set => set_ok set /\ ly_Source <$> is_Layers set = sources
  | Err (NotASetName n) => IsDirName n = false
  | Err NoTurns | Panic => False
  end.
Proof.
  intros Hne Hs. unfold directSet. destruct sources as [|first rest]; [done|]. destruct (IsDirName _) eqn:Hn; cbn [negb]; [|done].
  destruct (add_sources_ok (or_else dist (str "dist")) (first :: rest) []) as (more & E & Esrc & H1 & H2 & H3);
    [by apply or_else_ne|done|constructor|constructor|constructor|].
  cbn [app] in *. rewrite E. split; [|done]. constructor; cbn.
  - by apply Config.IsDirName_ok.
  - by intros ->.
  - done.
  - done.
  - intros i j a b Ha Hb Hba. rewrite Forall_lookup in H3. by rewrite (H3 i a Ha) in Hba.
  - by intros from to.
Qed.

Lemma directSet_after sources dist name set : directSet sources dist name = Ok set -> Config.is_After set = [].
Proof.
  unfold directSet. destruct sources as [|s l]; [done|]. destruct (IsDirName _); [|done]. cbn [negb]. destruct (add_sources _ _ _); [|done]. by intros [= <-].
Qed.

Lemma ParseInstallSetsIn_ok unmarshal decodeAddon readFile getenv b dir :
  Config.post (Config.ParseInstallSetsIn unmarshal decodeAddon readFile getenv b dir) (fun c => Config.sets_ok (Config.InstallSets c)).
Proof.
  unfold Config.ParseInstallSetsIn. destruct (unmarshal b) as [r|]; [|done].
  eapply Config.post_bind; [apply Config.loadAddons_post|]. intros [passes rsets] _. apply Config.installSets_ok.
Qed.

Lemma only_set_ok set : set_ok set -> Config.is_After set = [] -> Config.sets_ok [set].
Proof.
  intros Hs Ha. unfold Config.sets_ok. split; [done|]. split; [apply NoDup_singleton|]. split; [by apply Forall_singleton|]. apply Forall_singleton.
  exists [set]. assert (Hf : Config.find_set [set] (is_Name set) = Some set) by (unfold Config.find_set; cbn; by rewrite decide_True).
  unfold Config.InstallOrder. cbn [length Nat.add Config.visit]. rewrite !bool_decide_false by (by intros H%elem_of_nil). by rewrite Hf, Ha.
Qed.

(** The command never panics, and what it runs the extractor with are sets in order:
    those of a configuration, or one of the media named. *)
Lemma extractCommand_ok unmarshal decodeAddon readFile getenv args sets dist name : Forall (fun s => s <> []) args ->
  match extractCommand unmarshal decodeAddon readFile getenv args sets dist name with
  | Ok (cfg, names, out) => Config.sets_ok (Config.InstallSets cfg) /\ last args = Some out /\ names = sets
  | Err (NotASet NoTurns) | Panic => False
  | Err _ => True
  end.
Proof.
  intros Ha. unfold extractCommand. destruct (reverse args) as [|out [|x rsrcs]] eqn:E; [done..|].
  apply (f_equal reverse) in E. rewrite reverse_involutive, reverse_cons in E. set (srcs := reverse (x :: rsrcs)) in *. subst args. rewrite last_snoc.
  apply Forall_app in Ha as [Ha _]. assert (Hne : srcs <> []) by (unfold srcs; rewrite reverse_cons; by destruct (reverse rsrcs)).
  assert (Hdirect : match (if negb (bool_decide (sets = [])) then Err OnlyWithConfig
                           else match directSet srcs dist name with Ok set => Ok (only_sets [set], [], out) | Err e => Err (NotASet e) | Panic => Panic end) with
    | Ok (cfg, names, out') => Config.sets_ok (Config.InstallSets cfg) /\ Some out = Some out' /\ names = sets | Err (NotASet NoTurns) | Panic => False | Err _ => True end).
  { case_bool_decide as Hs; cbn [negb]; [|done]. subst sets. pose proof (directSet_ok srcs dist name Hne Ha) as H. destruct (directSet srcs dist name) as [set|[]|] eqn:Ed; try done.
    split; [|done]. apply only_set_ok; [apply H|]. by eapply directSet_after. }
  destruct srcs as [|file [|]]; [done| |exact Hdirect]. destruct (isConfigArg _); [|exact Hdirect].
  destruct (_ || _); [done|]. destruct (readFile file) as [b|]; [|done].
  pose proof (ParseInstallSetsIn_ok unmarshal decodeAddon readFile (fun v => default [] (getenv v)) b (Dir file)) as H.
  by destruct (Config.ParseInstallSetsIn _ _ _ _ _ _).
Qed.
